(* ===== verification/_CoqProject ===== *)
-Q . S2P
Prelude.v
Dll.v
Queue.v
Vmm.v
VmmShape.v
VmmPut.v
VmmRegions.v
VmmInv.v
VmmSpec.v
RingBuf.v
Bitmap.v
Pmm.v
Btree.v
BtreeSpec.v
Mmap.v
MmapShape.v
MmapEdit.v
MmapUnmap.v
MmapHoles.v
MmapSpec.v
MmapProtect.v
MmapSpace.v
Zone.v
ZoneInv.v
ZoneSpec.v
Paging.v
PagingMem.v
PagingInv.v
PagingSpec.v
PagingCopy.v
PagingUnmap.v
PageFault.v
PageFaultSpec.v
Strings.v
StringsSpec.v
Sched.v
SchedInv.v
SchedSpec.v
SchedSwitch.v
SchedStep.v
Locks.v
LocksSpec.v
FsTypes.v
FileTable.v
FileTableSpec.v
Path.v
PathSpec.v
Inode.v
Vfs.v
Tmpfs.v
VfsTree.v
VfsSpec.v
TmpfsSpec.v
Pipe.v
PipeSpec.v
PageCache.v
PageCacheSpec.v
Liballoc.v
LiballocInv.v
LiballocBlocks.v
LiballocPlace.v
LiballocMalloc.v
LiballocFree.v
LiballocRep.v
LiballocSpec.v
Snprintf.v
SnprintfSpec.v
Jobs.v
JobsRun.v
JobsInv.v
JobCalls.v
JobCallsRun.v
JobTree.v
JobExit.v
Signals.v
SignalsRun.v
SigFrame.v
JobsSpec.v
JobsFaults.v
SignalsSpec.v
