(* ===== verification/Prelude.v ===== *)
(** * gingerOs kernel: a verification development

    gingerOs is a 32-bit x86 kernel in C ([src/kernel]).  This library translates its
    sequential core into Rocq definitions, file by file, and proves what that code does.
    Definitions keep the names of the C functions; loops, early returns, error paths,
    locks and the width of integers are kept.

    ** How C is modelled

    - A part of the kernel is a [Record] of its globals and heap objects.  Its functions are
      of type [M S A]: from a state they return a value and a state ([Ok]), stop in
      [panic()] or a failed [assert()] ([Panic]), use a NULL, freed or out-of-range pointer
      ([Fault]), or run out of fuel ([NoFuel]).  [wp m Q s] is total correctness: [m]
      returns from [s] and the result satisfies [Q].
    - Objects are in finite maps from locations; [kmalloc] is the class [Kalloc], which may
      fail, and returns a location that is not in use.  [kfree] of what is not there is a
      fault.  A spinlock is a bit: to take a lock that is held is a panic, because in the
      sequential model nobody else can let it go.
    - 32-bit words are [Z] with the wrap-around written out ([u32], [i32]).
    - A function that sleeps is cut there: [f_enter] is the code up to the switch and [f_leave]
      the code after it.  Interleavings are sequences of such steps.
    - [zoom] and the class [Holds] run a component on its part of a larger state, so that
      code that uses several components is composed of their definitions.
    - Loops take fuel.  Where fuel is an argument of a loop, its caller passes a bound that
      is derived from the state (the number of heap objects, the size of a range, the length
      of a string), and the theorems show that it is enough: none of them allows [NoFuel].

    ** Memory

    - [Prelude]: outcomes, the monad, [wp], heaps, locks, words.  [Dll]: doubly linked lists.
    - [Queue] ([ds/queue/queue.c]): refines a FIFO list.  [RingBuf] ([ds/ringbuf.c]), [Bitmap]
      ([ds/bmap.c]), [Btree], [BtreeSpec] ([ds/btree.c]: a finite map).
    - [Vmm] and [VmmShape], [VmmPut], [VmmRegions], [VmmInv], [VmmSpec] ([mm/vmm/vmm.c]): the
      kernel's address ranges; the three lists always tile the heap, and allocation and
      release refine a map of disjoint ranges.
    - [Pmm] ([mm/pmm/pmm.c]), [Zone], [ZoneInv], [ZoneSpec] ([mm/pmm/mm_zone.c],
      [mm/pmm/zone_page.c]): page frames and their reference counts.
    - [Paging], [PagingMem], [PagingInv], [PagingSpec], [PagingCopy], [PagingUnmap]
      ([arch/i386/mmu]): page tables in physical memory, seen through the two-level walk and
      the recursive mapping; mapping, unmapping and copying of pages.
    - [PageFault], [PageFaultSpec] ([arch/i386/mmu/pagefault.c]): copy on write gives the
      writer a frame of its own with the same contents and keeps all other mappings.
    - [Mmap], [MmapShape], [MmapEdit], [MmapUnmap], [MmapHoles], [MmapSpec], [MmapProtect],
      [MmapSpace] ([mm/mmap/mmap.c]): the sorted list of regions of an address space and all
      operations on it, against the attributes and the offset in its file of every address.
      The page tables are not part of this state.

    - [Liballoc], [LiballocBlocks], [LiballocInv], [LiballocPlace], [LiballocMalloc], [LiballocFree],
      [LiballocRep], [LiballocSpec] ([mm/liballoc]): the kernel heap; allocation, release
      and reallocation refine a map from addresses to sizes of disjoint pieces.

    ** Threads

    - [Sched], [SchedInv], [SchedSpec], [SchedSwitch], [SchedStep] ([sys/sched], [sys/threads],
      [sys/sleep.c], [locks/cond.c]): thread states, queues, ready levels and condition
      variables.  Events are started, run, woken, killed in any order and on any CPU: every
      reachable state satisfies the invariant and no assertion of the scheduler fails.
    - [Locks], [LocksSpec] ([locks/mutex.c], [locks/event.c]): mutexes refine a lock with a
      FIFO of waiters; [mutex_try_lock] and [event_signal] break it.

    ** Processes

    - [Jobs] ([sys/session.c]): process groups and sessions; the state is the table of
      processes, the groups, the sessions, the lists of all of them and the set of locks that
      are held.  [room] is the answers of the allocations of queue nodes.  [JobsRun] gives what
      each operation does, [JobsInv] the invariant.
    - [JobCalls] ([sys/proc.c], [sys/sysproc.c], [sys/syscall/exit.c], [sys/syscall/wait.c]) and
      its runs [JobCallsRun], [JobTree], [JobExit]: ids, [fork], [exit], [waitpid], [setpgid] and
      [setsid].  Of what [fork] copies and [exit] gives back, address space, files and threads
      are other components and not part of this state.
    - [Signals], [SignalsRun] ([sys/signal.c], [arch/sys/signal.c]): who gets a signal and what it
      does.  [SigFrame]: the frame of a handler in user mode and the return from it.
    - [JobsSpec], [SignalsSpec]: each call does what it is specified to do, and in every state
      that any sequence of calls leads to the tables agree and the next call returns.
      [JobsFaults]: where the calls go wrong.

    ** Files

    - [Strings], [StringsSpec] ([lib/string.c], [lib/ctype.c]): strings in a byte-addressed
      heap in which a read or write out of a block is a fault.  [Snprintf], [SnprintfSpec]
      ([lib/snprintf.c]): formatted output, against the text of each conversion.
    - [Path], [PathSpec] ([fs/vfs.c]): parsing of path names against an abstract normalisation.
    - [FsTypes], [Inode] ([fs/inode.c], [fs/inode_helpers.c], [fs/dentry.c]), [Vfs]
      ([fs/vfs.c], [fs/mount.c]), [VfsTree], [VfsSpec]: the tree of directory entries refines
      a map from entries to lists of children; lookup finds what is at the path.  Lookup runs
      the code of [Path] on a memory of strings; the class [PathAlloc] is its allocator.
    - [Tmpfs], [TmpfsSpec] ([fs/tmpfs/tmpfs.c]), [Pipe], [PipeSpec] ([fs/pipefs/pipe.c]: no byte
      is lost, made up or reordered in any interleaving), [PageCache], [PageCacheSpec]
      ([mm/mapping.c], [iread] and [iwrite]: refine reads and writes of an array of bytes).
    - [FileTable], [FileTableSpec] ([fs/sysfile.c], [fs/file.c], [fs/posix]): descriptors refine
      a partial map from numbers to open files with reference counts, each failure for its reason.

    ** Kinds of theorems

    Names that end in [_refines] are refinements of an abstract machine for any sequence of
    operations; in [_correct], the result of one operation on every branch; in [_faults],
    [_breaks], [_overlaps], [_hangs], [_dangles], [_lost], [_refused], [_panics], [_kills] and
    [_overruns], inputs on which the code goes wrong.
    A theorem with hypotheses has a [_witness] that applies it to a concrete state.

    ** Not modelled

    - Devices, interrupts, boot, CPUs, ACPI, the context switch and everything in assembly:
      they are port and register accesses.
    - Console, frame buffer and [printk]: output only.
    - Program loaders and [exec], which put an address space, a file and a thread together;
      the file systems on devices and on the boot image ([devfs], [ramfs]); terminals.
    - True parallelism inside a critical section: a section that holds its locks is one step.
    - [src/usr], bundled fonts and image decoders: not kernel code. *)
From Stdlib Require Export ZArith Lia.
From stdpp Require Export sorting.
From stdpp Require Export prelude list_numbers functions gmap fin_maps.
#[global] Set Default Proof Using "Type".
#[global] Open Scope Z_scope.

(** ** Outcomes and the kernel monad *)

(** What a call can do: return, stop in [panic()] or a failed [assert()],
    dereference a NULL or dangling pointer, or exhaust the fuel of a modelled loop. *)
Inductive outcome (A : Type) : Type :=
| Ok (a : A)
| Panic
| Fault
| NoFuel.
Arguments Ok {A} a.
Arguments Panic {A}.
Arguments Fault {A}.
Arguments NoFuel {A}.

(** Kernel code over a state [S]. *)
Definition M (S A : Type) : Type := S → outcome (A * S).

#[global] Instance M_ret S : MRet (M S) := λ A a s, Ok (a, s).
#[global] Instance M_bind S : MBind (M S) := λ A B f m s,
  match m s with
  | Ok (a, s') => f a s'
  | Panic => Panic
  | Fault => Fault
  | NoFuel => NoFuel
  end.

Definition gets {S A} (f : S → A) : M S A := λ s, Ok (f s, s).
Definition modify {S} (f : S → S) : M S unit := λ s, Ok (tt, f s).
Definition panic {S A} : M S A := λ _, Panic.
Definition fault {S A} : M S A := λ _, Fault.
Definition nofuel {S A} : M S A := λ _, NoFuel.
Definition kassert {S} (b : bool) : M S unit := if b then mret tt else panic.

(** [zoom]: run the code of a component on its part of a larger state. *)
Definition zoom {S T A} (get : T → S) (put : S → T → T) (m : M S A) : M T A := λ t,
  match m (get t) with
  | Ok (a, s') => Ok (a, put s' t)
  | Panic => Panic
  | Fault => Fault
  | NoFuel => NoFuel
  end.

(** A state [T] that holds the state [S] of a component; [on] runs the component's code. *)
Class Holds (T S : Type) : Type := {
  part : T → S;
  set_part : S → T → T;
  part_set : ∀ s t, part (set_part s t) = s;
  set_part_part : ∀ t, set_part (part t) t = t;
  set_part_set : ∀ s s' t, set_part s (set_part s' t) = set_part s t;
}.
#[global] Program Instance holds_self S : Holds S S | 100 := {| part s := s; set_part s _ := s |}.
Solve Obligations with done.
Definition on {T S A} `{!Holds T S} (m : M S A) : M T A := zoom part set_part m.
#[global] Arguments on {T S A _} m : simpl never.

(** Total correctness: [m] returns from [s] and its result satisfies [Q]. *)
Definition wp {S A} (m : M S A) (Q : A → S → Prop) (s : S) : Prop :=
  match m s with Ok (a, s') => Q a s' | _ => False end.

Section wp.
Context {S : Type}.
Implicit Types s : S.

Lemma wp_exec {A} (m : M S A) Q s : wp m Q s ↔ ∃ a s', m s = Ok (a, s') ∧ Q a s'.
Proof.
  unfold wp. split.
  - destruct (m s) as [[a s']| | |]; try done. eauto.
  - by intros (a & s' & -> & ?).
Qed.
Lemma wp_bind {A B} (m : M S A) (f : A → M S B) Q s :
  wp m (λ a s', wp (f a) Q s') s → wp (m ≫= f) Q s.
Proof. unfold wp, mbind, M_bind. by destruct (m s) as [[]| | |]. Qed.
Lemma wp_ret {A} (a : A) (Q : A → S → Prop) s : Q a s → wp (mret a) Q s.
Proof. done. Qed.
Lemma wp_gets {A} (f : S → A) (Q : A → S → Prop) s : Q (f s) s → wp (gets f) Q s.
Proof. done. Qed.
Lemma wp_modify (f : S → S) (Q : unit → S → Prop) s : Q tt (f s) → wp (modify f) Q s.
Proof. done. Qed.
Lemma wp_kassert b (Q : unit → S → Prop) s : b = true → Q tt s → wp (kassert b) Q s.
Proof. by intros ->. Qed.
Lemma wp_mono {A} (m : M S A) (P Q : A → S → Prop) s :
  wp m P s → (∀ a s', P a s' → Q a s') → wp m Q s.
Proof. unfold wp. destruct (m s) as [[]| | |]; naive_solver. Qed.
Lemma wp_eq {A} (m : M S A) (Q : A → S → Prop) s a s' : m s = Ok (a, s') → Q a s' → wp m Q s.
Proof. unfold wp. by intros ->. Qed.
Lemma wp_zoom {T A} (get : T → S) (put : S → T → T) (m : M S A) (Q : A → T → Prop) t :
  wp m (λ a s', Q a (put s' t)) (get t) → wp (zoom get put m) Q t.
Proof. unfold wp, zoom. by destruct (m (get t)) as [[]| | |]. Qed.
Lemma wp_on {T A} `{!Holds T S} (m : M S A) (Q : A → T → Prop) t :
  wp m (λ a s', Q a (set_part s' t)) (part t) → wp (on m) Q t.
Proof. apply wp_zoom. Qed.
End wp.

(** ** Pointers and object heaps *)

Definition loc : Type := positive.
Abbreviation ptr := (option loc).
Abbreviation NULL := (@None loc).

(** A state [S] that holds the objects of C type [V]. *)
Class Heap (S V : Type) : Type := {
  heap_of : S → gmap loc V;
  put_heap : gmap loc V → S → S;
  heap_of_put : ∀ h s, heap_of (put_heap h s) = h;
  put_heap_of : ∀ s, put_heap (heap_of s) s = s;
}.

(** The kernel allocator, as the code that calls it may rely on it: [kmalloc]
    returns NULL or an object that was not allocated.  Which one is open. *)
Class Kalloc (V : Type) : Type := {
  kmalloc_at : gmap loc V → ptr;
  kmalloc_fresh : ∀ h p, kmalloc_at h = Some p → h !! p = None;
}.

(** An allocator that never fails, and one that always does. *)
Program Definition kalloc_total (V : Type) : Kalloc V := {| kmalloc_at h := Some (fresh (dom h)) |}.
Next Obligation. intros V h p [= <-]. apply not_elem_of_dom, is_fresh. Qed.
Program Definition kalloc_empty (V : Type) : Kalloc V := {| kmalloc_at h := None |}.
Next Obligation. done. Qed.

(** The heap after [if (p) p->f = ...]. *)
Definition alter_opt {V} (f : V → V) (p : ptr) (h : gmap loc V) : gmap loc V :=
  match p with Some q => alter f q h | None => h end.

Lemma dom_alter_opt {V} (f : V → V) p (h : gmap loc V) : dom (alter_opt f p h) = dom h.
Proof. destruct p; simpl; [apply dom_alter_L|done]. Qed.

Lemma lookup_alter_opt_is_Some {V} (f : V → V) p (h : gmap loc V) l :
  is_Some (alter_opt f p h !! l) ↔ is_Some (h !! l).
Proof. destruct p; simpl; [apply lookup_alter_is_Some|done]. Qed.
Lemma lookup_alter_opt_congr {V} (f : V → V) p (h1 h2 : gmap loc V) q :
  h1 !! q = h2 !! q → alter_opt f p h1 !! q = alter_opt f p h2 !! q.
Proof.
  destruct p as [p|]; simpl; [|done]. intros Hq.
  destruct (decide (p = q)) as [->|?]; [by rewrite !lookup_alter_eq, Hq|by rewrite !lookup_alter_ne].
Qed.
Lemma alter_opt_alter_opt {V} (f g : V → V) p (h : gmap loc V) :
  (∀ v, f (g v) = f v) → alter_opt f p (alter_opt g p h) = alter_opt f p h.
Proof.
  intros Hfg. destruct p as [p|]; simpl; [|done]. apply map_eq. intros q.
  destruct (decide (p = q)) as [->|?]; [|by rewrite !lookup_alter_ne].
  rewrite !lookup_alter_eq. destruct (h !! q); simpl; by rewrite ?Hfg.
Qed.
Lemma lookup_alter_opt_ne {V} (f : V → V) p (h : gmap loc V) l :
  p ≠ Some l → alter_opt f p h !! l = h !! l.
Proof. destruct p; simpl; [|done]. intros ?. apply lookup_alter_ne. congruence. Qed.

Section heap.
Context {S V : Type} `{!Heap S V}.

(** [*p], [p->f = ...], [kmalloc(sizeof *p)] with the object's first value, [kfree(p)]. *)
Definition rd (p : ptr) : M S V := λ s,
  match p ≫= λ l, heap_of s !! l with Some v => Ok (v, s) | None => Fault end.
Definition upd (p : ptr) (f : V → V) : M S unit := λ s,
  match p with
  | Some l => match heap_of s !! l with
              | Some _ => Ok (tt, put_heap (alter f l (heap_of s)) s)
              | None => Fault
              end
  | None => Fault
  end.
Definition kmalloc `{!Kalloc V} (v : V) : M S ptr := λ s,
  match kmalloc_at (heap_of s) with
  | Some l => Ok (Some l, put_heap (<[l := v]> (heap_of s)) s)
  | None => Ok (NULL, s)
  end.
Definition kfree (p : ptr) : M S unit := λ s,
  match p with
  | Some l => match heap_of s !! l with
              | Some _ => Ok (tt, put_heap (delete l (heap_of s)) s)
              | None => Fault
              end
  | None => Ok (tt, s)
  end.

Lemma wp_rd l v (Q : V → S → Prop) s :
  heap_of s !! l = Some v → Q v s → wp (rd (Some l)) Q s.
Proof. unfold wp, rd. simpl. by intros ->. Qed.
Lemma wp_upd l f (Q : unit → S → Prop) s :
  is_Some (heap_of s !! l) → Q tt (put_heap (alter f l (heap_of s)) s) →
  wp (upd (Some l) f) Q s.
Proof. unfold wp, upd. by intros [v ->]. Qed.
Lemma wp_upd_opt p f (Q : unit → S → Prop) s :
  (∀ l, p = Some l → is_Some (heap_of s !! l)) → Q tt (put_heap (alter_opt f p (heap_of s)) s) →
  wp (match p with Some l => upd (Some l) f | None => mret tt end) Q s.
Proof.
  destruct p as [l|]; simpl; intros Hl HQ.
  - apply wp_upd; [by apply Hl|done].
  - rewrite put_heap_of in HQ. by apply wp_ret.
Qed.
Lemma wp_kfree l (Q : unit → S → Prop) s :
  is_Some (heap_of s !! l) → Q tt (put_heap (delete l (heap_of s)) s) →
  wp (kfree (Some l)) Q s.
Proof. unfold wp, kfree. by intros [v ->]. Qed.
Lemma wp_kmalloc `{!Kalloc V} v (Q : ptr → S → Prop) s :
  (kmalloc_at (heap_of s) = None → Q NULL s) →
  (∀ l, kmalloc_at (heap_of s) = Some l → heap_of s !! l = None →
        Q (Some l) (put_heap (<[l := v]> (heap_of s)) s)) →
  wp (kmalloc v) Q s.
Proof.
  intros HN HQ. unfold wp, kmalloc. destruct (kmalloc_at _) eqn:E; [|by apply HN].
  apply HQ; [done|]. by apply kmalloc_fresh.
Qed.
End heap.

(** ** Spinlocks *)

(** The lock of an object as the running CPU sees it: [held] is [spin_holding]. *)
Class Lock (S : Type) : Type := {
  held : S → bool;
  set_held : bool → S → S;
}.

Section lock.
Context {S : Type} `{!Lock S}.
Definition spin_assert_lock : M S unit := b ← gets held; if (b : bool) then mret tt else panic.
Definition spin_lock : M S unit := b ← gets held; if (b : bool) then panic else modify (set_held true).
Definition spin_unlock : M S unit := b ← gets held; if (b : bool) then modify (set_held false) else panic.
Definition spin_trylock : M S bool :=
  b ← gets held; if (b : bool) then mret false else modify (set_held true);; mret true.

Lemma wp_spin_assert_lock (Q : unit → S → Prop) s : held s = true → Q tt s → wp spin_assert_lock Q s.
Proof. intros H ?. unfold wp, spin_assert_lock, mbind, M_bind, gets. by rewrite H. Qed.
Lemma wp_spin_lock (Q : unit → S → Prop) s : held s = false → Q tt (set_held true s) → wp spin_lock Q s.
Proof. intros H ?. unfold wp, spin_lock, mbind, M_bind, gets. by rewrite H. Qed.
Lemma wp_spin_unlock (Q : unit → S → Prop) s : held s = true → Q tt (set_held false s) → wp spin_unlock Q s.
Proof. intros H ?. unfold wp, spin_unlock, mbind, M_bind, gets. by rewrite H. Qed.
Lemma wp_spin_trylock (Q : bool → S → Prop) s : held s = true → Q false s → wp spin_trylock Q s.
Proof. intros H ?. unfold wp, spin_trylock, mbind, M_bind, gets. by rewrite H. Qed.
End lock.

(** ** Symbolic execution *)

#[global] Opaque wp.

Create HintDb kheap.

Ltac lookup_norm :=
  repeat first
    [ rewrite lookup_alter_eq | rewrite lookup_alter_ne by congruence
    | rewrite lookup_insert_eq | rewrite lookup_insert_ne by congruence
    | rewrite lookup_delete_ne by congruence
    | rewrite lookup_alter_opt_ne by congruence
    | match goal with H : ?h !! ?p = Some _ |- context [?h !! ?p] => rewrite H end ].
Ltac lookup_solve :=
  cbn; destruct_and?; rewrite ?lookup_alter_is_Some, ?lookup_alter_opt_is_Some, ?lookup_alter_is_Some;
  lookup_norm; cbn; solve [eauto with kheap].

Ltac wp_prim :=
  lazymatch goal with
  | |- wp (_ ≫= _) _ _ => apply wp_bind
  | |- wp (mret _) _ _ => apply wp_ret
  | |- wp (gets _) _ _ => apply wp_gets
  | |- wp (modify _) _ _ => apply wp_modify
  | |- wp (rd (Some _)) _ _ => eapply wp_rd; [lookup_solve|]
  | |- wp (upd (Some _) _) _ _ => apply wp_upd; [lookup_solve|]
  | |- wp (match _ with Some l => upd (Some l) _ | None => mret tt end) _ _ =>
      apply wp_upd_opt; [try solve [eauto with kheap]|]
  | |- wp (kfree (Some _)) _ _ => apply wp_kfree; [lookup_solve|]
  | |- wp spin_assert_lock _ _ => apply wp_spin_assert_lock; [cbn; solve [eauto]|]
  | |- wp spin_lock _ _ => apply wp_spin_lock; [cbn; solve [eauto]|]
  | |- wp spin_unlock _ _ => apply wp_spin_unlock; [cbn; solve [eauto]|]
  | |- wp spin_trylock _ _ => apply wp_spin_trylock; [cbn; solve [eauto]|]
  | |- wp (kassert _) _ _ => apply wp_kassert; [try (apply bool_decide_eq_true_2; done)|]
  end; cbn beta iota.
Ltac wp_go := repeat (wp_prim; cbn).

(** ** Errors *)

Definition EINTR : Z := 4.
Definition ENOENT : Z := 2.
Definition ESRCH : Z := 3.
Definition ENOMEM : Z := 12.
Definition EACCES : Z := 13.
Definition EFAULT : Z := 14.
Definition EEXIST : Z := 17.
Definition EINVAL : Z := 22.
Definition EPIPE : Z := 32.
Definition EALREADY : Z := 114.
Definition EADDRNOTAVAIL : Z := 99.

(** ** 32-bit words *)

Definition u32 (z : Z) : Z := z mod 2 ^ 32.
Definition i32 (z : Z) : Z := (z + 2 ^ 31) mod 2 ^ 32 - 2 ^ 31.

Lemma u32_small z : 0 ≤ z < 2 ^ 32 → u32 z = z.
Proof. apply Z.mod_small. Qed.
Lemma u32_range z : 0 ≤ u32 z < 2 ^ 32.
Proof. by apply Z.mod_pos_bound. Qed.
Lemma i32_small z : - 2 ^ 31 ≤ z < 2 ^ 31 → i32 z = z.
Proof. intros. unfold i32. rewrite Z.mod_small; lia. Qed.

Lemma i32_idem z : i32 (i32 z) = i32 z.
Proof. apply i32_small. unfold i32. pose proof (Z.mod_pos_bound (z + 2 ^ 31) (2 ^ 32)). lia. Qed.

Ltac u32_simp := repeat (rewrite u32_small by lia); repeat (rewrite i32_small by lia).

Definition PAGESZ : Z := 0x1000.
Definition PAGEMASK : Z := 0x0FFF.

Lemma page_aligned z : Z.land z PAGEMASK = 0 ↔ (PAGESZ | z).
Proof.
  change PAGEMASK with (Z.ones 12). rewrite Z.land_ones by lia. change (2 ^ 12) with PAGESZ.
  apply Z.mod_divide. done.
Qed.
#[global] Instance whole_pages_dec z : Decision (PAGESZ | z).
Proof. refine (cast_if (decide (Z.land z PAGEMASK = 0))); by rewrite <- page_aligned. Defined.
