(* ===== verification/Dll.v ===== *)
(** * Doubly linked lists on the kernel heap

    The kernel threads its objects on doubly linked lists by [prev] and [next]
    pointers: the nodes of [ds/queue], the region nodes of [mm/vmm] and the
    memory regions of [mm/mmap].  [node D] is such an object, its links and the
    other fields [D] of its structure.  [linked h pv l nx] says that the heap [h]
    holds, for every [(p, d)] of [l], an object at [p] with payload [d], and that
    these objects are chained in the order of [l], from [pv] to [nx]. *)
From S2P Require Import Prelude.

Record node (D : Type) : Type := Node { n_data : D; n_prev : ptr; n_next : ptr }.
Arguments Node {D} n_data n_prev n_next.
Arguments n_data {D} _.
Arguments n_prev {D} _.
Arguments n_next {D} _.

Definition set_next {D} (p : ptr) (v : node D) : node D := {| v with n_next := p |}.
Definition set_prev {D} (p : ptr) (v : node D) : node D := {| v with n_prev := p |}.
Definition set_data {D} (f : D → D) (v : node D) : node D := {| v with n_data := f (n_data v) |}.

(** The first location of a chain that continues with [nx], and the last one of
    a chain that comes after [pv]. *)
Definition hd_or {D} (nx : ptr) (l : list (loc * D)) : ptr :=
  match l with [] => nx | (p, _) :: _ => Some p end.
Fixpoint lst_or {D} (pv : ptr) (l : list (loc * D)) : ptr :=
  match l with [] => pv | (p, _) :: l' => lst_or (Some p) l' end.

Section dll.
Context {D : Type}.
Implicit Types (h : gmap loc (node D)) (l : list (loc * D)) (pv nx : ptr).

Fixpoint linked h pv l nx : Prop :=
  match l with
  | [] => True
  | (p, d) :: l' => h !! p = Some (Node d pv (hd_or nx l')) ∧ linked h (Some p) l' nx
  end.

Lemma hd_or_app nx l1 l2 : hd_or nx (l1 ++ l2) = hd_or (hd_or nx l2) l1.
Proof. by destruct l1 as [|[]]. Qed.
Lemma lst_or_app pv l1 l2 : lst_or pv (l1 ++ l2) = lst_or (lst_or pv l1) l2.
Proof. revert pv. induction l1 as [|[] l1 IH]; simpl; auto. Qed.
Lemma lst_or_snoc pv l p d : lst_or pv (l ++ [(p, d)]) = Some p.
Proof. by rewrite lst_or_app. Qed.

Lemma lst_or_Some p l : is_Some (lst_or (Some p) l).
Proof. revert p. induction l as [|[q e] l IH]; simpl; eauto. Qed.

Lemma linked_app h pv l1 l2 nx :
  linked h pv (l1 ++ l2) nx ↔ linked h pv l1 (hd_or nx l2) ∧ linked h (lst_or pv l1) l2 nx.
Proof.
  revert pv. induction l1 as [|[p d] l1 IH]; intros pv; simpl; [naive_solver|].
  rewrite hd_or_app, IH. naive_solver.
Qed.

Lemma linked_elem h pv l nx p d : linked h pv l nx → (p, d) ∈ l →
  ∃ a b, h !! p = Some (Node d a b).
Proof.
  revert pv. induction l as [|[q e] l IH]; intros pv; simpl; [set_solver|].
  intros [Hq Hl] [[= -> ->]|?]%elem_of_cons; eauto.
Qed.
Lemma linked_is_Some h pv l nx p : linked h pv l nx → p ∈ l.*1 → is_Some (h !! p).
Proof.
  intros Hl ([? d] & -> & Hin)%list_elem_of_fmap. simpl.
  destruct (linked_elem _ _ _ _ _ _ Hl Hin) as (?&?&->). eauto.
Qed.

(** A chain that ends is determined by where it starts, so it has no repetition. *)
Lemma linked_unique h pv1 pv2 l1 l2 :
  linked h pv1 l1 NULL → linked h pv2 l2 NULL → hd_or NULL l1 = hd_or NULL l2 → l1 = l2.
Proof.
  revert pv1 pv2 l2. induction l1 as [|[p d] l1 IH]; intros pv1 pv2 [|[q e] l2]; simpl; try done.
  intros [Hp H1] [Hq H2] [= ->]. simplify_eq. f_equal. eauto.
Qed.
Lemma linked_NoDup h pv l : linked h pv l NULL → NoDup l.*1.
Proof.
  revert pv. induction l as [|[p d] l IH]; intros pv; csimpl; [constructor|].
  intros [Hp Hl]. constructor; [|by eauto].
  intros ([q e] & Heq & Hin)%list_elem_of_fmap. simpl in Heq; subst q.
  apply list_elem_of_split in Hin as (l1 & l2 & ->).
  assert ((p, d) :: l1 ++ (p, e) :: l2 = (p, e) :: l2) as Heq.
  { apply linked_app in Hl as [? Hl2]. eapply (linked_unique h pv (lst_or (Some p) l1)); [|done..].
    split; [done|]. by apply linked_app. }
  apply (f_equal length) in Heq. simpl in Heq. rewrite length_app in Heq. simpl in Heq. lia.
Qed.
Lemma linked_cons h pv p d l :
  linked h pv ((p, d) :: l) NULL →
  h !! p = Some (Node d pv (hd_or NULL l)) ∧ linked h (Some p) l NULL ∧ (p ∉ l.*1) ∧ NoDup l.*1.
Proof.
  intros Hl. pose proof (linked_NoDup _ _ _ Hl) as Hnd. csimpl in *.
  apply NoDup_cons in Hnd. naive_solver.
Qed.
Lemma lst_or_elem pv l p : lst_or pv l = Some p → (l = [] ∧ pv = Some p) ∨ p ∈ l.*1.
Proof.
  destruct l as [|[q e] l _] using rev_ind; [by left|].
  rewrite lst_or_snoc. intros [= ->]. right. rewrite fmap_app. set_solver.
Qed.
Lemma hd_or_elem nx l p : hd_or nx l = Some p → (l = [] ∧ nx = Some p) ∨ p ∈ l.*1.
Proof. destruct l as [|[q e] l]; simpl; [by left|]. intros [= ->]. right. csimpl. left. Qed.
Lemma lst_or_nonempty pv pv' l : l ≠ [] → lst_or pv l = lst_or pv' l.
Proof. by destruct l as [|[]]. Qed.
Lemma linked_length h pv l nx : NoDup l.*1 → linked h pv l nx → (length l ≤ size h)%nat.
Proof.
  intros Hnd Hl. rewrite <- (length_fmap fst l), <- (size_list_to_set (C := gset loc)) by done.
  rewrite <- size_dom. apply subseteq_size. intros p Hp%elem_of_list_to_set.
  apply elem_of_dom. eauto using linked_is_Some.
Qed.

(** Framing: a chain does not see objects outside it. *)
Lemma linked_ext h h' pv l nx :
  (∀ p, p ∈ l.*1 → h' !! p = h !! p) → linked h pv l nx → linked h' pv l nx.
Proof.
  revert pv. induction l as [|[p d] l IH]; intros pv Heq; csimpl; [done|].
  intros [Hp Hl]. split; [by rewrite Heq by (csimpl; left)|].
  apply IH; [|done]. intros q ?. apply Heq. csimpl. by right.
Qed.
Lemma linked_alter_ne h f p pv l nx :
  p ∉ l.*1 → linked h pv l nx → linked (alter f p h) pv l nx.
Proof. intros Hp. apply linked_ext. intros q Hq. apply lookup_alter_ne. congruence. Qed.
Lemma linked_insert_ne h v p pv l nx :
  p ∉ l.*1 → linked h pv l nx → linked (<[p := v]> h) pv l nx.
Proof. intros Hp. apply linked_ext. intros q Hq. apply lookup_insert_ne. congruence. Qed.
Lemma linked_delete_ne h p pv l nx :
  p ∉ l.*1 → linked h pv l nx → linked (delete p h) pv l nx.
Proof. intros Hp. apply linked_ext. intros q Hq. apply lookup_delete_ne. congruence. Qed.

(** Redirecting the two ends of a chain: [if (p) p->next = nx'] and
    [if (p) p->prev = pv']. *)
Lemma linked_set_next h pv l nx nx' :
  NoDup l.*1 → linked h pv l nx → linked (alter_opt (set_next nx') (lst_or NULL l) h) pv l nx'.
Proof.
  destruct l as [|[p d] l _] using rev_ind; [done|].
  rewrite lst_or_snoc, fmap_app. intros (Hnd & Hni & _)%NoDup_app [Hl [Hp _]]%linked_app. simpl.
  apply linked_app. split.
  - apply linked_alter_ne; [|done]. intros ?. apply (Hni p); [done|]. csimpl. set_solver.
  - split; [|done]. rewrite lookup_alter_eq, Hp. done.
Qed.
Lemma linked_hd_is_Some h pv l nx p : linked h pv l nx → hd_or NULL l = Some p → is_Some (h !! p).
Proof. intros Hl [[??]|?]%hd_or_elem; [done|]. eauto using linked_is_Some. Qed.
Lemma linked_lst_is_Some h pv l nx p : linked h pv l nx → lst_or NULL l = Some p → is_Some (h !! p).
Proof. intros Hl [[??]|?]%lst_or_elem; [done|]. eauto using linked_is_Some. Qed.
Lemma linked_set_prev h pv l nx pv' :
  NoDup l.*1 → linked h pv l nx → linked (alter_opt (set_prev pv') (hd_or NULL l) h) pv' l nx.
Proof.
  destruct l as [|[p d] l]; [done|]. csimpl. intros [? ?]%NoDup_cons [Hp Hl]. split.
  - by rewrite lookup_alter_eq, Hp.
  - by apply linked_alter_ne.
Qed.

(** Taking one object out of a chain: its neighbours are linked to each other. *)
Lemma NoDup_mid l1 p d l2 : NoDup (l1 ++ (p, d) :: l2).*1 →
  NoDup (l1 ++ l2).*1 ∧ NoDup l1.*1 ∧ NoDup l2.*1 ∧ (p ∉ l1.*1) ∧ (p ∉ l2.*1) ∧ (∀ q, q ∈ l1.*1 → q ∉ l2.*1).
Proof.
  rewrite !fmap_app. csimpl. rewrite NoDup_app, NoDup_cons, NoDup_app. set_solver.
Qed.
Lemma linked_alter_opt_ne h f p pv l nx :
  (∀ q, p = Some q → q ∉ l.*1) → linked h pv l nx → linked (alter_opt f p h) pv l nx.
Proof. destruct p; simpl; [|done]. intros ?. apply linked_alter_ne. auto. Qed.
Lemma linked_unlink h pv l1 p d l2 nx :
  NoDup (l1 ++ (p, d) :: l2).*1 → linked h pv (l1 ++ (p, d) :: l2) nx →
  linked (alter_opt (set_prev (lst_or pv l1)) (hd_or NULL l2)
           (alter_opt (set_next (hd_or nx l2)) (lst_or NULL l1) h)) pv (l1 ++ l2) nx.
Proof.
  intros (_ & Hnd1 & Hnd2 & Hp1 & Hp2 & Hdj)%NoDup_mid. rewrite !linked_app. simpl. intros (H1 & Hp & H2).
  split.
  - apply linked_alter_opt_ne; [|by eapply linked_set_next].
    intros q [[??]|?]%hd_or_elem; naive_solver.
  - eapply linked_set_prev; [done|]. apply linked_alter_opt_ne; [|done].
    intros q [[??]|?]%lst_or_elem; naive_solver.
Qed.
Lemma lookup_unlink_ne h f g l1 p d l2 q : q ∉ (l1 ++ (p, d) :: l2).*1 →
  q ≠ p ∧ alter_opt f (hd_or NULL l2) (alter_opt g (lst_or NULL l1) h) !! q = h !! q.
Proof.
  rewrite fmap_app, not_elem_of_app. csimpl. rewrite not_elem_of_cons. intros (? & ? & ?). split; [done|].
  rewrite !lookup_alter_opt_ne; [done|intros [[??]|?]%lst_or_elem|intros [[??]|?]%hd_or_elem]; done.
Qed.
Lemma hd_or_unlink l1 p d l2 :
  hd_or NULL (l1 ++ l2) =
    match lst_or NULL l1 with Some _ => hd_or NULL (l1 ++ (p, d) :: l2) | None => hd_or NULL l2 end.
Proof.
  destruct l1 as [|[q e] l1]; simpl; [done|]. by destruct (lst_or_Some q l1) as [? ->].
Qed.
Lemma lst_or_unlink l1 p d l2 :
  lst_or NULL (l1 ++ l2) =
    match hd_or NULL l2 with Some _ => lst_or NULL (l1 ++ (p, d) :: l2) | None => lst_or NULL l1 end.
Proof.
  rewrite !lst_or_app. simpl. destruct l2 as [|[q e] l2]; done.
Qed.

(** [if (head == p) head = p->next] and [if (tail == p) tail = p->prev]. *)
Lemma hd_or_detach l1 p d l2 : NoDup (l1 ++ (p, d) :: l2).*1 →
  (if decide (hd_or NULL (l1 ++ (p, d) :: l2) = Some p) then hd_or NULL l2
   else hd_or NULL (l1 ++ (p, d) :: l2)) = hd_or NULL (l1 ++ l2).
Proof.
  intros (_ & _ & _ & Hp & _)%NoDup_mid. destruct l1 as [|[q e] l1]; simpl; [by rewrite decide_True|].
  rewrite decide_False; [done|]. csimpl in Hp. intros [= ->]. set_solver.
Qed.
Lemma lst_or_detach l1 p d l2 : NoDup (l1 ++ (p, d) :: l2).*1 →
  (if decide (lst_or NULL (l1 ++ (p, d) :: l2) = Some p) then lst_or NULL l1
   else lst_or NULL (l1 ++ (p, d) :: l2)) = lst_or NULL (l1 ++ l2).
Proof.
  intros (_ & _ & _ & _ & Hp & _)%NoDup_mid. rewrite !lst_or_app. simpl.
  destruct l2 as [|[q e] l2]; simpl; [by rewrite decide_True|].
  rewrite decide_False; [done|]. csimpl in Hp. intros [[-> [= ->]]|?]%lst_or_elem; set_solver.
Qed.

(** Appending an object: the old last object is linked to it. *)
Lemma linked_snoc h h' pv l p d nx :
  NoDup l.*1 → linked h pv l nx →
  h' !! p = Some (Node d (lst_or pv l) nx) →
  (∀ q, q ∈ l.*1 → h' !! q = alter_opt (set_next (Some p)) (lst_or NULL l) h !! q) →
  linked h' pv (l ++ [(p, d)]) nx.
Proof.
  intros Hnd Hl Hp Hq. apply linked_app. split; [|done].
  eapply linked_ext; [done|]. by eapply linked_set_next.
Qed.

(** The payload of one object of a chain. *)
Lemma linked_set_data h pv l1 p d l2 nx f :
  NoDup (l1 ++ (p, d) :: l2).*1 → linked h pv (l1 ++ (p, d) :: l2) nx →
  linked (alter (set_data f) p h) pv (l1 ++ (p, f d) :: l2) nx.
Proof.
  rewrite fmap_app. csimpl. intros (Hnd1 & Hni & [Hp Hnd2]%NoDup_cons)%NoDup_app.
  rewrite !linked_app. simpl. intros (H1 & Hl & H2). split_and!.
  - apply linked_alter_ne; [|done]. intros Hin. apply (Hni p Hin). left.
  - by rewrite lookup_alter_eq, Hl.
  - by apply linked_alter_ne.
Qed.

(** Inserting an object between two parts of a chain. *)
Lemma linked_insert_mid h h' pv l1 p d l2 nx :
  NoDup (l1 ++ l2).*1 → linked h pv (l1 ++ l2) nx →
  h' !! p = Some (Node d (lst_or pv l1) (hd_or nx l2)) →
  (∀ q, q ∈ (l1 ++ l2).*1 → h' !! q =
     alter_opt (set_prev (Some p)) (hd_or NULL l2) (alter_opt (set_next (Some p)) (lst_or NULL l1) h) !! q) →
  linked h' pv (l1 ++ (p, d) :: l2) nx.
Proof.
  rewrite fmap_app. intros (Hnd1 & Hni & Hnd2)%NoDup_app. rewrite !linked_app. simpl. intros [H1 H2] Hp Hq.
  split; [|split; [done|]].
  - eapply linked_ext; [intros q ?; apply Hq; set_solver|]. apply linked_alter_opt_ne; [|by eapply linked_set_next].
    intros q [[??]|?]%hd_or_elem; naive_solver.
  - eapply linked_ext; [intros q ?; apply Hq; set_solver|]. eapply linked_set_prev; [done|].
    apply linked_alter_opt_ne; [|done]. intros q [[??]|?]%lst_or_elem; naive_solver.
Qed.

(** Taking out the object after [q], whose payload changes. *)
Lemma linked_absorb h pv l1 q e r f l2 nx g :
  NoDup (l1 ++ (q, e) :: (r, f) :: l2).*1 → linked h pv (l1 ++ (q, e) :: (r, f) :: l2) nx →
  linked (alter (set_next (hd_or nx l2)) q (alter_opt (set_prev (Some q)) (hd_or NULL l2) (alter (set_data g) q h)))
    pv (l1 ++ (q, g e) :: l2) nx.
Proof.
  rewrite fmap_app. csimpl. intros (Hnd1 & Hni & [Hq [Hr Hnd2]%NoDup_cons]%NoDup_cons)%NoDup_app.
  rewrite !linked_app. simpl. intros (H1 & Hlq & Hlr & H2). rewrite elem_of_cons in Hq.
  assert (hd_or NULL l2 ≠ Some q) by (intros [[??]|?]%hd_or_elem; [done|tauto]).
  split_and!.
  - apply linked_alter_ne; [set_solver|]. apply linked_alter_opt_ne; [|apply linked_alter_ne; set_solver].
    intros q' [[??]|?]%hd_or_elem; [done|]. intros ?. apply (Hni q'); set_solver.
  - by lookup_norm.
  - apply linked_alter_ne; [tauto|]. eapply linked_set_prev; [done|]. apply linked_alter_ne; [tauto|done].
Qed.

Lemma lst_or_inv l p : lst_or NULL l = Some p → ∃ l' e, l = l' ++ [(p, e)].
Proof.
  destruct l as [|[q e] l _] using rev_ind; [done|]. rewrite lst_or_snoc. intros [= ->]. eauto.
Qed.

Lemma lst_or_NULL l : lst_or NULL l = NULL → l = [].
Proof. destruct l as [|[q e] l _] using rev_ind; [done|]. by rewrite lst_or_snoc. Qed.
Lemma hd_or_NULL l : hd_or NULL l = NULL → l = [].
Proof. by destruct l as [|[]]. Qed.
Lemma hd_or_ne l : l ≠ [] → is_Some (hd_or NULL l).
Proof. destruct l as [|[]]; [done|]. eauto. Qed.

(** *** Chains followed by [next] only *)

Fixpoint schain h l nx : Prop :=
  match l with
  | [] => True
  | (p, d) :: l' => (∃ pv, h !! p = Some (Node d pv (hd_or nx l'))) ∧ schain h l' nx
  end.

Lemma schain_app h l1 l2 nx : schain h (l1 ++ l2) nx ↔ schain h l1 (hd_or nx l2) ∧ schain h l2 nx.
Proof.
  induction l1 as [|[p d] l1 IH]; simpl; [naive_solver|]. rewrite hd_or_app, IH. naive_solver.
Qed.
Lemma schain_ext h h' l nx :
  (∀ p, p ∈ l.*1 → h' !! p = h !! p) → schain h l nx → schain h' l nx.
Proof.
  induction l as [|[p d] l IH]; intros Heq; csimpl; [done|].
  intros [[pv Hp] Hl]. split; [exists pv; by rewrite Heq by (csimpl; left)|].
  apply IH; [|done]. intros q ?. apply Heq. csimpl. by right.
Qed.
Lemma schain_is_Some h l nx p : schain h l nx → p ∈ l.*1 → is_Some (h !! p).
Proof.
  induction l as [|[q d] l IH]; csimpl; [set_solver|]. intros [[pv Hq] Hl] [->|?]%elem_of_cons; eauto.
Qed.
Lemma schain_set_next h l nx nx' :
  NoDup l.*1 → schain h l nx → schain (alter_opt (set_next nx') (lst_or NULL l) h) l nx'.
Proof.
  destruct l as [|[p d] l _] using rev_ind; [done|].
  rewrite lst_or_snoc, fmap_app. intros (Hnd & Hni & _)%NoDup_app [Hl [[pv Hp] _]]%schain_app. simpl.
  apply schain_app. split.
  - eapply schain_ext; [|done]. intros q Hq. apply lookup_alter_ne. intros <-.
    apply (Hni p); [done|]. csimpl. set_solver.
  - split; [|done]. exists pv. by rewrite lookup_alter_eq, Hp.
Qed.

(** *** Walking a list *)

(** The first location of [l] whose object passes [test]. *)
Fixpoint find_loc (test : loc → D → bool) l : ptr :=
  match l with
  | [] => NULL
  | (p, d) :: l' => if test p d then Some p else find_loc test l'
  end.

Section walk.
Context {S : Type} `{!Heap S (node D)}.

(** [for (p = first; p; p = step(p)) if (test(p)) return p; return NULL;] *)
Fixpoint forlinked (fuel : nat) (step : node D → ptr) (test : loc → D → bool) (p : ptr) : M S ptr :=
  match fuel with
  | O => nofuel
  | Datatypes.S fuel' =>
      match p with
      | None => mret NULL
      | Some l => v ← rd (Some l);
          if test l (n_data v) then mret (Some l) else forlinked fuel' step test (step v)
      end
  end.

Definition walk (step : node D → ptr) (test : loc → D → bool) (p : ptr) : M S ptr :=
  n ← gets (λ s, size (heap_of s)); forlinked (Datatypes.S n) step test p.

Lemma forlinked_next fuel test pv l (s : S) :
  (length l < fuel)%nat → linked (heap_of s) pv l NULL →
  forlinked fuel n_next test (hd_or NULL l) s = Ok (find_loc test l, s).
Proof.
  revert fuel pv. induction l as [|[p d] l IH]; intros [|fuel] pv Hf Hl; simpl in *; try lia; [done|].
  destruct Hl as [Hp Hl]. unfold mbind, M_bind, rd. simpl. rewrite Hp. simpl.
  destruct (test p d); [done|]. eapply IH; [lia|done].
Qed.

Lemma walk_next test pv l (s : S) :
  linked (heap_of s) pv l NULL → walk n_next test (hd_or NULL l) s = Ok (find_loc test l, s).
Proof.
  intros Hl. unfold walk, mbind, M_bind, gets. eapply forlinked_next; [|done].
  assert (length l ≤ size (heap_of s))%nat; [|lia].
  eauto using linked_length, linked_NoDup.
Qed.

Lemma forlinked_prev fuel test l nx (s : S) :
  (length l < fuel)%nat → linked (heap_of s) NULL l nx →
  forlinked fuel n_prev test (lst_or NULL l) s = Ok (find_loc test (reverse l), s).
Proof.
  revert fuel nx. induction l as [|[p d] l IH] using rev_ind; intros [|fuel] nx Hf Hl;
    rewrite ?length_app in Hf; simpl in *; try lia; [done|].
  apply linked_app in Hl as [Hl [Hp _]]. rewrite lst_or_snoc, reverse_snoc. simpl.
  unfold mbind, M_bind, rd. simpl. rewrite Hp. simpl.
  destruct (test p d); [done|]. eapply IH; [lia|done].
Qed.
Lemma walk_prev test l (s : S) :
  linked (heap_of s) NULL l NULL → walk n_prev test (lst_or NULL l) s = Ok (find_loc test (reverse l), s).
Proof.
  intros Hl. unfold walk, mbind, M_bind, gets. eapply forlinked_prev; [|done].
  assert (length l ≤ size (heap_of s))%nat; [|lia].
  eauto using linked_length, linked_NoDup.
Qed.
End walk.

(** [find_loc] returns the first match. *)
Lemma find_loc_Some test l p : find_loc test l = Some p →
  ∃ l1 d l2, l = l1 ++ (p, d) :: l2 ∧ test p d = true ∧ ∀ q e, (q, e) ∈ l1 → test q e = false.
Proof.
  induction l as [|[q e] l IH]; simpl; [done|]. destruct (test q e) eqn:Ht.
  - intros [= ->]. exists [], e, l. split_and!; [done..|]. set_solver.
  - intros (l1 & d & l2 & -> & ? & Hl1)%IH. exists ((q, e) :: l1), d, l2. split_and!; [done..|].
    intros q' e' [[= -> ->]|?]%elem_of_cons; eauto.
Qed.
Lemma find_loc_None test l : find_loc test l = NULL ↔ ∀ q e, (q, e) ∈ l → test q e = false.
Proof.
  induction l as [|[q e] l IH]; simpl; [set_solver|]. destruct (test q e) eqn:Ht.
  - split; [done|]. intros H. rewrite (H q e) in Ht; [done|left].
  - rewrite IH. split.
    + intros H q' e' [[= -> ->]|?]%elem_of_cons; eauto.
    + intros H q' e' ?. apply H. by right.
Qed.
Lemma find_loc_app test l1 l2 : (∀ q e, (q, e) ∈ l1 → test q e = false) →
  find_loc test (l1 ++ l2) = find_loc test l2.
Proof.
  induction l1 as [|[q e] l1 IH]; intros H; simpl; [done|].
  rewrite (H q e) by left. apply IH. intros q' e' ?. apply H. by right.
Qed.
Lemma find_loc_addr p l :
  find_loc (λ q _, bool_decide (Some p = Some q)) l = if decide (p ∈ l.*1) then Some p else NULL.
Proof.
  destruct (find_loc _ _) as [q|] eqn:E.
  - apply find_loc_Some in E as (l1 & d & l2 & -> & [= ->]%bool_decide_eq_true & _).
    rewrite decide_True; [done|]. rewrite fmap_app. set_solver.
  - rewrite find_loc_None in E. rewrite decide_False; [done|].
    intros ([? d] & -> & Hin)%list_elem_of_fmap. apply E in Hin. by apply bool_decide_eq_false in Hin.
Qed.
End dll.
#[export] Hint Resolve linked_hd_is_Some linked_lst_is_Some : kheap.
