(* ===== verification/Queue.v ===== *)
(** * The kernel queue ([kernel/ds/queue/queue.c])

    A counted FIFO of [void *] items, protected by a spinlock.  [queue] is
    [queue_t] together with the [queue_node_t] objects allocated for it; an item
    is a machine word, NULL being [0].  [queue_ok q l] is the representation
    invariant: [l] lists the nodes from [head] to [tail], [count] is their number
    as a C [int], and no other node is allocated.  The theorems show that every
    operation keeps it and acts on the items as on a functional list, so that any
    sequence of operations refines the abstract FIFO [fifo_step]. *)
From S2P Require Import Prelude Dll.

(** [queue_node_t] without its links. *)
Record queue_item : Type := QItem { qi_data : Z; qi_queue : ptr }.
#[global] Instance queue_item_eq : EqDecision queue_item.
Proof. solve_decision. Defined.

Record queue : Type := Queue {
  q_self : loc;      (* address of the queue_t *)
  q_count : Z;       (* int count *)
  q_lock : bool;     (* lock held by this CPU *)
  q_head : ptr;
  q_tail : ptr;
  q_nodes : gmap loc (node queue_item);
}.

#[global] Program Instance queue_heap : Heap queue (node queue_item) := {|
  heap_of := q_nodes;
  put_heap h q := {| q with q_nodes := h |};
|}.
Next Obligation. done. Qed.
Next Obligation. by intros []. Qed.
#[global] Instance queue_locked : Lock queue := {|
  held := q_lock;
  set_held b q := {| q with q_lock := b |};
|}.

(** ** Operations *)

(** [queue_assert_lock(q); if (spin_trylock(q->lock)) panic(...)], the check every
    operation starts with. *)
Definition queue_check : M queue unit :=
  spin_assert_lock;;
  got ← spin_trylock;
  if (got : bool) then panic else mret tt.

Definition dequeue : M queue Z :=
  queue_check;;
  head ← gets q_head;
  match head with
  | None => mret 0
  | Some n =>
      tail ← gets q_tail;
      (if decide (head = tail) then modify (λ q, {| q with q_head := NULL; q_tail := NULL |}) else mret tt);;
      node ← rd (Some n);
      modify (λ q, {| q with q_head := n_next node |});;
      match n_next node with
      | Some nx => upd (Some nx) (set_prev NULL)
      | None => mret tt
      end;;
      modify (λ q, {| q with q_count := i32 (q_count q - 1) |});;
      kfree (Some n);;
      mret (qi_data (n_data node))
  end.

Definition queue_get : M queue Z :=
  spin_lock;;
  data ← dequeue;
  spin_unlock;;
  mret data.

(** [while (dequeue(q)) ;] *)
Fixpoint flush_loop (fuel : nat) : M queue unit :=
  match fuel with
  | O => nofuel
  | S fuel' => d ← dequeue; if decide (d = 0) then mret tt else flush_loop fuel'
  end.

Definition queue_flush : M queue unit :=
  queue_check;;
  n ← gets (λ q, size (q_nodes q));
  flush_loop (S n).

Definition queue_count : M queue Z := queue_check;; gets q_count.

Definition queue_contains (data : Z) : M queue ptr :=
  queue_check;;
  head ← gets q_head;
  walk n_next (λ _ d, bool_decide (qi_data d = data)) head.

Definition queue_contains_node (n : ptr) : M queue bool :=
  queue_check;;
  head ← gets q_head;
  found ← walk n_next (λ p _, bool_decide (n = Some p)) head;
  mret (bool_decide (found ≠ NULL)).

Section alloc.
Context `{!Kalloc (node queue_item)}.

(** Returns the new node, or NULL when [kmalloc] fails. *)
Definition enqueue (data : Z) : M queue ptr :=
  queue_check;;
  node ← kmalloc (Node (QItem 0 NULL) NULL NULL);
  match node with
  | None => mret NULL
  | Some n =>
      head ← gets q_head;
      (if head is None then modify (λ q, {| q with q_head := Some n |}) else mret tt);;
      tail ← gets q_tail;
      match tail with
      | Some t => upd (Some t) (set_next (Some n));; upd (Some n) (set_prev (Some t))
      | None => mret tt
      end;;
      modify (λ q, {| q with q_count := i32 (q_count q + 1) |});;
      modify (λ q, {| q with q_tail := Some n |});;
      self ← gets q_self;
      upd (Some n) (set_data (λ d, {| d with qi_queue := Some self |}));;
      upd (Some n) (set_data (λ d, {| d with qi_data := data |}));;
      mret (Some n)
  end.
End alloc.

Definition queue_remove_node (n : ptr) : M queue Z :=
  spin_assert_lock;;
  kassert (bool_decide (n ≠ NULL));;
  got ← spin_trylock;
  (if (got : bool) then panic else mret tt);;
  present ← queue_contains_node n;
  if negb present then mret (- ENOENT) else
  node ← rd n;
  match n_prev node with
  | Some p => upd (Some p) (set_next (n_next node))
  | None => modify (λ q, {| q with q_head := n_next node |})
  end;;
  node ← rd n;
  match n_next node with
  | Some nx => upd (Some nx) (set_prev (n_prev node))
  | None => modify (λ q, {| q with q_tail := n_prev node |})
  end;;
  upd n (set_next NULL);;
  upd n (set_prev NULL);;
  modify (λ q, {| q with q_count := i32 (q_count q - 1) |});;
  kfree n;;
  mret 0.

Definition queue_remove (data : Z) : M queue Z :=
  queue_check;;
  node ← queue_contains data;
  if decide (node = NULL) then mret (- ENOENT) else queue_remove_node node.

#[global] Arguments enqueue {_} data : simpl never.
#[global] Arguments queue_contains data : simpl never.
#[global] Arguments queue_contains_node n : simpl never.
#[global] Arguments queue_remove_node n : simpl never.
#[global] Arguments queue_remove data : simpl never.

(** ** Representation invariant *)

Definition items (l : list (loc * queue_item)) : list Z := (qi_data ∘ snd) <$> l.

Record queue_ok (q : queue) (l : list (loc * queue_item)) : Prop := {
  qok_linked : linked (q_nodes q) NULL l NULL;
  qok_head : q_head q = hd_or NULL l;
  qok_tail : q_tail q = lst_or NULL l;
  qok_count : q_count q = i32 (Z.of_nat (length l));
  qok_dom : dom (q_nodes q) = list_to_set l.*1;
  qok_owner : Forall (λ pd, qi_queue pd.2 = Some (q_self q)) l;
}.

Lemma i32_add_i32 a b : i32 (i32 a + b) = i32 (a + b).
Proof.
  unfold i32. f_equal.
  replace ((a + 2 ^ 31) mod 2 ^ 32 - 2 ^ 31 + b + 2 ^ 31) with ((a + 2 ^ 31) mod 2 ^ 32 + b) by lia.
  rewrite Zplus_mod_idemp_l. f_equal. lia.
Qed.

(** The lock checks pass when the caller holds the lock. *)
Lemma wp_queue_check (Q : unit → queue → Prop) q : q_lock q = true → Q tt q → wp queue_check Q q.
Proof. intros. unfold queue_check. wp_go. done. Qed.

(** What no operation changes. *)
Definition same_queue (q q' : queue) : Prop := q_lock q' = q_lock q ∧ q_self q' = q_self q.

Lemma wp_dequeue (Q : Z → queue → Prop) q l :
  queue_ok q l → q_lock q = true →
  match l with
  | [] => Q 0 q
  | (n, d) :: l' => ∀ q', queue_ok q' l' → same_queue q q' → Q (qi_data d) q'
  end → wp dequeue Q q.
Proof.
  intros [Hl Hh Ht Hc Hd Ho] Hk HQ. unfold dequeue. apply wp_bind, wp_queue_check; [done|].
  wp_go. rewrite Hh. destruct l as [|[n d] l]; simpl; [by wp_go|]. wp_go. rewrite Ht.
  apply linked_cons in Hl as (Hn & Hl & Hni & Hnd). apply Forall_cons in Ho as [_ Ho].
  assert (linked (delete n (alter_opt (set_prev NULL) (hd_or NULL l) (q_nodes q))) NULL l NULL) as Hl'.
  { apply linked_delete_ne; [done|]. by eapply linked_set_prev. }
  assert (i32 (q_count q - 1) = i32 (Z.of_nat (length l))) as Hc'.
  { rewrite Hc. unfold Z.sub. rewrite i32_add_i32. f_equal. simpl. lia. }
  assert (dom (q_nodes q) ∖ {[n]} = list_to_set l.*1) as Hd'.
  { rewrite Hd. csimpl. assert (n ∉@{gset loc} list_to_set l.*1) by (by rewrite elem_of_list_to_set). set_solver. }
  simpl. case_decide as Heq; wp_go; apply HQ; try done; split; simpl; rewrite ?dom_delete_L, ?dom_alter_opt; try done.
  - symmetry in Heq. apply lst_or_elem in Heq as [[-> _]|?]; done.
  - rewrite Ht. simpl. apply lst_or_nonempty. intros ->. by apply Heq.
Qed.

Lemma wp_queue_contains_node n (Q : bool → queue → Prop) q l :
  queue_ok q l → q_lock q = true →
  Q (bool_decide (n ∈ l.*1)) q → wp (queue_contains_node (Some n)) Q q.
Proof.
  intros [Hl Hh _ _ _ _] Hk HQ. unfold queue_contains_node. apply wp_bind, wp_queue_check; [done|].
  wp_go. rewrite Hh. eapply wp_eq; [by eapply walk_next|]. wp_go.
  rewrite find_loc_addr. case_decide; [rewrite bool_decide_eq_true_2 in HQ|rewrite bool_decide_eq_false_2 in HQ]; done.
Qed.

Lemma wp_queue_contains data (Q : ptr → queue → Prop) q l :
  queue_ok q l → q_lock q = true →
  Q (find_loc (λ _ d, bool_decide (qi_data d = data)) l) q → wp (queue_contains data) Q q.
Proof.
  intros [Hl Hh _ _ _ _] Hk HQ. unfold queue_contains. apply wp_bind, wp_queue_check; [done|].
  wp_go. rewrite Hh. eapply wp_eq; [by eapply walk_next|]. done.
Qed.

Lemma wp_queue_remove_node (Q : Z → queue → Prop) q l1 n d l2 :
  queue_ok q (l1 ++ (n, d) :: l2) → q_lock q = true →
  (∀ q', queue_ok q' (l1 ++ l2) → same_queue q q' → Q 0 q') →
  wp (queue_remove_node (Some n)) Q q.
Proof.
  intros Hq Hk HQ. unfold queue_remove_node. wp_go.
  eapply wp_queue_contains_node; [done..|].
  rewrite bool_decide_eq_true_2 by (rewrite fmap_app; set_solver). simpl.
  destruct Hq as [Hl Hh Ht Hc Hd Ho].
  pose proof (linked_NoDup _ _ _ Hl) as Hnd. pose proof (linked_unlink _ _ _ _ _ _ _ Hnd Hl) as Hl'.
  pose proof (hd_or_unlink l1 n d l2) as Hh'. pose proof (lst_or_unlink l1 n d l2) as Ht'.
  apply NoDup_mid in Hnd as (Hnd & _ & _ & Hn1 & Hn2 & _).
  apply linked_app in Hl as [Hl1 [Hn Hl2]]. wp_go.
  assert (lst_or NULL l1 ≠ Some n) as Hne by (intros [[??]|?]%lst_or_elem; done).
  assert (i32 (q_count q - 1) = i32 (Z.of_nat (length (l1 ++ l2)))) as Hc'.
  { rewrite Hc. unfold Z.sub. rewrite i32_add_i32, !length_app. f_equal. simpl. lia. }
  assert (dom (q_nodes q) ∖ {[n]} = list_to_set (l1 ++ l2).*1) as Hd'.
  { rewrite Hd, !fmap_app. csimpl. rewrite !list_to_set_app_L. csimpl.
    apply set_eq. intros x. set_unfold. naive_solver. }
  assert (Forall (λ pd, qi_queue pd.2 = Some (q_self q)) (l1 ++ l2)) as Ho'.
  { rewrite Forall_app, ?Forall_cons in *. naive_solver. }
  destruct (lst_or NULL l1) as [p|] eqn:Ep; simpl in *; wp_go;
    destruct (hd_or NULL l2) as [r|] eqn:Er; simpl in *; wp_go;
    (apply HQ; [|done]); split; simpl; rewrite ?dom_delete_L, ?dom_alter_L; try congruence.
  all: apply linked_delete_ne, linked_alter_ne, linked_alter_ne; try done.
  all: rewrite fmap_app; set_solver.
Qed.

Lemma wp_queue_remove data (Q : Z → queue → Prop) q l :
  queue_ok q l → q_lock q = true →
  (¬ data ∈ items l → Q (- ENOENT) q) →
  (∀ l1 n d l2 q', l = l1 ++ (n, d) :: l2 → qi_data d = data → ¬ data ∈ items l1 →
     queue_ok q' (l1 ++ l2) → same_queue q q' → Q 0 q') →
  wp (queue_remove data) Q q.
Proof.
  intros Hq Hk HQ1 HQ2. unfold queue_remove. apply wp_bind, wp_queue_check; [done|].
  apply wp_bind. eapply wp_queue_contains; [done..|].
  assert (∀ l' : list (loc * queue_item),
    (∀ n d, (n, d) ∈ l' → bool_decide (qi_data d = data) = false) → ¬ data ∈ items l') as Hitems.
  { intros l' H ([n d] & -> & Hin)%list_elem_of_fmap. apply H in Hin.
    by apply bool_decide_eq_false in Hin. }
  case_decide as Hf.
  - apply wp_ret, HQ1, Hitems, find_loc_None. done.
  - destruct (find_loc _ l) as [n|] eqn:E; [|done].
    apply find_loc_Some in E as (l1 & d & l2 & -> & Hd%bool_decide_eq_true & Hl1).
    eapply wp_queue_remove_node; [done..|]. intros q' ??. eapply HQ2; eauto.
Qed.

Lemma wp_enqueue `{!Kalloc (node queue_item)} data (Q : ptr → queue → Prop) q l :
  queue_ok q l → q_lock q = true →
  Q NULL q →
  (∀ n q', q_nodes q !! n = None → queue_ok q' (l ++ [(n, QItem data (Some (q_self q)))]) →
     same_queue q q' → Q (Some n) q') →
  wp (enqueue data) Q q.
Proof.
  intros [Hl Hh Ht Hc Hd Ho] Hk HQ1 HQ2. unfold enqueue. apply wp_bind, wp_queue_check; [done|].
  apply wp_bind, wp_kmalloc; [by intros _; wp_go|]. simpl. intros n _ Hn.
  assert (n ∉ l.*1) as Hnl.
  { intros Hin. apply not_elem_of_dom in Hn. rewrite Hd in Hn. set_solver. }
  pose proof (linked_NoDup _ _ _ Hl) as Hnd.
  assert (∀ x, dom (<[n:=x]> (q_nodes q)) = list_to_set (l ++ [(n, QItem data (Some (q_self q)))]).*1) as Hd'.
  { intros x. rewrite dom_insert_L, Hd, fmap_app, list_to_set_app_L. csimpl. set_solver. }
  assert (i32 (q_count q + 1) = i32 (Z.of_nat (length (l ++ [(n, QItem data (Some (q_self q)))])))) as Hc'.
  { rewrite Hc, i32_add_i32, length_app. f_equal. simpl. lia. }
  assert (Forall (λ pd, qi_queue pd.2 = Some (q_self q)) (l ++ [(n, QItem data (Some (q_self q)))])) as Ho'.
  { apply Forall_app. split; [done|]. by repeat constructor. }
  wp_go. rewrite Hh. destruct l as [|[p d] l]; simpl; wp_go; rewrite Ht; simpl.
  - wp_go. apply HQ2; [done| |done]. split; simpl; rewrite ?dom_alter_L; try done. by lookup_norm.
  - assert (lst_or (Some p) l ≠ Some n) as Hne by (intros [[??]|?]%lst_or_elem; set_solver).
    destruct (lst_or_Some p l) as [t Et]. rewrite Et in *.
    eapply (linked_insert_ne _ (Node (QItem 0 NULL) NULL NULL) n) in Hl; [|done].
    eapply (linked_set_next _ _ _ _ (Some n)) in Hl; [|done]. simpl lst_or in Hl. rewrite Et in Hl. simpl alter_opt in Hl.
    assert (is_Some (q_nodes q !! t)) as Hst.
    { apply elem_of_dom. rewrite Hd. apply lst_or_elem in Et. set_solver. }
    wp_go. apply HQ2; [done| |done]. split; simpl; rewrite ?dom_alter_L; try done.
    + apply (linked_app _ NULL ((p, d) :: l) [_]). split.
      * do 3 (apply linked_alter_ne; [done|]). done.
      * simpl. lookup_norm. simpl. by rewrite Et.
    + by rewrite lst_or_snoc.
Qed.

(** [queue_flush] stops at the first NULL item: what is left is what followed it. *)
Fixpoint after_null (l : list (loc * queue_item)) : list (loc * queue_item) :=
  match l with
  | [] => []
  | (_, d) :: l' => if decide (qi_data d = 0) then l' else after_null l'
  end.

Lemma wp_flush_loop fuel (Q : unit → queue → Prop) q l :
  (length l < fuel)%nat → queue_ok q l → q_lock q = true →
  (∀ q', queue_ok q' (after_null l) → same_queue q q' → Q tt q') →
  wp (flush_loop fuel) Q q.
Proof.
  revert q l. induction fuel as [|fuel IH]; intros q l Hf Hq Hk HQ; [lia|]. simpl.
  apply wp_bind. eapply wp_dequeue; [done..|]. destruct l as [|[n d] l]; simpl.
  - apply wp_ret, HQ; done.
  - intros q' Hq' [Hk' Hs']. simpl in HQ. case_decide as Hd.
    + apply wp_ret, HQ; done.
    + eapply (IH _ l); [cbn in Hf; lia|done|congruence|].
      intros q'' ? [??]. apply HQ; [done|]. split; congruence.
Qed.

Lemma wp_queue_flush (Q : unit → queue → Prop) q l :
  queue_ok q l → q_lock q = true →
  (∀ q', queue_ok q' (after_null l) → same_queue q q' → Q tt q') → wp queue_flush Q q.
Proof.
  intros Hq Hk HQ. unfold queue_flush. apply wp_bind, wp_queue_check; [done|].
  apply wp_bind, wp_gets. eapply wp_flush_loop; [|done..].
  assert (length l ≤ size (q_nodes q))%nat; [|lia].
  eapply linked_length; [eapply linked_NoDup|]; apply Hq.
Qed.

Lemma after_null_nil l : Forall (λ z, z ≠ 0) (items l) → after_null l = [].
Proof.
  induction l as [|[n d] l IH]; simpl; [done|]. intros [? ?]%Forall_cons.
  rewrite decide_False by done. auto.
Qed.

(** ** The abstract FIFO and the refinement *)

Inductive qop : Type :=
| OpEnqueue (data : Z)
| OpDequeue
| OpRemove (data : Z)
| OpContains (data : Z)
| OpCount
| OpFlush.

Section refinement.
Context `{!Kalloc (node queue_item)}.

(** One call made with the lock held; a pointer result is reported as
    whether it is non-NULL. *)
Definition run_op (o : qop) : M queue Z :=
  match o with
  | OpEnqueue d => p ← enqueue d; mret (if p is Some _ then 1 else 0)
  | OpDequeue => dequeue
  | OpRemove d => queue_remove d
  | OpContains d => p ← queue_contains d; mret (if p is Some _ then 1 else 0)
  | OpCount => queue_count
  | OpFlush => queue_flush;; mret 0
  end.

Fixpoint run_ops (os : list qop) : M queue (list Z) :=
  match os with
  | [] => mret []
  | o :: os' => r ← run_op o; rs ← run_ops os'; mret (r :: rs)
  end.
End refinement.

Fixpoint remove_first (d : Z) (l : list Z) : list Z :=
  match l with [] => [] | x :: l' => if decide (x = d) then l' else x :: remove_first d l' end.
Fixpoint drop_through_null (l : list Z) : list Z :=
  match l with [] => [] | x :: l' => if decide (x = 0) then l' else drop_through_null l' end.

(** The promise of the queue: a FIFO of words, on which an [enqueue] may fail
    for lack of memory and nothing else may. *)
Inductive fifo_step : list Z → qop → Z → list Z → Prop :=
| fifo_enqueue l d : fifo_step l (OpEnqueue d) 1 (l ++ [d])
| fifo_enqueue_nomem l d : fifo_step l (OpEnqueue d) 0 l
| fifo_dequeue d l : fifo_step (d :: l) OpDequeue d l
| fifo_dequeue_empty : fifo_step [] OpDequeue 0 []
| fifo_remove l d : d ∈ l → fifo_step l (OpRemove d) 0 (remove_first d l)
| fifo_remove_absent l d : d ∉ l → fifo_step l (OpRemove d) (- ENOENT) l
| fifo_contains l d : d ∈ l → fifo_step l (OpContains d) 1 l
| fifo_contains_absent l d : d ∉ l → fifo_step l (OpContains d) 0 l
| fifo_count l : fifo_step l OpCount (i32 (Z.of_nat (length l))) l
| fifo_flush l : fifo_step l OpFlush 0 (drop_through_null l).
#[export] Hint Constructors fifo_step : core.

Inductive fifo_steps : list Z → list qop → list Z → list Z → Prop :=
| fifo_done l : fifo_steps l [] [] l
| fifo_more l o r l' os rs l'' :
    fifo_step l o r l' → fifo_steps l' os rs l'' → fifo_steps l (o :: os) (r :: rs) l''.

Lemma items_app l1 l2 : items (l1 ++ l2) = items l1 ++ items l2.
Proof. apply fmap_app. Qed.
Lemma remove_first_app d l1 l2 : d ∉ l1 → remove_first d (l1 ++ d :: l2) = l1 ++ l2.
Proof.
  induction l1 as [|x l1 IH]; simpl; intros H.
  - by rewrite decide_True.
  - rewrite decide_False by set_solver. f_equal. apply IH. set_solver.
Qed.
Lemma items_after_null l : items (after_null l) = drop_through_null (items l).
Proof. induction l as [|[n d] l IH]; simpl; [done|]. by case_decide. Qed.
Lemma find_data_items d l :
  (find_loc (λ _ x, bool_decide (qi_data x = d)) l = NULL ↔ d ∉ items l).
Proof.
  rewrite find_loc_None. split.
  - intros H ([n x] & -> & Hin)%list_elem_of_fmap. apply H in Hin. by apply bool_decide_eq_false in Hin.
  - intros H n x Hin. apply bool_decide_eq_false. intros <-. apply H.
    apply list_elem_of_fmap. by exists (n, x).
Qed.

Lemma run_op_refines `{!Kalloc (node queue_item)} o q l :
  queue_ok q l → q_lock q = true →
  wp (run_op o) (λ r q', q_lock q' = true ∧ ∃ l', queue_ok q' l' ∧ fifo_step (items l) o r (items l')) q.
Proof.
  intros Hq Hk. destruct o as [d| |d|d| |]; simpl.
  - apply wp_bind. eapply wp_enqueue; [done..| |].
    + apply wp_ret. eauto.
    + intros n q' _ Hq' [Hk' _]. apply wp_ret. split; [congruence|]. eexists. split; [done|].
      rewrite items_app. apply fifo_enqueue.
  - eapply wp_dequeue; [done..|]. destruct l as [|[n d] l]; [eauto|].
    intros q' Hq' [Hk' _]. split; [congruence|]. eexists. split; [done|]. apply fifo_dequeue.
  - eapply wp_queue_remove; [done..| |]; [eauto|].
    intros l1 n x l2 q' -> <- Hni Hq' [Hk' _]. split; [congruence|]. eexists. split; [done|].
    rewrite !items_app. simpl. rewrite <- (remove_first_app _ _ (items l2) Hni).
    apply fifo_remove. set_solver.
  - apply wp_bind. eapply wp_queue_contains; [done..|]. apply wp_ret. split; [done|].
    exists l. split; [done|]. destruct (find_loc _ _) eqn:E.
    + apply fifo_contains. apply dec_stable. rewrite <- find_data_items. congruence.
    + apply fifo_contains_absent. by apply find_data_items.
  - unfold queue_count. apply wp_bind, wp_queue_check; [done|]. apply wp_gets. split; [done|].
    exists l. split; [done|]. rewrite (qok_count _ _ Hq), <- (length_fmap (qi_data ∘ snd) l). apply fifo_count.
  - apply wp_bind. eapply wp_queue_flush; [done..|]. intros q' Hq' [Hk' _]. apply wp_ret.
    split; [congruence|]. eexists. split; [done|]. rewrite items_after_null. apply fifo_flush.
Qed.

(** The state [queue_new] leaves, or [QUEUE_NEW] for a static queue. *)
Definition queue_init (self : loc) : queue := Queue self 0 false NULL NULL ∅.

Lemma queue_init_ok self : queue_ok (queue_init self) [].
Proof. by split. Qed.

(** Every sequence of queue operations, run with the lock held on a well-formed queue, returns
    (no panic, no NULL or dangling dereference, every loop ends), leaves the queue well formed, and
    the results are those of the abstract FIFO on the items. *)
Theorem queue_refines_fifo `{!Kalloc (node queue_item)} (os : list qop) (q : queue) (l : list (loc * queue_item)) :
  queue_ok q l → q_lock q = true →
  ∃ rs q' l', run_ops os q = Ok (rs, q') ∧ queue_ok q' l' ∧ fifo_steps (items l) os rs (items l').
Proof.
  intros Hq Hk.
  assert (wp (run_ops os) (λ rs q', ∃ l', queue_ok q' l' ∧ fifo_steps (items l) os rs (items l')) q)
    as (rs & q' & He & l' & ? & ?)%wp_exec; [|by eauto 10].
  revert q l Hq Hk. induction os as [|o os IH]; intros q l Hq Hk; simpl.
  - apply wp_ret. eexists. split; [done|constructor].
  - apply wp_bind. eapply wp_mono; [by apply run_op_refines|]. simpl. intros r q' (Hk' & l' & Hq' & Hs).
    apply wp_bind. eapply wp_mono; [by eapply IH|]. simpl. intros rs q'' (l'' & ? & ?).
    apply wp_ret. eauto using fifo_steps.
Qed.

(** A sequence that exercises every branch, on an allocator that does not fail. *)
Lemma queue_refines_fifo_witness :
  ∃ rs q' l',
    @run_ops (kalloc_total _) [OpEnqueue 7; OpEnqueue 8; OpRemove 7; OpContains 7; OpDequeue; OpDequeue]
      (set_held true (queue_init 1%positive)) = Ok (rs, q') ∧
    queue_ok q' l' ∧
    fifo_steps [] [OpEnqueue 7; OpEnqueue 8; OpRemove 7; OpContains 7; OpDequeue; OpDequeue] rs (items l').
Proof.
  apply (@queue_refines_fifo (kalloc_total _) _ (set_held true (queue_init 1%positive)) []); [|reflexivity].
  by split.
Defined.

(** [queue_get] takes the lock itself: on an unlocked queue it returns the first item
    (NULL when there is none), removes it, and the lock is free again afterwards. *)
Theorem queue_get_spec (q : queue) (l : list (loc * queue_item)) :
  queue_ok q l → q_lock q = false →
  ∃ q', queue_get q = Ok (default 0 (head (items l)), q') ∧ queue_ok q' (tail l) ∧ q_lock q' = false.
Proof.
  intros Hq Hk.
  assert (wp queue_get (λ r q', r = default 0 (head (items l)) ∧ queue_ok q' (tail l) ∧ q_lock q' = false) q)
    as (r & q' & He & -> & ? & ?)%wp_exec; [|by eauto 10].
  assert (∀ b l', queue_ok q l' → queue_ok {| q with q_lock := b |} l') as Hlk by (intros ?? []; by split).
  unfold queue_get. wp_go. eapply wp_dequeue; [by apply Hlk|done|].
  assert (∀ b q1 l', queue_ok q1 l' → queue_ok {| q1 with q_lock := b |} l') as Hlk' by (intros ??? []; by split).
  destruct l as [|[n d] l]; simpl; [wp_go; eauto|]. intros q1 Hq1 [Hk1 _]. simpl in *. wp_go. eauto.
Qed.

Lemma queue_get_spec_witness :
  ∃ q', queue_get (queue_init 1%positive) = Ok (0, q') ∧ queue_ok q' [] ∧ q_lock q' = false.
Proof. apply (queue_get_spec (queue_init 1%positive) []); [apply queue_init_ok|reflexivity]. Defined.

(** [queue_flush] empties a queue none of whose items is NULL, and frees every node. *)
Theorem queue_flush_empties (q : queue) (l : list (loc * queue_item)) :
  queue_ok q l → q_lock q = true → Forall (λ z, z ≠ 0) (items l) →
  ∃ q', queue_flush q = Ok (tt, q') ∧ queue_ok q' [] ∧ q_nodes q' = ∅.
Proof.
  intros Hq Hk Hz.
  assert (wp queue_flush (λ _ q', queue_ok q' []) q) as ([] & q' & He & Hq')%wp_exec.
  { eapply wp_queue_flush; [done..|]. rewrite after_null_nil by done. auto. }
  exists q'. split_and!; [done..|]. apply dom_empty_inv_L. apply Hq'.
Qed.

Lemma queue_flush_empties_witness :
  ∃ q', queue_flush (set_held true (queue_init 1%positive)) = Ok (tt, q') ∧ queue_ok q' [] ∧ q_nodes q' = ∅.
Proof.
  apply (queue_flush_empties (set_held true (queue_init 1%positive)) []); [by split|reflexivity|constructor].
Defined.

(** A caller that does not hold the queue's lock is stopped by a panic in every operation
    that requires it, before anything is read or written. *)
Theorem queue_unlocked_panics `{!Kalloc (node queue_item)} (o : qop) (n : ptr) (q : queue) :
  q_lock q = false → run_op o q = Panic ∧ queue_remove_node n q = Panic.
Proof.
  intros Hk. split; [destruct o; simpl|];
    unfold enqueue, queue_contains, queue_remove, queue_remove_node, dequeue, queue_flush, queue_count,
      queue_check, spin_assert_lock, mbind, M_bind, gets, panic; simpl; by rewrite Hk.
Qed.

Lemma queue_unlocked_panics_witness :
  @run_op (kalloc_total _) OpDequeue (queue_init 1%positive) = Panic ∧ queue_remove_node NULL (queue_init 1%positive) = Panic.
Proof. apply (@queue_unlocked_panics (kalloc_total _) OpDequeue NULL (queue_init 1%positive)). reflexivity. Defined.
