(* ===== verification/Vmm.v ===== *)
(** * The kernel virtual memory manager ([kernel/mm/vmm/vmm.c])

    [vmm_alloc]/[vmm_free] hand out page-aligned regions of the kernel heap
    [KHEAPBASE, KHEAPBASE + KHEAPSZ).  Free and used regions are nodes taken from
    a static array and threaded on three lists: [freevmr] (address-ordered,
    coalesced), [usedvmr] and [freenodes] (spare nodes).  [vmm] is the state of the
    module's globals; a node's address is its index in [nodes] plus one. *)
From S2P Require Import Prelude Dll.

(** [node_t] without its links. *)
Record region : Type := Region { vn_base : Z; vn_size : Z }.

Record vmm : Type := Vmm {
  vmm_spinlock : bool;
  used_virtual_mmsz : Z;
  usedvmr_head : ptr;
  usedvmr_tail : ptr;
  freevmr_head : ptr;
  freevmr_tail : ptr;
  freenodes_head : ptr;
  freenodes_tail : ptr;
  nodes : gmap loc (node region);
}.

#[global] Program Instance vmm_heap : Heap vmm (node region) := {|
  heap_of := nodes;
  put_heap h s := {| s with nodes := h |};
|}.
Next Obligation. done. Qed.
Next Obligation. by intros []. Qed.
#[global] Instance vmm_lock : Lock vmm := {|
  held := vmm_spinlock;
  set_held b s := {| s with vmm_spinlock := b |};
|}.

(** [VMA_HIGH(0x8000000)], [0xFE000000 - KHEAPBASE], [(int)KHEAPSZ / PAGESZ]. *)
Definition KHEAPBASE : Z := 0x8000000 + 0xC0000000.
Definition KHEAPSZ : Z := 0xFE000000 - KHEAPBASE.
Definition KHEAP_MAX_NODES : Z := KHEAPSZ / PAGESZ.

Definition set_base (b : Z) : node region → node region := set_data (λ d, {| d with vn_base := b |}).
Definition set_size (z : Z) : node region → node region := set_data (λ d, {| d with vn_size := z |}).
Abbreviation base v := (vn_base (n_data v)).
Abbreviation rsize v := (vn_size (n_data v)).

(** [if (p) p->f = ...] *)
Definition upd_if (p : ptr) (f : node region → node region) : M vmm unit :=
  match p with Some l => upd (Some l) f | None => mret tt end.

Definition assert_ptr (p : ptr) : M vmm unit := kassert (bool_decide (p ≠ NULL)).

Definition can_merge_left (n lft : ptr) : M vmm bool :=
  assert_ptr n;; assert_ptr lft;;
  l ← rd lft; v ← rd n;
  mret (bool_decide (u32 (base l + rsize l) = base v)).

Definition can_merge_right (n rgt : ptr) : M vmm bool :=
  assert_ptr n;; assert_ptr rgt;;
  v ← rd n; r ← rd rgt;
  mret (bool_decide (u32 (base v + rsize v) = base r)).

Definition can_merge_both (lft n rgt : ptr) : M vmm bool :=
  l ← can_merge_left n lft;
  if (l : bool) then can_merge_right n rgt else mret false.

Definition freenodes_get : M vmm ptr :=
  head ← gets freenodes_head;
  match head with
  | None => mret NULL
  | Some n =>
      v ← rd (Some n);
      modify (λ s, {| s with freenodes_head := n_next v |});;
      (if n_next v is None then modify (λ s, {| s with freenodes_tail := NULL |}) else mret tt);;
      upd (Some n) (λ _, Node (Region 0 0) NULL NULL);;
      mret (Some n)
  end.

(** [assert(node); assert(node->size); assert(node->base >= KHEAPBASE)] *)
Definition assert_region (n : ptr) : M vmm unit :=
  assert_ptr n;;
  v ← rd n; kassert (bool_decide (rsize v ≠ 0));;
  kassert (bool_decide (KHEAPBASE ≤ base v)).

Definition freenodes_put (n : ptr) : M vmm unit :=
  assert_region n;;
  upd n (set_next NULL);;
  upd n (set_prev NULL);;
  head ← gets freenodes_head;
  (if head is None then modify (λ s, {| s with freenodes_head := n |}) else mret tt);;
  tail ← gets freenodes_tail;
  upd_if tail (set_next n);;
  tail ← gets freenodes_tail;
  upd n (set_prev tail);;
  modify (λ s, {| s with freenodes_tail := n |}).

Definition merge_left (n lft : ptr) : M vmm unit :=
  assert_ptr n;; assert_ptr lft;;
  ok ← can_merge_left n lft;
  (if (ok : bool) then mret tt else panic);;
  l ← rd lft; v ← rd n;
  upd lft (set_size (u32 (rsize l + rsize v)));;
  freenodes_put n.

Definition merge_right (n rgt : ptr) : M vmm unit :=
  assert_ptr n;; assert_ptr rgt;;
  ok ← can_merge_right n rgt;
  (if (ok : bool) then mret tt else panic);;
  r ← rd rgt; v ← rd n;
  upd rgt (set_base (u32 (base r - rsize v)));;
  upd rgt (set_size (u32 (rsize r + rsize v)));;
  freenodes_put n.

Definition concatenate (lft n rgt : ptr) : M vmm unit :=
  ok ← can_merge_both lft n rgt;
  (if (ok : bool) then mret tt else panic);;
  l ← rd lft; v ← rd n; r ← rd rgt;
  upd lft (set_size (u32 (rsize l + u32 (rsize v + rsize r))));;
  upd_if (n_next r) (set_prev lft);;
  upd lft (set_next (n_next r));;
  (if n_next r is None then modify (λ s, {| s with freevmr_tail := lft |}) else mret tt);;
  freenodes_put n;;
  freenodes_put rgt.

Definition freevmr_linkto_left (n lft : ptr) : M vmm unit :=
  assert_ptr n;; assert_ptr lft;;
  l ← rd lft;
  upd n (set_next (n_next l));;
  match n_next l with
  | Some nx => upd (Some nx) (set_prev n)
  | None => modify (λ s, {| s with freevmr_tail := n |});; upd n (set_next NULL)
  end;;
  upd lft (set_next n);;
  upd n (set_prev lft).

Definition freevmr_linkto_right (n rgt : ptr) : M vmm unit :=
  assert_ptr n;; assert_ptr rgt;;
  r ← rd rgt;
  upd n (set_prev (n_prev r));;
  match n_prev r with
  | Some pv => upd (Some pv) (set_next n)
  | None => modify (λ s, {| s with freevmr_head := n |});; upd n (set_prev NULL)
  end;;
  upd rgt (set_prev n);;
  upd n (set_next rgt).

(** [for (tmp = rgt; tmp && (rgt->base < node->base); tmp = rgt = tmp->next) lft = rgt;]
    returns the final [lft] and [rgt]. *)
Fixpoint freevmr_scan (fuel : nat) (b : Z) (lft rgt : ptr) : M vmm (ptr * ptr) :=
  match fuel with
  | O => nofuel
  | S fuel' =>
      match rgt with
      | None => mret (lft, rgt)
      | Some _ =>
          r ← rd rgt;
          if bool_decide (base r < b) then freevmr_scan fuel' b rgt (n_next r) else mret (lft, rgt)
      end
  end.

Definition freevmr_put (n : ptr) : M vmm unit :=
  assert_region n;;
  rgt ← gets freevmr_head;
  upd n (set_prev NULL);;
  upd n (set_next NULL);;
  match rgt with
  | None => modify (λ s, {| s with freevmr_head := n; freevmr_tail := n |})
  | Some _ =>
      v ← rd n;
      fuel ← gets (λ s, size (nodes s));
      '(lft, rgt) ← freevmr_scan (S fuel) (base v) NULL rgt;
      match lft, rgt with
      | Some _, Some _ =>
          both ← can_merge_both lft n rgt;
          if (both : bool) then concatenate lft n rgt else
          onleft ← can_merge_left n lft;
          if (onleft : bool) then merge_left n lft else
          onright ← can_merge_right n rgt;
          if (onright : bool) then merge_right n rgt else
          upd n (set_prev lft);; upd n (set_next rgt);;
          upd lft (set_next n);; upd rgt (set_prev n)
      | Some _, None =>
          onleft ← can_merge_left n lft;
          if (onleft : bool) then merge_left n lft else freevmr_linkto_left n lft
      | None, Some _ =>
          onright ← can_merge_right n rgt;
          if (onright : bool) then merge_right n rgt else freevmr_linkto_right n rgt
      | None, None => panic
      end
  end.

Definition freevmr_get (sz : Z) : M vmm ptr :=
  kassert (bool_decide (sz ≠ 0));;
  kassert (bool_decide (Z.land sz PAGEMASK = 0));;
  head ← gets freevmr_head;
  if decide (head = NULL) then mret NULL else
  n ← walk n_next (λ _ d, bool_decide (sz ≤ vn_size d)) head;
  (if decide (n = NULL) then mret tt else
     v ← rd n;
     let next := n_next v in
     let prev := n_prev v in
     upd n (set_next NULL);;
     upd n (set_prev NULL);;
     upd_if prev (set_next next);;
     head ← gets freevmr_head;
     (if decide (head = n) then
        modify (λ s, {| s with freevmr_head := next |});; upd_if next (set_prev NULL)
      else mret tt);;
     upd_if next (set_prev prev);;
     tail ← gets freevmr_tail;
     (if decide (tail = n) then
        modify (λ s, {| s with freevmr_tail := next |});; upd_if next (set_next NULL)
      else mret tt));;
  mret n.

Definition usedvmr_put (n : ptr) : M vmm unit :=
  assert_region n;;
  head ← gets usedvmr_head;
  (if head is None then modify (λ s, {| s with usedvmr_head := n |}) else mret tt);;
  tail ← gets usedvmr_tail;
  upd_if tail (set_next n);;
  upd n (set_next NULL);;
  upd n (set_prev tail);;
  modify (λ s, {| s with usedvmr_tail := n |}).

Definition usedvmr_lookup (b : Z) : M vmm ptr :=
  kassert (bool_decide (b ≠ 0));;
  head ← gets usedvmr_head;
  if decide (head = NULL) then mret NULL else
  n ← walk n_next (λ _ d, bool_decide (vn_base d = b)) head;
  (if decide (n = NULL) then mret tt else
     v ← rd n;
     upd_if (n_prev v) (set_next (n_next v));;
     upd_if (n_next v) (set_prev (n_prev v));;
     head ← gets usedvmr_head;
     (if decide (head = n) then modify (λ s, {| s with usedvmr_head := n_next v |}) else mret tt);;
     tail ← gets usedvmr_tail;
     (if decide (tail = n) then modify (λ s, {| s with usedvmr_tail := n_prev v |}) else mret tt);;
     upd n (set_next NULL);;
     upd n (set_prev NULL));;
  mret n.

Definition vmm_alloc (sz : Z) : M vmm Z :=
  spin_lock;;
  split ← freevmr_get sz;
  match split with
  | None => spin_unlock;; mret 0
  | Some _ =>
      v ← rd split;
      n ← (if bool_decide (sz < rsize v) then
             n ← freenodes_get;
             assert_ptr n;;
             upd n (set_base (base v));;
             upd n (set_size sz);;
             upd split (set_base (u32 (base v + sz)));;
             upd split (set_size (u32 (rsize v - sz)));;
             freevmr_put split;;
             mret n
           else if bool_decide (rsize v < sz) then panic
           else mret split);
      modify (λ s, {| s with used_virtual_mmsz := u32 (used_virtual_mmsz s + sz) |});;
      v ← rd n;
      usedvmr_put n;;
      spin_unlock;;
      mret (base v)
  end.

Definition vmm_free (b : Z) : M vmm unit :=
  kassert (bool_decide (b ≠ 0));;
  spin_lock;;
  n ← usedvmr_lookup b;
  match n with
  | None => panic
  | Some _ =>
      v ← rd n;
      modify (λ s, {| s with used_virtual_mmsz := u32 (used_virtual_mmsz s - rsize v) |});;
      freevmr_put n;;
      spin_unlock
  end.

(** Both in KiB. *)
Definition vmm_getfreesize : M vmm Z :=
  spin_lock;;
  z ← gets (λ s, u32 (KHEAPSZ - used_virtual_mmsz s));
  spin_unlock;;
  mret (z / 1024).
Definition vmm_getinuse : M vmm Z :=
  spin_lock;;
  z ← gets used_virtual_mmsz;
  spin_unlock;;
  mret (z / 1024).

(** [nodes[i]] is at location [node_at i]; [vmm_init] chains the array. *)
Definition node_at (i : nat) : loc := Pos.of_succ_nat i.
Definition init_node (n i : nat) : node region :=
  Node (Region 0 0) (if i is S j then Some (node_at j) else NULL)
       (if bool_decide (S i < n)%nat then Some (node_at (S i)) else NULL).
Definition init_nodes (n : nat) : gmap loc (node region) :=
  list_to_map ((λ i, (node_at i, init_node n i)) <$> seq 0 n).

Definition vmm_init : M vmm Z :=
  let n := Z.to_nat KHEAP_MAX_NODES in
  modify (λ s, {| s with nodes := init_nodes n;
                         freenodes_head := Some (node_at 0);
                         freenodes_tail := Some (node_at (n - 1)) |});;
  node ← freenodes_get;
  upd node (λ _, Node (Region KHEAPBASE KHEAPSZ) NULL NULL);;
  freevmr_put node;;
  mret 0.

#[global] Arguments freenodes_put n : simpl never.
#[global] Arguments freevmr_put n : simpl never.
#[global] Arguments merge_left n lft : simpl never.
#[global] Arguments merge_right n rgt : simpl never.
#[global] Arguments concatenate lft n rgt : simpl never.
#[global] Arguments freevmr_linkto_left n lft : simpl never.
#[global] Arguments freevmr_linkto_right n rgt : simpl never.
#[global] Arguments freevmr_get sz : simpl never.
#[global] Arguments usedvmr_put n : simpl never.
#[global] Arguments usedvmr_lookup b : simpl never.
#[global] Arguments can_merge_left n lft : simpl never.
#[global] Arguments can_merge_right n rgt : simpl never.
#[global] Arguments can_merge_both lft n rgt : simpl never.
#[global] Arguments assert_region n : simpl never.
#[global] Arguments upd_if p f : simpl never.
#[global] Arguments KHEAPBASE : simpl never.
#[global] Arguments KHEAPSZ : simpl never.
#[global] Arguments KHEAP_MAX_NODES : simpl never.
