(* ===== verification/VmmShape.v ===== *)
(** * Pointer structure of the virtual memory manager

    [shape s fr us fn out]: the three lists of [vmm.c] hold the nodes [fr] (free
    regions), [us] (used regions) and [fn] (spare nodes), the nodes [out] are in no
    list, and together these are the nodes of the array.  One lemma per list
    operation says what it does to the shape; none of them panics or faults on a
    well-shaped state. *)
From S2P Require Import Prelude Dll Vmm.

Definition node_locs : list loc := node_at <$> seq 0 (Z.to_nat KHEAP_MAX_NODES).

Record shape (s : vmm) (fr us fn : list (loc * region)) (out : list loc) : Prop := Shape {
  sh_free : linked (nodes s) NULL fr NULL;
  sh_freehd : freevmr_head s = hd_or NULL fr;
  sh_freetl : freevmr_tail s = NULL ∨ freevmr_tail s = lst_or NULL fr;
  sh_used : linked (nodes s) NULL us NULL;
  sh_usedhd : usedvmr_head s = hd_or NULL us;
  sh_usedtl : usedvmr_tail s = lst_or NULL us;
  sh_spare : schain (nodes s) fn NULL;
  sh_sparehd : freenodes_head s = hd_or NULL fn;
  sh_sparetl : freenodes_tail s = lst_or NULL fn;
  sh_locs : fr.*1 ++ us.*1 ++ fn.*1 ++ out ≡ₚ node_locs;
  sh_out : Forall (λ p, is_Some (nodes s !! p)) out;
}.

(** What an operation on the nodes [touched] leaves as it was. *)
Record frame (s s' : vmm) (touched : list loc) : Prop := Frame {
  fr_lock : vmm_spinlock s' = vmm_spinlock s;
  fr_used : used_virtual_mmsz s' = used_virtual_mmsz s;
  fr_nodes : ∀ q, q ∉ touched → nodes s' !! q = nodes s !! q;
}.

Lemma node_at_inj : Inj (=) (=) node_at.
Proof. intros i j ?. by apply SuccNat2Pos.inj. Qed.
Lemma node_locs_NoDup : NoDup node_locs.
Proof. apply NoDup_fmap_2; [apply node_at_inj|apply NoDup_seq]. Qed.

Lemma shape_NoDup s fr us fn out : shape s fr us fn out → NoDup (fr.*1 ++ us.*1 ++ fn.*1 ++ out).
Proof. intros H. rewrite (sh_locs _ _ _ _ _ H). apply node_locs_NoDup. Qed.

(** The lists share no node. *)
Lemma shape_disjoint s fr us fn out : shape s fr us fn out →
  (∀ p, p ∈ fr.*1 → (p ∉ us.*1) ∧ (p ∉ fn.*1) ∧ (p ∉ out)) ∧
  (∀ p, p ∈ us.*1 → (p ∉ fr.*1) ∧ (p ∉ fn.*1) ∧ (p ∉ out)) ∧
  (∀ p, p ∈ fn.*1 → (p ∉ fr.*1) ∧ (p ∉ us.*1) ∧ (p ∉ out)) ∧
  (∀ p, p ∈ out → (p ∉ fr.*1) ∧ (p ∉ us.*1) ∧ (p ∉ fn.*1)) ∧
  NoDup fr.*1 ∧ NoDup us.*1 ∧ NoDup fn.*1 ∧ NoDup out.
Proof.
  intros H%shape_NoDup. rewrite !NoDup_app in H. set_solver.
Qed.

(** [keep H]: a list whose nodes [H] says are untouched is as it was. *)
Ltac keep Hfr Hd :=
  first [eapply linked_ext | eapply schain_ext]; [|eassumption];
  let q := fresh in let Hq := fresh in intros q Hq; apply Hfr;
  specialize (Hd q Hq); clear -Hd; destruct_and! Hd; first [assumption | set_solver].

Lemma frame_mono s s' (t t' : list loc) : (∀ q, q ∈ t → q ∈ t') → frame s s' t → frame s s' t'.
Proof. intros Ht [F1 F2 F3]. split; auto. Qed.
(** A change of the free list that touches only its nodes and those in no list. *)
Lemma shape_reframe s s' fr fr' us fn out out' (touched : list loc) :
  shape s fr us fn out →
  (∀ q, q ∈ touched → q ∈ fr.*1 ++ out) →
  (∀ q, q ∉ touched → nodes s' !! q = nodes s !! q) →
  (∀ q, is_Some (nodes s !! q) → is_Some (nodes s' !! q)) →
  fr'.*1 ++ out' ≡ₚ fr.*1 ++ out →
  linked (nodes s') NULL fr' NULL →
  freevmr_head s' = hd_or NULL fr' →
  freevmr_tail s' = NULL ∨ freevmr_tail s' = lst_or NULL fr' →
  usedvmr_head s' = usedvmr_head s → usedvmr_tail s' = usedvmr_tail s →
  freenodes_head s' = freenodes_head s → freenodes_tail s' = freenodes_tail s →
  shape s' fr' us fn out'.
Proof.
  intros Hs Ht Hfr His Hperm Hl Hh Htl E1 E2 E3 E4.
  pose proof (shape_disjoint _ _ _ _ _ Hs) as (Hd1 & Hd2 & Hd3 & Hd4 & _).
  assert (Hk : ∀ q, q ∈ us.*1 ++ fn.*1 → nodes s' !! q = nodes s !! q).
  { intros q Hq. apply Hfr. intros Hin%Ht. apply elem_of_app in Hin as [?|?]; set_solver. }
  destruct Hs as [H1 H2 Htf H3 H4 H5 H6 H7 H8 H9 H10]. split; try congruence.
  - eapply linked_ext; [|done]. intros q Hq. apply Hk. set_solver.
  - eapply schain_ext; [|done]. intros q Hq. apply Hk. set_solver.
  - rewrite <- H9. transitivity ((fr'.*1 ++ out') ++ us.*1 ++ fn.*1); [solve_Permutation|].
    rewrite Hperm. solve_Permutation.
  - apply Forall_forall. intros q Hq. apply His.
    assert (q ∈ fr.*1 ++ out) as [?|?]%elem_of_app by (rewrite <- Hperm; set_solver).
    + eauto using linked_is_Some.
    + rewrite Forall_forall in H10. auto.
Qed.

Lemma wp_freenodes_get (Q : ptr → vmm → Prop) s fr us p d fn out :
  shape s fr us ((p, d) :: fn) out →
  (∀ s', shape s' fr us fn (p :: out) → nodes s' !! p = Some (Node (Region 0 0) NULL NULL) →
         frame s s' [p] → Q (Some p) s') →
  wp freenodes_get Q s.
Proof.
  intros Hs HQ. pose proof (shape_disjoint _ _ _ _ _ Hs) as (Hd1 & Hd2 & Hd3 & Hd4 & _ & _ & Hnd & _).
  destruct Hs as [H1 H2 Htf H3 H4 H5 H6 H7 H8 H9 H10]. unfold freenodes_get. wp_go. rewrite H7. simpl.
  destruct H6 as [[pv Hp] H6]. csimpl in *. apply NoDup_cons in Hnd as [Hpn Hnd].
  assert (Hfr : ∀ q, q ∉ [p] → alter (λ _, Node (Region 0 0) NULL NULL) p (nodes s) !! q = nodes s !! q).
  { intros q Hq. apply lookup_alter_ne. set_solver. }
  wp_go. apply wp_mono with (P := λ _ s', s' = {| s with freenodes_head := hd_or NULL fn; freenodes_tail := lst_or NULL fn |}).
  { destruct fn as [|[q e] fn]; simpl; wp_go; [done|]. by rewrite H8. }
  intros [] ? ->. wp_go. apply HQ; [|by simpl; lookup_norm|by split].
  split; simpl; try done.
  - keep Hfr Hd1.
  - keep Hfr Hd2.
  - eapply schain_ext; [|done]. intros q Hq. apply Hfr. set_solver.
  - rewrite <- H9. solve_Permutation.
  - constructor; [by lookup_norm; eauto|]. eapply Forall_impl; [done|]. intros q Hq.
    by rewrite lookup_alter_is_Some.
Qed.

Lemma wp_assert_region p v (Q : unit → vmm → Prop) s :
  nodes s !! p = Some v → rsize v ≠ 0 → KHEAPBASE ≤ base v → Q tt s → wp (assert_region (Some p)) Q s.
Proof.
  intros. unfold assert_region, assert_ptr. by wp_go.
Qed.

Lemma wp_freenodes_put (Q : unit → vmm → Prop) s fr us fn p d a b out :
  shape s fr us fn (p :: out) → nodes s !! p = Some (Node d a b) →
  vn_size d ≠ 0 → KHEAPBASE ≤ vn_base d →
  (∀ s', shape s' fr us (fn ++ [(p, d)]) out → frame s s' (p :: fn.*1) → Q tt s') →
  wp (freenodes_put (Some p)) Q s.
Proof.
  intros Hs Hp Hz Hb HQ. pose proof (shape_disjoint _ _ _ _ _ Hs) as (Hd1 & Hd2 & Hd3 & Hd4 & _ & _ & Hnd & Hno).
  apply NoDup_cons in Hno as [Hpo _].
  destruct Hs as [H1 H2 Htf H3 H4 H5 H6 H7 H8 H9 H10]. unfold freenodes_put, upd_if.
  apply wp_bind. eapply wp_assert_region; [done..|]. wp_go.
  apply wp_mono with (P := λ _ s', s' = {| s with freenodes_head := hd_or (Some p) fn;
    nodes := alter (set_prev NULL) p (alter (set_next NULL) p (nodes s)) |}).
  { rewrite H7. by destruct fn as [|[q e] fn]; simpl; wp_go. }
  intros [] ? ->. wp_go.
  { intros q Hq. rewrite !lookup_alter_is_Some. rewrite H8 in Hq.
    apply lst_or_elem in Hq as [[??]|?]; [done|]. eauto using schain_is_Some. }
  rewrite H8. set (tl := lst_or NULL fn).
  assert (tl ≠ Some p) as Htl by (intros [[??]|?]%lst_or_elem; set_solver).
  assert (Hfr : ∀ q, q ∉ p :: fn.*1 →
    alter (set_prev tl) p (alter_opt (set_next (Some p)) tl
      (alter (set_prev NULL) p (alter (set_next NULL) p (nodes s)))) !! q = nodes s !! q).
  { intros q Hq. rewrite lookup_alter_ne by set_solver. rewrite lookup_alter_opt_ne.
    - by rewrite !lookup_alter_ne by set_solver.
    - intros [[??]|?]%lst_or_elem; set_solver. }
  wp_go. apply HQ; [|by split]. split; simpl; try done.
  - keep Hfr Hd1.
  - keep Hfr Hd2.
  - apply schain_app. split.
    + eapply schain_ext; [intros q Hq; apply lookup_alter_ne; set_solver|].
      eapply schain_set_next; [done|]. eapply schain_ext; [|done].
      intros q Hq. by rewrite !lookup_alter_ne by set_solver.
    + simpl. split; [|done]. exists tl. lookup_norm. done.
  - by rewrite hd_or_app.
  - by rewrite lst_or_snoc.
  - rewrite <- H9, fmap_app. csimpl. solve_Permutation.
  - apply Forall_cons in H10 as [_ H10]. eapply Forall_impl; [done|]. intros q Hq.
    by rewrite lookup_alter_is_Some, lookup_alter_opt_is_Some, !lookup_alter_is_Some.
Qed.


Lemma wp_upd_if p f (Q : unit → vmm → Prop) s :
  (∀ l, p = Some l → is_Some (nodes s !! l)) → Q tt {| s with nodes := alter_opt f p (nodes s) |} →
  wp (upd_if p f) Q s.
Proof. intros. by apply wp_upd_opt. Qed.

Lemma wp_usedvmr_put (Q : unit → vmm → Prop) s fr us fn p d a b out :
  shape s fr us fn (p :: out) → nodes s !! p = Some (Node d a b) →
  vn_size d ≠ 0 → KHEAPBASE ≤ vn_base d →
  (∀ s', shape s' fr (us ++ [(p, d)]) fn out → frame s s' (p :: us.*1) → Q tt s') →
  wp (usedvmr_put (Some p)) Q s.
Proof.
  intros Hs Hp Hz Hb HQ. pose proof (shape_disjoint _ _ _ _ _ Hs) as (Hd1 & Hd2 & Hd3 & Hd4 & _ & Hnd & _ & Hno).
  apply NoDup_cons in Hno as [Hpo _].
  destruct Hs as [H1 H2 Htf H3 H4 H5 H6 H7 H8 H9 H10]. unfold usedvmr_put.
  apply wp_bind. eapply wp_assert_region; [done..|]. wp_go.
  apply wp_mono with (P := λ _ s', s' = {| s with usedvmr_head := hd_or (Some p) us |}).
  { rewrite H4. destruct us as [|[q e] us]; simpl; wp_go; [done|]. by destruct s; simpl in *; subst. }
  intros [] ? ->. wp_go. apply wp_upd_if.
  { intros q Hq. simpl in *. rewrite H5 in Hq. eauto with kheap. }
  rewrite H5. set (tl := lst_or NULL us).
  assert (tl ≠ Some p) as Htl by (intros [[??]|?]%lst_or_elem; set_solver).
  wp_go. set (h' := alter _ _ _).
  assert (Hfr : ∀ q, q ∉ p :: us.*1 → h' !! q = nodes s !! q).
  { intros q Hq. subst h'. rewrite !lookup_alter_ne by set_solver. apply lookup_alter_opt_ne.
    intros [[??]|?]%lst_or_elem; set_solver. }
  apply HQ; [|by split]. split; simpl; try done.
  - keep Hfr Hd1.
  - eapply linked_snoc; [done..| |].
    + subst h'. by lookup_norm.
    + intros q Hq. subst h'. by rewrite !lookup_alter_ne by set_solver.
  - by rewrite hd_or_app.
  - by rewrite lst_or_snoc.
  - keep Hfr Hd3.
  - rewrite <- H9, fmap_app. csimpl. solve_Permutation.
  - apply Forall_cons in H10 as [_ H10]. eapply Forall_impl; [done|]. intros q Hq. subst h'.
    by rewrite !lookup_alter_is_Some, lookup_alter_opt_is_Some.
Qed.

Lemma wp_usedvmr_lookup z (Q : ptr → vmm → Prop) s fr us fn out :
  shape s fr us fn out → z ≠ 0 →
  ((∀ p d, (p, d) ∈ us → vn_base d ≠ z) → Q NULL s) →
  (∀ l1 p d l2 s', us = l1 ++ (p, d) :: l2 → vn_base d = z →
     shape s' fr (l1 ++ l2) fn (p :: out) → nodes s' !! p = Some (Node d NULL NULL) →
     frame s s' us.*1 → Q (Some p) s') →
  wp (usedvmr_lookup z) Q s.
Proof.
  intros Hs Hz HQ1 HQ2. pose proof (shape_disjoint _ _ _ _ _ Hs) as (Hd1 & Hd2 & Hd3 & Hd4 & _ & Hnd & _ & Hno).
  destruct Hs as [H1 H2 Htf H3 H4 H5 H6 H7 H8 H9 H10]. unfold usedvmr_lookup. wp_go. rewrite H4.
  case_decide as He.
  { apply wp_ret, HQ1. destruct us as [|[]]; [set_solver|done]. }
  apply wp_bind. eapply wp_eq; [by eapply walk_next|].
  destruct (find_loc _ us) as [p|] eqn:E; simpl.
  2: { wp_go. apply HQ1. rewrite find_loc_None in E. intros p d Hin. by apply E, bool_decide_eq_false in Hin. }
  apply find_loc_Some in E as (l1 & d & l2 & -> & Hb%bool_decide_eq_true & _).
  pose proof (linked_unlink _ _ _ _ _ _ _ Hnd H3) as Hl'.
  pose proof H3 as [H3a [Hp H3b]]%linked_app. pose proof (NoDup_mid _ _ _ _ Hnd) as (_ & _ & _ & Hp1 & Hp2 & _).
  pose proof (hd_or_detach _ _ _ _ Hnd) as Hhd. pose proof (lst_or_detach _ _ _ _ Hnd) as Htl.
  rewrite <- H4 in Hhd. rewrite <- H5 in Htl.
  wp_go. apply wp_upd_if; [eauto with kheap|].
  wp_go. apply wp_upd_if; [simpl; intros ??; rewrite lookup_alter_opt_is_Some; eauto with kheap|].
  wp_go. set (h' := alter_opt _ _ _) in *.
  apply wp_mono with (P := λ _ s', s' = {| s with usedvmr_head := hd_or NULL (l1 ++ l2); nodes := h' |}).
  { rewrite <- Hhd. repeat case_decide; by wp_go. }
  intros [] ? ->. wp_go.
  apply wp_mono with (P := λ _ s', s' = {| s with usedvmr_head := hd_or NULL (l1 ++ l2);
    usedvmr_tail := lst_or NULL (l1 ++ l2); nodes := h' |}).
  { rewrite <- Htl. repeat case_decide; by wp_go. }
  intros [] ? ->.
  assert (Hpl1 : lst_or NULL l1 ≠ Some p) by (intros [[??]|?]%lst_or_elem; done).
  assert (Hpl2 : hd_or NULL l2 ≠ Some p) by (intros [[??]|?]%hd_or_elem; done).
  assert (Hp' : h' !! p = nodes s !! p) by (subst h'; by rewrite !lookup_alter_opt_ne).
  rewrite Hp in Hp'. wp_go.
  assert (Hfr : ∀ q, q ∉ (l1 ++ (p, d) :: l2).*1 →
    alter (set_prev NULL) p (alter (set_next NULL) p h') !! q = nodes s !! q).
  { intros q Hq. apply (lookup_unlink_ne (nodes s) (set_prev (lst_or NULL l1)) (set_next (hd_or NULL l2))) in Hq
      as [? Hq]. by rewrite !lookup_alter_ne. }
  eapply HQ2; [done..| |by simpl; lookup_norm|by split]. split; simpl; try done.
  - keep Hfr Hd1.
  - do 2 (apply linked_alter_ne; [rewrite fmap_app; set_solver|]). done.
  - keep Hfr Hd3.
  - rewrite <- H9, !fmap_app. csimpl. solve_Permutation.
  - constructor; [by lookup_norm; eauto|]. eapply Forall_impl; [done|]. intros q Hq. subst h'.
    by rewrite !lookup_alter_is_Some, !lookup_alter_opt_is_Some.
Qed.

Lemma wp_freevmr_get z (Q : ptr → vmm → Prop) s fr us fn out :
  shape s fr us fn out → z ≠ 0 → Z.land z PAGEMASK = 0 →
  ((∀ p d, (p, d) ∈ fr → vn_size d < z) → Q NULL s) →
  (∀ l1 p d l2 s', fr = l1 ++ (p, d) :: l2 → z ≤ vn_size d →
     (∀ q e, (q, e) ∈ l1 → vn_size e < z) →
     shape s' (l1 ++ l2) us fn (p :: out) → nodes s' !! p = Some (Node d NULL NULL) →
     frame s s' fr.*1 → Q (Some p) s') →
  wp (freevmr_get z) Q s.
Proof.
  intros Hs Hz Hza HQ1 HQ2. pose proof (shape_disjoint _ _ _ _ _ Hs) as (Hd1 & Hd2 & Hd3 & Hd4 & Hnd & _ & _ & Hno).
  destruct Hs as [H1 H2 Htf H3 H4 H5 H6 H7 H8 H9 H10]. unfold freevmr_get. wp_go. rewrite H2.
  case_decide as He.
  { apply wp_ret, HQ1. destruct fr as [|[]]; [set_solver|done]. }
  apply wp_bind. eapply wp_eq; [by eapply walk_next|].
  assert (Htest : ∀ l : list (loc * region), (∀ q e, (q, e) ∈ l → bool_decide (z ≤ vn_size e) = false) →
    ∀ q e, (q, e) ∈ l → vn_size e < z).
  { intros l Hl q e Hin. apply Hl, bool_decide_eq_false in Hin. lia. }
  destruct (find_loc _ fr) as [p|] eqn:E; simpl.
  2: { wp_go. apply HQ1, Htest. by apply find_loc_None. }
  apply find_loc_Some in E as (l1 & d & l2 & -> & Hb%bool_decide_eq_true & Hl1).
  pose proof (Htest _ Hl1) as Hl1'.
  pose proof (linked_unlink _ _ _ _ _ _ _ Hnd H1) as Hl'.
  pose proof H1 as [H1a [Hp H1b]]%linked_app. pose proof (NoDup_mid _ _ _ _ Hnd) as (_ & Hnd1 & Hnd2 & Hp1 & Hp2 & Hp12).
  pose proof (hd_or_detach _ _ _ _ Hnd) as Hhd. rewrite <- H2 in Hhd.
  assert (Hpl1 : lst_or NULL l1 ≠ Some p) by (intros [[??]|?]%lst_or_elem; done).
  assert (Hpl2 : hd_or NULL l2 ≠ Some p) by (intros [[??]|?]%hd_or_elem; done).
  wp_go. apply wp_upd_if.
  { simpl. intros q Hq. rewrite !lookup_alter_is_Some. eauto with kheap. }
  wp_go. set (h1 := alter (set_prev NULL) p (alter (set_next NULL) p (nodes s))).
  set (h2 := alter_opt (set_next (hd_or NULL l2)) (lst_or NULL l1) h1).
  assert (Hs2 : ∀ q, is_Some (h2 !! q) ↔ is_Some (nodes s !! q)).
  { intros q. subst h2 h1. by rewrite lookup_alter_opt_is_Some, !lookup_alter_is_Some. }
  assert (Hs2' : ∀ f q, hd_or NULL l2 = Some q → is_Some (alter_opt f (hd_or NULL l2) h2 !! q)).
  { intros f q Hq. rewrite lookup_alter_opt_is_Some, Hs2. eauto with kheap. }
  apply wp_mono with (P := λ _ s', s' = {| s with freevmr_head := hd_or NULL (l1 ++ l2);
    nodes := if decide (freevmr_head s = Some p) then alter_opt (set_prev NULL) (hd_or NULL l2) h2 else h2 |}).
  { rewrite <- Hhd. repeat case_decide; try done; wp_go; try done. apply wp_upd_if; [|done].
    simpl. intros q Hq. rewrite Hs2. eauto with kheap. }
  intros [] ? ->. wp_go. apply wp_upd_if.
  { simpl. intros q Hq. case_decide; [by apply Hs2'|]. rewrite Hs2. eauto with kheap. }
  wp_go.
  replace (alter_opt (set_prev (lst_or NULL l1)) (hd_or NULL l2) _) with
    (alter_opt (set_prev (lst_or NULL l1)) (hd_or NULL l2) h2)
    by (case_decide; [by rewrite alter_opt_alter_opt|done]).
  set (h3 := alter_opt (set_prev _) _ h2).
  apply wp_mono with (P := λ _ s', ∃ t, (t = NULL ∨ t = lst_or NULL (l1 ++ l2)) ∧
    s' = {| s with freevmr_head := hd_or NULL (l1 ++ l2); freevmr_tail := t; nodes := h3 |}).
  { clear Hhd. case_decide as Ht.
    - destruct l2 as [|[q e] l2].
      + wp_go. apply wp_upd_if; [done|]. exists NULL. eauto.
      + exfalso. destruct Htf as [?|Htf]; [congruence|]. rewrite Ht, lst_or_app in Htf.
        csimpl in *. symmetry in Htf. apply not_elem_of_cons in Hp2 as [??].
        apply lst_or_elem in Htf as [[_ [= ->]]|?]; done.
    - apply wp_ret. exists (freevmr_tail s). split; [|done]. destruct Htf as [?|Htf]; [by left|right].
      rewrite <- (lst_or_detach _ _ _ _ Hnd). by rewrite <- Htf, decide_False. }
  intros [] ? (t & Ht & ->). wp_go.
  assert (Hh1 : ∀ q, q ≠ p → h1 !! q = nodes s !! q).
  { intros q Hq. subst h1. by rewrite !lookup_alter_ne. }
  assert (Hfr : ∀ q, q ∉ (l1 ++ (p, d) :: l2).*1 → h3 !! q = nodes s !! q).
  { intros q Hq. apply (lookup_unlink_ne h1 (set_prev (lst_or NULL l1)) (set_next (hd_or NULL l2))) in Hq
      as [? Hq]. rewrite <- (Hh1 q) by done. exact Hq. }
  eapply HQ2; [done..| | |by split].
  - split; simpl; try done.
    + eapply linked_ext; [|exact Hl']. intros q Hq. subst h3 h2. do 2 apply lookup_alter_opt_congr.
      apply Hh1. rewrite fmap_app in Hq. set_solver.
    + keep Hfr Hd2.
    + keep Hfr Hd3.
    + rewrite <- H9, !fmap_app. csimpl. solve_Permutation.
    + assert (Hs3 : ∀ q, is_Some (h3 !! q) ↔ is_Some (nodes s !! q)).
      { intros q. subst h3. by rewrite lookup_alter_opt_is_Some. }
      constructor; [rewrite Hs3; eauto|]. eapply Forall_impl; [done|]. intros q Hq. by apply Hs3.
  - simpl. subst h3 h2 h1. by lookup_norm.
Qed.
