(* ===== verification/VmmPut.v ===== *)
(** * Putting regions back on the free list

    [freevmr_put] of [kernel/mm/vmm/vmm.c] finds the place of a region by address
    and merges it with the neighbours it touches.  [put_result] says what becomes
    of the free list; [wp_freevmr_put] proves it, for every free list. *)
From S2P Require Import Prelude Dll Vmm VmmShape.

(** ** Where [freevmr_put] looks *)

Definition below (b : Z) (x : loc * region) : Prop := vn_base x.2 < b.

Lemma freevmr_scan_split fuel b pv l s :
  (length l < fuel)%nat → linked (nodes s) pv l NULL →
  ∃ l1 l2, l = l1 ++ l2 ∧ Forall (below b) l1 ∧ (∀ x l', l2 = x :: l' → ¬ below b x) ∧
    freevmr_scan fuel b pv (hd_or NULL l) s = Ok ((lst_or pv l1, hd_or NULL l2), s).
Proof.
  revert fuel pv. induction l as [|[p d] l IH]; intros [|fuel] pv Hf Hl; simpl in *; try lia.
  { by exists [], []. }
  destruct Hl as [Hp Hl]. unfold mbind, M_bind, rd. simpl. rewrite Hp. simpl. case_bool_decide as Hb.
  - destruct (IH fuel (Some p)) as (l1 & l2 & -> & H1 & H2 & E); [lia|done|]. exists ((p, d) :: l1), l2.
    split_and!; try done. by constructor.
  - exists [], ((p, d) :: l). split_and!; try done. by intros x l' [= <- _].
Qed.

(** The two regions are adjacent, as [vmm.c] computes it. *)
Definition adjacent (d e : region) : Prop := u32 (vn_base d + vn_size d) = vn_base e.
#[global] Instance adjacent_dec d e : Decision (adjacent d e) := decide (_ = _).

Section merge.
Context (s : vmm) (p q : loc) (v w : node region).
Hypothesis Hp : nodes s !! p = Some v.
Hypothesis Hq : nodes s !! q = Some w.

Lemma wp_can_merge_left (Q : bool → vmm → Prop) :
  Q (bool_decide (adjacent (n_data w) (n_data v))) s → wp (can_merge_left (Some p) (Some q)) Q s.
Proof using Hp Hq. intros. unfold can_merge_left, assert_ptr. by wp_go. Qed.
Lemma wp_can_merge_right (Q : bool → vmm → Prop) :
  Q (bool_decide (adjacent (n_data v) (n_data w))) s → wp (can_merge_right (Some p) (Some q)) Q s.
Proof using Hp Hq. intros. unfold can_merge_right, assert_ptr. by wp_go. Qed.
End merge.

Lemma wp_can_merge_both s (p q r : loc) (v w x : node region) (Q : bool → vmm → Prop) :
  nodes s !! p = Some v → nodes s !! q = Some w → nodes s !! r = Some x →
  Q (bool_decide (adjacent (n_data v) (n_data w) ∧ adjacent (n_data w) (n_data x))) s →
  wp (can_merge_both (Some p) (Some q) (Some r)) Q s.
Proof.
  intros Hp Hq Hr HQ. unfold can_merge_both. apply wp_bind. eapply wp_can_merge_left; [done..|].
  destruct (decide (adjacent (n_data v) (n_data w))) as [Ha|Ha].
  - rewrite (bool_decide_true _ Ha). eapply wp_can_merge_right; [done..|].
    erewrite bool_decide_ext in HQ; [exact HQ|tauto].
  - rewrite (bool_decide_false _ Ha). apply wp_ret. rewrite bool_decide_false in HQ by tauto. done.
Qed.

(** ** What [freevmr_put] does to the free list

    [put_result l1 (p, d) l2 fr freed]: putting node [p] with region [d] between
    [l1] and [l2] gives the free list [fr]; the nodes [freed] are spare again. *)
Definition adj_left (l1 : list (loc * region)) (d : region) : Prop :=
  match last l1 with Some (_, e) => adjacent e d | None => False end.
Definition adj_right (d : region) (l2 : list (loc * region)) : Prop :=
  match l2 with (_, f) :: _ => adjacent d f | [] => False end.

Inductive put_result (p : loc) (d : region) : list (loc * region) → list (loc * region) →
    list (loc * region) → list (loc * region) → Prop :=
| put_both l1 q e r f l2 : adjacent e d → adjacent d f →
    put_result p d (l1 ++ [(q, e)]) ((r, f) :: l2)
      (l1 ++ (q, Region (vn_base e) (u32 (vn_size e + u32 (vn_size d + vn_size f)))) :: l2) [(p, d); (r, f)]
| put_left l1 q e l2 : adjacent e d → ¬ adj_right d l2 →
    put_result p d (l1 ++ [(q, e)]) l2
      (l1 ++ (q, Region (vn_base e) (u32 (vn_size e + vn_size d))) :: l2) [(p, d)]
| put_right l1 r f l2 : ¬ adj_left l1 d → adjacent d f →
    put_result p d l1 ((r, f) :: l2)
      (l1 ++ (r, Region (u32 (vn_base f - vn_size d)) (u32 (vn_size f + vn_size d))) :: l2) [(p, d)]
| put_none l1 l2 : ¬ adj_left l1 d → ¬ adj_right d l2 →
    put_result p d l1 l2 (l1 ++ (p, d) :: l2) [].

Definition sane (x : loc * region) : Prop := vn_size x.2 ≠ 0 ∧ KHEAPBASE ≤ vn_base x.2.

(** A node of the free list gets another region. *)
Lemma shape_set_region s l1 q e l2 us fn out e' h' :
  shape s (l1 ++ (q, e) :: l2) us fn out →
  h' = alter (set_data (λ _, e')) q (nodes s) →
  shape {| s with nodes := h' |} (l1 ++ (q, e') :: l2) us fn out.
Proof.
  intros Hs ->. pose proof (shape_disjoint _ _ _ _ _ Hs) as (_ & _ & _ & _ & Hnd & _).
  eapply (shape_reframe _ _ _ _ _ _ _ _ [q]); [done|..]; simpl; try done.
  - intros q' ->%list_elem_of_singleton. rewrite fmap_app. set_solver.
  - intros q' Hq. apply lookup_alter_ne. set_solver.
  - intros q'. by rewrite lookup_alter_is_Some.
  - by rewrite !fmap_app.
  - eapply (linked_set_data _ _ _ _ _ _ _ (λ _, e')); [done|]. apply Hs.
  - rewrite hd_or_app. simpl. rewrite (sh_freehd _ _ _ _ _ Hs), hd_or_app. done.
  - rewrite lst_or_app. simpl. destruct (sh_freetl _ _ _ _ _ Hs) as [?|Ht]; [by left|right].
    rewrite Ht, lst_or_app. done.
Qed.

Lemma wp_merge_left (Q : unit → vmm → Prop) s l1 q e l2 us fn out p d a b :
  shape s (l1 ++ (q, e) :: l2) us fn (p :: out) → nodes s !! p = Some (Node d a b) →
  vn_size d ≠ 0 → KHEAPBASE ≤ vn_base d → adjacent e d →
  (∀ s', shape s' (l1 ++ (q, Region (vn_base e) (u32 (vn_size e + vn_size d))) :: l2) us (fn ++ [(p, d)]) out →
     frame s s' (p :: q :: fn.*1) → Q tt s') →
  wp (merge_left (Some p) (Some q)) Q s.
Proof.
  intros Hs Hp Hz Hb Hadj HQ. pose proof (shape_disjoint _ _ _ _ _ Hs) as (_ & _ & _ & Hd4 & _).
  pose proof (sh_free _ _ _ _ _ Hs) as [_ [Hq _]]%linked_app.
  assert (p ≠ q). { intros ->. destruct (Hd4 q); [left|]. rewrite fmap_app in *. set_solver. }
  unfold merge_left, assert_ptr. wp_go. eapply wp_can_merge_left; [done..|].
  rewrite bool_decide_true by done. wp_go.
  eapply (wp_freenodes_put _ _ (l1 ++ (q, Region (vn_base e) (u32 (vn_size e + vn_size d))) :: l2)).
  - eapply shape_set_region; [done|]. apply alter_ext. intros w Hw. by simplify_eq.
  - simpl. by lookup_norm.
  - done.
  - done.
  - intros s' Hs' [E1 E2 E3]. simpl in *. apply HQ; [done|]. split; simpl; [done..|].
    intros q' [? [? ?]%not_elem_of_cons]%not_elem_of_cons. rewrite E3 by set_solver. by rewrite lookup_alter_ne.
Qed.

Lemma wp_merge_right (Q : unit → vmm → Prop) s l1 r f l2 us fn out p d a b :
  shape s (l1 ++ (r, f) :: l2) us fn (p :: out) → nodes s !! p = Some (Node d a b) →
  vn_size d ≠ 0 → KHEAPBASE ≤ vn_base d → adjacent d f →
  (∀ s', shape s' (l1 ++ (r, Region (u32 (vn_base f - vn_size d)) (u32 (vn_size f + vn_size d))) :: l2)
       us (fn ++ [(p, d)]) out →
     frame s s' (p :: r :: fn.*1) → Q tt s') →
  wp (merge_right (Some p) (Some r)) Q s.
Proof.
  intros Hs Hp Hz Hb Hadj HQ. pose proof (shape_disjoint _ _ _ _ _ Hs) as (_ & _ & _ & Hd4 & _).
  pose proof (sh_free _ _ _ _ _ Hs) as [_ [Hr _]]%linked_app.
  assert (p ≠ r). { intros ->. destruct (Hd4 r); [left|]. rewrite fmap_app in *. set_solver. }
  unfold merge_right, assert_ptr. wp_go. eapply wp_can_merge_right; [done..|].
  rewrite bool_decide_true by done. wp_go.
  eapply (wp_freenodes_put _ _
    (l1 ++ (r, Region (u32 (vn_base f - vn_size d)) (u32 (vn_size f + vn_size d))) :: l2)).
  - eapply shape_set_region; [done|]. rewrite alter_alter_eq. apply alter_ext. intros w Hw. by simplify_eq.
  - simpl. by lookup_norm.
  - done.
  - done.
  - intros s' Hs' [E1 E2 E3]. simpl in *. apply HQ; [done|]. split; simpl; [done..|].
    intros q' [? [? ?]%not_elem_of_cons]%not_elem_of_cons. rewrite E3 by set_solver. by rewrite !lookup_alter_ne.
Qed.

(** The three regions become one, at the node [q]. *)
Lemma shape_concat s l1 q e r f l2 us fn out p z h' :
  shape s (l1 ++ (q, e) :: (r, f) :: l2) us fn (p :: out) →
  h' = alter (set_next (hd_or NULL l2)) q
         (alter_opt (set_prev (Some q)) (hd_or NULL l2) (alter (set_size z) q (nodes s))) →
  shape {| s with nodes := h'; freevmr_tail := if hd_or NULL l2 is None then Some q else freevmr_tail s |}
    (l1 ++ (q, Region (vn_base e) z) :: l2) us fn (p :: r :: out).
Proof.
  intros Hs ->. pose proof (shape_disjoint _ _ _ _ _ Hs) as (_ & _ & _ & _ & Hnd & _).
  pose proof (sh_free _ _ _ _ _ Hs) as Hl.
  eapply (shape_reframe _ _ _ _ _ _ _ _ (q :: l2.*1)); [done|..]; simpl; try done.
  - intros x ?. rewrite fmap_app. set_solver.
  - intros x [??]%not_elem_of_cons. rewrite lookup_alter_ne, lookup_alter_opt_ne, lookup_alter_ne; [done..| |done].
    intros [[??]|?]%hd_or_elem; done.
  - intros x. by rewrite lookup_alter_is_Some, lookup_alter_opt_is_Some, lookup_alter_is_Some.
  - rewrite !fmap_app. csimpl. solve_Permutation.
  - eapply (linked_absorb _ _ _ _ _ _ _ _ _ (λ d, {| d with vn_size := _ |})); [done|exact Hl].
  - rewrite (sh_freehd _ _ _ _ _ Hs), !hd_or_app. done.
  - destruct (sh_freetl _ _ _ _ _ Hs) as [->| ->]; rewrite ?lst_or_app; simpl; destruct l2 as [|[]]; simpl; auto.
Qed.

Lemma wp_concatenate (Q : unit → vmm → Prop) s l1 q e r f l2 us fn out p d a b :
  shape s (l1 ++ (q, e) :: (r, f) :: l2) us fn (p :: out) → nodes s !! p = Some (Node d a b) →
  sane (p, d) → sane (r, f) → adjacent e d → adjacent d f →
  (∀ s', shape s' (l1 ++ (q, Region (vn_base e) (u32 (vn_size e + u32 (vn_size d + vn_size f)))) :: l2)
       us (fn ++ [(p, d); (r, f)]) out →
     frame s s' (p :: (l1 ++ (q, e) :: (r, f) :: l2).*1 ++ fn.*1) → Q tt s') →
  wp (concatenate (Some q) (Some p) (Some r)) Q s.
Proof.
  intros Hs Hp [Hz Hb] [Hz' Hb'] Ha1 Ha2 HQ.
  pose proof (shape_disjoint _ _ _ _ _ Hs) as (Hd1 & _ & _ & Hd4 & Hnd & _).
  pose proof (sh_free _ _ _ _ _ Hs) as [_ (Hq & Hr & Hl2)]%linked_app.
  destruct (Hd4 p) as [Hpf _]; [left|].
  destruct (Hd1 r) as (_ & Hrfn & _); [rewrite fmap_app; set_solver|].
  rewrite fmap_app in *. csimpl in *. apply NoDup_app in Hnd as (_ & _ & Hnd).
  rewrite !NoDup_cons, elem_of_cons in Hnd. destruct Hnd as (Hqr & Hrl & _).
  rewrite not_elem_of_app, !not_elem_of_cons in Hpf. destruct Hpf as (_ & ? & ? & ?).
  assert (hd_or NULL l2 ≠ Some p ∧ hd_or NULL l2 ≠ Some r ∧ q ≠ r) as (Hhp & Hhr & ?)
    by (split_and!; [intros [[??]|?]%hd_or_elem..|]; try done; tauto).
  unfold concatenate. wp_go. eapply wp_can_merge_both; [done..|]. rewrite bool_decide_true by done. wp_go.
  apply wp_upd_if. { simpl. intros ??. rewrite lookup_alter_is_Some. eauto with kheap. }
  wp_go. set (h' := alter (set_next _) q _).
  pose proof (shape_concat _ _ _ _ _ _ _ _ _ _ _ _ h' Hs eq_refl) as Hs1.
  eapply wp_mono with (P := λ _ s', s' = {| s with nodes := h';
    freevmr_tail := if hd_or NULL l2 is None then Some q else freevmr_tail s |}).
  { by destruct (hd_or NULL l2); wp_go. }
  intros [] ? ->. apply wp_bind.
  eapply wp_freenodes_put; [done|subst h'; simpl; by lookup_norm|done..|]. intros s2 Hs2 [F1 F2 F3].
  eapply wp_freenodes_put; [done| |done..|].
  { rewrite F3 by (apply not_elem_of_cons; done). subst h'; simpl. by lookup_norm. }
  rewrite <- (assoc_L (++)). intros s3 Hs3 [G1 G2 G3]. apply HQ; [done|]. simpl in *.
  split; [congruence..|]. intros x. rewrite fmap_app in G3. csimpl in *.
  rewrite !not_elem_of_cons, !not_elem_of_app, !not_elem_of_cons. intros (? & (? & ? & ? & ?) & ?).
  rewrite G3, F3 by (rewrite not_elem_of_cons, ?not_elem_of_app, ?list_elem_of_singleton; tauto). subst h'.
  rewrite lookup_alter_ne, lookup_alter_opt_ne, lookup_alter_ne; try done.
  intros [[??]|?]%hd_or_elem; done.
Qed.

#[global] Arguments freevmr_scan fuel b lft rgt : simpl never.
Lemma shape_put_none s l1 p d l2 us fn out s' :
  shape s (l1 ++ l2) us fn (p :: out) →
  nodes s' !! p = Some (Node d (lst_or NULL l1) (hd_or NULL l2)) →
  (∀ q, q ≠ p → nodes s' !! q = alter_opt (set_prev (Some p)) (hd_or NULL l2)
                   (alter_opt (set_next (Some p)) (lst_or NULL l1) (nodes s)) !! q) →
  freevmr_head s' = hd_or (Some p) l1 →
  freevmr_tail s' = NULL ∨ freevmr_tail s' = lst_or (Some p) l2 →
  usedvmr_head s' = usedvmr_head s → usedvmr_tail s' = usedvmr_tail s →
  freenodes_head s' = freenodes_head s → freenodes_tail s' = freenodes_tail s →
  shape s' (l1 ++ (p, d) :: l2) us fn out ∧
  ∀ q, q ∉ p :: (l1 ++ l2).*1 → nodes s' !! q = nodes s !! q.
Proof.
  intros Hs Hp Hq Hh Ht E1 E2 E3 E4. pose proof (shape_disjoint _ _ _ _ _ Hs) as (_ & _ & _ & Hd4 & Hnd & _).
  destruct (Hd4 p) as [Hpf _]; [left|].
  assert (Hfr : ∀ q, q ∉ p :: (l1 ++ l2).*1 → nodes s' !! q = nodes s !! q).
  { intros q. rewrite fmap_app, not_elem_of_cons, not_elem_of_app. intros (? & ? & ?). rewrite Hq by done.
    rewrite !lookup_alter_opt_ne; [done|intros [[??]|?]%lst_or_elem|intros [[??]|?]%hd_or_elem]; done. }
  split; [|done]. eapply (shape_reframe _ _ _ _ _ _ _ _ (p :: (l1 ++ l2).*1)); [done|..]; try done.
  - intros q. rewrite elem_of_app, !elem_of_cons. tauto.
  - intros q Hsome. destruct (decide (q = p)) as [->|?]; [by rewrite Hp|].
    by rewrite Hq, !lookup_alter_opt_is_Some by done.
  - rewrite !fmap_app. csimpl. solve_Permutation.
  - eapply linked_insert_mid; [done|apply Hs|done|]. intros q Hqf. apply Hq. congruence.
  - by rewrite hd_or_app.
  - by rewrite lst_or_app.
Qed.

(** Detaching a node that is in no list. *)
Lemma shape_detach s fr us fn p out f :
  shape s fr us fn (p :: out) → shape {| s with nodes := alter f p (nodes s) |} fr us fn (p :: out).
Proof.
  intros Hs. pose proof (shape_disjoint _ _ _ _ _ Hs) as (_ & _ & _ & Hd4 & _).
  destruct (Hd4 p) as [Hpf _]; [left|].
  eapply (shape_reframe _ _ _ _ _ _ _ _ [p]); [done|..]; try apply Hs; try done; simpl.
  - intros q ->%list_elem_of_singleton. set_solver.
  - intros q ?. apply lookup_alter_ne. set_solver.
  - intros q. by rewrite lookup_alter_is_Some.
  - apply linked_alter_ne; [done|apply Hs].
Qed.

Section put.
Context (s : vmm) (l1 l2 us fn : list (loc * region)) (out : list loc) (p : loc) (d : region).
Hypothesis Hs : shape s (l1 ++ l2) us fn (p :: out).
Hypothesis Hp : nodes s !! p = Some (Node d NULL NULL).

Lemma put_fresh : lst_or NULL l1 ≠ Some p ∧ hd_or NULL l2 ≠ Some p ∧
  ∀ q, lst_or NULL l1 = Some q → hd_or NULL l2 ≠ Some q.
Proof using Hs.
  pose proof (shape_disjoint _ _ _ _ _ Hs) as (_ & _ & _ & Hd4 & Hnd & _).
  destruct (Hd4 p) as [Hpf _]; [left|]. rewrite fmap_app in *.
  apply NoDup_app in Hnd as (_ & Hnd & _). apply not_elem_of_app in Hpf as [??].
  split_and!; [intros [[??]|?]%lst_or_elem; done|intros [[??]|?]%hd_or_elem; done|].
  intros q [[??]|?]%lst_or_elem [[??]|?]%hd_or_elem; naive_solver.
Qed.

(** What every way of inserting [p] without a merge leaves. *)
Definition inserted (s' : vmm) : Prop :=
  shape s' (l1 ++ (p, d) :: l2) us fn out ∧ frame s s' (p :: (l1 ++ l2).*1).

Lemma inserted_intro (s' : vmm) :
  nodes s' !! p = Some (Node d (lst_or NULL l1) (hd_or NULL l2)) →
  (∀ q, q ≠ p → nodes s' !! q = alter_opt (set_prev (Some p)) (hd_or NULL l2)
                   (alter_opt (set_next (Some p)) (lst_or NULL l1) (nodes s)) !! q) →
  freevmr_head s' = hd_or (Some p) l1 →
  freevmr_tail s' = NULL ∨ freevmr_tail s' = lst_or (Some p) l2 →
  usedvmr_head s' = usedvmr_head s → usedvmr_tail s' = usedvmr_tail s →
  freenodes_head s' = freenodes_head s → freenodes_tail s' = freenodes_tail s →
  vmm_spinlock s' = vmm_spinlock s → used_virtual_mmsz s' = used_virtual_mmsz s → inserted s'.
Proof using Hs.
  intros. edestruct (shape_put_none s l1 p d l2) as [? ?]; [done..|]. by split.
Qed.

Lemma wp_linkto_left (Q : unit → vmm → Prop) q : l2 = [] → lst_or NULL l1 = Some q →
  (∀ s', inserted s' → Q tt s') → wp (freevmr_linkto_left (Some p) (Some q)) Q s.
Proof using Hs Hp.
  intros El Hq HQ. destruct put_fresh as (Hf1 & Hf2 & Hf3).
  pose proof (sh_free _ _ _ _ _ Hs) as Hl. rewrite El, app_nil_r in Hl.
  destruct (linked_lst_is_Some _ _ _ _ _ Hl Hq) as [w Hw].
  assert (n_next w = NULL) as Hn.
  { destruct (lst_or_inv _ _ Hq) as (l1' & e & E). rewrite E in Hl.
    apply linked_app in Hl as [_ [Hl _]]. by simplify_eq. }
  unfold freevmr_linkto_left, assert_ptr. wp_go. rewrite Hn. wp_go. apply HQ, inserted_intro; simpl; try done.
  - rewrite Hq, El. simpl. by lookup_norm.
  - intros q' ?. rewrite Hq, El. simpl. rewrite lookup_alter_ne by done. destruct (decide (q' = q)) as [->|?].
    + by lookup_norm.
    + by rewrite !lookup_alter_ne.
  - rewrite (sh_freehd _ _ _ _ _ Hs), El, app_nil_r. by destruct l1 as [|[]].
  - rewrite El. auto.
Qed.

Lemma wp_linkto_right (Q : unit → vmm → Prop) r : l1 = [] → hd_or NULL l2 = Some r →
  (∀ s', inserted s' → Q tt s') → wp (freevmr_linkto_right (Some p) (Some r)) Q s.
Proof using Hs Hp.
  intros El Hr HQ. destruct put_fresh as (Hf1 & Hf2 & Hf3).
  pose proof (sh_free _ _ _ _ _ Hs) as Hl. rewrite El in Hl. simpl in Hl.
  assert (∃ w, nodes s !! r = Some w ∧ n_prev w = NULL ∧ lst_or NULL l2 = lst_or (Some p) l2) as (w & Hw & Hn & Hlst).
  { destruct l2 as [|[r' e] l2']; [done|]. destruct Hl as [Hl _]. simplify_eq/=. eauto. }
  unfold freevmr_linkto_right, assert_ptr. wp_go. rewrite Hn. wp_go. apply HQ, inserted_intro; simpl; try done.
  - rewrite Hr, El. simpl. by lookup_norm.
  - intros q' ?. rewrite Hr, El. simpl. rewrite lookup_alter_ne by done. destruct (decide (q' = r)) as [->|?].
    + by lookup_norm.
    + by rewrite !lookup_alter_ne.
  - by rewrite El.
  - destruct (sh_freetl _ _ _ _ _ Hs) as [?|Ht]; [by left|right]. by rewrite Ht, El.
Qed.

Lemma wp_link_mid (Q : unit → vmm → Prop) q r : lst_or NULL l1 = Some q → hd_or NULL l2 = Some r →
  (∀ s', inserted s' → Q tt s') →
  wp (upd (Some p) (set_prev (Some q));; upd (Some p) (set_next (Some r));;
      upd (Some q) (set_next (Some p));; upd (Some r) (set_prev (Some p))) Q s.
Proof using Hs Hp.
  intros Hq Hr HQ. destruct put_fresh as (Hf1 & Hf2 & Hf3). specialize (Hf3 q Hq).
  pose proof (sh_free _ _ _ _ _ Hs) as [Hl1 Hl2]%linked_app.
  destruct (linked_lst_is_Some _ _ _ _ _ Hl1 Hq) as [w Hw].
  destruct (linked_hd_is_Some _ _ _ _ _ Hl2 Hr) as [x Hx].
  wp_go. apply HQ, inserted_intro; simpl; try done.
  - rewrite Hq, Hr. simpl. by lookup_norm.
  - intros q' ?. rewrite Hr, Hq. simpl. do 2 apply (lookup_alter_opt_congr _ (Some _)).
    by rewrite !lookup_alter_ne.
  - rewrite (sh_freehd _ _ _ _ _ Hs). by destruct l1 as [|[]].
  - destruct (sh_freetl _ _ _ _ _ Hs) as [?|Ht]; [by left|right].
    rewrite Ht, lst_or_app. by destruct l2 as [|[]].
Qed.
End put.

Lemma adj_left_snoc l1 q e d : adj_left (l1 ++ [(q, e)]) d ↔ adjacent e d.
Proof. unfold adj_left. by rewrite last_snoc. Qed.

(** What [freevmr_put] does, once the place is known. *)
Definition put_done (s : vmm) l1 l2 us fn out p d (s' : vmm) : Prop :=
  ∃ fr' freed, put_result p d l1 l2 fr' freed ∧ shape s' fr' us (fn ++ freed) out ∧
    frame s s' (p :: (l1 ++ l2).*1 ++ fn.*1).

Lemma inserted_done s l1 l2 us fn out p d s' :
  inserted s l1 l2 us fn out p d s' → ¬ adj_left l1 d → ¬ adj_right d l2 →
  put_done s l1 l2 us fn out p d s'.
Proof.
  intros [Hs' [F1 F2 F3]] ??. eexists _, []. split; [by apply put_none|]. rewrite app_nil_r. split; [done|].
  split; [done..|]. intros q. rewrite not_elem_of_cons, not_elem_of_app. intros (? & ? & ?). apply F3.
  by apply not_elem_of_cons.
Qed.

Lemma merge_left_done s l1 q e l2 us fn out p d s' : adjacent e d → ¬ adj_right d l2 →
  shape s' (l1 ++ (q, Region (vn_base e) (u32 (vn_size e + vn_size d))) :: l2) us (fn ++ [(p, d)]) out →
  frame s s' (p :: q :: fn.*1) → put_done s (l1 ++ [(q, e)]) l2 us fn out p d s'.
Proof.
  intros ??? F. eexists _, _. split; [by apply put_left|]. split; [done|].
  eapply frame_mono; [|done]. rewrite !fmap_app. csimpl. clear. set_solver.
Qed.
Lemma merge_right_done s l1 r f l2 us fn out p d s' : ¬ adj_left l1 d → adjacent d f →
  shape s' (l1 ++ (r, Region (u32 (vn_base f - vn_size d)) (u32 (vn_size f + vn_size d))) :: l2)
    us (fn ++ [(p, d)]) out →
  frame s s' (p :: r :: fn.*1) → put_done s l1 ((r, f) :: l2) us fn out p d s'.
Proof.
  intros ??? F. eexists _, _. split; [by apply put_right|]. split; [done|].
  eapply frame_mono; [|done]. rewrite !fmap_app. csimpl. clear. set_solver.
Qed.

Section place.
Context (Q : unit → vmm → Prop) (s : vmm) (us fn : list (loc * region)) (out : list loc) (p : loc) (d : region).
Hypothesis Hp : nodes s !! p = Some (Node d NULL NULL).
Hypothesis Hd : sane (p, d).

Lemma wp_place_left l1 q e : shape s (l1 ++ [(q, e)]) us fn (p :: out) →
  (∀ s', put_done s (l1 ++ [(q, e)]) [] us fn out p d s' → Q tt s') →
  wp (onleft ← can_merge_left (Some p) (Some q);
      if (onleft : bool) then merge_left (Some p) (Some q) else freevmr_linkto_left (Some p) (Some q)) Q s.
Proof using Hp Hd.
  intros Hs HQ. pose proof (sh_free _ _ _ _ _ Hs) as [_ [Hq _]]%linked_app. destruct Hd as [??].
  apply wp_bind. eapply wp_can_merge_left; [done..|]. case_bool_decide as Ha.
  - eapply wp_merge_left; [done..|]. intros. eapply HQ, merge_left_done; eauto.
  - eapply (wp_linkto_left _ (l1 ++ [(q, e)]) []); [by rewrite app_nil_r|done..|by rewrite lst_or_snoc|].
    intros. apply HQ, inserted_done; [done| |by intros []]. by rewrite adj_left_snoc.
Qed.
Lemma wp_place_right r f l2 : shape s ((r, f) :: l2) us fn (p :: out) →
  (∀ s', put_done s [] ((r, f) :: l2) us fn out p d s' → Q tt s') →
  wp (onright ← can_merge_right (Some p) (Some r);
      if (onright : bool) then merge_right (Some p) (Some r) else freevmr_linkto_right (Some p) (Some r)) Q s.
Proof using Hp Hd.
  intros Hs HQ. pose proof (sh_free _ _ _ _ _ Hs) as [Hr _]. destruct Hd as [??].
  apply wp_bind. eapply wp_can_merge_right; [done..|]. case_bool_decide as Ha.
  - eapply (wp_merge_right _ _ []); [done..|]. intros. eapply HQ, (merge_right_done _ []); eauto.
  - eapply (wp_linkto_right _ []); [done..|]. intros. apply HQ, inserted_done; [done|by intros []|done].
Qed.
Lemma wp_place_mid l1 q e r f l2 : shape s (l1 ++ (q, e) :: (r, f) :: l2) us fn (p :: out) → sane (r, f) →
  (∀ s', put_done s (l1 ++ [(q, e)]) ((r, f) :: l2) us fn out p d s' → Q tt s') →
  wp (both ← can_merge_both (Some q) (Some p) (Some r);
      if (both : bool) then concatenate (Some q) (Some p) (Some r) else
      onleft ← can_merge_left (Some p) (Some q);
      if (onleft : bool) then merge_left (Some p) (Some q) else
      onright ← can_merge_right (Some p) (Some r);
      if (onright : bool) then merge_right (Some p) (Some r) else
      upd (Some p) (set_prev (Some q));; upd (Some p) (set_next (Some r));;
      upd (Some q) (set_next (Some p));; upd (Some r) (set_prev (Some p))) Q s.
Proof using Hp Hd.
  intros Hs Hf HQ. pose proof (sh_free _ _ _ _ _ Hs) as [_ (Hq & Hr & _)]%linked_app. pose proof Hd as [??].
  apply wp_bind. eapply wp_can_merge_both; [done..|]. case_bool_decide as Hb; simpl in Hb.
  { destruct Hb. eapply wp_concatenate; [done..|]. intros s' ? F. apply HQ. eexists _, _. split; [by apply put_both|].
    split; [done|]. eapply frame_mono; [|done]. by rewrite <- (assoc_L (++)). }
  apply wp_bind. eapply wp_can_merge_left; [done..|]. case_bool_decide as Ha; simpl in Ha.
  { eapply wp_merge_left; [done..|]. intros. eapply HQ, merge_left_done; [done| |done..]. simpl. tauto. }
  apply wp_bind. eapply wp_can_merge_right; [done..|]. case_bool_decide as Hc; simpl in Hc.
  { eapply (wp_merge_right _ _ (l1 ++ [(q, e)]) r f l2); [by rewrite <- (assoc_L (++))|done..|].
    intros. eapply HQ, merge_right_done; [|done..]. by rewrite adj_left_snoc. }
  eapply (wp_link_mid _ (l1 ++ [(q, e)]) ((r, f) :: l2)); [by rewrite <- (assoc_L (++))|done|by rewrite lst_or_snoc|done|].
  intros. apply HQ, inserted_done; [done| |done]. by rewrite adj_left_snoc.
Qed.
End place.

(** [freevmr_put] returns, and the free list is as [put_result] says for the place
    the region's address gives it. *)
Lemma wp_freevmr_put (Q : unit → vmm → Prop) s fr us fn out p d a b :
  shape s fr us fn (p :: out) → nodes s !! p = Some (Node d a b) → sane (p, d) → Forall sane fr →
  (∀ l1 l2 s', fr = l1 ++ l2 → Forall (below (vn_base d)) l1 →
     (∀ x l', l2 = x :: l' → ¬ below (vn_base d) x) →
     put_done s l1 l2 us fn out p d s' → Q tt s') →
  wp (freevmr_put (Some p)) Q s.
Proof.
  intros Hs Hp Hd Hsane HQ. pose proof Hd as [Hz Hb]. unfold freevmr_put. apply wp_bind.
  eapply wp_assert_region; [done..|]. wp_go.
  set (s0 := {| s with nodes := alter (set_next NULL) p (alter (set_prev NULL) p (nodes s)) |}).
  assert (Hs0 : shape s0 fr us fn (p :: out)) by exact (shape_detach _ _ _ _ _ _ _ (shape_detach _ _ _ _ _ _ _ Hs)).
  assert (Hp0 : nodes s0 !! p = Some (Node d NULL NULL)) by (simpl; by lookup_norm).
  assert (HQ0 : ∀ l1 l2 s', fr = l1 ++ l2 → Forall (below (vn_base d)) l1 →
     (∀ x l', l2 = x :: l' → ¬ below (vn_base d) x) → put_done s0 l1 l2 us fn out p d s' → Q tt s').
  { intros l1 l2 s' E ?? (fr' & freed & ? & ? & [F1 F2 F3]). eapply HQ; [done..|]. exists fr', freed.
    split_and!; [done..|]. split; [done..|]. intros q Hq. rewrite F3 by done. simpl.
    apply not_elem_of_cons in Hq as [??]. by rewrite !lookup_alter_ne. }
  clearbody s0. rewrite (sh_freehd _ _ _ _ _ Hs). clear HQ Hs Hp. destruct (hd_or NULL fr) as [h|] eqn:Eh.
  - wp_go. rewrite <- Eh.
    edestruct (freevmr_scan_split (S (size (nodes s0))) (vn_base d) NULL fr s0) as (l1 & l2 & -> & Hl1 & Hl2 & Escan).
    { apply Nat.lt_succ_r. eapply linked_length; [|apply Hs0].
      by pose proof (shape_disjoint _ _ _ _ _ Hs0) as (_ & _ & _ & _ & ? & _). }
    { apply Hs0. }
    eapply wp_eq; [exact Escan|]. cbn. specialize (HQ0 l1 l2).
    destruct l1 as [|[q e] l1 _] using rev_ind; destruct l2 as [|[r f] l2]; rewrite ?lst_or_snoc; simpl in *.
    + done.
    + eapply wp_place_right; eauto.
    + rewrite app_nil_r in Hs0. eapply wp_place_left; eauto.
    + rewrite <- (assoc_L (++)) in Hs0, Hsane. eapply wp_place_mid; [done..|exact Hs0| |by eauto].
      by apply Forall_app in Hsane as [_ [_ [? _]%Forall_cons]%Forall_cons].
  - destruct fr as [|[]]; [|done]. wp_go. apply (HQ0 [] []); [done..|]. apply inserted_done; [|by intros []..].
    apply inserted_intro; simpl; auto.
Qed.
