(* ===== verification/VmmRegions.v ===== *)
(** * Tilings of the kernel heap

    [tiled l]: the regions [l], in any order, cut the kernel heap into non-empty
    page-aligned pieces.  Disjointness, covering, sizes and the number of regions
    follow; splitting a region and merging two adjacent ones keep a tiling. *)
From S2P Require Import Prelude Vmm.

Definition KHEAPEND : Z := KHEAPBASE + KHEAPSZ.
Definition rend (d : region) : Z := vn_base d + vn_size d.
Definition in_region (a : Z) (d : region) : Prop := vn_base d ≤ a < rend d.
(** The intervals share no address. *)
Definition apart (d e : region) : Prop := rend d ≤ vn_base e ∨ rend e ≤ vn_base d.
Definition total (l : list region) : Z := foldr (λ d n, vn_size d + n) 0 l.

Record region_ok (d : region) : Prop := {
  ro_size : 0 < vn_size d;
  ro_low : KHEAPBASE ≤ vn_base d;
  ro_high : rend d ≤ KHEAPEND;
  ro_base_aligned : (PAGESZ | vn_base d);
  ro_size_aligned : (PAGESZ | vn_size d);
}.

(** [l] tiles [[b, e)] from left to right. *)
Fixpoint tiles (b e : Z) (l : list region) : Prop :=
  match l with
  | [] => b = e
  | d :: l' => vn_base d = b ∧ 0 < vn_size d ∧ (PAGESZ | vn_size d) ∧ tiles (rend d) e l'
  end.
Definition tiled (l : list region) : Prop := ∃ l', l' ≡ₚ l ∧ tiles KHEAPBASE KHEAPEND l'.

#[global] Instance tiled_proper : Proper ((≡ₚ) ==> iff) tiled.
Proof.
  intros l1 l2 E. unfold tiled. split; intros (l & H & ?); exists l; (split; [|done]); by rewrite H, E.
Qed.
#[global] Instance total_proper : Proper ((≡ₚ) ==> eq) total.
Proof. intros l1 l2 E. induction E; simpl; lia. Qed.

Lemma total_app l1 l2 : total (l1 ++ l2) = total l1 + total l2.
Proof. induction l1; simpl; lia. Qed.

Lemma tiles_app b e l1 l2 : tiles b e (l1 ++ l2) ↔ ∃ m, tiles b m l1 ∧ tiles m e l2.
Proof.
  revert b. induction l1 as [|d l1 IH]; intros b; simpl; [naive_solver|]. rewrite IH. naive_solver.
Qed.
Lemma tiles_le b e l : tiles b e l → b ≤ e.
Proof.
  revert b. induction l as [|d l IH]; intros b; simpl; [lia|]. intros (<- & ? & _ & ?%IH). unfold rend in *. lia.
Qed.
Lemma tiles_elem b e l d : tiles b e l → d ∈ l →
  b ≤ vn_base d ∧ 0 < vn_size d ∧ rend d ≤ e ∧ (PAGESZ | vn_size d) ∧ ((PAGESZ | b) → (PAGESZ | vn_base d)).
Proof.
  revert b. induction l as [|d' l IH]; intros b; simpl; [set_solver|].
  intros (<- & ? & ? & Hl) [->|Hin]%elem_of_cons.
  - apply tiles_le in Hl. split_and!; (done || lia).
  - apply IH in Hl as (? & ? & ? & ? & Hb); [|done]. unfold rend in *. split_and!; try (done || lia).
    intros. apply Hb. by apply Z.divide_add_r.
Qed.
Lemma KHEAPBASE_aligned : (PAGESZ | KHEAPBASE).
Proof. by exists 0xC8000. Qed.

Lemma tiled_elem l d : tiled l → d ∈ l → region_ok d.
Proof.
  intros (l' & E & Hl) Hin. rewrite <- E in Hin.
  eapply tiles_elem in Hl as (? & ? & ? & ? & Hb); [|done]. split; auto using KHEAPBASE_aligned.
Qed.
(** The regions left and right of one of a tiling. *)
Lemma tiles_mid b e l1 d l2 : tiles b e (l1 ++ d :: l2) →
  (∀ x, x ∈ l1 → rend x ≤ vn_base d) ∧ (∀ x, x ∈ l2 → rend d ≤ vn_base x).
Proof.
  rewrite tiles_app. simpl. intros (m & H1 & <- & ? & Hd & H2).
  split; intros x Hx; [by eapply tiles_elem in H1 as (? & ? & ? & _)|by eapply tiles_elem in H2 as (? & _)].
Qed.
Lemma tiled_mid d l : tiled (d :: l) → ∃ l1 l2, l ≡ₚ l1 ++ l2 ∧ tiles KHEAPBASE KHEAPEND (l1 ++ d :: l2).
Proof.
  intros (l' & E & Hl). assert (d ∈ l') as (l1 & l2 & ->)%list_elem_of_split by (rewrite E; left).
  exists l1, l2. split; [|done]. apply (inj (cons d)). rewrite <- E. solve_Permutation.
Qed.
Lemma tiled_apart d e l : tiled (d :: e :: l) → apart d e.
Proof.
  intros (l1 & l2 & E & Hl)%tiled_mid. apply tiles_mid in Hl as [H1 H2]. unfold apart.
  assert (e ∈ l1 ++ l2) as [?|?]%elem_of_app by (rewrite <- E; left); auto.
Qed.
Lemma tiled_cover l a : tiled l → KHEAPBASE ≤ a < KHEAPEND → ∃ d, d ∈ l ∧ in_region a d.
Proof.
  intros (l' & E & Hl) Ha. setoid_rewrite <- E. clear E. revert Ha Hl. generalize KHEAPBASE KHEAPEND.
  induction l' as [|d l' IH]; simpl; [lia|]. intros b e Ha (<- & ? & _ & Hl).
  destruct (decide (a < rend d)).
  - exists d. split; [left|]. split; lia.
  - destruct (IH (rend d) e) as (x & ? & ?); [lia|done|]. exists x. split; [by right|done].
Qed.
Lemma tiles_total b e l : tiles b e l → total l = e - b.
Proof.
  revert b. induction l as [|d l IH]; intros b; simpl; [lia|]. intros (<- & _ & _ & Hl%IH). unfold rend in *. lia.
Qed.
Lemma tiled_total l : tiled l → total l = KHEAPSZ.
Proof. intros (l' & <- & Hl). rewrite (tiles_total _ _ _ Hl). unfold KHEAPEND. lia. Qed.
(** Each region is a page at least, so there are at most as many regions as nodes. *)
Lemma page_le z : 0 < z → (PAGESZ | z) → PAGESZ ≤ z.
Proof. intros. by apply Z.divide_pos_le. Qed.
Lemma total_length l : (∀ d, d ∈ l → region_ok d) → Z.of_nat (length l) * PAGESZ ≤ total l.
Proof.
  induction l as [|d l IH]; simpl; [done|]. intros Hl. specialize (IH (λ x Hx, Hl x (list_elem_of_further _ _ _ Hx))).
  destruct (Hl d) as [Hp _ _ _ Ha]; [left|]. pose proof (page_le _ Hp Ha). lia.
Qed.
Lemma total_aligned l : (∀ d, d ∈ l → region_ok d) → (PAGESZ | total l).
Proof.
  induction l as [|d l IH]; simpl; intros Hl; [by exists 0|].
  apply Z.divide_add_r; [by apply (Hl d); left|]. apply IH. intros x ?. apply Hl. by right.
Qed.
Lemma tiled_length l : tiled l → Z.of_nat (length l) ≤ KHEAP_MAX_NODES.
Proof.
  intros Hl. pose proof (tiled_total _ Hl) as Ht. pose proof (total_length l) as Hle.
  assert (Z.of_nat (length l) * PAGESZ ≤ total l) by eauto using tiled_elem.
  assert (KHEAP_MAX_NODES * PAGESZ = KHEAPSZ) by done. unfold PAGESZ in *. lia.
Qed.

Lemma tiled_split b z z1 l : tiled (Region b z :: l) → 0 < z1 < z → (PAGESZ | z1) →
  tiled (Region b z1 :: Region (b + z1) (z - z1) :: l).
Proof.
  intros (l1 & l2 & E & Hl)%tiled_mid ? Hz1. exists (l1 ++ Region b z1 :: Region (b + z1) (z - z1) :: l2).
  split; [rewrite E; solve_Permutation|]. apply tiles_app in Hl as (m & H1 & <- & H2 & H3 & H4).
  apply tiles_app. exists b. split; [done|]. unfold rend in *. simpl in *. split_and!; try (done || lia).
  - by apply Z.divide_sub_r.
  - unfold rend. simpl. by replace (b + z1 + (z - z1)) with (b + z) by lia.
Qed.
Lemma tiled_merge d e l : tiled (d :: e :: l) → rend d = vn_base e →
  tiled (Region (vn_base d) (vn_size d + vn_size e) :: l).
Proof.
  intros (l1 & l2 & E & Hl)%tiled_mid He. pose proof (tiles_mid _ _ _ _ _ Hl) as [H1 H2].
  apply tiles_app in Hl as (m & Hl1 & <- & ? & ? & Hl2).
  assert (∃ l2', l2 = e :: l2') as [l2' ->].
  { assert (e ∈ l1 ++ l2) as [Hin|Hin]%elem_of_app by (rewrite <- E; left).
    - exfalso. pose proof (H1 e Hin). eapply tiles_elem in Hl1 as (_ & ? & _); [|done]. unfold rend in *. lia.
    - destruct l2 as [|x l2']; [set_solver|]. exists l2'. f_equal. simpl in Hl2. destruct Hl2 as (? & ? & _ & Hl2).
      apply elem_of_cons in Hin as [->|Hin]; [done|].
      eapply tiles_elem in Hl2 as (? & _); [|done]. unfold rend in *. lia. }
  simpl in Hl2. destruct Hl2 as (? & ? & ? & Hl2).
  exists (l1 ++ Region (vn_base d) (vn_size d + vn_size e) :: l2'). split.
  - apply (inj (cons e)). etransitivity; [|apply Permutation_swap]. rewrite E. solve_Permutation.
  - apply tiles_app. exists (vn_base d). split; [done|]. simpl. split_and!; [done|lia|by apply Z.divide_add_r|].
    unfold rend in *. simpl. by replace (vn_base d + (vn_size d + vn_size e)) with (vn_base e + vn_size e) by lia.
Qed.
