(* ===== verification/VmmInv.v ===== *)
(** * The invariant of the kernel virtual memory manager

    [vmm_inv s fr us fn]: the free regions [fr] are ordered by address and no two of
    them touch, free and used regions together tile the kernel heap, and
    [used_virtual_mmsz] is the size of the used ones.  [vmm_alloc] and [vmm_free]
    keep it, and no assertion or panic of [vmm.c] is reached. *)
From S2P Require Import Prelude Dll Vmm VmmShape VmmPut VmmRegions.

(** The free list: address ordered, and no two regions touch. *)
Definition gap (x y : loc * region) : Prop := rend x.2 < vn_base y.2.
Abbreviation gapped := (StronglySorted gap).

Lemma gapped_mid l1 q d l2 : gapped (l1 ++ l2) →
  (∀ x, x ∈ l1 → gap x (q, d)) → (∀ y, y ∈ l2 → gap (q, d) y) → gapped (l1 ++ (q, d) :: l2).
Proof.
  rewrite !StronglySorted_app, StronglySorted_cons, Forall_forall. intros (Hc & H1 & H2) Hl Hr.
  split_and!; [|done..]. intros x y Hx [->|Hy]%elem_of_cons; auto.
Qed.
Lemma gapped_drop l1 x l2 : gapped (l1 ++ x :: l2) →
  gapped (l1 ++ l2) ∧ (∀ y, y ∈ l1 → gap y x) ∧ (∀ y, y ∈ l2 → gap x y).
Proof.
  rewrite !StronglySorted_app, StronglySorted_cons, Forall_forall. intros (Hc & H1 & Hx & H2).
  split_and!; try done; intros; apply Hc; set_solver.
Qed.

Lemma u32_heap z : 0 ≤ z ≤ KHEAPEND → u32 z = z.
Proof. intros. apply u32_small. assert (KHEAPEND < 2 ^ 32) by done. lia. Qed.
Lemma region_ok_pos d : region_ok d → 0 < vn_base d ∧ vn_base d < rend d ≤ KHEAPEND ∧ vn_size d < KHEAPEND.
Proof. intros [? ? ? _ _]. assert (0 < KHEAPBASE) by done. unfold rend in *. lia. Qed.
Lemma adjacent_ok d e : region_ok d → adjacent d e ↔ rend d = vn_base e.
Proof. intros ?%region_ok_pos. unfold adjacent. rewrite u32_heap; [done|]. unfold rend in *. lia. Qed.

(** [d] is a region that is about to go between [l1] and [l2] on the free list;
    [rest] are the used regions. *)
Record place (d : region) (l1 l2 : list (loc * region)) (rest : list region) : Prop := Place {
  pl_tiled : tiled (d :: (l1 ++ l2).*2 ++ rest);
  pl_gapped : gapped (l1 ++ l2);
  pl_left : ∀ x, x ∈ l1 → rend x.2 ≤ vn_base d;
  pl_right : ∀ y, y ∈ l2 → rend d ≤ vn_base y.2;
}.

Lemma tiled_free_ok d (fr : list (loc * region)) rest x : tiled (d :: fr.*2 ++ rest) → x ∈ fr → region_ok x.2 ∧ apart d x.2.
Proof.
  intros Ht Hx. split.
  - eapply tiled_elem; [exact Ht|]. right. apply elem_of_app. left. by apply list_elem_of_fmap_2.
  - apply list_elem_of_split in Hx as (k1 & k2 & ->). eapply (tiled_apart _ _ ((k1 ++ k2).*2 ++ rest)).
    rewrite !fmap_app in *. csimpl in *. eapply tiled_proper; [|exact Ht]. solve_Permutation.
Qed.
Lemma place_intro d l1 l2 rest : tiled (d :: (l1 ++ l2).*2 ++ rest) → gapped (l1 ++ l2) →
  Forall (below (vn_base d)) l1 → (∀ x l', l2 = x :: l' → ¬ below (vn_base d) x) → place d l1 l2 rest.
Proof.
  intros Ht Hg Hl1 Hl2. rewrite Forall_forall in Hl1.
  pose proof (region_ok_pos d (tiled_elem _ d Ht ltac:(left))).
  assert (Hok : ∀ x, x ∈ l1 ++ l2 → apart d x.2 ∧ 0 < vn_base x.2 < rend x.2).
  { intros x Hx. pose proof (tiled_free_ok _ _ _ _ Ht Hx) as [?%region_ok_pos ?]. split; [done|lia]. }
  split; [done..| |].
  - intros x Hx. pose proof (Hl1 x Hx) as Hb. unfold below in Hb.
    destruct (Hok x) as [[?|?] ?]; [set_solver|lia|done].
  - intros y Hy. destruct (Hok y) as [[?|?] ?]; [set_solver|done|]. exfalso.
    destruct l2 as [|h l2']; [set_solver|]. specialize (Hl2 h l2' eq_refl). unfold below in Hl2.
    apply elem_of_cons in Hy as [->|Hy]; [lia|].
    apply gapped_drop in Hg as (_ & _ & Hh). apply Hh in Hy. unfold gap in Hy.
    destruct (Hok h) as [_ ?]; [set_solver|]. lia.
Qed.

Section place.
Context d l1 l2 rest (Hpl : place d l1 l2 rest).

Lemma place_ok : region_ok d.
Proof using Hpl. eapply tiled_elem; [apply Hpl|]. left. Qed.
Lemma place_ok_l x : x ∈ l1 → region_ok x.2.
Proof using Hpl. intros. eapply tiled_free_ok; [apply Hpl|set_solver]. Qed.
Lemma place_ok_r x : x ∈ l2 → region_ok x.2.
Proof using Hpl. intros. eapply tiled_free_ok; [apply Hpl|set_solver]. Qed.

Lemma place_gap_left q x : ¬ adj_left l1 d → x ∈ l1 → gap x (q, d).
Proof using Hpl.
  intros Ha Hx. pose proof place_ok_l as Hok. destruct Hpl as [_ Hg Hl _]. unfold gap. simpl.
  destruct l1 as [|[r e] l1' _] using rev_ind; [set_solver|].
  pose proof (Hok (r, e) ltac:(set_solver)) as Hre. pose proof (region_ok_pos _ Hre).
  rewrite adj_left_snoc, adjacent_ok in Ha by done.
  pose proof (Hl (r, e) ltac:(set_solver)). simpl in *.
  apply elem_of_app in Hx as [Hx| ->%list_elem_of_singleton]; simpl; [|lia].
  rewrite <- (assoc_L (++)) in Hg. apply gapped_drop in Hg as (_ & Hgl & _). apply Hgl in Hx. unfold gap in Hx.
  simpl in *. lia.
Qed.
Lemma place_gap_right q y : ¬ adj_right d l2 → y ∈ l2 → gap (q, d) y.
Proof using Hpl.
  intros Ha Hy. pose proof place_ok as Hd. pose proof place_ok_r as Hok. destruct Hpl as [_ Hg _ Hr]. unfold gap. simpl.
  destruct l2 as [|[r f] l2']; [set_solver|]. simpl in Ha. rewrite adjacent_ok in Ha by done.
  pose proof (Hr (r, f) ltac:(set_solver)). simpl in *.
  apply elem_of_cons in Hy as [->|Hy]; simpl; [lia|].
  pose proof (region_ok_pos _ (Hok (r, f) ltac:(set_solver))).
  apply gapped_drop in Hg as (_ & _ & Hgr). apply Hgr in Hy. unfold gap in Hy. simpl in *. lia.
Qed.
End place.

Lemma tiled_free_perm l1 (q : loc) (e : region) l2 rest d :
  d :: (l1 ++ (q, e) :: l2).*2 ++ rest ≡ₚ e :: d :: (l1 ++ l2).*2 ++ rest.
Proof. rewrite !fmap_app. csimpl. solve_Permutation. Qed.
Lemma tiled_mid_perm l1 (q : loc) (e : region) l2 rest :
  (l1 ++ (q, e) :: l2).*2 ++ rest ≡ₚ e :: (l1 ++ l2).*2 ++ rest.
Proof. rewrite !fmap_app. csimpl. solve_Permutation. Qed.

Lemma put_left_ok d l1 q e l2 rest :
  place d (l1 ++ [(q, e)]) l2 rest → adjacent e d → ¬ adj_right d l2 →
  let e' := Region (vn_base e) (u32 (vn_size e + vn_size d)) in
  gapped (l1 ++ (q, e') :: l2) ∧ tiled ((l1 ++ (q, e') :: l2).*2 ++ rest).
Proof.
  intros Hpl Ha Hr. pose proof (place_ok _ _ _ _ Hpl) as Hd. pose proof (place_ok_l _ _ _ _ Hpl (q, e) ltac:(set_solver)) as He.
  simpl in He. rewrite adjacent_ok in Ha by done.
  pose proof (region_ok_pos _ Hd). pose proof (region_ok_pos _ He). rewrite u32_heap by (unfold rend in *; lia).
  pose proof (place_gap_right _ _ _ _ Hpl) as Hgr. destruct Hpl as [Ht Hg _ _].
  rewrite <- (assoc_L (++)) in Ht, Hg. simpl in *. rewrite tiled_free_perm in Ht. rewrite tiled_mid_perm.
  split; [|by apply tiled_merge]. apply gapped_drop in Hg as (Hg & Hgl & _). apply gapped_mid; [done..|].
  intros y Hy. apply (Hgr q) in Hy; [|done]. unfold gap, rend in *. simpl in *. lia.
Qed.
Lemma put_right_ok d l1 r f l2 rest :
  place d l1 ((r, f) :: l2) rest → ¬ adj_left l1 d → adjacent d f →
  let f' := Region (u32 (vn_base f - vn_size d)) (u32 (vn_size f + vn_size d)) in
  gapped (l1 ++ (r, f') :: l2) ∧ tiled ((l1 ++ (r, f') :: l2).*2 ++ rest).
Proof.
  intros Hpl Hl Ha. pose proof (place_ok _ _ _ _ Hpl) as Hd. pose proof (place_ok_r _ _ _ _ Hpl (r, f) ltac:(set_solver)) as Hf.
  simpl in Hf. rewrite adjacent_ok in Ha by done.
  pose proof (region_ok_pos _ Hd). pose proof (region_ok_pos _ Hf). rewrite !u32_heap by (unfold rend in *; lia).
  replace (vn_base f - vn_size d) with (vn_base d) by (unfold rend in *; lia).
  replace (vn_size f + vn_size d) with (vn_size d + vn_size f) by lia.
  pose proof (place_gap_left _ _ _ _ Hpl) as Hgl. destruct Hpl as [Ht Hg _ _].
  simpl. rewrite tiled_free_perm, (Permutation_swap d f) in Ht. rewrite tiled_mid_perm.
  split; [|by apply tiled_merge]. apply gapped_drop in Hg as (Hg & _ & Hgr). apply gapped_mid; [done| |].
  - intros x Hx. apply (Hgl r) in Hx; [|done]. unfold gap, rend in *. simpl in *. lia.
  - intros y Hy. apply Hgr in Hy. unfold gap, rend in *. simpl in *. lia.
Qed.
Lemma put_both_ok d l1 q e r f l2 rest :
  place d (l1 ++ [(q, e)]) ((r, f) :: l2) rest → adjacent e d → adjacent d f →
  let e' := Region (vn_base e) (u32 (vn_size e + u32 (vn_size d + vn_size f))) in
  gapped (l1 ++ (q, e') :: l2) ∧ tiled ((l1 ++ (q, e') :: l2).*2 ++ rest).
Proof.
  intros Hpl Ha Hb. pose proof (place_ok _ _ _ _ Hpl) as Hd. pose proof (place_ok_l _ _ _ _ Hpl (q, e) ltac:(set_solver)) as He.
  pose proof (place_ok_r _ _ _ _ Hpl (r, f) ltac:(set_solver)) as Hf.
  simpl in He, Hf. rewrite adjacent_ok in Ha, Hb by done.
  pose proof (region_ok_pos _ Hd). pose proof (region_ok_pos _ He). pose proof (region_ok_pos _ Hf).
  rewrite !u32_heap by (rewrite ?u32_heap; unfold rend in *; lia).
  destruct Hpl as [Ht Hg _ _]. rewrite <- (assoc_L (++)) in Ht, Hg. simpl in *.
  apply gapped_drop in Hg as (Hg & Hgl & _). apply gapped_drop in Hg as (Hg & _ & Hgr).
  split.
  - apply gapped_mid; [done..|]. intros y Hy. apply Hgr in Hy. unfold gap, rend in *. simpl in *. lia.
  - rewrite tiled_mid_perm. rewrite tiled_free_perm in Ht.
    assert (Ht2 : tiled (e :: Region (vn_base d) (vn_size d + vn_size f) :: (l1 ++ l2).*2 ++ rest)).
    { rewrite Permutation_swap. apply tiled_merge; [|done]. eapply tiled_proper; [|exact Ht].
      rewrite !fmap_app. csimpl. solve_Permutation. }
    by apply tiled_merge in Ht2.
Qed.
Lemma put_result_ok p d l1 l2 rest fr' freed :
  place d l1 l2 rest → put_result p d l1 l2 fr' freed → gapped fr' ∧ tiled (fr'.*2 ++ rest).
Proof.
  intros Hpl Hput. destruct Hput; [by eapply put_both_ok|by eapply put_left_ok|by eapply put_right_ok|]. split.
  - apply gapped_mid; [apply Hpl| |].
    + intros x Hx. by eapply place_gap_left.
    + intros y Hy. by eapply place_gap_right.
  - rewrite tiled_mid_perm. apply Hpl.
Qed.

(** ** The invariant of [vmm.c] *)

Record vmm_inv (s : vmm) (fr us fn : list (loc * region)) : Prop := VmmInv {
  vi_lock : vmm_spinlock s = false;
  vi_shape : shape s fr us fn [];
  vi_gapped : gapped fr;
  vi_tiled : tiled (fr.*2 ++ us.*2);
  vi_used : used_virtual_mmsz s = total us.*2;
}.

Lemma shape_globals s fr us fn out lk z :
  shape s fr us fn out → shape {| s with vmm_spinlock := lk; used_virtual_mmsz := z |} fr us fn out.
Proof. intros []. by split. Qed.
Lemma shape_out s fr us fn out out' : out ≡ₚ out' → shape s fr us fn out → shape s fr us fn out'.
Proof. intros E []. split; try done; by rewrite <- E. Qed.
Lemma shape_alter_out s h fr us fn p out f : p ∈ out →
  shape {| s with nodes := h |} fr us fn out → shape {| s with nodes := alter f p h |} fr us fn out.
Proof.
  intros (o1 & o2 & ->)%list_elem_of_split Hs. eapply (shape_out _ _ _ _ (p :: o1 ++ o2)); [solve_Permutation|].
  eapply (shape_detach {| s with nodes := h |}), shape_out; [|exact Hs]. solve_Permutation.
Qed.
Lemma shape_same s fr us fn out : shape s fr us fn out → shape {| s with nodes := nodes s |} fr us fn out.
Proof. by destruct s. Qed.
Lemma shape_length s fr us fn out : shape s fr us fn out →
  Z.of_nat (length fr + length us + length fn + length out) = KHEAP_MAX_NODES.
Proof.
  intros [_ _ _ _ _ _ _ _ _ E _]. apply Permutation_length in E. unfold node_locs in E.
  rewrite !length_app, !length_fmap, length_seq in E.
  rewrite <- (Z2Nat.id KHEAP_MAX_NODES) by done. f_equal. etransitivity; [|exact E]. lia.
Qed.
Lemma ok_sane p d : region_ok d → sane (p, d).
Proof. intros []. split; simpl; lia. Qed.
Lemma tiled_sane d (fr : list (loc * region)) rest : tiled (d :: fr.*2 ++ rest) → Forall sane fr.
Proof. intros Ht. apply Forall_forall. intros [q e] Hx. by eapply ok_sane, (tiled_free_ok _ _ _ (q, e)). Qed.

(** Taking [z] bytes off the front of a larger free region needs a spare node, and
    there is one: otherwise the heap would have more regions than pages. *)
Lemma spare_node s l1 p d l2 us fn z : shape s (l1 ++ l2) us fn [p] →
  tiled ((l1 ++ (p, d) :: l2).*2 ++ us.*2) → 0 < z < vn_size d → (PAGESZ | z) → fn ≠ [].
Proof.
  intros Hs Ht Hz Ha ->. apply shape_length in Hs. rewrite tiled_mid_perm in Ht. destruct d as [b sz].
  apply (tiled_split _ _ z), tiled_length in Ht; [|done..]. simpl in *. rewrite !length_app, !length_fmap, !length_app in *.
  simpl in *. lia.
Qed.

Lemma used_total fr us : tiled (fr ++ us) → 0 ≤ total fr ∧ 0 ≤ total us ∧ total fr + total us = KHEAPSZ.
Proof.
  intros Ht. rewrite <- (tiled_total _ Ht), total_app.
  assert (Hnn : ∀ l, (∀ x, x ∈ l → region_ok x) → 0 ≤ total l).
  { intros l Hl%total_length. unfold PAGESZ in *. lia. }
  split_and!; [apply Hnn..|done]; intros; eapply tiled_elem; set_solver.
Qed.

(** The second half of [vmm_alloc]: the region [d] at node [p] is cut. *)
Lemma wp_vmm_split (Q : ptr → vmm → Prop) s l1 p d l2 us fn z :
  shape s (l1 ++ l2) us fn [p] → nodes s !! p = Some (Node d NULL NULL) →
  gapped (l1 ++ l2) → tiled ((l1 ++ (p, d) :: l2).*2 ++ us.*2) → 0 < z < vn_size d → (PAGESZ | z) →
  (∀ q fr' fn' s', shape s' fr' us fn' [q] → nodes s' !! q = Some (Node (Region (vn_base d) z) NULL NULL) →
     gapped fr' → tiled (fr'.*2 ++ (us ++ [(q, Region (vn_base d) z)]).*2) →
     vmm_spinlock s' = vmm_spinlock s → used_virtual_mmsz s' = used_virtual_mmsz s → Q (Some q) s') →
  wp (n ← freenodes_get;
      assert_ptr n;;
      upd n (set_base (vn_base d));;
      upd n (set_size z);;
      upd (Some p) (set_base (u32 (vn_base d + z)));;
      upd (Some p) (set_size (u32 (vn_size d - z)));;
      freevmr_put (Some p);;
      mret n) Q s.
Proof.
  intros Hs Hp Hg Ht Hz Ha HQ. pose proof (spare_node _ _ _ _ _ _ _ _ Hs Ht Hz Ha) as Hfn.
  destruct fn as [|[q e] fn]; [done|]. clear Hfn. rewrite tiled_mid_perm in Ht.
  pose proof (region_ok_pos d (tiled_elem _ d Ht ltac:(left))).
  pose proof (shape_disjoint _ _ _ _ _ Hs) as (Hd1 & Hd2 & Hd3 & Hd4 & _ & _ & Hnd & _).
  assert (q ≠ p ∧ (q ∉ (l1 ++ l2).*1) ∧ q ∉ fn.*1) as (Hqp & Hqf & Hqn).
  { csimpl in *. apply NoDup_cons in Hnd as [? _]. destruct (Hd3 q) as (? & ? & ?); [left|]. set_solver. }
  apply wp_bind. eapply wp_freenodes_get; [done|]. intros s1 Hs1 Hq [E1 E2 E3]. unfold assert_ptr.
  rewrite <- (E3 p) in Hp by set_solver. wp_go. rewrite !u32_heap by (unfold rend in *; lia).
  set (h' := alter _ p _). set (s2 := {| s1 with nodes := h' |}).
  assert (Hs2 : shape s2 (l1 ++ l2) us fn [p; q]).
  { eapply (shape_out _ _ _ _ [q; p]); [solve_Permutation|].
    subst s2 h'. do 4 (apply shape_alter_out; [set_solver|]). by apply shape_same. }
  assert (Ht2 : tiled (Region (vn_base d + z) (vn_size d - z) :: (l1 ++ l2).*2 ++ (us ++ [(q, Region (vn_base d) z)]).*2)).
  { destruct d as [b sz]. eapply tiled_proper; [|by eapply tiled_split]. rewrite !fmap_app. csimpl. solve_Permutation. }
  eapply (wp_freevmr_put _ s2); [done|subst h'; simpl; by lookup_norm| |by eapply tiled_sane|].
  { by eapply ok_sane, tiled_elem; [|left]. }
  intros k1 k2 s3 Ek Hk1 Hk2 (fr' & freed & Hput & Hs3 & [F1 F2 F3]). rewrite Ek in *.
  eapply put_result_ok in Hput as [Hg' Ht']; [|by eapply place_intro].
  apply wp_ret. eapply HQ; [done| |done..| |]; [|by rewrite F1|by rewrite F2].
  rewrite F3; [subst s2 h'; simpl; by lookup_norm|].
  rewrite not_elem_of_cons, not_elem_of_app. done.
Qed.

(** Putting the node [q] of an allocated region on the used list ends [vmm_alloc]. *)
Lemma wp_vmm_use (Q : Z → vmm → Prop) s fr us fn q b z :
  shape s fr us fn [q] → nodes s !! q = Some (Node (Region b z) NULL NULL) →
  gapped fr → tiled (fr.*2 ++ (us ++ [(q, Region b z)]).*2) →
  vmm_spinlock s = true → used_virtual_mmsz s = total us.*2 →
  (∀ s', vmm_inv s' fr (us ++ [(q, Region b z)]) fn → Q b s') →
  wp (modify (λ s, {| s with used_virtual_mmsz := u32 (used_virtual_mmsz s + z) |});;
      v ← rd (Some q);
      usedvmr_put (Some q);;
      spin_unlock;;
      mret (base v)) Q s.
Proof.
  intros Hs Hq Hg Ht Hlk Hu HQ. wp_go.
  assert (region_ok (Region b z)) as [? ? _ _ _] by (eapply tiled_elem; [exact Ht|]; rewrite fmap_app; set_solver).
  pose proof (used_total _ _ Ht) as (? & ? & Htot). rewrite fmap_app, total_app in *. simpl in *.
  assert (KHEAPSZ < KHEAPEND) by done.
  eapply wp_usedvmr_put; [by eapply (shape_globals s)|done| | |]; [simpl; lia|done|].
  intros s' Hs' [F1 F2 F3]. simpl in *. rewrite Hlk in F1. wp_go.
  apply HQ. split; simpl; [done|by apply (shape_globals s')|done| |].
  - by rewrite fmap_app.
  - rewrite fmap_app, total_app, F2, Hu. simpl. rewrite u32_heap; lia.
Qed.

Lemma wp_vmm_alloc z (Q : Z → vmm → Prop) s fr us fn :
  vmm_inv s fr us fn → 0 < z → (PAGESZ | z) →
  ((∀ p d, (p, d) ∈ fr → vn_size d < z) → ∀ s', vmm_inv s' fr us fn → Q 0 s') →
  (∀ l1 p d l2 fr' q fn' s', fr = l1 ++ (p, d) :: l2 → z ≤ vn_size d →
     (∀ q e, (q, e) ∈ l1 → vn_size e < z) →
     vmm_inv s' fr' (us ++ [(q, Region (vn_base d) z)]) fn' → Q (vn_base d) s') →
  wp (vmm_alloc z) Q s.
Proof.
  intros [Hlk Hs Hg Ht Hu] Hz Ha HQ1 HQ2. unfold vmm_alloc. wp_go.
  eapply wp_freevmr_get; [by eapply (shape_globals s)|lia|by apply page_aligned| |].
  { intros Hsm. wp_go. apply HQ1; [done|]. split; simpl; try done. by apply (shape_globals s). }
  intros l1 p d l2 s1 -> Hzd Hl1 Hs1 Hp [E1 E2 E3]. simpl in *. wp_go.
  apply gapped_drop in Hg as (Hg & _).
  case_bool_decide as Hlt.
  - eapply wp_vmm_split; [done..| |done|]; [lia|]. intros q fr' fn' s' Hs' Hq Hg' Ht' F1 F2.
    eapply wp_vmm_use; [done..| | |]; [congruence|congruence|]. intros. by eapply HQ2.
  - rewrite bool_decide_false by lia. assert (vn_size d = z) as <- by lia. destruct d as [b z]. apply wp_ret.
    eapply (wp_vmm_use _ s1 (l1 ++ l2)); [done..| | | |]; [|congruence|congruence|by intros; eapply (HQ2 l1 p (Region b z))].
    rewrite tiled_mid_perm in Ht. eapply tiled_proper; [|exact Ht]. rewrite !fmap_app. csimpl. solve_Permutation.
Qed.

Lemma wp_vmm_free b (Q : unit → vmm → Prop) s fr us fn :
  vmm_inv s fr us fn → (∃ p d, (p, d) ∈ us ∧ vn_base d = b) →
  (∀ l1 p d l2 fr' fn' s', us = l1 ++ (p, d) :: l2 → vn_base d = b →
     vmm_inv s' fr' (l1 ++ l2) fn' → Q tt s') →
  wp (vmm_free b) Q s.
Proof.
  intros [Hlk Hs Hg Ht Hu] (p & d & Hin & Hb) HQ. unfold vmm_free.
  assert (Hok : ∀ x, x ∈ us → region_ok x.2).
  { intros x Hx. eapply tiled_elem; [exact Ht|]. apply elem_of_app. right. by apply list_elem_of_fmap_2. }
  pose proof (region_ok_pos _ (Hok _ Hin)). simpl in *. wp_go. { apply bool_decide_eq_true. lia. }
  eapply wp_usedvmr_lookup; [by eapply (shape_globals s)|lia| |].
  { intros Hno. exfalso. by apply (Hno p d). }
  clear p d Hin Hb H. intros l1 p d l2 s1 -> Hb Hs1 Hp [E1 E2 E3]. simpl in *. wp_go.
  assert (Ht' : tiled (d :: fr.*2 ++ (l1 ++ l2).*2)).
  { eapply tiled_proper; [|exact Ht]. rewrite !fmap_app. csimpl. solve_Permutation. }
  eapply wp_freevmr_put; [by eapply (shape_globals s1)|done|by apply ok_sane, (Hok (p, d)); set_solver|by eapply tiled_sane|].
  intros k1 k2 s2 -> Hk1 Hk2 (fr' & freed & Hput & Hs2 & [F1 F2 F3]). simpl in *. rewrite E1 in F1.
  eapply put_result_ok in Hput as [Hg' Ht2]; [|by eapply place_intro]. wp_go.
  eapply HQ; [done..|]. split; simpl; [done|by apply (shape_globals s2)|done..|].
  rewrite F2, E2, Hu. pose proof (used_total _ _ Ht) as (? & ? & ?). pose proof (used_total _ _ Ht2) as (? & ? & ?).
  pose proof (region_ok_pos _ (Hok (p, d) ltac:(set_solver))). simpl in *.
  assert (KHEAPSZ < KHEAPEND) by done. rewrite !fmap_app in *. csimpl in *. rewrite !total_app in *. simpl in *.
  rewrite u32_heap; lia.
Qed.
