(* ===== verification/VmmSpec.v ===== *)
(** * What the kernel virtual memory manager promises

    The abstract allocator is the map [A] from the base of every allocated region
    to its size.  [vmm_rep s A]: the state [s] of [vmm.c] represents [A].  [vmm_init]
    establishes it for the empty map; [vmm_alloc] returns the lowest address with
    enough free bytes, and fails only when there is none; [vmm_free] gives a region
    back.  [vmm_refines] puts this together for every sequence of calls. *)
From S2P Require Import Prelude Dll Vmm VmmShape VmmPut VmmRegions VmmInv.

(** ** The abstract allocator *)

Abbreviation allocs := (gmap Z Z).

(** The [z] bytes at [b] are in the heap and not allocated. *)
Record free_at (A : allocs) (b z : Z) : Prop := FreeAt {
  fa_low : KHEAPBASE ≤ b;
  fa_high : b + z ≤ KHEAPEND;
  fa_apart : ∀ b' z', A !! b' = Some z' → apart (Region b z) (Region b' z');
}.
Definition lowest (A : allocs) (z b : Z) : Prop := free_at A b z ∧ ∀ b', free_at A b' z → b ≤ b'.
Definition no_room (A : allocs) (z : Z) : Prop := ∀ b, ¬ free_at A b z.

(** The bytes allocated. *)
Definition allocated (A : allocs) : Z := map_fold (λ _ z n, z + n) 0 A.

Inductive vm_op : Type := Alloc (z : Z) | Free (b : Z).
Inductive spec_step (A : allocs) : vm_op → Z → allocs → Prop :=
| spec_alloc z b : lowest A z b → spec_step A (Alloc z) b (<[b := z]> A)
| spec_full z : no_room A z → spec_step A (Alloc z) 0 A
| spec_free b z : A !! b = Some z → spec_step A (Free b) 0 (delete b A).

(** ** The representation *)

Definition alloc_of (x : loc * region) : Z * Z := (vn_base x.2, vn_size x.2).
Definition amap (us : list (loc * region)) : allocs := list_to_map (alloc_of <$> us).
Definition vmm_rep (s : vmm) (A : allocs) : Prop := ∃ fr us fn, vmm_inv s fr us fn ∧ A = amap us.

Lemma tiles_bases b e l : tiles b e l → NoDup (vn_base <$> l).
Proof.
  revert b. induction l as [|d l IH]; intros b; csimpl; [constructor|]. intros (<- & Hz & _ & Hl).
  constructor; [|by eauto]. intros (x & Hx & Hin)%list_elem_of_fmap.
  eapply tiles_elem in Hl as (? & _); [|done]. unfold rend in *. lia.
Qed.
Lemma tiled_bases l : tiled l → NoDup (vn_base <$> l).
Proof. intros (l' & <- & Hl). by eapply tiles_bases. Qed.
Lemma used_bases s fr us fn : vmm_inv s fr us fn → NoDup (alloc_of <$> us).*1.
Proof.
  intros [_ _ _ Ht%tiled_bases _]. rewrite fmap_app in Ht. apply NoDup_app in Ht as (_ & _ & Ht).
  rewrite <- list_fmap_compose. rewrite <- list_fmap_compose in Ht. exact Ht.
Qed.
Lemma amap_lookup s fr us fn b z : vmm_inv s fr us fn → amap us !! b = Some z ↔ ∃ p, (p, Region b z) ∈ us.
Proof.
  intros Hi. unfold amap. rewrite <- elem_of_list_to_map by by eapply used_bases.
  rewrite list_elem_of_fmap. split.
  - intros ([p [b' z']] & [= -> ->] & ?). eauto.
  - intros [p ?]. by exists (p, Region b z).
Qed.

Lemma gapped_cases l x y : gapped l → x ∈ l → y ∈ l → x = y ∨ gap x y ∨ gap y x.
Proof.
  intros Hg (l1 & l2 & ->)%list_elem_of_split. apply gapped_drop in Hg as (_ & H1 & H2).
  rewrite elem_of_app, elem_of_cons. intros [?|[?|?]]; eauto.
Qed.
Lemma inv_ok s fr us fn x : vmm_inv s fr us fn → x ∈ fr ++ us → region_ok x.2.
Proof.
  intros Hi Hx. eapply tiled_elem; [apply (vi_tiled _ _ _ _ Hi)|]. rewrite <- fmap_app. by apply list_elem_of_fmap_2.
Qed.
Lemma inv_apart s fr us fn x y : vmm_inv s fr us fn → x ∈ fr → y ∈ us → apart x.2 y.2.
Proof.
  intros [_ _ _ Ht _] (l1 & l2 & ->)%list_elem_of_split (k1 & k2 & ->)%list_elem_of_split.
  eapply (tiled_apart _ _ ((l1 ++ l2).*2 ++ (k1 ++ k2).*2)), tiled_proper; [|exact Ht].
  rewrite !fmap_app. csimpl. solve_Permutation.
Qed.

(** A free interval lies in one region of the free list: free regions do not touch. *)
Lemma free_at_iff s fr us fn b z : vmm_inv s fr us fn → 0 < z →
  free_at (amap us) b z ↔ ∃ p d, (p, d) ∈ fr ∧ vn_base d ≤ b ∧ b + z ≤ rend d.
Proof.
  intros Hi Hz. split.
  - intros [Hlo Hhi Hap].
    assert (Hc : ∀ a, b ≤ a < b + z → ∃ x, x ∈ fr ∧ in_region a x.2).
    { intros a Ha. destruct (tiled_cover _ a (vi_tiled _ _ _ _ Hi)) as (d & [Hd|Hd]%elem_of_app & Hin); [lia|..].
      - apply list_elem_of_fmap in Hd as (x & -> & ?). eauto.
      - exfalso. apply list_elem_of_fmap in Hd as ([p [b' z']] & -> & Hx).
        assert (Hl : amap us !! b' = Some z') by (eapply amap_lookup; eauto).
        apply Hap in Hl. unfold apart, in_region, rend in *. simpl in *. lia. }
    destruct (Hc b) as ([p d] & Hx & Hin); [lia|]. exists p, d. unfold in_region in Hin. simpl in Hin.
    split_and!; [done|lia|]. apply Z.nlt_ge. intros Hlt.
    destruct (Hc (rend d)) as ([q e] & Hy & Hin'); [lia|]. unfold in_region in Hin'. simpl in Hin'.
    pose proof (gapped_cases _ _ _ (vi_gapped _ _ _ _ Hi) Hx Hy) as [[= -> ->]|[Hgap|Hgap]]; unfold gap in *; simpl in *; lia.
  - intros (p & d & Hin & ? & ?).
    pose proof (inv_ok _ _ _ _ (p, d) Hi ltac:(set_solver)) as [? ? ? _ _]. simpl in *. split; [lia..|].
    intros b' z' [q Hq]%(amap_lookup _ _ _ _ _ _ Hi).
    pose proof (inv_apart _ _ _ _ _ _ Hi Hin Hq). unfold apart, rend in *. simpl in *. lia.
Qed.

Lemma amap_alloc s fr us fn q b z : vmm_inv s fr (us ++ [(q, Region b z)]) fn →
  amap (us ++ [(q, Region b z)]) = <[b := z]> (amap us).
Proof.
  intros Hi%used_bases. unfold amap. rewrite fmap_app in *. csimpl in *. unfold alloc_of at 2. simpl.
  apply list_to_map_snoc. rewrite fmap_app in Hi. apply NoDup_app in Hi as (_ & Hni & _). set_solver.
Qed.
Lemma amap_free s fr l1 p d l2 fn : vmm_inv s fr (l1 ++ (p, d) :: l2) fn →
  amap (l1 ++ l2) = delete (vn_base d) (amap (l1 ++ (p, d) :: l2)).
Proof.
  intros Hi%used_bases. unfold amap in *. rewrite !fmap_app in *. csimpl in *.
  rewrite (list_to_map_proper (_ ++ _ :: _) (alloc_of (p, d) :: (alloc_of <$> l1) ++ (alloc_of <$> l2))).
  - simpl. rewrite delete_insert_id; [done|]. apply not_elem_of_list_to_map_1. rewrite fmap_app.
    apply NoDup_app in Hi as (_ & Hni & [? _]%NoDup_cons). apply not_elem_of_app. split; [|done].
    intros Hin. apply (Hni _ Hin). left.
  - by rewrite fmap_app.
  - solve_Permutation.
Qed.
Lemma amap_total us : NoDup (alloc_of <$> us).*1 → allocated (amap us) = total us.*2.
Proof.
  unfold allocated, amap. induction us as [|x us IH]; csimpl; [done|]. intros [Hni Hnd]%NoDup_cons.
  rewrite map_fold_insert_L; [by rewrite IH|lia|]. by apply not_elem_of_list_to_map_1.
Qed.

(** ** Each call against the abstract allocator *)

Lemma rep_alloc s A z : vmm_rep s A → 0 < z → (PAGESZ | z) →
  wp (vmm_alloc z) (λ b s', (lowest A z b ∧ (PAGESZ | b) ∧ vmm_rep s' (<[b := z]> A)) ∨
                            (b = 0 ∧ no_room A z ∧ vmm_rep s' A)) s.
Proof.
  intros (fr & us & fn & Hi & ->) Hz Ha. eapply wp_vmm_alloc; [done..| |].
  - intros Hsm s' Hi'. right. split_and!; [done| |by eexists _, _, _].
    intros b (p & d & Hin & ? & ?)%(free_at_iff _ _ _ _ _ _ Hi Hz). apply Hsm in Hin. unfold rend in *. lia.
  - intros l1 p d l2 fr' q fn' s' -> Hzd Hl1 Hi'. left.
    pose proof (inv_ok _ _ _ _ (p, d) Hi ltac:(set_solver)) as [? ? ? ? _]. simpl in *.
    split_and!; [split|done|].
    + apply (free_at_iff _ _ _ _ _ _ Hi Hz). exists p, d. split_and!; [set_solver|done|]. unfold rend. lia.
    + intros b' (p' & d' & Hin & ? & ?)%(free_at_iff _ _ _ _ _ _ Hi Hz).
      apply elem_of_app in Hin as [Hin|[[= -> ->]|Hin]%elem_of_cons]; [|done|].
      * apply Hl1 in Hin. unfold rend in *. lia.
      * pose proof (gapped_drop _ _ _ (vi_gapped _ _ _ _ Hi)) as (_ & _ & Hg). apply Hg in Hin.
        unfold gap, rend in *. simpl in *. lia.
    + eexists _, _, _. split; [done|]. symmetry. by eapply amap_alloc.
Qed.
Lemma rep_free s A b z : vmm_rep s A → A !! b = Some z →
  wp (vmm_free b) (λ _ s', vmm_rep s' (delete b A)) s.
Proof.
  intros (fr & us & fn & Hi & ->) [p Hp]%(amap_lookup _ _ _ _ _ _ Hi).
  eapply wp_vmm_free; [done|by eexists p, _|]. intros l1 q d l2 fr' fn' s' -> <- Hi'.
  eexists _, _, _. split; [done|]. symmetry. by eapply amap_free.
Qed.

(** The calls that [vmm.c] stops: its assertions and [panic()]. *)
Lemma rep_alloc_bad s A z : vmm_rep s A → z = 0 ∨ ¬ (PAGESZ | z) → vmm_alloc z s = Panic.
Proof.
  intros (fr & us & fn & [Hlk _ _ _ _] & _) Hz. rewrite <- page_aligned in Hz.
  unfold vmm_alloc, spin_lock, freevmr_get, mbind, M_bind, gets, modify. simpl. rewrite Hlk. unfold kassert.
  destruct (decide (z = 0)) as [->|Hnz]; [by rewrite bool_decide_false by tauto|].
  rewrite bool_decide_true by done. simpl. rewrite bool_decide_false by tauto. done.
Qed.
Lemma rep_free_bad s A b : vmm_rep s A → A !! b = None → vmm_free b s = Panic.
Proof.
  intros (fr & us & fn & Hi & ->) Hb. pose proof Hi as [Hlk Hs _ _ _].
  unfold vmm_free, spin_lock, mbind, M_bind, gets, modify, kassert.
  destruct (decide (b = 0)) as [->|Hnz]; [done|]. rewrite bool_decide_true by done. simpl. rewrite Hlk.
  assert (wp (usedvmr_lookup b) (λ p _, p = NULL) {| s with vmm_spinlock := true |}) as (p & s' & -> & ->)%wp_exec; [|done].
  eapply wp_usedvmr_lookup; [by eapply (shape_globals s)|done|done|].
  intros l1 p d l2 s' -> <- _ _ _. exfalso. destruct d as [b z].
  assert (amap (l1 ++ (p, Region b z) :: l2) !! b = Some z) by (eapply amap_lookup; [done|]; exists p; set_solver).
  by simplify_eq/=.
Qed.

(** ** [vmm_init] *)

(** The module's static variables when the kernel starts. *)
Definition vmm_boot : vmm := Vmm false 0 NULL NULL NULL NULL NULL NULL ∅.

Definition init_list (k m : nat) : list (loc * region) := (λ i, (node_at i, Region 0 0)) <$> seq k m.
Lemma init_nodes_lookup n i : (i < n)%nat → init_nodes n !! node_at i = Some (init_node n i).
Proof.
  intros Hi. unfold init_nodes. apply elem_of_list_to_map.
  - rewrite <- list_fmap_compose. apply NoDup_fmap_2; [apply node_at_inj|apply NoDup_seq].
  - apply list_elem_of_fmap. exists i. split; [done|]. apply elem_of_seq. lia.
Qed.
Lemma init_schain n k m : (k + m = n)%nat → schain (init_nodes n) (init_list k m) NULL.
Proof.
  revert k. induction m as [|m IH]; intros k Hn; csimpl; [done|]. split; [|apply IH; lia].
  eexists. rewrite init_nodes_lookup by lia. unfold init_node. do 2 f_equal.
  destruct m as [|m]; simpl; [by rewrite bool_decide_false by lia|by rewrite bool_decide_true by lia].
Qed.

Lemma init_shape n : n = Z.to_nat KHEAP_MAX_NODES →
  shape {| vmm_boot with nodes := init_nodes n; freenodes_head := Some (node_at 0);
                         freenodes_tail := Some (node_at (n - 1)) |} [] [] (init_list 0 n) [].
Proof.
  intros Hn. assert (∃ k, n = S k) as [k Hk].
  { destruct n; [|eauto]. by apply (f_equal Z.of_nat) in Hn; rewrite Z2Nat.id in Hn. }
  split; simpl; try done; [by left|by apply init_schain|by rewrite Hk| |].
  - rewrite Hk. unfold init_list. rewrite seq_S, fmap_app. csimpl. rewrite lst_or_snoc. do 2 f_equal. lia.
  - unfold node_locs. rewrite app_nil_r, Hn. unfold init_list. by rewrite <- list_fmap_compose.
Qed.
Lemma init_tiled : tiled [Region KHEAPBASE KHEAPSZ].
Proof.
  exists [Region KHEAPBASE KHEAPSZ]. split; [done|]. simpl. split_and!; [done..| |done]. by exists KHEAP_MAX_NODES.
Qed.
Lemma wp_vmm_init : wp vmm_init (λ r s, r = 0 ∧ vmm_rep s ∅) vmm_boot.
Proof.
  unfold vmm_init. cbv zeta. pose proof (init_shape _ eq_refl) as Hs. remember (Z.to_nat KHEAP_MAX_NODES) as n eqn:Hn.
  apply wp_bind, wp_modify. cbn beta. change (init_list 0 n) with (id (init_list 0 n)) in Hs.
  destruct (id (init_list 0 n)) as [|[p d] fn] eqn:Ef.
  { destruct n; [|done]. by apply (f_equal Z.of_nat) in Hn; rewrite Z2Nat.id in Hn. }
  apply wp_bind. eapply wp_freenodes_get; [exact Hs|]. intros s1 Hs1 Hp [E1 E2 _]. wp_go.
  pose proof init_tiled as Ht. eapply wp_freevmr_put; [eapply shape_detach; exact Hs1|by simpl; lookup_norm|..].
  { by apply ok_sane, (tiled_elem _ _ Ht); left. }
  { constructor. }
  intros l1 l2 s' E Hl1 Hl2 (fr' & freed & Hput & Hs' & [F1 F2 _]). simpl in *.
  eapply (put_result_ok _ _ _ _ []) in Hput as [Hg Ht']; [|eapply place_intro; try done; rewrite <- E; [done|constructor]].
  wp_go. split; [done|]. eexists fr', [], _. split; [|done]. split; simpl; (done || congruence).
Qed.

Lemma vmm_init_rep : ∃ s, vmm_init vmm_boot = Ok (0, s) ∧ vmm_rep s ∅.
Proof.
  destruct (proj1 (wp_exec vmm_init _ vmm_boot) wp_vmm_init) as (r & s & Hi & Hr & ?). subst r. exists s. split; [exact Hi|assumption].
Qed.
#[global] Opaque vmm_init.

(** ** Sequences of calls *)

Definition vmm_do (o : vm_op) : M vmm Z :=
  match o with Alloc z => vmm_alloc z | Free b => vmm_free b;; mret 0 end.
Fixpoint vmm_do_all (ops : list vm_op) : M vmm (list Z) :=
  match ops with
  | [] => mret []
  | o :: ops' => r ← vmm_do o; rs ← vmm_do_all ops'; mret (r :: rs)
  end.
#[global] Arguments vmm_do o : simpl never.

(** [size_t] and [uint32_t] arguments. *)
Definition op_typed (o : vm_op) : Prop := match o with Alloc z => 0 ≤ z | Free b => 0 ≤ b end.
(** A call its caller may make: a non-zero number of whole pages, an allocated base. *)
Definition legal (A : allocs) (o : vm_op) : Prop :=
  match o with Alloc z => z ≠ 0 ∧ (PAGESZ | z) | Free b => is_Some (A !! b) end.
#[global] Instance legal_dec A o : Decision (legal A o).
Proof. destruct o; simpl; [apply _|apply _]. Defined.

Inductive spec_steps (A : allocs) : list vm_op → list Z → allocs → Prop :=
| steps_nil : spec_steps A [] [] A
| steps_cons o r A' ops rs A'' : legal A o → spec_step A o r A' → spec_steps A' ops rs A'' →
    spec_steps A (o :: ops) (r :: rs) A''.

Lemma rep_ok s A b z : vmm_rep s A → A !! b = Some z → region_ok (Region b z).
Proof.
  intros (fr & us & fn & Hi & ->) [p Hp]%(amap_lookup _ _ _ _ _ _ Hi).
  apply (inv_ok _ _ _ _ (p, Region b z) Hi). set_solver.
Qed.
Lemma vmm_do_legal s A o : vmm_rep s A → op_typed o → legal A o →
  wp (vmm_do o) (λ r s', ∃ A', spec_step A o r A' ∧ vmm_rep s' A') s.
Proof.
  intros Hr Ho Hl. destruct o as [z|b]; simpl in *; unfold vmm_do.
  - eapply wp_mono; [apply rep_alloc; [done|lia|apply Hl]|].
    intros b s' [(? & ? & ?)|(-> & ? & ?)]; eexists; (split; [|done]); by constructor.
  - destruct Hl as [z Hz]. apply wp_bind. eapply wp_mono; [by eapply rep_free|]. intros [] s' ?.
    apply wp_ret. eexists. split; [by econstructor|done].
Qed.
Lemma vmm_do_illegal s A o : vmm_rep s A → ¬ legal A o → vmm_do o s = Panic.
Proof.
  intros Hr Hl. destruct o as [z|b]; simpl in *; unfold vmm_do.
  - eapply rep_alloc_bad; [done|]. destruct (decide (z = 0)); tauto.
  - unfold mbind, M_bind. rewrite (rep_free_bad _ A); [done..|]. by apply eq_None_not_Some.
Qed.

Lemma vmm_do_all_spec ops s A : vmm_rep s A → Forall op_typed ops →
  match vmm_do_all ops s with
  | Ok (rs, s') => ∃ A', spec_steps A ops rs A' ∧ vmm_rep s' A'
  | Panic => ∃ ops1 o ops2 rs A', ops = ops1 ++ o :: ops2 ∧ spec_steps A ops1 rs A' ∧ ¬ legal A' o
  | Fault | NoFuel => False
  end.
Proof.
  revert s A. induction ops as [|o ops IH]; intros s A Hr Hty; simpl.
  { exists A. split; [constructor|done]. }
  apply Forall_cons in Hty as [Ho Hty]. unfold mbind, M_bind.
  destruct (decide (legal A o)) as [Hl|Hl].
  - pose proof (vmm_do_legal _ _ _ Hr Ho Hl) as (r & s' & -> & A' & Hstep & Hr')%wp_exec.
    specialize (IH _ _ Hr' Hty). destruct (vmm_do_all ops s') as [[rs s'']| | |]; simpl; try done.
    + destruct IH as (A'' & ? & ?). exists A''. split; [by econstructor|done].
    + destruct IH as (ops1 & o' & ops2 & rs & A'' & -> & ? & ?). exists (o :: ops1), o', ops2, (r :: rs), A''.
      split_and!; [done|by econstructor|done].
  - rewrite (vmm_do_illegal _ A) by done. exists [], o, ops, [], A. split_and!; [done|constructor|done].
Qed.

(** ** The contract *)

(** [vmm_alloc] of a non-zero number of whole pages returns.  It returns the lowest
    address at which that many bytes of the heap are free, page aligned, and from then
    on they are allocated; or it returns 0 and allocates nothing, and then no place in
    the heap has that many free bytes. *)
Theorem vmm_alloc_correct s A z : vmm_rep s A → 0 < z → (PAGESZ | z) →
  ∃ b s', vmm_alloc z s = Ok (b, s') ∧
    ((lowest A z b ∧ (PAGESZ | b) ∧ vmm_rep s' (<[b := z]> A)) ∨ (b = 0 ∧ no_room A z ∧ vmm_rep s' A)).
Proof. intros. by apply wp_exec, rep_alloc. Qed.

(** [vmm_free] of the base of an allocated region returns, and exactly that region
    is free again.  Of any other address it panics. *)
Theorem vmm_free_correct s A b : vmm_rep s A →
  match A !! b with
  | Some z => ∃ s', vmm_free b s = Ok (tt, s') ∧ vmm_rep s' (delete b A)
  | None => vmm_free b s = Panic
  end.
Proof.
  intros Hr. destruct (A !! b) as [z|] eqn:Hz; [|by eapply rep_free_bad].
  eapply rep_free in Hz as ([] & s' & ? & ?)%wp_exec; eauto.
Qed.

(** C2: after [vmm_init], every sequence of [vmm_alloc] and [vmm_free] calls gives
    exactly the results of the abstract allocator, up to the first call that breaks the
    rules (a size that is zero or not whole pages, a base that is not allocated): that
    one panics.  No call faults on a pointer or runs forever. *)
Theorem vmm_refines ops : Forall op_typed ops →
  ∃ s, vmm_init vmm_boot = Ok (0, s) ∧
    match vmm_do_all ops s with
    | Ok (rs, s') => ∃ A, spec_steps ∅ ops rs A ∧ vmm_rep s' A
    | Panic => ∃ ops1 o ops2 rs A, ops = ops1 ++ o :: ops2 ∧ spec_steps ∅ ops1 rs A ∧ ¬ legal A o
    | Fault | NoFuel => False
    end.
Proof.
  intros Hty. destruct vmm_init_rep as (s & Hi & Hr). exists s. split; [exact Hi|].
  clear Hi. by apply vmm_do_all_spec.
Qed.

(** The allocated regions of a represented state are page-aligned, inside the heap,
    and no two of them overlap. *)
Theorem vmm_rep_disjoint s A : vmm_rep s A →
  (∀ b z, A !! b = Some z → region_ok (Region b z)) ∧
  (∀ b1 z1 b2 z2, A !! b1 = Some z1 → A !! b2 = Some z2 → b1 ≠ b2 → apart (Region b1 z1) (Region b2 z2)).
Proof.
  intros (fr & us & fn & Hi & ->). split.
  - intros b z. eapply rep_ok. by eexists _, _, _.
  - intros b1 z1 b2 z2 [p1 H1]%(amap_lookup _ _ _ _ _ _ Hi) [p2 H2]%(amap_lookup _ _ _ _ _ _ Hi) Hne.
    apply list_elem_of_split in H1 as (l1 & l2 & ->).
    assert ((p2, Region b2 z2) ∈ l1 ++ l2) as (k1 & k2 & E)%list_elem_of_split by set_solver.
    pose proof (vi_tiled _ _ _ _ Hi) as Ht. eapply (tiled_apart _ _ (fr.*2 ++ (k1 ++ k2).*2)), tiled_proper; [|exact Ht].
    transitivity (Region b1 z1 :: fr.*2 ++ (l1 ++ l2).*2).
    + rewrite E, !fmap_app. csimpl. solve_Permutation.
    + rewrite !fmap_app. csimpl. solve_Permutation.
Qed.

(** Giving back what [vmm_alloc] just returned restores the abstract state, and the
    same request is answered with the same address again. *)
Theorem vmm_alloc_free_alloc s A z b s1 : vmm_rep s A → 0 < z → (PAGESZ | z) →
  vmm_alloc z s = Ok (b, s1) → b ≠ 0 →
  ∃ s2 s3, vmm_free b s1 = Ok (tt, s2) ∧ vmm_rep s2 A ∧ vmm_alloc z s2 = Ok (b, s3).
Proof.
  intros Hr Hz Ha E Hb. pose proof (rep_alloc _ _ _ Hr Hz Ha) as (b' & s1' & E' & H)%wp_exec.
  rewrite E in E'. simplify_eq. destruct H as [(Hlow & _ & Hr1)|(? & _)]; [|done].
  assert (HA : A !! b' = None).
  { apply eq_None_not_Some. intros [z' Hz']. pose proof (rep_ok _ _ _ _ Hr Hz') as [? _ _ _ _].
    apply Hlow in Hz'. unfold apart, rend in *. simpl in *. lia. }
  eapply rep_free in Hr1 as ([] & s2 & Ef & Hr2)%wp_exec; [|apply lookup_insert_eq].
  rewrite delete_insert_id in Hr2 by done.
  pose proof (rep_alloc _ _ _ Hr2 Hz Ha) as (b & s3 & Ea & [(Hlow2 & _)|(_ & Hno & _)])%wp_exec.
  - assert (b = b') as -> by (apply Z.le_antisymm; [apply Hlow2, Hlow|apply Hlow, Hlow2]). eauto.
  - exfalso. apply (Hno b'), Hlow.
Qed.

(** The figures of [vmm_getfreesize] and [vmm_getinuse] (in KiB) are those of the
    abstract state, and together they make up the heap. *)
Theorem vmm_usage s A : vmm_rep s A →
  ∃ f u s1 s2, vmm_getfreesize s = Ok (f, s1) ∧ vmm_getinuse s = Ok (u, s2) ∧ vmm_rep s1 A ∧ vmm_rep s2 A ∧
    u = allocated A / 1024 ∧ f = (KHEAPSZ - allocated A) / 1024 ∧ f + u = KHEAPSZ / 1024.
Proof.
  intros (fr & us & fn & Hi & ->). pose proof Hi as [Hlk Hs Hg Ht Hu].
  pose proof (used_total _ _ Ht) as (? & ? & ?). rewrite (amap_total us) by by eapply used_bases.
  assert (KHEAPSZ < KHEAPEND ∧ (1024 | KHEAPSZ)) as [? [k Hk]] by (split; [done|by exists 884736]).
  assert (Hr : ∀ s', s' = {| s with vmm_spinlock := false |} → vmm_rep s' (amap us)).
  { intros s' ->. eexists _, us, _. split; [|done]. split; simpl; try done. by apply (shape_globals s). }
  assert (Hdv : (1024 | total us.*2)).
  { transitivity PAGESZ; [by exists 4|]. apply total_aligned. intros. eapply tiled_elem; [exact Ht|]. set_solver. }
  eexists _, _, _, _. split_and!.
  - unfold vmm_getfreesize, spin_lock, spin_unlock, mbind, M_bind, gets, modify. simpl. rewrite Hlk. reflexivity.
  - unfold vmm_getinuse, spin_lock, spin_unlock, mbind, M_bind, gets, modify. simpl. rewrite Hlk. reflexivity.
  - by apply Hr.
  - by apply Hr.
  - by rewrite Hu.
  - simpl. rewrite Hu, u32_heap by lia. done.
  - simpl. rewrite Hu, u32_heap by lia. destruct Hdv as [j Hj]. rewrite Hj, Hk, <- Z.mul_sub_distr_r, !Z.div_mul by done. lia.
Qed.

(** ** Applications: two pages from the state [vmm_init] leaves *)

Lemma two_pages : ∃ s s', vmm_rep s ∅ ∧
  vmm_alloc 0x2000 s = Ok (KHEAPBASE, s') ∧ vmm_rep s' {[KHEAPBASE := 0x2000]}.
Proof.
  destruct vmm_init_rep as (s & _ & Hr).
  assert (Hf : free_at ∅ KHEAPBASE 0x2000) by by split.
  pose proof (rep_alloc s ∅ 0x2000 Hr eq_refl ltac:(by exists 2)) as (b & s' & E & [([[? _ _] Hb] & _ & ?)|(_ & Hno & _)])%wp_exec.
  - apply Hb in Hf. assert (b = KHEAPBASE) as -> by lia. by exists s, s'.
  - by apply Hno in Hf.
Qed.

Lemma vmm_alloc_correct_witness : ∃ s b s', vmm_alloc 0x2000 s = Ok (b, s') ∧
  ((lowest ∅ 0x2000 b ∧ (PAGESZ | b) ∧ vmm_rep s' {[b := 0x2000]}) ∨ (b = 0 ∧ no_room ∅ 0x2000 ∧ vmm_rep s' ∅)).
Proof.
  destruct two_pages as (s & _ & Hr & _).
  destruct (vmm_alloc_correct s ∅ 0x2000 Hr eq_refl) as (b & s' & ? & ?); [by exists 2|]. by exists s, b, s'.
Defined.
Lemma vmm_free_correct_witness : ∃ s s' s'', vmm_alloc 0x2000 s = Ok (KHEAPBASE, s') ∧
  vmm_free KHEAPBASE s' = Ok (tt, s'') ∧ vmm_rep s'' ∅ ∧ vmm_free 0xD0000000 s' = Panic.
Proof.
  destruct two_pages as (s & s' & _ & E & Hr).
  destruct (vmm_free_correct s' _ KHEAPBASE Hr) as (s'' & ? & ?).
  pose proof (vmm_free_correct s' _ 0xD0000000 Hr). by exists s, s', s''.
Defined.
Lemma vmm_refines_witness : ∃ s, vmm_init vmm_boot = Ok (0, s) ∧
  match vmm_do_all [Alloc 0x1000; Alloc 0x3000; Free KHEAPBASE; Alloc 0] s with
  | Ok (rs, s') => ∃ A, spec_steps ∅ [Alloc 0x1000; Alloc 0x3000; Free KHEAPBASE; Alloc 0] rs A ∧ vmm_rep s' A
  | Panic => ∃ ops1 o ops2 rs A, [Alloc 0x1000; Alloc 0x3000; Free KHEAPBASE; Alloc 0] = ops1 ++ o :: ops2 ∧
               spec_steps ∅ ops1 rs A ∧ ¬ legal A o
  | Fault | NoFuel => False
  end.
Proof. apply (vmm_refines [Alloc 0x1000; Alloc 0x3000; Free KHEAPBASE; Alloc 0]). by repeat constructor. Defined.
Lemma vmm_rep_disjoint_witness : ∃ s, vmm_rep s {[KHEAPBASE := 0x2000]} ∧ region_ok (Region KHEAPBASE 0x2000).
Proof.
  destruct two_pages as (_ & s & _ & _ & Hr). exists s. split; [done|].
  by apply (vmm_rep_disjoint s _ Hr).
Defined.
Lemma vmm_alloc_free_alloc_witness : ∃ s s1 s2 s3, vmm_alloc 0x2000 s = Ok (KHEAPBASE, s1) ∧
  vmm_free KHEAPBASE s1 = Ok (tt, s2) ∧ vmm_rep s2 ∅ ∧ vmm_alloc 0x2000 s2 = Ok (KHEAPBASE, s3).
Proof.
  destruct two_pages as (s & s1 & Hr & E & _).
  destruct (vmm_alloc_free_alloc s ∅ 0x2000 KHEAPBASE s1 Hr eq_refl) as (s2 & s3 & ? & ? & ?); [by exists 2|done..|].
  by exists s, s1, s2, s3.
Defined.
Lemma vmm_usage_witness : ∃ s f u s1 s2, vmm_getfreesize s = Ok (f, s1) ∧ vmm_getinuse s = Ok (u, s2) ∧
  u = 8 ∧ f = 884728.
Proof.
  destruct two_pages as (_ & s & _ & _ & Hr).
  destruct (vmm_usage s _ Hr) as (f & u & s1 & s2 & ? & ? & _ & _ & Hu & Hf & _).
  exists s, f, u, s1, s2. split_and!; [done..|by rewrite Hu|by rewrite Hf].
Defined.
