(* ===== verification/RingBuf.v ===== *)
(** * Byte rings ([kernel/ds/ringbuf.c])

    The buffer behind pipes and pseudo terminals.  A ring of a size that divides
    2^32 is a bounded queue of bytes: [ringbuf_write] appends as many bytes as fit,
    [ringbuf_read] takes the oldest ones, across any number of wrap-arounds of the
    32-bit positions. *)
From S2P Require Import Prelude.

Record ringbuf : Type := Ringbuf {
  rb_buf : list Z;
  rb_size : Z;
  rb_head : Z;
  rb_tail : Z;
  rb_count : Z;
  rb_lock : bool;
}.
#[global] Instance ringbuf_has_lock : Lock ringbuf := {|
  held := rb_lock;
  set_held b r := {| r with rb_lock := b |};
|}.

(** [RINGBUF_INDEX] *)
Definition RINGBUF_INDEX (r : ringbuf) (i : Z) : Z := i `mod` rb_size r.

(** [RINGBUF_NEW(nam, sz)]; [ringbuf_new] builds the same value. *)
Definition RINGBUF_NEW (sz : Z) : ringbuf := Ringbuf (replicate (Z.to_nat sz) 0) sz 0 0 0 false.

Definition ringbuf_isempty : M ringbuf bool :=
  spin_assert_lock;; gets (λ r, bool_decide (rb_count r = 0)).
Definition ringbuf_isfull : M ringbuf bool :=
  spin_assert_lock;; gets (λ r, bool_decide (rb_count r = rb_size r)).

(** [ring->buf[i]] and [ring->buf[i] = v] *)
Definition rb_get (i : Z) : M ringbuf Z := λ r,
  match rb_buf r !! Z.to_nat i with Some v => Ok (v, r) | None => Fault end.
Definition rb_set (i v : Z) : M ringbuf unit := λ r,
  if decide (Z.to_nat i < length (rb_buf r))%nat
  then Ok (tt, {| r with rb_buf := <[Z.to_nat i := v]> (rb_buf r) |}) else Fault.

(** The loop of [ringbuf_read]; [acc] is what the caller's buffer has got so far. *)
Fixpoint read_loop (n : nat) (acc : list Z) : M ringbuf (list Z) :=
  match n with
  | O => mret acc
  | S n' =>
      empty ← ringbuf_isempty;
      if (empty : bool) then mret acc else
      i ← gets (λ r, RINGBUF_INDEX r (rb_head r));
      modify (λ r, {| r with rb_head := u32 (rb_head r + 1) |});;
      v ← rb_get i;
      modify (λ r, {| r with rb_count := u32 (rb_count r - 1) |});;
      read_loop n' (acc ++ [v])
  end.
(** The bytes written to [buf]; their number is the result. *)
Definition ringbuf_read (n : Z) : M ringbuf (list Z) :=
  spin_assert_lock;; read_loop (Z.to_nat n) [].

(** The loop of [ringbuf_write]: the number of bytes left. *)
Fixpoint write_loop (n : nat) (buf : list Z) : M ringbuf nat :=
  match n with
  | O => mret O
  | S n' =>
      full ← ringbuf_isfull;
      if (full : bool) then mret n else
      i ← gets (λ r, RINGBUF_INDEX r (rb_tail r));
      modify (λ r, {| r with rb_tail := u32 (rb_tail r + 1) |});;
      match buf with
      | [] => fault
      | v :: buf' =>
          rb_set i v;;
          modify (λ r, {| r with rb_count := u32 (rb_count r + 1) |});;
          write_loop n' buf'
      end
  end.
Definition ringbuf_write (n : Z) (buf : list Z) : M ringbuf Z :=
  spin_assert_lock;; left ← write_loop (Z.to_nat n) buf; mret (n - Z.of_nat left).

Definition ringbuf_available : M ringbuf Z :=
  spin_assert_lock;;
  gets (λ r, if bool_decide (rb_head r ≤ rb_tail r) then u32 (rb_tail r - rb_head r)
             else u32 (rb_tail r + rb_size r - rb_head r)).

#[global] Arguments ringbuf_read n : simpl never.
#[global] Arguments ringbuf_write n buf : simpl never.
#[global] Arguments RINGBUF_INDEX r i : simpl never.
#[global] Arguments rb_get i : simpl never.
#[global] Arguments rb_set i v : simpl never.

(** ** The bytes in a ring *)

(** The place of the [i]th byte from position [h]. *)
Definition slot (r : ringbuf) (h : Z) (i : nat) : nat := Z.to_nat (RINGBUF_INDEX r (u32 (h + Z.of_nat i))).

(** [r] holds the bytes [l], oldest first. *)
Record ring_rep (r : ringbuf) (l : list Z) : Prop := RingRep {
  rr_lock : rb_lock r = true;
  rr_size : 0 < rb_size r < 2 ^ 32;
  rr_divides : (rb_size r | 2 ^ 32);
  rr_buf : Z.of_nat (length (rb_buf r)) = rb_size r;
  rr_head : 0 ≤ rb_head r < 2 ^ 32;
  rr_tail : rb_tail r = u32 (rb_head r + Z.of_nat (length l));
  rr_count : rb_count r = Z.of_nat (length l);
  rr_fits : Z.of_nat (length l) ≤ rb_size r;
  rr_bytes : ∀ i v, l !! i = Some v → rb_buf r !! slot r (rb_head r) i = Some v;
}.

(** Positions wrap at 2^32, places at the size: the first is a multiple of the second. *)
Lemma slot_mod r h i : 0 < rb_size r → (rb_size r | 2 ^ 32) →
  slot r h i = Z.to_nat ((h + Z.of_nat i) `mod` rb_size r).
Proof.
  intros Hs [k Hk]. unfold slot, RINGBUF_INDEX, u32. f_equal. rewrite Hk.
  rewrite (Z.mul_comm k). rewrite Z.rem_mul_r by nia. rewrite (Z.mul_comm (rb_size r)), Z.mod_add by lia. by rewrite Z.mod_mod by lia.
Qed.
Lemma slot_bound r h i : 0 < rb_size r → Z.of_nat (slot r h i) < rb_size r.
Proof. intros. unfold slot, RINGBUF_INDEX. pose proof (Z.mod_pos_bound (u32 (h + Z.of_nat i)) (rb_size r)). lia. Qed.
Lemma slot_inj r h i j : 0 < rb_size r → (rb_size r | 2 ^ 32) →
  Z.of_nat i < rb_size r → Z.of_nat j < rb_size r → slot r h i = slot r h j → i = j.
Proof.
  intros Hs Hd Hi Hj. rewrite !slot_mod by done. intros E%Z2Nat.inj; try (apply Z.mod_pos_bound; lia).
  assert ((rb_size r | Z.of_nat i - Z.of_nat j)) as [k Hk].
  { apply Z.mod_divide; [lia|]. replace (Z.of_nat i - Z.of_nat j) with (h + Z.of_nat i - (h + Z.of_nat j)) by lia.
    rewrite Zminus_mod, E, Z.sub_diag. by apply Z.mod_0_l; lia. }
  assert (k = 0) by nia. lia.
Qed.
Lemma slot_succ r h i : slot r (u32 (h + 1)) i = slot r h (S i).
Proof.
  unfold slot, u32. do 2 f_equal. rewrite Zplus_mod_idemp_l. f_equal. lia.
Qed.

Lemma wp_rb_get i v (Q : Z → ringbuf → Prop) r :
  rb_buf r !! Z.to_nat i = Some v → Q v r → wp (rb_get i) Q r.
Proof. intros E ?. eapply wp_eq; [|done]. unfold rb_get. by rewrite E. Qed.
Lemma wp_rb_set i v (Q : unit → ringbuf → Prop) r :
  (Z.to_nat i < length (rb_buf r))%nat → Q tt {| r with rb_buf := <[Z.to_nat i := v]> (rb_buf r) |} →
  wp (rb_set i v) Q r.
Proof. intros E ?. eapply wp_eq; [|done]. unfold rb_set. by rewrite decide_True. Qed.
Lemma wp_isempty (Q : bool → ringbuf → Prop) r l :
  ring_rep r l → Q (bool_decide (l = [])) r → wp ringbuf_isempty Q r.
Proof.
  intros Hr HQ. unfold ringbuf_isempty. pose proof (rr_lock _ _ Hr). wp_go.
  erewrite bool_decide_ext; [exact HQ|]. rewrite (rr_count _ _ Hr). destruct l; simpl; split; (done || lia).
Qed.
Lemma wp_isfull (Q : bool → ringbuf → Prop) r l :
  ring_rep r l → Q (bool_decide (Z.of_nat (length l) = rb_size r)) r → wp ringbuf_isfull Q r.
Proof.
  intros Hr HQ. unfold ringbuf_isfull. pose proof (rr_lock _ _ Hr). wp_go. by rewrite (rr_count _ _ Hr).
Qed.

(** The ring after its oldest byte is taken, and after a byte is added. *)
Lemma ring_rep_pop r v l : ring_rep r (v :: l) →
  rb_buf r !! Z.to_nat (RINGBUF_INDEX r (rb_head r)) = Some v ∧
  ring_rep {| r with rb_head := u32 (rb_head r + 1); rb_count := u32 (rb_count r - 1) |} l.
Proof.
  intros [H1 H2 H3 H4 H5 H6 H7 H8 H9]. split.
  - rewrite <- (H9 0%nat v) by done. unfold slot. rewrite Z.add_0_r, u32_small by done. done.
  - split; simpl in *; try done.
    + apply u32_range.
    + rewrite H6. unfold u32. rewrite Zplus_mod_idemp_l. f_equal. lia.
    + rewrite H7, u32_small; lia.
    + lia.
    + intros i w Hi. rewrite slot_succ. by apply (H9 (S i) w).
Qed.
Lemma ring_rep_push r v l : ring_rep r l → Z.of_nat (length l) ≠ rb_size r →
  (Z.to_nat (RINGBUF_INDEX r (rb_tail r)) < length (rb_buf r))%nat ∧
  ring_rep {| r with rb_tail := u32 (rb_tail r + 1); rb_count := u32 (rb_count r + 1);
                     rb_buf := <[Z.to_nat (RINGBUF_INDEX r (rb_tail r)) := v]> (rb_buf r) |} (l ++ [v]).
Proof.
  intros [H1 H2 H3 H4 H5 H6 H7 H8 H9] Hf.
  assert (Ht : Z.to_nat (RINGBUF_INDEX r (rb_tail r)) = slot r (rb_head r) (length l)) by (unfold slot; by rewrite H6).
  rewrite Ht. pose proof (slot_bound r (rb_head r) (length l)). split; [lia|].
  split; simpl in *; try done.
  - by rewrite length_insert.
  - rewrite H6, length_app. unfold u32. rewrite Zplus_mod_idemp_l. f_equal. simpl. lia.
  - rewrite H7, u32_small, length_app; simpl; lia.
  - rewrite length_app. simpl. lia.
  - intros i w. change (slot _ (rb_head r) i) with (slot r (rb_head r) i).
    rewrite lookup_app_Some. intros [Hi|[Hge Hi]].
    + rewrite list_lookup_insert_ne; [by apply H9|]. intros E%slot_inj; try done; apply lookup_lt_Some in Hi; lia.
    + apply list_lookup_singleton_Some in Hi as [Hi ->]. replace i with (length l) by lia.
      apply list_lookup_insert_eq. lia.
Qed.

Lemma u32_add a b : u32 (u32 a + b) = u32 (a + b).
Proof. unfold u32. apply Zplus_mod_idemp_l. Qed.
Lemma wp_read_loop n acc (Q : list Z → ringbuf → Prop) r l : ring_rep r l →
  (∀ r', ring_rep r' (drop n l) → rb_size r' = rb_size r → rb_head r' = u32 (rb_head r + Z.of_nat (length (take n l))) → Q (acc ++ take n l) r') →
  wp (read_loop n acc) Q r.
Proof.
  revert acc r l. induction n as [|n IH]; intros acc r l Hr HQ; simpl.
  { apply wp_ret. rewrite app_nil_r in HQ. apply HQ; [done|done|]. simpl. rewrite Z.add_0_r, u32_small; [done|by destruct Hr]. }
  apply wp_bind. eapply wp_isempty; [done|]. destruct l as [|v l].
  { apply wp_ret. rewrite app_nil_r in HQ. apply HQ; [done|done|]. simpl. rewrite Z.add_0_r, u32_small; [done|by destruct Hr]. }
  rewrite bool_decide_false by done. apply ring_rep_pop in Hr as [Hv Hr]. wp_go.
  eapply wp_rb_get; [exact Hv|]. wp_go. eapply IH; [exact Hr|]. simpl. intros r' Hr' Hs Hh. rewrite <- (assoc_L (++)). apply HQ; [done|done|].
  rewrite Hh, u32_add. f_equal. simpl. lia.
Qed.
Lemma wp_write_loop n buf (Q : nat → ringbuf → Prop) r l :
  ring_rep r l → length buf = n →
  (∀ r' k, k = (n `min` (Z.to_nat (rb_size r) - length l))%nat → rb_size r' = rb_size r → rb_head r' = rb_head r →
     ring_rep r' (l ++ take k buf) → Q (n - k)%nat r') → wp (write_loop n buf) Q r.
Proof.
  revert buf r l. induction n as [|n IH]; intros buf r l Hr Hn HQ; cbn [write_loop].
  { apply wp_ret. apply (HQ r 0%nat); [done|done|done|]. simpl. by rewrite app_nil_r. }
  apply wp_bind. eapply wp_isfull; [done|]. pose proof (rr_fits _ _ Hr). case_bool_decide as Hf.
  { apply wp_ret. apply (HQ r 0%nat); [lia|done|done|]. simpl. by rewrite app_nil_r. }
  destruct buf as [|v buf]; [done|]. injection Hn as Hn. apply (ring_rep_push _ v) in Hr as [Hi Hr]; [|done]. wp_go.
  apply wp_rb_set; [exact Hi|]. wp_go. eapply IH; [exact Hr|done|]. cbn [rb_size]. intros r' k Hk Hs Hh Hr'.
  apply (HQ r' (S k)); [rewrite Hk, length_app; cbn [length]; lia|done|done|]. by rewrite <- (assoc_L (++)) in Hr'.
Qed.
Lemma wp_ringbuf_read n (Q : list Z → ringbuf → Prop) r l : ring_rep r l →
  (∀ r', ring_rep r' (drop (Z.to_nat n) l) → rb_size r' = rb_size r → rb_head r' = u32 (rb_head r + Z.of_nat (length (take (Z.to_nat n) l))) →
    Q (take (Z.to_nat n) l) r') → wp (ringbuf_read n) Q r.
Proof. intros Hr HQ. unfold ringbuf_read. pose proof (rr_lock _ _ Hr). wp_go. by eapply wp_read_loop. Qed.
Lemma wp_ringbuf_write buf (Q : Z → ringbuf → Prop) r l : ring_rep r l →
  (∀ r' k, k = (length buf `min` (Z.to_nat (rb_size r) - length l))%nat → rb_size r' = rb_size r → rb_head r' = rb_head r →
    ring_rep r' (l ++ take k buf) → Q (Z.of_nat k) r') → wp (ringbuf_write (Z.of_nat (length buf)) buf) Q r.
Proof.
  intros Hr HQ. unfold ringbuf_write. pose proof (rr_lock _ _ Hr). wp_go. rewrite Nat2Z.id.
  eapply wp_write_loop; [done..|]. intros r' k Hk Hs Hh Hr'. wp_go.
  replace (Z.of_nat (length buf) - Z.of_nat (length buf - k)) with (Z.of_nat k) by lia. by apply HQ.
Qed.
Lemma ringbuf_available_value r l : ring_rep r l → ringbuf_available r =
  Ok (if bool_decide (rb_head r + Z.of_nat (length l) < 2 ^ 32) then Z.of_nat (length l) else u32 (Z.of_nat (length l) + rb_size r), r).
Proof.
  intros [H1 H2 H3 H4 H5 H6 H7 H8 H9].
  unfold ringbuf_available, spin_assert_lock, mbind, M_bind, gets. simpl. rewrite H1. simpl. do 2 f_equal. rewrite H6.
  destruct (decide (rb_head r + Z.of_nat (length l) < 2 ^ 32)).
  - rewrite (u32_small (rb_head r + _)) by lia. rewrite !bool_decide_true by lia. cbn iota.
    rewrite u32_small; lia.
  - assert (u32 (rb_head r + Z.of_nat (length l)) = rb_head r + Z.of_nat (length l) - 2 ^ 32) as ->.
    { unfold u32. rewrite <- (Z.mod_add _ (-1)) by lia. rewrite Z.mod_small; lia. }
    rewrite !bool_decide_false by lia. cbn iota. unfold u32.
    rewrite <- (Z.mod_add (Z.of_nat (length l) + rb_size r) (-1) (2 ^ 32)) by lia. f_equal. lia.
Qed.
(** ** Properties *)

(** [ringbuf_write] of [n] bytes returns how many fitted, and the ring then holds
    its old bytes followed by that many of the new ones. *)
Theorem ringbuf_write_appends r l buf : ring_rep r l →
  let k := (length buf `min` (Z.to_nat (rb_size r) - length l))%nat in
  ∃ r', ringbuf_write (Z.of_nat (length buf)) buf r = Ok (Z.of_nat k, r') ∧ ring_rep r' (l ++ take k buf).
Proof.
  intros Hr k. assert (wp (ringbuf_write (Z.of_nat (length buf)) buf) (λ m r', m = Z.of_nat k ∧ ring_rep r' (l ++ take k buf)) r)
    as (? & r' & ? & -> & ?)%wp_exec; [|by exists r']. eapply wp_ringbuf_write; [done|]. by intros r' k' -> _ _ ?.
Qed.

(** [ringbuf_read] of [n] bytes returns the oldest bytes of the ring, [n] of them or
    all there are, and leaves the others. *)
Theorem ringbuf_read_takes r l n : ring_rep r l →
  ∃ r', ringbuf_read n r = Ok (take (Z.to_nat n) l, r') ∧ ring_rep r' (drop (Z.to_nat n) l).
Proof.
  intros Hr.
  assert (wp (ringbuf_read n) (λ m r', m = take (Z.to_nat n) l ∧ ring_rep r' (drop (Z.to_nat n) l)) r)
    as (? & r' & ? & -> & ?)%wp_exec; [|by exists r'].
  eapply wp_ringbuf_read; [done|]. by intros.
Qed.

(** [ringbuf_available] is the number of bytes in the ring until the write position
    wraps around before the read position does; then it is too large by the ring's size. *)
Theorem ringbuf_available_spec r l : ring_rep r l →
  ringbuf_available r = Ok (if bool_decide (rb_head r + Z.of_nat (length l) < 2 ^ 32) then Z.of_nat (length l)
                            else u32 (Z.of_nat (length l) + rb_size r), r).
Proof. apply ringbuf_available_value. Qed.



(** ** Applications: a ring of four bytes whose positions are about to wrap *)

Definition ring_demo : ringbuf := Ringbuf [10; 11; 12; 13] 4 (2 ^ 32 - 2) 1 3 true.
Lemma ring_demo_rep : ring_rep ring_demo [12; 13; 10].
Proof.
  split; try (simpl; done); [by exists (2 ^ 30)|].
  intros i v Hi. pose proof (lookup_lt_Some _ _ _ Hi). by destruct i as [|[|[|i]]]; simplify_eq/=; try lia.
Qed.
Lemma ringbuf_write_appends_witness : ∃ r',
  ringbuf_write 5 [1; 2; 3; 4; 5] ring_demo = Ok (1, r') ∧ ring_rep r' [12; 13; 10; 1].
Proof. apply (ringbuf_write_appends ring_demo [12; 13; 10] [1; 2; 3; 4; 5] ring_demo_rep). Defined.
Lemma ringbuf_read_takes_witness : ∃ r', ringbuf_read 2 ring_demo = Ok ([12; 13], r') ∧ ring_rep r' [10].
Proof. apply (ringbuf_read_takes ring_demo [12; 13; 10] 2 ring_demo_rep). Defined.
Lemma ringbuf_available_spec_witness : ringbuf_available ring_demo = Ok (7, ring_demo).
Proof. exact (ringbuf_available_spec ring_demo [12; 13; 10] ring_demo_rep). Defined.
