(* ===== verification/Bitmap.v ===== *)
(** * Bitmaps ([kernel/ds/bmap.c])

    A bitmap is an array of 32-bit words.  [bits m b] is its bit [b]; setting,
    clearing and searching clusters of bits are specified on that function. *)
From S2P Require Import Prelude.

Record bitmap : Type := Bitmap {
  bm_base : option (list Z);
  bm_size : Z;
  bm_lock : bool;
}.
#[global] Instance bitmap_has_lock : Lock bitmap := {|
  held := bm_lock;
  set_held b m := {| m with bm_lock := b |};
|}.

(** [sizeof (int[MAX_INT_BITMAP(131072)])] *)
Definition BITMAP_MAX : Z := 131072 * 1024 / 4 * 4.

(** The assertions the operations start with. *)
Definition assert_bitmap : M bitmap unit :=
  b ← gets bm_base; z ← gets bm_size;
  kassert (bool_decide (b ≠ None ∧ z ≠ 0));;
  kassert (bool_decide (z < BITMAP_MAX)).
Definition bitmap_lock : M bitmap unit := assert_bitmap;; spin_lock.
Definition bitmap_unlock : M bitmap unit := assert_bitmap;; spin_unlock.
Definition bitmap_try_lock : M bitmap bool := assert_bitmap;; spin_trylock.
Definition assert_bit (bit : Z) : M bitmap unit :=
  assert_bitmap;;
  z ← gets bm_size;
  kassert (bool_decide (0 ≤ bit));;
  kassert (bool_decide (bit `quot` 32 < i32 (z / 4))).
Definition assert_cluster (bit n : Z) : M bitmap unit :=
  assert_bit bit;;
  z ← gets bm_size;
  kassert (bool_decide (n ≠ 0 ∧ 0 ≤ n));;
  kassert (bool_decide (i32 (bit + n) ≤ i32 (i32 z * 8))).
Definition assert_locked : M bitmap unit := b ← bitmap_try_lock; kassert (negb b).

(** [base[bit / 32]], [base[bit / 32] = w] and [1 << (bit % 32)]. *)
Definition rd_word (bit : Z) : M bitmap Z := λ m,
  match bm_base m ≫= (.!! Z.to_nat (bit / 32)) with Some w => Ok (w, m) | None => Fault end.
Definition wr_word (bit w : Z) : M bitmap unit := λ m,
  match bm_base m with
  | Some ws => if decide (Z.to_nat (bit / 32) < length ws)%nat
               then Ok (tt, {| m with bm_base := Some (<[Z.to_nat (bit / 32) := w]> ws) |}) else Fault
  | None => Fault
  end.
Definition mask (bit : Z) : Z := Z.shiftl 1 (bit `mod` 32).
Definition rd_bit (bit : Z) : M bitmap bool :=
  w ← rd_word bit; mret (bool_decide (Z.land w (mask bit) ≠ 0)).

(** [bitmap_init]; [memsetd] stores the pattern in [size / 4] words. *)
Definition bitmap_init (pattern : Z) : M bitmap Z :=
  assert_bitmap;;
  bitmap_lock;;
  modify (λ m, {| m with bm_base := (λ ws, replicate (Z.to_nat (bm_size m / 4)) pattern ++
                                            drop (Z.to_nat (bm_size m / 4)) ws) <$> bm_base m |});;
  bitmap_unlock;;
  mret 0.

Definition bitmap_test (bit : Z) : M bitmap Z :=
  assert_bit bit;;
  assert_locked;;
  w ← rd_word bit;
  mret (i32 (Z.land w (mask bit))).

(** Are the [n] bits from [tmp] all [v]? *)
Fixpoint test_loop (v : bool) (n : nat) (tmp : Z) : M bitmap bool :=
  match n with
  | O => mret true
  | S n' => b ← rd_bit tmp; if decide (b = v) then test_loop v n' (tmp + 1) else mret false
  end.
(** [base[tmp / 32] |= 1 << (tmp % 32)] and [&= ~(1 << (tmp % 32))], [n] times. *)
Definition put_bit (v : bool) (w bit : Z) : Z := if v then Z.lor w (mask bit) else Z.ldiff w (mask bit).
Fixpoint put_loop (v : bool) (n : nat) (tmp : Z) : M bitmap unit :=
  match n with
  | O => mret tt
  | S n' => w ← rd_word tmp; wr_word tmp (put_bit v w tmp);; put_loop v n' (tmp + 1)
  end.
Definition bitmap_put (v : bool) (bit n : Z) : M bitmap Z :=
  assert_cluster bit n;;
  assert_locked;;
  ok ← test_loop (negb v) (Z.to_nat n) bit;
  if (ok : bool) then put_loop v (Z.to_nat n) bit;; mret 0 else mret (- EALREADY).
Definition bitmap_set : Z → Z → M bitmap Z := bitmap_put true.
Definition bitmap_unset : Z → Z → M bitmap Z := bitmap_put false.

(** The inner loop of the searches: the number of bits left to check, and where it stopped. *)
Fixpoint run_loop (v : bool) (n : nat) (j : Z) : M bitmap (nat * Z) :=
  match n with
  | O => mret (O, j)
  | S n' => b ← rd_bit j; if decide (b = v) then run_loop v n' (j + 1) else mret (n, j)
  end.
Fixpoint first_loop (fuel : nat) (v : bool) (bit n : Z) : M bitmap Z :=
  match fuel with
  | O => nofuel
  | S fuel' =>
      z ← gets bm_size;
      if bool_decide (i32 (bit + n) ≤ i32 (i32 z * 8)) then
        b ← rd_bit bit;
        if decide (b = v) then
          '(rest, j) ← run_loop v (Z.to_nat n) bit;
          if decide (rest = O) then mret bit else first_loop fuel' v j n
        else first_loop fuel' v (bit + 1) n
      else mret (- ENOENT)
  end.
Definition bitmap_first (v : bool) (bit n : Z) : M bitmap Z :=
  assert_cluster bit n;;
  assert_locked;;
  fuel ← gets (λ m, Z.to_nat (bm_size m * 8));
  first_loop (S fuel) v bit n.
Definition bitmap_first_unset : Z → Z → M bitmap Z := bitmap_first false.
Definition bitmap_first_set : Z → Z → M bitmap Z := bitmap_first true.

#[global] Arguments rd_word bit : simpl never.
#[global] Arguments wr_word bit w : simpl never.
#[global] Arguments rd_bit bit : simpl never.
#[global] Arguments mask bit : simpl never.
#[global] Arguments assert_bitmap : simpl never.
#[global] Arguments assert_bit bit : simpl never.
#[global] Arguments assert_cluster bit n : simpl never.
#[global] Arguments assert_locked : simpl never.
#[global] Arguments bitmap_init pattern : simpl never.
#[global] Arguments bitmap_test bit : simpl never.
#[global] Arguments bitmap_put v bit n : simpl never.
#[global] Arguments bitmap_first v bit n : simpl never.

(** ** The bits of a bitmap *)

Definition words (m : bitmap) : list Z := default [] (bm_base m).
Definition bits (m : bitmap) (b : Z) : bool := Z.testbit (words m !!! Z.to_nat (b / 32)) (b `mod` 32).

Record bitmap_ok (m : bitmap) : Prop := BitmapOk {
  bo_base : bm_base m ≠ None;
  bo_size : 0 < bm_size m < BITMAP_MAX;
  bo_words : bm_size m = 4 * Z.of_nat (length (words m));
  bo_range : Forall (λ w, 0 ≤ w < 2 ^ 32) (words m);
}.
Definition nbits (m : bitmap) : Z := bm_size m * 8.

(** The [n] bits from [b] are all [v]. *)
Definition cluster (m : bitmap) (v : bool) (b n : Z) : Prop := ∀ i, b ≤ i < b + n → bits m i = v.

Lemma mask_testbit b i : 0 ≤ i → Z.testbit (mask b) i = bool_decide (i = b `mod` 32).
Proof.
  intros Hi. unfold mask. pose proof (Z.mod_pos_bound b 32). rewrite Z.shiftl_spec by done.
  destruct (Z.eq_dec i (b `mod` 32)) as [->|?].
  - by rewrite Z.sub_diag, bool_decide_true.
  - rewrite bool_decide_false by done. destruct (decide (i - b `mod` 32 < 0)); [by apply Z.testbit_neg_r|].
    apply (Z.bits_above_log2 1); [done|]. simpl. lia.
Qed.
Lemma land_mask w b : Z.land w (mask b) ≠ 0 ↔ Z.testbit w (b `mod` 32) = true.
Proof.
  pose proof (Z.mod_pos_bound b 32). split.
  - intros Hne. destruct (Z.testbit w _) eqn:E; [done|]. destruct Hne. apply Z.bits_inj_iff'. intros i Hi.
    rewrite Z.land_spec, Z.bits_0, mask_testbit by done. case_bool_decide; subst; [by rewrite E|by rewrite andb_false_r].
  - intros E Hz. apply (f_equal (λ x, Z.testbit x (b `mod` 32))) in Hz.
    by rewrite Z.land_spec, Z.bits_0, mask_testbit, bool_decide_true, E in Hz by lia.
Qed.
Lemma put_bit_testbit v w b i : 0 ≤ i →
  Z.testbit (put_bit v w b) i = if decide (i = b `mod` 32) then v else Z.testbit w i.
Proof.
  intros Hi. unfold put_bit. destruct v.
  - rewrite Z.lor_spec, mask_testbit by done. case_decide; [by rewrite bool_decide_true, orb_true_r|].
    by rewrite bool_decide_false, orb_false_r.
  - rewrite Z.ldiff_spec, mask_testbit by done. case_decide; [by rewrite bool_decide_true, andb_false_r|].
    by rewrite bool_decide_false, andb_true_r.
Qed.

Section ok.
Context (m : bitmap) (Hm : bitmap_ok m).

Lemma word_lookup b : 0 ≤ b < nbits m → words m !! Z.to_nat (b / 32) = Some (words m !!! Z.to_nat (b / 32)).
Proof using Hm.
  intros Hb. apply list_lookup_lookup_total_lt. destruct Hm as [_ _ Hw _]. unfold nbits in Hb.
  apply Nat2Z.inj_lt. rewrite Z2Nat.id by (apply Z.div_pos; lia). apply Z.div_lt_upper_bound; lia.
Qed.
Lemma words_base : bm_base m = Some (words m).
Proof using Hm. unfold words. by destruct (bm_base m) eqn:E; [|destruct (bo_base _ Hm)]. Qed.
Lemma wp_rd_word b (Q : Z → bitmap → Prop) :
  0 ≤ b < nbits m → Q (words m !!! Z.to_nat (b / 32)) m → wp (rd_word b) Q m.
Proof using Hm.
  intros Hb HQ. eapply wp_eq; [|exact HQ]. unfold rd_word. rewrite words_base. simpl. by rewrite word_lookup.
Qed.
Lemma wp_rd_bit b (Q : bool → bitmap → Prop) : 0 ≤ b < nbits m → Q (bits m b) m → wp (rd_bit b) Q m.
Proof using Hm.
  intros Hb HQ. unfold rd_bit. apply wp_bind, wp_rd_word; [done|]. apply wp_ret.
  replace (bool_decide _) with (bits m b); [done|]. unfold bits. symmetry.
  destruct (Z.testbit _ _) eqn:E; [by apply bool_decide_eq_true, land_mask|].
  apply bool_decide_eq_false. by rewrite land_mask, E.
Qed.
Lemma wp_test_loop v n b (Q : bool → bitmap → Prop) :
  0 ≤ b → b + Z.of_nat n ≤ nbits m →
  (cluster m v b (Z.of_nat n) → Q true m) → (∀ i, b ≤ i < b + Z.of_nat n → bits m i ≠ v → Q false m) →
  wp (test_loop v n b) Q m.
Proof using Hm.
  revert b. induction n as [|n IH]; intros b Hb Hn HQ1 HQ2; cbn [test_loop].
  { apply wp_ret, HQ1. intros i. lia. }
  apply wp_bind, wp_rd_bit; [lia|]. case_decide as Hv.
  - apply IH; [lia..| |].
    + intros Hc. apply HQ1. intros i Hi. destruct (decide (i = b)) as [->|?]; [done|]. apply Hc. lia.
    + intros i Hi. apply HQ2. lia.
  - apply wp_ret, (HQ2 b); [lia|done].
Qed.
Lemma wp_run_loop v n b (Q : nat * Z → bitmap → Prop) :
  0 ≤ b → b + Z.of_nat n ≤ nbits m →
  (cluster m v b (Z.of_nat n) → Q (O, b + Z.of_nat n) m) →
  (∀ j r, b ≤ j < b + Z.of_nat n → cluster m v b (j - b) → bits m j ≠ v → r ≠ O → Q (r, j) m) →
  wp (run_loop v n b) Q m.
Proof using Hm.
  revert b. induction n as [|n IH]; intros b Hb Hn HQ1 HQ2; cbn [run_loop].
  { apply wp_ret. rewrite Z.add_0_r in HQ1. apply HQ1. intros i. lia. }
  apply wp_bind, wp_rd_bit; [lia|]. case_decide as Hv.
  - assert (Hstep : ∀ k, cluster m v (b + 1) k → cluster m v b (k + 1)).
    { intros k Hc i Hi. destruct (decide (i = b)) as [->|?]; [done|]. apply Hc. lia. }
    apply IH; [lia..| |].
    + intros Hc. replace (b + 1 + Z.of_nat n) with (b + Z.of_nat (S n)) by lia. apply HQ1.
      replace (Z.of_nat (S n)) with (Z.of_nat n + 1) by lia. auto.
    + intros j r Hj Hc Hbj Hr. apply HQ2; [lia| |done..]. replace (j - b) with (j - (b + 1) + 1) by lia. auto.
  - apply wp_ret. apply HQ2; [lia| |done..]. intros i. lia.
Qed.

(** The searches return the first place, skipping what the inner loop has seen. *)
Lemma wp_first_loop fuel v b n (Q : Z → bitmap → Prop) :
  0 ≤ b ≤ nbits m → 0 < n ≤ nbits m → nbits m - b < Z.of_nat fuel →
  (∀ r, b ≤ r → r + n ≤ nbits m → cluster m v r n → (∀ i, b ≤ i < r → ¬ cluster m v i n) → Q r m) →
  ((∀ i, b ≤ i → i + n ≤ nbits m → ¬ cluster m v i n) → Q (- ENOENT) m) →
  wp (first_loop fuel v b n) Q m.
Proof using Hm.
  assert (Hsz : 0 < bm_size m ∧ nbits m < 2 ^ 30). { pose proof (bo_size _ Hm). assert (BITMAP_MAX = 2 ^ 27) by done. unfold nbits in *. lia. }
  revert b. induction fuel as [|fuel IH]; intros b Hb Hn Hf HQ1 HQ2; cbn [first_loop]; [lia|].
  apply wp_bind, wp_gets.
  replace (i32 (i32 (bm_size m) * 8)) with (nbits m) by (unfold nbits in *; rewrite (i32_small (bm_size m)), i32_small by lia; done).
  rewrite i32_small by lia. case_bool_decide as Hin; [|apply wp_ret, HQ2; intros i; lia].
  assert (Hskip : ∀ j, b < j ≤ nbits m → (∀ i, b ≤ i < j → ¬ cluster m v i n) → wp (first_loop fuel v j n) Q m).
  { intros j Hj Hno. apply IH; [lia..| |].
    - intros r Hr Hrn Hc Hf'. apply HQ1; [lia|done..|]. intros i Hi.
      destruct (decide (i < j)); [apply Hno; lia|apply Hf'; lia].
    - intros Hf'. apply HQ2. intros i Hi Hin'. destruct (decide (i < j)); [apply Hno; lia|apply Hf'; lia]. }
  apply wp_bind, wp_rd_bit; [lia|]. case_decide as Hv.
  - apply wp_bind, wp_run_loop; [lia..| |].
    + rewrite Z2Nat.id by lia. intros Hc. apply wp_ret, HQ1; [lia..|done|]. intros i. lia.
    + rewrite Z2Nat.id by lia. intros j r Hj Hc Hbj Hr. rewrite decide_False by done.
      assert (j ≠ b) by congruence. apply Hskip; [lia|]. intros i Hi Hci. destruct Hbj. apply Hci. lia.
  - apply Hskip; [lia|]. intros i Hi Hci. destruct Hv. replace i with b in Hci by lia. apply Hci. lia.
Qed.
End ok.

(** One bit is stored. *)
Definition stored (v : bool) (b : Z) (m : bitmap) : bitmap :=
  {| m with bm_base := (λ ws, <[Z.to_nat (b / 32) := put_bit v (words m !!! Z.to_nat (b / 32)) b]> ws) <$> bm_base m |}.

Lemma put_bit_range v w b : 0 ≤ w < 2 ^ 32 → 0 ≤ put_bit v w b < 2 ^ 32.
Proof.
  intros Hw. pose proof (Z.mod_pos_bound b 32 eq_refl).
  assert (H0 : 0 ≤ put_bit v w b).
  { unfold put_bit, mask. destruct v; [apply Z.lor_nonneg|apply Z.ldiff_nonneg; left]; rewrite ?Z.shiftl_nonneg; lia. }
  split; [done|]. apply Z.nle_gt. intros Hge.
  assert (32 ≤ Z.log2 (put_bit v w b)) as Hlog by (apply Z.log2_le_pow2; lia).
  pose proof (Z.bit_log2 (put_bit v w b) ltac:(lia)) as Hbit. rewrite put_bit_testbit in Hbit by lia.
  case_decide; [lia|]. destruct (decide (w = 0)) as [->|]; [by rewrite Z.bits_0 in Hbit|].
  rewrite Z.bits_above_log2 in Hbit; [done|lia|]. apply Z.log2_lt_pow2; [lia|].
  eapply Z.lt_le_trans; [apply Hw|]. apply Z.pow_le_mono_r; lia.
Qed.
Lemma div_mod_inj i b : i / 32 = b / 32 → i `mod` 32 = b `mod` 32 → i = b.
Proof. intros H1 H2. rewrite (Z.div_mod i 32), (Z.div_mod b 32) by done. congruence. Qed.
Lemma stored_ok v b m : bitmap_ok m → 0 ≤ b < nbits m → bitmap_ok (stored v b m) ∧
  ∀ i, 0 ≤ i → bits (stored v b m) i = if decide (i = b) then v else bits m i.
Proof.
  intros Hm Hb. pose proof (words_base _ Hm) as Eb. pose proof (word_lookup _ Hm _ Hb) as Hl.
  assert (Ew : words (stored v b m) = <[Z.to_nat (b / 32) := put_bit v (words m !!! Z.to_nat (b / 32)) b]> (words m)).
  { unfold stored, words at 1. simpl. by rewrite Eb. }
  split.
  - destruct Hm as [H1 H2 H3 H4]. split; [|done|simpl; by rewrite Ew, length_insert|].
    + unfold stored. simpl. by rewrite Eb.
    + rewrite Ew. apply Forall_insert; [done|]. apply put_bit_range. rewrite Forall_lookup in H4. by eapply H4.
  - intros i Hi. unfold bits. rewrite Ew. pose proof (Z.div_pos i 32). pose proof (Z.div_pos b 32).
    destruct (decide (i / 32 = b / 32)) as [E|E].
    + rewrite E, list_lookup_total_insert_eq by by eapply lookup_lt_Some. pose proof (Z.mod_pos_bound i 32 eq_refl).
      rewrite put_bit_testbit by lia. case_decide as Em; case_decide as Ei; try done.
      * destruct Ei. by apply div_mod_inj.
      * by subst.
    + rewrite list_lookup_total_insert_ne by lia. rewrite decide_False; [done|]. by intros ->.
Qed.
Lemma wp_put_loop v n b (Q : unit → bitmap → Prop) m : bitmap_ok m →
  0 ≤ b → b + Z.of_nat n ≤ nbits m →
  (∀ m', bitmap_ok m' → bm_size m' = bm_size m → bm_lock m' = bm_lock m →
     (∀ i, 0 ≤ i → bits m' i = if decide (b ≤ i < b + Z.of_nat n) then v else bits m i) → Q tt m') →
  wp (put_loop v n b) Q m.
Proof.
  revert b m. induction n as [|n IH]; intros b m Hm Hb Hn HQ; cbn [put_loop].
  { apply wp_ret, HQ; [done..|]. intros i Hi. rewrite decide_False by lia. done. }
  apply wp_bind, wp_rd_word; [done|lia|]. apply wp_bind.
  destruct (stored_ok v b m) as [Hm' Hbits]; [done|lia|].
  eapply (wp_eq _ _ _ tt (stored v b m)).
  { unfold wr_word, stored. rewrite words_base by done. rewrite decide_True; [done|].
    eapply lookup_lt_Some, word_lookup; [done|lia]. }
  apply IH; [done|lia|unfold nbits in *; simpl; lia|]. intros m' ? Es El Hb'. apply HQ; [done..|].
  intros i Hi. rewrite Hb' by done. repeat case_decide; try (done || lia); rewrite Hbits by done;
    repeat case_decide; try (done || lia).
Qed.

(** The assertions hold for the callers' arguments. *)
Section asserts.
Context (m : bitmap) (Hm : bitmap_ok m).

Lemma wp_assert_bitmap (Q : unit → bitmap → Prop) : Q tt m → wp assert_bitmap Q m.
Proof using Hm.
  intros HQ. destruct Hm as [H1 H2 H3 H4]. unfold assert_bitmap. wp_go.
  - apply bool_decide_eq_true. split; [done|lia].
  - apply bool_decide_eq_true. lia.
  - done.
Qed.
Lemma wp_assert_bit b (Q : unit → bitmap → Prop) : 0 ≤ b < nbits m → Q tt m → wp (assert_bit b) Q m.
Proof using Hm.
  intros Hb HQ. unfold assert_bit. apply wp_bind, wp_assert_bitmap. destruct Hm as [H1 H2 H3 H4]. wp_go.
  - apply bool_decide_eq_true. lia.
  - apply bool_decide_eq_true. assert (BITMAP_MAX = 2 ^ 27) by done. unfold nbits in *.
    rewrite Z.quot_div_nonneg by lia. rewrite H3, Z.mul_comm, Z.div_mul, i32_small by lia.
    apply Z.div_lt_upper_bound; lia.
  - done.
Qed.
Lemma wp_assert_cluster b n (Q : unit → bitmap → Prop) :
  0 ≤ b → 0 < n → b + n ≤ nbits m → Q tt m → wp (assert_cluster b n) Q m.
Proof using Hm.
  intros Hb Hn Hbn HQ. unfold assert_cluster. apply wp_bind, wp_assert_bit; [lia|]. pose proof (bo_size _ Hm).
  assert (BITMAP_MAX = 2 ^ 27) by done. unfold nbits in *. wp_go.
  - apply bool_decide_eq_true. lia.
  - apply bool_decide_eq_true. rewrite (i32_small (bm_size m)), !i32_small by lia. lia.
  - done.
Qed.
Lemma wp_assert_locked (Q : unit → bitmap → Prop) : bm_lock m = true → Q tt m → wp assert_locked Q m.
Proof using Hm.
  intros Hl HQ. unfold assert_locked, bitmap_try_lock. do 2 apply wp_bind. apply wp_assert_bitmap. by wp_go.
Qed.
End asserts.

(** What storing [v] in the [n] bits from [b] makes of [m]. *)
Definition put_to (v : bool) (b n : Z) (m m' : bitmap) : Prop :=
  bitmap_ok m' ∧ bm_size m' = bm_size m ∧ bm_lock m' = bm_lock m ∧
  ∀ i, 0 ≤ i → bits m' i = if decide (b ≤ i < b + n) then v else bits m i.

Lemma wp_bitmap_put v b n m : bitmap_ok m → bm_lock m = true → 0 ≤ b → 0 < n → b + n ≤ nbits m →
  wp (bitmap_put v b n) (λ r m', (r = 0 ∧ cluster m (negb v) b n ∧ put_to v b n m m') ∨
                                 (r = - EALREADY ∧ ¬ cluster m (negb v) b n ∧ m' = m)) m.
Proof.
  intros Hm Hl Hb Hn Hbn. unfold bitmap_put. apply wp_bind, wp_assert_cluster; [done..|].
  apply wp_bind, wp_assert_locked; [done..|].
  apply wp_bind, wp_test_loop; [done|done|lia|rewrite Z2Nat.id by lia..].
  - intros Hc. apply wp_bind, wp_put_loop; [done..|lia|]. rewrite Z2Nat.id by lia. intros m' ? ? ? ?.
    apply wp_ret. left. unfold put_to. auto 10.
  - intros i Hi Hne. apply wp_ret. right. split_and!; [done| |done]. intros Hc. by apply Hne, Hc.
Qed.
Lemma wp_bitmap_first v b n m : bitmap_ok m → bm_lock m = true → 0 ≤ b → 0 < n → b + n ≤ nbits m →
  wp (bitmap_first v b n) (λ r m', m' = m ∧
    ((b ≤ r ∧ r + n ≤ nbits m ∧ cluster m v r n ∧ ∀ i, b ≤ i < r → ¬ cluster m v i n) ∨
     (r = - ENOENT ∧ ∀ i, b ≤ i → i + n ≤ nbits m → ¬ cluster m v i n))) m.
Proof.
  intros Hm Hl Hb Hn Hbn. unfold bitmap_first. apply wp_bind, wp_assert_cluster; [done..|].
  apply wp_bind, wp_assert_locked; [done..|]. apply wp_bind, wp_gets.
  apply wp_first_loop; [done|lia|lia|unfold nbits in *; lia|by auto 6|by auto].
Qed.

Lemma wp_bitmap_init m pattern : bitmap_ok m → bm_lock m = false → 0 ≤ pattern < 2 ^ 32 →
  wp (bitmap_init pattern) (λ r m', r = 0 ∧ bitmap_ok m' ∧ bm_size m' = bm_size m ∧ bm_lock m' = false ∧
    ∀ b, 0 ≤ b < nbits m → bits m' b = Z.testbit pattern (b `mod` 32)) m.
Proof.
  intros Hm Hl Hp. pose proof Hm as [H1 H2 H3 H4]. pose proof (words_base _ Hm) as Eb.
  set (m' := {| m with bm_base := Some (replicate (length (words m)) pattern) |}).
  assert (Hm' : bitmap_ok m').
  { split; [done..| |]; change (words m') with (replicate (length (words m)) pattern).
    - by rewrite length_replicate.
    - by apply Forall_replicate. }
  apply wp_mono with (P := λ r m1, r = 0 ∧ m1 = m').
  -     unfold bitmap_init, bitmap_lock, bitmap_unlock. apply wp_bind, wp_assert_bitmap; [done|].
    do 2 apply wp_bind. apply wp_assert_bitmap; [done|]. wp_go. set (m1 := Bitmap _ _ _).
    assert (m1 = {| m' with bm_lock := true |}) as ->.
    { subst m1 m'. rewrite Eb. simpl. do 2 f_equal. rewrite H3, Z.mul_comm, Z.div_mul, Nat2Z.id, drop_all by done.
      by rewrite app_nil_r. }
    apply wp_assert_bitmap; [by destruct Hm'|]. wp_go. split; [done|]. subst m'. by rewrite Hl.
  - intros ? ? [-> ->]. split_and!; [done..|]. intros b Hb. unfold bits. f_equal.
    change (words m') with (replicate (length (words m)) pattern). rewrite list_lookup_total_alt, lookup_replicate_2; [done|].
    by eapply lookup_lt_Some, word_lookup.
Qed.

(** ** Properties *)

(** [bitmap_set] and [bitmap_unset] of a cluster inside the map: when no bit of the
    cluster is in the wanted state already they return 0, the bits of the cluster and
    only these have changed; otherwise they return [-EALREADY] and change nothing. *)
Theorem bitmap_set_correct (v : bool) m b n : bitmap_ok m → bm_lock m = true → 0 ≤ b → 0 < n → b + n ≤ nbits m →
  ∃ r m', (if v then bitmap_set else bitmap_unset) b n m = Ok (r, m') ∧
    ((r = 0 ∧ cluster m (negb v) b n ∧ put_to v b n m m') ∨
     (r = - EALREADY ∧ ¬ cluster m (negb v) b n ∧ m' = m)).
Proof. intros. apply wp_exec. destruct v; by apply wp_bitmap_put. Qed.

(** [bitmap_first_set] and [bitmap_first_unset] return the lowest position from which
    [n] bits are all set (unset), although they skip what the inner loop has looked at;
    [-ENOENT] exactly when there is none. *)
Theorem bitmap_first_correct (v : bool) m b n : bitmap_ok m → bm_lock m = true → 0 ≤ b → 0 < n → b + n ≤ nbits m →
  ∃ r, (if v then bitmap_first_set else bitmap_first_unset) b n m = Ok (r, m) ∧
    ((b ≤ r ∧ r + n ≤ nbits m ∧ cluster m v r n ∧ ∀ i, b ≤ i < r → ¬ cluster m v i n) ∨
     (r = - ENOENT ∧ ∀ i, b ≤ i → i + n ≤ nbits m → ¬ cluster m v i n)).
Proof.
  intros. pose proof (wp_bitmap_first v b n m) as (r & m' & ? & -> & ?)%wp_exec; [|done..].
  exists r. by destruct v.
Qed.

(** [bitmap_unset] undoes [bitmap_set]. *)
Theorem bitmap_set_unset m b n m1 : bitmap_ok m → bm_lock m = true → 0 ≤ b → 0 < n → b + n ≤ nbits m →
  bitmap_set b n m = Ok (0, m1) →
  ∃ m2, bitmap_unset b n m1 = Ok (0, m2) ∧ ∀ i, 0 ≤ i → bits m2 i = bits m i.
Proof.
  intros Hm Hl Hb Hn Hbn E. pose proof (wp_bitmap_put true b n m) as (r & m' & E' & H)%wp_exec; [|done..].
  unfold bitmap_set in E. rewrite E in E'. simplify_eq. destruct H as [(_ & Hc & Hm1 & Hs & Hl1 & Hb1)|(? & _)]; [|done].
  pose proof (wp_bitmap_put false b n m') as (r & m2 & E2 & H)%wp_exec; [|done|congruence|done..|unfold nbits in *; by rewrite Hs].
  destruct H as [(-> & _ & _ & _ & _ & Hb2)|(_ & Hno & _)].
  - exists m2. split; [done|]. intros i Hi. rewrite Hb2, Hb1 by done. case_decide; [|done]. symmetry. by apply Hc.
  - destruct Hno. intros i Hi. rewrite Hb1 by lia. by rewrite decide_True.
Qed.

(** After [bitmap_init] every bit of the map is that of the pattern, and the lock is free. *)
Theorem bitmap_init_correct m pattern : bitmap_ok m → bm_lock m = false → 0 ≤ pattern < 2 ^ 32 →
  ∃ m', bitmap_init pattern m = Ok (0, m') ∧ bitmap_ok m' ∧ bm_lock m' = false ∧
    ∀ b, 0 ≤ b < nbits m → bits m' b = Z.testbit pattern (b `mod` 32).
Proof.
  intros. pose proof (wp_bitmap_init m pattern) as (? & m' & ? & -> & ? & _ & ? & ?)%wp_exec; [|done..]. by exists m'.
Qed.

(** ** Applications: two words *)

Definition bitmap_demo : bitmap := Bitmap (Some [0x80000001; 0]) 8 true.
Lemma bitmap_demo_ok : bitmap_ok bitmap_demo.
Proof. split; [done..|]. by repeat constructor. Qed.
Lemma bitmap_set_correct_witness : ∃ r m', bitmap_set 30 4 bitmap_demo = Ok (r, m') ∧
  ((r = 0 ∧ cluster bitmap_demo false 30 4 ∧ put_to true 30 4 bitmap_demo m') ∨
   (r = - EALREADY ∧ ¬ cluster bitmap_demo false 30 4 ∧ m' = bitmap_demo)).
Proof. by apply (bitmap_set_correct true bitmap_demo 30 4 bitmap_demo_ok). Defined.
Lemma bitmap_first_correct_witness : ∃ r, bitmap_first_unset 0 32 bitmap_demo = Ok (r, bitmap_demo) ∧ r = 32.
Proof.
  destruct (bitmap_first_correct false bitmap_demo 0 32 bitmap_demo_ok) as (r & E & _); [done..|].
  exists r. split; [done|]. by vm_compute in E; simplify_eq.
Defined.
Lemma bitmap_set_unset_witness : ∃ m2, bitmap_unset 32 8 (Bitmap (Some [0x80000001; 0xFF]) 8 true) = Ok (0, m2) ∧
  ∀ i, 0 ≤ i → bits m2 i = bits bitmap_demo i.
Proof. by apply (bitmap_set_unset bitmap_demo 32 8 _ bitmap_demo_ok). Defined.
Lemma bitmap_init_correct_witness : ∃ m', bitmap_init 0xFFFFFFFF {| bitmap_demo with bm_lock := false |} = Ok (0, m') ∧
  bitmap_ok m' ∧ bm_lock m' = false ∧ ∀ b, 0 ≤ b < 64 → bits m' b = Z.testbit 0xFFFFFFFF (b `mod` 32).
Proof.
  apply (bitmap_init_correct {| bitmap_demo with bm_lock := false |} 0xFFFFFFFF); [|done..].
  by destruct bitmap_demo_ok.
Defined.
