(* ===== verification/Pmm.v ===== *)
(** * Page frames ([kernel/mm/pmm/pmm.c])

    The bitmap allocator of physical pages with its table of reference counts.  Bit
    [f] of the bitmap says that frame [f] is in use, [frames f] how often. *)
From S2P Require Import Prelude Bitmap.

Definition MAXFRAMES : Z := 0x100000.

Record pmm : Type := Pmm {
  p_bitmap : bitmap;
  frames : Z → Z;
  frameslk : bool;
  maxblocks : Z;
  usedblocks : Z;
}.
#[global] Instance pmm_has_lock : Lock pmm := {|
  held := frameslk;
  set_held b s := {| s with frameslk := b |};
|}.
Definition on_bitmap {A} : M bitmap A → M pmm A := zoom p_bitmap (λ b s, {| s with p_bitmap := b |}).

Definition frames_lock : M pmm unit := spin_lock.
Definition frames_unlock : M pmm unit := spin_unlock.
(** The assertions of [frames_incr] and its sisters. *)
Definition assert_frame (f : Z) : M pmm unit :=
  kassert (bool_decide (f < MAXFRAMES ∧ 0 ≤ f));;
  b ← spin_trylock; kassert (negb b).
Definition frames_add (f d : Z) : M pmm Z :=
  assert_frame f;;
  r ← gets (λ s, frames s f);
  modify (λ s, {| s with frames := <[f := i32 (r + d)]> (frames s) |});;
  mret r.
(** Both return the count before the change. *)
Definition frames_incr (f : Z) : M pmm Z := frames_add f 1.
Definition frames_decr (f : Z) : M pmm Z := frames_add f (-1).
Definition frames_get_refs (f : Z) : M pmm Z := assert_frame f;; gets (λ s, frames s f).

(** [for (bit = from; bit < to; ++bit) frames_decr(bit)] *)
Fixpoint decr_loop (n : nat) (bit : Z) : M pmm unit :=
  match n with O => mret tt | S n' => frames_decr bit;; decr_loop n' (bit + 1) end.

(** What [pmm_init] does first: every frame is in use. *)
Definition pmm_reserve : M pmm unit :=
  on_bitmap (bitmap_init (2 ^ 32 - 1));;
  modify (λ s, {| s with frames := λ _, 1 |}).
(** What [pmm_init] does for the available memory at 1 MiB, [mmsize] bytes of it. *)
Definition pmm_release (mmsize pmemsize : Z) : M pmm unit :=
  let addr := 0x1000000 in
  let size := u32 (mmsize - addr) in
  on_bitmap bitmap_lock;;
  frames_lock;;
  on_bitmap (bitmap_unset (addr / PAGESZ) (size / PAGESZ));;
  decr_loop (Z.to_nat (size / PAGESZ - addr / PAGESZ)) (addr / PAGESZ);;
  modify (λ s, {| s with maxblocks := pmemsize / 4; usedblocks := addr / PAGESZ |});;
  frames_unlock;;
  on_bitmap bitmap_unlock.

Definition pmm_alloc : M pmm Z :=
  on_bitmap bitmap_lock;;
  frames_lock;;
  bit ← on_bitmap (bitmap_first_unset 0 1);
  if bool_decide (bit < 0) then
    frames_unlock;; on_bitmap bitmap_unlock;; mret 0
  else
    on_bitmap (bitmap_set bit 1);;
    frames_incr bit;;
    modify (λ s, {| s with usedblocks := u32 (usedblocks s + 1) |});;
    frames_unlock;;
    on_bitmap bitmap_unlock;;
    mret (u32 (bit * PAGESZ)).

Definition pmm_free (addr : Z) : M pmm unit :=
  let bit := addr / PAGESZ in
  if bool_decide (addr < 0x100000) then mret tt else
  on_bitmap bitmap_lock;;
  frames_lock;;
  ret ← frames_decr bit;
  if bool_decide (ret ≤ 0) then panic
  else if bool_decide (1 < ret) then frames_unlock;; on_bitmap bitmap_unlock
  else
    modify (λ s, {| s with usedblocks := u32 (usedblocks s - 1) |});;
    on_bitmap (bitmap_unset bit 1);;
    frames_unlock;;
    on_bitmap bitmap_unlock.

Definition pmm_mem_used : M pmm Z :=
  on_bitmap bitmap_lock;;
  z ← gets (λ s, u32 (usedblocks s * PAGESZ) / 1024);
  on_bitmap bitmap_unlock;;
  mret z.
Definition pmm_mem_free : M pmm Z :=
  on_bitmap bitmap_lock;;
  z ← gets (λ s, u32 ((maxblocks s - usedblocks s) * PAGESZ) / 1024);
  on_bitmap bitmap_unlock;;
  mret z.

#[global] Arguments on_bitmap {A} m : simpl never.
#[global] Arguments frames_add f d : simpl never.
#[global] Arguments pmm_alloc : simpl never.
#[global] Arguments pmm_free addr : simpl never.

(** ** The invariant *)

Record pmm_ok (s : pmm) : Prop := PmmOk {
  po_bitmap : bitmap_ok (p_bitmap s);
  po_nbits : nbits (p_bitmap s) = MAXFRAMES;
  po_block : bm_lock (p_bitmap s) = false;
  po_flock : frameslk s = false;
  po_refs : ∀ f, 0 ≤ f < MAXFRAMES → 0 ≤ frames s f < 2 ^ 31;
  po_used : ∀ f, 0 ≤ f < MAXFRAMES → bits (p_bitmap s) f = bool_decide (0 < frames s f);
}.

Lemma wp_on_bitmap {A} (m : M bitmap A) (Q : A → pmm → Prop) s :
  wp m (λ a b, Q a {| s with p_bitmap := b |}) (p_bitmap s) → wp (on_bitmap m) Q s.
Proof. intros. by apply wp_zoom. Qed.

Definition with_lock (b : bitmap) (l : bool) : bitmap := {| b with bm_lock := l |}.
Lemma ok_with_lock b l : bitmap_ok b → bitmap_ok (with_lock b l).
Proof. intros []. by split. Qed.
Lemma bits_with_lock b l i : bits (with_lock b l) i = bits b i.
Proof. done. Qed.

Lemma wp_bitmap_lock (Q : unit → bitmap → Prop) b :
  bitmap_ok b → bm_lock b = false → Q tt (with_lock b true) → wp bitmap_lock Q b.
Proof. intros. unfold bitmap_lock. apply wp_bind, wp_assert_bitmap; [done|]. by wp_go. Qed.
Lemma wp_bitmap_unlock (Q : unit → bitmap → Prop) b :
  bitmap_ok b → bm_lock b = true → Q tt (with_lock b false) → wp bitmap_unlock Q b.
Proof. intros. unfold bitmap_unlock. apply wp_bind, wp_assert_bitmap; [done|]. by wp_go. Qed.

Lemma wp_frames_add f d (Q : Z → pmm → Prop) s : 0 ≤ f < MAXFRAMES → frameslk s = true →
  Q (frames s f) {| s with frames := <[f := i32 (frames s f + d)]> (frames s) |} → wp (frames_add f d) Q s.
Proof.
  intros Hf Hl HQ. unfold frames_add, assert_frame. wp_go; [apply bool_decide_eq_true; lia|done].
Qed.

(** Leaving the two critical sections. *)
Lemma wp_leave_unit (Q : unit → pmm → Prop) s :
  bitmap_ok (p_bitmap s) → bm_lock (p_bitmap s) = true → frameslk s = true →
  Q tt {| s with p_bitmap := with_lock (p_bitmap s) false; frameslk := false |} →
  wp (frames_unlock;; on_bitmap bitmap_unlock) Q s.
Proof. intros. unfold frames_unlock. wp_go. by apply wp_on_bitmap, wp_bitmap_unlock. Qed.
Lemma wp_leave {A} (a : A) (Q : A → pmm → Prop) s :
  bitmap_ok (p_bitmap s) → bm_lock (p_bitmap s) = true → frameslk s = true →
  Q a {| s with p_bitmap := with_lock (p_bitmap s) false; frameslk := false |} →
  wp (frames_unlock;; on_bitmap bitmap_unlock;; mret a) Q s.
Proof.
  intros. unfold frames_unlock. wp_go. apply wp_on_bitmap, wp_bitmap_unlock; [done..|]. by wp_go.
Qed.

(** Frame [f] becomes used once more, or less. *)
Lemma pmm_ok_set s f b used r :
  pmm_ok s → bitmap_ok b → nbits b = MAXFRAMES → 0 ≤ r < 2 ^ 31 →
  (∀ i, 0 ≤ i → bits b i = if decide (i = f) then bool_decide (0 < r) else bits (p_bitmap s) i) →
  pmm_ok {| s with p_bitmap := with_lock b false; frames := <[f := r]> (frames s); frameslk := false; usedblocks := used |}.
Proof.
  intros [H1 H2 H3 H4 H5 H6] Hb Hn Hr Hbits. split; simpl; try done.
  - by apply ok_with_lock.
  - intros g Hg. destruct (decide (g = f)) as [->|]; [by rewrite fn_lookup_insert|]. rewrite fn_lookup_insert_ne by done. auto.
  - intros g Hg. rewrite bits_with_lock, Hbits by lia. destruct (decide (g = f)) as [->|]; [by rewrite fn_lookup_insert|].
    rewrite fn_lookup_insert_ne by done. auto.
Qed.

Lemma wp_pmm_alloc (Q : Z → pmm → Prop) s : pmm_ok s →
  (∀ s', (∀ f, 0 ≤ f < MAXFRAMES → 0 < frames s f) → pmm_ok s' → (∀ f, frames s' f = frames s f) → Q 0 s') →
  (∀ f s', 0 ≤ f < MAXFRAMES → frames s f = 0 → (∀ g, 0 ≤ g < f → 0 < frames s g) →
     pmm_ok s' → frames s' = <[f := 1]> (frames s) → Q (f * PAGESZ) s') →
  wp pmm_alloc Q s.
Proof.
  intros Hs HQ1 HQ2. pose proof Hs as [H1 H2 H3 H4 H5 H6]. unfold pmm_alloc, frames_lock.
  apply wp_bind, wp_on_bitmap, wp_bitmap_lock; [done..|]. wp_go. apply wp_on_bitmap.
  assert (Hb1 := ok_with_lock _ true H1).
  eapply wp_mono; [apply wp_bitmap_first; [done..|]; change (nbits _) with (nbits (p_bitmap s)); by rewrite H2|].
  simpl. change (nbits (with_lock _ _)) with (nbits (p_bitmap s)). rewrite H2.
  assert (Hfree : ∀ f, 0 ≤ f < MAXFRAMES → ¬ cluster (with_lock (p_bitmap s) true) false f 1 → 0 < frames s f).
  { intros f Hf Hc. destruct (decide (0 < frames s f)); [done|]. destruct Hc. intros i Hi. replace i with f by lia.
    rewrite bits_with_lock, H6 by done. by apply bool_decide_eq_false. }
  intros r b' [-> [(Hr & Hrn & Hc & Hlow)|[-> Hno]]].
  - rewrite bool_decide_false by lia. wp_go. apply wp_on_bitmap.
    eapply wp_mono; [apply wp_bitmap_put; [done..|change (nbits _) with (nbits (p_bitmap s)); lia]|].
    intros r' b2 [(-> & _ & Hb2 & Hsz & Hlk & Hbits)|(_ & Hno & _)]; [|done]. simpl in *.
    unfold frames_incr. apply wp_bind, wp_frames_add; [simpl; lia|done|]. simpl. apply wp_bind, wp_modify.
    apply (wp_leave (u32 (r * PAGESZ))); [done..|]. simpl.
    assert (Hr0 : frames s r = 0).
    { specialize (Hc r ltac:(lia)). rewrite bits_with_lock, H6 in Hc by lia. apply bool_decide_eq_false in Hc.
      pose proof (H5 r). lia. }
    rewrite u32_small by (unfold MAXFRAMES, PAGESZ in *; lia). apply HQ2; [lia|done| | |]; simpl.
    + intros g Hg. apply Hfree; [lia|]. apply Hlow. lia.
    + rewrite Hr0. eapply (pmm_ok_set s); [done|done|by unfold nbits in *; rewrite Hsz|done|].
      intros i Hi. rewrite Hbits by done. rewrite bool_decide_true by done. repeat case_decide; (done || lia).
    + by rewrite Hr0.
  - rewrite bool_decide_true by done. apply (wp_leave 0); [done..|]. apply HQ1; simpl.
    + intros f Hf. apply Hfree; [done|]. apply Hno; lia.
    + by split; simpl; try done; apply ok_with_lock.
    + done.
Qed.

Lemma wp_pmm_free addr (Q : unit → pmm → Prop) s : pmm_ok s → 0x100000 ≤ addr < 2 ^ 32 →
  0 < frames s (addr / PAGESZ) →
  (∀ s', pmm_ok s' → frames s' = <[addr / PAGESZ := frames s (addr / PAGESZ) - 1]> (frames s) → Q tt s') →
  wp (pmm_free addr) Q s.
Proof.
  intros Hs Ha Hr HQ. pose proof Hs as [H1 H2 H3 H4 H5 H6]. set (f := addr / PAGESZ) in *.
  assert (Hf : 0 ≤ f < MAXFRAMES).
  { subst f. split; [apply Z.div_pos; (done || lia)|]. apply Z.div_lt_upper_bound; [done|]. unfold PAGESZ, MAXFRAMES. lia. }
  unfold pmm_free, frames_lock. rewrite bool_decide_false by lia. fold f.
  apply wp_bind, wp_on_bitmap, wp_bitmap_lock; [done..|]. wp_go.
  unfold frames_decr. apply wp_frames_add; [done..|]. simpl. pose proof (H5 f Hf) as Hrf.
  rewrite bool_decide_false, i32_small by lia. case_bool_decide as Hgt.
  - apply wp_leave_unit; [by apply ok_with_lock|done..|]. apply HQ; [|done]. simpl.
    eapply (pmm_ok_set s); [done|by apply ok_with_lock|done|lia|]. intros i Hi.
    rewrite bits_with_lock. case_decide as E; [subst i|done]. rewrite H6 by done.
    by rewrite !bool_decide_true by lia.
  - assert (Hrf1 : frames s f = 1) by lia. apply wp_bind, wp_modify. apply wp_bind, wp_on_bitmap. simpl.
    eapply wp_mono; [apply wp_bitmap_put; [by apply ok_with_lock|done|lia|done|]|].
    { change (nbits _) with (nbits (p_bitmap s)). lia. }
    intros r b [(-> & _ & Hb & Hsz & Hlk & Hbits)|(_ & Hno & _)].
    + apply wp_leave_unit; [done..|]. apply HQ; [|done]. simpl.
      eapply (pmm_ok_set s); [done|done|by unfold nbits in *; rewrite Hsz|lia|].
      intros i Hi. rewrite Hbits by done. rewrite (bool_decide_false (0 < _)) by lia. repeat case_decide; (done || lia).
    + destruct Hno. intros i Hi. replace i with f by lia. rewrite bits_with_lock, H6 by done. by rewrite bool_decide_true.
Qed.

(** ** Boot *)

Lemma wp_decr_loop n b (Q : unit → pmm → Prop) s : frameslk s = true → 0 ≤ b → b + Z.of_nat n ≤ MAXFRAMES →
  (∀ s', p_bitmap s' = p_bitmap s → frameslk s' = true →
     (∀ f, frames s' f = if decide (b ≤ f < b + Z.of_nat n) then i32 (frames s f - 1) else frames s f) → Q tt s') →
  wp (decr_loop n b) Q s.
Proof.
  revert b s. induction n as [|n IH]; intros b s Hl Hb Hn HQ; cbn [decr_loop].
  { apply wp_ret, HQ; [done..|]. intros f. rewrite decide_False by lia. done. }
  apply wp_bind. unfold frames_decr. apply wp_frames_add; [lia|done|]. apply IH; [done|lia..|]. simpl.
  intros s' Eb Hl' Hf. apply HQ; [done..|]. intros f. rewrite Hf. destruct (decide (f = b)) as [->|].
  - rewrite !fn_lookup_insert. rewrite decide_False, decide_True by lia. done.
  - rewrite !fn_lookup_insert_ne by done. repeat case_decide; (done || lia).
Qed.

(** The state of the module before [pmm_init]. *)
Definition pmm_boot : pmm := Pmm (Bitmap (Some (replicate (Z.to_nat 32768) 0)) 131072 false) (λ _, 0) false 0 0.
Lemma pmm_boot_ok : bitmap_ok (p_bitmap pmm_boot).
Proof.
  split; [done..| |]; change (words _) with (replicate (Z.to_nat 32768) 0).
  - by rewrite length_replicate, Z2Nat.id.
  - by apply Forall_replicate.
Qed.

(** ** Properties *)

(** [pmm_alloc] returns the lowest free frame, which is then in use once; it returns 0
    and changes no count when every frame is in use. *)
Theorem pmm_alloc_correct s : pmm_ok s →
  ∃ r s', pmm_alloc s = Ok (r, s') ∧ pmm_ok s' ∧
    ((∃ f, r = f * PAGESZ ∧ 0 ≤ f < MAXFRAMES ∧ frames s f = 0 ∧ (∀ g, 0 ≤ g < f → 0 < frames s g) ∧
           frames s' = <[f := 1]> (frames s)) ∨
     (r = 0 ∧ (∀ f, 0 ≤ f < MAXFRAMES → 0 < frames s f) ∧ ∀ f, frames s' f = frames s f)).
Proof.
  intros Hs. apply wp_exec, wp_pmm_alloc; [done|..].
  - intros. split; [done|]. by right.
  - intros f s' ? ? ? ? ?. split; [done|]. left. by exists f.
Qed.

(** [pmm_free] of an address above 1 MiB takes one reference off its frame; the frame is
    free again when that was the last one.  The invariant is kept. *)
Theorem pmm_free_correct s addr : pmm_ok s → 0x100000 ≤ addr < 2 ^ 32 → 0 < frames s (addr / PAGESZ) →
  ∃ s', pmm_free addr s = Ok (tt, s') ∧ pmm_ok s' ∧
    frames s' = <[addr / PAGESZ := frames s (addr / PAGESZ) - 1]> (frames s).
Proof.
  intros. assert (wp (pmm_free addr) (λ _ s', pmm_ok s' ∧
    frames s' = <[addr / PAGESZ := frames s (addr / PAGESZ) - 1]> (frames s)) s) as ([] & s' & ? & ?)%wp_exec; [|by exists s'].
  by apply wp_pmm_free.
Qed.

(** What [pmm_init] leaves for [mmsize] bytes of memory at 1 MiB.  The frames from 16 MiB
    on are free in the bitmap, but the loop over their counts stops 4096 frames early: the
    last free frames keep the count 1 of a frame in use, so [pmm_alloc] makes it 2 and
    [pmm_free] never frees them. *)
Theorem pmm_init_counts mmsize pmemsize : 0x1001000 ≤ mmsize < 2 ^ 32 →
  let n := (mmsize - 0x1000000) / PAGESZ in
  ∃ s, (pmm_reserve;; pmm_release mmsize pmemsize) pmm_boot = Ok (tt, s) ∧
    ∀ f, 0 ≤ f < MAXFRAMES →
      bits (p_bitmap s) f = negb (bool_decide (0x1000 ≤ f < 0x1000 + n)) ∧
      frames s f = if decide (0x1000 ≤ f < n) then 0 else 1.
Proof.
  intros Hm n. assert (Hn : 0 < n ∧ 0x1000 + n ≤ MAXFRAMES).
  { subst n. unfold MAXFRAMES, PAGESZ. split; [apply Z.div_str_pos; lia|].
    assert ((mmsize - 0x1000000) / 0x1000 < 0xFF001); [|lia]. apply Z.div_lt_upper_bound; lia. }
  pose proof pmm_boot_ok as Hb. assert (Hnb : nbits (p_bitmap pmm_boot) = MAXFRAMES) by done.
  set (P s := ∀ f, 0 ≤ f < MAXFRAMES → bits (p_bitmap s) f = negb (bool_decide (0x1000 ≤ f < 0x1000 + n)) ∧
    frames s f = if decide (0x1000 ≤ f < n) then 0 else 1).
  cut (wp (pmm_reserve;; pmm_release mmsize pmemsize) (λ _ s, P s) pmm_boot).
  { intros ([] & s & ? & ?)%wp_exec. by exists s. }
  apply wp_bind. unfold pmm_reserve. apply wp_bind, wp_on_bitmap.
  eapply wp_mono; [by apply wp_bitmap_init|]. intros r b (-> & Hb1 & Hsz & Hl & Hbits). simpl. apply wp_modify. simpl.
  assert (Hnb1 : nbits b = MAXFRAMES) by (unfold nbits in *; by rewrite Hsz).
  assert (Hones : ∀ i, 0 ≤ i < MAXFRAMES → bits b i = true).
  { intros i Hi. rewrite Hbits by (by rewrite Hnb). apply (Z.ones_spec_low 32). by apply Z.mod_pos_bound. }
  unfold pmm_release, frames_lock. rewrite u32_small by lia. fold n. change (0x1000000 / PAGESZ) with 0x1000.
  apply wp_bind, wp_on_bitmap, wp_bitmap_lock; [done..|]. wp_go. apply wp_on_bitmap. simpl.
  eapply wp_mono; [apply wp_bitmap_put; [by apply ok_with_lock|done|done|lia|by change (nbits _) with (nbits b); rewrite Hnb1; lia]|].
  intros r b2 [(-> & _ & Hb2 & Hsz2 & Hl2 & Hbits2)|(_ & Hno & _)].
  2: { destruct Hno. intros i Hi. rewrite bits_with_lock. apply Hones. lia. }
  simpl in Hl2. wp_go. apply wp_decr_loop; [done|done|lia|]. simpl. intros s2 Eb Hl2' Hf. apply wp_bind, wp_modify.
  apply wp_leave_unit; simpl; [by rewrite Eb|by rewrite Eb|done|]. intros f Hfr. simpl. rewrite Eb, Hf. split.
  - rewrite bits_with_lock, Hbits2, bits_with_lock, Hones by lia. case_decide.
    + by rewrite bool_decide_true by done.
    + by rewrite bool_decide_false by done.
  - repeat case_decide; (done || lia).
Qed.

(** ** Applications: no frame in use, and one frame in use twice *)

Lemma pmm_boot_inv : pmm_ok pmm_boot.
Proof.
  split; [apply pmm_boot_ok|done..|]. intros f Hf. rewrite bool_decide_false by done. unfold bits.
  change (words _) with (replicate (Z.to_nat 32768) 0). rewrite list_lookup_total_alt, lookup_replicate_2; [apply Z.bits_0|].
  apply Nat2Z.inj_lt. rewrite !Z2Nat.id by (try apply Z.div_pos; lia). apply Z.div_lt_upper_bound; [done|].
  unfold MAXFRAMES in *. lia.
Qed.
Definition pmm_demo : pmm :=
  {| pmm_boot with p_bitmap := with_lock (stored true 0x200 (p_bitmap pmm_boot)) false;
                   frames := <[0x200 := 2]> (frames pmm_boot); frameslk := false; usedblocks := 1 |}.
Lemma pmm_demo_inv : pmm_ok pmm_demo.
Proof.
  destruct (stored_ok true 0x200 (p_bitmap pmm_boot)) as [? Hb]; [apply pmm_boot_ok|done|].
  eapply (pmm_ok_set pmm_boot); [apply pmm_boot_inv|done..|]. intros i Hi. rewrite Hb by done. by case_decide.
Qed.
Lemma pmm_alloc_correct_witness : ∃ r s', pmm_alloc pmm_boot = Ok (r, s') ∧ pmm_ok s'.
Proof. destruct (pmm_alloc_correct pmm_boot pmm_boot_inv) as (r & s' & E & Hs & _). exists r, s'. split; [exact E|exact Hs]. Defined.
Lemma pmm_free_correct_witness : ∃ s', pmm_free 0x200000 pmm_demo = Ok (tt, s') ∧ pmm_ok s' ∧ frames s' 0x200 = 1.
Proof.
  destruct (pmm_free_correct pmm_demo 0x200000 pmm_demo_inv) as (s' & E & Hs & Hf); [done..|].
  exists s'. split; [exact E|]. split; [exact Hs|]. by rewrite Hf.
Defined.
Lemma pmm_init_counts_witness : ∃ s, (pmm_reserve;; pmm_release 0x7F00000 0x20000) pmm_boot = Ok (tt, s) ∧
  bits (p_bitmap s) 0x7000 = false ∧ frames s 0x7000 = 1.
Proof.
  destruct (pmm_init_counts 0x7F00000 0x20000) as (s & E & Hf); [done|]. destruct (Hf 0x7000 ltac:(clear; done)) as [Hb Hr].
  exists s. split; [exact E|]. split; [exact Hb|exact Hr].
Defined.
