(* ===== verification/Btree.v ===== *)
(** * Binary search trees ([kernel/ds/btree.c])

    The index of page caches: an unbalanced search tree of heap nodes with parent
    pointers, keyed by [uintptr_t].  [Btree.v] translates the operations; the file
    [BtreeSpec.v] proves that they implement a finite map. *)
From S2P Require Import Prelude.

Record bnode : Type := BNode {
  bn_key : Z;
  bn_data : Z;
  bn_left : ptr;
  bn_parent : ptr;
  bn_right : ptr;
  bn_btree : bool; (* [node->btree] points to the tree *)
}.
Record btree : Type := Btree {
  root : ptr;
  nr_nodes : Z;
  bt_lock : bool;
  bnodes : gmap loc bnode;
}.
#[global] Program Instance btree_heap : Heap btree bnode := {|
  heap_of := bnodes;
  put_heap h s := {| s with bnodes := h |};
|}.
Next Obligation. done. Qed.
Next Obligation. by intros []. Qed.
#[global] Instance btree_has_lock : Lock btree := {|
  held := bt_lock;
  set_held b s := {| s with bt_lock := b |};
|}.

Definition set_left (p : ptr) (n : bnode) : bnode := {| n with bn_left := p |}.
Definition set_right (p : ptr) (n : bnode) : bnode := {| n with bn_right := p |}.
Definition set_parent (p : ptr) (n : bnode) : bnode := {| n with bn_parent := p |}.

Definition btree_free_node (node : ptr) : M btree unit :=
  match node with Some _ => kfree node | None => mret tt end.

Definition btree_isempty : M btree bool :=
  spin_assert_lock;; r ← gets root; mret (bool_decide (r = NULL)).

(** The loop of [btree_insert_node]: it returns [-EEXIST] or runs to the end. *)
Fixpoint insert_loop (fuel : nat) (node parent : ptr) : M btree Z :=
  match fuel with
  | O => nofuel
  | S fuel' =>
      match parent with
      | None => mret 0
      | Some _ =>
          n ← rd node; p ← rd parent;
          if bool_decide (bn_key n < bn_key p) then
            (if bn_left p is None then upd node (set_parent parent);; upd parent (set_left node) else mret tt);;
            insert_loop fuel' node (bn_left p)
          else if bool_decide (bn_key p < bn_key n) then
            (if bn_right p is None then upd node (set_parent parent);; upd parent (set_right node) else mret tt);;
            insert_loop fuel' node (bn_right p)
          else mret (- EEXIST)
      end
  end.
Definition btree_insert_node (node : ptr) : M btree Z :=
  match node with
  | None => mret (- EINVAL)
  | Some _ =>
      spin_assert_lock;;
      upd node (set_parent NULL);;
      empty ← btree_isempty;
      err ← (if (empty : bool) then modify (λ s, {| s with root := node |});; mret 0
             else r ← gets root; fuel ← gets (λ s, size (bnodes s)); insert_loop (S fuel) node r);
      if decide (err = 0) then
        modify (λ s, {| s with nr_nodes := u32 (nr_nodes s + 1) |});;
        upd node (λ n, {| n with bn_btree := true |});;
        mret 0
      else mret err
  end.

(** [node->parent ? node->parent->right == node ? 1 : 0 : 0], and [left]. *)
Definition btree_node_isright (node : ptr) : M btree bool :=
  n ← rd node;
  if bn_parent n is Some _ then p ← rd (bn_parent n); mret (bool_decide (bn_right p = node)) else mret false.
Definition btree_node_isleft (node : ptr) : M btree bool :=
  n ← rd node;
  if bn_parent n is Some _ then p ← rd (bn_parent n); mret (bool_decide (bn_left p = node)) else mret false.

(** [btree->nr_nodes--; btree_insert_node(btree, child)] for a child that is there. *)
Definition reinsert (child : ptr) : M btree unit :=
  match child with
  | None => mret tt
  | Some _ =>
      modify (λ s, {| s with nr_nodes := u32 (nr_nodes s - 1) |});;
      _ ← btree_insert_node child;
      mret tt
  end.
(** The first part of [btree_delete_node]: the link to the node is cleared. *)
Definition unlink_node (node : ptr) (n : bnode) : M btree unit :=
  r ← gets root;
  if decide (node = r) then modify (λ s, {| s with root := NULL |})
  else
    isright ← btree_node_isright node;
    if (isright : bool) then upd (bn_parent n) (set_right NULL)
    else
      isleft ← btree_node_isleft node;
      if (isleft : bool) then upd (bn_parent n) (set_left NULL) else mret tt.

Definition btree_delete_node (node : ptr) : M btree unit :=
  spin_assert_lock;;
  match node with
  | None => mret tt
  | Some _ =>
      n ← rd node;
      unlink_node node n;;
      btree_free_node node;;
      modify (λ s, {| s with nr_nodes := u32 (nr_nodes s - 1) |});;
      reinsert (bn_right n);;
      reinsert (bn_left n)
  end.

(** [for (tmp = root; tmp; tmp = next(tmp)) node = tmp; return node;] *)
Fixpoint last_loop (fuel : nat) (next : bnode → ptr) (node tmp : ptr) : M btree ptr :=
  match fuel with
  | O => nofuel
  | S fuel' =>
      match tmp with
      | None => mret node
      | Some _ => t ← rd tmp; last_loop fuel' next tmp (next t)
      end
  end.
Definition btree_extreme (next : bnode → ptr) : M btree ptr :=
  spin_assert_lock;;
  r ← gets root; fuel ← gets (λ s, size (bnodes s));
  last_loop (S fuel) next NULL r.
Definition btree_least_node : M btree ptr := btree_extreme bn_left.
Definition btree_largest_node : M btree ptr := btree_extreme bn_right.

(** [btree_least] and [btree_largest]: the data of that node. *)
Definition node_data (node : ptr) : M btree (option Z) :=
  match node with None => mret None | Some _ => n ← rd node; mret (Some (bn_data n)) end.
Definition btree_least : M btree (option Z) := node ← btree_least_node; node_data node.
Definition btree_largest : M btree (option Z) := node ← btree_largest_node; node_data node.

Fixpoint lookup_loop (fuel : nat) (key : Z) (node : ptr) : M btree ptr :=
  match fuel with
  | O => nofuel
  | S fuel' =>
      match node with
      | None => mret NULL
      | Some _ =>
          n ← rd node;
          if bool_decide (bn_key n = key) then mret node
          else if bool_decide (key < bn_key n) then lookup_loop fuel' key (bn_left n)
          else lookup_loop fuel' key (bn_right n)
      end
  end.
Definition btree_lookup (key : Z) : M btree ptr :=
  spin_assert_lock;;
  r ← gets root; fuel ← gets (λ s, size (bnodes s));
  lookup_loop (S fuel) key r.

Definition btree_delete (key : Z) : M btree unit :=
  spin_assert_lock;;
  node ← btree_lookup key;
  btree_delete_node node.

(** The error and, when it is 0, what is stored through [pdata]. *)
Definition btree_search (key : Z) : M btree (Z * option Z) :=
  spin_assert_lock;;
  node ← btree_lookup key;
  match node with
  | None => mret (- ENOENT, None)
  | Some _ => n ← rd node; mret (0, Some (bn_data n))
  end.

Section alloc.
Context `{!Kalloc bnode}.
Definition btree_alloc_node : M btree ptr := kmalloc (BNode 0 0 NULL NULL NULL false).
Definition btree_insert (key data : Z) : M btree Z :=
  spin_assert_lock;;
  node ← btree_alloc_node;
  match node with
  | None => mret (- ENOMEM)
  | Some _ =>
      upd node (λ n, {| n with bn_key := key |});;
      upd node (λ n, {| n with bn_data := data |});;
      err ← btree_insert_node node;
      if decide (err = 0) then mret 0 else btree_free_node node;; mret err
  end.
End alloc.

#[global] Arguments btree_free_node node : simpl never.
#[global] Arguments btree_insert_node node : simpl never.
#[global] Arguments btree_node_isright node : simpl never.
#[global] Arguments btree_node_isleft node : simpl never.
#[global] Arguments btree_delete_node node : simpl never.
#[global] Arguments reinsert child : simpl never.
#[global] Arguments btree_extreme next : simpl never.
#[global] Arguments btree_lookup key : simpl never.
#[global] Arguments btree_delete key : simpl never.
#[global] Arguments btree_search key : simpl never.
#[global] Arguments btree_insert {_} key data : simpl never.
#[global] Arguments insert_loop fuel node parent : simpl never.
#[global] Arguments last_loop fuel next node tmp : simpl never.
#[global] Arguments lookup_loop fuel key node : simpl never.
#[global] Arguments unlink_node node n : simpl never.
