(* ===== verification/BtreeSpec.v ===== *)
(** * Search trees implement finite maps

    [tree] is the shape of a search tree with the addresses of its nodes; [owns h pr t]
    says that the heap holds it, with parent pointers.  [btree_rep s m]: the tree of [s]
    represents the map [m], its nodes are the whole heap, and [nr_nodes] counts them. *)
From S2P Require Import Prelude Btree.

Inductive tree : Type :=
| Leaf
| Tree (p : loc) (k d : Z) (l r : tree).

Definition troot (t : tree) : ptr := match t with Leaf => NULL | Tree p _ _ _ _ => Some p end.
Fixpoint locs (t : tree) : list loc := match t with Leaf => [] | Tree p _ _ l r => locs l ++ p :: locs r end.
(** Keys and data in order. *)
Fixpoint flat (t : tree) : list (Z * Z) :=
  match t with Leaf => [] | Tree _ k d l r => flat l ++ (k, d) :: flat r end.

Fixpoint owns (h : gmap loc bnode) (pr : ptr) (t : tree) : Prop :=
  match t with
  | Leaf => True
  | Tree p k d l r =>
      (∃ o, h !! p = Some (BNode k d (troot l) pr (troot r) o)) ∧ owns h (Some p) l ∧ owns h (Some p) r
  end.

Lemma owns_ext h h' pr t : (∀ p, p ∈ locs t → h' !! p = h !! p) → owns h pr t → owns h' pr t.
Proof.
  revert pr. induction t as [|p k d l IHl r IHr]; intros pr Heq; simpl in *; [done|].
  intros ([o Hp] & Hl & Hr). split_and!.
  - exists o. rewrite Heq by set_solver. done.
  - apply IHl; [|done]. intros; apply Heq; set_solver.
  - apply IHr; [|done]. intros; apply Heq; set_solver.
Qed.
Lemma owns_is_Some h pr t p : owns h pr t → p ∈ locs t → is_Some (h !! p).
Proof.
  revert pr. induction t as [|q k d l IHl r IHr]; intros pr; simpl; [set_solver|].
  intros ([o Hq] & Hl & Hr) [?|[->|?]%elem_of_cons]%elem_of_app; eauto.
Qed.
Lemma length_locs t : length (locs t) = length (flat t).
Proof. induction t as [|p k d l IHl r IHr]; simpl; [done|]. rewrite !length_app. simpl. lia. Qed.
Lemma owns_length h pr t : NoDup (locs t) → owns h pr t → (length (locs t) ≤ size h)%nat.
Proof.
  intros Hnd Hl. rewrite <- (size_list_to_set (C := gset loc)) by done.
  rewrite <- size_dom. apply subseteq_size. intros p Hp%elem_of_list_to_set.
  apply elem_of_dom. eauto using owns_is_Some.
Qed.

(** ** Grafting

    [graft k u t] puts the tree [u] where a search for [k] ends, unless it finds [k]. *)
Fixpoint graft (k : Z) (u t : tree) : option tree :=
  match t with
  | Leaf => Some u
  | Tree p k' d l r =>
      if bool_decide (k < k') then (λ l', Tree p k' d l' r) <$> graft k u l
      else if bool_decide (k' < k) then (λ r', Tree p k' d l r') <$> graft k u r
      else None
  end.

Lemma graft_root k u t t' : t ≠ Leaf → graft k u t = Some t' → troot t' = troot t.
Proof. destruct t; simpl; [done|]. intros _. repeat case_bool_decide; intros; simplify_option_eq; done. Qed.
Lemma graft_locs k u t t' : graft k u t = Some t' → locs t' ≡ₚ locs u ++ locs t.
Proof.
  revert t'. induction t as [|p k' d l IHl r IHr]; intros t'; simpl; [intros [= ->]; by rewrite app_nil_r|].
  repeat case_bool_decide; [| |done]; intros (x & ? & ->)%fmap_Some; simpl.
  - rewrite (IHl x) by done. solve_Permutation.
  - rewrite (IHr x) by done. solve_Permutation.
Qed.
(** The place is determined by the keys. *)
Lemma graft_flat k u t t' : graft k u t = Some t' → ∃ l1 l2, flat t = l1 ++ l2 ∧ flat t' = l1 ++ flat u ++ l2 ∧
  (StronglySorted Z.lt (flat t).*1 → (∀ x, x ∈ l1.*1 → x < k) ∧ (∀ x, x ∈ l2.*1 → k < x)).
Proof.
  revert t'. induction t as [|p k' d l IHl r IHr]; intros t'; simpl.
  { intros [= ->]. exists [], []. simpl. rewrite app_nil_r. split_and!; [done..|]. split; set_solver. }
  rewrite fmap_app. csimpl. setoid_rewrite StronglySorted_app. setoid_rewrite StronglySorted_cons.
  setoid_rewrite Forall_forall. repeat case_bool_decide; [| |done]; intros (x & Hx & ->)%fmap_Some; simpl.
  - destruct (IHl x Hx) as (l1 & l2 & -> & -> & Hb). exists l1, (l2 ++ (k', d) :: flat r).
    split_and!; [by rewrite <- !(assoc_L (++))..|]. intros (Hc & Hs & Hr & _). destruct (Hb Hs) as [? ?].
    split; [done|]. intros y. rewrite fmap_app. csimpl. intros [?|[->|Hy]%elem_of_cons]%elem_of_app; [auto..|].
    specialize (Hr y Hy). lia.
  - destruct (IHr x Hx) as (l1 & l2 & -> & -> & Hb). exists (flat l ++ (k', d) :: l1), l2.
    split_and!; [by rewrite <- !(assoc_L (++))..|]. intros (Hc & _ & _ & Hs). destruct (Hb Hs) as [? ?].
    split; [|done]. intros y. rewrite fmap_app. csimpl. intros [Hy|[->|?]%elem_of_cons]%elem_of_app; [|auto..].
    specialize (Hc y k' Hy). assert (y < k') by (apply Hc; left). lia.
Qed.
Lemma graft_None k u t : graft k u t = None → k ∈ (flat t).*1.
Proof.
  induction t as [|p k' d l IHl r IHr]; simpl; [done|]. rewrite fmap_app. csimpl.
  repeat case_bool_decide; rewrite ?fmap_None; intros; [set_solver..|]. replace k' with k by lia. set_solver.
Qed.

(** ** Insertion on the heap *)

(** [u], a tree whose root may have any parent pointer. *)
Definition loose (h : gmap loc bnode) (u : tree) : Prop :=
  match u with
  | Leaf => False
  | Tree p k d l r => (∃ pn o, h !! p = Some (BNode k d (troot l) pn (troot r) o)) ∧
                      owns h (Some p) l ∧ owns h (Some p) r
  end.
Definition tkey (u : tree) : Z := match u with Leaf => 0 | Tree _ k _ _ _ => k end.

Lemma loose_ext h h' u : (∀ p, p ∈ locs u → h' !! p = h !! p) → loose h u → loose h' u.
Proof.
  destruct u as [|p k d l r]; simpl; [done|]. intros Heq ((pn & o & Hp) & Hl & Hr). split_and!.
  - exists pn, o. rewrite Heq by set_solver. done.
  - eapply owns_ext; [|done]. set_solver.
  - eapply owns_ext; [|done]. set_solver.
Qed.
(** The root gets its parent. *)
Lemma loose_parent h p k d l r q : NoDup (locs (Tree p k d l r)) → loose h (Tree p k d l r) →
  owns (alter (set_parent q) p h) q (Tree p k d l r).
Proof.
  simpl. intros (_ & Hni & [? _]%NoDup_cons)%NoDup_app ((pn & o & Hp) & Hl & Hr). split_and!.
  - exists o. by rewrite lookup_alter_eq, Hp.
  - eapply owns_ext; [|done]. intros x Hx. apply lookup_alter_ne. intros <-. apply (Hni p Hx). left.
  - eapply owns_ext; [|done]. intros x Hx. apply lookup_alter_ne. congruence.
Qed.
Lemma loose_reparent h u p q : NoDup (locs u) → troot u = Some p → loose h u → loose (alter (set_parent q) p h) u.
Proof.
  destruct u as [|p' k d l r]; [done|]. intros Hnd [= ->] Hu. pose proof (loose_parent _ _ _ _ _ _ q Hnd Hu) as ((o & ?) & ? & ?).
  split_and!; [|done..]. by exists q, o.
Qed.
Lemma NoDup_locs p k d l r : NoDup (locs (Tree p k d l r)) →
  NoDup (locs l) ∧ NoDup (locs r) ∧ (p ∉ locs l) ∧ (p ∉ locs r) ∧ (∀ x, x ∈ locs l → x ∉ locs r).
Proof. simpl. intros (? & Hni & [? ?]%NoDup_cons)%NoDup_app. set_solver. Qed.

Lemma owns_flag h pr t p : owns h pr t → owns (alter (λ n, {| n with bn_btree := true |}) p h) pr t.
Proof.
  revert pr. induction t as [|q k d l IHl r IHr]; intros pr; simpl; [done|]. intros ((o & Hq) & ? & ?).
  split_and!; [|by auto..]. destruct (decide (q = p)) as [->|].
  - exists true. by rewrite lookup_alter_eq, Hq.
  - exists o. by rewrite lookup_alter_ne.
Qed.

Section insert.
Context (u : tree) (p0 : loc) (Hroot : troot u = Some p0) (Hndu : NoDup (locs u)).

(** Where a link is empty, [u] goes. *)
Lemma owns_attach h p : (p ∉ locs u) → loose h u → owns (alter (set_parent (Some p)) p0 h) (Some p) u.
Proof using Hroot Hndu. destruct u; simplify_eq/=. intros _ Hu. by eapply (loose_parent _ p0). Qed.

(** The heap after [node->parent = parent; parent->left = node], and [->right = node]. *)
Definition hang (f : ptr → bnode → bnode) (p : loc) (h : gmap loc bnode) : gmap loc bnode :=
  alter (f (Some p0)) p (alter (set_parent (Some p)) p0 h).

Lemma hang_other f h p x : x ≠ p → x ≠ p0 → hang f p h !! x = h !! x.
Proof. intros. unfold hang. by rewrite !lookup_alter_ne. Qed.
Lemma hang_is_Some f h p x : is_Some (hang f p h !! x) ↔ is_Some (h !! x).
Proof. unfold hang. by rewrite !lookup_alter_is_Some. Qed.
Lemma root_in : p0 ∈ locs u.
Proof using Hroot. clear Hndu. destruct u; simplify_eq/=. set_solver. Qed.
Lemma owns_hang f h p : (p ∉ locs u) → loose h u → owns (hang f p h) (Some p) u.
Proof using Hroot Hndu.
  intros Hp Hu. eapply owns_ext; [|by apply owns_attach]. intros x Hx. apply lookup_alter_ne. congruence.
Qed.
Lemma owns_hang_other f h p q t : (p ∉ locs t) → (∀ x, x ∈ locs t → x ∉ locs u) → owns h q t → owns (hang f p h) q t.
Proof using Hroot.
  intros Hp Hdj. apply owns_ext. intros x Hx. apply hang_other; [congruence|]. intros ->. by apply (Hdj p0 Hx), root_in.
Qed.

Definition insert_spec (t : tree) : Prop := ∀ fuel (Q : Z → btree → Prop) s pr,
  t ≠ Leaf → (length (locs t) < fuel)%nat → owns (bnodes s) pr t → loose (bnodes s) u →
  NoDup (locs t) → (∀ x, x ∈ locs t → x ∉ locs u) →
  (graft (tkey u) u t = None → Q (- EEXIST) s) →
  (∀ t' h', graft (tkey u) u t = Some t' → owns h' pr t' →
     (∀ x, x ∉ locs t → x ≠ p0 → h' !! x = bnodes s !! x) →
     (∀ x, is_Some (h' !! x) ↔ is_Some (bnodes s !! x)) →
     Q 0 {| s with bnodes := h' |}) →
  wp (insert_loop fuel (Some p0) (troot t)) Q s.

(** One turn of the loop to the left, and to the right. *)
Lemma insert_left p k d l r : insert_spec l → tkey u < k → insert_spec (Tree p k d l r).
Proof using Hroot Hndu.
  intros IH Hlt fuel Q s pr _ Hf ((o & Hp) & Hl & Hr) Hu Hnd Hdj HQ1 HQ2.
  pose proof (NoDup_locs _ _ _ _ _ Hnd) as (Hnl & Hnr & Hpl & Hpr & Hlr). pose proof root_in as Hin.
  assert (∃ n0, bnodes s !! p0 = Some n0 ∧ bn_key n0 = tkey u) as (n0 & Hp0 & Hk0).
  { destruct u; simplify_eq/=. destruct Hu as ((? & ? & ?) & _). eauto. }
  simpl in Hf, Hdj, HQ1, HQ2. rewrite length_app in Hf. simpl in Hf. destruct fuel as [|fuel]; [lia|].
  assert (Hpu : p ∉ locs u) by (apply Hdj; set_solver). assert (p ≠ p0) by congruence.
  unfold insert_loop; fold insert_loop. cbn [troot]. wp_go. rewrite Hk0, bool_decide_true in * by done. destruct l as [|pl kl dl ll rl].
  - destruct fuel as [|fuel]; [lia|]. unfold insert_loop; fold insert_loop. cbn [troot]. wp_go. apply (HQ2 _ (hang set_left p (bnodes s)) eq_refl); [split_and!|..].
    + exists o. rewrite Hroot. unfold hang. by lookup_norm.
    + by apply owns_hang.
    + apply owns_hang_other; [done|set_solver|done].
    + intros x Hx ?. apply hang_other; [set_solver|done].
    + intros x. apply hang_is_Some.
  - cbn [troot]. wp_go. apply (IH fuel Q s (Some p)); [done|lia|done..|set_solver| |].
    + intros Hg. apply HQ1. by rewrite Hg.
    + intros t' h' Hg Ht' Hfr His. rewrite Hg in HQ2. apply (HQ2 _ _ eq_refl); [split_and!|..].
      * exists o. rewrite Hfr, Hp by done. by rewrite (graft_root (tkey u) u (Tree pl kl dl ll rl) t').
      * done.
      * eapply owns_ext; [|done]. intros x Hx. apply Hfr; [set_solver|]. intros ->. eapply (Hdj p0); set_solver.
      * intros x Hx ?. apply Hfr; [set_solver|done].
      * done.
Qed.
Lemma insert_right p k d l r : insert_spec r → k < tkey u → insert_spec (Tree p k d l r).
Proof using Hroot Hndu.
  intros IH Hlt fuel Q s pr _ Hf ((o & Hp) & Hl & Hr) Hu Hnd Hdj HQ1 HQ2.
  pose proof (NoDup_locs _ _ _ _ _ Hnd) as (Hnl & Hnr & Hpl & Hpr & Hlr). pose proof root_in as Hin.
  assert (∃ n0, bnodes s !! p0 = Some n0 ∧ bn_key n0 = tkey u) as (n0 & Hp0 & Hk0).
  { destruct u; simplify_eq/=. destruct Hu as ((? & ? & ?) & _). eauto. }
  simpl in Hf, Hdj, HQ1, HQ2. rewrite length_app in Hf. simpl in Hf. destruct fuel as [|fuel]; [lia|].
  assert (Hpu : p ∉ locs u) by (apply Hdj; set_solver). assert (p ≠ p0) by congruence.
  unfold insert_loop; fold insert_loop. cbn [troot]. wp_go. rewrite Hk0, (bool_decide_false (tkey u < k)), (bool_decide_true (k < tkey u)) in * by lia.
  destruct r as [|pl kl dl ll rl].
  - destruct fuel as [|fuel]; [lia|]. unfold insert_loop; fold insert_loop. cbn [troot]. wp_go. apply (HQ2 _ (hang set_right p (bnodes s)) eq_refl); [split_and!|..].
    + exists o. rewrite Hroot. unfold hang. by lookup_norm.
    + apply owns_hang_other; [done|set_solver|done].
    + by apply owns_hang.
    + intros x Hx ?. apply hang_other; [set_solver|done].
    + intros x. apply hang_is_Some.
  - cbn [troot]. wp_go. apply (IH fuel Q s (Some p)); [done|lia|done..|set_solver| |].
    + intros Hg. apply HQ1. by rewrite Hg.
    + intros t' h' Hg Ht' Hfr His. rewrite Hg in HQ2. apply (HQ2 _ _ eq_refl); [split_and!|..].
      * exists o. rewrite Hfr, Hp by done. by rewrite (graft_root (tkey u) u (Tree pl kl dl ll rl) t').
      * eapply owns_ext; [|done]. intros x Hx. apply Hfr; [set_solver|]. intros ->. eapply (Hdj p0); set_solver.
      * done.
      * intros x Hx ?. apply Hfr; [set_solver|done].
      * done.
Qed.

Lemma insert_any t : insert_spec t.
Proof using Hroot Hndu.
  induction t as [|p k d l IHl r IHr]; [by intros ???? []|].
  destruct (Z.lt_trichotomy (tkey u) k) as [?|[E|?]]; [by apply insert_left| |by apply insert_right].
  intros [|fuel] Q s pr _ Hf ((o & Hp) & _) Hu _ _ HQ1 _; [lia|].
  assert (∃ n0, bnodes s !! p0 = Some n0 ∧ bn_key n0 = tkey u) as (n0 & Hp0 & Hk0).
  { destruct u; simplify_eq/=. destruct Hu as ((? & ? & ?) & _). eauto. }
  simpl in HQ1. unfold insert_loop; fold insert_loop. cbn [troot]. wp_go. rewrite Hk0, !bool_decide_false in * by lia. by apply wp_ret, HQ1.
Qed.

(** [btree_insert_node] of the root of a loose tree. *)
Lemma wp_btree_insert_node (Q : Z → btree → Prop) s t :
  bt_lock s = true → root s = troot t → owns (bnodes s) NULL t → loose (bnodes s) u →
  NoDup (locs t) → (∀ x, x ∈ locs t → x ∉ locs u) →
  (∀ h', graft (tkey u) u t = None → owns h' NULL t → is_Some (h' !! p0) →
     (∀ x, x ≠ p0 → h' !! x = bnodes s !! x) → Q (- EEXIST) {| s with bnodes := h' |}) →
  (∀ t' h', graft (tkey u) u t = Some t' → owns h' NULL t' →
     (∀ x, x ∉ locs t → x ≠ p0 → h' !! x = bnodes s !! x) →
     (∀ x, is_Some (h' !! x) ↔ is_Some (bnodes s !! x)) →
     Q 0 {| s with bnodes := h'; root := troot t'; nr_nodes := u32 (nr_nodes s + 1) |}) →
  wp (btree_insert_node (Some p0)) Q s.
Proof using Hroot Hndu.
  intros Hlk Hrt Ht Hu Hnd Hdj HQ1 HQ2. pose proof root_in as Hin.
  assert (His0 : is_Some (bnodes s !! p0)).
  { destruct u; simplify_eq/=. destruct Hu as ((? & ? & ->) & _). eauto. }
  unfold btree_insert_node, btree_isempty. wp_go.
  set (s1 := {| s with bnodes := alter (set_parent NULL) p0 (bnodes s) |}). rewrite Hrt.
  assert (t = Leaf ∨ t ≠ Leaf) as [->|Hne] by (destruct t; auto).
  - rewrite bool_decide_true by done. wp_go. rewrite decide_True by done. wp_go. rewrite <- Hroot.
    apply (HQ2 u (alter (λ n, {| n with bn_btree := true |}) p0 (bnodes s1)) eq_refl).
    + apply owns_flag. destruct u; simplify_eq/=. by eapply (loose_parent _ p0).
    + intros x _ ?. simpl. by rewrite !lookup_alter_ne.
    + intros x. simpl. by rewrite !lookup_alter_is_Some.
  - rewrite bool_decide_false by (by destruct t). wp_go. rewrite Hrt.
    assert (Ht1 : owns (bnodes s1) NULL t).
    { eapply owns_ext; [|done]. intros x Hx. apply lookup_alter_ne. intros <-. by apply (Hdj p0). }
    eapply (insert_any t _ _ s1); [done| |done| |done..| |].
    + apply Nat.lt_succ_r. by eapply owns_length.
    + by apply loose_reparent.
    + intros Hg. rewrite decide_False by done. wp_go. apply HQ1; [done..| |].
      * simpl. by rewrite lookup_alter_is_Some.
      * intros x ?. simpl. by rewrite lookup_alter_ne.
    + intros t' h' Hg Ht' Hfr His. rewrite decide_True by done.
      assert (is_Some (h' !! p0)) by (rewrite His; simpl; by rewrite lookup_alter_is_Some). wp_go.
      rewrite Hrt, <- (graft_root _ _ _ _ Hne Hg).
      apply (HQ2 t' (alter (λ n, {| n with bn_btree := true |}) p0 h') Hg).
      * by apply owns_flag.
      * intros x ? ?. rewrite lookup_alter_ne, Hfr by done. simpl. by rewrite lookup_alter_ne.
      * intros x. rewrite lookup_alter_is_Some, His. simpl. by rewrite lookup_alter_is_Some.
Qed.
End insert.

(** ** Contexts: a tree with a hole, from the hole to the root *)

Inductive step : Type :=
| FL (p : loc) (k d : Z) (r : tree)
| FR (p : loc) (k d : Z) (l : tree).
Definition fill (f : step) (t : tree) : tree :=
  match f with FL p k d r => Tree p k d t r | FR p k d l => Tree p k d l t end.
Fixpoint plug (c : list step) (t : tree) : tree := match c with [] => t | f :: c' => plug c' (fill f t) end.
Definition cpar (c : list step) : ptr :=
  match c with [] => NULL | FL p _ _ _ :: _ => Some p | FR p _ _ _ :: _ => Some p end.
Fixpoint clocs (c : list step) : list loc :=
  match c with
  | [] => []
  | FL p _ _ r :: c' => p :: locs r ++ clocs c'
  | FR p _ _ l :: c' => p :: locs l ++ clocs c'
  end.
(** What lies left and right of the hole. *)
Fixpoint cleft (c : list step) : list (Z * Z) :=
  match c with [] => [] | FL _ _ _ _ :: c' => cleft c' | FR _ k d l :: c' => cleft c' ++ flat l ++ [(k, d)] end.
Fixpoint cright (c : list step) : list (Z * Z) :=
  match c with [] => [] | FL _ k d r :: c' => (k, d) :: flat r ++ cright c' | FR _ _ _ _ :: c' => cright c' end.
Fixpoint owns_ctx (h : gmap loc bnode) (c : list step) (hole : ptr) : Prop :=
  match c with
  | [] => True
  | FL p k d r :: c' => (∃ o, h !! p = Some (BNode k d hole (cpar c') (troot r) o)) ∧
                        owns h (Some p) r ∧ owns_ctx h c' (Some p)
  | FR p k d l :: c' => (∃ o, h !! p = Some (BNode k d (troot l) (cpar c') hole o)) ∧
                        owns h (Some p) l ∧ owns_ctx h c' (Some p)
  end.

Lemma plug_app c1 c2 t : plug (c1 ++ c2) t = plug c2 (plug c1 t).
Proof. revert t. induction c1; simpl; auto. Qed.
Lemma owns_plug h c t : owns h NULL (plug c t) ↔ owns_ctx h c (troot t) ∧ owns h (cpar c) t.
Proof. revert t. induction c as [|[] c IH]; intros t; simpl; [tauto|rewrite IH; simpl; naive_solver..]. Qed.
Lemma locs_plug c t : locs (plug c t) ≡ₚ locs t ++ clocs c.
Proof.
  revert t. induction c as [|[] c IH]; intros t; simpl; [by rewrite app_nil_r|rewrite IH; simpl; solve_Permutation..].
Qed.
Lemma flat_plug c t : flat (plug c t) = cleft c ++ flat t ++ cright c.
Proof.
  revert t. induction c as [|[] c IH]; intros t; simpl; [by rewrite app_nil_r|..];
    rewrite IH; simpl; by rewrite <- ?(assoc_L (++)).
Qed.
Lemma troot_plug f c t : ∃ q, troot (plug (f :: c) t) = Some q ∧ q ∈ clocs (f :: c).
Proof.
  revert f t. induction c as [|g c IH]; intros f t; [destruct f; simpl; eexists; (split; [done|left])|].
  destruct (IH g (fill f t)) as (q & E & Hq). exists q. split; [exact E|]. destruct f; simpl in *; set_solver.
Qed.
Lemma owns_ctx_ext h h' c hole : (∀ p, p ∈ clocs c → h' !! p = h !! p) → owns_ctx h c hole → owns_ctx h' c hole.
Proof.
  revert hole. induction c as [|[] c IH]; intros hole Heq; simpl in *; [done|..];
    (intros ((o & Hp) & Ho & Hc); split_and!;
     [exists o; by rewrite Heq by set_solver|eapply owns_ext; [|done]; set_solver|apply IH; [|done]; set_solver]).
Qed.

(** A search ends at the key, or shows that it is not there. *)
Lemma wp_lookup_loop fuel k (Q : ptr → btree → Prop) s pr t :
  (length (locs t) < fuel)%nat → owns (bnodes s) pr t →
  ((StronglySorted Z.lt (flat t).*1 → k ∉ (flat t).*1) → Q NULL s) →
  (∀ c p d l r, t = plug c (Tree p k d l r) → Q (Some p) s) →
  wp (lookup_loop fuel k (troot t)) Q s.
Proof.
  revert fuel pr Q. induction t as [|p k' d l IHl r IHr]; intros [|fuel] pr Q Hf Ht HQ1 HQ2; try (simpl in Hf; lia).
  { unfold lookup_loop; fold lookup_loop. cbn [troot]. apply wp_ret, HQ1. set_solver. }
  destruct Ht as ((o & Hp) & Hl & Hr). simpl in Hf, HQ1. rewrite length_app in Hf. simpl in Hf.
  unfold lookup_loop; fold lookup_loop. cbn [troot]. wp_go.
  rewrite fmap_app, StronglySorted_app in HQ1. csimpl in HQ1. rewrite StronglySorted_cons, Forall_forall in HQ1.
  case_bool_decide as E; [subst; apply wp_ret, (HQ2 [] p d l r eq_refl)|]. case_bool_decide as Hlt.
  - eapply IHl; [lia|done| |].
    + intros Hno. apply HQ1. intros (Hc & Hs & Hgt & _). rewrite not_elem_of_app, not_elem_of_cons. split_and!; [auto|done|].
      intros Hin%Hgt. lia.
    + intros c q e l' r' ->. apply (HQ2 (c ++ [FL p k' d r]) q e l' r'). by rewrite plug_app.
  - eapply IHr; [lia|done| |].
    + intros Hno. apply HQ1. intros (Hc & _ & _ & Hs). rewrite not_elem_of_app, not_elem_of_cons. split_and!; [|done|auto].
      intros Hin. assert (k < k') by (apply Hc; [done|left]). lia.
    + intros c q e l' r' ->. apply (HQ2 (c ++ [FR p k' d l]) q e l' r'). by rewrite plug_app.
Qed.

(** ** Deletion on the heap *)

Lemma troot_in t p : troot t = Some p → p ∈ locs t.
Proof. destruct t; simpl; [done|]. intros [= ->]. set_solver. Qed.
Lemma troot_plug_any f c t t' : troot (plug (f :: c) t) = troot (plug (f :: c) t').
Proof. revert f t t'. induction c as [|g c IH]; intros f t t'; [by destruct f|]. apply (IH g). Qed.
Lemma NoDup_plug c t : NoDup (locs (plug c t)) →
  NoDup (locs t) ∧ NoDup (clocs c) ∧ (∀ x, x ∈ locs t → x ∉ clocs c).
Proof. rewrite locs_plug. intros (? & ? & ?)%NoDup_app. done. Qed.

Lemma wp_unlink_node (Q : unit → btree → Prop) s c p k d l r o :
  root s = troot (plug c (Tree p k d l r)) → NoDup (locs (plug c (Tree p k d l r))) →
  owns_ctx (bnodes s) c (Some p) → bnodes s !! p = Some (BNode k d (troot l) (cpar c) (troot r) o) →
  (∀ h', owns_ctx h' c NULL → (∀ x, x ∉ clocs c → h' !! x = bnodes s !! x) →
     (∀ x, is_Some (h' !! x) ↔ is_Some (bnodes s !! x)) →
     Q tt {| s with bnodes := h'; root := troot (plug c Leaf) |}) →
  wp (unlink_node (Some p) (BNode k d (troot l) (cpar c) (troot r) o)) Q s.
Proof.
  intros Hrt (_ & Hnc & Hdj)%NoDup_plug Hc Hp HQ. unfold unlink_node, btree_node_isright, btree_node_isleft.
  assert (Hpc : p ∉ clocs c) by (apply Hdj; simpl; set_solver). wp_go. rewrite Hrt.
  destruct c as [|f c].
  { rewrite decide_True by done. wp_go. by apply HQ. }
  destruct (troot_plug f c (Tree p k d l r)) as (q & Eq & Hq). rewrite decide_False by (rewrite Eq; congruence).
  rewrite (troot_plug_any f c Leaf (Tree p k d l r)), <- Hrt in HQ. clear Hrt Eq Hq.
  destruct f as [q' k' d' r'|q' k' d' l']; simpl in *; destruct Hc as ((o' & Hq') & Ho & Hc);
    apply NoDup_cons in Hnc as [[Hq1 Hq2]%not_elem_of_app _].
  - assert (troot r' ≠ Some p) by (intros ?%troot_in; set_solver).
    wp_go. rewrite bool_decide_false by done. wp_go. rewrite bool_decide_true by done. wp_go. apply HQ.
    + split_and!; [exists o'; by lookup_norm|eapply owns_ext; [|done]|eapply owns_ctx_ext; [|done]];
        intros x Hx; apply lookup_alter_ne; congruence.
    + intros x Hx. apply lookup_alter_ne. set_solver.
    + intros x. by rewrite lookup_alter_is_Some.
  - wp_go. rewrite bool_decide_true by done. wp_go. apply HQ.
    + split_and!; [exists o'; by lookup_norm|eapply owns_ext; [|done]|eapply owns_ctx_ext; [|done]];
        intros x Hx; apply lookup_alter_ne; congruence.
    + intros x Hx. apply lookup_alter_ne. set_solver.
    + intros x. by rewrite lookup_alter_is_Some.
Qed.

(** Where sorted keys are split by [k] is unique. *)
Lemma split_unique (l1 l2 a b : list (Z * Z)) k : l1 ++ l2 = a ++ b →
  (∀ x, x ∈ l1.*1 → x < k) → (∀ x, x ∈ l2.*1 → k < x) → (∀ x, x ∈ a.*1 → x < k) → (∀ x, x ∈ b.*1 → k < x) →
  l1 = a ∧ l2 = b.
Proof.
  revert a. induction l1 as [|x l1 IH]; intros [|y a] E H1 H2 H3 H4; simpl in E.
  - done.
  - subst l2. assert (k < y.1 < k); [|lia]. split; [apply H2|apply H3]; left.
  - subst b. assert (k < x.1 < k); [|lia]. split; [apply H4|apply H1]; left.
  - injection E as -> E. destruct (IH a E) as [-> ->]; [set_solver..|]. done.
Qed.

(** A subtree goes back to where it was. *)
Lemma wp_reinsert (Q : unit → btree → Prop) s t u :
  bt_lock s = true → root s = troot t → owns (bnodes s) NULL t → (u ≠ Leaf → loose (bnodes s) u) →
  NoDup (locs t) → NoDup (locs u) → (∀ x, x ∈ locs t → x ∉ locs u) →
  (∀ x, x ∈ (flat u).*1 → x ∉ (flat t).*1) → (∃ n, nr_nodes s = u32 n) →
  StronglySorted Z.lt (flat t).*1 →
  (∀ t' s', bt_lock s' = true → root s' = troot t' → owns (bnodes s') NULL t' →
     locs t' ≡ₚ locs u ++ locs t → nr_nodes s' = nr_nodes s →
     (∀ x, x ∉ locs t → x ∉ locs u → bnodes s' !! x = bnodes s !! x) →
     (∀ x, is_Some (bnodes s' !! x) ↔ is_Some (bnodes s !! x)) →
     (∀ a b, flat t = a ++ b → (∀ x y, x ∈ a.*1 → y ∈ (flat u).*1 → x < y) →
        (∀ x y, x ∈ (flat u).*1 → y ∈ b.*1 → x < y) → flat t' = a ++ flat u ++ b) → Q tt s') →
  wp (reinsert (troot u)) Q s.
Proof.
  intros Hlk Hrt Ht Hu Hnt Hnu Hdj Hkeys [n Hnr] Hsort HQ. unfold reinsert. destruct u as [|p k d l r]; cbn [troot].
  { by apply wp_ret, (HQ t). }
  wp_go. eapply (wp_btree_insert_node (Tree p k d l r) p); simpl; try done.
  - by apply Hu.
  - intros h' Hg _ _ _. exfalso. apply graft_None in Hg. eapply Hkeys; [|exact Hg]. simpl. rewrite fmap_app. set_solver.
  - intros t' h' Hg Ht' Hfr His. wp_go. apply (HQ t'); simpl; try done.
    + by apply graft_locs in Hg.
    + unfold u32. rewrite Zplus_mod_idemp_l, Z.sub_add. rewrite Hnr. by apply Zmod_mod.
    + intros x ? ?. apply Hfr; set_solver.
    + intros a b E Ha Hb. apply graft_flat in Hg as (l1 & l2 & E1 & -> & Hs). destruct (Hs Hsort) as [Hl1 Hl2].
      assert (Hin : k ∈ (flat (Tree p k d l r)).*1) by (simpl; rewrite fmap_app; set_solver).
      destruct (split_unique l1 l2 a b k) as [-> ->]; [congruence|auto..].
Qed.

(** ** The representation *)

Record tree_rep (s : btree) (t : tree) : Prop := TreeRep {
  tr_lock : bt_lock s = true;
  tr_root : root s = troot t;
  tr_owns : owns (bnodes s) NULL t;
  tr_NoDup : NoDup (locs t);
  tr_dom : ∀ x, is_Some (bnodes s !! x) ↔ x ∈ locs t;
  tr_sorted : StronglySorted Z.lt (flat t).*1;
  tr_count : nr_nodes s = u32 (Z.of_nat (length (flat t)));
}.
Definition btree_rep (s : btree) (m : gmap Z Z) : Prop := ∃ t, tree_rep s t ∧ m = list_to_map (flat t).

Lemma sorted_NoDup l : StronglySorted Z.lt l → NoDup l.
Proof.
  induction 1 as [|x l Hs IH Hx]; constructor; [|done]. intros Hin. rewrite Forall_forall in Hx.
  apply Hx in Hin. lia.
Qed.

Lemma sorted_parts (A L R B : list Z) k : StronglySorted Z.lt (A ++ (L ++ k :: R) ++ B) →
  StronglySorted Z.lt (A ++ B) ∧ StronglySorted Z.lt (A ++ R ++ B) ∧ StronglySorted Z.lt (A ++ L ++ R ++ B) ∧
  (∀ x y, x ∈ A → y ∈ R → x < y) ∧ (∀ x y, x ∈ R → y ∈ B → x < y) ∧ (∀ x y, x ∈ A → y ∈ L → x < y) ∧
  (∀ x y, x ∈ L → y ∈ R ++ B → x < y).
Proof.
  rewrite !StronglySorted_app, !StronglySorted_cons, !Forall_forall.
  intros (HA & ? & HB & (HL & ? & HR & ?) & ?).
  assert (∀ x y, x ∈ L → y ∈ R → x < y) by (intros; apply HL; set_solver).
  split_and!; try done; set_solver.
Qed.
Lemma owns_loose h q u : u ≠ Leaf → owns h q u → loose h u.
Proof. destruct u; [done|]. intros _ ((o & ?) & ? & ?). split_and!; [by exists q, o|done..]. Qed.

(** Deleting [k] takes its node out and keeps the order of all others. *)
Lemma wp_btree_delete_node (Q : unit → btree → Prop) s c p k d l r :
  tree_rep s (plug c (Tree p k d l r)) →
  (∀ t' s', tree_rep s' t' → flat t' = cleft c ++ flat l ++ flat r ++ cright c → Q tt s') →
  wp (btree_delete_node (Some p)) Q s.
Proof.
  intros [Hlk Hrt Ht Hnd Hdom Hsort Hcnt] HQ. apply owns_plug in Ht as [Hc ((o & Hp) & Hl & Hr)].
  pose proof (NoDup_plug _ _ Hnd) as (Hnt & Hnc & Hdj). pose proof (NoDup_locs _ _ _ _ _ Hnt) as (Hnl & Hnr & Hpl & Hpr & Hlr).
  unfold btree_delete_node. wp_go.
  eapply wp_unlink_node; [done..|]. intros h' Hc' Hfr His. wp_go. unfold btree_free_node.
  assert (Hin : p ∈ locs (Tree p k d l r)) by (simpl; set_solver).
  assert (Hp' : h' !! p = bnodes s !! p) by (apply Hfr; auto). rewrite Hp in Hp'. wp_go.
  rewrite flat_plug, !fmap_app in Hsort. csimpl in Hsort. rewrite fmap_app in Hsort. csimpl in Hsort.
  apply sorted_parts in Hsort as (Hs1 & Hs2 & Hs3 & HAR & HRB & HAL & HLR).
  rewrite flat_plug, !length_app in Hcnt. simpl in Hcnt. rewrite length_app in Hcnt. simpl in Hcnt.
  pose proof (locs_plug c Leaf) as Ep. simpl in Ep.
  assert (Hsub : ∀ u, (∀ x, x ∈ locs u → x ∈ locs (Tree p k d l r) ∧ x ≠ p) → owns (bnodes s) (Some p) u →
    u ≠ Leaf → loose (delete p h') u).
  { intros u Hu Ho Hne. apply (loose_ext (bnodes s)); [|by eapply owns_loose].
    intros x [? ?]%Hu. rewrite lookup_delete_ne by done. apply Hfr. auto. }
  assert (Hinl : ∀ x, x ∈ locs l → x ∈ locs (Tree p k d l r) ∧ x ≠ p) by (simpl; set_solver).
  assert (Hinr : ∀ x, x ∈ locs r → x ∈ locs (Tree p k d l r) ∧ x ≠ p) by (simpl; set_solver).
  eapply (wp_reinsert _ _ (plug c Leaf)); simpl; try done.
  { apply owns_plug. split; [|done]. eapply owns_ctx_ext; [|done]. intros x Hx. apply lookup_delete_ne. intros <-. by apply (Hdj p). }
  { by apply Hsub. }
  { by rewrite Ep. }
  { intros x. rewrite Ep. intros ? [? _]%Hinr. by apply (Hdj x). }
  { intros x Hx. rewrite flat_plug, fmap_app, not_elem_of_app. simpl.
    split; intros Hx'; [specialize (HAR x x Hx' Hx)|specialize (HRB x x Hx Hx')]; lia. }
  { by eexists. }
  { by rewrite flat_plug, fmap_app. }
  intros t1 s1 Hlk1 Hrt1 Ho1 Hlocs1 Hcnt1 Hfr1 His1 Hflat1. simpl in *. rewrite flat_plug in Hflat1. simpl in Hflat1.
  specialize (Hflat1 (cleft c) (cright c) eq_refl HAR HRB). rewrite Ep in Hlocs1.
  eapply (wp_reinsert _ _ t1); try done.
  { intros Hne. apply (loose_ext (delete p h')); [|by apply Hsub]. intros x Hx. apply Hfr1; [|by auto].
    rewrite Ep. apply Hinl in Hx as [? _]. auto. }
  { rewrite Hlocs1. apply NoDup_app. split_and!; [done| |done]. intros x [? _]%Hinr. auto. }
  { intros x. rewrite Hlocs1. intros [?|?]%elem_of_app Hx; [by apply (Hlr x)|]. apply Hinl in Hx as [? _]. by apply (Hdj x). }
  { intros x Hx. rewrite Hflat1, !fmap_app, !not_elem_of_app.
    split_and!; intros Hx'; [specialize (HAL x x Hx' Hx)|specialize (HLR x x Hx ltac:(set_solver))..]; lia. }
  { rewrite Hcnt1. by eexists. }
  { by rewrite Hflat1, !fmap_app. }
  intros t2 s2 Hlk2 Hrt2 Ho2 Hlocs2 Hcnt2 Hfr2 His2 Hflat2.
  specialize (Hflat2 (cleft c) (flat r ++ cright c) Hflat1 HAL). rewrite fmap_app in Hflat2. specialize (Hflat2 HLR).
  assert (El : p :: locs t2 ≡ₚ locs (plug c (Tree p k d l r))).
  { rewrite Hlocs2, Hlocs1, locs_plug. simpl. solve_Permutation. }
  apply (HQ t2); [|done]. split; try done.
  - rewrite <- El in Hnd. by apply NoDup_cons in Hnd as [_ ?].
  - intros x. rewrite His2, His1. rewrite <- El in Hnd. apply NoDup_cons in Hnd as [Hp2 _].
    destruct (decide (x = p)) as [->|Hne].
    + rewrite lookup_delete_eq. split; [by intros []|done].
    + rewrite lookup_delete_ne, His, Hdom, <- El, elem_of_cons by done. naive_solver.
  - by rewrite Hflat2, !fmap_app.
  - rewrite Hcnt2, Hcnt1, Hcnt, Hflat2, !length_app. unfold u32. rewrite Zminus_mod_idemp_l. f_equal. lia.
Qed.

(** ** The operations *)

Lemma wp_btree_lookup k (Q : ptr → btree → Prop) s t : tree_rep s t →
  (k ∉ (flat t).*1 → Q NULL s) → (∀ c p d l r, t = plug c (Tree p k d l r) → Q (Some p) s) →
  wp (btree_lookup k) Q s.
Proof.
  intros Hr HQ1 HQ2. pose proof (tr_lock _ _ Hr). unfold btree_lookup. wp_go. rewrite (tr_root _ _ Hr).
  eapply wp_lookup_loop; [|apply Hr| |done].
  - apply Nat.lt_succ_r. eapply owns_length; apply Hr.
  - intros Hno. apply HQ1, Hno, Hr.
Qed.

Lemma rep_lookup s t k d : tree_rep s t → (list_to_map (flat t) : gmap Z Z) !! k = Some d ↔ (k, d) ∈ flat t.
Proof. intros Hr. symmetry. apply elem_of_list_to_map, sorted_NoDup, Hr. Qed.
Lemma rep_lookup_None t k : (list_to_map (flat t) : gmap Z Z) !! k = None ↔ k ∉ (flat t).*1.
Proof. split; [apply not_elem_of_list_to_map_2|apply not_elem_of_list_to_map_1]. Qed.
Lemma plug_node s c p k d l r : tree_rep s (plug c (Tree p k d l r)) →
  (list_to_map (flat (plug c (Tree p k d l r))) : gmap Z Z) !! k = Some d ∧
  ∃ n, bnodes s !! p = Some n ∧ bn_data n = d.
Proof.
  intros Hr. split.
  - rewrite rep_lookup by done. rewrite flat_plug. simpl. set_solver.
  - pose proof (tr_owns _ _ Hr) as [_ ((o & ->) & _)]%owns_plug. eauto.
Qed.

(** Insertion into the flattened tree is insertion into the map. *)
Lemma map_insert (l1 l2 : list (Z * Z)) k d : k ∉ (l1 ++ l2).*1 →
  (list_to_map (l1 ++ (k, d) :: l2) : gmap Z Z) = <[k := d]> (list_to_map (l1 ++ l2)).
Proof.
  intros Hk. induction l1 as [|[k' d'] l1 IH]; simpl; [done|]. csimpl in Hk. apply not_elem_of_cons in Hk as [Hne Hk].
  rewrite IH by done. by apply insert_insert_ne.
Qed.
Lemma map_delete (l1 l2 : list (Z * Z)) k d : k ∉ (l1 ++ l2).*1 →
  (list_to_map (l1 ++ l2) : gmap Z Z) = delete k (list_to_map (l1 ++ (k, d) :: l2)).
Proof.
  intros Hk. rewrite map_insert by done. by rewrite delete_insert_id by by apply not_elem_of_list_to_map_1.
Qed.
Lemma sorted_insert (l1 l2 : list Z) k : StronglySorted Z.lt (l1 ++ l2) → (∀ x, x ∈ l1 → x < k) → (∀ x, x ∈ l2 → k < x) →
  StronglySorted Z.lt (l1 ++ k :: l2).
Proof.
  rewrite !StronglySorted_app, StronglySorted_cons, Forall_forall. intros (? & ? & ?) Ha Hb.
  split_and!; try done. set_solver.
Qed.

Section insert.
Context `{!Kalloc bnode}.

Lemma wp_btree_insert k d (Q : Z → btree → Prop) s t : tree_rep s t →
  (kmalloc_at (bnodes s) = NULL → Q (- ENOMEM) s) →
  (∀ s', k ∈ (flat t).*1 → tree_rep s' t → Q (- EEXIST) s') →
  (∀ s' t' l1 l2, flat t = l1 ++ l2 → flat t' = l1 ++ (k, d) :: l2 → k ∉ (flat t).*1 → tree_rep s' t' → Q 0 s') →
  wp (btree_insert k d) Q s.
Proof.
  intros [Hlk Hrt Ht Hnd Hdom Hsort Hcnt] HQ1 HQ2 HQ3. unfold btree_insert, btree_alloc_node. wp_go.
  apply wp_kmalloc; [by intros; apply wp_ret, HQ1|]. simpl. intros p _ Hp.
  assert (Hpt : p ∉ locs t) by (rewrite <- Hdom, Hp; by intros []). wp_go.
  set (h := alter _ p (alter _ p _)). set (u := Tree p k d Leaf Leaf).
  assert (Hh : h !! p = Some (BNode k d NULL NULL NULL false)) by (subst h; by lookup_norm).
  assert (Hother : ∀ x, x ≠ p → h !! x = bnodes s !! x) by (intros; subst h; by rewrite !lookup_alter_ne, lookup_insert_ne).
  eapply (wp_btree_insert_node u p eq_refl (NoDup_singleton p) _ _ t); simpl; try done.
  - eapply owns_ext; [|done]. intros x Hx. apply Hother. congruence.
  - split_and!; [by exists NULL, false|done..].
  - intros x Hx. set_solver.
  - intros h' Hg Ht' [v Hv] Hfr. unfold btree_free_node. wp_go.
    apply HQ2; [by eapply graft_None|]. split; simpl; try done.
    + eapply owns_ext; [|done]. intros x Hx. apply lookup_delete_ne. congruence.
    + intros x. destruct (decide (x = p)) as [->|Hne].
      * rewrite lookup_delete_eq. split; [by intros []|done].
      * by rewrite lookup_delete_ne, Hfr, Hother, Hdom by done.
  - intros t' h' Hg Ht' Hfr His. wp_go.
    pose proof (graft_locs _ _ _ _ Hg) as El. simpl in El.
    apply graft_flat in Hg as (l1 & l2 & E1 & E2 & Hs). destruct (Hs Hsort) as [Hl1 Hl2]. simpl in E2, Hl1, Hl2.
    assert (Hk : k ∉ (flat t).*1).
    { rewrite E1, fmap_app, not_elem_of_app. split; [intros ?%Hl1|intros ?%Hl2]; lia. }
    eapply HQ3; [done..|]. split; simpl; try done.
    + rewrite El. by constructor.
    + intros x. rewrite His, El, elem_of_cons. destruct (decide (x = p)) as [->|Hne].
      * rewrite Hh. split; eauto.
      * rewrite Hother, Hdom by done. tauto.
    + rewrite E2, fmap_app. csimpl. apply sorted_insert; [|done..]. by rewrite <- fmap_app, <- E1.
    + rewrite Hcnt, E1, E2, !length_app. unfold u32. rewrite Zplus_mod_idemp_l. f_equal. simpl. lia.
Qed.
End insert.

(** The last node on the left, and on the right, holds the first, and the last, key. *)
Lemma wp_last_left fuel (Q : ptr → btree → Prop) s pr t node :
  (length (locs t) < fuel)%nat → owns (bnodes s) pr t → (t = Leaf → Q node s) →
  (∀ p n l, flat t = (bn_key n, bn_data n) :: l → bnodes s !! p = Some n → Q (Some p) s) →
  wp (last_loop fuel bn_left node (troot t)) Q s.
Proof.
  revert fuel pr node. induction t as [|p k d l IHl r _]; intros [|fuel] pr node Hf Ht HQ1 HQ2; try (simpl in Hf; lia);
    unfold last_loop; fold last_loop; cbn [troot]; [by apply wp_ret, HQ1|].
  destruct Ht as ((o & Hp) & Hl & Hr). simpl in Hf. rewrite length_app in Hf. simpl in Hf, HQ2.
  wp_go. eapply IHl; [lia|done| |].
  - intros ->. by eapply (HQ2 p _ (flat r)); [|exact Hp].
  - intros q n l' E Hq. eapply (HQ2 q n); [by rewrite E|done].
Qed.
Lemma wp_last_right fuel (Q : ptr → btree → Prop) s pr t node :
  (length (locs t) < fuel)%nat → owns (bnodes s) pr t → (t = Leaf → Q node s) →
  (∀ p n l, flat t = l ++ [(bn_key n, bn_data n)] → bnodes s !! p = Some n → Q (Some p) s) →
  wp (last_loop fuel bn_right node (troot t)) Q s.
Proof.
  revert fuel pr node. induction t as [|p k d l _ r IHr]; intros [|fuel] pr node Hf Ht HQ1 HQ2; try (simpl in Hf; lia);
    unfold last_loop; fold last_loop; cbn [troot]; [by apply wp_ret, HQ1|].
  destruct Ht as ((o & Hp) & Hl & Hr). simpl in Hf. rewrite length_app in Hf. simpl in Hf, HQ2.
  wp_go. eapply IHr; [lia|done| |].
  - intros ->. by eapply (HQ2 p _ (flat l)); [|exact Hp].
  - intros q n l' E Hq. eapply (HQ2 q n (flat l ++ (k, d) :: l')); [by rewrite E, <- (assoc_L (++))|done].
Qed.

(** [r] is the data of the key that is [R] to all others. *)
Definition extreme (R : Z → Z → Prop) (m : gmap Z Z) (r : option Z) : Prop :=
  match r with Some d => ∃ k, m !! k = Some d ∧ ∀ k', is_Some (m !! k') → R k k' | None => m = ∅ end.
Lemma rep_key s t k : tree_rep s t → is_Some ((list_to_map (flat t) : gmap Z Z) !! k) → k ∈ (flat t).*1.
Proof. intros Hr [d Hd]. rewrite rep_lookup in Hd by done. by apply (list_elem_of_fmap_2 fst _ (k, d)). Qed.
Lemma rep_fuel s t : tree_rep s t → (length (locs t) < S (size (bnodes s)))%nat.
Proof. intros Hr. apply Nat.lt_succ_r. eapply owns_length; apply Hr. Qed.
Lemma wp_btree_least s t : tree_rep s t → wp btree_least (λ r s', s' = s ∧ extreme Z.le (list_to_map (flat t)) r) s.
Proof.
  intros Hr. pose proof (tr_lock _ _ Hr). unfold btree_least, btree_least_node, btree_extreme. wp_go.
  rewrite (tr_root _ _ Hr). eapply wp_last_left; [by apply rep_fuel|apply Hr|intros ->; by wp_go|].
  intros p n l E Hp. unfold node_data. wp_go. split; [done|]. exists (bn_key n). split.
  - rewrite rep_lookup by done. rewrite E. left.
  - intros k' Hk%(rep_key _ _ _ Hr). pose proof (tr_sorted _ _ Hr) as Hs. rewrite E in Hs, Hk. csimpl in *.
    apply StronglySorted_cons in Hs as [Hs _]. rewrite Forall_forall in Hs. apply elem_of_cons in Hk as [->|Hk%Hs]; lia.
Qed.
Lemma wp_btree_largest s t : tree_rep s t → wp btree_largest (λ r s', s' = s ∧ extreme Z.ge (list_to_map (flat t)) r) s.
Proof.
  intros Hr. pose proof (tr_lock _ _ Hr). unfold btree_largest, btree_largest_node, btree_extreme. wp_go.
  rewrite (tr_root _ _ Hr). eapply wp_last_right; [by apply rep_fuel|apply Hr|intros ->; by wp_go|].
  intros p n l E Hp. unfold node_data. wp_go. split; [done|]. exists (bn_key n). split.
  - rewrite rep_lookup by done. rewrite E. set_solver.
  - intros k' Hk%(rep_key _ _ _ Hr). pose proof (tr_sorted _ _ Hr) as Hs. rewrite E, fmap_app in Hs, Hk. csimpl in *.
    apply StronglySorted_app in Hs as [Hs _]. apply elem_of_app in Hk as [Hk| ->%list_elem_of_singleton]; [|lia].
    specialize (Hs _ (bn_key n) Hk ltac:(left)). lia.
Qed.

(** ** The contract *)

(** [btree_insert] adds the key, refuses one that is there ([-EEXIST]), and fails with
    [-ENOMEM] when there is no memory for a node.  On an error the map is as it was and the
    node is not leaked: the heap holds the nodes of the tree and nothing else. *)
Theorem btree_insert_correct `{!Kalloc bnode} s m k d : btree_rep s m →
  ∃ r s', btree_insert k d s = Ok (r, s') ∧
    ((r = - ENOMEM ∧ kmalloc_at (bnodes s) = NULL ∧ s' = s) ∨
     (r = - EEXIST ∧ is_Some (m !! k) ∧ btree_rep s' m) ∨
     (r = 0 ∧ m !! k = None ∧ btree_rep s' (<[k := d]> m))).
Proof.
  intros (t & Hr & ->). apply wp_exec. eapply wp_btree_insert; [done|by auto|..].
  - intros s' Hin Hr'. right; left. split_and!; [done| |by exists t].
    apply not_eq_None_Some. rewrite rep_lookup_None. tauto.
  - intros s' t' l1 l2 E E' Hk Hr'. right; right. split_and!; [done|by apply rep_lookup_None|].
    exists t'. split; [done|]. rewrite E', E, map_insert; [done|]. by rewrite <- E.
Qed.

(** [btree_search] finds exactly the keys of the map, with their data. *)
Theorem btree_search_correct s m k : btree_rep s m →
  btree_search k s = Ok (match m !! k with Some d => (0, Some d) | None => (- ENOENT, None) end, s).
Proof.
  intros (t & Hr & ->).
  assert (wp (btree_search k) (λ r s', s' = s ∧ r = match (list_to_map (flat t) : gmap Z Z) !! k with
    Some d => (0, Some d) | None => (- ENOENT, None) end) s) as (? & ? & -> & -> & ->)%wp_exec; [|done].
  unfold btree_search. pose proof (tr_lock _ _ Hr). wp_go. eapply wp_btree_lookup; [done|..].
  - intros Hk%rep_lookup_None. rewrite Hk. by wp_go.
  - intros c p d l r ->. apply plug_node in Hr as [-> (n & ? & <-)]. by wp_go.
Qed.

(** [btree_delete] removes the key and nothing else, and frees its node. *)
Theorem btree_delete_correct s m k : btree_rep s m →
  ∃ s', btree_delete k s = Ok (tt, s') ∧ btree_rep s' (delete k m).
Proof.
  intros (t & Hr & ->).
  assert (wp (btree_delete k) (λ _ s', btree_rep s' (delete k (list_to_map (flat t)))) s) as ([] & s' & ? & ?)%wp_exec;
    [|by exists s'].
  unfold btree_delete. pose proof (tr_lock _ _ Hr). wp_go. eapply wp_btree_lookup; [done|..].
  - intros Hk%rep_lookup_None. unfold btree_delete_node. wp_go. exists t. split; [done|]. by apply delete_id.
  - intros c p d l r ->. eapply wp_btree_delete_node; [done|]. intros t' s' Hr' E. exists t'. split; [done|].
    pose proof (sorted_NoDup _ (tr_sorted _ _ Hr)) as Hnd.
    assert (E1 : flat (plug c (Tree p k d l r)) = (cleft c ++ flat l) ++ (k, d) :: (flat r ++ cright c))
      by (rewrite flat_plug; simpl; by rewrite <- !(assoc_L (++))).
    rewrite (assoc_L (++)) in E. rewrite E1, E in *. symmetry. apply map_delete.
    rewrite fmap_app in *. csimpl in *. apply NoDup_app in Hnd as (_ & Hni & [? _]%NoDup_cons). set_solver.
Qed.

(** [btree_least] and [btree_largest] give the data of the least and the greatest key,
    and nothing when the tree is empty. *)
Theorem btree_extremes_correct s m : btree_rep s m →
  (∃ r, btree_least s = Ok (r, s) ∧ extreme Z.le m r) ∧ (∃ r, btree_largest s = Ok (r, s) ∧ extreme Z.ge m r).
Proof.
  intros (t & Hr & ->). split.
  - pose proof (wp_btree_least s t Hr) as (r & ? & ? & -> & ?)%wp_exec. eauto.
  - pose proof (wp_btree_largest s t Hr) as (r & ? & ? & -> & ?)%wp_exec. eauto.
Qed.

(** ** Applications: a tree of three nodes *)

#[local] Existing Instance kalloc_total.

Definition btree_demo : btree := Btree (Some 1%positive) 3 true (list_to_map
  [(1%positive, BNode 50 500 (Some 2%positive) NULL (Some 3%positive) true);
   (2%positive, BNode 20 200 NULL (Some 1%positive) NULL true);
   (3%positive, BNode 70 700 NULL (Some 1%positive) NULL true)]).
Definition demo_tree : tree := 
  Tree 1%positive 50 500 (Tree 2%positive 20 200 Leaf Leaf) (Tree 3%positive 70 700 Leaf Leaf).
Definition demo_map : gmap Z Z := list_to_map [(20, 200); (50, 500); (70, 700)].
Lemma btree_demo_rep : btree_rep btree_demo demo_map.
Proof.
  exists demo_tree. split; [|done]. split; try done.
  - simpl. split_and!; try done; by exists true.
  - apply (bool_decide_unpack _). by vm_compute.
  - intros x. unfold btree_demo, bnodes. rewrite <- elem_of_dom, dom_list_to_map_L. simpl. set_solver.
  - repeat constructor.
Qed.
Lemma btree_insert_correct_witness : ∃ r s', btree_insert 60 600 btree_demo = Ok (r, s') ∧
  ((r = - ENOMEM ∧ kmalloc_at (bnodes btree_demo) = NULL ∧ s' = btree_demo) ∨
   (r = - EEXIST ∧ is_Some (demo_map !! 60) ∧ btree_rep s' demo_map) ∨
   (r = 0 ∧ demo_map !! 60 = None ∧ btree_rep s' (<[60 := 600]> demo_map))).
Proof. exact (btree_insert_correct btree_demo demo_map 60 600 btree_demo_rep). Defined.
Lemma btree_search_correct_witness : btree_search 70 btree_demo = Ok ((0, Some 700), btree_demo).
Proof. exact (btree_search_correct btree_demo demo_map 70 btree_demo_rep). Defined.
Lemma btree_delete_correct_witness : ∃ s', btree_delete 50 btree_demo = Ok (tt, s') ∧ btree_rep s' (delete 50 demo_map).
Proof. exact (btree_delete_correct btree_demo demo_map 50 btree_demo_rep). Defined.
Lemma btree_extremes_correct_witness :
  (∃ r, btree_least btree_demo = Ok (r, btree_demo) ∧ extreme Z.le demo_map r) ∧
  (∃ r, btree_largest btree_demo = Ok (r, btree_demo) ∧ extreme Z.ge demo_map r).
Proof. exact (btree_extremes_correct btree_demo demo_map btree_demo_rep). Defined.
