(* ===== verification/Mmap.v ===== *)
(** * Address spaces ([kernel/mm/mmap/mmap.c])

    An [mmap_t] keeps the memory regions of an address space on a doubly linked
    list.  [mmap] is the structure together with the [vmr_t] objects allocated
    for it; addresses and sizes are 32-bit words.  The calls the code makes to the
    paging code do not touch the list: they are recorded in [mm_paging].

    Functions that return a value through a pointer argument return it beside
    their result ([0] or NULL where the code leaves the variable alone). *)
From S2P Require Import Prelude Dll.

(** [vmr_t] without its links. *)
Record vmr : Type := Vmr {
  v_refs : Z;
  v_flags : Z;
  v_vflags : Z;
  v_priv : Z;
  v_file : Z;
  v_filesz : Z;
  v_file_pos : Z;
  v_mmap : ptr;
  v_vmops : Z;
  v_paddr : Z;
  v_start : Z;
  v_end : Z;
}.
Definition vmr_zero : vmr := Vmr 0 0 0 0 0 0 0 NULL 0 0 0 0.

Inductive paging_call : Type :=
| paging_unmap_mapped (start size : Z)
| paging_proc_unmap (pgdir : Z)
| paging_lazycopy (dst src : Z).

Record mmap : Type := Mmap {
  mm_self : loc;                  (* address of the mmap_t *)
  mm_flags : Z;
  mm_refs : Z;
  mm_priv : Z;
  mm_arg : ptr;
  mm_env : ptr;
  mm_heap : ptr;
  mm_brk : Z;
  mm_pgdir : Z;
  mm_limit : Z;
  mm_guard_len : Z;
  mm_used_space : Z;
  vmr_head : ptr;
  vmr_tail : ptr;
  mm_lock : bool;                 (* lock held by this CPU *)
  vmrs : gmap loc (node vmr);
  mm_paging : list paging_call;   (* calls to the paging code, latest first *)
}.
#[global] Program Instance mmap_objects : Heap mmap (node vmr) := {|
  heap_of := vmrs;
  put_heap h m := {| m with vmrs := h |};
|}.
Next Obligation. done. Qed.
Next Obligation. by intros []. Qed.
#[global] Instance mmap_has_lock : Lock mmap := {|
  held := mm_lock;
  set_held b m := {| m with mm_lock := b |};
|}.

(** ** Constants and macros of [include/mm/mmap.h] *)

Definition mmap_limit : Z := 0xBFFFFFFF.
Definition MMAP_USER : Z := 1.
Definition isaligned (p : Z) : bool := bool_decide (Z.land p PAGEMASK = 0).
Definition valid_addr (a : Z) : bool := bool_decide (a ≤ mmap_limit).
Definition vmr_size (v : vmr) : Z := u32 (v_end v - v_start v + 1).
Definition vmr_upper_bound (v : vmr) : Z := u32 (v_end v + 1).
Definition vmr_lower_bound (v : vmr) : Z := u32 (v_start v - 1).

Definition has (flags f : Z) : bool := bool_decide (Z.land flags f ≠ 0).

Definition MAP_PRIVATE : Z := 0x0001.
Definition MAP_SHARED : Z := 0x0002.
Definition MAP_DONTEXPAND : Z := 0x0004.
Definition MAP_ZERO : Z := 0x0010.
Definition MAP_STACK : Z := 0x0100.
Definition MAP_FIXED : Z := 0x1000.

Definition PROT_READ : Z := 0x0001.
Definition PROT_WRITE : Z := 0x0002.
Definition PROT_EXEC : Z := 0x0004.

Definition VM_EXEC : Z := 0x0001.
Definition VM_WRITE : Z := 0x0002.
Definition VM_READ : Z := 0x0004.
Definition VM_ZERO : Z := 0x0008.
Definition VM_SHARED : Z := 0x0010.
Definition VM_GROWSDOWN : Z := 0x0100.
Definition VM_DONTEXPAND : Z := 0x0200.

(** Bits of page table entries ([include/arch/i386/32bit.h]). *)
Definition VM_R : Z := 1.
Definition VM_X : Z := 1.
Definition VM_W : Z := 2.
Definition VM_U : Z := 4.

Definition whence_start : Z := 0.
Definition whence_end : Z := 1.

(** [flag ? f : 0] *)
Definition sel (b : bool) (f : Z) : Z := if b then f else 0.

Definition set_start (a : Z) : node vmr → node vmr := set_data (λ v, {| v with v_start := a |}).
Definition set_end (a : Z) : node vmr → node vmr := set_data (λ v, {| v with v_end := a |}).
Definition set_refs (n : Z) : node vmr → node vmr := set_data (λ v, {| v with v_refs := n |}).
Definition set_flags (f : Z) : node vmr → node vmr := set_data (λ v, {| v with v_flags := f |}).
Definition set_mmap (p : ptr) : node vmr → node vmr := set_data (λ v, {| v with v_mmap := p |}).
(** [p->refs += d] *)
Definition refs_add (d : Z) : node vmr → node vmr := set_data (λ v, {| v with v_refs := i32 (v_refs v + d) |}).

Definition log_paging (c : paging_call) : M mmap unit :=
  modify (λ m, {| m with mm_paging := c :: mm_paging m |}).

(** ** Looking regions up *)

Definition mmap_contains (r : ptr) : M mmap bool :=
  spin_assert_lock;;
  head ← gets vmr_head;
  found ← walk n_next (λ p _, bool_decide (Some p = r)) head;
  mret (bool_decide (found ≠ NULL)).

Definition mmap_find (addr : Z) : M mmap ptr :=
  spin_assert_lock;;
  head ← gets vmr_head;
  walk n_next (λ _ v, bool_decide (v_start v ≤ addr ∧ addr ≤ v_end v)) head.

Definition mmap_find_exact (start fin : Z) : M mmap ptr :=
  spin_assert_lock;;
  r ← mmap_find start;
  match r with
  | None => mret NULL
  | Some p =>
      v ← rd (Some p);
      if decide (start ≠ v_start (n_data v) ∨ fin ≠ v_end (n_data v)) then mret NULL else mret (Some p)
  end.

(** Both return the region that holds [addr], and its neighbour. *)
Definition mmap_find_vmr_next (addr : Z) : M mmap (ptr * ptr) :=
  spin_assert_lock;;
  r ← mmap_find addr;
  match r with
  | Some p => v ← rd (Some p); mret (Some p, n_next v)
  | None =>
      head ← gets vmr_head;
      next ← walk n_next (λ _ v, bool_decide (addr < v_start v)) head;
      mret (NULL, next)
  end.
Definition mmap_find_vmr_prev (addr : Z) : M mmap (ptr * ptr) :=
  spin_assert_lock;;
  r ← mmap_find addr;
  match r with
  | Some p => v ← rd (Some p); mret (Some p, n_prev v)
  | None =>
      tail ← gets vmr_tail;
      prev ← walk n_prev (λ _ v, bool_decide (v_end v < addr)) tail;
      mret (NULL, prev)
  end.

Definition mmap_find_vmr_overlap (start fin : Z) : M mmap ptr :=
  spin_assert_lock;;
  r ← mmap_find start;
  match r with
  | None => mret NULL
  | Some p => v ← rd (Some p); if decide (fin ≤ v_end (n_data v)) then mret (Some p) else mret NULL
  end.

(** Returns the error and [*plen]. *)
Definition mmap_holesize (addr : Z) : M mmap (Z * Z) :=
  spin_assert_lock;;
  limit ← gets mm_limit;
  if decide (limit < addr) then mret (- EINVAL, 0) else
  r ← mmap_find addr;
  if decide (r ≠ NULL) then mret (- EINVAL, 0) else
  '(_, next) ← mmap_find_vmr_next addr;
  match next with
  | None => mret (0, u32 (limit + 1 - addr))
  | Some p => v ← rd (Some p); mret (0, u32 (v_start (n_data v) - addr))
  end.

(** ** Inserting and removing regions *)

(** [while (addr <= r->end)] of [mmap_mapin]: is an address of [addr..fin] mapped? *)
Fixpoint mapped_loop (fuel : nat) (addr fin : Z) : M mmap bool :=
  match fuel with
  | O => nofuel
  | S fuel' =>
      if decide (addr ≤ fin) then
        r ← mmap_find addr;
        if decide (r ≠ NULL) then mret true else
        '(_, holesz) ← mmap_holesize addr;
        mapped_loop fuel' (u32 (addr + holesz)) fin
      else mret false
  end.

(** The loop of [mmap_mapin] that finds the neighbours of a region at [start]. *)
Fixpoint place_loop (fuel : nat) (start : Z) (lft rgt : ptr) : M mmap (ptr * ptr) :=
  match fuel with
  | O => nofuel
  | S fuel' =>
      match rgt with
      | None => mret (lft, NULL)
      | Some p =>
          v ← rd (Some p);
          if decide (v_start (n_data v) < start) then
            place_loop fuel' start (if decide (vmr_upper_bound (n_data v) ≤ start) then Some p else lft) (n_next v)
          else mret (lft, Some p)
      end
  end.

(** [if (left) ...] of [mmap_mapin]: [r] goes behind [l]. *)
Definition insert_after (l r : loc) : M mmap unit :=
  upd (Some r) (set_prev (Some l));;
  v ← rd (Some l);
  (if n_next v is None then upd (Some l) (refs_add 1) else mret tt);;
  upd (Some r) (set_next (n_next v));;
  match n_next v with
  | Some nx =>
      upd (Some nx) (set_prev (Some r));;
      upd (Some r) (refs_add 1)
  | None =>
      tail ← gets vmr_tail;
      upd tail (refs_add (-1));;
      modify (λ m, {| m with vmr_tail := Some r |});;
      upd (Some r) (refs_add 1)
  end;;
  upd (Some l) (set_next (Some r));;
  upd (Some r) (refs_add 1).

(** [else if (right) ...]: [r] goes in front of [x]. *)
Definition insert_before (x r : loc) : M mmap unit :=
  upd (Some r) (set_next (Some x));;
  v ← rd (Some x);
  (if n_prev v is None then upd (Some x) (refs_add 1) else mret tt);;
  upd (Some r) (set_prev (n_prev v));;
  match n_prev v with
  | Some pv =>
      upd (Some pv) (set_next (Some r));;
      upd (Some r) (refs_add 1)
  | None =>
      head ← gets vmr_head;
      upd head (refs_add (-1));;
      modify (λ m, {| m with vmr_head := Some r |});;
      upd (Some r) (refs_add 1)
  end;;
  upd (Some x) (set_prev (Some r));;
  upd (Some r) (refs_add 1).

(** [mmap_mapin] finds the place of [r] on the list and links it there ... *)
Definition mapin_insert (r : loc) : M mmap unit :=
  head ← gets vmr_head;
  match head with
  | None =>
      modify (λ m, {| m with vmr_head := Some r; vmr_tail := Some r |});;
      upd (Some r) (refs_add 1);;
      upd (Some r) (refs_add 1)
  | Some _ =>
      v ← rd (Some r);
      n ← gets (λ m, size (vmrs m));
      '(lft, rgt) ← place_loop (S n) (v_start (n_data v)) NULL head;
      lft ← match lft with
            | Some l => w ← rd (Some l);
                if decide (v_start (n_data v) < v_start (n_data w)) then mret NULL else mret (Some l)
            | None => mret NULL
            end;
      match lft, rgt with
      | Some l, _ => insert_after l r
      | None, Some x => insert_before x r
      | None, None => mret tt
      end
  end.
(** ... after it has reset the links of [r]. *)
Definition mapin_link (r : loc) : M mmap unit :=
  upd (Some r) (set_next NULL);;
  upd (Some r) (set_prev NULL);;
  mapin_insert r.

Definition mmap_mapin (r : ptr) : M mmap Z :=
  match r with
  | None => mret (- EINVAL)
  | Some p =>
      spin_assert_lock;;
      v ← rd (Some p);
      if decide (vmr_size (n_data v) = 0) then mret (- EINVAL) else
      if decide (mmap_limit < v_end (n_data v)) then mret (- EINVAL) else
      c ← mmap_contains (Some p);
      if (c : bool) then mret (- EEXIST) else
      n ← gets (λ m, size (vmrs m));
      b ← mapped_loop (S (S n)) (v_start (n_data v)) (v_end (n_data v));
      if (b : bool) then mret (- EEXIST) else
      mapin_link p;;
      self ← gets mm_self;
      upd (Some p) (set_mmap (Some self));;
      modify (λ m, {| m with mm_refs := i32 (mm_refs m + 1) |});;
      v ← rd (Some p);
      modify (λ m, {| m with mm_used_space := u32 (mm_used_space m + vmr_size (n_data v)) |});;
      mret 0
  end.

Definition vmr_free (r : ptr) : M mmap unit :=
  match r with
  | None => mret tt
  | Some p =>
      v ← rd (Some p);
      if decide (v_refs (n_data v) ≤ 0) then upd (Some p) (λ _, Node vmr_zero NULL NULL);; kfree (Some p)
      else mret tt
  end.

(** [if (r->prev) ...] and [if (r->next) ...] of [mmap_remove]. *)
Definition remove_unlink (r : loc) : M mmap unit :=
  v ← rd (Some r);
  match n_prev v with
  | Some pv => upd (Some pv) (set_next (n_next v));; upd (Some r) (refs_add (-1))
  | None => mret tt
  end;;
  match n_next v with
  | Some nx => upd (Some nx) (set_prev (n_prev v));; upd (Some r) (refs_add (-1))
  | None => mret tt
  end.
(** [if (mmap->vmr_head == r) ...] and [if (mmap->vmr_tail == r) ...] of [mmap_remove]. *)
Definition remove_head (r : loc) : M mmap unit :=
  head ← gets vmr_head;
  if decide (head = Some r) then
    v ← rd (Some r);
    modify (λ m, {| m with vmr_head := n_next v |});;
    match n_next v with
    | Some h =>
        upd (Some h) (set_prev NULL);;
        w ← rd (Some h);
        if n_next w is None then upd (Some h) (refs_add (-1)) else mret tt
    | None => mret tt
    end
  else mret tt.
Definition remove_tail (r : loc) : M mmap unit :=
  tail ← gets vmr_tail;
  if decide (tail = Some r) then
    v ← rd (Some r);
    modify (λ m, {| m with vmr_tail := n_prev v |});;
    match n_prev v with
    | Some t =>
        upd (Some t) (set_next NULL);;
        w ← rd (Some t);
        if n_prev w is None then upd (Some t) (refs_add (-1)) else mret tt
    | None => mret tt
    end
  else mret tt.

Definition mmap_remove (r : ptr) : M mmap Z :=
  match r with
  | None => mret (- EINVAL)
  | Some p =>
      spin_assert_lock;;
      c ← mmap_contains (Some p);
      if negb c then mret (- ENOENT) else
      remove_unlink p;;
      remove_head p;;
      remove_tail p;;
      upd (Some p) (refs_add (-1));;
      upd (Some p) (set_mmap NULL);;
      modify (λ m, {| m with mm_refs := i32 (mm_refs m - 1) |});;
      v ← rd (Some p);
      log_paging (paging_unmap_mapped (v_start (n_data v)) (vmr_size (n_data v)));;
      vmr_free (Some p);;
      mret 0
  end.

Section alloc.
Context `{!Kalloc (node vmr)}.

Definition vmr_alloc : M mmap ptr := kmalloc (Node vmr_zero NULL NULL).

Definition vmr_can_split (v : vmr) (addr : Z) : bool := bool_decide (v_start v < addr ∧ addr < v_end v).

(** [pvmr] tells whether the argument of that name is not NULL.  The region
    belongs to this address space or to none ([r->mmap == NULL]). *)
Definition vmr_split (r : ptr) (addr : Z) (pvmr : bool) : M mmap (Z * ptr) :=
  match r with
  | None => mret (- EINVAL, NULL)
  | Some p =>
      v ← rd (Some p);
      if negb (vmr_can_split (n_data v) addr) then mret (- EINVAL, NULL) else
      (if pvmr then mret tt else fault);;
      new ← vmr_alloc;
      match new with
      | None => mret (- ENOMEM, NULL)
      | Some q =>
          upd (Some q) (set_data (λ d, {| d with v_end := v_end (n_data v); v_start := addr;
            v_file := v_file (n_data v); v_flags := v_flags (n_data v); v_vflags := v_vflags (n_data v) |}));;
          (if decide (v_file (n_data v) ≠ 0)
           then upd (Some q) (set_data (λ d, {| d with v_file_pos := i32 (v_file_pos d + (addr - v_start (n_data v))) |}))
           else mret tt);;
          upd (Some p) (set_end (u32 (addr - 1)));;
          self ← gets mm_self;
          err ← (if decide (v_mmap (n_data v) = Some self) then mmap_mapin (Some q) else mret (- EINVAL));
          if decide (err ≠ 0) then vmr_free (Some q);; mret (err, NULL)
          else mret (0, if pvmr then Some q else NULL)
      end
  end.

(** [while (len) ...] of [mmap_unmap]. *)
Fixpoint unmap_loop (fuel : nat) (start len : Z) : M mmap unit :=
  match fuel with
  | O => nofuel
  | S fuel' =>
      if decide (len = 0) then mret tt else
      let fin := u32 (start + len - 1) in
      e ← mmap_find_exact start fin;
      if decide (e ≠ NULL) then
        mmap_remove e;;
        unmap_loop fuel' (u32 (start + (fin - start))) (u32 (len - (fin - start)))
      else
      r ← mmap_find start;
      match r with
      | Some p =>
          v ← rd (Some p);
          let d := n_data v in
          if decide (v_start d = start) then
            if decide (len < vmr_size d) then
              upd (Some p) (set_start (u32 (v_start d + len)));;
              unmap_loop fuel' start 0
            else if decide (vmr_size d < len) then
              mmap_remove (Some p);;
              unmap_loop fuel' (vmr_upper_bound d) (u32 (len - vmr_size d))
            else unmap_loop fuel' start len
          else if decide (v_end d = start) then
            upd (Some p) (set_end (u32 (v_end d - 1)));;
            unmap_loop fuel' start len
          else
            vmr_split (Some p) start false;;
            unmap_loop fuel' start len
      | None =>
          '(_, holesz) ← mmap_holesize start;
          if decide (holesz = 0) then mret tt else
          let holesz := if decide (len < holesz) then len else holesz in
          unmap_loop fuel' (u32 (start + holesz)) (u32 (len - holesz))
      end
  end.

(** Every turn of the loop removes a region, skips a hole or is the last but one. *)
Definition mmap_unmap (start len : Z) : M mmap Z :=
  if decide (len = 0) then mret (- EINVAL) else
  spin_assert_lock;;
  if negb (valid_addr (u32 (start + len - 1))) then mret (- EINVAL) else
  n ← gets (λ m, size (vmrs m));
  unmap_loop (2 * n + 4) start len;;
  mret 0.

Definition mmap_forced_mapin (r : ptr) : M mmap Z :=
  match r with
  | None => mret (- EINVAL)
  | Some p =>
      spin_assert_lock;;
      v ← rd (Some p);
      err ← mmap_unmap (v_start (n_data v)) (vmr_size (n_data v));
      if decide (err ≠ 0) then mret err else mmap_mapin (Some p)
  end.
End alloc.

(** ** Finding room *)

(** [forlinked(tmp, first, __vmr_next(tmp))] of the two searches: the first hole
    behind [tmp] or a later region, [None] when the loop is left without a result. *)
Fixpoint hole_up (fuel : nat) (size : Z) (tmp : ptr) : M mmap (option Z) :=
  match fuel with
  | O => nofuel
  | S fuel' =>
      match tmp with
      | None => mret None
      | Some p =>
          v ← rd (Some p);
          match n_next v with
          | Some nx =>
              w ← rd (Some nx);
              if decide (size ≤ u32 (v_start (n_data w) - vmr_upper_bound (n_data v)))
              then mret (Some (vmr_upper_bound (n_data v)))
              else hole_up fuel' size (Some nx)
          | None =>
              '(_, holesz) ← mmap_holesize (vmr_upper_bound (n_data v));
              if decide (size ≤ holesz) then mret (Some (vmr_upper_bound (n_data v))) else mret None
          end
      end
  end.

(** [forlinked(tmp, first, __vmr_prev(tmp))]: the last hole in front of [tmp] or an
    earlier region, and the address of its last [size] bytes. *)
Fixpoint hole_down (fuel : nat) (size : Z) (tmp : ptr) : M mmap (option Z) :=
  match fuel with
  | O => nofuel
  | S fuel' =>
      match tmp with
      | None => mret None
      | Some p =>
          v ← rd (Some p);
          match n_prev v with
          | Some pv =>
              w ← rd (Some pv);
              if decide (size ≤ u32 (v_start (n_data v) - vmr_upper_bound (n_data w)))
              then mret (Some (u32 (v_start (n_data v) - size)))
              else hole_down fuel' size (Some pv)
          | None =>
              if decide (0 < vmr_lower_bound (n_data v)) then
                if decide (size ≤ v_start (n_data v))
                then mret (Some (u32 (v_start (n_data v) - size)))
                else hole_down fuel' size NULL
              else hole_down fuel' size NULL
          end
      end
  end.

(** Both return the error and [*paddr]. *)
Definition mmap_find_hole (size whence : Z) : M mmap (Z * Z) :=
  if decide (size = 0) then mret (- EINVAL, 0) else
  spin_assert_lock;;
  n ← gets (λ m, base.size (vmrs m));
  if decide (whence = whence_start) then
    '(_, holesz) ← mmap_holesize 0;
    if decide (size ≤ holesz) then mret (0, 0) else
    head ← gets vmr_head;
    found ← hole_up (S n) size head;
    match found with Some a => mret (0, a) | None => mret (- ENOMEM, 0) end
  else if decide (whence = whence_end) then
    limit ← gets mm_limit;
    '(_, holesz) ← mmap_holesize (u32 (limit + 1 - size));
    if decide (size ≤ holesz) then mret (0, u32 (limit + 1 - size)) else
    tail ← gets vmr_tail;
    found ← hole_down (S n) size tail;
    match found with Some a => mret (0, a) | None => mret (- ENOMEM, 0) end
  else mret (- ENOMEM, 0).

(** The [find1] part of [mmap_find_holeat]: the hole behind [p]. *)
Definition hole_behind (size : Z) (p : loc) : M mmap (option Z) :=
  v ← rd (Some p);
  match n_next v with
  | Some nx =>
      w ← rd (Some nx);
      if decide (size ≤ u32 (v_start (n_data w) - vmr_upper_bound (n_data v)))
      then mret (Some (u32 (v_start (n_data w) - size))) else mret None
  | None =>
      '(_, holesz) ← mmap_holesize (vmr_upper_bound (n_data v));
      if decide (size < holesz) then mret (Some (u32 (vmr_upper_bound (n_data v) + holesz - size)))
      else if decide (holesz = size) then mret (Some (vmr_upper_bound (n_data v)))
      else mret None
  end.

(** [near_vmr && near_vmr->prev]: the hole in front of [near]. *)
Definition hole_in_front (size : Z) (near : ptr) : M mmap (option Z) :=
  match near with
  | None => mret None
  | Some p =>
      v ← rd (Some p);
      match n_prev v with
      | Some pv =>
          w ← rd (Some pv);
          if decide (size ≤ u32 (v_start (n_data v) - vmr_upper_bound (n_data w)))
          then mret (Some (vmr_upper_bound (n_data w))) else mret None
      | None => mret None
      end
  end.

(** [if (found) { *paddr = ...; return 0; }], then the rest. *)
Definition or_else (found : option Z) (rest : M mmap (Z * Z)) : M mmap (Z * Z) :=
  match found with Some a => mret (0, a) | None => rest end.

Definition mmap_find_holeat (addr size whence : Z) : M mmap (Z * Z) :=
  if decide (size = 0) then mret (- EINVAL, 0) else
  spin_assert_lock;;
  n ← gets (λ m, base.size (vmrs m));
  near ← (if decide (addr = 0) then mret NULL
          else if decide (whence = whence_start) then '(_, next) ← mmap_find_vmr_next addr; mret next
          else if decide (whence = whence_end) then '(_, prev) ← mmap_find_vmr_prev addr; mret prev
          else mret NULL);
  if decide (whence = whence_start) then
    '(_, holesz) ← mmap_holesize addr;
    if decide (size ≤ holesz) then mret (0, addr) else
    head ← gets vmr_head;
    let near := if decide (near = NULL) then head else near in
    found ← hole_in_front size near;
    or_else found (
    found ← hole_up (S n) size near;
    or_else found (mmap_find_hole size whence))
  else if decide (whence = whence_end) then
    tail ← gets vmr_tail;
    match (if decide (near = NULL) then tail else near) with
    | None =>
        limit ← gets mm_limit;
        '(_, holesz) ← mmap_holesize (u32 (limit + 1 - size));
        if decide (size ≤ holesz) then mret (0, u32 (limit + 1 - size)) else
        found ← hole_down (S n) size NULL;
        or_else found (mmap_find_hole size whence)
    | Some p =>
        found ← hole_behind size p;
        or_else found (
        found ← hole_down (S n) size (Some p);
        or_else found (mmap_find_hole size whence))
    end
  else mmap_find_hole size whence.

(** ** Mapping, expanding and protecting *)

Section ops.
Context `{!Kalloc (node vmr)}.

(** The checks of [mmap_map_region] on its arguments; [0] when they pass. *)
Definition map_region_check (addr len prot flags : Z) : Z :=
  if has flags MAP_FIXED && negb (isaligned addr) then - EINVAL else
  if has flags MAP_FIXED && negb (valid_addr addr) then - EINVAL else
  if has flags MAP_STACK && (negb (isaligned addr) || negb (isaligned len)) then - EINVAL else
  if (has flags MAP_PRIVATE && has flags MAP_SHARED) ||
     (negb (has flags MAP_PRIVATE) && negb (has flags MAP_SHARED)) then - EINVAL else
  if has flags MAP_STACK && negb (has prot PROT_READ && has prot PROT_WRITE) then - EINVAL else
  if has prot PROT_WRITE && has prot PROT_EXEC then - EACCES else 0.

(** [r->flags] and [r->vflags] of a new region. *)
Definition region_flags (prot flags : Z) : Z :=
  Z.lor (sel (has prot PROT_EXEC) VM_EXEC) (Z.lor (sel (has prot PROT_READ) VM_READ)
  (Z.lor (sel (has prot PROT_WRITE) VM_WRITE) (Z.lor (sel (has flags MAP_ZERO) VM_ZERO)
  (Z.lor (sel (has flags MAP_SHARED) VM_SHARED) (Z.lor (sel (has flags MAP_STACK) VM_GROWSDOWN)
  (sel (has flags MAP_DONTEXPAND) VM_DONTEXPAND)))))).
Definition region_vflags (rflags mmflags : Z) : Z :=
  Z.lor (sel (has rflags VM_READ) VM_R) (Z.lor (sel (has rflags VM_WRITE) VM_W)
  (Z.lor (sel (has rflags VM_EXEC) VM_X) (sel (has mmflags MMAP_USER) VM_U))).

(** The second half of [mmap_map_region]: the region of [len] bytes at [addr]. *)
Definition map_new (addr len prot flags : Z) (pvmr : bool) : M mmap (Z * ptr) :=
  r ← vmr_alloc;
  match r with
  | None => mret (- ENOMEM, NULL)
  | Some p =>
      mmflags ← gets mm_flags;
      let rflags := region_flags prot flags in
      upd (Some p) (set_data (λ d, {| d with v_start := addr; v_end := u32 (addr + len - 1);
        v_flags := Z.lor (v_flags d) rflags; v_vflags := Z.lor (v_vflags d) (region_vflags rflags mmflags) |}));;
      err ← (if has flags MAP_FIXED then mmap_forced_mapin (Some p) else mmap_mapin (Some p));
      if decide (err ≠ 0) then vmr_free (Some p);; mret (err, NULL)
      else mret (0, if pvmr then Some p else NULL)
  end.

(** [pvmr] tells whether the argument of that name is not NULL; returns the error
    and [*pvmr]. *)
Definition mmap_map_region (addr len prot flags : Z) (pvmr : bool) : M mmap (Z * ptr) :=
  if (negb (has flags MAP_FIXED) && negb pvmr) || bool_decide (len = 0) then mret (- EINVAL, NULL) else
  spin_assert_lock;;
  let err := map_region_check addr len prot flags in
  if decide (err ≠ 0) then mret (err, NULL) else
  guard_len ← gets mm_guard_len;
  let len := if has flags MAP_STACK then u32 (len + guard_len) else len in
  let whence := if has flags MAP_STACK then whence_end else whence_start in
  '(err, addr) ← (if has flags MAP_FIXED then mret (0, addr) else mmap_find_holeat addr len whence);
  if decide (err ≠ 0) then mret (err, NULL) else
  map_new addr len prot flags pvmr.

Definition mmap_alloc_vmr (size prot flags : Z) : M mmap (Z * ptr) :=
  spin_assert_lock;;
  if has flags MAP_FIXED then mret (- EINVAL, NULL)
  else mmap_map_region 0 size prot flags true.

Definition mmap_alloc_stack (size : Z) : M mmap (Z * ptr) :=
  spin_assert_lock;;
  mmap_map_region 0 size (Z.lor PROT_READ PROT_WRITE) (Z.lor MAP_STACK MAP_PRIVATE) true.

(** The end of both halves of [mmap_vmr_expand]: the region shrinks to [newsz]. *)
Definition expand_shrink (p : loc) (newsz : Z) (shrink : node vmr → node vmr) : M mmap Z :=
  if decide (newsz < 0) then mret (- EINVAL)
  else if decide (newsz = 0) then mmap_remove (Some p)
  else upd (Some p) shrink;; mret 0.

Definition mmap_vmr_expand (r : ptr) (incr : Z) : M mmap Z :=
  match r with
  | None => mret (- EINVAL)
  | Some p =>
      if decide (incr = 0) then mret (- EINVAL) else
      spin_assert_lock;;
      v ← rd (Some p);
      let d := n_data v in
      if has (v_flags d) VM_DONTEXPAND then mret (- EINVAL) else
      let oldsz := i32 (vmr_size d) in
      let newsz := i32 (oldsz + incr) in
      let grows_down := has (v_flags d) VM_GROWSDOWN in
      if decide (oldsz < newsz) then
        let hole_addr := if grows_down then u32 (v_start d - incr) else vmr_upper_bound d in
        '(err, holesz) ← mmap_holesize hole_addr;
        if decide (err ≠ 0) then mret err else
        if decide (u32 incr ≤ holesz) then
          (if grows_down then upd (Some p) (set_start hole_addr)
           else upd (Some p) (set_end (u32 (v_start d + newsz - 1))));;
          mret 0
        else mret (- ENOMEM)
      else
        expand_shrink p newsz
          (if grows_down then set_start (u32 (v_start d + (oldsz - newsz)))
           else set_end (u32 (v_end d - (oldsz - newsz))))
  end.

(** The protection of a region, as [mmap_protect] forges it from the flags. *)
Definition forge_prot (f : Z) : Z :=
  Z.lor (sel (has f VM_READ) PROT_READ) (Z.lor (sel (has f VM_WRITE) PROT_WRITE) (sel (has f VM_EXEC) PROT_EXEC)).
(** [__vmr_mask_rwx(r)], then the bits of [prot]. *)
Definition protect_flags (f prot : Z) : Z :=
  Z.lor (Z.land f (Z.lnot (Z.lor VM_EXEC (Z.lor VM_WRITE VM_READ))))
    (Z.lor (sel (has prot PROT_READ) VM_READ)
    (Z.lor (sel (has prot PROT_EXEC) VM_EXEC) (sel (has prot PROT_WRITE) VM_WRITE))).

(** [len < __vmr_size(r)]: the parts of the region [p] outside [addr .. fin] become
    regions of their own. *)
Definition protect_split (p : loc) (v : node vmr) (addr fin : Z) : M mmap Z :=
  s0 ← vmr_alloc;
  match s0 with
  | None => mret (- ENOMEM)
  | Some q =>
      upd (Some q) (λ _, v);;
      upd (Some q) (set_refs 0);;
      upd (Some q) (λ w, set_prev NULL (set_next NULL w));;
      if decide (v_start (n_data v) = addr) then
        upd (Some p) (set_end fin);;
        upd (Some q) (set_start (u32 (fin + 1)));;
        err ← mmap_mapin (Some q);
        if decide (err ≠ 0) then
          w ← rd (Some q); upd (Some p) (set_end (v_end (n_data w)));; vmr_free (Some q);; mret err
        else mret 0
      else if decide (v_end (n_data v) = fin) then
        upd (Some p) (set_start addr);;
        upd (Some q) (set_end (u32 (addr - 1)));;
        err ← mmap_mapin (Some q);
        if decide (err ≠ 0) then
          w ← rd (Some q); upd (Some p) (set_start (v_start (n_data w)));; vmr_free (Some q);; mret err
        else mret 0
      else
        s1 ← vmr_alloc;
        match s1 with
        | None => vmr_free (Some q);; mret (- ENOMEM)
        | Some q1 =>
            upd (Some q1) (λ _, v);;
            upd (Some q) (set_refs 0);;
            upd (Some q1) (λ w, set_prev NULL (set_next NULL w));;
            upd (Some p) (set_start addr);;
            upd (Some q) (set_end (u32 (addr - 1)));;
            upd (Some p) (set_end fin);;
            upd (Some q1) (set_start (u32 (fin + 1)));;
            err ← mmap_mapin (Some q);
            if decide (err ≠ 0) then
              upd (Some p) (λ _, v);; vmr_free (Some q);; vmr_free (Some q1);; mret err
            else
            err ← mmap_mapin (Some q1);
            if decide (err ≠ 0) then
              upd (Some p) (λ _, v);; mmap_remove (Some q);; vmr_free (Some q);; vmr_free (Some q1);; mret err
            else mret 0
        end
  end.

Definition mmap_protect (addr len prot : Z) : M mmap Z :=
  let fin := u32 (addr + len - 1) in
  if decide (len = 0) then mret (- EINVAL) else
  spin_assert_lock;;
  if negb (isaligned addr) || negb (isaligned len) then mret (- EINVAL) else
  if negb (valid_addr addr) then mret (- ENOMEM) else
  r ← mmap_find_vmr_overlap addr fin;
  match r with
  | None => mret (- ENOMEM)
  | Some p =>
      v ← rd (Some p);
      let f := v_flags (n_data v) in
      if has f VM_GROWSDOWN then mret (- EACCES) else
      if decide (forge_prot f = prot) then mret 0 else
      if has prot PROT_WRITE && has prot PROT_EXEC then mret (- EACCES) else
      if has prot PROT_WRITE && has (forge_prot f) PROT_EXEC then mret (- EACCES) else
      if has prot PROT_EXEC && has (forge_prot f) PROT_WRITE then mret (- EACCES) else
      err ← (if decide (len < vmr_size (n_data v)) then protect_split p v addr fin else mret 0);
      if decide (err ≠ 0) then mret err else
      w ← rd (Some p);
      upd (Some p) (set_flags (protect_flags (v_flags (n_data w)) prot));;
      mret 0
  end.

(** ** Whole address spaces *)

Definition mmap_clean : M mmap Z :=
  spin_assert_lock;;
  limit ← gets mm_limit;
  err ← mmap_unmap 0 (u32 (limit + 1));
  if decide (err ≠ 0) then mret err else
  pgdir ← gets mm_pgdir;
  log_paging (paging_proc_unmap pgdir);;
  modify (λ m, Mmap (mm_self m) MMAP_USER 0 0 NULL NULL NULL 0 pgdir mmap_limit PAGESZ 0 NULL NULL
                    (mm_lock m) (vmrs m) (mm_paging m));;
  mret 0.

Definition mmap_init : M mmap Z :=
  spin_assert_lock;;
  err ← mmap_clean;
  if decide (err ≠ 0) then mret err else
  '(err, _) ← mmap_map_region 0 0x1000000 0 (Z.lor MAP_FIXED (Z.lor MAP_PRIVATE MAP_DONTEXPAND)) false;
  mret err.

(** [*rdst = *rsrc] and what is reset; [rsrc] may be a region of another address space. *)
Definition vmr_copy (rdst : loc) (rsrc : node vmr) : M mmap Z :=
  v ← rd (Some rdst);
  if decide (v_mmap (n_data v) ≠ NULL ∧ v_mmap (n_data v) = v_mmap (n_data rsrc)) then mret (- EINVAL) else
  upd (Some rdst) (λ _, Node {| (n_data rsrc) with v_refs := 0; v_mmap := NULL; v_priv := 0 |} NULL NULL);;
  mret 0.

Definition vmr_clone (src : node vmr) : M mmap (Z * ptr) :=
  clone ← vmr_alloc;
  match clone with
  | None => mret (- ENOMEM, NULL)
  | Some q =>
      err ← vmr_copy q src;
      if decide (err ≠ 0) then vmr_free (Some q);; mret (err, NULL) else mret (0, Some q)
  end.

(** [forlinked(tmp, src->vmr_head, tmp->next)] of [mmap_copy], which reads the
    objects [h] of the other address space. *)
Fixpoint copy_loop (fuel : nat) (h : gmap loc (node vmr)) (tmp : ptr) : M mmap Z :=
  match fuel with
  | O => nofuel
  | S fuel' =>
      match tmp with
      | None => mret 0
      | Some p =>
          match h !! p with
          | None => fault
          | Some v =>
              '(err, r) ← vmr_clone v;
              if decide (err ≠ 0) then mret err else
              err ← mmap_mapin r;
              if decide (err ≠ 0) then vmr_free r;; mret err else
              copy_loop fuel' h (n_next v)
          end
      end
  end.

(** [src->arg ? mmap_find(dst, src->arg->start) : NULL] *)
Definition find_copy (h : gmap loc (node vmr)) (p : ptr) : M mmap ptr :=
  match p with
  | None => mret NULL
  | Some l => match h !! l with Some v => mmap_find (v_start (n_data v)) | None => fault end
  end.

(** [lazycopy] is the result of the paging code's [paging_lazycopy]. *)
Definition mmap_copy (lazycopy : Z → Z → Z) (src : mmap) : M mmap Z :=
  kassert (mm_lock src);;
  spin_assert_lock;;
  modify (λ m, {| m with mm_flags := mm_flags src; mm_guard_len := mm_guard_len src; mm_limit := mm_limit src;
                  mm_refs := 0; mm_priv := 0; mm_used_space := 0; vmr_head := NULL; vmr_tail := NULL;
                  mm_heap := NULL; mm_arg := NULL; mm_env := NULL |});;
  err ← copy_loop (S (size (vmrs src))) (vmrs src) (vmr_head src);
  if decide (err ≠ 0) then mret err else
  arg ← find_copy (vmrs src) (mm_arg src);
  modify (λ m, {| m with mm_arg := arg |});;
  env ← find_copy (vmrs src) (mm_env src);
  modify (λ m, {| m with mm_env := env |});;
  heap ← find_copy (vmrs src) (mm_heap src);
  modify (λ m, {| m with mm_heap := heap |});;
  pgdir ← gets mm_pgdir;
  log_paging (paging_lazycopy pgdir (mm_pgdir src));;
  mret (lazycopy pgdir (mm_pgdir src)).
End ops.
