(* ===== verification/MmapShape.v ===== *)
(** * Address spaces: invariant and searches

    [mmap_ok m l]: the regions of [m] are those of [l], on a well-formed list, in
    the order of their addresses, without overlaps and inside the address space.
    The searches of [Mmap.v] are then functions of [l]: an address lies in a region
    or in a hole between two parts of [l] ([located]). *)
From S2P Require Import Prelude Dll Mmap.

Abbreviation regions := (list (loc * vmr)).

(** Regions in address order from [lo] on. *)
Fixpoint ordered (lo : Z) (l : regions) : Prop :=
  match l with
  | [] => True
  | (_, v) :: l' => lo ≤ v_start v ∧ v_start v ≤ v_end v ≤ mmap_limit ∧ ordered (v_end v + 1) l'
  end.
(** Where a hole behind [l] starts, and where one in front of [l] ends. *)
Fixpoint top (lo : Z) (l : regions) : Z :=
  match l with [] => lo | (_, v) :: l' => top (v_end v + 1) l' end.
Definition bottom (l : regions) : Z :=
  match l with [] => mmap_limit + 1 | (_, v) :: _ => v_start v end.

Definition in_vmr (a : Z) (v : vmr) : Prop := v_start v ≤ a ∧ a ≤ v_end v.
#[global] Instance in_vmr_dec a v : Decision (in_vmr a v).
Proof. unfold in_vmr. apply _. Defined.
Definition mapped (l : regions) (a : Z) : Prop := ∃ p v, (p, v) ∈ l ∧ in_vmr a v.
(** [n] bytes at [a] that are in no region and inside the address space. *)
Definition hole (l : regions) (a n : Z) : Prop :=
  0 ≤ a ∧ a + n ≤ mmap_limit + 1 ∧ ∀ i, a ≤ i < a + n → ¬ mapped l i.

Record mmap_ok (m : mmap) (l : regions) : Prop := MmapOk {
  ok_linked : linked (vmrs m) NULL l NULL;
  ok_head : vmr_head m = hd_or NULL l;
  ok_tail : vmr_tail m = lst_or NULL l;
  ok_lock : mm_lock m = true;
  ok_limit : mm_limit m = mmap_limit;
  ok_ordered : ordered 0 l;
  ok_owner : Forall (λ '(_, v), v_mmap v = Some (mm_self m) ∧ i32 (v_refs v) = v_refs v) l;
}.
#[global] Hint Resolve ok_linked ok_lock : kheap.

(** ** Ordered regions *)

Lemma ordered_weaken lo lo' l : lo' ≤ lo → ordered lo l → ordered lo' l.
Proof. destruct l as [|[]]; simpl; [done|]. intros ? (? & ? & ?). split; [lia|done]. Qed.
Lemma ordered_app lo l1 l2 : ordered lo (l1 ++ l2) ↔ ordered lo l1 ∧ ordered (top lo l1) l2.
Proof.
  revert lo. induction l1 as [|[p v] l1 IH]; intros lo; simpl; [naive_solver|]. rewrite IH. tauto.
Qed.
Lemma top_app lo l1 l2 : top lo (l1 ++ l2) = top (top lo l1) l2.
Proof. revert lo. induction l1 as [|[p v] l1 IH]; intros lo; simpl; auto. Qed.
Lemma top_ge lo l : ordered lo l → lo ≤ top lo l.
Proof. revert lo. induction l as [|[p v] l IH]; intros lo; simpl; [lia|]. intros (? & ? & H%IH). lia. Qed.
Lemma top_le lo l : lo ≤ mmap_limit + 1 → ordered lo l → top lo l ≤ mmap_limit + 1.
Proof. revert lo. induction l as [|[p v] l IH]; intros lo; simpl; [lia|]. intros ? (? & ? & H). apply IH in H; lia. Qed.
Lemma ordered_elem lo l p v : ordered lo l → (p, v) ∈ l → lo ≤ v_start v ∧ v_start v ≤ v_end v ≤ mmap_limit ∧ v_end v < top lo l.
Proof.
  revert lo. induction l as [|[q w] l IH]; intros lo; simpl; [set_solver|].
  intros (? & ? & Hl) [[= -> ->]|Hin]%elem_of_cons.
  - apply top_ge in Hl. lia.
  - apply IH in Hl; [|done]. lia.
Qed.
Lemma bottom_ge lo l : lo ≤ mmap_limit + 1 → ordered lo l → lo ≤ bottom l.
Proof. destruct l as [|[]]; simpl; [lia|]. lia. Qed.
Lemma bottom_le lo l : ordered lo l → bottom l ≤ mmap_limit + 1.
Proof. destruct l as [|[]]; simpl; [lia|]. lia. Qed.
Lemma bottom_elem lo l p v : ordered lo l → (p, v) ∈ l → bottom l ≤ v_start v.
Proof.
  destruct l as [|[q w] l]; [set_solver|]. simpl.
  intros (? & ? & Hl) [[= -> ->]|Hin]%elem_of_cons; [lia|]. eapply ordered_elem in Hl; [|done]. lia.
Qed.

Lemma mapped_nil a : ¬ mapped [] a.
Proof. intros (p & v & Hin & _). set_solver. Qed.
Lemma mapped_app l1 l2 a : mapped (l1 ++ l2) a ↔ mapped l1 a ∨ mapped l2 a.
Proof. unfold mapped. setoid_rewrite elem_of_app. naive_solver. Qed.
Lemma mapped_cons p v l a : mapped ((p, v) :: l) a ↔ in_vmr a v ∨ mapped l a.
Proof. unfold mapped. setoid_rewrite elem_of_cons. naive_solver. Qed.
Lemma mapped_range lo l a : ordered lo l → mapped l a → lo ≤ a ∧ bottom l ≤ a ∧ a < top lo l ∧ a ≤ mmap_limit.
Proof.
  intros Ho (p & v & Hin & [? ?]). pose proof (ordered_elem _ _ _ _ Ho Hin).
  pose proof (bottom_elem _ _ _ _ Ho Hin). lia.
Qed.

Definition before (a : Z) (l : regions) : Prop :=
  match l with [] => True | (_, v) :: _ => a < v_start v end.
Lemma before_bottom a l : a ≤ mmap_limit → before a l → a < bottom l.
Proof. destruct l as [|[]]; simpl; lia. Qed.
Lemma bottom_before a l : a < bottom l → before a l.
Proof. by destruct l as [|[]]. Qed.
Lemma before_elem lo a l p v : ordered lo l → before a l → (p, v) ∈ l → a < v_start v.
Proof.
  intros Ho Hb Hin. pose proof (bottom_elem _ _ _ _ Ho Hin).
  destruct l as [|[q w] l]; [set_solver|]. simpl in *. lia.
Qed.

(** An address is in a region or in a hole. *)
Inductive located (l : regions) (a : Z) : Prop :=
| in_region l1 p v l2 : l = l1 ++ (p, v) :: l2 → in_vmr a v → located l a
| in_hole l1 l2 : l = l1 ++ l2 → top 0 l1 ≤ a → before a l2 → located l a.

Lemma locate l a : ordered 0 l → 0 ≤ a → located l a.
Proof.
  intros Ho Ha. assert (∀ l1 l2, l = l1 ++ l2 → top 0 l1 ≤ a → located l a) as Hgo.
  2: { apply (Hgo [] l); simpl; [done|lia]. }
  intros l1 l2. revert l1. induction l2 as [|[p v] l2 IH]; intros l1 ->.
  - intros ?. by eapply in_hole.
  - intros ?. destruct (decide (a < v_start v)); [by eapply in_hole|].
    destruct (decide (a ≤ v_end v)); [eapply in_region; [done|split; lia]|].
    apply (IH (l1 ++ [(p, v)])); [by rewrite <- (assoc_L (++))|]. rewrite top_app. simpl. lia.
Qed.

(** What is known of a list split at a region, and at a hole. *)
Lemma region_view l1 p v l2 : ordered 0 (l1 ++ (p, v) :: l2) →
  ordered 0 l1 ∧ top 0 l1 ≤ v_start v ∧ v_start v ≤ v_end v ≤ mmap_limit ∧ 0 ≤ top 0 l1 ∧
  ordered (v_end v + 1) l2 ∧ v_end v + 1 ≤ bottom l2 ≤ mmap_limit + 1.
Proof.
  intros [H1 H2]%ordered_app. simpl in H2. destruct H2 as (? & ? & H2).
  pose proof (top_ge _ _ H1). pose proof (bottom_ge (v_end v + 1) l2 ltac:(lia) H2).
  pose proof (bottom_le _ _ H2). split_and!; lia || done.
Qed.
Lemma hole_view l1 l2 : ordered 0 (l1 ++ l2) →
  ordered 0 l1 ∧ ordered (top 0 l1) l2 ∧ 0 ≤ top 0 l1 ≤ bottom l2 ∧ bottom l2 ≤ mmap_limit + 1.
Proof.
  intros [H1 H2]%ordered_app. pose proof (top_ge _ _ H1). pose proof (top_le 0 l1 ltac:(done) H1).
  pose proof (bottom_ge _ _ ltac:(done) H2). pose proof (bottom_le _ _ H2). split_and!; lia || done.
Qed.
Lemma region_mapped l1 p v l2 a : ordered 0 (l1 ++ (p, v) :: l2) → in_vmr a v → mapped (l1 ++ (p, v) :: l2) a.
Proof. intros _ ?. exists p, v. split; [set_solver|done]. Qed.
Lemma gap_free l1 l2 a : ordered 0 (l1 ++ l2) → top 0 l1 ≤ a → before a l2 → ¬ mapped (l1 ++ l2) a.
Proof.
  intros [H1 H2]%ordered_app ? ? [Hm|(p & v & Hin & [??])]%mapped_app.
  - eapply mapped_range in Hm; [|done]. lia.
  - eapply before_elem in Hin; [|done..]. lia.
Qed.
Lemma gap_hole l1 l2 : ordered 0 (l1 ++ l2) → hole (l1 ++ l2) (top 0 l1) (bottom l2 - top 0 l1).
Proof.
  intros Ho. pose proof (hole_view _ _ Ho) as (? & ? & ? & ?). split_and!; [lia..|].
  intros i ?. apply gap_free; [done|lia|apply bottom_before; lia].
Qed.
Lemma bottom_mapped l1 l2 : ordered 0 (l1 ++ l2) → bottom l2 ≤ mmap_limit → mapped (l1 ++ l2) (bottom l2).
Proof.
  intros [_ H2]%ordered_app. destruct l2 as [|[p v] l2]; simpl in *; [lia|]. intros _.
  exists p, v. split; [set_solver|]. split; lia.
Qed.

Lemma gap_le l1 l2 l1' l2' a : ordered 0 (l1 ++ l2) → l1 ++ l2 = l1' ++ l2' →
  top 0 l1 ≤ a → a < bottom l2' → bottom l2 ≤ bottom l2'.
Proof.
  intros Ho Hl ??. apply Z.nlt_ge. intros ?. pose proof (hole_view _ _ Ho) as (_ & _ & _ & ?).
  apply (gap_free l1 l2 (bottom l2')); [done|lia|by apply bottom_before|]. rewrite Hl in *.
  apply bottom_mapped; [done|lia].
Qed.
Lemma in_vmr_unique l1 p v l2 q w a : ordered 0 (l1 ++ (p, v) :: l2) → in_vmr a v →
  (q, w) ∈ l1 ++ (p, v) :: l2 → in_vmr a w → q = p ∧ w = v.
Proof.
  intros (H1 & ? & ? & ? & H2 & _)%region_view [??] [Hin|[[= -> ->]|Hin]%elem_of_cons]%elem_of_app [??]; [|done|].
  - pose proof (ordered_elem _ _ _ _ H1 Hin). lia.
  - pose proof (ordered_elem _ _ _ _ H2 Hin). lia.
Qed.

(** ** Searches *)

Section searches.
Context (m : mmap) (l : regions) (Hok : mmap_ok m l).

Lemma mmap_find_eq a :
  mmap_find a m = Ok (find_loc (λ _ v, bool_decide (in_vmr a v)) l, m).
Proof using Hok.
  unfold mmap_find, spin_assert_lock, mbind, M_bind, gets. simpl. rewrite (ok_lock _ _ Hok). simpl.
  rewrite (ok_head _ _ Hok). by erewrite walk_next by apply Hok.
Qed.
Lemma mmap_contains_eq p :
  mmap_contains (Some p) m = Ok (bool_decide (p ∈ l.*1), m).
Proof using Hok.
  unfold mmap_contains, spin_assert_lock, mbind, M_bind, gets. simpl. rewrite (ok_lock _ _ Hok). simpl.
  rewrite (ok_head _ _ Hok). erewrite walk_next by apply Hok. unfold mret, M_ret.
  assert (find_loc (λ q _, bool_decide (Some q = Some p)) l = if decide (p ∈ l.*1) then Some p else NULL) as ->.
  { rewrite <- (find_loc_addr p l). clear. induction l as [|[q e] l' IH]; simpl; [done|]. rewrite IH.
    rewrite (bool_decide_ext (Some q = Some p) (Some p = Some q)); [done|split; done]. }
  do 2 f_equal. apply bool_decide_ext. destruct (decide (p ∈ l.*1)); naive_solver.
Qed.

Lemma find_in_region l1 p v l2 a : l = l1 ++ (p, v) :: l2 → in_vmr a v →
  find_loc (λ _ v, bool_decide (in_vmr a v)) l = Some p.
Proof using Hok.
  intros -> Ha. pose proof (region_view _ _ _ _ (ok_ordered _ _ Hok)) as (H1 & ? & ? & _).
  rewrite find_loc_app; simpl; [by rewrite bool_decide_true|].
  intros q e Hin. apply bool_decide_false. intros [??]. destruct Ha.
  pose proof (ordered_elem _ _ _ _ H1 Hin). lia.
Qed.
Lemma find_in_hole l1 l2 a : l = l1 ++ l2 → top 0 l1 ≤ a → before a l2 →
  find_loc (λ _ v, bool_decide (in_vmr a v)) l = NULL.
Proof using Hok.
  intros -> ??. apply find_loc_None. intros q e Hin. apply bool_decide_false. intros Ha.
  eapply (gap_free l1 l2 a); [apply Hok|done..|]. by exists q, e.
Qed.

Lemma rd_mid l1 p v l2 : l = l1 ++ (p, v) :: l2 → vmrs m !! p = Some (Node v (lst_or NULL l1) (hd_or NULL l2)).
Proof using Hok. intros ->. apply (ok_linked _ _) in Hok. apply linked_app in Hok as [_ [? _]]. done. Qed.

Lemma wp_mmap_find a (Q : ptr → mmap → Prop) :
  Q (find_loc (λ _ v, bool_decide (in_vmr a v)) l) m → wp (mmap_find a) Q m.
Proof using Hok. apply wp_eq, mmap_find_eq. Qed.
Lemma wp_mmap_contains p (Q : bool → mmap → Prop) :
  Q (bool_decide (p ∈ l.*1)) m → wp (mmap_contains (Some p)) Q m.
Proof using Hok. apply wp_eq, mmap_contains_eq. Qed.

Lemma wp_find_exact s e (Q : ptr → mmap → Prop) :
  0 ≤ s →
  (∀ l1 p v l2, l = l1 ++ (p, v) :: l2 → s = v_start v → e = v_end v → Q (Some p) m) →
  ((∀ p v, (p, v) ∈ l → s = v_start v → e = v_end v → False) → Q NULL m) →
  wp (mmap_find_exact s e) Q m.
Proof using Hok.
  intros Hs HS HN. pose proof (ok_lock _ _ Hok). unfold mmap_find_exact. wp_go. apply wp_mmap_find.
  destruct (locate l s) as [l1 p v l2 Hl Ha|l1 l2 Hl ??]; [apply Hok|done| |].
  - rewrite (find_in_region l1 p v l2) by done. pose proof (rd_mid _ _ _ _ Hl). wp_go. case_decide as Hd; wp_go.
    + apply HN. intros q w Hin -> ->. subst l.
      pose proof (ordered_elem _ _ _ _ (ok_ordered _ _ Hok) Hin).
      destruct (in_vmr_unique _ _ _ _ _ w _ (ok_ordered _ _ Hok) Ha Hin); [split; lia|]. subst w. tauto.
    + eapply HS; [done| |]; apply dec_stable; tauto.
  - rewrite (find_in_hole l1 l2) by done. wp_go. apply HN. intros p v Hin -> ->.
    eapply (gap_free l1 l2); [subst l; apply Hok|done..|]. subst l. exists p, v. split; [done|].
    pose proof (ordered_elem _ _ _ _ (ok_ordered _ _ Hok) Hin). split; lia.
Qed.

Lemma wp_find_vmr_next a (Q : ptr * ptr → mmap → Prop) :
  0 ≤ a →
  (∀ l1 p v l2, l = l1 ++ (p, v) :: l2 → in_vmr a v → Q (Some p, hd_or NULL l2) m) →
  (∀ l1 l2, l = l1 ++ l2 → top 0 l1 ≤ a → before a l2 → Q (NULL, hd_or NULL l2) m) →
  wp (mmap_find_vmr_next a) Q m.
Proof using Hok.
  intros Ha HS HN. pose proof (ok_lock _ _ Hok). unfold mmap_find_vmr_next. wp_go. apply wp_mmap_find.
  destruct (locate l a) as [l1 p v l2 Hl Hin|l1 l2 Hl Ht Hb]; [apply Hok|done| |].
  - rewrite (find_in_region l1 p v l2) by done. pose proof (rd_mid _ _ _ _ Hl). wp_go. eauto.
  - rewrite (find_in_hole l1 l2) by done. wp_go. rewrite (ok_head _ _ Hok).
    eapply wp_eq; [eapply walk_next; apply Hok|]. wp_go.
    assert (find_loc (λ _ v, bool_decide (a < v_start v)) l = hd_or NULL l2) as ->; [|by eauto].
    subst l. pose proof (hole_view _ _ (ok_ordered _ _ Hok)) as (H1 & H2 & _).
    rewrite find_loc_app; [destruct l2 as [|[q w] l2]; simpl in *; [done|by rewrite bool_decide_true]|].
    intros q w Hin. apply bool_decide_false. pose proof (ordered_elem _ _ _ _ H1 Hin). lia.
Qed.

Lemma wp_find_vmr_prev a (Q : ptr * ptr → mmap → Prop) :
  0 ≤ a →
  (∀ l1 p v l2, l = l1 ++ (p, v) :: l2 → in_vmr a v → Q (Some p, lst_or NULL l1) m) →
  (∀ l1 l2, l = l1 ++ l2 → top 0 l1 ≤ a → before a l2 → Q (NULL, lst_or NULL l1) m) →
  wp (mmap_find_vmr_prev a) Q m.
Proof using Hok.
  intros Ha HS HN. pose proof (ok_lock _ _ Hok). unfold mmap_find_vmr_prev. wp_go. apply wp_mmap_find.
  destruct (locate l a) as [l1 p v l2 Hl Hin|l1 l2 Hl Ht Hb]; [apply Hok|done| |].
  - rewrite (find_in_region l1 p v l2) by done. pose proof (rd_mid _ _ _ _ Hl). wp_go. eauto.
  - rewrite (find_in_hole l1 l2) by done. wp_go. rewrite (ok_tail _ _ Hok).
    eapply wp_eq; [eapply walk_prev; apply Hok|]. wp_go.
    assert (find_loc (λ _ v, bool_decide (v_end v < a)) (reverse l) = lst_or NULL l1) as ->; [|by eauto].
    subst l. pose proof (hole_view _ _ (ok_ordered _ _ Hok)) as (H1 & H2 & _).
    rewrite reverse_app, find_loc_app.
    + destruct l1 as [|[q w] l1 _] using rev_ind; [done|]. rewrite reverse_snoc, lst_or_snoc. simpl.
      rewrite bool_decide_true; [done|]. rewrite top_app in Ht. simpl in Ht. lia.
    + intros q w Hin. rewrite elem_of_reverse in Hin. apply bool_decide_false.
      pose proof (ordered_elem _ _ _ _ H2 Hin). pose proof (before_elem _ _ _ _ _ H2 Hb Hin). lia.
Qed.

Lemma wp_holesize a (Q : Z * Z → mmap → Prop) :
  0 ≤ a →
  (mmap_limit < a → Q (- EINVAL, 0) m) →
  (a ≤ mmap_limit → mapped l a → Q (- EINVAL, 0) m) →
  (∀ l1 l2, l = l1 ++ l2 → top 0 l1 ≤ a → a < bottom l2 → a ≤ mmap_limit → Q (0, bottom l2 - a) m) →
  wp (mmap_holesize a) Q m.
Proof using Hok.
  intros Ha HL HM HN. pose proof (ok_lock _ _ Hok). unfold mmap_holesize. wp_go. rewrite (ok_limit _ _ Hok).
  case_decide as Hlim; wp_go; [by apply HL|]. apply wp_mmap_find.
  destruct (locate l a) as [l1 p v l2 Hl Hin|l1 l2 Hl Ht Hb]; [apply Hok|done| |].
  - rewrite (find_in_region l1 p v l2) by done. simpl. wp_go. apply HM; [lia|]. subst l.
    apply region_mapped; [apply Hok|done].
  - rewrite (find_in_hole l1 l2) by done. simpl. wp_go.
    apply wp_find_vmr_next; [done| |].
    + intros l1' p v l2' -> Hin. exfalso. eapply (gap_free l1 l2 a); rewrite <-?Hl; [apply Hok|done..|].
      apply region_mapped; [apply Hok|done].
    + clear l1 l2 Hl Ht Hb. intros l1 l2 Hl Ht Hb. pose proof (ok_ordered _ _ Hok) as Ho. rewrite Hl in Ho.
      pose proof (before_bottom a l2 ltac:(lia) Hb). pose proof (hole_view _ _ Ho) as (H1 & H2 & ? & ?).
      assert (mmap_limit + 1 < 2 ^ 32) by done.
      pose proof (HN l1 l2 Hl Ht ltac:(done) ltac:(lia)) as HQ. destruct l2 as [|[q w] l2]; simpl in *.
      * wp_go. by rewrite u32_small by lia.
      * pose proof (rd_mid _ _ _ _ Hl). wp_go. by rewrite u32_small by lia.
Qed.

Lemma wp_holesize_gap l1 l2 a (Q : Z * Z → mmap → Prop) :
  l = l1 ++ l2 → top 0 l1 ≤ a → a < bottom l2 → Q (0, bottom l2 - a) m → wp (mmap_holesize a) Q m.
Proof using Hok.
  intros Hl Ht Hb HQ. pose proof (ok_ordered _ _ Hok) as Ho. rewrite Hl in Ho. pose proof (hole_view _ _ Ho) as (_ & _ & ? & ?).
  apply wp_holesize; [lia|lia| |].
  - intros _ Hm. exfalso. apply (gap_free l1 l2 a); [done|done|by apply bottom_before|by rewrite <- Hl].
  - intros l1' l2' Hl' ? ? _. assert (bottom l2' = bottom l2) as ->; [|done]. rewrite Hl in Hl'.
    apply Z.le_antisymm; [|by eapply gap_le]. eapply gap_le; [by rewrite <- Hl'|by symmetry|done..].
Qed.
End searches.

(** ** An address space with two regions *)

Definition demo_regions : regions :=
  [(1%positive, Vmr 2 6 7 0 0 0 0 (Some 9%positive) 0 0 0x1000 0x2FFF);
   (2%positive, Vmr 2 6 7 0 0 0 0 (Some 9%positive) 0 0 0x5000 0x5FFF)].
Definition mmap_demo : mmap :=
  Mmap 9%positive MMAP_USER 2 0 NULL NULL (Some 2%positive) 0 0 mmap_limit PAGESZ 0x3000 (Some 1%positive) (Some 2%positive) true
    {[1%positive := Node (Vmr 2 6 7 0 0 0 0 (Some 9%positive) 0 0 0x1000 0x2FFF) NULL (Some 2%positive);
      2%positive := Node (Vmr 2 6 7 0 0 0 0 (Some 9%positive) 0 0 0x5000 0x5FFF) (Some 1%positive) NULL;
      3%positive := Node (Vmr 0 6 7 0 0 0 0 NULL 0 0 0x3000 0x3FFF) NULL NULL]} [].
Lemma mmap_demo_ok : mmap_ok mmap_demo demo_regions.
Proof. constructor; try done. repeat constructor. Qed.
