(* ===== verification/MmapEdit.v ===== *)
(** * Address spaces: inserting and removing regions

    [mmap_mapin] and [mmap_remove] against the invariant of [MmapShape.v]. *)
From S2P Require Import Prelude Dll Mmap MmapShape.

#[global] Arguments mmap_find addr : simpl never.
#[global] Arguments mmap_contains r : simpl never.
#[global] Arguments mmap_holesize addr : simpl never.
#[global] Arguments mapped_loop fuel addr fin : simpl never.
#[global] Arguments place_loop fuel start lft rgt : simpl never.

(** The fields of an address space that editing its list leaves alone. *)
Definition config (m : mmap) :=
  (mm_self m, mm_flags m, mm_priv m, (mm_arg m, mm_env m, mm_heap m), mm_brk m, mm_pgdir m,
   (mm_limit m, mm_guard_len m, mm_lock m)).
Definition untouched (ps : list loc) (m m' : mmap) : Prop := ∀ q, q ∉ ps → vmrs m' !! q = vmrs m !! q.

(** A region once it is mapped in: two references more, and its owner. *)
Definition owned (self : loc) (v : vmr) : vmr :=
  {| v with v_refs := i32 (i32 (v_refs v + 1) + 1); v_mmap := Some self |}.

Lemma i32_add z d : i32 (i32 z + d) = i32 (z + d).
Proof.
  unfold i32. f_equal. replace ((z + 2 ^ 31) `mod` 2 ^ 32 - 2 ^ 31 + d + 2 ^ 31) with ((z + 2 ^ 31) `mod` 2 ^ 32 + d) by lia.
  rewrite Zplus_mod_idemp_l. f_equal. lia.
Qed.
Lemma refs_add_sub n : i32 (v_refs (n_data n)) = v_refs (n_data n) → refs_add (-1) (refs_add 1 n) = n.
Proof.
  intros H. destruct n as [v a b]. unfold refs_add, set_data. simpl in *. f_equal. rewrite i32_add.
  replace (v_refs v + 1 + -1) with (v_refs v) by lia. rewrite H. by destruct v.
Qed.

Lemma ok_length m l : mmap_ok m l → (length l ≤ size (vmrs m))%nat.
Proof. intros []. eauto using linked_length, linked_NoDup. Qed.
Lemma ok_NoDup m l : mmap_ok m l → NoDup l.*1.
Proof. intros []. eauto using linked_NoDup. Qed.

Lemma wp_mapped_loop n m l a e (Q : bool → mmap → Prop) :
  mmap_ok m l → 0 ≤ a → e ≤ mmap_limit →
  (∀ i, a ≤ i ≤ e → mapped l i → Q true m) →
  ((∀ i, a ≤ i ≤ e → ¬ mapped l i) → Q false m) →
  wp (mapped_loop (S (S n)) a e) Q m.
Proof.
  intros Hok Ha He HT HF. unfold mapped_loop; fold mapped_loop. assert (mmap_limit + 1 < 2 ^ 32) by done.
  destruct (decide (a ≤ e)); [|wp_go; apply HF; lia].
  wp_go. apply (wp_mmap_find _ _ Hok).
  destruct (locate l a) as [l1 p v l2 Hl Hin|l1 l2 Hl Ht Hb]; [apply Hok|done| |].
  { rewrite (find_in_region _ _ Hok l1 p v l2) by done. simpl. wp_go. apply (HT a); [lia|]. by exists p, v; subst; set_solver. }
  rewrite (find_in_hole _ _ Hok l1 l2) by done. simpl. wp_go.
  eapply (wp_holesize _ _ Hok); [done|lia| |].
  { intros _ Hm. exfalso. eapply (gap_free l1 l2); subst; [apply Hok|done..]. }
  clear l1 l2 Hl Ht Hb. intros l1 l2 -> Ht Hb _. pose proof (ok_ordered _ _ Hok) as Ho.
  pose proof (hole_view _ _ Ho) as (_ & _ & ? & ?).
  wp_go. rewrite u32_small by lia. replace (a + (bottom l2 - a)) with (bottom l2) by lia.
  case_decide.
  - wp_go. apply (wp_mmap_find _ _ Hok). destruct l2 as [|[q w] l2]; simpl in *; [lia|].
    pose proof (region_view _ _ _ _ Ho) as (_ & _ & ? & _).
    rewrite (find_in_region _ _ Hok l1 q w l2); [|done|split; lia]. simpl. wp_go.
    apply (HT (v_start w)); [lia|]. exists q, w. split; [set_solver|split; lia].
  - wp_go. apply HF. intros i ?. apply gap_free; [done|lia|apply bottom_before; lia].
Qed.

Lemma wp_place_loop fuel m pv la lb start lft (Q : ptr * ptr → mmap → Prop) :
  linked (vmrs m) pv (la ++ lb) NULL → (length la < fuel)%nat →
  (∀ q w, (q, w) ∈ la → v_start w < start ∧ vmr_upper_bound w ≤ start) → before start lb →
  Q (lst_or lft la, hd_or NULL lb) m → wp (place_loop fuel start lft (hd_or NULL (la ++ lb))) Q m.
Proof.
  revert fuel pv lft. induction la as [|[q w] la IH]; intros [|fuel] pv lft Hl Hf Hla Hlb HQ; simpl in Hf; try lia;
    unfold place_loop; fold place_loop; simpl.
  - destruct lb as [|[q w] lb]; simpl in *; [by wp_go|]. destruct Hl as [Hq _]. wp_go.
    rewrite decide_False by lia. by wp_go.
  - simpl in Hl. destruct Hl as [Hq Hl]. wp_go. destruct (Hla q w) as [??]; [left|].
    rewrite !decide_True by done. eapply IH; [done|lia| |done..]. intros q' w' ?. apply (Hla q'). by right.
Qed.
#[global] Arguments insert_after l r : simpl never.
#[global] Arguments insert_before x r : simpl never.
(** ** Inserting *)

Definition link_state (m : mmap) (h : gmap loc (node vmr)) (l : regions) : mmap :=
  {| m with vmrs := h; vmr_head := hd_or NULL l; vmr_tail := lst_or NULL l |}.

(** [refs += 2] *)
Definition listed (v : vmr) : vmr := {| v with v_refs := i32 (i32 (v_refs v + 1) + 1) |}.

(** The heap that has [p] between [l1] and [l2]. *)
Definition inserted (h h' : gmap loc (node vmr)) (l1 : regions) (p : loc) (v : vmr) (l2 : regions) : Prop :=
  linked h' NULL (l1 ++ (p, v) :: l2) NULL ∧ ∀ q, q ∉ p :: (l1 ++ l2).*1 → h' !! q = h !! q.

Section insert.
Context (m : mmap) (l1 l2 : regions) (p : loc) (v : vmr).
Context (Hl : linked (vmrs m) NULL (l1 ++ l2) NULL) (Hp : vmrs m !! p = Some (Node v NULL NULL)).
Context (Hni : p ∉ (l1 ++ l2).*1) (Hhd : vmr_head m = hd_or NULL (l1 ++ l2)) (Htl : vmr_tail m = lst_or NULL (l1 ++ l2)).
Context (Hrefs : Forall (λ '(_, w), i32 (v_refs w) = v_refs w) (l1 ++ l2)).

Lemma mapin_inserted h' :
  h' !! p = Some (Node (listed v) (lst_or NULL l1) (hd_or NULL l2)) →
  (∀ q, q ≠ p → h' !! q =
    alter_opt (set_prev (Some p)) (hd_or NULL l2) (alter_opt (set_next (Some p)) (lst_or NULL l1) (vmrs m)) !! q) →
  inserted (vmrs m) h' l1 p (listed v) l2.
Proof using Hl Hp Hni.
  intros Hp' Hq. split.
  - eapply linked_insert_mid; [by eapply linked_NoDup|done..|]. intros q Hin. apply Hq. congruence.
  - intros q [? Hq']%not_elem_of_cons. rewrite Hq by done. rewrite fmap_app, not_elem_of_app in Hq'.
    rewrite !lookup_alter_opt_ne; [done| |]; [intros [[??]|?]%lst_or_elem|intros [[??]|?]%hd_or_elem]; tauto || done.
Qed.

Lemma link_intro (Q : unit → mmap → Prop) s L :
  (∀ h', inserted (vmrs m) h' l1 p (listed v) l2 → Q tt (link_state m h' L)) →
  s = link_state m (vmrs s) L →
  vmrs s !! p = Some (Node (listed v) (lst_or NULL l1) (hd_or NULL l2)) →
  (∀ q, q ≠ p → vmrs s !! q =
    alter_opt (set_prev (Some p)) (hd_or NULL l2) (alter_opt (set_next (Some p)) (lst_or NULL l1) (vmrs m)) !! q) →
  Q tt s.
Proof using Hl Hp Hni. intros HQ -> ??. apply HQ. by apply mapin_inserted. Qed.

Lemma wp_insert_after q (Q : unit → mmap → Prop) :
  lst_or NULL l1 = Some q →
  (∀ h', inserted (vmrs m) h' l1 p (listed v) l2 → Q tt (link_state m h' (l1 ++ (p, listed v) :: l2))) →
  wp (insert_after q p) Q m.
Proof using All.
  intros Hlast HQ. destruct (lst_or_inv _ _ Hlast) as (l1' & w & El1).
  assert (p ≠ q) by (intros ->; apply Hni; rewrite El1, !fmap_app; csimpl; set_solver).
  assert (vmrs m !! q = Some (Node w (lst_or NULL l1') (hd_or NULL l2))) as Hq.
  { pose proof Hl as Hl'. rewrite El1, <- (assoc_L (++)) in Hl'. apply linked_app in Hl' as [_ [? _]]. done. }
  assert (vmr_head m = hd_or NULL (l1 ++ (p, listed v) :: l2)) as Hhd' by (by rewrite Hhd, El1, !hd_or_app; destruct l1').
  unfold insert_after. wp_go.
  destruct (hd_or NULL l2) as [x|] eqn:Ex; simpl; wp_go.
  - assert (x ∈ l2.*1) as Hx by (apply hd_or_elem in Ex as [[??]|?]; done).
    assert (x ≠ p ∧ x ≠ q) as [??].
    { pose proof (linked_NoDup _ _ _ Hl) as Hnd. rewrite fmap_app in Hnd, Hni. apply NoDup_app in Hnd as (_ & Hd & _).
      split; [set_solver|]. intros ->. apply (Hd q); [|done]. rewrite El1, fmap_app. set_solver. }
    destruct (linked_is_Some _ _ _ _ x Hl) as [xn Hxn]; [rewrite fmap_app; set_solver|].
    wp_go. eapply link_intro; [exact HQ| | |]; rewrite ?Hlast, ?Ex; simpl.
    + unfold link_state. rewrite <- Hhd'. replace (lst_or NULL (l1 ++ (p, listed v) :: l2)) with (vmr_tail m); [done|].
      rewrite Htl, !lst_or_app. simpl. destruct l2 as [|[]]; done.
    + by lookup_norm.
    + intros r ?. destruct (decide (r = q)) as [->|?]; [|destruct (decide (r = x)) as [->|?]]; by lookup_norm.
  - assert (l2 = []) as El2 by (by destruct l2 as [|[]]).
    rewrite Htl, El2, app_nil_r, Hlast. wp_go. 
    eapply link_intro; [exact HQ| | |]; rewrite ?Hlast, ?Ex; simpl.
    + unfold link_state. rewrite <- Hhd'. rewrite El2, lst_or_snoc. done.
    + by lookup_norm.
    + intros r ?. destruct (decide (r = q)) as [->|?]; lookup_norm; [|done]. simpl. rewrite refs_add_sub; [done|].
      rewrite El1, !Forall_app in Hrefs. destruct Hrefs as [[_ Hr] _]. by apply Forall_cons in Hr as [? _].
Qed.

Lemma wp_insert_before x w l2' (Q : unit → mmap → Prop) :
  l1 = [] → l2 = (x, w) :: l2' →
  (∀ h', inserted (vmrs m) h' l1 p (listed v) l2 → Q tt (link_state m h' (l1 ++ (p, listed v) :: l2))) →
  wp (insert_before x p) Q m.
Proof using All.
  intros El1 El2 HQ.
  assert (vmrs m !! x = Some (Node w NULL (hd_or NULL l2'))) as Hx.
  { pose proof Hl as Hl'. rewrite El1, El2 in Hl'. apply Hl'. }
  assert (p ≠ x) by (intros ->; apply Hni; rewrite El1, El2; csimpl; set_solver).
  assert (vmr_head m = Some x) as Hhd' by (by rewrite Hhd, El1, El2).
  unfold insert_before. wp_go. rewrite Hhd'. wp_go.
  eapply link_intro; [exact HQ| | |]; simpl.
  - unfold link_state. replace (lst_or NULL (l1 ++ (p, listed v) :: l2)) with (vmr_tail m); [by rewrite El1|].
    by rewrite Htl, El1, El2.
  - rewrite El1, El2. by lookup_norm.
  - rewrite El1, El2. simpl. intros r ?. destruct (decide (r = x)) as [->|?]; lookup_norm; [|done]. simpl.
    rewrite refs_add_sub; [done|]. rewrite El1, El2 in Hrefs. by apply Forall_cons in Hrefs as [? _].
Qed.

Lemma wp_mapin_insert (Q : unit → mmap → Prop) :
  ordered 0 (l1 ++ l2) → top 0 l1 ≤ v_start v → before (v_start v) l2 →
  (∀ h', inserted (vmrs m) h' l1 p (listed v) l2 → Q tt (link_state m h' (l1 ++ (p, listed v) :: l2))) →
  wp (mapin_insert p) Q m.
Proof using All.
  intros Ho Ht Hb HQ. unfold mapin_insert. wp_go.
  destruct (decide (l1 ++ l2 = [])) as [[E1 E2]%app_nil|Hne].
  - rewrite Hhd, E1, E2. simpl. wp_go. eapply link_intro; [exact HQ| | |]; rewrite ?E1, ?E2; simpl.
    + done.
    + by lookup_norm.
    + intros r ?. by lookup_norm.
  - destruct (hd_or_ne _ Hne) as [x Ehd]. rewrite <- Hhd in Ehd. rewrite Ehd. wp_go. rewrite <- Ehd, Hhd.
    pose proof (hole_view _ _ Ho) as (H1 & _). assert (mmap_limit + 1 < 2 ^ 32) by done.
    eapply wp_place_loop; [exact Hl| | |done|].
    + pose proof (linked_length _ _ _ _ (linked_NoDup _ _ _ Hl) Hl) as Hlen. rewrite length_app in Hlen. lia.
    + intros q w Hin. pose proof (ordered_elem _ _ _ _ H1 Hin). unfold vmr_upper_bound. rewrite u32_small; lia.
    + wp_go. destruct (lst_or NULL l1) as [q|] eqn:Eq.
      * destruct (lst_or_inv _ _ Eq) as (l1' & w & El1). 
        assert (∃ a b, vmrs m !! q = Some (Node w a b)) as (? & ? & Hq).
        { eapply linked_elem; [exact Hl|]. rewrite El1. set_solver. }
        wp_go. rewrite decide_False; [by wp_go; apply wp_insert_after|].
        assert ((q, w) ∈ l1) as Hin by (rewrite El1; clear; set_solver).
        pose proof (ordered_elem _ _ _ _ H1 Hin). lia.
      * apply lst_or_NULL in Eq. rewrite Eq in Hne.
        assert (∃ y w l2', l2 = (y, w) :: l2') as (y & w & l2' & El2) by (destruct l2 as [|[]]; [done|eauto]).
        wp_go. rewrite El2. wp_go. by eapply wp_insert_before.
Qed.
End insert.

#[global] Arguments mapin_insert r : simpl never.

Lemma wp_mapin_link m l1 l2 p v a b (Q : unit → mmap → Prop) :
  mmap_ok m (l1 ++ l2) → vmrs m !! p = Some (Node v a b) → p ∉ (l1 ++ l2).*1 →
  top 0 l1 ≤ v_start v → before (v_start v) l2 →
  (∀ h', inserted (vmrs m) h' l1 p (listed v) l2 → Q tt (link_state m h' (l1 ++ (p, listed v) :: l2))) →
  wp (mapin_link p) Q m.
Proof.
  intros [Hl Hhd Htl _ _ Ho Hown] Hp Hni Ht Hb HQ. unfold mapin_link. wp_go.
  set (h := alter (set_prev NULL) p (alter (set_next NULL) p (vmrs m))).
  assert (∀ q, q ≠ p → h !! q = vmrs m !! q) as Hh by (intros q ?; unfold h; by lookup_norm).
  eapply (wp_mapin_insert _ l1 l2 p v); simpl; try done.
  - eapply linked_ext; [|done]. intros q Hq. apply Hh. congruence.
  - unfold h. by lookup_norm.
  - eapply Forall_impl; [exact Hown|]. intros []. tauto.
  - intros h' [? Hq]. apply HQ. split; [done|]. intros q [? ?]%not_elem_of_cons. rewrite Hq, Hh by set_solver. done.
Qed.
#[global] Arguments mmap_mapin r : simpl never.

(** [m'] is [m] with the region [v] at [p] mapped in between [l1] and [l2]. *)
Record inserts (m m' : mmap) (l1 : regions) (p : loc) (v : vmr) (l2 : regions) : Prop := {
  ins_ok : mmap_ok m' (l1 ++ (p, owned (mm_self m) v) :: l2);
  ins_config : config m' = config m;
  ins_untouched : untouched (p :: (l1 ++ l2).*1) m m';
  ins_paging : mm_paging m' = mm_paging m;
  ins_refs : mm_refs m' = i32 (mm_refs m + 1);
  ins_used : mm_used_space m' = u32 (mm_used_space m + (v_end v - v_start v + 1));
}.

Lemma vmr_size_eq v : 0 ≤ v_start v ≤ v_end v → v_end v ≤ mmap_limit → vmr_size v = v_end v - v_start v + 1.
Proof. intros. unfold vmr_size. apply u32_small. assert (mmap_limit + 1 < 2 ^ 32) by done. lia. Qed.
Lemma ordered_insert l1 p v l2 : ordered 0 (l1 ++ l2) → top 0 l1 ≤ v_start v → v_start v ≤ v_end v ≤ mmap_limit →
  v_end v < bottom l2 → ordered 0 (l1 ++ (p, v) :: l2).
Proof.
  intros [H1 H2]%ordered_app ???. apply ordered_app. simpl. split_and!; [done|lia..|].
  destruct l2 as [|[q w] l2]; simpl in *; [done|]. split_and!; [lia|lia|lia|apply H2].
Qed.

Lemma wp_mmap_mapin m l p v a b (Q : Z → mmap → Prop) :
  mmap_ok m l → vmrs m !! p = Some (Node v a b) → p ∉ l.*1 → 0 ≤ v_start v ≤ v_end v → v_end v ≤ mmap_limit →
  (∀ i, in_vmr i v → mapped l i → Q (- EEXIST) m) →
  (∀ m' l1 l2, l = l1 ++ l2 → top 0 l1 ≤ v_start v → v_end v < bottom l2 → inserts m m' l1 p v l2 → Q 0 m') →
  wp (mmap_mapin (Some p)) Q m.
Proof.
  intros Hok Hp Hni Hv He HM HI. pose proof (ok_lock _ _ Hok) as Hlk. unfold mmap_mapin. wp_go.
  rewrite decide_False by (rewrite vmr_size_eq; lia). rewrite decide_False by lia. wp_go.
  apply (wp_mmap_contains _ _ Hok). rewrite bool_decide_false by done. wp_go.
  eapply wp_mapped_loop; [done|lia|lia| |].
  { intros i ??. wp_go. by eapply HM. }
  intros Hfree. wp_go.
  destruct (locate l (v_start v)) as [l1 q w l2 Hl Hin|l1 l2 Hl Ht Hb]; [apply Hok|lia| |].
  { exfalso. apply (Hfree (v_start v)); [lia|]. subst l. apply region_mapped; [apply Hok|done]. }
  assert (v_end v < bottom l2) as Hend.
  { destruct (decide (v_end v < bottom l2)) as [|Hn]; [done|]. exfalso. subst l.
    pose proof (before_bottom (v_start v) _ ltac:(lia) Hb). apply (Hfree (bottom l2)); [lia|].
    apply bottom_mapped; [apply Hok|lia]. }
  subst l. eapply wp_mapin_link; [done..|]. intros h' [Hl' Hq]. 
  pose proof (linked_app h' NULL l1 ((p, listed v) :: l2) NULL) as Hmid. apply Hmid in Hl' as Hl''. destruct Hl'' as [_ [Hp' _]].
  wp_go. 
  eapply HI; [done..|]. pose proof Hok as [Hl Hhd Htl _ Hlim Ho Hown].
  constructor; simpl; [constructor; simpl| | | | |].
  - apply (linked_set_data _ _ _ _ _ _ _ (λ v, {| v with v_mmap := Some (mm_self m) |})) in Hl'; [exact Hl'|].
    by eapply linked_NoDup.
  - by rewrite !hd_or_app.
  - by rewrite !lst_or_app.
  - done.
  - done.
  - apply (ordered_insert _ _ (owned (mm_self m) v)); simpl; [done|lia..].
  - apply Forall_app in Hown as [H1 H2]. apply Forall_app. split; [done|]. apply Forall_cons. split; [|done].
    simpl. rewrite i32_idem. done.
  - done.
  - intros q Hnq. simpl. assert (q ≠ p) by set_solver. lookup_norm. by apply Hq.
  - done.
  - done.
  - rewrite vmr_size_eq by (simpl; lia). done.
Qed.
(** ** Removing *)

#[global] Arguments remove_head r : simpl never.
#[global] Arguments remove_tail r : simpl never.
#[global] Arguments vmr_free r : simpl never.
#[global] Arguments mmap_remove r : simpl never.

(** A region that is left alone on the list loses a reference. *)
Definition settle (l : regions) : regions :=
  match l with
  | [(x, w)] => [(x, {| w with v_refs := i32 (v_refs w - 1) |})]
  | _ => l
  end.
Lemma settle_locs l : (settle l).*1 = l.*1.
Proof. by destruct l as [|[x w] [|[y u] l]]. Qed.
Lemma settle_hd l : hd_or NULL (settle l) = hd_or NULL l.
Proof. by destruct l as [|[x w] [|[y u] l]]. Qed.
Lemma settle_lst l : lst_or NULL (settle l) = lst_or NULL l.
Proof. by destruct l as [|[x w] [|[y u] l]]. Qed.
Lemma settle_mapped l a : mapped (settle l) a ↔ mapped l a.
Proof. destruct l as [|[x w] [|[y u] l]]; try done. simpl. rewrite !mapped_cons. done. Qed.
Lemma settle_ordered lo l : ordered lo l → ordered lo (settle l).
Proof. by destruct l as [|[x w] [|[y u] l]]. Qed.

Lemma wp_remove_head m l1 p d l2 (Q : unit → mmap → Prop) :
  linked (vmrs m) NULL (l1 ++ l2) NULL → p ∉ (l1 ++ l2).*1 →
  vmrs m !! p = Some (Node d (lst_or NULL l1) (hd_or NULL l2)) →
  vmr_head m = hd_or NULL (l1 ++ (p, d) :: l2) →
  (∀ h', linked h' NULL (if l1 is [] then settle l2 else l1 ++ l2) NULL →
    (∀ q, q ∉ (l1 ++ l2).*1 → h' !! q = vmrs m !! q) →
    Q tt {| m with vmr_head := hd_or NULL (l1 ++ l2); vmrs := h' |}) →
  wp (remove_head p) Q m.
Proof.
  intros Hl Hni Hp Hhd HQ. unfold remove_head. wp_go. rewrite Hhd. destruct l1 as [|[y u] l1]; simpl in *.
  - rewrite decide_True by done. wp_go. destruct l2 as [|[x w] l2]; simpl in *.
    + wp_go. by apply HQ.
    + destruct Hl as [Hx Hl]. assert (x ≠ p) by (intros ->; set_solver). wp_go.
      assert (linked (alter (set_prev NULL) x (vmrs m)) NULL ((x, w) :: l2) NULL) as Hl'.
      { apply (linked_set_prev (vmrs m) NULL ((x, w) :: l2)); [by eapply (linked_NoDup _ NULL)|done]. }
      destruct l2 as [|[z u] l2]; simpl; wp_go; apply HQ.
      * simpl. apply (linked_set_data _ _ [] _ _ [] _ (λ v, {| v with v_refs := i32 (v_refs v + -1) |})) in Hl'; [done|].
        by eapply linked_NoDup.
      * intros q Hq. assert (q ≠ x) by set_solver. by lookup_norm.
      * done.
      * intros q Hq. assert (q ≠ x) by set_solver. by lookup_norm.
  - rewrite decide_False by (intros [= ->]; set_solver). wp_go. 
    match goal with |- Q tt ?s => replace s with {| m with vmr_head := Some y; vmrs := vmrs m |}; [by apply HQ|] end.
    destruct m. simpl in *. by subst.
Qed.

Lemma wp_remove_tail m l1 p d l2 (Q : unit → mmap → Prop) :
  linked (vmrs m) NULL (if l2 is [] then l1 else []) NULL → p ∉ (l1 ++ l2).*1 →
  vmrs m !! p = Some (Node d (lst_or NULL l1) (hd_or NULL l2)) →
  vmr_tail m = lst_or NULL (l1 ++ (p, d) :: l2) →
  (∀ h', (l2 = [] → linked h' NULL (settle l1) NULL) → (l2 ≠ [] → h' = vmrs m) →
    (∀ q, q ∉ l1.*1 → h' !! q = vmrs m !! q) →
    Q tt {| m with vmr_tail := lst_or NULL (l1 ++ l2); vmrs := h' |}) →
  wp (remove_tail p) Q m.
Proof.
  intros Hl Hni Hp Htl HQ. unfold remove_tail. wp_go. rewrite Htl. destruct l2 as [|[y u] l2]; simpl in *.
  - rewrite lst_or_snoc, decide_True by done. rewrite app_nil_r in *. wp_go.
    destruct l1 as [|[x w] l1 _] using rev_ind; simpl in *.
    + wp_go. by apply HQ.
    + rewrite lst_or_snoc in *. pose proof (linked_NoDup _ _ _ Hl) as Hnd. 
      assert (x ≠ p) by (intros ->; rewrite fmap_app in Hni; set_solver).
      pose proof (linked_set_next _ _ _ _ NULL Hnd Hl) as Hl'. rewrite lst_or_snoc in Hl'. simpl in Hl'.
      apply linked_app in Hl as [_ [Hx _]]. wp_go. destruct l1 as [|[z v] l1]; simpl; wp_go.
      * apply HQ; simpl; [intros _|done|].
        -- apply (linked_set_data _ _ [] _ _ [] _ (λ v, {| v with v_refs := i32 (v_refs v + -1) |})) in Hl'; done.
        -- intros q Hq. assert (q ≠ x) by set_solver. by lookup_norm.
      * destruct (lst_or_Some z l1) as [t Et]. rewrite Et. wp_go. apply HQ; [intros _|done|].
        -- by destruct l1.
        -- intros q Hq. rewrite fmap_app in Hq. assert (q ≠ x) by set_solver. by lookup_norm.
  - rewrite lst_or_app in *. simpl in *. rewrite decide_False.
    + wp_go. match goal with |- Q tt ?s => replace s with {| m with vmr_tail := lst_or (Some y) l2; vmrs := vmrs m |}; [by apply HQ|] end.
      destruct m. simpl in *. by subst.
    + intros [[-> [= ->]]|Hin]%lst_or_elem; rewrite fmap_app in Hni; set_solver.
Qed.
Lemma wp_vmr_free m p v a b (Q : unit → mmap → Prop) :
  vmrs m !! p = Some (Node v a b) →
  (0 < v_refs v → Q tt m) → (v_refs v ≤ 0 → Q tt {| m with vmrs := delete p (vmrs m) |}) →
  wp (vmr_free (Some p)) Q m.
Proof.
  intros Hp HK HF. unfold vmr_free. wp_go. case_decide; wp_go; [|apply HK; lia].
  rewrite delete_alter, decide_True by done. by apply HF.
Qed.

(** The references of a region when [mmap_remove] is done with it. *)
Definition last_refs (l1 : regions) (v : vmr) (l2 : regions) : Z :=
  i32 (v_refs v - (if l1 is [] then 0 else 1) - (if l2 is [] then 0 else 1) - 1).

(** [m'] is [m] without the region [v] at [p], which was between [l1] and [l2]. *)
Record removes (m m' : mmap) (l1 : regions) (p : loc) (v : vmr) (l2 : regions) : Prop := {
  rem_ok : mmap_ok m' (settle (l1 ++ l2));
  rem_config : config m' = config m;
  rem_untouched : untouched (p :: (l1 ++ l2).*1) m m';
  rem_paging : mm_paging m' = paging_unmap_mapped (v_start v) (v_end v - v_start v + 1) :: mm_paging m;
  rem_refs : mm_refs m' = i32 (mm_refs m - 1);
  rem_used : mm_used_space m' = mm_used_space m;
  rem_freed : last_refs l1 v l2 ≤ 0 → vmrs m' !! p = None;
  rem_kept : 0 < last_refs l1 v l2 → is_Some (vmrs m' !! p);
}.

#[global] Arguments remove_unlink r : simpl never.
Definition unlinked_refs (l1 : regions) (v : vmr) (l2 : regions) : vmr :=
  {| v with v_refs := i32 (v_refs v - (if l1 is [] then 0 else 1) - (if l2 is [] then 0 else 1)) |}.
Lemma wp_remove_unlink m l1 p v l2 (Q : unit → mmap → Prop) :
  linked (vmrs m) NULL (l1 ++ (p, v) :: l2) NULL → i32 (v_refs v) = v_refs v →
  (∀ h', linked h' NULL (l1 ++ l2) NULL →
     h' !! p = Some (Node (unlinked_refs l1 v l2) (lst_or NULL l1) (hd_or NULL l2)) →
     (∀ q, q ∉ (l1 ++ (p, v) :: l2).*1 → h' !! q = vmrs m !! q) → Q tt {| m with vmrs := h' |}) →
  wp (remove_unlink p) Q m.
Proof.
  intros Hl Hr HQ. pose proof (linked_NoDup _ _ _ Hl) as Hnd. pose proof (NoDup_mid _ _ _ _ Hnd) as (_ & _ & _ & Hp1 & Hp2 & Hdj).
  pose proof (linked_unlink _ _ _ _ _ _ _ Hnd Hl) as Hu. apply linked_app in Hl as Hm. destruct Hm as [_ [Hp _]].
  assert (∀ h', h' !! p = Some (Node (unlinked_refs l1 v l2) (lst_or NULL l1) (hd_or NULL l2)) →
     (∀ q, q ≠ p → h' !! q = alter_opt (set_prev (lst_or NULL l1)) (hd_or NULL l2)
           (alter_opt (set_next (hd_or NULL l2)) (lst_or NULL l1) (vmrs m)) !! q) → Q tt {| m with vmrs := h' |}) as HQ'.
  { intros h' ? Hq. apply HQ; [|done|].
    - eapply linked_ext; [|exact Hu]. intros q Hin. apply Hq. rewrite fmap_app in Hin. set_solver.
    - intros q (? & Hni)%(lookup_unlink_ne (vmrs m) (set_prev (lst_or NULL l1)) (set_next (hd_or NULL l2))). by rewrite Hq. }
  assert (∀ t, lst_or NULL l1 = Some t → t ≠ p ∧ is_Some (vmrs m !! t) ∧ hd_or NULL l2 ≠ Some t) as Ht.
  { intros t [[??]|Hin]%lst_or_elem; [done|]. split_and!; [congruence|eapply linked_is_Some; [exact Hl|rewrite fmap_app; set_solver]|].
    intros [[??]|?]%hd_or_elem; [done|]. by apply (Hdj t). }
  assert (∀ x, hd_or NULL l2 = Some x → x ≠ p ∧ is_Some (vmrs m !! x)) as Hx.
  { intros x [[??]|Hin]%hd_or_elem; [done|]. split; [congruence|]. eapply linked_is_Some; [exact Hl|rewrite fmap_app; set_solver]. }
  clear HQ Hu. unfold remove_unlink. wp_go. unfold unlinked_refs in HQ'.
  destruct (lst_or NULL l1) as [t|] eqn:Et; destruct (hd_or NULL l2) as [x|] eqn:Ex;
    try (destruct (Ht _ eq_refl) as (? & [tn Htn] & ?)); try (destruct (Hx _ eq_refl) as (? & [xn Hxn])).
  - assert (t ≠ x) by congruence. wp_go. apply HQ'; simpl.
    + lookup_norm. cbv [refs_add set_data set_next set_prev]. simpl. rewrite i32_add. by destruct l1, l2.
    + intros q ?. destruct (decide (q = t)) as [->|?]; [|destruct (decide (q = x)) as [->|?]]; by lookup_norm.
  - wp_go. apply HQ'; simpl.
    + lookup_norm. cbv [refs_add set_data set_next set_prev]. simpl. by destruct l1, l2 as [|[]]; rewrite ?Z.sub_0_r.
    + intros q ?. destruct (decide (q = t)) as [->|?]; by lookup_norm.
  - wp_go. apply HQ'; simpl.
    + lookup_norm. cbv [refs_add set_data set_next set_prev]. simpl. apply lst_or_NULL in Et as ->. by destruct l2; rewrite ?Z.sub_0_r.
    + intros q ?. destruct (decide (q = x)) as [->|?]; by lookup_norm.
  - wp_go. apply lst_or_NULL in Et as ->. apply hd_or_NULL in Ex as ->.
    match goal with |- Q tt ?s => replace s with {| m with vmrs := vmrs m |} by (by destruct m) end.
    apply HQ'; simpl; [|done]. rewrite Hp. simpl. rewrite !Z.sub_0_r, Hr. by destruct v.
Qed.

Lemma removes_intro m m' l1 p v l2 h :
  mmap_ok m (l1 ++ (p, v) :: l2) →
  m' = {| m with vmr_head := hd_or NULL (l1 ++ l2); vmr_tail := lst_or NULL (l1 ++ l2); vmrs := h;
          mm_refs := i32 (mm_refs m - 1);
          mm_paging := paging_unmap_mapped (v_start v) (v_end v - v_start v + 1) :: mm_paging m |} →
  linked h NULL (settle (l1 ++ l2)) NULL →
  (∀ q, q ∉ p :: (l1 ++ l2).*1 → h !! q = vmrs m !! q) →
  (if decide (last_refs l1 v l2 ≤ 0) then h !! p = None else is_Some (h !! p)) →
  removes m m' l1 p v l2.
Proof.
  intros [_ _ _ Hlk Hlim Ho Hown] -> Hl Hq Hp. constructor; simpl; try done; [constructor; simpl; try done| |].
  - by rewrite settle_hd.
  - by rewrite settle_lst.
  - apply settle_ordered. pose proof (region_view _ _ _ _ Ho) as (H1 & ? & ? & ? & H2 & ?). apply ordered_app. split; [done|].
    eapply ordered_weaken; [|done]. lia.
  - apply Forall_app in Hown as [H1 [_ H2]%Forall_cons]. assert (Forall (λ '(_, w), v_mmap w = Some (mm_self m) ∧ i32 (v_refs w) = v_refs w) (l1 ++ l2)) as H.
    { by apply Forall_app. }
    destruct (l1 ++ l2) as [|[x w] [|[y u] l]]; try done. simpl. apply Forall_cons in H as [[??] _].
    apply Forall_singleton. simpl. rewrite i32_idem. done.
  - intros ?. by rewrite decide_True in Hp.
  - intros ?. rewrite decide_False in Hp by lia. done.
Qed.

Lemma wp_mmap_remove m l1 p v l2 (Q : Z → mmap → Prop) :
  mmap_ok m (l1 ++ (p, v) :: l2) → (∀ m', removes m m' l1 p v l2 → Q 0 m') →
  wp (mmap_remove (Some p)) Q m.
Proof.
  intros Hok HQ. pose proof Hok as [Hl Hhd Htl Hlk Hlim Ho Hown]. unfold mmap_remove. wp_go.
  pose proof (ok_NoDup _ _ Hok) as Hnd. pose proof (NoDup_mid _ _ _ _ Hnd) as (Hnd' & _ & _ & Hp1 & Hp2 & _).
  assert (p ∉ (l1 ++ l2).*1) as Hni by (rewrite fmap_app; set_solver).
  apply (wp_mmap_contains _ _ Hok). rewrite bool_decide_true by (rewrite fmap_app; set_solver). simpl. wp_go.
  assert (i32 (v_refs v) = v_refs v) as Hr by (apply Forall_app in Hown as [_ [[_ ?] _]%Forall_cons]; done).
  eapply wp_remove_unlink; [done..|]. intros h1 Hl1 Hpp Hq1. wp_go.
  eapply (wp_remove_head _ l1 p _ l2); simpl; [done..|by rewrite Hhd, !hd_or_app|].
  intros h2 Hl2 Hq2. simpl in Hl2. wp_go.
  eapply (wp_remove_tail _ l1 p _ l2); simpl.
  { destruct l2; [|done]. destruct l1; by rewrite ?app_nil_r in Hl2. }
  { done. }
  { by rewrite Hq2. }
  { by rewrite Htl, !lst_or_app. }
  intros h3 Hl3 Hl3' Hq3. simpl in *.
  assert (h3 !! p = Some (Node (unlinked_refs l1 v l2) (lst_or NULL l1) (hd_or NULL l2))) as Hp3.
  { by rewrite Hq3, Hq2. }
  assert (linked h3 NULL (settle (l1 ++ l2)) NULL) as Hl3f.
  { destruct l2 as [|y l2]; [by rewrite app_nil_r; apply Hl3|]. rewrite Hl3' by done.
    by destruct l1 as [|[] [|[] l1]], y. }
  assert (∀ q, q ∉ p :: (l1 ++ l2).*1 → h3 !! q = vmrs m !! q) as Hq4.
  { intros q Hq. assert (q ∉ (l1 ++ (p, v) :: l2).*1) by (revert Hq; rewrite !fmap_app; csimpl; set_solver).
    rewrite not_elem_of_cons, fmap_app, not_elem_of_app in Hq. rewrite Hq3, Hq2, Hq1; [done|done|rewrite fmap_app; set_solver|tauto]. }
  wp_go. rewrite vmr_size_eq by (apply region_view in Ho; simpl; lia). unfold log_paging. wp_go.
  assert (i32 (i32 (v_refs v - (if l1 is [] then 0 else 1) - (if l2 is [] then 0 else 1)) + -1) = last_refs l1 v l2) as Elast.
  { unfold last_refs. by rewrite i32_add. }
  eapply wp_vmr_free; simpl; [by lookup_norm| |]; simpl; rewrite Elast; intros Hrefs; wp_go; apply HQ;
    (eapply removes_intro; [done|done| | |]); simpl.
  - eapply linked_ext; [|exact Hl3f]. intros q. rewrite settle_locs. intros ?. assert (q ≠ p) by congruence. by lookup_norm.
  - intros q Hq. assert (q ≠ p) by set_solver. lookup_norm. by apply Hq4.
  - rewrite decide_False by lia. lookup_norm. eauto.
  - eapply linked_ext; [|exact Hl3f]. intros q. rewrite settle_locs. intros ?. assert (q ≠ p) by congruence. by lookup_norm.
  - intros q Hq. assert (q ≠ p) by set_solver. lookup_norm. by apply Hq4.
  - rewrite decide_True by done. apply lookup_delete_eq.
Qed.
