(* ===== verification/MmapUnmap.v ===== *)
(** * Address spaces: unmapping a range ([mmap_unmap])

    The loop of [mmap_unmap] removes the regions of a range and trims the ones at
    its ends.  Its effect is stated on the region every address lies in ([view]) and on
    the place in a file that backs it ([backed_at]). *)
From S2P Require Import Prelude Dll Mmap MmapShape MmapEdit.

#[global] Arguments mmap_find_exact start fin : simpl never.
#[global] Arguments unmap_loop {_} fuel start len : simpl never.
#[global] Arguments vmr_split {_} r addr pvmr : simpl never.

Lemma settle_length l : length (settle l) = length l.
Proof. by destruct l as [|[x w] [|[y u] l]]. Qed.

(** The attributes of a region, all of it but its range, its owner and its reference
    count; [view l a k]: the address [a] lies in a region with the attributes [k]. *)
Definition attrs (v : vmr) :=
  (v_flags v, v_vflags v, v_priv v, (v_file v, v_filesz v, v_file_pos v), v_vmops v, v_paddr v).
Definition view (l : regions) (a : Z) k : Prop := ∃ p v, (p, v) ∈ l ∧ in_vmr a v ∧ attrs v = k.

(** The offset in the file of a region that a fault at [a] reads ([PageFault.v]):
    [v_file_pos] belongs to the first address of the region.  [backed_at l a k off]: [a]
    lies in a region with the attributes [k], at the offset [off] of its file. *)
Definition file_offset (v : vmr) (a : Z) : Z := a - v_start v + v_file_pos v.
Definition backed_at (l : regions) (a : Z) k (off : Z) : Prop :=
  ∃ p v, (p, v) ∈ l ∧ in_vmr a v ∧ attrs v = k ∧ file_offset v a = off.

Lemma mapped_view l a : mapped l a ↔ ∃ k, view l a k.
Proof. unfold mapped, view. naive_solver. Qed.
Lemma view_mapped l a k : view l a k → mapped l a.
Proof. rewrite mapped_view. eauto. Qed.
Lemma view_nil a k : ¬ view [] a k.
Proof. intros (p & v & Hin & _). set_solver. Qed.
Lemma view_app l1 l2 a k : view (l1 ++ l2) a k ↔ view l1 a k ∨ view l2 a k.
Proof. unfold view. setoid_rewrite elem_of_app. naive_solver. Qed.
Lemma view_cons p v l a k : view ((p, v) :: l) a k ↔ (in_vmr a v ∧ attrs v = k) ∨ view l a k.
Proof. unfold view. setoid_rewrite elem_of_cons. naive_solver. Qed.
Lemma view_settle l a k : view (settle l) a k ↔ view l a k.
Proof. destruct l as [|[x w] [|[y u] l]]; try done. simpl. rewrite !view_cons. done. Qed.
Lemma view_range lo l a k : ordered lo l → view l a k → lo ≤ a ∧ bottom l ≤ a ∧ a < top lo l ∧ a ≤ mmap_limit.
Proof. intros ? ?%view_mapped. by eapply mapped_range. Qed.

(** Where a region that starts at [b] starts when the [n] addresses from [s] on go. *)
Definition start_after (s n b : Z) : Z := if decide (s ≤ b < s + n) then s + n else b.

(** [m'] is [m] without the [n] addresses from [s] on. *)
Record unmaps (m m' : mmap) (l l' : regions) (s n : Z) : Prop := {
  un_ok : mmap_ok m' l';
  un_view : ∀ a k, view l' a k ↔ view l a k ∧ ¬ (s ≤ a < s + n);
  un_start : ∀ p v, (p, v) ∈ l' → ∃ w, (p, w) ∈ l ∧ attrs v = attrs w ∧ v_start v = start_after s n (v_start w) ∧ v_end v ≤ v_end w;
  un_config : config m' = config m;
  un_untouched : untouched l.*1 m m';
  un_locs : ∀ q, q ∈ l'.*1 → q ∈ l.*1;
  un_length : (length l' ≤ length l)%nat;
  un_used : mm_used_space m' = mm_used_space m;
}.

(** The file offsets: a region that loses its first addresses keeps its [v_file_pos],
    so what is left of it is moved towards the start of its file. *)
Lemma unmaps_backed m m' l l' s n a k off : ordered 0 l → unmaps m m' l l' s n →
  backed_at l' a k off ↔ ¬ (s ≤ a < s + n) ∧
    ∃ p v, (p, v) ∈ l ∧ in_vmr a v ∧ attrs v = k ∧ file_offset v a - (start_after s n (v_start v) - v_start v) = off.
Proof.
  intros Ho Hun. assert (∀ p v, (p, v) ∈ l' → in_vmr a v →
    ∃ w, (p, w) ∈ l ∧ in_vmr a w ∧ attrs v = attrs w ∧ v_start v = start_after s n (v_start w)) as Hfrom.
  { intros p v Hin [??]. destruct (un_start _ _ _ _ _ _ Hun p v Hin) as (w & ? & ? & Hs & ?). exists w. split_and!; try done.
    split; [|lia]. revert Hs. unfold start_after. case_decide; lia. }
  assert (∀ v w, attrs v = attrs w → v_file_pos v = v_file_pos w) as Hpos by (unfold attrs; congruence). split.
  - intros (p & v & Hin & Hv & <- & <-). destruct (Hfrom p v Hin Hv) as (w & Hw & ? & Hat & Hs). split.
    + apply (un_view _ _ _ _ _ _ Hun a (attrs v)). by exists p, v.
    + exists p, w. split_and!; try done. unfold file_offset. rewrite (Hpos v w Hat). lia.
  - intros (Ha & p & v & Hin & Hv & <- & <-).
    assert (view l' a (attrs v)) as (q & u & Hq & Hu & Hat). { apply Hun. split; [by exists p, v|done]. }
    destruct (Hfrom q u Hq Hu) as (w & Hw & Hwa & _ & Hs). apply list_elem_of_split in Hin as (l1 & l2 & ->).
    destruct (in_vmr_unique _ _ _ _ _ _ _ Ho Hv Hw Hwa) as [_ ->]. exists q, u. split_and!; try done.
    unfold file_offset. rewrite (Hpos u v Hat). lia.
Qed.

Lemma unmaps_comp m m1 m2 l l1 l2 s n1 s2 n2 n :
  unmaps m m1 l l1 s n1 → unmaps m1 m2 l1 l2 s2 n2 →
  0 ≤ n1 ≤ n → 0 ≤ n2 → s ≤ s2 ≤ s + n1 → s2 + n2 = s + n → unmaps m m2 l l2 s n.
Proof.
  intros [_ V1 F1 C1 U1 L1 N1 S1] [Ok V2 F2 C2 U2 L2 N2 S2] ????.
  constructor; [done| | |congruence| |naive_solver|lia|congruence].
  - intros a k. rewrite V2, V1. split; [intros [[? ?] ?]|intros [? ?]; split_and!]; [split; [done|]|done|..]; lia.
  - intros p v (w1 & (w & ? & ? & Hw & ?)%F1 & ? & Hv & ?)%F2. exists w. split_and!; [done|congruence| |lia].
    rewrite Hv, Hw. unfold start_after. repeat case_decide; lia.
  - intros q Hq. rewrite U2, U1; [done|done|naive_solver].
Qed.
Lemma unmaps_hole m l s n : mmap_ok m l → hole l s n → unmaps m m l l s n.
Proof.
  intros Hok (_ & _ & Hh). constructor; try done.
  - intros a k. split; [|tauto]. intros Hv. split; [done|]. intros Ha. apply (Hh a Ha). by eapply view_mapped.
  - intros p v Hin. exists v. pose proof (ordered_elem _ _ _ _ (ok_ordered _ _ Hok) Hin). split_and!; try done.
    unfold start_after. case_decide as Ha; [|done]. destruct (Hh _ Ha). exists p, v. split; [done|split; lia].
Qed.
Lemma unmaps_remove m m' l1 p v l2 :
  mmap_ok m (l1 ++ (p, v) :: l2) → removes m m' l1 p v l2 →
  unmaps m m' (l1 ++ (p, v) :: l2) (settle (l1 ++ l2)) (v_start v) (v_end v - v_start v + 1).
Proof.
  intros Hok [? ? Hunt]. pose proof (region_view _ _ _ _ (ok_ordered _ _ Hok)) as (H1 & ? & ? & ? & H2 & ?).
  constructor; try done.
  - intros a k. rewrite view_settle, !view_app, view_cons. unfold in_vmr. split.
    + intros [Hv|Hv]; (split; [tauto|]); eapply view_range in Hv; try done; lia.
    + intros [[?|[[[??] _]|?]] ?]; [tauto|lia|tauto].
  - intros q w Hw. assert (∃ u, (q, u) ∈ l1 ++ l2 ∧ attrs w = attrs u ∧ v_start w = v_start u ∧ v_end w = v_end u) as (u & Hu & ? & -> & ->).
    { destruct (l1 ++ l2) as [|[x y] [|[z t] l]]; [set_solver| |by exists w]. apply list_elem_of_singleton in Hw as [= -> ->].
      exists y. split; [set_solver|done]. }
    exists u. split_and!; [set_solver|done| |done]. unfold start_after. rewrite decide_False; [done|].
    apply elem_of_app in Hu as [Hu|Hu]; eapply ordered_elem in Hu; try done; lia.
  - intros q Hq. apply Hunt. revert Hq. rewrite !fmap_app. csimpl. set_solver.
  - intros q. rewrite settle_locs, !fmap_app. csimpl. set_solver.
  - rewrite settle_length, !length_app. simpl. lia.
Qed.

(** A region that changes in place. *)
Lemma ok_update m l1 p v l2 w f :
  mmap_ok m (l1 ++ (p, v) :: l2) → f v = w → v_mmap w = v_mmap v → i32 (v_refs w) = v_refs w →
  ordered 0 (l1 ++ (p, w) :: l2) →
  mmap_ok {| m with vmrs := alter (set_data f) p (vmrs m) |} (l1 ++ (p, w) :: l2).
Proof.
  intros Hok <- Hm Hr Ho'. pose proof (ok_NoDup _ _ Hok). destruct Hok as [Hl Hhd Htl Hlk Hlim Ho Hown]. constructor; simpl; try done.
  - by apply linked_set_data.
  - by rewrite Hhd, !hd_or_app.
  - by rewrite Htl, !lst_or_app.
  - apply Forall_app in Hown as [? [[??] ?]%Forall_cons]. apply Forall_app. split; [done|]. apply Forall_cons.
    split; [|done]. split; [congruence|done].
Qed.

(** A region that loses the part [s .. s + n - 1] at one of its ends. *)
Lemma unmaps_trim m l1 p v l2 w f s n :
  mmap_ok m (l1 ++ (p, v) :: l2) → f v = w → v_mmap w = v_mmap v → v_refs w = v_refs v → attrs w = attrs v →
  v_start v ≤ s → 0 ≤ n → s + n ≤ v_end v + 1 → v_start w = start_after s n (v_start v) → v_start w ≤ v_end w → v_end w ≤ v_end v →
  (∀ a, in_vmr a w ↔ in_vmr a v ∧ ¬ (s ≤ a < s + n)) →
  unmaps m {| m with vmrs := alter (set_data f) p (vmrs m) |} (l1 ++ (p, v) :: l2) (l1 ++ (p, w) :: l2) s n.
Proof.
  intros Hok Hf Hm Hr Hat ??? Hst ?? Hin. assert (v_start v ≤ v_start w) by (rewrite Hst; unfold start_after; case_decide; lia). pose proof (region_view _ _ _ _ (ok_ordered _ _ Hok)) as (Ho1 & ? & ? & ? & Ho2 & ?).
  constructor; try done.
  - eapply ok_update; [done..| |].
    + pose proof (ok_owner _ _ Hok) as [_ [[_ ?] _]%Forall_cons]%Forall_app. congruence.
    + apply ordered_app. simpl. split_and!; [done|lia..|eapply ordered_weaken; [|done]; lia].
  - intros a k. rewrite !view_app, !view_cons, Hin, Hat. split; [|tauto].
    intros [Hv|[?|Hv]]; [|tauto|]; (split; [tauto|]); eapply view_range in Hv; try done; lia.
  - intros q u [Hu|[[= -> ->]|Hu]%elem_of_cons]%elem_of_app; [|exists v; split_and!; [set_solver|done..]|].
    + exists u. split_and!; [set_solver|done| |done]. unfold start_after. rewrite decide_False; [done|].
      pose proof (ordered_elem _ _ _ _ Ho1 Hu). lia.
    + exists u. split_and!; [set_solver|done| |done]. unfold start_after. rewrite decide_False; [done|].
      pose proof (ordered_elem _ _ _ _ Ho2 Hu). lia.
  - intros q Hq. simpl. rewrite lookup_alter_ne; [done|]. intros ->. apply Hq. rewrite fmap_app. csimpl. set_solver.
  - intros q. rewrite !fmap_app. csimpl. done.
  - by rewrite !length_app.
Qed.

(** No region goes on from below [s] at [s]. *)
Definition boundary (l : regions) (s : Z) : Prop := ∀ p v, (p, v) ∈ l → in_vmr s v → v_start v = s.

Lemma boundary_settle l s : boundary l s → boundary (settle l) s.
Proof.
  destruct l as [|[x w] [|[y u] l]]; try done. intros Hb p v [[= -> ->]|?]%elem_of_cons; [|set_solver]. apply (Hb x w). left.
Qed.
Lemma boundary_next l1 p v l2 : ordered 0 (l1 ++ (p, v) :: l2) → boundary (l1 ++ l2) (v_end v + 1).
Proof.
  intros (H1 & ? & ? & ? & H2 & ?)%region_view q w [Hin|Hin]%elem_of_app [??].
  - pose proof (ordered_elem _ _ _ _ H1 Hin). lia.
  - pose proof (ordered_elem _ _ _ _ H2 Hin). lia.
Qed.
Lemma boundary_bottom l1 l2 : ordered 0 (l1 ++ l2) → boundary (l1 ++ l2) (bottom l2).
Proof.
  intros (H1 & H2 & ? & ?)%hole_view q w [Hin|Hin]%elem_of_app [??].
  - pose proof (ordered_elem _ _ _ _ H1 Hin). lia.
  - pose proof (bottom_elem _ _ _ _ H2 Hin). lia.
Qed.

Section unmap.
Context `{!Kalloc (node vmr)}.

Lemma wp_unmap_loop_0 fuel s m (Q : unit → mmap → Prop) : (0 < fuel)%nat → Q tt m → wp (unmap_loop fuel s 0) Q m.
Proof. destruct fuel; [lia|]. intros. unfold unmap_loop; fold unmap_loop. rewrite decide_True by done. by wp_go. Qed.

(** The loop with [fuel] turns unmaps every range it is given fuel for. *)
Definition unmap_correct (fuel : nat) : Prop := ∀ m l s n (Q : unit → mmap → Prop),
  mmap_ok m l → 0 ≤ s → 0 ≤ n → s + n ≤ mmap_limit + 1 → boundary l s →
  (mapped l s ∧ 2 * length l + 1 ≤ fuel)%nat ∨ (2 * length l + 2 ≤ fuel)%nat →
  (∀ m' l', unmaps m m' l l' s n → Q tt m') → wp (unmap_loop fuel s n) Q m.

Section turn.
Context (fuel : nat) (IH : unmap_correct fuel) (m : mmap) (l : regions) (s n : Z) (Q : unit → mmap → Prop).
Context (Hok : mmap_ok m l) (Hs : 0 ≤ s) (Hn : 0 < n) (Hend : s + n ≤ mmap_limit + 1).
Context (HQ : ∀ m' l', unmaps m m' l l' s n → Q tt m').

(** The range is one region: it goes, and the last address is looked at once more. *)
Lemma turn_exact l1 p v l2 : l = l1 ++ (p, v) :: l2 → v_start v = s → v_end v = s + n - 1 →
  (2 * length l ≤ fuel)%nat →
  wp (mmap_remove (Some p);; unmap_loop fuel (s + n - 1) 1) Q m.
Proof using All.
  intros -> Es Ee Hfuel. wp_go. eapply wp_mmap_remove; [done|].
  intros m1 Hm1. pose proof (unmaps_remove _ _ _ _ _ _ Hok Hm1) as Hun. rewrite Es, Ee in Hun.
  replace (s + n - 1 - s + 1) with n in Hun by lia. rewrite length_app in Hfuel. simpl in Hfuel.
  assert (¬ mapped (settle (l1 ++ l2)) (s + n - 1)) as Hnm.
  { rewrite mapped_view. intros [k [_ Hk]%(un_view _ _ _ _ _ _ Hun)]. lia. }
  eapply IH; [apply Hun|lia..| | |].
  - intros q w Hin Hw. exfalso. apply Hnm. by exists q, w.
  - rewrite settle_length, length_app. lia.
  - intros m2 l' Hun2. eapply HQ, unmaps_comp; [exact Hun|exact Hun2|lia..].
Qed.

(** The range starts with a region and goes on behind it. *)
Lemma turn_region l1 p v l2 : l = l1 ++ (p, v) :: l2 → v_start v = s → v_end v < s + n - 1 →
  (2 * length l ≤ fuel)%nat →
  wp (mmap_remove (Some p);; unmap_loop fuel (v_end v + 1) (n - (v_end v - s + 1))) Q m.
Proof using All.
  intros -> Es Ee Hfuel. wp_go. eapply wp_mmap_remove; [done|].
  intros m1 Hm1. pose proof (unmaps_remove _ _ _ _ _ _ Hok Hm1) as Hun. rewrite Es in Hun.
  rewrite length_app in Hfuel. simpl in Hfuel. pose proof (region_view _ _ _ _ (ok_ordered _ _ Hok)) as (_ & _ & ? & _).
  eapply IH; [apply Hun|lia..| | |].
  - eapply boundary_settle, boundary_next, Hok.
  - rewrite settle_length, length_app. lia.
  - intros m2 l' Hun2. eapply HQ, unmaps_comp; [exact Hun|exact Hun2|lia..].
Qed.

(** The range starts with a hole. *)
Lemma turn_hole l1 l2 : l = l1 ++ l2 → top 0 l1 ≤ s → s < bottom l2 → (2 * length l + 1 ≤ fuel)%nat →
  let h := if decide (n < bottom l2 - s) then n else bottom l2 - s in
  wp (unmap_loop fuel (s + h) (n - h)) Q m.
Proof using All.
  intros Hl Ht Hb Hfuel. pose proof (ok_ordered _ _ Hok) as Ho. rewrite Hl in Ho. pose proof (hole_view _ _ Ho) as (_ & _ & ? & ?).
  assert (∀ k, k ≤ bottom l2 - s → unmaps m m l l s k) as Hhole.
  { intros k ?. apply unmaps_hole; [done|]. split_and!; [lia..|]. intros i ?. rewrite Hl. apply gap_free; [done|lia|].
    apply bottom_before. lia. }
  simpl. destruct (decide (n < bottom l2 - s)); [|destruct (decide (n = bottom l2 - s)) as [E|?]].
  - rewrite Z.sub_diag. apply wp_unmap_loop_0; [lia|]. eapply HQ, Hhole. lia.
  - rewrite <- E, Z.sub_diag. apply wp_unmap_loop_0; [lia|]. eapply HQ, Hhole. lia.
  - replace (s + (bottom l2 - s)) with (bottom l2) by lia. eapply IH; [done|lia..| | |].
    + rewrite Hl. by apply boundary_bottom.
    + left. split; [|lia]. rewrite Hl. apply bottom_mapped; [done|lia].
    + intros m2 l' Hun2. eapply HQ, unmaps_comp; [by apply Hhole|exact Hun2|lia..].
Qed.
End turn.

Lemma wp_unmap_loop fuel : unmap_correct fuel.
Proof.
  assert (mmap_limit + 1 < 2 ^ 32) as Hlim32 by done.
  induction fuel as [|fuel IH]; intros m l s n Q Hok Hs Hn Hend Hb Hfuel HQ; [lia|].
  unfold unmap_loop; fold unmap_loop. destruct (decide (n = 0)) as [->|Hn0].
  { wp_go. eapply HQ, unmaps_hole; [done|]. split_and!; [lia..|]. intros. lia. }
  wp_go. rewrite (u32_small (s + n - 1)) by lia. eapply (wp_find_exact _ _ Hok); [done| |].
  { intros l1 p v l2 Hl Es Ee. rewrite decide_True by done. rewrite !u32_small by lia.
    replace (s + (s + n - 1 - s)) with (s + n - 1) by lia. replace (n - (s + n - 1 - s)) with 1 by lia.
    by eapply (turn_exact fuel IH m l s n Q Hok Hs ltac:(lia) Hend HQ l1 p v l2); [|lia..]. }
  intros Hex. rewrite decide_False by (by intros []). wp_go. apply (wp_mmap_find _ _ Hok).
  destruct (locate l s) as [l1 p v l2 Hl Hin|l1 l2 Hl Ht Hbf]; [apply Hok|done| |].
  - rewrite (find_in_region _ _ Hok l1 p v l2) by done. pose proof (rd_mid _ _ Hok _ _ _ _ Hl). wp_go.
    assert ((p, v) ∈ l) as Hpl by (subst; set_solver). pose proof (Hb _ _ Hpl Hin) as Es. rewrite decide_True by done.
    pose proof (ordered_elem _ _ _ _ (ok_ordered _ _ Hok) Hpl) as (? & ? & _). rewrite vmr_size_eq by lia.
    assert (0 < length l)%nat by (rewrite Hl, length_app; simpl; lia).
    destruct (decide (n < v_end v - v_start v + 1)) as [Hlt|Hge]; [|destruct (decide (v_end v - v_start v + 1 < n))].
    + rewrite u32_small by lia. wp_go. apply wp_unmap_loop_0; [lia|]. eapply HQ. subst l s.
      eapply (unmaps_trim _ _ _ v _ {| v with v_start := v_start v + n |}); simpl; try done; try lia; [unfold start_after; case_decide; lia|].
      intros a. unfold in_vmr. simpl. lia.
    + unfold vmr_upper_bound. rewrite !u32_small by lia. rewrite Es. by eapply (turn_region fuel IH m l s n Q Hok Hs ltac:(lia) Hend HQ l1 p v l2); [|lia..].
    + exfalso. eapply Hex; [done|lia|lia].
  - rewrite (find_in_hole _ _ Hok l1 l2) by done. wp_go.
    assert (¬ mapped l s) as Hnm by (subst l; apply gap_free; [apply Hok|done..]).
    eapply (wp_holesize _ _ Hok); [done|lia|done|].
    clear l1 l2 Hl Ht Hbf. intros l1 l2 Hl Ht Hbf _. wp_go. rewrite decide_False by lia.
    assert (bottom l2 ≤ mmap_limit + 1) by (subst l; pose proof (hole_view _ _ (ok_ordered _ _ Hok)); lia).
    rewrite !u32_small by (case_decide; lia). destruct Hfuel as [[? _]|?]; [done|]. by eapply (turn_hole fuel IH m l s n Q Hok Hs ltac:(lia) Hend HQ l1 l2); [|lia..].
Qed.

#[global] Arguments mmap_unmap {_} start len : simpl never.

(** The range of [mmap_unmap] may also start at the last address of a region. *)
Definition splits (l : regions) (s : Z) : Prop := ∃ p v, (p, v) ∈ l ∧ v_start v < s < v_end v.

Lemma wp_mmap_unmap m l s n (Q : Z → mmap → Prop) :
  mmap_ok m l → 0 ≤ s → 0 < n → s + n ≤ mmap_limit + 1 → ¬ splits l s →
  (∀ m' l', unmaps m m' l l' s n → Q 0 m') → wp (mmap_unmap s n) Q m.
Proof.
  intros Hok Hs Hn He Hns HQ. assert (mmap_limit + 1 < 2 ^ 32) by done. pose proof (ok_lock _ _ Hok).
  pose proof (ok_length _ _ Hok) as Hlen. unfold mmap_unmap. rewrite decide_False by lia. wp_go.
  unfold valid_addr. rewrite u32_small, bool_decide_true by lia. simpl. wp_go.
  destruct (locate l s) as [l1 p v l2 Hl Hin|l1 l2 Hl Ht Hb]; [apply Hok|done| |].
  2: { eapply wp_unmap_loop; [done|lia|lia|lia| |lia|by intros; wp_go; eauto].
       intros q w Hqin ?. exfalso. eapply (gap_free l1 l2); [subst l; apply Hok|done..|]. subst l. by exists q, w. }
  assert (∀ q w, (q, w) ∈ l → in_vmr s w → q = p ∧ w = v) as Huniq.
  { intros q w ??. subst l. eapply in_vmr_unique; [apply Hok|done..]. }
  destruct (decide (v_start v = s)) as [?|Hst].
  { eapply wp_unmap_loop; [done|lia|lia|lia| |lia|by intros; wp_go; eauto].
    intros q w Hqin Hq. by destruct (Huniq _ _ Hqin Hq) as [_ ->]. }
  assert (v_end v = s) as Ee.
  { destruct Hin. apply dec_stable. intros ?. apply Hns. exists p, v. split; [subst l; set_solver|lia]. }
  match goal with |- context [unmap_loop ?f] => destruct f as [|k] eqn:Ef; [lia|] end.
  unfold unmap_loop; fold unmap_loop.
  rewrite decide_False by lia. wp_go. eapply (wp_find_exact _ _ Hok); [done| |].
  { intros l1' q w l2' Hl' Es _. exfalso. assert ((q, w) ∈ l) as Hqin by (rewrite Hl'; set_solver).
    pose proof (ordered_elem _ _ _ _ (ok_ordered _ _ Hok) Hqin). destruct (Huniq q w Hqin) as [_ ->]; [split; lia|]. lia. }
  intros _. rewrite decide_False by (by intros []). wp_go. apply (wp_mmap_find _ _ Hok).
  rewrite (find_in_region _ _ Hok l1 p v l2) by done. pose proof (rd_mid _ _ Hok _ _ _ _ Hl). wp_go.
  rewrite decide_False, decide_True by done. wp_go. destruct Hin.
  assert (0 ≤ v_start v) by (subst l; pose proof (region_view _ _ _ _ (ok_ordered _ _ Hok)); lia).
  assert (unmaps m {| m with vmrs := alter (set_end (s - 1)) p (vmrs m) |} l (l1 ++ (p, {| v with v_end := s - 1 |}) :: l2) s 1) as Hun.
  { subst l. eapply (unmaps_trim _ _ _ v); simpl; try done; try lia; [unfold start_after; case_decide; lia|].
    intros a. unfold in_vmr. simpl. lia. }
  rewrite (u32_small (v_end v - 1)), Ee by lia.
  eapply wp_unmap_loop; [apply Hun|lia|lia|lia| | |].
  - intros q w Hqin Hq. exfalso. assert (view (l1 ++ (p, {| v with v_end := s - 1 |}) :: l2) s (attrs w)) as Hv by (by exists q, w).
    apply (un_view _ _ _ _ _ _ Hun) in Hv as [_ Hv]. lia.
  - right. pose proof (un_length _ _ _ _ _ _ Hun). lia.
  - intros m' l' Hun'. wp_go. eapply HQ, unmaps_comp; [exact Hun|exact Hun'|lia..].
Qed.
End unmap.
