(* ===== verification/MmapHoles.v ===== *)
(** * Address spaces: finding room

    [mmap_find_hole] returns the lowest (highest) range that is free,
    [mmap_find_holeat] one that is free, near the address it is given. *)
From S2P Require Import Prelude Dll Mmap MmapShape MmapEdit.

#[global] Arguments mmap_find_vmr_next addr : simpl never.
#[global] Arguments mmap_find_vmr_prev addr : simpl never.
#[global] Arguments hole_up fuel size tmp : simpl never.
#[global] Arguments hole_down fuel size tmp : simpl never.
#[global] Arguments mmap_find_hole size whence : simpl never.

(** The lowest hole of [n] bytes at or above [lo]; the highest one that ends at [hi]
    or below. *)
Definition lowest_hole (l : regions) (lo n : Z) (r : option Z) : Prop :=
  match r with
  | Some a => lo ≤ a ∧ hole l a n ∧ ∀ b, lo ≤ b → hole l b n → a ≤ b
  | None => ∀ b, lo ≤ b → ¬ hole l b n
  end.
Definition highest_hole (l : regions) (hi n : Z) (r : option Z) : Prop :=
  match r with
  | Some a => a + n ≤ hi ∧ hole l a n ∧ ∀ b, b + n ≤ hi → hole l b n → b ≤ a
  | None => ∀ b, b + n ≤ hi → ¬ hole l b n
  end.

(** A hole that starts behind [l1] ends in front of [l2], or starts behind its first region. *)
Lemma hole_after l1 l2 b n : ordered 0 (l1 ++ l2) → 0 < n → hole (l1 ++ l2) b n → top 0 l1 ≤ b →
  b + n ≤ bottom l2 ∨ ∃ q w l2', l2 = (q, w) :: l2' ∧ v_end w + 1 ≤ b.
Proof.
  intros Ho Hn (Hb & He & Hf) Ht. destruct l2 as [|[q w] l2]; simpl; [by left|].
  destruct (decide (b + n ≤ v_start w)); [by left|]. right. exists q, w, l2. split; [done|].
  apply Z.nlt_ge. intros ?. pose proof (region_view _ _ _ _ Ho) as (_ & _ & ? & _).
  apply (Hf (b `max` v_start w)); [lia|]. exists q, w. split; [set_solver|split; lia].
Qed.
(** A hole that ends in front of [l2] starts behind [l1], or ends in front of its last region. *)
Lemma hole_before l1 l2 b n : ordered 0 (l1 ++ l2) → 0 < n → hole (l1 ++ l2) b n → b + n ≤ bottom l2 →
  top 0 l1 ≤ b ∨ ∃ l1' q w, l1 = l1' ++ [(q, w)] ∧ b + n ≤ v_start w.
Proof.
  intros Ho Hn (Hb & He & Hf) Ht. destruct l1 as [|[q w] l1 _] using rev_ind; [by left|].
  rewrite top_app. simpl. destruct (decide (v_end w + 1 ≤ b)); [by left|]. right. exists l1, q, w. split; [done|].
  apply Z.nlt_ge. intros ?. rewrite <- (assoc_L (++)) in Ho, Hf. simpl in *. pose proof (region_view _ _ _ _ Ho) as (_ & _ & ? & _).
  apply (Hf (b `max` v_start w)); [lia|]. exists q, w. split; [set_solver|split; lia].
Qed.
(** The part of the gap between [l1] and [l2] from [a] on. *)
Lemma hole_within l1 l2 a n : ordered 0 (l1 ++ l2) → top 0 l1 ≤ a → a + n ≤ bottom l2 → hole (l1 ++ l2) a n.
Proof.
  intros Ho ??. pose proof (hole_view _ _ Ho) as (_ & _ & ? & ?). split_and!; [lia..|].
  intros i ?. apply gap_free; [done|lia|apply bottom_before; lia].
Qed.

Lemma hole_iff l1 l2 a n : ordered 0 (l1 ++ l2) → 0 < n → top 0 l1 ≤ a → a < bottom l2 →
  hole (l1 ++ l2) a n ↔ a + n ≤ bottom l2.
Proof.
  intros Ho Hn ??. split; [|by apply hole_within]. intros Hh.
  destruct (hole_after _ _ _ _ Ho Hn Hh) as [?|(q & w & l2' & -> & ?)]; [done..|].
  pose proof (region_view _ _ _ _ Ho) as (_ & _ & ? & _). simpl in *. lia.
Qed.

Lemma lowest_hole_here l1 l2 n : ordered 0 (l1 ++ l2) → n ≤ bottom l2 - top 0 l1 →
  lowest_hole (l1 ++ l2) (top 0 l1) n (Some (top 0 l1)).
Proof. intros. split_and!; [done|apply hole_within; [done|lia..]|done]. Qed.
Lemma lowest_hole_skip l1 q w l2 n r : ordered 0 (l1 ++ (q, w) :: l2) → 0 < n → v_start w - top 0 l1 < n →
  lowest_hole (l1 ++ (q, w) :: l2) (v_end w + 1) n r → lowest_hole (l1 ++ (q, w) :: l2) (top 0 l1) n r.
Proof.
  intros Ho Hn Hs Hr. assert (∀ b, top 0 l1 ≤ b → hole (l1 ++ (q, w) :: l2) b n → v_end w + 1 ≤ b) as Hge.
  { intros b ? Hb. destruct (hole_after _ _ _ _ Ho Hn Hb) as [Hend|(? & ? & ? & [= <- <- <-] & ?)]; [done|simpl in Hend; lia|done]. }
  pose proof (region_view _ _ _ _ Ho) as (_ & ? & ? & _).
  destruct r as [a|]; simpl in *; [|naive_solver]. destruct Hr as (? & ? & Hr). split_and!; [lia|done|]. eauto.
Qed.
Lemma lowest_hole_none l1 n : ordered 0 l1 → 0 < n → mmap_limit + 1 - top 0 l1 < n → lowest_hole l1 (top 0 l1) n None.
Proof.
  intros Ho Hn Hs b Hb Hh. rewrite <- (app_nil_r l1) in Ho, Hh.
  destruct (hole_after _ _ _ _ Ho Hn Hh) as [Hend|(? & ? & ? & ? & ?)]; [done|simpl in Hend; lia|done].
Qed.

Lemma highest_hole_here l1 l2 n : ordered 0 (l1 ++ l2) → n ≤ bottom l2 - top 0 l1 →
  highest_hole (l1 ++ l2) (bottom l2) n (Some (bottom l2 - n)).
Proof. intros. split_and!; [lia|apply hole_within; [done|lia..]|lia]. Qed.
Lemma highest_hole_skip l1 q w l2 n r : ordered 0 ((l1 ++ [(q, w)]) ++ l2) → 0 < n → bottom l2 - (v_end w + 1) < n →
  highest_hole ((l1 ++ [(q, w)]) ++ l2) (v_start w) n r → highest_hole ((l1 ++ [(q, w)]) ++ l2) (bottom l2) n r.
Proof.
  intros Ho Hn Hs Hr. assert (∀ b, b + n ≤ bottom l2 → hole ((l1 ++ [(q, w)]) ++ l2) b n → b + n ≤ v_start w) as Hge.
  { intros b ? Hb. destruct (hole_before _ _ _ _ Ho Hn Hb) as [Hend|(? & ? & ? & [-> [= <- <-]]%app_inj_tail & ?)]; [done| |done].
    rewrite top_app in Hend. simpl in Hend. lia. }
  pose proof Ho as Ho'. rewrite <- (assoc_L (++)) in Ho'. pose proof (region_view _ _ _ _ Ho') as (_ & ? & ? & _ & _ & ?).
  destruct r as [a|]; simpl in *; [|naive_solver]. destruct Hr as (? & ? & Hr). split_and!; [lia|done|]. eauto.
Qed.
Lemma highest_hole_none l n : ordered 0 l → 0 < n → bottom l < n → highest_hole l (bottom l) n None.
Proof. intros Ho Hn Hs b Hb Hh. destruct Hh as (? & _). lia. Qed.

(** The value of [v_end w + 1] as the top of a list. *)
Lemma top_snoc l1 q w : top 0 (l1 ++ [(q, w)]) = v_end w + 1.
Proof. by rewrite top_app. Qed.
Lemma upper_bound_eq v : 0 ≤ v_start v ≤ v_end v → v_end v ≤ mmap_limit → vmr_upper_bound v = v_end v + 1.
Proof. intros. unfold vmr_upper_bound. apply u32_small. assert (mmap_limit + 1 < 2 ^ 32) by done. lia. Qed.

#[global] Arguments hole_in_front size near : simpl never.
#[global] Arguments hole_behind size p : simpl never.
#[global] Arguments mmap_find_holeat addr size whence : simpl never.

Lemma filter_true {A} (P : A → Prop) `{!∀ x, Decision (P x)} (l : list A) : (∀ x, x ∈ l → P x) → filter P l = l.
Proof. induction l as [|x l IH]; intros Hl; [done|]. rewrite filter_cons_True, IH; [done|set_solver..]. Qed.
Lemma filter_false {A} (P : A → Prop) `{!∀ x, Decision (P x)} (l : list A) : (∀ x, x ∈ l → ¬ P x) → filter P l = [].
Proof. induction l as [|x l IH]; intros Hl; [done|]. rewrite filter_cons_False, IH; [done|set_solver..]. Qed.

Section holes.
Context (m : mmap) (l : regions) (n : Z) (Hok : mmap_ok m l) (Hn : 0 < n).

Lemma wp_hole_up fuel l1 p v l2 (Q : option Z → mmap → Prop) :
  l = l1 ++ (p, v) :: l2 → (length l2 < fuel)%nat →
  (∀ r, lowest_hole l (v_end v + 1) n r → Q r m) →
  wp (hole_up fuel n (Some p)) Q m.
Proof using All.
  assert (mmap_limit + 1 < 2 ^ 32) as Hlim32 by done.
  revert l1 p v l2. induction fuel as [|fuel IH]; intros l1 p v l2 Hl Hf HQ; [lia|].
  pose proof (ok_ordered _ _ Hok) as Ho. rewrite Hl in Ho. pose proof (region_view _ _ _ _ Ho) as (_ & ? & ? & ? & _).
  unfold hole_up; fold hole_up. pose proof (rd_mid _ _ Hok _ _ _ _ Hl). wp_go. rewrite upper_bound_eq by lia.
  replace (l1 ++ (p, v) :: l2) with ((l1 ++ [(p, v)]) ++ l2) in Hl, Ho by (by rewrite <- (assoc_L (++))).
  rewrite <- (top_snoc l1 p v) in *. destruct l2 as [|[q w] l2]; simpl.
  - wp_go. destruct (decide (top 0 (l1 ++ [(p, v)]) < mmap_limit + 1)).
    + eapply (wp_holesize_gap _ _ Hok); [done..|]. wp_go. simpl. case_decide; wp_go; apply HQ; rewrite Hl.
      * by apply lowest_hole_here.
      * rewrite app_nil_r in *. apply lowest_hole_none; [done|lia..].
    + eapply (wp_holesize _ _ Hok); [lia| |lia|lia]. intros _. wp_go. rewrite decide_False by lia. wp_go. apply HQ.
      rewrite Hl, app_nil_r in *. apply lowest_hole_none; [done|lia..].
  - pose proof (rd_mid _ _ Hok _ _ _ _ Hl). pose proof (region_view _ _ _ _ Ho) as (_ & ? & ? & ? & _).
    wp_go. rewrite u32_small by lia. case_decide; wp_go.
    + apply HQ. rewrite Hl. by apply lowest_hole_here.
    + eapply IH; [done|simpl in Hf; lia|]. intros r Hr. apply HQ. rewrite Hl in *. apply lowest_hole_skip; [done..|lia|done].
Qed.

(** A hole of one byte below a region at address 1 is the only one that is missed. *)
Lemma wp_hole_down fuel l1 p v l2 (Q : option Z → mmap → Prop) :
  l = l1 ++ (p, v) :: l2 → (S (length l1) < fuel)%nat → 1 < n →
  (∀ r, highest_hole l (v_start v) n r → Q r m) →
  wp (hole_down fuel n (Some p)) Q m.
Proof using All.
  assert (mmap_limit + 1 < 2 ^ 32) as Hlim32 by done.
  revert l1 p v l2. induction fuel as [|fuel IH]; intros l1 p v l2 Hl Hf Hn1 HQ; [lia|].
  pose proof (ok_ordered _ _ Hok) as Ho. rewrite Hl in Ho. pose proof (region_view _ _ _ _ Ho) as (_ & ? & ? & ? & _).
  unfold hole_down; fold hole_down. pose proof (rd_mid _ _ Hok _ _ _ _ Hl). wp_go.
  change (v_start v) with (bottom ((p, v) :: l2)) in *.
  destruct l1 as [|[q w] l1 _] using rev_ind; [|rewrite lst_or_snoc].
  - destruct fuel as [|fuel]; [simpl in Hf; lia|]. unfold hole_down; fold hole_down. simpl in *.
    assert (n ≤ v_start v → Q (Some (u32 (v_start v - n))) m) as Hyes.
    { intros ?. apply HQ. rewrite Hl, u32_small by lia. apply (highest_hole_here [] ((p, v) :: l2)); simpl; [done|lia]. }
    assert (v_start v < n → Q None m) as Hno.
    { intros ?. apply HQ. rewrite Hl. apply (highest_hole_none ((p, v) :: l2)); simpl; [done|lia..]. }
    unfold vmr_lower_bound. destruct (decide (v_start v = 0)) as [E|?].
    + rewrite E. rewrite decide_True by done. rewrite decide_False by lia. wp_go. apply Hno. lia.
    + rewrite (u32_small (v_start v - 1)) by lia. repeat case_decide; wp_go; [apply Hyes; lia|apply Hno; lia..].
  - assert (l = l1 ++ (q, w) :: (p, v) :: l2) as Hl' by (by rewrite Hl, <- (assoc_L (++))).
    pose proof (rd_mid _ _ Hok _ _ _ _ Hl'). rewrite <- (assoc_L (++)) in Ho. simpl in Ho.
    pose proof (region_view _ _ _ _ Ho) as (_ & ? & ? & ? & _ & ?). wp_go. simpl in *.
    rewrite upper_bound_eq, u32_small by lia. case_decide; wp_go.
    + apply HQ. rewrite u32_small, Hl by lia. apply (highest_hole_here (l1 ++ [(q, w)]) ((p, v) :: l2)).
      * by rewrite <- Hl, Hl'.
      * rewrite top_snoc. simpl. lia.
    + eapply IH; [done|rewrite length_app in Hf; simpl in Hf; lia|done|]. intros r Hr. apply HQ. rewrite Hl in *.
      apply (highest_hole_skip l1 q w ((p, v) :: l2)); simpl; [|lia|lia|done]. by rewrite <- (assoc_L (++)).
Qed.

Lemma wp_hole_up_head (Q : option Z → mmap → Prop) :
  bottom l < n → (∀ r, lowest_hole l 0 n r → Q r m) →
  wp (hole_up (S (size (vmrs m))) n (hd_or NULL l)) Q m.
Proof using All.
  intros Hb HQ. pose proof (ok_ordered _ _ Hok) as Ho. pose proof (ok_length _ _ Hok) as Hlen.
  destruct (decide (l = [])) as [El|Hne].
  - rewrite El. unfold hole_up; fold hole_up. simpl. wp_go. apply HQ. rewrite El in *. apply (lowest_hole_none []); simpl in *; [done|lia..].
  - assert (∃ p v l2, l = [] ++ (p, v) :: l2) as (p & v & l2 & El) by (destruct l as [|[]]; [done|by repeat eexists]).
    rewrite El. simpl. eapply (wp_hole_up _ []); [done|rewrite El in Hlen; simpl in Hlen; lia|].
    intros r Hr. apply HQ. rewrite El in *. by apply (lowest_hole_skip []); simpl; [|lia|simpl in Hb; lia|].
Qed.
Lemma wp_hole_down_tail (Q : option Z → mmap → Prop) :
  mmap_limit + 1 - top 0 l < n → 1 < n → (∀ r, highest_hole l (mmap_limit + 1) n r → Q r m) →
  wp (hole_down (S (size (vmrs m))) n (lst_or NULL l)) Q m.
Proof using All.
  intros Hb Hn1 HQ. pose proof (ok_ordered _ _ Hok) as Ho. pose proof (ok_length _ _ Hok) as Hlen.
  destruct (lst_or NULL l) as [p|] eqn:El.
  - apply lst_or_inv in El as (l1 & v & El). rewrite El, length_app in Hlen. simpl in Hlen.
    eapply wp_hole_down; [done|lia|done|]. intros r Hr. apply HQ. rewrite El in *. rewrite top_snoc in Hb.
    rewrite <- (app_nil_r (l1 ++ [(p, v)])) in *. by apply (highest_hole_skip _ _ _ []); simpl; [|lia..|].
  - apply lst_or_NULL in El. unfold hole_down; fold hole_down. wp_go. apply HQ. rewrite El in *.
    by apply (highest_hole_none []); simpl in *; [|lia..].
Qed.

Lemma wp_find_hole_start (Q : Z * Z → mmap → Prop) :
  (∀ a, lowest_hole l 0 n (Some a) → Q (0, a) m) → (lowest_hole l 0 n None → Q (- ENOMEM, 0) m) →
  wp (mmap_find_hole n whence_start) Q m.
Proof using All.
  intros HS HN. pose proof (ok_lock _ _ Hok). pose proof (ok_ordered _ _ Hok) as Ho. pose proof (ok_head _ _ Hok) as Hhd.
  unfold mmap_find_hole. rewrite decide_False by lia. wp_go. rewrite decide_True by done. wp_go.
  assert (bottom l < n → wp (head ← gets vmr_head; found ← hole_up (S (size (vmrs m))) n head;
    match found with Some a => mret (0, a) | None => mret (- ENOMEM, 0) end) Q m) as Hrest.
  { intros Hb. wp_go. rewrite Hhd. apply wp_hole_up_head; [done|]. intros [a|] Hr; wp_go; auto. }
  destruct (decide (0 < bottom l)) as [Hb|Hb].
  - eapply (wp_holesize_gap _ _ Hok []); [done|done|done|]. wp_go. rewrite Z.sub_0_r. case_decide; [|apply Hrest; lia].
    wp_go. apply HS. apply (lowest_hole_here [] l); simpl; [done|lia].
  - assert (mapped l 0) as Hm.
    { replace 0 with (bottom l) by (pose proof (hole_view [] l Ho) as (_ & _ & ? & _); simpl in *; lia).
      apply (bottom_mapped [] l); [done|assert (0 < mmap_limit) by done; lia]. }
    eapply (wp_holesize _ _ Hok); [done|done| |].
    + intros _ _. wp_go. rewrite decide_False by lia. apply Hrest. lia.
    + intros l1 l2 Hl ? ? _. exfalso. apply (gap_free l1 l2 0); [by rewrite <- Hl|done|by apply bottom_before|by rewrite <- Hl].
Qed.

Lemma wp_find_hole_end (Q : Z * Z → mmap → Prop) :
  1 < n < 2 ^ 32 →
  (∀ a, highest_hole l (mmap_limit + 1) n (Some a) → Q (0, a) m) →
  (highest_hole l (mmap_limit + 1) n None → Q (- ENOMEM, 0) m) →
  wp (mmap_find_hole n whence_end) Q m.
Proof using All.
  intros Hn1 HS HN. pose proof (ok_lock _ _ Hok). pose proof (ok_ordered _ _ Hok) as Ho.
  pose proof (ok_tail _ _ Hok) as Htl. pose proof (ok_limit _ _ Hok) as Hlim.
  assert (mmap_limit + 1 < 2 ^ 32) as Hlim32 by done. pose proof (top_ge _ _ Ho). pose proof (top_le 0 l ltac:(done) Ho).
  assert (∀ h, mmap_limit + 1 - top 0 l < n → h < n →
    wp (if decide (n ≤ h) then mret (0, u32 (mmap_limit + 1 - n)) else
        tail ← gets vmr_tail; found ← hole_down (S (size (vmrs m))) n tail;
        match found with Some a => mret (0, a) | None => mret (- ENOMEM, 0) end) Q m) as Hrest.
  { intros h Hb Hh. rewrite decide_False by lia. wp_go. rewrite Htl. apply wp_hole_down_tail; [done|lia|].
    intros [a|] Hr; wp_go; auto. }
  unfold mmap_find_hole. rewrite decide_False by lia. wp_go. rewrite decide_False, decide_True by done. wp_go. rewrite Hlim.
  destruct (decide (n ≤ mmap_limit + 1)) as [Hle|Hgt].
  - rewrite (u32_small (mmap_limit + 1 - n)) in * by lia.
    eapply (wp_holesize _ _ Hok); [lia|lia| |].
    + intros _ Hm%(mapped_range 0); [|done]. apply Hrest; lia.
    + intros l1 l2 Hl ? ? _. destruct (decide (bottom l2 = mmap_limit + 1)) as [E|?].
      * rewrite E. replace (mmap_limit + 1 - (mmap_limit + 1 - n)) with n by lia. simpl. rewrite decide_True by lia. wp_go.
        apply HS. rewrite Hl in *. rewrite <- E. apply highest_hole_here; [done|lia].
      * pose proof (hole_view l1 l2) as Hv. rewrite <- Hl in Hv. destruct (Hv Ho) as (_ & _ & ? & ?).
        apply Hrest; [|lia]. assert (mapped l (bottom l2)) as Hm by (rewrite Hl in *; apply bottom_mapped; [done|lia]).
        eapply mapped_range in Hm; [|done]. lia.
  - assert (u32 (mmap_limit + 1 - n) = mmap_limit + 1 - n + 2 ^ 32) as Eu.
    { unfold u32. rewrite <- (Z.mod_add _ 1) by done. rewrite Z.mod_small; lia. }
    eapply (wp_holesize _ _ Hok); [rewrite Eu; lia| |lia|lia]. intros _. apply Hrest; lia.
Qed.

(** ** Near an address *)

Lemma wp_hole_in_front l1 p v l2 (Q : option Z → mmap → Prop) :
  l = l1 ++ (p, v) :: l2 → (∀ r, (∀ a, r = Some a → hole l a n) → Q r m) → wp (hole_in_front n (Some p)) Q m.
Proof using All.
  intros Hl HQ. assert (mmap_limit + 1 < 2 ^ 32) as Hlim32 by done.
  pose proof (ok_ordered _ _ Hok) as Ho. rewrite Hl in Ho. pose proof (region_view _ _ _ _ Ho) as (_ & ? & ? & _).
  pose proof (rd_mid _ _ Hok _ _ _ _ Hl). unfold hole_in_front. wp_go.
  destruct (lst_or NULL l1) as [q|] eqn:Eq; [|wp_go; by apply HQ]. apply lst_or_inv in Eq as (l1' & w & ->).
  assert (l = l1' ++ (q, w) :: (p, v) :: l2) as Hl' by (by rewrite Hl, <- (assoc_L (++))).
  pose proof (rd_mid _ _ Hok _ _ _ _ Hl'). rewrite top_snoc in *. wp_go.
  pose proof Ho as Ho'. rewrite <- (assoc_L (++)) in Ho'. pose proof (region_view _ _ _ _ Ho') as (_ & ? & ? & ? & _).
  rewrite upper_bound_eq, u32_small by lia. case_decide; wp_go; apply HQ; [|done]. intros a [= <-].
  rewrite Hl. apply hole_within; [done| |]; rewrite ?top_snoc; simpl; lia.
Qed.

(** The hole behind [p], taken from its upper end. *)
Lemma wp_hole_behind l1 p v l2 (Q : option Z → mmap → Prop) :
  l = l1 ++ (p, v) :: l2 →
  (n ≤ bottom l2 - (v_end v + 1) → Q (Some (bottom l2 - n)) m) → (bottom l2 - (v_end v + 1) < n → Q None m) →
  wp (hole_behind n p) Q m.
Proof using All.
  intros Hl HS HN. assert (mmap_limit + 1 < 2 ^ 32) as Hlim32 by done.
  pose proof (ok_ordered _ _ Hok) as Ho. rewrite Hl in Ho. pose proof (region_view _ _ _ _ Ho) as (_ & ? & ? & ? & _ & ?).
  pose proof (rd_mid _ _ Hok _ _ _ _ Hl). unfold hole_behind. wp_go. rewrite upper_bound_eq by lia.
  replace (l1 ++ (p, v) :: l2) with ((l1 ++ [(p, v)]) ++ l2) in Hl, Ho by (by rewrite <- (assoc_L (++))).
  destruct l2 as [|[q w] l2]; simpl in *; wp_go.
  - destruct (decide (v_end v + 1 < mmap_limit + 1)).
    + eapply (wp_holesize_gap _ _ Hok (l1 ++ [(p, v)]) []); [done|rewrite top_snoc; lia|simpl; lia|]. simpl. wp_go.
      case_decide; [|case_decide]; wp_go.
      * rewrite u32_small by lia. replace (v_end v + 1 + (mmap_limit + 1 - (v_end v + 1)) - n) with (mmap_limit + 1 - n) by lia. apply HS. lia.
      * replace (v_end v + 1) with (mmap_limit + 1 - n) by lia. apply HS. lia.
      * apply HN. lia.
    + eapply (wp_holesize _ _ Hok); [lia| |lia|lia]. intros _. wp_go. rewrite !decide_False by lia. wp_go. apply HN. lia.
  - pose proof (rd_mid _ _ Hok _ _ _ _ Hl). wp_go. pose proof (region_view _ _ _ _ Ho) as (_ & ? & ? & _).
    rewrite u32_small by lia. case_decide; wp_go; [rewrite u32_small by lia|]; auto with lia.
Qed.

(** A pointer to a region of [l], or NULL. *)
Definition near_of (near : ptr) : Prop := match near with Some p => p ∈ l.*1 | None => True end.
Lemma near_split p : p ∈ l.*1 → ∃ l1 v l2, l = l1 ++ (p, v) :: l2.
Proof using Type. clear Hok. intros ([? v] & -> & (l1 & l2 & ->)%list_elem_of_split)%list_elem_of_fmap. eauto. Qed.

Lemma near_cases near : near_of near →
  (if decide (near = NULL) then hd_or NULL l else near) = NULL ∧ l = [] ∨
  ∃ l1 p v l2, (if decide (near = NULL) then hd_or NULL l else near) = Some p ∧ l = l1 ++ (p, v) :: l2.
Proof using Type.
  clear Hok. destruct near as [p|]; simpl.
  - intros (l1 & v & l2 & Hl)%near_split. right. exists l1, p, v, l2. done.
  - intros _. destruct l as [|[p v] l2]; [by left|]. right. by exists [], p, v, l2.
Qed.

(** The walk from [near], then the search of the whole address space. *)
Definition search_up (near : ptr) : M mmap (Z * Z) :=
  found ← hole_in_front n near;
  or_else found (found ← hole_up (S (size (vmrs m))) n near; or_else found (mmap_find_hole n whence_start)).

Lemma wp_search_up near (Q : Z * Z → mmap → Prop) :
  near_of near → (∀ r, hole l r n → Q (0, r) m) → ((∀ r, ¬ hole l r n) → Q (- ENOMEM, 0) m) →
  wp (search_up (if decide (near = NULL) then hd_or NULL l else near)) Q m.
Proof using All.
  intros Hnear HS HN. pose proof (ok_length _ _ Hok) as Hlen.
  assert (wp (mmap_find_hole n whence_start) Q m) as Hall.
  { apply wp_find_hole_start; [intros a (_ & ? & _); auto|]. intros Hno. apply HN. intros r Hr. apply (Hno r); [|done]. apply Hr. }
  unfold search_up. destruct (near_cases _ Hnear) as [[-> El]|(l1 & p & v & l2 & -> & El)].
  - unfold hole_in_front, hole_up; fold hole_up. simpl. wp_go. done.
  - wp_go. eapply wp_hole_in_front; [done|]. intros [a|] Hr; simpl; wp_go; [by apply HS, Hr|].
    eapply wp_hole_up; [done|rewrite El, length_app in Hlen; simpl in Hlen; lia|]. intros [a|] Hr'; simpl; wp_go; [|done].
    apply HS. apply Hr'.
Qed.

Lemma wp_find_holeat_start a (Q : Z * Z → mmap → Prop) :
  0 ≤ a → (∀ r, hole l r n → (hole l a n → r = a) → Q (0, r) m) → ((∀ r, ¬ hole l r n) → Q (- ENOMEM, 0) m) →
  wp (mmap_find_holeat a n whence_start) Q m.
Proof using All.
  intros Ha HS HN. pose proof (ok_lock _ _ Hok). pose proof (ok_ordered _ _ Hok) as Ho. pose proof (ok_head _ _ Hok) as Hhd.
  assert (∀ near, near_of near → ¬ hole l a n → wp (search_up (if decide (near = NULL) then hd_or NULL l else near)) Q m) as Hsearch.
  { intros near Hnear Hna. apply wp_search_up; [done|by intros; apply HS|done]. }
  unfold mmap_find_holeat. rewrite decide_False by lia. wp_go.
  assert (∀ near, near_of near → wp ('(_, holesz) ← mmap_holesize a;
    if decide (n ≤ holesz) then mret (0, a) else
    head ← gets vmr_head; search_up (if decide (near = NULL) then head else near)) Q m) as Hrest.
  { intros near Hnear. wp_go. eapply (wp_holesize _ _ Hok); [done| | |].
    - intros ?. wp_go. rewrite decide_False by lia. wp_go. rewrite Hhd. apply Hsearch; [done|]. intros (? & ? & ?). lia.
    - intros ? Hm. wp_go. rewrite decide_False by lia. wp_go. rewrite Hhd. apply Hsearch; [done|]. intros (? & ? & Hf).
      apply (Hf a); [lia|done].
    - intros l1 l2 Hl ???. wp_go. rewrite Hl in Ho. case_decide; wp_go.
      + apply HS; [|done]. rewrite Hl. apply hole_within; [done|lia|lia].
      + rewrite Hhd. apply Hsearch; [done|]. rewrite Hl, hole_iff by done. lia. }
  case_decide; wp_go; [rewrite decide_True by done; exact (Hrest NULL I)|]. rewrite decide_True by done. wp_go.
  apply (wp_find_vmr_next _ _ Hok); [done| |].
  - intros l1 p v l2 Hl _. wp_go. rewrite decide_True by done. refine (Hrest (hd_or NULL l2) _).
    unfold near_of. rewrite Hl. destruct l2 as [|[q w] l2]; [done|]. simpl. rewrite fmap_app. csimpl. set_solver.
  - intros l1 l2 Hl _ _. wp_go. rewrite decide_True by done. refine (Hrest (hd_or NULL l2) _).
    unfold near_of. rewrite Hl. destruct l2 as [|[q w] l2]; [done|]. simpl. rewrite fmap_app. csimpl. set_solver.
Qed.

Definition search_down (near : ptr) : M mmap (Z * Z) :=
  match near with
  | None =>
      limit ← gets mm_limit;
      '(_, holesz) ← mmap_holesize (u32 (limit + 1 - n));
      if decide (n ≤ holesz) then mret (0, u32 (limit + 1 - n)) else
      found ← hole_down (S (size (vmrs m))) n NULL;
      or_else found (mmap_find_hole n whence_end)
  | Some p =>
      found ← hole_behind n p;
      or_else found (
      found ← hole_down (S (size (vmrs m))) n (Some p);
      or_else found (mmap_find_hole n whence_end))
  end.

(** Where the search from the end starts: in front of the first region that does not
    end below the hint [a]; at the end of the address space when no region ends below it. *)
Definition search_from (a : Z) : Z :=
  match filter (λ c : loc * vmr, v_end c.2 < a) l with
  | [] => mmap_limit + 1
  | _ => bottom (filter (λ c : loc * vmr, a ≤ v_end c.2) l)
  end.
(** The highest hole below that, or else the highest of all. *)
Definition from_end (a r : Z) : Prop :=
  highest_hole l (search_from a) n (Some r) ∨
  (highest_hole l (search_from a) n None ∧ highest_hole l (mmap_limit + 1) n (Some r)).

Lemma search_from_split a l1 l2 : l = l1 ++ l2 →
  (∀ c, c ∈ l1 → v_end c.2 < a) → (∀ c, c ∈ l2 → a ≤ v_end c.2) →
  search_from a = match l1 with [] => mmap_limit + 1 | _ => bottom l2 end.
Proof using Type.
  clear Hok Hn. intros Hl H1 H2. unfold search_from. rewrite Hl, !filter_app. clear Hl.
  rewrite (filter_true _ l1 H1), (filter_true _ l2 H2), (filter_false _ l1), (filter_false _ l2).
  2: { intros c Hc%H2. lia. }
  2: { intros c Hc%H1. lia. }
  rewrite app_nil_r. by destruct l1.
Qed.

Lemma wp_search_down l1 l2 (Q : Z * Z → mmap → Prop) :
  l = l1 ++ l2 → l1 ≠ [] ∨ l2 = [] → 1 < n < 2 ^ 32 →
  (∀ r, highest_hole l (bottom l2) n (Some r) ∨
        (highest_hole l (bottom l2) n None ∧ highest_hole l (mmap_limit + 1) n (Some r)) → Q (0, r) m) →
  ((∀ r, ¬ hole l r n) → Q (- ENOMEM, 0) m) →
  wp (search_down (lst_or NULL l1)) Q m.
Proof using All.
  intros Hl Hne Hn1 HS HN. pose proof (ok_lock _ _ Hok). pose proof (ok_ordered _ _ Hok) as Ho.
  pose proof (ok_length _ _ Hok) as Hlen. pose proof (ok_limit _ _ Hok) as Hlim. assert (0 ≤ mmap_limit ∧ mmap_limit + 1 < 2 ^ 32) as [??] by done.
  assert (highest_hole l (bottom l2) n None → wp (mmap_find_hole n whence_end) Q m) as Hall.
  { intros ?. apply wp_find_hole_end; [done|by auto|]. intros Hno. apply HN. intros r Hr. apply (Hno r); [|done]. apply Hr. }
  destruct (lst_or NULL l1) as [p|] eqn:E; simpl.
  - apply lst_or_inv in E as (l1' & v & ->). rewrite Hl in Ho. assert (l = l1' ++ (p, v) :: l2) as Hl' by (by rewrite Hl, <- (assoc_L (++))).
    wp_go. eapply wp_hole_behind; [done| |].
    + intros ?. simpl. wp_go. apply HS. left. rewrite Hl. apply highest_hole_here; [done|]. rewrite top_snoc. lia.
    + intros Hlt. simpl. wp_go. eapply wp_hole_down; [done|rewrite Hl, !length_app in Hlen; simpl in Hlen; lia|lia|].
      assert (∀ r, highest_hole l (v_start v) n r → highest_hole l (bottom l2) n r) as Hskip.
      { intros r Hr. rewrite Hl in *. by apply highest_hole_skip. }
      intros [r|] Hr%Hskip; simpl; wp_go; auto.
  - apply lst_or_NULL in E as ->. destruct Hne as [?| ->]; [done|]. wp_go. rewrite Hlim. rewrite Hl in Ho.
    assert (mmap_limit + 1 < n → wp (found ← hole_down (S (size (vmrs m))) n NULL; or_else found (mmap_find_hole n whence_end)) Q m) as Hdown.
    { intros ?. unfold hole_down; fold hole_down. simpl. wp_go. apply Hall. intros b Hb (? & _). simpl in Hb. lia. }
    destruct (decide (n ≤ mmap_limit + 1)).
    + rewrite u32_small by lia. eapply (wp_holesize_gap _ _ Hok [] []); [done|simpl; lia|simpl; lia|]. simpl.
      wp_go. rewrite decide_True by lia. wp_go. apply HS. left. rewrite Hl. apply (highest_hole_here [] []); [done|simpl; lia].
    + assert (u32 (mmap_limit + 1 - n) = mmap_limit + 1 - n + 2 ^ 32) as Eu.
      { unfold u32. rewrite <- (Z.mod_add _ 1) by done. rewrite Z.mod_small; lia. }
      eapply (wp_holesize _ _ Hok); [rewrite Eu; lia| |lia|lia]. intros _. wp_go. rewrite decide_False by lia. apply Hdown. lia.
Qed.

Lemma wp_find_holeat_end a (Q : Z * Z → mmap → Prop) :
  0 ≤ a → 1 < n < 2 ^ 32 → (∀ r, from_end a r → Q (0, r) m) → ((∀ r, ¬ hole l r n) → Q (- ENOMEM, 0) m) →
  wp (mmap_find_holeat a n whence_end) Q m.
Proof using All.
  intros Ha Hn1 HS HN. pose proof (ok_lock _ _ Hok). pose proof (ok_ordered _ _ Hok) as Ho. pose proof (ok_tail _ _ Hok) as Htl.
  unfold mmap_find_holeat. rewrite decide_False by lia. wp_go.
  assert (∀ l1 l2, l = l1 ++ l2 → (∀ c, c ∈ l1 → v_end c.2 < a) → (∀ c, c ∈ l2 → a ≤ v_end c.2) →
    wp (tail ← gets vmr_tail; search_down (if decide (lst_or NULL l1 = NULL) then tail else lst_or NULL l1)) Q m) as Hrest.
  { intros l1 l2 Hl H1 H2. wp_go. rewrite Htl. pose proof (search_from_split a l1 l2 Hl H1 H2) as Hfrom. unfold from_end in HS. rewrite Hfrom in HS.
    case_decide as E.
    - apply lst_or_NULL in E as ->. eapply (wp_search_down l []); [by rewrite app_nil_r|by right|done..].
    - apply (wp_search_down l1 l2); [done|left; by intros ->|done| |done]. intros r Hr. apply HS. by destruct l1. }
  assert (∀ c, c ∈ l → 0 ≤ v_end c.2) as Hpos.
  { intros [p v] Hin. pose proof (ordered_elem _ _ _ _ Ho Hin). simpl. lia. }
  case_decide; wp_go.
  { rewrite decide_False, decide_True by done. subst a. refine (Hrest [] l eq_refl _ Hpos). intros c. set_solver. }
  rewrite decide_False, decide_True by done. wp_go. apply (wp_find_vmr_prev _ _ Hok); [done| |].
  - intros l1 p v l2 Hl [? ?]. wp_go. rewrite decide_False, decide_True by done. rewrite Hl in Ho.
    pose proof (region_view _ _ _ _ Ho) as (Ho1 & ? & ? & ? & Ho2 & ?). refine (Hrest l1 ((p, v) :: l2) Hl _ _).
    + intros [q w] Hin. pose proof (ordered_elem _ _ _ _ Ho1 Hin). simpl. lia.
    + intros [q w] [[= -> ->]|Hin]%elem_of_cons; [done|]. pose proof (ordered_elem _ _ _ _ Ho2 Hin). simpl. lia.
  - intros l1 l2 Hl Ht Hb. wp_go. rewrite decide_False, decide_True by done. rewrite Hl in Ho.
    pose proof (hole_view _ _ Ho) as (Ho1 & Ho2 & ? & ?). refine (Hrest l1 l2 Hl _ _).
    + intros [q w] Hin. pose proof (ordered_elem _ _ _ _ Ho1 Hin). simpl. lia.
    + intros [q w] Hin. pose proof (before_elem _ _ _ _ _ Ho2 Hb Hin). pose proof (ordered_elem _ _ _ _ Ho2 Hin). simpl. lia.
Qed.
End holes.
