(* ===== verification/MmapSpec.v ===== *)
(** * Address spaces: what the operations promise

    The operations of [Mmap.v], stated on the regions [l] of an address space
    ([mmap_ok m l]), on the regions its addresses lie in ([view l]) and on the file
    offsets that back them ([backed_at l]). *)
From S2P Require Import Prelude Dll Mmap MmapShape MmapEdit MmapUnmap MmapHoles.

#[global] Arguments mmap_forced_mapin {_} r : simpl never.
#[global] Arguments mmap_map_region {_} addr len prot flags pvmr : simpl never.

(** ** Looking up *)

(** [mmap_find] returns the region that holds an address, and NULL exactly when
    no region does.  It changes nothing. *)
Theorem mmap_find_correct m l a : mmap_ok m l → 0 ≤ a →
  wp (mmap_find a) (λ r m', m' = m ∧
    match r with
    | Some p => ∃ v, (p, v) ∈ l ∧ in_vmr a v
    | None => ¬ mapped l a
    end) m.
Proof.
  intros Hok Ha. apply (wp_mmap_find _ _ Hok). split; [done|].
  destruct (locate l a) as [l1 p v l2 Hl Hin|l1 l2 Hl Ht Hb]; [apply Hok|done| |].
  - rewrite (find_in_region _ _ Hok l1 p v l2) by done. exists v. subst. split; [set_solver|done].
  - rewrite (find_in_hole _ _ Hok l1 l2) by done. subst. apply gap_free; [apply Hok|done..].
Qed.

(** [mmap_holesize] answers with the size of the hole from an address on: all of
    it is free, and it ends at a region or at the end of the address space.  It
    fails exactly for the addresses that are mapped or beyond the limit. *)
Theorem mmap_holesize_correct m l a : mmap_ok m l → 0 ≤ a →
  wp (mmap_holesize a) (λ '(err, n) m', m' = m ∧
    ((err = 0 ∧ 0 < n ∧ hole l a n ∧ (mapped l (a + n) ∨ a + n = mmap_limit + 1)) ∨
     (err = - EINVAL ∧ n = 0 ∧ (mapped l a ∨ mmap_limit < a)))) m.
Proof.
  intros Hok Ha. apply (wp_holesize _ _ Hok); [done|naive_solver|naive_solver|].
  intros l1 l2 -> ? ? ?. pose proof (ok_ordered _ _ Hok) as Ho. pose proof (hole_view _ _ Ho) as (_ & _ & ? & ?).
  split; [done|]. left. split_and!; [done|lia|apply hole_within; [done|lia..]|].
  replace (a + (bottom l2 - a)) with (bottom l2) by lia.
  destruct (decide (bottom l2 = mmap_limit + 1)); [by right|]. left. apply bottom_mapped; [done|lia].
Qed.

(** ** Mapping in and removing *)

(** [mmap_mapin] of a region inside the address space puts it on the list, at its
    place in the address order, when none of its addresses is mapped; otherwise it
    returns [-EEXIST] and changes nothing. *)
Theorem mmap_mapin_correct m l p v x y :
  mmap_ok m l → vmrs m !! p = Some (Node v x y) → p ∉ l.*1 → 0 ≤ v_start v ≤ v_end v → v_end v ≤ mmap_limit →
  wp (mmap_mapin (Some p)) (λ err m',
    (err = 0 ∧ (∀ i, in_vmr i v → ¬ mapped l i) ∧ ∃ l1 l2, l = l1 ++ l2 ∧ inserts m m' l1 p v l2) ∨
    (err = - EEXIST ∧ m' = m ∧ ∃ i, in_vmr i v ∧ mapped l i)) m.
Proof.
  intros Hok Hp Hni Hv He. eapply wp_mmap_mapin; [done..| |].
  - intros i ??. right. eauto.
  - intros m' l1 l2 -> ? ? Hins. left. split_and!; [done| |eauto].
    intros i [??]. apply gap_free; [apply Hok|lia|apply bottom_before; lia].
Qed.

(** [mmap_remove] takes exactly the region it is given off the list, and has its
    pages unmapped.  A region with two references (what [mmap_mapin] gives it) is
    freed unless it was the only one on the list. *)
Theorem mmap_remove_correct m l1 p v l2 :
  mmap_ok m (l1 ++ (p, v) :: l2) →
  wp (mmap_remove (Some p)) (λ err m', err = 0 ∧ removes m m' l1 p v l2 ∧
    (v_refs v = 2 → vmrs m' !! p = None ↔ l1 ++ l2 ≠ [])) m.
Proof.
  intros Hok. eapply wp_mmap_remove; [done|]. intros m' Hrem. split_and!; [done..|]. intros Hr.
  pose proof (rem_freed _ _ _ _ _ _ Hrem) as Hf. pose proof (rem_kept _ _ _ _ _ _ Hrem) as Hk.
  unfold last_refs in *. rewrite Hr in *. destruct l1 as [|a l1], l2 as [|b l2]; simpl in *.
  - destruct Hk as [? Hk]; [done|]. rewrite Hk. naive_solver.
  - split; [done|]. intros _. by apply Hf.
  - split; [done|]. intros _. by apply Hf.
  - split; [done|]. intros _. by apply Hf.
Qed.

Section alloc.
Context `{!Kalloc (node vmr)}.

(** C31: [mmap_unmap] of a range of the address space that is not empty and does not start
    strictly inside a region returns 0.
    Afterwards no address of the range lies in a region, and every other address lies in
    a region exactly when it did, with the same attributes (flags, protection, file).
    Its offset in the file is what it was, except in a region that lost its first
    addresses: [mmap_unmap] moves the start of that region and not its [file_pos], so
    the rest of it shows the file as many bytes too early as were unmapped.  The page
    tables are not part of the statement: only the pages of the regions that go
    altogether are taken out of them, those of a trimmed part stay. *)
Theorem mmap_unmap_correct m l s n :
  mmap_ok m l → 0 ≤ s → 0 < n → s + n ≤ mmap_limit + 1 → ¬ splits l s →
  wp (mmap_unmap s n) (λ err m', err = 0 ∧ ∃ l', unmaps m m' l l' s n ∧
    ∀ a k off, backed_at l' a k off ↔ ¬ (s ≤ a < s + n) ∧
      ∃ p v, (p, v) ∈ l ∧ in_vmr a v ∧ attrs v = k ∧
        off = file_offset v a - (if decide (s ≤ v_start v < s + n) then s + n - v_start v else 0)) m.
Proof.
  intros Hok ????. eapply wp_mmap_unmap; [done..|]. intros m' l' Hun. split; [done|]. exists l'. split; [done|]. intros a k off.
  rewrite (unmaps_backed _ _ _ _ _ _ _ _ _ (ok_ordered _ _ Hok) Hun). unfold start_after.
  f_equiv. split; intros (p & v & Hin & Hv & <- & E); exists p, v; (split_and!; [done..|]); case_decide; lia.
Qed.

(** [mmap_unmap] of a range that starts strictly inside a region dereferences
    NULL: it calls [vmr_split] without a place for the new region, and [vmr_split]
    writes to it. *)
Theorem mmap_unmap_split_faults m l s n :
  mmap_ok m l → 0 ≤ s → 0 < n → s + n ≤ mmap_limit + 1 → splits l s →
  mmap_unmap s n m = Fault.
Proof.
  intros Hok Hs Hn He (p & v & Hin & Hv). assert (mmap_limit + 1 < 2 ^ 32) by done.
  apply list_elem_of_split in Hin as (l1 & l2 & Hl). assert (in_vmr s v) as Hsv by (split; lia).
  assert (mmap_find_exact s (s + n - 1) m = Ok (NULL, m)) as Hex.
  { assert (wp (mmap_find_exact s (s + n - 1)) (λ r m', r = NULL ∧ m' = m) m) as (r & m' & E & -> & ->)%wp_exec; [|done].
    apply (wp_find_exact _ _ Hok); [done| |done]. intros l1' q w l2' Hl' -> _. exfalso.
    destruct (in_vmr_unique l1 p v l2 q w (v_start w)); [rewrite <- Hl; apply Hok|done|rewrite <- Hl, Hl'; set_solver| |subst; lia].
    pose proof (ordered_elem 0 l q w (ok_ordered _ _ Hok)) as Hw. destruct Hw as (? & ? & _); [rewrite Hl'; set_solver|split; lia]. }
  pose proof (mmap_find_eq _ _ Hok s) as Hf. rewrite (find_in_region _ _ Hok l1 p v l2) in Hf by done.
  pose proof (rd_mid _ _ Hok _ _ _ _ Hl) as Hp. pose proof (ok_lock _ _ Hok) as Hlk.
  unfold mmap_unmap, spin_assert_lock, valid_addr. rewrite decide_False by lia.
  unfold mbind, M_bind, gets. simpl. rewrite Hlk, u32_small, bool_decide_true by lia. simpl.
  match goal with |- context [unmap_loop ?f] => destruct f as [|k] eqn:Ef; [lia|] end.
  unfold unmap_loop; fold unmap_loop. rewrite decide_False by lia. rewrite (u32_small (s + n - 1)) by lia.
  unfold mbind, M_bind. rewrite Hex. simpl. rewrite Hf. unfold rd. simpl. rewrite Hp. simpl.
  rewrite !decide_False by lia. unfold vmr_split, mbind, M_bind, rd. simpl. rewrite Hp. simpl.
  unfold vmr_can_split. by rewrite bool_decide_true by lia.
Qed.
End alloc.

(** ** Finding room *)

(** [mmap_find_hole] from the start of the address space returns the lowest
    address with room for [n] bytes, from its end the highest; [-ENOMEM] exactly when
    there is no room (of at least two bytes, for the search from the end). *)
Theorem mmap_find_hole_correct m l n whence :
  mmap_ok m l → 1 < n < 2 ^ 32 → whence = whence_start ∨ whence = whence_end →
  wp (mmap_find_hole n whence) (λ '(err, a) m', m' = m ∧
    ∃ r, (if decide (whence = whence_start) then lowest_hole l 0 n r else highest_hole l (mmap_limit + 1) n r) ∧
      (err, a) = match r with Some a => (0, a) | None => (- ENOMEM, 0) end) m.
Proof.
  intros Hok Hn [-> | ->].
  - apply (wp_find_hole_start _ _ _ Hok); [lia| |].
    + intros a Ha. split; [done|]. exists (Some a). by case_decide.
    + intros Ha. split; [done|]. exists None. by case_decide.
  - apply (wp_find_hole_end _ _ _ Hok); [lia|done| |].
    + intros a Ha. split; [done|]. exists (Some a). by case_decide.
    + intros Ha. split; [done|]. exists None. by case_decide.
Qed.

(** ** Mapping a new region *)

Section map.
Context `{!Kalloc (node vmr)}.

Lemma ok_frame m l h : mmap_ok m l → (∀ q, q ∈ l.*1 → h !! q = vmrs m !! q) → mmap_ok {| m with vmrs := h |} l.
Proof. intros [] Hq. constructor; simpl; try done. by eapply linked_ext. Qed.
Lemma fresh_notin m l q : mmap_ok m l → vmrs m !! q = None → q ∉ l.*1.
Proof. intros Hok Hq Hin. eapply linked_is_Some in Hin; [|apply Hok]. rewrite Hq in Hin. by destruct Hin. Qed.

(** The region that [mmap_map_region] makes for [n] bytes at [a]. *)
Definition new_vmr (m : mmap) (a n prot flags : Z) : vmr :=
  let rflags := region_flags prot flags in
  {| vmr_zero with v_start := a; v_end := a + n - 1; v_flags := rflags; v_vflags := region_vflags rflags (mm_flags m) |}.

(** How many bytes it maps: a stack has its guard. *)
Definition map_len (m : mmap) (len flags : Z) : Z :=
  if has flags MAP_STACK then u32 (len + mm_guard_len m) else len.

(** [l'] maps what [l] maps, and in the range [a .. a + n - 1] the new region. *)
Definition adds (l l' : regions) (a n : Z) k : Prop :=
  ∀ x k', view l' x k' ↔ (view l x k' ∧ ¬ (a ≤ x < a + n)) ∨ (a ≤ x < a + n ∧ k' = k).

Lemma inserts_adds m m' l1 p v l2 : mmap_ok m (l1 ++ l2) → top 0 l1 ≤ v_start v → v_start v ≤ v_end v → v_end v < bottom l2 →
  inserts m m' l1 p v l2 →
  adds (l1 ++ l2) (l1 ++ (p, owned (mm_self m) v) :: l2) (v_start v) (v_end v - v_start v + 1) (attrs v).
Proof.
  intros Hok ??? _ x k. assert (∀ k, v_start v ≤ x ≤ v_end v → ¬ view (l1 ++ l2) x k) as Hfree.
  { intros k' ? ?%view_mapped. eapply (gap_free l1 l2); [apply Hok| | |done]; [lia|apply bottom_before; lia]. }
  specialize (Hfree k). rewrite !view_app, view_cons in *. unfold in_vmr. change (attrs (owned (mm_self m) v)) with (attrs v).
  simpl. destruct (decide (v_start v ≤ x ≤ v_end v)).
  - split; [intros [?|[[? <-]|?]]; [tauto|right; split; [lia|done]|tauto]|]. intros [[? ?]|[? ->]]; [lia|tauto].
  - split; [intros [?|[[? ?]|?]]; [left; split; [tauto|lia]|tauto|left; split; [tauto|lia]]|]. intros [[[?|?] ?]|[? ->]]; [tauto|tauto|lia].
Qed.
End map.
#[global] Arguments map_new {_} addr len prot flags pvmr : simpl never.

(** [m'] is [m] with the [n] bytes at [a] mapped by the region [v] at [p]. *)
Record maps (m m' : mmap) (l l' : regions) (p : loc) (a n : Z) (v : vmr) : Prop := {
  mp_ok : mmap_ok m' l';
  mp_adds : adds l l' a n (attrs v);
  mp_config : config m' = config m;
  mp_region : (p, owned (mm_self m) v) ∈ l';
  mp_used : mm_used_space m' = u32 (mm_used_space m + n);
}.

Section map.
Context `{!Kalloc (node vmr)} (m : mmap) (l : regions) (a n prot flags : Z) (Hok : mmap_ok m l).
Context (Ha : 0 ≤ a) (Hn : 0 < n) (Hend : a + n ≤ mmap_limit + 1).

Lemma wp_map_mapin m1 l1 p x y (Q : Z → mmap → Prop) :
  mmap_ok m1 l1 → config m1 = config m → mm_used_space m1 = mm_used_space m →
  (∀ x k, view l1 x k ↔ view l x k ∧ ¬ (a ≤ x < a + n)) →
  vmrs m1 !! p = Some (Node (new_vmr m a n prot flags) x y) → p ∉ l1.*1 →
  (∀ m' l', maps m m' l l' p a n (new_vmr m a n prot flags) →
     (∀ c, c ∈ l' ↔ c ∈ l1 ∨ c = (p, owned (mm_self m) (new_vmr m a n prot flags))) → Q 0 m') → wp (mmap_mapin (Some p)) Q m1.
Proof using All.
  intros Hok1 Hc Hu Hv Hp Hni HQ. eapply wp_mmap_mapin; [done..|simpl; lia|simpl; lia| |].
  - intros i [? ?] [k [_ Hk]%Hv]%mapped_view. simpl in *. lia.
  - simpl. intros m' l1a l1b -> Ht Hb Hins. assert (mm_self m1 = mm_self m) as Hself by (unfold config in Hc; congruence).
    apply (HQ m' (l1a ++ (p, owned (mm_self m1) (new_vmr m a n prot flags)) :: l1b)); [|intros c; rewrite Hself; set_solver]. constructor.
    + apply Hins.
    + intros z k. etransitivity; [apply (inserts_adds m1 m' l1a p (new_vmr m a n prot flags) l1b Hok1 Ht ltac:(simpl; lia) Hb Hins)|]. simpl.
      replace (a + n - 1 - a + 1) with n by lia. rewrite Hv. tauto.
    + by rewrite (ins_config _ _ _ _ _ _ Hins).
    + rewrite Hself. set_solver.
    + rewrite (ins_used _ _ _ _ _ _ Hins), Hu. simpl. f_equal. lia.
Qed.

Lemma wp_map_new (pvmr : bool) (Q : Z * ptr → mmap → Prop) :
  (if has flags MAP_FIXED then ¬ splits l a else hole l a n) →
  (kmalloc_at (vmrs m) = None → Q (- ENOMEM, NULL) m) →
  (∀ p m' l', kmalloc_at (vmrs m) = Some p → maps m m' l l' p a n (new_vmr m a n prot flags) →
     (has flags MAP_FIXED = false → ∀ c, c ∈ l' ↔ c ∈ l ∨ c = (p, owned (mm_self m) (new_vmr m a n prot flags))) →
     Q (0, if pvmr then Some p else NULL) m') →
  wp (map_new a n prot flags pvmr) Q m.
Proof using All.
  intros Hroom HN HQ. pose proof (ok_lock _ _ Hok). assert (mmap_limit + 1 < 2 ^ 32) by done. unfold map_new, vmr_alloc. wp_go.
  apply wp_kmalloc; simpl; [intros ?; wp_go; auto|]. intros p Hat Hfr. pose proof (fresh_notin _ _ _ Hok Hfr) as Hni. wp_go.
  rewrite u32_small by lia.
  match goal with |- context [alter ?f p ?g] => set (h := alter f p g) end. assert (h !! p = Some (Node (new_vmr m a n prot flags) NULL NULL)) as Hp.
  { unfold h. lookup_norm. unfold set_data. simpl. by rewrite !Z.lor_0_l. }
  assert (∀ q, q ≠ p → h !! q = vmrs m !! q) as Hq by (intros q ?; unfold h; by lookup_norm).
  assert (mmap_ok {| m with vmrs := h |} l) as Hok1 by (apply ok_frame; [done|]; intros q ?; apply Hq; congruence).
  clearbody h. destruct (has flags MAP_FIXED).
  - unfold mmap_forced_mapin. wp_go. rewrite vmr_size_eq by (simpl; lia). simpl.
    replace (a + n - 1 - a + 1) with n by lia. eapply wp_mmap_unmap; [exact Hok1|lia..|done|]. intros m1 l1 Hun.
    wp_go. eapply wp_map_mapin; [apply Hun|by rewrite (un_config _ _ _ _ _ _ Hun)|by rewrite (un_used _ _ _ _ _ _ Hun)|apply Hun| | |].
    + rewrite (un_untouched _ _ _ _ _ _ Hun) by done. simpl. exact Hp.
    + intros ?%(un_locs _ _ _ _ _ _ Hun). done.
    + intros m' l' Hm _. rewrite decide_False by tauto. wp_go. by eapply HQ.
  - eapply wp_map_mapin; [exact Hok1|done|done| |exact Hp|done|intros m' l' Hm Hc; rewrite decide_False by tauto; wp_go; by eapply HQ].
    intros z k. split; [|tauto]. intros Hz. split; [done|]. intros ?. destruct Hroom as (_ & _ & Hf). by eapply Hf, view_mapped.
Qed.
End map.

Section map_region.
Context `{!Kalloc (node vmr)} (m : mmap) (l : regions) (addr len prot flags : Z) (Hok : mmap_ok m l).
Context (Haddr : 0 ≤ addr < 2 ^ 32) (Hlen : len ≠ 0) (Hchk : map_region_check addr len prot flags = 0).



Lemma wp_map_region_fixed (pvmr : bool) (Q : Z * ptr → mmap → Prop) :
  has flags MAP_FIXED = true → 0 < map_len m len flags → addr + map_len m len flags ≤ mmap_limit + 1 → ¬ splits l addr →
  (kmalloc_at (vmrs m) = None → Q (- ENOMEM, NULL) m) →
  (∀ p m' l', maps m m' l l' p addr (map_len m len flags) (new_vmr m addr (map_len m len flags) prot flags) →
     Q (0, if pvmr then Some p else NULL) m') →
  wp (mmap_map_region addr len prot flags pvmr) Q m.
Proof using All.
  intros Hfix Hn He Hns HN HQ. pose proof (ok_lock _ _ Hok). unfold mmap_map_region. rewrite Hfix. simpl.
  rewrite bool_decide_false by done. wp_go. rewrite Hchk. rewrite decide_False by tauto. wp_go.
  rewrite decide_False by tauto. fold (map_len m len flags). eapply wp_map_new; [done|lia..|by rewrite Hfix|done|]. eauto.
Qed.
End map_region.


(** [mmap_map_region] with [MAP_FIXED] maps exactly the range it is given, over
    whatever was there, provided the range does not start strictly inside a region;
    the other addresses lie in regions with the attributes they had ([adds]). *)
Theorem mmap_map_fixed_correct `{!Kalloc (node vmr)} m l addr len prot flags n (pvmr : bool) :
  mmap_ok m l → 0 ≤ addr < 2 ^ 32 → len ≠ 0 → map_region_check addr len prot flags = 0 →
  has flags MAP_FIXED = true → n = map_len m len flags → 0 < n → addr + n ≤ mmap_limit + 1 → ¬ splits l addr →
  wp (mmap_map_region addr len prot flags pvmr) (λ '(err, r) m',
    (∃ p l', err = 0 ∧ r = (if pvmr then Some p else NULL) ∧ maps m m' l l' p addr n (new_vmr m addr n prot flags)) ∨
    (err = - ENOMEM ∧ r = NULL ∧ m' = m ∧ kmalloc_at (vmrs m) = None)) m.
Proof.
  intros Hok ??? Hfix -> ???. eapply wp_map_region_fixed; [done..| |].
  - intros. by right.
  - intros p m' l' ?. left. by exists p, l'.
Qed.

(** ** Growing and shrinking *)

(** The range of a region after [mmap_vmr_expand] by [d] bytes. *)
Definition resized (v : vmr) (d : Z) : vmr :=
  if has (v_flags v) VM_GROWSDOWN then {| v with v_start := v_start v - d |} else {| v with v_end := v_end v + d |}.

Definition gained (v : vmr) (d : Z) : Z := if has (v_flags v) VM_GROWSDOWN then v_start v - d else v_end v + 1.

Lemma ordered_resized l1 p v l2 d : ordered 0 (l1 ++ (p, v) :: l2) → 0 < v_end v - v_start v + 1 + d →
  (0 < d → hole (l1 ++ (p, v) :: l2) (gained v d) d) → ordered 0 (l1 ++ (p, resized v d) :: l2).
Proof.
  intros Ho Hsz Hh. pose proof (region_view _ _ _ _ Ho) as (H1 & ? & ? & ? & H2 & ? & ?).
  assert (ordered 0 (l1 ++ l2)) as Ho'.
  { apply ordered_app. split; [done|]. eapply ordered_weaken; [|done]. lia. }
  unfold gained, resized in *. destruct (has (v_flags v) VM_GROWSDOWN); apply ordered_insert; simpl; try done; try lia.
  - destruct (decide (0 < d)) as [Hd|?]; [|lia].
    destruct (hole_before l1 ((p, v) :: l2) (v_start v - d) d Ho Hd (Hh Hd)) as [?|(l1' & q & w & -> & ?)]; simpl; [lia|done|].
    rewrite top_snoc in *. rewrite <- (assoc_L (++)) in Ho. pose proof (region_view _ _ _ _ Ho) as (_ & _ & ? & _). lia.
  - destruct (decide (0 < d)) as [Hd|?]; [|lia]. pose proof (Hh Hd) as (_ & ? & _). lia.
  - destruct (decide (0 < d)) as [Hd|?]; [|lia]. specialize (Hh Hd).
    replace (l1 ++ (p, v) :: l2) with ((l1 ++ [(p, v)]) ++ l2) in Ho, Hh by (by rewrite <- (assoc_L (++))).
    destruct (hole_after _ _ _ _ Ho Hd Hh) as [?|(q & w & l2' & -> & ?)]; [rewrite top_snoc; lia|lia|].
    pose proof (region_view _ _ _ _ Ho) as (_ & ? & ? & _). simpl in *. lia.
Qed.

(** [mmap_vmr_expand] by [d] bytes moves the upper end of a region (the lower end,
    of one that grows down) when the addresses it gains are free; nothing else
    changes.  Taking all of its bytes removes it, taking more is refused. *)
Theorem mmap_vmr_expand_correct m l1 p v l2 d :
  mmap_ok m (l1 ++ (p, v) :: l2) → d ≠ 0 → has (v_flags v) VM_DONTEXPAND = false →
  v_end v - v_start v + 1 < 2 ^ 31 → - 2 ^ 31 ≤ d → v_end v - v_start v + 1 + d < 2 ^ 31 →
  let sz := v_end v - v_start v + 1 in
  wp (mmap_vmr_expand (Some p) d) (λ err m',
    (err = 0 ∧ 0 < sz + d ∧ (0 < d → hole (l1 ++ (p, v) :: l2) (gained v d) d) ∧ config m' = config m ∧
       mmap_ok m' (l1 ++ (p, resized v d) :: l2)) ∨
    (err = 0 ∧ sz + d = 0 ∧ removes m m' l1 p v l2) ∨
    (err = - EINVAL ∧ sz + d < 0 ∧ m' = m) ∨
    (err ≠ 0 ∧ m' = m ∧ 0 < d ∧ ¬ hole (l1 ++ (p, v) :: l2) (gained v d) d)) m.
Proof.
  intros Hok Hd Hdont Hsz Hlo Hhi sz. assert (mmap_limit + 1 < 2 ^ 32) as Hlim by done.
  pose proof (ok_lock _ _ Hok). pose proof (rd_mid _ _ Hok _ _ _ _ eq_refl) as Hp. pose proof (ok_ordered _ _ Hok) as Ho.
  pose proof (region_view _ _ _ _ Ho) as (Ho1 & ? & ? & ? & Ho2 & ? & ?).
  assert (∀ f, f v = resized v d → 0 < sz + d → (0 < d → hole (l1 ++ (p, v) :: l2) (gained v d) d) →
    mmap_ok {| m with vmrs := alter (set_data f) p (vmrs m) |} (l1 ++ (p, resized v d) :: l2)) as Hres.
  { intros f Hf ??. pose proof (ok_owner _ _ Hok) as [_ [[_ ?] _]%Forall_cons]%Forall_app.
    eapply ok_update; [done|done|unfold resized; destruct (has (v_flags v) VM_GROWSDOWN); done|unfold resized; destruct (has (v_flags v) VM_GROWSDOWN); simpl; congruence|by apply ordered_resized]. }
  unfold mmap_vmr_expand. rewrite decide_False by done. wp_go. rewrite Hdont, vmr_size_eq by lia.
  rewrite (i32_small (v_end v - v_start v + 1)), i32_small by lia.
  fold sz. destruct (decide (sz < sz + d)) as [Hpos|Hneg].
  - assert (u32 d = d) as Hud by (apply u32_small; lia).
    set (ha := if has (v_flags v) VM_GROWSDOWN then u32 (v_start v - d) else vmr_upper_bound v).
    assert (0 ≤ ha ∧ (ha = gained v d ∨ gained v d < 0 ∧ mmap_limit + 1 < ha + d)) as [Hha Eha].
    { unfold ha, gained. destruct (has (v_flags v) VM_GROWSDOWN); [|rewrite upper_bound_eq by lia; lia].
      destruct (decide (0 ≤ v_start v - d)); [rewrite u32_small by lia; lia|].
      unfold u32. rewrite <- (Z.mod_add _ 1), Z.mod_small by lia. lia. }
    assert (∀ err, err ≠ 0 → ¬ hole (l1 ++ (p, v) :: l2) (gained v d) d → err ≠ 0 ∧ m = m ∧ 0 < d ∧ ¬ hole (l1 ++ (p, v) :: l2) (gained v d) d) as Hno.
    { intros. split_and!; done || lia. }
    wp_go. eapply (wp_holesize _ _ Hok); [done| | |].
    + intros ?. wp_go. right; right; right. apply Hno; [done|]. intros (? & ? & _). lia.
    + intros ? Hm. wp_go. right; right; right. apply Hno; [done|]. intros (? & ? & Hf). destruct Eha as [E|?]; [|lia].
      apply (Hf ha); [lia|done].
    + intros la lb Hl ???. wp_go. rewrite decide_False by tauto. rewrite Hud. pose proof (hole_view la lb) as Hv. rewrite <- Hl in Hv.
      destruct (Hv Ho) as (_ & _ & ? & ?). destruct (decide (d ≤ bottom lb - ha)).
      * destruct Eha as [E|?]; [|lia].
        assert (hole (l1 ++ (p, v) :: l2) (gained v d) d) as Hh by (rewrite <- E, Hl, hole_iff by (congruence || lia); lia).
        assert (0 < sz + d) by lia. unfold resized, gained in *. destruct (has (v_flags v) VM_GROWSDOWN); wp_go; left; split_and!; try done.
        -- apply Hres; [|done..]. by rewrite E.
        -- apply Hres; [|done..]. rewrite u32_small by (destruct Hh as (_ & ? & _); lia). f_equal. lia.
      * wp_go. right; right; right. apply Hno; [done|]. destruct Eha as [E|?]; [|intros (? & _); lia]. rewrite <- E, Hl, hole_iff by (congruence || lia). lia.
  - unfold expand_shrink. destruct (decide (sz + d < 0)); wp_go; [right; right; left; done|].
    destruct (decide (sz + d = 0)); wp_go; [eapply wp_mmap_remove; [done|]; intros m' ?; by right; left|].
    left. split_and!; [done|lia|lia| |].
    + destruct (has (v_flags v) VM_GROWSDOWN); done.
    + unfold resized in *. destruct (has (v_flags v) VM_GROWSDOWN); apply Hres; try lia; rewrite u32_small by lia; f_equal; lia.
Qed.

(** ** Instances *)

Lemma mmap_find_correct_witness : wp (mmap_find 0x5010) (λ r m', m' = mmap_demo ∧
  match r with
  | Some p => ∃ v, (p, v) ∈ demo_regions ∧ in_vmr 0x5010 v
  | None => ¬ mapped demo_regions 0x5010
  end) mmap_demo.
Proof. exact (mmap_find_correct mmap_demo demo_regions 0x5010 mmap_demo_ok ltac:(lia)). Defined.
Lemma mmap_holesize_correct_witness : wp (mmap_holesize 0x3000) (λ '(err, n) m', m' = mmap_demo ∧
  ((err = 0 ∧ 0 < n ∧ hole demo_regions 0x3000 n ∧ (mapped demo_regions (0x3000 + n) ∨ 0x3000 + n = mmap_limit + 1)) ∨
   (err = - EINVAL ∧ n = 0 ∧ (mapped demo_regions 0x3000 ∨ mmap_limit < 0x3000)))) mmap_demo.
Proof. exact (mmap_holesize_correct mmap_demo demo_regions 0x3000 mmap_demo_ok ltac:(lia)). Defined.
Lemma mmap_mapin_correct_witness : wp (mmap_mapin (Some 3%positive)) (λ err m',
  (err = 0 ∧ ∃ l1 l2, demo_regions = l1 ++ l2) ∨ err = - EEXIST) mmap_demo.
Proof.
  eapply wp_mono; [apply (mmap_mapin_correct mmap_demo demo_regions 3%positive _ _ _ mmap_demo_ok eq_refl); simpl; [set_solver|lia|done]|].
  intros err m' [(-> & _ & l1 & l2 & Hl & _)|(-> & _)]; [left; eauto|by right].
Defined.
Lemma mmap_remove_correct_witness : wp (mmap_remove (Some 1%positive)) (λ err m', err = 0 ∧ vmrs m' !! 1%positive = None) mmap_demo.
Proof.
  eapply wp_mono; [apply (mmap_remove_correct mmap_demo [] 1%positive _ _ mmap_demo_ok)|].
  intros err m' (-> & _ & Hfree). split; [done|]. by apply Hfree.
Defined.
Lemma mmap_unmap_correct_witness : wp (mmap_unmap (Kalloc0 := kalloc_total _) 0x2FFF 0x3000) (λ err m', err = 0 ∧
  ∃ l', unmaps mmap_demo m' demo_regions l' 0x2FFF 0x3000) mmap_demo.
Proof.
  eapply wp_mono; [apply (mmap_unmap_correct mmap_demo demo_regions 0x2FFF 0x3000 mmap_demo_ok); [lia|lia|done|]|].
  - intros (p & v & [[= -> ->]|[[= -> ->]|?]%elem_of_cons]%elem_of_cons & ? & ?); simpl in *; [lia|lia|set_solver].
  - intros err m' (-> & l' & ? & _). split; [done|]. by exists l'.
Defined.
Lemma mmap_unmap_split_faults_witness : mmap_unmap (Kalloc0 := kalloc_total _) 0x2000 0x1000 mmap_demo = Fault.
Proof.
  apply (mmap_unmap_split_faults mmap_demo demo_regions 0x2000 0x1000 mmap_demo_ok); [lia|lia|done|].
  eexists 1%positive, _. split; [left|]. simpl. lia.
Defined.
Lemma mmap_find_hole_correct_witness : wp (mmap_find_hole 0x2000 whence_end) (λ '(err, a) m', m' = mmap_demo ∧
  ∃ r, (if decide (whence_end = whence_start) then lowest_hole demo_regions 0 0x2000 r else highest_hole demo_regions (mmap_limit + 1) 0x2000 r) ∧
    (err, a) = match r with Some a => (0, a) | None => (- ENOMEM, 0) end) mmap_demo.
Proof. exact (mmap_find_hole_correct mmap_demo demo_regions 0x2000 whence_end mmap_demo_ok ltac:(lia) ltac:(by right)). Defined.
Lemma mmap_map_fixed_correct_witness :
  wp (mmap_map_region (Kalloc0 := kalloc_total _) 0x5000 0x1000 PROT_READ (Z.lor MAP_FIXED MAP_PRIVATE) false)
    (λ '(err, r) m', err = 0 ∧ r = NULL ∧ ∃ l', mmap_ok m' l') mmap_demo.
Proof.
  eapply wp_mono; [apply (mmap_map_fixed_correct (Kalloc0 := kalloc_total _) mmap_demo demo_regions 0x5000 0x1000 PROT_READ (Z.lor MAP_FIXED MAP_PRIVATE)
    0x1000 false mmap_demo_ok ltac:(lia) ltac:(done) eq_refl eq_refl eq_refl ltac:(lia) ltac:(done))|].
  - intros (p & v & [[= -> ->]|[[= -> ->]|?]%elem_of_cons]%elem_of_cons & ? & ?); simpl in *; [lia|lia|set_solver].
  - intros [err r] m' [(p & l' & ? & ? & [])|(_ & _ & _ & ?)]; [eauto|done].
Defined.
Lemma mmap_vmr_expand_correct_witness :
  wp (mmap_vmr_expand (Some 2%positive) (-0x800)) (λ err m', err = 0 ∧ ∃ l, mmap_ok m' l ∧ mapped l 0x57FF ∧ ¬ mapped l 0x5800) mmap_demo.
Proof.
  eapply wp_mono; [apply (mmap_vmr_expand_correct mmap_demo [(1%positive, Vmr 2 6 7 0 0 0 0 (Some 9%positive) 0 0 0x1000 0x2FFF)] 2%positive _ [] (-0x800)
    mmap_demo_ok ltac:(done) eq_refl); simpl; lia|].
  intros err m' [(-> & _ & _ & _ & Hok)|[(_ & ? & _)|[(_ & ? & _)|(_ & _ & ? & _)]]]; simpl in *; [|lia..].
  split; [done|]. eexists. split; [exact Hok|]. rewrite !mapped_cons. unfold in_vmr, resized. simpl. split; [lia|].
  intros [?|[?|[]%mapped_nil]]; lia.
Defined.
