(* ===== verification/MmapProtect.v ===== *)
(** * Address spaces: changing the protection of a range ([mmap_protect]) *)
From S2P Require Import Prelude Dll Mmap MmapShape MmapEdit MmapUnmap MmapHoles MmapSpec.

#[global] Arguments mmap_find_vmr_overlap start fin : simpl never.
#[global] Arguments protect_split {_} p v addr fin : simpl never.

(** ** Flags *)

(** [has f (1 << i)] is bit [i] of [f]. *)
Lemma has_bit f i : 0 ≤ i → has f (2 ^ i) = Z.testbit f i.
Proof.
  intros Hi. unfold has. destruct (Z.testbit f i) eqn:E.
  - apply bool_decide_true. intros H. apply (f_equal (λ z, Z.testbit z i)) in H.
    rewrite Z.land_spec, E, Z.pow2_bits_true, Z.bits_0 in H by done. done.
  - apply bool_decide_false. intros H. apply H. apply Z.bits_inj'. intros j Hj. rewrite Z.land_spec, Z.bits_0.
    destruct (decide (j = i)) as [->|?]; [by rewrite E|]. rewrite Z.pow2_bits_false by done. apply andb_false_r.
Qed.
Lemma sel_bit b i j : 0 ≤ i → 0 ≤ j → Z.testbit (sel b (2 ^ i)) j = b && bool_decide (j = i).
Proof.
  intros. destruct b; simpl; [|apply Z.bits_0]. case_bool_decide as E; [by subst; apply Z.pow2_bits_true|].
  by apply Z.pow2_bits_false.
Qed.

(** The protection a region has is that of its three flags, and setting it again
    changes nothing. *)
Lemma protect_forge f : protect_flags f (forge_prot f) = f.
Proof.
  unfold protect_flags, forge_prot.
  change VM_EXEC with (2 ^ 0). change VM_WRITE with (2 ^ 1). change VM_READ with (2 ^ 2).
  change PROT_READ with (2 ^ 0). change PROT_WRITE with (2 ^ 1). change PROT_EXEC with (2 ^ 2).
  rewrite !has_bit by done. rewrite !Z.lor_spec, !sel_bit by done.
  apply Z.bits_inj'. intros j Hj. rewrite !Z.lor_spec, Z.land_spec, Z.lnot_spec, !Z.lor_spec by done.
  rewrite !sel_bit, !Z.pow2_bits_eqb by done.
  destruct (decide (j = 0)) as [->|?]; [|destruct (decide (j = 1)) as [->|?]; [|destruct (decide (j = 2)) as [->|?]]].
  1-3: cbn -[Z.testbit]; by rewrite ?andb_false_r, ?andb_true_r, ?orb_false_r.
  rewrite !(bool_decide_false (j = _)), !(proj2 (Z.eqb_neq _ j)) by done. cbn -[Z.testbit].
  by rewrite ?andb_false_r, ?andb_true_r, ?orb_false_r.
Qed.

(** ** Splitting a region *)

Lemma view_at l1 p v l2 x k : ordered 0 (l1 ++ (p, v) :: l2) → in_vmr x v → view (l1 ++ (p, v) :: l2) x k ↔ k = attrs v.
Proof.
  intros Ho Hx. split.
  - intros (q & w & Hin & Hw & <-). by destruct (in_vmr_unique _ _ _ _ _ _ _ Ho Hx Hin Hw) as [_ ->].
  - intros ->. exists p, v. split; [set_solver|done].
Qed.
Lemma view_trim l1 p v w l2 x k : ordered 0 (l1 ++ (p, v) :: l2) → attrs w = attrs v → (in_vmr x w → in_vmr x v) →
  view (l1 ++ (p, w) :: l2) x k ↔ view (l1 ++ (p, v) :: l2) x k ∧ ¬ (in_vmr x v ∧ ¬ in_vmr x w).
Proof.
  intros Ho Hat Hsub. pose proof (region_view _ _ _ _ Ho) as (H1 & ? & ? & ? & H2 & ?).
  assert (in_vmr x v → ¬ view l1 x k ∧ ¬ view l2 x k) as Hout.
  { intros [??]. split; intros Hv; eapply view_range in Hv; try done; lia. }
  rewrite !view_app, !view_cons, Hat. destruct (decide (in_vmr x w)); tauto.
Qed.

(** A region for addresses that are not mapped. *)
Lemma wp_mapin_part m l q w a b (Q : Z → mmap → Prop) :
  mmap_ok m l → vmrs m !! q = Some (Node w a b) → q ∉ l.*1 → 0 ≤ v_start w ≤ v_end w → v_end w ≤ mmap_limit →
  (∀ x, in_vmr x w → ¬ mapped l x) →
  (∀ m' l', mmap_ok m' l' → config m' = config m → (∀ c, c ∈ l → c ∈ l') → (∀ r, r ∈ l'.*1 → r = q ∨ r ∈ l.*1) →
     (∀ x k, view l' x k ↔ view l x k ∨ (in_vmr x w ∧ k = attrs w)) → untouched (q :: l.*1) m m' → Q 0 m') →
  wp (mmap_mapin (Some q)) Q m.
Proof.
  intros Hok Hq Hni Hw He Hfree HQ. eapply wp_mmap_mapin; [done..| |].
  - intros i ? ?. exfalso. by eapply Hfree.
  - intros m' l1 l2 -> Ht Hb Hins. pose proof (inserts_adds _ _ _ _ _ _ Hok Ht ltac:(lia) Hb Hins) as Hadd.
    eapply HQ; [apply Hins|apply Hins| | | |apply Hins].
    + set_solver.
    + intros r. rewrite !fmap_app. csimpl. set_solver.
    + intros x k. etransitivity; [apply Hadd|]. replace (v_end w - v_start w + 1) with (v_end w + 1 - v_start w) by lia.
      assert (in_vmr x w → ¬ view (l1 ++ l2) x k) by (intros ? ?%view_mapped; by eapply Hfree).
      unfold in_vmr in *. destruct (decide (v_start w ≤ x ≤ v_end w)).
      * split; [intros [?|[? ?]]; [tauto|right; split; [lia|done]]|]. intros [?|[? ?]]; [tauto|]. right. split; [lia|done].
      * split; [intros [[? ?]|[? ?]]; [tauto|lia]|]. intros [?|[? ?]]; [|lia]. left. split; [done|lia].
Qed.

Lemma delete_alter_same {A} (f : A → A) (i : loc) (h : gmap loc A) : delete i (alter f i h) = delete i h.
Proof. rewrite delete_alter. by rewrite decide_True. Qed.

Section split.
Context `{!Kalloc (node vmr)} (m : mmap) (l1 : regions) (p : loc) (v : vmr) (l2 : regions) (addr fin : Z).
Context (Hok : mmap_ok m (l1 ++ (p, v) :: l2)) (Hs : v_start v ≤ addr) (Hf : addr ≤ fin) (He : fin ≤ v_end v).

Definition middle : vmr := {| v with v_start := addr; v_end := fin |}.

(** A heap in which [p] has shrunk to its middle, and that agrees with [m] on the
    other regions. *)
Lemma shrunk_ok h :
  h !! p = Some (Node middle (lst_or NULL l1) (hd_or NULL l2)) →
  (∀ r, r ∈ (l1 ++ (p, v) :: l2).*1 → r ≠ p → h !! r = vmrs m !! r) →
  mmap_ok {| m with vmrs := h |} (l1 ++ (p, middle) :: l2).
Proof using Hok Hs Hf He.
  intros Hp Hr. pose proof (region_view _ _ _ _ (ok_ordered _ _ Hok)) as (H1 & ? & ? & ? & H2 & ?).
  pose proof (ok_owner _ _ Hok) as Hown. apply Forall_app in Hown as [_ [[_ ?] _]%Forall_cons].
  pose proof (ok_update m l1 p v l2 middle (λ _, middle) Hok eq_refl eq_refl ltac:(done)) as Hup.
  assert (ordered 0 (l1 ++ (p, middle) :: l2)) as Ho.
  { apply ordered_app. simpl. split_and!; [done|lia..|eapply ordered_weaken; [|done]; lia]. }
  specialize (Hup Ho). apply (ok_frame _ _ h) in Hup; [done|]. simpl. intros r Hin.
  pose proof (rd_mid _ _ Hok _ _ _ _ eq_refl) as Hpm.
  destruct (decide (r = p)) as [->|?]; [by rewrite lookup_alter_eq, Hpm, Hp|].
  rewrite lookup_alter_ne by done. apply Hr; [|done]. revert Hin. by rewrite !fmap_app.
Qed.
Lemma view_middle x k : view (l1 ++ (p, middle) :: l2) x k ↔
  view (l1 ++ (p, v) :: l2) x k ∧ ¬ (v_start v ≤ x < addr ∨ fin < x ≤ v_end v).
Proof using Hok Hs Hf He.
  rewrite (view_trim l1 p v middle l2 x k); [|apply Hok|done|unfold in_vmr; simpl; lia].
  unfold in_vmr. simpl. split; intros [? Hn]; (split; [done|]); intros ?; apply Hn; lia.
Qed.
Lemma view_whole l' (P : Z → Prop) :
  (∀ x, P x ↔ v_start v ≤ x < addr ∨ fin < x ≤ v_end v) →
  (∀ x k, view l' x k ↔ view (l1 ++ (p, middle) :: l2) x k ∨ (P x ∧ k = attrs v)) →
  ∀ x k, view l' x k ↔ view (l1 ++ (p, v) :: l2) x k.
Proof using Hok Hs Hf He.
  intros HP Hl' x k. rewrite Hl', view_middle, HP.
  destruct (decide (v_start v ≤ x < addr ∨ fin < x ≤ v_end v)) as [Hx|Hx]; [|tauto].
  rewrite view_at; [tauto|apply Hok|split; lia].
Qed.

(** A part of [p] outside its middle is free once [p] has shrunk. *)
Lemma part_free l' w :
  (∀ x k, view l' x k ↔ view (l1 ++ (p, middle) :: l2) x k) →
  (∀ x, in_vmr x w → v_start v ≤ x < addr ∨ fin < x ≤ v_end v) → ∀ x, in_vmr x w → ¬ mapped l' x.
Proof using Hok Hs Hf He.
  intros Hl' Hw x Hx [k Hk]%mapped_view. apply Hl', view_middle in Hk as [_ Hk]. auto.
Qed.

(** The heap [h] has the middle at [p] and, at [q], a region for a part outside it. *)
Record carved (h : gmap loc (node vmr)) (q : loc) (w : vmr) : Prop := {
  cv_p : h !! p = Some (Node middle (lst_or NULL l1) (hd_or NULL l2));
  cv_q : ∃ a b, h !! q = Some (Node w a b);
  cv_other : ∀ r, r ∈ (l1 ++ (p, v) :: l2).*1 → r ≠ p → h !! r = vmrs m !! r;
  cv_new : q ∉ (l1 ++ (p, v) :: l2).*1;
  cv_attrs : attrs w = attrs v;
  cv_range : v_start w ≤ v_end w;
  cv_part : ∀ x, in_vmr x w → v_start v ≤ x < addr ∨ fin < x ≤ v_end v;
}.

Lemma wp_carve h q w (Q : Z → mmap → Prop) : carved h q w →
  (∀ m' l', mmap_ok m' l' → config m' = config m → (p, middle) ∈ l' →
     (∀ x k, view l' x k ↔ view (l1 ++ (p, middle) :: l2) x k ∨ (in_vmr x w ∧ k = attrs v)) →
     (∀ r, r ∉ q :: (l1 ++ (p, v) :: l2).*1 → vmrs m' !! r = h !! r ∧ r ∉ l'.*1) → Q 0 m') →
  wp (mmap_mapin (Some q)) Q {| m with vmrs := h |}.
Proof using Hok Hs Hf He.
  intros [Hp (a & b & Hq) Hr Hni Hat Hw Hpart] HQ.
  pose proof (region_view _ _ _ _ (ok_ordered _ _ Hok)) as (_ & ? & ? & ? & _ & _).
  pose proof (shrunk_ok _ Hp Hr) as Hok1.
  assert ((l1 ++ (p, middle) :: l2).*1 = (l1 ++ (p, v) :: l2).*1) as Hlocs by (by rewrite !fmap_app).
  assert (v_start v ≤ v_start w ∧ v_end w ≤ v_end v) as [??].
  { pose proof (Hpart (v_start w)). pose proof (Hpart (v_end w)). unfold in_vmr in *. lia. }
  eapply wp_mapin_part; [exact Hok1|exact Hq|by rewrite Hlocs|lia|lia|by eapply part_free|].
  rewrite Hat, Hlocs. intros m' l' Hok' Hc Hsub Hl' Hv Hun. eapply HQ; [done|done|apply Hsub; set_solver|done|].
  intros r Hrq. split; [by rewrite Hun|]. rewrite not_elem_of_cons in Hrq. destruct Hrq. by intros [->|?]%Hl'.
Qed.

Lemma wp_protect_split (Q : Z → mmap → Prop) :
  fin - addr + 1 < v_end v - v_start v + 1 →
  (∀ h, kmalloc_at h = None → Q (- ENOMEM) m) →
  (∀ m' l', mmap_ok m' l' → config m' = config m → (p, middle) ∈ l' →
     (∀ x k, view l' x k ↔ view (l1 ++ (p, v) :: l2) x k) → Q 0 m') →
  wp (protect_split p (Node v (lst_or NULL l1) (hd_or NULL l2)) addr fin) Q m.
Proof using All.
  intros Hlt HN HQ. assert (mmap_limit + 1 < 2 ^ 32) by done.
  pose proof (rd_mid _ _ Hok _ _ _ _ eq_refl) as Hp.
  pose proof (region_view _ _ _ _ (ok_ordered _ _ Hok)) as (_ & ? & ? & ? & _ & _).
  unfold protect_split, vmr_alloc. wp_go.
  apply wp_kmalloc; simpl; [intros ?; wp_go; by eapply HN|]. intros q Hq Hqn.
  pose proof (fresh_notin _ _ _ Hok Hqn) as Hqni.
  assert (q ≠ p) by (intros ->; congruence).
  wp_go. destruct (decide (v_start v = addr)) as [Es|Es]; [|destruct (decide (v_end v = fin)) as [Ee|Ee]].
  - wp_go. rewrite u32_small by lia. eapply (wp_carve _ q {| v with v_refs := 0; v_start := fin + 1 |}).
    + constructor; simpl; try done; [lookup_norm; unfold middle; by rewrite <- Es|by lookup_norm; eauto| |lia|unfold in_vmr; simpl; lia].
      intros r Hr ?. assert (r ≠ q) by congruence. by lookup_norm.
    + intros m' l' ??? Hv _. rewrite decide_False by tauto. wp_go. eapply HQ; [done..|]. eapply view_whole; [|exact Hv].
      unfold in_vmr. simpl. lia.
  - wp_go. rewrite u32_small by lia. eapply (wp_carve _ q {| v with v_refs := 0; v_end := addr - 1 |}).
    + constructor; simpl; try done; [lookup_norm; unfold middle; by rewrite <- Ee|by lookup_norm; eauto| |lia|unfold in_vmr; simpl; lia].
      intros r Hr ?. assert (r ≠ q) by congruence. by lookup_norm.
    + intros m' l' ??? Hv _. rewrite decide_False by tauto. wp_go. eapply HQ; [done..|]. eapply view_whole; [|exact Hv].
      unfold in_vmr. simpl. lia.
  - wp_go. apply wp_kmalloc; simpl.
    { intros Hno. eapply wp_bind, wp_vmr_free; [simpl; by lookup_norm|simpl; lia|]. intros _. wp_go.
      rewrite !delete_alter_same, delete_insert_id by done. destruct m; simpl in *. by eapply HN. }
    intros q1 _ Hq1n.
    assert (q1 ≠ q) by (intros ->; revert Hq1n; by lookup_norm). revert Hq1n. lookup_norm. intros Hq1n.
    pose proof (fresh_notin _ _ _ Hok Hq1n) as Hq1ni. assert (q1 ≠ p) by (intros ->; congruence).
    wp_go. rewrite !u32_small by lia. eapply (wp_carve _ q {| v with v_refs := 0; v_end := addr - 1 |}).
    + constructor; simpl; try done; [by lookup_norm|by lookup_norm; eauto| |lia|unfold in_vmr; simpl; lia].
      intros r Hr ?. assert (r ≠ q ∧ r ≠ q1) as [??] by (split; congruence). by lookup_norm.
    + intros m' l' Hok' Hc Hpm Hv Hrest. rewrite decide_False by tauto. wp_go.
      destruct (Hrest q1) as [Eq1 Hni1]; [by rewrite not_elem_of_cons|].
      eapply (wp_mapin_part _ _ _ {| v with v_start := fin + 1 |}); [done|rewrite Eq1; by lookup_norm|done|simpl; lia|simpl; lia| |].
      * unfold in_vmr. simpl. intros x Hx [k [[_ Hk]%view_middle|[??]]%Hv]%mapped_view; unfold in_vmr in *; simpl in *; lia.
      * intros m2 l3 Hok2 Hc2 Hsub _ Hv2 _. rewrite decide_False by tauto. wp_go. eapply HQ; [done|congruence|by apply Hsub|].
        eapply (view_whole _ (λ x, v_start v ≤ x < addr ∨ fin < x ≤ v_end v)); [done|]. intros x k. rewrite Hv2, Hv.
        unfold in_vmr. simpl. change (attrs {| v with v_start := fin + 1 |}) with (attrs v). split.
        -- intros [[?|[??]]|[??]]; [tauto|right; split; [lia|done]|right; split; [lia|done]].
        -- intros [?|[[?|?] ?]]; [tauto|left; right; split; [lia|done]|right; split; [lia|done]].
Qed.
End split.

(** ** [mmap_protect] *)

Definition with_flags (g : Z → Z) (k : Z * Z * Z * (Z * Z * Z) * Z * Z) :=
  let '(f, vf, pr, fl, ops, pa) := k in (g f, vf, pr, fl, ops, pa).

(** A stack keeps its protection, and no region is ever both writable and executable
    or turned from one into the other. *)
Definition denied (f prot : Z) : bool :=
  has f VM_GROWSDOWN || (bool_decide (forge_prot f ≠ prot) &&
    ((has prot PROT_WRITE && has prot PROT_EXEC) || (has prot PROT_WRITE && has (forge_prot f) PROT_EXEC) ||
     (has prot PROT_EXEC && has (forge_prot f) PROT_WRITE))).

(** The addresses [s .. s + n - 1] of [l] have the protection [prot], the others what they had. *)
Definition protects (l l' : regions) (s n prot : Z) : Prop :=
  ∀ x k', view l' x k' ↔
    ∃ k, view l x k ∧ k' = if decide (s ≤ x < s + n) then with_flags (λ f, protect_flags f prot) k else k.

Lemma wp_find_overlap m l s e (Q : ptr → mmap → Prop) : mmap_ok m l → 0 ≤ s →
  (∀ l1 p v l2, l = l1 ++ (p, v) :: l2 → in_vmr s v → e ≤ v_end v → Q (Some p) m) →
  ((∀ p v, (p, v) ∈ l → in_vmr s v → v_end v < e) → Q NULL m) → wp (mmap_find_vmr_overlap s e) Q m.
Proof.
  intros Hok Hs HS HN. pose proof (ok_lock _ _ Hok). unfold mmap_find_vmr_overlap. wp_go. apply (wp_mmap_find _ _ Hok).
  destruct (locate l s) as [l1 p v l2 Hl Hin|l1 l2 Hl Ht Hb]; [apply Hok|done| |].
  - rewrite (find_in_region _ _ Hok l1 p v l2) by done. pose proof (rd_mid _ _ Hok _ _ _ _ Hl). wp_go.
    case_decide; wp_go; [by eapply HS|]. apply HN. intros q w Hq Hw. subst l.
    destruct (in_vmr_unique _ _ _ _ _ _ _ (ok_ordered _ _ Hok) Hin Hq Hw) as [_ ->]. lia.
  - rewrite (find_in_hole _ _ Hok l1 l2) by done. wp_go. apply HN. intros q w Hq Hw. exfalso.
    eapply (gap_free l1 l2 s); [subst l; apply Hok|done..|]. subst l. by exists q, w.
Qed.

Lemma protects_same l1 p v l2 s n prot : ordered 0 (l1 ++ (p, v) :: l2) → v_start v ≤ s → s + n ≤ v_end v + 1 →
  forge_prot (v_flags v) = prot → protects (l1 ++ (p, v) :: l2) (l1 ++ (p, v) :: l2) s n prot.
Proof.
  intros Ho ?? <- x k'. destruct (decide (s ≤ x < s + n)) as [Hx|Hx]; [|naive_solver].
  assert (in_vmr x v) by (split; lia). setoid_rewrite view_at; [|done..].
  assert (with_flags (λ f, protect_flags f (forge_prot (v_flags v))) (attrs v) = attrs v) as E.
  { unfold with_flags, attrs. by rewrite protect_forge. }
  split; [intros ->; exists (attrs v); by rewrite E|]. intros (k & -> & ->). done.
Qed.
Lemma protects_set la p w lb l prot : ordered 0 (la ++ (p, w) :: lb) → (∀ x k, view (la ++ (p, w) :: lb) x k ↔ view l x k) →
  protects l (la ++ (p, {| w with v_flags := protect_flags (v_flags w) prot |}) :: lb) (v_start w) (v_end w - v_start w + 1) prot.
Proof.
  intros Ho Hv x k'. pose proof (region_view _ _ _ _ Ho) as (H1 & ? & ? & ? & H2 & ?).
  setoid_rewrite <- Hv. destruct (decide (v_start w ≤ x < v_start w + (v_end w - v_start w + 1))) as [Hx|Hx].
  - assert (in_vmr x w) by (split; lia).
    rewrite (view_at la p {| w with v_flags := protect_flags (v_flags w) prot |} lb); [|by apply ordered_app; apply ordered_app in Ho|done].
    setoid_rewrite (view_at la p w lb); [|done..]. split; [intros ->; by exists (attrs w)|by intros (k & -> & ->)].
  - assert (¬ in_vmr x w) as Hw by (unfold in_vmr; lia). split.
    + intros Hk. exists k'. split; [|done]. revert Hk. rewrite !view_app, !view_cons. unfold in_vmr in *. simpl. naive_solver.
    + intros (k & Hk & ->). revert Hk. rewrite !view_app, !view_cons. unfold in_vmr in *. simpl. naive_solver.
Qed.

Lemma wp_protect `{!Kalloc (node vmr)} m l s n prot (Q : Z → mmap → Prop) :
  mmap_ok m l → 0 ≤ s → 0 < n → s + n ≤ mmap_limit + 1 → isaligned s = true → isaligned n = true →
  (∀ m' l', mmap_ok m' l' → config m' = config m → protects l l' s n prot → Q 0 m') →
  (∀ p v, (p, v) ∈ l → in_vmr s v → denied (v_flags v) prot = true → Q (- EACCES) m) →
  ((∀ p v, (p, v) ∈ l → in_vmr s v → v_end v < s + n - 1) ∨ (∃ h, kmalloc_at h = None) → Q (- ENOMEM) m) →
  wp (mmap_protect s n prot) Q m.
Proof.
  intros Hok Hs Hn He Has Han HS HD HN. assert (mmap_limit + 1 < 2 ^ 32) by done. pose proof (ok_lock _ _ Hok).
  unfold mmap_protect. rewrite decide_False by lia. rewrite u32_small by lia. wp_go. rewrite Has, Han. simpl.
  unfold valid_addr. rewrite bool_decide_true by lia. simpl. wp_go. eapply wp_find_overlap; [done|done| |].
  2: { intros Hno. wp_go. auto. }
  intros l1 p v l2 Hl Hsv Hev. pose proof (rd_mid _ _ Hok _ _ _ _ Hl). wp_go.
  assert ((p, v) ∈ l) as Hin by (rewrite Hl; set_solver). specialize (HD _ _ Hin Hsv). unfold denied in HD. destruct Hsv as [Hsv _].
  assert (ordered 0 (l1 ++ (p, v) :: l2)) as Ho by (subst l; apply Hok).
  destruct (has (v_flags v) VM_GROWSDOWN); [wp_go; by apply HD|].
  destruct (decide (forge_prot (v_flags v) = prot)) as [Efp|Efp].
  { wp_go. eapply HS; [done..|]. subst l. apply protects_same; [done|lia..|done]. }
  rewrite (bool_decide_true (_ ≠ _)) in HD by done. cbn in HD.
  destruct (has prot PROT_WRITE && has prot PROT_EXEC); [wp_go; by apply HD|].
  destruct (has prot PROT_WRITE && has (forge_prot (v_flags v)) PROT_EXEC); [wp_go; by apply HD|].
  destruct (has prot PROT_EXEC && has (forge_prot (v_flags v)) PROT_WRITE); [wp_go; by apply HD|]. clear HD.
  assert (∀ m' l', mmap_ok m' l' → config m' = config m → (p, middle v s (s + n - 1)) ∈ l' → (∀ x k, view l' x k ↔ view l x k) →
    wp (if decide (0 ≠ 0) then mret 0 else
        w ← rd (Some p); upd (Some p) (set_flags (protect_flags (v_flags (n_data w)) prot));; mret 0) Q m') as Hset.
  { intros m' l' Hok' Hc Hin' Hv. rewrite decide_False by tauto. apply list_elem_of_split in Hin' as (la & lb & ->).
    pose proof (rd_mid _ _ Hok' _ _ _ _ eq_refl). wp_go. eapply HS; [|by rewrite <- Hc|].
    - eapply (ok_update _ _ _ (middle v s (s + n - 1))); [done..| |].
      + pose proof (ok_owner _ _ Hok') as Hown. apply Forall_app in Hown as [_ [[_ ?] _]%Forall_cons]. done.
      + pose proof (ok_ordered _ _ Hok') as Ho'. apply ordered_app in Ho'. by apply ordered_app.
    - pose proof (protects_set la p (middle v s (s + n - 1)) lb l prot (ok_ordered _ _ Hok') Hv) as Hp. simpl in Hp.
      by replace (s + n - 1 - s + 1) with n in Hp by lia. }
  pose proof (region_view _ _ _ _ Ho) as (_ & ? & ? & ? & _). rewrite vmr_size_eq by lia.
  destruct (decide (n < v_end v - v_start v + 1)); wp_go.
  - subst l. eapply wp_protect_split; [done|lia|lia|lia|lia| |].
    + intros h ?. rewrite decide_True by done. wp_go. apply HN. eauto.
    + intros. by eapply Hset.
  - eapply Hset; [done|done| |done]. unfold middle. replace s with (v_start v) by lia.
    replace (v_start v + n - 1) with (v_end v) by lia. by destruct v.
Qed.

(** [mmap_protect] of a page-aligned range inside one region changes the
    protection of exactly that range, splitting the region as needed; every address
    stays in a region with the attributes it had otherwise (the parts of a split region
    all keep its [file_pos], which is not the offset of their first address).  A stack, and a change that would make a region writable
    and executable or turn one into the other, is refused with [-EACCES], a range
    that is not inside a region with [-ENOMEM], and then nothing changes. *)
Theorem mmap_protect_correct `{!Kalloc (node vmr)} m l s n prot :
  mmap_ok m l → 0 ≤ s → 0 < n → s + n ≤ mmap_limit + 1 → isaligned s = true → isaligned n = true →
  wp (mmap_protect s n prot) (λ err m',
    (err = 0 ∧ ∃ l', mmap_ok m' l' ∧ config m' = config m ∧ protects l l' s n prot) ∨
    (m' = m ∧ err = - EACCES ∧ ∃ p v, (p, v) ∈ l ∧ in_vmr s v ∧ denied (v_flags v) prot = true) ∨
    (m' = m ∧ err = - ENOMEM ∧
      ((∀ p v, (p, v) ∈ l → in_vmr s v → v_end v < s + n - 1) ∨ ∃ h, kmalloc_at h = None))) m.
Proof.
  intros Hok ?????. eapply wp_protect; [done..| | |].
  - intros m' l' ???. left. split; [done|]. by exists l'.
  - intros p v ???. right. left. split_and!; [done..|]. by exists p, v.
  - intros ?. right. right. done.
Qed.

Lemma mmap_protect_correct_witness :
  wp (mmap_protect (Kalloc0 := kalloc_total _) 0x1000 0x1000 PROT_READ) (λ err m', err = 0 ∧
    ∃ l', mmap_ok m' l' ∧ protects demo_regions l' 0x1000 0x1000 PROT_READ) mmap_demo.
Proof.
  eapply wp_mono; [apply (mmap_protect_correct (Kalloc0 := kalloc_total _) mmap_demo demo_regions 0x1000 0x1000 PROT_READ mmap_demo_ok
    ltac:(lia) ltac:(lia) ltac:(done) eq_refl eq_refl)|].
  intros err m' [(-> & l' & ? & _ & ?)|[(_ & -> & p & v & Hin & Hv & Hd)|(_ & -> & [Hno|[? ?]])]]; [eauto| | |done].
  - exfalso. apply elem_of_cons in Hin as [[= -> ->]|[[= -> ->]|?]%elem_of_cons]; [done|done|set_solver].
  - exfalso. specialize (Hno _ _ (list_elem_of_here _ _)). unfold in_vmr in Hno. simpl in Hno. lia.
Defined.
