(* ===== verification/MmapSpace.v ===== *)
(** * Address spaces as a whole: cleaning, initialising and copying

    [mmap_clean] and [mmap_init] make an address space empty and give it its first
    region; [mmap_copy] makes one a copy of another. *)
From S2P Require Import Prelude Dll Mmap MmapShape MmapEdit MmapUnmap MmapHoles MmapSpec.

#[global] Arguments mmap_clean {_} : simpl never.
#[global] Arguments copy_loop {_} fuel h tmp : simpl never.
#[global] Arguments find_copy h p : simpl never.
#[global] Arguments vmr_clone {_} src : simpl never.

Lemma ok_empty m : vmr_head m = NULL → vmr_tail m = NULL → mm_lock m = true → mm_limit m = mmap_limit → mmap_ok m [].
Proof. intros. by constructor. Qed.

Lemma view_empty l : ordered 0 l → (∀ x k, ¬ view l x k) → l = [].
Proof.
  destruct l as [|[p v] l]; [done|]. intros Ho Hv. exfalso. pose proof (region_view [] _ _ _ Ho) as (_ & _ & ? & _).
  apply (Hv (v_start v) (attrs v)). rewrite view_cons. left. split; [split; lia|done].
Qed.

Section space.
Context `{!Kalloc (node vmr)}.

(** What [mmap_clean] leaves: an empty address space for a user process. *)
Record cleaned (m m' : mmap) : Prop := {
  cl_ok : mmap_ok m' [];
  cl_self : mm_self m' = mm_self m;
  cl_pgdir : mm_pgdir m' = mm_pgdir m;
  cl_flags : mm_flags m' = MMAP_USER;
  cl_guard : mm_guard_len m' = PAGESZ;
  cl_used : mm_used_space m' = 0;
  cl_named : (mm_arg m', mm_env m', mm_heap m', mm_brk m') = (NULL, NULL, NULL, 0);
}.

Lemma wp_mmap_clean m l (Q : Z → mmap → Prop) :
  mmap_ok m l → (∀ m', cleaned m m' → Q 0 m') → wp mmap_clean Q m.
Proof.
  intros Hok HQ. pose proof (ok_lock _ _ Hok). unfold mmap_clean. wp_go. rewrite (ok_limit _ _ Hok), u32_small by done.
  eapply wp_mmap_unmap; [done|done|done|done| |].
  - intros (p & v & Hin & ? & _). pose proof (ordered_elem _ _ _ _ (ok_ordered _ _ Hok) Hin). lia.
  - intros m1 l1 Hun. rewrite decide_False by tauto. unfold log_paging. wp_go. apply HQ.
    pose proof (un_config _ _ _ _ _ _ Hun) as Hc. unfold config in Hc. pose proof (ok_lock _ _ (un_ok _ _ _ _ _ _ Hun)).
    constructor; simpl; try congruence. by apply ok_empty.
Qed.

(** [mmap_init] leaves an address space whose only mapping is the first 16 MiB,
    which nobody may access or expand, whatever was mapped before; or it fails with
    [-ENOMEM] when there is no memory for that region. *)
Theorem mmap_init_correct m l : mmap_ok m l →
  wp mmap_init (λ err m',
    mm_pgdir m' = mm_pgdir m ∧ mm_heap m' = NULL ∧
    ((err = 0 ∧ ∃ l', mmap_ok m' l' ∧ mm_used_space m' = 0x1000000 ∧
        ∀ x k, view l' x k ↔ 0 ≤ x < 0x1000000 ∧ k = (VM_DONTEXPAND, VM_U, 0, (0, 0, 0), 0, 0)) ∨
     (err = - ENOMEM ∧ mmap_ok m' [] ∧ ∃ h, kmalloc_at h = None))) m.
Proof.
  intros Hok. pose proof (ok_lock _ _ Hok). unfold mmap_init. wp_go. eapply wp_mmap_clean; [done|]. intros m1 Hcl.
  rewrite decide_False by tauto. wp_go. pose proof (cl_named _ _ Hcl) as [= _ _ Hheap _]. pose proof (cl_pgdir _ _ Hcl) as Hpg.
  eapply wp_map_region_fixed; [apply Hcl|done..| | |].
  - intros (p & v & Hin & _). set_solver.
  - intros Hno. wp_go. split_and!; [congruence|done|]. right. split_and!; [done|apply Hcl|eauto].
  - intros p m' l' Hm. wp_go. pose proof (mp_config _ _ _ _ _ _ _ _ Hm) as Hc. unfold config in Hc.
    split_and!; [congruence|congruence|]. left. split; [done|]. exists l'. split_and!; [apply Hm| |].
    + by rewrite (mp_used _ _ _ _ _ _ _ _ Hm), (cl_used _ _ Hcl).
    + intros x k. etransitivity; [apply (mp_adds _ _ _ _ _ _ _ _ Hm)|]. unfold attrs, new_vmr. simpl. rewrite (cl_flags _ _ Hcl).
      change (0 + map_len m1 16777216 _) with 16777216. pose proof (view_nil x k). split; [intros [[??]|?]; [done|done]|tauto].
Qed.

(** ** Copying *)

(** A region as [vmr_copy] makes it. *)
Definition copied (v : vmr) : vmr := {| v with v_refs := 0; v_mmap := NULL; v_priv := 0 |}.

Lemma wp_vmr_clone m v a b (Q : Z * ptr → mmap → Prop) :
  ((∃ h, kmalloc_at h = None) → Q (- ENOMEM, NULL) m) →
  (∀ q, vmrs m !! q = None → Q (0, Some q) {| m with vmrs := <[q := Node (copied v) NULL NULL]> (vmrs m) |}) →
  wp (vmr_clone (Node v a b)) Q m.
Proof.
  intros HN HQ. unfold vmr_clone, vmr_alloc, vmr_copy. wp_go. apply wp_kmalloc; simpl; [intros ?; wp_go; eauto|].
  intros q _ Hq. wp_go. rewrite decide_False by (by intros [? _]). wp_go. rewrite decide_False by tauto. wp_go.
  rewrite alter_insert_eq. by apply HQ.
Qed.

(** [l'] has the regions of [l], in the same order, in the address space [self]. *)
Definition copies (self : loc) (l l' : regions) : Prop := l'.*2 = (owned self ∘ copied) <$> l.*2.

Lemma copies_view self l l' x k : copies self l l' → view l' x k ↔ ∃ v, v ∈ l.*2 ∧ in_vmr x v ∧ attrs (copied v) = k.
Proof.
  intros Hc. assert (view l' x k ↔ ∃ w, w ∈ l'.*2 ∧ in_vmr x w ∧ attrs w = k) as ->.
  { unfold view. split; [intros (p & v & Hin & ?); exists v; split; [|done]|].
    - apply list_elem_of_fmap. by exists (p, v).
    - intros (v & ([p w] & -> & Hin)%list_elem_of_fmap & ?). by exists p, w. }
  rewrite Hc. split.
  - intros (w & (v & -> & Hin)%list_elem_of_fmap & ? & <-). by exists v.
  - intros (v & Hin & ? & <-). exists (owned self (copied v)). split; [|done]. apply list_elem_of_fmap. by exists v.
Qed.
Lemma copies_top self lo l l' : copies self l l' → top lo l' = top lo l.
Proof.
  revert lo l'. induction l as [|[p v] l IH]; intros lo [|[q w] l'] Hc; try done. injection Hc as -> Hc. simpl. by apply IH.
Qed.

Lemma wp_copy_loop fuel m l1 l2 h l' (Q : Z → mmap → Prop) :
  mmap_ok m l' → copies (mm_self m) l1 l' → linked h (lst_or NULL l1) l2 NULL → ordered 0 (l1 ++ l2) →
  (length l2 < fuel)%nat →
  ((∃ h, kmalloc_at h = None) → ∀ m', Q (- ENOMEM) m') →
  (∀ m' l', mmap_ok m' l' → config m' = config m → mm_paging m' = mm_paging m → copies (mm_self m) (l1 ++ l2) l' → Q 0 m') →
  wp (copy_loop fuel h (hd_or NULL l2)) Q m.
Proof.
  revert m l1 l' fuel. induction l2 as [|[p v] l2 IH]; intros m l1 l' [|fuel] Hok Hcp Hl Ho Hf HN HQ; simpl in Hf; try lia;
    unfold copy_loop; fold copy_loop; simpl.
  - wp_go. rewrite app_nil_r in HQ. by eapply HQ.
  - simpl in Hl. destruct Hl as [Hp Hl]. rewrite Hp. wp_go. apply wp_vmr_clone.
    { intros Hno. wp_go. rewrite decide_True by done. wp_go. by apply HN. }
    intros q Hq. wp_go. rewrite decide_False by tauto. wp_go. pose proof (fresh_notin _ _ _ Hok Hq) as Hni.
    pose proof (region_view _ _ _ _ Ho) as (_ & Ht & ? & ? & _).
    eapply (wp_mmap_mapin _ l' q (copied v)); [|simpl; by rewrite lookup_insert_eq|done|simpl; lia|simpl; lia| |].
    + apply ok_frame; [done|]. intros r ?. apply lookup_insert_ne. congruence.
    + intros i [? ?] Hm%(mapped_range 0); [|apply Hok]. rewrite (copies_top _ _ _ _ Hcp) in Hm. simpl in *. lia.
    + simpl. intros m' la lb -> Hta Hb Hins.
      assert (lb = []) as ->.
      { destruct lb as [|[r w] lb]; [done|]. exfalso. simpl in Hb.
        pose proof (ordered_elem 0 _ r w (ok_ordered _ _ Hok)) as Hw. rewrite (copies_top _ _ _ _ Hcp) in Hw.
        destruct Hw as (? & ? & ?); [set_solver|lia]. }
      rewrite app_nil_r in *. pose proof (ins_config _ _ _ _ _ _ Hins) as Hc. unfold config in Hc; simpl in Hc.
      assert (mm_self m' = mm_self m) as Hself by congruence.
      eapply (IH _ (l1 ++ [(p, v)])); [apply Hins| |by rewrite lst_or_snoc|by rewrite <- (assoc_L (++))|lia|done|].
      * unfold copies in *. rewrite Hself, !fmap_app, Hcp. done.
      * rewrite Hself, <- (assoc_L (++)). intros m2 l2' ? Hc2 Hp2 ?. eapply HQ; [done| |by rewrite Hp2, (ins_paging _ _ _ _ _ _ Hins)|done].
        unfold config in *. congruence.
Qed.

(** The region of the copy [l'] that stands for the region at [p] of [l]. *)
Definition stands_for (l l' : regions) (p q : ptr) : Prop :=
  match p with
  | None => q = NULL
  | Some p => ∃ v q' w, (p, v) ∈ l ∧ q = Some q' ∧ (q', w) ∈ l' ∧ v_start w = v_start v ∧ v_end w = v_end v ∧ v_flags w = v_flags v
  end.
Definition named_in (l : regions) (p : ptr) : Prop := match p with Some p => p ∈ l.*1 | None => True end.

Lemma wp_find_copy m src l l' p (Q : ptr → mmap → Prop) :
  mmap_ok src l → mmap_ok m l' → copies (mm_self m) l l' → named_in l p →
  (∀ q, stands_for l l' p q → Q q m) → wp (find_copy (vmrs src) p) Q m.
Proof.
  intros Hs Hok Hcp Hp HQ. unfold find_copy. destruct p as [p|]; [|wp_go; by apply HQ]. simpl in *.
  apply list_elem_of_fmap in Hp as ([? v] & -> & Hin). simpl in *.
  destruct (linked_elem _ _ _ _ _ _ (ok_linked _ _ Hs) Hin) as (? & ? & ->). simpl.
  pose proof (ordered_elem _ _ _ _ (ok_ordered _ _ Hs) Hin) as (? & ? & _).
  assert (owned (mm_self m) (copied v) ∈ l'.*2) as ([q w] & Ew & Hin')%list_elem_of_fmap.
  { rewrite Hcp. apply list_elem_of_fmap. exists v. split; [done|]. apply list_elem_of_fmap. by exists (l0, v). }
  simpl in Ew. apply list_elem_of_split in Hin' as Hsp. destruct Hsp as (la & lb & Hl').
  apply (wp_mmap_find _ _ Hok). rewrite (find_in_region _ _ Hok la q w lb); [|done|subst w; split; simpl; lia].
  apply HQ. exists v, q, w. subst w. by split_and!.
Qed.

(** [mmap_copy] gives the destination the regions of the source, in the same
    places and with the same backing, and its named regions are the copies of the
    source's; then it hands over to the paging code.  It fails before that only for
    want of memory. *)
Theorem mmap_copy_correct lazycopy m src l :
  mmap_ok src l → mm_lock m = true →
  named_in l (mm_arg src) → named_in l (mm_env src) → named_in l (mm_heap src) →
  wp (mmap_copy lazycopy src) (λ err m',
    (err = - ENOMEM ∧ ∃ h, kmalloc_at h = None) ∨
    (err = lazycopy (mm_pgdir m) (mm_pgdir src) ∧ ∃ l', mmap_ok m' l' ∧ copies (mm_self m) l l' ∧
       stands_for l l' (mm_arg src) (mm_arg m') ∧ stands_for l l' (mm_env src) (mm_env m') ∧
       stands_for l l' (mm_heap src) (mm_heap m') ∧
       mm_flags m' = mm_flags src ∧ mm_guard_len m' = mm_guard_len src ∧ mm_pgdir m' = mm_pgdir m ∧
       mm_paging m' = paging_lazycopy (mm_pgdir m) (mm_pgdir src) :: mm_paging m)) m.
Proof.
  intros Hs Hlk Harg Henv Hheap. unfold mmap_copy. wp_go; [apply Hs|]. pose proof (ok_length _ _ Hs) as Hlen.
  rewrite (ok_head _ _ Hs).
  eapply (wp_copy_loop _ _ [] l _ []); [by apply ok_empty; try done; apply Hs|done|apply Hs|apply Hs|lia| |].
  { intros Hno m'. rewrite decide_True by done. wp_go. by left. }
  simpl. intros m1 l' Hok Hc Hpg Hcp. unfold config in Hc. simpl in Hc.
  assert (mm_self m1 = mm_self m) as Hself by congruence. rewrite <- Hself in Hcp.
  wp_go. eapply wp_find_copy; [done..|]. intros arg ?. wp_go.
  eapply (wp_find_copy _ _ _ l'); [done|by destruct Hok|done..|]. intros env ?. wp_go.
  eapply (wp_find_copy _ _ _ l'); [done|by destruct Hok|done..|]. intros heap ?. unfold log_paging. wp_go.
  right. split; [congruence|]. exists l'. rewrite <- Hself. split_and!; try done; try congruence. by destruct Hok.
Qed.
End space.

Lemma mmap_init_correct_witness : wp (mmap_init (Kalloc0 := kalloc_total _)) (λ err m', err = 0 ∧
  ∃ l', mmap_ok m' l' ∧ mapped l' 0 ∧ ¬ mapped l' 0x5000000) mmap_demo.
Proof.
  eapply wp_mono; [apply (mmap_init_correct (Kalloc0 := kalloc_total _) mmap_demo demo_regions mmap_demo_ok)|].
  intros err m' (_ & _ & [(-> & l' & ? & _ & Hv)|(_ & _ & h & ?)]); [|done]. split; [done|]. exists l'. rewrite !mapped_view.
  split_and!; [done| |]; [eexists; by apply Hv|]. intros [k [? _]%Hv]. lia.
Defined.
Lemma mmap_copy_correct_witness : wp (mmap_copy (Kalloc0 := kalloc_total _) (λ _ _, 0) mmap_demo) (λ err m', err = 0 ∧
  ∃ l', mmap_ok m' l' ∧ copies 9%positive demo_regions l' ∧ stands_for demo_regions l' (Some 2%positive) (mm_heap m')) mmap_demo.
Proof.
  eapply wp_mono; [apply (mmap_copy_correct (Kalloc0 := kalloc_total _) (λ _ _, 0) mmap_demo mmap_demo demo_regions mmap_demo_ok eq_refl I I);
    simpl; set_solver|].
  intros err m' [(_ & h & ?)|(-> & l' & ? & ? & _ & _ & ? & _)]; [done|]. split; [done|]. by exists l'.
Defined.
