(* ===== verification/Zone.v ===== *)
(** * Memory zones and page frames ([kernel/mm/pmm/mm_zone.c], [kernel/mm/pmm/zone_page.c])

    Physical memory is divided into three zones; each has an array of page
    descriptors with reference counts.  The kernel keeps these arrays one behind the
    other, so a [page_t *] is an index into the array of all descriptors, and
    [zone->pages] the index where the descriptors of the zone begin.  [pmman], the
    allocator of page frames the paging code uses, is [mm_alloc] and [mm_free] here. *)
From S2P Require Import Prelude.

(** [page_t]; [pg_flags] is [flags.raw]. *)
Record page : Type := Page {
  pg_flags : Z;
  pg_mapping : ptr;
  ref_count : Z;
  map_count : Z;
  pg_virtual : Z;
}.

(** The bits of [page_flags_t]. *)
Definition pf_exec : Z := 0.
Definition pf_write : Z := 1.
Definition pf_read : Z := 2.
Definition pf_user : Z := 3.
Definition pf_valid : Z := 4.
Definition pf_shared : Z := 5.
Definition pf_dirty : Z := 6.
Definition pf_writeback : Z := 7.
Definition pf_can_swap : Z := 8.
Definition pf_swapped : Z := 9.
Definition page_zone (g : page) : Z := Z.land (Z.shiftr (pg_flags g) 10) 3.
Definition set_page_zone (z : Z) (g : page) : page :=
  {| g with pg_flags := Z.lor (Z.ldiff (pg_flags g) (Z.shiftl 3 10)) (Z.shiftl (Z.land z 3) 10) |}.

Record zone : Type := MmZone {
  z_start : Z;
  z_flags : Z;
  z_pages : Z;
  nrpages : Z;
  free_pages : Z;
  z_lock : bool;
}.

Definition MM_ZONE_DMA : Z := 0.
Definition MM_ZONE_NORM : Z := 1.
Definition MM_ZONE_HIGH : Z := 2.
Definition MM_ZONE_INVAL : Z := 0x0000.
Definition MM_ZONE_VALID : Z := 0x0010.

Definition GFP_WAIT : Z := 0x00010.
Definition GFP_RETRY : Z := 0x00080.
Definition GFP_ZERO : Z := 0x00100.
Definition GFP_DMA : Z := 0x00001.
Definition GFP_NORMAL : Z := 0x00002.
(** [GFP_NORMAL | GFP_WAIT | GFP_IO | GFP_FS] *)
Definition GFP_KERNEL : Z := 0x00072.

Definition MMAP_DEVADDR : Z := 0xFE000000.

(** [mm_zone[]] and the descriptors of all pages. *)
Record pmem : Type := Pmem { zones : list zone; pages : list page }.

Definition zone_at (z : Z) : M pmem zone := λ s,
  match guard (0 ≤ z);; zones s !! Z.to_nat z with Some v => Ok (v, s) | None => Fault end.
Definition zone_upd (z : Z) (f : zone → zone) : M pmem unit :=
  zone_at z;; modify (λ s, {| s with zones := alter f (Z.to_nat z) (zones s) |}).
Definition page_at (i : Z) : M pmem page := λ s,
  match guard (0 ≤ i);; pages s !! Z.to_nat i with Some v => Ok (v, s) | None => Fault end.
Definition page_upd (i : Z) (f : page → page) : M pmem unit :=
  page_at i;; modify (λ s, {| s with pages := alter f (Z.to_nat i) (pages s) |}).

Definition mm_zone_lock (z : Z) : M pmem unit :=
  v ← zone_at z; if z_lock v then panic else zone_upd z (λ v, {| v with z_lock := true |}).
Definition mm_zone_unlock (z : Z) : M pmem unit :=
  v ← zone_at z; if z_lock v then zone_upd z (λ v, {| v with z_lock := false |}) else panic.
Definition mm_zone_isvalid (z : Z) : M pmem bool :=
  v ← zone_at z;
  if z_lock v then mret (bool_decide (Z.land (z_flags v) MM_ZONE_VALID ≠ 0)) else panic.

(** [get_mmzone]: the zone of [size] bytes at [addr], locked. *)
Definition get_mmzone (addr size : Z) : M pmem (option Z) :=
  dma ← zone_at MM_ZONE_DMA;
  norm ← zone_at MM_ZONE_NORM;
  let last := u32 (addr + u32 (size - 1)) in
  if bool_decide (z_start dma ≤ addr ∧ last < 0x1000000) then
    mm_zone_lock MM_ZONE_DMA;;
    ok ← mm_zone_isvalid MM_ZONE_DMA;
    mret (if (ok : bool) then Some MM_ZONE_DMA else None)
  else if bool_decide (0x1000000 ≤ addr ∧ last < u32 (z_start norm + nrpages norm * PAGESZ)) then
    mm_zone_lock MM_ZONE_NORM;;
    ok ← mm_zone_isvalid MM_ZONE_NORM;
    mret (if (ok : bool) then Some MM_ZONE_NORM else None)
  else mret None.

Definition mm_zone_get (z : Z) : M pmem (option Z) :=
  if bool_decide (z < 0 ∨ 3 < z) then mret None else
  mm_zone_lock z;;
  ok ← mm_zone_isvalid z;
  if (ok : bool) then mret (Some z) else mm_zone_unlock z;; mret None.

(** ** Allocation *)

(** The search of [alloc_pages]: [n] pages of the zone are left, [index] is the
    next; returns [start] and [alloced].  [start] follows [index]. *)
Fixpoint scan_pages (n : nat) (first index alloced npages : Z) : M pmem (option Z * Z) :=
  match n with
  | O => mret (None, alloced)
  | S n' =>
      g ← page_at (first + index);
      if bool_decide (ref_count g ≠ 0) then scan_pages n' first (index + 1) 0 npages
      else
        let alloced := u32 (alloced + 1) in
        if bool_decide (alloced = npages) then mret (Some index, alloced)
        else scan_pages n' first (index + 1) alloced npages
  end.
(** The outer [loop()], at most [fuel] rounds of it. *)
Fixpoint find_pages (fuel : nat) (z gfp alloced npages : Z) : M pmem (option Z) :=
  match fuel with
  | O => nofuel
  | S fuel' =>
      v ← zone_at z;
      '(start, alloced) ← scan_pages (Z.to_nat (nrpages v)) (z_pages v) 0 alloced npages;
      match start with
      | Some i => mret (Some i)
      | None =>
          if bool_decide (Z.land gfp GFP_WAIT = 0 ∧ Z.land gfp GFP_RETRY = 0) then mret None
          else find_pages fuel' z gfp alloced npages
      end
  end.
(** The loop that takes [n] pages from [i] on. *)
Fixpoint take_pages (n : nat) (z i : Z) : M pmem unit :=
  match n with
  | O => mret tt
  | S n' =>
      page_upd i (set_page_zone z);;
      page_upd i (λ g, {| g with ref_count := u32 (ref_count g + 1) |});;
      zone_upd z (λ v, {| v with free_pages := u32 (free_pages v - 1) |});;
      take_pages n' z (i + 1)
  end.

Definition gfp_zone (gfp : Z) : Z :=
  if bool_decide (Z.land gfp 0x0F = 0) then MM_ZONE_NORM else Z.land gfp 0x0F - 1.

(** [alloc_pages], for code over a larger state [T] that holds the zones: [zero]
    clears one frame (it mounts the frame, so that step is part of the paging code). *)
Section alloc_pages.
Context {T : Type} `{!Holds T pmem} (zero : Z → M T unit).

Fixpoint zero_pages (n : nat) (paddr : Z) : M T unit :=
  match n with O => mret tt | S n' => zero paddr;; zero_pages n' (u32 (paddr + PAGESZ)) end.

Definition alloc_pages_with (fuel : nat) (gfp order : Z) : M T (option Z) :=
  let npages := u32 (Z.shiftl 1 order) in
  zone ← on (mm_zone_get (gfp_zone gfp));
  match zone with
  | None => fault
  | Some z =>
      start ← on (find_pages fuel z gfp 0 npages);
      match start with
      | None => on (mm_zone_unlock z);; mret None
      | Some i =>
          v ← on (zone_at z);
          on (take_pages (Z.to_nat npages) z (z_pages v + i));;
          (if bool_decide (Z.land gfp GFP_ZERO ≠ 0) then
             zero_pages (Z.to_nat npages) (u32 (z_start v + i * PAGESZ))
           else mret tt);;
          on (mm_zone_unlock z);;
          mret (Some (z_pages v + i))
      end
  end.
End alloc_pages.

Definition page_address (page : option Z) : M pmem Z :=
  match page with
  | None => mret 0
  | Some p =>
      g ← page_at p;
      zone ← mm_zone_get (page_zone g);
      match zone with
      | None => mret 0
      | Some z =>
          v ← zone_at z;
          let index := p - z_pages v in
          if bool_decide (index < 0 ∨ nrpages v < index) then mm_zone_unlock z;; mret 0
          else mm_zone_unlock z;; mret (u32 (z_start v + index * PAGESZ))
      end
  end.

(** [__page_incr] and [__page_count] return the count before the change as an [int]. *)
Definition page_incr_at (addr : Z) : M pmem Z :=
  if bool_decide (addr = 0) then panic else
  zone ← get_mmzone addr PAGESZ;
  match zone with
  | None => mret (- EADDRNOTAVAIL)
  | Some z =>
      v ← zone_at z;
      let i := z_pages v + u32 (addr - z_start v) / PAGESZ in
      g ← page_at i;
      page_upd i (λ g, {| g with ref_count := u32 (ref_count g + 1) |});;
      mm_zone_unlock z;;
      mret (i32 (ref_count g))
  end.
Definition page_incr (page : option Z) : M pmem Z := a ← page_address page; page_incr_at a.
Definition page_count_at (addr : Z) : M pmem Z :=
  if bool_decide (addr = 0) then panic else
  zone ← get_mmzone addr PAGESZ;
  match zone with
  | None => mret (- EADDRNOTAVAIL)
  | Some z =>
      v ← zone_at z;
      g ← page_at (z_pages v + u32 (addr - z_start v) / PAGESZ);
      mm_zone_unlock z;;
      mret (i32 (ref_count g))
  end.
Definition page_count (page : option Z) : M pmem Z := a ← page_address page; page_count_at (u32 (- a)).

(** ** Release *)

(** What [__pages_put] leaves of a page whose last reference goes. *)
Definition page_clear (g : page) : page := {|
  pg_flags := foldr (λ b f, Z.clearbit f b) (Z.setbit (pg_flags g) pf_can_swap)
    [pf_read; pf_dirty; pf_exec; pf_shared; pf_swapped; pf_user; pf_valid; pf_write; pf_writeback];
  pg_mapping := NULL;
  ref_count := 0;
  map_count := map_count g;
  pg_virtual := 0;
|}.
Fixpoint put_pages (n : nat) (z i : Z) : M pmem unit :=
  match n with
  | O => mret tt
  | S n' =>
      g ← page_at i;
      (if bool_decide (ref_count g = 0) then mret tt else
       page_upd i (λ g, {| g with ref_count := u32 (ref_count g - 1) |});;
       g ← page_at i;
       if bool_decide (ref_count g = 0) then
         page_upd i page_clear;;
         zone_upd z (λ v, {| v with free_pages := u32 (free_pages v + 1) |})
       else mret tt);;
      put_pages n' z (i + 1)
  end.
(** [__pages_put], [__page_put] *)
Definition pages_put_at (addr order : Z) : M pmem unit :=
  let npages := u32 (Z.shiftl 1 order) in
  if bool_decide (addr = 0) then panic else
  zone ← get_mmzone addr (u32 (npages * PAGESZ));
  match zone with
  | None => mret tt
  | Some z =>
      v ← zone_at z;
      put_pages (Z.to_nat npages) z (z_pages v + u32 (addr - z_start v) / PAGESZ);;
      mm_zone_unlock z
  end.
Definition page_put_at (addr : Z) : M pmem unit := pages_put_at addr 0.
Definition pages_put (page : option Z) (order : Z) : M pmem unit := a ← page_address page; pages_put_at a order.
Definition page_put (page : option Z) : M pmem unit := pages_put page 0.

(** [pmman.alloc] and [pmman.free].  [GFP_NORMAL] asks for no zeroing and does not
    wait: one round of the search is all there is. *)
Definition mm_alloc : M pmem Z :=
  p ← alloc_pages_with (T := pmem) (λ _, fault) 1 GFP_NORMAL 0; page_address p.
Definition mm_free (addr : Z) : M pmem unit := page_put_at addr.

(** [for (zone = MM_ZONE_DMA; zone < 3; ++zone)] of [mem_free] and [mem_used]. *)
Fixpoint sum_zones (bytes : zone → Z) (zs : list Z) (size : Z) : M pmem Z :=
  match zs with
  | [] => mret size
  | z :: zs =>
      mm_zone_lock z;;
      ok ← mm_zone_isvalid z;
      v ← zone_at z;
      mm_zone_unlock z;;
      sum_zones bytes zs (if (ok : bool) then u32 (size + u32 (bytes v)) else size)
  end.
Definition mem_free : M pmem Z :=
  size ← sum_zones (λ v, free_pages v * PAGESZ) [0; 1; 2] 0; mret (size / 1024).
Definition mem_used : M pmem Z :=
  size ← sum_zones (λ v, (nrpages v - free_pages v) * PAGESZ) [0; 1; 2] 0; mret (size / 1024).

(** ** The zones of a machine *)

(** [enumarate_zones], from the size of memory in KiB; 20 bytes are a [page_t], so
    the descriptors of the second zone begin behind those of the first. *)
Definition enumarate_zones (pmemsize : Z) : M pmem Z :=
  let size := 0x1000000 in
  if bool_decide (pmemsize / 1024 < 16) then panic else
  zone_upd MM_ZONE_DMA (λ v, {| v with z_start := 0; z_pages := 0; z_flags := MM_ZONE_VALID;
    nrpages := size / PAGESZ; free_pages := size / PAGESZ |});;
  dma ← zone_at MM_ZONE_DMA;
  let start := size in
  let page_array := nrpages dma in
  let memsize := (pmemsize - size / 1024) mod 2 ^ 64 in
  let lim := (MMAP_DEVADDR - size) / 1024 in
  let size := u32 ((if bool_decide (lim ≤ memsize) then lim else u32 memsize) * 1024) in
  zone_upd MM_ZONE_NORM (λ v, {| v with z_pages := page_array; z_flags := MM_ZONE_VALID;
    z_start := start; nrpages := size / PAGESZ; free_pages := size / PAGESZ |});;
  mret 0.
(** The loops of [map_zones] and [physical_memory] that take the pages of the
    kernel, the modules and the reserved memory out of circulation. *)
Fixpoint reserve_pages (n : nat) (z i : Z) : M pmem unit :=
  match n with
  | O => mret tt
  | S n' =>
      page_upd i (λ g, {| g with ref_count := 1 |});;
      page_upd i (set_page_zone z);;
      page_upd i (λ g, {| g with pg_flags := Z.lor (pg_flags g) 3 |});;
      reserve_pages n' z (i + 1)
  end.
Definition reserve_range (addr size : Z) : M pmem bool :=
  zone ← get_mmzone addr size;
  match zone with
  | None => mret false
  | Some z =>
      v ← zone_at z;
      let n := u32 (size / PAGESZ + (if bool_decide (Z.land size PAGEMASK = 0) then 0 else 1)) in
      reserve_pages (Z.to_nat n) z (z_pages v + u32 (addr - z_start v) / PAGESZ);;
      zone_upd z (λ v, {| v with free_pages := u32 (free_pages v - n) |});;
      mm_zone_unlock z;;
      mret true
  end.

Definition page_zero : page := Page 0 NULL 0 0 0.
Definition zone_static : zone := MmZone 0 MM_ZONE_INVAL 0 0 0 false.
(** [mm_zone[]] as it is initialised statically. *)
Definition pmem_static : pmem := Pmem [zone_static; zone_static; zone_static] [].
(** What [map_zones] does with the descriptors once their array is mapped: the array
    is cleared and page 0 is taken. *)
Definition clear_pages : M pmem unit :=
  d ← zone_at MM_ZONE_DMA;
  n ← zone_at MM_ZONE_NORM;
  modify (λ s, {| s with pages := replicate (Z.to_nat (nrpages d + nrpages n)) page_zero |});;
  zone_upd MM_ZONE_DMA (λ v, {| v with free_pages := u32 (free_pages v - 1) |});;
  page_upd 0 (λ g, {| g with ref_count := 1 |});;
  page_upd 0 (set_page_zone 0).
