(* ===== verification/ZoneInv.v ===== *)
(** * Zones: the invariant and the steps of the page allocator

    [pmem_ok] ties the counters of a zone to its page descriptors, [refs] reads the
    reference counts by physical address.  The lemmas [wp_mm_alloc], [wp_mm_free] and
    [wp_alloc_page] are what the code that uses frames is verified with. *)
From S2P Require Import Prelude Zone.

#[global] Arguments zone_at z : simpl never.
#[global] Arguments zone_upd z f : simpl never.
#[global] Arguments page_at i : simpl never.
#[global] Arguments page_upd i f : simpl never.
#[global] Arguments mm_zone_lock z : simpl never.
#[global] Arguments mm_zone_unlock z : simpl never.
#[global] Arguments mm_zone_isvalid z : simpl never.
#[global] Arguments mm_zone_get z : simpl never.
#[global] Arguments get_mmzone addr size : simpl never.
#[global] Arguments find_pages fuel z gfp alloced npages : simpl never.

(** ** Primitive steps *)

Definition zone_in (s : pmem) (z : Z) (v : zone) : Prop := 0 ≤ z ∧ zones s !! Z.to_nat z = Some v.
Definition page_in (s : pmem) (i : Z) (g : page) : Prop := 0 ≤ i ∧ pages s !! Z.to_nat i = Some g.
Definition zset (z : Z) (f : zone → zone) (s : pmem) : pmem := {| s with zones := alter f (Z.to_nat z) (zones s) |}.
Definition pset (i : Z) (f : page → page) (s : pmem) : pmem := {| s with pages := alter f (Z.to_nat i) (pages s) |}.

Lemma list_alter_alter {A} (f g : A → A) (i : nat) (l : list A) : alter f i (alter g i l) = alter (f ∘ g) i l.
Proof.
  apply list_eq. intros j. destruct (decide (i = j)) as [->|?].
  - rewrite !list_lookup_alter_eq. by destruct (l !! j).
  - by rewrite !list_lookup_alter_ne.
Qed.
Lemma zset_zset z f g s : zset z f (zset z g s) = zset z (f ∘ g) s.
Proof. unfold zset. simpl. by rewrite list_alter_alter. Qed.
Lemma pset_pset i f g s : pset i f (pset i g s) = pset i (f ∘ g) s.
Proof. unfold pset. simpl. by rewrite list_alter_alter. Qed.
Lemma zset_pset z i f g s : zset z f (pset i g s) = pset i g (zset z f s).
Proof. done. Qed.
Lemma zset_id s z v f : zone_in s z v → f v = v → zset z f s = s.
Proof.
  intros [_ Hv] Hf. unfold zset. destruct s as [zs ps]; simpl in *. f_equal.
  apply list_eq. intros j. rewrite list_lookup_alter. case_decide; [|done].
  subst j. by rewrite Hv; simpl; rewrite Hf.
Qed.
Lemma zone_in_zset s z f v : zone_in s z v → zone_in (zset z f s) z (f v).
Proof. intros [? Hv]. split; [done|]. simpl. by rewrite list_lookup_alter_eq, Hv. Qed.
Lemma zone_in_zset_inv s z f y w : 0 ≤ z → zone_in (zset z f s) y w →
  (y = z ∧ ∃ v, zone_in s z v ∧ w = f v) ∨ (y ≠ z ∧ zone_in s y w).
Proof.
  intros Hz [Hy Hw]. simpl in Hw. rewrite list_lookup_alter in Hw. case_decide as E.
  - apply fmap_Some in Hw as (v & Hv & ->). left. assert (y = z) as -> by lia. split; [done|].
    exists v. split; [|done]. split; done.
  - right. split; [congruence|]. done.
Qed.
Lemma page_in_pset_inv s i f j g : 0 ≤ i → page_in (pset i f s) j g →
  (j = i ∧ ∃ g0, page_in s i g0 ∧ g = f g0) ∨ (j ≠ i ∧ page_in s j g).
Proof.
  intros Hi [Hj Hw]. simpl in Hw. rewrite list_lookup_alter in Hw. case_decide as E.
  - apply fmap_Some in Hw as (v & Hv & ->). left. assert (j = i) as -> by lia. split; [done|].
    exists v. split; [|done]. split; done.
  - right. split; [congruence|]. done.
Qed.
Lemma zone_in_det s z v w : zone_in s z v → zone_in s z w → v = w.
Proof. intros [_ ?] [_ ?]. congruence. Qed.
Lemma page_in_det s i v w : page_in s i v → page_in s i w → v = w.
Proof. intros [_ ?] [_ ?]. congruence. Qed.

Section prim.
Implicit Types (s : pmem).
Lemma wp_zone_at s z v (Q : zone → pmem → Prop) : zone_in s z v → Q v s → wp (zone_at z) Q s.
Proof. intros [Hz Hv] HQ. eapply wp_eq; [|done]. unfold zone_at. rewrite option_guard_True by done. simpl. by rewrite Hv. Qed.
Lemma wp_page_at s i g (Q : page → pmem → Prop) : page_in s i g → Q g s → wp (page_at i) Q s.
Proof. intros [Hz Hv] HQ. eapply wp_eq; [|done]. unfold page_at. rewrite option_guard_True by done. simpl. by rewrite Hv. Qed.
Lemma wp_zone_upd s z v f (Q : unit → pmem → Prop) :
  zone_in s z v → Q tt (zset z f s) → wp (zone_upd z f) Q s.
Proof. intros Hv HQ. unfold zone_upd. apply wp_bind. eapply wp_zone_at; [done|]. by apply wp_modify. Qed.
Lemma wp_page_upd s i g f (Q : unit → pmem → Prop) :
  page_in s i g → Q tt (pset i f s) → wp (page_upd i f) Q s.
Proof. intros Hv HQ. unfold page_upd. apply wp_bind. eapply wp_page_at; [done|]. by apply wp_modify. Qed.

Definition zlock (b : bool) (v : zone) : zone := {| v with z_lock := b |}.
Definition valid (v : zone) : Prop := Z.land (z_flags v) MM_ZONE_VALID ≠ 0.

Lemma wp_mm_zone_lock s z v (Q : unit → pmem → Prop) :
  zone_in s z v → z_lock v = false → Q tt (zset z (zlock true) s) → wp (mm_zone_lock z) Q s.
Proof.
  intros Hv Hl HQ. unfold mm_zone_lock. apply wp_bind. eapply wp_zone_at; [done|]. rewrite Hl.
  by eapply wp_zone_upd.
Qed.
Lemma wp_mm_zone_unlock s z v (Q : unit → pmem → Prop) :
  zone_in s z v → z_lock v = true → Q tt (zset z (zlock false) s) → wp (mm_zone_unlock z) Q s.
Proof.
  intros Hv Hl HQ. unfold mm_zone_unlock. apply wp_bind. eapply wp_zone_at; [done|]. rewrite Hl.
  by eapply wp_zone_upd.
Qed.
Lemma wp_mm_zone_isvalid s z v (Q : bool → pmem → Prop) :
  zone_in s z v → z_lock v = true → Q (bool_decide (valid v)) s → wp (mm_zone_isvalid z) Q s.
Proof.
  intros Hv Hl HQ. unfold mm_zone_isvalid. apply wp_bind. eapply wp_zone_at; [done|]. by rewrite Hl.
Qed.
Lemma wp_mm_zone_get s z v (Q : option Z → pmem → Prop) :
  zone_in s z v → z ≤ 3 → z_lock v = false → valid v → Q (Some z) (zset z (zlock true) s) →
  wp (mm_zone_get z) Q s.
Proof.
  intros Hv Hz Hl Hok HQ. pose proof Hv as [? _]. unfold mm_zone_get. rewrite bool_decide_false by lia.
  apply wp_bind. eapply wp_mm_zone_lock; [done..|]. apply wp_bind.
  eapply wp_mm_zone_isvalid; [by apply zone_in_zset|done|]. rewrite bool_decide_true by done. by apply wp_ret.
Qed.
End prim.

(** ** The invariant *)

(** The free pages among the [n] pages from [first] on. *)
Definition free_count (s : pmem) (first n : Z) : Z :=
  Z.of_nat (length (filter (λ g, ref_count g = 0) (take (Z.to_nat n) (drop (Z.to_nat first) (pages s))))).

Record zone_wf (s : pmem) (z : Z) (v : zone) : Prop := ZoneWf {
  zw_pages : 0 ≤ z_pages v;
  zw_nr : 0 ≤ nrpages v;
  zw_end : z_pages v + nrpages v ≤ Z.of_nat (length (pages s));
  zw_start : 0 ≤ z_start v ∧ (PAGESZ | z_start v);
  zw_addr : z_start v + nrpages v * PAGESZ ≤ MMAP_DEVADDR;
  zw_free : free_pages v = free_count s (z_pages v) (nrpages v);
  zw_zone : ∀ i g, z_pages v ≤ i < z_pages v + nrpages v → page_in s i g → ref_count g ≠ 0 → page_zone g = z;
}.
Record pmem_ok (s : pmem) : Prop := PmemOk {
  po_three : length (zones s) = 3%nat;
  po_lock : ∀ z v, zone_in s z v → z_lock v = false;
  po_wf : ∀ z v, zone_in s z v → valid v → z ≤ 1 ∧ zone_wf s z v;
  po_dma : ∃ v, zone_in s MM_ZONE_DMA v ∧ valid v ∧ z_start v = 0 ∧ nrpages v = 0x1000000 / PAGESZ;
  po_norm : ∃ v, zone_in s MM_ZONE_NORM v ∧ valid v ∧ z_start v = 0x1000000;
  po_apart : ∀ d n, zone_in s MM_ZONE_DMA d → zone_in s MM_ZONE_NORM n → z_pages d + nrpages d ≤ z_pages n;
  po_refs : ∀ i g, page_in s i g → 0 ≤ ref_count g < 2 ^ 32;
}.

(** ** Changing one page *)

Lemma count_insert {A} (P : A → Prop) `{!∀ x, Decision (P x)} (l : list A) (i : nat) x y :
  l !! i = Some x →
  Z.of_nat (length (filter P (<[i := y]> l))) + (if decide (P x) then 1 else 0) =
  Z.of_nat (length (filter P l)) + (if decide (P y) then 1 else 0).
Proof.
  intros Hx. pose proof (lookup_lt_Some _ _ _ Hx). rewrite insert_take_drop by done.
  rewrite <- (take_drop_middle l i x Hx) at 3. rewrite !filter_app, !filter_cons, !length_app.
  repeat case_decide; simpl; lia.
Qed.
Lemma segment_insert {A} (l : list A) (i a n : nat) y : (a ≤ i < a + n)%nat →
  take n (drop a (<[i := y]> l)) = <[(i - a)%nat := y]> (take n (drop a l)).
Proof.
  intros Hi. apply list_eq. intros j. destruct (decide (j < n)%nat).
  - rewrite lookup_take_lt by done. rewrite lookup_drop.
    destruct (decide (j = i - a)%nat) as [->|?].
    + replace (a + (i - a))%nat with i by lia.
      destruct (decide (i < length l)%nat).
      * rewrite list_lookup_insert_eq by done. rewrite list_lookup_insert_eq; [done|].
        rewrite length_take, length_drop. lia.
      * rewrite !list_insert_ge; [|rewrite ?length_take, ?length_drop; lia..].
        rewrite lookup_take_lt by lia. rewrite lookup_drop. f_equal. lia.
    + rewrite !list_lookup_insert_ne by lia. by rewrite lookup_take_lt, lookup_drop by done.
  - rewrite !lookup_ge_None_2; [done|rewrite ?length_insert, length_take; lia..].
Qed.
Lemma segment_insert_out {A} (l : list A) (i a n : nat) y : (i < a ∨ a + n ≤ i)%nat →
  take n (drop a (<[i := y]> l)) = take n (drop a l).
Proof.
  intros Hi. apply list_eq. intros j. destruct (decide (j < n)%nat).
  - rewrite !lookup_take_lt, !lookup_drop by done. apply list_lookup_insert_ne. lia.
  - rewrite !lookup_ge_None_2; [done|rewrite ?length_insert, length_take; lia..].
Qed.

Definition pput (i : Z) (g : page) (s : pmem) : pmem := {| s with pages := <[Z.to_nat i := g]> (pages s) |}.
Lemma pset_pput i f g s : page_in s i g → pset i f s = pput i (f g) s.
Proof.
  intros [? Hg]. unfold pput, pset. destruct s as [zs ps]; simpl in *. f_equal.
  pose proof (lookup_lt_Some _ _ _ Hg).
  apply list_eq. intros j. destruct (decide (Z.to_nat i = j)) as [<-|?].
  - by rewrite list_lookup_alter_eq, Hg, list_lookup_insert_eq.
  - by rewrite list_lookup_alter_ne, list_lookup_insert_ne.
Qed.
Lemma page_in_pput s i g g' : page_in s i g → page_in (pput i g' s) i g'.
Proof. intros [? Hg]. split; [done|]. simpl. apply list_lookup_insert_eq. by eapply lookup_lt_Some. Qed.
Lemma page_in_pput_inv s i g j g' : 0 ≤ i → page_in (pput i g s) j g' →
  (j = i ∧ g' = g) ∨ (j ≠ i ∧ page_in s j g').
Proof.
  intros Hi [Hj Hg]. simpl in Hg. apply list_lookup_insert_Some in Hg as [(?&?&?)|[??]].
  - left. split; [lia|done].
  - right. split; [congruence|]. by split.
Qed.
Lemma pput_pput i g g' s : pput i g (pput i g' s) = pput i g s.
Proof. unfold pput. simpl. by rewrite list_insert_insert_eq. Qed.

Definition is_free (g : page) : Z := if bool_decide (ref_count g = 0) then 1 else 0.
Lemma free_count_pput s a n i g g' : 0 ≤ a → 0 ≤ n → a ≤ i < a + n → page_in s i g →
  free_count (pput i g' s) a n = free_count s a n + is_free g' - is_free g.
Proof.
  intros Ha Hn Hi [Hi0 Hg]. unfold free_count. simpl. rewrite segment_insert by lia.
  pose proof (count_insert (λ g, ref_count g = 0) (take (Z.to_nat n) (drop (Z.to_nat a) (pages s)))
    (Z.to_nat i - Z.to_nat a) g g') as Hc.
  rewrite lookup_take_lt, lookup_drop in Hc by lia.
  replace (Z.to_nat a + (Z.to_nat i - Z.to_nat a))%nat with (Z.to_nat i) in Hc by lia.
  specialize (Hc Hg). unfold is_free. repeat case_bool_decide; repeat case_decide; lia.
Qed.
Lemma free_count_pput_out s a n i g' : 0 ≤ a → 0 ≤ n → 0 ≤ i → i < a ∨ a + n ≤ i →
  free_count (pput i g' s) a n = free_count s a n.
Proof. intros. unfold free_count. simpl. by rewrite segment_insert_out by lia. Qed.

Definition set_free (k : Z) (v : zone) : zone := {| v with free_pages := k |}.
Lemma zones_apart s y w z v i : pmem_ok s → zone_in s y w → zone_in s z v → valid w → valid v → y ≠ z →
  z_pages v ≤ i < z_pages v + nrpages v → i < z_pages w ∨ z_pages w + nrpages w ≤ i.
Proof.
  intros Hok Hw Hv Hvw Hvv Hne Hi. pose proof (po_wf _ Hok _ _ Hv Hvv) as [? []].
  pose proof (po_wf _ Hok _ _ Hw Hvw) as [? []]. pose proof Hv as [? _]. pose proof Hw as [? _].
  assert (y = 0 ∧ z = 1 ∨ y = 1 ∧ z = 0) as [[-> ->]|[-> ->]] by lia.
  - pose proof (po_apart _ Hok _ _ Hw Hv). lia.
  - pose proof (po_apart _ Hok _ _ Hv Hw). lia.
Qed.
Definition settle (z k : Z) (y : Z) (w : zone) : zone := if bool_decide (y = z) then set_free k w else w.
Lemma zone_in_settle s z k y w : 0 ≤ z →
  zone_in (zset z (set_free k) s) y w ↔ ∃ w0, zone_in s y w0 ∧ w = settle z k y w0.
Proof.
  intros Hz. unfold settle. split.
  - intros [[-> (w0 & Hw & ->)]|[? Hw]]%zone_in_zset_inv; [| |done].
    + exists w0. by rewrite bool_decide_true by done.
    + exists w. by rewrite bool_decide_false by done.
  - intros (w0 & Hw & ->). case_bool_decide; subst; [by apply zone_in_zset|].
    destruct Hw as [? Hw]. split; [done|]. simpl. rewrite list_lookup_alter_ne by lia. done.
Qed.
Lemma settle_start z k y w : z_start (settle z k y w) = z_start w.
Proof. unfold settle. by case_bool_decide. Qed.
Lemma settle_pages z k y w : z_pages (settle z k y w) = z_pages w.
Proof. unfold settle. by case_bool_decide. Qed.
Lemma settle_nr z k y w : nrpages (settle z k y w) = nrpages w.
Proof. unfold settle. by case_bool_decide. Qed.
Lemma settle_valid z k y w : valid (settle z k y w) ↔ valid w.
Proof. unfold settle. by case_bool_decide. Qed.
Lemma settle_lock z k y w : z_lock (settle z k y w) = z_lock w.
Proof. unfold settle. by case_bool_decide. Qed.

(** A page of zone [z] changes, and the zone's counter with it. *)
Lemma pmem_ok_change s z v i g g' :
  pmem_ok s → zone_in s z v → valid v → z_pages v ≤ i < z_pages v + nrpages v → page_in s i g →
  0 ≤ ref_count g' < 2 ^ 32 → (ref_count g' ≠ 0 → page_zone g' = z) →
  pmem_ok (pput i g' (zset z (set_free (free_pages v + is_free g' - is_free g)) s)).
Proof.
  intros Hok Hv Hva Hi Hg Hr Hz. pose proof Hv as [Hz0 _]. pose proof Hg as [Hi0 _].
  set (k := free_pages v + is_free g' - is_free g). split; simpl.
  - rewrite length_alter. by apply Hok.
  - intros y w (w0 & Hw & ->)%zone_in_settle; [|done]. rewrite settle_lock. by eapply po_lock.
  - intros y w (w0 & Hw & ->)%zone_in_settle Hvw; [|done]. apply settle_valid in Hvw.
    pose proof (po_wf _ Hok _ _ Hw Hvw) as [Hy [??? [??]? Hfr Hzn]]. split; [done|].
    split; rewrite ?settle_pages, ?settle_nr, ?settle_start; simpl; rewrite ?length_insert; try done.
    + unfold settle. case_bool_decide as Hyz.
      * subst y. assert (w0 = v) as -> by (by eapply zone_in_det). simpl.
        rewrite (free_count_pput (zset z (set_free k) s) _ _ i g g') by done. unfold k. by rewrite Hfr.
      * rewrite free_count_pput_out; [done..|]. by eapply (zones_apart s y w0 z v i).
    + intros j h Hj [[-> ->]|[? Hh]]%page_in_pput_inv Hnz; [| |done]; [|by eapply Hzn].
      destruct (decide (y = z)) as [->|Hne]; [by apply Hz|].
      pose proof (zones_apart s y w0 z v i Hok Hw Hv Hvw Hva Hne Hi). lia.
  - destruct (po_dma _ Hok) as (d & Hd & ?&?&?). exists (settle z k MM_ZONE_DMA d).
    rewrite settle_valid, settle_start, settle_nr. split; [|done]. apply zone_in_settle; eauto.
  - destruct (po_norm _ Hok) as (d & Hd & ?&?). exists (settle z k MM_ZONE_NORM d).
    rewrite settle_valid, settle_start. split; [|done]. apply zone_in_settle; eauto.
  - intros d n (d0 & Hd & ->)%zone_in_settle (n0 & Hn & ->)%zone_in_settle; [|done..].
    rewrite !settle_pages, settle_nr. by apply (po_apart _ Hok).
  - intros j h [[-> ->]|[? Hh]]%page_in_pput_inv; [done| |done]. by eapply (po_refs _ Hok).
Qed.

(** ** Reference counts by physical address *)

Definition frame_index (s : pmem) (a : Z) : option Z :=
  match zones s with
  | d :: n :: _ =>
      if bool_decide (0 ≤ a < 0x1000000) then Some (z_pages d + a / PAGESZ)
      else if bool_decide (0x1000000 ≤ a < 0x1000000 + nrpages n * PAGESZ) then
        Some (z_pages n + (a - 0x1000000) / PAGESZ)
      else None
  | _ => None
  end.
Definition refs (s : pmem) (a : Z) : Z :=
  match frame_index s a ≫= λ i, pages s !! Z.to_nat i with Some g => ref_count g | None => 0 end.
(** The end of the memory the zones manage. *)
Definition norm_end (s : pmem) : Z :=
  match zones s !! 1%nat with Some n => 0x1000000 + nrpages n * PAGESZ | None => 0 end.
Definition same_page (a b : Z) : bool := bool_decide (a / PAGESZ = b / PAGESZ).

(** Frame [a] is page [i] of zone [z]. *)
Record frame_in (s : pmem) (a : Z) (z : Z) (v : zone) (i : Z) (g : page) : Prop := FrameIn {
  fi_zone : zone_in s z v;
  fi_valid : valid v;
  fi_z : z = 0 ∨ z = 1;
  fi_addr : z_start v ≤ a < z_start v + nrpages v * PAGESZ;
  fi_index : i = z_pages v + (a - z_start v) / PAGESZ;
  fi_range : z_pages v ≤ i < z_pages v + nrpages v;
  fi_page : page_in s i g;
}.

Lemma page_exists s i : 0 ≤ i < Z.of_nat (length (pages s)) → ∃ g, page_in s i g.
Proof. intros Hi. destruct (lookup_lt_is_Some_2 (pages s) (Z.to_nat i)) as [g Hg]; [lia|]. exists g. split; [lia|done]. Qed.
Lemma zone_page_in s z v i : pmem_ok s → zone_in s z v → valid v → 0 ≤ i < nrpages v →
  ∃ g, page_in s (z_pages v + i) g.
Proof. intros Hok Hv Hva Hi. pose proof (po_wf _ Hok _ _ Hv Hva) as [? []]. apply page_exists. lia. Qed.

Lemma norm_end_le s : pmem_ok s → norm_end s ≤ MMAP_DEVADDR.
Proof.
  intros Hok. destruct (po_norm _ Hok) as (n & Hn & Hva & Hst). destruct (po_wf _ Hok _ _ Hn Hva) as [_ []].
  destruct Hn as [_ Hn]. unfold norm_end. change (zones s !! 1%nat) with (zones s !! Z.to_nat MM_ZONE_NORM).
  rewrite Hn. lia.
Qed.

Lemma frame_exists s a : pmem_ok s → 0 ≤ a < norm_end s → ∃ z v i g, frame_in s a z v i g.
Proof.
  intros Hok Ha. destruct (po_dma _ Hok) as (d & Hd & Hdv & Hds & Hdn).
  destruct (po_norm _ Hok) as (n & Hn & Hnv & Hns).
  assert (norm_end s = 0x1000000 + nrpages n * PAGESZ) as He.
  { destruct Hn as [_ Hn]. unfold norm_end. change (zones s !! 1%nat) with (zones s !! Z.to_nat MM_ZONE_NORM). by rewrite Hn. }
  assert (0 < PAGESZ) by done. assert (0x1000000 / PAGESZ * PAGESZ = 0x1000000) by done.
  destruct (decide (a < 0x1000000)).
  - assert (0 ≤ a / PAGESZ < nrpages d) by (rewrite Hdn; split; [apply Z.div_pos|apply Z.div_lt_upper_bound]; lia).
    destruct (zone_page_in s _ d (a / PAGESZ) Hok Hd Hdv) as [g Hg]; [done|].
    exists 0, d, (z_pages d + a / PAGESZ), g. split; try done; [by left|lia| |lia].
    by rewrite Hds, Z.sub_0_r.
  - assert (0 ≤ (a - z_start n) / PAGESZ < nrpages n) by (rewrite Hns; split; [apply Z.div_pos|apply Z.div_lt_upper_bound]; lia).
    destruct (zone_page_in s _ n ((a - z_start n) / PAGESZ) Hok Hn Hnv) as [g Hg]; [done|].
    exists 1, n, (z_pages n + (a - z_start n) / PAGESZ), g. split; try done; [by right|lia|lia].
Qed.
Lemma refs_frame s a z v i g : pmem_ok s → frame_in s a z v i g → refs s a = ref_count g.
Proof.
  intros Hok [Hz Hva Hz01 Ha -> Hr [? Hg]]. destruct (po_dma _ Hok) as (d & Hd & Hdv & Hds & Hdn).
  destruct (po_norm _ Hok) as (n & Hn & Hnv & Hns). assert (0x1000000 / PAGESZ * PAGESZ = 0x1000000) by done.
  unfold refs, frame_index. destruct (zones s) as [|d' [|n' zs]] eqn:E;
    [destruct Hd as [_ Hd]; by rewrite E in Hd|destruct Hn as [_ Hn]; by rewrite E in Hn|].
  destruct Hz01 as [-> | ->].
  - assert (v = d) as -> by (by eapply zone_in_det). assert (d' = d) as -> by (destruct Hd as [_ Hd]; rewrite E in Hd; by injection Hd).
    rewrite bool_decide_true by lia. simpl. rewrite Hds, Z.sub_0_r in Hg. by rewrite Hg.
  - assert (v = n) as -> by (by eapply zone_in_det). assert (n' = n) as -> by (destruct Hn as [_ Hn]; rewrite E in Hn; by injection Hn).
    rewrite bool_decide_false by lia. rewrite bool_decide_true by lia. simpl. rewrite Hns in Hg. by rewrite Hg.
Qed.
Lemma zones_shape s : pmem_ok s → ∃ d n h, zones s = [d; n; h] ∧
  zone_in s 0 d ∧ valid d ∧ z_start d = 0 ∧ nrpages d = 4096 ∧
  zone_in s 1 n ∧ valid n ∧ z_start n = 0x1000000 ∧ z_pages d + nrpages d ≤ z_pages n.
Proof.
  intros Hok. destruct (po_dma _ Hok) as (d & Hd & Hdv & Hds & Hdn).
  destruct (po_norm _ Hok) as (n & Hn & Hnv & Hns). pose proof (po_apart _ Hok _ _ Hd Hn).
  pose proof (po_three _ Hok). pose proof Hd as [_ Hd']. pose proof Hn as [_ Hn'].
  destruct (zones s) as [|d0 [|n0 [|h [|]]]] eqn:E; try done. simplify_eq/=.
  exists d, n, h. done.
Qed.
Lemma frame_index_same s a b i : pmem_ok s → frame_index s a = Some i →
  frame_index s b = Some i ↔ same_page a b = true.
Proof.
  intros Hok. destruct (zones_shape s Hok) as (d & n & h & E & _ & _ & _ & Hdn & _ & _ & _ & Hap).
  unfold frame_index, same_page. rewrite E, bool_decide_eq_true. unfold PAGESZ in *.
  repeat case_bool_decide; intros Hi; split; intros Heq; simplify_eq; 
    try (exfalso; Z.div_mod_to_equations; lia); try apply (f_equal Some); Z.div_mod_to_equations; lia.
Qed.
(** Only the counter of zone [z] and page [i] differ. *)
Lemma frame_index_change s z i g' k b : pmem_ok s → z = 0 ∨ z = 1 →
  frame_index (pput i g' (zset z (set_free k) s)) b = frame_index s b.
Proof.
  intros Hok Hz. destruct (zones_shape s Hok) as (d & n & h & E & _). unfold frame_index. simpl. rewrite E.
  by destruct Hz as [-> | ->].
Qed.
Lemma frame_in_index s a z v i g : pmem_ok s → frame_in s a z v i g → frame_index s a = Some i.
Proof.
  intros Hok [Hz Hva Hz01 Ha -> Hr Hg].
  destruct (zones_shape s Hok) as (d & n & h & E & Hd & _ & Hds & Hdn & Hn & _ & Hns & _).
  unfold frame_index. rewrite E. unfold PAGESZ in *. destruct Hz01 as [-> | ->].
  - assert (v = d) as -> by (by eapply zone_in_det). rewrite bool_decide_true by lia.
    by rewrite Hds, Z.sub_0_r.
  - assert (v = n) as -> by (by eapply zone_in_det). rewrite bool_decide_false by lia.
    rewrite bool_decide_true by lia. by rewrite Hns.
Qed.
Lemma refs_change s a z v i g g' k b : pmem_ok s → frame_in s a z v i g →
  refs (pput i g' (zset z (set_free k) s)) b = if same_page a b then ref_count g' else refs s b.
Proof.
  intros Hok Hf. pose proof (frame_in_index _ _ _ _ _ _ Hok Hf) as Hi.
  pose proof (frame_index_same s a b i Hok Hi) as Hsame. unfold refs.
  rewrite frame_index_change; [|done|apply Hf]. destruct (same_page a b).
  - destruct Hsame as [_ ->]; [|done]. simpl. destruct (fi_page _ _ _ _ _ _ Hf) as [_ Hg].
    rewrite list_lookup_insert_eq; [done|]. by eapply lookup_lt_Some.
  - destruct (frame_index s b) as [j|] eqn:Ej; [|done]. simpl. rewrite list_lookup_insert_ne; [done|].
    destruct (fi_page _ _ _ _ _ _ Hf) as [? _]. intros Hij.
    assert (0 ≤ j); [|assert (i = j) as -> by lia; by destruct Hsame as [Hs _]; specialize (Hs eq_refl)].
    destruct (zones_shape s Hok) as (d & n & h & E & Hd & Hdv & _ & _ & Hn & Hnv & _ & _).
    destruct (po_wf _ Hok _ _ Hd Hdv) as [_ []], (po_wf _ Hok _ _ Hn Hnv) as [_ []].
    unfold frame_index in Ej. rewrite E in Ej. unfold PAGESZ in *. repeat case_bool_decide; simplify_eq; Z.div_mod_to_equations; lia.
Qed.

(** ** Locked sections *)

Definition zput (z : Z) (w : zone) (s : pmem) : pmem := {| s with zones := <[Z.to_nat z := w]> (zones s) |}.
Lemma zset_zput z f v s : zone_in s z v → zset z f s = zput z (f v) s.
Proof.
  intros [? Hv]. unfold zput, zset. destruct s as [zs ps]; simpl in *. f_equal.
  pose proof (lookup_lt_Some _ _ _ Hv).
  apply list_eq. intros j. destruct (decide (Z.to_nat z = j)) as [<-|?].
  - by rewrite list_lookup_alter_eq, Hv, list_lookup_insert_eq.
  - by rewrite list_lookup_alter_ne, list_lookup_insert_ne.
Qed.
Lemma zone_in_zput s z v w : zone_in s z v → zone_in (zput z w s) z w.
Proof. intros [? Hv]. split; [done|]. simpl. apply list_lookup_insert_eq. by eapply lookup_lt_Some. Qed.
Lemma zput_zput z w w' s : zput z w (zput z w' s) = zput z w s.
Proof. unfold zput. simpl. by rewrite list_insert_insert_eq. Qed.
Lemma zput_id z v s : zone_in s z v → zput z v s = s.
Proof. intros [_ Hv]. unfold zput. destruct s; simpl in *. f_equal. by apply list_insert_id. Qed.
Lemma zput_pput z w i g s : zput z w (pput i g s) = pput i g (zput z w s).
Proof. done. Qed.
Lemma unlock_zput z v w s : zone_in s z v → z_lock v = false →
  w = zlock true v → zput z (zlock false w) s = s.
Proof. intros Hv Hl ->. rewrite <- (zput_id z v s Hv) at 2. f_equal. destruct v; simpl in *; by subst. Qed.

Lemma wp_get_mmzone s a z v i g (Q : option Z → pmem → Prop) :
  pmem_ok s → frame_in s a z v i g → (PAGESZ | a) → Q (Some z) (zput z (zlock true v) s) → wp (get_mmzone a PAGESZ) Q s.
Proof.
  intros Hok Hf Ha HQ. pose proof (fi_zone _ _ _ _ _ _ Hf) as Hv. rewrite <- (zset_zput _ _ _ _ Hv) in HQ.
  destruct (zones_shape s Hok) as (d & n & h & E & Hd & Hdv & Hds & Hdn & Hn & Hnv & Hns & _).
  pose proof (po_wf _ Hok _ _ Hv (fi_valid _ _ _ _ _ _ Hf)) as [_ [_ _ _ _ Hle _ _]].
  pose proof (fi_addr _ _ _ _ _ _ Hf). destruct Ha as [q ->].
  assert (MMAP_DEVADDR + PAGESZ < 2 ^ 32) by done. assert (0 < PAGESZ) by done.
  assert (0x1000000 = 4096 * PAGESZ) as H16 by done.
  assert (MMAP_DEVADDR = 0xFE000 * PAGESZ) as Hdev by done.
  assert (valid (zlock true v)) as Hvl by apply Hf. pose proof (po_lock _ Hok _ _ Hv) as Hlk.
  unfold get_mmzone. apply wp_bind. eapply wp_zone_at; [done|]. apply wp_bind. eapply wp_zone_at; [done|].
  assert (q < 0xFE000) by nia.
  rewrite !(u32_small (PAGESZ - 1)) by done. rewrite (u32_small (q * PAGESZ + _)) by (destruct (fi_z _ _ _ _ _ _ Hf) as [-> | ->]; [assert (v = d) as -> by (by eapply zone_in_det)|assert (v = n) as -> by (by eapply zone_in_det)]; nia).
  assert (0 ≤ nrpages n * PAGESZ) by (destruct (po_wf _ Hok _ _ Hn Hnv) as [_ []]; nia).
  rewrite (u32_small (z_start n + _)) by (destruct (po_wf _ Hok _ _ Hn Hnv) as [_ []]; lia).
  destruct (fi_z _ _ _ _ _ _ Hf) as [-> | ->].
  - assert (v = d) as -> by (by eapply zone_in_det). rewrite bool_decide_true by nia.
    apply wp_bind. eapply wp_mm_zone_lock; [done..|]. apply wp_bind.
    eapply wp_mm_zone_isvalid; [by apply zone_in_zset|done|]. rewrite bool_decide_true by done. by apply wp_ret.
  - assert (v = n) as -> by (by eapply zone_in_det). rewrite bool_decide_false by nia. rewrite bool_decide_true by nia.
    apply wp_bind. eapply wp_mm_zone_lock; [done..|]. apply wp_bind.
    eapply wp_mm_zone_isvalid; [by apply zone_in_zset|done|]. rewrite bool_decide_true by done. by apply wp_ret.
Qed.
Lemma wp_get_mmzone_none s a (Q : option Z → pmem → Prop) :
  pmem_ok s → norm_end s ≤ a → a ≤ 2 ^ 32 - PAGESZ → Q None s → wp (get_mmzone a PAGESZ) Q s.
Proof.
  intros Hok Ha Ha2 HQ. destruct (zones_shape s Hok) as (d & n & h & E & Hd & Hdv & Hds & Hdn & Hn & Hnv & Hns & _).
  assert (norm_end s = 0x1000000 + nrpages n * PAGESZ) as He by (unfold norm_end; by rewrite E).
  destruct (po_wf _ Hok _ _ Hn Hnv) as [_ []]. assert (MMAP_DEVADDR < 2 ^ 32) by done.
  unfold get_mmzone. apply wp_bind. eapply wp_zone_at; [done|]. apply wp_bind. eapply wp_zone_at; [done|].
  rewrite (u32_small (PAGESZ - 1)) by done. assert (0 < PAGESZ) by done.
  rewrite (u32_small (a + _)) by lia. rewrite (u32_small (z_start n + _)) by lia.
  rewrite !bool_decide_false by lia. by apply wp_ret.
Qed.

Lemma frame_offset s a z v i g : pmem_ok s → frame_in s a z v i g → z_pages v + u32 (a - z_start v) / PAGESZ = i.
Proof.
  intros Hok Hf. pose proof (po_wf _ Hok _ _ (fi_zone _ _ _ _ _ _ Hf) (fi_valid _ _ _ _ _ _ Hf)) as [_ []].
  assert (MMAP_DEVADDR < 2 ^ 32) by done. pose proof (fi_addr _ _ _ _ _ _ Hf).
  rewrite u32_small by lia. symmetry. by apply Hf.
Qed.
Lemma page_in_zput s z w i g : page_in (zput z w s) i g ↔ page_in s i g.
Proof. done. Qed.

(** What one round of [__pages_put] makes of a page. *)
Definition put_page (g : page) : page :=
  if bool_decide (ref_count g = 0) then g
  else if bool_decide (ref_count g = 1) then page_clear {| g with ref_count := 0 |}
  else {| g with ref_count := ref_count g - 1 |}.
Lemma ref_put_page g : 0 ≤ ref_count g → ref_count (put_page g) = Z.max 0 (ref_count g - 1).
Proof. intros. unfold put_page. repeat case_bool_decide; simpl; lia. Qed.
Lemma zone_put_page g : ref_count (put_page g) ≠ 0 → page_zone (put_page g) = page_zone g.
Proof. unfold put_page. repeat case_bool_decide; simpl; done. Qed.
Lemma free_put_page g : 0 ≤ ref_count g →
  is_free (put_page g) - is_free g = if bool_decide (ref_count g = 1) then 1 else 0.
Proof. intros. unfold put_page, is_free. repeat (case_bool_decide; simpl in *); simplify_eq; lia. Qed.
Lemma zone_free_bound s z v : pmem_ok s → zone_in s z v → valid v → 0 ≤ free_pages v ≤ nrpages v.
Proof.
  intros Hok Hv Hva. destruct (po_wf _ Hok _ _ Hv Hva) as [_ [? ? ? _ _ Hfr _]]. rewrite Hfr. unfold free_count.
  pose proof (length_filter (λ g, ref_count g = 0) (take (Z.to_nat (nrpages v)) (drop (Z.to_nat (z_pages v)) (pages s)))) as Hl.
  rewrite length_take in Hl. lia.
Qed.

Lemma wp_put_page s z v i g (Q : unit → pmem → Prop) :
  zone_in s z v → page_in s i g → 0 ≤ ref_count g < 2 ^ 32 → 0 ≤ free_pages v < 2 ^ 32 - 1 →
  Q tt (pput i (put_page g) (zput z (set_free (free_pages v + (if bool_decide (ref_count g = 1) then 1 else 0)) v) s)) →
  wp (put_pages 1 z i) Q s.
Proof.
  intros Hv Hg Hr Hf HQ. simpl. apply wp_bind. eapply wp_page_at; [done|].
  apply wp_bind. unfold put_page in HQ. case_bool_decide as H0.
  - rewrite bool_decide_false in HQ by lia. rewrite Z.add_0_r in HQ. apply wp_ret, wp_ret.
    assert (set_free (free_pages v) v = v) as E by (by destruct v). rewrite E, zput_id in HQ by done.
    replace (pput i g s) with s in HQ; [done|]. destruct Hg as [_ Hg]. unfold pput. destruct s; simpl in *.
    f_equal. symmetry. by apply list_insert_id.
  - apply wp_bind. eapply wp_page_upd; [done|]. rewrite (pset_pput _ _ g) by done. simpl.
    rewrite u32_small by lia. apply wp_bind. eapply wp_page_at; [by eapply page_in_pput|]. simpl.
    destruct (decide (ref_count g = 1)); [rewrite bool_decide_true in HQ by lia|rewrite bool_decide_false in HQ by lia].
    all: first [rewrite bool_decide_true by lia | rewrite bool_decide_false by lia].
    + replace (ref_count g - 1) with 0 by lia.
      apply wp_bind. eapply wp_page_upd; [by eapply page_in_pput|].
      rewrite (pset_pput _ _ {| g with ref_count := 0 |}) by (by eapply page_in_pput).
      rewrite pput_pput. eapply wp_zone_upd; [done|].
      rewrite (zset_zput _ _ v) by done. apply wp_ret. rewrite zput_pput.
      rewrite u32_small by lia. done.
    + apply wp_ret, wp_ret. rewrite Z.add_0_r in HQ.
      assert (set_free (free_pages v) v = v) as E by (by destruct v). by rewrite E, zput_id in HQ by done.
Qed.

Lemma norm_end_change s z i g k : pmem_ok s → norm_end (pput i g (zset z (set_free k) s)) = norm_end s.
Proof.
  intros Hok. unfold norm_end. simpl. rewrite list_lookup_alter. case_decide as Hz; [|done]. rewrite Hz.
  by destruct (zones s !! 1%nat).
Qed.

(** Freeing one frame. *)
Lemma wp_mm_free s a z v i g (Q : unit → pmem → Prop) :
  pmem_ok s → frame_in s a z v i g → (PAGESZ | a) → a ≠ 0 →
  (∀ s', pmem_ok s' → (∀ b, refs s' b = if same_page a b then Z.max 0 (refs s a - 1) else refs s b) →
    norm_end s' = norm_end s → Q tt s') →
  wp (mm_free a) Q s.
Proof.
  intros Hok Hf Ha Hnz HQ. pose proof (fi_zone _ _ _ _ _ _ Hf) as Hv. pose proof (fi_page _ _ _ _ _ _ Hf) as Hg.
  pose proof (po_refs _ Hok _ _ Hg) as Hr. pose proof (zone_free_bound _ _ _ Hok Hv (fi_valid _ _ _ _ _ _ Hf)) as Hfb.
  pose proof (po_wf _ Hok _ _ Hv (fi_valid _ _ _ _ _ _ Hf)) as [_ [? ? ? ? ? _ _]].
  assert (nrpages v < 2 ^ 32 - 1) by (assert (MMAP_DEVADDR < 2 ^ 32 - PAGESZ) by done; unfold PAGESZ in *; lia).
  unfold mm_free, page_put_at, pages_put_at. rewrite bool_decide_false by done.
  change (u32 (Z.shiftl 1 0)) with 1. change (u32 (1 * PAGESZ)) with PAGESZ.
  apply wp_bind. eapply wp_get_mmzone; [done..|]. apply wp_bind. eapply wp_zone_at; [by eapply zone_in_zput|].
  simpl z_pages. simpl z_start. rewrite (frame_offset _ _ _ _ _ _ Hok Hf). change (Z.to_nat 1) with 1%nat.
  apply wp_bind. eapply wp_put_page; [by eapply zone_in_zput|done|lia|simpl; lia|]. simpl free_pages.
  rewrite zput_zput. set (k := free_pages v + _).
  assert (zlock false (set_free k (zlock true v)) = set_free k v) as Hw
    by (pose proof (po_lock _ Hok _ _ Hv); destruct v; simpl in *; by subst).
  eapply wp_mm_zone_unlock; [by apply (zone_in_zput s z v)|done|].
  rewrite (zset_zput _ _ (set_free k (zlock true v))) by (by apply (zone_in_zput s z v)).
  rewrite zput_pput, zput_zput, Hw, <- (zset_zput _ _ v) by done.
  assert (k = free_pages v + is_free (put_page g) - is_free g) as Hk
    by (pose proof (free_put_page g); unfold k; lia).
  apply HQ.
  - rewrite Hk. apply (pmem_ok_change s z v i g); try done; try apply Hf.
    + rewrite ref_put_page by lia. lia.
    + intros Hnz'. rewrite zone_put_page by done.
      eapply (zw_zone _ _ _ (proj2 (po_wf _ Hok _ _ Hv (fi_valid _ _ _ _ _ _ Hf)))); [apply Hf|done|].
      rewrite ref_put_page in Hnz' by lia. lia.
  - intros b. rewrite (refs_change s a z v i g) by done. rewrite ref_put_page by lia.
    by rewrite <- (refs_frame s a z v i g) by done.
  - by apply norm_end_change.
Qed.

(** ** Allocating one page *)

(** All pages [lo, hi) of the zone at [first] are in use. *)
Definition in_use (s : pmem) (first lo hi : Z) : Prop :=
  ∀ j g, lo ≤ j < hi → page_in s (first + j) g → ref_count g ≠ 0.

Lemma wp_scan_one s n first index (Q : option Z * Z → pmem → Prop) :
  (∀ j, index ≤ j < index + Z.of_nat n → ∃ g, page_in s (first + j) g) →
  (in_use s first index (index + Z.of_nat n) → Q (None, 0) s) →
  (∀ i g, index ≤ i < index + Z.of_nat n → page_in s (first + i) g → ref_count g = 0 →
     in_use s first index i → Q (Some i, 1) s) →
  wp (scan_pages n first index 0 1) Q s.
Proof.
  revert index. induction n as [|n IH]; intros index Hpg HN HS; simpl.
  - apply wp_ret, HN. intros j g Hj. lia.
  - destruct (Hpg index) as [g Hg]; [lia|]. apply wp_bind. eapply wp_page_at; [done|].
    assert (∀ k, in_use s first (index + 1) k → ref_count g ≠ 0 → in_use s first index k) as Hstep.
    { intros k Hu Hne j h Hj Hh. destruct (decide (j = index)) as [->|].
      - by rewrite (page_in_det _ _ _ _ Hh Hg).
      - apply (Hu j h); [lia|done]. }
    case_bool_decide as Hr.
    + apply IH.
      * intros j Hj. apply Hpg. lia.
      * intros Hu. apply HN. apply Hstep; [|done]. by replace (index + Z.of_nat (S n)) with (index + 1 + Z.of_nat n) by lia.
      * intros i h Hi Hh Hf Hu. apply (HS i h); [lia|done..|]. by apply Hstep.
    + apply wp_ret.
      apply (HS index g); [lia|done..|]. intros j h Hj. lia.
Qed.

Definition take_page (z : Z) (g : page) : page :=
  let g := set_page_zone z g in {| g with ref_count := ref_count g + 1 |}.
Lemma page_zone_set z g : 0 ≤ z < 4 → page_zone (set_page_zone z g) = z.
Proof.
  intros Hz. unfold page_zone. simpl. rewrite Z.shiftr_lor, Z.shiftr_ldiff, !Z.shiftr_shiftl_l by lia.
  change (10 - 10) with 0. rewrite !Z.shiftl_0_r. change 3 with (Z.ones 2).
  apply Z.bits_inj'. intros n Hn. rewrite Z.land_spec, Z.lor_spec, Z.ldiff_spec, Z.land_spec.
  destruct (decide (n < 2)).
  - rewrite !Z.ones_spec_low by lia. simpl. by rewrite !andb_true_r, andb_false_r.
  - rewrite !Z.ones_spec_high by lia. rewrite andb_false_r. symmetry.
    rewrite <- (Z.mod_small z (2 ^ 2)) by (change (2 ^ 2) with 4; lia). apply Z.mod_pow2_bits_high. lia.
Qed.

(** The page a request for one page of zone [z] gets, and the state then. *)
Definition taken (s : pmem) (z : Z) (v : zone) (i : Z) (g : page) : pmem :=
  pput (z_pages v + i) (take_page z g) (zset z (set_free (free_pages v - 1)) s).

Lemma zone_nr_bound s z v : pmem_ok s → zone_in s z v → valid v → nrpages v < 2 ^ 32 - 1.
Proof.
  intros Hok Hv Hva. destruct (po_wf _ Hok _ _ Hv Hva) as [_ [? ? ? ? ? _ _]].
  assert (MMAP_DEVADDR < 2 ^ 32 - PAGESZ) by done. unfold PAGESZ in *. lia.
Qed.
Lemma free_pos s z v i g : pmem_ok s → zone_in s z v → valid v → 0 ≤ i < nrpages v →
  page_in s (z_pages v + i) g → ref_count g = 0 → 1 ≤ free_pages v.
Proof.
  intros Hok Hv Hva Hi [_ Hg] Hr. destruct (po_wf _ Hok _ _ Hv Hva) as [_ [? ? ? _ _ Hfr _]]. rewrite Hfr.
  unfold free_count. assert (g ∈ filter (λ g, ref_count g = 0) (take (Z.to_nat (nrpages v)) (drop (Z.to_nat (z_pages v)) (pages s)))) as Hin.
  { apply list_elem_of_filter. split; [done|]. apply list_elem_of_lookup. exists (Z.to_nat i).
    rewrite lookup_take_lt, lookup_drop by lia. rewrite <- Hg. f_equal. lia. }
  destruct (filter _ _); [by apply elem_of_nil in Hin|]. simpl. lia.
Qed.

Section alloc.
Context {T : Type} `{!Holds T pmem} (zero : Z → M T unit).

Lemma wp_alloc_page fuel gfp z v t (Q : option Z → T → Prop) :
  pmem_ok (part t) → gfp_zone gfp = z → zone_in (part t) z v → valid v → Z.land gfp GFP_ZERO = 0 →
  (∀ i g, 0 ≤ i < nrpages v → page_in (part t) (z_pages v + i) g → ref_count g = 0 →
     in_use (part t) (z_pages v) 0 i → Q (Some (z_pages v + i)) (set_part (taken (part t) z v i g) t)) →
  (in_use (part t) (z_pages v) 0 (nrpages v) →
     Z.land gfp GFP_WAIT = 0 ∧ Z.land gfp GFP_RETRY = 0 ∧ Q None t) →
  wp (alloc_pages_with zero (S fuel) gfp 0) Q t.
Proof.
  intros Hok Hz Hv Hva Hzero HS HN. destruct (po_wf _ Hok _ _ Hv Hva) as [Hz1 Hwf].
  pose proof (po_lock _ Hok _ _ Hv) as Hlk. pose proof Hv as [Hz0 _].
  assert (Hv' : zone_in (zput z (zlock true v) (part t)) z (zlock true v)) by (by eapply zone_in_zput).
  unfold alloc_pages_with. rewrite Hz. change (u32 (Z.shiftl 1 0)) with 1.
  apply wp_bind, wp_on. eapply wp_mm_zone_get; [done|lia|done..|]. rewrite (zset_zput _ _ v) by done.
  apply wp_bind, wp_on. rewrite part_set. unfold find_pages; fold find_pages.
  apply wp_bind. eapply wp_zone_at; [done|]. apply wp_bind. simpl nrpages. simpl z_pages.
  apply wp_scan_one.
  - intros j Hj. destruct Hwf. by apply (zone_page_in (part t) z v); try lia.
  - intros Hu. destruct HN as (Hw & Hre & HQ).
    { intros j g Hj. apply Hu. destruct Hwf. lia. }
    rewrite bool_decide_true by done. apply wp_ret. rewrite set_part_set.
    apply wp_bind, wp_on. rewrite part_set. eapply wp_mm_zone_unlock; [done..|].
    rewrite (zset_zput _ _ (zlock true v)) by done. rewrite zput_zput, (unlock_zput z v) by done.
    rewrite set_part_set, set_part_part. by apply wp_ret.
  - intros i g Hi' Hg Hr Hu. assert (Hi : 0 ≤ i < nrpages v) by (destruct Hwf; lia). clear Hi'.
    apply wp_ret. rewrite set_part_set.
    apply wp_bind, wp_on. rewrite part_set. eapply wp_zone_at; [done|]. rewrite set_part_set.
    simpl z_pages. simpl z_start. apply wp_bind, wp_on. rewrite part_set. change (Z.to_nat 1) with 1%nat. simpl take_pages.
    apply wp_bind. eapply wp_page_upd; [done|]. rewrite (pset_pput _ _ g) by done.
    apply wp_bind. eapply wp_page_upd; [by eapply page_in_pput|].
    rewrite (pset_pput _ _ (set_page_zone z g)) by (by eapply page_in_pput). rewrite pput_pput.
    apply wp_bind. eapply wp_zone_upd; [done|]. apply wp_ret.
    rewrite (zset_zput _ _ (zlock true v)) by done. rewrite zput_pput, zput_zput, set_part_set.
    rewrite bool_decide_false by tauto. apply wp_bind, wp_ret. apply wp_bind, wp_on. rewrite part_set.
    eapply wp_mm_zone_unlock; [by eapply (zone_in_zput _ _ v)|done|].
    erewrite zset_zput by (by eapply (zone_in_zput _ _ v)). rewrite zput_pput, zput_zput, set_part_set.
    apply wp_ret. pose proof (free_pos _ _ _ _ _ Hok Hv Hva Hi Hg Hr). pose proof (zone_free_bound _ _ _ Hok Hv Hva).
    pose proof (zone_nr_bound _ _ _ Hok Hv Hva).
    simpl. rewrite (u32_small (free_pages v - 1)) by lia. rewrite u32_small by lia.
    match goal with |- Q _ (set_part (pput _ _ (zput _ ?w _)) _) => assert (w = set_free (free_pages v - 1) v) as -> end.
    { destruct v; simpl in *; by subst. }
    rewrite <- (zset_zput _ _ v) by done. by apply HS.
Qed.
End alloc.

Lemma taken_ok s z v i g : pmem_ok s → zone_in s z v → valid v → 0 ≤ i < nrpages v →
  page_in s (z_pages v + i) g → ref_count g = 0 → pmem_ok (taken s z v i g).
Proof.
  intros Hok Hv Hva Hi Hg Hr. pose proof (po_wf _ Hok _ _ Hv Hva) as [? _]. pose proof Hv as [? _].
  unfold taken. replace (free_pages v - 1) with (free_pages v + is_free (take_page z g) - is_free g).
  - apply pmem_ok_change; try done; [lia|..]; simpl; [lia|]. intros _. apply (page_zone_set z g). lia.
  - unfold is_free. simpl. rewrite Hr. simpl. lia.
Qed.
Lemma wp_page_address s z v i g (Q : Z → pmem → Prop) :
  pmem_ok s → zone_in s z v → valid v → 0 ≤ i < nrpages v → page_in s (z_pages v + i) g → page_zone g = z →
  Q (z_start v + i * PAGESZ) s → wp (page_address (Some (z_pages v + i))) Q s.
Proof.
  intros Hok Hv Hva Hi Hg Hz HQ. pose proof (po_wf _ Hok _ _ Hv Hva) as [? [? ? ? ? ? _ _]].
  pose proof (po_lock _ Hok _ _ Hv). assert (MMAP_DEVADDR < 2 ^ 32) by done. assert (0 < PAGESZ) by done.
  unfold page_address. apply wp_bind. eapply wp_page_at; [done|]. rewrite Hz.
  apply wp_bind. eapply wp_mm_zone_get; [done|lia|done..|]. rewrite (zset_zput _ _ v) by done.
  apply wp_bind. eapply wp_zone_at; [by eapply zone_in_zput|]. simpl.
  rewrite bool_decide_false by lia. apply wp_bind. eapply wp_mm_zone_unlock; [by eapply zone_in_zput|done|].
  erewrite zset_zput by (by eapply zone_in_zput). rewrite zput_zput, (unlock_zput z v) by done.
  apply wp_ret. replace (z_pages v + i - z_pages v) with i by lia. rewrite u32_small by nia. done.
Qed.

Lemma norm_frame s v i g : pmem_ok s → zone_in s MM_ZONE_NORM v → 0 ≤ i < nrpages v →
  page_in s (z_pages v + i) g → frame_in s (0x1000000 + i * PAGESZ) MM_ZONE_NORM v (z_pages v + i) g.
Proof.
  intros Hok Hv Hi Hg. destruct (zones_shape s Hok) as (d & n & h & E & _ & _ & _ & _ & Hn & Hnv & Hns & _).
  assert (v = n) as -> by (by eapply zone_in_det). split; try done; unfold PAGESZ in *; [by right|lia| |lia].
  rewrite Hns. apply (f_equal (Z.add _)). Z.div_mod_to_equations; lia.
Qed.
Lemma norm_end_zone s v : zone_in s MM_ZONE_NORM v → norm_end s = 0x1000000 + nrpages v * PAGESZ.
Proof. intros [_ Hv]. unfold norm_end. change 1%nat with (Z.to_nat MM_ZONE_NORM). by rewrite Hv. Qed.
Lemma norm_in_use s v i b : pmem_ok s → zone_in s MM_ZONE_NORM v → 0 ≤ i ≤ nrpages v → in_use s (z_pages v) 0 i →
  0x1000000 ≤ b < 0x1000000 + i * PAGESZ → refs s b ≠ 0.
Proof.
  intros Hok Hv Hi Hu Hb. destruct (zones_shape s Hok) as (d & n & h & E & _ & _ & _ & _ & Hn & Hnv & Hns & _).
  assert (v = n) as -> by (by eapply zone_in_det). unfold PAGESZ in *.
  assert (0 ≤ (b - 0x1000000) / 0x1000 < i) by (Z.div_mod_to_equations; lia).
  destruct (zone_page_in s _ n ((b - 0x1000000) / 0x1000) Hok Hn Hnv) as [g Hg]; [lia|].
  rewrite (refs_frame s b MM_ZONE_NORM n (z_pages n + (b - 0x1000000) / 0x1000) g Hok); [by apply (Hu _ _ H Hg)|].
  split; try done; unfold PAGESZ; [by right|lia|by rewrite Hns|lia].
Qed.

(** Allocating a frame, by the reference counts. *)
Lemma wp_mm_alloc s (Q : Z → pmem → Prop) :
  pmem_ok s →
  ((∀ b, 0x1000000 ≤ b < norm_end s → refs s b ≠ 0) → Q 0 s) →
  (∀ a s', 0x1000000 ≤ a < norm_end s → (PAGESZ | a) → refs s a = 0 →
     (∀ b, 0x1000000 ≤ b < a → refs s b ≠ 0) →
     pmem_ok s' → (∀ b, refs s' b = if same_page a b then 1 else refs s b) → norm_end s' = norm_end s → Q a s') →
  wp mm_alloc Q s.
Proof.
  intros Hok HN HS. destruct (zones_shape s Hok) as (d & n & h & E & _ & _ & _ & _ & Hn & Hnv & Hns & _).
  pose proof (norm_end_zone _ _ Hn) as He. unfold mm_alloc. apply wp_bind.
  apply (wp_alloc_page (T := pmem) _ 0 GFP_NORMAL MM_ZONE_NORM n); try done.
  - intros i g Hi Hg Hr Hu. simpl in *. pose proof (norm_frame s n i g Hok Hn Hi Hg) as Hf.
    pose proof (taken_ok s _ n i g Hok Hn Hnv Hi Hg Hr) as Hok'.
    eapply (wp_page_address _ MM_ZONE_NORM (set_free (free_pages n - 1) n) i).
    + done.
    + by apply zone_in_zset.
    + done.
    + done.
    + by eapply page_in_pput.
    + by apply (page_zone_set MM_ZONE_NORM).
    + simpl. rewrite Hns. assert (0 < PAGESZ) by done. apply HS; try done.
      * rewrite He. nia.
      * exists (4096 + i). unfold PAGESZ. lia.
      * by rewrite (refs_frame _ _ _ _ _ _ Hok Hf).
      * intros b Hb. apply (norm_in_use s n i); try done. lia.
      * intros b. unfold taken. rewrite (refs_change s _ _ _ _ g) by done. simpl. by rewrite Hr.
      * by apply norm_end_change.
  - intros Hu. split; [done|]. split; [done|]. apply wp_ret, HN. intros b Hb. apply (norm_in_use s n (nrpages n)); try done.
    + destruct (po_wf _ Hok _ _ Hn Hnv) as [_ []]. lia.
    + by rewrite <- He.
Qed.

(** ** Counting references *)

Lemma wp_page_incr_at s a z v i g (Q : Z → pmem → Prop) :
  pmem_ok s → frame_in s a z v i g → (PAGESZ | a) → a ≠ 0 → 0 < refs s a < 2 ^ 32 - 1 →
  (∀ s', pmem_ok s' → (∀ b, refs s' b = if same_page a b then refs s a + 1 else refs s b) →
    norm_end s' = norm_end s → Q (i32 (refs s a)) s') →
  wp (page_incr_at a) Q s.
Proof.
  intros Hok Hf Ha Hnz Hr HQ. pose proof (fi_zone _ _ _ _ _ _ Hf) as Hv. pose proof (fi_page _ _ _ _ _ _ Hf) as Hg.
  rewrite (refs_frame _ _ _ _ _ _ Hok Hf) in Hr, HQ. pose proof (po_lock _ Hok _ _ Hv) as Hlk.
  unfold page_incr_at. rewrite bool_decide_false by done.
  apply wp_bind. eapply wp_get_mmzone; [done..|]. apply wp_bind. eapply wp_zone_at; [by eapply zone_in_zput|].
  simpl z_pages. simpl z_start. rewrite (frame_offset _ _ _ _ _ _ Hok Hf).
  apply wp_bind. eapply wp_page_at; [done|]. apply wp_bind. eapply wp_page_upd; [done|].
  rewrite (pset_pput _ _ g) by done. simpl. rewrite u32_small by lia.
  apply wp_bind. eapply wp_mm_zone_unlock; [by eapply (zone_in_zput s z v)|done|].
  erewrite zset_zput by (by eapply (zone_in_zput s z v)). rewrite zput_pput, zput_zput. apply wp_ret.
  set (g' := {| g with ref_count := ref_count g + 1 |}).
  assert (zput z (zlock false (zlock true v)) s = zset z (set_free (free_pages v + is_free g' - is_free g)) s) as ->.
  { rewrite (zset_zput _ _ v) by done. f_equal. unfold is_free. simpl. rewrite !bool_decide_false by lia.
    replace (free_pages v + 0 - 0) with (free_pages v) by lia. destruct v; simpl in *; by subst. }
  apply HQ.
  - apply pmem_ok_change; try done; [apply Hf..|simpl; lia|]. intros _. change (page_zone g') with (page_zone g).
    eapply (zw_zone _ _ _ (proj2 (po_wf _ Hok _ _ Hv (fi_valid _ _ _ _ _ _ Hf)))); [apply Hf|done|lia].
  - intros b. by rewrite (refs_change s a z v i g) by done.
  - by apply norm_end_change.
Qed.
Lemma wp_page_count_at s a z v i g (Q : Z → pmem → Prop) :
  pmem_ok s → frame_in s a z v i g → (PAGESZ | a) → a ≠ 0 → Q (i32 (refs s a)) s → wp (page_count_at a) Q s.
Proof.
  intros Hok Hf Ha Hnz HQ. pose proof (fi_zone _ _ _ _ _ _ Hf) as Hv. pose proof (fi_page _ _ _ _ _ _ Hf) as Hg.
  rewrite (refs_frame _ _ _ _ _ _ Hok Hf) in HQ. pose proof (po_lock _ Hok _ _ Hv) as Hlk.
  unfold page_count_at. rewrite bool_decide_false by done.
  apply wp_bind. eapply wp_get_mmzone; [done..|]. apply wp_bind. eapply wp_zone_at; [by eapply zone_in_zput|].
  simpl z_pages. simpl z_start. rewrite (frame_offset _ _ _ _ _ _ Hok Hf).
  apply wp_bind. eapply wp_page_at; [done|].
  apply wp_bind. eapply wp_mm_zone_unlock; [by eapply (zone_in_zput s z v)|done|].
  erewrite zset_zput by (by eapply (zone_in_zput s z v)). rewrite zput_zput, (unlock_zput z v) by done. by apply wp_ret.
Qed.
