(* ===== verification/ZoneSpec.v ===== *)
(** * Zones: what allocation and release of page frames do

    The theorems about the page allocator: a frame is taken and given back as
    intended, the zones set up at boot satisfy the invariant, and what becomes of a
    request that waits or that asks for more than one page. *)
From S2P Require Import Prelude Zone ZoneInv.

(** ** Boot *)

Lemma filter_replicate {A} (P : A → Prop) `{!∀ x, Decision (P x)} x k : P x → filter P (replicate k x) = replicate k x.
Proof. intros Hx. induction k as [|k IH]; simpl; [done|]. by rewrite filter_cons_True, IH. Qed.
Lemma free_count_replicate zs g k a n : ref_count g = 0 → 0 ≤ a → 0 ≤ n → a + n ≤ Z.of_nat k →
  free_count (Pmem zs (replicate k g)) a n = n.
Proof.
  intros Hg Ha Hn Hk. unfold free_count. simpl. rewrite drop_replicate, take_replicate.
  rewrite filter_replicate by done. rewrite length_replicate. lia.
Qed.
Definition zone_new (start first n : Z) : zone := MmZone start MM_ZONE_VALID first n n false.
(** Zones whose pages are all free. *)
Lemma fresh_ok n : 0 ≤ n → 0x1000000 + n * PAGESZ ≤ MMAP_DEVADDR →
  pmem_ok (Pmem [zone_new 0 0 4096; zone_new 0x1000000 4096 n; zone_static] (replicate (Z.to_nat (4096 + n)) page_zero)).
Proof.
  intros Hn Hle. set (s := Pmem _ _).
  assert (Hz : ∀ z v, zone_in s z v → z = 0 ∧ v = zone_new 0 0 4096 ∨ z = 1 ∧ v = zone_new 0x1000000 4096 n ∨ z = 2 ∧ v = zone_static).
  { intros z v [Hz Hv]. destruct (decide (z = 0)) as [->|]; [by simplify_eq/=; auto|].
    destruct (decide (z = 1)) as [->|]; [by simplify_eq/=; auto|].
    destruct (decide (z = 2)) as [->|]; [by simplify_eq/=; auto|].
    apply lookup_lt_Some in Hv. simpl in Hv. lia. }
  assert (Hg : ∀ i g, page_in s i g → g = page_zero) by (intros i g [_ Hg]; by apply lookup_replicate in Hg as [-> _]).
  split.
  - done.
  - intros z v [[-> ->]|[[-> ->]|[-> ->]]]%Hz; done.
  - intros z v [[-> ->]|[[-> ->]|[-> ->]]]%Hz Hv; [..|done].
    + split; [lia|]. split; simpl; try lia; try done.
      * rewrite length_replicate. lia.
      * split; [done|]. by exists 0.
      * symmetry. apply free_count_replicate; (done || lia).
      * intros i g _ ->%Hg. done.
    + split; [lia|]. split; simpl; try lia; try done.
      * rewrite length_replicate. lia.
      * split; [done|]. by exists 0x1000.
      * symmetry. apply free_count_replicate; (done || lia).
      * intros i g _ ->%Hg. done.
  - by exists (zone_new 0 0 4096).
  - by exists (zone_new 0x1000000 4096 n).
  - intros d m [[_ ->]|[[[=] _]|[[=] _]]]%Hz [[[=] _]|[[_ ->]|[[=] _]]]%Hz. simpl. lia.
  - intros i g ->%Hg. simpl. lia.
Qed.
(** The pages of the second zone on a machine with [pmemsize] KiB of memory. *)
Definition norm_pages (pmemsize : Z) : Z :=
  Z.min ((MMAP_DEVADDR - 0x1000000) / 1024) (pmemsize - 16384) * 1024 / PAGESZ.

Lemma wp_enumarate_zones pmemsize (Q : Z → pmem → Prop) : 16384 ≤ pmemsize < 2 ^ 63 →
  Q 0 (Pmem [zone_new 0 0 4096; zone_new 0x1000000 4096 (norm_pages pmemsize); zone_static] []) →
  wp (enumarate_zones pmemsize) Q pmem_static.
Proof.
  intros Hp HQ. unfold enumarate_zones. rewrite bool_decide_false by (Z.div_mod_to_equations; lia).
  apply wp_bind. eapply wp_zone_upd; [by split|]. apply wp_bind. eapply wp_zone_at; [by split|].
  apply wp_bind. eapply wp_zone_upd; [by split|]. apply wp_ret.
  change (0x1000000 / 1024) with 16384. rewrite (Z.mod_small (pmemsize - 16384)) by lia.
  match goal with |- context [u32 ?x / PAGESZ] => replace (u32 x / PAGESZ) with (norm_pages pmemsize) end; [done|].
  unfold norm_pages. f_equal. change ((MMAP_DEVADDR - 0x1000000) / 1024) with 0x3F4000.
  case_bool_decide; [rewrite Z.min_l by lia; done|]. rewrite Z.min_r by lia.
  rewrite (u32_small (pmemsize - 16384)) by lia. rewrite u32_small by lia. done.
Qed.

(** At boot, on a machine with [pmemsize] KiB of memory, at least 16 MiB,
    [enumarate_zones] and [map_zones] build zones that satisfy the invariant: the
    memory they manage starts at 0, ends with the memory of the machine (rounded to
    whole pages) or at the device memory, only page 0 is in use, and the counters of
    free pages are exact. *)
Theorem zones_boot_ok pmemsize : 16384 ≤ pmemsize < 2 ^ 63 →
  ∃ s, (enumarate_zones pmemsize;; clear_pages) pmem_static = Ok (tt, s) ∧ pmem_ok s ∧
    norm_end s = Z.min MMAP_DEVADDR (pmemsize * 1024 / PAGESZ * PAGESZ) ∧
    (∀ a, refs s a = if same_page 0 a then 1 else 0).
Proof.
  intros Hp. assert (Hn : 0 ≤ norm_pages pmemsize ∧ 0x1000000 + norm_pages pmemsize * PAGESZ =
    Z.min MMAP_DEVADDR (pmemsize * 1024 / PAGESZ * PAGESZ)).
  { unfold norm_pages. change ((MMAP_DEVADDR - 0x1000000) / 1024) with 0x3F4000. unfold MMAP_DEVADDR, PAGESZ.
    destruct (Z.min_spec 0x3F4000 (pmemsize - 16384)) as [[? ->]|[? ->]];
    Z.div_mod_to_equations; lia. }
  destruct Hn as [Hn0 Hn]. pose proof (fresh_ok (norm_pages pmemsize) Hn0 ltac:(lia)) as Hok.
  set (s0 := Pmem _ _) in Hok.
  assert (Hg0 : page_in s0 0 page_zero) by (split; [done|]; simpl; apply lookup_replicate; split; [done|lia]).
  enough (wp (enumarate_zones pmemsize;; clear_pages) (λ _ s, s = pput 0 (set_page_zone 0 {| page_zero with ref_count := 1 |})
    (zset 0 (set_free 4095) s0)) pmem_static) as ([] & s & Hs & ->)%wp_exec.
  - eexists. split; [done|]. split; [|split].
    + by apply (pmem_ok_change s0 0 (zone_new 0 0 4096) 0 page_zero).
    + by rewrite norm_end_change.
    + intros a. rewrite (refs_change s0 0 0 (zone_new 0 0 4096) 0 page_zero); [|done|].
      * case_match; [done|]. unfold refs. destruct (frame_index s0 a) as [j|]; simpl; [|done].
        destruct (replicate _ _ !! _) as [g|] eqn:Hg; [|done]. by apply lookup_replicate in Hg as [-> _].
      * split; try done. by left.
  - apply wp_bind. apply wp_enumarate_zones; [done|]. unfold clear_pages.
    apply wp_bind. eapply wp_zone_at; [by split|]. apply wp_bind. eapply wp_zone_at; [by split|].
    apply wp_bind, wp_modify. apply wp_bind. eapply wp_zone_upd; [by split|].
    change (page_in s0 0 page_zero) in Hg0.
    apply wp_bind. eapply wp_page_upd; [by apply Hg0|]. erewrite pset_pput by (by apply Hg0).
    eapply wp_page_upd; [by eapply page_in_pput|]. erewrite pset_pput by (by eapply page_in_pput). by rewrite pput_pput.
Qed.
Lemma zones_boot_ok_witness :
  ∃ s, (enumarate_zones 32768;; clear_pages) pmem_static = Ok (tt, s) ∧ pmem_ok s ∧
    norm_end s = Z.min MMAP_DEVADDR (32768 * 1024 / PAGESZ * PAGESZ) ∧
    (∀ a, refs s a = if same_page 0 a then 1 else 0).
Proof. apply (zones_boot_ok 32768). lia. Defined.

(** ** Demonstration states *)

Definition demo_fresh (n : Z) : pmem :=
  Pmem [zone_new 0 0 4096; zone_new 0x1000000 4096 n; zone_static] (replicate (Z.to_nat (4096 + n)) page_zero).
Lemma demo_fresh_ok n : 0 ≤ n ≤ 0x1000 → pmem_ok (demo_fresh n).
Proof. intros. apply fresh_ok; unfold MMAP_DEVADDR, PAGESZ; lia. Qed.
(** The only page of the second zone is in use. *)
Definition demo_full : pmem := taken (demo_fresh 1) MM_ZONE_NORM (zone_new 0x1000000 4096 1) 0 page_zero.
Lemma demo_page : page_in (demo_fresh 1) 4096 page_zero.
Proof. split; [done|]. apply lookup_replicate. split; [done|lia]. Qed.
Lemma demo_full_ok : pmem_ok demo_full.
Proof. apply taken_ok; try done. by apply demo_fresh_ok. Qed.
Lemma demo_full_use : in_use demo_full 4096 0 1.
Proof.
  intros j g Hj Hg. assert (j = 0) as -> by lia.
  rewrite (page_in_det _ _ _ _ Hg (page_in_pput _ 4096 _ _ demo_page)). done.
Qed.

(** ** Taking and giving back frames *)

(** C30: [pmman.alloc] ([mm_alloc]) answers 0 and changes nothing if every frame between
    16 MiB and the end of memory is in use; otherwise it answers the lowest free frame
    there, whose reference count becomes 1 while all other counts stay.  The invariant
    of the zones is kept, so the counter of free pages stays exact. *)
Theorem mm_alloc_correct s : pmem_ok s →
  ∃ a s', mm_alloc s = Ok (a, s') ∧ pmem_ok s' ∧ norm_end s' = norm_end s ∧
    ((a = 0 ∧ s' = s ∧ ∀ b, 0x1000000 ≤ b < norm_end s → refs s b ≠ 0) ∨
     (0x1000000 ≤ a < norm_end s ∧ (PAGESZ | a) ∧ refs s a = 0 ∧
      (∀ b, 0x1000000 ≤ b < a → refs s b ≠ 0) ∧
      ∀ b, refs s' b = if same_page a b then 1 else refs s b)).
Proof.
  intros Hok. apply wp_exec, wp_mm_alloc; [done|..].
  - intros Hall. by eauto 10.
  - intros a s' Ha Hal Hr Hlow Hok' Hrs He. eauto 10.
Qed.

Lemma mm_alloc_correct_witness : pmem_ok (demo_fresh 3) ∧
  ∃ a s', mm_alloc (demo_fresh 3) = Ok (a, s') ∧ pmem_ok s' ∧ norm_end s' = norm_end (demo_fresh 3) ∧
    ((a = 0 ∧ s' = demo_fresh 3 ∧ ∀ b, 0x1000000 ≤ b < norm_end (demo_fresh 3) → refs (demo_fresh 3) b ≠ 0) ∨
     (0x1000000 ≤ a < norm_end (demo_fresh 3) ∧ (PAGESZ | a) ∧ refs (demo_fresh 3) a = 0 ∧
      (∀ b, 0x1000000 ≤ b < a → refs (demo_fresh 3) b ≠ 0) ∧
      ∀ b, refs s' b = if same_page a b then 1 else refs (demo_fresh 3) b)).
Proof. assert (pmem_ok (demo_fresh 3)) as Hok by (by apply demo_fresh_ok). split; [done|]. by apply mm_alloc_correct. Defined.

(** [pmman.free] ([mm_free]) on a frame the zones manage takes one reference from it
    (none if it has none) and from no other frame.  The page becomes free when the
    last reference goes; the invariant of the zones is kept. *)
Theorem mm_free_correct s a : pmem_ok s → (PAGESZ | a) → 0 < a < norm_end s →
  ∃ s', mm_free a s = Ok (tt, s') ∧ pmem_ok s' ∧
    ∀ b, refs s' b = if same_page a b then Z.max 0 (refs s a - 1) else refs s b.
Proof.
  intros Hok Hal Ha. destruct (frame_exists s a Hok) as (z & v & i & g & Hf); [lia|].
  enough (wp (mm_free a) (λ _ s', pmem_ok s' ∧ ∀ b, refs s' b = if same_page a b then Z.max 0 (refs s a - 1) else refs s b) s)
    as ([] & s' & ? & ?)%wp_exec by eauto.
  eapply wp_mm_free; [done|exact Hf|done|lia|]. intros s' Hok' Hr _. done.
Qed.

Lemma mm_free_correct_witness : pmem_ok demo_full ∧
  ∃ s', mm_free 0x1000000 demo_full = Ok (tt, s') ∧ pmem_ok s' ∧
    ∀ b, refs s' b = if same_page 0x1000000 b then Z.max 0 (refs demo_full 0x1000000 - 1) else refs demo_full b.
Proof.
  split; [apply demo_full_ok|]. apply mm_free_correct; [apply demo_full_ok|by exists 0x1000|by vm_compute].
Defined.

(** ** Requests the allocator does not serve *)

Lemma find_pages_full s z v gfp fuel : pmem_ok s → zone_in s z v → valid v →
  in_use s (z_pages v) 0 (nrpages v) → ¬ (Z.land gfp GFP_WAIT = 0 ∧ Z.land gfp GFP_RETRY = 0) →
  find_pages fuel z gfp 0 1 (zset z (zlock true) s) = NoFuel.
Proof.
  intros Hok Hv Hva Hu Hw. induction fuel as [|fuel IH]; [done|]. unfold find_pages; fold find_pages.
  assert (Hv' : zone_in (zset z (zlock true) s) z (zlock true v)) by (by apply zone_in_zset).
  assert (wp (scan_pages (Z.to_nat (nrpages v)) (z_pages v) 0 0 1) (λ r s', r = (None, 0) ∧ s' = zset z (zlock true) s)
    (zset z (zlock true) s)) as (? & ? & Hs & -> & ->)%wp_exec.
  { destruct (po_wf _ Hok _ _ Hv Hva) as [_ []]. apply wp_scan_one; [|done|].
    - intros j Hj. apply (zone_page_in s z v); try done. lia.
    - intros i g Hi Hg Hr Hui. exfalso. apply (Hu i g); [lia|done..]. }
  assert (wp (zone_at z) (λ r s', r = zlock true v ∧ s' = zset z (zlock true) s) (zset z (zlock true) s))
    as (? & ? & Hz & -> & ->)%wp_exec by (by eapply wp_zone_at).
  unfold mbind, M_bind. rewrite Hz. simpl nrpages. simpl z_pages. rewrite Hs.
  by rewrite bool_decide_false.
Qed.

(** C35: a request that may wait ([GFP_KERNEL] does) never returns when every page of its
    zone is in use: the search repeats with the lock of the zone held, so no page can
    become free meanwhile. *)
Theorem alloc_page_wait_hangs s z v gfp fuel : pmem_ok s → gfp_zone gfp = z → zone_in s z v → valid v →
  in_use s (z_pages v) 0 (nrpages v) → Z.land gfp GFP_WAIT ≠ 0 →
  alloc_pages_with (T := pmem) (λ _, fault) fuel gfp 0 s = NoFuel.
Proof.
  intros Hok Hz Hv Hva Hu Hw. destruct (po_wf _ Hok _ _ Hv Hva) as [Hz1 _]. pose proof (po_lock _ Hok _ _ Hv) as Hlk.
  assert (wp (mm_zone_get z) (λ r s', r = Some z ∧ s' = zset z (zlock true) s) s) as (? & ? & Hg & -> & ->)%wp_exec.
  { eapply wp_mm_zone_get; [done|lia|done..]. }
  unfold alloc_pages_with. rewrite Hz. change (u32 (Z.shiftl 1 0)) with 1.
  unfold mbind, M_bind, on, zoom. simpl part. simpl set_part. rewrite Hg.
  by rewrite (find_pages_full s z v) by tauto.
Qed.
Lemma alloc_page_wait_hangs_witness : pmem_ok demo_full ∧
  alloc_pages_with (T := pmem) (λ _, fault) 100 GFP_KERNEL 0 demo_full = NoFuel.
Proof.
  split; [apply demo_full_ok|].
  apply (alloc_page_wait_hangs _ MM_ZONE_NORM (set_free 0 (zone_new 0x1000000 4096 1))); try done.
  - apply demo_full_ok.
  - apply demo_full_use.
Defined.

Lemma wp_take_one n s z v i g (Q : unit → pmem → Prop) :
  zone_in s z v → page_in s i g → 0 ≤ ref_count g < 2 ^ 32 - 1 →
  wp (take_pages n z (i + 1)) Q (pput i (take_page z g) (zput z (set_free (u32 (free_pages v - 1)) v) s)) →
  wp (take_pages (S n) z i) Q s.
Proof.
  intros Hv Hg Hr HQ. simpl. apply wp_bind. eapply wp_page_upd; [done|]. rewrite (pset_pput _ _ g) by done.
  apply wp_bind. eapply wp_page_upd; [by eapply page_in_pput|].
  rewrite (pset_pput _ _ (set_page_zone z g)) by (by eapply page_in_pput). rewrite pput_pput.
  apply wp_bind. eapply wp_zone_upd; [done|]. rewrite (zset_zput _ _ v) by done. rewrite zput_pput.
  simpl. rewrite (u32_small (ref_count g + 1)) by lia. done.
Qed.
Lemma wp_alloc_two s v g0 g1 g2 gfp (Q : option Z → pmem → Prop) :
  pmem_ok s → zone_in s MM_ZONE_NORM v → valid v → gfp_zone gfp = MM_ZONE_NORM → Z.land gfp GFP_ZERO = 0 → 3 ≤ nrpages v →
  page_in s (z_pages v) g0 → page_in s (z_pages v + 1) g1 → page_in s (z_pages v + 2) g2 →
  ref_count g0 = 0 → ref_count g1 = 0 → 0 < ref_count g2 < 2 ^ 32 - 1 →
  Q (Some (z_pages v + 1)) (pput (z_pages v + 2) (take_page 1 g2) (pput (z_pages v + 1) (take_page 1 g1)
    (zput 1 (set_free (u32 (free_pages v - 2)) v) s))) →
  wp (alloc_pages_with (T := pmem) (λ _, fault) 1 gfp 1) Q s.
Proof.
  intros Hok Hv Hva Hz Hzero Hnr Hg0 Hg1 Hg2 H0 H1 H2 HQ. pose proof (po_lock _ Hok _ _ Hv) as Hlk.
  pose proof (free_pos s 1 v 1 g1 Hok Hv Hva ltac:(lia) Hg1 H1). pose proof (zone_free_bound _ _ _ Hok Hv Hva).
  pose proof (zone_nr_bound _ _ _ Hok Hv Hva).
  assert (Hv' : zone_in (zput 1 (zlock true v) s) 1 (zlock true v)) by (by eapply zone_in_zput).
  unfold alloc_pages_with. rewrite Hz. change (u32 (Z.shiftl 1 1)) with 2.
  apply wp_bind, wp_on. simpl part. simpl set_part. eapply wp_mm_zone_get; [done..|]. rewrite (zset_zput _ _ v) by done.
  apply wp_bind, wp_on. simpl part. simpl set_part. unfold find_pages; fold find_pages.
  apply wp_bind. eapply wp_zone_at; [done|]. simpl nrpages. simpl z_pages.
  replace (Z.to_nat (nrpages v)) with (S (S (Z.to_nat (nrpages v - 2)))) by lia. simpl scan_pages.
  rewrite Z.add_0_r. apply wp_bind, wp_bind. eapply wp_page_at; [done|].
  rewrite bool_decide_false by tauto. apply wp_bind. eapply wp_page_at; [done|].
  rewrite bool_decide_false by tauto. apply wp_ret, wp_ret. apply wp_bind, wp_on. simpl part. simpl set_part.
  eapply wp_zone_at; [done|]. simpl z_pages. apply wp_bind, wp_on. simpl part. simpl set_part.
  change (Z.to_nat 2) with 2%nat. eapply wp_take_one; [done..|rewrite H1; lia|]. rewrite <- Z.add_assoc.
  eapply (wp_take_one _ _ _ _ _ g2); [by apply (zone_in_zput _ _ _ _ Hv')| |lia|].
  { destruct Hg2 as [? Hg2]. split; [done|]. simpl. rewrite list_lookup_insert_ne; [done|].
    destruct (po_wf _ Hok _ _ Hv Hva) as [_ []]. lia. }
  apply wp_ret. rewrite !zput_pput, !zput_zput. rewrite bool_decide_false by tauto. apply wp_bind, wp_ret.
  apply wp_bind, wp_on. simpl part. simpl set_part. eapply wp_mm_zone_unlock; [by eapply (zone_in_zput s 1 v)|done|].
  erewrite zset_zput by (by eapply (zone_in_zput s 1 v)). rewrite !zput_pput, !zput_zput. apply wp_ret.
  simpl free_pages. rewrite (u32_small (free_pages v - 1)) by lia. rewrite <- Z.sub_add_distr.
  change (z_pages v + 1 + 1) with (z_pages v + 2).
  match goal with |- Q _ (pput _ _ (pput _ _ (zput _ ?w _))) => assert (w = set_free (u32 (free_pages v - 2)) v) as -> end; [|done].
  destruct v; simpl in *; by subst.
Qed.

(** A request for two pages hands out a page it has not looked at.  The search stops
    at the second free page in a row and returns that page as the first of the two: if
    the pages of the zone start with two free ones and then one in use, the pages
    handed out are the second and the third, so the one in use gets a second owner. *)
Theorem alloc_pages_overlaps s v g0 g1 g2 gfp : pmem_ok s → zone_in s MM_ZONE_NORM v → gfp_zone gfp = MM_ZONE_NORM →
  Z.land gfp GFP_ZERO = 0 → 3 ≤ nrpages v →
  page_in s (z_pages v) g0 → page_in s (z_pages v + 1) g1 → page_in s (z_pages v + 2) g2 →
  ref_count g0 = 0 → ref_count g1 = 0 → 0 < ref_count g2 < 2 ^ 32 - 1 →
  ∃ s', alloc_pages_with (T := pmem) (λ _, fault) 1 gfp 1 s = Ok (Some (z_pages v + 1), s') ∧
    refs s' 0x1000000 = 0 ∧ refs s' 0x1001000 = 1 ∧ refs s' 0x1002000 = ref_count g2 + 1.
Proof.
  intros Hok Hv Hz Hzero Hnr Hg0 Hg1 Hg2 H0 H1 H2.
  assert (Hva : valid v) by (destruct (zones_shape s Hok) as (d & n & h & _ & _ & _ & _ & _ & Hn & ? & _);
    by rewrite (zone_in_det _ _ _ _ Hv Hn)).
  set (s1 := pput (z_pages v + 1) (take_page 1 g1) (zset 1 (set_free (free_pages v - 1)) s)).
  assert (Hok1 : pmem_ok s1) by (by apply (taken_ok s 1 v 1 g1); try lia).
  set (v1 := set_free (free_pages v - 1) v).
  assert (Hv1 : zone_in s1 1 v1) by (by apply zone_in_zset).
  assert (Hg2' : page_in s1 (z_pages v + 2) g2).
  { destruct Hg2 as [? Hg2]. split; [done|]. simpl. rewrite list_lookup_insert_ne; [done|].
    destruct (po_wf _ Hok _ _ Hv Hva) as [_ []]. lia. }
  set (s2 := pput (z_pages v + 2) (take_page 1 g2) (zset 1 (set_free (u32 (free_pages v - 2))) s1)).
  enough (Hrun : alloc_pages_with (T := pmem) (λ _, fault) 1 gfp 1 s = Ok (Some (z_pages v + 1), s2)).
  - exists s2. split; [done|].
    pose proof (norm_frame s v 1 g1 Hok Hv ltac:(lia) Hg1) as Hf1.
    pose proof (norm_frame s1 v1 2 g2 Hok1 Hv1 ltac:(simpl; lia) Hg2') as Hf2.
    assert (Hr : ∀ b, refs s2 b = if same_page 0x1002000 b then ref_count g2 + 1
      else if same_page 0x1001000 b then 1 else refs s b).
    { intros b. unfold s2. rewrite (refs_change s1 _ 1 v1 _ g2 _ _ b Hok1 Hf2).
      change (0x1000000 + 2 * PAGESZ) with 0x1002000. case_match; [done|].
      unfold s1. rewrite (refs_change s _ 1 v _ g1 _ _ b Hok Hf1).
      change (0x1000000 + 1 * PAGESZ) with 0x1001000. case_match; [|done]. simpl. lia. }
    rewrite !Hr. split; [|done]. simpl.
    rewrite (refs_frame s 0x1000000 1 v (z_pages v + 0) g0 Hok); [done|].
    apply (norm_frame s v 0 g0 Hok Hv); [lia|by rewrite Z.add_0_r].
  - assert (wp (alloc_pages_with (T := pmem) (λ _, fault) 1 gfp 1) (λ r s', r = Some (z_pages v + 1) ∧ s' = s2) s)
      as (? & ? & -> & -> & ->)%wp_exec; [|done].
    eapply (wp_alloc_two s v g0 g1 g2); try done. split; [done|].
    unfold s2. rewrite (zset_zput _ _ v1) by done. unfold s1. rewrite (zset_zput _ _ v) by done.
    by rewrite zput_pput, zput_zput.
Qed.
(** Three pages, the third taken. *)
Definition demo_third : pmem :=
  taken (demo_fresh 3) MM_ZONE_NORM (zone_new 0x1000000 4096 3) 2 page_zero.
Lemma alloc_pages_overlaps_witness : pmem_ok demo_third ∧
  ∃ s', alloc_pages_with (T := pmem) (λ _, fault) 1 GFP_NORMAL 1 demo_third = Ok (Some 4097, s') ∧
    refs s' 0x1000000 = 0 ∧ refs s' 0x1001000 = 1 ∧ refs s' 0x1002000 = 2.
Proof.
  assert (pmem_ok demo_third) as Hok by (apply taken_ok; try done; by apply demo_fresh_ok).
  split; [done|].
  apply (alloc_pages_overlaps demo_third (set_free 2 (zone_new 0x1000000 4096 3)) page_zero page_zero
    (take_page 1 page_zero) GFP_NORMAL); try done; lia.
Defined.
