(* ===== verification/Paging.v ===== *)
(** * Page tables ([kernel/arch/i386/mmu/page.c], [kernel/arch/i386/mmu/table.c])

    The machine is modelled down to the page tables: [km_phys] is physical memory, byte
    by byte, and [walk] the translation the MMU makes from it, so code that writes a
    page-table entry through the recursive mapping at [0xffc00000] really changes what
    [walk] finds.  Permission bits do not stop the kernel ([CR0.WP] is off), so
    only the present bits matter to its accesses.  The frames come from the zones of
    [Zone], kernel addresses from [Vmm].  What the code does to the translation
    caches is kept as a log. *)
From S2P Require Import Prelude Dll Vmm Mmap Zone.

(** ** The machine *)

Inductive tlb_op : Type := Invlpg (v : Z) | Shootdown | LoadCr3 (cr3 : Z).

Record kmem : Type := Kmem {
  km_pmem : pmem;
  km_vmm : vmm;
  km_phys : gmap Z Z;
  km_cr3 : Z;
  km_tlb : list tlb_op;
}.
#[global] Program Instance kmem_pmem : Holds kmem pmem := {|
  part := km_pmem; set_part s k := {| k with km_pmem := s |};
|}.
Next Obligation. done. Qed.
Next Obligation. by intros []. Qed.
Next Obligation. done. Qed.
#[global] Program Instance kmem_vmm : Holds kmem vmm := {|
  part := km_vmm; set_part s k := {| k with km_vmm := s |};
|}.
Next Obligation. done. Qed.
Next Obligation. by intros []. Qed.
Next Obligation. done. Qed.

(** Bytes and little-endian words of physical memory. *)
Definition byte (m : gmap Z Z) (a : Z) : Z := default 0 (m !! a) mod 256.
Definition word (m : gmap Z Z) (a : Z) : Z :=
  byte m a + 2 ^ 8 * byte m (a + 1) + 2 ^ 16 * byte m (a + 2) + 2 ^ 24 * byte m (a + 3).
Definition put_word (a w : Z) (m : gmap Z Z) : gmap Z Z :=
  <[a := w mod 256]> (<[a + 1 := w / 2 ^ 8 mod 256]>
  (<[a + 2 := w / 2 ^ 16 mod 256]> (<[a + 3 := w / 2 ^ 24 mod 256]> m))).

(** [PGROUND], [PGOFFSET], [PGROUNDUP], [GET_BOUNDARY_SIZE] *)
Definition PGROUND (p : Z) : Z := Z.ldiff p PAGEMASK.
Definition PGOFFSET (p : Z) : Z := Z.land p PAGEMASK.
Definition PGROUNDUP (sz : Z) : Z := PGROUND (u32 (sz + PAGEMASK)).
Definition GET_BOUNDARY_SIZE (p s : Z) : Z := u32 (PGROUNDUP (u32 (p + s)) - PGROUND p).
(** [V_PDI], [V_PTI], [_VADDR] *)
Definition V_PDI (v : Z) : Z := Z.land (Z.shiftr v 22) 1023.
Definition V_PTI (v : Z) : Z := Z.land (Z.shiftr v 12) 1023.
Definition VADDR (t p : Z) : Z := Z.lor (Z.shiftl (Z.land t 1023) 22) (Z.shiftl (Z.land p 1023) 12).

Definition VM_P : Z := 1.
Definition VM_PWT : Z := 8.
Definition VM_PCD : Z := 16.
Definition VM_KRW : Z := Z.lor VM_W VM_P.
Definition VM_UW : Z := Z.lor VM_U VM_W.

(** The translation of a virtual address. *)
Definition walk (m : gmap Z Z) (cr3 v : Z) : option Z :=
  let pde := word m (PGROUND cr3 + 4 * V_PDI v) in
  if Z.testbit pde 0 then
    let pte := word m (PGROUND pde + 4 * V_PTI v) in
    if Z.testbit pte 0 then Some (PGROUND pte + PGOFFSET v) else None
  else None.

(** Accesses to virtual memory; an address without a mapping faults. *)
Definition translate (v : Z) : M kmem Z := λ k,
  match walk (km_phys k) (km_cr3 k) v with Some a => Ok (a, k) | None => Fault end.
Definition load32 (v : Z) : M kmem Z := a ← translate v; gets (λ k, word (km_phys k) a).
Definition store32 (v w : Z) : M kmem unit :=
  a ← translate v; modify (λ k, {| k with km_phys := put_word a w (km_phys k) |}).
Definition load8 (v : Z) : M kmem Z := a ← translate v; gets (λ k, byte (km_phys k) a).
Definition store8 (v b : Z) : M kmem unit :=
  a ← translate v; modify (λ k, {| k with km_phys := <[a := b]> (km_phys k) |}).
(** [memset] and [memcpy] on virtual memory. *)
Fixpoint vmemset (n : nat) (dst c : Z) : M kmem unit :=
  match n with O => mret tt | S n' => store8 dst c;; vmemset n' (u32 (dst + 1)) c end.
Fixpoint vmemcpy (n : nat) (dst src : Z) : M kmem unit :=
  match n with
  | O => mret tt
  | S n' => b ← load8 src; store8 dst b;; vmemcpy n' (u32 (dst + 1)) (u32 (src + 1))
  end.

Definition tlb (o : tlb_op) : M kmem unit := modify (λ k, {| k with km_tlb := o :: km_tlb k |}).
Definition paging_invlpg (v : Z) : M kmem unit := tlb (Invlpg v).
Definition send_tlb_shootdown : M kmem unit := tlb Shootdown.
Definition read_cr3 : M kmem Z := gets km_cr3.
Definition write_cr3 (c : Z) : M kmem unit := modify (λ k, {| k with km_cr3 := c |});; tlb (LoadCr3 c).

Definition tlb_flush : M kmem unit := c ← read_cr3; write_cr3 c.
Definition paging_switch (pgdir : Z) : M kmem Z :=
  oldpgdir ← read_cr3;
  (if bool_decide (pgdir = 0) then c ← read_cr3; write_cr3 c else write_cr3 (PGROUND pgdir));;
  mret oldpgdir.
(** [_pgdir] is the directory the kernel boots with. *)
Definition paging_switchkvm (_pgdir : Z) : M kmem unit := write_cr3 _pgdir.

(** ** Entries of the current page tables *)

(** The addresses [PDE(t)] and [PTE(t, p)]. *)
Definition PDE (t : Z) : Z := 0xfffff000 + 4 * t.
Definition PTE (t p : Z) : Z := 0xffc00000 + 0x1000 * t + 4 * p.
Definition present (raw : Z) : bool := Z.testbit raw 0.
(** [VM_CHECKBOUNDS]; [t] and [p] come from [V_PDI] and [V_PTI] *)
Definition VM_CHECKBOUNDS (t p : Z) : M kmem unit := kassert (negb (bool_decide (1023 < t)) || bool_decide (1023 < p)).
Definition assert_aligned (a : Z) : M kmem unit := kassert (bool_decide (Z.land a PAGEMASK = 0)).

Fixpoint clear_table (n : nat) (t i : Z) : M kmem unit :=
  match n with O => mret tt | S n' => store32 (PTE t i) 0;; clear_table n' t (i + 1) end.

Definition maptable (t flags : Z) : M kmem Z :=
  addr ← on mm_alloc;
  if bool_decide (addr = 0) then mret (- ENOMEM) else
  (if has flags VM_U then
     store32 (PDE t) (Z.lor (PGROUND addr) (PGOFFSET (Z.lor (Z.lor flags VM_PWT) VM_UW)))
   else store32 (PDE t) (Z.lor (PGROUND addr) (PGOFFSET (Z.lor flags VM_PWT))));;
  (if bool_decide (768 ≤ t) then send_tlb_shootdown else mret tt);;
  paging_invlpg (PTE t 0);;
  clear_table 1024 t 0;;
  paging_invlpg (PTE t 0);;
  mret 0.

Definition unmaptable (t : Z) : M kmem Z :=
  VM_CHECKBOUNDS t 0;;
  pde ← load32 (PDE t);
  if negb (present pde) then panic else
  on (mm_free (PGROUND pde));;
  store32 (PDE t) 0;;
  paging_invlpg (PTE t 0);;
  mret 0.

(** [_32bit_map] panics on a page that is mapped, [_32bit_map_err] answers -EEXIST. *)
Definition map32 (busy : M kmem Z) (frame t p flags : Z) : M kmem Z :=
  assert_aligned frame;;
  VM_CHECKBOUNDS t p;;
  pde ← load32 (PDE t);
  err ← (if present pde then mret 0 else maptable t flags);
  if bool_decide (err ≠ 0) then mret err else
  pte ← load32 (PTE t p);
  if present pte then busy else
  store32 (PTE t p) (u32 (Z.lor (PGROUND frame) flags));;
  paging_invlpg (VADDR t p);;
  mret 0.
Definition map_32bit : Z → Z → Z → Z → M kmem Z := map32 panic.
Definition map_err_32bit : Z → Z → Z → Z → M kmem Z := map32 (mret (- EEXIST)).

(** [GET_FRAMEADDR(_VADDR(t, p))] *)
Definition GET_FRAMEADDR (v : Z) : M kmem Z := pte ← load32 (PTE (V_PDI v) (V_PTI v)); mret (PGROUND pte).

Definition unmap_32bit (t p : Z) : M kmem Z :=
  VM_CHECKBOUNDS t p;;
  pde ← load32 (PDE t);
  if negb (present pde) then panic else
  pte ← load32 (PTE t p);
  if negb (present pte) then panic else
  frame ← GET_FRAMEADDR (VADDR t p);
  on (mm_free frame);;
  store32 (PTE t p) 0;;
  paging_invlpg (VADDR t p);;
  mret 0.

Definition unmap_mapped_32bit (t p : Z) : M kmem Z :=
  VM_CHECKBOUNDS t p;;
  pde ← load32 (PDE t);
  if negb (present pde) then paging_invlpg (VADDR t p);; mret (- ENOENT) else
  pte ← load32 (PTE t p);
  if negb (present pte) then paging_invlpg (VADDR t p);; mret (- ENOENT) else
  frame ← GET_FRAMEADDR (VADDR t p);
  on (mm_free frame);;
  store32 (PTE t p) 0;;
  paging_invlpg (VADDR t p);;
  mret 0.

Definition paging_unmap_table (t : Z) : M kmem Z :=
  VM_CHECKBOUNDS t 0;;
  pde ← load32 (PDE t);
  if negb (present pde) then panic else
  store32 (PDE t) 0;;
  send_tlb_shootdown;;
  paging_invlpg (PTE t 0);;
  mret 0.

Definition paging_map (frame v flags : Z) : M kmem Z :=
  assert_aligned v;; assert_aligned frame;; map_32bit frame (V_PDI v) (V_PTI v) flags.
Definition paging_map_err (frame v flags : Z) : M kmem Z :=
  assert_aligned v;; assert_aligned frame;; map_err_32bit frame (V_PDI v) (V_PTI v) flags.
Definition paging_unmap (v : Z) : M kmem Z := assert_aligned v;; unmap_32bit (V_PDI v) (V_PTI v).

(** ** Ranges of pages *)

Fixpoint unmap_mapped_loop (np : nat) (p : Z) : M kmem Z :=
  match np with
  | O => mret 0
  | S np' =>
      err ← unmap_mapped_32bit (V_PDI p) (V_PTI p);
      if bool_decide (err ≠ 0) then mret err else unmap_mapped_loop np' (u32 (p + PAGESZ))
  end.
Definition paging_unmap_mapped (p sz : Z) : M kmem Z :=
  unmap_mapped_loop (Z.to_nat (sz / PAGESZ + (if bool_decide (sz mod PAGESZ = 0) then 0 else 1))) p.

Fixpoint identity_loop (np : nat) (frame v flags : Z) : M kmem Z :=
  match np with
  | O => mret 0
  | S np' =>
      err ← paging_map frame v flags;
      if bool_decide (err ≠ 0) then mret err
      else identity_loop np' (u32 (frame + PAGESZ)) (u32 (v + PAGESZ)) flags
  end.
Definition paging_identity_map (frame v sz flags : Z) : M kmem Z :=
  assert_aligned v;; assert_aligned frame;; assert_aligned sz;;
  identity_loop (Z.to_nat (GET_BOUNDARY_SIZE v sz / PAGESZ)) frame v flags.

Fixpoint mappages_loop (map : Z → Z → Z → M kmem Z) (np : nat) (v flags : Z) : M kmem Z :=
  match np with
  | O => mret 0
  | S np' =>
      p ← on mm_alloc;
      if bool_decide (p = 0) then mret (- ENOMEM) else
      err ← map p v flags;
      if bool_decide (err ≠ 0) then mret err else mappages_loop map np' (u32 (v + PAGESZ)) flags
  end.
Definition paging_mappages (v sz flags : Z) : M kmem Z :=
  assert_aligned v;; assert_aligned sz;;
  mappages_loop paging_map (Z.to_nat (GET_BOUNDARY_SIZE v sz / PAGESZ)) v flags.
Definition paging_mappages_err (v sz flags : Z) : M kmem Z :=
  assert_aligned v;; assert_aligned sz;;
  mappages_loop paging_map_err (Z.to_nat (GET_BOUNDARY_SIZE v sz / PAGESZ)) v flags.

Fixpoint unmappages_loop (np : nat) (v : Z) : M kmem Z :=
  match np with
  | O => mret 0
  | S np' =>
      err ← paging_unmap v;
      if bool_decide (err ≠ 0) then mret err else unmappages_loop np' (u32 (v + PAGESZ))
  end.
Definition paging_unmappages (v sz : Z) : M kmem Z :=
  assert_aligned v;; assert_aligned sz;;
  unmappages_loop (Z.to_nat (GET_BOUNDARY_SIZE v sz / PAGESZ)) v.

(** The loops of [paging_proc_unmap] over the entries of a table and over the tables. *)
Fixpoint unmap_table_pages (n : nat) (t pte : Z) : M kmem unit :=
  match n with
  | O => mret tt
  | S n' =>
      raw ← load32 (PTE t pte);
      (if present raw then unmap_32bit t pte;; mret tt else mret tt);;
      unmap_table_pages n' t (pte + 1)
  end.
Fixpoint unmap_tables (n : nat) (pdi : Z) : M kmem unit :=
  match n with
  | O => mret tt
  | S n' =>
      raw ← load32 (PDE pdi);
      (if present raw then unmap_table_pages 1024 pdi 0;; unmaptable pdi;; mret tt else mret tt);;
      unmap_tables n' (pdi + 1)
  end.
Definition paging_proc_unmap (pgd : Z) : M kmem unit :=
  oldpgdir ← paging_switch pgd;
  unmap_tables 768 0;;
  paging_switch oldpgdir;;
  mret tt.

(** The address of the entry that maps [v], or NULL. *)
Definition paging_getmapping (v : Z) : M kmem (option Z) :=
  pde ← load32 (PDE (V_PDI v));
  if negb (present pde) then mret None else
  pte ← load32 (PTE (V_PDI v) (V_PTI v));
  if negb (present pte) then mret None else mret (Some (PTE (V_PDI v) (V_PTI v))).

Definition paging_mapvmr (r : vmr) : M kmem Z :=
  if bool_decide (v_paddr r ≠ 0) then paging_identity_map (v_paddr r) (v_start r) (vmr_size r) (v_vflags r)
  else paging_mappages (v_start r) (vmr_size r) (v_vflags r).

(** ** Kernel addresses *)

Definition paging_alloc (sz : Z) : M kmem Z :=
  assert_aligned sz;;
  base ← on (vmm_alloc sz);
  if bool_decide (base = 0) then mret 0 else
  err ← paging_mappages base sz VM_KRW;
  if bool_decide (err ≠ 0) then mret 0 else mret base.
Definition paging_free (v sz : Z) : M kmem unit :=
  assert_aligned v;; assert_aligned sz;; paging_unmappages v sz;; on (vmm_free v).

Definition paging_mount (p : Z) : M kmem Z :=
  kassert (bool_decide (p ≠ 0));;
  assert_aligned p;;
  v ← on (vmm_alloc PAGESZ);
  err ← paging_map p v (Z.lor VM_KRW (Z.lor VM_PWT VM_PCD));
  if bool_decide (err ≠ 0) then on (vmm_free v);; mret 0 else mret v.
Definition paging_unmount (v : Z) : M kmem unit :=
  assert_aligned v;;
  pde ← load32 (PDE (V_PDI v));
  if negb (present pde) then panic else
  pte ← load32 (PTE (V_PDI v) (V_PTI v));
  if negb (present pte) then panic else
  store32 (PTE (V_PDI v) (V_PTI v)) 0;;
  paging_invlpg v;;
  on (vmm_free v).

(** The two loops of [paging_getpgdir]. *)
Fixpoint clear_words (n : nat) (v i : Z) : M kmem unit :=
  match n with O => mret tt | S n' => store32 (u32 (v + 4 * i)) 0;; clear_words n' v (i + 1) end.
Fixpoint copy_words (n : nat) (v cur i : Z) : M kmem unit :=
  match n with
  | O => mret tt
  | S n' => w ← load32 (u32 (cur + 4 * i)); store32 (u32 (v + 4 * i)) w;; copy_words n' v cur (i + 1)
  end.
Definition paging_getpgdir : M kmem Z :=
  p ← on mm_alloc;
  v ← paging_mount p;
  if bool_decide (v = 0) then on (mm_free p);; mret 0 else
  c ← read_cr3;
  cur ← paging_mount (PGROUND c);
  if bool_decide (cur = 0) then paging_unmount v;; mret 0 else
  clear_words 1024 v 0;;
  copy_words 255 v cur 768;;
  store32 (u32 (v + 4 * 1023)) (Z.lor p (Z.lor VM_KRW (Z.lor VM_PCD VM_PWT)));;
  paging_unmount cur;;
  paging_unmount v;;
  mret p.

(** ** Copies between physical and virtual memory *)

(** Each round copies at least one byte, so [size] rounds are enough. *)
Fixpoint memcpypp_loop (fuel : nat) (pdst psrc size : Z) : M kmem Z :=
  if bool_decide (size = 0) then mret 0 else
  match fuel with
  | O => nofuel
  | S fuel' =>
      vdst ← paging_mount (PGROUND pdst);
      if bool_decide (vdst = 0) then mret (- ENOMEM) else
      vsrc ← paging_mount (PGROUND psrc);
      if bool_decide (vsrc = 0) then paging_unmount vdst;; mret (- ENOMEM) else
      let len := Z.min (PAGESZ - Z.max (PGOFFSET psrc) (PGOFFSET pdst)) PAGESZ in
      let len := Z.min len size in
      vmemcpy (Z.to_nat len) (vdst + PGOFFSET pdst) (vsrc + PGOFFSET psrc);;
      paging_unmount vsrc;;
      paging_unmount vdst;;
      memcpypp_loop fuel' (u32 (pdst + len)) (u32 (psrc + len)) (size - len)
  end.
Definition paging_memcpypp (pdst psrc size : Z) : M kmem Z := memcpypp_loop (Z.to_nat size) pdst psrc size.

Fixpoint memcpyvp_loop (fuel : nat) (p v size : Z) : M kmem Z :=
  if bool_decide (size = 0) then mret 0 else
  match fuel with
  | O => nofuel
  | S fuel' =>
      vdst ← paging_mount (PGROUND p);
      if bool_decide (vdst = 0) then mret (- ENOMEM) else
      let len := Z.min (PAGESZ - PGOFFSET p) size in
      vmemcpy (Z.to_nat len) (vdst + PGOFFSET p) v;;
      paging_unmount vdst;;
      memcpyvp_loop fuel' (u32 (p + len)) (u32 (v + len)) (size - len)
  end.
Definition paging_memcpyvp (p v size : Z) : M kmem Z := memcpyvp_loop (Z.to_nat size) p v size.

Fixpoint memcpypv_loop (fuel : nat) (v p size : Z) : M kmem Z :=
  if bool_decide (size = 0) then mret 0 else
  match fuel with
  | O => nofuel
  | S fuel' =>
      vsrc ← paging_mount (PGROUND p);
      if bool_decide (vsrc = 0) then mret (- ENOMEM) else
      let len := Z.min (PAGESZ - PGOFFSET p) size in
      vmemcpy (Z.to_nat len) v (vsrc + PGOFFSET p);;
      paging_unmount vsrc;;
      memcpypv_loop fuel' (u32 (v + len)) (u32 (p + len)) (size - len)
  end.
Definition paging_memcpypv (v p size : Z) : M kmem Z := memcpypv_loop (Z.to_nat size) v p size.

Fixpoint init_tables (n : nat) (pdi : Z) : M kmem unit :=
  match n with
  | O => mret tt
  | S n' =>
      raw ← load32 (PDE pdi);
      (if negb (present raw) then maptable pdi (Z.lor VM_KRW (Z.lor VM_PCD VM_PWT));; mret tt else mret tt);;
      init_tables n' (pdi + 1)
  end.
Definition paging_init : M kmem Z := init_tables (Z.to_nat (V_PDI MMAP_DEVADDR - 772)) 772;; mret 0.

(** ** Copy on write *)

Fixpoint lazycopy_pages (n : nat) (srcpt i j : Z) : M kmem unit :=
  match n with
  | O => mret tt
  | S n' =>
      raw ← load32 (u32 (srcpt + 4 * j));
      (if negb (present raw) then mret tt else
       store32 (PTE i j) (Z.ldiff raw VM_W);;
       raw ← load32 (u32 (srcpt + 4 * j));
       (if Z.testbit raw 1 then store32 (u32 (srcpt + 4 * j)) (Z.ldiff raw VM_W) else mret tt);;
       send_tlb_shootdown;;
       raw ← load32 (u32 (srcpt + 4 * j));
       on (page_incr_at (PGROUND raw));; mret tt);;
      lazycopy_pages n' srcpt i (j + 1)
  end.
Fixpoint lazycopy_tables (n : nat) (srcpd i : Z) : M kmem Z :=
  match n with
  | O => mret 0
  | S n' =>
      raw ← load32 (u32 (srcpd + 4 * i));
      if negb (present raw) then lazycopy_tables n' srcpd (i + 1) else
      err ← maptable i (Z.land raw PAGEMASK);
      if bool_decide (err ≠ 0) then mret err else
      srcpt ← paging_mount (PGROUND raw);
      if bool_decide (srcpt = 0) then mret (- ENOMEM) else
      lazycopy_pages 1024 srcpt i 0;;
      paging_unmount srcpt;;
      lazycopy_tables n' srcpd (i + 1)
  end.
Definition paging_lazycopy (dst src : Z) : M kmem Z :=
  srcpd ← paging_mount src;
  if bool_decide (srcpd = 0) then mret (- ENOMEM) else
  oldpgdir ← paging_switch dst;
  err ← lazycopy_tables 768 srcpd 0;
  if bool_decide (err ≠ 0) then mret err else
  paging_switch oldpgdir;;
  paging_unmount srcpd;;
  mret 0.

(** ** Cleared pages *)

(** What [alloc_pages] does for a page with [GFP_ZERO]: a thread whose mount fails
    sleeps on a queue nothing wakes, so it does not return; without a thread
    ([current] is NULL) the page is left as it is. *)
Definition zero_frame (current : bool) (paddr : Z) : M kmem unit :=
  vaddr ← paging_mount paddr;
  if bool_decide (vaddr = 0) then (if current then nofuel else mret tt)
  else vmemset (Z.to_nat PAGESZ) vaddr 0;; paging_unmount vaddr.
Definition alloc_pages (current : bool) (fuel : nat) (gfp order : Z) : M kmem (option Z) :=
  alloc_pages_with (zero_frame current) fuel gfp order.
Definition alloc_page (current : bool) (fuel : nat) (gfp : Z) : M kmem (option Z) := alloc_pages current fuel gfp 0.
(** [__get_free_pages], [__get_free_page] *)
Definition get_free_pages (current : bool) (fuel : nat) (gfp order : Z) : M kmem Z :=
  p ← alloc_pages current fuel gfp order; on (page_address p).
Definition get_free_page (current : bool) (fuel : nat) (gfp : Z) : M kmem Z := get_free_pages current fuel gfp 0.
