(* ===== verification/PagingMem.v ===== *)
(** * Words of physical memory and the recursive mapping

    Arithmetic of addresses and entries, and what a store of one word does to the
    words of physical memory.  With [self_mapped], the page directory and the page
    tables are found at the addresses [PDE] and [PTE]. *)
From S2P Require Import Prelude Dll Vmm Mmap Zone Paging.

(** ** Addresses *)

Lemma PGROUND_div p : PGROUND p = p / PAGESZ * PAGESZ.
Proof.
  unfold PGROUND. change PAGEMASK with (Z.ones 12). rewrite Z.ldiff_ones_r by lia.
  rewrite Z.shiftl_mul_pow2, Z.shiftr_div_pow2 by lia. done.
Qed.
Lemma PGOFFSET_mod p : PGOFFSET p = p mod PAGESZ.
Proof. unfold PGOFFSET. change PAGEMASK with (Z.ones 12). by rewrite Z.land_ones by lia. Qed.
Lemma V_PDI_div v : V_PDI v = v / 0x400000 mod 1024.
Proof. unfold V_PDI. change 1023 with (Z.ones 10). by rewrite Z.land_ones, Z.shiftr_div_pow2 by lia. Qed.
Lemma V_PTI_div v : V_PTI v = v / 0x1000 mod 1024.
Proof. unfold V_PTI. change 1023 with (Z.ones 10). by rewrite Z.land_ones, Z.shiftr_div_pow2 by lia. Qed.

(** The arithmetic of pages and table indices. *)
Ltac pg :=
  rewrite ?V_PDI_div, ?V_PTI_div, ?PGROUND_div, ?PGOFFSET_mod in *; unfold PAGESZ in *;
  Z.div_mod_to_equations; lia.

Lemma PGROUND_aligned p : (PAGESZ | PGROUND p).
Proof. rewrite PGROUND_div. by exists (p / PAGESZ). Qed.
Lemma PGROUND_id p : (PAGESZ | p) → PGROUND p = p.
Proof. intros [q ->]. pg. Qed.
Lemma PGROUND_le p : PGROUND p ≤ p < PGROUND p + PAGESZ.
Proof. pg. Qed.
Lemma V_PDI_range v : 0 ≤ V_PDI v < 1024.
Proof. rewrite V_PDI_div. apply Z.mod_pos_bound. lia. Qed.
Lemma V_PTI_range v : 0 ≤ V_PTI v < 1024.
Proof. rewrite V_PTI_div. apply Z.mod_pos_bound. lia. Qed.

(** An entry is a frame and twelve flag bits. *)
Lemma lor_add frame f : (PAGESZ | frame) → 0 ≤ f < PAGESZ → Z.lor frame f = frame + f.
Proof.
  intros [q ->] Hf. rewrite <- Z.lxor_lor, <- Z.add_nocarry_lxor; [done|..];
  apply Z.bits_inj'; intros n Hn; rewrite Z.land_spec, Z.bits_0; change PAGESZ with (2 ^ 12) in *;
  (destruct (decide (n < 12)); [rewrite Z.mul_pow2_bits_low by lia; done|
   rewrite <- (Z.mod_small f (2 ^ 12)), Z.mod_pow2_bits_high by lia; by rewrite andb_false_r]).
Qed.
Lemma testbit_page_add frame f : (PAGESZ | frame) → Z.testbit (frame + f) 0 = Z.testbit f 0.
Proof. intros [q ->]. rewrite !Z.bit0_odd, Z.odd_add, Z.odd_mul. change (Z.odd PAGESZ) with false. by rewrite andb_false_r. Qed.

(** ** Words *)

Lemma byte_range m a : 0 ≤ byte m a < 256.
Proof. apply Z.mod_pos_bound. lia. Qed.
Lemma word_range m a : 0 ≤ word m a < 2 ^ 32.
Proof.
  unfold word. pose proof (byte_range m a). pose proof (byte_range m (a + 1)).
  pose proof (byte_range m (a + 2)). pose proof (byte_range m (a + 3)). lia.
Qed.
Lemma byte_insert_eq m a b : 0 ≤ b < 256 → byte (<[a := b]> m) a = b.
Proof. intros. unfold byte. rewrite lookup_insert_eq. by apply Z.mod_small. Qed.
Lemma byte_insert_ne m a a' b : a ≠ a' → byte (<[a := b]> m) a' = byte m a'.
Proof. intros. unfold byte. by rewrite lookup_insert_ne. Qed.
Lemma byte_put_word m a w a' : a' < a ∨ a + 4 ≤ a' → byte (put_word a w m) a' = byte m a'.
Proof. intros. unfold put_word. by rewrite !byte_insert_ne by lia. Qed.
Lemma word_put_eq m a w : 0 ≤ w < 2 ^ 32 → word (put_word a w m) a = w.
Proof.
  intros Hw. unfold word, put_word.
  assert (∀ x, 0 ≤ x mod 256 < 256) by (intros; apply Z.mod_pos_bound; lia).
  repeat first [rewrite byte_insert_eq by done | rewrite byte_insert_ne by lia].
  Z.div_mod_to_equations; lia.
Qed.
Lemma word_put_ne m a w b : b + 4 ≤ a ∨ a + 4 ≤ b → word (put_word a w m) b = word m b.
Proof. intros. unfold word. by rewrite !byte_put_word by lia. Qed.

(** ** The recursive mapping *)

Definition self_mapped (m : gmap Z Z) (cr3 : Z) : Prop :=
  present (word m (PGROUND cr3 + 4 * 1023)) = true ∧ PGROUND (word m (PGROUND cr3 + 4 * 1023)) = PGROUND cr3.

Lemma walk_PDE m cr3 t : self_mapped m cr3 → 0 ≤ t < 1024 → walk m cr3 (PDE t) = Some (PGROUND cr3 + 4 * t).
Proof.
  intros [Hp He] Ht. unfold walk, PDE. fold present.
  replace (V_PDI (0xfffff000 + 4 * t)) with 1023 by pg.
  replace (V_PTI (0xfffff000 + 4 * t)) with 1023 by pg.
  replace (PGOFFSET (0xfffff000 + 4 * t)) with (4 * t) by pg.
  unfold present in Hp. rewrite Hp, He, Hp. by rewrite He.
Qed.
Lemma walk_PTE m cr3 t p : self_mapped m cr3 → 0 ≤ t < 1024 → 0 ≤ p < 1024 →
  present (word m (PGROUND cr3 + 4 * t)) = true →
  walk m cr3 (PTE t p) = Some (PGROUND (word m (PGROUND cr3 + 4 * t)) + 4 * p).
Proof.
  intros [Hp He] Ht Hpp Hpt. unfold walk, PTE, present in *.
  replace (V_PDI (0xffc00000 + 0x1000 * t + 4 * p)) with 1023 by pg.
  replace (V_PTI (0xffc00000 + 0x1000 * t + 4 * p)) with t by pg.
  replace (PGOFFSET (0xffc00000 + 0x1000 * t + 4 * p)) with (4 * p) by pg.
  by rewrite Hp, He, Hpt.
Qed.
