(* ===== verification/PagingInv.v ===== *)
(** * Address spaces: the invariant and the steps of the paging code

    [entry k v] is the page-table entry of the page of [v] in the current address
    space, 0 if it has none; the translation is a function of it ([walk_entry]).
    [space_ok] says that the page directory maps itself, and that the directory and
    the page tables are distinct frames in use. *)
From S2P Require Import Prelude Dll Vmm Mmap Zone ZoneInv Paging PagingMem.

Definition dir (k : kmem) : Z := PGROUND (km_cr3 k).
Definition pde (k : kmem) (t : Z) : Z := word (km_phys k) (dir k + 4 * t).
Definition table (k : kmem) (t : Z) : Z := PGROUND (pde k t).
Definition pte (k : kmem) (t p : Z) : Z := word (km_phys k) (table k t + 4 * p).
Definition entry (k : kmem) (v : Z) : Z :=
  if present (pde k (V_PDI v)) then pte k (V_PDI v) (V_PTI v) else 0.

Lemma walk_entry k v : walk (km_phys k) (km_cr3 k) v =
  if present (entry k v) then Some (PGROUND (entry k v) + PGOFFSET v) else None.
Proof.
  unfold entry, pte, table, pde, dir, walk, present. by destruct (Z.testbit (word _ (_ + 4 * V_PDI v)) 0) eqn:E.
Qed.

Definition kref (k : kmem) (a : Z) : Z := refs (km_pmem k) a.

Record space_ok (k : kmem) : Prop := SpaceOk {
  so_pmem : pmem_ok (km_pmem k);
  so_self : self_mapped (km_phys k) (km_cr3 k);
  so_dir : kref k (dir k) ≠ 0;
  so_tables : ∀ t, 0 ≤ t < 1023 → present (pde k t) = true → kref k (table k t) ≠ 0 ∧ table k t ≠ dir k;
  so_apart : ∀ t t', 0 ≤ t < 1023 → 0 ≤ t' < 1023 → present (pde k t) = true → present (pde k t') = true →
    table k t = table k t' → t = t';
}.

(** [a] is a byte of the directory or of a table. *)
Definition in_tables (k : kmem) (a : Z) : Prop :=
  PGROUND a = dir k ∨ ∃ t, 0 ≤ t < 1023 ∧ present (pde k t) = true ∧ PGROUND a = table k t.

(** ** Stores to entries *)

Definition with_phys (m : gmap Z Z) (k : kmem) : kmem := {| k with km_phys := m |}.
Definition poke (a w : Z) (k : kmem) : kmem := with_phys (put_word a w (km_phys k)) k.

(** Words in aligned slots of frames are the same or disjoint. *)
Lemma word_slot m A B i j w : (PAGESZ | A) → (PAGESZ | B) → 0 ≤ i < 1024 → 0 ≤ j < 1024 → 0 ≤ w < 2 ^ 32 →
  word (put_word (A + 4 * i) w m) (B + 4 * j) = if decide (A = B ∧ i = j) then w else word m (B + 4 * j).
Proof.
  intros [a ->] [b ->] Hi Hj Hw. unfold PAGESZ. case_decide as E.
  - destruct E as [-> ->]. by apply word_put_eq.
  - apply word_put_ne. lia.
Qed.
Lemma byte_slot m A i w a : (PAGESZ | A) → 0 ≤ i < 1024 → PGROUND a ≠ A → byte (put_word (A + 4 * i) w m) a = byte m a.
Proof. intros [q ->] Hi Ha. apply byte_put_word. revert Ha. pg. Qed.

Lemma dir_aligned k : (PAGESZ | dir k).
Proof. apply PGROUND_aligned. Qed.
Lemma table_aligned k t : (PAGESZ | table k t).
Proof. apply PGROUND_aligned. Qed.
#[global] Hint Resolve dir_aligned table_aligned : kheap.

Lemma pde_poke_pde k t t' w : 0 ≤ t < 1024 → 0 ≤ t' < 1024 → 0 ≤ w < 2 ^ 32 →
  pde (poke (dir k + 4 * t) w k) t' = if decide (t = t') then w else pde k t'.
Proof.
  intros. unfold pde at 1. simpl. change (dir (poke _ _ k)) with (dir k).
  rewrite word_slot by eauto using dir_aligned. repeat case_decide; naive_solver.
Qed.
Lemma pde_poke_out k A i w t : (PAGESZ | A) → A ≠ dir k → 0 ≤ i < 1024 → 0 ≤ t < 1024 → 0 ≤ w < 2 ^ 32 →
  pde (poke (A + 4 * i) w k) t = pde k t.
Proof.
  intros. unfold pde at 1. simpl. change (dir (poke _ _ k)) with (dir k).
  rewrite word_slot by eauto using dir_aligned. rewrite decide_False by tauto. done.
Qed.
Lemma table_poke_out k A i w t : (PAGESZ | A) → A ≠ dir k → 0 ≤ i < 1024 → 0 ≤ t < 1024 → 0 ≤ w < 2 ^ 32 →
  table (poke (A + 4 * i) w k) t = table k t.
Proof. intros. unfold table. by rewrite pde_poke_out. Qed.
Lemma pte_poke_out k A i w t p : (PAGESZ | A) → A ≠ dir k → 0 ≤ i < 1024 → 0 ≤ t < 1024 → 0 ≤ p < 1024 → 0 ≤ w < 2 ^ 32 →
  pte (poke (A + 4 * i) w k) t p = if decide (A = table k t ∧ i = p) then w else pte k t p.
Proof.
  intros. unfold pte at 1. rewrite table_poke_out by done. simpl.
  by rewrite word_slot by eauto using table_aligned.
Qed.

(** ** Access through the recursive mapping *)

Section access.
Implicit Types k : kmem.

Lemma wp_translate k v a (Q : Z → kmem → Prop) :
  walk (km_phys k) (km_cr3 k) v = Some a → Q a k → wp (translate v) Q k.
Proof. intros Hw HQ. eapply wp_eq; [|done]. unfold translate. by rewrite Hw. Qed.
Lemma wp_load_pde k t (Q : Z → kmem → Prop) :
  self_mapped (km_phys k) (km_cr3 k) → 0 ≤ t < 1024 → Q (pde k t) k → wp (load32 (PDE t)) Q k.
Proof. intros. unfold load32. apply wp_bind. eapply wp_translate; [by apply walk_PDE|]. by apply wp_gets. Qed.
Lemma wp_store_pde k t w (Q : unit → kmem → Prop) :
  self_mapped (km_phys k) (km_cr3 k) → 0 ≤ t < 1024 → Q tt (poke (dir k + 4 * t) w k) → wp (store32 (PDE t) w) Q k.
Proof. intros. unfold store32. apply wp_bind. eapply wp_translate; [by apply walk_PDE|]. by apply wp_modify. Qed.
Lemma wp_load_pte k t p (Q : Z → kmem → Prop) :
  self_mapped (km_phys k) (km_cr3 k) → 0 ≤ t < 1024 → 0 ≤ p < 1024 → present (pde k t) = true →
  Q (pte k t p) k → wp (load32 (PTE t p)) Q k.
Proof. intros. unfold load32. apply wp_bind. eapply wp_translate; [by apply walk_PTE|]. by apply wp_gets. Qed.
Lemma wp_store_pte k t p w (Q : unit → kmem → Prop) :
  self_mapped (km_phys k) (km_cr3 k) → 0 ≤ t < 1024 → 0 ≤ p < 1024 → present (pde k t) = true →
  Q tt (poke (table k t + 4 * p) w k) → wp (store32 (PTE t p) w) Q k.
Proof. intros. unfold store32. apply wp_bind. eapply wp_translate; [by apply walk_PTE|]. by apply wp_modify. Qed.
End access.

#[global] Arguments load32 v : simpl never.
#[global] Arguments store32 v w : simpl never.
#[global] Arguments clear_table n t i : simpl never.
#[global] Arguments maptable t flags : simpl never.
#[global] Arguments map32 busy frame t p flags : simpl never.
#[global] Arguments mm_alloc : simpl never.
#[global] Arguments mm_free addr : simpl never.
#[global] Arguments PDE t : simpl never.
#[global] Arguments present raw : simpl never.
#[global] Arguments PTE t p : simpl never.

(** ** New page tables *)

Lemma word_ext m m' a : (∀ b, a ≤ b < a + 4 → byte m b = byte m' b) → word m a = word m' a.
Proof. intros H. unfold word. by rewrite !H by lia. Qed.
Lemma self_poke_out k A i w : (PAGESZ | A) → A ≠ dir k → 0 ≤ i < 1024 → 0 ≤ w < 2 ^ 32 →
  self_mapped (km_phys k) (km_cr3 k) → self_mapped (km_phys (poke (A + 4 * i) w k)) (km_cr3 (poke (A + 4 * i) w k)).
Proof.
  intros HA Hne Hi Hw [H1 H2]. split.
  - change (present (pde (poke (A + 4 * i) w k) 1023) = true). by rewrite pde_poke_out by (done || lia).
  - change (PGROUND (pde (poke (A + 4 * i) w k) 1023) = dir k). by rewrite pde_poke_out by (done || lia).
Qed.

Lemma wp_clear_table n k t i (Q : unit → kmem → Prop) :
  self_mapped (km_phys k) (km_cr3 k) → 0 ≤ t < 1024 → present (pde k t) = true → table k t ≠ dir k →
  0 ≤ i → i + Z.of_nat n ≤ 1024 →
  (∀ m, (∀ j, i ≤ j < i + Z.of_nat n → word m (table k t + 4 * j) = 0) →
     (∀ a, a < table k t + 4 * i ∨ table k t + 4 * (i + Z.of_nat n) ≤ a → byte m a = byte (km_phys k) a) →
     Q tt (with_phys m k)) →
  wp (clear_table n t i) Q k.
Proof.
  revert k i. induction n as [|n IH]; intros k i Hs Ht Hp Hd Hi Hn HQ; unfold clear_table; fold clear_table.
  - apply wp_ret. replace k with (with_phys (km_phys k) k) by (by destruct k). apply HQ; [lia|done].
  - apply wp_bind. eapply wp_store_pte; [done..|lia|done|].
    pose proof (table_aligned k t) as Hal.
    assert (table (poke (table k t + 4 * i) 0 k) t = table k t) as HT by (by apply table_poke_out; try lia).
    apply IH; rewrite ?HT; try done; try lia.
    + apply self_poke_out; (done || lia).
    + by rewrite pde_poke_out by (done || lia).
    + intros m Hz Hb. change (Q tt (with_phys m k)). apply HQ.
      * intros j Hj. destruct (decide (j = i)) as [->|]; [|apply Hz; lia].
        rewrite (word_ext m (put_word (table k t + 4 * i) 0 (km_phys k))); [by apply word_put_eq|].
        intros b Hb'. apply Hb. lia.
      * intros a Ha. rewrite Hb by lia. simpl. apply byte_put_word. lia.
Qed.

(** [k'] is [k] with a new, empty table [f] for index [t]. *)
Record new_table (k k' : kmem) (t f : Z) : Prop := NewTable {
  nt_ok : space_ok k';
  nt_cr3 : km_cr3 k' = km_cr3 k;
  nt_vmm : km_vmm k' = km_vmm k;
  nt_free : kref k f = 0;
  nt_range : 0x1000000 ≤ f < norm_end (km_pmem k);
  nt_aligned : (PAGESZ | f);
  nt_refs : ∀ b, kref k' b = if same_page f b then 1 else kref k b;
  nt_end : norm_end (km_pmem k') = norm_end (km_pmem k);
  nt_other : ∀ t', 0 ≤ t' < 1024 → t' ≠ t → pde k' t' = pde k t';
  nt_present : present (pde k' t) = true;
  nt_table : table k' t = f;
  nt_empty : ∀ p, 0 ≤ p < 1024 → pte k' t p = 0;
  nt_byte : ∀ a, PGROUND a ≠ f → PGROUND a ≠ dir k → byte (km_phys k') a = byte (km_phys k) a;
  nt_tlb : km_tlb k `suffix_of` km_tlb k';
}.

Lemma new_table_pte k k' t f t' p : space_ok k → new_table k k' t f → 0 ≤ t' < 1023 → 0 ≤ p < 1024 → t' ≠ t →
  present (pde k t') = true → pte k' t' p = pte k t' p.
Proof.
  intros Hok Hn Ht' Hp Hne Hpr. destruct (so_tables _ Hok t' Ht' Hpr) as [Hr Hd].
  unfold pte, table. rewrite (nt_other _ _ _ _ Hn) by lia. fold (table k t').
  apply word_ext. intros b Hb. assert (PGROUND b = table k t') as Hpg.
  { destruct (table_aligned k t') as [q E]. rewrite E in *. pg. }
  apply (nt_byte _ _ _ _ Hn); rewrite Hpg; [|done].
  intros E. apply Hr. rewrite E. exact (nt_free _ _ _ _ Hn).
Qed.
Lemma new_table_entry k k' t f v : space_ok k → new_table k k' t f → 0 ≤ t < 1023 → present (pde k t) = false →
  V_PDI v ≠ 1023 → entry k' v = entry k v.
Proof.
  intros Hok Hn Ht Hno Hv. pose proof (V_PDI_range v). pose proof (V_PTI_range v). unfold entry.
  destruct (decide (V_PDI v = t)) as [->|Hne].
  - rewrite (nt_present _ _ _ _ Hn), Hno. by apply (nt_empty _ _ _ _ Hn).
  - rewrite (nt_other _ _ _ _ Hn) by lia. destruct (present (pde k (V_PDI v))) eqn:E; [|done].
    eapply new_table_pte; try done. lia.
Qed.

Lemma same_page_spec a b : same_page a b = true ↔ a / PAGESZ = b / PAGESZ.
Proof. apply bool_decide_eq_true. Qed.
Lemma same_page_aligned a b : (PAGESZ | a) → (PAGESZ | b) → same_page a b = true → a = b.
Proof. intros [x ->] [y ->] H%same_page_spec. revert H. unfold PAGESZ. Z.div_mod_to_equations; lia. Qed.
Lemma same_page_refl a : same_page a a = true.
Proof. by apply same_page_spec. Qed.

Lemma new_table_intro k k' t f e :
  space_ok k → 0 ≤ t < 1023 → present (pde k t) = false →
  0x1000000 ≤ f < norm_end (km_pmem k) → (PAGESZ | f) → kref k f = 0 →
  pmem_ok (km_pmem k') → (∀ b, kref k' b = if same_page f b then 1 else kref k b) →
  norm_end (km_pmem k') = norm_end (km_pmem k) → km_cr3 k' = km_cr3 k → km_vmm k' = km_vmm k →
  km_tlb k `suffix_of` km_tlb k' →
  0 ≤ e < 2 ^ 32 → present e = true → PGROUND e = f →
  (∀ j, 0 ≤ j < 1024 → word (km_phys k') (f + 4 * j) = 0) →
  (∀ a, PGROUND a ≠ f → byte (km_phys k') a = byte (put_word (dir k + 4 * t) e (km_phys k)) a) →
  new_table k k' t f.
Proof.
  intros Hok Ht Hno Hf Hal Hfr Hpm Hrf He Hc Hv Htl Hew Hep Hef Hz Hb.
  assert (Hdir : dir k' = dir k) by (unfold dir; by rewrite Hc).
  assert (Hfd : f ≠ dir k) by (intros ->; by destruct (so_dir _ Hok)).
  assert (Hpde : ∀ t', 0 ≤ t' < 1024 → pde k' t' = if decide (t = t') then e else pde k t').
  { intros t' Ht'. rewrite <- (pde_poke_pde k t t' e) by lia. unfold pde. rewrite Hdir. change (dir (poke _ _ k)) with (dir k).
    apply word_ext. intros b Hb'. apply Hb. destruct (dir_aligned k) as [q E]. rewrite E in *. clear -Hfd Hb' Ht'. pg. }
  assert (Hpt : pde k' t = e) by (rewrite Hpde by lia; by rewrite decide_True).
  assert (Hne : ∀ a, (PAGESZ | a) → kref k a ≠ 0 → kref k' a ≠ 0 ∧ f ≠ a).
  { intros a Ha Hr. split; [|by intros ->]. rewrite Hrf. by case_match. }
  assert (Hold : ∀ t', 0 ≤ t' < 1023 → t' ≠ t → present (pde k' t') = true → present (pde k t') = true ∧ table k' t' = table k t').
  { intros t' Ht' Hn. unfold table. rewrite Hpde by lia. by rewrite decide_False by congruence. }
  split; try done; [split; try done|..].
  - unfold self_mapped. change (present (pde k' 1023) = true ∧ PGROUND (pde k' 1023) = dir k').
    rewrite Hdir, Hpde, decide_False by lia. apply (so_self _ Hok).
  - rewrite Hdir. apply Hne; [apply dir_aligned|apply Hok].
  - intros t' Ht' Hp. rewrite Hdir. destruct (decide (t' = t)) as [->|Hn].
    + unfold table. rewrite Hpt, Hef. split; [|done]. rewrite Hrf. by rewrite same_page_refl.
    + destruct (Hold t' Ht' Hn Hp) as [Hp' ->]. destruct (so_tables _ Hok t' Ht' Hp').
      split; [|done]. apply Hne; [apply table_aligned|done].
  - assert (Hcl : ∀ t', 0 ≤ t' < 1023 → t' ≠ t → present (pde k' t') = true → table k' t ≠ table k' t').
    { intros t' Ht' Hn Hp. destruct (Hold t' Ht' Hn Hp) as [Hp' ->]. unfold table at 1. rewrite Hpt, Hef.
      apply Hne; [apply table_aligned|by apply (so_tables _ Hok)]. }
    intros t1 t2 H1 H2 P1 P2 E. destruct (decide (t1 = t)) as [->|N1], (decide (t2 = t)) as [->|N2]; [done|..].
    + by destruct (Hcl t2 H2 N2 P2).
    + by destruct (Hcl t1 H1 N1 P1).
    + destruct (Hold t1 H1 N1 P1) as [P1' E1], (Hold t2 H2 N2 P2) as [P2' E2]. rewrite E1, E2 in E.
      by apply (so_apart _ Hok).
  - intros t' Ht' Hn. rewrite Hpde by lia. by rewrite decide_False by congruence.
  - by rewrite Hpt.
  - unfold table. by rewrite Hpt.
  - intros p Hp. unfold pte, table. rewrite Hpt, Hef. by apply Hz.
  - intros a H1 H2. rewrite Hb by done. apply byte_slot; [apply dir_aligned|lia|done].
Qed.

Definition with_tlb (l : list tlb_op) (k : kmem) : kmem := {| k with km_tlb := l |}.

(** The flags of a new table. *)
Definition table_flags (flags : Z) : Z :=
  PGOFFSET (if has flags VM_U then Z.lor (Z.lor flags VM_PWT) VM_UW else Z.lor flags VM_PWT).
Lemma table_flags_range flags : 0 ≤ table_flags flags < PAGESZ.
Proof. unfold table_flags. rewrite PGOFFSET_mod. by apply Z.mod_pos_bound. Qed.
Lemma table_flags_present flags : Z.testbit flags 0 = true → Z.testbit (table_flags flags) 0 = true.
Proof.
  intros Hf. unfold table_flags, PGOFFSET. rewrite Z.land_spec. case_match; by rewrite !Z.lor_spec, Hf.
Qed.
Lemma entry_parts frame f : (PAGESZ | frame) → 0 ≤ frame < 2 ^ 32 → 0 ≤ f < PAGESZ → Z.testbit f 0 = true →
  0 ≤ Z.lor frame f < 2 ^ 32 ∧ present (Z.lor frame f) = true ∧ PGROUND (Z.lor frame f) = frame ∧ PGOFFSET (Z.lor frame f) = f.
Proof.
  intros Ha Hr Hf Hb. rewrite lor_add by done. split_and!.
  - destruct Ha as [q ->]. unfold PAGESZ in *. lia.
  - destruct Ha as [q ->]. unfold PAGESZ in *. lia.
  - unfold present. by rewrite testbit_page_add.
  - destruct Ha as [q ->]. pg.
  - destruct Ha as [q ->]. pg.
Qed.

Lemma wp_maptable k t flags (Q : Z → kmem → Prop) :
  space_ok k → 0 ≤ t < 1023 → present (pde k t) = false → Z.testbit flags 0 = true →
  ((∀ b, 0x1000000 ≤ b < norm_end (km_pmem k) → kref k b ≠ 0) → Q (- ENOMEM) k) →
  (∀ f k', new_table k k' t f → PGOFFSET (pde k' t) = table_flags flags → Q 0 k') →
  wp (maptable t flags) Q k.
Proof.
  intros Hok Ht Hno Hfl HN HS. unfold maptable. apply wp_bind, wp_on. apply wp_mm_alloc; [apply Hok|..].
  { intros Hall. rewrite set_part_part. rewrite bool_decide_true by done. by apply wp_ret, HN. }
  intros f s' Hf Hal Hr0 _ Hpm Hrf Hne. rewrite bool_decide_false by lia.
  assert (Hf32 : 0 ≤ f < 2 ^ 32).
  { pose proof (norm_end_le _ (so_pmem _ Hok)). change (part k) with (km_pmem k) in *.
    assert (MMAP_DEVADDR < 2 ^ 32) by done. lia. }
  destruct (entry_parts f (table_flags flags) Hal Hf32 (table_flags_range _) (table_flags_present _ Hfl)) as (He & Hp & Hg & Ho).
  set (e := Z.lor f (table_flags flags)) in *. set (k1 := set_part s' k).
  assert (Hself : self_mapped (km_phys k1) (km_cr3 k1)) by apply Hok.
  apply wp_bind. apply (wp_mono _ (λ _ k2, k2 = poke (dir k + 4 * t) e k1)).
  { unfold e, table_flags. rewrite (PGROUND_id f) by done. case_match; (apply wp_store_pde; [done|lia|done]). }
  intros _ k2 ->. apply wp_bind.
  apply (wp_mono _ (λ _ k3, ∃ l, k3 = with_tlb l (poke (dir k + 4 * t) e k1) ∧ km_tlb k `suffix_of` l)).
  { case_bool_decide.
    - apply wp_modify. eexists. split; [done|]. by apply suffix_cons_r.
    - apply wp_ret. exists (km_tlb k). by split. }
  intros _ k3 (l & -> & Hl). apply wp_bind, wp_modify.
  change (wp (clear_table 1024 t 0;; paging_invlpg (PTE t 0);; mret 0) Q (with_tlb (Invlpg (PTE t 0) :: l) (poke (dir k + 4 * t) e k1))).
  set (k3 := with_tlb _ (poke (dir k + 4 * t) e k1)).
  assert (Hpk : ∀ t', 0 ≤ t' < 1024 → pde k3 t' = if decide (t = t') then e else pde k t')
    by (intros; apply (pde_poke_pde k1 t t' e); lia).
  assert (Hpt : pde k3 t = e) by (rewrite Hpk by lia; by rewrite decide_True).
  assert (Hfd : f ≠ dir k) by (intros ->; by destruct (so_dir _ Hok)).
  assert (HT : table k3 t = f) by (unfold table; by rewrite Hpt).
  apply wp_bind. apply wp_clear_table; rewrite ?HT, ?Hpt; try done; try lia.
  { change (present (pde k3 1023) = true ∧ PGROUND (pde k3 1023) = dir k).
    rewrite Hpk, decide_False by lia. apply (so_self _ Hok). }
  intros m Hz Hb. apply wp_bind, wp_modify, wp_ret. apply (HS f).
  - apply (new_table_intro k _ t f e); try done; try lia.
    + simpl. apply suffix_cons_r, suffix_cons_r. done.
    + intros a Ha. apply Hb. clear -Ha Hal. destruct Hal as [q ->]. revert Ha. pg.
  - assert (E : ∀ l', pde (with_tlb l' (with_phys m k3)) t = pde k3 t); [|by rewrite <- Ho, <- Hpt, <- (E (Invlpg (PTE t 0) :: km_tlb k3))].
    intros l'. apply word_ext. intros b Hb'. apply Hb. revert Hb'. change (dir _) with (dir k).
    clear -Hfd Hal Ht. destruct (dir_aligned k) as [q E], Hal as [q' ->]. rewrite E in *. pg.
Qed.

(** ** Changing one entry *)

Lemma V_PDI_page v : 0 ≤ v < 2 ^ 32 → V_PDI v = v / PAGESZ / 1024.
Proof.
  intros. rewrite V_PDI_div, Z.div_div by done. change (PAGESZ * 1024) with 0x400000.
  apply Z.mod_small. Z.div_mod_to_equations; lia.
Qed.
Lemma same_page_indices v v' : 0 ≤ v < 2 ^ 32 → 0 ≤ v' < 2 ^ 32 →
  same_page v v' = true ↔ V_PDI v = V_PDI v' ∧ V_PTI v = V_PTI v'.
Proof.
  intros Hv Hv'. rewrite same_page_spec, !V_PTI_div, (V_PDI_page v), (V_PDI_page v') by done. change 0x1000 with PAGESZ.
  split; [by intros ->|]. intros [E1 E2].
  rewrite (Z.div_mod (v / PAGESZ) 1024), (Z.div_mod (v' / PAGESZ) 1024) by lia. by rewrite E1, E2.
Qed.
Lemma VADDR_indices v : 0 ≤ v < 2 ^ 32 → (PAGESZ | v) → VADDR (V_PDI v) (V_PTI v) = v.
Proof.
  intros Hv [q E]. unfold VADDR. change 1023 with (Z.ones 10). rewrite !Z.land_ones by lia.
  pose proof (V_PTI_range v). pose proof (V_PDI_range v).
  rewrite (Z.mod_small (V_PDI v)), (Z.mod_small (V_PTI v)) by lia. rewrite !Z.shiftl_mul_pow2 by lia.
  rewrite <- Z.lxor_lor, <- Z.add_nocarry_lxor.
  - rewrite V_PDI_page, V_PTI_div by done. change 0x1000 with PAGESZ. rewrite E, Z.div_mul by done.
    change PAGESZ with (2 ^ 12). pose proof (Z.div_mod q 1024). lia.
  - apply Z.bits_inj'; intros n Hn; rewrite Z.land_spec, Z.bits_0. destruct (decide (n < 22)).
    + by rewrite Z.mul_pow2_bits_low by lia.
    + rewrite <- (Z.mod_small (V_PTI v * 2 ^ 12) (2 ^ 22)) by lia.
      by rewrite (Z.mod_pow2_bits_high (V_PTI v * 2 ^ 12)), andb_false_r by lia.
  - apply Z.bits_inj'; intros n Hn; rewrite Z.land_spec, Z.bits_0. destruct (decide (n < 22)).
    + by rewrite Z.mul_pow2_bits_low by lia.
    + rewrite <- (Z.mod_small (V_PTI v * 2 ^ 12) (2 ^ 22)) by lia.
      by rewrite (Z.mod_pow2_bits_high (V_PTI v * 2 ^ 12)), andb_false_r by lia.
Qed.

Section set_pte.
Context (k : kmem) (t p w : Z) (Hok : space_ok k) (Ht : 0 ≤ t < 1023) (Hp : 0 ≤ p < 1024)
  (Hpr : present (pde k t) = true) (Hw : 0 ≤ w < 2 ^ 32).
Let k' := poke (table k t + 4 * p) w k.

Lemma set_pte_pde t' : 0 ≤ t' < 1024 → pde k' t' = pde k t'.
Proof using All. intros. apply pde_poke_out; [apply table_aligned|by apply (so_tables _ Hok)|done..]. Qed.
Lemma set_pte_table t' : 0 ≤ t' < 1024 → table k' t' = table k t'.
Proof using All. intros. unfold table. by rewrite set_pte_pde. Qed.
Lemma set_pte_pte t' p' : 0 ≤ t' < 1023 → 0 ≤ p' < 1024 → present (pde k t') = true →
  pte k' t' p' = if decide (t = t' ∧ p = p') then w else pte k t' p'.
Proof using All.
  intros Ht' Hp' Hpr'. unfold k'. rewrite pte_poke_out; [|apply table_aligned|by apply (so_tables _ Hok)|lia..].
  destruct (decide (t = t' ∧ p = p')) as [[E1 E2]|N]; [by rewrite decide_True by (by rewrite <- E1)|].
  rewrite decide_False; [done|]. intros [E1 E2]. apply N. split; [|done]. by apply (so_apart _ Hok).
Qed.
Lemma set_pte_ok : space_ok k'.
Proof using All.
  split; [apply Hok|..].
  - apply self_poke_out; [apply table_aligned|by apply (so_tables _ Hok)|done..|apply Hok].
  - apply Hok.
  - intros t' Ht'. rewrite set_pte_pde, set_pte_table by lia. by apply (so_tables _ Hok).
  - intros t1 t2 H1 H2. rewrite !set_pte_pde, !set_pte_table by lia. by apply (so_apart _ Hok).
Qed.
Lemma set_pte_byte a : ¬ in_tables k a → byte (km_phys k') a = byte (km_phys k) a.
Proof using All. intros Ha. apply byte_slot; [apply table_aligned|done|]. intros E. apply Ha. right. eauto. Qed.
Lemma set_pte_in a : in_tables k' a ↔ in_tables k a.
Proof using All.
  unfold in_tables. change (dir k') with (dir k). split; (intros [?|(t' & ? & H1 & H2)]; [by left|right; exists t']).
  - rewrite set_pte_pde in H1 by lia. rewrite set_pte_table in H2 by lia. done.
  - rewrite set_pte_pde, set_pte_table by lia. done.
Qed.
Lemma set_pte_entry v : V_PDI v ≠ 1023 →
  entry k' v = if decide (t = V_PDI v ∧ p = V_PTI v) then w else entry k v.
Proof using All.
  intros Hv. pose proof (V_PDI_range v). pose proof (V_PTI_range v). unfold entry. rewrite set_pte_pde by lia.
  destruct (present (pde k (V_PDI v))) eqn:E; [apply set_pte_pte; (done || lia)|].
  rewrite decide_False; [done|]. intros [E1 _]. rewrite <- E1 in E. congruence.
Qed.
End set_pte.

(** ** Mapping a page *)

(** Memory is exhausted: no frame for a page table is left. *)
Definition mem_full (k : kmem) : Prop := ∀ b, 0x1000000 ≤ b < norm_end (km_pmem k) → kref k b ≠ 0.

(** [k'] is [k] with [e] as the entry of page [v]; a page table was made if [v] had none. *)
Record mapped (k k' : kmem) (v e : Z) : Prop := Mapped {
  ma_ok : space_ok k';
  ma_cr3 : km_cr3 k' = km_cr3 k;
  ma_vmm : km_vmm k' = km_vmm k;
  ma_entry : ∀ v', 0 ≤ v' < 2 ^ 32 → V_PDI v' ≠ 1023 → entry k' v' = if same_page v v' then e else entry k v';
  ma_pmem : present (pde k (V_PDI v)) = true → km_pmem k' = km_pmem k;
  ma_fresh : present (pde k (V_PDI v)) = false → ∃ f, kref k f = 0 ∧ 0x1000000 ≤ f < norm_end (km_pmem k) ∧ (PAGESZ | f) ∧
    ∀ b, kref k' b = if same_page f b then 1 else kref k b;
  ma_end : norm_end (km_pmem k') = norm_end (km_pmem k);
  ma_byte : ∀ a, ¬ in_tables k a → kref k (PGROUND a) ≠ 0 → byte (km_phys k') a = byte (km_phys k) a;
  ma_tables : ∀ a, in_tables k' a → in_tables k a ∨ kref k (PGROUND a) = 0;
  ma_pde : ∀ t, 0 ≤ t < 1024 → present (pde k t) = true → pde k' t = pde k t;
  ma_has : present (pde k' (V_PDI v)) = true;
  ma_quiet : present (pde k (V_PDI v)) = true →
    (∀ a, ¬ in_tables k a → byte (km_phys k') a = byte (km_phys k) a) ∧ (∀ a, in_tables k' a ↔ in_tables k a);
  ma_tlb : Invlpg v ∈ km_tlb k' ∧ km_tlb k `suffix_of` km_tlb k';
}.

Lemma mapped_kref k k' v e b : mapped k k' v e → kref k b ≠ 0 → kref k' b ≠ 0.
Proof.
  intros Hm Hb. destruct (present (pde k (V_PDI v))) eqn:E.
  - unfold kref. by rewrite (ma_pmem _ _ _ _ Hm E).
  - destruct (ma_fresh _ _ _ _ Hm E) as (f & _ & _ & _ & ->). by case_match.
Qed.

Lemma new_table_in k k' t f a : space_ok k → new_table k k' t f → in_tables k' a → in_tables k a ∨ PGROUND a = f.
Proof.
  intros Hok Hn [E|(t' & Ht' & Hp & E)].
  - left. left. rewrite E. unfold dir. by rewrite (nt_cr3 _ _ _ _ Hn).
  - destruct (decide (t' = t)) as [->|]; [right; by rewrite E, (nt_table _ _ _ _ Hn)|].
    left. right. exists t'. unfold table in *. rewrite (nt_other _ _ _ _ Hn) in Hp, E by lia. done.
Qed.
(** The entry is written once the table is there. *)
Lemma mapped_intro k k1 v e l :
  space_ok k → space_ok k1 → 0 ≤ v < 2 ^ 32 → V_PDI v ≠ 1023 → 0 ≤ e < 2 ^ 32 →
  (k1 = k ∧ present (pde k (V_PDI v)) = true ∨
   ∃ f, present (pde k (V_PDI v)) = false ∧ new_table k k1 (V_PDI v) f) →
  Invlpg v ∈ l → km_tlb k1 `suffix_of` l →
  mapped k (with_tlb l (poke (table k1 (V_PDI v) + 4 * V_PTI v) e k1)) v e.
Proof.
  intros Hok Hok1 Hv Hnd He Hcase Hin Hsuf. pose proof (V_PDI_range v) as Ht. pose proof (V_PTI_range v) as Hp.
  assert (Ht' : 0 ≤ V_PDI v < 1023) by lia.
  assert (Hpr : present (pde k1 (V_PDI v)) = true) by (destruct Hcase as [[-> ?]|(f & _ & Hn)]; [done|apply Hn]).
  assert (Hent : ∀ v', V_PDI v' ≠ 1023 → entry k1 v' = entry k v').
  { intros v' Hv'. destruct Hcase as [[-> ?]|(f & ? & Hn)]; [done|]. by eapply new_table_entry. }
  assert (Htl : km_tlb k `suffix_of` l).
  { etrans; [|done]. destruct Hcase as [[-> ?]|(f & _ & Hn)]; [done|apply Hn]. }
  set (k2 := poke (table k1 (V_PDI v) + 4 * V_PTI v) e k1).
  pose proof (set_pte_ok k1 _ (V_PTI v) e Hok1 Ht' Hp Hpr He) as Hok2. fold k2 in Hok2.
  split; try done.
  - by destruct Hok2; split.
  - destruct Hcase as [[-> ?]|(f & _ & Hn)]; [done|exact (nt_cr3 _ _ _ _ Hn)].
  - destruct Hcase as [[-> ?]|(f & _ & Hn)]; [done|exact (nt_vmm _ _ _ _ Hn)].
  - intros v' Hv' Hnd'. change (entry (with_tlb l k2) v') with (entry k2 v').
    unfold k2. rewrite (set_pte_entry k1) by done. rewrite Hent by done.
    destruct (same_page v v') eqn:E.
    + by rewrite decide_True by (by apply same_page_indices).
    + rewrite decide_False; [done|]. intros ?%same_page_indices; [congruence|done..].
  - destruct Hcase as [[-> ?]|(f & ? & Hn)]; [done|congruence].
  - destruct Hcase as [[-> ?]|(f & ? & Hn)]; [congruence|]. intros _. exists f. by destruct Hn.
  - destruct Hcase as [[-> ?]|(f & ? & Hn)]; [done|exact (nt_end _ _ _ _ Hn)].
  - intros a Ha Hr. transitivity (byte (km_phys k1) a).
    + apply (set_pte_byte k1); try done. destruct Hcase as [[-> ?]|(f & ? & Hn)]; [done|].
      intros [?|E]%(new_table_in k k1 (V_PDI v) f); [done| |done..]. by rewrite E, (nt_free _ _ _ _ Hn) in Hr.
    + destruct Hcase as [[-> ?]|(f & ? & Hn)]; [done|]. apply (nt_byte _ _ _ _ Hn).
      * intros E. by rewrite E, (nt_free _ _ _ _ Hn) in Hr.
      * intros E. apply Ha. by left.
  - intros a Ha. change (in_tables k2 a) in Ha. apply (set_pte_in k1) in Ha; [|done..].
    destruct Hcase as [[-> ?]|(f & ? & Hn)]; [by left|]. apply (new_table_in k k1 (V_PDI v) f) in Ha as [?|E]; [by left| |done..].
    right. rewrite E. exact (nt_free _ _ _ _ Hn).
  - intros t H1 H2. change (pde (with_tlb l k2) t) with (pde k2 t). unfold k2. rewrite (set_pte_pde k1) by done.
    destruct Hcase as [[-> ?]|(f & ? & Hn)]; [done|]. apply (nt_other _ _ _ _ Hn); [done|congruence].
  - change (pde (with_tlb l k2) (V_PDI v)) with (pde k2 (V_PDI v)). unfold k2. by rewrite (set_pte_pde k1) by done.
  - intros Hp0. destruct Hcase as [[-> ?]|(f & ? & Hn)]; [|congruence].
    split; intros a; [by apply (set_pte_byte k)|by apply (set_pte_in k)].
Qed.

Lemma wp_map32 busy k frame v flags (Q : Z → kmem → Prop) :
  space_ok k → 0 ≤ v < 2 ^ 32 → (PAGESZ | v) → V_PDI v ≠ 1023 →
  0 ≤ frame < 2 ^ 32 → (PAGESZ | frame) → 0 ≤ flags < PAGESZ → Z.testbit flags 0 = true →
  (present (entry k v) = true → wp busy Q k) →
  (present (pde k (V_PDI v)) = false → mem_full k → Q (- ENOMEM) k) →
  (present (entry k v) = false → ∀ k', mapped k k' v (Z.lor frame flags) → Q 0 k') →
  wp (map32 busy frame (V_PDI v) (V_PTI v) flags) Q k.
Proof.
  intros Hok Hv Hva Hnd Hf Hfa Hfl Hfp HB HN HS. pose proof (V_PDI_range v) as Ht. pose proof (V_PTI_range v) as Hp.
  destruct (entry_parts frame flags Hfa Hf Hfl Hfp) as (He & _ & _ & _).
  assert (Hrest : ∀ k1, space_ok k1 → (k1 = k ∧ present (pde k (V_PDI v)) = true ∨
      ∃ f, present (pde k (V_PDI v)) = false ∧ new_table k k1 (V_PDI v) f) → present (pde k1 (V_PDI v)) = true →
    (present (entry k1 v) = true → wp busy Q k1) →
    (present (entry k1 v) = false → present (entry k v) = false) →
    wp (pte ← load32 (PTE (V_PDI v) (V_PTI v));
        if present pte then busy else
        store32 (PTE (V_PDI v) (V_PTI v)) (u32 (Z.lor (PGROUND frame) flags));;
        paging_invlpg (VADDR (V_PDI v) (V_PTI v));; mret 0) Q k1).
  { intros k1 Hok1 Hc Hp1 HB1 HS1. unfold entry in HB1, HS1. rewrite Hp1 in HB1, HS1.
    apply wp_bind. apply wp_load_pte; [apply Hok1|lia|lia|done|]. destruct (present (pte k1 _ _)) eqn:E; [by apply HB1|].
    apply wp_bind. apply wp_store_pte; [apply Hok1|lia|lia|done|]. apply wp_bind, wp_modify, wp_ret.
    rewrite PGROUND_id, u32_small, VADDR_indices by done. apply HS; [by apply HS1|].
    apply (mapped_intro k k1 v _ (Invlpg v :: km_tlb k1)); try done; [left|by apply suffix_cons_r]. }
  unfold map32. apply wp_bind, wp_kassert.
  { apply bool_decide_eq_true. by apply page_aligned. }
  apply wp_bind, wp_kassert. { by rewrite bool_decide_false by lia. }
  apply wp_bind. apply wp_load_pde; [apply Hok|lia|]. apply wp_bind.
  destruct (present (pde k (V_PDI v))) eqn:E.
  - apply wp_ret. rewrite bool_decide_false by tauto. apply Hrest; auto.
  - apply wp_maptable; [done|lia|done|done|..].
    + intros Hfull. rewrite bool_decide_true by done. apply wp_ret. by apply HN.
    + intros f k1 Hn _. rewrite bool_decide_false by tauto. apply Hrest; [apply Hn|by right; eauto|apply Hn|..].
      * unfold entry. rewrite (nt_present _ _ _ _ Hn), (nt_empty _ _ _ _ Hn) by done. done.
      * intros _. unfold entry. by rewrite E.
Qed.

(** ** Unmapping a page *)

(** Freeing any frame but frame 0, managed by the zones or not. *)
Lemma wp_mm_free_any s a (Q : unit → pmem → Prop) :
  pmem_ok s → (PAGESZ | a) → 0 < a < 2 ^ 32 →
  (∀ s', pmem_ok s' → (∀ b, refs s' b = if same_page a b then Z.max 0 (refs s a - 1) else refs s b) →
    norm_end s' = norm_end s → Q tt s') →
  wp (mm_free a) Q s.
Proof.
  intros Hok Hal Ha HQ. destruct (decide (a < norm_end s)).
  - destruct (frame_exists s a Hok) as (z & v & i & g & Hf); [lia|]. eapply wp_mm_free; [done..|lia|done].
  - unfold mm_free, page_put_at, pages_put_at. rewrite bool_decide_false by lia.
    change (u32 (u32 (Z.shiftl 1 0) * PAGESZ)) with PAGESZ.
    apply wp_bind. apply wp_get_mmzone_none; [done|lia|..].
    { destruct Hal as [q ->]. unfold PAGESZ in *. lia. }
    apply wp_ret, HQ; [done| |done].
    assert (∀ b, same_page a b = true → refs s b = 0) as H0; [|intros b; destruct (same_page a b) eqn:E; [by rewrite (H0 b E), (H0 a (same_page_refl a))|done]].
    intros b Hb%same_page_spec. destruct (zones_shape s Hok) as (d & n' & h & E & _ & _ & _ & _ & Hn & Hnv & _).
    pose proof (norm_end_zone _ _ Hn) as He. destruct (po_wf _ Hok _ _ Hn Hnv) as [_ [_ ? _ _ _ _ _]].
    unfold refs, frame_index. rewrite E. rewrite !bool_decide_false; [done|..];
      destruct Hal as [q ->]; unfold PAGESZ in *; Z.div_mod_to_equations; lia.
Qed.

Definition with_pmem (s : pmem) (k : kmem) : kmem := {| k with km_pmem := s |}.
Lemma space_ok_pmem k s' : space_ok k → pmem_ok s' →
  (∀ a, (PAGESZ | a) → in_tables k a → refs s' a ≠ 0) → space_ok (with_pmem s' k).
Proof.
  intros Hok Hs Hr. split; [done|apply Hok|..].
  - apply Hr; [apply dir_aligned|]. left. by apply PGROUND_id, dir_aligned.
  - intros t Ht Hp. destruct (so_tables _ Hok t Ht Hp). split; [|done].
    apply Hr; [apply table_aligned|]. right. exists t. split; [done|]. split; [done|]. apply PGROUND_id, table_aligned.
  - intros. by apply (so_apart _ Hok).
Qed.
Lemma space_ok_tlb k l : space_ok k → space_ok (with_tlb l k).
Proof. intros [? ? ? H4 H5]. split; [done|done|done|exact H4|exact H5]. Qed.
Lemma in_tables_kref k a : space_ok k → (PAGESZ | a) → in_tables k a → kref k a ≠ 0.
Proof.
  intros Hok Ha [E|(t & Ht & Hp & E)]; rewrite (PGROUND_id a Ha) in E; rewrite E; [apply Hok|by apply (so_tables _ Hok)].
Qed.

(** [k'] is [k] without the mapping of page [v]; its frame has one reference less. *)
Record unmapped (k k' : kmem) (v : Z) : Prop := Unmapped {
  um_ok : space_ok k';
  um_cr3 : km_cr3 k' = km_cr3 k;
  um_vmm : km_vmm k' = km_vmm k;
  um_entry : ∀ v', 0 ≤ v' < 2 ^ 32 → V_PDI v' ≠ 1023 → entry k' v' = if same_page v v' then 0 else entry k v';
  um_refs : ∀ b, kref k' b = if same_page (PGROUND (entry k v)) b then Z.max 0 (kref k (PGROUND (entry k v)) - 1) else kref k b;
  um_end : norm_end (km_pmem k') = norm_end (km_pmem k);
  um_byte : ∀ a, ¬ in_tables k a → byte (km_phys k') a = byte (km_phys k) a;
  um_tables : ∀ a, in_tables k' a ↔ in_tables k a;
  um_tlb : Invlpg v ∈ km_tlb k' ∧ km_tlb k `suffix_of` km_tlb k';
}.

Lemma unmapped_intro k s' v :
  space_ok k → 0 ≤ v < 2 ^ 32 → V_PDI v ≠ 1023 → present (pde k (V_PDI v)) = true →
  ¬ in_tables k (PGROUND (entry k v)) → pmem_ok s' → norm_end s' = norm_end (km_pmem k) →
  (∀ b, refs s' b = if same_page (PGROUND (entry k v)) b then Z.max 0 (kref k (PGROUND (entry k v)) - 1) else kref k b) →
  unmapped k (with_tlb (Invlpg v :: km_tlb k) (poke (table k (V_PDI v) + 4 * V_PTI v) 0 (with_pmem s' k))) v.
Proof.
  intros Hok Hv Hnd Hpr Hni Hs He Hrf. pose proof (V_PDI_range v) as Ht. pose proof (V_PTI_range v) as Hp.
  assert (Ht' : 0 ≤ V_PDI v < 1023) by lia.
  assert (Hok1 : space_ok (with_pmem s' k)).
  { apply space_ok_pmem; [done..|]. intros a Ha Hin. rewrite Hrf. case_match eqn:E; [|by apply in_tables_kref].
    exfalso. apply Hni. apply same_page_aligned in E as ->; [done|apply PGROUND_aligned|done]. }
  change (table k (V_PDI v)) with (table (with_pmem s' k) (V_PDI v)).
  set (k1 := with_pmem s' k) in *. set (k2 := poke _ 0 k1).
  pose proof (set_pte_ok k1 _ (V_PTI v) 0 Hok1 Ht' Hp Hpr ltac:(lia)) as Hok2. fold k2 in Hok2.
  split; try done.
  - by apply space_ok_tlb.
  - intros v' Hv' Hnd'. change (entry (with_tlb _ k2) v') with (entry k2 v').
    unfold k2. rewrite (set_pte_entry k1) by done. destruct (same_page v v') eqn:E.
    + by rewrite decide_True by (by apply same_page_indices).
    + rewrite decide_False; [done|]. intros ?%same_page_indices; [congruence|done..].
  - intros a Ha. by apply (set_pte_byte k1).
  - intros a. by apply (set_pte_in k1).
  - simpl. split; [left|]. by apply suffix_cons_r.
Qed.

Lemma wp_unmap_32bit k v (Q : Z → kmem → Prop) :
  space_ok k → 0 ≤ v < 2 ^ 32 → (PAGESZ | v) → V_PDI v ≠ 1023 → present (entry k v) = true →
  PGROUND (entry k v) ≠ 0 → ¬ in_tables k (PGROUND (entry k v)) →
  (∀ k', unmapped k k' v → Q 0 k') →
  wp (unmap_32bit (V_PDI v) (V_PTI v)) Q k.
Proof.
  intros Hok Hv Hva Hnd Hpe Hnz Hni HQ. pose proof (V_PDI_range v) as Ht. pose proof (V_PTI_range v) as Hp.
  assert (Hpr : present (pde k (V_PDI v)) = true) by (unfold entry in Hpe; by destruct (present (pde k (V_PDI v)))).
  assert (Hen : entry k v = pte k (V_PDI v) (V_PTI v)) by (unfold entry; by rewrite Hpr). rewrite Hen in Hpe.
  unfold unmap_32bit. apply wp_bind, wp_kassert. { by rewrite bool_decide_false by lia. }
  apply wp_bind, wp_load_pde; [apply Hok|done|]. rewrite Hpr. apply wp_bind, wp_load_pte; [apply Hok|done..|].
  rewrite Hpe. apply wp_bind. unfold GET_FRAMEADDR. rewrite VADDR_indices by done.
  apply wp_bind, wp_load_pte; [apply Hok|done..|]. apply wp_ret. rewrite <- Hen.
  pose proof (word_range (km_phys k) (table k (V_PDI v) + 4 * V_PTI v)) as Hw. fold (pte k (V_PDI v) (V_PTI v)) in Hw.
  rewrite <- Hen in Hw. pose proof (PGROUND_le (entry k v)).
  apply wp_bind, wp_on, wp_mm_free_any; [apply Hok|apply PGROUND_aligned|..].
  { assert (0 ≤ PGROUND (entry k v)) by (rewrite PGROUND_div; unfold PAGESZ; Z.div_mod_to_equations; lia). lia. }
  intros s' Hs Hrf He. apply wp_bind. apply (wp_store_pte (with_pmem s' k)); [apply Hok|done..|].
  apply wp_bind, wp_modify, wp_ret. apply HQ. exact (unmapped_intro k s' v Hok Hv Hnd Hpr Hni Hs He Hrf).
Qed.
