(* ===== verification/PagingSpec.v ===== *)
(** * What the paging code does to an address space

    Mapping and unmapping a page change the translation of that page and of no other,
    take and release the frames they should, and invalidate the page; a range of pages
    is mapped to distinct frames; a frame mounted in the kernel heap is seen there. *)
From S2P Require Import Prelude Dll Vmm VmmSpec Mmap Zone ZoneInv ZoneSpec Paging PagingMem PagingInv.

(** A page-aligned address below the recursive mapping. *)
Definition page_ok (v : Z) : Prop := 0 ≤ v < 0xffc00000 ∧ (PAGESZ | v).
Lemma page_ok_32 v : page_ok v → 0 ≤ v < 2 ^ 32.
Proof. intros [? _]. lia. Qed.
Lemma page_ok_pdi v : page_ok v → V_PDI v ≠ 1023.
Proof. intros [? _]. pg. Qed.

(** The translation of page [v] is the frame of its entry. *)
Definition maps_to (k : kmem) (v frame : Z) : Prop :=
  ∀ off, 0 ≤ off < PAGESZ → walk (km_phys k) (km_cr3 k) (v + off) = Some (frame + off).
Definition translation (k : kmem) (v : Z) : option Z := walk (km_phys k) (km_cr3 k) v.

Lemma same_page_off v off : (PAGESZ | v) → 0 ≤ off < PAGESZ → same_page v (v + off) = true.
Proof. intros [q ->] ?. apply same_page_spec. unfold PAGESZ in *. Z.div_mod_to_equations; lia. Qed.
Lemma pdi_off v off : page_ok v → 0 ≤ off < PAGESZ → V_PDI (v + off) ≠ 1023.
Proof. intros [? [q ->]] ?. pg. Qed.
Lemma mapped_maps_to k k' v frame flags : page_ok v → 0 ≤ frame < 2 ^ 32 → (PAGESZ | frame) →
  0 ≤ flags < PAGESZ → Z.testbit flags 0 = true → mapped k k' v (Z.lor frame flags) → maps_to k' v frame.
Proof.
  intros Hv Hf Hfa Hfl Hfp Hm off Ho. destruct (entry_parts frame flags) as (_ & Hp & Hg & _); try done.
  rewrite walk_entry, (ma_entry _ _ _ _ Hm), same_page_off; try (done || apply Hv).
  - rewrite Hp, Hg. f_equal. f_equal. destruct Hv as [_ [q ->]]. pg.
  - destruct Hv as [? [q ->]]. unfold PAGESZ in *. lia.
  - by apply pdi_off.
Qed.
Lemma mapped_translation k k' v e v' : mapped k k' v e → 0 ≤ v' < 0xffc00000 → same_page v v' = false →
  translation k' v' = translation k v'.
Proof.
  intros Hm Hv' Hs. unfold translation. rewrite !walk_entry, (ma_entry _ _ _ _ Hm), Hs; [done|lia|pg].
Qed.

(** ** One page *)

Lemma load_pde_eq k t : space_ok k → 0 ≤ t < 1024 → load32 (PDE t) k = Ok (pde k t, k).
Proof.
  intros Hok Ht. assert (wp (load32 (PDE t)) (λ r k', r = pde k t ∧ k' = k) k) as (? & ? & -> & -> & ->)%wp_exec; [|done].
  apply wp_load_pde; [apply Hok|done..].
Qed.
Lemma load_pte_eq k t p : space_ok k → 0 ≤ t < 1024 → 0 ≤ p < 1024 → present (pde k t) = true →
  load32 (PTE t p) k = Ok (pte k t p, k).
Proof.
  intros Hok Ht Hp Hpr. assert (wp (load32 (PTE t p)) (λ r k', r = pte k t p ∧ k' = k) k)
      as (? & ? & -> & -> & ->)%wp_exec; [|done]. apply wp_load_pte; [apply Hok|done..].
Qed.
Lemma map32_busy busy k frame v flags : space_ok k → page_ok v → (PAGESZ | frame) → present (entry k v) = true →
  map32 busy frame (V_PDI v) (V_PTI v) flags k = busy k.
Proof.
  intros Hok Hv Hfa Hpe. pose proof (V_PDI_range v) as Ht. pose proof (V_PTI_range v) as Hp.
  assert (Hpr : present (pde k (V_PDI v)) = true) by (unfold entry in Hpe; by destruct (present (pde k (V_PDI v)))).
  unfold entry in Hpe. rewrite Hpr in Hpe.
  unfold map32, assert_aligned, VM_CHECKBOUNDS. rewrite (bool_decide_true (Z.land frame PAGEMASK = 0)) by (by apply page_aligned).
  rewrite bool_decide_false by lia. simpl. unfold mbind, M_bind, mret, M_ret. rewrite load_pde_eq, Hpr by done. cbv beta iota.
  rewrite (bool_decide_false (0 ≠ 0)) by tauto. cbv beta iota. by rewrite load_pte_eq, Hpe by done.
Qed.

(** C23: [paging_map] on a page that has no mapping yet fails with -ENOMEM, and changes
    nothing, if the page needs a page table and no frame is left.  Otherwise it
    returns 0, the page translates to the frame, every other page translates as
    before, the page is invalidated in the translation caches, a frame is taken only for
    a page table, no memory in use outside the page tables changes, and the invariant
    of the address space is kept.  On a page that is mapped it panics. *)
Theorem paging_map_correct k frame v flags :
  space_ok k → page_ok v → 0 ≤ frame < 2 ^ 32 → (PAGESZ | frame) → 0 ≤ flags < PAGESZ → Z.testbit flags 0 = true →
  (present (entry k v) = true → paging_map frame v flags k = Panic) ∧
  (present (entry k v) = false → ∃ r k', paging_map frame v flags k = Ok (r, k') ∧
    ((r = - ENOMEM ∧ k' = k ∧ present (pde k (V_PDI v)) = false ∧ mem_full k) ∨
     (r = 0 ∧ space_ok k' ∧ maps_to k' v frame ∧ entry k' v = Z.lor frame flags ∧
      (∀ v', 0 ≤ v' < 0xffc00000 → same_page v v' = false → translation k' v' = translation k v') ∧
      Invlpg v ∈ km_tlb k' ∧ (present (pde k (V_PDI v)) = true → km_pmem k' = km_pmem k) ∧
      (∀ a, ¬ in_tables k a → kref k (PGROUND a) ≠ 0 → byte (km_phys k') a = byte (km_phys k) a)))).
Proof.
  intros Hok Hv Hf Hfa Hfl Hfp.
  assert (Ha : ∀ a, (PAGESZ | a) → bool_decide (Z.land a PAGEMASK = 0) = true) by (intros; by apply bool_decide_eq_true, page_aligned).
  assert (Heq : paging_map frame v flags k = map32 panic frame (V_PDI v) (V_PTI v) flags k).
  { unfold paging_map, assert_aligned. rewrite !Ha by (done || apply Hv). done. }
  rewrite Heq. split; [intros Hp; by rewrite map32_busy|]. intros Hp. apply wp_exec.
  apply wp_map32; try done; [by apply page_ok_32|apply Hv|by apply page_ok_pdi|congruence| |].
  - intros Hno Hfull. left. done.
  - intros _ k' Hm. right. split; [done|]. split; [apply Hm|]. split; [by eapply mapped_maps_to|].
    split; [|split; [|split; [apply Hm|split; [apply Hm|apply Hm]]]].
    + rewrite (ma_entry _ _ _ _ Hm) by (by apply page_ok_32 || by apply page_ok_pdi). by rewrite same_page_refl.
    + intros. by eapply mapped_translation.
Qed.

Lemma present_pte k v : present (entry k v) = true →
  present (pde k (V_PDI v)) = true ∧ present (pte k (V_PDI v) (V_PTI v)) = true.
Proof. unfold entry. by destruct (present (pde k (V_PDI v))) eqn:E. Qed.
Lemma aligned_true a : (PAGESZ | a) → bool_decide (Z.land a PAGEMASK = 0) = true.
Proof. intros. by apply bool_decide_eq_true, page_aligned. Qed.
(** [paging_unmap] on a mapped page returns 0: the page has no translation any more,
    every other page translates as before, the frame loses one reference, no memory
    outside the page tables changes, and the page is invalidated in the translation
    caches.  On a page without a mapping it panics. *)
Theorem paging_unmap_correct k v : space_ok k → page_ok v →
  (present (entry k v) = false → paging_unmap v k = Panic) ∧
  (present (entry k v) = true → PGROUND (entry k v) ≠ 0 → ¬ in_tables k (PGROUND (entry k v)) →
   ∃ k', paging_unmap v k = Ok (0, k') ∧ space_ok k' ∧
     (∀ v', 0 ≤ v' < 0xffc00000 → translation k' v' = if same_page v v' then None else translation k v') ∧
     (∀ b, kref k' b = if same_page (PGROUND (entry k v)) b then Z.max 0 (kref k (PGROUND (entry k v)) - 1) else kref k b) ∧
     (∀ a, ¬ in_tables k a → byte (km_phys k') a = byte (km_phys k) a) ∧ Invlpg v ∈ km_tlb k').
Proof.
  intros Hok Hv. pose proof (V_PDI_range v) as Ht. pose proof (V_PTI_range v) as Hp.
  assert (Heq : paging_unmap v k = unmap_32bit (V_PDI v) (V_PTI v) k).
  { unfold paging_unmap, assert_aligned. by rewrite aligned_true by apply Hv. }
  rewrite Heq. split.
  - intros Hno. unfold unmap_32bit, VM_CHECKBOUNDS. rewrite bool_decide_false by lia.
    unfold mbind, M_bind, mret, M_ret. simpl. rewrite load_pde_eq by done. unfold entry in Hno.
    destruct (present (pde k (V_PDI v))) eqn:E; [|done]. simpl. rewrite load_pte_eq by done. by rewrite Hno.
  - intros Hpe Hnz Hni.
    enough (wp (unmap_32bit (V_PDI v) (V_PTI v)) (λ r k', r = 0 ∧ unmapped k k' v) k) as (? & k' & E & -> & Hu)%wp_exec.
    { exists k'. split; [done|]. destruct Hu. split_and!; try done; [|naive_solver].
      intros v' Hv'. unfold translation. rewrite !walk_entry, um_entry by (lia || pg). by destruct (same_page v v'). }
    apply wp_unmap_32bit; try done; [by apply page_ok_32|apply Hv|by apply page_ok_pdi].
Qed.

(** [paging_getmapping] finds the entry the MMU translates with: it returns NULL exactly
    for the addresses without a translation, and otherwise the address where the
    entry of the page can be read, changing nothing. *)
Theorem paging_getmapping_correct k v : space_ok k → 0 ≤ v < 0xffc00000 →
  ∃ r, paging_getmapping v k = Ok (r, k) ∧
    match r with
    | None => translation k v = None
    | Some slot => load32 slot k = Ok (entry k v, k) ∧ translation k v = Some (PGROUND (entry k v) + PGOFFSET v)
    end.
Proof.
  intros Hok Hv. pose proof (V_PDI_range v) as Ht. pose proof (V_PTI_range v) as Hp.
  unfold paging_getmapping, mbind, M_bind, mret, M_ret, translation. rewrite load_pde_eq by done. rewrite walk_entry.
  unfold entry. destruct (present (pde k (V_PDI v))) eqn:E; simpl; [|by exists None].
  rewrite load_pte_eq by done. destruct (present (pte k (V_PDI v) (V_PTI v))) eqn:E'; simpl; [|by exists None].
  eexists. split; [done|]. split; [|done]. by apply load_pte_eq.
Qed.

(** ** Ranges of pages *)

Definition page_at_index (v i : Z) : Z := v + i * PAGESZ.

(** [k'] is [k] with the [n] pages from [v] on mapped to frames that were free. *)
Record filled (k k' : kmem) (v n flags : Z) : Prop := Filled {
  fl_ok : space_ok k';
  fl_cr3 : km_cr3 k' = km_cr3 k;
  fl_vmm : km_vmm k' = km_vmm k;
  fl_in : ∀ i, 0 ≤ i < n → ∃ f, entry k' (page_at_index v i) = Z.lor f flags ∧ (PAGESZ | f) ∧
    0x1000000 ≤ f < norm_end (km_pmem k) ∧ kref k f = 0 ∧ kref k' f = 1;
  fl_inj : ∀ i j, 0 ≤ i < n → 0 ≤ j < n → i ≠ j →
    PGROUND (entry k' (page_at_index v i)) ≠ PGROUND (entry k' (page_at_index v j));
  fl_out : ∀ v', 0 ≤ v' < 0xffc00000 → v' < v ∨ v + n * PAGESZ ≤ v' → entry k' v' = entry k v';
  fl_refs : ∀ b, kref k b ≠ 0 → kref k' b = kref k b;
  fl_end : norm_end (km_pmem k') = norm_end (km_pmem k);
  fl_byte : ∀ a, ¬ in_tables k a → kref k (PGROUND a) ≠ 0 → byte (km_phys k') a = byte (km_phys k) a;
  fl_tables : ∀ a, in_tables k' a → in_tables k a ∨ kref k (PGROUND a) = 0;
}.

Lemma filled_0 k v flags : space_ok k → filled k k v 0 flags.
Proof. intros Hok. split; try done; try lia. by left. Qed.

Lemma kref_page k a b : space_ok k → same_page a b = true → kref k a = kref k b.
Proof.
  intros Hok Hs. unfold kref, refs. destruct (frame_index (km_pmem k) a) as [i|] eqn:E.
  - by rewrite (proj2 (frame_index_same _ a b i (so_pmem _ Hok) E) Hs).
  - destruct (frame_index (km_pmem k) b) as [j|] eqn:E'; [|done].
    apply (frame_index_same _ b a j (so_pmem _ Hok)) in E' as [_ H].
    rewrite H in E; [done|]. apply same_page_spec. apply same_page_spec in Hs. done.
Qed.
(** A frame is taken. *)
Record took (k k' : kmem) (f : Z) : Prop := Took {
  to_free : kref k f = 0;
  to_range : 0x1000000 ≤ f < norm_end (km_pmem k);
  to_aligned : (PAGESZ | f);
  to_refs : ∀ b, kref k' b = if same_page f b then 1 else kref k b;
  to_ok : space_ok k';
  to_end : norm_end (km_pmem k') = norm_end (km_pmem k);
  to_same : k' = with_pmem (km_pmem k') k;
}.
Lemma wp_take k (Q : Z → kmem → Prop) : space_ok k → (mem_full k → Q 0 k) →
  (∀ f k', took k k' f → Q f k') → wp (on mm_alloc) Q k.
Proof.
  intros Hok HN HS. apply wp_on, wp_mm_alloc; [apply Hok|..].
  - rewrite set_part_part. apply HN.
  - intros f s' Hf Hal Hr0 _ Hpm Hrf He. apply HS. split; try done. apply (space_ok_pmem k s' Hok Hpm).
    intros a Ha Hin%in_tables_kref; [|done..]. rewrite Hrf. by case_match.
Qed.
Lemma took_32 k k' f : space_ok k → took k k' f → 0 ≤ f < 2 ^ 32 ∧ f ≠ 0.
Proof.
  intros Hok Ht. pose proof (norm_end_le _ (so_pmem _ Hok)). pose proof (to_range _ _ _ Ht).
  assert (MMAP_DEVADDR < 2 ^ 32) by done. lia.
Qed.
Lemma took_entry k k' f v : took k k' f → entry k' v = entry k v.
Proof. intros Ht. by rewrite (to_same _ _ _ Ht). Qed.

Lemma wp_paging_map k frame v flags (Q : Z → kmem → Prop) :
  space_ok k → page_ok v → 0 ≤ frame < 2 ^ 32 → (PAGESZ | frame) → 0 ≤ flags < PAGESZ → Z.testbit flags 0 = true →
  present (entry k v) = false →
  (present (pde k (V_PDI v)) = false → mem_full k → Q (- ENOMEM) k) →
  (∀ k', mapped k k' v (Z.lor frame flags) → Q 0 k') → wp (paging_map frame v flags) Q k.
Proof.
  intros Hok Hv Hf Hfa Hfl Hfp Hno HN HS. unfold paging_map, assert_aligned.
  rewrite !aligned_true by (done || apply Hv). apply wp_bind, wp_ret, wp_bind, wp_ret.
  apply wp_map32; try done; [by apply page_ok_32|apply Hv|by apply page_ok_pdi|congruence].
Qed.

Lemma mapped_kref_eq k k' v e b : space_ok k → mapped k k' v e → kref k b ≠ 0 → kref k' b = kref k b.
Proof.
  intros Hok Hm Hb. destruct (present (pde k (V_PDI v))) eqn:E.
  - unfold kref. by rewrite (ma_pmem _ _ _ _ Hm E).
  - destruct (ma_fresh _ _ _ _ Hm E) as (f & Hf & Hr & _ & ->). case_match eqn:Es; [|done].
    destruct Hb. rewrite <- Hf. symmetry. apply kref_page; [done|done].
Qed.
Lemma took_kref_eq k k' f b : space_ok k → took k k' f → kref k b ≠ 0 → kref k' b = kref k b.
Proof.
  intros Hok Ht Hb. rewrite (to_refs _ _ _ Ht). case_match eqn:Es; [|done]. destruct Hb.
  rewrite <- (to_free _ _ _ Ht). symmetry. by apply kref_page.
Qed.

Lemma took_in k k' f a : took k k' f → in_tables k' a ↔ in_tables k a.
Proof. intros Ht. by rewrite (to_same _ _ _ Ht). Qed.
(** A frame that was taken and not used. *)
Lemma filled_took k k1 f v flags : space_ok k → took k k1 f → filled k k1 v 0 flags.
Proof.
  intros Hok Ht. split; try lia; try (by destruct Ht).
  - by rewrite (to_same _ _ _ Ht).
  - by rewrite (to_same _ _ _ Ht).
  - intros. by apply (took_entry _ _ _ _ Ht).
  - intros b. by apply (took_kref_eq _ _ _ _ Hok Ht).
  - intros. by rewrite (to_same _ _ _ Ht).
  - intros a Ha. left. by apply (took_in k k1 f).
Qed.
Lemma step_tables k k1 k2 f v e a : space_ok k → took k k1 f → mapped k1 k2 v e → in_tables k2 a →
  in_tables k a ∨ kref k (PGROUND a) = 0.
Proof.
  intros Hok Ht Hm [Hin|H0]%(ma_tables _ _ _ _ Hm); [left; by apply (took_in k k1 f)|right].
  destruct (decide (kref k (PGROUND a) = 0)) as [|Hne]; [done|]. by rewrite (took_kref_eq _ _ _ _ Hok Ht Hne) in H0.
Qed.
Lemma step_in_use k k1 k2 f v e a : space_ok k → took k k1 f → mapped k1 k2 v e →
  ¬ in_tables k a → kref k (PGROUND a) ≠ 0 →
  ¬ in_tables k2 a ∧ kref k2 (PGROUND a) ≠ 0 ∧ byte (km_phys k2) a = byte (km_phys k) a.
Proof.
  intros Hok Ht Hm Ha Hb. assert (Hb1 : kref k1 (PGROUND a) ≠ 0) by (by rewrite (took_kref_eq _ _ _ _ Hok Ht Hb)).
  split_and!.
  - intros [?|?]%(step_tables k k1 k2 f v e); done.
  - by eapply mapped_kref.
  - rewrite (ma_byte _ _ _ _ Hm); [by rewrite (to_same _ _ _ Ht)| |done].
    intros Hin. apply Ha. by apply (took_in k k1 f).
Qed.

Lemma filled_step k k1 k2 k' f v n flags :
  space_ok k → page_ok v → 0 ≤ n → v + (n + 1) * PAGESZ ≤ 0xffc00000 → 0 ≤ flags < PAGESZ → Z.testbit flags 0 = true →
  took k k1 f → mapped k1 k2 v (Z.lor f flags) → filled k2 k' (v + PAGESZ) n flags →
  filled k k' v (n + 1) flags.
Proof.
  intros Hok Hv Hn Hle Hfl Hfp Ht Hm Hf. pose proof (to_ok _ _ _ Ht) as Hok1. pose proof (ma_ok _ _ _ _ Hm) as Hok2.
  destruct (took_32 _ _ _ Hok Ht) as [Hf32 _].
  destruct (entry_parts f flags (to_aligned _ _ _ Ht) Hf32 Hfl Hfp) as (_ & _ & Hg & _).
  assert (Hk1 : kref k1 f = 1) by (by rewrite (to_refs _ _ _ Ht), same_page_refl).
  assert (Hk2 : kref k2 f = 1) by (by rewrite (mapped_kref_eq _ _ _ _ _ Hok1 Hm) by lia).
  assert (Hk' : kref k' f = 1) by (by rewrite (fl_refs _ _ _ _ _ Hf) by lia).
  assert (Hrf : ∀ b, kref k b ≠ 0 → kref k2 b = kref k b).
  { intros b Hb. pose proof (took_kref_eq _ _ _ _ Hok Ht Hb) as E. rewrite <- E. apply (mapped_kref_eq _ _ _ _ _ Hok1 Hm). congruence. }
  assert (He0 : entry k' (page_at_index v 0) = Z.lor f flags).
  { unfold page_at_index. rewrite Z.add_0_r. rewrite (fl_out _ _ _ _ _ Hf), (ma_entry _ _ _ _ Hm), same_page_refl; try done.
    - by apply page_ok_32.
    - by apply page_ok_pdi.
    - apply Hv.
    - left. by assert (0 < PAGESZ) by done; lia. }
  assert (Hnext : ∀ i, page_at_index v i = page_at_index (v + PAGESZ) (i - 1)) by (intros; unfold page_at_index; lia).
  assert (Hin : ∀ i, 0 < i < n + 1 → ∃ f', entry k' (page_at_index v i) = Z.lor f' flags ∧ (PAGESZ | f') ∧
    0x1000000 ≤ f' < norm_end (km_pmem k) ∧ kref k f' = 0 ∧ kref k' f' = 1 ∧ f' ≠ f ∧ PGROUND (Z.lor f' flags) = f').
  { intros i Hi. rewrite Hnext. destruct (fl_in _ _ _ _ _ Hf (i - 1) ltac:(lia)) as (f' & E & Ha & Hr & H0 & H1).
    rewrite (ma_end _ _ _ _ Hm), (to_end _ _ _ Ht) in Hr. exists f'. split_and!; try done; try lia.
    - destruct (decide (kref k f' = 0)) as [|Hne]; [done|]. rewrite (Hrf _ Hne) in H0. done.
    - intros ->. lia.
    - pose proof (norm_end_le _ (so_pmem _ Hok)). assert (MMAP_DEVADDR < 2 ^ 32) by done.
      by destruct (entry_parts f' flags) as (_ & _ & ? & _); try lia. }
  split.
  - apply Hf.
  - rewrite (fl_cr3 _ _ _ _ _ Hf), (ma_cr3 _ _ _ _ Hm), (to_same _ _ _ Ht). done.
  - rewrite (fl_vmm _ _ _ _ _ Hf), (ma_vmm _ _ _ _ Hm), (to_same _ _ _ Ht). done.
  - intros i Hi. destruct (decide (i = 0)) as [->|]; [|destruct (Hin i) as (f' & ? & ? & ? & ? & ? & _); [lia|eauto 10]].
    exists f. by destruct Ht.
  - assert (H0j : ∀ j, 0 < j < n + 1 → f ≠ PGROUND (entry k' (page_at_index v j))).
    { intros j Hj. by destruct (Hin j Hj) as (f' & -> & _ & _ & _ & _ & ? & ->). }
    intros i j Hi Hj Hij. destruct (decide (i = 0)) as [->|], (decide (j = 0)) as [->|]; [done|..].
    + rewrite He0, Hg. apply H0j. lia.
    + rewrite He0, Hg. intros E. apply (H0j i); [lia|done].
    + rewrite !Hnext. apply (fl_inj _ _ _ _ _ Hf); lia.
  - intros v' Hv' Ho. assert (0 < PAGESZ) by done. rewrite (fl_out _ _ _ _ _ Hf) by lia.
    rewrite (ma_entry _ _ _ _ Hm) by (lia || pg). rewrite (took_entry _ _ _ _ Ht).
    case_match eqn:Es; [|done]. exfalso. apply same_page_spec in Es. destruct Hv as [? [q ->]].
    revert Es. unfold PAGESZ in *. Z.div_mod_to_equations; lia.
  - intros b Hb. rewrite <- (Hrf b Hb). apply (fl_refs _ _ _ _ _ Hf). by rewrite (Hrf b Hb).
  - by rewrite (fl_end _ _ _ _ _ Hf), (ma_end _ _ _ _ Hm), (to_end _ _ _ Ht).
  - intros a Ha Hb. destruct (step_in_use k k1 k2 f v _ a Hok Ht Hm Ha Hb) as (Ha2 & Hb2 & <-). by apply (fl_byte _ _ _ _ _ Hf).
  - intros a [Hin2|H0]%(fl_tables _ _ _ _ _ Hf).
    + by apply (step_tables k k1 k2 f v _ a Hok Ht Hm).
    + right. destruct (decide (kref k (PGROUND a) = 0)) as [|Hne]; [done|]. rewrite (Hrf _ Hne) in H0. done.
Qed.

Lemma wp_mappages_loop n k v flags (Q : Z → kmem → Prop) :
  space_ok k → page_ok v → v + Z.of_nat n * PAGESZ ≤ 0xffc00000 → 0 ≤ flags < PAGESZ → Z.testbit flags 0 = true →
  (∀ i, 0 ≤ i < Z.of_nat n → present (entry k (page_at_index v i)) = false) →
  (∀ k', filled k k' v (Z.of_nat n) flags → Q 0 k') →
  (∀ k' j, 0 ≤ j < Z.of_nat n → filled k k' v j flags → Q (- ENOMEM) k') →
  wp (mappages_loop paging_map n v flags) Q k.
Proof.
  revert k v Q. induction n as [|n IH]; intros k v Q Hok Hv Hle Hfl Hfp Hno HQ0 HQ1; simpl.
  - apply wp_ret, HQ0. by apply filled_0.
  - apply wp_bind. apply wp_take; [done|..].
    { intros _. rewrite bool_decide_true by done. apply wp_ret. apply (HQ1 k 0); [lia|]. by apply filled_0. }
    intros f k1 Ht. destruct (took_32 _ _ _ Hok Ht) as [Hf32 Hfnz]. rewrite bool_decide_false by done.
    apply wp_bind. assert (E0 : page_at_index v 0 = v) by (unfold page_at_index; lia). assert (0 < PAGESZ) by done.
    apply wp_paging_map; try done; [apply Ht|apply Ht|..].
    { rewrite (took_entry _ _ _ _ Ht). rewrite <- E0. apply Hno. lia. }
    { intros _ _. rewrite bool_decide_true by done. apply wp_ret. apply (HQ1 k1 0); [lia|].
      by apply (filled_took k k1 f). }
    intros k2 Hm. rewrite bool_decide_false by tauto.
    assert (Hv2 : 0 ≤ v + PAGESZ) by (destruct Hv; lia).
    destruct n as [|n].
    { simpl. apply wp_ret, HQ0. replace (Z.of_nat 1) with (0 + 1) by lia.
      eapply filled_step; try done; try lia. apply filled_0. apply Hm. }
    assert (page_ok (v + PAGESZ)) as Hv'.
    { destruct Hv as [? Hal]. split; [lia|]. apply Z.divide_add_r; [done|by exists 1]. }
    rewrite u32_small by (destruct Hv'; lia).
    apply IH; try done; try lia.
    + apply Hm.
    + intros i Hi. rewrite (ma_entry _ _ _ _ Hm).
      * case_match eqn:Es.
        -- exfalso. apply same_page_spec in Es. destruct Hv as [? [q ->]]. revert Es. unfold page_at_index, PAGESZ in *.
           Z.div_mod_to_equations; lia.
        -- rewrite (took_entry _ _ _ _ Ht). replace (page_at_index (v + PAGESZ) i) with (page_at_index v (i + 1)) by (unfold page_at_index; lia).
           apply Hno. lia.
      * destruct Hv. unfold page_at_index, PAGESZ in *. lia.
      * assert (0 ≤ page_at_index (v + PAGESZ) i < 0xffc00000) as Hr by (destruct Hv; unfold page_at_index, PAGESZ in *; lia).
        revert Hr. generalize (page_at_index (v + PAGESZ) i). intros x Hx. pg.
    + intros k' Hf. apply HQ0. replace (Z.of_nat (S (S n))) with (Z.of_nat (S n) + 1) by lia.
      eapply filled_step; try done; lia.
    + intros k' j Hj Hf. apply (HQ1 k' (j + 1)); [lia|]. eapply filled_step; try done; unfold PAGESZ in *; lia.
Qed.

Lemma boundary_pages v n : page_ok v → 0 ≤ n → v + n * PAGESZ ≤ 0xffc00000 →
  GET_BOUNDARY_SIZE v (n * PAGESZ) / PAGESZ = n.
Proof.
  intros [Hv [q ->]] Hn Hle. unfold GET_BOUNDARY_SIZE, PGROUNDUP. rewrite !PGROUND_div. unfold PAGEMASK, PAGESZ in *.
  rewrite (u32_small (q * 0x1000 + n * 0x1000)) by lia. rewrite (u32_small (_ + 0x0FFF)) by lia.
  rewrite u32_small; Z.div_mod_to_equations; lia.
Qed.

(** [paging_mappages] on [n] pages without mappings returns 0 or -ENOMEM.  When it
    returns 0, every page of the range has a frame of its own with the given flags, a
    frame that was free and now has one reference; no other page changes its
    translation, no frame in use changes its count and no memory in use its content.
    When it returns -ENOMEM, this holds for the first [j] pages, [j < n], which stay mapped. *)
Theorem paging_mappages_correct k v n flags :
  space_ok k → page_ok v → 0 ≤ n → v + n * PAGESZ ≤ 0xffc00000 → 0 ≤ flags < PAGESZ → Z.testbit flags 0 = true →
  (∀ i, 0 ≤ i < n → present (entry k (page_at_index v i)) = false) →
  ∃ r k', paging_mappages v (n * PAGESZ) flags k = Ok (r, k') ∧
    ((r = 0 ∧ filled k k' v n flags) ∨ (r = - ENOMEM ∧ ∃ j, 0 ≤ j < n ∧ filled k k' v j flags)).
Proof.
  intros Hok Hv Hn Hle Hfl Hfp Hno. apply wp_exec. unfold paging_mappages, assert_aligned.
  rewrite !aligned_true by (apply Hv || by exists n). apply wp_bind, wp_ret, wp_bind, wp_ret. rewrite boundary_pages by done.
  apply wp_mappages_loop; rewrite ?Z2Nat.id by done; try done.
  - intros k' Hf. by left.
  - intros k' j Hj Hf. right. eauto.
Qed.

(** ** Witnesses *)

(** A machine with 32 MiB, a page directory at 16 MiB and nothing mapped but itself. *)
Definition demo_dir : Z := 0x1000000.
Definition demo_phys : gmap Z Z := put_word (demo_dir + 4 * 1023) (demo_dir + 0x1b) ∅.
Definition demo_kmem : kmem := Kmem (taken (demo_fresh 16) MM_ZONE_NORM (zone_new 0x1000000 4096 16) 0 page_zero)
  vmm_boot demo_phys demo_dir [].
Lemma demo_pde t : 0 ≤ t < 1023 → pde demo_kmem t = 0.
Proof.
  intros Ht. unfold pde. change (dir demo_kmem) with demo_dir. simpl. unfold demo_phys.
  rewrite word_put_ne by lia. unfold word, byte. by rewrite !lookup_empty.
Qed.
Lemma demo_ok : space_ok demo_kmem.
Proof.
  split.
  - apply taken_ok; try done. by apply demo_fresh_ok.
  - by vm_compute.
  - by vm_compute.
  - intros t Ht. by rewrite demo_pde.
  - intros t t' Ht Ht'. by rewrite demo_pde.
Qed.
Lemma demo_entry v : 0 ≤ v < 0xffc00000 → entry demo_kmem v = 0.
Proof. intros Hv. unfold entry. rewrite demo_pde; [done|]. pg. Qed.
Lemma demo_page_ok : page_ok 0x400000.
Proof. split; [lia|]. by exists 0x400. Qed.

Lemma paging_map_correct_witness : space_ok demo_kmem ∧ ∃ r k', paging_map 0x1005000 0x400000 7 demo_kmem = Ok (r, k') ∧
    ((r = - ENOMEM ∧ k' = demo_kmem ∧ present (pde demo_kmem (V_PDI 0x400000)) = false ∧ mem_full demo_kmem) ∨
     (r = 0 ∧ space_ok k' ∧ maps_to k' 0x400000 0x1005000 ∧ entry k' 0x400000 = 0x1005007 ∧
      (∀ v', 0 ≤ v' < 0xffc00000 → same_page 0x400000 v' = false → translation k' v' = translation demo_kmem v') ∧
      Invlpg 0x400000 ∈ km_tlb k' ∧ (present (pde demo_kmem (V_PDI 0x400000)) = true → km_pmem k' = km_pmem demo_kmem) ∧
      (∀ a, ¬ in_tables demo_kmem a → kref demo_kmem (PGROUND a) ≠ 0 → byte (km_phys k') a = byte (km_phys demo_kmem) a))).
Proof.
  split; [apply demo_ok|].
  refine (proj2 (paging_map_correct demo_kmem 0x1005000 0x400000 7 demo_ok demo_page_ok _ _ _ _) _);
    [lia|by exists 0x1005|unfold PAGESZ; lia|done|by rewrite demo_entry].
Defined.
(** The same machine with a page of device memory mapped. *)
Lemma demo_mapped : ∃ k, mapped demo_kmem k 0x400000 0xFE000007.
Proof.
  assert (Hw : wp (paging_map 0xFE000000 0x400000 7) (λ _ k, mapped demo_kmem k 0x400000 0xFE000007) demo_kmem).
  { apply wp_paging_map; [apply demo_ok|apply demo_page_ok|lia|by exists 0xFE000|unfold PAGESZ; lia|done|by rewrite demo_entry| |].
    - intros _ Hfull. exfalso. apply (Hfull 0x1001000); by vm_compute.
    - intros k' Hm. exact Hm. }
  destruct (proj1 (wp_exec _ _ _) Hw) as (? & k & _ & ?). by exists k.
Qed.
Lemma demo_not_table k : mapped demo_kmem k 0x400000 0xFE000007 → ¬ in_tables k 0xFE000000.
Proof.
  intros Hm Hin. apply in_tables_kref in Hin; [|apply Hm|by exists 0xFE000]. apply Hin. unfold kref, refs, frame_index.
  destruct (zones_shape _ (so_pmem _ (ma_ok _ _ _ _ Hm))) as (d & n & h & E & _ & _ & _ & _ & Hn & Hnv & Hns & _).
  pose proof (po_wf _ (so_pmem _ (ma_ok _ _ _ _ Hm)) _ _ Hn Hnv) as [_ [_ _ _ _ Hle _ _]].
  rewrite E. rewrite !bool_decide_false; [done|unfold MMAP_DEVADDR in *; lia..].
Qed.
Lemma paging_unmap_correct_witness : ∃ k k', mapped demo_kmem k 0x400000 0xFE000007 ∧ paging_unmap 0x400000 k = Ok (0, k') ∧
  space_ok k' ∧
  (∀ v', 0 ≤ v' < 0xffc00000 → translation k' v' = if same_page 0x400000 v' then None else translation k v') ∧
  (∀ b, kref k' b = if same_page (PGROUND (entry k 0x400000)) b then Z.max 0 (kref k (PGROUND (entry k 0x400000)) - 1) else kref k b) ∧
  (∀ a, ¬ in_tables k a → byte (km_phys k') a = byte (km_phys k) a) ∧ Invlpg 0x400000 ∈ km_tlb k'.
Proof.
  destruct demo_mapped as [k Hm]. exists k.
  assert (He : entry k 0x400000 = 0xFE000007) by (rewrite (ma_entry _ _ _ _ Hm) by done; by rewrite same_page_refl).
  destruct (proj2 (paging_unmap_correct k 0x400000 (ma_ok _ _ _ _ Hm) demo_page_ok)) as (k' & Hk').
  - by rewrite He.
  - by rewrite He.
  - rewrite He. by apply demo_not_table.
  - exists k'. by split.
Defined.
Lemma paging_getmapping_correct_witness : space_ok demo_kmem ∧ ∃ r, paging_getmapping 0x400000 demo_kmem = Ok (r, demo_kmem) ∧
    match r with
    | None => translation demo_kmem 0x400000 = None
    | Some slot => load32 slot demo_kmem = Ok (entry demo_kmem 0x400000, demo_kmem) ∧
        translation demo_kmem 0x400000 = Some (PGROUND (entry demo_kmem 0x400000) + PGOFFSET 0x400000)
    end.
Proof. split; [apply demo_ok|]. apply paging_getmapping_correct; [apply demo_ok|lia]. Defined.
Lemma paging_mappages_correct_witness : space_ok demo_kmem ∧
  ∃ r k', paging_mappages 0x400000 (3 * PAGESZ) 7 demo_kmem = Ok (r, k') ∧
    ((r = 0 ∧ filled demo_kmem k' 0x400000 3 7) ∨ (r = - ENOMEM ∧ ∃ j, 0 ≤ j < 3 ∧ filled demo_kmem k' 0x400000 j 7)).
Proof.
  split; [apply demo_ok|].
  apply paging_mappages_correct; [apply demo_ok|apply demo_page_ok|lia|unfold PAGESZ; lia..|done|].
  intros i Hi. rewrite demo_entry; [done|]. unfold page_at_index, PAGESZ. lia.
Defined.
