(* ===== verification/PagingCopy.v ===== *)
(** * Mounting frames and copying between them

    The kernel reaches a frame by mapping it at an address of the kernel heap.
    [kheap_ok k A]: the heap addresses are managed by [A], their page tables exist, and
    addresses that are not allocated have no mapping.  [paging_memcpypp] copies
    physical memory through two such mounts. *)
From S2P Require Import Prelude Dll Vmm VmmRegions VmmSpec Mmap Zone ZoneInv ZoneSpec Paging PagingMem PagingInv PagingSpec.

#[global] Arguments paging_map frame v flags : simpl never.
#[global] Arguments paging_mount p : simpl never.
#[global] Arguments paging_unmount v : simpl never.
#[global] Arguments vmm_alloc sz : simpl never.
#[global] Arguments vmm_free b : simpl never.

Definition with_vmm (s : vmm) (k : kmem) : kmem := {| k with km_vmm := s |}.
Lemma space_ok_vmm k s : space_ok k → space_ok (with_vmm s k).
Proof. intros [? ? ? H4 H5]. split; [done|done|done|exact H4|exact H5]. Qed.

Definition in_heap (v : Z) : Prop := KHEAPBASE ≤ v < KHEAPEND.
Lemma heap_page_ok v : in_heap v → (PAGESZ | v) → page_ok v.
Proof. intros [? ?] ?. split; [|done]. unfold KHEAPBASE, KHEAPEND, KHEAPSZ, KHEAPBASE in *. lia. Qed.

Record kheap_ok (k : kmem) (A : allocs) : Prop := KheapOk {
  kh_space : space_ok k;
  kh_rep : vmm_rep (km_vmm k) A;
  kh_tables : ∀ v, in_heap v → present (pde k (V_PDI v)) = true;
  kh_free : ∀ v, (PAGESZ | v) → free_at A v PAGESZ → present (entry k v) = false;
}.

Definition mount_flags : Z := Z.lor VM_KRW (Z.lor VM_PWT VM_PCD).

(** [k'] is [k] with frame [p] mounted at [v]. *)
Record mounted (k k' : kmem) (A : allocs) (v p : Z) : Prop := Mounted {
  mo_heap : kheap_ok k' (<[v := PAGESZ]> A);
  mo_free : free_at A v PAGESZ;
  mo_aligned : (PAGESZ | v);
  mo_entry : ∀ v', 0 ≤ v' < 0xffc00000 → entry k' v' = if same_page v v' then Z.lor p mount_flags else entry k v';
  mo_pmem : km_pmem k' = km_pmem k;
  mo_cr3 : km_cr3 k' = km_cr3 k;
  mo_byte : ∀ a, ¬ in_tables k a → byte (km_phys k') a = byte (km_phys k) a;
  mo_tables : ∀ a, in_tables k' a ↔ in_tables k a;
  mo_pde : ∀ t, 0 ≤ t < 1024 → present (pde k t) = true → pde k' t = pde k t;
}.

Lemma free_at_heap A v z : 0 < z → free_at A v z → in_heap v.
Proof. intros Hz [? ? _]. split; lia. Qed.
Lemma free_at_apart A v v' : (PAGESZ | v) → (PAGESZ | v') → free_at (<[v := PAGESZ]> A) v' PAGESZ → v ≠ v'.
Proof.
  intros _ _ [_ _ Hap] ->. specialize (Hap v' PAGESZ). rewrite lookup_insert_eq in Hap. specialize (Hap eq_refl).
  unfold apart, rend in Hap. simpl in Hap. unfold PAGESZ in *. lia.
Qed.
Lemma free_at_insert A v v' : A !! v = None → free_at (<[v := PAGESZ]> A) v' PAGESZ → free_at A v' PAGESZ.
Proof.
  intros Hv [? ? Hap]. split; [done..|]. intros b z Hb. apply Hap. rewrite lookup_insert_ne; [done|]. congruence.
Qed.

Lemma wp_paging_mount k A p (Q : Z → kmem → Prop) :
  kheap_ok k A → ¬ no_room A PAGESZ → 0 < p < 2 ^ 32 → (PAGESZ | p) →
  (∀ v k', mounted k k' A v p → Q v k') → wp (paging_mount p) Q k.
Proof.
  intros Hk Hroom Hp Hpa HQ. unfold paging_mount, assert_aligned. rewrite aligned_true by done.
  apply wp_bind, wp_kassert; [by apply bool_decide_eq_true; lia|]. apply wp_bind, wp_ret.
  apply wp_bind, wp_on. eapply wp_mono; [apply (rep_alloc _ A PAGESZ (kh_rep _ _ Hk)); [done|by exists 1]|].
  intros v s' [(Hlow & Hva & Hrep)|(_ & Hno & _)]; [|done]. destruct Hlow as [Hfree _].
  assert (Hh : in_heap v) by (by eapply (free_at_heap A v PAGESZ)).
  set (k1 := with_vmm s' k). change (set_part s' k) with k1.
  apply wp_bind. apply wp_paging_map; try done.
  - apply space_ok_vmm, Hk.
  - by apply heap_page_ok.
  - lia.
  - by apply (kh_free _ _ Hk).
  - change (pde k1) with (pde k). by rewrite (kh_tables _ _ Hk).
  - intros k' Hm. rewrite bool_decide_false by tauto. apply wp_ret, HQ.
    assert (Hpr : present (pde k1 (V_PDI v)) = true) by (by apply (kh_tables _ _ Hk)).
    destruct (ma_quiet _ _ _ _ Hm Hpr) as [Hby Hta].
    assert (HAv : A !! v = None).
    { destruct (A !! v) as [z|] eqn:E; [|done]. exfalso. pose proof (rep_ok _ _ _ _ (kh_rep _ _ Hk) E) as [? _ _ _ _].
      destruct Hfree as [_ _ Hap]. apply Hap in E. unfold apart, rend in *. simpl in *. unfold PAGESZ in *. lia. }
    split; try done.
    + split; [apply Hm|by rewrite (ma_vmm _ _ _ _ Hm)|..].
      * intros w Hw. rewrite (ma_pde _ _ _ _ Hm); [by apply (kh_tables _ _ Hk)|apply V_PDI_range|by apply (kh_tables _ _ Hk)].
      * intros w Hwa Hw. pose proof (free_at_apart A v w Hva Hwa Hw) as Hne. apply free_at_insert in Hw; [|done].
        pose proof (heap_page_ok w (free_at_heap A w PAGESZ ltac:(done) Hw) Hwa) as Hwp.
        rewrite (ma_entry _ _ _ _ Hm); [|by apply page_ok_32|by apply page_ok_pdi].
        case_match eqn:Es; [by apply same_page_aligned in Es|]. by apply (kh_free _ _ Hk).
    + intros v' Hv'. rewrite (ma_entry _ _ _ _ Hm); [done|lia|pg].
    + by rewrite (ma_pmem _ _ _ _ Hm).
    + by rewrite (ma_cr3 _ _ _ _ Hm).
    + intros t Ht Hpt. by apply (ma_pde _ _ _ _ Hm).
Qed.

(** [k'] is [k] with the mount at [v] taken away. *)
Record unmounted (k k' : kmem) (A : allocs) (v : Z) : Prop := Unmounted {
  uo_heap : kheap_ok k' (delete v A);
  uo_entry : ∀ v', 0 ≤ v' < 0xffc00000 → entry k' v' = if same_page v v' then 0 else entry k v';
  uo_pmem : km_pmem k' = km_pmem k;
  uo_cr3 : km_cr3 k' = km_cr3 k;
  uo_byte : ∀ a, ¬ in_tables k a → byte (km_phys k') a = byte (km_phys k) a;
  uo_tables : ∀ a, in_tables k' a ↔ in_tables k a;
  uo_pde : ∀ t, 0 ≤ t < 1024 → present (pde k t) = true → pde k' t = pde k t;
}.

Lemma free_at_delete A v w : (PAGESZ | v) → (PAGESZ | w) → A !! v = Some PAGESZ → w ≠ v →
  free_at (delete v A) w PAGESZ → free_at A w PAGESZ.
Proof.
  intros [a ->] [b ->] Hv Hne [? ? Hap]. split; [done..|]. intros x z Hx.
  destruct (decide (x = a * PAGESZ)) as [->|]; [|apply Hap; by rewrite lookup_delete_ne].
  rewrite Hv in Hx. injection Hx as <-. unfold apart, rend. simpl. unfold PAGESZ in *. lia.
Qed.

Lemma wp_paging_unmount k A v (Q : unit → kmem → Prop) :
  kheap_ok k A → A !! v = Some PAGESZ → (PAGESZ | v) → present (entry k v) = true →
  (∀ k', unmounted k k' A v → Q tt k') → wp (paging_unmount v) Q k.
Proof.
  intros Hk HA Hva Hpe HQ. pose proof (rep_ok _ _ _ _ (kh_rep _ _ Hk) HA) as [? Hlo Hhi _ _]. unfold rend in Hhi. simpl in *.
  assert (Hh : in_heap v) by (split; lia). pose proof (heap_page_ok v Hh Hva) as Hv.
  pose proof (V_PDI_range v) as Ht. pose proof (V_PTI_range v) as Hp. pose proof (kh_space _ _ Hk) as Hok.
  apply present_pte in Hpe as [Hpr Hpe].
  unfold paging_unmount, assert_aligned. rewrite aligned_true by done. apply wp_bind, wp_ret.
  apply wp_bind, wp_load_pde; [apply Hok|done|]. rewrite Hpr. apply wp_bind, wp_load_pte; [apply Hok|done..|]. rewrite Hpe.
  apply wp_bind, wp_store_pte; [apply Hok|done..|]. apply wp_bind, wp_modify.
  set (k1 := poke (table k (V_PDI v) + 4 * V_PTI v) 0 k).
  assert (Ht' : 0 ≤ V_PDI v < 1023) by (pose proof (page_ok_pdi v Hv); lia).
  assert (Hok1 : space_ok k1) by (by apply set_pte_ok).
  assert (He : ∀ v', 0 ≤ v' < 0xffc00000 → entry k1 v' = if same_page v v' then 0 else entry k v').
  { intros v' Hv'. unfold k1. rewrite (set_pte_entry k) by (done || pg). destruct (same_page v v') eqn:E.
    - rewrite decide_True; [done|]. apply same_page_indices; [by apply page_ok_32|lia|done].
    - rewrite decide_False; [done|]. intros E'. apply same_page_indices in E'; [congruence|by apply page_ok_32|lia]. }
  apply wp_on. eapply wp_mono; [by apply (rep_free _ A v PAGESZ (kh_rep _ _ Hk))|]. intros [] s' Hrep.
  apply HQ. split; try done.
  - split; [|done|..].
    + by apply (space_ok_vmm (with_tlb (Invlpg v :: km_tlb k1) k1)), space_ok_tlb.
    + intros w Hw. change (present (pde k1 (V_PDI w)) = true). unfold k1. rewrite (set_pte_pde k); try done.
      * by apply (kh_tables _ _ Hk).
      * apply V_PDI_range.
    + intros w Hwa Hw. change (present (entry k1 w) = false).
      pose proof (heap_page_ok w (free_at_heap _ w PAGESZ ltac:(done) Hw) Hwa) as Hwp.
      rewrite He by apply Hwp. case_match eqn:Es; [done|]. apply (kh_free _ _ Hk); [done|].
      apply (free_at_delete A v w); try done. intros ->. by rewrite same_page_refl in Es.
  - intros a Ha. by apply (set_pte_byte k).
  - intros a. by apply (set_pte_in k).
  - intros t Htr _. by apply (set_pte_pde k).
Qed.

(** ** Memory outside the page tables *)

Section data.
Context (k : kmem) (m : gmap Z Z) (Hok : space_ok k)
  (Hm : ∀ a, in_tables k a → byte m a = byte (km_phys k) a).
Let k' := with_phys m k.

Lemma data_word A i : (PAGESZ | A) → 0 ≤ i < 1024 → in_tables k A → word m (A + 4 * i) = word (km_phys k) (A + 4 * i).
Proof using Hm.
  intros HA Hi Hin. apply word_ext. intros b Hb. apply Hm.
  assert (PGROUND b = PGROUND A) as E by (destruct HA as [q ->]; pg).
  unfold in_tables in *. by rewrite E.
Qed.
Lemma data_pde t : 0 ≤ t < 1024 → pde k' t = pde k t.
Proof using Hm. intros. apply data_word; [apply dir_aligned|done|]. left. by apply PGROUND_id, dir_aligned. Qed.
Lemma data_table t : 0 ≤ t < 1024 → table k' t = table k t.
Proof using Hm. intros. unfold table. by rewrite data_pde. Qed.
Lemma data_pte t p : 0 ≤ t < 1023 → 0 ≤ p < 1024 → present (pde k t) = true → pte k' t p = pte k t p.
Proof using Hm.
  intros Ht Hp Hpr. unfold pte. rewrite data_table by lia. apply data_word; [apply table_aligned|done|].
  right. exists t. split; [done|]. split; [done|]. apply PGROUND_id, table_aligned.
Qed.
Lemma data_entry v : V_PDI v ≠ 1023 → entry k' v = entry k v.
Proof using Hm.
  intros Hv. pose proof (V_PDI_range v). pose proof (V_PTI_range v). unfold entry. rewrite data_pde by done.
  destruct (present (pde k (V_PDI v))) eqn:E; [|done]. apply data_pte; (done || lia).
Qed.
Lemma data_ok : space_ok k'.
Proof using Hok Hm.
  split; [apply Hok| |apply Hok|..].
  - change (present (pde k' 1023) = true ∧ PGROUND (pde k' 1023) = dir k). rewrite data_pde by lia. apply (so_self _ Hok).
  - intros t Ht. rewrite data_pde, data_table by lia. by apply (so_tables _ Hok).
  - intros t t' Ht Ht'. rewrite !data_pde, !data_table by lia. by apply (so_apart _ Hok).
Qed.
Lemma data_in a : in_tables k' a ↔ in_tables k a.
Proof using Hm.
  unfold in_tables. change (dir k') with (dir k). split; (intros [?|(t & ? & H1 & H2)]; [by left|right; exists t]).
  - rewrite data_pde in H1 by lia. rewrite data_table in H2 by lia. done.
  - rewrite data_pde, data_table by lia. done.
Qed.
Lemma data_heap A : kheap_ok k A → kheap_ok k' A.
Proof using Hok Hm.
  intros [_ ? H3 H4]. split; [apply data_ok|done|..].
  - intros v Hv. rewrite data_pde by apply V_PDI_range. by apply H3.
  - intros v Hv Hf. rewrite data_entry; [by apply H4|]. apply page_ok_pdi, heap_page_ok; [|done].
    by eapply (free_at_heap A v PAGESZ).
Qed.
End data.

(** Copying [n] bytes from physical address [ps] to [pd], seen at [s] and [d]. *)
Definition copied (m m' : gmap Z Z) (pd ps n : Z) : Prop :=
  ∀ a, byte m' a = if bool_decide (pd ≤ a < pd + n) then byte m (ps + (a - pd)) else byte m a.

Definition seen (k : kmem) (v p n : Z) : Prop :=
  0 ≤ v ∧ v + n ≤ 0xffc00000 ∧ ∀ i, 0 ≤ i < n → translation k (v + i) = Some (p + i).

Lemma seen_data k m v p n : (∀ a, in_tables k a → byte m a = byte (km_phys k) a) → seen k v p n → seen (with_phys m k) v p n.
Proof.
  intros Hm (Hv & Hle & Hs). split_and!; try done. intros i Hi. rewrite <- Hs by done. unfold translation.
  rewrite !walk_entry, (data_entry k m Hm); [done|]. pg.
Qed.
Lemma seen_tail k v p n : seen k v p (n + 1) → 0 ≤ n → seen k (v + 1) (p + 1) n.
Proof.
  intros (Hv & Hle & Hs) Hn. split_and!; try lia. intros i Hi. rewrite <- !Z.add_assoc. apply Hs. lia.
Qed.
Lemma wp_load8 k v p n (Q : Z → kmem → Prop) : seen k v p n → 0 < n → Q (byte (km_phys k) p) k → wp (load8 v) Q k.
Proof.
  intros (_ & _ & Hs) Hn HQ. unfold load8. apply wp_bind. eapply wp_translate.
  - specialize (Hs 0 ltac:(lia)). rewrite !Z.add_0_r in Hs. exact Hs.
  - by apply wp_gets.
Qed.
Lemma wp_store8 k v p n b (Q : unit → kmem → Prop) : seen k v p n → 0 < n →
  Q tt (with_phys (<[p := b]> (km_phys k)) k) → wp (store8 v b) Q k.
Proof.
  intros (_ & _ & Hs) Hn HQ. unfold store8. apply wp_bind. eapply wp_translate.
  - specialize (Hs 0 ltac:(lia)). rewrite !Z.add_0_r in Hs. exact Hs.
  - by apply wp_modify.
Qed.

Lemma wp_vmemcpy n k d s pd ps (Q : unit → kmem → Prop) :
  space_ok k → seen k d pd (Z.of_nat n) → seen k s ps (Z.of_nat n) →
  (∀ a, pd ≤ a < pd + Z.of_nat n → ¬ in_tables k a) → pd + Z.of_nat n ≤ ps ∨ ps + Z.of_nat n ≤ pd →
  (∀ m, copied (km_phys k) m pd ps (Z.of_nat n) → Q tt (with_phys m k)) →
  wp (vmemcpy n d s) Q k.
Proof.
  revert k d s pd ps. induction n as [|n IH]; intros k d s pd ps Hok Hd Hs Hni Hap HQ; simpl.
  - apply wp_ret. replace k with (with_phys (km_phys k) k) by (by destruct k). apply HQ.
    intros a. by rewrite bool_decide_false by lia.
  - pose proof (byte_range (km_phys k) ps) as Hr.
    apply wp_bind. eapply wp_load8; [done|lia|]. apply wp_bind. eapply wp_store8; [done|lia|].
    set (b := byte (km_phys k) ps) in *. set (m1 := <[pd := b]> (km_phys k)).
    assert (Hkeep : ∀ a, in_tables k a → byte m1 a = byte (km_phys k) a).
    { intros a Ha. apply byte_insert_ne. intros ->. apply (Hni a); [lia|done]. }
    replace (Z.of_nat (S n)) with (Z.of_nat n + 1) in * by lia.
    pose proof Hd as (? & ? & _). pose proof Hs as (? & ? & _).
    rewrite !u32_small by lia.
    apply (IH _ _ _ (pd + 1) (ps + 1)).
    + by apply data_ok.
    + apply seen_data; [done|]. apply seen_tail; [done|lia].
    + apply seen_data; [done|]. apply seen_tail; [done|lia].
    + intros a Ha. rewrite (data_in k m1) by done. apply Hni. lia.
    + lia.
    + intros m Hc. apply (HQ m). intros a. rewrite (Hc a). simpl. unfold m1.
      destruct (decide (a = pd)) as [->|].
      * rewrite bool_decide_false by lia. rewrite bool_decide_true by lia.
        rewrite byte_insert_eq by done. unfold b. f_equal. lia.
      * destruct (decide (pd + 1 ≤ a < pd + (Z.of_nat n + 1))).
        -- rewrite !bool_decide_true by lia. rewrite byte_insert_ne by lia. f_equal. lia.
        -- rewrite !bool_decide_false by lia. by rewrite byte_insert_ne by lia.
Qed.

(** ** Copying physical memory *)

(** Two pages of the kernel heap are free. *)
Definition two_rooms (A : allocs) : Prop :=
  ¬ no_room A PAGESZ ∧ ∀ v, free_at A v PAGESZ → ¬ no_room (<[v := PAGESZ]> A) PAGESZ.

(** [k'] is [k] up to the memory outside the page tables, which holds the copy. *)
Record copy_done (k k' : kmem) (A : allocs) (pd ps n : Z) : Prop := CopyDone {
  cd_heap : kheap_ok k' A;
  cd_entry : ∀ v, 0 ≤ v < 0xffc00000 → ¬ in_heap v → entry k' v = entry k v;
  cd_trans : ∀ v, 0 ≤ v < 0xffc00000 → translation k' v = translation k v;
  cd_pmem : km_pmem k' = km_pmem k;
  cd_cr3 : km_cr3 k' = km_cr3 k;
  cd_tables : ∀ a, in_tables k' a ↔ in_tables k a;
  cd_pde : ∀ t, 0 ≤ t < 1024 → present (pde k t) = true → pde k' t = pde k t;
  cd_byte : ∀ a, ¬ in_tables k a →
    byte (km_phys k') a = if bool_decide (pd ≤ a < pd + n) then byte (km_phys k) (ps + (a - pd)) else byte (km_phys k) a;
}.

Lemma mount_seen k k' A v p off n : mounted k k' A v p → 0 < p < 2 ^ 32 → (PAGESZ | p) → 0 ≤ off → off + n ≤ PAGESZ → 0 < n →
  seen k' (v + off) (p + off) n.
Proof.
  intros Hm Hp Hpa Ho Hn Hn0.
  assert (Hv : page_ok v) by (apply heap_page_ok; [eapply free_at_heap; [|apply Hm]; done|apply Hm]).
  destruct (entry_parts p mount_flags Hpa ltac:(lia) ltac:(done) ltac:(done)) as (_ & He & Hg & _).
  destruct Hv as [Hv [q Eq]]. subst v.
  assert (Hle : q * PAGESZ + PAGESZ ≤ 0xffc00000) by (unfold PAGESZ in *; lia).
  split_and!; [lia|lia|]. intros i Hi. unfold translation.
  rewrite walk_entry, (mo_entry _ _ _ _ _ Hm) by lia. rewrite <- Z.add_assoc.
  rewrite same_page_off by (lia || by exists q). rewrite He, Hg. f_equal. rewrite <- Z.add_assoc. f_equal. unfold PAGESZ in *. pg.
Qed.
Lemma seen_mount k k' A v p w pw n : mounted k k' A v p → seen k w pw n → (∀ i, 0 ≤ i < n → same_page v (w + i) = false) →
  seen k' w pw n.
Proof.
  intros Hm (Hw & Hle & Hs) Hne. split_and!; [done|done|]. intros i Hi. rewrite <- Hs by done. unfold translation.
  rewrite !walk_entry, (mo_entry _ _ _ _ _ Hm), Hne by lia. done.
Qed.
Lemma same_page_sub v w off : (PAGESZ | w) → 0 ≤ off < PAGESZ → same_page v (w + off) = same_page v w.
Proof.
  intros [q ->] Ho. unfold same_page. replace ((q * PAGESZ + off) / PAGESZ) with (q * PAGESZ / PAGESZ); [done|].
  unfold PAGESZ in *. Z.div_mod_to_equations; lia.
Qed.

Lemma heap_free_None k A v : kheap_ok k A → free_at A v PAGESZ → A !! v = None.
Proof.
  intros Hk Hf. destruct (A !! v) as [z|] eqn:E; [|done]. exfalso. pose proof (rep_ok _ _ _ _ (kh_rep _ _ Hk) E) as [? _ _ _ _].
  destruct Hf as [_ _ Hap]. apply Hap in E. unfold apart, rend in *. simpl in *. unfold PAGESZ in *. lia.
Qed.
Lemma heap_same_page v w : in_heap v → same_page v w = true → in_heap w.
Proof.
  intros Hv Hs%same_page_spec. unfold in_heap, KHEAPEND, KHEAPSZ, KHEAPBASE, PAGESZ in *. revert Hs. Z.div_mod_to_equations; lia.
Qed.

Lemma same_page_sym a b : same_page a b = same_page b a.
Proof. unfold same_page. apply bool_decide_ext. split; congruence. Qed.
Lemma entry_same_page k v w : 0 ≤ v < 0xffc00000 → 0 ≤ w < 0xffc00000 → same_page v w = true → entry k v = entry k w.
Proof.
  intros Hv Hw [E1 E2]%same_page_indices; [|lia..]. unfold entry. by rewrite E1, E2.
Qed.

(** Two mounts are taken away again; meanwhile memory outside the tables has changed. *)
Lemma wp_unmount_both {B} (K : M kmem B) k k1 k2 A vd vs pd ps m (Q : B → kmem → Prop) :
  kheap_ok k A → 0 < pd < 2 ^ 32 → (PAGESZ | pd) → 0 < ps < 2 ^ 32 → (PAGESZ | ps) →
  mounted k k1 A vd pd → mounted k1 k2 (<[vd := PAGESZ]> A) vs ps → same_page vs vd = false →
  (∀ a, in_tables k2 a → byte m a = byte (km_phys k2) a) →
  (∀ k', kheap_ok k' A → (∀ v, 0 ≤ v < 0xffc00000 → ¬ in_heap v → entry k' v = entry k v) →
     (∀ v, 0 ≤ v < 0xffc00000 → translation k' v = translation k v) →
     km_pmem k' = km_pmem k → km_cr3 k' = km_cr3 k → (∀ a, in_tables k' a ↔ in_tables k a) →
     (∀ a, ¬ in_tables k a → byte (km_phys k') a = byte m a) →
     (∀ t, 0 ≤ t < 1024 → present (pde k t) = true → pde k' t = pde k t) → wp K Q k') →
  wp (paging_unmount vs;; paging_unmount vd;; K) Q (with_phys m k2).
Proof.
  intros Hk Hpd Hpda Hps Hpsa H1 H2 Hsp Hm HQ. set (k3 := with_phys m k2).
  destruct (entry_parts pd mount_flags Hpda ltac:(lia) ltac:(done) ltac:(done)) as (_ & Hed & _ & _).
  destruct (entry_parts ps mount_flags Hpsa ltac:(lia) ltac:(done) ltac:(done)) as (_ & Hes & _ & _).
  assert (Hhd : in_heap vd) by (eapply (free_at_heap A vd PAGESZ); [done|apply H1]).
  assert (Hhs : in_heap vs) by (eapply (free_at_heap _ vs PAGESZ); [done|apply H2]).
  pose proof (heap_page_ok vd Hhd (mo_aligned _ _ _ _ _ H1)) as [Hvd _].
  pose proof (heap_page_ok vs Hhs (mo_aligned _ _ _ _ _ H2)) as [Hvs _].
  pose proof (data_heap k2 m (kh_space _ _ (mo_heap _ _ _ _ _ H2)) Hm _ (mo_heap _ _ _ _ _ H2)) as Hk3. fold k3 in Hk3.
  assert (E3 : ∀ v, 0 ≤ v < 0xffc00000 → entry k3 v = if same_page vs v then Z.lor ps mount_flags
    else if same_page vd v then Z.lor pd mount_flags else entry k v).
  { intros v Hv. unfold k3. rewrite (data_entry k2 m Hm) by pg. by rewrite (mo_entry _ _ _ _ _ H2), (mo_entry _ _ _ _ _ H1). }
  assert (T3 : ∀ a, in_tables k3 a ↔ in_tables k2 a) by (intros; by apply data_in).
  apply wp_bind. eapply wp_paging_unmount; [exact Hk3|apply lookup_insert_eq|apply H2|by rewrite E3, same_page_refl|].
  intros k4 U1. pose proof (uo_heap _ _ _ _ U1) as Hk4.
  rewrite delete_insert_id in Hk4 by (eapply heap_free_None; [apply H1|apply H2]).
  assert (E4 : ∀ v, 0 ≤ v < 0xffc00000 → entry k4 v = if same_page vs v then 0
    else if same_page vd v then Z.lor pd mount_flags else entry k v).
  { intros v Hv. rewrite (uo_entry _ _ _ _ U1), E3 by done. by case_match. }
  apply wp_bind. eapply wp_paging_unmount; [exact Hk4|apply lookup_insert_eq|apply H1|by rewrite E4, Hsp, same_page_refl|].
  intros k5 U2. pose proof (uo_heap _ _ _ _ U2) as Hk5. rewrite delete_insert_id in Hk5 by (by eapply heap_free_None, H1).
  assert (E5 : ∀ v, 0 ≤ v < 0xffc00000 → entry k5 v = if same_page vd v || same_page vs v then 0 else entry k v).
  { intros v Hv. rewrite (uo_entry _ _ _ _ U2), E4 by done. by destruct (same_page vd v), (same_page vs v). }
  assert (T5 : ∀ a, in_tables k5 a ↔ in_tables k a).
  { intros a. by rewrite (uo_tables _ _ _ _ U2), (uo_tables _ _ _ _ U1), T3, (mo_tables _ _ _ _ _ H2), (mo_tables _ _ _ _ _ H1). }
  apply HQ; try done.
  - intros v Hv Hnh. rewrite E5 by done. destruct (same_page vd v) eqn:Ed; [destruct Hnh; by apply (heap_same_page vd)|].
    destruct (same_page vs v) eqn:Es; [destruct Hnh; by apply (heap_same_page vs)|done].
  - intros v Hv. unfold translation. rewrite !walk_entry, E5 by done.
    destruct (same_page vd v || same_page vs v) eqn:E; [|done].
    assert (present (entry k v) = false) as ->; [|done]. apply orb_true_iff in E as [E|E].
    + rewrite <- (entry_same_page k vd v) by done. apply (kh_free _ _ Hk); apply H1.
    + rewrite <- (entry_same_page k vs v) by done.
      pose proof (kh_free _ _ (mo_heap _ _ _ _ _ H1) vs (mo_aligned _ _ _ _ _ H2) (mo_free _ _ _ _ _ H2)) as Hf.
      rewrite (mo_entry _ _ _ _ _ H1), same_page_sym, Hsp in Hf by done. done.
  - rewrite (uo_pmem _ _ _ _ U2), (uo_pmem _ _ _ _ U1). change (km_pmem k3) with (km_pmem k2). by rewrite (mo_pmem _ _ _ _ _ H2), (mo_pmem _ _ _ _ _ H1).
  - rewrite (uo_cr3 _ _ _ _ U2), (uo_cr3 _ _ _ _ U1). change (km_cr3 k3) with (km_cr3 k2). by rewrite (mo_cr3 _ _ _ _ _ H2), (mo_cr3 _ _ _ _ _ H1).
  - intros a Ha. rewrite (uo_byte _ _ _ _ U2), (uo_byte _ _ _ _ U1); [done|..];
      rewrite ?(uo_tables _ _ _ _ U1), ?T3, ?(mo_tables _ _ _ _ _ H2), ?(mo_tables _ _ _ _ _ H1); done.
  - intros t Ht Hp. pose proof (mo_pde _ _ _ _ _ H1 t Ht Hp) as D1. rewrite <- D1 in Hp.
    pose proof (mo_pde _ _ _ _ _ H2 t Ht Hp) as D2. rewrite <- D2 in Hp. rewrite <- (data_pde k2 m Hm t Ht) in D2, Hp. fold k3 in D2, Hp.
    pose proof (uo_pde _ _ _ _ U1 t Ht Hp) as D4. rewrite <- D4 in Hp. rewrite (uo_pde _ _ _ _ U2 t Ht Hp). congruence.
Qed.

(** The first round of [paging_memcpypp]: [n] bytes within a page of each side. *)
Lemma wp_copy_round {B} (E1 : M kmem B) (E2 : Z → M kmem B) (K : M kmem B) k A pd ps n (Q : B → kmem → Prop) :
  kheap_ok k A → two_rooms A → PAGESZ ≤ pd < 2 ^ 32 → PAGESZ ≤ ps < 2 ^ 32 →
  0 < n → PGOFFSET pd + n ≤ PAGESZ → PGOFFSET ps + n ≤ PAGESZ → pd + n ≤ ps ∨ ps + n ≤ pd →
  (∀ a, pd ≤ a < pd + n → ¬ in_tables k a) → (∀ a, ps ≤ a < ps + n → ¬ in_tables k a) →
  (∀ k', copy_done k k' A pd ps n → wp K Q k') →
  wp (vdst ← paging_mount (PGROUND pd);
      if bool_decide (vdst = 0) then E1 else
      vsrc ← paging_mount (PGROUND ps);
      if bool_decide (vsrc = 0) then E2 vdst else
      vmemcpy (Z.to_nat n) (vdst + PGOFFSET pd) (vsrc + PGOFFSET ps);;
      paging_unmount vsrc;; paging_unmount vdst;; K) Q k.
Proof.
  intros Hk [Hr1 Hr2] Hpd Hps Hn Hnd Hns Hap Hnid Hnis HQ.
  assert (Hgd : 0 < PGROUND pd < 2 ^ 32 ∧ pd = PGROUND pd + PGOFFSET pd ∧ 0 ≤ PGOFFSET pd) by pg.
  assert (Hgs : 0 < PGROUND ps < 2 ^ 32 ∧ ps = PGROUND ps + PGOFFSET ps ∧ 0 ≤ PGOFFSET ps) by pg.
  destruct Hgd as (Hgd & Ed & Hod), Hgs as (Hgs & Es & Hos).
  apply wp_bind, (wp_paging_mount k A); [done..|apply PGROUND_aligned|]. intros vd k1 H1.
  rewrite bool_decide_false by (destruct (mo_free _ _ _ _ _ H1); unfold KHEAPBASE in *; lia).
  apply wp_bind, (wp_paging_mount k1 (<[vd := PAGESZ]> A)); [apply H1|apply Hr2, H1|done|apply PGROUND_aligned|].
  intros vs k2 H2. rewrite bool_decide_false by (destruct (mo_free _ _ _ _ _ H2); unfold KHEAPBASE in *; lia).
  pose proof (mo_aligned _ _ _ _ _ H1) as Hvda. pose proof (mo_aligned _ _ _ _ _ H2) as Hvsa.
  pose proof (free_at_apart A vd vs Hvda Hvsa (mo_free _ _ _ _ _ H2)) as Hne.
  assert (Hsp : same_page vs vd = false) by (destruct (same_page vs vd) eqn:E; [by apply same_page_aligned in E|done]).
  pose proof (mount_seen _ _ _ _ _ _ n H1 Hgd (PGROUND_aligned pd) Hod Hnd Hn) as Sd.
  pose proof (mount_seen _ _ _ _ _ _ n H2 Hgs (PGROUND_aligned ps) Hos Hns Hn) as Ss. rewrite <- Ed in Sd. rewrite <- Es in Ss.
  apply (seen_mount _ _ _ _ _ _ _ _ H2) in Sd; [|intros i Hi; rewrite <- Z.add_assoc, same_page_sub by (done || lia); done].
  assert (T2 : ∀ a, in_tables k2 a ↔ in_tables k a) by (intros a; by rewrite (mo_tables _ _ _ _ _ H2), (mo_tables _ _ _ _ _ H1)).
  apply wp_bind, (wp_vmemcpy _ k2 _ _ pd ps); rewrite ?Z2Nat.id by lia; try done.
  { apply H2. }
  { intros a Ha. rewrite T2. by apply Hnid. }
  intros m Hc.
  apply (wp_unmount_both K k k1 k2 A vd vs (PGROUND pd) (PGROUND ps) m); try done; [apply PGROUND_aligned..| |].
  { intros a Ha. rewrite (Hc a), bool_decide_false; [done|]. intros Hin. apply (Hnid a Hin). by apply T2. }
  intros k' Hh He Ht Hpm Hcr Hta Hby Hpd'. apply HQ. split; try done.
  intros a Ha. rewrite Hby, (Hc a) by done. case_bool_decide as Hin.
  - rewrite (mo_byte _ _ _ _ _ H2), (mo_byte _ _ _ _ _ H1); try done; rewrite ?(mo_tables _ _ _ _ _ H1); apply Hnis; lia.
  - rewrite (mo_byte _ _ _ _ _ H2), (mo_byte _ _ _ _ _ H1); try done; by rewrite ?(mo_tables _ _ _ _ _ H1).
Qed.

Lemma wp_memcpypp_loop fuel k A pd ps n (Q : Z → kmem → Prop) :
  0 ≤ n → (Z.to_nat n ≤ fuel)%nat → kheap_ok k A → two_rooms A →
  PAGESZ ≤ pd → pd + n ≤ 2 ^ 32 → PAGESZ ≤ ps → ps + n ≤ 2 ^ 32 → pd + n ≤ ps ∨ ps + n ≤ pd →
  (∀ a, pd ≤ a < pd + n → ¬ in_tables k a) → (∀ a, ps ≤ a < ps + n → ¬ in_tables k a) →
  (∀ k', copy_done k k' A pd ps n → Q 0 k') →
  wp (memcpypp_loop fuel pd ps n) Q k.
Proof.
  revert k pd ps n. induction fuel as [|fuel IH]; intros k pd ps n Hn Hfuel Hk Hr Hpd Hpd2 Hps Hps2 Hap Hnid Hnis HQ.
  - assert (n = 0) as -> by lia. simpl. apply wp_ret, HQ. split; try done. intros a Ha. by rewrite bool_decide_false by lia.
  - simpl. destruct (decide (n = 0)) as [->|Hn0].
    { rewrite bool_decide_true by done. apply wp_ret, HQ. split; try done. intros a Ha. by rewrite bool_decide_false by lia. }
    rewrite bool_decide_false by done.
    assert (Hoff : 0 ≤ PGOFFSET pd < PAGESZ ∧ 0 ≤ PGOFFSET ps < PAGESZ) by (rewrite !PGOFFSET_mod; split; by apply Z.mod_pos_bound).
    set (len := Z.min (Z.min (PAGESZ - Z.max (PGOFFSET ps) (PGOFFSET pd)) PAGESZ) n).
    assert (Hlen : 0 < len ≤ n ∧ PGOFFSET pd + len ≤ PAGESZ ∧ PGOFFSET ps + len ≤ PAGESZ) by lia.
    apply (wp_copy_round _ (λ v, paging_unmount v;; mret (- ENOMEM)) _ k A pd ps len); try done; try lia.
    { intros a Ha. apply Hnid. lia. }
    { intros a Ha. apply Hnis. lia. }
    intros k1 H1. destruct (decide (n = len)) as [Heq|Hne].
    { destruct fuel; simpl; rewrite bool_decide_true by lia; apply wp_ret, HQ; by rewrite Heq. }
    rewrite !u32_small by lia. apply IH; try done; try lia; try apply H1.
    { intros a Ha. rewrite (cd_tables _ _ _ _ _ _ H1). apply Hnid. lia. }
    { intros a Ha. rewrite (cd_tables _ _ _ _ _ _ H1). apply Hnis. lia. }
    intros k2 H2. apply HQ. split.
    + apply H2.
    + intros v Hv Hnh. by rewrite (cd_entry _ _ _ _ _ _ H2), (cd_entry _ _ _ _ _ _ H1).
    + intros v Hv. by rewrite (cd_trans _ _ _ _ _ _ H2), (cd_trans _ _ _ _ _ _ H1).
    + by rewrite (cd_pmem _ _ _ _ _ _ H2), (cd_pmem _ _ _ _ _ _ H1).
    + by rewrite (cd_cr3 _ _ _ _ _ _ H2), (cd_cr3 _ _ _ _ _ _ H1).
    + intros a. by rewrite (cd_tables _ _ _ _ _ _ H2), (cd_tables _ _ _ _ _ _ H1).
    + intros t Ht Hpt. pose proof (cd_pde _ _ _ _ _ _ H1 t Ht Hpt) as D1. by rewrite (cd_pde _ _ _ _ _ _ H2) by congruence.
    + intros a Ha. assert (Ha1 : ¬ in_tables k1 a) by (by rewrite (cd_tables _ _ _ _ _ _ H1)).
      rewrite (cd_byte _ _ _ _ _ _ H2) by done. destruct (decide (pd + len ≤ a < pd + n)).
      * rewrite !bool_decide_true by lia. rewrite (cd_byte _ _ _ _ _ _ H1) by (apply Hnis; lia).
        rewrite bool_decide_false by lia. f_equal. lia.
      * rewrite bool_decide_false by lia. rewrite (cd_byte _ _ _ _ _ _ H1) by done.
        destruct (decide (pd ≤ a < pd + len)); [rewrite !bool_decide_true by lia|rewrite !bool_decide_false by lia]; done.
Qed.

(** [paging_memcpypp] copies [size] bytes between physical addresses: it always
    returns 0 when the kernel heap has two free pages, the destination then holds
    the bytes the source held, every other byte outside the page tables is unchanged,
    every address translates as before, and no frame changes its count (the two
    temporary mappings are gone). *)
Theorem paging_memcpypp_correct k A pd ps n :
  kheap_ok k A → two_rooms A → 0 ≤ n → PAGESZ ≤ pd → pd + n ≤ 2 ^ 32 → PAGESZ ≤ ps → ps + n ≤ 2 ^ 32 →
  pd + n ≤ ps ∨ ps + n ≤ pd →
  (∀ a, pd ≤ a < pd + n → ¬ in_tables k a) → (∀ a, ps ≤ a < ps + n → ¬ in_tables k a) →
  ∃ k', paging_memcpypp pd ps n k = Ok (0, k') ∧ copy_done k k' A pd ps n.
Proof.
  intros. enough (wp (paging_memcpypp pd ps n) (λ r k', r = 0 ∧ copy_done k k' A pd ps n) k) as (? & k' & ? & -> & ?)%wp_exec by eauto.
  by apply (wp_memcpypp_loop _ k A).
Qed.

(** ** A machine with page tables for the kernel heap *)

(** The first [u] of the [n] pages above 16 MiB are in use. *)
Definition used_page : page := take_page 1 page_zero.
Definition demo_pages (u n : Z) : list page :=
  replicate (Z.to_nat 4096) page_zero ++ replicate (Z.to_nat u) used_page ++ replicate (Z.to_nat (n - u)) page_zero.
Definition demo_used (u n : Z) : pmem :=
  Pmem [zone_new 0 0 4096; set_free (n - u) (zone_new 0x1000000 4096 n); zone_static] (demo_pages u n).
Lemma demo_pages_length u n : 0 ≤ u ≤ n → Z.of_nat (length (demo_pages u n)) = 4096 + n.
Proof. intros. unfold demo_pages. rewrite !length_app, !length_replicate. lia. Qed.
Lemma demo_pages_dma u n : take (Z.to_nat 4096) (drop (Z.to_nat 0) (demo_pages u n)) = replicate (Z.to_nat 4096) page_zero.
Proof. unfold demo_pages. change (drop (Z.to_nat 0) ?l) with l. by rewrite take_app_length' by (by rewrite length_replicate). Qed.
Lemma demo_pages_norm u n : 0 ≤ u ≤ n → take (Z.to_nat n) (drop (Z.to_nat 4096) (demo_pages u n)) =
  replicate (Z.to_nat u) used_page ++ replicate (Z.to_nat (n - u)) page_zero.
Proof.
  intros. unfold demo_pages. rewrite drop_app_length' by (by rewrite length_replicate).
  apply take_ge. rewrite length_app, !length_replicate. lia.
Qed.
Lemma filter_replicate_none {A} (P : A → Prop) `{!∀ x, Decision (P x)} x k : ¬ P x → filter P (replicate k x) = [].
Proof. intros Hx. induction k as [|k IH]; simpl; [done|]. by rewrite filter_cons_False. Qed.
Lemma demo_used_page u n i g : 0 ≤ u ≤ n → page_in (demo_used u n) i g →
  g = if bool_decide (4096 ≤ i < 4096 + u) then used_page else page_zero.
Proof.
  intros Hu [Hi Hg]. change (pages (demo_used u n)) with (demo_pages u n) in Hg. unfold demo_pages in Hg. apply lookup_app_Some in Hg as [[Hg Hl]%lookup_replicate|[Hl Hg]].
  - rewrite bool_decide_false by lia. done.
  - rewrite length_replicate in *. apply lookup_app_Some in Hg as [[Hg Hl']%lookup_replicate|[Hl' Hg]].
    + by rewrite bool_decide_true by lia.
    + rewrite length_replicate in *. apply lookup_replicate in Hg as [-> _]. by rewrite bool_decide_false by lia.
Qed.
Lemma demo_used_ok u n : 0 ≤ u ≤ n → 0x1000000 + n * PAGESZ ≤ MMAP_DEVADDR → pmem_ok (demo_used u n).
Proof.
  intros Hu Hle. set (s := demo_used u n).
  assert (Hz : ∀ z v, zone_in s z v → z = 0 ∧ v = zone_new 0 0 4096 ∨ z = 1 ∧ v = set_free (n - u) (zone_new 0x1000000 4096 n) ∨ z = 2 ∧ v = zone_static).
  { intros z v [Hz Hv]. destruct (decide (z = 0)) as [->|]; [by simplify_eq/=; auto|].
    destruct (decide (z = 1)) as [->|]; [by simplify_eq/=; auto|].
    destruct (decide (z = 2)) as [->|]; [by simplify_eq/=; auto|].
    apply lookup_lt_Some in Hv. simpl in Hv. lia. }
  assert (Hlen : Z.of_nat (length (pages s)) = 4096 + n) by (by apply demo_pages_length).
  assert (Hdma : free_count s 0 4096 = 4096).
  { unfold free_count. change (pages s) with (demo_pages u n). by rewrite demo_pages_dma, filter_replicate, length_replicate by done. }
  assert (Hnorm : free_count s 4096 n = n - u).
  { unfold free_count. change (pages s) with (demo_pages u n). rewrite demo_pages_norm by done.
    rewrite filter_app, filter_replicate_none, filter_replicate by done. rewrite app_nil_l, length_replicate. lia. }
  split.
  - reflexivity.
  - intros z v [[_ ->]|[[_ ->]|[_ ->]]]%Hz; reflexivity.
  - intros z v [[-> ->]|[[-> ->]|[_ ->]]]%Hz Hv; [split; [lia|]; split..|by destruct Hv].
    + change (0 ≤ 0). lia.
    + change (0 ≤ 4096). lia.
    + rewrite Hlen. change (0 + 4096 ≤ 4096 + n). lia.
    + split; [change (0 ≤ 0); lia|]. by exists 0.
    + change (0 + 4096 * PAGESZ ≤ MMAP_DEVADDR). unfold PAGESZ, MMAP_DEVADDR. lia.
    + symmetry. exact Hdma.
    + intros i g Hi Hg Hr. change (0 ≤ i < 0 + 4096) in Hi.
      rewrite (demo_used_page u n i g Hu Hg), bool_decide_false in Hr by lia. by destruct Hr.
    + change (0 ≤ 4096). lia.
    + change (0 ≤ n). lia.
    + rewrite Hlen. change (4096 + n ≤ 4096 + n). lia.
    + split; [change (0 ≤ 0x1000000); lia|]. by exists 0x1000.
    + exact Hle.
    + symmetry. exact Hnorm.
    + intros i g Hi Hg Hr. rewrite (demo_used_page u n i g Hu Hg) in *. case_bool_decide; [reflexivity|by destruct Hr].
  - exists (zone_new 0 0 4096). split; [split; [done|reflexivity]|]. split; [by unfold valid|]. split; reflexivity.
  - exists (set_free (n - u) (zone_new 0x1000000 4096 n)). split; [split; [done|reflexivity]|]. split; [by unfold valid|reflexivity].
  - intros d m [[_ ->]|[[[=] _]|[[=] _]]]%Hz [[[=] _]|[[_ ->]|[[=] _]]]%Hz. simpl. lia.
  - intros i g Hg. rewrite (demo_used_page u n i g Hu Hg). case_bool_decide; simpl; lia.
Qed.

Lemma demo_used_refs u n i : 0 ≤ u ≤ n → 0x1000000 + n * PAGESZ ≤ MMAP_DEVADDR → 0 ≤ i < n →
  refs (demo_used u n) (0x1000000 + i * PAGESZ) = if bool_decide (i < u) then 1 else 0.
Proof.
  intros Hu Hle Hi. pose proof (demo_used_ok u n Hu Hle) as Hok.
  assert (Hv : zone_in (demo_used u n) MM_ZONE_NORM (set_free (n - u) (zone_new 0x1000000 4096 n))) by (split; [done|reflexivity]).
  destruct (page_exists (demo_used u n) (4096 + i)) as [g Hg].
  { change (pages (demo_used u n)) with (demo_pages u n). rewrite demo_pages_length by done. lia. }
  rewrite (refs_frame _ _ _ _ _ _ Hok (norm_frame _ _ i g Hok Hv Hi Hg)).
  rewrite (demo_used_page u n _ g Hu Hg). destruct (decide (i < u)).
  - by rewrite !bool_decide_true by lia.
  - by rewrite !bool_decide_false by lia.
Qed.

(** Frame 0 above 16 MiB is the directory, the next 216 the tables of the kernel heap. *)
Definition heap_tables : Z := 216.
Definition heap_table (t : Z) : Z := demo_dir + (t - 799) * PAGESZ.
Fixpoint heap_pdes (n : nat) (t : Z) (m : gmap Z Z) : gmap Z Z :=
  match n with O => m | S n' => put_word (demo_dir + 4 * t) (heap_table t + 0x1b) (heap_pdes n' (t + 1) m) end.
Definition heap_phys : gmap Z Z := heap_pdes (Z.to_nat heap_tables) 800 demo_phys.
Definition heap_kmem (s : vmm) : kmem := Kmem (demo_used 1024 2048) s heap_phys demo_dir [].

Lemma heap_pdes_word n t m t' : 0 ≤ t → t + Z.of_nat n ≤ 1023 → 0 ≤ t' < 1024 → 799 ≤ t →
  word (heap_pdes n t m) (demo_dir + 4 * t') =
  if bool_decide (t ≤ t' < t + Z.of_nat n) then heap_table t' + 0x1b else word m (demo_dir + 4 * t').
Proof.
  revert t. induction n as [|n IH]; intros t Ht Hn Ht' H8; simpl heap_pdes.
  - by rewrite bool_decide_false by lia.
  - rewrite word_slot; [|by exists 0x1000|by exists 0x1000|lia|lia|unfold heap_table, demo_dir, PAGESZ; lia].
    destruct (decide (t = t')) as [->|Hne].
    + rewrite decide_True by done. by rewrite bool_decide_true by lia.
    + rewrite decide_False by tauto. rewrite IH by lia.
      destruct (decide (t ≤ t' < t + Z.of_nat (S n))); [rewrite !bool_decide_true by lia|rewrite !bool_decide_false by lia]; done.
Qed.
Lemma heap_pdes_byte n t m a : 0 ≤ t → t + Z.of_nat n ≤ 1023 → PGROUND a ≠ demo_dir → byte (heap_pdes n t m) a = byte m a.
Proof.
  revert t. induction n as [|n IH]; intros t Ht Hn Ha; simpl heap_pdes; [done|].
  rewrite byte_slot; [|by exists 0x1000|lia|done]. apply IH; (done || lia).
Qed.
Lemma heap_pde s t : 0 ≤ t < 1023 → pde (heap_kmem s) t = if bool_decide (800 ≤ t < 1016) then heap_table t + 0x1b else 0.
Proof.
  intros Ht. unfold pde. change (dir (heap_kmem s)) with demo_dir. change (km_phys (heap_kmem s)) with heap_phys.
  unfold heap_phys. rewrite heap_pdes_word by (unfold heap_tables; lia).
  change (800 + Z.of_nat (Z.to_nat heap_tables)) with 1016. case_bool_decide; [done|].
  apply (demo_pde t Ht).
Qed.
Lemma heap_present s t : 0 ≤ t < 1023 → present (pde (heap_kmem s) t) = true → 800 ≤ t < 1016 ∧ table (heap_kmem s) t = heap_table t.
Proof.
  intros Ht. unfold table. rewrite heap_pde by done. case_bool_decide; [|done]. intros _. split; [done|].
  unfold heap_table, demo_dir. pg.
Qed.
Lemma heap_space_ok s : space_ok (heap_kmem s).
Proof.
  assert (Hu : 0 ≤ 1024 ≤ 2048) by lia.
  assert (Hle : 0x1000000 + 2048 * PAGESZ ≤ MMAP_DEVADDR) by (unfold PAGESZ, MMAP_DEVADDR; lia).
  split.
  - by apply demo_used_ok.
  - unfold self_mapped. change (PGROUND (km_cr3 (heap_kmem s))) with demo_dir. change (km_phys (heap_kmem s)) with heap_phys.
    unfold heap_phys. rewrite heap_pdes_word by (unfold heap_tables; lia). by rewrite bool_decide_false by (unfold heap_tables; lia).
  - unfold kref. change (km_pmem (heap_kmem s)) with (demo_used 1024 2048).
    change (dir (heap_kmem s)) with (0x1000000 + 0 * PAGESZ). rewrite demo_used_refs by lia. by rewrite bool_decide_true.
  - intros t Ht [Hr ->]%heap_present; [|done]. unfold heap_table. split.
    + unfold kref, demo_dir. change (km_pmem (heap_kmem s)) with (demo_used 1024 2048). rewrite demo_used_refs by lia.
      by rewrite bool_decide_true by lia.
    + change (dir (heap_kmem s)) with demo_dir. unfold PAGESZ. lia.
  - intros t t' Ht Ht' [_ ->]%heap_present [_ ->]%heap_present; [|done..]. unfold heap_table, PAGESZ. lia.
Qed.
Lemma heap_pdi v : in_heap v → 800 ≤ V_PDI v < 1016.
Proof. unfold in_heap, KHEAPEND, KHEAPSZ, KHEAPBASE. intros. pg. Qed.
Lemma heap_pte s t p : 800 ≤ t < 1016 → 0 ≤ p < 1024 → pte (heap_kmem s) t p = 0.
Proof.
  intros Ht Hp. unfold pte. assert (table (heap_kmem s) t = heap_table t) as ->.
  { apply heap_present; [lia|]. rewrite heap_pde, bool_decide_true by lia. unfold present, heap_table, demo_dir.
    rewrite Z.add_comm. rewrite Z.bit0_odd, Z.odd_add. change (Z.odd 27) with true. unfold PAGESZ.
    rewrite Z.odd_add, Z.odd_mul. by rewrite andb_false_r. }
  rewrite (word_ext _ ∅).
  - unfold word, byte. by rewrite !lookup_empty.
  - intros b Hb. change (km_phys (heap_kmem s)) with heap_phys. unfold heap_phys.
    assert (Hpg : PGROUND b ≠ demo_dir) by (revert Hb; unfold heap_table, demo_dir; pg).
    rewrite heap_pdes_byte; [|lia|unfold heap_tables; lia|done]. by apply byte_slot; [exists 0x1000|lia|].
Qed.
Lemma heap_ok s : vmm_rep s ∅ → kheap_ok (heap_kmem s) ∅.
Proof.
  intros Hr. split; [apply heap_space_ok|done|..].
  - intros v Hv%heap_pdi. rewrite heap_pde, bool_decide_true by lia. unfold present, heap_table, demo_dir.
    rewrite Z.add_comm. rewrite Z.bit0_odd, Z.odd_add. change (Z.odd 27) with true. unfold PAGESZ.
    rewrite Z.odd_add, Z.odd_mul. by rewrite andb_false_r.
  - intros v _ Hv%free_at_heap%heap_pdi; [|done]. unfold entry. rewrite heap_pte by (done || apply V_PTI_range). by case_match.
Qed.
Lemma two_rooms_empty : two_rooms ∅.
Proof.
  assert (Hlo : KHEAPBASE + 3 * PAGESZ ≤ KHEAPEND) by (unfold KHEAPEND, KHEAPSZ, KHEAPBASE, PAGESZ; lia).
  assert (0 < PAGESZ) by done. split.
  - intros H0. apply (H0 KHEAPBASE). split; [lia|lia|]. intros b z. by rewrite lookup_empty.
  - intros v Hv H0. destruct (decide (KHEAPBASE + PAGESZ ≤ v)).
    + apply (H0 KHEAPBASE). split; [lia|lia|]. intros b z. rewrite insert_empty, lookup_singleton_Some. intros [<- <-].
      unfold apart, rend. simpl. lia.
    + apply (H0 (KHEAPBASE + 2 * PAGESZ)). split; [lia|lia|]. intros b z. rewrite insert_empty, lookup_singleton_Some. intros [<- <-].
      unfold apart, rend. simpl. lia.
Qed.

Lemma paging_memcpypp_correct_witness : ∃ s k', kheap_ok (heap_kmem s) ∅ ∧
  paging_memcpypp 0x1500ff0 0x1600ff8 64 (heap_kmem s) = Ok (0, k') ∧ copy_done (heap_kmem s) k' ∅ 0x1500ff0 0x1600ff8 64.
Proof.
  destruct vmm_init_rep as (s & _ & Hs). exists s.
  assert (Hni : ∀ a, 0x1400000 ≤ a → ¬ in_tables (heap_kmem s) a).
  { intros a Ha [E|(t & Ht & [Hr ->]%heap_present & E)]; [|unfold heap_table, demo_dir in E; revert E; pg|done].
    change (dir (heap_kmem s)) with demo_dir in E. unfold demo_dir in E. revert E. pg. }
  destruct (paging_memcpypp_correct (heap_kmem s) ∅ 0x1500ff0 0x1600ff8 64) as (k' & H1 & H2);
    [by apply heap_ok|apply two_rooms_empty|unfold PAGESZ; lia..|intros a Ha; apply Hni; lia|intros a Ha; apply Hni; lia|].
  exists k'. split; [by apply heap_ok|]. split; [exact H1|exact H2].
Defined.

(** ** The kernel heap under changes elsewhere *)

Lemma heap_tlb k A l : kheap_ok k A → kheap_ok (with_tlb l k) A.
Proof. intros [H1 H2 H3 H4]. split; [by apply space_ok_tlb|exact H2|exact H3|exact H4]. Qed.
Lemma heap_pmem k A s' : kheap_ok k A → pmem_ok s' → (∀ a, (PAGESZ | a) → in_tables k a → refs s' a ≠ 0) →
  kheap_ok (with_pmem s' k) A.
Proof. intros [H1 H2 H3 H4] Hs Hr. split; [by apply space_ok_pmem|exact H2|exact H3|exact H4]. Qed.
Lemma free_page_ok A w : (PAGESZ | w) → free_at A w PAGESZ → page_ok w ∧ in_heap w.
Proof. intros Hwa Hw%free_at_heap; [|done]. split; [by apply heap_page_ok|done]. Qed.
Lemma heap_mapped k k' A v e : kheap_ok k A → mapped k k' v e → ¬ in_heap v → kheap_ok k' A.
Proof.
  intros Hk Hm Hv. split; [apply Hm|rewrite (ma_vmm _ _ _ _ Hm); apply Hk|..].
  - intros w Hw. rewrite (ma_pde _ _ _ _ Hm); [by apply (kh_tables _ _ Hk)|apply V_PDI_range|by apply (kh_tables _ _ Hk)].
  - intros w Hwa Hw. destruct (free_page_ok A w Hwa Hw) as [Hwp Hwh].
    rewrite (ma_entry _ _ _ _ Hm) by (by apply page_ok_32 || by apply page_ok_pdi).
    case_match eqn:E; [|by apply (kh_free _ _ Hk)]. destruct Hv. apply (heap_same_page w); [done|]. by rewrite same_page_sym.
Qed.
Lemma heap_took k k' A f : kheap_ok k A → took k k' f → kheap_ok k' A.
Proof.
  intros [H1 H2 H3 H4] Ht. pose proof (to_ok _ _ _ Ht) as Hok'. rewrite (to_same _ _ _ Ht) in *.
  split; [done|exact H2|exact H3|exact H4].
Qed.

Lemma user_not_heap v : 0 ≤ v < 0xC0000000 → ¬ in_heap v.
Proof. unfold in_heap, KHEAPBASE. lia. Qed.

(** ** A machine with a page that two address spaces share *)

Definition cow_frame : Z := 0x112c000.
Definition cow_page : Z := 0x400000.
Lemma cow_page_ok : page_ok cow_page.
Proof. split; [unfold cow_page; lia|by exists 1024]. Qed.
Lemma in_tables_pmem k s' a : in_tables (with_pmem s' k) a → in_tables k a.
Proof. done. Qed.
Lemma pde_pmem k s' t : pde (with_pmem s' k) t = pde k t.
Proof. done. Qed.
Lemma heap_in_tables s a : in_tables (heap_kmem s) a → PGROUND a < 0x10d9000.
Proof.
  intros [E|(t & Ht & Hp & E)]; rewrite E; [by vm_compute|]. destruct (heap_present s t Ht Hp) as [Hr ->].
  unfold heap_table, demo_dir, PAGESZ. lia.
Qed.
Lemma cow_setup : ∃ s k, vmm_rep s ∅ ∧
  (on (page_incr_at cow_frame);; paging_map cow_frame cow_page 5) (heap_kmem s) = Ok (0, k) ∧
  kheap_ok k ∅ ∧ entry k cow_page = Z.lor cow_frame 5 ∧ ¬ in_tables k cow_frame ∧
  norm_end (km_pmem k) = norm_end (demo_used 1024 2048) ∧ kref k cow_frame = 2 ∧
  ∀ v, 0 ≤ v < 0xC0000000 → same_page cow_page v = false → entry k v = 0.
Proof.
  destruct vmm_init_rep as (s & _ & Hs). exists s. pose proof (heap_ok s Hs) as Hk. pose proof (kh_space _ _ Hk) as Hok.
  assert (Hu : 0 ≤ 1024 ≤ 2048) by lia.
  assert (Hle : 0x1000000 + 2048 * PAGESZ ≤ MMAP_DEVADDR) by (unfold PAGESZ, MMAP_DEVADDR; lia).
  assert (Hne : norm_end (demo_used 1024 2048) = 0x1800000) by reflexivity.
  assert (Hr : ∀ i, 0 ≤ i < 2048 → refs (demo_used 1024 2048) (0x1000000 + i * PAGESZ) = if bool_decide (i < 1024) then 1 else 0)
    by (intros; by apply demo_used_refs).
  assert (Hrc : refs (demo_used 1024 2048) cow_frame = 1) by exact (Hr 300 ltac:(lia)).
  pose proof (demo_used_ok 1024 2048 Hu Hle) as Hpm.
  enough (wp (on (page_incr_at cow_frame);; paging_map cow_frame cow_page 5) (λ r k, r = 0 ∧ kheap_ok k ∅ ∧
    entry k cow_page = Z.lor cow_frame 5 ∧ ¬ in_tables k cow_frame ∧
    norm_end (km_pmem k) = norm_end (demo_used 1024 2048) ∧ kref k cow_frame = 2 ∧
    ∀ v, 0 ≤ v < 0xC0000000 → same_page cow_page v = false → entry k v = 0) (heap_kmem s)) as Hw.
  { destruct (proj1 (wp_exec _ _ _) Hw) as (r & k & Hx & -> & H). exists k. exact (conj Hs (conj Hx H)). }
  destruct (frame_exists (demo_used 1024 2048) cow_frame Hpm) as (z & w & i & g & Hfi); [rewrite Hne; unfold cow_frame; lia|].
  apply wp_bind, wp_on. change (part (heap_kmem s)) with (demo_used 1024 2048).
  eapply wp_page_incr_at; [done|exact Hfi|by exists 0x112c|done|rewrite Hrc; lia|]. rewrite Hrc. intros s' Hs' Hr' He'.
  change (set_part s' (heap_kmem s)) with (with_pmem s' (heap_kmem s)). set (k1 := with_pmem s' (heap_kmem s)).
  assert (Hk1 : kheap_ok k1 ∅).
  { apply heap_pmem; [done..|]. intros a Ha Hin%in_tables_kref; [|done..]. rewrite Hr'. by case_match. }
  assert (Hpd : pde k1 (V_PDI cow_page) = 0) by (unfold k1; rewrite pde_pmem; exact (heap_pde s 1 ltac:(lia))).
  apply wp_paging_map; [apply Hk1|apply cow_page_ok|unfold cow_frame; lia|by exists 0x112c|unfold PAGESZ; lia|reflexivity|..].
  - unfold entry. rewrite Hpd. reflexivity.
  - intros _ Hf. exfalso. apply (Hf 0x1400000); [change (km_pmem k1) with s'; rewrite He', Hne; lia|]. unfold kref. change (km_pmem k1) with s'. rewrite Hr'.
    change (same_page cow_frame 0x1400000) with false. exact (Hr 1024 ltac:(lia)).
  - intros k Hm. split; [reflexivity|].
    assert (Hin : ¬ in_tables k1 cow_frame).
    { intros H%in_tables_pmem%heap_in_tables. by vm_compute in H. }
    assert (Hk2 : kref k1 cow_frame = 2) by (unfold kref; change (km_pmem k1) with s'; rewrite Hr', same_page_refl; reflexivity).
    split; [|split; [|split; [|split; [|split]]]].
    + apply (heap_mapped k1 k ∅ cow_page (Z.lor cow_frame 5)); [done..|]. apply user_not_heap. unfold cow_page. lia.
    + rewrite (ma_entry _ _ _ _ Hm), same_page_refl; [reflexivity|apply page_ok_32, cow_page_ok|apply page_ok_pdi, cow_page_ok].
    + intros H. destruct (ma_tables _ _ _ _ Hm _ H) as [H'|H']; [exact (Hin H')|]. change (PGROUND cow_frame) with cow_frame in H'.
      rewrite Hk2 in H'. discriminate H'.
    + rewrite (ma_end _ _ _ _ Hm). exact He'.
    + rewrite (mapped_kref_eq _ _ _ _ _ (kh_space _ _ Hk1) Hm); [exact Hk2|lia].
    + intros v Hv Hns. rewrite (ma_entry _ _ _ _ Hm), Hns by (lia || pg). unfold entry, k1. rewrite pde_pmem, heap_pde by pg.
      rewrite bool_decide_false by pg. reflexivity.
Qed.
