(* ===== verification/PagingUnmap.v ===== *)
(** * Unmapping a range of pages ([paging_unmap_mapped])

    The address-space code unmaps whole regions with [paging_unmap_mapped], whose
    pages need not all be mapped: pages are mapped when they are first touched. *)
From S2P Require Import Prelude Dll Vmm VmmRegions VmmSpec Mmap Zone ZoneInv ZoneSpec Paging PagingMem PagingInv PagingSpec PagingCopy.

Definition vpage (v : Z) (i : nat) : Z := v + Z.of_nat i * PAGESZ.
(** How many of the first [j] pages from [v] on map the frame of [b]. *)
Fixpoint lost (k : kmem) (v : Z) (j : nat) (b : Z) : Z :=
  match j with
  | O => 0
  | S j => (if same_page (PGROUND (entry k v)) b then 1 else 0) + lost k (v + PAGESZ) j b
  end.
(** The first [j] pages are mapped, and to frames that are not page tables. *)
Definition mapped_pages (k : kmem) (v : Z) (j : nat) : Prop := ∀ i, (i < j)%nat →
  let e := entry k (vpage v i) in present e = true ∧ PGROUND e ≠ 0 ∧ ¬ in_tables k (PGROUND e).

Lemma vpage_S v i : vpage (v + PAGESZ) i = vpage v (S i).
Proof. unfold vpage. lia. Qed.
Lemma vpage_0 v : vpage v 0 = v.
Proof. unfold vpage. lia. Qed.
Lemma vpage_ok v n i : page_ok v → v + Z.of_nat n * PAGESZ ≤ 0xffc00000 → (i < n)%nat → page_ok (vpage v i).
Proof. intros [Hv [q ->]] Hn Hi. unfold vpage. split; [unfold PAGESZ in *; lia|]. exists (q + Z.of_nat i). unfold PAGESZ. lia. Qed.
Lemma vpage_apart v i : (PAGESZ | v) → same_page v (vpage v (S i)) = false.
Proof.
  intros [q ->]. destruct (same_page _ _) eqn:E; [|done]. apply same_page_spec in E. unfold vpage in E. revert E.
  unfold PAGESZ. Z.div_mod_to_equations; lia.
Qed.
Lemma lost_ext k k' v j b : (∀ i, (i < j)%nat → entry k' (vpage v i) = entry k (vpage v i)) → lost k' v j b = lost k v j b.
Proof.
  revert v. induction j as [|j IH]; intros v He; simpl; [done|]. rewrite IH by (intros i Hi; rewrite vpage_S; apply He; lia).
  specialize (He 0%nat ltac:(lia)). rewrite vpage_0 in He. by rewrite He.
Qed.
Lemma lost_nonneg k v j b : 0 ≤ lost k v j b.
Proof. revert v. induction j as [|j IH]; intros v; simpl; [done|]. specialize (IH (v + PAGESZ)). case_match; lia. Qed.
Lemma kref_nonneg k b : space_ok k → 0 ≤ kref k b.
Proof.
  intros Hok. unfold kref, refs. destruct (frame_index (km_pmem k) b) as [i|]; [|done]. simpl.
  destruct (pages (km_pmem k) !! Z.to_nat i) as [g|] eqn:E; [|done].
  apply (po_refs _ (so_pmem _ Hok) (Z.of_nat (Z.to_nat i)) g). split; [lia|]. by rewrite Nat2Z.id.
Qed.

(** [k'] is [k] without the mappings of the first [j] pages from [v] on. *)
Record cleared (k k' : kmem) (v : Z) (j : nat) : Prop := Cleared {
  cl_ok : space_ok k';
  cl_entry : ∀ v', 0 ≤ v' < 0xffc00000 → entry k' v' = if bool_decide (v ≤ v' < vpage v j) then 0 else entry k v';
  cl_refs : ∀ b, kref k' b = Z.max 0 (kref k b - lost k v j b);
  cl_byte : ∀ a, ¬ in_tables k a → byte (km_phys k') a = byte (km_phys k) a;
  cl_tables : ∀ a, in_tables k' a ↔ in_tables k a;
}.

Lemma wp_unmap_mapped_none k v (Q : Z → kmem → Prop) : space_ok k → page_ok v → present (entry k v) = false →
  Q (- ENOENT) (with_tlb (Invlpg v :: km_tlb k) k) → wp (unmap_mapped_32bit (V_PDI v) (V_PTI v)) Q k.
Proof.
  intros Hok Hv Hno HQ. pose proof (V_PDI_range v) as Ht. pose proof (V_PTI_range v) as Hp.
  assert (E : VADDR (V_PDI v) (V_PTI v) = v) by (apply VADDR_indices; [by apply page_ok_32|apply Hv]).
  unfold unmap_mapped_32bit. apply wp_bind, wp_kassert. { by rewrite bool_decide_false by lia. }
  apply wp_bind, wp_load_pde; [apply Hok|done|]. unfold entry in Hno.
  destruct (present (pde k (V_PDI v))) eqn:Ep; simpl negb; cbv iota; [apply wp_bind, wp_load_pte; [apply Hok|done..|]; rewrite Hno; simpl negb; cbv iota|];
    rewrite E; by apply wp_bind, wp_modify, wp_ret.
Qed.

Lemma wp_unmap_mapped_one k v (Q : Z → kmem → Prop) : space_ok k → page_ok v → present (entry k v) = true →
  PGROUND (entry k v) ≠ 0 → ¬ in_tables k (PGROUND (entry k v)) →
  (∀ k', unmapped k k' v → Q 0 k') → wp (unmap_mapped_32bit (V_PDI v) (V_PTI v)) Q k.
Proof.
  intros Hok Hv Hpe Hnz Hni HQ. pose proof (V_PDI_range v) as Ht. pose proof (V_PTI_range v) as Hp.
  destruct (present_pte _ _ Hpe) as [Hpr Hpt].
  enough (wp (unmap_32bit (V_PDI v) (V_PTI v)) Q k) as (r & k' & E & HQ')%wp_exec.
  - eapply wp_eq; [|exact HQ']. rewrite <- E. unfold unmap_mapped_32bit, unmap_32bit, VM_CHECKBOUNDS. rewrite bool_decide_false by lia.
    unfold mbind, M_bind, mret, M_ret. simpl. rewrite load_pde_eq by done. rewrite Hpr. simpl. by rewrite load_pte_eq, Hpt by done.
  - apply wp_unmap_32bit; try done; [by apply page_ok_32|apply Hv|by apply page_ok_pdi].
Qed.

Lemma unmapped_cleared k k1 k' v j : space_ok k → page_ok v → vpage v (S j) ≤ 0xffc00000 →
  unmapped k k1 v → cleared k1 k' (v + PAGESZ) j → cleared k k' v (S j).
Proof.
  intros Hok Hv Hle Hu Hc. pose proof Hv as [Hvr Hva].
  assert (He : ∀ i, (i < j)%nat → entry k1 (vpage (v + PAGESZ) i) = entry k (vpage (v + PAGESZ) i)).
  { intros i Hi. rewrite vpage_S, (um_entry _ _ _ Hu), vpage_apart; [done|done|unfold vpage, PAGESZ in *; lia|].
    unfold vpage in *. destruct Hva as [q ->]. pg. }
  assert (Hl : ∀ b, lost k1 (v + PAGESZ) j b = lost k (v + PAGESZ) j b) by (intros; by apply lost_ext).
  split.
  - apply Hc.
  - intros v' Hv'. rewrite (cl_entry _ _ _ _ Hc), (um_entry _ _ _ Hu), vpage_S by (done || lia || pg).
    destruct (same_page v v') eqn:E.
    + rewrite (bool_decide_true (v ≤ v' < vpage v (S j))); [by case_match|]. apply same_page_spec in E.
      destruct Hva as [q ->]. unfold vpage. revert E. unfold PAGESZ. Z.div_mod_to_equations; lia.
    + apply bool_decide_eq_false in E. destruct (decide (v ≤ v' < vpage v (S j))).
      * rewrite !bool_decide_true; [done|done|]. revert E. destruct Hva as [q ->]. unfold PAGESZ in *. Z.div_mod_to_equations; lia.
      * rewrite !bool_decide_false; [done|lia|unfold PAGESZ in *; lia].
  - intros b. rewrite (cl_refs _ _ _ _ Hc), (um_refs _ _ _ Hu), Hl. pose proof (lost_nonneg k (v + PAGESZ) j b). simpl.
    case_match eqn:E; [rewrite (kref_page _ _ b Hok E)|]; lia.
  - intros a Ha. rewrite (cl_byte _ _ _ _ Hc), (um_byte _ _ _ Hu); [done|done|]. by rewrite (um_tables _ _ _ Hu).
  - intros a. by rewrite (cl_tables _ _ _ _ Hc), (um_tables _ _ _ Hu).
Qed.

Lemma wp_unmap_mapped_loop n k v j (Q : Z → kmem → Prop) :
  space_ok k → 0 ≤ v → (PAGESZ | v) → vpage v n ≤ 0xffc00000 → (j ≤ n)%nat → mapped_pages k v j →
  (j < n → present (entry k (vpage v j)) = false)%nat →
  (∀ k', cleared k k' v j → Q (if bool_decide (j = n) then 0 else - ENOENT) k') →
  wp (unmap_mapped_loop n v) Q k.
Proof.
  revert k v j. induction n as [|n IH]; intros k v j Hok Hv0 Hva Hle Hj Hm Hno HQ; simpl.
  - assert (j = 0)%nat as -> by lia. apply wp_ret, (HQ k). split; try done; simpl.
    + intros v' _. rewrite bool_decide_false; [done|]. unfold vpage. lia.
    + intros b. pose proof (kref_nonneg k b Hok). lia.
  - assert (Hv : page_ok v) by (split; [unfold vpage, PAGESZ in *; lia|done]).
    apply wp_bind. destruct j as [|j].
    + specialize (Hno ltac:(lia)). rewrite vpage_0 in Hno. apply wp_unmap_mapped_none; [done..|].
      rewrite bool_decide_true by done. apply wp_ret, HQ. split; try done; simpl.
      * by apply space_ok_tlb.
      * intros v' _. rewrite bool_decide_false; [done|]. unfold vpage. lia.
      * intros b. pose proof (kref_nonneg k b Hok). change (kref (with_tlb _ k) b) with (kref k b). lia.
    + destruct (Hm 0%nat ltac:(lia)) as (H1 & H2 & H3). rewrite vpage_0 in *.
      apply wp_unmap_mapped_one; [done..|]. intros k1 Hu. rewrite bool_decide_false by tauto.
      assert (u32 (v + PAGESZ) = v + PAGESZ) as -> by (apply u32_small; unfold vpage, PAGESZ in *; lia).
      assert (He : ∀ i, (i < n)%nat → entry k1 (vpage (v + PAGESZ) i) = entry k (vpage v (S i))).
      { intros i Hi. rewrite vpage_S, (um_entry _ _ _ Hu), vpage_apart; [done|done|unfold vpage, PAGESZ in *; lia|].
        unfold vpage in *. destruct Hva as [q ->]. unfold PAGESZ in *. pg. }
      apply (IH k1 (v + PAGESZ) j); [apply Hu|unfold PAGESZ; lia|by apply Z.divide_add_r; [|exists 1]|by rewrite vpage_S|lia| | |].
      * intros i Hi. cbv zeta. rewrite He by lia. rewrite (um_tables _ _ _ Hu). apply Hm. lia.
      * intros Hjn. rewrite He by lia. apply Hno. lia.
      * intros k' Hc. rewrite <- (bool_decide_ext (S j = S n) (j = n)) by lia. apply HQ. apply (unmapped_cleared k k1); try done.
        unfold vpage, PAGESZ in *. lia.
Qed.

(** [paging_unmap_mapped] on [n] pages unmaps them up to the first page without a
    mapping and no further: with [j] mapped pages in front, it clears the entries of
    these pages, takes one reference from their frames for each, and returns 0 if
    [j] is [n] and -ENOENT otherwise; all other pages, mapped ones behind the first
    hole included, keep their translation and all memory its content. *)
Theorem paging_unmap_mapped_correct k v n j :
  space_ok k → 0 ≤ v → (PAGESZ | v) → vpage v n ≤ 0xffc00000 → (j ≤ n)%nat → mapped_pages k v j →
  (j < n → present (entry k (vpage v j)) = false)%nat →
  ∃ k', paging_unmap_mapped v (Z.of_nat n * PAGESZ) k = Ok (if bool_decide (j = n) then 0 else - ENOENT, k') ∧ cleared k k' v j.
Proof.
  intros Hok Hv Hva Hle Hj Hm Hno. set (r := if bool_decide (j = n) then 0 else - ENOENT).
  enough (wp (paging_unmap_mapped v (Z.of_nat n * PAGESZ)) (λ x k', x = r ∧ cleared k k' v j) k) as (? & k' & Hx & -> & Hc)%wp_exec
    by (by exists k').
  unfold paging_unmap_mapped. rewrite Z.mod_mul, Z.div_mul by done. rewrite bool_decide_true by done.
  rewrite Z.add_0_r, Nat2Z.id. by apply (wp_unmap_mapped_loop n k v j).
Qed.

(** The machine of [cow_setup]: one page is mapped, the next one is not. *)
Lemma paging_unmap_mapped_correct_witness : ∃ s k k', vmm_rep s ∅ ∧
  (on (page_incr_at cow_frame);; paging_map cow_frame cow_page 5) (heap_kmem s) = Ok (0, k) ∧
  paging_unmap_mapped cow_page 0x3000 k = Ok (- ENOENT, k') ∧ cleared k k' cow_page 1 ∧ kref k' cow_frame = 1.
Proof.
  destruct cow_setup as (s & k & Hs & Hx & Hk & He & Hin & Hend & Hr & Hno). exists s, k.
  assert (Hf : PGROUND (entry k cow_page) = cow_frame) by (rewrite He; reflexivity).
  destruct (paging_unmap_mapped_correct k cow_page 3 1) as (k' & H1 & H2).
  - apply Hk.
  - unfold cow_page. lia.
  - apply cow_page_ok.
  - unfold vpage, cow_page, PAGESZ. lia.
  - lia.
  - intros i Hi. assert (i = 0)%nat as -> by lia. rewrite vpage_0. cbv zeta. rewrite Hf. split; [rewrite He; reflexivity|]. split; [discriminate|exact Hin].
  - intros _. rewrite Hno; [reflexivity|unfold vpage, cow_page, PAGESZ; lia|reflexivity].
  - exists k'. split; [exact Hs|]. split; [exact Hx|]. split; [exact H1|]. split; [exact H2|].
    rewrite (cl_refs _ _ _ _ H2), Hr. unfold lost. rewrite Hf, same_page_refl. reflexivity.
Defined.
