(* ===== verification/PageFault.v ===== *)
(** * The page-fault handler ([default_pgf_handler] of [kernel/arch/i386/mmu/pagefault.c])

    A fault in a memory region is served from the region's description ([Mmap]), the
    page tables ([Paging]) and the frames ([Zone]): copy on write, file contents, or a
    fresh page.  Reading from a file goes through the operations of its file system,
    which are a parameter here ([FileOps]). *)
From S2P Require Import Prelude Dll Vmm Mmap Zone Paging.

(** What the handler needs of an inode: its size, reading [size] bytes at [offset] to a
    buffer, and the frame that caches a page. *)
Class FileOps : Type := {
  i_size : Z → Z;
  iread : Z → Z → Z → Z → M kmem Z;
  inode_getpage : Z → Z → M kmem (Z * Z);
}.

(** [vm_fault_t]: the error code, the entry of the page if it is mapped, the address. *)
Record vm_fault : Type := VmFault { vf_flags : Z; vf_COW : option Z; vf_addr : Z }.

Section handler.
Context `{FileOps}.
(** The address of the array [buf] on the kernel stack. *)
Context (buf : Z).

(** Copy on write: [slot] is the entry of the page. *)
Definition cow_fault (r : vmr) (vm : vm_fault) (slot : Z) : M kmem Z :=
  raw ← load32 slot;
  let frame := PGROUND raw in
  frame_refs ← on (page_count_at frame);
  if bool_decide (1 < frame_refs) then
    copy_frame ← on mm_alloc;
    if bool_decide (copy_frame = 0) then mret (- ENOMEM) else
    raw ← load32 slot;
    let flags := Z.lor (Z.land raw PAGEMASK) (v_vflags r) in
    store32 slot 0;;
    paging_invlpg (vf_addr vm);;
    paging_memcpypp copy_frame frame PAGESZ;;
    paging_identity_map copy_frame (PGROUND (vf_addr vm)) PAGESZ flags;;
    send_tlb_shootdown;;
    on (page_put_at frame);;
    mret 0
  else if bool_decide (frame_refs = 1) then
    raw ← load32 slot;
    store32 slot (Z.lor raw VM_W);;
    paging_invlpg (PGROUND (vf_addr vm));;
    send_tlb_shootdown;;
    mret 0
  else panic.

(** A page of a file: a private copy, or the page of the page cache. *)
Definition file_fault (r : vmr) (vm : vm_fault) : M kmem Z :=
  let offset := i32 (PGROUND (vf_addr vm) - v_start r + v_file_pos r) in
  if bool_decide (i_size (v_file r) = 0) then mret (- EFAULT) else
  if negb (has (v_flags r) VM_SHARED) then
    frame ← on mm_alloc;
    if bool_decide (frame = 0) then mret (- ENOMEM) else
    let size := Z.min PAGESZ (Z.min (v_filesz r) (u32 (i_size (v_file r) - offset))) in
    vmemset (Z.to_nat PAGESZ) buf 0;;
    iread (v_file r) offset buf size;;
    paging_memcpyvp frame buf PAGESZ;;
    err ← paging_identity_map frame (PGROUND (vf_addr vm)) PAGESZ (v_vflags r);
    if bool_decide (err ≠ 0) then on (mm_free frame);; mret err
    else send_tlb_shootdown;; mret 0
  else
    '(_, frame) ← inode_getpage (v_file r) (offset / PAGESZ);
    on (page_incr_at frame);;
    err ← paging_identity_map frame (PGROUND (vf_addr vm)) PAGESZ (v_vflags r);
    if bool_decide (err ≠ 0) then mret err
    else send_tlb_shootdown;; mret 0.

(** A write to a page that is not mapped and not of a file. *)
Definition anon_write_fault (r : vmr) (vm : vm_fault) : M kmem Z :=
  err ← paging_mappages (PGROUND (vf_addr vm)) PAGESZ (v_vflags r);
  if bool_decide (err ≠ 0) then mret err else
  (if has (v_flags r) VM_ZERO then vmemset (Z.to_nat PAGESZ) (PGROUND (vf_addr vm)) 0 else mret tt);;
  send_tlb_shootdown;;
  mret 0.
(** A read of one. *)
Definition anon_read_fault (r : vmr) (vm : vm_fault) : M kmem Z :=
  frame ← on mm_alloc;
  if bool_decide (frame = 0) then mret (- ENOMEM) else
  (if has (v_flags r) VM_ZERO then
     vmemset (Z.to_nat PAGESZ) buf 0;; paging_memcpyvp frame buf PAGESZ;; mret tt
   else mret tt);;
  err ← paging_identity_map frame (PGROUND (vf_addr vm)) PAGESZ (v_vflags r);
  if bool_decide (err ≠ 0) then on (mm_free frame);; mret err
  else send_tlb_shootdown;; mret 0.

(** The result is the error and the region, whose [vflags] a write fault extends. *)
Definition default_pgf_handler (r : vmr) (vm : vm_fault) : M kmem (Z * vmr) :=
  if has (vf_flags vm) VM_W then
    if negb (has (v_flags r) VM_WRITE) then mret (- EACCES, r) else
    match vf_COW vm, has (v_flags r) VM_SHARED with
    | Some slot, false => err ← cow_fault r vm slot; mret (err, r)
    | _, _ =>
        if has (vf_flags vm) VM_P then mret (- EACCES, r) else
        let r := {| r with v_vflags := Z.lor (v_vflags r) (Z.lor VM_W VM_P) |} in
        err ← (if bool_decide (v_file r ≠ 0) then file_fault r vm else anon_write_fault r vm);
        mret (err, r)
    end
  else
    if negb (has (v_flags r) VM_READ) && negb (has (v_flags r) VM_EXEC) then mret (- EACCES, r) else
    if has (vf_flags vm) VM_P then mret (- EACCES, r) else
    err ← (if bool_decide (v_file r ≠ 0) then file_fault r vm else anon_read_fault r vm);
    mret (err, r).
End handler.
