(* ===== verification/PageFaultSpec.v ===== *)
(** * Copy on write

    A write to a page shared after [fork] gives the process a frame of its own with
    the same contents; the frame it shared keeps its contents and loses one reference. *)
From S2P Require Import Prelude Dll Vmm VmmRegions VmmSpec Mmap Zone ZoneInv ZoneSpec Paging PagingMem PagingInv PagingSpec PagingCopy PageFault.

#[global] Arguments paging_memcpypp pdst psrc size : simpl never.
#[global] Arguments page_count_at addr : simpl never.

(** The entry of user page [v] becomes [e]. *)
Definition set_entry (v e : Z) (k : kmem) : kmem := poke (table k (V_PDI v) + 4 * V_PTI v) e k.
Section set_entry.
Context (k : kmem) (A : allocs) (v e : Z) (Hk : kheap_ok k A) (Hv : page_ok v) (Hh : ¬ in_heap v)
  (Hpr : present (pde k (V_PDI v)) = true) (He : 0 ≤ e < 2 ^ 32).

Lemma user_pdi : 0 ≤ V_PDI v < 1023.
Proof using Hv. pose proof (V_PDI_range v). pose proof (page_ok_pdi v Hv). lia. Qed.
Lemma set_entry_pde t : 0 ≤ t < 1024 → pde (set_entry v e k) t = pde k t.
Proof using All. intros. apply set_pte_pde; [apply Hk|apply user_pdi|apply V_PTI_range|done..]. Qed.
Lemma set_entry_entry v' : 0 ≤ v' < 0xffc00000 → entry (set_entry v e k) v' = if same_page v v' then e else entry k v'.
Proof using All.
  intros Hv'. unfold set_entry. rewrite (set_pte_entry k); [|apply Hk|apply user_pdi|apply V_PTI_range|done|done|pg].
  destruct (same_page v v') eqn:E.
  - rewrite decide_True; [done|]. apply same_page_indices; [by apply page_ok_32|lia|done].
  - rewrite decide_False; [done|]. intros E'. apply same_page_indices in E'; [congruence|by apply page_ok_32|lia].
Qed.
Lemma set_entry_heap : kheap_ok (set_entry v e k) A.
Proof using All.
  split; [apply set_pte_ok; [apply Hk|apply user_pdi|apply V_PTI_range|done|done]|apply Hk|..].
  - intros w Hw. rewrite set_entry_pde by apply V_PDI_range. by apply (kh_tables _ _ Hk).
  - intros w Hwa Hw. destruct (free_page_ok A w Hwa Hw) as [[Hwr _] Hwh]. rewrite set_entry_entry by done.
    case_match eqn:E; [|by apply (kh_free _ _ Hk)]. destruct Hh. apply (heap_same_page w); [done|]. by rewrite same_page_sym.
Qed.
Lemma set_entry_in a : in_tables (set_entry v e k) a ↔ in_tables k a.
Proof using All. apply set_pte_in; [apply Hk|apply user_pdi|apply V_PTI_range|done..]. Qed.
Lemma set_entry_byte a : ¬ in_tables k a → byte (km_phys (set_entry v e k)) a = byte (km_phys k) a.
Proof using All. apply set_pte_byte; [apply Hk|apply user_pdi|apply V_PTI_range|done..]. Qed.
End set_entry.

(** ** The handler *)

Lemma cow_flags raw vflags : 0 ≤ raw < 2 ^ 32 → present raw = true → 0 ≤ vflags < PAGESZ →
  0 ≤ Z.lor (Z.land raw PAGEMASK) vflags < PAGESZ ∧ Z.testbit (Z.lor (Z.land raw PAGEMASK) vflags) 0 = true.
Proof.
  intros Hr Hp Hv. assert (0 ≤ Z.land raw PAGEMASK < PAGESZ) as Hl.
  { change PAGEMASK with (Z.ones 12). rewrite Z.land_ones by lia. apply Z.mod_pos_bound. lia. }
  split.
  - split; [apply Z.lor_nonneg; lia|]. apply Z.log2_lt_cancel. change (Z.log2 PAGESZ) with 12.
    rewrite Z.log2_lor by lia. destruct (Z.max_spec (Z.log2 (Z.land raw PAGEMASK)) (Z.log2 vflags)) as [[_ ->]|[_ ->]].
    + destruct (decide (vflags = 0)) as [->|]; [done|]. apply Z.log2_lt_pow2; [lia|]. unfold PAGESZ in *. lia.
    + destruct (decide (Z.land raw PAGEMASK = 0)) as [->|]; [done|]. apply Z.log2_lt_pow2; [lia|]. unfold PAGESZ in *. lia.
  - rewrite Z.lor_spec, Z.land_spec. unfold present in Hp. by rewrite Hp.
Qed.

(** [k'] is [k] after the write to page [v]: it has frame [c] for itself. *)
Record private_copy (k k' : kmem) (A : allocs) (v f c flags : Z) : Prop := PrivateCopy {
  pc_heap : kheap_ok k' A;
  pc_entry : entry k' v = Z.lor c flags;
  pc_maps : maps_to k' v c;
  pc_other : ∀ v', 0 ≤ v' < 0xffc00000 → same_page v v' = false → translation k' v' = translation k v';
  pc_free : kref k c = 0;
  pc_refs : ∀ b, kref k' b = if same_page c b then 1 else if same_page f b then kref k f - 1 else kref k b;
  pc_copy : ∀ i, 0 ≤ i < PAGESZ → byte (km_phys k') (c + i) = byte (km_phys k) (f + i);
  pc_byte : ∀ a, ¬ in_tables k a → PGROUND a ≠ c → byte (km_phys k') a = byte (km_phys k) a;
}.

Lemma wp_identity_one k v c flags (Q : Z → kmem → Prop) :
  space_ok k → page_ok v → 0 ≤ c < 2 ^ 32 → (PAGESZ | c) → 0 ≤ flags < PAGESZ → Z.testbit flags 0 = true →
  present (entry k v) = false →
  (present (pde k (V_PDI v)) = false → mem_full k → Q (- ENOMEM) k) →
  (∀ k', mapped k k' v (Z.lor c flags) → Q 0 k') → wp (paging_identity_map c v PAGESZ flags) Q k.
Proof.
  intros Hok Hv Hc Hca Hfl Hfp Hno HN HQ. unfold paging_identity_map, assert_aligned.
  rewrite !aligned_true by (done || apply Hv || by exists 1). apply wp_bind, wp_ret, wp_bind, wp_ret, wp_bind, wp_ret.
  replace (GET_BOUNDARY_SIZE v PAGESZ / PAGESZ) with 1.
  2:{ destruct Hv as [Hv Hva]. rewrite <- (Z.mul_1_l PAGESZ) at 1. symmetry. apply boundary_pages; [done|lia|].
      destruct Hva as [q ->]. unfold PAGESZ in *. lia. }
  change (Z.to_nat 1) with 1%nat. simpl identity_loop. apply wp_bind. apply wp_paging_map; try done.
Qed.

(** [k'] is [k] with frame [c] taken and the entry of [v] cleared. *)
Record detached (k k' : kmem) (A : allocs) (v c : Z) : Prop := Detached {
  de_heap : kheap_ok k' A;
  de_has : present (pde k' (V_PDI v)) = true;
  de_entry : ∀ v', 0 ≤ v' < 0xffc00000 → entry k' v' = if same_page v v' then 0 else entry k v';
  de_free : kref k c = 0;
  de_range : 0x1000000 ≤ c < norm_end (km_pmem k);
  de_aligned : (PAGESZ | c);
  de_refs : ∀ b, kref k' b = if same_page c b then 1 else kref k b;
  de_tables : ∀ a, in_tables k' a ↔ in_tables k a;
  de_byte : ∀ a, ¬ in_tables k a → byte (km_phys k') a = byte (km_phys k) a;
}.

Lemma took_detached k k1 A v c l : kheap_ok k A → page_ok v → ¬ in_heap v → present (pde k (V_PDI v)) = true →
  took k k1 c → detached k (with_tlb l (set_entry v 0 k1)) A v c.
Proof.
  intros Hk Hv Hh Hpr Ht. pose proof (heap_took _ _ _ _ Hk Ht) as Hk1.
  assert (Hpr1 : present (pde k1 (V_PDI v)) = true) by (by rewrite (to_same _ _ _ Ht)).
  split; try apply Ht.
  - apply heap_tlb. by apply set_entry_heap.
  - change (present (pde (set_entry v 0 k1) (V_PDI v)) = true). erewrite set_entry_pde; [done..|apply V_PDI_range].
  - intros v' Hv'. change (entry (set_entry v 0 k1) v' = if same_page v v' then 0 else entry k v').
    erewrite set_entry_entry; [|done..]. by rewrite (took_entry _ _ _ v' Ht).
  - intros a. change (in_tables (set_entry v 0 k1) a ↔ in_tables k a). erewrite set_entry_in; [|done..]. by rewrite (to_same _ _ _ Ht).
  - intros a Ha. change (byte (km_phys (set_entry v 0 k1)) a = byte (km_phys k) a).
    erewrite set_entry_byte; [by rewrite (to_same _ _ _ Ht)|done..|]. by rewrite (to_same _ _ _ Ht).
Qed.

Lemma page_tables k a b : PGROUND a = PGROUND b → in_tables k a ↔ in_tables k b.
Proof. intros E. unfold in_tables. by rewrite E. Qed.
Lemma PGROUND_in c a : (PAGESZ | c) → c ≤ a < c + PAGESZ → PGROUND a = PGROUND c.
Proof. intros [q ->] Ha. unfold PAGESZ in *. pg. Qed.

(** The copy is mapped and the shared frame is given back. *)
Lemma wp_cow_map k k3 A v f c flags (Q : Z → kmem → Prop) :
  kheap_ok k A → page_ok v → ¬ in_heap v → (PAGESZ | f) → PAGESZ ≤ f < norm_end (km_pmem k) → 1 < kref k f → f ≠ c →
  0 ≤ flags < PAGESZ → Z.testbit flags 0 = true → 0 ≤ c < 2 ^ 32 → (PAGESZ | c) → kref k c = 0 →
  kheap_ok k3 A → present (pde k3 (V_PDI v)) = true → present (entry k3 v) = false →
  (∀ v', 0 ≤ v' < 0xffc00000 → same_page v v' = false → translation k3 v' = translation k v') →
  (∀ b, kref k3 b = if same_page c b then 1 else kref k b) → (∀ a, in_tables k3 a ↔ in_tables k a) →
  (∀ a, ¬ in_tables k a → byte (km_phys k3) a = if bool_decide (c ≤ a < c + PAGESZ) then byte (km_phys k) (f + (a - c)) else byte (km_phys k) a) →
  (∀ k', private_copy k k' A v f c flags → Q 0 k') →
  wp (paging_identity_map c v PAGESZ flags;; send_tlb_shootdown;; on (page_put_at f);; mret 0) Q k3.
Proof.
  intros Hk Hv Hh Hfa Hfr Hrf Hne Hfl Hfp Hc Hca Hc0 Hk3 Hpr Hno Htr Hrefs Htab Hby HQ.
  apply wp_bind. apply wp_identity_one; try done; [apply Hk3|congruence|]. intros k4 Hm.
  destruct (ma_quiet _ _ _ _ Hm Hpr) as [Hby4 Htab4]. pose proof (ma_pmem _ _ _ _ Hm Hpr) as Hpm4.
  pose proof (heap_mapped _ _ _ _ _ Hk3 Hm Hh) as Hk4.
  assert (Hf32 : 0 < f < 2 ^ 32).
  { pose proof (norm_end_le _ (so_pmem _ (kh_space _ _ Hk))). assert (MMAP_DEVADDR < 2 ^ 32) by done. unfold PAGESZ in *. lia. }
  assert (Hsame : ∀ b, same_page c b = true → same_page f b = false).
  { intros b H1. destruct (same_page f b) eqn:H2; [|done]. destruct Hne. apply same_page_aligned; [done..|].
    apply same_page_spec in H1, H2. apply same_page_spec. congruence. }
  apply wp_bind, wp_modify. change (wp (on (mm_free f);; mret 0) Q (with_tlb (Shootdown :: km_tlb k4) k4)).
  apply wp_bind, wp_on, wp_mm_free_any; [apply Hk4|done..|]. intros s' Hs' Hrs _.
  change (part (with_tlb (Shootdown :: km_tlb k4) k4)) with (km_pmem k4) in Hrs. rewrite Hpm4 in Hrs.
  assert (Hr' : ∀ b, refs s' b = if same_page c b then 1 else if same_page f b then kref k f - 1 else kref k b).
  { intros b. rewrite Hrs. fold (kref k3 f) (kref k3 b). rewrite !Hrefs.
    destruct (same_page c f) eqn:Ecf; [apply Hsame in Ecf; by rewrite same_page_refl in Ecf|].
    destruct (same_page c b) eqn:E; [by rewrite Hsame|]. case_match; [lia|done]. }
  apply wp_ret, HQ. change (private_copy k (with_pmem s' (with_tlb (Shootdown :: km_tlb k4) k4)) A v f c flags).
  split; try done.
  - apply heap_pmem; [by apply heap_tlb|done|]. intros a Ha Hin.
    assert (kref k a ≠ 0) as Hka by (apply in_tables_kref; [apply Hk|done|by apply Htab, Htab4]).
    rewrite Hr'. case_match; [done|]. case_match eqn:E; [|done]. lia.
  - change (entry k4 v = Z.lor c flags). rewrite (ma_entry _ _ _ _ Hm), same_page_refl; [done|by apply page_ok_32|by apply page_ok_pdi].
  - exact (mapped_maps_to k3 k4 v c flags Hv Hc Hca Hfl Hfp Hm).
  - intros v' Hv' Hs. change (translation k4 v' = translation k v'). rewrite (mapped_translation _ _ _ _ _ Hm) by done. by apply Htr.
  - intros i Hi. change (byte (km_phys k4) (c + i) = byte (km_phys k) (f + i)).
    assert (¬ in_tables k (c + i)) as Hni.
    { rewrite (page_tables k (c + i) c) by (apply PGROUND_in; [done|lia]). intros Hin%in_tables_kref; [done|apply Hk|done]. }
    rewrite Hby4 by (by rewrite Htab). rewrite Hby, bool_decide_true by (done || lia). f_equal. lia.
  - intros a Hni Hpa. change (byte (km_phys k4) a = byte (km_phys k) a).
    rewrite Hby4 by (by rewrite Htab). rewrite Hby, bool_decide_false; [done| |done].
    intros Ha. apply Hpa. rewrite (PGROUND_in c a) by done. by apply PGROUND_id.
Qed.

Lemma wp_cow_finish k k2 A v f c flags (Q : Z → kmem → Prop) :
  kheap_ok k A → two_rooms A → page_ok v → ¬ in_heap v → detached k k2 A v c →
  (PAGESZ | f) → ¬ in_tables k f → PAGESZ ≤ f < norm_end (km_pmem k) → 1 < kref k f →
  0 ≤ flags < PAGESZ → Z.testbit flags 0 = true →
  (∀ k', private_copy k k' A v f c flags → Q 0 k') →
  wp (paging_memcpypp c f PAGESZ;; paging_identity_map c v PAGESZ flags;; send_tlb_shootdown;; on (page_put_at f);; mret 0) Q k2.
Proof.
  intros Hk Hr2 Hv Hh Hd Hfa Hfn Hfr Hrf Hfl Hfp HQ.
  destruct Hd as [Hk2 Hpr He Hc0 Hcr Hca Hrefs Htab Hby].
  pose proof (norm_end_le _ (so_pmem _ (kh_space _ _ Hk))) as Hle.
  assert (MMAP_DEVADDR + PAGESZ < 2 ^ 32) as Hdev by done.
  assert (Hne : f ≠ c) by (intros ->; lia).
  assert (Hcn : ¬ in_tables k c) by (intros Hin%in_tables_kref; [done|apply Hk|done]).
  assert (Hap : c + PAGESZ ≤ f ∨ f + PAGESZ ≤ c).
  { destruct Hfa as [x ->], Hca as [y ->]. unfold PAGESZ in *. lia. }
  apply wp_bind. apply (wp_memcpypp_loop _ k2 A); try done; try (unfold PAGESZ in *; lia).
  { intros a Ha. rewrite Htab, (page_tables k a c); [done|by apply PGROUND_in]. }
  { intros a Ha. rewrite Htab, (page_tables k a f); [done|by apply PGROUND_in]. }
  intros k3 Hcd. assert (Hpd : pde k3 (V_PDI v) = pde k2 (V_PDI v)) by (apply (cd_pde _ _ _ _ _ _ Hcd); [apply V_PDI_range|done]).
  apply (wp_cow_map k k3 A v f c flags); try done.
  - unfold PAGESZ in *. lia.
  - apply Hcd.
  - by rewrite Hpd.
  - rewrite (cd_entry _ _ _ _ _ _ Hcd), He, same_page_refl; [done|apply Hv..|done].
  - intros v' Hv' Hs. rewrite (cd_trans _ _ _ _ _ _ Hcd) by done. unfold translation. by rewrite !walk_entry, He, Hs.
  - intros b. rewrite <- Hrefs. unfold kref. by rewrite (cd_pmem _ _ _ _ _ _ Hcd).
  - intros a. by rewrite (cd_tables _ _ _ _ _ _ Hcd), Htab.
  - intros a Ha. rewrite (cd_byte _ _ _ _ _ _ Hcd), (Hby a) by (by rewrite ?Htab). case_bool_decide as Hin; [|done].
    apply Hby. rewrite (page_tables k _ f); [done|]. apply PGROUND_in; [done|lia].
Qed.

(** A write to a page whose frame no one else uses: the entry becomes writable. *)
Record made_writable (k k' : kmem) (A : allocs) (v : Z) : Prop := MadeWritable {
  mw_heap : kheap_ok k' A;
  mw_entry : ∀ v', 0 ≤ v' < 0xffc00000 → entry k' v' = if same_page v v' then Z.lor (entry k v) VM_W else entry k v';
  mw_pmem : km_pmem k' = km_pmem k;
  mw_byte : ∀ a, ¬ in_tables k a → byte (km_phys k') a = byte (km_phys k) a;
}.

Section cow.
Context (k : kmem) (A : allocs) (r : vmr) (vm : vm_fault) (v : Z).
Context (Hk : kheap_ok k A) (Hv : page_ok v) (Hu : v < 0xC0000000) (Hvm : PGROUND (vf_addr vm) = v)
  (Hpe : present (entry k v) = true).
Let f := PGROUND (entry k v).
Let flags := Z.lor (Z.land (entry k v) PAGEMASK) (v_vflags r).
Context (Hfr : PAGESZ ≤ f < norm_end (km_pmem k)) (Hrf : 1 ≤ kref k f < 2 ^ 31).

Lemma cow_entry : present (pde k (V_PDI v)) = true ∧ entry k v = pte k (V_PDI v) (V_PTI v) ∧ 0 ≤ entry k v < 2 ^ 32.
Proof using Hpe.
  destruct (present_pte _ _ Hpe) as [Hpr _].
  assert (entry k v = pte k (V_PDI v) (V_PTI v)) as E by (unfold entry; by rewrite Hpr). rewrite E. split; [done|]. split; [done|apply word_range].
Qed.
Lemma wp_cow_start {B} (K : Z → Z → M kmem B) (Q : B → kmem → Prop) :
  wp (K (entry k v) (kref k f)) Q k →
  wp (raw ← load32 (PTE (V_PDI v) (V_PTI v)); n ← on (page_count_at (PGROUND raw)); K raw n) Q k.
Proof using All.
  intros HK. destruct cow_entry as (Hpr & Hen & _). pose proof (kh_space _ _ Hk) as Hok.
  apply wp_bind, wp_load_pte; [apply Hok|apply V_PDI_range|apply V_PTI_range|done|]. rewrite <- Hen. fold f.
  destruct (frame_exists (km_pmem k) f (so_pmem _ Hok) ltac:(unfold PAGESZ in *; lia)) as (z & w & i & g & Hfi).
  apply wp_bind, wp_on. eapply wp_page_count_at; [apply Hok|exact Hfi|apply PGROUND_aligned|unfold PAGESZ in *; lia|].
  rewrite set_part_part. change (refs (part k) f) with (kref k f). by rewrite i32_small by lia.
Qed.

Lemma wp_cow_copy (Q : Z → kmem → Prop) :
  two_rooms A → 0 ≤ v_vflags r < PAGESZ → ¬ in_tables k f → 1 < kref k f →
  (mem_full k → Q (- ENOMEM) k) → (∀ k' c, private_copy k k' A v f c flags → Q 0 k') →
  wp (cow_fault r vm (PTE (V_PDI v) (V_PTI v))) Q k.
Proof using All.
  intros Hr2 Hvf Hni H1 HN HQ. destruct cow_entry as (Hpr & Hen & Hraw). pose proof (user_not_heap v ltac:(destruct Hv; lia)) as Hh.
  destruct (cow_flags (entry k v) (v_vflags r) Hraw Hpe Hvf) as [Hfl Hfp]. fold flags in Hfl, Hfp.
  unfold cow_fault. apply wp_cow_start. fold f. rewrite bool_decide_true by lia.
  apply wp_bind, wp_take; [apply Hk|intros Hfull; rewrite bool_decide_true by done; by apply wp_ret, HN|].
  intros c k1 Htk. destruct (took_32 _ _ _ (kh_space _ _ Hk) Htk) as [Hc32 Hcnz]. rewrite bool_decide_false by done.
  assert (Hs1 : self_mapped (km_phys k1) (km_cr3 k1)) by (apply (to_ok _ _ _ Htk)).
  assert (Hpr1 : present (pde k1 (V_PDI v)) = true) by (by rewrite (to_same _ _ _ Htk)).
  apply wp_bind, wp_load_pte; [done|apply V_PDI_range|apply V_PTI_range|done|].
  assert (pte k1 (V_PDI v) (V_PTI v) = entry k v) as -> by (rewrite Hen; by rewrite (to_same _ _ _ Htk)). fold flags.
  apply wp_bind, wp_store_pte; [done|apply V_PDI_range|apply V_PTI_range|done|].
  apply wp_bind, wp_modify. fold (set_entry v 0 k1). rewrite Hvm.
  apply (wp_cow_finish k (with_tlb (Invlpg (vf_addr vm) :: km_tlb (set_entry v 0 k1)) (set_entry v 0 k1)) A); try done.
  - by apply took_detached.
  - apply PGROUND_aligned.
  - intros k' Hp. by apply (HQ k' c).
Qed.

Lemma wp_cow_alone (Q : Z → kmem → Prop) :
  kref k f = 1 → (∀ k', made_writable k k' A v → Q 0 k') → wp (cow_fault r vm (PTE (V_PDI v) (V_PTI v))) Q k.
Proof using All.
  intros H1 HQ. destruct cow_entry as (Hpr & Hen & Hraw). pose proof (user_not_heap v ltac:(destruct Hv; lia)) as Hh.
  assert (He : 0 ≤ Z.lor (entry k v) VM_W < 2 ^ 32).
  { split; [apply Z.lor_nonneg; split; [lia|done]|]. apply Z.log2_lt_cancel. change (Z.log2 (2 ^ 32)) with 32. rewrite Z.log2_lor by (done || lia).
    apply Z.max_lub_lt; [|done]. destruct (decide (entry k v = 0)) as [->|]; [done|]. apply Z.log2_lt_pow2; lia. }
  unfold cow_fault. apply wp_cow_start. fold f. rewrite bool_decide_false, bool_decide_true by lia.
  apply wp_bind, wp_load_pte; [apply Hk|apply V_PDI_range|apply V_PTI_range|done|]. rewrite <- Hen.
  apply wp_bind, wp_store_pte; [apply Hk|apply V_PDI_range|apply V_PTI_range|done|].
  apply wp_bind, wp_modify, wp_bind, wp_modify, wp_ret, HQ. fold (set_entry v (Z.lor (entry k v) VM_W) k). split.
  - by apply (heap_tlb (with_tlb _ _)), heap_tlb, set_entry_heap.
  - intros v' Hv'. by apply (set_entry_entry k A v _ Hk Hv Hh Hpr He).
  - done.
  - intros a Ha. by apply (set_entry_byte k A v _ Hk Hv Hh Hpr He).
Qed.
End cow.

(** C1: a write to a present page of a private writable region whose entry is read-only
    ([COW]).  If other address spaces use the frame too, the process gets a copy: on
    success the page maps a frame that was free, holds the bytes of the shared frame
    and carries the entry's old flags and the region's; the shared frame keeps its
    contents and loses one reference, all other pages and frames stay as they are;
    without a free frame the fault returns -ENOMEM and changes nothing.  If the frame
    has no other user, its entry becomes writable and nothing else changes.  The page is
    a user page, the frame one of normal memory that holds no page table, and the kernel
    heap has two free pages to mount both frames in ([two_rooms]): without them
    [paging_memcpypp] fails, which the handler does not look at, and the process goes on
    with a frame that holds no copy. *)
Theorem copy_on_write_correct `{FileOps} k A buf r vm v :
  let f := PGROUND (entry k v) in
  let flags := Z.lor (Z.land (entry k v) PAGEMASK) (v_vflags r) in
  kheap_ok k A → two_rooms A → page_ok v → v < 0xC0000000 → PGROUND (vf_addr vm) = v →
  has (vf_flags vm) VM_W = true → vf_COW vm = Some (PTE (V_PDI v) (V_PTI v)) →
  has (v_flags r) VM_WRITE = true → has (v_flags r) VM_SHARED = false → 0 ≤ v_vflags r < PAGESZ →
  present (entry k v) = true → ¬ in_tables k f → PAGESZ ≤ f < norm_end (km_pmem k) → 1 ≤ kref k f < 2 ^ 31 →
  ∃ err k', default_pgf_handler buf r vm k = Ok ((err, r), k') ∧
    if bool_decide (kref k f = 1) then err = 0 ∧ made_writable k k' A v
    else (err = - ENOMEM ∧ mem_full k ∧ k' = k) ∨ (err = 0 ∧ ∃ c, private_copy k k' A v f c flags).
Proof.
  intros f flags Hk Hr2 Hv Hu Hvm Hw Hcow Hrw Hsh Hvf Hpe Hni Hfr Hrf.
  set (P k' (e : Z) := if bool_decide (kref k f = 1) then e = 0 ∧ made_writable k k' A v
    else (e = - ENOMEM ∧ mem_full k ∧ k' = k) ∨ (e = 0 ∧ ∃ c, private_copy k k' A v f c flags)).
  enough (wp (default_pgf_handler buf r vm) (λ x k', x.2 = r ∧ P k' x.1) k) as ([e r'] & k' & Hx & Hr' & HP)%wp_exec.
  { simpl in *. subst r'. by exists e, k'. }
  unfold default_pgf_handler. rewrite Hw, Hrw, Hcow, Hsh. apply wp_bind. unfold P. case_bool_decide as H1.
  - by apply (wp_cow_alone k A).
  - apply (wp_cow_copy k A); try done; [fold f; lia|..].
    + intros Hf. apply wp_ret. split; [done|]. by left.
    + intros k' c Hc. apply wp_ret. split; [done|]. right. split; [done|]. by exists c.
Qed.

(** A file system without files. *)
Definition no_files : FileOps := {| i_size _ := 0; iread _ _ _ _ := mret 0; inode_getpage _ _ := mret (0, 0) |}.
Definition cow_region : vmr := {| vmr_zero with v_start := cow_page; v_flags := Z.lor VM_READ VM_WRITE; v_vflags := 7 |}.
Definition cow_write : vm_fault := VmFault (Z.lor VM_P VM_W) (Some (PTE (V_PDI cow_page) (V_PTI cow_page))) (cow_page + 0x123).


Lemma copy_on_write_correct_witness : ∃ s k err k', vmm_rep s ∅ ∧
  (on (page_incr_at cow_frame);; paging_map cow_frame cow_page 5) (heap_kmem s) = Ok (0, k) ∧
  @default_pgf_handler no_files 0 cow_region cow_write k = Ok ((err, cow_region), k') ∧
  ((err = - ENOMEM ∧ mem_full k ∧ k' = k) ∨ (err = 0 ∧ ∃ c, private_copy k k' ∅ cow_page cow_frame c 7)).
Proof.
  destruct cow_setup as (s & k & Hs & Hx & Hk & He & Hin & Hend & Hr & _). exists s, k.
  assert (Hne : norm_end (km_pmem k) = 0x1800000) by (rewrite Hend; reflexivity).
  assert (Hf : PGROUND (entry k cow_page) = cow_frame) by (rewrite He; reflexivity).
  assert (Hfl : Z.lor (Z.land (entry k cow_page) PAGEMASK) (v_vflags cow_region) = 7) by (rewrite He; reflexivity).
  pose proof (@copy_on_write_correct no_files k ∅ 0 cow_region cow_write cow_page) as H. cbv zeta in H. rewrite Hf, Hfl, Hr in H.
  destruct H as (err & k' & H1 & H2); [done|apply two_rooms_empty|apply cow_page_ok|reflexivity|reflexivity|reflexivity|reflexivity|reflexivity|reflexivity| | |exact Hin| |lia|].
  - unfold PAGESZ. change (v_vflags cow_region) with 7. lia.
  - rewrite He. reflexivity.
  - rewrite Hne. unfold PAGESZ, cow_frame. lia.
  - exists err, k'. rewrite bool_decide_false in H2 by done. exact (conj Hs (conj Hx (conj H1 H2))).
Defined.
