(* ===== verification/Strings.v ===== *)
(** * Memory and string routines ([kernel/lib/string.c], [kernel/lib/ctype.c])

    Memory is a heap of blocks of bytes; a pointer is a block and an offset in it.
    A load or store outside a block is a fault, so a theorem that a routine returns
    also says that it stays within its buffers. *)
From S2P Require Import Prelude.

(** ** Blocks of bytes *)

Record bytes : Type := Bytes { blocks : gmap loc (list Z) }.
#[global] Program Instance bytes_heap : Heap bytes (list Z) := {| heap_of := blocks; put_heap h _ := Bytes h |}.
Next Obligation. done. Qed.
Next Obligation. by intros []. Qed.

Abbreviation cptr := (loc * Z)%type.
Definition padd (p : cptr) (i : Z) : cptr := (p.1, p.2 + i).

Definition lb (p : cptr) : M bytes Z := λ s,
  match blocks s !! p.1 ≫= λ l, guard (0 ≤ p.2);; l !! Z.to_nat p.2 with Some b => Ok (b, s) | None => Fault end.
Definition sb (p : cptr) (c : Z) : M bytes unit :=
  lb p;; modify (λ s, Bytes (alter (λ l, <[Z.to_nat p.2 := c mod 256]> l) p.1 (blocks s))).
(** The size of the block: a loop over its bytes ends or faults within as many turns. *)
Definition room (p : cptr) : M bytes nat := gets (λ s, match blocks s !! p.1 with Some l => S (length l) | None => 1%nat end).

(** The [char] of a byte. *)
Definition schar (b : Z) : Z := if bool_decide (b < 128) then b else b - 256.

(** ** Memory *)

Fixpoint memset_loop (n : nat) (d : cptr) (c : Z) : M bytes unit :=
  match n with O => mret tt | S n' => sb d c;; memset_loop n' (padd d 1) c end.
Definition memset (dst : cptr) (c n : Z) : M bytes cptr := memset_loop (Z.to_nat n) dst c;; mret dst.

Fixpoint memcmp_loop (n : nat) (s1 s2 : cptr) : M bytes Z :=
  match n with
  | O => mret 0
  | S n' =>
      b1 ← lb s1;
      b2 ← lb s2;
      if bool_decide (b1 ≠ b2) then mret (b1 - b2) else memcmp_loop n' (padd s1 1) (padd s2 1)
  end.
Definition memcmp (v1 v2 : cptr) (n : Z) : M bytes Z := memcmp_loop (Z.to_nat n) v1 v2.

(** [for (i = 0; i < size; i++) dst[i] = src[i]], [n] turns left *)
Fixpoint copy_up (n : nat) (dst src : cptr) : M bytes unit :=
  match n with O => mret tt | S n' => b ← lb src; sb dst b;; copy_up n' (padd dst 1) (padd src 1) end.
Definition memcpy (dst src : cptr) (size : Z) : M bytes cptr :=
  copy_up (Z.to_nat size) dst src;; mret (padd dst size).
(** [while (n-- > 0) *--d = *--s] *)
Fixpoint copy_down (n : nat) (d s : cptr) : M bytes unit :=
  match n with
  | O => mret tt
  | S n' => b ← lb (padd s (-1)); sb (padd d (-1)) b;; copy_down n' (padd d (-1)) (padd s (-1))
  end.
(** Pointers of different blocks do not overlap. *)
Definition overlaps (s d : cptr) (n : Z) : bool := bool_decide (s.1 = d.1 ∧ s.2 < d.2 ∧ d.2 < s.2 + n).
Definition memmove (dst src : cptr) (n : Z) : M bytes cptr :=
  (if overlaps src dst n then copy_down (Z.to_nat n) (padd dst n) (padd src n)
   else copy_up (Z.to_nat n) dst src);;
  mret dst.

(** ** Strings *)

Fixpoint strlen_loop (fuel : nat) (s : cptr) (n : Z) : M bytes Z :=
  match fuel with
  | O => nofuel
  | S fuel' => b ← lb (padd s n); if bool_decide (b = 0) then mret n else strlen_loop fuel' s (n + 1)
  end.
Definition strlen (s : cptr) : M bytes Z := fuel ← room s; strlen_loop fuel s 0.

(** [while (( *d++ = *s++))] *)
Fixpoint strcpy_loop (fuel : nat) (d s : cptr) : M bytes unit :=
  match fuel with
  | O => nofuel
  | S fuel' => b ← lb s; sb d b;; if bool_decide (b = 0) then mret tt else strcpy_loop fuel' (padd d 1) (padd s 1)
  end.
Definition strcat (s t : cptr) : M bytes unit :=
  i ← strlen s; fuel ← room t; strcpy_loop fuel (padd s i) t.
Definition strcpy (dst src : option cptr) : M bytes unit :=
  match src, dst with
  | Some src, Some dst => fuel ← room src; strcpy_loop fuel dst src
  | _, _ => mret tt
  end.

Fixpoint strcmp_loop (fuel : nat) (p q : cptr) : M bytes Z :=
  match fuel with
  | O => nofuel
  | S fuel' =>
      b ← lb p;
      if bool_decide (b = 0) then c ← lb q; mret (b - c) else
      c ← lb q;
      if bool_decide (b = c) then strcmp_loop fuel' (padd p 1) (padd q 1) else mret (b - c)
  end.
Definition strcmp (p q : cptr) : M bytes Z := fuel ← room p; strcmp_loop fuel p q.
Fixpoint strncmp_loop (n : nat) (p q : cptr) : M bytes Z :=
  match n with
  | O => mret 0
  | S n' =>
      b ← lb p;
      if bool_decide (b = 0) then c ← lb q; mret (b - c) else
      c ← lb q;
      if bool_decide (b = c) then strncmp_loop n' (padd p 1) (padd q 1) else mret (b - c)
  end.
Definition strncmp (p q : cptr) (n : Z) : M bytes Z := strncmp_loop (Z.to_nat n) p q.
Definition compare_strings (s0 s1 : cptr) : M bytes Z :=
  n0 ← strlen s0; n1 ← strlen s1; if bool_decide (n0 ≠ n1) then mret (-1) else strcmp s0 s1.

(** [while (n-- > 0 && ( *s++ = *t++) != 0)]: what is left of [n], and [s]. *)
Fixpoint strncpy_loop (n : nat) (s t : cptr) : M bytes (nat * cptr) :=
  match n with
  | O => mret (O, s)
  | S n' => b ← lb t; sb s b;; if bool_decide (b = 0) then mret (n', padd s 1) else strncpy_loop n' (padd s 1) (padd t 1)
  end.
Definition strncpy (s t : cptr) (n : Z) : M bytes cptr :=
  '(n, s') ← strncpy_loop (Z.to_nat n) s t; memset_loop n s' 0;; mret s.
Definition safestrcpy (s t : cptr) (n : Z) : M bytes cptr :=
  if bool_decide (n ≤ 0) then mret s else
  '(_, s') ← strncpy_loop (Z.to_nat (n - 1)) s t;
  sb s' 0;;
  mret s.

(** ** Allocated strings *)

(** What the routines rely on of [kmalloc] and [krealloc]: a block that was not
    allocated, with [n] bytes of any content, or NULL; an array of [n] pointers or NULL. *)
Class ByteAlloc : Type := {
  kmalloc_bytes : gmap loc (list Z) → Z → option (loc * list Z);
  kmalloc_bytes_fresh : ∀ h n p l, kmalloc_bytes h n = Some (p, l) → h !! p = None ∧ Z.of_nat (length l) = Z.max 0 n;
  krealloc_array : gmap loc (list Z) → Z → bool;
}.

Section alloc.
Context `{!ByteAlloc}.

Definition kmalloc_block (n : Z) : M bytes (option cptr) := λ s,
  match kmalloc_bytes (blocks s) n with
  | Some (p, l) => Ok (Some (p, 0), Bytes (<[p := l]> (blocks s)))
  | None => Ok (None, s)
  end.
(** [kfree] of the start of a block. *)
Definition kfree_block (p : cptr) : M bytes unit := if bool_decide (p.2 = 0) then kfree (Some p.1) else fault.
Definition or_fault {A} (p : option A) : M bytes A := match p with Some a => mret a | None => fault end.

Definition strdup (s : cptr) : M bytes (option cptr) :=
  n ← strlen s;
  let len := n + 1 in
  str ← kmalloc_block len;
  match str with
  | None => mret None
  | Some p => strcpy (Some p) (Some s);; sb (padd p (len - 1)) 0;; mret (Some p)
  end.
Definition combine_strings (s0 s1 : option cptr) : M bytes (option cptr) :=
  match s0, s1 with
  | Some s0, Some s1 =>
      n0 ← strlen s0;
      n1 ← strlen s1;
      let string_len := n0 + n1 + 1 in
      string ← kmalloc_block string_len;
      match string with
      | None => mret None
      | Some p => memset p 0 string_len;; strcat p s0;; strcat p s1;; mret (Some p)
      end
  | _, _ => mret None
  end.

(** ** Splitting a string at a separator *)

(** [while ( *s && ( *s++ != c)) len++] *)
Fixpoint token_len (fuel : nat) (s : cptr) (c len : Z) : M bytes Z :=
  match fuel with
  | O => nofuel
  | S fuel' =>
      b ← lb s;
      if bool_decide (b = 0 ∨ schar b = c) then mret len else token_len fuel' (padd s 1) c (len + 1)
  end.
Definition grabtok (s : cptr) (c : Z) : M bytes (cptr * Z) :=
  fuel ← room s;
  len ← token_len fuel s c 0;
  tok ← kmalloc_block (len + 1);
  tok ← or_fault tok;
  memset tok 0 (len + 1);;
  safestrcpy tok s (len + 1);;
  mret (tok, len).

(** [while ( *tmp2 && ( *tmp2 == c)) *tmp2-- = '\0'] *)
Fixpoint trim_loop (fuel : nat) (tmp2 : cptr) (c : Z) : M bytes unit :=
  match fuel with
  | O => nofuel
  | S fuel' =>
      b ← lb tmp2;
      if bool_decide (b ≠ 0 ∧ schar b = c) then sb tmp2 0;; trim_loop fuel' (padd tmp2 (-1)) c else mret tt
  end.
(** [while ( *buf && ( *buf == c)) buf++] *)
Fixpoint skip_loop (fuel : nat) (buf : cptr) (c : Z) : M bytes cptr :=
  match fuel with
  | O => nofuel
  | S fuel' => b ← lb buf; if bool_decide (b ≠ 0 ∧ schar b = c) then skip_loop fuel' (padd buf 1) c else mret buf
  end.
(** [tokens = krealloc(tokens, sizeof(char * ) * n)], which must not fail as the code
    writes to the array at once. *)
Definition grow (n : Z) : M bytes unit := ok ← gets (λ s, krealloc_array (blocks s) n); if (ok : bool) then mret tt else fault.
(** The array of tokens is the list of its entries; the NULL entry is its end. *)
Fixpoint tokenize_loop (fuel : nat) (buf : cptr) (c : Z) (tokens : list cptr) : M bytes (list cptr) :=
  match fuel with
  | O => nofuel
  | S fuel' =>
      b ← lb buf;
      if bool_decide (b = 0) then mret tokens else
      grow (Z.of_nat (length tokens) + 1);;
      n ← room buf;
      buf ← skip_loop n buf c;
      '(tok, len) ← grabtok buf c;
      tokenize_loop fuel' (padd buf len) c (tokens ++ [tok])
  end.
Definition tokenize (s : option cptr) (c : Z) : M bytes (option (list cptr)) :=
  match s with
  | None => mret None
  | Some s =>
      if bool_decide (c = 0) then mret None else
      len ← strlen s;
      buf ← kmalloc_block (len + 1);
      buf ← or_fault buf;
      memset buf 0 (len + 1);;
      safestrcpy buf s (len + 1);;
      n ← strlen buf;
      fuel ← room buf;
      trim_loop fuel (padd buf (n - 1)) c;;
      tokens ← tokenize_loop fuel buf c [];
      grow (Z.of_nat (length tokens) + 1);;
      kfree_block buf;;
      mret (Some tokens)
  end.
Definition canonicalize_path (path : option cptr) : M bytes (option (list cptr)) := tokenize path 47.
Fixpoint free_all (tokens : list cptr) : M bytes unit :=
  match tokens with [] => mret tt | tok :: tokens => kfree_block tok;; free_all tokens end.
Definition tokens_free (tokens : option (list cptr)) : M bytes unit :=
  match tokens with None => mret tt | Some l => free_all l end.
End alloc.

(** ** Numbers *)

(** [digits[i]]; the entry behind the last is the NUL. *)
Definition digits : list Z := [48; 49; 50; 51; 52; 53; 54; 55; 56; 57; 65; 66; 67; 68; 69; 70; 0].
Definition digit (i : Z) : M bytes Z := λ s,
  match guard (0 ≤ i);; digits !! Z.to_nat i with Some d => Ok (d, s) | None => Fault end.
(** [do { str++; shifter /= base; } while (shifter)]; a division by 0 traps. *)
Fixpoint count_digits (fuel : nat) (shifter base : Z) (str : cptr) : M bytes cptr :=
  match fuel with
  | O => nofuel
  | S fuel' =>
      if bool_decide (base = 0) then fault else
      let shifter := Z.quot shifter base in
      if bool_decide (shifter = 0) then mret (padd str 1) else count_digits fuel' shifter base (padd str 1)
  end.
(** [do { --str; *str = digits[n % base]; n /= base; } while (n)] *)
Fixpoint put_digits (fuel : nat) (n base : Z) (str : cptr) : M bytes unit :=
  match fuel with
  | O => nofuel
  | S fuel' =>
      d ← digit (Z.rem n base);
      sb (padd str (-1)) d;;
      let n := Z.quot n base in
      if bool_decide (n = 0) then mret tt else put_digits fuel' n base (padd str (-1))
  end.
(** 32 turns are enough for 32-bit numbers in any base from 2 on. *)
Definition itostr (str : cptr) (n base : Z) : M bytes unit :=
  '(str, n) ← (if bool_decide (n < 0) then sb str 45;; mret (padd str 1, i32 (- n)) else mret (str, n));
  fin ← count_digits 32 n base str;
  sb fin 0;;
  put_digits 32 n base fin.

Fixpoint atoi_loop (fuel : nat) (p : cptr) (val : Z) : M bytes Z :=
  match fuel with
  | O => nofuel
  | S fuel' =>
      b ← lb p;
      if bool_decide (b ≠ 0 ∧ schar b ≤ 57) then atoi_loop fuel' (padd p 1) (i32 (i32 (val * 10) + (schar b - 48)))
      else mret val
  end.
Definition atoi (s : option cptr) : M bytes Z :=
  match s with None => mret 0 | Some p => fuel ← room p; atoi_loop fuel p 0 end.
Fixpoint atoo_loop (fuel : nat) (p : cptr) (val : Z) : M bytes Z :=
  match fuel with
  | O => nofuel
  | S fuel' =>
      b ← lb p;
      if bool_decide (b ≠ 0 ∧ schar b < 56) then
        atoo_loop fuel' (padd p 1) (Z.lor (i32 (Z.shiftl val 3)) (schar b - 48))
      else mret val
  end.
Definition atoo (s : option cptr) : M bytes Z :=
  match s with None => mret 0 | Some p => fuel ← room p; atoo_loop fuel p 0 end.
Definition isdigit (ch : Z) : bool := bool_decide (48 ≤ ch ∧ ch ≤ 57).
