(* ===== verification/StringsSpec.v ===== *)
(** * What the memory and string routines do *)
From S2P Require Import Prelude Strings.

Definition is_byte (b : Z) : Prop := 0 ≤ b < 256.
(** [s] with the content of one block replaced. *)
Definition put (p : loc) (l : list Z) (s : bytes) : bytes := Bytes (<[p := l]> (blocks s)).
Notation "b +> i" := (b, Z.of_nat i) (at level 45).

Lemma put_put p l l' s : put p l (put p l' s) = put p l s.
Proof. unfold put. simpl. by rewrite insert_insert_eq. Qed.
Lemma put_id p l s : blocks s !! p = Some l → put p l s = s.
Proof. destruct s as [h]. simpl. intros H. unfold put. simpl. by rewrite insert_id. Qed.
Lemma padd_nat (b : loc) i n : padd (b +> i) (Z.of_nat n) = b +> (i + n).
Proof. unfold padd. simpl. f_equal. lia. Qed.
Lemma padd_S (b : loc) i : padd (b +> i) 1 = b +> S i.
Proof. unfold padd. simpl. f_equal. lia. Qed.
Lemma padd_pred (b : loc) i : padd (b +> S i) (-1) = b +> i.
Proof. unfold padd. simpl. f_equal. lia. Qed.

Lemma wp_lb s b i l c (Q : Z → bytes → Prop) : blocks s !! b = Some l → l !! i = Some c → Q c s → wp (lb (b +> i)) Q s.
Proof.
  intros Hb Hi HQ. eapply wp_eq; [|exact HQ]. unfold lb. simpl. rewrite Hb. simpl. rewrite option_guard_True by lia.
  by rewrite Nat2Z.id, Hi.
Qed.
Lemma wp_sb s b i l c (Q : unit → bytes → Prop) : blocks s !! b = Some l → (i < length l)%nat →
  Q tt (put b (<[i := c mod 256]> l) s) → wp (sb (b +> i) c) Q s.
Proof.
  intros Hb [x Hx]%lookup_lt_is_Some HQ. unfold sb. apply wp_bind. eapply wp_lb; [done..|]. apply wp_modify. simpl.
  rewrite Nat2Z.id. replace (alter _ b (blocks s)) with (<[b := <[i := c mod 256]> l]> (blocks s)); [done|].
  apply map_eq. intros b'. destruct (decide (b = b')) as [->|].
  - by rewrite lookup_insert_eq, lookup_alter_eq, Hb.
  - by rewrite lookup_insert_ne, lookup_alter_ne.
Qed.
Lemma wp_sb_byte s b i l c (Q : unit → bytes → Prop) : is_byte c → blocks s !! b = Some l → (i < length l)%nat →
  Q tt (put b (<[i := c]> l) s) → wp (sb (b +> i) c) Q s.
Proof. intros Hc Hb Hi HQ. eapply wp_sb; [done..|]. by rewrite Z.mod_small. Qed.

(** ** Moving bytes *)

(** [l'] is [ld] with the [n] bytes of [ls] from [sr] on at [d]. *)
Record moved (ld ls l' : list Z) (d sr n : nat) : Prop := Moved {
  mv_in : ∀ i, (d ≤ i < d + n)%nat → l' !! i = ls !! (sr + (i - d))%nat;
  mv_out : ∀ i, ¬ (d ≤ i < d + n)%nat → l' !! i = ld !! i;
}.
Definition splice (l : list Z) (d : nat) (w : list Z) : list Z := take d l ++ w ++ drop (d + length w) l.

Lemma moved_splice ld ls l' d sr n : (d + n ≤ length ld)%nat → (sr + n ≤ length ls)%nat →
  moved ld ls l' d sr n → l' = splice ld d (take n (drop sr ls)).
Proof.
  intros Hd Hs [Hin Hout]. set (w := take n (drop sr ls)).
  assert (Hw : length w = n) by (unfold w; rewrite length_take, length_drop; lia).
  apply list_eq. intros i. unfold splice. rewrite Hw. destruct (decide (d ≤ i < d + n)%nat) as [Hi|Hi].
  - rewrite Hin by done. rewrite lookup_app_r by (rewrite length_take; lia). rewrite length_take, Nat.min_l by lia.
    rewrite lookup_app_l by lia. unfold w. by rewrite lookup_take_lt, lookup_drop by lia.
  - rewrite Hout by done. destruct (decide (i < d)%nat).
    + by rewrite lookup_app_l, lookup_take_lt by (rewrite ?length_take; lia).
    + rewrite lookup_app_r, length_take, Nat.min_l by (rewrite ?length_take; lia).
      rewrite lookup_app_r, lookup_drop by lia. f_equal. lia.
Qed.

Lemma wp_copy_up n s bd bs ld ls d sr (Q : unit → bytes → Prop) : Forall is_byte ls →
  blocks s !! bd = Some ld → blocks s !! bs = Some ls → (d + n ≤ length ld)%nat → (sr + n ≤ length ls)%nat →
  (bd = bs → d ≤ sr ∨ sr + n ≤ d)%nat → (∀ l', moved ld ls l' d sr n → Q tt (put bd l' s)) →
  wp (copy_up n (bd +> d) (bs +> sr)) Q s.
Proof.
  revert s ld ls d sr. induction n as [|n IH]; intros s ld ls d sr Hby Hd Hs Hdl Hsl Hap HQ; simpl.
  - apply wp_ret. rewrite <- (put_id bd ld s) by done. apply HQ. split; [lia|done].
  - destruct (lookup_lt_is_Some_2 ls sr ltac:(lia)) as [b Hb].
    assert (Hib : is_byte b) by (by eapply Forall_lookup_1 in Hby).
    apply wp_bind. eapply wp_lb; [done..|]. apply wp_bind. eapply wp_sb_byte; [done..|lia|]. rewrite !padd_S.
    set (ls1 := if decide (bs = bd) then <[d := b]> ld else ls).
    assert (Hlen : length ls1 = length ls) by (unfold ls1; case_decide; [subst; rewrite length_insert; congruence|done]).
    assert (Hs1 : blocks (put bd (<[d := b]> ld) s) !! bs = Some ls1).
    { unfold put, ls1. simpl. case_decide; [subst; by rewrite lookup_insert_eq|by rewrite lookup_insert_ne]. }
    assert (Hsame : ∀ j, (sr < j ≤ sr + n)%nat → ls1 !! j = ls !! j).
    { intros j Hj. unfold ls1. case_decide as E; [|done]. subst bs. assert (ld = ls) as -> by congruence.
      apply list_lookup_insert_ne. destruct (Hap eq_refl); lia. }
    apply (IH _ (<[d := b]> ld) ls1); rewrite ?length_insert, ?Hlen; try lia; try done.
    + unfold ls1. case_decide as E; [|done]. subst bs. assert (ld = ls) as -> by congruence. by apply Forall_insert.
    + unfold put. simpl. by rewrite lookup_insert_eq.
    + intros l' [Hin Hout]. rewrite put_put. apply HQ. split.
      * intros i Hi. destruct (decide (i = d)) as [->|].
        -- rewrite Hout by lia. rewrite list_lookup_insert_eq by lia. rewrite Nat.sub_diag, Nat.add_0_r. done.
        -- rewrite Hin by lia. rewrite Hsame by lia. f_equal. lia.
      * intros i Hi. rewrite Hout by lia. apply list_lookup_insert_ne. lia.
Qed.

Lemma wp_copy_down n s bd bs ld ls d sr (Q : unit → bytes → Prop) : Forall is_byte ls →
  blocks s !! bd = Some ld → blocks s !! bs = Some ls → (d + n ≤ length ld)%nat → (sr + n ≤ length ls)%nat →
  (bd = bs → sr ≤ d)%nat → (∀ l', moved ld ls l' d sr n → Q tt (put bd l' s)) →
  wp (copy_down n (bd +> (d + n)) (bs +> (sr + n))) Q s.
Proof.
  revert s ld ls. induction n as [|n IH]; intros s ld ls Hby Hd Hs Hdl Hsl Hap HQ; simpl.
  - apply wp_ret. rewrite <- (put_id bd ld s) by done. apply HQ. split; [lia|done].
  - rewrite <- !plus_n_Sm, !padd_pred. destruct (lookup_lt_is_Some_2 ls (sr + n) ltac:(lia)) as [b Hb].
    assert (Hib : is_byte b) by (by eapply Forall_lookup_1 in Hby).
    apply wp_bind. eapply wp_lb; [done..|]. apply wp_bind. eapply wp_sb_byte; [done..|lia|].
    set (ls1 := if decide (bs = bd) then <[(d + n)%nat := b]> ld else ls).
    assert (Hlen : length ls1 = length ls) by (unfold ls1; case_decide; [subst; rewrite length_insert; congruence|done]).
    assert (Hs1 : blocks (put bd (<[(d + n)%nat := b]> ld) s) !! bs = Some ls1).
    { unfold put, ls1. simpl. case_decide; [subst; by rewrite lookup_insert_eq|by rewrite lookup_insert_ne]. }
    assert (Hsame : ∀ j, (j < sr + n)%nat → ls1 !! j = ls !! j).
    { intros j Hj. unfold ls1. case_decide as E; [|done]. subst bs. assert (ld = ls) as -> by congruence.
      apply list_lookup_insert_ne. specialize (Hap eq_refl). lia. }
    apply (IH _ (<[(d + n)%nat := b]> ld) ls1); rewrite ?length_insert, ?Hlen; try lia; try done.
    + unfold ls1. case_decide as E; [|done]. subst bs. assert (ld = ls) as -> by congruence. by apply Forall_insert.
    + unfold put. simpl. by rewrite lookup_insert_eq.
    + intros l' [Hin Hout]. rewrite put_put. apply HQ. split.
      * intros i Hi. destruct (decide (i = d + n)%nat) as [->|].
        -- rewrite Hout by lia. rewrite list_lookup_insert_eq by lia. rewrite <- Hb. f_equal. lia.
        -- rewrite Hin by lia. apply Hsame. lia.
      * intros i Hi. rewrite Hout by lia. apply list_lookup_insert_ne. lia.
Qed.

(** [memmove] copies [n] bytes also when the two areas overlap: the destination then
    holds the bytes the source held before the call, and no other byte of memory
    changes. *)
Theorem memmove_correct s bd bs ld ls d sr n : Forall is_byte ls →
  blocks s !! bd = Some ld → blocks s !! bs = Some ls → (d + n ≤ length ld)%nat → (sr + n ≤ length ls)%nat →
  memmove (bd +> d) (bs +> sr) (Z.of_nat n) s = Ok (bd +> d, put bd (splice ld d (take n (drop sr ls))) s).
Proof.
  intros Hby Hd Hs Hdl Hsl.
  enough (wp (memmove (bd +> d) (bs +> sr) (Z.of_nat n))
    (λ r s', r = bd +> d ∧ s' = put bd (splice ld d (take n (drop sr ls))) s) s) as (? & ? & -> & -> & ->)%wp_exec by done.
  unfold memmove. apply wp_bind. unfold overlaps. rewrite Nat2Z.id. simpl fst. simpl snd. case_bool_decide as Hov.
  - rewrite !padd_nat. destruct Hov as (<- & H1 & _). apply (wp_copy_down n s bs bs ld ls); try done; [lia|].
    intros l' Hm. apply wp_ret. split; [done|]. by rewrite <- (moved_splice _ _ _ _ _ _ Hdl Hsl Hm).
  - apply (wp_copy_up n s bd bs ld ls); try done; [intros ->; lia|].
    intros l' Hm. apply wp_ret. split; [done|]. by rewrite <- (moved_splice _ _ _ _ _ _ Hdl Hsl Hm).
Qed.

(** ** Strings *)

(** [l] holds the string [w] from [i] on, and its NUL. *)
Record cstr (l : list Z) (i : nat) (w : list Z) : Prop := Cstr {
  cs_in : ∀ j c, w !! j = Some c → l !! (i + j)%nat = Some c;
  cs_end : l !! (i + length w)%nat = Some 0;
  cs_chars : Forall (λ c, 0 < c < 256) w;
}.
Definition string_at (s : bytes) (b : loc) (i : nat) (w : list Z) : Prop := ∃ l, blocks s !! b = Some l ∧ cstr l i w.

Lemma cstr_nil l i : l !! i = Some 0 → cstr l i [].
Proof. intros. split; [done| |done]. simpl. by rewrite Nat.add_0_r. Qed.
Lemma cstr_0 l i : cstr l i [] → l !! i = Some 0.
Proof. intros [_ H _]. simpl in H. by rewrite Nat.add_0_r in H. Qed.
Lemma cstr_cons l i c w : cstr l i (c :: w) ↔ l !! i = Some c ∧ 0 < c < 256 ∧ cstr l (S i) w.
Proof.
  split.
  - intros [H1 H2 H3]. apply Forall_cons in H3 as [Hc H3]. split; [|split; [done|split]].
    + rewrite <- (Nat.add_0_r i). by apply H1.
    + intros j d Hj. rewrite Nat.add_succ_comm. by apply H1.
    + rewrite Nat.add_succ_comm. done.
    + done.
  - intros (H1 & H2 & [H3 H4 H5]). split.
    + intros [|j] d Hj; simpl in Hj; [injection Hj as <-; by rewrite Nat.add_0_r|]. rewrite <- Nat.add_succ_comm. by apply H3.
    + simpl length. by rewrite <- Nat.add_succ_comm.
    + by apply Forall_cons.
Qed.
Lemma cstr_length l i w : cstr l i w → (i + length w < length l)%nat.
Proof. intros [_ H _]. by apply lookup_lt_Some in H. Qed.
Lemma cstr_app l i u v : cstr l i (u ++ v) → cstr l (i + length u) v.
Proof.
  revert i. induction u as [|c u IH]; intros i; simpl; [by rewrite Nat.add_0_r|].
  intros (_ & _ & H)%cstr_cons. rewrite <- Nat.add_succ_comm. by apply IH.
Qed.
Lemma cstr_unique l i w w' : cstr l i w → cstr l i w' → w = w'.
Proof.
  revert i w'. induction w as [|c w IH]; intros i [|c' w'] H H'; [done| | |].
  - apply cstr_0 in H. apply cstr_cons in H' as (? & ? & _). rewrite H in *. simplify_eq. lia.
  - apply cstr_0 in H'. apply cstr_cons in H as (? & ? & _). rewrite H' in *. simplify_eq. lia.
  - apply cstr_cons in H as (? & ? & ?), H' as (? & ? & ?). f_equal; [congruence|by eapply IH].
Qed.

Lemma wp_room s b i l (Q : nat → bytes → Prop) : blocks s !! b = Some l → Q (S (length l)) s → wp (room (b +> i)) Q s.
Proof. intros Hb HQ. apply wp_gets. simpl. by rewrite Hb. Qed.

Lemma wp_strlen_loop fuel s b i n l w (Q : Z → bytes → Prop) : blocks s !! b = Some l → cstr l (i + n) w →
  (length w < fuel)%nat → Q (Z.of_nat (n + length w)) s → wp (strlen_loop fuel (b +> i) (Z.of_nat n)) Q s.
Proof.
  intros Hb. revert n w. induction fuel as [|fuel IH]; intros n w Hw Hf HQ; [lia|]. simpl. rewrite padd_nat.
  apply wp_bind. destruct w as [|c w].
  - apply cstr_0 in Hw. eapply wp_lb; [done..|]. simpl. rewrite Nat.add_0_r in HQ. by apply wp_ret.
  - apply cstr_cons in Hw as (Hc & Hr & Hw). eapply wp_lb; [done..|]. rewrite bool_decide_false by lia.
    replace (Z.of_nat n + 1) with (Z.of_nat (S n)) by lia. apply (IH (S n) w); [by rewrite <- plus_n_Sm|simpl in Hf; lia|].
    by rewrite Nat.add_succ_comm.
Qed.
Lemma wp_strlen s b i l w (Q : Z → bytes → Prop) : blocks s !! b = Some l → cstr l i w →
  Q (Z.of_nat (length w)) s → wp (strlen (b +> i)) Q s.
Proof.
  intros Hb Hw HQ. unfold strlen. apply wp_bind. eapply wp_room; [done|]. pose proof (cstr_length _ _ _ Hw).
  apply (wp_strlen_loop _ s b i 0 l w); [done|by rewrite Nat.add_0_r|lia|done].
Qed.

(** The difference of the first characters in which two strings differ. *)
Fixpoint strdiff (w w' : list Z) : Z :=
  match w, w' with
  | [], [] => 0
  | [], c :: _ => - c
  | c :: _, [] => c
  | c :: w, c' :: w' => if bool_decide (c = c') then strdiff w w' else c - c'
  end.
Lemma wp_strcmp_loop fuel s b b' i i' l l' w w' (Q : Z → bytes → Prop) :
  blocks s !! b = Some l → blocks s !! b' = Some l' → cstr l i w → cstr l' i' w' →
  (length w < fuel)%nat → Q (strdiff w w') s → wp (strcmp_loop fuel (b +> i) (b' +> i')) Q s.
Proof.
  intros Hb Hb'. revert i i' w w'. induction fuel as [|fuel IH]; intros i i' w w' Hw Hw' Hf HQ; [lia|]. simpl.
  assert (Hc' : ∃ c', l' !! i' = Some c' ∧ (w' = [] ∧ c' = 0 ∨ ∃ v', w' = c' :: v' ∧ 0 < c' ∧ cstr l' (S i') v')).
  { destruct w' as [|c' w']; [exists 0; split; [by apply cstr_0|by left]|].
    apply cstr_cons in Hw' as (? & ? & ?). exists c'. split; [done|]. right. exists w'. split_and!; (done || lia). }
  destruct Hc' as (c' & Hc' & Hcase). apply wp_bind. destruct w as [|c w].
  - apply cstr_0 in Hw. eapply wp_lb; [done..|]. rewrite bool_decide_true by done. apply wp_bind.
    eapply wp_lb; [done..|]. apply wp_ret. destruct Hcase as [[-> ->]|(v' & -> & ? & ?)]; done.
  - apply cstr_cons in Hw as (Hc & Hr & Hw). eapply wp_lb; [done..|]. rewrite bool_decide_false by lia.
    apply wp_bind. eapply wp_lb; [done..|]. destruct Hcase as [[-> ->]|(v' & -> & ? & ?)]; simpl in HQ.
    + rewrite bool_decide_false by lia. apply wp_ret. by rewrite Z.sub_0_r.
    + case_bool_decide; [|by apply wp_ret]. rewrite !padd_S. apply (IH (S i) (S i') w v'); try done. simpl in Hf. lia.
Qed.
Lemma wp_strcmp s b b' i i' w w' (Q : Z → bytes → Prop) : string_at s b i w → string_at s b' i' w' →
  Q (strdiff w w') s → wp (strcmp (b +> i) (b' +> i')) Q s.
Proof.
  intros (l & Hb & Hw) (l' & Hb' & Hw') HQ. unfold strcmp. apply wp_bind. eapply wp_room; [done|].
  pose proof (cstr_length _ _ _ Hw). by apply (wp_strcmp_loop _ s b b' i i' l l' w w'); [..|lia|].
Qed.

Inductive lex_lt : list Z → list Z → Prop :=
| lex_nil c w : lex_lt [] (c :: w)
| lex_here c c' w w' : c < c' → lex_lt (c :: w) (c' :: w')
| lex_next c w w' : lex_lt w w' → lex_lt (c :: w) (c :: w').

(** [strcmp] orders strings as a dictionary does, by unsigned characters: it returns
    0 exactly for equal strings, a negative number exactly if the first comes before
    the second, and never reads past the end of either. *)
Theorem strcmp_correct s b b' i i' w w' : string_at s b i w → string_at s b' i' w' →
  ∃ r, strcmp (b +> i) (b' +> i') s = Ok (r, s) ∧ (r = 0 ↔ w = w') ∧ (r < 0 ↔ lex_lt w w').
Proof.
  intros Hw Hw'. assert (wp (strcmp (b +> i) (b' +> i')) (λ r s', r = strdiff w w' ∧ s' = s) s) as (? & ? & Hx & -> & ->)%wp_exec
    by (by eapply wp_strcmp).
  eexists. split; [done|]. destruct Hw as (l & _ & [_ _ H1]), Hw' as (l' & _ & [_ _ H2]). clear Hx l l'.
  revert w' H2. induction H1 as [|c w Hc H1 IH]; intros w' H2; destruct H2 as [|c' w' Hc' H2]; simpl.
  - split; [done|]. split; [lia|]. by inversion 1.
  - split; [split; [lia|done]|]. split; [intros _; constructor|lia].
  - split; [split; [lia|done]|]. split; [lia|by inversion 1].
  - case_bool_decide as E.
    + subst c'. destruct (IH w' H2) as [IH1 IH2]. rewrite IH1, IH2. split; [split; congruence|].
      split; [by constructor|]. inversion 1; subst; [lia|done].
    + split; [split; [lia|congruence]|]. split; [intros; constructor; lia|]. inversion 1; subst; [lia|done].
Qed.

(** ** Copying strings *)

Lemma splice_nil l i : splice l i [] = l.
Proof. unfold splice. simpl. rewrite Nat.add_0_r. apply take_drop. Qed.
Lemma splice_length l i w : (i + length w ≤ length l)%nat → length (splice l i w) = length l.
Proof. intros. unfold splice. rewrite !length_app, length_take, length_drop. lia. Qed.
Lemma splice_cons l i c w : (i < length l)%nat → splice (<[i := c]> l) (S i) w = splice l i (c :: w).
Proof.
  intros Hi. unfold splice. rewrite drop_insert_lt by lia.
  assert (take (S i) (<[i := c]> l) = take i l ++ [c]) as ->.
  { erewrite take_S_r by (by apply list_lookup_insert_eq). by rewrite take_insert_ge. }
  rewrite <- app_assoc. simpl. do 4 f_equal. lia.
Qed.
Lemma splice_snoc l i w c : (i + length w < length l)%nat → <[(i + length w)%nat := c]> (splice l i w) = splice l i (w ++ [c]).
Proof.
  intros Hi. unfold splice. rewrite insert_app_r_alt by (rewrite length_take; lia).
  rewrite length_take, Nat.min_l by lia. rewrite insert_app_r_alt by lia.
  replace (i + length w - i - length w)%nat with 0%nat by lia. rewrite length_app, <- app_assoc. simpl.
  destruct (drop (i + length w) l) as [|x r] eqn:E; [apply (f_equal length) in E; rewrite length_drop in E; simpl in E; lia|].
  simpl. do 3 f_equal. replace (i + (length w + 1))%nat with (i + length w + 1)%nat by lia. by rewrite <- drop_drop, E.
Qed.
Lemma cstr_splice l i w r : Forall (λ c, 0 < c < 256) w → (i + length (w ++ 0%Z :: r) ≤ length l)%nat →
  cstr (splice l i (w ++ 0 :: r)) i w.
Proof.
  intros Hw Hl. rewrite length_app in Hl. simpl in Hl.
  assert (Hk : ∀ j, splice l i (w ++ 0 :: r) !! (i + j)%nat = ((w ++ 0 :: r) ++ drop (i + length (w ++ 0%Z :: r)) l) !! j).
  { intros j. unfold splice. rewrite lookup_app_r by (rewrite length_take; lia). f_equal. rewrite length_take. lia. }
  split; [|rewrite Hk|done].
  - intros j c Hj. rewrite Hk, <- app_assoc. by apply lookup_app_l_Some.
  - rewrite <- app_assoc. rewrite lookup_app_r by lia. by rewrite Nat.sub_diag.
Qed.

Lemma wp_memset_loop n s b i l c (Q : unit → bytes → Prop) : is_byte c → blocks s !! b = Some l → (i + n ≤ length l)%nat →
  Q tt (put b (splice l i (replicate n c)) s) → wp (memset_loop n (b +> i) c) Q s.
Proof.
  intros Hc. revert s i l. induction n as [|n IH]; intros s i l Hb Hi HQ; simpl.
  - apply wp_ret. simpl in HQ. by rewrite splice_nil, put_id in HQ.
  - apply wp_bind. eapply wp_sb_byte; [done..|lia|]. rewrite padd_S. eapply IH; [apply lookup_insert_eq|by rewrite length_insert; lia|].
    rewrite put_put, splice_cons by lia. done.
Qed.

(** What [strncpy] copies of [w] in [n] bytes. *)
Definition clipped (n : nat) (w : list Z) : list Z := if decide (length w < n)%nat then w ++ [0] else take n w.
Lemma clipped_length n w : (length (clipped n w) ≤ n)%nat.
Proof. unfold clipped. case_decide; [rewrite length_app; simpl; lia|rewrite length_take; lia]. Qed.

Section copy.
Context (bd bs : loc) (ls : list Z) (Hne : bd ≠ bs).

Lemma wp_strncpy_loop n s d sr ld w (Q : nat * cptr → bytes → Prop) :
  blocks s !! bd = Some ld → blocks s !! bs = Some ls → cstr ls sr w → (d + n ≤ length ld)%nat →
  Q ((n - length (clipped n w))%nat, bd +> (d + length (clipped n w))) (put bd (splice ld d (clipped n w)) s) →
  wp (strncpy_loop n (bd +> d) (bs +> sr)) Q s.
Proof using Hne.
  revert s d sr ld w. induction n as [|n IH]; intros s d sr ld w Hd Hs Hw Hl HQ; simpl.
  - apply wp_ret. unfold clipped in HQ. rewrite decide_False in HQ by lia. simpl in HQ. by rewrite splice_nil, put_id, Nat.add_0_r in HQ.
  - apply wp_bind. destruct w as [|c w].
    + apply cstr_0 in Hw. eapply wp_lb; [done..|]. apply wp_bind. eapply wp_sb_byte; [done..|lia|].
      rewrite bool_decide_true by done. rewrite padd_S. apply wp_ret. unfold clipped in HQ. rewrite decide_True in HQ by (simpl; lia).
      simpl in HQ. rewrite Nat.sub_0_r, Nat.add_1_r in HQ. rewrite <- splice_cons, splice_nil in HQ by lia. done.
    + apply cstr_cons in Hw as (Hc & Hr & Hw). eapply wp_lb; [done..|]. apply wp_bind.
      eapply wp_sb_byte; [unfold is_byte; lia|done|lia|]. rewrite bool_decide_false by lia. rewrite !padd_S.
      apply (IH _ _ _ (<[d := c]> ld) w); [apply lookup_insert_eq|by unfold put; simpl; rewrite lookup_insert_ne|done|rewrite length_insert; lia|].
      assert (E : clipped (S n) (c :: w) = c :: clipped n w).
      { unfold clipped. simpl length. destruct (decide (length w < n)%nat); [rewrite !decide_True by lia|rewrite !decide_False by lia]; done. }
      rewrite E in HQ. simpl in HQ. rewrite put_put, splice_cons by lia. by rewrite Nat.add_succ_comm.
Qed.
End copy.

Lemma wp_safestrcpy s bd bs ld ls d sr w n (Q : cptr → bytes → Prop) : bd ≠ bs →
  blocks s !! bd = Some ld → blocks s !! bs = Some ls → cstr ls sr w → (d + S n ≤ length ld)%nat →
  Q (bd +> d) (put bd (splice ld d (clipped n w ++ [0])) s) → wp (safestrcpy (bd +> d) (bs +> sr) (Z.of_nat n + 1)) Q s.
Proof.
  intros Hne Hd Hs Hw Hl HQ. pose proof (clipped_length n w) as Hcl.
  unfold safestrcpy. rewrite bool_decide_false by lia. replace (Z.to_nat (Z.of_nat n + 1 - 1)) with n by lia.
  apply wp_bind. apply (wp_strncpy_loop bd bs ls Hne _ _ _ _ ld w); try done; [lia|].
  apply wp_bind. eapply wp_sb_byte; [done|apply lookup_insert_eq|rewrite splice_length; lia|]. rewrite put_put.
  rewrite splice_snoc by lia. by apply wp_ret.
Qed.

(** [safestrcpy] writes the string cut to [n] - 1 characters and its NUL (and perhaps
    one more NUL behind it), all within the [n] bytes of the buffer; nothing else in
    memory changes. *)
Theorem safestrcpy_correct s bd bs ld ls d sr w n : bd ≠ bs →
  blocks s !! bd = Some ld → blocks s !! bs = Some ls → cstr ls sr w → (0 < n)%nat → (d + n ≤ length ld)%nat →
  ∃ r, (length (take (n - 1) w ++ 0%Z :: r) ≤ n)%nat ∧
    safestrcpy (bd +> d) (bs +> sr) (Z.of_nat n) s = Ok (bd +> d, put bd (splice ld d (take (n - 1) w ++ 0 :: r)) s) ∧
    cstr (splice ld d (take (n - 1) w ++ 0 :: r)) d (take (n - 1) w).
Proof.
  intros Hne Hd Hs Hw Hn Hl. pose proof (clipped_length (n - 1) w) as Hcl.
  assert (wp (safestrcpy (bd +> d) (bs +> sr) (Z.of_nat n))
    (λ r s', r = bd +> d ∧ s' = put bd (splice ld d (clipped (n - 1) w ++ [0])) s) s) as (? & ? & -> & -> & ->)%wp_exec.
  { replace (Z.of_nat n) with (Z.of_nat (n - 1) + 1) by lia. eapply (wp_safestrcpy s bd bs ld ls); try done. lia. }
  assert (Hf : Forall (λ c, 0 < c < 256) (take (n - 1) w)) by (apply Forall_take, Hw).
  unfold clipped in *. case_decide as E.
  - exists [0]. rewrite (take_ge w) by lia. rewrite <- app_assoc. simpl.
    assert (Hlen : (length (w ++ [0; 0]%Z) ≤ n)%nat) by (rewrite length_app in *; simpl in *; lia).
    split; [done|]. split; [done|]. apply cstr_splice; [by rewrite take_ge in Hf by lia|lia].
  - exists []. assert (Hlen : (length (take (n - 1) w ++ [0]%Z) ≤ n)%nat) by (rewrite length_app; simpl; lia).
    split; [done|]. split; [done|]. apply cstr_splice; [done|lia].
Qed.

(** ** Splitting *)

(** The pieces of [w] between separators: the first one and the others. *)
Fixpoint split_at (c : Z) (w : list Z) : list Z * list (list Z) :=
  match w with
  | [] => ([], [])
  | b :: w => let '(x, xs) := split_at c w in if bool_decide (b = c) then ([], x :: xs) else (b :: x, xs)
  end.
(** Those that are not empty. *)
Definition fields (c : Z) (w : list Z) : list (list Z) :=
  let '(x, xs) := split_at c w in filter (λ x, x ≠ []) (x :: xs).

Lemma fields_nil c : fields c [] = [].
Proof. done. Qed.
Lemma fields_sep c w : fields c (c :: w) = fields c w.
Proof. unfold fields. simpl. destruct (split_at c w) as [x xs]. by rewrite bool_decide_true by done. Qed.
Lemma fields_seps c k w : fields c (replicate k c ++ w) = fields c w.
Proof. induction k as [|k IH]; simpl; [done|]. by rewrite fields_sep. Qed.
Lemma split_word c x w : c ∉ x → split_at c (x ++ w) = let '(y, ys) := split_at c w in (x ++ y, ys).
Proof.
  induction x as [|b x IH]; intros Hx; simpl; [by destruct (split_at c w)|]. rewrite IH by set_solver.
  destruct (split_at c w) as [y ys]. rewrite bool_decide_false by set_solver. done.
Qed.
Lemma fields_word c x w : x ≠ [] → c ∉ x → (w = [] ∨ head w = Some c) → fields c (x ++ w) = x :: fields c w.
Proof.
  intros Hne Hx Hw. unfold fields. rewrite split_word by done. destruct Hw as [->|Hw].
  - simpl. rewrite app_nil_r. rewrite filter_cons_True by done. done.
  - destruct w as [|b w]; [done|]. injection Hw as ->. simpl. destruct (split_at c w) as [y ys].
    rewrite bool_decide_true by done. rewrite app_nil_r. by rewrite !filter_cons_True, (filter_cons_False _ []) by tauto.
Qed.
Lemma fields_snoc c w : fields c (w ++ [c]) = fields c w.
Proof.
  unfold fields. assert (split_at c (w ++ [c]) = let '(x, xs) := split_at c w in (x, xs ++ [[]])) as ->.
  { induction w as [|b w IH]; simpl; [by rewrite bool_decide_true|]. rewrite IH. destruct (split_at c w) as [x xs].
    by case_bool_decide. }
  destruct (split_at c w) as [x xs]. rewrite app_comm_cons, filter_app. by rewrite app_nil_r.
Qed.
Lemma fields_trim c w k : fields c (w ++ replicate k c) = fields c w.
Proof. induction k as [|k IH]; [by rewrite app_nil_r|]. rewrite replicate_S_end, app_assoc, fields_snoc. done. Qed.

Section schar.
Context (c : Z) (Hc : 0 < c < 128).
Lemma schar_eq b : 0 < b < 256 → schar b = c ↔ b = c.
Proof using Hc. intros. unfold schar. case_bool_decide; lia. Qed.

Lemma wp_skip_loop fuel s b i l w (Q : cptr → bytes → Prop) : blocks s !! b = Some l → cstr l i w → (length w < fuel)%nat →
  (∀ k v, w = replicate k c ++ v → head v ≠ Some c → Q (b +> (i + k)) s) → wp (skip_loop fuel (b +> i) c) Q s.
Proof using Hc.
  intros Hb. revert i w Q. induction fuel as [|fuel IH]; intros i w Q Hw Hf HQ; [lia|]. simpl. apply wp_bind. destruct w as [|a w].
  - apply cstr_0 in Hw. eapply wp_lb; [done..|]. rewrite bool_decide_false by tauto. apply wp_ret.
    specialize (HQ 0%nat []). rewrite Nat.add_0_r in HQ. by apply HQ.
  - apply cstr_cons in Hw as (Ha & Hr & Hw). eapply wp_lb; [done..|]. destruct (decide (a = c)) as [->|Hne].
    + rewrite bool_decide_true by (split; [lia|by apply schar_eq]). rewrite padd_S. apply (IH _ w); [done|simpl in Hf; lia|].
      intros k v -> Hv. rewrite Nat.add_succ_comm. by apply (HQ (S k) v).
    + rewrite bool_decide_false by (rewrite schar_eq by lia; tauto). apply wp_ret.
      specialize (HQ 0%nat (a :: w)). rewrite Nat.add_0_r in HQ. apply HQ; [done|simpl; congruence].
Qed.
Lemma wp_token_len fuel s b i l w n (Q : Z → bytes → Prop) : blocks s !! b = Some l → cstr l i w → (length w < fuel)%nat →
  (∀ x v, w = x ++ v → c ∉ x → (v = [] ∨ head v = Some c) → Q (Z.of_nat (n + length x)) s) →
  wp (token_len fuel (b +> i) c (Z.of_nat n)) Q s.
Proof using Hc.
  intros Hb. revert i w n Q. induction fuel as [|fuel IH]; intros i w n Q Hw Hf HQ; [lia|]. simpl. apply wp_bind. destruct w as [|a w].
  - apply cstr_0 in Hw. eapply wp_lb; [done..|]. rewrite bool_decide_true by tauto. apply wp_ret.
    specialize (HQ [] []). rewrite Nat.add_0_r in HQ. apply HQ; [done|set_solver|by left].
  - apply cstr_cons in Hw as (Ha & Hr & Hw). eapply wp_lb; [done..|]. destruct (decide (a = c)) as [->|Hne].
    + rewrite bool_decide_true by (right; by apply schar_eq). apply wp_ret.
      specialize (HQ [] (c :: w)). rewrite Nat.add_0_r in HQ. apply HQ; [done|set_solver|by right].
    + rewrite bool_decide_false by (rewrite schar_eq by lia; intros [?|?]; [lia|done]). rewrite padd_S.
      replace (Z.of_nat n + 1) with (Z.of_nat (S n)) by lia. apply (IH _ w); [done|simpl in Hf; lia|].
      intros x v -> Hx Hv. rewrite Nat.add_succ_comm. apply (HQ (a :: x) v); [done|set_solver|done].
Qed.
Lemma cstr_cut l i u a : cstr l i (u ++ [a]) → cstr (<[(i + length u)%nat := 0]> l) i u.
Proof using Type.
  intros [H1 H2 H3]. pose proof (cs_chars l i (u ++ [a]) (Cstr _ _ _ H1 H2 H3)) as Hf. apply Forall_app in Hf as [Hf _].
  apply lookup_lt_Some in H2. rewrite length_app in H2. simpl in H2. split; [| |done].
  - intros j x Hj. rewrite list_lookup_insert_ne by (apply lookup_lt_Some in Hj; lia). apply H1. by apply lookup_app_l_Some.
  - apply list_lookup_insert_eq. lia.
Qed.
Lemma wp_trim_loop fuel s b l w k (Q : unit → bytes → Prop) : blocks s !! b = Some l → cstr l 0 (w ++ replicate k c) →
  w ≠ [] → last w ≠ Some c → (k < fuel)%nat →
  (∀ l', length l' = length l → cstr l' 0 w → Q tt (put b l' s)) →
  wp (trim_loop fuel (b, Z.of_nat (length w + k) - 1) c) Q s.
Proof using Hc.
  intros Hb Hw Hne Hla Hf HQ. revert s l fuel Hb Hw Hf HQ. induction k as [|k IH]; intros s l fuel Hb Hw Hf HQ; (destruct fuel as [|fuel]; [lia|]); simpl.
  - rewrite app_nil_r in Hw. destruct w as [|a w _] using rev_ind; [done|]. rewrite last_snoc in Hla.
    rewrite length_app. simpl. replace (Z.of_nat (length w + 1 + 0) - 1) with (Z.of_nat (length w)) by lia.
    assert (Ha : l !! length w = Some a) by (apply (cs_in _ _ _ Hw (length w)); by rewrite lookup_snoc_Some; right).
    pose proof (cs_chars _ _ _ Hw) as [_ [Hr _]%Forall_cons]%Forall_app.
    apply wp_bind. eapply wp_lb; [done..|]. rewrite bool_decide_false by (rewrite schar_eq by done; intros [_ ->]; done).
    apply wp_ret. rewrite <- (put_id b l s) by done. by apply HQ.
  - replace (Z.of_nat (length w + S k) - 1) with (Z.of_nat (length w + k)) by lia.
    rewrite replicate_S_end, app_assoc in Hw.
    assert (Ha : l !! (length w + k)%nat = Some c).
    { apply (cs_in _ _ _ Hw). rewrite lookup_snoc_Some. right. by rewrite length_app, length_replicate. }
    apply wp_bind. eapply wp_lb; [done..|]. rewrite bool_decide_true by (split; [lia|by apply schar_eq; [lia|]]).
    apply wp_bind. eapply wp_sb_byte; [done..|by apply lookup_lt_Some in Ha|].
    apply cstr_cut in Hw. simpl in Hw. rewrite length_app, length_replicate in Hw.
    apply (IH _ (<[(length w + k)%nat := 0]> l)); [apply lookup_insert_eq|done|lia|].
    intros l' Hl' Hc'. rewrite put_put. apply HQ; [|done]. by rewrite Hl', length_insert.
Qed.
End schar.

(** ** Tokens *)

(** A kernel that does not run out of memory. *)
Class Plenty `{ByteAlloc} : Prop := {
  plenty_block : ∀ h n, is_Some (kmalloc_bytes h n);
  plenty_array : ∀ h n, krealloc_array h n = true;
}.

(** [s'] is [s] with a new block for each of [tokens]. *)
Record grown (s s' : bytes) (tokens : list cptr) : Prop := Grown {
  gr_sub : blocks s ⊆ blocks s';
  gr_dom : dom (blocks s') = list_to_set tokens.*1 ∪ dom (blocks s);
  gr_new : Forall (λ t : cptr, blocks s !! t.1 = None) tokens;
  gr_nodup : NoDup tokens.*1;
}.
Definition tokens_at (s : bytes) (tokens : list cptr) (ws : list (list Z)) : Prop :=
  Forall2 (λ (t : cptr) w, t.2 = 0 ∧ string_at s t.1 0 w) tokens ws.

Lemma grown_0 s : grown s s [].
Proof. split; [done|set_solver|done|constructor]. Qed.
Lemma put_sub s p l : blocks s !! p = None → blocks s ⊆ blocks (put p l s).
Proof. intros. by apply insert_subseteq. Qed.
Lemma grown_cons s s' p i l tokens : blocks s !! p = None → grown (put p l s) s' tokens → grown s s' ((p, i) :: tokens).
Proof.
  intros Hp [H1 H2 H3 H4]. assert (Hn : p ∉ tokens.*1).
  { intros (t & -> & Ht)%list_elem_of_fmap. eapply Forall_forall in H3; [|exact Ht]. unfold put in H3. simpl in H3.
    by rewrite lookup_insert_eq in H3. }
  split.
  - etrans; [by apply put_sub|done].
  - rewrite H2. unfold put. simpl. rewrite dom_insert_L. set_solver.
  - constructor; [done|]. eapply Forall_impl; [exact H3|]. intros [q j]. unfold put. simpl. intros H. by apply lookup_insert_None in H as [H _].
  - simpl. by constructor.
Qed.
Lemma string_at_sub s s' b i w : blocks s ⊆ blocks s' → string_at s b i w → string_at s' b i w.
Proof. intros Hs (l & Hb & Hw). exists l. split; [|done]. by eapply lookup_weaken. Qed.

Section tokens.
Context `{!ByteAlloc} {HP : Plenty} (c : Z) (Hc : 0 < c < 128).

Lemma wp_kmalloc_block n s (Q : option cptr → bytes → Prop) :
  (∀ p l, blocks s !! p = None → length l = n → Q (Some (p +> 0)) (put p l s)) → wp (kmalloc_block (Z.of_nat n)) Q s.
Proof using HP.
  intros HQ. destruct (plenty_block (blocks s) (Z.of_nat n)) as [[p l] E]. destruct (kmalloc_bytes_fresh _ _ _ _ E) as [Hp Hl].
  eapply wp_eq; [unfold kmalloc_block; rewrite E; done|]. apply (HQ p l); [done|lia].
Qed.
Lemma wp_grow n s (Q : unit → bytes → Prop) : Q tt s → wp (grow n) Q s.
Proof using HP. intros HQ. unfold grow. apply wp_bind, wp_gets. rewrite plenty_array. by apply wp_ret. Qed.
(** A new block of [n] + 1 bytes, cleared, with the first [n] characters of a string. *)
Lemma wp_copied {B} (K : cptr → M bytes B) n s bs sr ls w (Q : B → bytes → Prop) : blocks s !! bs = Some ls → cstr ls sr w → (n ≤ length w)%nat →
  (∀ p l, blocks s !! p = None → length l = S n → cstr l 0 (take n w) → wp (K (p +> 0)) Q (put p l s)) →
  wp (tok ← kmalloc_block (Z.of_nat n + 1); tok ← or_fault tok; memset tok 0 (Z.of_nat n + 1);;
      safestrcpy tok (bs +> sr) (Z.of_nat n + 1);; K tok) Q s.
Proof using HP.
  intros Hb Hw Hn HQ. replace (Z.of_nat n + 1) with (Z.of_nat (S n)) by lia.
  apply wp_bind, wp_kmalloc_block. intros p l Hp Hl. apply wp_bind, wp_ret, wp_bind. unfold memset. rewrite Nat2Z.id.
  apply wp_bind. eapply wp_memset_loop; [done|apply lookup_insert_eq|lia|]. apply wp_ret. rewrite put_put.
  assert (Hne : p ≠ bs) by (intros ->; congruence). replace (Z.of_nat (S n)) with (Z.of_nat n + 1) by lia.
  assert (Hlr : length (splice l 0 (replicate (S n) 0)) = S n) by (rewrite splice_length; rewrite ?length_replicate; lia).
  apply wp_bind. eapply (wp_safestrcpy _ p bs); [done|apply lookup_insert_eq|by unfold put; simpl; rewrite lookup_insert_ne|exact Hw|lia|].
  rewrite put_put. assert (Hcl : clipped n w = take n w) by (unfold clipped; by rewrite decide_False by lia).
  rewrite Hcl. assert (Htl : length (take n w ++ [0]) = S n) by (rewrite length_app, length_take; simpl; lia).
  apply HQ; [done|rewrite splice_length; lia|]. apply cstr_splice; [apply Forall_take, Hw|lia].
Qed.
Lemma wp_grabtok s b i l w (Q : cptr * Z → bytes → Prop) : blocks s !! b = Some l → cstr l i w →
  (∀ x v p l', w = x ++ v → c ∉ x → (v = [] ∨ head v = Some c) → blocks s !! p = None → cstr l' 0 x →
    Q (p +> 0, Z.of_nat (length x)) (put p l' s)) → wp (grabtok (b +> i) c) Q s.
Proof using HP Hc.
  intros Hb Hw HQ. unfold grabtok. apply wp_bind. eapply wp_room; [done|]. pose proof (cstr_length _ _ _ Hw).
  apply wp_bind. apply (wp_token_len c Hc _ s b i l w 0); [done..|lia|]. intros x v -> Hx Hv. simpl plus.
  rewrite length_app in *.
  apply (wp_copied _ (length x) s b i l (x ++ v)); [done..|rewrite length_app; lia|].
  intros p l' Hp _ Hl'. apply wp_ret. rewrite take_app_length in Hl'. by eapply HQ.
Qed.

Lemma wp_tokenize_loop fuel s b i l w acc (Q : list cptr → bytes → Prop) : blocks s !! b = Some l → cstr l i w →
  last w ≠ Some c → (length w < fuel)%nat →
  (∀ new s', grown s s' new → tokens_at s' new (fields c w) → Q (acc ++ new) s') →
  wp (tokenize_loop fuel (b +> i) c acc) Q s.
Proof using HP Hc.
  revert s i w acc. induction fuel as [|fuel IH]; intros s i w acc Hb Hw Hla Hf HQ; [lia|]. simpl. apply wp_bind.
  destruct (decide (w = [])) as [->|Hne].
  - apply cstr_0 in Hw. eapply wp_lb; [done..|]. rewrite bool_decide_true by done. apply wp_ret.
    rewrite <- (app_nil_r acc). apply HQ; [apply grown_0|constructor].
  - assert (Hx : ∃ a w', w = a :: w') by (destruct w as [|a w']; [done|by exists a, w']). destruct Hx as (a & w' & ->).
    pose proof Hw as (Ha & Hr & _)%cstr_cons. eapply wp_lb; [done..|]. rewrite bool_decide_false by lia.
    apply wp_bind, wp_grow, wp_bind. eapply wp_room; [done|]. pose proof (cstr_length _ _ _ Hw) as Hlen.
    apply wp_bind. eapply (wp_skip_loop c Hc); [done..|lia|]. intros k v Ev Hv.
    rewrite Ev in Hw. apply cstr_app in Hw. rewrite length_replicate in Hw. apply wp_bind.
    eapply wp_grabtok; [done..|]. intros x u p l' -> Hx Hu Hp Hl'.
    assert (Hxne : x ≠ []).
    { intros ->. simpl in Ev. destruct Hu as [->|Hu]; [|done]. destruct Hla. rewrite Ev, app_nil_r.
      destruct k; [done|]. by rewrite replicate_S_end, last_snoc. }
    rewrite padd_nat. apply cstr_app in Hw. rewrite Ev, fields_seps, fields_word in HQ by done.
    assert (Hbp : b ≠ p) by congruence.
    apply (IH (put p l' s) _ u); [unfold put; simpl; by rewrite lookup_insert_ne|done| | |].
    + intros E. apply Hla. rewrite Ev. by rewrite !last_app, E.
    + apply (f_equal length) in Ev. rewrite !length_app in Ev. destruct x; [done|]. simpl in *. lia.
    + intros new s' Hg Ht. rewrite <- app_assoc. simpl. apply HQ; [by eapply grown_cons|].
      constructor; [|done]. split; [done|]. simpl. eapply string_at_sub; [apply Hg|]. exists l'. split; [apply lookup_insert_eq|done].
Qed.
End tokens.

Lemma fault_bind {S A B} (m : M S A) (f : A → M S B) s : wp m (λ a s', f a s' = Fault) s → (m ≫= f) s = Fault.
Proof. intros (a & s' & E & H)%wp_exec. unfold mbind, M_bind. by rewrite E. Qed.
Lemma trim_decompose (c : Z) (w : list Z) : ∃ (u : list Z) k, w = u ++ replicate k c ∧ last u ≠ Some c.
Proof.
  induction w as [|a w IH] using rev_ind; [by exists [], 0%nat|]. destruct (decide (a = c)) as [->|Hne].
  - destruct IH as (u & k & -> & Hu). exists u, (S k). split; [|done]. by rewrite replicate_S_end, app_assoc.
  - exists (w ++ [a]), 0%nat. rewrite app_nil_r, last_snoc. split; [done|congruence].
Qed.
Lemma fields_none (c : Z) (u : list Z) k : last u ≠ Some c → fields c (u ++ replicate k c) = [] → u = [].
Proof.
  rewrite fields_trim. intros Hl Hf. destruct (decide (u = [])) as [|Hne]; [done|].
  assert (Hx : ∃ j v, u = replicate j c ++ v ∧ head v ≠ Some c).
  { clear. induction u as [|a u IH]; [by exists 0%nat, []|]. destruct (decide (a = c)) as [->|Ha].
    - destruct IH as (j & v & -> & Hv). by exists (S j), v.
    - exists 0%nat, (a :: u). simpl. split; [done|congruence]. }
  destruct Hx as (j & v & -> & Hv). rewrite fields_seps in Hf. destruct v as [|a v].
  - rewrite app_nil_r in *. destruct j as [|j]; [done|]. by rewrite replicate_S_end, last_snoc in Hl.
  - assert (Hy : ∃ x y, a :: v = x ++ y ∧ x ≠ [] ∧ c ∉ x ∧ (y = [] ∨ head y = Some c)).
    { clear Hl Hf Hne. assert (a ≠ c) as Ha by (simpl in Hv; congruence). clear Hv. revert a Ha. induction v as [|b v IH]; intros a Ha.
      - exists [a], []. split_and!; [done|done|set_solver|by left].
      - destruct (decide (b = c)) as [->|Hb].
        + exists [a], (c :: v). split_and!; [done|done|set_solver|by right].
        + destruct (IH b Hb) as (x & y & E & Hx & Hcx & Hy). exists (a :: x), y. rewrite E. split_and!; [done|done|set_solver|done]. }
    destruct Hy as (x & y & E & Hx & Hcx & Hy). rewrite E, fields_word in Hf by done. done.
Qed.
Lemma trim_faults c fuel s b l k : 0 < c < 128 → blocks s !! b = Some l → cstr l 0 (replicate k c) → (k < fuel)%nat →
  trim_loop fuel (b, Z.of_nat k - 1) c s = Fault.
Proof.
  intros Hc. revert s l fuel. induction k as [|k IH]; intros s l fuel Hb Hw Hf; (destruct fuel as [|fuel]; [lia|]); simpl.
  - unfold mbind, M_bind, lb. simpl. by rewrite Hb.
  - replace (Z.of_nat (S k) - 1) with (Z.of_nat k) by lia. change (c :: replicate k c) with (replicate (S k) c) in Hw.
    rewrite replicate_S_end in Hw.
    assert (Ha : l !! k = Some c) by (apply (cs_in _ _ _ Hw k); rewrite lookup_snoc_Some; right; by rewrite length_replicate).
    apply fault_bind. eapply wp_lb; [done..|]. rewrite bool_decide_true by (split; [lia|by apply schar_eq; [|lia|]]).
    apply fault_bind. eapply wp_sb_byte; [done..|by apply lookup_lt_Some in Ha|].
    apply cstr_cut in Hw. rewrite length_replicate in Hw. eapply IH; [apply lookup_insert_eq|done|lia].
Qed.

Lemma grown_delete s s' p l new : blocks s !! p = None → grown (put p l s) s' new → grown s (Bytes (delete p (blocks s'))) new.
Proof.
  intros Hp [H1 H2 H3 H4].
  assert (Hn : p ∉ new.*1).
  { intros (t & -> & Ht)%list_elem_of_fmap. eapply Forall_forall in H3; [|exact Ht]. unfold put in H3. simpl in H3.
    by rewrite lookup_insert_eq in H3. }
  split; [| | |done]; simpl.
  - apply map_subseteq_spec. intros q x Hq. rewrite lookup_delete_ne by congruence.
    eapply lookup_weaken; [|exact H1]. unfold put. simpl. rewrite lookup_insert_ne by congruence. done.
  - rewrite dom_delete_L, H2. unfold put. simpl. rewrite dom_insert_L. apply not_elem_of_dom in Hp. set_solver.
  - eapply Forall_impl; [exact H3|]. intros [q j]. unfold put. simpl. intros H'. by apply lookup_insert_None in H' as [H' _].
Qed.
Lemma tokens_at_delete s s' p l new ws : grown (put p l s) s' new → tokens_at s' new ws → tokens_at (Bytes (delete p (blocks s'))) new ws.
Proof.
  intros [_ _ H3 _] Ht. unfold tokens_at in *. induction Ht as [|[q j] w new ws [Hj (lw & Hq & Hw)] Ht IH]; [constructor|].
  apply Forall_cons in H3 as [Hn H3]. constructor; [|by apply IH]. split; [done|]. exists lw. split; [|done]. simpl in *.
  rewrite lookup_delete_ne; [done|]. intros ->. unfold put in Hn. simpl in Hn. by rewrite lookup_insert_eq in Hn.
Qed.

Section tokenize.
Context `{!ByteAlloc} {HP : Plenty} (c : Z) (Hc : 0 < c < 128).

(** The common start: the string is copied to a new block. *)
Definition tokenize_rest (buf : cptr) : M bytes (option (list cptr)) :=
  n ← strlen buf;
  fuel ← room buf;
  trim_loop fuel (padd buf (n - 1)) c;;
  tokens ← tokenize_loop fuel buf c [];
  grow (Z.of_nat (length tokens) + 1);;
  kfree_block buf;;
  mret (Some tokens).
Lemma tokenize_start s b i w : string_at s b i w → ∃ p l, blocks s !! p = None ∧ cstr l 0 w ∧
  tokenize (Some (b +> i)) c s = tokenize_rest (p +> 0) (put p l s).
Proof using HP Hc.
  intros (lw & Hb & Hw). set (copy := (buf ← kmalloc_block (Z.of_nat (length w) + 1); buf ← or_fault buf;
    memset buf 0 (Z.of_nat (length w) + 1);; safestrcpy buf (b +> i) (Z.of_nat (length w) + 1);; mret buf)).
  assert (wp copy (λ r s', ∃ p l, r = p +> 0 ∧ s' = put p l s ∧ blocks s !! p = None ∧ cstr l 0 w) s)
    as (? & ? & Hx & p & l & -> & -> & Hp & Hl)%wp_exec.
  { eapply (wp_copied mret); [done..|]. intros p l Hp _ Hl. rewrite take_ge in Hl by done. apply wp_ret. by exists p, l. }
  assert (Hn : strlen (b +> i) s = Ok (Z.of_nat (length w), s)).
  { assert (wp (strlen (b +> i)) (λ r s', r = Z.of_nat (length w) ∧ s' = s) s) as (? & ? & ? & -> & ->)%wp_exec; [|done].
    by eapply wp_strlen. }
  exists p, l. split; [done|]. split; [done|]. revert Hx. unfold tokenize, tokenize_rest, copy. rewrite bool_decide_false by lia.
  unfold mbind, M_bind, mret, M_ret. rewrite Hn.
  destruct (kmalloc_block _ s) as [[[q|] s1]| | |]; try done. simpl. unfold M_ret.
  destruct (memset q 0 _ s1) as [[? s2]| | |]; try done.
  destruct (safestrcpy q (b +> i) _ s2) as [[? s3]| | |]; try done. intros [= -> ->]. done.
Qed.
Lemma wp_tokenize_rest s p l w (Q : option (list cptr) → bytes → Prop) : blocks s !! p = None → cstr l 0 w → fields c w ≠ [] →
  (∀ toks s', grown s s' toks → tokens_at s' toks (fields c w) → Q (Some toks) s') → wp (tokenize_rest (p +> 0)) Q (put p l s).
Proof using HP Hc.
  intros Hp Hw Hf HQ. unfold tokenize_rest. assert (Hb : blocks (put p l s) !! p = Some l) by apply lookup_insert_eq.
  pose proof (cstr_length _ _ _ Hw) as Hlen. simpl in Hlen.
  apply wp_bind. eapply wp_strlen; [done..|]. apply wp_bind. eapply wp_room; [done|].
  destruct (trim_decompose c w) as (u & k & -> & Hla). rewrite fields_trim in *.
  assert (Hu : u ≠ []) by (intros ->; done). rewrite length_app, length_replicate in *.
  apply wp_bind. change (padd (p +> 0) ?x) with (p, x).
  eapply (wp_trim_loop c Hc); [done..|lia|]. intros l' Hl' Hc'. rewrite put_put.
  pose proof (cstr_length _ _ _ Hc') as Hlen'. simpl in Hlen'.
  apply wp_bind. eapply (wp_tokenize_loop c Hc _ _ p 0 l' u []); [apply lookup_insert_eq|done|done|lia|].
  intros new s' Hg Ht. rewrite app_nil_l. apply wp_bind, wp_grow, wp_bind. unfold kfree_block. rewrite bool_decide_true by done.
  apply wp_kfree.
  { destruct Hg as [Hsub _ _ _]. exists l'. eapply lookup_weaken; [|exact Hsub]. apply lookup_insert_eq. }
  apply wp_ret. apply HQ; [by eapply grown_delete|by eapply tokens_at_delete].
Qed.
Lemma tokenize_rest_faults s p l w : cstr l 0 w → fields c w = [] → tokenize_rest (p +> 0) (put p l s) = Fault.
Proof using HP Hc.
  intros Hw Hf. unfold tokenize_rest. assert (Hb : blocks (put p l s) !! p = Some l) by apply lookup_insert_eq.
  pose proof (cstr_length _ _ _ Hw) as Hlen. simpl in Hlen.
  destruct (trim_decompose c w) as (u & k & -> & Hla). assert (u = []) as -> by (by eapply fields_none). simpl in *.
  apply fault_bind. eapply wp_strlen; [done..|]. apply fault_bind. eapply wp_room; [done|].
  unfold mbind, M_bind. change (padd (p +> 0) ?x) with (p, x). rewrite length_replicate in *.
  erewrite trim_faults; [done|done|done|done|lia].
Qed.
End tokenize.

(** [canonicalize_path] splits a path at the slashes: it returns new strings with the
    non-empty pieces of the path in order, and leaves nothing else allocated and no
    other memory changed.  On a path without a single piece (the empty path or "/") it
    reads in front of its buffer. *)
Theorem canonicalize_path_correct `{!ByteAlloc} `{!Plenty} s b i w : string_at s b i w →
  if decide (fields 47 w = []) then canonicalize_path (Some (b +> i)) s = Fault
  else ∃ toks s', canonicalize_path (Some (b +> i)) s = Ok (Some toks, s') ∧
    tokens_at s' toks (fields 47 w) ∧ grown s s' toks.
Proof.
  intros Hw. destruct (tokenize_start 47 ltac:(lia) s b i w Hw) as (p & l & Hp & Hl & E). unfold canonicalize_path. rewrite E.
  case_decide as Hf; [by eapply (tokenize_rest_faults 47 ltac:(lia))|].
  enough (wp (tokenize_rest 47 (p +> 0)) (λ r s', ∃ toks, r = Some toks ∧ tokens_at s' toks (fields 47 w) ∧ grown s s' toks)
    (put p l s)) as (? & s' & Hx & toks & -> & ?)%wp_exec by (by exists toks, s').
  eapply (wp_tokenize_rest 47 ltac:(lia)); [done..|]. intros toks s' Hg Ht. by exists toks.
Qed.

(** ** Numbers *)

(** The digits of [n] in base [b], [k] of them, as characters. *)
Definition digit_char (d : Z) : Z := nth (Z.to_nat d) digits 0.
Fixpoint numeral (k : nat) (b n : Z) : list Z :=
  match k with O => [] | S k => numeral k b (n / b) ++ [digit_char (n mod b)] end.
(** [n] has [k] digits. *)
Definition ndigits (k : nat) (b n : Z) : Prop := (0 < k)%nat ∧ 0 ≤ n < b ^ Z.of_nat k ∧ (k = 1%nat ∨ b ^ (Z.of_nat k - 1) ≤ n).

Lemma numeral_length k b n : length (numeral k b n) = k.
Proof. revert n. induction k as [|k IH]; intros n; simpl; [done|]. rewrite length_app, IH. simpl. lia. Qed.
Lemma digit_char_range d : 0 ≤ d < 16 → 0 < digit_char d < 256.
Proof.
  intros. assert (d ∈ seqZ 0 16) as Hd by (apply elem_of_seqZ; lia). revert d H Hd.
  assert (Forall (λ d, 0 < digit_char d < 256) (seqZ 0 16)) as Hf by (repeat constructor).
  intros d _ Hd. by apply (proj1 (Forall_forall _ _) Hf).
Qed.
Lemma numeral_chars k b n : 2 ≤ b ≤ 16 → Forall (λ c, 0 < c < 256) (numeral k b n).
Proof.
  intros Hb. revert n. induction k as [|k IH]; intros n; simpl; [done|]. apply Forall_app. split; [done|].
  constructor; [|done]. apply digit_char_range. pose proof (Z.mod_pos_bound n b). lia.
Qed.
Lemma ndigits_exists b n : 2 ≤ b → 0 ≤ n < 2 ^ 31 → ∃ k, (k ≤ 31)%nat ∧ ndigits k b n.
Proof.
  intros Hb. assert (∀ j n, 0 ≤ n < 2 ^ Z.of_nat j → ∃ k, (0 < k ≤ Nat.max 1 j)%nat ∧ ndigits k b n) as Hk.
  { induction j as [|j IH]; intros m Hm.
    - exists 1%nat. split; [lia|]. split; [lia|]. rewrite Z.pow_1_r. split; [|by left]. simpl in Hm. lia.
    - destruct (decide (m < b)).
      + exists 1%nat. split; [lia|]. split; [lia|]. rewrite Z.pow_1_r. split; [lia|by left].
      + destruct (IH (m / b)) as (k & Hkr & H1 & H2 & H3).
        { split; [apply Z.div_pos; lia|]. apply Z.div_lt_upper_bound; [lia|]. rewrite Nat2Z.inj_succ, Z.pow_succ_r in Hm by lia. nia. }
        assert (0 < j)%nat.
        { destruct j; [|lia]. simpl in Hm. lia. }
        exists (S k). split; [lia|]. split; [lia|]. rewrite Nat2Z.inj_succ, Z.pow_succ_r by lia. split.
        * pose proof (Z.div_mod m b). pose proof (Z.mod_pos_bound m b). nia.
        * right. replace (Z.succ (Z.of_nat k) - 1) with (Z.succ (Z.of_nat k - 1)) by lia. rewrite Z.pow_succ_r by lia.
          pose proof (Z.mul_div_le m b). destruct H3 as [->|H3]; [rewrite Z.pow_0_r; lia|nia]. }
  intros Hn. destruct (Hk 31%nat n Hn) as (k & ? & ?). exists k. split; [lia|done].
Qed.
Lemma ndigits_div k b n : 2 ≤ b → ndigits k b n → (n / b = 0 ↔ k = 1%nat) ∧ (k ≠ 1%nat → ndigits (k - 1) b (n / b)).
Proof.
  intros Hb (Hk & Hn & Hd). split.
  - split; [|intros ->; rewrite Z.pow_1_r in Hn; by apply Z.div_small].
    intros Hz%Z.div_small_iff; [|lia]. destruct Hd as [->|Hd]; [done|]. destruct k as [|[|k]]; [lia|done|].
    exfalso. replace (Z.of_nat (S (S k)) - 1) with (Z.succ (Z.of_nat k)) in Hd by lia. rewrite Z.pow_succ_r in Hd by lia.
    pose proof (Z.pow_pos_nonneg b (Z.of_nat k)). nia.
  - intros Hk1. destruct Hd as [->|Hd]; [done|]. split; [lia|].
    replace (Z.of_nat k) with (Z.succ (Z.of_nat (k - 1))) in Hn by lia. rewrite Z.pow_succ_r in Hn by lia.
    split; [split; [apply Z.div_pos; lia|apply Z.div_lt_upper_bound; lia]|].
    destruct (decide (k - 1 = 1)%nat); [by left|]. right. apply Z.div_le_lower_bound; [lia|].
    replace (b * b ^ (Z.of_nat (k - 1) - 1)) with (b ^ (Z.of_nat k - 1)); [done|]. rewrite <- Z.pow_succ_r by lia. f_equal. lia.
Qed.

Lemma wp_count_digits fuel k n b p i (Q : cptr → bytes → Prop) s : 2 ≤ b → ndigits k b n → (k ≤ fuel)%nat →
  Q (p +> (i + k)) s → wp (count_digits fuel n b (p +> i)) Q s.
Proof.
  intros Hb. revert k n i. induction fuel as [|fuel IH]; intros k n i Hd Hf HQ; [destruct Hd; lia|]. simpl.
  rewrite bool_decide_false by lia. pose proof Hd as (Hk & Hn & _). rewrite Z.quot_div_nonneg by lia.
  destruct (ndigits_div k b n Hb Hd) as [H1 H2]. rewrite padd_S. case_bool_decide as E.
  - apply H1 in E as ->. apply wp_ret. by rewrite Nat.add_1_r in HQ.
  - assert (k ≠ 1)%nat by (intros ->; by apply E, H1). apply (IH (k - 1)%nat); [by apply H2|lia|].
    by replace (S i + (k - 1))%nat with (i + k)%nat by lia.
Qed.
Lemma wp_digit d (Q : Z → bytes → Prop) s : 0 ≤ d < 16 → Q (digit_char d) s → wp (digit d) Q s.
Proof.
  intros Hd HQ. eapply wp_eq; [|exact HQ]. unfold digit. simpl. rewrite option_guard_True by lia. unfold digit_char.
  destruct (digits !! Z.to_nat d) as [c|] eqn:E; [by erewrite nth_lookup_Some by done|].
  apply lookup_ge_None in E. simpl in E. lia.
Qed.
Lemma splice_insert l i w c : (i + length w < length l)%nat →
  splice (<[(i + length w)%nat := c]> l) i w = <[(i + length w)%nat := c]> (splice l i w).
Proof.
  intros Hi. unfold splice. rewrite take_insert_ge, drop_insert_ge by lia.
  rewrite (insert_app_r_alt (take i l)), length_take, Nat.min_l by (rewrite ?length_take; lia).
  rewrite insert_app_r_alt by lia. do 3 f_equal. lia.
Qed.
Lemma wp_put_digits fuel k n b p i l (Q : unit → bytes → Prop) s : 2 ≤ b ≤ 16 → ndigits k b n → (k ≤ fuel)%nat →
  blocks s !! p = Some l → (i + k < length l)%nat →
  Q tt (put p (splice l i (numeral k b n)) s) → wp (put_digits fuel n b (p +> (i + k))) Q s.
Proof.
  intros Hb. revert k n l s. induction fuel as [|fuel IH]; intros k n l s Hd Hf Hl Hi HQ; [destruct Hd; lia|]. simpl.
  pose proof Hd as (Hk & Hn & _). destruct k as [|k]; [lia|]. rewrite <- plus_n_Sm, padd_pred.
  rewrite Z.rem_mod_nonneg, Z.quot_div_nonneg by lia. pose proof (Z.mod_pos_bound n b).
  destruct (ndigits_div (S k) b n ltac:(lia) Hd) as [H1 H2]. simpl in H2. rewrite Nat.sub_0_r in H2.
  apply wp_bind, wp_digit; [lia|]. pose proof (digit_char_range (n mod b) ltac:(lia)).
  apply wp_bind. eapply wp_sb_byte; [unfold is_byte; lia|done|lia|].
  case_bool_decide as E.
  - apply H1 in E as [= ->]. apply wp_ret. simpl in HQ. rewrite Nat.add_0_r. rewrite <- splice_cons, splice_nil in HQ by lia. done.
  - assert (k ≠ 0)%nat by (intros ->; by apply E, H1).
    apply (IH k _ (<[(i + k)%nat := digit_char (n mod b)]> l)); [by apply H2; lia|lia|apply lookup_insert_eq|rewrite length_insert; lia|].
    rewrite put_put. simpl in HQ. pose proof (numeral_length k b (n / b)) as Hnl.
    pose proof (splice_insert l i (numeral k b (n / b)) (digit_char (n mod b)) ltac:(lia)) as E'. rewrite Hnl in E'. rewrite E'.
    rewrite <- splice_snoc, Hnl in HQ by lia. done.
Qed.

Lemma wp_itostr s p l i k b n (Q : unit → bytes → Prop) : 2 ≤ b ≤ 16 → 0 ≤ n → (k ≤ 32)%nat → ndigits k b n →
  blocks s !! p = Some l → (i + k < length l)%nat → Q tt (put p (splice l i (numeral k b n ++ [0])) s) →
  wp (itostr (p +> i) n b) Q s.
Proof.
  intros Hb Hn Hk Hd Hl Hi HQ. pose proof (numeral_length k b n) as Hnl.
  unfold itostr. rewrite bool_decide_false by lia. apply wp_bind, wp_ret, wp_bind.
  apply (wp_count_digits _ k); [lia|done|done|]. apply wp_bind. eapply wp_sb_byte; [done..|lia|].
  eapply (wp_put_digits _ k); [done..|apply lookup_insert_eq|rewrite length_insert; lia|]. rewrite put_put.
  pose proof (splice_insert l i (numeral k b n) 0 ltac:(lia)) as E. rewrite Hnl in E. rewrite E.
  rewrite <- splice_snoc, Hnl in HQ by lia. done.
Qed.
Definition value (w : list Z) (val : Z) : Z := foldl (λ v c, v * 10 + (c - 48)) val w.
Definition decimal (c : Z) : Prop := 48 ≤ c ≤ 57.
Lemma value_le w v : Forall decimal w → 0 ≤ v → v ≤ value w v.
Proof.
  intros Hw. revert v. induction Hw as [|c w Hc Hw IH]; intros v Hv; simpl; [lia|]. unfold decimal in Hc. simpl.
  specialize (IH (v * 10 + (c - 48)) ltac:(lia)). change (v ≤ value w (v * 10 + (c - 48))). lia.
Qed.
Lemma wp_atoi_loop fuel s b i l w v (Q : Z → bytes → Prop) : blocks s !! b = Some l → cstr l i w → Forall decimal w →
  (length w < fuel)%nat → 0 ≤ v → value w v < 2 ^ 31 → Q (value w v) s → wp (atoi_loop fuel (b +> i) v) Q s.
Proof.
  intros Hb. revert i w v. induction fuel as [|fuel IH]; intros i w v Hw Hd Hf Hv Hlt HQ; [lia|]. simpl. apply wp_bind. destruct w as [|c w].
  - apply cstr_0 in Hw. eapply wp_lb; [done..|]. rewrite bool_decide_false by tauto. by apply wp_ret.
  - apply cstr_cons in Hw as (Hc & Hr & Hw). apply Forall_cons in Hd as [Hdc Hd]. unfold decimal in Hdc. eapply wp_lb; [done..|].
    assert (schar c = c) as -> by (unfold schar; by rewrite bool_decide_true by lia). rewrite bool_decide_true by lia. rewrite padd_S.
    pose proof (value_le w (v * 10 + (c - 48)) Hd ltac:(lia)). unfold value in *. simpl in Hlt, HQ.
    rewrite !i32_small by (rewrite ?i32_small; lia). apply (IH _ w); [done..|simpl in Hf; lia|lia|done|done].
Qed.
Lemma wp_atoi s b i l w (Q : Z → bytes → Prop) : blocks s !! b = Some l → cstr l i w → Forall decimal w →
  value w 0 < 2 ^ 31 → Q (value w 0) s → wp (atoi (Some (b +> i))) Q s.
Proof.
  intros Hb Hw Hd Hlt HQ. unfold atoi. apply wp_bind. eapply wp_room; [done|]. pose proof (cstr_length _ _ _ Hw).
  eapply wp_atoi_loop; [done..|lia|lia|done|done].
Qed.
Lemma decimal_digit d : 0 ≤ d < 10 → digit_char d = 48 + d.
Proof.
  intros. assert (d ∈ seqZ 0 10) as Hd by (apply elem_of_seqZ; lia).
  assert (Forall (λ d, digit_char d = 48 + d) (seqZ 0 10)) as Hf by (repeat constructor). by apply (proj1 (Forall_forall _ _) Hf).
Qed.
Lemma numeral_decimal k n : Forall decimal (numeral k 10 n).
Proof.
  revert n. induction k as [|k IH]; intros n; simpl; [done|]. apply Forall_app. split; [done|]. constructor; [|done].
  pose proof (Z.mod_pos_bound n 10). unfold decimal. rewrite decimal_digit; lia.
Qed.
Lemma numeral_value k n : 0 ≤ n < 10 ^ Z.of_nat k → value (numeral k 10 n) 0 = n.
Proof.
  revert n. induction k as [|k IH]; intros n Hn; [simpl in *; lia|]. rewrite Nat2Z.inj_succ, Z.pow_succ_r in Hn by lia.
  simpl. unfold value. rewrite foldl_app. simpl. fold (value (numeral k 10 (n / 10)) 0). rewrite IH.
  - rewrite decimal_digit by (apply Z.mod_pos_bound; lia). pose proof (Z.div_mod n 10). lia.
  - split; [apply Z.div_pos; lia|apply Z.div_lt_upper_bound; lia].
Qed.

(** C34: [itostr] writes the digits of a non-negative number in a base from 2 to 16, most
    significant first and without leading zeros, and a NUL; [atoi] reads the number
    back from them when the base is 10. *)
Theorem itostr_atoi s p l i b n : 2 ≤ b ≤ 16 → 0 ≤ n < 2 ^ 31 → blocks s !! p = Some l → (i + 32 ≤ length l)%nat →
  ∃ k l', ndigits k b n ∧ itostr (p +> i) n b s = Ok (tt, put p l' s) ∧ cstr l' i (numeral k b n) ∧
    (b = 10 → atoi (Some (p +> i)) (put p l' s) = Ok (n, put p l' s)).
Proof.
  intros Hb Hn Hl Hi. destruct (ndigits_exists b n ltac:(lia) Hn) as (k & Hk & Hd). pose proof (numeral_length k b n) as Hnl.
  set (l' := splice l i (numeral k b n ++ [0])).
  assert (Hc : cstr l' i (numeral k b n)) by (apply cstr_splice; [by apply numeral_chars|rewrite length_app; simpl; lia]).
  assert (wp (itostr (p +> i) n b) (λ _ s', s' = put p l' s) s) as ([] & ? & Hx & ->)%wp_exec by (apply (wp_itostr s p l i k b n); (done || lia)).
  exists k, l'. split; [done|]. split; [done|]. split; [done|]. intros ->.
  assert (wp (atoi (Some (p +> i))) (λ r s', r = n ∧ s' = put p l' s) (put p l' s)) as (? & ? & -> & -> & ->)%wp_exec; [|done].
  eapply wp_atoi; [apply lookup_insert_eq|exact Hc|apply numeral_decimal|..]; rewrite numeral_value; (done || apply Hd || lia).
Qed.

(** ** Concatenation *)

Lemma wp_strcpy_loop fuel s bd bs ld ls d sr w (Q : unit → bytes → Prop) : bd ≠ bs → blocks s !! bd = Some ld →
  blocks s !! bs = Some ls → cstr ls sr w → (length w < fuel)%nat → (d + length w < length ld)%nat →
  Q tt (put bd (splice ld d (w ++ [0])) s) → wp (strcpy_loop fuel (bd +> d) (bs +> sr)) Q s.
Proof.
  intros Hne. revert s ld d sr w. induction fuel as [|fuel IH]; intros s ld d sr w Hd Hs Hw Hf Hl HQ; [lia|]. simpl.
  apply wp_bind. destruct w as [|c w].
  - apply cstr_0 in Hw. eapply wp_lb; [done..|]. apply wp_bind. eapply wp_sb_byte; [done..|simpl in Hl; lia|].
    rewrite bool_decide_true by done. apply wp_ret. simpl in HQ, Hl. by rewrite <- splice_cons, splice_nil in HQ by lia.
  - apply cstr_cons in Hw as (Hc & Hr & Hw). eapply wp_lb; [done..|]. simpl in Hf, Hl. apply wp_bind.
    eapply wp_sb_byte; [unfold is_byte; lia|done|lia|]. rewrite bool_decide_false by lia. rewrite !padd_S.
    apply (IH _ (<[d := c]> ld) _ _ w); [apply lookup_insert_eq|by unfold put; simpl; rewrite lookup_insert_ne|done|lia|rewrite length_insert; lia|].
    rewrite put_put, splice_cons by lia. done.
Qed.
Lemma cstr_here w r : Forall (λ c, 0 < c < 256) w → cstr (w ++ 0 :: r) 0 w.
Proof. intros Hw. split; [|by rewrite lookup_app_r, Nat.sub_diag by done|done]. intros j c Hj. by apply lookup_app_l_Some. Qed.
Lemma wp_strcat s bd bs ld ls u w (Q : unit → bytes → Prop) : bd ≠ bs → blocks s !! bd = Some ld → cstr ld 0 u →
  blocks s !! bs = Some ls → cstr ls 0 w → (length u + length w < length ld)%nat →
  (∀ l', length l' = length ld → cstr l' 0 (u ++ w) → Q tt (put bd l' s)) → wp (strcat (bd +> 0) (bs +> 0)) Q s.
Proof.
  intros Hne Hd Hu Hs Hw Hl HQ. unfold strcat. apply wp_bind. eapply wp_strlen; [done..|]. apply wp_bind. eapply wp_room; [done|].
  rewrite padd_nat, Nat.add_0_l. pose proof (cstr_length _ _ _ Hw) as Hlw. eapply wp_strcpy_loop; [done..|simpl in *; lia|done|].
  assert (Hlen : length (w ++ [0]) = S (length w)) by (rewrite length_app; simpl; lia).
  apply HQ; [apply splice_length; lia|]. unfold splice. rewrite Hlen.
  assert (take (length u) ld = u) as ->.
  { apply list_eq. intros j. destruct (decide (j < length u)%nat) as [Hj|Hj].
    - rewrite lookup_take_lt by done. apply lookup_lt_is_Some in Hj as [c Hj]. rewrite Hj. by apply (cs_in _ _ _ Hu j).
    - rewrite !lookup_ge_None_2; [done|lia|rewrite length_take; lia]. }
  rewrite <- app_assoc, app_assoc. apply cstr_here. apply Forall_app. split; [apply Hu|apply Hw].
Qed.

(** [combine_strings] returns a new block with the two strings one after the other,
    or NULL when memory has run out; it changes nothing else. *)
Theorem combine_strings_correct `{!ByteAlloc} s b0 b1 w0 w1 : string_at s b0 0 w0 → string_at s b1 0 w1 →
  ∃ r s', combine_strings (Some (b0 +> 0)) (Some (b1 +> 0)) s = Ok (r, s') ∧
    match r with
    | None => s' = s
    | Some p => ∃ l, blocks s !! p.1 = None ∧ p.2 = 0 ∧ s' = put p.1 l s ∧ cstr l 0 (w0 ++ w1)
    end.
Proof.
  intros (l0 & Hb0 & Hw0) (l1 & Hb1 & Hw1). apply wp_exec. unfold combine_strings.
  apply wp_bind. eapply wp_strlen; [done..|]. apply wp_bind. eapply wp_strlen; [done..|].
  set (n := (length w0 + length w1 + 1)%nat).
  replace (Z.of_nat (length w0) + Z.of_nat (length w1) + 1) with (Z.of_nat n) by (unfold n; lia).
  unfold kmalloc_block at 1. destruct (kmalloc_bytes (blocks s) (Z.of_nat n)) as [[p l]|] eqn:E.
  2:{ apply wp_bind. eapply wp_eq; [by rewrite E|]. by apply wp_ret. }
  destruct (kmalloc_bytes_fresh _ _ _ _ E) as [Hp Hl].
  apply wp_bind. eapply wp_eq; [by rewrite E|]. fold (put p l s). change (p, 0) with (p +> 0).
  assert (Hne0 : p ≠ b0) by congruence. assert (Hne1 : p ≠ b1) by congruence.
  apply wp_bind. unfold memset. rewrite Nat2Z.id. apply wp_bind. eapply wp_memset_loop; [done|apply lookup_insert_eq|lia|].
  rewrite put_put. apply wp_ret. assert (splice l 0 (replicate n 0) = replicate n 0) as ->.
  { unfold splice. rewrite length_replicate, drop_ge, app_nil_r by lia. done. }
  assert (Hz : cstr (replicate n 0) 0 []) by (apply cstr_nil; unfold n; rewrite Nat.add_1_r; done).
  apply wp_bind. eapply (wp_strcat _ p b0); [done|apply lookup_insert_eq|exact Hz|by unfold put; simpl; rewrite lookup_insert_ne|exact Hw0|rewrite length_replicate; unfold n; simpl; lia|].
  intros l2 Hl2 Hc2. rewrite put_put, length_replicate in *.
  apply wp_bind. eapply (wp_strcat _ p b1); [done|apply lookup_insert_eq|exact Hc2|by unfold put; simpl; rewrite lookup_insert_ne|exact Hw1|simpl; unfold n in *; lia|].
  intros l3 Hl3 Hc3. rewrite put_put. apply wp_ret. exists l3. done.
Qed.

(** ** Examples *)

Program Definition bytes_total : ByteAlloc := {|
  kmalloc_bytes h n := Some (fresh (dom h), replicate (Z.to_nat n) 7);
  krealloc_array _ _ := true;
|}.
Next Obligation. intros h n p l [= <- <-]. split; [apply not_elem_of_dom, is_fresh|]. rewrite length_replicate. lia. Qed.
Lemma bytes_total_plenty : @Plenty bytes_total.
Proof. split; [by intros; eexists|done]. Qed.

(** Block 1 holds "/usr//bin/", block 2 "usb". *)
Definition path_block : list Z := [47; 117; 115; 114; 47; 47; 98; 105; 110; 47; 0].
Definition word_block : list Z := [117; 115; 98; 0; 1; 2; 3; 4; 5; 6; 7; 8].
Definition blk1 : loc := 1%positive.
Definition blk2 : loc := 2%positive.
Definition blk3 : loc := 3%positive.
Definition demo_bytes : bytes := Bytes {[blk1 := path_block; blk2 := word_block]}.
Lemma path_cstr : cstr path_block 0 (take 10 path_block).
Proof. apply (cstr_here (take 10 path_block) []). repeat constructor. Qed.
Lemma word_cstr : cstr word_block 0 [117; 115; 98].
Proof. apply (cstr_here [117; 115; 98] [1; 2; 3; 4; 5; 6; 7; 8]). repeat constructor. Qed.

Lemma memmove_correct_witness : ∃ l, memmove (blk1 +> 3) (blk1 +> 1) (Z.of_nat 6) demo_bytes =
  Ok (blk1 +> 3, put blk1 l demo_bytes) ∧ l = [47; 117; 115; 117; 115; 114; 47; 47; 98; 47; 0].
Proof.
  eexists. split; [apply (memmove_correct demo_bytes blk1 blk1 path_block path_block 3 1 6)|reflexivity]; [|reflexivity|reflexivity|simpl; lia|simpl; lia].
  repeat (apply Forall_cons; split; [unfold is_byte; lia|]). apply Forall_nil. exact I.
Defined.
Lemma strcmp_correct_witness : ∃ r, strcmp (blk1 +> 1) (blk2 +> 0) demo_bytes = Ok (r, demo_bytes) ∧
  r = 16 ∧ ¬ lex_lt [117; 115; 114; 47; 47; 98; 105; 110; 47] [117; 115; 98].
Proof.
  destruct (strcmp_correct demo_bytes blk1 blk2 1 0 [117; 115; 114; 47; 47; 98; 105; 110; 47] [117; 115; 98]) as (r & H1 & _ & H2).
  - exists path_block. split; [reflexivity|]. exact (proj2 (proj2 (proj1 (cstr_cons _ _ _ _) path_cstr))).
  - exists word_block. split; [reflexivity|apply word_cstr].
  - exists r. split; [exact H1|]. assert (r = 16) as -> by (vm_compute in H1; congruence). split; [reflexivity|]. rewrite <- H2. lia.
Defined.
Lemma safestrcpy_correct_witness : ∃ l, safestrcpy (blk2 +> 4) (blk1 +> 0) (Z.of_nat 5) demo_bytes =
  Ok (blk2 +> 4, put blk2 l demo_bytes) ∧ cstr l 4 [47; 117; 115; 114].
Proof.
  destruct (safestrcpy_correct demo_bytes blk2 blk1 word_block path_block 4 0 (take 10 path_block) 5) as (r & _ & H2 & H3);
    [done|reflexivity|reflexivity|apply path_cstr|lia|simpl; lia|].
  eexists. split; [exact H2|exact H3].
Defined.
Lemma canonicalize_path_correct_witness : ∃ toks s', @canonicalize_path bytes_total (Some (blk1 +> 0)) demo_bytes = Ok (Some toks, s') ∧
  tokens_at s' toks [[117; 115; 114]; [98; 105; 110]] ∧ grown demo_bytes s' toks.
Proof.
  pose proof (@canonicalize_path_correct bytes_total bytes_total_plenty demo_bytes blk1 0 (take 10 path_block)) as H.
  assert (E : fields 47 (take 10 path_block) = [[117; 115; 114]; [98; 105; 110]]) by reflexivity.
  rewrite E in H. rewrite decide_False in H by done. apply H. exists path_block. split; [reflexivity|apply path_cstr].
Defined.
Lemma itostr_atoi_witness : ∃ k l', ndigits k 10 1984 ∧
  itostr (blk3 +> 0) 1984 10 (Bytes {[blk3 := replicate 40 0]}) = Ok (tt, put blk3 l' (Bytes {[blk3 := replicate 40 0]})) ∧
  atoi (Some (blk3 +> 0)) (put blk3 l' (Bytes {[blk3 := replicate 40 0]})) = Ok (1984, put blk3 l' (Bytes {[blk3 := replicate 40 0]})).
Proof.
  destruct (itostr_atoi (Bytes {[blk3 := replicate 40 0]}) blk3 (replicate 40 0) 0 10 1984) as (k & l' & H1 & H2 & _ & H4);
    [lia|lia|reflexivity|rewrite length_replicate; lia|]. exists k, l'. split; [exact H1|]. split; [exact H2|]. apply H4. reflexivity.
Defined.
