(* ===== verification/Sched.v ===== *)
(** * Threads and the scheduler ([kernel/sys/sched], [kernel/sys/threads], [kernel/sys/sleep.c])

    Threads, the queues they are on and the spinlocks this CPU holds.  The queues are
    the FIFO queues that [Queue] implements ([Queue.queue_refines_fifo]): a queue is
    the list of its items, [enqueue] may fail for lack of memory.  A function that
    gives up the CPU is modelled as two: what it does before [swtch] and what it does
    once the thread runs again. *)
From S2P Require Import Prelude.

(** ** Threads, queues, locks *)

Inductive tstate : Type := T_EMBRYO | T_ISLEEP | T_READY | T_RUNNING | T_ZOMBIE | T_STOPPED | T_TERMINATED.
#[global] Instance tstate_eq_dec : EqDecision tstate.
Proof. solve_decision. Defined.

Abbreviation tid := positive.

(** The queues of the scheduler, the queue of a thread group, a queue threads sleep on. *)
Inductive qid : Type :=
| embryo_queue
| zombie_queue
| ready_queue (core level : Z)
| group_queue (g : positive)
| sleep_queue (q : positive).
#[global] Instance qid_eq_dec : EqDecision qid.
Proof. solve_decision. Defined.
#[global] Instance qid_countable : Countable qid.
Proof.
  apply (inj_countable'
    (λ q, match q with
          | embryo_queue => inl (inl true)
          | zombie_queue => inl (inl false)
          | ready_queue c l => inl (inr (c, l))
          | group_queue g => inr (inl g)
          | sleep_queue q => inr (inr q)
          end)
    (λ x, match x with
          | inl (inl true) => embryo_queue
          | inl (inl false) => zombie_queue
          | inl (inr (c, l)) => ready_queue c l
          | inr (inl g) => group_queue g
          | inr (inr q) => sleep_queue q
          end)); by intros [].
Defined.

(** The lock of a queue, of a thread ([t_lock]), of a thread's list of queues
    ([t_queues->lock]), the lock that guards a mutex, condition or event. *)
Inductive lock : Type := QLock (q : qid) | TLock (t : tid) | TQLock (t : tid) | Guard (g : positive).
#[global] Instance lock_eq_dec : EqDecision lock.
Proof. solve_decision. Defined.
#[global] Instance lock_countable : Countable lock.
Proof.
  apply (inj_countable'
    (λ l, match l with QLock q => inl (inl q) | TLock t => inl (inr t) | TQLock t => inr (inl t) | Guard g => inr (inr g) end)
    (λ x, match x with inl (inl q) => QLock q | inl (inr t) => TLock t | inr (inl t) => TQLock t | inr (inr g) => Guard g end));
    by intros [].
Defined.

Definition THREAD_SETPARK : Z := 0x04.
Definition THREAD_SETWAKEUP : Z := 0x08.
Definition THREAD_KILLED : Z := 0x10.
Definition SCHED_SOFT_AFFINITY : Z := 0.
Definition SCHED_HARD_AFFINITY : Z := 1.
Definition SCHED_LOWEST_PRIORITY : Z := 255.
Definition NLEVELS : Z := 8.
Definition SCHED_LEVEL (p : Z) : Z := Z.quot p (Z.quot (SCHED_LOWEST_PRIORITY + 1) NLEVELS).

Record thread : Type := Thread {
  t_state : tstate;
  t_exit : Z;
  t_killer : Z;
  t_flags : Z;
  core : option Z;
  affinity : Z;
  t_priority : Z;
  t_timeslice : Z;
  t_group : option positive;
  t_wait : positive;              (* the condition that is broadcast when it ends *)
  t_queues : list qid;
  sleep_on : option qid;          (* sleep.queue *)
  sleep_guard : option positive;  (* sleep.guard *)
}.

Record mutex : Type := Mutex { m_lock : Z; m_thread : option tid }.

(** Condition [c], mutex [c] or event [c] has the guard [Guard c] and the queue
    [sleep_queue c]; [conds] holds the counts, [events] the flags, [nthreads] the
    number of threads of a group. *)
Record sched : Type := Sched {
  threads : gmap tid thread;
  queues : gmap qid (list tid);
  locks : gset lock;
  nthreads : gmap positive Z;
  conds : gmap positive Z;
  mutexes : gmap positive mutex;
  events : gmap positive Z;
}.
#[global] Program Instance sched_heap : Heap sched thread := {| heap_of := threads; put_heap h s := {| s with threads := h |} |}.
Next Obligation. done. Qed.
Next Obligation. by intros []. Qed.

Definition on_queue (s : sched) (q : qid) : list tid := default [] (queues s !! q).
Definition set_queue (q : qid) (l : list tid) (s : sched) : sched := {| s with queues := <[q := l]> (queues s) |}.

(** [spin_lock], [spin_unlock], [spin_assert_lock] *)
Definition acquire (l : lock) : M sched unit :=
  h ← gets locks; if decide (l ∈ h) then panic else modify (λ s, {| s with locks := {[l]} ∪ locks s |}).
Definition release (l : lock) : M sched unit :=
  h ← gets locks; if decide (l ∈ h) then modify (λ s, {| s with locks := locks s ∖ {[l]} |}) else panic.
Definition assert_held (l : lock) : M sched unit := h ← gets locks; if decide (l ∈ h) then mret tt else panic.
Definition spin_holding (l : lock) : M sched bool := gets (λ s, bool_decide (l ∈ locks s)).

Definition rdt (t : tid) : M sched thread := rd (Some t).
Definition updt (t : tid) (f : thread → thread) : M sched unit := upd (Some t) f.
Definition rdc (c : positive) : M sched Z := λ s, match conds s !! c with Some n => Ok (n, s) | None => Fault end.
Definition setc (c : positive) (n : Z) : M sched unit := modify (λ s, {| s with conds := <[c := n]> (conds s) |}).
Definition has_flag (th : thread) (f : Z) : bool := bool_decide (Z.land (t_flags th) f ≠ 0).

(** [__thread_testflags], [__thread_setflags], [__thread_maskflags] and the tests of
    the state, which want the lock of the thread; [__thread_killed], which takes it. *)
Definition testflags (t : tid) (f : Z) : M sched bool := assert_held (TLock t);; th ← rdt t; mret (has_flag th f).
Definition setflags (t : tid) (f : Z) : M sched unit :=
  assert_held (TLock t);; updt t (λ th, {| th with t_flags := Z.lor (t_flags th) f |}).
Definition maskflags (t : tid) (f : Z) : M sched unit :=
  assert_held (TLock t);; updt t (λ th, {| th with t_flags := Z.ldiff (t_flags th) f |}).
Definition in_state (t : tid) (st : tstate) : M sched bool :=
  assert_held (TLock t);; th ← rdt t; mret (bool_decide (t_state th = st)).
Definition enter_state (t : tid) (st : tstate) : M sched Z :=
  assert_held (TLock t);; updt t (λ th, {| th with t_state := st |});; mret 0.
Definition thread_killed (t : tid) : M sched bool :=
  h ← spin_holding (TLock t);
  (if (h : bool) then mret tt else acquire (TLock t));;
  k ← testflags t THREAD_KILLED;
  (if (h : bool) then mret tt else release (TLock t));;
  mret k.

(** ** Threads on queues *)

Fixpoint remove1 {A} `{EqDecision A} (x : A) (l : list A) : list A :=
  match l with [] => [] | y :: l => if decide (x = y) then l else y :: remove1 x l end.
(** [queue_remove] *)
Definition queue_remove (q : qid) (t : tid) : M sched Z :=
  l ← gets (λ s, on_queue s q);
  if decide (t ∈ l) then modify (set_queue q (remove1 t l));; mret 0 else mret (- ENOENT).

Section enqueue.
(** Whether [enqueue] finds memory for a node. *)
Context (node_ok : sched → bool).

Definition thread_enqueue (q : qid) (t : tid) : M sched Z :=
  acquire (QLock q);;
  acquire (TQLock t);;
  ok ← gets node_ok;
  if negb ok then release (TQLock t);; release (QLock q);; mret (- ENOMEM) else
  modify (λ s, set_queue q (on_queue s q ++ [t]) s);;
  ok ← gets node_ok;
  if negb ok then queue_remove q t;; release (TQLock t);; release (QLock q);; mret (- ENOMEM) else
  updt t (λ th, {| th with t_queues := t_queues th ++ [q] |});;
  release (TQLock t);;
  release (QLock q);;
  mret 0.

Definition thread_dequeue (q : qid) : M sched (option tid) :=
  assert_held (QLock q);;
  l ← gets (λ s, on_queue s q);
  match l with
  | [] => mret None
  | t :: l =>
      modify (set_queue q l);;
      acquire (TLock t);;
      acquire (TQLock t);;
      th ← rdt t;
      if decide (q ∈ t_queues th) then
        updt t (λ th, {| th with t_queues := remove1 q (t_queues th) |});;
        release (TQLock t);;
        mret (Some t)
      else panic
  end.

Definition thread_remove_queue (t : tid) (q : qid) : M sched Z :=
  assert_held (QLock q);;
  assert_held (TLock t);;
  acquire (TQLock t);;
  th ← rdt t;
  if decide (q ∈ t_queues th) then
    updt t (λ th, {| th with t_queues := remove1 q (t_queues th) |});;
    release (TQLock t);;
    queue_remove q t
  else release (TQLock t);; mret (- ENOENT).

(** ** The ready queues *)

(** [cpu], the CPU that runs this code, and [sq->level[i].quatum]. *)
Context (cpu : Z).
Definition quatum (level : Z) : M sched Z := λ s,
  match guard (0 ≤ level);; [50; 75; 100; 125; 150; 175; 200; 250] !! Z.to_nat level with Some z => Ok (z, s) | None => Fault end.

Definition sched_park (t : tid) : M sched Z :=
  assert_held (TLock t);;
  th ← rdt t;
  if decide (t_state th = T_EMBRYO) then thread_enqueue embryo_queue t else
  (if decide (core th = None) then updt t (λ th, {| th with core := Some cpu |}) else mret tt);;
  if decide (affinity th = SCHED_SOFT_AFFINITY ∨ affinity th = SCHED_HARD_AFFINITY) then
    let level := SCHED_LEVEL (t_priority th) in
    z ← quatum level;
    updt t (λ th, {| th with t_timeslice := z |});;
    thread_enqueue (ready_queue (default cpu (core th)) level) t
  else panic.

(** The loop of [sched_next] over the levels. *)
Fixpoint next_level (levels : list Z) : M sched (option tid) :=
  match levels with
  | [] => mret None
  | i :: levels =>
      acquire (QLock (ready_queue cpu i));;
      t ← thread_dequeue (ready_queue cpu i);
      match t with
      | None => release (QLock (ready_queue cpu i));; next_level levels
      | Some t =>
          z ← quatum i;
          updt t (λ th, {| th with t_state := T_RUNNING; t_timeslice := z |});;
          release (QLock (ready_queue cpu i));;
          mret (Some t)
      end
  end.
Definition sched_next : M sched (option tid) :=
  acquire (QLock embryo_queue);;
  t ← thread_dequeue embryo_queue;
  release (QLock embryo_queue);;
  match t with
  | None => mret tt
  | Some t =>
      assert_held (TLock t);;
      updt t (λ th, {| th with t_state := T_READY |});;
      err ← sched_park t;
      kassert (bool_decide (err = 0));;
      release (TLock t)
  end;;
  next_level (seqZ 0 NLEVELS).

Definition sched_set_priority (t : tid) (priority : Z) : M sched unit :=
  assert_held (TLock t);;
  let priority := if bool_decide (priority < 0 ∨ 255 < priority) then SCHED_LOWEST_PRIORITY else priority in
  updt t (λ th, {| th with t_priority := priority |}).
Definition sched_setattr (cpus_online : Z) (t : tid) (aff c : Z) : M sched Z :=
  assert_held (TLock t);;
  if bool_decide (aff < SCHED_SOFT_AFFINITY ∨ SCHED_HARD_AFFINITY < aff) then mret (- EINVAL) else
  if bool_decide (c < 0 ∨ cpus_online - 1 < c) then mret (- EINVAL) else
  updt t (λ th, {| th with affinity := aff; core := Some c |});;
  mret 0.

(** [thread_new] once everything is allocated: the condition, and the thread, which
    starts out locked. *)
Definition thread_init (t : tid) (wait : positive) : M sched unit :=
  setc wait 0;;
  modify (λ s, {| s with threads := <[t := Thread T_EMBRYO 0 0 0 None SCHED_SOFT_AFFINITY 0 0 None wait [] None None]> (threads s) |});;
  acquire (TLock t);;
  sched_set_priority t SCHED_LOWEST_PRIORITY.
(** [kthread_create] of the thread, for the kernel's thread group [g]. *)
Definition kthread_create (t : tid) (wait g : positive) : M sched Z :=
  thread_init t wait;;
  err ← thread_enqueue (group_queue g) t;
  if decide (err ≠ 0) then panic else
  updt t (λ th, {| th with t_group := Some g |});;
  sched_set_priority t SCHED_LOWEST_PRIORITY;;
  err ← sched_park t;
  release (TLock t);;
  mret err.

(** ** Waking up *)

Definition thread_wake_n (t : tid) : M sched Z :=
  assert_held (TLock t);;
  park ← testflags t THREAD_SETPARK;
  (if (park : bool) then setflags t THREAD_SETWAKEUP else mret tt);;
  asleep ← in_state t T_ISLEEP;
  if negb asleep then mret 0 else
  th ← rdt t;
  match sleep_on th with
  | None => panic
  | Some q =>
      took ← (match sleep_guard th with
              | None => mret false
              | Some g =>
                  h ← spin_holding (Guard g);
                  if (h : bool) then mret false else acquire (Guard g);; mret true
              end);
      err ← thread_remove_queue t q;
      (match sleep_guard th with
       | None => mret tt
       | Some g => if (took : bool) then release (Guard g) else mret tt
       end);;
      if decide (err ≠ 0) then mret err else
      err ← enter_state t T_READY;
      if decide (err ≠ 0) then mret err else sched_park t
  end.

(** [woken] is 0 whether a thread was woken or not. *)
Definition xched_wake1 (q : qid) : M sched Z :=
  acquire (QLock q);;
  t ← thread_dequeue q;
  release (QLock q);;
  match t with
  | None => mret 0
  | Some t =>
      assert_held (TLock t);;
      enter_state t T_READY;;
      sched_park t;;
      release (TLock t);;
      mret 0
  end.

Fixpoint wake_each (l : list tid) : M sched unit :=
  match l with
  | [] => mret tt
  | t :: l =>
      acquire (TLock t);;
      err ← thread_wake_n t;
      kassert (bool_decide (err = 0));;
      release (TLock t);;
      wake_each l
  end.
Definition xched_wakeall (q : qid) : M sched Z :=
  acquire (QLock q);;
  l ← gets (λ s, on_queue s q);
  wake_each l;;
  release (QLock q);;
  mret (Z.of_nat (length l)).

(** ** Condition variables: waking *)

Definition cond_signal (c : positive) : M sched unit :=
  acquire (Guard c);;
  xched_wake1 (sleep_queue c);;
  n ← rdc c;
  setc c (u32 (n - 1));;
  release (Guard c).
Definition cond_wakeall (c : positive) : M sched unit :=
  waiters ← xched_wakeall (sleep_queue c);
  if decide (waiters = 0) then setc c (u32 (- 1)) else setc c 0.
Definition cond_broadcast (c : positive) : M sched unit := acquire (Guard c);; cond_wakeall c;; release (Guard c).

Definition sched_zombie (t : tid) : M sched Z :=
  assert_held (TLock t);;
  err ← thread_enqueue zombie_queue t;
  if decide (err ≠ 0) then mret err else
  th ← rdt t;
  match t_group th with
  | None => fault
  | Some g =>
      modify (λ s, {| s with nthreads := alter (λ n, u32 (n - 1)) g (nthreads s) |});;
      cond_broadcast (t_wait th);;
      mret 0
  end.

(** ** Giving up the CPU *)

(** [sched()] up to [swtch]; [false]: it returns at once, because the thread was
    woken before it went to sleep. *)
Definition sched_enter (t : tid) : M sched bool :=
  assert_held (TLock t);;
  park ← testflags t THREAD_SETPARK;
  asleep ← in_state t T_ISLEEP;
  wake ← testflags t THREAD_SETWAKEUP;
  if (park && asleep && wake)%bool then maskflags t (Z.lor THREAD_SETPARK THREAD_SETWAKEUP);; mret false else mret true.

(** [xched_sleep(queue, lock)] of thread [t] up to [swtch]: the error of
    [thread_enqueue], or whether it switches. *)
Definition xched_sleep_enter (t : tid) (q : qid) (g : option positive) : M sched (Z + bool) :=
  assert_held (TLock t);;
  err ← thread_enqueue q t;
  if decide (err ≠ 0) then mret (inl err) else
  updt t (λ th, {| th with sleep_guard := g |});;
  enter_state t T_ISLEEP;;
  updt t (λ th, {| th with sleep_on := Some q |});;
  (match g with Some g => release (Guard g) | None => mret tt end);;
  b ← sched_enter t;
  mret (inr b).
(** The rest of it, when the thread runs again. *)
Definition xched_sleep_leave (t : tid) (g : option positive) : M sched Z :=
  (match g with Some g => acquire (Guard g) | None => mret tt end);;
  updt t (λ th, {| th with sleep_on := None |});;
  k ← thread_killed t;
  mret (if (k : bool) then - EINTR else 0).

(** [sched_yield] up to [swtch]. *)
Definition sched_yield_enter (t : tid) : M sched bool :=
  acquire (TLock t);;
  updt t (λ th, {| th with t_state := T_READY |});;
  sched_enter t.

(** [arch_thread_exit] up to [swtch]. *)
Definition thread_exit_enter (t : tid) (code : Z) : M sched bool :=
  acquire (TLock t);;
  updt t (λ th, {| th with t_state := T_ZOMBIE; t_exit := code |});;
  sched_enter t.

(** [cond_wait] of thread [t] up to [swtch]: its result, or whether it switches; and
    the rest of it. *)
Definition cond_wait_enter (t : tid) (c : positive) : M sched (Z + bool) :=
  acquire (Guard c);;
  n ← rdc c;
  setc c (u32 (n + 1));;
  if bool_decide (0 ≤ i32 n) then
    acquire (TLock t);;
    r ← xched_sleep_enter t (sleep_queue c) (Some c);
    match r with
    | inl err => release (TLock t);; release (Guard c);; mret (inl err)
    | inr b => mret (inr b)
    end
  else release (Guard c);; mret (inl 0).
Definition cond_wait_leave (t : tid) (c : positive) : M sched Z :=
  err ← xched_sleep_leave t (Some c); release (TLock t);; release (Guard c);; mret err.

(** One round of [schedule]: the thread it runs, which is locked, and what it does
    with the thread when it has given up the CPU. *)
Definition schedule_in : M sched (option tid) :=
  t ← sched_next;
  match t with
  | None => mret None
  | Some t =>
      k ← thread_killed t;
      if (k : bool) then
        updt t (λ th, {| th with t_state := T_ZOMBIE; t_exit := - EINTR |});;
        sched_zombie t;;
        release (TLock t);;
        mret None
      else mret (Some t)
  end.
Definition schedule_out (t : tid) : M sched unit :=
  assert_held (TLock t);;
  th ← rdt t;
  match t_state th with
  | T_ZOMBIE => err ← sched_zombie t; kassert (bool_decide (err = 0));; release (TLock t)
  | T_READY => sched_park t;; release (TLock t)
  | T_ISLEEP => release (TLock t)
  | _ => panic
  end.

(** ** Killing threads *)

(** [self] is the running thread. *)
Definition thread_kill_n (self t : tid) : M sched Z :=
  if decide (t = self) then mret 0 else
  assert_held (TLock t);;
  z ← in_state t T_ZOMBIE;
  e ← in_state t T_TERMINATED;
  k ← thread_killed t;
  if (z || e || k)%bool then mret 0 else
  setflags t THREAD_KILLED;;
  updt t (λ th, {| th with t_killer := Z.pos self |});;
  mret 0.

(** What [tgroup_kill_thread(group, -1)] does to each other thread of the group before
    it waits for it; [thread_wait] unlocks the thread. *)
Definition kill_one (self t : tid) : M sched unit :=
  acquire (TLock t);;
  thread_kill_n self t;;
  th ← rdt t;
  (match sleep_on th with
   | None => mret tt
   | Some q => acquire (QLock q);; thread_wake_n t;; release (QLock q)
   end);;
  release (TLock t).

(** ** Parking *)

Definition park_queue : qid := sleep_queue 1.
Definition setpark (t : tid) : M sched unit := acquire (TLock t);; setflags t THREAD_SETPARK;; release (TLock t).
(** [park] up to [swtch]: [None] if it returns at once. *)
Definition park_enter (t : tid) : M sched (option (Z + bool)) :=
  acquire (TLock t);;
  w ← testflags t THREAD_SETWAKEUP;
  if (w : bool) then maskflags t (Z.lor THREAD_SETPARK THREAD_SETWAKEUP);; release (TLock t);; mret None
  else
    r ← xched_sleep_enter t park_queue None;
    (if (r : Z + bool) is inl _ then release (TLock t) else mret tt);;
    mret (Some r).
Definition park_leave (t : tid) : M sched Z := err ← xched_sleep_leave t None; release (TLock t);; mret err.
(** [queue_get_thread]: the thread with number [z] on [q], locked; the running thread
    [self] is not. *)
Fixpoint get_thread_loop (l : list tid) (z : Z) : M sched (Z + tid) :=
  match l with
  | [] => mret (inl (- ESRCH))
  | t :: l =>
      acquire (TLock t);;
      if decide (Z.pos t = z) then mret (inr t) else release (TLock t);; get_thread_loop l z
  end.
Definition queue_get_thread (self : tid) (q : qid) (z : Z) : M sched (Z + tid) :=
  if bool_decide (z < 0) then mret (inl (- EINVAL)) else
  if decide (z = Z.pos self) then mret (inr self) else
  assert_held (QLock q);;
  l ← gets (λ s, on_queue s q);
  get_thread_loop l z.
(** [thread_get]: the thread with number [z] of a group, locked. *)
Definition thread_get (g : positive) (z : Z) : M sched (Z + tid) :=
  acquire (QLock (group_queue g));;
  l ← gets (λ s, on_queue s (group_queue g));
  match list_find (λ t, Z.pos t = z) l with
  | Some (_, t) => acquire (TLock t);; release (QLock (group_queue g));; mret (inr t)
  | None => release (QLock (group_queue g));; mret (inl (- ENOENT))
  end.
(** [unpark] by thread [self] of group [g]. *)
Definition unpark (self : tid) (g : positive) (z : Z) : M sched Z :=
  acquire (QLock park_queue);;
  r ← queue_get_thread self park_queue z;
  r ← (match r with
       | inl err => if decide (err = - ESRCH) then acquire (TLock self);; release (TLock self);; thread_get g z else mret (inl err)
       | inr t => mret (inr t)
       end);
  match r with
  | inl err => release (QLock park_queue);; mret err
  | inr t =>
      if decide (t = self) then release (QLock park_queue);; mret (- EINVAL) else
      err ← thread_wake_n t;
      release (TLock t);;
      release (QLock park_queue);;
      mret err
  end.
End enqueue.
