(* ===== verification/SchedInv.v ===== *)
(** * The invariant of the scheduler

    Every thread is where its state says: a ready thread on one ready queue, a
    sleeping one on the queue it sleeps on, a running one on none; and the queues and
    the threads' own lists of queues agree. *)
From S2P Require Import Prelude Sched.

#[global] Arguments acquire l : simpl never.
#[global] Arguments release l : simpl never.
#[global] Arguments assert_held l : simpl never.

(** ** Elementary changes *)

Definition set_thread (t : tid) (th : thread) (s : sched) : sched := {| s with threads := <[t := th]> (threads s) |}.
Definition set_locks (h : gset lock) (s : sched) : sched := {| s with locks := h |}.
Definition add_queue (q : qid) (th : thread) : thread := {| th with t_queues := t_queues th ++ [q] |}.
Definition drop_queue (q : qid) (th : thread) : thread := {| th with t_queues := remove1 q (t_queues th) |}.
(** [t], whose thread is [th], is put on [q], or taken from it. *)
Definition push (q : qid) (t : tid) (th : thread) (s : sched) : sched :=
  set_queue q (on_queue s q ++ [t]) (set_thread t (add_queue q th) s).
Definition pull (q : qid) (t : tid) (th : thread) (s : sched) : sched :=
  set_queue q (remove1 t (on_queue s q)) (set_thread t (drop_queue q th) s).

Definition same_objects (s s' : sched) : Prop :=
  nthreads s = nthreads s' ∧ conds s = conds s' ∧ mutexes s = mutexes s' ∧ events s = events s'.
Lemma sched_eq s s' : threads s = threads s' → queues s = queues s' → locks s = locks s' → same_objects s s' → s = s'.
Proof. unfold same_objects. destruct s, s'; simpl. intros -> -> -> (-> & -> & -> & ->). done. Qed.
Lemma on_queue_set q l q' s : on_queue (set_queue q l s) q' = if decide (q = q') then l else on_queue s q'.
Proof. unfold on_queue, set_queue. simpl. case_decide; [subst; by rewrite lookup_insert_eq|by rewrite lookup_insert_ne]. Qed.

Lemma wp_acquire l s (Q : unit → sched → Prop) : l ∉ locks s → Q tt (set_locks ({[l]} ∪ locks s) s) → wp (acquire l) Q s.
Proof. intros Hl HQ. unfold acquire. apply wp_bind, wp_gets. rewrite decide_False by done. by apply wp_modify. Qed.
Lemma wp_release l s (Q : unit → sched → Prop) : l ∈ locks s → Q tt (set_locks (locks s ∖ {[l]}) s) → wp (release l) Q s.
Proof. intros Hl HQ. unfold release. apply wp_bind, wp_gets. rewrite decide_True by done. by apply wp_modify. Qed.
Lemma wp_assert_held l s (Q : unit → sched → Prop) : l ∈ locks s → Q tt s → wp (assert_held l) Q s.
Proof. intros Hl HQ. unfold assert_held. apply wp_bind, wp_gets. rewrite decide_True by done. by apply wp_ret. Qed.
Lemma wp_rdt t th s (Q : thread → sched → Prop) : threads s !! t = Some th → Q th s → wp (rdt t) Q s.
Proof. intros. by eapply wp_rd. Qed.
Lemma wp_updt t th f s (Q : unit → sched → Prop) : threads s !! t = Some th → Q tt (set_thread t (f th) s) → wp (updt t f) Q s.
Proof.
  intros Ht HQ. apply wp_upd; [by eexists|]. simpl. unfold set_thread in HQ.
  replace (alter f t (threads s)) with (<[t := f th]> (threads s)); [done|]. apply map_eq. intros t'.
  destruct (decide (t = t')) as [->|]; [by rewrite lookup_insert_eq, lookup_alter_eq, Ht|by rewrite lookup_insert_ne, lookup_alter_ne].
Qed.
Lemma set_thread_lookup t th s : threads (set_thread t th s) !! t = Some th.
Proof. apply lookup_insert_eq. Qed.
Lemma set_thread_twice t th th' s : set_thread t th (set_thread t th' s) = set_thread t th s.
Proof. unfold set_thread. simpl. by rewrite insert_insert_eq. Qed.
Lemma set_thread_id t th s : threads s !! t = Some th → set_thread t th s = s.
Proof. intros. apply sched_eq; simpl; [by rewrite insert_id|done..]. Qed.

Section enqueue.
Context (node_ok : sched → bool) (Hnode : ∀ s, node_ok s = true).

Lemma wp_thread_enqueue q t th s (Q : Z → sched → Prop) : threads s !! t = Some th → QLock q ∉ locks s → TQLock t ∉ locks s →
  Q 0 (push q t th s) → wp (thread_enqueue node_ok q t) Q s.
Proof using Hnode.
  intros Ht Hq Htq HQ. unfold thread_enqueue. apply wp_bind, wp_acquire; [done|].
  apply wp_bind, wp_acquire; [simpl; set_solver|]. apply wp_bind, wp_gets. rewrite Hnode. simpl negb. cbv iota.
  apply wp_bind, wp_modify, wp_bind, wp_gets. rewrite Hnode. simpl negb. cbv iota. apply wp_bind. eapply wp_updt; [exact Ht|].
  apply wp_bind, wp_release; [simpl; set_solver|]. apply wp_bind, wp_release; [simpl; set_solver|]. apply wp_ret.
  match goal with |- Q 0 ?x => replace x with (push q t th s); [done|] end.
  apply sched_eq; [done|done| |done]. simpl. set_solver.
Qed.
End enqueue.

Lemma wp_thread_dequeue q t l th s (Q : option tid → sched → Prop) : on_queue s q = t :: l → threads s !! t = Some th →
  q ∈ t_queues th → QLock q ∈ locks s → TLock t ∉ locks s → TQLock t ∉ locks s →
  Q (Some t) (set_locks ({[TLock t]} ∪ locks s) (pull q t th s)) → wp (thread_dequeue q) Q s.
Proof.
  intros Hl Ht Hq H1 H2 H3 HQ. unfold thread_dequeue. apply wp_bind, wp_assert_held; [done|]. apply wp_bind, wp_gets. rewrite Hl.
  apply wp_bind, wp_modify, wp_bind, wp_acquire; [done|]. apply wp_bind, wp_acquire; [simpl; set_solver|].
  apply wp_bind. eapply wp_rdt; [exact Ht|]. rewrite decide_True by done. apply wp_bind. eapply wp_updt; [exact Ht|].
  apply wp_bind, wp_release; [simpl; set_solver|]. apply wp_ret.
  match goal with |- Q _ ?x => replace x with (set_locks ({[TLock t]} ∪ locks s) (pull q t th s)); [done|] end.
  apply sched_eq; simpl; [done| |set_solver|done]. rewrite Hl. simpl. by rewrite decide_True.
Qed.
Lemma wp_thread_dequeue_none q s (Q : option tid → sched → Prop) : on_queue s q = [] → QLock q ∈ locks s →
  Q None s → wp (thread_dequeue q) Q s.
Proof.
  intros Hl H1 HQ. unfold thread_dequeue. apply wp_bind, wp_assert_held; [done|]. apply wp_bind, wp_gets. rewrite Hl. by apply wp_ret.
Qed.
Lemma wp_thread_remove_queue q t th s (Q : Z → sched → Prop) : threads s !! t = Some th → q ∈ t_queues th → t ∈ on_queue s q →
  QLock q ∈ locks s → TLock t ∈ locks s → TQLock t ∉ locks s → Q 0 (pull q t th s) → wp (thread_remove_queue t q) Q s.
Proof.
  intros Ht Hq Hin H1 H2 H3 HQ. unfold thread_remove_queue. apply wp_bind, wp_assert_held; [done|]. apply wp_bind, wp_assert_held; [done|].
  apply wp_bind, wp_acquire; [done|]. apply wp_bind. eapply wp_rdt; [exact Ht|]. rewrite decide_True by done.
  apply wp_bind. eapply wp_updt; [exact Ht|]. apply wp_bind, wp_release; [simpl; set_solver|].
  unfold queue_remove. apply wp_bind, wp_gets. rewrite decide_True by done. apply wp_bind, wp_modify, wp_ret.
  match goal with |- Q _ ?x => replace x with (pull q t th s); [done|] end.
  apply sched_eq; simpl; [done|done|set_solver|done].
Qed.

(** ** The invariant *)

(** The queues that hold a thread because of its state: not the queue of its group. *)
Definition is_group (q : qid) : bool := match q with group_queue _ => true | _ => false end.
Definition squeues (th : thread) : list qid := filter (λ q, is_group q = false) (t_queues th).
(** What the attributes of a thread may be. *)
Definition attr_ok (th : thread) : Prop :=
  0 ≤ t_priority th ≤ 255 ∧ (affinity th = SCHED_SOFT_AFFINITY ∨ affinity th = SCHED_HARD_AFFINITY).
(** The queue a thread is on is the one its state asks for; nothing enters the states
    [T_STOPPED] and [T_TERMINATED]. *)
Definition placed (th : thread) : Prop :=
  match t_state th with
  | T_EMBRYO => squeues th = [embryo_queue]
  | T_READY => ∃ c l, 0 ≤ l < NLEVELS ∧ squeues th = [ready_queue c l]
  | T_ISLEEP => ∃ q, sleep_on th = Some (sleep_queue q) ∧ squeues th = [sleep_queue q]
  | T_RUNNING => squeues th = []
  | T_ZOMBIE => squeues th = [zombie_queue]
  | T_STOPPED | T_TERMINATED => False
  end.

(** The queues and the threads' lists of queues agree. *)
Record linked (s : sched) : Prop := Linked {
  li_thread : ∀ q t, t ∈ on_queue s q → is_Some (threads s !! t);
  li_sync : ∀ t th q, threads s !! t = Some th → t ∈ on_queue s q ↔ q ∈ t_queues th;
  li_queue : ∀ q, NoDup (on_queue s q);
  li_queues : ∀ t th, threads s !! t = Some th → NoDup (t_queues th);
}.
(** Every thread whose lock is free is placed. *)
Record sched_ok (s : sched) : Prop := SchedOk {
  so_linked : linked s;
  so_attr : ∀ t th, threads s !! t = Some th → attr_ok th;
  so_placed : ∀ t th, threads s !! t = Some th → TLock t ∉ locks s → placed th;
}.

Lemma elem_of_remove1 {A} `{EqDecision A} (x y : A) l : NoDup l → y ∈ remove1 x l ↔ y ∈ l ∧ y ≠ x.
Proof.
  induction l as [|z l IH]; simpl; intros Hnd; [set_solver|]. apply NoDup_cons in Hnd as [Hz Hnd]. case_decide; subst.
  - rewrite elem_of_cons. split; [|naive_solver]. intros Hy. split; [by right|]. by intros ->.
  - rewrite !elem_of_cons, IH by done. naive_solver.
Qed.
Lemma remove1_NoDup {A} `{EqDecision A} (x : A) l : NoDup l → NoDup (remove1 x l).
Proof.
  induction l as [|z l IH]; simpl; intros Hnd; [constructor|]. apply NoDup_cons in Hnd as [Hz Hnd]. case_decide; [done|].
  constructor; [|auto]. by rewrite elem_of_remove1 by done; intros [??].
Qed.
Lemma filter_remove1 {A} `{EqDecision A} (P : A → Prop) `{∀ x, Decision (P x)} x l : P x → filter P (remove1 x l) = remove1 x (filter P l).
Proof.
  intros Hx. induction l as [|y l IH]; [done|]. simpl remove1. case_decide; subst.
  - rewrite filter_cons_True by done. simpl. by rewrite decide_True.
  - destruct (decide (P y)); [rewrite !filter_cons_True by done; simpl; by rewrite decide_False, IH|by rewrite !filter_cons_False].
Qed.
Lemma NoDup_snoc_ne {A} (x : A) l : NoDup l → x ∉ l → NoDup (l ++ [x]).
Proof. intros Hl Hx. apply NoDup_app. split; [done|]. split; [set_solver|]. apply NoDup_singleton. Qed.

Lemma linked_thread t th th' s : linked s → threads s !! t = Some th → t_queues th' = t_queues th → linked (set_thread t th' s).
Proof.
  intros [H1 H2 H3 H4] Ht Hq. split.
  - intros q t' Hin. simpl. destruct (decide (t = t')) as [->|]; [rewrite lookup_insert_eq; eauto|rewrite lookup_insert_ne by done; eauto].
  - intros t' th'' q. simpl. rewrite lookup_insert_Some. intros [[<- <-]|[_ Ht']]; [rewrite Hq|]; by apply H2.
  - done.
  - intros t' th''. simpl. rewrite lookup_insert_Some. intros [[<- <-]|[_ Ht']]; [rewrite Hq|]; eauto.
Qed.
Lemma linked_locks h s : linked s → linked (set_locks h s).
Proof. by intros []. Qed.
(** A change of the queues of one thread. *)
Lemma linked_change q l t th th' s : linked s → threads s !! t = Some th → NoDup l → NoDup (t_queues th') →
  (∀ t', t' ≠ t → t' ∈ l ↔ t' ∈ on_queue s q) → (t ∈ l ↔ q ∈ t_queues th') → (∀ q', q' ≠ q → q' ∈ t_queues th' ↔ q' ∈ t_queues th) →
  linked (set_queue q l (set_thread t th' s)).
Proof.
  intros [H1 H2 H3 H4] Ht Hl Hq Hoth Hself Hqs. split.
  - intros q' t'. rewrite on_queue_set. simpl. destruct (decide (t = t')) as [->|]; [rewrite lookup_insert_eq; eauto|].
    rewrite lookup_insert_ne by done. case_decide; [|apply H1]. intros Hin. apply (H1 q). naive_solver.
  - intros t' th'' q'. rewrite on_queue_set. simpl. rewrite lookup_insert_Some. intros [[<- <-]|[Hne Ht']].
    + case_decide; subst; [done|]. rewrite Hqs by done. by apply (H2 t th).
    + case_decide; subst; [|by apply H2]. rewrite Hoth by done. by apply H2.
  - intros q'. rewrite on_queue_set. case_decide; [done|apply H3].
  - intros t' th''. simpl. rewrite lookup_insert_Some. intros [[<- <-]|[Hne Ht']]; eauto.
Qed.
Lemma linked_push q t th s : linked s → threads s !! t = Some th → q ∉ t_queues th → linked (push q t th s).
Proof.
  intros Hs Ht Hq. pose proof Hs as [H1 H2 H3 H4]. eapply linked_change; try done.
  - apply NoDup_snoc_ne; [done|]. by rewrite (H2 t th).
  - apply NoDup_snoc_ne; eauto.
  - intros t' Hne. set_solver.
  - simpl. set_solver.
  - intros q' Hne. simpl. set_solver.
Qed.
Lemma linked_pull q t th s : linked s → threads s !! t = Some th → linked (pull q t th s).
Proof.
  intros Hs Ht. pose proof Hs as [H1 H2 H3 H4]. eapply linked_change; try done.
  - by apply remove1_NoDup.
  - apply remove1_NoDup; eauto.
  - intros t' Hne. rewrite elem_of_remove1 by done. naive_solver.
  - simpl. rewrite !elem_of_remove1 by eauto. naive_solver.
  - intros q' Hne. simpl. rewrite !elem_of_remove1 by eauto. naive_solver.
Qed.

(** A change of one thread keeps the invariant if that thread is placed again, or locked. *)
Lemma sched_ok_change t th s s' : sched_ok s → linked s' → threads s' = <[t := th]> (threads s) → attr_ok th →
  (TLock t ∉ locks s' → placed th) → (∀ t', t' ≠ t → TLock t' ∈ locks s → TLock t' ∈ locks s') → sched_ok s'.
Proof.
  intros [H1 H2 H3] Hl Hth Ha Hp Hlk. split; [done|..]; intros t' th'; rewrite Hth, lookup_insert_Some.
  - intros [[<- <-]|[_ Ht']]; eauto.
  - intros [[<- <-]|[Hne Ht']]; [done|]. intros Hn. eapply H3; [done|]. intros Hin. by apply Hn, Hlk.
Qed.
Lemma sched_ok_locks h s : sched_ok s → (∀ t, TLock t ∈ locks s → TLock t ∈ h) → sched_ok (set_locks h s).
Proof. intros [H1 H2 H3] Hh. split; [by apply linked_locks|done|]. intros t th Ht Hn. simpl in *. eapply H3; [done|]. intros ?. by apply Hn, Hh. Qed.

(** ** Parking a thread *)

(** The thread as [sched_park] leaves it, and the queue it goes to. *)
Definition park_level (th : thread) : Z := SCHED_LEVEL (t_priority th).
Definition park_core (cpu : Z) (th : thread) : Z := default cpu (core th).
Definition level_slice (i : Z) : Z := [50; 75; 100; 125; 150; 175; 200; 250] !!! Z.to_nat i.
Definition parked (cpu : Z) (th : thread) : thread :=
  {| th with core := Some (park_core cpu th); t_timeslice := level_slice (park_level th) |}.

Lemma park_level_range th : attr_ok th → 0 ≤ park_level th < NLEVELS.
Proof.
  intros [H _]. unfold park_level, SCHED_LEVEL, SCHED_LOWEST_PRIORITY, NLEVELS. change (Z.quot (255 + 1) 8) with 32.
  rewrite Z.quot_div_nonneg by lia. split; [apply Z.div_pos|apply Z.div_lt_upper_bound]; lia.
Qed.
Lemma wp_quatum i s (Q : Z → sched → Prop) : 0 ≤ i < NLEVELS → Q (level_slice i) s → wp (quatum i) Q s.
Proof.
  unfold NLEVELS. intros Hi HQ. apply wp_exec. exists (level_slice i), s. split; [|done]. unfold quatum, level_slice.
  assert (i = 0 ∨ i = 1 ∨ i = 2 ∨ i = 3 ∨ i = 4 ∨ i = 5 ∨ i = 6 ∨ i = 7) by lia. by repeat destruct_or!; subst.
Qed.

Section park.
Context (node_ok : sched → bool) (Hnode : ∀ s, node_ok s = true) (cpu : Z).

Lemma wp_sched_park t th s (Q : Z → sched → Prop) : threads s !! t = Some th → t_state th ≠ T_EMBRYO → attr_ok th →
  TLock t ∈ locks s → QLock (ready_queue (park_core cpu th) (park_level th)) ∉ locks s → TQLock t ∉ locks s →
  Q 0 (push (ready_queue (park_core cpu th) (park_level th)) t (parked cpu th) s) → wp (sched_park node_ok cpu t) Q s.
Proof using Hnode.
  intros Ht Hst Ha Hl Hq Htq HQ. unfold sched_park. apply wp_bind, wp_assert_held; [done|]. apply wp_bind. eapply wp_rdt; [done|].
  rewrite decide_False by done. rewrite (decide_True (P := affinity th = _ ∨ _)) by apply Ha.
  assert (Hgo : ∀ th', core th' = Some (park_core cpu th) → parked cpu th' = parked cpu th → t_priority th' = t_priority th →
    wp (z ← quatum (park_level th); updt t (λ th, {| th with t_timeslice := z |});;
        thread_enqueue node_ok (ready_queue (park_core cpu th) (park_level th)) t) Q (set_thread t th' s)).
  { intros th' Hc Hp Hpr. apply wp_bind, wp_quatum; [by apply park_level_range|]. apply wp_bind.
    eapply wp_updt; [apply set_thread_lookup|]. rewrite set_thread_twice. eapply wp_thread_enqueue; [done|apply set_thread_lookup|done..|].
    unfold push. rewrite set_thread_twice.
    match goal with |- Q 0 ?x => replace x with (push (ready_queue (park_core cpu th) (park_level th)) t (parked cpu th) s); [done|] end.
    unfold push. do 3 f_equal. rewrite <- Hp. unfold parked, park_core. rewrite Hc. simpl.
    assert (park_level th' = park_level th) as -> by (unfold park_level; congruence). done. }
  unfold park_core in *. case_decide as Hc.
  - apply wp_bind. eapply wp_updt; [done|]. apply Hgo; simpl; [by rewrite Hc| |done]. unfold parked, park_core. simpl. by rewrite Hc.
  - apply wp_bind, wp_ret. rewrite <- (set_thread_id t th s) by done. apply Hgo; [|done..]. by destruct (core th).
Qed.
End park.

(** ** From one queue to a ready queue *)

Definition readied (q : qid) (th : thread) : thread := {| (drop_queue q th) with t_state := T_READY |}.
Definition home (cpu : Z) (th : thread) : qid := ready_queue (park_core cpu th) (park_level th).
Definition woken (cpu : Z) (q : qid) (t : tid) (th : thread) (s : sched) : sched :=
  push (home cpu th) t (parked cpu (readied q th)) (pull q t th s).
(** The locks held are guards, locks of the threads in [ts] and of the queues in [qs]. *)
Definition lock_free (ts : list tid) (qs : list qid) (h : gset lock) : Prop :=
  (∀ t, (TLock t ∈ h → t ∈ ts) ∧ TQLock t ∉ h) ∧ (∀ q, QLock q ∈ h → q ∈ qs).

Lemma home_readied cpu q th : home cpu (readied q th) = home cpu th.
Proof. done. Qed.
Lemma squeues_drop q th : is_group q = false → squeues (drop_queue q th) = remove1 q (squeues th).
Proof. intros. by apply filter_remove1. Qed.
Lemma squeues_add q th : is_group q = false → squeues (add_queue q th) = squeues th ++ [q].
Proof. intros Hq. unfold squeues. simpl. rewrite filter_app, filter_cons_True by done. by rewrite filter_nil. Qed.
Lemma elem_of_squeues q th : q ∈ squeues th ↔ is_group q = false ∧ q ∈ t_queues th.
Proof. unfold squeues. by rewrite list_elem_of_filter. Qed.

(** What the queue of a placed thread says of it. *)
Definition queue_state (q : qid) (st : tstate) : Prop :=
  match q with
  | embryo_queue => st = T_EMBRYO
  | zombie_queue => st = T_ZOMBIE
  | ready_queue _ _ => st = T_READY
  | sleep_queue _ => st = T_ISLEEP
  | group_queue _ => True
  end.
Lemma placed_on q th : placed th → q ∈ t_queues th → is_group q = false →
  queue_state q (t_state th) ∧ squeues th = [q] ∧ (t_state th = T_ISLEEP → sleep_on th = Some q).
Proof.
  intros Hp Hq Hg. assert (Hin : q ∈ squeues th) by by apply elem_of_squeues. unfold placed in Hp.
  assert (Hx : squeues th = [] ∨ ∃ q', squeues th = [q'] ∧ queue_state q' (t_state th) ∧ (t_state th = T_ISLEEP → sleep_on th = Some q')).
  { destruct (t_state th) eqn:Hst; simpl; try done; [right; by exists embryo_queue| | |by left|right; by exists zombie_queue].
    - destruct Hp as (x & Hp & ->). right. by exists (sleep_queue x).
    - destruct Hp as (c & l & Hl & ->). right. by exists (ready_queue c l). }
  destruct Hx as [Hx|(q' & Hx & H1 & H2)]; rewrite Hx in *; [by apply elem_of_nil in Hin|]. by apply list_elem_of_singleton in Hin as ->.
Qed.
Lemma queue_thread q t s : sched_ok s → t ∈ on_queue s q → ∃ th, threads s !! t = Some th ∧ q ∈ t_queues th ∧ attr_ok th.
Proof.
  intros Hs Hin. destruct (li_thread s (so_linked s Hs) q t Hin) as [th Ht]. exists th.
  split_and!; [done|by apply (li_sync s (so_linked s Hs) t th q)|by eapply so_attr].
Qed.
Lemma pull_thread q t th s : threads (pull q t th s) !! t = Some (drop_queue q th).
Proof. apply lookup_insert_eq. Qed.
Lemma woken_threads cpu q t th s :
  threads (woken cpu q t th s) = <[t := add_queue (home cpu th) (parked cpu (readied q th))]> (threads s).
Proof. unfold woken, push, pull. simpl. by rewrite insert_insert_eq. Qed.
Lemma woken_linked cpu q t th s : linked s → threads s !! t = Some th → squeues th = [q] → is_group q = false → linked (woken cpu q t th s).
Proof.
  intros Hs Ht Hq Hg. pose proof (pull_thread q t th s) as Ht'. unfold woken.
  assert (Hl : linked (set_thread t (parked cpu (readied q th)) (pull q t th s))).
  { eapply linked_thread; [by apply linked_pull|exact Ht'|done]. }
  assert (Hn : home cpu th ∉ t_queues (readied q th)).
  { intros Hin. assert (Hx : home cpu th ∈ squeues (drop_queue q th)) by by apply elem_of_squeues.
    rewrite squeues_drop, Hq in Hx by done. simpl in Hx. rewrite decide_True in Hx by done. set_solver. }
  replace (push (home cpu th) t (parked cpu (readied q th)) (pull q t th s))
    with (push (home cpu th) t (parked cpu (readied q th)) (set_thread t (parked cpu (readied q th)) (pull q t th s))).
  - apply linked_push; [done|apply set_thread_lookup|done].
  - unfold push. by rewrite set_thread_twice.
Qed.
(** A thread that leaves the queue it is on for its ready queue keeps the invariant. *)
Lemma woken_placed cpu q th : attr_ok th → squeues th = [q] → is_group q = false →
  placed (add_queue (home cpu th) (parked cpu (readied q th))).
Proof.
  intros Ha Hq Hg. unfold placed. simpl. exists (park_core cpu th), (park_level th). split; [by apply park_level_range|].
  rewrite squeues_add by done. change (squeues (parked cpu (readied q th))) with (squeues (drop_queue q th)).
  rewrite squeues_drop, Hq by done. simpl. by rewrite decide_True.
Qed.
Lemma woken_ok cpu q t th s : sched_ok s → threads s !! t = Some th → squeues th = [q] → is_group q = false → sched_ok (woken cpu q t th s).
Proof.
  intros Hs Ht Hq Hg. pose proof (so_attr s Hs t th Ht) as Ha. eapply sched_ok_change; [exact Hs| |apply woken_threads|done| |done].
  - apply woken_linked; [apply Hs|done..].
  - intros _. by apply woken_placed.
Qed.
