(* ===== verification/SchedSpec.v ===== *)
(** * What the scheduler does

    Waking, sleeping, picking and ending threads, on every branch, and that each keeps
    the invariant of [SchedInv]. *)
From S2P Require Import Prelude Sched SchedInv.

(** ** Waking *)

(** [thread_wake_n] notes the wake-up in the flags of a thread about to park. *)
Definition noted (th : thread) : thread :=
  if has_flag th THREAD_SETPARK then {| th with t_flags := Z.lor (t_flags th) THREAD_SETWAKEUP |} else th.
Fixpoint wake_list (cpu : Z) (q : qid) (l : list tid) (s : sched) : sched :=
  match l with
  | [] => s
  | t :: l => match threads s !! t with Some th => wake_list cpu q l (woken cpu q t (noted th) s) | None => s end
  end.

Lemma wp_testflags t th f s (Q : bool → sched → Prop) : threads s !! t = Some th → TLock t ∈ locks s → Q (has_flag th f) s → wp (testflags t f) Q s.
Proof. intros. unfold testflags. apply wp_bind, wp_assert_held; [done|]. apply wp_bind. eapply wp_rdt; [done|]. by apply wp_ret. Qed.
Lemma wp_in_state t th st s (Q : bool → sched → Prop) : threads s !! t = Some th → TLock t ∈ locks s →
  Q (bool_decide (t_state th = st)) s → wp (in_state t st) Q s.
Proof. intros. unfold in_state. apply wp_bind, wp_assert_held; [done|]. apply wp_bind. eapply wp_rdt; [done|]. by apply wp_ret. Qed.
Lemma wp_enter_state t th st s (Q : Z → sched → Prop) : threads s !! t = Some th → TLock t ∈ locks s →
  Q 0 (set_thread t {| th with t_state := st |} s) → wp (enter_state t st) Q s.
Proof. intros. unfold enter_state. apply wp_bind, wp_assert_held; [done|]. apply wp_bind. eapply wp_updt; [done|]. by apply wp_ret. Qed.
(** The first lines of [thread_wake_n]. *)
Lemma wp_note {A} t th (k : M sched A) s (Q : A → sched → Prop) : threads s !! t = Some th → TLock t ∈ locks s → wp k Q (set_thread t (noted th) s) →
  wp (park ← testflags t THREAD_SETPARK; (if (park : bool) then setflags t THREAD_SETWAKEUP else mret tt);; k) Q s.
Proof.
  intros Ht Hl HQ. apply wp_bind. eapply wp_testflags; [done..|]. apply wp_bind. unfold noted in HQ. destruct (has_flag th THREAD_SETPARK).
  - unfold setflags. apply wp_bind, wp_assert_held; [done|]. by eapply wp_updt.
  - apply wp_ret. by rewrite set_thread_id in HQ.
Qed.
(** A guard is taken if it is not held, and given back. *)
Lemma wp_guarded {A B} (g : option positive) (m : M sched A) (k : A → M sched B) s (Q : B → sched → Prop) :
  (∀ h, locks s ⊆ h → (∀ l, l ∈ h → l ∈ locks s ∨ ∃ x, l = Guard x) →
    wp m (λ a s', locks s' = h ∧ wp (k a) Q (set_locks (locks s) s')) (set_locks h s)) →
  wp (took ← (match g with
              | None => mret false
              | Some g => h ← spin_holding (Guard g); if (h : bool) then mret false else acquire (Guard g);; mret true
              end);
      a ← m;
      (match g with None => mret tt | Some g => if (took : bool) then release (Guard g) else mret tt end);;
      k a) Q s.
Proof.
  intros Hm. assert (Hsame : wp m (λ a s', locks s' = locks s ∧ wp (k a) Q s') s).
  { assert (Hid : ∀ s' : sched, locks s' = locks s → set_locks (locks s) s' = s') by (intros s' <-; by destruct s').
    pose proof (Hm (locks s)) as H. rewrite (Hid s) in H by done. eapply wp_mono; [apply H; [done|by left]|].
    intros a s' [Hl HQ]. by rewrite Hid in HQ. }
  destruct g as [g|].
  - apply wp_bind, wp_bind. unfold spin_holding. apply wp_gets. case_bool_decide as Hg.
    + apply wp_ret, wp_bind. eapply wp_mono; [exact Hsame|]. intros a s' [Hl HQ]. by apply wp_bind, wp_ret.
    + apply wp_bind, wp_acquire; [done|]. apply wp_ret, wp_bind. eapply wp_mono; [apply Hm; set_solver|]. intros a s' [Hl HQ]. simpl.
      apply wp_bind, wp_release; [set_solver|].
      by replace (locks s' ∖ {[Guard g]}) with (locks s) by (rewrite Hl; set_solver).
  - apply wp_bind, wp_ret, wp_bind. eapply wp_mono; [exact Hsame|]. intros a s' [Hl HQ]. by apply wp_bind, wp_ret.
Qed.

Lemma lock_free_nil ts h q : lock_free ts [] h → QLock q ∉ h.
Proof. intros [_ L] H. apply L in H. by apply elem_of_nil in H. Qed.
Lemma lock_free_thread ts qs t {h} : lock_free ts qs h → t ∉ ts → TLock t ∉ h ∧ TQLock t ∉ h.
Proof. intros [L _] Ht. destruct (L t). split; [by intros ?; apply Ht; auto|done]. Qed.

Section spec.
Context (node_ok : sched → bool) (Hnode : ∀ s, node_ok s = true) (cpu : Z).

(** A thread made ready is parked and unlocked. *)
Lemma wp_park_ready q t th s (Q : Z → sched → Prop) : threads s !! t = Some (drop_queue q th) → attr_ok th →
  TLock t ∈ locks s → QLock (home cpu th) ∉ locks s → TQLock t ∉ locks s →
  Q 0 (push (home cpu th) t (parked cpu (readied q th)) s) →
  wp (sched_park node_ok cpu t) Q (set_thread t (readied q th) s).
Proof using Hnode.
  intros Ht Ha Hl Hq Htq HQ. eapply wp_sched_park; [done|apply set_thread_lookup|done..|].
  unfold push. rewrite set_thread_twice. done.
Qed.
End spec.
Section spec2.
Context (node_ok : sched → bool) (Hnode : ∀ s, node_ok s = true) (cpu : Z).

Lemma wp_thread_wake_n q t th s (Q : Z → sched → Prop) : threads s !! t = Some th → t_state th = T_ISLEEP → sleep_on th = Some q →
  q ∈ t_queues th → t ∈ on_queue s q → attr_ok th → QLock q ∈ locks s → TLock t ∈ locks s → TQLock t ∉ locks s →
  QLock (home cpu th) ∉ locks s → Q 0 (woken cpu q t (noted th) s) → wp (thread_wake_n node_ok cpu t) Q s.
Proof using Hnode.
  intros Ht Hst Hon Hq Hin Ha L1 L2 L3 L4 HQ. unfold thread_wake_n. apply wp_bind, wp_assert_held; [done|].
  eapply wp_note; [done..|]. set (s1 := set_thread t (noted th) s).
  assert (Hn : ∀ (P : thread → Prop), P th → P {| th with t_flags := Z.lor (t_flags th) THREAD_SETWAKEUP |} → P (noted th))
    by (unfold noted; intros; by destruct (has_flag _ _)).
  apply wp_bind. eapply wp_in_state; [apply set_thread_lookup|done|]. rewrite bool_decide_true by (by apply (Hn (λ x, t_state x = _))). simpl negb. cbv iota.
  apply wp_bind. eapply wp_rdt; [apply set_thread_lookup|].
  replace (sleep_on (noted th)) with (Some q) by (symmetry; by apply (Hn (λ x, sleep_on x = _))). apply wp_guarded. intros h Hh Hh'.
  eapply (wp_thread_remove_queue q t (noted th)); [apply set_thread_lookup|by apply (Hn (λ x, q ∈ t_queues x))|done|set_solver..|].
  split; [done|]. rewrite decide_False by lia. apply wp_bind.
  eapply (wp_enter_state t (drop_queue q (noted th))); [apply pull_thread|done|]. rewrite decide_False by lia.
  apply (wp_park_ready node_ok Hnode cpu q t (noted th)); [apply pull_thread|by apply (Hn attr_ok)|done| |done|].
  - by apply (Hn (λ x, QLock (home cpu x) ∉ locks s)).
  - match goal with |- Q 0 ?x => replace x with (woken cpu q t (noted th) s); [done|] end.
    apply sched_eq; try done. simpl. by rewrite !insert_insert_eq.
Qed.
End spec2.

(** What is common to the threads of a queue. *)
Lemma queue_head q t s : sched_ok s → t ∈ on_queue s q → is_group q = false → TLock t ∉ locks s →
  ∃ th, threads s !! t = Some th ∧ q ∈ t_queues th ∧ attr_ok th ∧ squeues th = [q] ∧ queue_state q (t_state th) ∧
    (t_state th = T_ISLEEP → sleep_on th = Some q).
Proof.
  intros Hs Hin Hg Hl. destruct (queue_thread q t s Hs Hin) as (th & Ht & Hq & Ha). exists th.
  destruct (placed_on q th) as (H1 & H2 & H3); [by eapply so_placed|done..|]. done.
Qed.
Lemma noted_placement th : squeues (noted th) = squeues th ∧ t_queues (noted th) = t_queues th ∧ home 0 (noted th) = home 0 th.
Proof. unfold noted. by destruct (has_flag _ _). Qed.
Lemma on_queue_woken cpu q t th s q' : on_queue (woken cpu q t th s) q' =
  if decide (home cpu th = q') then (if decide (q = q') then remove1 t (on_queue s q) else on_queue s q') ++ [t]
  else if decide (q = q') then remove1 t (on_queue s q) else on_queue s q'.
Proof.
  unfold woken, push, pull. rewrite !on_queue_set. change (on_queue (set_thread ?a ?b ?s)) with (on_queue s). rewrite !on_queue_set.
  change (on_queue (set_thread ?a ?b ?s)) with (on_queue s). by repeat case_decide; subst.
Qed.
Lemma noted_woken_ok cpu q t th s : sched_ok s → threads s !! t = Some th → squeues th = [q] → is_group q = false →
  sched_ok (woken cpu q t (noted th) s).
Proof.
  intros Hs Ht Hq Hg. pose proof (so_attr s Hs t th Ht) as Ha. destruct (noted_placement th) as (E1 & E2 & E3).
  assert (Hs' : sched_ok (set_thread t (noted th) (set_locks ({[TLock t]} ∪ locks s) s))).
  { eapply (sched_ok_change t (noted th)); [exact Hs|..]; [|done| | |simpl; set_solver].
    - eapply linked_thread; [apply linked_locks, Hs|done|done].
    - unfold noted. by destruct (has_flag _ _).
    - simpl. set_solver. }
  pose proof (woken_ok cpu q t (noted th) _ Hs' (set_thread_lookup _ _ _)) as Hw. rewrite E1 in Hw. specialize (Hw Hq Hg).
  eapply (sched_ok_change t (add_queue (home cpu (noted th)) (parked cpu (readied q (noted th))))); [exact Hs| |apply woken_threads| | |done].
  - destruct Hw as [Hw _ _]. apply (linked_locks (locks s)) in Hw.
    replace (woken cpu q t (noted th) s) with
      (set_locks (locks s) (woken cpu q t (noted th) (set_thread t (noted th) (set_locks ({[TLock t]} ∪ locks s) s)))); [done|].
    apply sched_eq; try done. simpl. by rewrite !insert_insert_eq.
  - unfold noted. by destruct (has_flag _ _).
  - intros _. apply woken_placed; [unfold noted; by destruct (has_flag _ _)|congruence|done].
Qed.

Lemma wake_list_set_locks cpu q l : ∀ h s, wake_list cpu q l (set_locks h s) = set_locks h (wake_list cpu q l s).
Proof. induction l as [|t l IH]; intros h s; simpl; [done|]. destruct (threads s !! t) as [th|]; [|done]. by rewrite <- IH. Qed.
Lemma wake_list_locks cpu q l : ∀ s, locks (wake_list cpu q l s) = locks s.
Proof. induction l as [|t l IH]; intros s; simpl; [done|]. destruct (threads s !! t) as [th|]; [|done]. by rewrite IH. Qed.
Lemma wake_list_objects cpu q l : ∀ s, same_objects s (wake_list cpu q l s).
Proof. induction l as [|t l IH]; intros s; simpl; [done|]. destruct (threads s !! t) as [th|]; [|done]. apply (IH (woken cpu q t (noted th) s)). Qed.
(** Every thread of the queue is woken, the other threads are left alone. *)
Lemma wake_list_spec cpu q l : ∀ s, sched_ok s → on_queue s (sleep_queue q) = l → (∀ t, t ∈ l → TLock t ∉ locks s) →
  sched_ok (wake_list cpu (sleep_queue q) l s) ∧ on_queue (wake_list cpu (sleep_queue q) l s) (sleep_queue q) = [] ∧
  (∀ t, t ∈ l → ∃ th, threads (wake_list cpu (sleep_queue q) l s) !! t = Some th ∧ t_state th = T_READY) ∧
  (∀ t, t ∉ l → threads (wake_list cpu (sleep_queue q) l s) !! t = threads s !! t).
Proof.
  induction l as [|t l IH]; intros s Hs Hl L; [split_and!; [done|done|set_solver|done]|].
  destruct (queue_head (sleep_queue q) t s) as (th & Ht & Hin & Ha & Hsq & Hst & Hon); [done|rewrite Hl; by left|done|apply L; by left|].
  simpl. rewrite Ht. destruct (IH (woken cpu (sleep_queue q) t (noted th) s)) as (H1 & H2 & H3 & H4).
  - by apply noted_woken_ok.
  - rewrite on_queue_woken, decide_False, decide_True, Hl by done. simpl. by rewrite decide_True.
  - intros t' Ht'. apply L. by right.
  - pose proof (li_queue s (so_linked s Hs) (sleep_queue q)) as Hnd. rewrite Hl in Hnd. apply NoDup_cons in Hnd as [Hn _].
    split_and!; [done|done| |].
    + intros t' [->|Ht']%elem_of_cons; [|by apply H3]. rewrite H4, woken_threads, lookup_insert_eq by done. by eexists.
    + intros t' [Hne Ht']%not_elem_of_cons. by rewrite H4, woken_threads, lookup_insert_ne.
Qed.

Lemma wp_wake1_none node_ok cpu q s (Q : Z → sched → Prop) : on_queue s q = [] → lock_free [] [] (locks s) → Q 0 s → wp (xched_wake1 node_ok cpu q) Q s.
Proof.
  intros Hl L HQ. pose proof (lock_free_nil _ _ q L) as L5.
  unfold xched_wake1. apply wp_bind, wp_acquire; [done|]. apply wp_bind, wp_thread_dequeue_none; [done|simpl; set_solver|].
  apply wp_bind, wp_release; [simpl; set_solver|]. apply wp_ret.
  match goal with |- Q 0 ?x => replace x with s; [done|] end. apply sched_eq; try done. simpl. set_solver.
Qed.
Section wake.
Context (node_ok : sched → bool) (Hnode : ∀ s, node_ok s = true) (cpu : Z).

(** A thread taken from queue [q] is made ready, parked and unlocked: [xched_wake1] and
    the embryo of [sched_next]. *)
Lemma wp_wake_tail q t th s (Q : unit → sched → Prop) : threads s !! t = Some th → attr_ok th → TLock t ∉ locks s → TQLock t ∉ locks s →
  QLock (home cpu th) ∉ locks s → Q tt (woken cpu q t th s) →
  wp (err ← sched_park node_ok cpu t; kassert (bool_decide (err = 0));; release (TLock t)) Q
    (set_thread t (readied q th) (set_locks ({[TLock t]} ∪ locks s) (pull q t th s))).
Proof using Hnode.
  intros Ht Ha L1 L2 L3 HQ. apply wp_bind. apply (wp_park_ready node_ok Hnode cpu q t th); [apply pull_thread|done|simpl; set_solver..|].
  apply wp_bind, wp_kassert; [done|]. apply wp_release; [simpl; set_solver|].
  match goal with |- Q tt ?x => replace x with (woken cpu q t th s); [done|] end. apply sched_eq; try done. simpl. set_solver.
Qed.
Lemma wp_wake1 q t l th s (Q : Z → sched → Prop) : on_queue s q = t :: l → threads s !! t = Some th → q ∈ t_queues th → attr_ok th →
  lock_free [] [] (locks s) → Q 0 (woken cpu q t th s) → wp (xched_wake1 node_ok cpu q) Q s.
Proof using Hnode.
  intros Hl Ht Hq Ha L HQ. destruct (lock_free_thread [] _ t L) as [L3 L4]; [set_solver|]. pose proof (λ q, lock_free_nil _ _ q L) as L5.
  unfold xched_wake1. apply wp_bind, wp_acquire; [done|]. apply wp_bind. eapply (wp_thread_dequeue q t l th); [done..|simpl; set_solver|simpl; set_solver|simpl; set_solver|].
  apply wp_bind, wp_release; [simpl; set_solver|]. apply wp_bind, wp_assert_held; [simpl; set_solver|].
  apply wp_bind. eapply wp_enter_state; [apply pull_thread|simpl; set_solver|]. apply wp_bind.
  match goal with |- wp _ _ (set_thread _ _ ?x) => replace x with (set_locks ({[TLock t]} ∪ locks s) (pull q t th s)) end.
  2:{ apply sched_eq; try done. simpl. set_solver. }
  change (set_thread t _ ?x) with (set_thread t (readied q th) x).
  apply (wp_park_ready node_ok Hnode cpu q t th); [apply pull_thread|done|simpl; set_solver..|].
  apply wp_bind, wp_release; [simpl; set_solver|]. apply wp_ret.
  match goal with |- Q 0 ?x => replace x with (woken cpu q t th s); [done|] end. apply sched_eq; try done. simpl. set_solver.
Qed.

Lemma wp_wake_each ts q l : ∀ s (Q : unit → sched → Prop), sched_ok s → on_queue s (sleep_queue q) = l → QLock (sleep_queue q) ∈ locks s →
  lock_free ts [sleep_queue q] (locks s) → (∀ t, t ∈ l → t ∉ ts) → Q tt (wake_list cpu (sleep_queue q) l s) → wp (wake_each node_ok cpu l) Q s.
Proof using Hnode.
  induction l as [|t l IH]; intros s Q Hs Hl Hq L Hts HQ; [by apply wp_ret|].
  destruct (lock_free_thread ts [sleep_queue q] t L) as [L3 L4]; [apply Hts; by left|].
  destruct (queue_head (sleep_queue q) t s) as (th & Ht & Hin & Ha & Hsq & Hst & Hon); [done|rewrite Hl; by left|done..|].
  simpl in Hst, HQ. specialize (Hon Hst). rewrite Ht in HQ.
  simpl wake_each. apply wp_bind, wp_acquire; [done|]. apply wp_bind.
  eapply (wp_thread_wake_n node_ok Hnode cpu (sleep_queue q) t th); [exact Ht|exact Hst|exact Hon|exact Hin| |exact Ha| | | | |].
  { change (t ∈ on_queue s (sleep_queue q)). rewrite Hl. by left. }
  1-3: simpl; set_solver.
  { simpl. rewrite elem_of_union. intros [H|H]; [by apply elem_of_singleton in H|]. apply L in H. by apply list_elem_of_singleton in H. }
  apply wp_bind, wp_kassert; [done|]. apply wp_bind, wp_release; [simpl; set_solver|].
  match goal with |- wp _ _ ?x => replace x with (woken cpu (sleep_queue q) t (noted th) s) end.
  2:{ apply sched_eq; try done. simpl. set_solver. }
  apply IH; [by apply noted_woken_ok| |done|done|intros t' Ht'; apply Hts; by right|done].
  rewrite on_queue_woken, decide_False, decide_True, Hl by done. simpl. by rewrite decide_True.
Qed.
Lemma wp_wakeall ts q s (Q : Z → sched → Prop) : sched_ok s → lock_free ts [] (locks s) → (∀ t, t ∈ on_queue s (sleep_queue q) → t ∉ ts) →
  Q (Z.of_nat (length (on_queue s (sleep_queue q)))) (wake_list cpu (sleep_queue q) (on_queue s (sleep_queue q)) s) →
  wp (xched_wakeall node_ok cpu (sleep_queue q)) Q s.
Proof using Hnode.
  intros Hs L Hts HQ. pose proof (lock_free_nil _ _ (sleep_queue q) L) as L5.
  unfold xched_wakeall. apply wp_bind, wp_acquire; [done|]. apply wp_bind, wp_gets, wp_bind.
  set (s1 := set_locks _ s). eapply (wp_wake_each ts q); [apply sched_ok_locks; [done|set_solver]|done|simpl; set_solver| |exact Hts|].
  { destruct L as [L1 L2]. split; [intros t; simpl; destruct (L1 t); set_solver|]. intros q'. simpl. rewrite elem_of_union, elem_of_singleton.
    intros [[= ->]|H]; [by left|]. apply L2 in H. by apply elem_of_nil in H. }
  apply wp_bind, wp_release; [rewrite wake_list_locks; simpl; set_solver|]. apply wp_ret.
  change (on_queue s1) with (on_queue s).
  match goal with |- Q _ ?x => replace x with (wake_list cpu (sleep_queue q) (on_queue s (sleep_queue q)) s); [done|] end.
  unfold s1. rewrite wake_list_set_locks. apply sched_eq; try done. simpl. rewrite wake_list_locks. set_solver.
Qed.
End wake.

(** ** Picking the next thread *)

(** The embryo at the head of its queue is made ready. *)
Definition admitted (cpu : Z) (s : sched) : sched :=
  match on_queue s embryo_queue with
  | [] => s
  | t :: _ => match threads s !! t with Some th => woken cpu embryo_queue t th s | None => s end
  end.
(** The first thread of the first level that has one. *)
Fixpoint first_ready (cpu : Z) (levels : list Z) (s : sched) : option (Z * tid) :=
  match levels with
  | [] => None
  | i :: levels => match on_queue s (ready_queue cpu i) with t :: _ => Some (i, t) | [] => first_ready cpu levels s end
  end.
Definition running (cpu i : Z) (th : thread) : thread :=
  {| (drop_queue (ready_queue cpu i) th) with t_state := T_RUNNING; t_timeslice := level_slice i |}.
(** [t], whose thread is [th], is taken from level [i] to run, and locked. *)
Definition picked (cpu i : Z) (t : tid) (th : thread) (s : sched) : sched :=
  set_locks ({[TLock t]} ∪ locks s)
    (set_queue (ready_queue cpu i) (remove1 t (on_queue s (ready_queue cpu i))) (set_thread t (running cpu i th) s)).

Lemma sched_id_locks h s : locks s = h → set_locks h s = s.
Proof. intros <-. by destruct s. Qed.

Lemma first_ready_spec cpu levels s : match first_ready cpu levels s with
  | None => ∀ i, i ∈ levels → on_queue s (ready_queue cpu i) = []
  | Some (i, t) => ∃ l1 l2 l, levels = l1 ++ i :: l2 ∧ (∀ j, j ∈ l1 → on_queue s (ready_queue cpu j) = []) ∧ on_queue s (ready_queue cpu i) = t :: l
  end.
Proof.
  induction levels as [|i levels IH]; simpl; [set_solver|]. destruct (on_queue s (ready_queue cpu i)) as [|t l] eqn:Hq.
  - destruct (first_ready cpu levels s) as [[j t]|].
    + destruct IH as (l1 & l2 & l & -> & H1 & H2). exists (i :: l1), l2, l. split_and!; [done| |done]. set_solver.
    + set_solver.
  - exists [], levels, l. split_and!; [done|set_solver|done].
Qed.
Lemma wp_next_level cpu levels s (Q : option tid → sched → Prop) : sched_ok s → lock_free [] [] (locks s) → Forall (λ i, 0 ≤ i < NLEVELS) levels →
  match first_ready cpu levels s with
  | None => Q None s
  | Some (i, t) => ∀ th, threads s !! t = Some th → Q (Some t) (picked cpu i t th s)
  end → wp (next_level cpu levels) Q s.
Proof.
  intros Hs L Hr. pose proof (λ q, lock_free_nil _ _ q L) as LQ. induction Hr as [|i levels Hi Hr IH]; simpl; intros HQ; [by apply wp_ret|].
  apply wp_bind, wp_acquire; [apply LQ|]. destruct (on_queue s (ready_queue cpu i)) as [|t l] eqn:Hq.
  - apply wp_bind, wp_thread_dequeue_none; [done|simpl; set_solver|]. apply wp_bind, wp_release; [simpl; set_solver|].
    match goal with |- wp _ _ ?x => replace x with s; [auto|] end. apply sched_eq; try done. simpl. specialize (LQ (ready_queue cpu i)). set_solver.
  - destruct (queue_thread (ready_queue cpu i) t s Hs) as (th & Ht & Hin & Ha); [rewrite Hq; by left|]. destruct (lock_free_thread [] _ t L); [set_solver|].
    apply wp_bind. eapply (wp_thread_dequeue _ t l th); [done..|simpl; set_solver|simpl; set_solver|simpl; set_solver|].
    apply wp_bind, wp_quatum; [done|]. apply wp_bind. eapply wp_updt; [apply pull_thread|]. apply wp_bind, wp_release; [simpl; set_solver|].
    apply wp_ret. specialize (HQ th Ht).
    match goal with |- Q _ ?x => replace x with (picked cpu i t th s); [done|] end. apply sched_eq; try done; simpl.
    + by rewrite insert_insert_eq.
    + specialize (LQ (ready_queue cpu i)). set_solver.
Qed.

Lemma picked_ok cpu i t th l s : sched_ok s → on_queue s (ready_queue cpu i) = t :: l → threads s !! t = Some th → TLock t ∉ locks s →
  sched_ok (picked cpu i t th s) ∧ squeues (running cpu i th) = [].
Proof.
  intros Hs Hq Ht Hl. destruct (queue_head (ready_queue cpu i) t s) as (th' & Ht' & Hin & Ha & Hsq & Hst & _); [done|rewrite Hq; by left|done..|].
  assert (th' = th) as -> by congruence. split.
  - eapply (sched_ok_change t (running cpu i th)); [exact Hs| |done|done|simpl; set_solver|simpl; set_solver].
    apply linked_locks.
    match goal with |- linked ?x => replace x with (set_thread t (running cpu i th) (pull (ready_queue cpu i) t th s)) end.
    + eapply linked_thread; [apply linked_pull; [apply Hs|done]|apply pull_thread|done].
    + apply sched_eq; try done. simpl. by rewrite insert_insert_eq.
  - change (squeues (running cpu i th)) with (squeues (drop_queue (ready_queue cpu i) th)). rewrite squeues_drop, Hsq by done.
    simpl. by rewrite decide_True.
Qed.
Lemma admitted_locks cpu s : locks (admitted cpu s) = locks s.
Proof. unfold admitted. destruct (on_queue s embryo_queue); [done|]. by destruct (threads s !! _). Qed.
Lemma admitted_ok cpu s : sched_ok s → lock_free [] [] (locks s) → sched_ok (admitted cpu s).
Proof.
  intros Hs L. unfold admitted. destruct (on_queue s embryo_queue) as [|t l] eqn:Hq; [done|].
  destruct (queue_head embryo_queue t s) as (th & Ht & _ & _ & Hsq & _); [done|rewrite Hq; by left|done|apply (lock_free_thread [] _ t L); set_solver|].
  rewrite Ht. by apply woken_ok.
Qed.

Lemma wp_sched_next node_ok cpu s (Q : option tid → sched → Prop) : (∀ s, node_ok s = true) → sched_ok s → lock_free [] [] (locks s) →
  match first_ready cpu (seqZ 0 NLEVELS) (admitted cpu s) with
  | None => Q None (admitted cpu s)
  | Some (i, t) => ∀ th, threads (admitted cpu s) !! t = Some th → Q (Some t) (picked cpu i t th (admitted cpu s))
  end → wp (sched_next node_ok cpu) Q s.
Proof.
  intros Hnode Hs L HQ. pose proof (admitted_ok cpu s Hs L) as Hs'. pose proof (admitted_locks cpu s) as Hlk.
  pose proof (λ q, lock_free_nil _ _ q L) as LQ. unfold sched_next.
  assert (Hnext : wp (next_level cpu (seqZ 0 NLEVELS)) Q (admitted cpu s)).
  { apply wp_next_level; [done|by rewrite Hlk|apply Forall_forall; intros i Hi%elem_of_seqZ; unfold NLEVELS in *; lia|done]. }
  unfold admitted in Hnext. apply wp_bind, wp_acquire; [apply LQ|]. destruct (on_queue s embryo_queue) as [|t l] eqn:Hq.
  - apply wp_bind, wp_thread_dequeue_none; [done|simpl; set_solver|]. apply wp_bind, wp_release; [simpl; set_solver|]. apply wp_bind, wp_ret.
    match goal with |- wp _ _ ?x => replace x with s; [done|] end. apply sched_eq; try done. simpl. specialize (LQ embryo_queue). set_solver.
  - destruct (queue_head embryo_queue t s) as (th & Ht & Hin & Ha & _); [done|rewrite Hq; by left|done|apply (lock_free_thread [] _ t L); set_solver|].
    rewrite Ht in Hnext. destruct (lock_free_thread [] _ t L); [set_solver|].
    apply wp_bind. eapply (wp_thread_dequeue _ t l th); [done..|simpl; set_solver|simpl; set_solver|simpl; set_solver|].
    apply wp_bind, wp_release; [simpl; set_solver|]. apply wp_bind, wp_bind, wp_assert_held; [simpl; set_solver|].
    apply wp_bind. eapply wp_updt; [apply pull_thread|].
    match goal with |- wp _ _ (set_thread _ _ ?x) => replace x with (set_locks ({[TLock t]} ∪ locks s) (pull embryo_queue t th s)) end.
    2:{ apply sched_eq; try done. simpl. specialize (LQ embryo_queue). set_solver. }
    by apply (wp_wake_tail node_ok Hnode cpu embryo_queue t th).
Qed.
