(* ===== verification/SchedSwitch.v ===== *)
(** * Giving up the CPU

    Sleeping, yielding, ending and starting threads: what each leaves behind once
    [schedule] has dealt with the thread, and that it keeps the invariant. *)
From S2P Require Import Prelude Sched SchedInv SchedSpec.

(** ** Sleeping *)

(** The thread as it sleeps on [q], and the locks without the guard. *)
Definition slept (q : qid) (g : option positive) (th : thread) : thread :=
  {| (add_queue q th) with t_state := T_ISLEEP; sleep_on := Some q; sleep_guard := g |}.
Definition unguard (g : option positive) (h : gset lock) : gset lock := match g with Some g => h ∖ {[Guard g]} | None => h end.
Definition fell_asleep (q : qid) (g : option positive) (t : tid) (th : thread) (s : sched) : sched :=
  set_locks (unguard g (locks s)) (set_queue q (on_queue s q ++ [t]) (set_thread t (slept q g th) s)).
(** The thread was told to wake up before it slept. *)
Definition woken_early (th : thread) : bool := has_flag th THREAD_SETPARK && has_flag th THREAD_SETWAKEUP.

Lemma wp_sched_enter t th s (Q : bool → sched → Prop) : threads s !! t = Some th → TLock t ∈ locks s →
  (t_state th = T_ISLEEP → woken_early th = false) → Q true s → wp (sched_enter t) Q s.
Proof.
  intros Ht Hl Hw HQ. unfold sched_enter. apply wp_bind, wp_assert_held; [done|]. apply wp_bind. eapply wp_testflags; [done..|].
  apply wp_bind. eapply wp_in_state; [done..|]. apply wp_bind. eapply wp_testflags; [done..|].
  replace (_ && _ && _)%bool with false; [by apply wp_ret|]. unfold woken_early in Hw. symmetry. case_bool_decide as Hst.
  - specialize (Hw Hst). destruct (has_flag th THREAD_SETPARK); [simpl in *; done|done].
  - by destruct (has_flag th THREAD_SETPARK).
Qed.
Lemma wp_unguard g s (Q : unit → sched → Prop) : (∀ x, g = Some x → Guard x ∈ locks s) → Q tt (set_locks (unguard g (locks s)) s) →
  wp (match g with Some g => release (Guard g) | None => mret tt end) Q s.
Proof. intros Hg HQ. destruct g as [g|]; [by apply wp_release; [apply Hg|]|]. apply wp_ret. by rewrite sched_id_locks in HQ. Qed.

Section switch.
Context (node_ok : sched → bool) (Hnode : ∀ s, node_ok s = true) (cpu : Z).

Lemma wp_sleep_enter t q g th s (Q : Z + bool → sched → Prop) : threads s !! t = Some th → TLock t ∈ locks s → TQLock t ∉ locks s →
  QLock q ∉ locks s → (∀ x, g = Some x → Guard x ∈ locks s) → woken_early th = false →
  Q (inr true) (fell_asleep q g t th s) → wp (xched_sleep_enter node_ok t q g) Q s.
Proof using Hnode.
  intros Ht L1 L2 L3 L4 Hw HQ. unfold xched_sleep_enter. apply wp_bind, wp_assert_held; [done|]. apply wp_bind.
  eapply wp_thread_enqueue; [done..|]. rewrite decide_False by lia. apply wp_bind. eapply wp_updt; [apply lookup_insert_eq|].
  apply wp_bind. eapply wp_enter_state; [apply set_thread_lookup|done|]. apply wp_bind. eapply wp_updt; [apply set_thread_lookup|].
  apply wp_bind, wp_unguard; [done|]. apply wp_bind. eapply wp_sched_enter; [apply set_thread_lookup|simpl; destruct g; set_solver|done|].
  apply wp_ret. match goal with |- Q _ ?x => replace x with (fell_asleep q g t th s); [done|] end.
  apply sched_eq; try done. simpl. by rewrite !insert_insert_eq.
Qed.
End switch.

(** ** The locks go *)

Lemma unlock_ok t th h s : sched_ok s → threads s !! t = Some th → placed th → (∀ t', t' ≠ t → TLock t' ∈ locks s → TLock t' ∈ h) →
  sched_ok (set_locks h s).
Proof.
  intros Hs Ht Hp Hh. eapply (sched_ok_change t th); [exact Hs|apply linked_locks, Hs|simpl; by rewrite insert_id|by eapply so_attr|done|done].
Qed.
Lemma slept_placed q g th : squeues th = [] → placed (slept (sleep_queue q) g th).
Proof. intros Hq. exists q. split; [done|]. change (squeues _) with (squeues (add_queue (sleep_queue q) th)). by rewrite squeues_add, Hq. Qed.
Lemma not_on_queue q th : squeues th = [] → is_group q = false → q ∉ t_queues th.
Proof. intros Hq Hg Hin. assert (H : q ∈ squeues th) by by apply elem_of_squeues. rewrite Hq in H. by apply elem_of_nil in H. Qed.
Lemma fell_asleep_ok q g t th s : sched_ok s → threads s !! t = Some th → TLock t ∈ locks s → squeues th = [] →
  sched_ok (fell_asleep (sleep_queue q) g t th s).
Proof.
  intros Hs Ht Hl Hq. eapply (sched_ok_change t (slept (sleep_queue q) g th)); [exact Hs| |done|exact (so_attr s Hs t th Ht)|by intros; apply slept_placed|].
  - apply linked_locks.
    match goal with |- linked ?x => replace x with (set_thread t (slept (sleep_queue q) g th) (push (sleep_queue q) t th s)) end.
    + eapply linked_thread; [apply linked_push; [apply Hs|done|by apply not_on_queue]|apply lookup_insert_eq|done].
    + apply sched_eq; try done. simpl. by rewrite insert_insert_eq.
  - intros t' _ H. simpl. destruct g; simpl; set_solver.
Qed.
(** A thread that runs and is made ready goes to its ready queue. *)
Definition back (cpu : Z) (th : thread) : thread := add_queue (home cpu th) (parked cpu {| th with t_state := T_READY |}).
Lemma back_placed cpu th : attr_ok th → squeues th = [] → placed (back cpu th).
Proof.
  intros Ha Hq. exists (park_core cpu th), (park_level th). split; [by apply park_level_range|].
  unfold back. rewrite squeues_add by done. change (squeues (parked _ _)) with (squeues th). by rewrite Hq.
Qed.
Lemma back_ok cpu t th s : sched_ok s → threads s !! t = Some th → squeues th = [] →
  sched_ok (push (home cpu th) t (parked cpu {| th with t_state := T_READY |}) s).
Proof.
  intros Hs Ht Hq. pose proof (so_attr s Hs t th Ht) as Ha.
  eapply (sched_ok_change t (back cpu th)); [exact Hs| |done|done|by intros; apply back_placed|done].
  set (th' := parked cpu {| th with t_state := T_READY |}).
  replace (push (home cpu th) t th' s) with (push (home cpu th) t th' (set_thread t th' s)) by (unfold push; by rewrite set_thread_twice).
  apply linked_push; [eapply linked_thread; [apply Hs|done|done]|apply set_thread_lookup|by apply not_on_queue].
Qed.

(** ** The end of a thread *)

(** [t], which has ended, on the queue of zombies; the threads that wait for it woken. *)
Definition buried (cpu : Z) (t : tid) (th : thread) (g : positive) (s : sched) : sched :=
  let c := t_wait th in
  let l := on_queue s (sleep_queue c) in
  let s' := wake_list cpu (sleep_queue c) l (push zombie_queue t th s) in
  {| s' with nthreads := alter (λ n, u32 (n - 1)) g (nthreads s'); conds := <[c := if decide (l = []) then u32 (- 1) else 0]> (conds s') |}.

Lemma wake_list_nthreads cpu q l n : ∀ s,
  wake_list cpu q l {| s with nthreads := n |} = {| (wake_list cpu q l s) with nthreads := n |}.
Proof. induction l as [|t l IH]; intros s; simpl; [done|]. destruct (threads s !! t) as [th|]; [|done]. by rewrite <- IH. Qed.
Lemma zombie_push_ok t th s : sched_ok s → threads s !! t = Some th → TLock t ∈ locks s → squeues th = [] → sched_ok (push zombie_queue t th s).
Proof.
  intros Hs Ht Hl Hq. eapply (sched_ok_change t (add_queue zombie_queue th)); [exact Hs| |done|exact (so_attr s Hs t th Ht)|done|done].
  apply linked_push; [apply Hs|done|by apply not_on_queue].
Qed.

(** A thread that waits for [t] is not [t]. *)
Lemma zombie_waiters t th s q t' : sched_ok s → threads s !! t = Some th → TLock t ∈ locks s → squeues th = [] →
  t' ∈ on_queue (push zombie_queue t th s) (sleep_queue q) → t' ∉ [t].
Proof.
  intros Hs Ht Hl Hq Hin ->%list_elem_of_singleton. pose proof (zombie_push_ok t th s Hs Ht Hl Hq) as [[_ Hsync _ _] _ _].
  apply (Hsync t (add_queue zombie_queue th)) in Hin; [|apply lookup_insert_eq].
  assert (H : sleep_queue q ∈ squeues (add_queue zombie_queue th)) by by apply elem_of_squeues.
  rewrite squeues_add, Hq in H by done. by apply list_elem_of_singleton in H.
Qed.
Lemma on_zombie_push t th s q : on_queue (push zombie_queue t th s) (sleep_queue q) = on_queue s (sleep_queue q).
Proof. unfold push. by rewrite on_queue_set, decide_False. Qed.

Lemma buried_ok cpu t th g s : sched_ok s → threads s !! t = Some th → TLock t ∈ locks s → lock_free [t] [] (locks s) → squeues th = [] →
  sched_ok (buried cpu t th g s) ∧ threads (buried cpu t th g s) !! t = Some (add_queue zombie_queue th) ∧ locks (buried cpu t th g s) = locks s.
Proof.
  intros Hs Ht Hl L Hq. pose proof (zombie_push_ok t th s Hs Ht Hl Hq) as Hz. unfold buried. cbv zeta.
  set (l := on_queue s (sleep_queue (t_wait th))).
  assert (Hw : ∀ t', t' ∈ l → t' ∉ [t]).
  { intros t' Ht'. eapply (zombie_waiters t th s (t_wait th)); [done..|]. by rewrite on_zombie_push. }
  destruct (wake_list_spec cpu (t_wait th) l (push zombie_queue t th s)) as (H1 & _ & _ & H4); [done|apply on_zombie_push| |].
  { intros t' Ht'. by apply (lock_free_thread [t] [] t' L), Hw. }
  split_and!.
  - by destruct H1 as [[] H1 H2].
  - simpl. rewrite H4; [apply lookup_insert_eq|]. intros Ht'%Hw. by apply Ht', list_elem_of_singleton.
  - simpl. by rewrite wake_list_locks.
Qed.
Lemma wp_rdc c n s (Q : Z → sched → Prop) : conds s !! c = Some n → Q n s → wp (rdc c) Q s.
Proof. intros H HQ. apply wp_exec. exists n, s. split; [|done]. unfold rdc. by rewrite H. Qed.

Section zombie.
Context (node_ok : sched → bool) (Hnode : ∀ s, node_ok s = true) (cpu : Z).

(** [cond_broadcast]: every waiter is woken; the count remembers that there was none. *)
Lemma wp_cond_broadcast ts c s (Q : unit → sched → Prop) : sched_ok s → lock_free ts [] (locks s) →
  (∀ t, t ∈ on_queue s (sleep_queue c) → t ∉ ts) → Guard c ∉ locks s →
  (let l := on_queue s (sleep_queue c) in
   let s' := wake_list cpu (sleep_queue c) l s in
   Q tt {| s' with conds := <[c := if decide (l = []) then u32 (- 1) else 0]> (conds s') |}) →
  wp (cond_broadcast node_ok cpu c) Q s.
Proof using Hnode.
  cbv zeta. intros Hs L Hts Hg HQ. unfold cond_broadcast. apply wp_bind, wp_acquire; [done|].
  unfold cond_wakeall. apply wp_bind, wp_bind. eapply (wp_wakeall node_ok Hnode cpu ts).
  { apply sched_ok_locks; [done|set_solver]. }
  { destruct L as [L1 L2]. split; [intros t; simpl; destruct (L1 t); set_solver|intros q; simpl; specialize (L2 q); set_solver]. }
  { exact Hts. }
  change (on_queue (set_locks ?h s)) with (on_queue s). rewrite wake_list_set_locks. set (l := on_queue s (sleep_queue c)) in *.
  assert (Hend : ∀ n, Q tt {| (wake_list cpu (sleep_queue c) l s) with conds := <[c := n]> (conds (wake_list cpu (sleep_queue c) l s)) |} →
    wp (setc c n) (λ _ s', wp (release (Guard c)) Q s') (set_locks ({[Guard c]} ∪ locks s) (wake_list cpu (sleep_queue c) l s))).
  { intros n Hn. apply wp_modify. apply wp_release; [simpl; set_solver|].
    match goal with |- Q tt ?x => match type of Hn with Q tt ?y => replace x with y; [done|] end end.
    apply sched_eq; try done. simpl. rewrite wake_list_locks. set_solver. }
  destruct l as [|t l0] eqn:Hl; [by apply Hend|]. rewrite decide_False in HQ by done. rewrite decide_False by (simpl; lia). by apply Hend.
Qed.
Lemma wp_sched_zombie t th g s (Q : Z → sched → Prop) : sched_ok s → threads s !! t = Some th → TLock t ∈ locks s → lock_free [t] [] (locks s) →
  squeues th = [] → t_group th = Some g → Guard (t_wait th) ∉ locks s →
  Q 0 (buried cpu t th g s) → wp (sched_zombie node_ok cpu t) Q s.
Proof using Hnode.
  intros Hs Ht Hl L Hq Hg Hgd HQ. unfold sched_zombie. apply wp_bind, wp_assert_held; [done|]. apply wp_bind.
  eapply wp_thread_enqueue; [done|done|by eapply lock_free_nil|by apply L|]. rewrite decide_False by lia.
  apply wp_bind. eapply wp_rdt; [apply lookup_insert_eq|]. change (t_group (add_queue zombie_queue th)) with (t_group th). rewrite Hg.
  apply wp_bind, wp_modify, wp_bind. change (t_wait (add_queue zombie_queue th)) with (t_wait th).
  eapply (wp_cond_broadcast [t]); [|done| |done|].
  - by destruct (zombie_push_ok t th s Hs Ht Hl Hq) as [[] ].
  - intros t'. by apply (zombie_waiters t th s).
  - cbv zeta. apply wp_ret.
    change (on_queue {| (push zombie_queue t th s) with nthreads := ?n |}) with (on_queue (push zombie_queue t th s)).
    rewrite on_zombie_push, wake_list_nthreads. unfold buried in HQ. cbv zeta in HQ.
    match goal with |- Q _ ?x => match type of HQ with Q _ ?y => replace x with y; [done|] end end.
    apply sched_eq; try done. split_and!; try done. simpl. f_equal. by destruct (wake_list_objects cpu (sleep_queue (t_wait th)) (on_queue s (sleep_queue (t_wait th))) (push zombie_queue t th s)) as [<- _].
Qed.
End zombie.
