(* ===== verification/SchedStep.v ===== *)
(** * The scheduler as a system of events

    Threads are started, run, wait, are woken, yield, are killed and end, in any order
    and on any CPU; the invariant holds in every state that is reached and no assertion
    of the scheduler fails. *)
From S2P Require Import Prelude Sched SchedInv SchedSpec SchedSwitch.

(** ** Events *)

Inductive event : Type :=
| Start (t : tid) (w g : positive)   (* [kthread_create] *)
| Run                                (* a round of [schedule], up to the thread's own code *)
| Wait (t : tid) (c : positive)      (* [cond_wait] *)
| Signal (c : positive)              (* [cond_signal] *)
| Broadcast (c : positive)           (* [cond_broadcast] *)
| Yield (t : tid)                    (* [sched_yield] *)
| Exit (t : tid) (code : Z)          (* [arch_thread_exit] *)
| Kill (self t : tid).               (* [tgroup_kill_thread], for one thread *)

(** A thread runs again: what is left of [xched_sleep] and of its caller, which unlocks
    the thread and the guard; or the [current_unlock] of [sched_yield] and
    [arch_thread_start]. *)
Definition resume (t : tid) : M sched unit :=
  th ← rdt t;
  match sleep_on th with
  | Some _ =>
      xched_sleep_leave t (sleep_guard th);;
      release (TLock t);;
      match sleep_guard th with Some g => release (Guard g) | None => mret tt end
  | None => release (TLock t)
  end.

Section events.
Context (node_ok : sched → bool).

Definition do_event (cpu : Z) (e : event) : M sched unit :=
  match e with
  | Start t w g => kthread_create node_ok cpu t w g;; mret tt
  | Run => r ← schedule_in node_ok cpu; match r with Some t => resume t | None => mret tt end
  | Wait t c =>
      r ← cond_wait_enter node_ok t c;
      match r with
      | inr true => schedule_out node_ok cpu t
      | inr false => cond_wait_leave t c;; mret tt
      | inl _ => mret tt
      end
  | Signal c => cond_signal node_ok cpu c
  | Broadcast c => cond_broadcast node_ok cpu c
  | Yield t => sched_yield_enter t;; schedule_out node_ok cpu t
  | Exit t code => thread_exit_enter t code;; schedule_out node_ok cpu t
  | Kill self t => kill_one node_ok cpu self t
  end.
End events.

(** When an event can happen: only a running thread waits, yields or ends. *)
Definition runs (s : sched) (t : tid) : Prop := ∃ th, threads s !! t = Some th ∧ t_state th = T_RUNNING.
Definition enabled (e : event) (s : sched) : Prop :=
  match e with
  | Start t w g => threads s !! t = None ∧ conds s !! w = None
  | Run => True
  | Wait t c => runs s t ∧ is_Some (conds s !! c)
  | Signal c => is_Some (conds s !! c)
  | Broadcast c => is_Some (conds s !! c)
  | Yield t | Exit t _ => runs s t
  | Kill self t => self ≠ t ∧ is_Some (threads s !! t)
  end.

Definition empty_sched : sched := Sched ∅ ∅ ∅ ∅ ∅ ∅ ∅.
Inductive reachable (node_ok : sched → bool) : sched → Prop :=
| reach_init : reachable node_ok empty_sched
| reach_step cpu e s s' : reachable node_ok s → enabled e s → do_event node_ok cpu e s = Ok (tt, s') → reachable node_ok s'.

(** ** The invariant of the system *)

(** What else holds of a thread: it has a group and a condition to wait on, and does
    not park. *)
Definition fine (s : sched) (th : thread) : Prop :=
  is_Some (t_group th) ∧ is_Some (conds s !! t_wait th) ∧ has_flag th THREAD_SETPARK = false.
Record kernel_ok (s : sched) : Prop := KernelOk {
  ko_sched : sched_ok s;
  ko_locks : locks s = ∅;
  ko_fine : ∀ t th, threads s !! t = Some th → fine s th;
}.

(** What no event takes away. *)
Definition kept (th th' : thread) : Prop :=
  t_group th' = t_group th ∧ t_wait th' = t_wait th ∧ (has_flag th THREAD_SETPARK = false → has_flag th' THREAD_SETPARK = false).
Definition keeps (s s' : sched) : Prop :=
  (∀ t th', threads s' !! t = Some th' → ∃ th, threads s !! t = Some th ∧ kept th th') ∧
  (∀ c, is_Some (conds s !! c) → is_Some (conds s' !! c)).
#[global] Instance kept_preorder : PreOrder kept.
Proof. split; [done|]. intros th1 th2 th3 (E1 & E2 & E3) (F1 & F2 & F3). split_and!; [congruence|congruence|auto]. Qed.
#[global] Instance keeps_preorder : PreOrder keeps.
Proof.
  split; [intros s; split; [intros t th; by exists th|done]|]. intros s1 s2 s3 [E1 E2] [F1 F2]. split; [|auto].
  intros t th3 (th2 & Ht2 & K2)%F1. apply E1 in Ht2 as (th1 & Ht1 & K1). exists th1. split; [done|]. by trans th2.
Qed.
Lemma keeps_one t th th' s s' : threads s !! t = Some th → threads s' = <[t := th']> (threads s) → kept th th' →
  (∀ c, is_Some (conds s !! c) → is_Some (conds s' !! c)) → keeps s s'.
Proof.
  intros Ht Hth K Hc. split; [|done]. intros t' th''. rewrite Hth, lookup_insert_Some. intros [[<- <-]|[_ Ht']]; [by exists th|by exists th''].
Qed.
Lemma keeps_fine s s' : keeps s s' → (∀ t th, threads s !! t = Some th → fine s th) → ∀ t th, threads s' !! t = Some th → fine s' th.
Proof.
  intros [K1 K2] Hf t th' Ht'. destruct (K1 t th' Ht') as (th & Ht & E1 & E2 & E3). destruct (Hf t th Ht) as (F1 & F2 & F3).
  split_and!; [by rewrite E1|rewrite E2; auto|auto].
Qed.
Lemma kept_noted th : has_flag th THREAD_SETPARK = false → noted th = th.
Proof. unfold noted. by intros ->. Qed.
Lemma keeps_woken cpu q t th s : threads s !! t = Some th → keeps s (woken cpu q t th s).
Proof. intros Ht. eapply keeps_one; [exact Ht|apply woken_threads|done|done]. Qed.
Lemma kept_noted' th : kept th (noted th).
Proof. split_and!; unfold noted; destruct (has_flag th THREAD_SETPARK) eqn:H; try done. Qed.
Lemma keeps_wake_list cpu q l : ∀ s, keeps s (wake_list cpu q l s).
Proof.
  induction l as [|t l IH]; intros s; simpl; [done|]. destruct (threads s !! t) as [th|] eqn:Ht; [|done].
  trans (woken cpu q t (noted th) s); [|done]. eapply keeps_one; [exact Ht|apply woken_threads|exact (kept_noted' th)|done].
Qed.

Lemma sched_ok_ext s s' : sched_ok s → threads s' = threads s → queues s' = queues s → (∀ t, TLock t ∈ locks s → TLock t ∈ locks s') → sched_ok s'.
Proof.
  intros [[H1 H2 H3 H4] Ha Hp] Et Eq Hl. assert (Eon : ∀ q, on_queue s' q = on_queue s q) by (intros q; unfold on_queue; by rewrite Eq).
  split; [split|..]; intros *; rewrite ?Eon, ?Et; eauto.
Qed.
Lemma keeps_setc c n s : keeps s {| s with conds := <[c := n]> (conds s) |}.
Proof.
  split; [intros t th Ht; by exists th|]. intros c' Hc'. simpl.
  destruct (decide (c = c')) as [<-|]; [by rewrite lookup_insert_eq|by rewrite lookup_insert_ne].
Qed.
Lemma kernel_ok_intro s s' : kernel_ok s → sched_ok s' → locks s' = ∅ → keeps s s' → kernel_ok s'.
Proof. intros [H1 H2 H3] Hs Hl K. split; [done|done|]. by eapply keeps_fine. Qed.
Lemma empty_kernel_ok : kernel_ok empty_sched.
Proof. split; [split; [split|..]|..]; try done. - intros q t Ht. by apply elem_of_nil in Ht. - intros q. apply NoDup_nil_2. Qed.
Lemma lock_free_empty : lock_free [] [] ∅.
Proof. split; [intros t; set_solver|set_solver]. Qed.
Lemma lock_free_one t : lock_free [t] [] ({[TLock t]} ∪ ∅).
Proof. split; [intros t'; set_solver|set_solver]. Qed.
Lemma runs_thread s t : kernel_ok s → runs s t → ∃ th, threads s !! t = Some th ∧ squeues th = [] ∧ attr_ok th ∧ has_flag th THREAD_SETPARK = false ∧
  (∃ g, t_group th = Some g).
Proof.
  intros [Hs Hl Hf] (th & Ht & Hst). exists th. destruct (Hf t th Ht) as ([g Hg] & _ & Hflag). split_and!; [done| |by eapply so_attr|done|by exists g].
  assert (Hp : placed th) by (eapply so_placed; [done..|rewrite Hl; set_solver]). unfold placed in Hp. by rewrite Hst in Hp.
Qed.

Section steps.
Context (node_ok : sched → bool) (Hnode : ∀ s, node_ok s = true) (cpu : Z).

Lemma signal_ok_keeps c s : kernel_ok s → is_Some (conds s !! c) → wp (cond_signal node_ok cpu c) (λ _ s', kernel_ok s' ∧ keeps s s') s.
Proof using Hnode.
  intros K [n Hn]. pose proof K as [Hs Hl Hf]. unfold cond_signal. apply wp_bind, wp_acquire; [rewrite Hl; set_solver|]. apply wp_bind. rewrite Hl.
  assert (L : lock_free [] [] ({[Guard c]} ∪ ∅)) by (split; [intros t; set_solver|set_solver]).
  set (s1 := set_locks ({[Guard c]} ∪ ∅) s). assert (Hs1 : sched_ok s1) by (apply sched_ok_locks; [done|rewrite Hl; set_solver]).
  assert (Hend : ∀ s', sched_ok s' → locks s' = {[Guard c]} ∪ ∅ → keeps s s' → wp (n ← rdc c; setc c (u32 (n - 1));; release (Guard c)) (λ _ s', kernel_ok s' ∧ keeps s s') s').
  { intros s' Hs' Hl' Hk. destruct (proj2 Hk c) as [n' Hn']; [done|]. apply wp_bind. eapply wp_rdc; [done|]. apply wp_bind, wp_modify.
    apply wp_release; [simpl; rewrite Hl'; set_solver|]. split; [|trans s'; [done|exact (keeps_setc c _ s')]].
    eapply kernel_ok_intro; [done|..|trans s'; [done|exact (keeps_setc c _ s')]].
    - eapply sched_ok_ext; [exact Hs'|done|done|]. simpl. rewrite Hl'. set_solver.
    - simpl. rewrite Hl'. set_solver. }
  destruct (on_queue s1 (sleep_queue c)) as [|t l] eqn:Hq; [apply wp_wake1_none; [done|done|]; apply Hend; [done|done|exact (reflexivity (R := keeps) s)]|].
  destruct (queue_head (sleep_queue c) t s1) as (th & Ht & Hin & Ha & Hsq & Hst & _); [done|rewrite Hq; by left|done|simpl; set_solver|].
  eapply (wp_wake1 node_ok Hnode cpu _ t l th); [done..|]. apply Hend; [by apply woken_ok|done|]. exact (keeps_woken cpu (sleep_queue c) t th s Ht).
Qed.
Lemma signal_ok c s : kernel_ok s → is_Some (conds s !! c) → wp (cond_signal node_ok cpu c) (λ _ s', kernel_ok s') s.
Proof using Hnode. intros K Hc. eapply wp_mono; [by apply signal_ok_keeps|]. by intros [] s' [? _]. Qed.
Lemma broadcast_ok c s : kernel_ok s → is_Some (conds s !! c) → wp (cond_broadcast node_ok cpu c) (λ _ s', kernel_ok s') s.
Proof using Hnode.
  intros K [n Hn]. pose proof K as [Hs Hl Hf]. eapply (wp_cond_broadcast node_ok Hnode cpu []); [done|rewrite Hl; apply lock_free_empty|set_solver|rewrite Hl; set_solver|].
  cbv zeta. set (l := on_queue s (sleep_queue c)).
  destruct (wake_list_spec cpu c l s Hs eq_refl) as (H1 & _); [rewrite Hl; set_solver|]. eapply kernel_ok_intro; [done|by eapply sched_ok_ext| |].
  - simpl. by rewrite wake_list_locks.
  - trans (wake_list cpu (sleep_queue c) l s); [apply keeps_wake_list|]. apply keeps_setc.
Qed.

(** *** Waiting, yielding *)

Lemma wait_ok t c s : kernel_ok s → runs s t → is_Some (conds s !! c) → wp (do_event node_ok cpu (Wait t c)) (λ _ s', kernel_ok s') s.
Proof using Hnode.
  intros K Hr [n Hn]. pose proof K as [Hs Hl Hf]. destruct (runs_thread s t K Hr) as (th & Ht & Hq & Ha & Hflag & _).
  simpl do_event. unfold cond_wait_enter. apply wp_bind, wp_bind, wp_acquire; [rewrite Hl; set_solver|].
  apply wp_bind. eapply wp_rdc; [done|]. apply wp_bind, wp_modify. rewrite Hl. case_bool_decide as Hi.
  - apply wp_bind, wp_acquire; [simpl; set_solver|]. apply wp_bind. set (s1 := set_locks _ _).
    assert (Hs1 : sched_ok s1) by (eapply sched_ok_ext; [exact Hs|done|done|rewrite Hl; set_solver]).
    eapply (wp_sleep_enter node_ok Hnode t (sleep_queue c) (Some c) th s1);
      [done|simpl; set_solver|simpl; set_solver|simpl; set_solver|intros ? [= <-]; simpl; set_solver|unfold woken_early; by rewrite Hflag|].
    apply wp_ret. unfold schedule_out. apply wp_bind, wp_assert_held; [simpl; set_solver|]. apply wp_bind. eapply wp_rdt; [apply lookup_insert_eq|].
    simpl t_state. cbv iota. apply wp_release; [simpl; set_solver|]. eapply kernel_ok_intro; [done|..].
    + eapply (unlock_ok t); [apply fell_asleep_ok; [exact Hs1|done|simpl; set_solver|done]|apply lookup_insert_eq|by apply slept_placed|simpl; set_solver].
    + simpl. set_solver.
    + trans {| s with conds := <[c := u32 (n + 1)]> (conds s) |}; [apply keeps_setc|]. by eapply (keeps_one t th).
  - apply wp_bind, wp_release; [simpl; set_solver|]. apply wp_ret, wp_ret. eapply kernel_ok_intro; [done|..].
    + eapply sched_ok_ext; [exact Hs|done|done|rewrite Hl; set_solver].
    + simpl. set_solver.
    + exact (keeps_setc c _ s).
Qed.
Lemma yield_ok t s : kernel_ok s → runs s t → wp (do_event node_ok cpu (Yield t)) (λ _ s', kernel_ok s') s.
Proof using Hnode.
  intros K Hr. pose proof K as [Hs Hl Hf]. destruct (runs_thread s t K Hr) as (th & Ht & Hq & Ha & Hflag & _).
  simpl do_event. unfold sched_yield_enter. apply wp_bind, wp_bind, wp_acquire; [rewrite Hl; set_solver|]. rewrite Hl.
  set (s1 := set_locks _ s). assert (Hs1 : sched_ok s1) by (apply sched_ok_locks; [done|rewrite Hl; set_solver]).
  apply wp_bind. eapply wp_updt; [done|]. eapply wp_sched_enter; [apply set_thread_lookup|simpl; set_solver|done|].
  unfold schedule_out. apply wp_bind, wp_assert_held; [simpl; set_solver|]. apply wp_bind. eapply wp_rdt; [apply set_thread_lookup|].
  simpl t_state. cbv iota. apply wp_bind.
  eapply (wp_sched_park node_ok Hnode); [apply set_thread_lookup|done|done|simpl; set_solver..|]. apply wp_release; [simpl; set_solver|].
  unfold push. rewrite set_thread_twice. pose proof (back_ok cpu t th s1 Hs1 Ht Hq) as Hb.
  eapply kernel_ok_intro; [done|..].
  - eapply (unlock_ok t); [exact Hb|apply lookup_insert_eq|by apply back_placed|simpl; set_solver].
  - simpl. set_solver.
  - by eapply (keeps_one t th).
Qed.
End steps.

(** *** Ending *)

Lemma keeps_buried cpu t th g s : threads s !! t = Some th → keeps s (buried cpu t th g s).
Proof.
  intros Ht. unfold buried. cbv zeta. set (l := on_queue s (sleep_queue (t_wait th))).
  trans (push zombie_queue t th s); [by eapply (keeps_one t th)|].
  trans (wake_list cpu (sleep_queue (t_wait th)) l (push zombie_queue t th s)); [apply keeps_wake_list|].
  match goal with |- keeps ?a _ => exact (keeps_setc (t_wait th) _ a) end.
Qed.
(** A locked thread on no queue, which its state has been set to [T_ZOMBIE]. *)
Definition ended (code : Z) (th : thread) : thread := {| th with t_state := T_ZOMBIE; t_exit := code |}.
Lemma ended_ok code t th s : sched_ok s → threads s !! t = Some th → TLock t ∈ locks s → sched_ok (set_thread t (ended code th) s).
Proof.
  intros Hs Ht Hl. eapply (sched_ok_change t (ended code th)); [exact Hs| |done|exact (so_attr s Hs t th Ht)|done|done].
  eapply linked_thread; [apply Hs|done|done].
Qed.
Lemma zombie_placed code th : squeues th = [] → placed (add_queue zombie_queue (ended code th)).
Proof. intros Hq. unfold placed. simpl. rewrite squeues_add by done. change (squeues (ended code th)) with (squeues th). by rewrite Hq. Qed.

Section ending.
Context (node_ok : sched → bool) (Hnode : ∀ s, node_ok s = true) (cpu : Z).

(** A thread that is alone locked, on no queue and has ended is buried and unlocked. *)
Lemma wp_bury {A} t th code g s0 s (k : Z → M sched A) (Q : A → sched → Prop) : kernel_ok s0 → keeps s0 s → sched_ok s → threads s !! t = Some th →
  locks s = {[TLock t]} ∪ ∅ → squeues th = [] → t_group th = Some g →
  (∀ s', locks s' = {[TLock t]} ∪ ∅ → kernel_ok (set_locks ∅ s') → wp (k 0) Q s') →
  wp (err ← sched_zombie node_ok cpu t; k err) Q (set_thread t (ended code th) s).
Proof using Hnode.
  intros K Hk Hs Ht Hl Hq Hg Hend. set (s1 := set_thread t (ended code th) s).
  assert (Hs1 : sched_ok s1) by (apply ended_ok; [done|done|rewrite Hl; set_solver]).
  assert (L : lock_free [t] [] (locks s1)) by (simpl; rewrite Hl; apply lock_free_one).
  assert (Ht1 : threads s1 !! t = Some (ended code th)) by apply set_thread_lookup.
  assert (Hl1 : TLock t ∈ locks s1) by (simpl; rewrite Hl; set_solver).
  apply wp_bind. eapply (wp_sched_zombie node_ok Hnode cpu t (ended code th) g); [done..|simpl; rewrite Hl; set_solver|].
  destruct (buried_ok cpu t (ended code th) g s1) as (B1 & B2 & B3); [done..|].
  apply Hend; [rewrite B3; exact Hl|]. eapply kernel_ok_intro; [exact K| |done|].
  - eapply (unlock_ok t); [exact B1|exact B2|by apply zombie_placed|]. rewrite B3. simpl. rewrite Hl. set_solver.
  - trans s; [done|]. trans s1; [by eapply (keeps_one t th)|]. by apply (keeps_buried cpu t (ended code th) g s1).
Qed.
Lemma exit_ok t code s : kernel_ok s → runs s t → wp (do_event node_ok cpu (Exit t code)) (λ _ s', kernel_ok s') s.
Proof using Hnode.
  intros K Hr. pose proof K as [Hs Hl Hf]. destruct (runs_thread s t K Hr) as (th & Ht & Hq & Ha & Hflag & g & Hg).
  simpl do_event. unfold thread_exit_enter. apply wp_bind, wp_bind, wp_acquire; [rewrite Hl; set_solver|]. rewrite Hl.
  set (s1 := set_locks _ s). assert (Hs1 : sched_ok s1) by (apply sched_ok_locks; [done|rewrite Hl; set_solver]).
  apply wp_bind. eapply wp_updt; [done|]. eapply wp_sched_enter; [apply set_thread_lookup|simpl; set_solver|done|].
  unfold schedule_out. apply wp_bind, wp_assert_held; [simpl; set_solver|]. apply wp_bind. eapply wp_rdt; [apply set_thread_lookup|].
  simpl t_state. cbv iota. eapply (wp_bury t th code g s s1); [exact K|exact (reflexivity (R := keeps) s)|done..|].
  intros s' Hl' K'. apply wp_bind, wp_kassert; [done|]. apply wp_release; [rewrite Hl'; set_solver|].
  by replace (locks s' ∖ {[TLock t]}) with (∅ : gset lock) by (rewrite Hl'; set_solver).
Qed.
End ending.

(** *** Running *)

Lemma wp_thread_killed t th s (Q : bool → sched → Prop) : threads s !! t = Some th → TLock t ∈ locks s →
  Q (has_flag th THREAD_KILLED) s → wp (thread_killed t) Q s.
Proof.
  intros Ht Hl HQ. unfold thread_killed, spin_holding. apply wp_bind, wp_gets. rewrite bool_decide_true by done.
  apply wp_bind, wp_ret, wp_bind. eapply wp_testflags; [done..|]. apply wp_bind, wp_ret. by apply wp_ret.
Qed.
Lemma keeps_picked cpu i t th s : threads s !! t = Some th → keeps s (picked cpu i t th s).
Proof. intros Ht. by eapply (keeps_one t th). Qed.
Lemma keeps_admitted cpu s : keeps s (admitted cpu s).
Proof.
  unfold admitted. destruct (on_queue s embryo_queue) as [|t l]; [done|]. destruct (threads s !! t) as [th|] eqn:Ht; [by apply keeps_woken|done].
Qed.
(** A running thread that is locked goes on: it is unlocked. *)
Lemma resume_ok t th s0 s : kernel_ok s0 → keeps s0 s → sched_ok s → threads s !! t = Some th → locks s = {[TLock t]} ∪ ∅ →
  t_state th = T_RUNNING → squeues th = [] → wp (resume t) (λ _ s', kernel_ok s') s.
Proof.
  intros K Hk Hs Ht Hl Hst Hq. unfold resume. apply wp_bind. eapply wp_rdt; [done|].
  assert (Hp : placed th) by (unfold placed; by rewrite Hst).
  set (th' := {| th with sleep_on := None |}).
  assert (Hdone : ∀ s', threads s' = <[t := th']> (threads s) → queues s' = queues s → conds s' = conds s → locks s' = ∅ → kernel_ok s').
  { intros s' E1 E2 E3 E4. eapply kernel_ok_intro; [exact K| |done|].
    - eapply (sched_ok_change t th'); [exact Hs| |done|exact (so_attr s Hs t th Ht)| |rewrite Hl; set_solver].
      + pose proof (linked_thread t th th' s (so_linked s Hs) Ht eq_refl) as [H1 H2 H3 H4].
        assert (Eon : ∀ q, on_queue s' q = on_queue s q) by (intros q; unfold on_queue; by rewrite E2).
        split; intros *; rewrite ?Eon, ?E1; eauto.
      + intros _. unfold placed. simpl. by rewrite Hst.
    - trans s; [done|]. eapply (keeps_one t th); [done|done|done|]. by rewrite E3. }
  destruct (sleep_on th) as [q|] eqn:Hon.
  - unfold xched_sleep_leave. apply wp_bind, wp_bind. destruct (sleep_guard th) as [g|] eqn:Hsg.
    + apply wp_acquire; [rewrite Hl; set_solver|]. apply wp_bind. eapply wp_updt; [done|]. apply wp_bind.
      eapply wp_thread_killed; [apply set_thread_lookup|simpl; rewrite ?Hl; set_solver|]. apply wp_ret.
      apply wp_bind, wp_release; [simpl; rewrite ?Hl; set_solver|]. apply wp_release; [simpl; rewrite ?Hl; set_solver|].
      apply Hdone; [unfold th'; simpl; by rewrite Hsg|done|done|simpl; rewrite Hl; set_solver].
    + apply wp_ret, wp_bind. eapply wp_updt; [done|]. apply wp_bind.
      eapply wp_thread_killed; [apply set_thread_lookup|simpl; rewrite ?Hl; set_solver|]. apply wp_ret.
      apply wp_bind, wp_release; [simpl; rewrite ?Hl; set_solver|]. apply wp_ret. apply Hdone; [unfold th'; simpl; by rewrite Hsg|done|done|simpl; rewrite Hl; set_solver].
  - apply wp_release; [rewrite Hl; set_solver|]. apply Hdone; try done; simpl; [|rewrite Hl; set_solver].
    rewrite insert_id; [done|]. rewrite Ht. unfold th'. rewrite <- Hon. by destruct th.
Qed.

Lemma linked_new t th s : linked s → threads s !! t = None → t_queues th = [] → linked (set_thread t th s).
Proof.
  intros [H1 H2 H3 H4] Hn Hq. assert (Hoff : ∀ q, t ∉ on_queue s q) by (intros q Hin; apply H1 in Hin as [? ?]; congruence). split.
  - intros q t' Hin. simpl. destruct (decide (t = t')) as [->|]; [by rewrite lookup_insert_eq|rewrite lookup_insert_ne by done; by apply (H1 q)].
  - intros t' th' q. simpl. rewrite lookup_insert_Some. intros [[<- <-]|[_ Ht']]; [|by apply H2]. rewrite Hq. split; [by intros ?%Hoff|by intros ?%elem_of_nil].
  - done.
  - intros t' th'. simpl. rewrite lookup_insert_Some. intros [[<- <-]|[_ Ht']]; [rewrite Hq; apply NoDup_nil_2|eauto].
Qed.
(** The thread [kthread_create] leaves. *)
Definition newborn (w g : positive) : thread := Thread T_EMBRYO 0 0 0 None SCHED_SOFT_AFFINITY SCHED_LOWEST_PRIORITY 0 (Some g) w [] None None.
Definition born (t : tid) (w g : positive) (s : sched) : sched :=
  let s' := push embryo_queue t (add_queue (group_queue g) (newborn w g)) (push (group_queue g) t (newborn w g) (set_thread t (newborn w g) s)) in
  {| s' with conds := <[w := 0]> (conds s) |}.
Lemma born_threads t w g s : threads (born t w g s) = <[t := add_queue embryo_queue (add_queue (group_queue g) (newborn w g))]> (threads s).
Proof. simpl. by rewrite !insert_insert_eq. Qed.
Lemma born_ok t w g s : kernel_ok s → threads s !! t = None → kernel_ok (born t w g s).
Proof.
  intros [Hs Hl Hf] Hn. split; [|done|].
  - eapply (sched_ok_change t); [exact Hs| |apply born_threads| | |done].
    + assert (H : linked (push embryo_queue t (add_queue (group_queue g) (newborn w g)) (push (group_queue g) t (newborn w g) (set_thread t (newborn w g) s)))).
      { apply linked_push; [apply linked_push; [apply linked_new; [apply Hs|done|done]|apply set_thread_lookup|]|apply lookup_insert_eq|].
        - by intros ?%elem_of_nil.
        - simpl. by intros ?%list_elem_of_singleton. }
      by destruct H.
    + split; [simpl; unfold SCHED_LOWEST_PRIORITY; lia|by left].
    + intros _. unfold placed. simpl. rewrite squeues_add by done. done.
  - intros t' th'. rewrite born_threads, lookup_insert_Some. intros [[<- <-]|[_ Ht']].
    + split_and!; [by eexists| |done]. simpl. rewrite lookup_insert_eq. by eexists.
    + destruct (Hf t' th' Ht') as (F1 & F2 & F3). split_and!; [done| |done]. simpl.
      destruct (decide (w = t_wait th')) as [->|]; [by rewrite lookup_insert_eq|by rewrite lookup_insert_ne].
Qed.

Section run.
Context (node_ok : sched → bool) (Hnode : ∀ s, node_ok s = true) (cpu : Z).

Lemma run_ok s : kernel_ok s → wp (do_event node_ok cpu Run) (λ _ s', kernel_ok s') s.
Proof using Hnode.
  intros K. pose proof K as [Hs Hl Hf]. assert (L : lock_free [] [] (locks s)) by (rewrite Hl; apply lock_free_empty).
  pose proof (admitted_ok cpu s Hs L) as Ha. pose proof (keeps_admitted cpu s) as Hk. pose proof (admitted_locks cpu s) as Hlk. rewrite Hl in Hlk.
  simpl do_event. unfold schedule_in. apply wp_bind, wp_bind. eapply wp_sched_next; [done..|].
  pose proof (first_ready_spec cpu (seqZ 0 NLEVELS) (admitted cpu s)) as Hfr. destruct (first_ready cpu (seqZ 0 NLEVELS) (admitted cpu s)) as [[i t]|].
  - destruct Hfr as (l1 & l2 & l & _ & _ & Hq). intros th Ht.
    destruct (picked_ok cpu i t th l (admitted cpu s)) as [Hp Hsq]; [done|done|done|rewrite Hlk; set_solver|].
    assert (Htp : threads (picked cpu i t th (admitted cpu s)) !! t = Some (running cpu i th)) by apply lookup_insert_eq.
    assert (Hkp : keeps s (picked cpu i t th (admitted cpu s))) by (trans (admitted cpu s); [done|by apply keeps_picked]).
    assert (Hlp : locks (picked cpu i t th (admitted cpu s)) = {[TLock t]} ∪ ∅) by (simpl; by rewrite Hlk).
    apply wp_bind. eapply wp_thread_killed; [exact Htp|rewrite Hlp; set_solver|]. destruct (has_flag (running cpu i th) THREAD_KILLED).
    + destruct (keeps_fine _ _ Hkp Hf t _ Htp) as ([g Hg] & _). apply wp_bind. eapply wp_updt; [exact Htp|].
      eapply (wp_bury node_ok Hnode cpu t (running cpu i th) (- EINTR) g s); [done..|]. intros s' Hl' K'.
      apply wp_bind, wp_release; [rewrite Hl'; set_solver|]. apply wp_ret, wp_ret.
      by replace (locks s' ∖ {[TLock t]}) with (∅ : gset lock) by (rewrite Hl'; set_solver).
    + apply wp_ret. by eapply (resume_ok t (running cpu i th) s).
  - apply wp_ret, wp_ret. by eapply (kernel_ok_intro s).
Qed.

(** *** Starting *)

Lemma wp_set_priority t th p s (Q : unit → sched → Prop) : threads s !! t = Some th → TLock t ∈ locks s → 0 ≤ p ≤ 255 →
  Q tt (set_thread t {| th with t_priority := p |} s) → wp (sched_set_priority t p) Q s.
Proof using Type.
  intros Ht Hl Hp HQ. unfold sched_set_priority. apply wp_bind, wp_assert_held; [done|]. rewrite bool_decide_false by lia. by eapply wp_updt.
Qed.
Lemma start_ok t w g s : kernel_ok s → threads s !! t = None → conds s !! w = None → wp (do_event node_ok cpu (Start t w g)) (λ _ s', kernel_ok s') s.
Proof using Hnode.
  intros K Hnew Hw. pose proof K as [Hs Hl Hf].
  simpl do_event. unfold kthread_create, thread_init. apply wp_bind, wp_bind, wp_bind, wp_modify, wp_bind, wp_modify.
  apply wp_bind, wp_acquire; [simpl; rewrite Hl; set_solver|]. simpl locks. rewrite Hl.
  eapply wp_set_priority; [apply lookup_insert_eq|simpl; set_solver|unfold SCHED_LOWEST_PRIORITY; lia|].
  apply wp_bind. eapply wp_thread_enqueue; [done|apply set_thread_lookup|simpl; set_solver..|].
  rewrite decide_False by lia. apply wp_bind. eapply wp_updt; [apply lookup_insert_eq|].
  apply wp_bind. eapply wp_set_priority; [apply set_thread_lookup|simpl; set_solver|unfold SCHED_LOWEST_PRIORITY; lia|].
  unfold sched_park. apply wp_bind, wp_bind, wp_assert_held; [simpl; set_solver|]. apply wp_bind. eapply wp_rdt; [apply set_thread_lookup|].
  rewrite decide_True by done. eapply wp_thread_enqueue; [done|apply set_thread_lookup|simpl; set_solver..|].
  apply wp_bind, wp_release; [simpl; set_solver|]. apply wp_ret, wp_ret.
  match goal with |- kernel_ok ?x => replace x with (born t w g s); [by apply born_ok|] end.
  apply sched_eq; [|done|simpl; rewrite Hl; set_solver|done]. rewrite born_threads. simpl. by rewrite !insert_insert_eq.
Qed.
End run.

(** *** Killing *)

(** The thread as [thread_kill_n] leaves it. *)
Definition condemned (self : tid) (th : thread) : thread :=
  if bool_decide (t_state th = T_ZOMBIE) || bool_decide (t_state th = T_TERMINATED) || has_flag th THREAD_KILLED then th
  else {| th with t_flags := Z.lor (t_flags th) THREAD_KILLED; t_killer := Z.pos self |}.
Lemma condemned_same self th : kept th (condemned self th) ∧ t_queues (condemned self th) = t_queues th ∧ t_state (condemned self th) = t_state th ∧
  sleep_on (condemned self th) = sleep_on th ∧ (attr_ok th → attr_ok (condemned self th)).
Proof.
  unfold condemned. destruct (_ || _ || _); [done|]. split_and!; try done. split_and!; [done|done|]. unfold has_flag. simpl.
  rewrite Z.land_lor_distr_l. change (Z.land THREAD_KILLED THREAD_SETPARK) with 0. by rewrite Z.lor_0_r.
Qed.
Lemma condemned_placed self th : placed th → placed (condemned self th).
Proof.
  destruct (condemned_same self th) as (_ & E1 & E2 & E3 & _). unfold placed, squeues. rewrite E1, E2, E3. done.
Qed.
Lemma wp_thread_kill_n self t th s (Q : Z → sched → Prop) : threads s !! t = Some th → TLock t ∈ locks s → t ≠ self →
  Q 0 (set_thread t (condemned self th) s) → wp (thread_kill_n self t) Q s.
Proof.
  intros Ht Hl Hne HQ. unfold thread_kill_n. rewrite decide_False by done. apply wp_bind, wp_assert_held; [done|].
  apply wp_bind. eapply wp_in_state; [done..|]. apply wp_bind. eapply wp_in_state; [done..|]. apply wp_bind. eapply wp_thread_killed; [done..|].
  unfold condemned in HQ. destruct (_ || _ || _); [apply wp_ret; by rewrite set_thread_id in HQ|].
  unfold setflags. apply wp_bind, wp_bind, wp_assert_held; [done|]. eapply wp_updt; [done|]. apply wp_bind.
  eapply wp_updt; [apply set_thread_lookup|]. apply wp_ret. by rewrite set_thread_twice.
Qed.

Section kill.
Context (node_ok : sched → bool) (Hnode : ∀ s, node_ok s = true) (cpu : Z).

Lemma wp_wake_n_awake t th s (Q : Z → sched → Prop) : threads s !! t = Some th → TLock t ∈ locks s → t_state th ≠ T_ISLEEP →
  has_flag th THREAD_SETPARK = false → Q 0 s → wp (thread_wake_n node_ok cpu t) Q s.
Proof using Type.
  intros Ht Hl Hst Hflag HQ. unfold thread_wake_n. apply wp_bind, wp_assert_held; [done|]. eapply wp_note; [done..|].
  rewrite kept_noted, set_thread_id by done. apply wp_bind. eapply wp_in_state; [done..|]. rewrite bool_decide_false by done. by apply wp_ret.
Qed.
Lemma kill_ok self t s : kernel_ok s → self ≠ t → is_Some (threads s !! t) → wp (do_event node_ok cpu (Kill self t)) (λ _ s', kernel_ok s') s.
Proof using Hnode.
  intros K Hne [th Ht]. pose proof K as [Hs Hl Hf]. simpl do_event. unfold kill_one. apply wp_bind, wp_acquire; [rewrite Hl; set_solver|]. rewrite Hl.
  set (s1 := set_locks _ s). apply wp_bind. eapply (wp_thread_kill_n self t th); [done|simpl; set_solver|done|].
  destruct (condemned_same self th) as (Hkept & E1 & E2 & E3 & E4). set (th1 := condemned self th) in *.
  assert (Hp : placed th1) by (apply condemned_placed; eapply so_placed; [done..|rewrite Hl; set_solver]).
  assert (Hs0 : sched_ok (set_thread t th1 s)).
  { eapply (sched_ok_change t th1); [exact Hs| |done|apply E4; by eapply so_attr|done|done]. eapply linked_thread; [apply Hs|done|done]. }
  assert (K0 : kernel_ok (set_thread t th1 s)) by (eapply kernel_ok_intro; [done|done|done|by eapply (keeps_one t th)]).
  assert (Ht0 : threads (set_thread t th1 s) !! t = Some th1) by apply set_thread_lookup. clearbody th1.
  apply wp_bind. eapply wp_rdt; [apply set_thread_lookup|]. apply wp_bind.
  assert (Hend : ∀ s', kernel_ok (set_locks ∅ s') → locks s' = {[TLock t]} ∪ ∅ → wp (release (TLock t)) (λ _ s', kernel_ok s') s').
  { intros s' K' Hl'. apply wp_release; [rewrite Hl'; set_solver|].
    by replace (locks s' ∖ {[TLock t]}) with (∅ : gset lock) by (rewrite Hl'; set_solver). }
  assert (Hid : set_locks ∅ (set_thread t th1 s1) = set_thread t th1 s) by (apply sched_eq; try done; simpl; by rewrite Hl).
  destruct (sleep_on th1) as [q|] eqn:Hon; [|apply wp_ret, Hend; [by rewrite Hid|done]].
  apply wp_bind, wp_acquire; [simpl; set_solver|]. apply wp_bind. destruct (ko_fine _ K0 t th1 Ht0) as (_ & _ & Hflag).
  destruct (decide (t_state th1 = T_ISLEEP)) as [Hst|Hst].
  - assert (Hq : ∃ x, q = sleep_queue x ∧ squeues th1 = [q]).
    { unfold placed in Hp. rewrite Hst in Hp. destruct Hp as (x & Hx & Hsq). exists x. by simplify_eq/=. }
    destruct Hq as (x & -> & Hsq). assert (Hin : sleep_queue x ∈ t_queues th1) by (apply elem_of_squeues; rewrite Hsq; by left).
    eapply (wp_thread_wake_n node_ok Hnode cpu (sleep_queue x) t th1); [apply set_thread_lookup|done|done|done| |by eapply (so_attr _ Hs0)|simpl; set_solver..|].
    { by apply (li_sync _ (so_linked _ Hs0) t th1). }
    rewrite kept_noted by done. apply wp_release; [simpl; set_solver|]. apply Hend; [|simpl; set_solver].
    eapply (kernel_ok_intro (set_thread t th1 s)); [done| |done|].
    + eapply sched_ok_ext; [exact (woken_ok cpu _ t th1 _ Hs0 Ht0 Hsq eq_refl)|done|done|simpl; rewrite Hl; set_solver].
    + exact (keeps_woken cpu (sleep_queue x) t th1 _ Ht0).
  - eapply wp_wake_n_awake; [apply set_thread_lookup|simpl; set_solver|done|done|]. apply wp_release; [simpl; set_solver|].
    apply Hend; [|simpl; set_solver]. by rewrite <- Hid in K0.
Qed.

(** One event. *)
Lemma do_event_ok e s : kernel_ok s → enabled e s → wp (do_event node_ok cpu e) (λ _ s', kernel_ok s') s.
Proof using Hnode.
  intros K He. destruct e; simpl in He; destruct_and?.
  - by apply start_ok.
  - by apply run_ok.
  - by apply wait_ok.
  - by apply signal_ok.
  - by apply broadcast_ok.
  - by apply yield_ok.
  - by apply exit_ok.
  - by apply kill_ok.
Qed.
End kill.
Lemma seqZ_before m n l1 i l2 j : seqZ m n = l1 ++ i :: l2 → m ≤ j < i → j ∈ l1.
Proof.
  intros Hs Hj. assert (Hlen : (length l1 < Z.to_nat n)%nat).
  { rewrite <- (length_seqZ m n), Hs, length_app. simpl. lia. }
  assert (Hi : i = m + Z.of_nat (length l1)).
  { assert (H : seqZ m n !! length l1 = Some i) by (rewrite Hs; by apply list_lookup_middle). apply lookup_seqZ in H. lia. }
  assert (H : seqZ m n !! Z.to_nat (j - m) = Some j) by (apply lookup_seqZ; lia).
  rewrite Hs, lookup_app_l in H by lia. by eapply list_elem_of_lookup_2.
Qed.

(** ** Every reachable state *)

Definition plenty (s : sched) : bool := true.
Lemma reachable_ok node_ok s : (∀ s, node_ok s = true) → reachable node_ok s → kernel_ok s.
Proof.
  intros Hnode. induction 1 as [|cpu e s s' _ K He Hdo]; [apply empty_kernel_ok|].
  pose proof (do_event_ok node_ok Hnode cpu e s K He) as Hwp. apply wp_exec in Hwp as (a & s'' & Hdo' & K'). rewrite Hdo in Hdo'. by injection Hdo' as _ <-.
Qed.

(** C4: In every state the scheduler reaches, whatever threads are started, run, wait,
    are signalled, yield, are killed and end, in any order and on any CPUs, no spinlock
    is held, the queues and the threads' lists of queues agree, and every thread is
    exactly on the queue its state asks for: embryos on the embryo queue, ready threads
    on one ready queue of a valid level, sleeping threads on the queue they sleep on,
    zombies on the zombie queue, running threads on none; provided that [enqueue] does
    not run out of memory. *)
Theorem sched_invariant node_ok s : (∀ s, node_ok s = true) → reachable node_ok s → kernel_ok s.
Proof. apply reachable_ok. Qed.

(** C5: No event ends in a panic or a fault: in every state the scheduler reaches, an
    event that can happen runs to its end; no assertion of the scheduler about locks and
    states fails, and no thread is taken from a queue it is not on; provided that
    [enqueue] does not run out of memory ([sched_park] asserts that it does not). *)
Theorem sched_no_panic node_ok cpu e s : (∀ s, node_ok s = true) → reachable node_ok s → enabled e s →
  ∃ s', do_event node_ok cpu e s = Ok (tt, s').
Proof.
  intros Hnode Hr He. pose proof (do_event_ok node_ok Hnode cpu e s (reachable_ok _ _ Hnode Hr) He) as Hwp.
  apply wp_exec in Hwp as ([] & s' & Hdo & _). by exists s'.
Qed.

(** [sched_next] lets the embryo at the head of the embryo queue in, to the end of
    its ready queue, and then picks the first thread of the first non-empty level of
    this CPU: every better level is empty, the thread is off its queue, running, locked,
    and has the time slice of the level; without a ready thread it changes nothing
    else.  The invariant holds either way. *)
Theorem sched_next_correct node_ok cpu s : (∀ s, node_ok s = true) → sched_ok s → lock_free [] [] (locks s) →
  wp (sched_next node_ok cpu) (λ r s',
    sched_ok s' ∧
    match r with
    | None => s' = admitted cpu s ∧ ∀ i, 0 ≤ i < NLEVELS → on_queue s' (ready_queue cpu i) = []
    | Some t => ∃ i l th, 0 ≤ i < NLEVELS ∧ on_queue (admitted cpu s) (ready_queue cpu i) = t :: l ∧
        (∀ j, 0 ≤ j < i → on_queue (admitted cpu s) (ready_queue cpu j) = []) ∧
        threads (admitted cpu s) !! t = Some th ∧ s' = picked cpu i t th (admitted cpu s) ∧ on_queue s' (ready_queue cpu i) = l
    end) s.
Proof.
  intros Hnode Hs L. pose proof (admitted_ok cpu s Hs L) as Ha. eapply wp_sched_next; [done..|].
  pose proof (first_ready_spec cpu (seqZ 0 NLEVELS) (admitted cpu s)) as Hfr.
  destruct (first_ready cpu (seqZ 0 NLEVELS) (admitted cpu s)) as [[i t]|].
  - destruct Hfr as (l1 & l2 & l & Hlev & Hbefore & Hq). intros th Ht.
    assert (Hi : 0 ≤ i < NLEVELS) by (cut (i ∈ seqZ 0 NLEVELS); [rewrite elem_of_seqZ; lia|rewrite Hlev; set_solver]).
    destruct (picked_ok cpu i t th l (admitted cpu s)) as [Hp _]; [done|done|done|rewrite admitted_locks; by apply (lock_free_thread [] _ t L), not_elem_of_nil|].
    split; [done|]. exists i, l, th. split_and!; [lia|lia|done| |done|done|].
    + intros j Hj. apply Hbefore. eapply seqZ_before; [exact Hlev|lia].
    + unfold picked. change (on_queue (set_locks ?h ?x)) with (on_queue x). rewrite on_queue_set, decide_True by done.
      rewrite Hq. simpl. by rewrite decide_True.
  - split; [done|]. split; [done|]. intros i Hi. apply Hfr, elem_of_seqZ. lia.
Qed.

(** ** A run of the scheduler *)

Definition after (cpu : Z) (e : event) (s : sched) : sched := match do_event plenty cpu e s with Ok (_, s') => s' | _ => s end.
(** Two threads are started, one runs and waits for the other to end. *)
Definition demo_start : sched := after 0 (Start 11 21 1) (after 0 (Start 10 20 1) empty_sched).
Definition demo_wait : sched := after 0 (Wait 10 21) (after 0 Run demo_start).
Lemma reach_after cpu e s : reachable plenty s → enabled e s → reachable plenty (after cpu e s).
Proof.
  intros Hr He. pose proof (do_event_ok plenty (λ _, eq_refl) cpu e s (reachable_ok plenty s (λ _, eq_refl) Hr) He) as Hwp.
  apply wp_exec in Hwp as (a & s' & Hdo & _).
  destruct a. eapply reach_step; [done..|]. unfold after. rewrite Hdo. done.
Qed.
Lemma demo_wait_reachable : reachable plenty demo_wait.
Proof.
  repeat (apply reach_after; [|vm_compute; eauto 10]). - apply reach_init.
Qed.

Lemma sched_invariant_witness : reachable plenty demo_wait ∧ kernel_ok demo_wait ∧
  on_queue demo_wait (sleep_queue 21) = [10%positive] ∧ on_queue demo_wait embryo_queue = [11%positive].
Proof.
  split; [apply demo_wait_reachable|]. split; [apply (sched_invariant plenty); [done|apply demo_wait_reachable]|]. split; vm_compute; reflexivity.
Defined.
Lemma sched_no_panic_witness : enabled (Broadcast 21) demo_wait ∧ ∃ s', do_event plenty 1 (Broadcast 21) demo_wait = Ok (tt, s').
Proof.
  assert (H : enabled (Broadcast 21) demo_wait) by (vm_compute; eauto). split; [exact H|].
  apply (sched_no_panic plenty 1 (Broadcast 21) demo_wait); [done|apply demo_wait_reachable|exact H].
Defined.
Lemma sched_next_correct_witness : sched_ok demo_start ∧ (∃ s', sched_next plenty 0 demo_start = Ok (Some 10%positive, s')).
Proof.
  assert (K : kernel_ok demo_start).
  { apply (reachable_ok plenty); [done|]. repeat (apply reach_after; [|vm_compute; eauto 10]). apply reach_init. }
  pose proof (sched_next_correct plenty 0 demo_start (λ _, eq_refl) (ko_sched _ K)) as H.
  rewrite (ko_locks _ K) in H. specialize (H lock_free_empty). split; [apply K|].
  destruct (proj1 (wp_exec (sched_next plenty 0) _ demo_start) H) as (r & s' & Hr & _). exists s'. assert (Hv : (match sched_next plenty 0 demo_start with Ok (r, _) => r | _ => None end) = Some 10%positive)
    by (vm_compute; reflexivity). rewrite Hr in Hv |- *. by rewrite Hv.
Defined.
