(* ===== verification/Locks.v ===== *)
(** * Mutexes and events ([kernel/locks/mutex.c], [kernel/locks/event.c])

    Over the scheduler of [Sched]: a function that may sleep is two, what it does up to
    [swtch] and what it does when the thread runs again.  [pushcli] and [popcli] count
    nested requests to keep interrupts off and are not modelled. *)
From S2P Require Import Prelude Sched.

Section locks.
Context (node_ok : sched → bool) (cpu : Z).

(** ** Mutexes *)

Definition rdm (m : positive) : M sched mutex := λ s, match mutexes s !! m with Some v => Ok (v, s) | None => Fault end.
Definition setm (m : positive) (v : mutex) : M sched unit := modify (λ s, {| s with mutexes := <[m := v]> (mutexes s) |}).
Definition updm (m : positive) (f : mutex → mutex) : M sched unit := v ← rdm m; setm m (f v).

(** [mutex_lock] of thread [self] up to [swtch]: its result, or whether it switches. *)
Definition mutex_lock_enter (self : tid) (m : positive) : M sched (Z + bool) :=
  acquire (Guard m);;
  v ← rdm m;
  if decide (m_thread v = Some self) then panic else
  updm m (λ v, {| v with m_lock := u32 (m_lock v + 1) |});;
  if bool_decide (0 < i32 (m_lock v)) then
    acquire (TLock self);;
    r ← xched_sleep_enter node_ok self (sleep_queue m) (Some m);
    match r with
    | inl err =>
        release (TLock self);;
        updm m (λ v, {| v with m_thread := Some self |});;
        release (Guard m);;
        mret (inl err)
    | inr b => mret (inr b)
    end
  else
    updm m (λ v, {| v with m_thread := Some self |});;
    release (Guard m);;
    mret (inl 0).
(** The rest of it. *)
Definition mutex_lock_leave (self : tid) (m : positive) : M sched Z :=
  retval ← xched_sleep_leave self (Some m);
  release (TLock self);;
  updm m (λ v, {| v with m_thread := Some self |});;
  release (Guard m);;
  mret retval.

Definition mutex_unlock (self : tid) (m : positive) : M sched unit :=
  acquire (Guard m);;
  v ← rdm m;
  if decide (m_thread v = Some self) then
    updm m (λ v, {| v with m_thread := None |});;
    v ← rdm m;
    updm m (λ v, {| v with m_lock := u32 (m_lock v - 1) |});;
    if bool_decide (i32 (m_lock v) ≤ 0) then panic else
    xched_wake1 node_ok cpu (sleep_queue m);;
    release (Guard m)
  else panic.

Definition mutex_try_lock (self : tid) (m : positive) : M sched Z :=
  acquire (Guard m);;
  v ← rdm m;
  if decide (m_thread v = Some self) then panic else
  updm m (λ v, {| v with m_lock := 1 |});;
  if decide (m_lock v = 0) then
    updm m (λ v, {| v with m_thread := Some self |});;
    release (Guard m);;
    mret 1
  else release (Guard m);; mret 0.

(** ** Events *)

Definition rde (e : positive) : M sched Z := λ s, match events s !! e with Some v => Ok (v, s) | None => Fault end.
Definition sete (e : positive) (v : Z) : M sched unit := modify (λ s, {| s with events := <[e := v]> (events s) |}).

Definition event_wait_enter (self : tid) (e : positive) : M sched (Z + bool) :=
  acquire (Guard e);;
  v ← rde e;
  if decide (v = 0) then
    acquire (TLock self);;
    r ← xched_sleep_enter node_ok self (sleep_queue e) (Some e);
    match r with
    | inl err => release (TLock self);; release (Guard e);; mret (inl (- EINTR))
    | inr b => mret (inr b)
    end
  else sete e 0;; release (Guard e);; mret (inl 0).
Definition event_wait_leave (self : tid) (e : positive) : M sched Z :=
  r ← xched_sleep_leave self (Some e);
  if decide (r ≠ 0) then release (TLock self);; release (Guard e);; mret (- EINTR) else
  release (TLock self);;
  sete e 0;;
  release (Guard e);;
  mret 0.
Definition event_signal (e : positive) : M sched unit :=
  acquire (Guard e);;
  woken ← xched_wake1 node_ok cpu (sleep_queue e);
  (if decide (woken = 0) then sete e 1 else sete e 0);;
  release (Guard e).
Definition event_broadcast (e : positive) : M sched Z :=
  acquire (Guard e);;
  woken ← xched_wakeall node_ok cpu (sleep_queue e);
  (if decide (woken = 0) then sete e 1 else sete e 0);;
  release (Guard e);;
  mret 0.
End locks.
