(* ===== verification/LocksSpec.v ===== *)
(** * What the mutexes promise

    A mutex is a holder and a queue of waiters: [mutex_lock] takes a free mutex and
    otherwise queues the caller, [mutex_unlock] hands the mutex to the first waiter.
    [mutex_try_lock] breaks this. *)
From S2P Require Import Prelude Sched SchedInv SchedSpec SchedSwitch SchedStep Locks.

(** ** The abstract mutex *)

Record fifo_mutex : Type := FifoMutex { holder : option tid; waiting : list tid }.
Definition fifo_lock (t : tid) (a : fifo_mutex) : fifo_mutex :=
  match holder a with None => FifoMutex (Some t) [] | Some o => FifoMutex (Some o) (waiting a ++ [t]) end.
Definition fifo_unlock (a : fifo_mutex) : fifo_mutex := FifoMutex (head (waiting a)) (tail (waiting a)).

(** [m] implements [a]: the count is that of the holder and the waiters. *)
Record mutex_rep (m : positive) (a : fifo_mutex) (s : sched) : Prop := MutexRep {
  mr_queue : on_queue s (sleep_queue m) = waiting a;
  mr_free : holder a = None → waiting a = [];
  mr_mutex : ∃ th, mutexes s !! m = Some (Mutex (Z.of_nat (length (option_list (holder a)) + length (waiting a))) th) ∧ (th = None ∨ th = holder a);
}.
(** Fewer than 2^31 threads take part. *)
Definition room (a : fifo_mutex) : Prop := Z.of_nat (length (waiting a)) < 2 ^ 31 - 2.

Lemma wp_rdm m v s (Q : mutex → sched → Prop) : mutexes s !! m = Some v → Q v s → wp (rdm m) Q s.
Proof. intros H HQ. apply wp_exec. exists v, s. split; [|done]. unfold rdm. by rewrite H. Qed.
Definition set_mutex (m : positive) (v : mutex) (s : sched) : sched := {| s with mutexes := <[m := v]> (mutexes s) |}.
Lemma wp_updm m v f s (Q : unit → sched → Prop) : mutexes s !! m = Some v → Q tt (set_mutex m (f v) s) → wp (updm m f) Q s.
Proof. intros H HQ. unfold updm. apply wp_bind. eapply wp_rdm; [done|]. by apply wp_modify. Qed.
Lemma set_mutex_twice m v w s : set_mutex m v (set_mutex m w s) = set_mutex m v s.
Proof. unfold set_mutex. simpl. by rewrite insert_insert_eq. Qed.
Lemma set_mutex_lookup m v s : mutexes (set_mutex m v s) !! m = Some v.
Proof. apply lookup_insert_eq. Qed.

(** What a thread needs to call into a mutex: it runs, is on no queue, holds no spinlock. *)
Record calls (t : tid) (th : thread) (s : sched) : Prop := Calls {
  ca_ok : sched_ok s;
  ca_locks : locks s = ∅;
  ca_thread : threads s !! t = Some th;
  ca_runs : t_state th = T_RUNNING;
  ca_awake : woken_early th = false;
}.
Lemma calls_off t th s : calls t th s → squeues th = [].
Proof.
  intros [Hs Hl Ht Hr _]. assert (Hp : placed th) by (eapply so_placed; [done..|rewrite Hl; set_solver]). unfold placed in Hp. by rewrite Hr in Hp.
Qed.

(** The thread the mutex was handed to runs again, locked, and goes on as its holder. *)
Lemma mutex_lock_leave_spec m a t th s : mutex_rep m a s → holder a = Some t → threads s !! t = Some th → locks s = {[TLock t]} →
  wp (mutex_lock_leave t m) (λ r s', r = (if has_flag th THREAD_KILLED then - EINTR else 0) ∧ mutex_rep m a s' ∧ locks s' = ∅ ∧
    mutexes s' !! m = Some (Mutex (Z.of_nat (S (length (waiting a)))) (Some t)) ∧
    threads s' = <[t := {| th with sleep_on := None |}]> (threads s) ∧ queues s' = queues s) s.
Proof.
  intros [Rq Rf (mt & Rm & Rt)] Hh Ht Hl. rewrite Hh in Rm, Rt. unfold mutex_lock_leave, xched_sleep_leave.
  apply wp_bind, wp_bind, wp_acquire; [rewrite Hl; set_solver|]. rewrite Hl. apply wp_bind. eapply wp_updt; [done|].
  apply wp_bind. eapply wp_thread_killed; [apply set_thread_lookup|simpl; set_solver|]. apply wp_ret.
  apply wp_bind, wp_release; [simpl; set_solver|]. apply wp_bind. eapply wp_updm; [done|]. apply wp_bind, wp_release; [simpl; set_solver|].
  apply wp_ret. split_and!; try done; simpl; [|set_solver|by rewrite lookup_insert_eq]. split; [done|by rewrite Hh|].
  exists (Some t). rewrite Hh. simpl. rewrite lookup_insert_eq. split; [done|by right].
Qed.

Section mutex.
Context (node_ok : sched → bool) (Hnode : ∀ s, node_ok s = true) (cpu : Z).

Lemma mutex_lock_spec m a t th s : calls t th s → mutex_rep m a s → holder a ≠ Some t → room a →
  wp (mutex_lock_enter node_ok t m) (λ r s', mutex_rep m (fifo_lock t a) s' ∧
    match holder a with
    | None => r = inl 0 ∧ locks s' = ∅ ∧ threads s' = threads s ∧ queues s' = queues s ∧ mutexes s' !! m = Some (Mutex 1 (Some t))
    | Some _ => r = inr true ∧ locks s' = {[TLock t]} ∧ threads s' = <[t := slept (sleep_queue m) (Some m) th]> (threads s) ∧ sched_ok s'
    end) s.
Proof using Hnode.
  intros C [Rq Rf (mt & Rm & Rt)] Hne Hroom. pose proof C as [Hs Hl Ht Hr Hw]. pose proof (calls_off t th s C) as Hq. unfold room in Hroom.
  unfold mutex_lock_enter. apply wp_bind, wp_acquire; [rewrite Hl; set_solver|]. rewrite Hl. apply wp_bind. eapply wp_rdm; [done|]. simpl m_thread.
  rewrite decide_False by (destruct Rt as [->| ->]; congruence). apply wp_bind. eapply wp_updm; [done|]. simpl m_lock. destruct a as [[o|] ws]; simpl in *.
  - rewrite bool_decide_true by (rewrite i32_small; lia). apply wp_bind, wp_acquire; [simpl; set_solver|]. apply wp_bind.
    set (s1 := set_locks _ _). assert (Hs1 : sched_ok s1) by (eapply sched_ok_ext; [exact Hs|done|done|rewrite Hl; set_solver]).
    eapply (wp_sleep_enter node_ok Hnode t (sleep_queue m) (Some m) th s1); [done|simpl; set_solver..|intros ? [= <-]; simpl; set_solver|done|].
    apply wp_ret. split; [split|]; simpl.
    + unfold fell_asleep. change (on_queue (set_locks ?h ?x)) with (on_queue x). rewrite on_queue_set, decide_True by done. by rewrite <- Rq.
    + done.
    + exists mt. split; [|done]. rewrite lookup_insert_eq. do 2 f_equal. rewrite u32_small, length_app by lia. simpl. lia.
    + split_and!; [done|set_solver|done|]. apply fell_asleep_ok; [done|done|simpl; set_solver|done].
  - rewrite Rf in * by done. simpl. assert (mt = None) as -> by naive_solver. apply wp_bind.
    eapply wp_updm; [apply set_mutex_lookup|]. rewrite set_mutex_twice. apply wp_bind, wp_release; [simpl; set_solver|]. apply wp_ret.
    simpl. rewrite lookup_insert_eq. split; [split|]; simpl; [done|done| |].
    + exists (Some t). rewrite lookup_insert_eq. split; [done|by right].
    + split_and!; [done|set_solver|done..].
Qed.
Lemma mutex_unlock_spec m a t th n s : calls t th s → mutex_rep m a s → holder a = Some t → mutexes s !! m = Some (Mutex n (Some t)) → room a →
  wp (mutex_unlock node_ok cpu t m) (λ _ s', mutex_rep m (fifo_unlock a) s' ∧ sched_ok s' ∧ locks s' = ∅ ∧
    match waiting a with
    | [] => threads s' = threads s ∧ queues s' = queues s
    | w :: _ => ∃ thw, threads s !! w = Some thw ∧ threads s' = <[w := add_queue (home cpu thw) (parked cpu (readied (sleep_queue m) thw))]> (threads s)
    end) s.
Proof using Hnode.
  intros C [Rq Rf (mt & Rm & Rt)] Hh Hm Hroom. pose proof C as [Hs Hl Ht Hr Hw]. unfold room in Hroom. destruct a as [o ws]. simpl in *. subst o.
  assert (n = Z.of_nat (S (length ws)) ∧ mt = Some t) as [-> ->] by (rewrite Hm in Rm; simplify_eq/=; naive_solver).
  unfold mutex_unlock. apply wp_bind, wp_acquire; [rewrite Hl; set_solver|]. rewrite Hl. apply wp_bind. eapply wp_rdm; [done|].
  rewrite decide_True by done. apply wp_bind. eapply wp_updm; [done|]. apply wp_bind. eapply wp_rdm; [apply set_mutex_lookup|].
  apply wp_bind. eapply wp_updm; [apply set_mutex_lookup|]. rewrite set_mutex_twice. simpl m_lock. rewrite bool_decide_false by (rewrite i32_small; lia).
  simpl m_thread. rewrite u32_small by lia. replace (Z.of_nat (S (length ws)) - 1) with (Z.of_nat (length ws)) by lia. set (s1 := set_mutex _ _ _).
  assert (Hs1 : sched_ok s1) by (eapply sched_ok_ext; [exact Hs|done|done|rewrite Hl; set_solver]).
  assert (L : lock_free [] [] (locks s1)) by (split; [intros t'; simpl; set_solver|simpl; set_solver]).
  apply wp_bind. destruct ws as [|w ws].
  - apply wp_wake1_none; [exact Rq|done|]. apply wp_release; [simpl; set_solver|]. split_and!; [split|..]; try done; simpl; [| |set_solver].
    + exists None. rewrite lookup_insert_eq. split; [done|by left].
    + eapply sched_ok_ext; [exact Hs|done|done|rewrite Hl; set_solver].
  - destruct (queue_head (sleep_queue m) w s1) as (thw & Htw & Hin & Ha & Hsq & Hst & _);
      [done|change (w ∈ on_queue s (sleep_queue m)); rewrite Rq; by left|done|simpl; set_solver|].
    eapply (wp_wake1 node_ok Hnode cpu _ w ws thw); [exact Rq|done..|]. apply wp_release; [simpl; set_solver|].
    pose proof (woken_ok cpu _ w thw s1 Hs1 Htw Hsq eq_refl) as Hwk. split_and!.
    + split; simpl; [|done|].
      * change (on_queue (set_locks ?h ?x)) with (on_queue x). rewrite on_queue_woken, decide_False, decide_True by done.
        change (on_queue s1 (sleep_queue m)) with (on_queue s (sleep_queue m)). rewrite Rq. simpl. by rewrite decide_True.
      * exists None. rewrite lookup_insert_eq. split; [|by left]. do 2 f_equal.
    + eapply sched_ok_ext; [exact Hwk|done|done|simpl; set_solver].
    + simpl. set_solver.
    + exists thw. split; [done|]. apply (woken_threads cpu (sleep_queue m) w thw s1).
Qed.
End mutex.

(** ** The properties *)

(** C33: [mutex_lock], up to the switch to another thread if the caller has to wait,
    implements the lock of a FIFO mutex: it takes a free mutex at once and records its
    holder; on a mutex that is held it queues the caller behind the other waiters,
    asleep, and lets go of the guard, and the holder stays the holder.  The caller is
    running, holds no lock and not the mutex, and has not been told to wake up before it
    sleeps ([woken_early]); [enqueue] has memory, and fewer than 2^31 - 2 threads wait.
    What follows the switch is [mutex_lock_leave]. *)
Theorem mutex_lock_correct node_ok m a t th s : (∀ s, node_ok s = true) → calls t th s → mutex_rep m a s → holder a ≠ Some t → room a →
  wp (mutex_lock_enter node_ok t m) (λ r s', mutex_rep m (fifo_lock t a) s' ∧
    match holder a with
    | None => r = inl 0 ∧ locks s' = ∅ ∧ threads s' = threads s ∧ queues s' = queues s ∧ mutexes s' !! m = Some (Mutex 1 (Some t))
    | Some _ => r = inr true ∧ locks s' = {[TLock t]} ∧ threads s' = <[t := slept (sleep_queue m) (Some m) th]> (threads s) ∧ sched_ok s'
    end) s.
Proof. intros. by apply mutex_lock_spec. Qed.

(** [mutex_unlock] by the holder hands the mutex to the thread that has waited
    longest and makes that thread ready on its ready queue, so that nobody can take the
    mutex in between; without waiters the mutex is free again.  The invariant of the
    scheduler is kept. *)
Theorem mutex_unlock_correct node_ok cpu m a t th n s : (∀ s, node_ok s = true) → calls t th s → mutex_rep m a s → holder a = Some t →
  mutexes s !! m = Some (Mutex n (Some t)) → room a →
  wp (mutex_unlock node_ok cpu t m) (λ _ s', mutex_rep m (fifo_unlock a) s' ∧ sched_ok s' ∧ locks s' = ∅ ∧
    match waiting a with
    | [] => threads s' = threads s ∧ queues s' = queues s
    | w :: _ => ∃ thw, threads s !! w = Some thw ∧ threads s' = <[w := add_queue (home cpu thw) (parked cpu (readied (sleep_queue m) thw))]> (threads s)
    end) s.
Proof. intros. by eapply mutex_unlock_spec. Qed.

(** Three threads on three CPUs, a mutex. *)
Definition with_mutex (m : positive) (s : sched) : sched := set_mutex m (Mutex 0 None) s.
Definition start_and_run (cpu : Z) (t w : positive) : M sched unit := do_event plenty cpu (Start t w 1);; do_event plenty cpu Run.
Definition three_threads : M sched unit := start_and_run 0 10 20;; start_and_run 1 11 21;; start_and_run 2 12 22.
(** Thread 10 takes the mutex, 11 waits for it, 12 tries and fails; 10 unlocks, 12
    tries again; 11 runs. *)
Definition try_lock_run (m : positive) : M sched (Z * Z * option tid * Z) :=
  three_threads;;
  mutex_lock_enter plenty 10 m;;
  mutex_lock_enter plenty 11 m;;
  schedule_out plenty 1 11;;
  r1 ← mutex_try_lock 12 m;
  mutex_unlock plenty 0 10 m;;
  r2 ← mutex_try_lock 12 m;
  t ← schedule_in plenty 1;
  r3 ← mutex_lock_leave 11 m;
  mret (r1, r2, t, r3).

(** [mutex_try_lock] breaks mutual exclusion.  It stores 1 in the count of a mutex it
    does not get, so that the count no longer knows the waiters: after the holder's
    [mutex_unlock] the mutex looks free although it was handed to a waiter, a second
    [mutex_try_lock] succeeds, and the waiter's [mutex_lock] returns 0 as well: threads
    12 and 11 both hold the mutex. *)
Theorem mutex_try_lock_breaks : ∃ s, try_lock_run 5 (with_mutex 5 empty_sched) = Ok ((0, 1, Some 11%positive, 0), s).
Proof. eexists. vm_compute. reflexivity. Qed.

(** [event_signal] releases two threads for one signal.  [xched_wake1] returns 0
    whether it woke a thread or not, so an event with a waiter is signalled and stays
    set: the waiter is made ready, and the next [event_wait] does not wait either. *)
Theorem event_signal_releases_two node_ok cpu e w ws v t s : (∀ s, node_ok s = true) → sched_ok s → locks s = ∅ →
  on_queue s (sleep_queue e) = w :: ws → events s !! e = Some v →
  wp (event_signal node_ok cpu e;; event_wait_enter node_ok t e) (λ r s', r = inl 0 ∧
    ∃ th, threads s' !! w = Some th ∧ t_state th = T_READY ∧ on_queue s' (sleep_queue e) = ws) s.
Proof.
  intros Hnode Hs Hl Hq He. unfold event_signal. apply wp_bind, wp_bind, wp_acquire; [rewrite Hl; set_solver|]. rewrite Hl.
  set (s1 := set_locks _ s). assert (Hs1 : sched_ok s1) by (eapply sched_ok_ext; [exact Hs|done|done|rewrite Hl; set_solver]).
  destruct (queue_head (sleep_queue e) w s1) as (th & Ht & Hin & Ha & Hsq & Hst & _);
    [done|change (w ∈ on_queue s (sleep_queue e)); rewrite Hq; by left|done|simpl; set_solver|].
  apply wp_bind. eapply (wp_wake1 node_ok Hnode cpu _ w ws th); [exact Hq|done..|split; [intros t'; simpl; set_solver|simpl; set_solver]|].
  rewrite decide_True by done. apply wp_bind, wp_modify, wp_release; [simpl; set_solver|].
  unfold event_wait_enter. apply wp_bind, wp_acquire; [simpl; set_solver|]. apply wp_bind. apply wp_exec.
  eexists 1, _. split; [unfold rde; simpl; by rewrite lookup_insert_eq|]. rewrite decide_False by lia.
  apply wp_bind, wp_modify, wp_bind, wp_release; [simpl; set_solver|]. apply wp_ret. split; [done|].
  exists (add_queue (home cpu th) (parked cpu (readied (sleep_queue e) th))). split_and!; [|done|].
  - change (threads (woken cpu (sleep_queue e) w th s1) !! w = Some (add_queue (home cpu th) (parked cpu (readied (sleep_queue e) th)))).
    rewrite woken_threads. apply lookup_insert_eq.
  - change (on_queue (woken cpu (sleep_queue e) w th s1) (sleep_queue e) = ws). rewrite on_queue_woken, decide_False, decide_True by done.
    change (on_queue s1 (sleep_queue e)) with (on_queue s (sleep_queue e)). rewrite Hq. simpl. by rewrite decide_True.
Qed.

(** ** Examples *)

Definition one_runs : sched := after 0 Run (after 0 (Start 10 20 1) empty_sched).
Lemma one_runs_ok : kernel_ok one_runs.
Proof. apply (reachable_ok plenty); [done|]. repeat (apply reach_after; [|vm_compute; eauto 10]). apply reach_init. Qed.
Definition running_thread : thread := default (newborn 1 1) (threads one_runs !! 10%positive).
Lemma set_mutex_ok m v s : kernel_ok s → sched_ok (set_mutex m v s) ∧ locks (set_mutex m v s) = ∅.
Proof. intros [Hs Hl _]. split; [by eapply sched_ok_ext|done]. Qed.
Lemma one_calls m v : calls 10 running_thread (set_mutex m v one_runs).
Proof.
  destruct (set_mutex_ok m v one_runs one_runs_ok) as [Hs Hl]. split; [exact Hs|exact Hl| | |].
  - vm_compute. reflexivity.
  - vm_compute. reflexivity.
  - vm_compute. reflexivity.
Qed.
Lemma mutex_rep_free : mutex_rep 5 (FifoMutex None []) (set_mutex 5 (Mutex 0 None) one_runs).
Proof. split; [vm_compute; reflexivity|done|]. exists None. split; [apply lookup_insert_eq|by left]. Qed.
Lemma rep_held : mutex_rep 5 (FifoMutex (Some 10%positive) []) (set_mutex 5 (Mutex 1 (Some 10%positive)) one_runs).
Proof. split; [vm_compute; reflexivity|done|]. exists (Some 10%positive). split; [apply lookup_insert_eq|by right]. Qed.

Lemma mutex_lock_correct_witness : calls 10 running_thread (set_mutex 5 (Mutex 0 None) one_runs) ∧
  ∃ s', mutex_lock_enter plenty 10 5 (set_mutex 5 (Mutex 0 None) one_runs) = Ok (inl 0, s').
Proof.
  split; [apply one_calls|].
  pose proof (mutex_lock_correct plenty 5 (FifoMutex None []) 10 running_thread (set_mutex 5 (Mutex 0 None) one_runs)
    (λ _, eq_refl) (one_calls 5 _) mutex_rep_free ltac:(discriminate) ltac:(unfold room; simpl; lia)) as H.
  destruct (proj1 (wp_exec _ _ _) H) as (r & s' & Hr & _ & -> & _). by exists s'.
Defined.
Lemma mutex_unlock_correct_witness : calls 10 running_thread (set_mutex 5 (Mutex 1 (Some 10%positive)) one_runs) ∧
  ∃ u s', mutex_unlock plenty 0 10 5 (set_mutex 5 (Mutex 1 (Some 10%positive)) one_runs) = Ok (u, s').
Proof.
  split; [apply one_calls|].
  pose proof (mutex_unlock_correct plenty 0 5 (FifoMutex (Some 10%positive) []) 10 running_thread 1 (set_mutex 5 (Mutex 1 (Some 10%positive)) one_runs)
    (λ _, eq_refl) (one_calls 5 _) rep_held eq_refl (lookup_insert_eq _ _ _) ltac:(unfold room; simpl; lia)) as H.
  destruct (proj1 (wp_exec _ _ _) H) as (u & s' & Hr & _). by exists u, s'.
Defined.
(** The thread of [demo_wait] waits on queue 21: let that be an event's. *)
Definition with_event (e : positive) (s : sched) : sched := {| s with events := {[e := 0]} |}.
Lemma with_event_ok e s : kernel_ok s → sched_ok (with_event e s) ∧ locks (with_event e s) = ∅ ∧ events (with_event e s) !! e = Some 0.
Proof. intros [Hs Hl _]. split_and!; [by eapply sched_ok_ext|done|apply lookup_singleton_eq]. Qed.
Definition demo_event : sched := with_event 21 demo_wait.
Lemma event_signal_releases_two_witness : on_queue demo_event (sleep_queue 21) = [10%positive] ∧
  ∃ r s', (event_signal plenty 0 21;; event_wait_enter plenty 11 21) demo_event = Ok (r, s').
Proof.
  split; [vm_compute; reflexivity|].
  destruct (with_event_ok 21 demo_wait (reachable_ok plenty demo_wait (λ _, eq_refl) demo_wait_reachable)) as (Hs & Hl & He).
  assert (Hq : on_queue demo_event (sleep_queue 21) = [10%positive]) by (vm_compute; reflexivity).
  pose proof (event_signal_releases_two plenty 0 21 10 [] 0 11 demo_event (λ _, eq_refl) Hs Hl Hq He) as H.
  destruct (proj1 (wp_exec _ _ _) H) as (r & s' & Hr & _). by exists r, s'.
Defined.
