(* ===== verification/FsTypes.v ===== *)
(** * Types and constants of the file system code

    ([kernel/include/fs/fs.h], [kernel/include/fs/dentry.h], [kernel/include/sys/fcntl.h],
    [kernel/include/bits/errno.h].)  A name is the list of its bytes, without the final
    zero. *)
From S2P Require Import Prelude.

Definition EPERM : Z := 1.
Definition ENXIO : Z := 6.
Definition EBADF : Z := 9.
Definition EAGAIN : Z := 11.
Definition EBUSY : Z := 16.
Definition ENOTDIR : Z := 20.
Definition EISDIR : Z := 21.
Definition EMFILE : Z := 24.
Definition ENOTTY : Z := 25.
Definition ESPIPE : Z := 29.
Definition ENAMETOOLONG : Z := 36.
Definition ENOSYS : Z := 38.
Definition EBADFD : Z := 77.
Definition ENOTNAM : Z := 118.

Definition O_RDONLY : Z := 0x000000.
Definition O_WRONLY : Z := 0x000001.
Definition O_RDWR : Z := 0x000002.
Definition O_ACCMODE : Z := Z.lor O_RDONLY (Z.lor O_WRONLY O_RDWR).
Definition O_CREAT : Z := 0x000200.
Definition O_EXCL : Z := 0x000800.
Definition O_NONBLOCK : Z := 0x004000.

Definition NFILE : Z := 16.
Definition FNAME_MAX : Z := 255.

Inductive itype : Type := FS_INV | FS_RGL | FS_DIR | FS_BLKDEV | FS_CHRDEV | FS_PIPE.
#[global] Instance itype_eq_dec : EqDecision itype.
Proof. solve_decision. Defined.

(** A set of flags of [a] is not empty. *)
Definition any (a flags : Z) : bool := bool_decide (Z.land a flags ≠ 0).

(** A file name. *)
Abbreviation name := (list Z).

Lemma alter_known {V} (f : V → V) (l : loc) (h : gmap loc V) v : h !! l = Some v → alter f l h = <[l := f v]> h.
Proof.
  intros Hl. apply map_eq. intros l'. destruct (decide (l = l')) as [->|]; [by rewrite lookup_insert_eq, lookup_alter_eq, Hl|].
  by rewrite lookup_insert_ne, lookup_alter_ne.
Qed.
