(* ===== verification/FileTable.v ===== *)
(** * File descriptors ([kernel/fs/sysfile.c], [kernel/fs/file.c], [kernel/fs/posix])

    The file table of a process: descriptors, the open files they name, and the count of
    the descriptors of each file.  What lies behind an open file (its inode, the file
    system and the name lookup) is an interface. *)
From S2P Require Import Prelude FsTypes.

(** ** Open files and the table *)

Record file : Type := File {
  f_locked : bool;    (* f_lock *)
  f_dentry : ptr;
  f_flags : Z;
  f_inode : ptr;
  f_pos : Z;
  f_ref : Z;
}.

(** [W] is the rest of the file system. *)
Record ftab (W : Type) : Type := Ftab {
  files : gmap loc file;
  table : list ptr;       (* file[NFILE] *)
  table_held : bool;      (* lock *)
  world : W;
}.
#[global] Arguments Ftab {_} _ _ _ _.
#[global] Arguments files {_} _.
#[global] Arguments table {_} _.
#[global] Arguments table_held {_} _.
#[global] Arguments world {_} _.

Section ftab.
Context {W : Type}.

#[global] Program Instance ftab_heap : Heap (ftab W) file := {| heap_of := files; put_heap h s := {| s with files := h |} |}.
Next Obligation. done. Qed.
Next Obligation. by intros []. Qed.
#[global] Instance ftab_lock : Lock (ftab W) := {| held := table_held; set_held b s := {| s with table_held := b |} |}.

(** [table->file[fd]], [table->file[fd] = f]; outside the array both fault. *)
Definition get_slot (fd : Z) : M (ftab W) ptr := λ s,
  match guard (0 ≤ fd);; table s !! Z.to_nat fd with Some p => Ok (p, s) | None => Fault end.
Definition set_slot (fd : Z) (p : ptr) : M (ftab W) unit := λ s,
  match guard (0 ≤ fd);; table s !! Z.to_nat fd with
  | Some _ => Ok (tt, {| s with table := <[Z.to_nat fd := p]> (table s) |})
  | None => Fault
  end.
(** [flock], [funlock] *)
Definition flock (f : ptr) : M (ftab W) unit :=
  v ← rd f; if f_locked v then panic else upd f (λ v, {| v with f_locked := true |}).
Definition funlock (f : ptr) : M (ftab W) unit :=
  v ← rd f; if f_locked v then upd f (λ v, {| v with f_locked := false |}) else panic.
Definition on_world {A} (m : M W A) : M (ftab W) A := zoom world (λ w s, {| s with world := w |}) m.

(** What an inode is to this code: [iclose], and the size of the file. *)
Class Inodes : Type := {
  iclose : ptr → M W Z;
  i_size : loc → W → Z;
}.
Context `{!Inodes}.

Definition file_free (f : ptr) : M (ftab W) unit := rd f;; kfree f.

(** ** The operations most file systems use ([posix]) *)

Definition posix_file_open (f : loc) (mode : Z) : M (ftab W) Z := mret 0.
Definition posix_file_close (f : loc) : M (ftab W) Z :=
  upd (Some f) (λ v, {| v with f_ref := i32 (f_ref v - 1) |});;
  v ← rd (Some f);
  if bool_decide (0 < f_ref v) then mret 0 else
  file_free (Some f);;
  v ← rd (Some f);
  on_world (iclose (f_inode v)).
Definition posix_file_lseek (f : loc) (offset whence : Z) : M (ftab W) Z :=
  flock (Some f);;
  v ← rd (Some f);
  (if decide (whence = 0) then upd (Some f) (λ v, {| v with f_pos := offset |})
   else if decide (whence = 1) then upd (Some f) (λ v, {| v with f_pos := u32 (f_pos v + offset) |})
   else if decide (whence = 2) then
     match f_inode v with
     | None => fault
     | Some i => size ← gets (λ s, i_size i (world s)); upd (Some f) (λ v, {| v with f_pos := u32 (size + offset) |})
     end
   else mret tt);;
  v ← rd (Some f);
  funlock (Some f);;
  mret (f_pos v).

(** ** What an open file leads to *)

(** The operations of an open file ([struct fops]); NULL where a file system or a
    device has none. *)
Record fops : Type := Fops {
  fo_open : option (loc → Z → M (ftab W) Z);
  fo_close : option (loc → M (ftab W) Z);
  fo_read : option (loc → Z → Z → M (ftab W) Z);
  fo_write : option (loc → Z → Z → M (ftab W) Z);
  fo_lseek : option (loc → Z → Z → M (ftab W) Z);
  fo_ioctl : option (loc → Z → Z → M (ftab W) Z);
}.

(** The rest of the kernel as this code sees it: the operations of an inode, from its
    device or its file system, or the error of having none ([CHK_FPTR], [kdev_get]);
    the lookup of a name; the pair of inodes of a new pipe; whether the small blocks of
    an allocation (a lock) are found. *)
Class Vnodes : Type := {
  fops_of : loc → W → Z + fops;
  no_op : loc → W → Z;
  vfs_lookup : name → Z → Z → M W (Z + ptr * ptr);
  pipe_inodes : M W (Z + loc * loc);
  lock_ok : ftab W → bool;
}.
Context `{!Vnodes, !Kalloc file}.

(** ** Open files ([file.c]) *)

(** The common part of [fopen], [fclose], [fread], ...: the operation [sel] of the
    file's inode. *)
Definition fdispatch {A} (f : ptr) (sel : fops → option A) (run : loc → A → M (ftab W) Z) : M (ftab W) Z :=
  match f with
  | None => mret (- EINVAL)
  | Some l =>
      v ← rd f;
      match f_inode v with
      | None => mret (- EINVAL)
      | Some i =>
          w ← gets world;
          match fops_of i w with
          | inl err => mret err
          | inr o => match sel o with None => mret (no_op i w) | Some g => run l g end
          end
      end
  end.
Definition fopen (f : ptr) (oflags : Z) : M (ftab W) Z := fdispatch f fo_open (λ l g, g l oflags).
Definition fread (f : ptr) (buf sz : Z) : M (ftab W) Z := fdispatch f fo_read (λ l g, g l buf sz).
Definition fwrite (f : ptr) (buf sz : Z) : M (ftab W) Z := fdispatch f fo_write (λ l g, g l buf sz).
Definition flseek (f : ptr) (offset whence : Z) : M (ftab W) Z := fdispatch f fo_lseek (λ l g, g l offset whence).
Definition fioctl (f : ptr) (request args : Z) : M (ftab W) Z := fdispatch f fo_ioctl (λ l g, g l request args).
Definition fclose (f : ptr) : M (ftab W) Z := fdispatch f fo_close (λ l g, g l).

Definition fdup (f : ptr) : M (ftab W) Z :=
  match f with
  | None => mret (- EINVAL)
  | Some _ => flock f;; upd f (λ v, {| v with f_ref := i32 (f_ref v + 1) |});; funlock f;; mret 0
  end.

(** ** Descriptors ([sysfile.c]) *)

Definition check_fd (fd : Z) : Z := if bool_decide (fd < 0 ∨ NFILE ≤ fd) then - EBADF else 0.
Definition check_fildes (fd : Z) : M (ftab W) Z :=
  spin_assert_lock;;
  if bool_decide (fd < 0 ∨ NFILE ≤ fd) then mret (- EBADF) else
  p ← get_slot fd;
  mret (if decide (p = NULL) then - EBADF else 0).
Fixpoint fdalloc_loop (n : nat) (fd : Z) (f : ptr) : M (ftab W) Z :=
  match n with
  | O => mret (- EMFILE)
  | S n => p ← get_slot fd; if decide (p = NULL) then set_slot fd f;; mret fd else fdalloc_loop n (fd + 1) f
  end.
Definition fdalloc (f : ptr) : M (ftab W) Z :=
  match f with None => mret (- EINVAL) | Some _ => spin_assert_lock;; fdalloc_loop (Z.to_nat NFILE) 0 f end.
Definition file_alloc : M (ftab W) (Z + loc) :=
  ok ← gets lock_ok;
  if negb ok then mret (inl (- ENOMEM)) else
  p ← kmalloc (File false NULL 0 NULL 0 1);
  mret (match p with None => inl (- ENOMEM) | Some l => inr l end).
Definition fileget (fd : Z) : M (ftab W) ptr := if bool_decide (NFILE < fd ∨ fd < 0) then mret NULL else get_slot fd.

Definition open (fn : name) (oflags mode : Z) : M (ftab W) Z :=
  r ← file_alloc;
  match r with
  | inl err => mret err
  | inr f =>
      spin_lock;;
      r ← on_world (vfs_lookup fn oflags mode);
      match r with
      | inl err => spin_unlock;; file_free (Some f);; mret err
      | inr (inode, dentry) =>
          upd (Some f) (λ v, {| v with f_inode := inode; f_flags := oflags; f_dentry := dentry |});;
          err ← fopen (Some f) oflags;
          if decide (err ≠ 0) then spin_unlock;; file_free (Some f);; mret err else
          fd ← fdalloc (Some f);
          if decide (fd < 0) then spin_unlock;; file_free (Some f);; mret fd else
          spin_unlock;;
          mret fd
      end
  end.

(** [read], [write], [lseek] and [ioctl] find the file of the descriptor and leave the
    table unlocked while they work on it. *)
Definition with_file (fd : Z) (k : ptr → M (ftab W) Z) : M (ftab W) Z :=
  spin_lock;;
  err ← check_fildes fd;
  if decide (err ≠ 0) then spin_unlock;; mret err else
  f ← fileget fd;
  if decide (f = NULL) then spin_unlock;; mret (- EBADFD) else
  spin_unlock;;
  k f.
Definition read (fd buf sz : Z) : M (ftab W) Z := with_file fd (λ f, fread f buf sz).
Definition write (fd buf sz : Z) : M (ftab W) Z := with_file fd (λ f, fwrite f buf sz).
Definition lseek (fd offset whence : Z) : M (ftab W) Z := with_file fd (λ f, flseek f offset whence).
Definition ioctl (fd request args : Z) : M (ftab W) Z := with_file fd (λ f, fioctl f request args).

(** [pipefs_pipe] gives two files the ends of a new pipe. *)
Definition pipefs_pipe (f0 f1 : loc) : M (ftab W) Z :=
  r ← on_world pipe_inodes;
  match r with
  | inl err => mret err
  | inr (i0, i1) =>
      upd (Some f0) (λ v, {| v with f_inode := Some i0; f_flags := Z.lor (f_flags v) O_RDONLY |});;
      upd (Some f1) (λ v, {| v with f_inode := Some i1; f_flags := Z.lor (f_flags v) O_WRONLY |});;
      mret 0
  end.
(** [pipe]: the two descriptors, or the error. *)
Definition pipe : M (ftab W) (Z + Z * Z) :=
  r ← file_alloc;
  match r with
  | inl err => mret (inl err)
  | inr f0 =>
      r ← file_alloc;
      match r with
      | inl err => file_free (Some f0);; mret (inl err)
      | inr f1 =>
          spin_lock;;
          fd0 ← fdalloc (Some f0);
          if decide (fd0 < 0) then spin_unlock;; file_free (Some f0);; file_free (Some f1);; mret (inl fd0) else
          fd1 ← fdalloc (Some f1);
          if decide (fd1 < 0) then set_slot fd0 NULL;; spin_unlock;; file_free (Some f0);; file_free (Some f1);; mret (inl fd1) else
          err ← pipefs_pipe f0 f1;
          if decide (err ≠ 0) then
            set_slot fd0 NULL;; set_slot fd1 NULL;; spin_unlock;; file_free (Some f0);; file_free (Some f1);; mret (inl err)
          else
          spin_unlock;;
          mret (inr (fd0, fd1))
      end
  end.

Definition dup (fd : Z) : M (ftab W) Z :=
  spin_lock;;
  err ← check_fildes fd;
  if decide (err ≠ 0) then spin_unlock;; mret err else
  f ← fileget fd;
  if decide (f = NULL) then spin_unlock;; mret (- EBADFD) else
  fd1 ← fdalloc f;
  if decide (fd1 < 0) then spin_unlock;; mret fd1 else
  err ← fdup f;
  if decide (err ≠ 0) then spin_unlock;; mret err else
  spin_unlock;;
  mret fd1.

Definition dup2 (fd1 fd2 : Z) : M (ftab W) Z :=
  spin_lock;;
  err ← check_fildes fd1;
  if decide (err ≠ 0) then spin_unlock;; mret err else
  if decide (check_fd fd2 ≠ 0) then spin_unlock;; mret (check_fd fd2) else
  f1 ← fileget fd1;
  if decide (f1 = NULL) then spin_unlock;; mret (- EBADFD) else
  f2 ← fileget fd2;
  if decide (f1 = f2) then spin_unlock;; mret fd2 else
  err ← (if decide (f2 = NULL) then mret 0 else fclose f2);
  if decide (err ≠ 0) then spin_unlock;; mret err else
  err ← fdup f1;
  if decide (err ≠ 0) then spin_unlock;; mret err else
  set_slot fd2 f1;;
  spin_unlock;;
  mret fd2.

Definition close (fd : Z) : M (ftab W) Z :=
  spin_lock;;
  err ← check_fildes fd;
  if decide (err ≠ 0) then spin_unlock;; mret err else
  f ← fileget fd;
  if decide (f = NULL) then spin_unlock;; mret (- EBADFD) else
  retval ← fclose f;
  set_slot fd NULL;;
  spin_unlock;;
  mret retval.
End ftab.
#[global] Arguments fops : clear implicits.
#[global] Arguments Vnodes : clear implicits.
#[global] Arguments Inodes : clear implicits.
