(* ===== verification/FileTableSpec.v ===== *)
(** * What file descriptors promise

    The table of descriptors implements [open], [dup], [dup2] and [pipe] on a plain list
    of descriptors, always with the lowest free descriptor, and every open file counts
    its descriptors. *)
From S2P Require Import Prelude FsTypes FileTable.

(** ** Counting descriptors *)

Definition names (l : loc) (t : list ptr) : Z := Z.of_nat (length (filter (λ p, p = Some l) t)).
Definition first_free (t : list ptr) : option nat := fst <$> list_find (λ p, p = NULL) t.

Lemma names_insert l t k p q : t !! k = Some p →
  names l (<[k := q]> t) = names l t - (if decide (p = Some l) then 1 else 0) + (if decide (q = Some l) then 1 else 0).
Proof.
  unfold names. revert k. induction t as [|x t IH]; intros [|k] Hk; simplify_eq/=.
  - rewrite !filter_cons. repeat case_decide; simpl; lia.
  - rewrite !filter_cons. specialize (IH k Hk). repeat case_decide; simpl; lia.
Qed.
Lemma names_range l t : 0 ≤ names l t ≤ Z.of_nat (length t).
Proof. unfold names. pose proof (length_filter (λ p, p = Some l) t). lia. Qed.
Lemma names_pos l t : 0 < names l t ↔ Some l ∈ t.
Proof.
  unfold names. split.
  - intros H. destruct (filter (λ p, p = Some l) t) as [|x l'] eqn:E; [simpl in H; lia|].
    assert (Hx : x ∈ filter (λ p, p = Some l) t) by (rewrite E; by left). by apply list_elem_of_filter in Hx as [-> ?].
  - intros H. assert (Hx : Some l ∈ filter (λ p, p = Some l) t) by by apply list_elem_of_filter.
    destruct (filter _ t); [by apply elem_of_nil in Hx|simpl; lia].
Qed.
Lemma first_free_spec t : match first_free t with
  | Some k => t !! k = Some NULL ∧ ∀ j p, (j < k)%nat → t !! j = Some p → p ≠ NULL
  | None => NULL ∉ t
  end.
Proof.
  unfold first_free. destruct (list_find (λ p, p = NULL) t) as [[k p]|] eqn:E; simpl.
  - apply list_find_Some in E as (E1 & -> & E3). split; [done|]. intros j p Hj Hp. by eapply E3.
  - apply list_find_None in E. rewrite Forall_forall in E. intros Hin. by apply (E NULL Hin).
Qed.

(** Which file takes a descriptor does not matter for the next one. *)
Lemma first_free_any k l l' t : first_free (<[k := Some l]> t) = first_free (<[k := Some l']> t).
Proof.
  unfold first_free. revert k. induction t as [|x t IH]; intros [|k]; try done. simpl. destruct (decide (x = NULL)); [done|].
  specialize (IH k). do 2 destruct (list_find _ _) as [[]|]; simpl in *; congruence.
Qed.

(** ** The invariant *)

Section spec.
Context {W : Type} `{!Inodes W, !Vnodes W, !Kalloc file}.

(** Every descriptor names an open file; every open file is named by as many
    descriptors as it counts, and by at least one: none is leaked. *)
Record refs_ok (s : ftab W) : Prop := RefsOk {
  ro_size : length (table s) = Z.to_nat NFILE;
  ro_open : ∀ l, Some l ∈ table s → is_Some (files s !! l);
  ro_count : ∀ l v, files s !! l = Some v → f_ref v = names l (table s) ∧ 0 < names l (table s);
  ro_file : ∀ l v, files s !! l = Some v → f_locked v = false ∧ is_Some (f_inode v);
}.

Lemma wp_get_slot fd p s (Q : ptr → ftab W → Prop) : 0 ≤ fd → table s !! Z.to_nat fd = Some p → Q p s → wp (get_slot fd) Q s.
Proof.
  intros Hfd Hp HQ. apply wp_exec. exists p, s. split; [|done]. unfold get_slot. rewrite option_guard_True by done. simpl. by rewrite Hp.
Qed.
Definition put_slot (k : nat) (p : ptr) (s : ftab W) : ftab W := {| s with table := <[k := p]> (table s) |}.
Lemma wp_set_slot fd p s (Q : unit → ftab W → Prop) : 0 ≤ fd → is_Some (table s !! Z.to_nat fd) → Q tt (put_slot (Z.to_nat fd) p s) → wp (set_slot fd p) Q s.
Proof.
  intros Hfd [p' Hp] HQ. apply wp_exec. exists tt, (put_slot (Z.to_nat fd) p s). split; [|done].
  unfold set_slot. rewrite option_guard_True by done. simpl. by rewrite Hp.
Qed.
Lemma wp_fdalloc_loop n : ∀ k f s (Q : Z → ftab W → Prop), (k + n = length (table s))%nat → (∀ j, (j < k)%nat → table s !! j ≠ Some NULL) →
  match first_free (table s) with
  | Some k => Q (Z.of_nat k) (put_slot k f s)
  | None => Q (- EMFILE) s
  end → wp (fdalloc_loop n (Z.of_nat k) f) Q s.
Proof using Type.
  induction n as [|n IH]; intros k f s Q Hk Hbefore HQ.
  - apply wp_ret. pose proof (first_free_spec (table s)) as Hff. destruct (first_free (table s)) as [j|]; [|done].
    destruct Hff as [Hj _]. exfalso. apply (Hbefore j); [|done]. apply lookup_lt_Some in Hj. lia.
  - simpl fdalloc_loop. destruct (lookup_lt_is_Some_2 (table s) k) as [p Hp]; [lia|].
    apply wp_bind. eapply wp_get_slot; [lia|by rewrite Nat2Z.id|]. destruct (decide (p = NULL)) as [->|Hne].
    + apply wp_bind, wp_set_slot; [lia|rewrite Nat2Z.id; by eexists|]. rewrite Nat2Z.id. apply wp_ret.
      pose proof (first_free_spec (table s)) as Hff. destruct (first_free (table s)) as [j|].
      * destruct Hff as [Hj Hmin]. destruct (decide (j = k)) as [->|]; [done|]. exfalso.
        destruct (decide (j < k)%nat); [by apply (Hbefore j)|]. by eapply (Hmin k NULL); [lia|done|].
      * exfalso. by apply list_elem_of_lookup_2, Hff in Hp.
    + replace (Z.of_nat k + 1) with (Z.of_nat (S k)) by lia. apply IH; [lia| |done].
      intros j Hj. destruct (decide (j = k)) as [->|]; [congruence|]. apply Hbefore. lia.
Qed.
Lemma wp_fdalloc l s (Q : Z → ftab W → Prop) : length (table s) = Z.to_nat NFILE → table_held s = true →
  match first_free (table s) with
  | Some k => Q (Z.of_nat k) (put_slot k (Some l) s)
  | None => Q (- EMFILE) s
  end → wp (fdalloc (Some l)) Q s.
Proof using Type.
  intros Hlen Hh HQ. unfold fdalloc. apply wp_bind, wp_spin_assert_lock; [done|]. apply (wp_fdalloc_loop _ 0); [by rewrite Hlen|lia|done].
Qed.
End spec.

(** ** Operations on the table *)

Inductive fd_op : Type := Open (fn : name) (oflags mode : Z) | Dup (fd : Z) | Dup2 (fd1 fd2 : Z) | Close (fd : Z) | Pipe.
Definition file_at (t : list ptr) (fd : Z) : ptr := if bool_decide (0 ≤ fd < NFILE) then default NULL (t !! Z.to_nat fd) else NULL.

Section ops.
Context {W : Type} `{!Inodes W, !Vnodes W, !Kalloc file}.

(** A new open file, and the change of the count of one. *)
Definition fresh_file : file := File false NULL 0 NULL 0 1.
Definition recount (n : Z) (l : loc) (h : gmap loc file) : gmap loc file := alter (λ v, {| v with f_ref := f_ref v + n |}) l h.
Definition put_file (l : loc) (v : file) (s : ftab W) : ftab W := {| s with files := <[l := v]> (files s) |}.
(** There is no memory for another open file. *)
Definition no_memory (s : ftab W) : Prop := lock_ok s = false ∨ kmalloc_at (files s) = None.

(** Why an operation fails, and with what error. *)
Inductive fd_fails (s : ftab W) : fd_op → Z → Prop :=
| fail_lookup fn o m e w : vfs_lookup fn o m (world s) = Ok (inl e, w) → fd_fails s (Open fn o m) e
| fail_open_full fn o m : first_free (table s) = None → fd_fails s (Open fn o m) (- EMFILE)
| fail_open_memory fn o m : no_memory s → fd_fails s (Open fn o m) (- ENOMEM)
| fail_dup_full l fd : file_at (table s) fd = Some l → first_free (table s) = None → fd_fails s (Dup fd) (- EMFILE)
| fail_dup fd : file_at (table s) fd = NULL → fd_fails s (Dup fd) (- EBADF)
| fail_dup2 fd1 fd2 : file_at (table s) fd1 = NULL ∨ ¬ (0 ≤ fd2 < NFILE) → fd_fails s (Dup2 fd1 fd2) (- EBADF)
| fail_close fd : file_at (table s) fd = NULL → fd_fails s (Close fd) (- EBADF)
| fail_pipe e w : pipe_inodes (world s) = Ok (inl e, w) → fd_fails s Pipe e
| fail_pipe_full : (∀ k l, first_free (table s) = Some k → first_free (<[k := Some l]> (table s)) = None) → fd_fails s Pipe (- EMFILE)
| fail_pipe_memory : no_memory s ∨ (∃ l, kmalloc_at (files s) = Some l ∧ no_memory (put_file l fresh_file s)) → fd_fails s Pipe (- ENOMEM).
(** What an operation returns, and what it does to the open files and the descriptors.
    The error cases leave both as they are. *)
Inductive fd_spec (s s' : ftab W) : fd_op → Z → Prop :=
| spec_open fn o m i d w k l : vfs_lookup fn o m (world s) = Ok (inr (i, d), w) → first_free (table s) = Some k → files s !! l = None →
    files s' = <[l := File false d o i 0 1]> (files s) → table s' = <[k := Some l]> (table s) → fd_spec s s' (Open fn o m) (Z.of_nat k)
| spec_dup fd l k : file_at (table s) fd = Some l → first_free (table s) = Some k →
    files s' = recount 1 l (files s) → table s' = <[k := Some l]> (table s) → fd_spec s s' (Dup fd) (Z.of_nat k)
| spec_dup2 fd1 fd2 l : file_at (table s) fd1 = Some l → 0 ≤ fd2 < NFILE →
    files s' = (if decide (file_at (table s) fd2 = Some l) then files s
      else recount 1 l (match file_at (table s) fd2 with Some l2 => recount (-1) l2 (files s) | None => files s end)) →
    table s' = <[Z.to_nat fd2 := Some l]> (table s) → fd_spec s s' (Dup2 fd1 fd2) fd2
| spec_close fd l : file_at (table s) fd = Some l →
    files s' = recount (-1) l (files s) → table s' = <[Z.to_nat fd := NULL]> (table s) → fd_spec s s' (Close fd) 0
| spec_pipe i0 i1 w k0 k1 l0 l1 : pipe_inodes (world s) = Ok (inr (i0, i1), w) →
    first_free (table s) = Some k0 → first_free (<[k0 := Some l0]> (table s)) = Some k1 → files s !! l0 = None → files s !! l1 = None → l0 ≠ l1 →
    files s' = <[l1 := File false NULL O_WRONLY (Some i1) 0 1]> (<[l0 := File false NULL O_RDONLY (Some i0) 0 1]> (files s)) →
    table s' = <[k1 := Some l1]> (<[k0 := Some l0]> (table s)) → fd_spec s s' Pipe 0
| spec_fails op r : files s' = files s → table s' = table s → fd_fails s op r → fd_spec s s' op r.

Definition run_op (op : fd_op) : M (ftab W) Z :=
  match op with
  | Open fn oflags mode => open fn oflags mode
  | Dup fd => dup fd
  | Dup2 fd1 fd2 => dup2 fd1 fd2
  | Close fd => close fd
  | Pipe => r ← pipe; mret (match r with inl err => err | inr _ => 0 end)
  end.
(** The last descriptor of a file is not given up. *)
Definition keeps_files (t : list ptr) (op : fd_op) : Prop :=
  match op with
  | Close fd => ∀ l, file_at t fd = Some l → 1 < names l t
  | Dup2 fd1 fd2 => ∀ l, file_at t fd2 = Some l → file_at t fd1 = Some l ∨ 1 < names l t
  | _ => True
  end.

(** What the rest of the file system promises: lookups and new pipes end, with an
    inode, and every inode has the usual operations. *)
Class VnodesOk : Prop := {
  vo_fops : ∀ i w, ∃ o, fops_of i w = inr o ∧ fo_open o = Some posix_file_open ∧ fo_close o = Some posix_file_close;
  vo_lookup : ∀ fn o m w, ∃ r w', vfs_lookup fn o m w = Ok (r, w') ∧ match r with inl e => e ≠ 0 | inr (i, _) => is_Some i end;
  vo_pipe : ∀ w, ∃ r w', pipe_inodes w = Ok (r, w') ∧ match r with inl e => e ≠ 0 | inr _ => True end;
}.
Context {Hvn : VnodesOk}.

Definition unlocked (s : ftab W) : ftab W := {| s with table_held := false |}.

Lemma wp_on_world {A} (m : M W A) s (Q : A → ftab W → Prop) a w' : m (world s) = Ok (a, w') → Q a {| s with world := w' |} → wp (on_world m) Q s.
Proof using Type. intros Hm HQ. apply wp_exec. eexists _, _. split; [|exact HQ]. unfold on_world, zoom. by rewrite Hm. Qed.
Lemma wp_updf l v f s (Q : unit → ftab W → Prop) : files s !! l = Some v → Q tt (put_file l (f v) s) → wp (upd (Some l) f) Q s.
Proof using Type.
  intros Hl HQ. apply wp_upd; [by eexists|]. simpl.
  by rewrite (alter_known f l (files s) v).
Qed.
Lemma put_file_lookup l v s : files (put_file l v s) !! l = Some v.
Proof using Type. apply lookup_insert_eq. Qed.
Lemma put_file_twice l v w s : put_file l v (put_file l w s) = put_file l v s.
Proof using Type. unfold put_file. simpl. by rewrite insert_insert_eq. Qed.
Lemma wp_fdup l v s (Q : Z → ftab W → Prop) : files s !! l = Some v → f_locked v = false →
  0 ≤ f_ref v ≤ NFILE → Q 0 (put_file l {| v with f_ref := f_ref v + 1 |} s) → wp (fdup (Some l)) Q s.
Proof using Type.
  intros Hl Hk Hn HQ. unfold fdup, flock, funlock. apply wp_bind, wp_bind. eapply wp_rd; [exact Hl|]. rewrite Hk.
  eapply wp_updf; [exact Hl|]. apply wp_bind. eapply wp_updf; [apply put_file_lookup|]. rewrite put_file_twice.
  apply wp_bind, wp_bind. eapply wp_rd; [apply put_file_lookup|]. simpl f_locked. cbv iota. eapply wp_updf; [apply put_file_lookup|].
  rewrite put_file_twice. apply wp_ret. simpl. rewrite i32_small by (unfold NFILE in *; lia). destruct v; simpl in *; by subst.
Qed.
(** [fclose] of a file with another descriptor. *)
Lemma wp_fclose l v s (Q : Z → ftab W → Prop) : files s !! l = Some v → is_Some (f_inode v) → 1 < f_ref v ≤ NFILE →
  Q 0 (put_file l {| v with f_ref := f_ref v - 1 |} s) → wp (fclose (Some l)) Q s.
Proof using Hvn.
  intros Hl [i Hi] Hr HQ. unfold fclose, fdispatch. apply wp_bind. eapply wp_rd; [exact Hl|]. rewrite Hi. apply wp_bind, wp_gets.
  destruct (vo_fops i (world s)) as (o & -> & _ & ->). unfold posix_file_close. apply wp_bind. eapply wp_updf; [exact Hl|].
  apply wp_bind. eapply wp_rd; [apply put_file_lookup|]. simpl f_ref. rewrite i32_small by (unfold NFILE in *; lia).
  rewrite bool_decide_true by lia. by apply wp_ret.
Qed.
Lemma wp_check_fildes fd s (Q : Z → ftab W → Prop) : length (table s) = Z.to_nat NFILE → table_held s = true →
  Q (if decide (file_at (table s) fd = NULL) then - EBADF else 0) s → wp (check_fildes fd) Q s.
Proof using Type.
  intros Hlen Hh HQ. unfold check_fildes. apply wp_bind, wp_spin_assert_lock; [done|]. unfold file_at in HQ. destruct (decide (0 ≤ fd < NFILE)) as [Hfd|Hfd].
  2:{ rewrite bool_decide_true by lia. apply wp_ret. by rewrite bool_decide_false in HQ by lia. }
  - rewrite bool_decide_false by lia. rewrite bool_decide_true in HQ by lia. destruct (lookup_lt_is_Some_2 (table s) (Z.to_nat fd)) as [p Hp]; [unfold NFILE in *; lia|].
    apply wp_bind. eapply wp_get_slot; [lia|exact Hp|]. apply wp_ret. by rewrite Hp in HQ.
Qed.
Lemma wp_fileget fd s (Q : ptr → ftab W → Prop) : length (table s) = Z.to_nat NFILE → 0 ≤ fd < NFILE →
  Q (file_at (table s) fd) s → wp (fileget fd) Q s.
Proof using Type.
  intros Hlen Hfd HQ. unfold fileget, file_at in *. rewrite bool_decide_false by lia. rewrite bool_decide_true in HQ by lia.
  destruct (lookup_lt_is_Some_2 (table s) (Z.to_nat fd)) as [p Hp]; [unfold NFILE in *; lia|]. eapply wp_get_slot; [lia|exact Hp|]. by rewrite Hp in HQ.
Qed.
Lemma file_at_Some t fd l : file_at t fd = Some l → 0 ≤ fd < NFILE ∧ t !! Z.to_nat fd = Some (Some l).
Proof using Type.
  unfold file_at. case_bool_decide; [|done]. intros H'. split; [done|]. by destruct (t !! Z.to_nat fd) as [[]|]; simplify_eq/=.
Qed.

(** *** The invariant under a change of one descriptor *)

Lemma refs_put k l v s : refs_ok s → table s !! k = Some NULL → f_ref v = names l (table s) + 1 → f_locked v = false → is_Some (f_inode v) →
  refs_ok (put_slot k (Some l) (put_file l v s)).
Proof using Type.
  intros [H1 H2 H3 H4] Hk Hv Hlk Hi. split; simpl.
  - by rewrite length_insert.
  - intros l' Hl'. destruct (decide (l' = l)) as [->|]; [by rewrite lookup_insert_eq|]. rewrite lookup_insert_ne by done. apply H2.
    apply list_elem_of_lookup_1 in Hl' as [j Hj]. apply list_lookup_insert_Some in Hj as [(-> & Hj & _)|[_ Hj]]; [congruence|by eapply list_elem_of_lookup_2].
  - intros l' v'. rewrite (names_insert _ _ _ NULL) by done. rewrite lookup_insert_Some. intros [[<- <-]|[Hne Hl']].
    + rewrite decide_False, decide_True by done. pose proof (names_range l (table s)). lia.
    + rewrite !decide_False by congruence. destruct (H3 l' v' Hl'). lia.
  - intros l' v'. rewrite lookup_insert_Some. intros [[<- <-]|[Hne Hl']]; [done|eauto].
Qed.
Lemma refs_drop k l v s : refs_ok s → table s !! k = Some (Some l) → files s !! l = Some v → 1 < names l (table s) →
  refs_ok (put_slot k NULL (put_file l {| v with f_ref := f_ref v - 1 |} s)).
Proof using Type.
  intros [H1 H2 H3 H4] Hk Hv Hn. destruct (H3 l v Hv) as [Hr _]. split; simpl.
  - by rewrite length_insert.
  - intros l' Hl'. destruct (decide (l' = l)) as [->|]; [by rewrite lookup_insert_eq|]. rewrite lookup_insert_ne by done. apply H2.
    apply list_elem_of_lookup_1 in Hl' as [j Hj]. apply list_lookup_insert_Some in Hj as [(-> & Hj & _)|[_ Hj]]; [congruence|by eapply list_elem_of_lookup_2].
  - intros l' v'. rewrite (names_insert _ _ _ (Some l)) by done. rewrite lookup_insert_Some. intros [[<- <-]|[Hne Hl']].
    + rewrite decide_True, decide_False by done. simpl. lia.
    + rewrite !decide_False by congruence. destruct (H3 l' v' Hl'). lia.
  - intros l' v'. rewrite lookup_insert_Some. intros [[<- <-]|[Hne Hl']]; [by apply (H4 l v)|eauto].
Qed.
End ops.

(** ** The operations *)

Section refine.
Context {W : Type} `{!Inodes W, !Vnodes W, !Kalloc file} {Hvn : VnodesOk}.

Lemma refs_ext (s s' : ftab W) : refs_ok s → files s' = files s → table s' = table s → refs_ok s'.
Proof using Type. intros [H1 H2 H3 H4] Ef Et. split; rewrite ?Ef, ?Et; eauto. Qed.

(** What an operation promises: the invariant, the lock given back, the list of
    descriptors as specified. *)
Definition op_post (op : fd_op) (s : ftab W) (r : Z) (s' : ftab W) : Prop :=
  refs_ok s' ∧ table_held s' = false ∧ fd_spec s s' op r.

Lemma op_fail op r s s' : refs_ok s → files s' = files s → table s' = table s → table_held s' = false → fd_fails s op r → op_post op s r s'.
Proof using Type. intros Hs Ef Et Hh Hsp. split; [by eapply refs_ext|]. split; [done|]. by constructor. Qed.
(** No file has more descriptors than there are. *)
Lemma count_range l v (s : ftab W) : refs_ok s → files s !! l = Some v → 0 < f_ref v ≤ NFILE.
Proof using Type.
  intros [H1 _ H3 _] Hv. destruct (H3 l v Hv) as [-> ?]. pose proof (names_range l (table s)). unfold NFILE in *. lia.
Qed.
Lemma recount_put n l v (h : gmap loc file) : h !! l = Some v → recount n l h = <[l := {| v with f_ref := f_ref v + n |}]> h.
Proof using Type. intros Hv. unfold recount. by rewrite (alter_known _ l h v). Qed.

Lemma dup_ok fd s : refs_ok s → table_held s = false → wp (dup fd) (op_post (Dup fd) s) s.
Proof using Type.
  intros Hs Hh. pose proof Hs as [H1 H2 H3 H4]. unfold dup. apply wp_bind, wp_spin_lock; [done|]. apply wp_bind, wp_check_fildes; [done|done|].
  simpl table. destruct (decide (file_at (table s) fd = NULL)) as [Hn|Hn].
  { rewrite decide_True by (unfold EBADF; lia). apply wp_bind, wp_spin_unlock; [done|]. apply wp_ret. apply op_fail; try done. by constructor. }
  destruct (file_at (table s) fd) as [l|] eqn:Hfd; [|done]. apply file_at_Some in Hfd as Hfd'. destruct Hfd' as [Hr Hfd'].
  rewrite decide_False by lia. apply wp_bind, wp_fileget; [done|done|]. simpl table. rewrite Hfd, decide_False by done.
  apply wp_bind, wp_fdalloc; [done|done|]. simpl table. pose proof (first_free_spec (table s)) as Hff. destruct (first_free (table s)) as [k|] eqn:Hk.
  - rewrite decide_False by lia. destruct (H2 l) as [v Hv]; [by eapply list_elem_of_lookup_2|]. destruct (H3 l v Hv). destruct (H4 l v Hv).
    apply wp_bind. pose proof (count_range l v s Hs Hv). eapply (wp_fdup l v); [done|done|lia|].
    rewrite decide_False by lia. apply wp_bind, wp_spin_unlock; [done|]. apply wp_ret.
    split; [|split; [done|eapply spec_dup; [done..|by rewrite (recount_put _ _ v)|done]]]. eapply refs_ext; [eapply (refs_put k l {| v with f_ref := f_ref v + 1 |} s Hs); simpl; [by destruct Hff|lia|done|done]|done|done].
  - rewrite decide_True by (unfold EMFILE; lia). apply wp_bind, wp_spin_unlock; [done|]. apply wp_ret. apply op_fail; try done. by econstructor.
Qed.
Lemma close_ok fd s : refs_ok s → table_held s = false → keeps_files (table s) (Close fd) → wp (close fd) (op_post (Close fd) s) s.
Proof using Hvn.
  intros Hs Hh Hkeep. pose proof Hs as [H1 H2 H3 H4]. unfold close. apply wp_bind, wp_spin_lock; [done|]. apply wp_bind, wp_check_fildes; [done|done|].
  simpl table. destruct (decide (file_at (table s) fd = NULL)) as [Hn|Hn].
  { rewrite decide_True by (unfold EBADF; lia). apply wp_bind, wp_spin_unlock; [done|]. apply wp_ret. apply op_fail; try done. by constructor. }
  destruct (file_at (table s) fd) as [l|] eqn:Hfd; [|done]. specialize (Hkeep l Hfd). apply file_at_Some in Hfd as Hfd'. destruct Hfd' as [Hr Hfd'].
  rewrite decide_False by lia. apply wp_bind, wp_fileget; [done|done|]. simpl table. rewrite Hfd, decide_False by done.
  destruct (H2 l) as [v Hv]; [by eapply list_elem_of_lookup_2|]. destruct (H3 l v Hv). destruct (H4 l v Hv).
  apply wp_bind. pose proof (count_range l v s Hs Hv). eapply (wp_fclose l v); [done|done|lia|]. apply wp_bind, wp_set_slot; [lia|by eexists|].
  apply wp_bind, wp_spin_unlock; [done|]. apply wp_ret. split; [|split; [done|eapply spec_close; [done|by rewrite (recount_put _ _ v)|done]]].
  eapply refs_ext; [exact (refs_drop (Z.to_nat fd) l v s Hs Hfd' Hv Hkeep)|done|done].
Qed.
(** The end of [dup2]: slot [fd2] counts as free in [s'], and the files are those of [s']. *)
Lemma dup2_tail fd1 fd2 l v (s s' s1 : ftab W) : refs_ok s' → file_at (table s) fd1 = Some l → 0 ≤ fd2 < NFILE →
  table s' !! Z.to_nat fd2 = Some NULL → files s' !! l = Some v → file_at (table s) fd2 ≠ Some l →
  files s' = match file_at (table s) fd2 with Some l2 => recount (-1) l2 (files s) | None => files s end →
  <[Z.to_nat fd2 := Some l]> (table s') = <[Z.to_nat fd2 := Some l]> (table s) → files s1 = files s' → is_Some (table s1 !! Z.to_nat fd2) →
  <[Z.to_nat fd2 := Some l]> (table s1) = <[Z.to_nat fd2 := Some l]> (table s) → table_held s1 = true →
  wp (err ← fdup (Some l); if decide (err ≠ 0) then spin_unlock;; mret err else set_slot fd2 (Some l);; spin_unlock;; mret fd2) (op_post (Dup2 fd1 fd2) s) s1.
Proof using Type.
  intros Hs' Hfd Hr Hnull Hv Hne Hf Et E1 Hsl E2 E3. destruct (ro_count _ Hs' l v Hv). destruct (ro_file _ Hs' l v Hv).
  pose proof (count_range l v s' Hs' Hv).
  apply wp_bind. eapply (wp_fdup l v); [by rewrite E1|done|lia|]. rewrite decide_False by lia.
  apply wp_bind, wp_set_slot; [lia|done|]. apply wp_bind, wp_spin_unlock; [done|]. apply wp_ret.
  split; [|split; [done|eapply spec_dup2; [done|done| |done]; rewrite decide_False by done; rewrite <- Hf, (recount_put _ _ v) by done; simpl; by rewrite E1]].
  eapply refs_ext; [eapply (refs_put (Z.to_nat fd2) l {| v with f_ref := f_ref v + 1 |} s' Hs' Hnull); simpl; [lia|done|done]|simpl; by rewrite E1|simpl; congruence].
Qed.
Lemma dup2_ok fd1 fd2 s : refs_ok s → table_held s = false → keeps_files (table s) (Dup2 fd1 fd2) → wp (dup2 fd1 fd2) (op_post (Dup2 fd1 fd2) s) s.
Proof using Hvn.
  intros Hs Hh Hkeep. pose proof Hs as [H1 H2 H3 H4]. unfold dup2. apply wp_bind, wp_spin_lock; [done|]. apply wp_bind, wp_check_fildes; [done|done|].
  simpl table. destruct (decide (file_at (table s) fd1 = NULL)) as [Hn|Hn].
  { rewrite decide_True by (unfold EBADF; lia). apply wp_bind, wp_spin_unlock; [done|]. apply wp_ret. apply op_fail; try done. constructor. by left. }
  destruct (file_at (table s) fd1) as [l|] eqn:Hfd; [|done]. apply file_at_Some in Hfd as Hfd'. destruct Hfd' as [Hr Hfd'].
  rewrite decide_False by lia. unfold check_fd. case_bool_decide as Hb.
  { rewrite decide_True by (unfold EBADF; lia). apply wp_bind, wp_spin_unlock; [done|]. apply wp_ret. apply op_fail; try done. constructor. right. lia. }
  rewrite decide_False by lia. apply wp_bind, wp_fileget; [done|done|]. simpl table. rewrite Hfd, decide_False by done.
  apply wp_bind, wp_fileget; [done|lia|]. simpl table.
  destruct (H2 l) as [v Hv]; [by eapply list_elem_of_lookup_2|]. destruct (H3 l v Hv). destruct (H4 l v Hv).
  destruct (lookup_lt_is_Some_2 (table s) (Z.to_nat fd2)) as [q Hq]; [unfold NFILE in *; lia|].
  assert (Hq' : file_at (table s) fd2 = q) by (unfold file_at; rewrite bool_decide_true by lia; by rewrite Hq). rewrite Hq'.
  case_decide as Heq.
  { apply wp_bind, wp_spin_unlock; [done|]. apply wp_ret. split; [by eapply refs_ext|]. split; [done|].
    eapply spec_dup2; [done|lia|by rewrite decide_True by congruence|]. simpl. symmetry. apply list_insert_id. congruence. }
  destruct q as [l2|].
  - rewrite decide_False by done. simpl in Hkeep. destruct (Hkeep l2 Hq') as [?|Hk2]; [congruence|].
    destruct (H2 l2) as [v2 Hv2]; [by eapply list_elem_of_lookup_2|]. destruct (H3 l2 v2 Hv2). destruct (H4 l2 v2 Hv2).
    pose proof (count_range l2 v2 s Hs Hv2). apply wp_bind. eapply (wp_fclose l2 v2); [done|done|lia|]. rewrite decide_False by lia.
    eapply (dup2_tail fd1 fd2 l v s _ _ (refs_drop (Z.to_nat fd2) l2 v2 s Hs Hq Hv2 Hk2)); simpl; try done; [lia|..].
    + apply list_lookup_insert_eq. by eapply lookup_lt_Some.
    + rewrite lookup_insert_ne by congruence. done.
    + congruence.
    + by rewrite Hq', (recount_put _ _ v2).
    + by rewrite list_insert_insert_eq.
  - rewrite decide_True by done. apply wp_bind, wp_ret. rewrite decide_False by lia.
    eapply (dup2_tail fd1 fd2 l v s s); try done; try lia; by rewrite Hq'.
Qed.

(** *** New files *)

Lemma wp_file_alloc s (Q : Z + loc → ftab W → Prop) : (no_memory s → Q (inl (- ENOMEM)) s) →
  (∀ l, kmalloc_at (files s) = Some l → files s !! l = None → Q (inr l) (put_file l fresh_file s)) →
  wp file_alloc Q s.
Proof using Type.
  intros H1 H2. unfold file_alloc. apply wp_bind, wp_gets. destruct (lock_ok s) eqn:E; simpl; [|apply wp_ret, H1; by left]. apply wp_bind, wp_kmalloc.
  - intros ?. apply wp_ret, H1. by right.
  - intros l Hl Hn. apply wp_ret. by apply H2.
Qed.
Lemma wp_file_free l s (Q : unit → ftab W → Prop) : is_Some (files s !! l) → Q tt {| s with files := delete l (files s) |} → wp (file_free (Some l)) Q s.
Proof using Type. intros [v Hv] HQ. unfold file_free. apply wp_bind. eapply wp_rd; [exact Hv|]. apply wp_kfree; [by eexists|done]. Qed.
Lemma wp_fopen l v o s (Q : Z → ftab W → Prop) : files s !! l = Some v → is_Some (f_inode v) → Q 0 s → wp (fopen (Some l) o) Q s.
Proof using Hvn.
  intros Hl [i Hi] HQ. unfold fopen, fdispatch. apply wp_bind. eapply wp_rd; [exact Hl|]. rewrite Hi. apply wp_bind, wp_gets.
  destruct (vo_fops i (world s)) as (op & -> & -> & _). by apply wp_ret.
Qed.
Lemma new_not_named l (s : ftab W) : refs_ok s → files s !! l = None → Some l ∉ table s ∧ names l (table s) = 0.
Proof using Type.
  intros Hs Hl. assert (Hn : Some l ∉ table s) by (intros Hin; destruct (ro_open s Hs l Hin); congruence). split; [done|].
  pose proof (names_range l (table s)). pose proof (names_pos l (table s)). destruct (decide (names l (table s) = 0)); [done|]. exfalso. apply Hn. naive_solver lia.
Qed.
Lemma open_ok fn o m s : refs_ok s → table_held s = false → wp (open fn o m) (op_post (Open fn o m) s) s.
Proof using Hvn.
  intros Hs Hh. unfold open. apply wp_bind, wp_file_alloc.
  { intros ?. apply wp_ret, op_fail; try done. by constructor. }
  intros l _ Hl. destruct (new_not_named l s Hs Hl) as [Hnin Hn0]. apply wp_bind, wp_spin_lock; [done|]. apply wp_bind.
  assert (Hundo : ∀ v (s' : ftab W) e, fd_fails s (Open fn o m) e → files s' = <[l := v]> (files s) → table s' = table s → table_held s' = true →
    wp (spin_unlock;; file_free (Some l);; mret e) (op_post (Open fn o m) s) s').
  { intros v s' e He E1 E2 E3. apply wp_bind, wp_spin_unlock; [done|]. apply wp_bind, wp_file_free; [simpl; rewrite E1, lookup_insert_eq; by eexists|].
    apply wp_ret, op_fail; try done; simpl. rewrite E1. by apply delete_insert_id. }
  destruct (vo_lookup fn o m (world s)) as (r & w' & Hlk & Hr). eapply wp_on_world; [exact Hlk|]. destruct r as [e|[i d]]; [eapply Hundo; [by econstructor|done..]|].
  apply wp_bind. eapply wp_updf; [apply lookup_insert_eq|]. set (v := {| _ with f_inode := _; f_flags := _; f_dentry := _ |}).
  apply wp_bind. eapply wp_fopen; [apply put_file_lookup|done|]. rewrite decide_False by lia. apply wp_bind, wp_fdalloc; [apply Hs|done|].
  simpl table. pose proof (first_free_spec (table s)) as Hff. destruct (first_free (table s)) as [k|] eqn:Hk.
  - rewrite decide_False by lia. apply wp_bind, wp_spin_unlock; [done|]. apply wp_ret.
    split; [|split; [done|eapply spec_open; [done|done|done|simpl; by rewrite insert_insert_eq|done]]].
    eapply refs_ext; [eapply (refs_put k l v s Hs); [by destruct Hff|rewrite Hn0; done|done|done]|simpl; by rewrite insert_insert_eq|done].
  - rewrite decide_True by (unfold EMFILE; lia). eapply (Hundo v); try done; [by constructor|]. simpl. by rewrite insert_insert_eq.
Qed.
End refine.

(** *** Pipes *)

Section pipes.
Context {W : Type} `{!Inodes W, !Vnodes W, !Kalloc file} {Hvn : VnodesOk}.

(** Giving up on a new pipe: the two new files are freed. *)
Lemma pipe_undo l0 l1 v0 v1 e (s s' : ftab W) : refs_ok s → fd_fails s Pipe e → files s !! l0 = None → files s !! l1 = None → l0 ≠ l1 →
  files s' = <[l1 := v1]> (<[l0 := v0]> (files s)) → table s' = table s → table_held s' = true →
  wp (spin_unlock;; file_free (Some l0);; file_free (Some l1);; mret (inl e)) (λ r s', op_post Pipe s (match (r : Z + Z * Z) with inl err => err | inr _ => 0 end) s') s'.
Proof using Type.
  intros Hs He H0 H1 Hne E1 E2 E3. apply wp_bind, wp_spin_unlock; [done|].
  apply wp_bind, wp_file_free; [simpl; rewrite E1, lookup_insert_ne, lookup_insert_eq by done; by eexists|].
  apply wp_bind, wp_file_free; [simpl; rewrite E1, lookup_delete_ne, lookup_insert_eq by done; by eexists|].
  apply wp_ret, op_fail; try done; simpl. rewrite E1. rewrite delete_insert_ne, (delete_insert_id (files s)) by done. by apply delete_insert_id.
Qed.
Lemma wp_pipefs_pipe l0 l1 v0 v1 (s : ftab W) (Q : Z → ftab W → Prop) : files s !! l0 = Some v0 → files s !! l1 = Some v1 → l0 ≠ l1 →
  (∀ e w, e ≠ 0 → pipe_inodes (world s) = Ok (inl e, w) → Q e {| s with world := w |}) →
  (∀ i0 i1 w, pipe_inodes (world s) = Ok (inr (i0, i1), w) → Q 0 {| (put_file l1 {| v1 with f_inode := Some i1; f_flags := Z.lor (f_flags v1) O_WRONLY |}
    (put_file l0 {| v0 with f_inode := Some i0; f_flags := Z.lor (f_flags v0) O_RDONLY |} s)) with world := w |}) →
  wp (pipefs_pipe l0 l1) Q s.
Proof using Hvn.
  intros H0 H1 Hne He HQ. unfold pipefs_pipe. apply wp_bind. destruct (vo_pipe (world s)) as (r & w & Hp & Hr).
  eapply wp_on_world; [exact Hp|]. destruct r as [e|[i0 i1]]; [by apply wp_ret; eapply He|].
  apply wp_bind. eapply wp_updf; [exact H0|]. apply wp_bind. eapply (wp_updf l1 v1); [simpl; by rewrite lookup_insert_ne|]. apply wp_ret. by apply HQ.
Qed.
Lemma pipe_ok (s : ftab W) : refs_ok s → table_held s = false →
  wp pipe (λ r s', op_post Pipe s (match r with inl err => err | inr _ => 0 end) s') s.
Proof using Hvn.
  intros Hs Hh. unfold pipe. apply wp_bind, wp_file_alloc; [intros ?; apply wp_ret, op_fail; try done; constructor; by left|].
  intros l0 Hat0 Hl0. destruct (new_not_named l0 s Hs Hl0) as [Hn0 Hz0]. apply wp_bind, wp_file_alloc.
  { intros ?. apply wp_bind, wp_file_free; [simpl; rewrite lookup_insert_eq; by eexists|].
    apply wp_ret, op_fail; try done; simpl; [by apply delete_insert_id|]. constructor. right. by exists l0. }
  intros l1 _ Hl1'. simpl in Hl1'. apply lookup_insert_None in Hl1' as [Hl1 Hne]. destruct (new_not_named l1 s Hs Hl1) as [Hn1 Hz1].
  apply wp_bind, wp_spin_lock; [done|]. apply wp_bind, wp_fdalloc; [apply Hs|done|]. simpl table.
  pose proof (first_free_spec (table s)) as Hff. destruct (first_free (table s)) as [k0|] eqn:Hk0.
  2:{ rewrite decide_True by (unfold EMFILE; lia). eapply (pipe_undo l0 l1 fresh_file fresh_file); try done. constructor. congruence. }
  destruct Hff as [Hfree _]. rewrite decide_False by lia. apply wp_bind, wp_fdalloc; [simpl; rewrite length_insert; apply Hs|done|]. simpl table.
  assert (Hback : <[k0 := NULL]> (<[k0 := Some l0]> (table s)) = table s) by (rewrite list_insert_insert_eq; by apply list_insert_id).
  pose proof (first_free_spec (<[k0 := Some l0]> (table s))) as Hff. destruct (first_free (<[k0 := Some l0]> (table s))) as [k1|] eqn:Hk1.
  2:{ rewrite decide_True by (unfold EMFILE; lia). apply wp_bind, wp_set_slot; [lia|simpl; rewrite Nat2Z.id; apply list_lookup_insert_is_Some; by eexists|].
      rewrite Nat2Z.id. eapply (pipe_undo l0 l1 fresh_file fresh_file); try done. constructor. intros k l E.
      assert (k = k0) as -> by congruence. by rewrite (first_free_any k0 l l0). }
  destruct Hff as [Hfree1 _]. rewrite decide_False by lia. apply wp_bind.
  assert (Hk : k0 ≠ k1) by (intros ->; rewrite list_lookup_insert_eq in Hfree1 by (by eapply lookup_lt_Some); done).
  assert (Hfree1' : table s !! k1 = Some NULL) by (by rewrite list_lookup_insert_ne in Hfree1).
  eapply (wp_pipefs_pipe l0 l1 fresh_file fresh_file); [simpl; rewrite lookup_insert_ne by done; apply lookup_insert_eq|apply lookup_insert_eq|done|..].
  - intros e w He Hp. rewrite decide_True by done. apply wp_bind, wp_set_slot; [lia|simpl; rewrite Nat2Z.id, !list_lookup_insert_is_Some; by eexists|].
    apply wp_bind, wp_set_slot; [lia|simpl; rewrite !Nat2Z.id, !list_lookup_insert_is_Some; by eexists|].
    eapply (pipe_undo l0 l1 fresh_file fresh_file); try done; [by econstructor|]. simpl. rewrite !Nat2Z.id.
    rewrite (list_insert_insert_ne _ k0 k1), list_insert_insert_eq, Hback by done. by apply list_insert_id.
  - intros i0 i1 w Hp. rewrite decide_False by lia. apply wp_bind, wp_spin_unlock; [done|]. apply wp_ret.
    split; [|split; [done|eapply spec_pipe; try done; simpl; by rewrite (insert_insert_ne _ l0 l1), insert_insert_eq, insert_insert_eq]].
    set (va := {| fresh_file with f_inode := Some i0; f_flags := Z.lor (f_flags fresh_file) O_RDONLY |}).
    set (vb := {| fresh_file with f_inode := Some i1; f_flags := Z.lor (f_flags fresh_file) O_WRONLY |}).
    assert (Ha : refs_ok (put_slot k0 (Some l0) (put_file l0 va s))) by (apply refs_put; [done|done|by rewrite Hz0|done|done]).
    eapply refs_ext; [eapply (refs_put k1 l1 vb _ Ha); simpl; [done| |done|done]|simpl|done].
    + rewrite (names_insert _ _ _ NULL) by done. rewrite !decide_False by congruence. by rewrite Hz1.
    + rewrite (insert_insert_ne _ l0 l1), insert_insert_eq, insert_insert_eq by done. done.
Qed.
End pipes.

(** ** The properties *)

Section properties.
Context {W : Type} `{!Inodes W, !Vnodes W, !Kalloc file}.

(** C21: The file table implements [open], [dup], [dup2], [close] and [pipe] on a plain
    list of descriptors and their open files ([fd_spec]): a new descriptor is the lowest
    free one and names a new file with the inode that the lookup (or the new pipe) gave,
    [dup] and [dup2] make a second descriptor of the same open file.  An operation fails
    only for its reasons ([fd_fails]) - [open] with the error of the lookup and [pipe]
    with that of the new pipe, a bad descriptor with [-EBADF], a full table with
    [-EMFILE], no memory for an open file with [-ENOMEM] - and then leaves descriptors
    and files as they were.  Every operation ends with the table unlocked, and keeps the
    invariant: each open file counts exactly the descriptors that name it, none names a
    freed file and no file is leaked, on the error paths as well.  Assumed: no file loses
    its last descriptor ([keeps_files]; the code then uses freed memory), and of the rest
    of the file system ([VnodesOk]) that lookups and new pipes return, an inode or an
    error, and that every inode has the [open] and [close] of [posix_fops]. *)
Theorem fd_table_refines op (s : ftab W) : VnodesOk → refs_ok s → table_held s = false → keeps_files (table s) op →
  wp (run_op op) (op_post op s) s.
Proof.
  intros Hvn Hs Hh Hk. destruct op; simpl run_op.
  - by apply open_ok.
  - by apply dup_ok.
  - by apply dup2_ok.
  - by apply close_ok.
  - apply wp_bind. eapply wp_mono; [by apply pipe_ok|]. intros r s' Hp. by apply wp_ret.
Qed.

(** Closing the last descriptor of a file uses freed memory: [posix_file_close] frees
    the open file and then reads its inode from it, so [close] faults. *)
Theorem close_last_faults fd l v i o (s : ftab W) : refs_ok s → table_held s = false → file_at (table s) fd = Some l → names l (table s) = 1 →
  files s !! l = Some v → f_inode v = Some i → fops_of i (world s) = inr o → fo_close o = Some posix_file_close →
  close fd s = Fault.
Proof.
  intros Hs Hh Hfd Hn Hv Hi Ho Hc. destruct (file_at_Some _ _ _ Hfd) as [Hr Hk]. destruct (ro_count s Hs l v Hv) as [Href _].
  assert (H1 : check_fildes fd {| s with table_held := true |} = Ok (0, {| s with table_held := true |})).
  { unfold check_fildes, spin_assert_lock, mbind, M_bind, gets. simpl. rewrite bool_decide_false by lia.
    unfold get_slot, mret, M_ret. simpl. rewrite option_guard_True by lia. simpl. by rewrite Hk. }
  assert (H2 : fileget fd {| s with table_held := true |} = Ok (Some l, {| s with table_held := true |})).
  { unfold fileget. rewrite bool_decide_false by lia. unfold get_slot. rewrite option_guard_True by lia. simpl. by rewrite Hk. }
  unfold close, spin_lock, mbind at 1, M_bind at 1. unfold gets at 1. simpl. unfold modify, mbind at 1, M_bind at 1. rewrite Hh. simpl.
  unfold mbind at 1, M_bind at 1. rewrite H1. rewrite decide_False by lia. unfold mbind at 1, M_bind at 1. rewrite H2. rewrite decide_False by done.
  assert (H3 : fclose (Some l) {| s with table_held := true |} = Fault).
  { unfold fclose, fdispatch, mbind, M_bind, rd, gets. simpl. rewrite Hv. simpl. rewrite Hi. simpl. rewrite Ho, Hc. unfold posix_file_close, mbind, M_bind, upd. simpl.
    rewrite Hv. unfold rd. simpl. rewrite lookup_alter_eq, Hv. simpl. rewrite Href, Hn. simpl bool_decide. cbv iota.
    unfold file_free, mbind, M_bind, rd, kfree. simpl. rewrite !lookup_alter_eq, Hv. simpl. rewrite lookup_alter_eq, Hv. simpl. by rewrite lookup_delete_eq. }
  unfold mbind at 1, M_bind at 1. by rewrite H3.
Qed.
End properties.

(** ** An example *)

(** A file system with one file, number 7. *)
#[local] Instance demo_inodes : Inodes unit := {| iclose _ := mret 0; i_size _ _ := 0 |}.
Definition demo_fops : fops unit := Fops (Some posix_file_open) (Some posix_file_close) None None (Some posix_file_lseek) None.
#[local] Instance demo_vnodes : Vnodes unit := {|
  fops_of _ _ := inr demo_fops; no_op _ _ := - ENOSYS; vfs_lookup fn _ _ := mret (if decide (fn = [47]) then inr (Some 7%positive, NULL) else inl (- ENOENT));
  pipe_inodes := mret (inr (8%positive, 9%positive)); lock_ok _ := true |}.
#[local] Instance demo_files : Kalloc file := kalloc_total file.
Lemma demo_vnodes_ok : VnodesOk (W := unit).
Proof.
  split.
  - intros i w. by exists demo_fops.
  - intros fn o m w. simpl. destruct (decide (fn = [47])); eexists _, _; (split; [reflexivity|]); simpl; [by eexists|done].
  - intros w. by eexists _, _.
Qed.
Definition demo_table : ftab unit :=
  Ftab {[3%positive := File false NULL 0 (Some 7%positive) 0 1]} (Some 3%positive :: replicate 15 NULL) false tt.
Lemma demo_table_ok : refs_ok demo_table.
Proof.
  split.
  - done.
  - intros l [H|H]%elem_of_cons; [by simplify_eq|]. by apply elem_of_replicate in H as [? ?].
  - intros l v Hl. unfold demo_table in Hl. simpl in Hl. apply lookup_singleton_Some in Hl as [<- <-]. done.
  - intros l v Hl. unfold demo_table in Hl. simpl in Hl. apply lookup_singleton_Some in Hl as [<- <-]. split; [done|by eexists].
Qed.
Lemma fd_table_refines_witness : refs_ok demo_table ∧ wp (run_op (Dup 0)) (op_post (Dup 0) demo_table) demo_table ∧ run_op (Dup 0) demo_table = Ok (1,
  Ftab {[3%positive := File false NULL 0 (Some 7%positive) 0 2]} (Some 3%positive :: Some 3%positive :: replicate 14 NULL) false tt).
Proof.
  split; [apply demo_table_ok|]. split; [|vm_compute; reflexivity].
  apply (fd_table_refines (Dup 0) demo_table demo_vnodes_ok demo_table_ok eq_refl I).
Defined.
Lemma close_last_faults_witness : refs_ok demo_table ∧ close 0 demo_table = Fault.
Proof.
  split; [apply demo_table_ok|].
  apply (close_last_faults 0 3%positive (File false NULL 0 (Some 7%positive) 0 1) 7%positive demo_fops demo_table demo_table_ok); reflexivity.
Defined.
