(* ===== verification/Path.v ===== *)
(** * Path names ([kernel/fs/vfs.c])

    From a path and a working directory to an absolute path without ".", ".." and empty
    pieces, and to the list of its names, on the memory of [Strings].  The string
    literals of the code lie in memory like any string; an array of pointers is the list
    of its entries. *)
From S2P Require Import Prelude FsTypes Strings.

(** [vfs_path_syntax] rejects control characters, the backslash and some others; a [char]
    is signed. *)
Definition bad_char (b : Z) : bool :=
  bool_decide (schar b < 32 ∨ b = 92 ∨ b = 0x7f ∨ b = 0x81 ∨ b = 0x8D ∨ b = 0x9D ∨ b = 0xA0 ∨ b = 0xAD).
Fixpoint syntax_loop (fuel : nat) (path : cptr) : M bytes Z :=
  match fuel with
  | O => nofuel
  | S fuel' =>
      b ← lb path;
      if bool_decide (b = 0) then mret 0 else
      if bad_char b then mret (- ENOTNAM) else syntax_loop fuel' (padd path 1)
  end.
Definition vfs_path_syntax (path : option cptr) : M bytes Z :=
  match path with
  | None => mret (- EINVAL)
  | Some path =>
      b ← lb path;
      if bool_decide (b = 0) then mret (- ENOTNAM) else fuel ← room path; syntax_loop fuel path
  end.

Section path.
Context `{!ByteAlloc}.
(** The literals "/", "." and "..". *)
Context (root dot dotdot : cptr).

(** The tokens without "." and with ".." resolved, and the length of the path they make. *)
Fixpoint resolve_loop (tokens tmp_path : list cptr) (pathlen : Z) : M bytes (list cptr * Z) :=
  match tokens with
  | [] => mret (tmp_path, pathlen)
  | token :: tokens =>
      r ← compare_strings token dot;
      if decide (r = 0) then resolve_loop tokens tmp_path pathlen else
      r ← compare_strings token dotdot;
      if decide (r = 0) then
        match last tmp_path with
        | None => resolve_loop tokens tmp_path pathlen
        | Some token => n ← strlen token; resolve_loop tokens (removelast tmp_path) (pathlen - (n + 1))
        end
      else
        n ← strlen token;
        resolve_loop tokens (tmp_path ++ [token]) (pathlen + (n + 1))
  end.
(** The names, each behind a slash: the length written, or the error. *)
Fixpoint join_loop (tmp_path : list cptr) (abs_path : cptr) (j : Z) : M bytes (Z + Z) :=
  match tmp_path with
  | [] => mret (inr j)
  | token :: tmp_path =>
      sb (padd abs_path j) 47;;
      tok_len ← strlen token;
      if bool_decide (FNAME_MAX < tok_len) then mret (inl (- ENAMETOOLONG)) else
      strncpy (padd abs_path (j + 1)) token tok_len;;
      join_loop tmp_path abs_path (j + 1 + tok_len)
  end.

Definition free_opt (p : option cptr) : M bytes unit := match p with None => mret tt | Some p => kfree_block p end.
(** [cwd], a slash and [path] in a new string. *)
Definition parsed_path (path cwd : cptr) : M bytes (option cptr) :=
  cwdlen ← strlen cwd;
  pathlen ← strlen path;
  let buflen := cwdlen + pathlen + 2 in
  parsed ← kmalloc_block buflen;
  match parsed with
  | None => mret None
  | Some parsed_string =>
      strncpy parsed_string cwd cwdlen;;
      sb (padd parsed_string cwdlen) 47;;
      strncpy (padd parsed_string (cwdlen + 1)) path pathlen;;
      sb (padd parsed_string (buflen - 1)) 0;;
      mret (Some parsed_string)
  end.
(** What [vfs_parse_path] frees last; [tmp_cwd] may be NULL. *)
Definition cleanup (tokens : list cptr) (parsed_string : cptr) (tmp_cwd : option cptr) : M bytes unit :=
  tokens_free (Some tokens);;
  kfree_block parsed_string;;
  free_opt tmp_cwd.
(** The end of a path that is in place up to [j]. *)
Definition end_path (abs_path : cptr) (j : Z) : M bytes unit :=
  sb (padd abs_path j) 0;;
  b ← lb abs_path;
  if bool_decide (b = 0) then sb (padd abs_path j) 47;; sb (padd abs_path (j + 1)) 0 else sb (padd abs_path j) 0.
(** The path the tokens make. *)
Definition joined_path (tokens : list cptr) : M bytes (Z + cptr) :=
  '(tmp_path, pathlen) ← resolve_loop tokens [] 1;
  if decide (pathlen = 0) then panic else
  abs ← kmalloc_block (if decide (pathlen = 1) then 2 else pathlen);
  match abs with
  | None => mret (inl (- ENOMEM))
  | Some abs_path =>
      r ← join_loop tmp_path abs_path 0;
      match r with
      | inl err => kfree_block abs_path;; mret (inl err)
      | inr j => end_path abs_path j;; mret (inr abs_path)
      end
  end.
(** [vfs_parse_path] from the absolute working directory on. *)
Definition parse_absolute (path cwd : cptr) (tmp_cwd : option cptr) : M bytes (Z + cptr) :=
  parsed ← parsed_path path cwd;
  match parsed with
  | None => free_opt tmp_cwd;; mret (inl (- ENOMEM))
  | Some parsed_string =>
      tokens ← canonicalize_path (Some parsed_string);
      match tokens with
      | None => kfree_block parsed_string;; free_opt tmp_cwd;; mret (inl (- ENOMEM))
      | Some tokens =>
          ok ← gets (λ s, krealloc_array (blocks s) (Z.of_nat (length tokens) + 1));
          r ← (if (ok : bool) then joined_path tokens else mret (inl (- ENOMEM)));
          cleanup tokens parsed_string tmp_cwd;;
          mret r
      end
  end.
Definition vfs_parse_path (path : option cptr) (cwd : option cptr) : M bytes (Z + cptr) :=
  err ← vfs_path_syntax path;
  if decide (err ≠ 0) then mret (inl err) else
  match path with
  | None => fault
  | Some path =>
      let cwd := default root cwd in
      b ← lb path;
      let cwd := if bool_decide (b = 47) then root else cwd in
      err ← vfs_path_syntax (Some cwd);
      if decide (err ≠ 0) then mret (inl err) else
      b ← lb cwd;
      if bool_decide (b ≠ 47) then
        cwdlen ← strlen cwd;
        let buflen := cwdlen + 2 in
        tmp ← kmalloc_block buflen;
        match tmp with
        | None => mret (inl (- ENOMEM))
        | Some tmp_cwd =>
            sb tmp_cwd 47;;
            strncpy (padd tmp_cwd 1) cwd cwdlen;;
            sb (padd tmp_cwd (buflen - 1)) 0;;
            parse_absolute path tmp_cwd (Some tmp_cwd)
        end
      else parse_absolute path cwd None
  end.

Definition vfs_canonicalize_path (fn cwd : option cptr) : M bytes (Z + list cptr) :=
  match fn, cwd with
  | Some _, Some _ =>
      r ← vfs_parse_path fn cwd;
      match r with
      | inl err => mret (inl err)
      | inr path =>
          tokens ← canonicalize_path (Some path);
          match tokens with
          | None => kfree_block path;; mret (inl (- ENOMEM))
          | Some tokens => kfree_block path;; mret (inr tokens)
          end
      end
  | _, _ => mret (inl (- EINVAL))
  end.
End path.
