(* ===== verification/PathSpec.v ===== *)
(** * What the path routines do *)
From S2P Require Import Prelude FsTypes Strings StringsSpec Path.

(** ** Shared steps *)

Lemma strdiff_0 w w' : Forall (λ c, 0 < c < 256) w → Forall (λ c, 0 < c < 256) w' → strdiff w w' = 0 ↔ w = w'.
Proof.
  intros H1. revert w'. induction H1 as [|c w Hc H1 IH]; intros w' H2; destruct H2 as [|c' w' Hc' H2]; simpl; [done|split; [lia|done]|split; [lia|done]|].
  case_bool_decide as E; [subst; rewrite IH by done|]; (split; [|congruence]); [congruence|lia].
Qed.
Lemma wp_compare_strings s b b' i i' w w' (Q : Z → bytes → Prop) : string_at s b i w → string_at s b' i' w' →
  (∀ r, (r = 0 ↔ w = w') → Q r s) → wp (compare_strings (b +> i) (b' +> i')) Q s.
Proof.
  intros Hw Hw' HQ. unfold compare_strings. pose proof Hw as (l & Hb & Hl). pose proof Hw' as (l' & Hb' & Hl').
  apply wp_bind. eapply wp_strlen; [done..|]. apply wp_bind. eapply wp_strlen; [done..|]. case_bool_decide.
  - apply wp_ret, HQ. split; [done|]. intros ->. done.
  - eapply wp_strcmp; [done..|]. apply HQ, strdiff_0; [by destruct Hl|by destruct Hl'].
Qed.
(** Copying a whole string, without its NUL. *)
Lemma wp_strncpy_all s bd bs ld ls d sr w (Q : cptr → bytes → Prop) : bd ≠ bs →
  blocks s !! bd = Some ld → blocks s !! bs = Some ls → cstr ls sr w → (d + length w ≤ length ld)%nat →
  Q (bd +> d) (put bd (splice ld d w) s) → wp (strncpy (bd +> d) (bs +> sr) (Z.of_nat (length w))) Q s.
Proof.
  intros Hne Hd Hs Hw Hl HQ. unfold strncpy. rewrite Nat2Z.id. apply wp_bind.
  apply (wp_strncpy_loop bd bs ls Hne _ _ _ _ ld w); try done.
  assert (clipped (length w) w = w) as -> by (unfold clipped; rewrite decide_False by lia; by rewrite take_ge by lia).
  rewrite Nat.sub_diag. simpl. apply wp_bind, wp_ret. by apply wp_ret.
Qed.
Lemma splice_app l i u v : (i + length u + length v ≤ length l)%nat → splice (splice l i u) (i + length u) v = splice l i (u ++ v).
Proof.
  intros H. revert i l H. induction u as [|c u IH]; intros i l H; simpl.
  - by rewrite splice_nil, Nat.add_0_r.
  - simpl in H. rewrite <- !splice_cons by lia. rewrite <- IH by (rewrite length_insert; lia). f_equal. lia.
Qed.
Lemma splice_all l w : length l = length w → splice l 0 w = w.
Proof. intros H. unfold splice. simpl. rewrite drop_ge by lia. by rewrite app_nil_r. Qed.
Lemma lookup_put s p l : blocks (put p l s) !! p = Some l.
Proof. apply lookup_insert_eq. Qed.
Lemma lookup_put_ne s p q l : p ≠ q → blocks (put p l s) !! q = blocks s !! q.
Proof. apply lookup_insert_ne. Qed.
Lemma put_comm s p q l l' : p ≠ q → put p l (put q l' s) = put q l' (put p l s).
Proof. intros. unfold put. simpl. f_equal. by apply insert_insert_ne. Qed.
Lemma wp_kfree_block s p l (Q : unit → bytes → Prop) : blocks s !! p = None → Q tt s → wp (kfree_block (p +> 0)) Q (put p l s).
Proof.
  intros Hp HQ. unfold kfree_block. rewrite bool_decide_true by done. simpl. apply wp_kfree; [simpl; by rewrite lookup_insert_eq|].
  simpl. rewrite delete_insert_id by done. by destruct s.
Qed.

(** ** Strings of several blocks *)

Lemma tokens_at_put s p l toks ws : blocks s !! p = None → tokens_at s toks ws → tokens_at (put p l s) toks ws.
Proof. intros Hp H. eapply Forall2_impl; [exact H|]. intros t w [? ?]. split; [done|]. eapply string_at_sub; [|done]. by apply put_sub. Qed.
Lemma tokens_at_ne s p toks ws : blocks s !! p = None → tokens_at s toks ws → Forall (λ t : cptr, t.1 ≠ p) toks.
Proof. intros Hp. induction 1 as [|t w toks ws (_ & l & Hb & _) _ IH]; constructor; [|done]. intros <-. congruence. Qed.
Lemma tokens_at_put_ne s p l toks ws : Forall (λ t : cptr, t.1 ≠ p) toks → tokens_at s toks ws → tokens_at (put p l s) toks ws.
Proof.
  intros Hp. induction 1 as [|t w toks ws (? & l' & Hb & ?) _ IH]; [constructor|]. apply Forall_cons in Hp as [? ?].
  constructor; [|by apply IH]. split; [done|]. exists l'. by rewrite lookup_put_ne by done.
Qed.
Lemma grown_put s s' toks p l : blocks s' !! p = None → grown s s' toks → grown (put p l s) (put p l s') toks.
Proof.
  intros Hp [H1 H2 H3 H4]. assert (Hps : blocks s !! p = None) by (by eapply lookup_weaken_None).
  assert (Hn : p ∉ toks.*1). { apply not_elem_of_dom in Hp. set_solver. } split; [|unfold put; simpl; set_solver| |done].
  - by apply insert_mono.
  - apply Forall_forall. intros t Ht. rewrite lookup_put_ne; [by eapply Forall_forall in H3|]. intros ->. apply Hn, list_elem_of_fmap. eauto.
Qed.
Lemma grown_tail s s' t toks : grown s s' (t :: toks) → is_Some (blocks s' !! t.1) ∧ grown s (Bytes (delete t.1 (blocks s'))) toks.
Proof.
  intros [H1 H2 H3 H4]. apply Forall_cons in H3 as [Ht H3]. apply NoDup_cons in H4 as [Hn H4]. simpl in *.
  assert (Hd : t.1 ∉ dom (blocks s)) by (by apply not_elem_of_dom). split; [apply elem_of_dom; set_solver|].
  split; simpl; [|rewrite dom_delete_L; set_solver|done..]. apply map_subseteq_spec. intros k x Hk.
  rewrite lookup_delete_ne; [by eapply lookup_weaken|]. intros <-. congruence.
Qed.
Lemma wp_free_all s s' toks (Q : unit → bytes → Prop) : grown s s' toks → Forall (λ t : cptr, t.2 = 0) toks → Q tt s → wp (free_all toks) Q s'.
Proof.
  intros Hg Hz HQ. revert s' Hg. induction Hz as [|t toks Hz _ IH]; intros s' Hg; simpl.
  - apply wp_ret. replace s' with s; [done|]. destruct Hg as [H1 H2 _ _]. destruct s as [h], s' as [h']. simpl in *. f_equal.
    apply map_eq. intros k. destruct (h !! k) eqn:E; [symmetry; by eapply lookup_weaken|]. symmetry. apply not_elem_of_dom.
    apply not_elem_of_dom in E. set_solver.
  - apply grown_tail in Hg as [Ht Hg]. apply wp_bind. unfold kfree_block. rewrite bool_decide_true by done.
    apply wp_kfree; [done|]. by apply IH.
Qed.

(** ** The specification *)

(** "." is nothing, ".." takes the name before it away. *)
Definition resolve (acc : list name) (w : name) : list name :=
  if decide (w = [46]) then acc else if decide (w = [46; 46]) then removelast acc else acc ++ [w].
Definition normalize (ws : list name) : list name := foldl resolve [] ws.
(** Each name behind a slash. *)
Definition joined (ws : list name) : list Z := mjoin (cons 47 <$> ws).
Definition path_of (ws : list name) : list Z := if decide (ws = []) then [47] else joined ws.
Definition fits (ws : list name) : Prop := Forall (λ w, Z.of_nat (length w) ≤ FNAME_MAX) ws.
Arguments joined : simpl never.
#[global] Instance fits_dec ws : Decision (fits ws) := _.

Lemma joined_app ws ws' : joined (ws ++ ws') = joined ws ++ joined ws'.
Proof. unfold joined. by rewrite fmap_app, join_app. Qed.
Lemma joined_cons w ws : joined (w :: ws) = 47 :: w ++ joined ws.
Proof. done. Qed.
Lemma tokens_at_snoc s toks ws t w : tokens_at s toks ws → tokens_at s [t] [w] → tokens_at s (toks ++ [t]) (ws ++ [w]).
Proof. apply Forall2_app. Qed.
Lemma tokens_at_last s toks ws t : tokens_at s (toks ++ [t]) ws → ∃ ws' w, ws = ws' ++ [w] ∧ tokens_at s toks ws' ∧ tokens_at s [t] [w].
Proof.
  intros (ws1 & ws2 & H1 & H2 & ->)%Forall2_app_inv_l. apply Forall2_cons_inv_l in H2 as (w & ws3 & H2 & H3 & ->).
  apply Forall2_nil_inv_l in H3 as ->. exists ws1, w. split; [done|]. split; [done|]. constructor; [done|constructor].
Qed.
Lemma tokens_at_chars s toks ws : tokens_at s toks ws → Forall (Forall (λ c, 0 < c < 256)) ws.
Proof. induction 1 as [|t w toks ws (_ & l & _ & [_ _ ?]) _ IH]; by constructor. Qed.
Lemma joined_chars ws : Forall (Forall (λ c, 0 < c < 256)) ws → Forall (λ c, 0 < c < 256) (joined ws).
Proof. induction 1; [constructor|]. rewrite joined_cons. constructor; [lia|]. by apply Forall_app. Qed.

Section resolve.
Context (db ddb : loc) (di ddi : nat) (s : bytes).
Hypothesis Hdot : string_at s db di [46].
Hypothesis Hdotdot : string_at s ddb ddi [46; 46].

Lemma wp_resolve_loop toks ws tmp acc (Q : list cptr * Z → bytes → Prop) : tokens_at s toks ws → tokens_at s tmp acc →
  (∀ tmp', tokens_at s tmp' (foldl resolve acc ws) → Q (tmp', Z.of_nat (length (joined (foldl resolve acc ws))) + 1) s) →
  wp (resolve_loop (db +> di) (ddb +> ddi) toks tmp (Z.of_nat (length (joined acc)) + 1)) Q s.
Proof using Hdot Hdotdot.
  intros Ht. revert tmp acc. induction Ht as [|[b z] w toks ws [Hz Hw] Ht IH]; intros tmp acc Htmp HQ; simpl in *; [by apply wp_ret, HQ|].
  subst z. apply wp_bind. apply (wp_compare_strings _ b db 0 di w [46]); [done..|]. intros r Hr.
  destruct (decide (r = 0)) as [E|E].
  { assert (resolve acc w = acc) as Er by (unfold resolve; by rewrite decide_True by tauto). rewrite Er in HQ. by apply IH. }
  apply wp_bind. apply (wp_compare_strings _ b ddb 0 ddi w [46; 46]); [done..|].
  intros r' Hr'. destruct (decide (r' = 0)) as [E'|E'].
  - assert (resolve acc w = removelast acc) as Er by (unfold resolve; by rewrite decide_False, decide_True by tauto).
    rewrite Er in HQ. destruct tmp as [|t tmp _] using rev_ind; simpl.
    + apply Forall2_nil_inv_l in Htmp as ->. apply (IH [] []); [constructor|done].
    + rewrite last_snoc, removelast_last. apply tokens_at_last in Htmp as (acc' & w' & -> & Htmp & Ht').
      clear Er. rewrite removelast_last in HQ. apply Forall2_cons in Ht' as [[Hz' (l' & Hb' & Hl')] _]. destruct t as [b' z']. simpl in *. subst z'.
      apply wp_bind. apply (wp_strlen _ b' 0 l' w'); [done..|].
      replace (_ - _) with (Z.of_nat (length (joined acc')) + 1); [by apply IH|].
      rewrite joined_app, length_app. simpl. rewrite length_app. simpl. lia.
  - assert (resolve acc w = acc ++ [w]) as Er by (unfold resolve; by rewrite !decide_False by tauto).
    rewrite Er in HQ. destruct Hw as (l & Hb & Hl). apply wp_bind. apply (wp_strlen _ b 0 l w); [done..|].
    replace (_ + (_ + 1)) with (Z.of_nat (length (joined (acc ++ [w]))) + 1).
    { apply IH; [|done]. apply tokens_at_snoc; [done|]. constructor; [|constructor]. split; [done|]. by exists l. }
    rewrite joined_app, length_app. simpl. rewrite length_app. simpl. lia.
Qed.
End resolve.

Lemma wp_join_loop s p l tmp ws j (Q : Z + Z → bytes → Prop) : blocks s !! p = Some l → tokens_at s tmp ws →
  Forall (λ t : cptr, t.1 ≠ p) tmp → (j + length (joined ws) ≤ length l)%nat →
  (if decide (fits ws) then Q (inr (Z.of_nat (j + length (joined ws)))) (put p (splice l j (joined ws)) s)
   else ∀ l', Q (inl (- ENAMETOOLONG)) (put p l' s)) →
  wp (join_loop tmp (p +> 0) (Z.of_nat j)) Q s.
Proof.
  intros Hp Ht. revert s l j Hp Ht. revert ws. induction tmp as [|[b z] tmp IH]; intros ws s l j Hp Ht Hne Hj HQ; simpl.
  - apply Forall2_nil_inv_l in Ht as ->. apply wp_ret. rewrite decide_True in HQ by constructor. simpl in HQ.
    by rewrite Nat.add_0_r, splice_nil, put_id in HQ.
  - apply Forall2_cons_inv_l in Ht as (w & ws' & [Hz (lw & Hb & Hw)] & Ht & ->). apply Forall_cons in Hne as [Hnb Hne]. simpl in Hz, Hb, Hnb. subst z.
    rewrite joined_cons in *. rewrite length_cons, length_app in Hj.
    apply wp_bind. rewrite padd_nat. eapply wp_sb_byte; [done|done|simpl; lia|]. apply wp_bind. simpl.
    apply (wp_strlen _ b 0 lw w); [by rewrite lookup_put_ne|done|]. case_bool_decide as Hf.
    + apply wp_ret. rewrite decide_False in HQ; [done|]. intros [??]%Forall_cons. lia.
    + apply wp_bind. replace (padd (p +> 0) (Z.of_nat j + 1)) with (p +> S j) by (unfold padd; simpl; f_equal; lia).
      apply (wp_strncpy_all _ p b (<[j := 47]> l) lw (S j) 0 w); [done|apply lookup_put|by rewrite lookup_put_ne|done|rewrite length_insert; lia|].
      rewrite put_put, splice_cons by lia. replace (Z.of_nat j + 1 + Z.of_nat (length w)) with (Z.of_nat (j + length (47 :: w))) by (simpl; lia).
      eapply (IH ws'); [apply lookup_put|by apply tokens_at_put_ne|done|rewrite splice_length; simpl; lia|].
      destruct (decide (fits ws')) as [Hf'|Hf'].
      * rewrite decide_True in HQ by (constructor; [lia|done]). rewrite put_put, splice_app by (simpl; lia). simpl in HQ.
        rewrite length_app in HQ. simpl. by rewrite <- Nat.add_assoc.
      * rewrite decide_False in HQ by (by intros [_ ?]%Forall_cons). intros l'. rewrite put_put. apply HQ.
Qed.

Lemma path_of_chars ws : Forall (Forall (λ c, 0 < c < 256)) ws → Forall (λ c, 0 < c < 256) (path_of ws).
Proof. intros. unfold path_of. case_decide; [by repeat constructor|by apply joined_chars]. Qed.
Lemma wp_end_path s p l ws (Q : unit → bytes → Prop) : length l = S (length (path_of ws)) →
  Q tt (put p (path_of ws ++ [0]) s) → wp (end_path (p +> 0) (Z.of_nat (length (joined ws)))) Q (put p (splice l 0 (joined ws)) s).
Proof.
  intros Hl HQ. unfold end_path. rewrite padd_nat. apply wp_bind. unfold path_of in *. destruct ws as [|w ws].
  - rewrite decide_True in * by done. rewrite splice_nil. destruct l as [|x0 [|x1 [|]]]; try done.
    eapply wp_sb_byte; [done|apply lookup_put|simpl; lia|]. rewrite put_put. simpl. apply wp_bind.
    apply (wp_lb _ p 0 [0; x1] 0); [apply lookup_put|done|]. rewrite bool_decide_true by done. apply wp_bind.
    eapply (wp_sb_byte _ p 0); [done|apply lookup_put|simpl; lia|]. rewrite put_put. simpl.
    eapply (wp_sb_byte _ p 1); [done|apply lookup_put|simpl; lia|]. by rewrite put_put.
  - rewrite decide_False in * by done. rewrite joined_cons in *. set (v := 47 :: w ++ joined ws) in *.
    eapply (wp_sb_byte _ p (0 + length v)%nat); [done|apply lookup_put|rewrite splice_length; lia|].
    rewrite put_put, splice_snoc by lia. rewrite splice_all by (rewrite Hl, length_app; symmetry; apply Nat.add_1_r). apply wp_bind.
    eapply (wp_lb _ p 0); [apply lookup_put|done|]. rewrite bool_decide_false by done.
    eapply (wp_sb_byte _ p (0 + length v)%nat); [done|apply lookup_put|rewrite length_app, Nat.add_1_r; lia|].
    rewrite put_put. rewrite list_insert_id; [done|]. simpl. rewrite lookup_app_r by done. by rewrite Nat.sub_diag.
Qed.

Lemma run_bind {A B} (P : outcome (B * bytes) → Prop) (m : M bytes A) (f : A → M bytes B) s : wp m (λ a s', P (f a s')) s → P ((m ≫= f) s).
Proof. intros (a & s' & E & HP')%wp_exec. unfold mbind, M_bind. by rewrite E. Qed.
Lemma run_bind_fault {A B} (m : M bytes A) (f : A → M bytes B) s : m s = Fault → (m ≫= f) s = Fault.
Proof. intros E. unfold mbind, M_bind. by rewrite E. Qed.

Section parse.
Context `{!ByteAlloc} {HP : Plenty} (rb db ddb : loc) (ri di ddi : nat).
(** The literals are in memory. *)
Record literals (s : bytes) : Prop := Literals {
  lit_root : string_at s rb ri [47];
  lit_dot : string_at s db di [46];
  lit_dotdot : string_at s ddb ddi [46; 46];
}.
Lemma literals_sub s s' : blocks s ⊆ blocks s' → literals s → literals s'.
Proof using Type. intros Hs [H1 H2 H3]. split; by eapply string_at_sub. Qed.

Lemma wp_joined_path s toks ws (Q : Z + cptr → bytes → Prop) : literals s → tokens_at s toks ws →
  (if decide (fits (normalize ws)) then ∀ p l, blocks s !! p = None → cstr l 0 (path_of (normalize ws)) → Q (inr (p +> 0)) (put p l s)
   else Q (inl (- ENAMETOOLONG)) s) →
  wp (joined_path (db +> di) (ddb +> ddi) toks) Q s.
Proof using HP.
  intros [_ H1 H2] Ht HQ. unfold joined_path. apply wp_bind. apply (wp_resolve_loop db ddb di ddi s H1 H2 toks ws [] []); [done|constructor|].
  fold (normalize ws). set (ns := normalize ws) in *. intros tmp Htmp. rewrite decide_False by lia.
  assert (E : (if decide (Z.of_nat (length (joined ns)) + 1 = 1) then 2 else Z.of_nat (length (joined ns)) + 1) = Z.of_nat (S (length (path_of ns)))).
  { unfold path_of. destruct ns; [done|]. rewrite decide_False by (rewrite joined_cons; simpl; lia). rewrite decide_False by done. lia. }
  rewrite E. apply wp_bind, wp_kmalloc_block. intros p l Hp Hl. simpl. apply wp_bind.
  apply (wp_join_loop _ p l tmp ns 0); [apply lookup_put|by apply tokens_at_put|by eapply tokens_at_ne| |].
  { unfold path_of in Hl. case_decide as En; [rewrite En; simpl; lia|simpl; lia]. }
  destruct (decide (fits ns)).
  - apply wp_bind. rewrite put_put. apply (wp_end_path s p l ns); [done|]. apply wp_ret. apply HQ; [done|].
    apply cstr_here, path_of_chars. by eapply tokens_at_chars.
  - intros l'. rewrite put_put. apply wp_bind, wp_kfree_block; [done|]. by apply wp_ret.
Qed.

Lemma wp_parsed_path s b b' i i' w u (Q : option cptr → bytes → Prop) : string_at s b i w → string_at s b' i' u →
  (∀ p l, blocks s !! p = None → cstr l 0 (u ++ 47 :: w) → Q (Some (p +> 0)) (put p l s)) →
  wp (parsed_path (b +> i) (b' +> i')) Q s.
Proof using HP.
  intros (lw & Hb & Hw) (lu & Hb' & Hu) HQ. unfold parsed_path. apply wp_bind. eapply wp_strlen; [done..|]. apply wp_bind.
  eapply wp_strlen; [done..|]. apply wp_bind.
  replace (Z.of_nat (length u) + Z.of_nat (length w) + 2) with (Z.of_nat (length ((u ++ 47 :: w) ++ [0]))) by (rewrite !length_app; simpl; lia).
  apply wp_kmalloc_block. intros p l Hp Hl. assert (b ≠ p ∧ b' ≠ p) as [? ?] by (split; congruence).
  rewrite !length_app in *. simpl in *. apply wp_bind.
  eapply (wp_strncpy_all _ p b' l lu 0 i' u); [done|apply lookup_put|by rewrite lookup_put_ne|done|lia|].
  rewrite put_put. apply wp_bind. rewrite padd_nat. eapply wp_sb_byte; [done|apply lookup_put|rewrite splice_length; lia|].
  rewrite put_put, splice_snoc by lia. apply wp_bind.
  replace (padd (p +> 0) (Z.of_nat (length u) + 1)) with (p +> (0 + length (u ++ [47]))) by (rewrite length_app; unfold padd; simpl; f_equal; lia).
  assert (Hl1 : length (splice l 0 (u ++ [47])) = length l) by (apply splice_length; rewrite length_app; simpl; lia).
  eapply (wp_strncpy_all _ p b _ lw _ i w); [done|apply lookup_put|by rewrite lookup_put_ne|done|rewrite Hl1, length_app; simpl; lia|].
  rewrite put_put, splice_app by (rewrite length_app; simpl; lia). rewrite <- app_assoc. simpl.
  apply wp_bind. set (v := u ++ 47 :: w) in *. assert (Hv : length v = S (length u + length w)) by (unfold v; rewrite length_app; simpl; lia).
  replace (padd (p, 0) _) with (p +> (0 + length v)) by (unfold padd; simpl; f_equal; lia).
  eapply wp_sb_byte; [done|apply lookup_put|rewrite splice_length; lia|].
  rewrite put_put, splice_snoc by lia. rewrite splice_all by (rewrite length_app; simpl; lia). apply wp_ret, HQ; [done|].
  apply cstr_here. apply Forall_app. destruct Hw, Hu. split; [done|]. by constructor.
Qed.

(** *** Splitting, joining and cleaning up *)

(** [tmp_cwd] is all that [s] has more than [s0]. *)
Definition held (tc : option cptr) (s0 s : bytes) : Prop :=
  match tc with None => s = s0 | Some t => ∃ q l, t = q +> 0 ∧ blocks s0 !! q = None ∧ s = put q l s0 end.
Lemma wp_free_opt tc s0 s (Q : unit → bytes → Prop) : held tc s0 s → Q tt s0 → wp (free_opt tc) Q s.
Proof using Type. destruct tc; simpl; [|intros ->; apply wp_ret]. intros (q & l & -> & Hq & ->). by apply wp_kfree_block. Qed.
Lemma held_fresh tc s0 s p : held tc s0 s → blocks s !! p = None → blocks s0 !! p = None.
Proof using Type.
  destruct tc; simpl; [|by intros ->]. intros (q & l & -> & Hq & ->) Hp. destruct (decide (q = p)) as [->|]; [done|]. by rewrite lookup_put_ne in Hp.
Qed.
Lemma held_put tc s0 s p l : held tc s0 s → blocks s !! p = None → held tc (put p l s0) (put p l s).
Proof using Type.
  intros Hh Hp. destruct tc as [t|]; [|by unfold held in *; subst]. destruct Hh as (q & lq & -> & Hq & ->).
  assert (q ≠ p) by (intros ->; by rewrite lookup_put in Hp). exists q, lq. split; [done|]. split; [by rewrite lookup_put_ne|].
  by apply put_comm.
Qed.
Lemma wp_cleanup tc s0 s q lq s' toks (Q : unit → bytes → Prop) : held tc s0 s → blocks s !! q = None → grown (put q lq s) s' toks →
  Forall (λ t : cptr, t.2 = 0) toks → Q tt s0 → wp (cleanup toks (q +> 0) tc) Q s'.
Proof using Type.
  intros Hh Hq Hg Hz HQ. unfold cleanup. apply wp_bind. simpl. eapply wp_free_all; [done..|]. apply wp_bind.
  apply wp_kfree_block; [done|]. by eapply wp_free_opt.
Qed.
Lemma tokens_at_zero s toks ws : tokens_at s toks ws → Forall (λ t : cptr, t.2 = 0) toks.
Proof using Type. induction 1 as [|t w toks ws [? ?] _ IH]; by constructor. Qed.
Lemma wp_canonicalize s b i w (Q : option (list cptr) → bytes → Prop) : string_at s b i w → fields 47 w ≠ [] →
  (∀ toks s', grown s s' toks → tokens_at s' toks (fields 47 w) → Q (Some toks) s') → wp (canonicalize_path (Some (b +> i))) Q s.
Proof using HP.
  intros Hw Hf HQ. destruct (tokenize_start 47 ltac:(lia) s b i w Hw) as (p & l & Hp & Hl & E).
  destruct (proj1 (wp_exec _ _ _) (wp_tokenize_rest 47 ltac:(lia) s p l w Q Hp Hl Hf HQ)) as (r & s' & E' & Hr).
  eapply wp_eq; [|exact Hr]. unfold canonicalize_path. by rewrite E.
Qed.
Lemma canonicalize_faults s b i w : string_at s b i w → fields 47 w = [] → canonicalize_path (Some (b +> i)) s = Fault.
Proof using HP.
  intros Hw Hf. destruct (tokenize_start 47 ltac:(lia) s b i w Hw) as (p & l & Hp & Hl & E). unfold canonicalize_path. rewrite E.
  by eapply tokenize_rest_faults.
Qed.

(** What [vfs_parse_path] does with the names of a valid path. *)
Definition parse_post (names : list name) (s : bytes) (Q : Z + cptr → bytes → Prop) : Prop :=
  if decide (fits (normalize names)) then ∀ p l, blocks s !! p = None → cstr l 0 (path_of (normalize names)) → Q (inr (p +> 0)) (put p l s)
  else Q (inl (- ENAMETOOLONG)) s.
Lemma wp_parse_absolute tc s0 s b b' i i' w u (Q : Z + cptr → bytes → Prop) : literals s → string_at s b i w → string_at s b' i' u →
  held tc s0 s → fields 47 (u ++ 47 :: w) ≠ [] → parse_post (fields 47 (u ++ 47 :: w)) s0 Q →
  wp (parse_absolute (db +> di) (ddb +> ddi) (b +> i) (b' +> i') tc) Q s.
Proof using HP.
  intros Hlit Hw Hu Hh Hf HQ. unfold parse_absolute. apply wp_bind. eapply wp_parsed_path; [done..|]. intros q lq Hq Hlq.
  apply wp_bind. eapply wp_canonicalize; [exists lq; split; [apply lookup_put|done]|done|]. intros toks s2 Hg Ht.
  apply wp_bind, wp_gets. rewrite plenty_array. apply wp_bind.
  assert (Hsub : blocks s ⊆ blocks s2) by (etrans; [by apply (put_sub s q lq)|by destruct Hg]).
  eapply (wp_joined_path s2 toks); [by eapply literals_sub|done|]. pose proof (tokens_at_zero _ _ _ Ht) as Hz. unfold parse_post in HQ.
  case_decide.
  - intros p l Hp Hl. assert (Hps : blocks (put q lq s) !! p = None) by (eapply lookup_weaken_None; [exact Hp|by destruct Hg]).
    assert (q ≠ p) by (intros ->; by rewrite lookup_put in Hps). rewrite lookup_put_ne in Hps by done.
    apply wp_bind. eapply (wp_cleanup tc (put p l s0) (put p l s) q lq); [by apply held_put|by rewrite lookup_put_ne| |done|].
    + rewrite put_comm by done. by apply grown_put.
    + apply wp_ret, HQ; [|done]. by eapply held_fresh.
  - apply wp_bind. eapply wp_cleanup; [done..|]. by apply wp_ret.
Qed.
Lemma parse_absolute_faults tc s b b' i i' w u : string_at s b i w → string_at s b' i' u → fields 47 (u ++ 47 :: w) = [] →
  parse_absolute (db +> di) (ddb +> ddi) (b +> i) (b' +> i') tc s = Fault.
Proof using HP.
  intros Hw Hu Hf. unfold parse_absolute. apply fault_bind. eapply wp_parsed_path; [done..|]. intros q lq Hq Hlq.
  unfold mbind at 1, M_bind at 1. erewrite canonicalize_faults; [done|exists lq; split; [apply lookup_put|done]|done].
Qed.

(** *** The checks *)

(** A character that [vfs_path_syntax] accepts. *)
Definition path_char (c : Z) : Prop := 0 < c < 256 ∧ bad_char c = false.
Definition valid_path (w : name) : Prop := w ≠ [] ∧ Forall path_char w.
#[global] Instance path_char_dec c : Decision (path_char c) := _.
#[global] Instance valid_path_dec w : Decision (valid_path w) := _.
Lemma wp_syntax_loop fuel s b i l w (Q : Z → bytes → Prop) : blocks s !! b = Some l → cstr l i w → (length w < fuel)%nat →
  Q (if decide (Forall (λ c, bad_char c = false) w) then 0 else - ENOTNAM) s → wp (syntax_loop fuel (b +> i)) Q s.
Proof using Type.
  intros Hb. revert i w. induction fuel as [|fuel IH]; intros i w Hw Hf HQ; [lia|]. simpl. apply wp_bind. destruct w as [|c w].
  - apply cstr_0 in Hw. eapply wp_lb; [done..|]. rewrite bool_decide_true by done. apply wp_ret. by rewrite decide_True in HQ by constructor.
  - apply cstr_cons in Hw as (Hc & Hr & Hw). eapply wp_lb; [done..|]. rewrite bool_decide_false by lia.
    destruct (bad_char c) eqn:E; [apply wp_ret; rewrite decide_False in HQ; [done|intros [??]%Forall_cons; congruence]|].
    rewrite padd_S. apply (IH _ w); [done|simpl in Hf; lia|].
    rewrite (decide_ext (Forall _ (c :: w)) (Forall (λ c, bad_char c = false) w)) in HQ; [done|]. rewrite Forall_cons. tauto.
Qed.
Lemma wp_vfs_path_syntax s b i w (Q : Z → bytes → Prop) : string_at s b i w →
  Q (if decide (valid_path w) then 0 else - ENOTNAM) s → wp (vfs_path_syntax (Some (b +> i))) Q s.
Proof using Type.
  intros (l & Hb & Hw) HQ. unfold vfs_path_syntax. apply wp_bind. destruct w as [|c w].
  - pose proof (cstr_0 _ _ Hw). eapply wp_lb; [done..|]. rewrite bool_decide_true by done. apply wp_ret.
    rewrite decide_False in HQ; [done|]. by intros [? _].
  - pose proof (proj1 (cstr_cons _ _ _ _) Hw) as (Hc & Hr & _). eapply wp_lb; [done..|]. rewrite bool_decide_false by lia.
    apply wp_bind. eapply wp_room; [done|]. pose proof (cstr_length _ _ _ Hw).
    apply (wp_syntax_loop _ s b i l (c :: w)); [done..|lia|].
    rewrite (decide_ext (valid_path _) (Forall (λ c, bad_char c = false) (c :: w))) in HQ; [done|]. unfold valid_path.
    pose proof (cs_chars _ _ _ Hw) as Hr'. unfold path_char. rewrite Forall_and. split; [by intros [_ [_ ?]]|done].
Qed.

(** The working directory: "/" for NULL. *)
Definition cwd_at (s : bytes) (cwd : option cptr) (u : name) : Prop :=
  match cwd with None => u = [47] | Some p => ∃ b i, p = b +> i ∧ string_at s b i u end.
(** The directory a path starts from. *)
Definition base_dir (w u : name) : name := if decide (head w = Some 47) then [47] else u.

(** The run up to the absolute working directory, for any statement [P] on the outcome. *)
Lemma parse_enter (P : outcome ((Z + cptr) * bytes) → Prop) s b i w cwd u : literals s → string_at s b i w → cwd_at s cwd u →
  (if decide (valid_path w ∧ valid_path (base_dir w u)) then
     ∀ tc s1 b1 i1 u1, held tc s s1 → blocks s ⊆ blocks s1 → string_at s1 b1 i1 u1 →
       fields 47 (u1 ++ 47 :: w) = fields 47 (base_dir w u ++ 47 :: w) →
       P (parse_absolute (db +> di) (ddb +> ddi) (b +> i) (b1 +> i1) tc s1)
   else P (Ok (inl (- ENOTNAM), s))) →
  P (vfs_parse_path (rb +> ri) (db +> di) (ddb +> ddi) (Some (b +> i)) cwd s).
Proof using HP.
  intros Hlit Hw Hcwd HPP. unfold vfs_parse_path. apply run_bind. eapply wp_vfs_path_syntax; [done|].
  destruct (decide (valid_path w)) as [Hv|Hv]; [|rewrite decide_True by done; rewrite decide_False in HPP by tauto; done].
  rewrite (decide_False (P := 0 ≠ 0)) by tauto. destruct w as [|c w]; [by destruct Hv|].
  pose proof Hw as (lw & Hb & Hlw). apply cstr_cons in Hlw as (Hc & Hr & _). apply run_bind. eapply wp_lb; [done..|].
  assert (∃ b' i', (if bool_decide (c = 47) then rb +> ri else default (rb +> ri) cwd) = b' +> i' ∧ string_at s b' i' (base_dir (c :: w) u)) as (b' & i' & -> & Hu).
  { unfold base_dir. simpl. case_bool_decide; [rewrite decide_True by congruence|rewrite decide_False by congruence]; [by exists rb, ri; destruct Hlit|].
    destruct cwd as [q|]; simpl in *; [done|]. subst u. by exists rb, ri; destruct Hlit. }
  apply run_bind. eapply wp_vfs_path_syntax; [done|]. set (v := base_dir (c :: w) u) in *.
  destruct (decide (valid_path v)) as [Hv'|Hv']; [|rewrite decide_True by done; rewrite decide_False in HPP by tauto; done].
  rewrite (decide_False (P := 0 ≠ 0)) by tauto. rewrite decide_True in HPP by done. clearbody v. destruct v as [|d v]; [by destruct Hv'|].
  pose proof Hu as (lu & Hb' & Hlu). pose proof (proj1 (cstr_cons _ _ _ _) Hlu) as (Hd & Hdr & _). apply run_bind. eapply wp_lb; [done..|].
  case_bool_decide as E; [|by apply (HPP None s b' i' (d :: v))].
  apply run_bind. eapply wp_strlen; [done..|]. apply run_bind.
  replace (Z.of_nat (length (d :: v)) + 2) with (Z.of_nat (length ((47 :: d :: v) ++ [0]))) by (rewrite length_app; simpl; lia).
  apply wp_kmalloc_block. intros p l Hp Hl. assert (b' ≠ p) by congruence. set (x := d :: v) in *.
  apply run_bind. apply (wp_sb_byte _ p 0 l); [done|apply lookup_put|rewrite Hl; simpl; lia|]. rewrite put_put.
  apply run_bind. rewrite padd_S. eapply (wp_strncpy_all _ p b' _ lu _ i' x); [done|apply lookup_put|by rewrite lookup_put_ne|done|..].
  { rewrite length_insert, Hl, length_app. simpl. lia. }
  rewrite put_put, splice_cons by (rewrite Hl; simpl; lia). apply run_bind.
  replace (padd (p +> 0) _) with (p +> (0 + length (47 :: x))) by (unfold padd; rewrite length_app; simpl; f_equal; lia).
  eapply wp_sb_byte; [done|apply lookup_put|rewrite splice_length, Hl, length_app; rewrite ?Hl, ?length_app; simpl; lia|].
  rewrite put_put, splice_snoc by (rewrite Hl, length_app; simpl; lia). rewrite splice_all by done.
  apply (HPP _ _ _ _ (47 :: x)); [by exists p, ((47 :: x) ++ [0])|by apply put_sub| |by rewrite <- app_comm_cons, fields_sep].
  exists ((47 :: x) ++ [0]). split; [apply lookup_put|]. apply cstr_here. constructor; [lia|]. by destruct Hlu.
Qed.
End parse.

(** *** The names of a path *)

Definition is_name (w : name) : Prop := w ≠ [] ∧ 47 ∉ w.
Lemma split_names w x xs : split_at 47 w = (x, xs) → 47 ∉ x ∧ Forall (λ y, 47 ∉ y) xs.
Proof.
  revert x xs. induction w as [|b w IH]; intros x xs; simpl; [intros [= <- <-]; split; [set_solver|constructor]|].
  destruct (split_at 47 w) as [y ys]. destruct (IH y ys eq_refl) as [H1 H2]. case_bool_decide; intros [= <- <-].
  - split; [set_solver|by constructor].
  - split; [set_solver|done].
Qed.
Lemma fields_names w : Forall is_name (fields 47 w).
Proof.
  unfold fields. destruct (split_at 47 w) as [x xs] eqn:E. apply split_names in E as [H1 H2]. apply Forall_forall. intros y Hy.
  apply list_elem_of_filter in Hy as [Hne Hy]. split; [done|]. apply elem_of_cons in Hy as [->|Hy]; [done|]. by eapply Forall_forall in H2.
Qed.
Lemma removelast_Forall {A} (P : A → Prop) l : Forall P l → Forall P (removelast l).
Proof. destruct l as [|x l _] using rev_ind; [done|]. rewrite removelast_last, Forall_app. tauto. Qed.
Lemma normalize_Forall (P : name → Prop) ws : Forall P ws → Forall P (normalize ws).
Proof.
  unfold normalize. assert (Forall P []) as Ha by constructor. revert Ha. generalize (@nil name) as acc. intros acc Ha Hw. revert acc Ha.
  induction Hw as [|w ws Hw _ IH]; intros acc Ha; simpl; [done|]. apply IH. unfold resolve. repeat case_decide; [done|by apply removelast_Forall|].
  apply Forall_app. split; [done|]. by constructor.
Qed.
Lemma fields_joined ws : Forall is_name ws → fields 47 (joined ws) = ws.
Proof.
  induction 1 as [|w ws [? ?] _ IH]; [done|]. rewrite joined_cons, fields_sep, fields_word; [by rewrite IH|done|done|].
  destruct ws; [by left|by right].
Qed.
Lemma fields_path_of ws : Forall is_name ws → fields 47 (path_of ws) = ws.
Proof. intros H. unfold path_of. case_decide; [by subst|by apply fields_joined]. Qed.

(** The names of path [w] as seen from the directory [u]. *)
Definition names_from (w u : name) : list name := fields 47 (base_dir w u ++ 47 :: w).
(** The absolute path and its names, or the error. *)
Definition parse_result (w u : name) : outcome (Z + name) :=
  let names := names_from w u in
  if decide (valid_path w ∧ valid_path (base_dir w u)) then
    if decide (names = []) then Fault
    else if decide (fits (normalize names)) then Ok (inr (path_of (normalize names))) else Ok (inl (- ENAMETOOLONG))
  else Ok (inl (- ENOTNAM)).
Definition canonical_result (w u : name) : outcome (Z + list name) :=
  let names := normalize (names_from w u) in
  if decide (valid_path w ∧ valid_path (base_dir w u)) then
    if decide (fits names) then if decide (names = []) then Fault else Ok (inr names) else Ok (inl (- ENAMETOOLONG))
  else Ok (inl (- ENOTNAM)).

Section run.
Context `{!ByteAlloc} {HP : Plenty} (rb db ddb : loc) (ri di ddi : nat).
Context (s : bytes) (b : loc) (i : nat) (w : name) (cwd : option cptr) (u : name).
Hypothesis Hlit : literals rb db ddb ri di ddi s.
Hypothesis Hw : string_at s b i w.
Hypothesis Hu : cwd_at s cwd u.
Notation parse := (vfs_parse_path (rb +> ri) (db +> di) (ddb +> ddi) (Some (b +> i)) cwd).

Lemma parse_invalid : ¬ (valid_path w ∧ valid_path (base_dir w u)) → parse s = Ok (inl (- ENOTNAM), s).
Proof using HP Hlit Hw Hu.
  intros Hv. apply (parse_enter rb db ddb ri di ddi (λ o, o = Ok (inl (- ENOTNAM), s)) s b i w cwd u); [done..|]. by rewrite decide_False.
Qed.
Lemma parse_faults : valid_path w ∧ valid_path (base_dir w u) → names_from w u = [] → parse s = Fault.
Proof using HP Hlit Hw Hu.
  intros Hv Hn. apply (parse_enter rb db ddb ri di ddi (λ o, o = Fault) s b i w cwd u); [done..|]. rewrite decide_True by done.
  intros tc s1 b1 i1 u1 Hh Hsub Hu1 E. eapply parse_absolute_faults; [by eapply string_at_sub|done|]. by rewrite E.
Qed.
Lemma wp_vfs_parse_path (Q : Z + cptr → bytes → Prop) : valid_path w ∧ valid_path (base_dir w u) → names_from w u ≠ [] →
  parse_post (names_from w u) s Q → wp parse Q s.
Proof using HP Hlit Hw Hu.
  intros Hv Hn HQ. enough (∃ a s', parse s = Ok (a, s') ∧ Q a s') as (a & s' & E & Ha) by (by eapply wp_eq).
  apply (parse_enter rb db ddb ri di ddi (λ o, ∃ a s', o = Ok (a, s') ∧ Q a s') s b i w cwd u); [done..|]. rewrite decide_True by done.
  intros tc s1 b1 i1 u1 Hh Hsub Hu1 E. apply wp_exec.
  eapply (wp_parse_absolute rb db ddb ri di ddi tc s s1 b b1 i i1 w u1); [by eapply literals_sub|by eapply string_at_sub|done|done|by rewrite E|].
  by rewrite E.
Qed.
End run.

(** C20: [vfs_parse_path] makes the absolute path of a path and a working directory: a new
    string of all names of the two ([parse_result]), "." dropped and ".." taking the name before it away
    (and nothing above the root), with nothing else allocated and no other memory
    changed.  A bad character or an empty path is -ENOTNAM and a name of more than 255
    characters -ENAMETOOLONG, both with the memory as it was.  The root directory itself
    ("/" seen from anywhere) ends in a fault.  The kernel is taken to have memory for all
    strings ([Plenty]): without it the code returns -ENOMEM, or writes through NULL where
    the tokenizer does not look at what [kmalloc] and [krealloc] return. *)
Theorem vfs_parse_path_correct `{!ByteAlloc} `{!Plenty} rb db ddb ri di ddi s b i w cwd u :
  literals rb db ddb ri di ddi s → string_at s b i w → cwd_at s cwd u →
  let r := vfs_parse_path (rb +> ri) (db +> di) (ddb +> ddi) (Some (b +> i)) cwd s in
  match parse_result w u with
  | Ok (inr v) => ∃ p l, blocks s !! p = None ∧ cstr l 0 v ∧ r = Ok (inr (p +> 0), put p l s)
  | Ok (inl err) => r = Ok (inl err, s)
  | Fault => r = Fault
  | _ => False
  end.
Proof.
  intros Hlit Hw Hu r. unfold r, parse_result. clear r. set (names := names_from w u). case_decide as Hv; [|by eapply parse_invalid].
  case_decide as Hn; [by eapply parse_faults|].
  assert (wp (vfs_parse_path (rb +> ri) (db +> di) (ddb +> ddi) (Some (b +> i)) cwd) (λ a s', if decide (fits (normalize names)) then
      ∃ p l, blocks s !! p = None ∧ cstr l 0 (path_of (normalize names)) ∧ a = inr (p +> 0) ∧ s' = put p l s
    else a = inl (- ENAMETOOLONG) ∧ s' = s) s) as (a & s' & -> & Ha)%wp_exec.
  { eapply wp_vfs_parse_path; [done..|]. unfold parse_post. fold names. case_decide; [|done]. intros p l ??. by exists p, l. }
  case_decide; [|by destruct Ha as [-> ->]]. destruct Ha as (p & l & ? & ? & -> & ->). by exists p, l.
Qed.

(** *** A canonical path is its own canonical form *)

Definition plain (w : name) : Prop := w ≠ [46] ∧ w ≠ [46; 46].
Lemma normalize_plain ws : Forall plain (normalize ws).
Proof.
  unfold normalize. assert (Forall plain []) as Ha by constructor. revert Ha. generalize (@nil name) as acc.
  induction ws as [|w ws IH]; intros acc Ha; simpl; [done|]. apply IH. unfold resolve. repeat case_decide; [done|by apply removelast_Forall|].
  apply Forall_app. split; [done|]. by repeat constructor.
Qed.
Lemma normalize_id ws : Forall plain ws → normalize ws = ws.
Proof.
  unfold normalize. assert (∀ acc, Forall plain ws → foldl resolve acc ws = acc ++ ws) as H; [|intros; by rewrite H].
  induction ws as [|w ws IH]; intros acc Hw; simpl; [by rewrite app_nil_r|]. apply Forall_cons in Hw as [[? ?] Hw].
  unfold resolve at 2. rewrite !decide_False by done. rewrite IH by done. by rewrite <- app_assoc.
Qed.
Lemma fields_Forall (P : Z → Prop) c w : Forall P w → Forall (Forall P) (fields c w).
Proof.
  intros Hw. unfold fields. destruct (split_at c w) as [x xs] eqn:E. assert (Forall P x ∧ Forall (Forall P) xs) as [? ?].
  { revert x xs E. induction Hw as [|b w Hb Hw IH]; intros x xs; simpl; [intros [= <- <-]; by split|].
    destruct (split_at c w) as [y ys]. destruct (IH y ys eq_refl). case_bool_decide; intros [= <- <-]; by repeat constructor. }
  apply Forall_forall. intros y [_ Hy]%list_elem_of_filter. assert (Forall (Forall P) (x :: xs)) as Hxs by (by constructor).
  by eapply Forall_forall in Hxs.
Qed.
Lemma valid_path_of ws : Forall (Forall path_char) ws → valid_path (path_of ws).
Proof.
  intros Hw. assert (Forall path_char (joined ws)) as Hj.
  { induction Hw; [constructor|]. rewrite joined_cons. constructor; [done|]. by apply Forall_app. }
  unfold path_of. case_decide; (split; [|done || by repeat constructor]); [done|]. by destruct ws.
Qed.
Lemma canonical_parse w u v : parse_result w u = Ok (inr v) → normalize (names_from w u) ≠ [] →
  canonical_result v u = Ok (inr (normalize (names_from w u))).
Proof.
  unfold parse_result. case_decide as Hv; [|done]. case_decide as Hn; [done|]. case_decide as Hf; [|done]. intros [= <-] Hne.
  set (ns := normalize (names_from w u)) in *. unfold canonical_result.
  assert (Hb : base_dir (path_of ns) u = [47]) by (unfold base_dir, path_of; case_decide; [done|]; by destruct ns).
  assert (Hns : names_from (path_of ns) u = ns).
  { unfold names_from. rewrite Hb. simpl. rewrite !fields_sep. apply fields_path_of. apply normalize_Forall, fields_names. }
  rewrite Hns. rewrite (normalize_id ns) by apply normalize_plain. rewrite decide_True.
  - by rewrite decide_True, decide_False by done.
  - rewrite Hb. split; [|split; [done|by repeat constructor]]. apply valid_path_of. unfold ns. apply normalize_Forall, fields_Forall.
    destruct Hv as [[_ ?] [_ ?]]. apply Forall_app. split; [done|]. by constructor.
Qed.

(** [vfs_canonicalize_path] returns the names of the absolute path as new strings, in
    order ([canonical_result]), with nothing else allocated and no other memory changed; every path that is
    the root directory ("/", "/..", "a/..") ends in a fault, and the errors are those of
    [vfs_parse_path], with the memory as it was. *)
Theorem vfs_canonicalize_path_correct `{!ByteAlloc} `{!Plenty} rb db ddb ri di ddi s b i w b' i' u :
  literals rb db ddb ri di ddi s → string_at s b i w → string_at s b' i' u →
  let r := vfs_canonicalize_path (rb +> ri) (db +> di) (ddb +> ddi) (Some (b +> i)) (Some (b' +> i')) s in
  match canonical_result w u with
  | Ok (inr names) => ∃ toks s', tokens_at s' toks names ∧ grown s s' toks ∧ r = Ok (inr toks, s')
  | Ok (inl err) => r = Ok (inl err, s)
  | Fault => r = Fault
  | _ => False
  end.
Proof.
  intros Hlit Hw Hu r. unfold r, canonical_result. clear r. set (names := normalize (names_from w u)). assert (Hc : cwd_at s (Some (b' +> i')) u) by (by exists b', i').
  unfold vfs_canonicalize_path. case_decide as Hv.
  2:{ unfold mbind, M_bind. erewrite parse_invalid; done. }
  destruct (decide (names_from w u = [])) as [Hn|Hn].
  { assert (names = []) as -> by (unfold names; by rewrite Hn). rewrite decide_True by constructor. rewrite decide_True by done.
    unfold mbind, M_bind. erewrite parse_faults; done. }
  pose proof (normalize_Forall _ _ (fields_names (base_dir w u ++ 47 :: w))) as Hns. fold (names_from w u) names in Hns.
  case_decide as Hf.
  2:{ apply run_bind. eapply wp_vfs_parse_path; [done..|]. unfold parse_post. fold names. by rewrite decide_False. }
  case_decide as Hn'.
  - apply fault_bind. eapply wp_vfs_parse_path; [done..|]. unfold parse_post. fold names. rewrite decide_True by done. intros p l Hp Hl.
    apply run_bind_fault. eapply canonicalize_faults; [exists l; split; [apply lookup_put|done]|]. by rewrite fields_path_of.
  - apply run_bind. eapply wp_vfs_parse_path; [done..|]. unfold parse_post. fold names. rewrite decide_True by done. intros p l Hp Hl.
    apply run_bind. eapply wp_canonicalize; [exists l; split; [apply lookup_put|done]|by rewrite fields_path_of|].
    rewrite fields_path_of by done. intros toks s' Hg Ht. apply run_bind.
    unfold kfree_block. rewrite bool_decide_true by done. apply wp_kfree; [|].
    + destruct Hg as [Hs _ _ _]. exists l. eapply lookup_weaken; [|exact Hs]. apply lookup_put.
    + exists toks, (Bytes (delete p (blocks s'))). split; [by eapply tokens_at_delete|]. split; [by eapply grown_delete|]. done.
Qed.

(** ** Witnesses *)

(** "/", ".", "..", the path "../lib" and the directory "usr/bin". *)
Definition demo_path : bytes := Bytes (list_to_map [
  (1%positive, [47; 0]); (2%positive, [46; 0]); (3%positive, [46; 46; 0]);
  (4%positive, [46; 46; 47; 108; 105; 98; 0]); (5%positive, [117; 115; 114; 47; 98; 105; 110; 0])]).
Lemma demo_string b w : blocks demo_path !! b = Some (w ++ [0]) → Forall (λ c, 0 < c < 256) w → string_at demo_path b 0 w.
Proof. intros Hb Hw. exists (w ++ [0]). split; [done|]. by apply cstr_here. Qed.
Lemma demo_literals : literals 1%positive 2%positive 3%positive 0 0 0 demo_path.
Proof. split; (apply demo_string; [reflexivity|repeat constructor]). Qed.
Lemma demo_lib : string_at demo_path 4%positive 0 [46; 46; 47; 108; 105; 98].
Proof. apply demo_string; [reflexivity|repeat constructor]. Qed.
Lemma demo_usr_bin : string_at demo_path 5%positive 0 [117; 115; 114; 47; 98; 105; 110].
Proof. apply demo_string; [reflexivity|repeat constructor]. Qed.

Lemma vfs_parse_path_correct_witness : ∃ p l, cstr l 0 [47; 117; 115; 114; 47; 108; 105; 98] ∧
  @vfs_parse_path bytes_total (1%positive +> 0) (2%positive +> 0) (3%positive +> 0) (Some (4%positive +> 0)) (Some (5%positive +> 0)) demo_path =
  Ok (inr (p +> 0), put p l demo_path).
Proof.
  destruct (@vfs_parse_path_correct bytes_total bytes_total_plenty 1%positive 2%positive 3%positive 0 0 0 demo_path 4%positive 0 [46; 46; 47; 108; 105; 98] (Some (5%positive +> 0))
    [117; 115; 114; 47; 98; 105; 110] demo_literals demo_lib) as (p & l & _ & H1 & H2); [by exists 5%positive, 0%nat; split; [|apply demo_usr_bin]|].
  exists p, l. split; [exact H1|exact H2].
Defined.
Lemma vfs_canonicalize_path_correct_witness : ∃ toks s', tokens_at s' toks [[117; 115; 114]; [108; 105; 98]] ∧
  @vfs_canonicalize_path bytes_total (1%positive +> 0) (2%positive +> 0) (3%positive +> 0) (Some (4%positive +> 0)) (Some (5%positive +> 0)) demo_path =
  Ok (inr toks, s').
Proof.
  destruct (@vfs_canonicalize_path_correct bytes_total bytes_total_plenty 1%positive 2%positive 3%positive 0 0 0 demo_path 4%positive 0 [46; 46; 47; 108; 105; 98] 5%positive 0
    [117; 115; 114; 47; 98; 105; 110] demo_literals demo_lib demo_usr_bin) as (toks & s' & H1 & _ & H2).
  exists toks, s'. split; [exact H1|exact H2].
Defined.
