(* ===== verification/Inode.v ===== *)
(** * Inodes and directory entries ([kernel/fs/inode.c], [kernel/fs/inode_helpers.c],
    [kernel/fs/dentry.c])

    The objects of the file-system tree and the operations on one of them: locks,
    references, permissions, and the calls that go on to the file system of an inode.
    A file system is its table of inode operations. *)
From S2P Require Import Prelude FsTypes.

(** ** Objects *)

(** The private data of an inode: NULL, the table of a tmpfs directory (its names and
    inodes) or the bytes of a tmpfs file. *)
Inductive priv : Type :=
| PNull
| PDir (table : list (option name * ptr))
| PData (data : list Z).

Record inode : Type := Inode {
  i_size : Z;
  i_mask : Z;
  i_uid : Z;
  i_gid : Z;
  i_refs : Z;
  i_type : itype;
  i_dentry : ptr;
  i_lock : bool;
  i_priv : priv;
  ifs : option positive;   (* the file system *)
}.
Record dentry : Type := Dentry {
  d_name : name;
  d_ref : Z;
  d_inode : ptr;
  d_prev : ptr;
  d_next : ptr;
  d_parent : ptr;
  d_children : ptr;
  d_lock : bool;
}.
(** The credentials of a process. *)
Record uio : Type := Uio { u_cwd : option name; u_uid : Z; u_gid : Z }.

Record vfs : Type := Vfs {
  dents : gmap loc dentry;
  inos : gmap loc inode;
  droot : ptr;
}.
#[global] Program Instance dents_heap : Heap vfs dentry := {| heap_of := dents; put_heap h s := {| s with dents := h |} |}.
Next Obligation. done. Qed.
Next Obligation. by intros []. Qed.
#[global] Program Instance inos_heap : Heap vfs inode := {| heap_of := inos; put_heap h s := {| s with inos := h |} |}.
Next Obligation. done. Qed.
Next Obligation. by intros []. Qed.

Definition rdd (d : ptr) : M vfs dentry := rd d.
Definition rdi (ip : ptr) : M vfs inode := rd ip.
Definition updd (d : ptr) (f : dentry → dentry) : M vfs unit := upd d f.
Definition updi (ip : ptr) (f : inode → inode) : M vfs unit := upd ip f.

(** [ilock], [iunlock], [dlock], [dunlock]: all of them panic on NULL. *)
Definition ilock (ip : ptr) : M vfs unit :=
  match ip with
  | None => panic
  | Some _ => v ← rdi ip; if i_lock v then panic else updi ip (λ v, {| v with i_lock := true |})
  end.
Definition iunlock (ip : ptr) : M vfs unit :=
  match ip with
  | None => panic
  | Some _ => v ← rdi ip; if i_lock v then updi ip (λ v, {| v with i_lock := false |}) else panic
  end.
Definition dlock (d : ptr) : M vfs unit :=
  match d with
  | None => panic
  | Some _ => v ← rdd d; if d_lock v then panic else updd d (λ v, {| v with d_lock := true |})
  end.
Definition dunlock (d : ptr) : M vfs unit :=
  match d with
  | None => panic
  | Some _ => v ← rdd d; if d_lock v then updd d (λ v, {| v with d_lock := false |}) else panic
  end.

Definition is_dir (v : inode) : bool := match i_type v with FS_DIR => true | _ => false end.
Definition is_dev (v : inode) : bool := match i_type v with FS_CHRDEV | FS_BLKDEV => true | _ => false end.

(** ** Allocation and references *)

(** What is allocated besides dentries and inodes (names, path objects, tables): whether
    the kernel has the memory. *)
Class SmallAlloc : Type := { small_ok : vfs → bool }.

Section objects.
Context `{!Kalloc inode, !Kalloc dentry, !SmallAlloc}.

Definition new_inode : inode := Inode 0 0 0 0 2 FS_INV NULL false PNull None.
(** The lock and the page cache of the inode are allocated with it. *)
Definition ialloc : M vfs (Z + loc) :=
  p ← kmalloc new_inode; mret (match p with None => inl (- ENOMEM) | Some l => inr l end).
Definition iincrement (ip : ptr) : M vfs Z :=
  match ip with
  | None => mret (- EINVAL)
  | Some _ => ilock ip;; updi ip (λ v, {| v with i_refs := i32 (i_refs v + 1) |});; iunlock ip;; mret 0
  end.
Definition irelease (ip : ptr) : M vfs Z :=
  match ip with
  | None => mret (- EINVAL)
  | Some _ =>
      ilock ip;;
      v ← rdi ip;
      if bool_decide (0 < i_refs v) then mret (- EBUSY) else
      iunlock ip;;
      kfree (V := inode) ip;;
      mret 0
  end.

Definition dentry_alloc (nm : name) : M vfs (Z + loc) :=
  ok ← gets small_ok;
  if negb ok then mret (inl (- ENOMEM)) else
  p ← kmalloc (Dentry nm 1 NULL NULL NULL NULL NULL false);
  mret (match p with None => inl (- ENOMEM) | Some l => inr l end).
Definition dentry_free (d : ptr) : M vfs Z :=
  match d with
  | None => mret (- EINVAL)
  | Some _ =>
      dlock d;;
      v ← rdd d;
      match d_prev v with
      | None => mret tt
      | Some p => dlock (Some p);; updd (Some p) (λ w, {| w with d_next := d_next v |});; dunlock (Some p)
      end;;
      v ← rdd d;
      match d_next v with
      | None => mret tt
      | Some p => dlock (Some p);; updd (Some p) (λ w, {| w with d_prev := d_prev v |});; dunlock (Some p)
      end;;
      dunlock d;;
      kfree (V := dentry) d;;
      mret 0
  end.
Definition dentry_dup (d : ptr) : M vfs Z :=
  match d with
  | None => mret (- EINVAL)
  | Some _ => dlock d;; updd d (λ v, {| v with d_ref := i32 (d_ref v + 1) |});; dunlock d;; mret 0
  end.
Definition dentry_iget (d : ptr) : M vfs ptr :=
  match d with None => mret NULL | Some _ => dlock d;; v ← rdd d; dunlock d;; mret (d_inode v) end.

(** ** Permissions *)

Definition S_IRUSR : Z := 0x100.
Definition S_IWUSR : Z := 0x80.
Definition S_IXUSR : Z := 0x40.
Definition S_IRGRP : Z := 0x20.
Definition S_IWGRP : Z := 0x10.
Definition S_IXGRP : Z := 0x8.
Definition S_IROTH : Z := 0x4.
Definition S_IWOTH : Z := 0x2.
Definition S_IXOTH : Z := 0x1.

(** The bit that counts for this user is set. *)
Definition class_bit (v : inode) (u : uio) (usr grp oth : Z) : bool :=
  if bool_decide (i_uid v = u_uid u) then any (i_mask v) usr
  else if bool_decide (i_gid v = u_gid u) then any (i_mask v) grp
  else any (i_mask v) oth.
Definition iperm (ip : ptr) (u : option uio) (oflags : Z) : M vfs Z :=
  match ip, u with
  | Some _, Some u =>
      if bool_decide (u_uid u = 0) then mret 0 else
      v ← rdi ip;
      let acc := Z.land oflags O_ACCMODE in
      if bool_decide (acc = O_RDONLY ∨ acc ≠ O_WRONLY) && negb (class_bit v u S_IRUSR S_IRGRP S_IROTH) then mret (- EACCES) else
      if bool_decide (acc = O_WRONLY ∨ acc = O_RDWR) && negb (class_bit v u S_IWUSR S_IWGRP S_IWOTH) then mret (- EACCES) else
      if any oflags O_EXCL && negb (class_bit v u S_IXUSR S_IXGRP S_IXOTH) then mret (- EACCES) else
      mret 0
  | _, _ => mret (- EINVAL)
  end.

(** ** Calls to the file system of an inode *)

(** [iops_t]: NULL pointers are [None]. *)
Record iops : Type := Iops {
  op_open : option (loc → Z → M vfs Z);
  op_close : option (loc → M vfs Z);
  op_creat : option (loc → loc → Z → M vfs Z);
  op_find : option (loc → name → M vfs (Z + loc));
  op_bind : option (loc → name → loc → M vfs Z);
  op_mount : option (loc → name → loc → M vfs Z);
  op_ioctl : option (loc → Z → Z → M vfs Z);
  op_lseek : option (loc → Z → Z → M vfs Z);
  op_chown : option (loc → Z → Z → M vfs Z);
}.
(** The registered file systems; [None]: no superblock or no operations.  Devices have
    operations of their own. *)
Class Filesystems : Type := {
  iops_of : positive → option iops;
  kdev_open : loc → Z → M vfs Z;
  kdev_close : loc → M vfs Z;
  kdev_ioctl : loc → Z → Z → M vfs Z;
  kdev_lseek : loc → Z → Z → M vfs Z;
}.
Context `{!Filesystems}.

(** [CHK_IPTR] and the choice of an operation: -ENOSYS without one. *)
Definition ops_of (v : inode) : option iops := ifs v ≫= iops_of.
Definition dispatch {A} (v : inode) (sel : iops → option A) (run : A → M vfs Z) : M vfs Z :=
  match ops_of v ≫= sel with None => mret (- ENOSYS) | Some g => run g end.

Definition iopen (ip : ptr) (oflags : Z) : M vfs Z :=
  match ip with
  | None => mret (- EINVAL)
  | Some l => v ← rdi ip; if is_dev v then kdev_open l oflags else dispatch v op_open (λ g, g l oflags)
  end.
Definition iclose (ip : ptr) : M vfs Z :=
  match ip with
  | None => mret (- EINVAL)
  | Some l => v ← rdi ip; if is_dev v then kdev_close l else dispatch v op_close (λ g, g l)
  end.
Definition iioctl (ip : ptr) (req argp : Z) : M vfs Z :=
  match ip with
  | None => mret (- EINVAL)
  | Some l =>
      v ← rdi ip;
      if is_dev v then kdev_ioctl l req argp else
      if is_dir v then mret (- ENOTTY) else dispatch v op_ioctl (λ g, g l req argp)
  end.
Definition ilseek (ip : ptr) (off whence : Z) : M vfs Z :=
  match ip with
  | None => mret (- EINVAL)
  | Some l => v ← rdi ip; if is_dev v then kdev_lseek l off whence else dispatch v op_lseek (λ g, g l off whence)
  end.
Definition ichown (ip : ptr) (uid gid : Z) : M vfs Z :=
  match ip with
  | None => mret (- EINVAL)
  | Some l => v ← rdi ip; dispatch v op_chown (λ g, g l uid gid)
  end.
(** The calls on a directory: -ENOSYS without operations, -ENOTDIR, then the operation. *)
Definition dir_dispatch {A} (v : inode) (sel : iops → option A) (run : A → M vfs Z) : M vfs Z :=
  match ops_of v with
  | None => mret (- ENOSYS)
  | Some o => if is_dir v then match sel o with None => mret (- ENOSYS) | Some g => run g end else mret (- ENOTDIR)
  end.
Definition ifind (dir : ptr) (nm : name) : M vfs (Z + loc) :=
  match dir with
  | None => mret (inl (- EINVAL))
  | Some l =>
      v ← rdi dir;
      match ops_of v with
      | None => mret (inl (- ENOSYS))
      | Some o => if is_dir v then match op_find o with None => mret (inl (- ENOSYS)) | Some g => g l nm end
                  else mret (inl (- ENOTDIR))
      end
  end.
Definition ibind (dir : ptr) (nm : name) (child : ptr) : M vfs Z :=
  match dir, child with
  | Some l, Some c => v ← rdi dir; dir_dispatch v op_bind (λ g, g l nm c)
  | _, _ => mret (- EINVAL)
  end.
Definition imount (dir : ptr) (nm : name) (child : ptr) : M vfs Z :=
  match dir, child with
  | Some l, Some c => v ← rdi dir; dir_dispatch v op_mount (λ g, g l nm c)
  | _, _ => mret (- EINVAL)
  end.
Definition icreate (dir d : ptr) (mode : Z) : M vfs Z :=
  match dir, d with
  | Some l, Some e => v ← rdi dir; dir_dispatch v op_creat (λ g, g l e mode)
  | _, _ => mret (- EINVAL)
  end.

Definition dentry_close (d : ptr) : M vfs Z :=
  match d with
  | None => mret (- EINVAL)
  | Some _ =>
      updd d (λ v, {| v with d_ref := i32 (d_ref v - 1) |});;
      v ← rdd d;
      (if bool_decide (d_ref v = 0) then iclose (d_inode v);; dentry_free d;; mret tt else mret tt);;
      mret 0
  end.
End objects.
