(* ===== verification/Vfs.v ===== *)
(** * The tree of directory entries ([kernel/fs/vfs.c], [kernel/fs/dentry.c],
    [kernel/fs/mount.c])

    Binding and unbinding of entries, the walk along the names of a path, and the lookup
    of a file by name, which asks the file systems for what is not in the tree yet.  Names
    are values here; for the path of a name and its pieces the string code of [Path] runs
    on a memory that holds them. *)
From S2P Require Import Prelude FsTypes Strings Path Inode.

(** ** Running the string code *)

(** What [kmalloc] and [krealloc] answer the string code. *)
Class PathAlloc : Type := { string_alloc : vfs → ByteAlloc }.

(** The bytes of a name up to its NUL, as memory holds them, and the name at a pointer. *)
Fixpoint c_bytes (w : name) : name :=
  match w with [] => [] | b :: w => if decide (b `mod` 256 = 0) then [] else b `mod` 256 :: c_bytes w end.
Definition string_of (m : bytes) (p : cptr) : name :=
  match blocks m !! p.1 with Some l => c_bytes (drop (Z.to_nat p.2) l) | None => [] end.
(** The literals "/", "." and "..", a path and a working directory. *)
Definition path_mem (fn cwd : name) : bytes := Bytes (list_to_map [
  (1%positive, [47; 0]); (2%positive, [46; 0]); (3%positive, [46; 46; 0]);
  (4%positive, c_bytes fn ++ [0]); (5%positive, c_bytes cwd ++ [0])]).
Definition run_strings {A B} (code : M bytes A) (m : bytes) (result : bytes → A → B) : M vfs B := λ s,
  match code m with
  | Ok (a, m') => Ok (result m' a, s)
  | Panic => Panic
  | Fault => Fault
  | NoFuel => NoFuel
  end.

Section strings.
Context `{!PathAlloc}.
(** [vfs_parse_path(fn, cwd, &abs_path)] *)
Definition parse_path (fn cwd : name) : M vfs (Z + name) :=
  a ← gets string_alloc;
  run_strings (@vfs_parse_path a (1%positive, 0) (2%positive, 0) (3%positive, 0) (Some (4%positive, 0)) (Some (5%positive, 0)))
    (path_mem fn cwd) (λ m, sum_map id (string_of m)).
(** [vfs_canonicalize_path(fn, cwd, &tokens)] *)
Definition path_tokens (fn cwd : name) : M vfs (Z + list name) :=
  a ← gets string_alloc;
  run_strings (@vfs_canonicalize_path a (1%positive, 0) (2%positive, 0) (3%positive, 0) (Some (4%positive, 0)) (Some (5%positive, 0)))
    (path_mem fn cwd) (λ m, sum_map id (map (string_of m))).
(** [canonicalize_path(path)] *)
Definition split_path (path : name) : M vfs (option (list name)) :=
  a ← gets string_alloc;
  run_strings (@canonicalize_path a (Some (4%positive, 0))) (path_mem path []) (λ m, option_map (map (string_of m))).
End strings.

(** As many turns as there are entries: a list without a cycle is shorter. *)
Definition turns : M vfs nat := gets (λ s, S (size (dents s))).

(** [dentry_contains] from [node] on. *)
Fixpoint contains_loop (fuel : nat) (node : ptr) (child : loc) : M vfs Z :=
  match fuel with
  | O => nofuel
  | S fuel' =>
      match node with
      | None => mret (- ENOENT)
      | Some p =>
          dlock node;;
          v ← rdd node;
          dunlock node;;
          if bool_decide (p = child) then mret 1 else contains_loop fuel' (d_next v) child
      end
  end.
Definition dentry_contains (parent child : ptr) : M vfs Z :=
  match parent, child with
  | Some _, Some c => v ← rdd parent; fuel ← turns; contains_loop fuel (d_children v) c
  | _, _ => mret (- EINVAL)
  end.

(** The last entry of the list that starts with [node], which comes after [last]. *)
Fixpoint last_loop (fuel : nat) (node last : ptr) : M vfs ptr :=
  match fuel with
  | O => nofuel
  | S fuel' =>
      match node with
      | None => mret last
      | Some _ => dlock node;; v ← rdd node; dunlock node;; last_loop fuel' (d_next v) node
      end
  end.
Definition vfs_dentry_bind (parent child : ptr) : M vfs Z :=
  match parent, child with
  | Some _, Some c =>
      v ← rdd child;
      match d_inode v with
      | None => mret (- EINVAL)
      | Some _ =>
          dlock parent;;
          v ← rdd parent;
          fuel ← turns;
          last ← last_loop fuel (d_children v) NULL;
          dlock child;;
          match last with
          | Some _ =>
              dlock last;;
              updd last (λ w, {| w with d_next := Some c |});;
              updd child (λ w, {| w with d_prev := last |});;
              dunlock last
          | None =>
              updd parent (λ w, {| w with d_children := Some c |});;
              updd child (λ w, {| w with d_prev := NULL |})
          end;;
          updd child (λ w, {| w with d_next := NULL; d_parent := parent |});;
          dunlock child;;
          dunlock parent;;
          dentry_dup parent;;
          dentry_dup child;;
          mret 0
      end
  | _, _ => mret (- EINVAL)
  end.
Definition vfs_dentry_unbind (parent child : ptr) : M vfs Z :=
  match parent, child with
  | Some _, Some c =>
      dlock parent;;
      err ← dentry_contains parent child;
      if decide (err < 0) then dunlock parent;; mret err else
      dlock child;;
      v ← rdd child;
      p ← rdd parent;
      (if decide (d_children p = Some c) then updd parent (λ w, {| w with d_children := d_next v |}) else mret tt);;
      match d_prev v with
      | None => mret tt
      | Some q => dlock (Some q);; updd (Some q) (λ w, {| w with d_next := d_next v |});; dunlock (Some q)
      end;;
      match d_next v with
      | None => mret tt
      | Some q => dlock (Some q);; updd (Some q) (λ w, {| w with d_prev := d_prev v |});; dunlock (Some q)
      end;;
      updd child (λ w, {| w with d_parent := NULL |});;
      dunlock child;;
      dunlock parent;;
      mret 0
  | _, _ => mret (- EINVAL)
  end.

(** ** Walking *)

(** The first entry with the name, from [node] on. *)
Fixpoint find_loop (fuel : nat) (node : ptr) (token : name) : M vfs ptr :=
  match fuel with
  | O => nofuel
  | S fuel' =>
      match node with
      | None => mret NULL
      | Some _ =>
          dlock node;;
          v ← rdd node;
          dunlock node;;
          if decide (d_name v = token) then mret node else find_loop fuel' (d_next v) token
      end
  end.
(** [path_t]: the entry found, the last directory on the way, and the tokens from the
    one looked for last on ([None]: a pointer in front of the array). *)
Record path : Type := MkPath { p_dentry : ptr; p_root : ptr; p_tokens : option (list name) }.
(** The error, the child and directory the walk ends with, and the tokens left. *)
Fixpoint walk_loop (tokens : list name) (dir : ptr) : M vfs (Z * (ptr * ptr * list name)) :=
  match tokens with
  | [] => mret (0, (NULL, dir, []))
  | token :: rest =>
      dlock dir;;
      v ← rdd dir;
      dunlock dir;;
      fuel ← turns;
      child ← find_loop fuel (d_children v) token;
      match child with
      | None => mret (- ENOENT, (NULL, dir, tokens))
      | Some _ => if decide (rest = []) then mret (0, (child, dir, tokens)) else walk_loop rest child
      end
  end.

Section vfs.
Context `{!Kalloc inode, !Kalloc dentry, !SmallAlloc, !Filesystems} {PA : PathAlloc}.

Definition vfs_get_mountpoint (abs_path : list name) : M vfs (Z * option path) :=
  root ← gets droot;
  '(err, (child, dir, rest)) ← walk_loop abs_path root;
  ok ← gets small_ok;
  if negb ok then mret (- ENOMEM, None) else
  mret (err, Some (if decide (abs_path = []) then MkPath root dir None else MkPath child dir (Some rest))).

(** ** Looking up a file *)

(** The names below the last directory in the tree: an entry for each of them, filled
    in by the file system or, for the last one with [O_CREAT], created.  [inl (err, d)]:
    an error, and the entry to be closed. *)
Fixpoint lookup_loop (tokens : list name) (u : option uio) (oflags mode : Z) (dir iparent d ichild : ptr) : M vfs ((Z * ptr) + (ptr * ptr)) :=
  match tokens with
  | [] => mret (inr (ichild, d))
  | token :: rest =>
      r ← dentry_alloc token;
      match r with
      | inl err => mret (inl (err, NULL))
      | inr dl =>
          let d := Some dl in
          r ← ifind iparent token;
          match r with
          | inl err =>
              if any oflags O_CREAT && bool_decide (rest = []) then
                err ← icreate iparent d mode;
                if decide (err ≠ 0) then mret (inl (err, d)) else
                v ← rdd d;
                err ← vfs_dentry_bind dir d;
                if decide (err ≠ 0) then mret (inl (err, d)) else mret (inr (d_inode v, d))
              else mret (inl (err, d))
          | inr ichild =>
              updd d (λ w, {| w with d_inode := Some ichild |});;
              err ← vfs_dentry_bind dir d;
              if decide (err ≠ 0) then mret (inl (err, d)) else
              err ← iperm (Some ichild) u oflags;
              lookup_loop rest u oflags mode (if decide (err ≠ 0) then d else dir) (Some ichild) d (Some ichild)
          end
      end
  end.
(** The entry of a path in the tree and its inode, both with a new reference if asked for. *)
Definition vfs_lookup (fn : option name) (u : option uio) (oflags mode : Z) (iref dref : bool) : M vfs (Z + (ptr * ptr)) :=
  match fn with
  | Some fn =>
      if negb dref && negb iref then mret (inl (- EINVAL)) else
      let cwd := default [47] (u ≫= u_cwd) in
      r ← parse_path fn cwd;
      match r with
      | inl err => mret (inl err)
      | inr abs_path =>
          r ← path_tokens abs_path cwd;
          match r with
          | inl err => mret (inl err)
          | inr tokens =>
              '(err, path) ← vfs_get_mountpoint tokens;
              r ← match path with
                  | Some p =>
                      if decide (err = 0) then
                        v ← rdd (p_dentry p);
                        err ← iperm (d_inode v) u oflags;
                        if decide (err ≠ 0) then mret (inl (err, p_dentry p)) else mret (inr (d_inode v, p_dentry p))
                      else if decide (err = - ENOENT) then
                        v ← rdd (p_root p);
                        match p_tokens p with
                        | None => fault
                        | Some tokens => lookup_loop tokens u oflags mode (p_root p) (d_inode v) NULL NULL
                        end
                      else mret (inl (err, NULL))
                  | None => mret (inl (err, NULL))
                  end;
              match r with
              | inl (err, d) => match d with None => mret tt | Some _ => dentry_close d;; mret tt end;; mret (inl err)
              | inr (ichild, d) =>
                  (if iref then iincrement ichild;; mret tt else mret tt);;
                  (if dref then dentry_dup d;; mret tt else mret tt);;
                  mret (inr (ichild, d))
              end
          end
      end
  | None => mret (inl (- EINVAL))
  end.

Definition vfs_path_dentry (fn : name) : M vfs (Z + ptr) :=
  if decide (fn = [47]) then root ← gets droot; mret (inr root) else
  r ← parse_path fn [47];
  match r with
  | inl err => mret (inl err)
  | inr abspath =>
      tokens ← split_path abspath;
      match tokens with
      | None => mret (inl (- ENOMEM))
      | Some tokens =>
          '(err, path) ← vfs_get_mountpoint tokens;
          match path with
          | None => mret (inl err)
          | Some p => if decide (err ≠ 0) then mret (inl err) else mret (inr (p_dentry p))
          end
      end
  end.

(** [vfs_mount]: [vfs_mountat] with [MS_BIND], an inode and no credentials. *)
Definition vfs_mount (dir nm : name) (ip : ptr) : M vfs Z :=
  r ← parse_path dir [47];
  match r with
  | inl err => mret err
  | inr target =>
      r ← vfs_path_dentry target;
      match r with
      | inl err => mret err
      | inr parent =>
          match ip with
          | None => mret 0
          | Some _ =>
              r ← dentry_alloc nm;
              match r with
              | inl err => mret err
              | inr c =>
                  err ← iincrement ip;
                  if decide (err ≠ 0) then dentry_close (Some c);; mret err else
                  v ← rdd parent;
                  imount (d_inode v) nm ip;;
                  updd (Some c) (λ w, {| w with d_inode := ip |});;
                  updi ip (λ w, {| w with i_dentry := Some c |});;
                  err ← vfs_dentry_bind parent (Some c);
                  if decide (err ≠ 0) then dentry_close (Some c);; mret err else mret 0
              end
          end
      end
  end.
(** [vfs_mountat] with [MS_MOVE] and without [MS_BIND]. *)
Definition mount_move (src target : name) (u : option uio) : M vfs Z :=
  if match u with Some u => bool_decide (u_uid u ≠ 0 ∧ u_gid u ≠ 0) | None => false end then mret (- EPERM) else
  let cwd := default [47] (u ≫= u_cwd) in
  r ← parse_path target cwd;
  match r with
  | inl err => mret err
  | inr target =>
      r ← parse_path src cwd;
      match r with
      | inl err => mret err
      | inr src =>
          r ← vfs_path_dentry src;
          match r with
          | inl err => mret err
          | inr child =>
              v ← rdd child;
              err ← vfs_dentry_unbind (d_parent v) child;
              if decide (err ≠ 0) then dentry_close child;; mret err else
              r ← vfs_path_dentry target;
              match r with
              | inl err => dentry_close child;; mret err
              | inr parent =>
                  err ← vfs_dentry_bind parent child;
                  if decide (err ≠ 0) then dentry_close child;; mret err else mret 0
              end
          end
      end
  end.
Definition vfs_mount_root (root : ptr) : M vfs Z :=
  match root with
  | None => mret (- EINVAL)
  | Some _ =>
      d ← gets droot;
      v ← rdd d;
      match d_inode v with None => mret tt | Some _ => iclose (d_inode v);; mret tt end;;
      updd d (λ w, {| w with d_inode := root |});;
      mret 0
  end.
End vfs.
