(* ===== verification/Tmpfs.v ===== *)
(** * The memory file system ([kernel/fs/tmpfs/tmpfs.c])

    A directory is a table of names and inodes, a file an array of bytes. *)
From S2P Require Import Prelude FsTypes Inode.

(** Tables and contents come from [kcalloc] and [krealloc]: whether there is memory, and
    what the bytes behind the old end of a reallocated array are. *)
Class TmpfsAlloc : Type := {
  kcalloc_ok : vfs → Z → bool;
  krealloc_tail : vfs → Z → option (list Z);
  krealloc_length : ∀ s n l, krealloc_tail s n = Some l → Z.of_nat (length l) = Z.max 0 n;
}.

Section tmpfs.
Context `{!Kalloc inode, !Kalloc dentry, !SmallAlloc, !TmpfsAlloc} (tmpfs : positive).

Definition tmpfs_open (ip : loc) (mode : Z) : M vfs Z := mret 0.
Definition tmpfs_close (ip : loc) : M vfs Z := mret (- EINVAL).
Definition tmpfs_ioctl (ip : loc) (req argp : Z) : M vfs Z := mret (- ENOTTY).
Definition tmpfs_lseek (ip : loc) (off whence : Z) : M vfs Z := mret (- EINVAL).
Definition tmpfs_sync (ip : loc) : M vfs Z := mret (- EINVAL).

(** ** Directories *)

(** The entries of the table from the first on; an entry with a name and no inode makes
    [iunlock] panic. *)
Fixpoint find_entry (table : list (option name * ptr)) (dir : loc) (nm : name) : M vfs (Z + loc) :=
  match table with
  | [] => iunlock (Some dir);; mret (inl (- ENOENT))
  | (None, _) :: table => find_entry table dir nm
  | (Some _, None) :: _ => iunlock NULL;; iunlock (Some dir);; mret (inl (- EINVAL))
  | (Some n, Some c) :: table =>
      ilock (Some c);;
      iunlock (Some c);;
      if decide (n = nm) then iunlock (Some dir);; mret (inr c) else find_entry table dir nm
  end.
Definition tmpfs_find (dir : loc) (nm : name) : M vfs (Z + loc) :=
  ilock (Some dir);;
  v ← rdi (Some dir);
  if negb (is_dir v) then iunlock (Some dir);; mret (inl (- ENOTDIR)) else
  match i_priv v with
  | PNull => iunlock (Some dir);; mret (inl (- ENOENT))
  | PDir table => find_entry table dir nm
  | PData _ => fault
  end.

(** The first entry without an inode. *)
Fixpoint free_entry (table : list (option name * ptr)) : nat :=
  match table with [] => O | (_, None) :: _ => O | _ :: table => S (free_entry table) end.
Definition set_table (dir : loc) (table : list (option name * ptr)) : M vfs unit :=
  updi (Some dir) (λ v, {| v with i_priv := PDir table |}).
Definition bind_entry (dir : loc) (table : list (option name * ptr)) (nm : name) (child : loc) : M vfs Z :=
  ok ← gets small_ok;
  if negb ok then iunlock (Some dir);; mret (- ENOMEM) else
  set_table dir (<[free_entry table := (Some nm, Some child)]> table);;
  ilock (Some child);;
  updi (Some child) (λ v, {| v with ifs := Some (default tmpfs (ifs v)) |});;
  iunlock (Some child);;
  iunlock (Some dir);;
  mret 0.
(** [try_bind]: without a free entry the table grows by one. *)
Definition try_bind (dir : loc) (table : list (option name * ptr)) (nm : name) (child : loc) : M vfs Z :=
  if bool_decide (free_entry table < length table)%nat then bind_entry dir table nm child else
  ok ← gets (λ s, kcalloc_ok s (Z.of_nat (length table) + 1));
  if negb ok then iunlock (Some dir);; mret (- ENOMEM) else
  set_table dir (table ++ [(None, NULL)]);;
  bind_entry dir (table ++ [(None, NULL)]) nm child.
Definition tmpfs_mount (dir : loc) (nm : name) (child : loc) : M vfs Z :=
  ilock (Some dir);;
  v ← rdi (Some dir);
  match i_priv v with
  | PNull =>
      ok ← gets (λ s, kcalloc_ok s 1);
      if negb ok then iunlock (Some dir);; mret (- ENOMEM) else
      set_table dir [(None, NULL)];;
      try_bind dir [(None, NULL)] nm child
  | PDir table => try_bind dir table nm child
  | PData _ => fault
  end.

Definition tmpfs_create (dir d : loc) (mode : Z) : M vfs Z :=
  r ← ialloc;
  match r with
  | inl err => mret err
  | inr ip =>
      p ← rdi (Some dir);
      updi (Some ip) (λ v, {| v with i_mask := mode; ifs := ifs p; i_type := FS_RGL |});;
      updd (Some d) (λ w, {| w with d_inode := Some ip |});;
      updi (Some ip) (λ v, {| v with i_dentry := Some d; i_gid := i_gid p; i_uid := i_uid p |});;
      w ← rdd (Some d);
      err ← tmpfs_mount dir (d_name w) ip;
      if decide (err ≠ 0) then irelease (Some ip);; mret err else mret 0
  end.

(** ** Contents *)

(** [MIN(i_size - off, sz)]; sizes and offsets are 32-bit words. *)
Definition room_left (v : inode) (off sz : Z) : Z := Z.min (u32 (i_size v - off)) sz.

(** The bytes read, or the error; the length of what is read is what the code returns. *)
Definition tmpfs_read (ip : loc) (off sz : Z) : M vfs (Z + list Z) :=
  v ← rdi (Some ip);
  match i_priv v with
  | PNull => mret (inl (-1))
  | PDir _ => if bool_decide (i_size v ≤ off) then mret (inl (-1)) else fault
  | PData data =>
      if bool_decide (i_size v ≤ off) then mret (inl (-1)) else
      let size := room_left v off sz in
      if bool_decide (off + size ≤ Z.of_nat (length data))
      then mret (inr (take (Z.to_nat size) (drop (Z.to_nat off) data))) else fault
  end.
(** [data] is NULL unless the file has grown, and the copy goes to [data + off]. *)
Definition tmpfs_write (ip : loc) (off : Z) (buf : list Z) : M vfs Z :=
  let sz := Z.of_nat (length buf) in
  v ← rdi (Some ip);
  if is_dir v then mret (- EISDIR) else
  let size' := u32 (off + sz) in
  if bool_decide (i_size v < size') then
    match i_priv v with
    | PNull => gets (λ s, if kcalloc_ok s size' then Some (replicate (Z.to_nat size') 0) else None)
    | PData data => gets (λ s, (λ tail, data ++ tail) <$> krealloc_tail s (size' - Z.of_nat (length data)))
    | PDir _ => fault
    end ≫= λ grown,
    match grown with
    | None => mret (- EAGAIN)
    | Some data =>
        let size := room_left {| v with i_size := size' |} off sz in
        if bool_decide (off + size ≤ Z.of_nat (length data)) then
          updi (Some ip) (λ v, {| v with i_size := size';
            i_priv := PData (take (Z.to_nat off) data ++ take (Z.to_nat size) buf ++ drop (Z.to_nat (off + size)) data) |});;
          mret size
        else fault
    end
  else if bool_decide (room_left v off sz = 0) then mret 0 else fault.

(** [tmpfs_iops]; [.bind] and [.chown] are NULL. *)
Definition tmpfs_iops : iops := {|
  op_open := Some tmpfs_open;
  op_close := Some tmpfs_close;
  op_creat := Some tmpfs_create;
  op_find := Some tmpfs_find;
  op_bind := None;
  op_mount := Some tmpfs_mount;
  op_ioctl := Some tmpfs_ioctl;
  op_lseek := Some tmpfs_lseek;
  op_chown := None;
|}.
End tmpfs.
