(* ===== verification/VfsTree.v ===== *)
(** * The shape of the tree of directory entries

    Each entry has a list of children, chained by [d_prev] and [d_next]; walking, binding
    and unbinding on that shape. *)
From S2P Require Import Prelude FsTypes Strings StringsSpec Path PathSpec Inode Vfs.

(** ** States that differ in the fields of entries *)

Definition mapd (f : loc → dentry → dentry) (s : vfs) : vfs := {| s with dents := map_imap (λ q v, Some (f q v)) (dents s) |}.
Definition fset (p : loc) (g : dentry → dentry) (f : loc → dentry → dentry) : loc → dentry → dentry :=
  λ q v, if decide (q = p) then g (f q v) else f q v.
Definition same : loc → dentry → dentry := λ _ v, v.

Lemma mapd_lookup f s q : dents (mapd f s) !! q = f q <$> dents s !! q.
Proof. simpl. rewrite map_lookup_imap. by destruct (dents s !! q). Qed.
Lemma mapd_ext f f' s : (∀ q v, dents s !! q = Some v → f q v = f' q v) → mapd f s = mapd f' s.
Proof.
  intros H. unfold mapd. f_equal. apply map_eq. intros q. rewrite !map_lookup_imap.
  destruct (dents s !! q) eqn:E; simpl; [|done]. by rewrite (H q).
Qed.
Lemma mapd_same s : mapd same s = s.
Proof.
  destruct s as [d i r]. unfold mapd. simpl. f_equal. apply map_eq. intros q. rewrite map_lookup_imap. by destruct (d !! q).
Qed.
Lemma mapd_size f s : size (dents (mapd f s)) = size (dents s).
Proof.
  rewrite <- !size_dom. f_equal. apply set_eq. intros q. rewrite !elem_of_dom. rewrite mapd_lookup. by rewrite fmap_is_Some.
Qed.
Lemma updd_map p g f s : {| (mapd f s) with dents := alter g p (dents (mapd f s)) |} = mapd (fset p g f) s.
Proof.
  unfold mapd. simpl. f_equal. apply map_eq. intros q. rewrite map_lookup_imap. unfold fset.
  destruct (decide (q = p)) as [->|Hq]; [rewrite lookup_alter_eq|rewrite lookup_alter_ne by done]; rewrite map_lookup_imap; by destruct (dents s !! _).
Qed.

#[global] Arguments mapd f s : simpl never.

Section map_steps.
Context (s : vfs) (f : loc → dentry → dentry) (p : loc) (v : dentry).
Hypothesis Hp : dents s !! p = Some v.

Lemma wp_rdd (Q : dentry → vfs → Prop) : Q (f p v) (mapd f s) → wp (rdd (Some p)) Q (mapd f s).
Proof using Hp. intros HQ. eapply wp_rd; [|exact HQ]. change (dents (mapd f s) !! p = Some (f p v)). by rewrite mapd_lookup, Hp. Qed.
Lemma wp_updd g (Q : unit → vfs → Prop) : Q tt (mapd (fset p g f) s) → wp (updd (Some p) g) Q (mapd f s).
Proof using Hp.
  intros HQ. apply wp_upd.
  - change (is_Some (dents (mapd f s) !! p)). rewrite mapd_lookup, Hp. by eexists.
  - rewrite <- updd_map in HQ. exact HQ.
Qed.
Definition lk (b : bool) (v : dentry) : dentry := {| v with d_lock := b |}.
Lemma wp_dlock (Q : unit → vfs → Prop) : d_lock (f p v) = false → Q tt (mapd (fset p (lk true) f) s) → wp (dlock (Some p)) Q (mapd f s).
Proof using Hp. intros Hl HQ. unfold dlock. apply wp_bind, wp_rdd. rewrite Hl. by apply wp_updd. Qed.
Lemma wp_dunlock (Q : unit → vfs → Prop) : d_lock (f p v) = true → Q tt (mapd (fset p (lk false) f) s) → wp (dunlock (Some p)) Q (mapd f s).
Proof using Hp. intros Hl HQ. unfold dunlock. apply wp_bind, wp_rdd. rewrite Hl. by apply wp_updd. Qed.
End map_steps.

Lemma fset_eq p g f v : fset p g f p v = g (f p v).
Proof. unfold fset. by rewrite decide_True. Qed.
Lemma fset_ne p q g f v : q ≠ p → fset p g f q v = f q v.
Proof. intros. unfold fset. by rewrite decide_False. Qed.
Lemma lk_lk b b' v : lk b (lk b' v) = lk b v.
Proof. done. Qed.
Lemma lk_id v : lk (d_lock v) v = v.
Proof. by destruct v. Qed.
(** A look at an entry under its lock. *)
Lemma wp_peek {B} s f p v (K : dentry → M vfs B) (Q : B → vfs → Prop) : dents s !! p = Some v → d_lock (f p v) = false →
  wp (K (lk true (f p v))) Q (mapd f s) → wp (dlock (Some p);; w ← rdd (Some p); dunlock (Some p);; K w) Q (mapd f s).
Proof.
  intros Hp Hl HQ. apply wp_bind. eapply wp_dlock; [done..|]. apply wp_bind. eapply wp_rdd; [done|]. rewrite fset_eq.
  apply wp_bind. eapply wp_dunlock; [done|by rewrite fset_eq|]. erewrite mapd_ext; [exact HQ|]. intros q w Hq.
  destruct (decide (q = p)) as [->|Hne]; [|by rewrite !fset_ne]. rewrite !fset_eq, lk_lk. simplify_eq. rewrite <- Hl. apply lk_id.
Qed.

(** ** Lists of entries *)

(** The entry before the [i]th. *)
Definition prev_of (ks : list loc) (i : nat) : ptr := match i with O => NULL | S j => ks !! j end.
(** [ks] are unlocked entries, each with the next one as its [d_next]. *)
Definition row (s : vfs) (f : loc → dentry → dentry) (ks : list loc) : Prop :=
  ∀ i k, ks !! i = Some k → ∃ v, dents s !! k = Some v ∧ d_next (f k v) = ks !! S i ∧ d_lock (f k v) = false.
Lemma row_cons s f k ks : row s f (k :: ks) → (∃ v, dents s !! k = Some v ∧ d_next (f k v) = head ks ∧ d_lock (f k v) = false) ∧ row s f ks.
Proof.
  intros H. split; [destruct (H 0%nat k eq_refl) as (v & ? & ? & ?); exists v; by destruct ks|]. intros i k' Hk. by apply (H (S i)).
Qed.
Lemma row_length s f ks : NoDup ks → row s f ks → (length ks ≤ size (dents s))%nat.
Proof.
  intros Hn Hr. rewrite <- size_dom. rewrite <- (size_list_to_set (C := gset loc) ks) by done. apply subseteq_size.
  intros k Hk%elem_of_list_to_set. apply list_elem_of_lookup in Hk as [i Hk]. destruct (Hr i k Hk) as (v & Hv & _). by apply elem_of_dom_2 in Hv.
Qed.

(** The first of [ks] with a name. *)
Fixpoint find_kid (s : vfs) (ks : list loc) (nm : name) : option loc :=
  match ks with
  | [] => None
  | k :: ks => if decide (d_name <$> dents s !! k = Some nm) then Some k else find_kid s ks nm
  end.
Definition keeps_names (f : loc → dentry → dentry) : Prop := ∀ q v, d_name (f q v) = d_name v.

Lemma wp_find_loop fuel s f ks nm (Q : ptr → vfs → Prop) : keeps_names f → row s f ks → (length ks < fuel)%nat →
  Q (find_kid s ks nm) (mapd f s) → wp (find_loop fuel (head ks) nm) Q (mapd f s).
Proof.
  intros Hf. revert ks. induction fuel as [|fuel IH]; intros ks Hr Hl HQ; [lia|]. simpl. destruct ks as [|k ks]; simpl in *; [by apply wp_ret|].
  apply row_cons in Hr as [(v & Hv & Hn & Hk) Hr]. eapply wp_peek; [done..|]. simpl. rewrite Hv, Hf in *. simpl in HQ.
  destruct (decide (d_name v = nm)); [rewrite decide_True in HQ by congruence; by apply wp_ret|].
  rewrite decide_False in HQ by congruence. rewrite Hn. apply IH; [done|lia|done].
Qed.
Lemma wp_last_loop fuel s f ks lst (Q : ptr → vfs → Prop) : row s f ks → (length ks < fuel)%nat →
  Q (match last ks with Some k => Some k | None => lst end) (mapd f s) → wp (last_loop fuel (head ks) lst) Q (mapd f s).
Proof.
  revert ks lst. induction fuel as [|fuel IH]; intros ks lst Hr Hl HQ; [lia|]. simpl. destruct ks as [|k ks]; simpl in Hl; [by apply wp_ret|].
  apply row_cons in Hr as [(v & Hv & Hn & Hk) Hr]. eapply wp_peek; [done..|]. simpl. rewrite Hn. apply IH; [done|lia|].
  rewrite last_cons in HQ. by destruct (last ks).
Qed.
Lemma wp_contains_loop fuel s f ks c (Q : Z → vfs → Prop) : row s f ks → (length ks < fuel)%nat →
  Q (if decide (c ∈ ks) then 1 else - ENOENT) (mapd f s) → wp (contains_loop fuel (head ks) c) Q (mapd f s).
Proof.
  revert ks. induction fuel as [|fuel IH]; intros ks Hr Hl HQ; [lia|]. simpl. destruct ks as [|k ks]; simpl in *; [by apply wp_ret|].
  apply row_cons in Hr as [(v & Hv & Hn & Hk) Hr]. eapply wp_peek; [done..|]. simpl. case_bool_decide as E.
  - apply wp_ret. rewrite decide_True in HQ by (subst; set_solver). done.
  - rewrite Hn. apply IH; [done|lia|]. rewrite (decide_ext (c ∈ k :: ks) (c ∈ ks)) in HQ by set_solver. done.
Qed.

(** ** The tree *)

(** [kids]: the children of each entry, in order.  All locks are free. *)
Record tree (s : vfs) (kids : gmap loc (list loc)) : Prop := Tree {
  tr_dom : dom kids = dom (dents s);
  tr_free : ∀ p v, dents s !! p = Some v → d_lock v = false;
  tr_head : ∀ p ks v, kids !! p = Some ks → dents s !! p = Some v → d_children v = head ks;
  tr_nodup : ∀ p ks, kids !! p = Some ks → NoDup ks ∧ p ∉ ks;
  tr_kid : ∀ p ks i k, kids !! p = Some ks → ks !! i = Some k →
    ∃ v, dents s !! k = Some v ∧ d_parent v = Some p ∧ d_prev v = prev_of ks i ∧ d_next v = ks !! S i;
}.
Lemma tree_kids s kids p v : tree s kids → dents s !! p = Some v → ∃ ks, kids !! p = Some ks.
Proof. intros [H _ _ _ _] Hp%elem_of_dom_2. rewrite <- H in Hp. by apply elem_of_dom in Hp as [ks ?]; exists ks. Qed.
Lemma tree_dent s kids p ks : tree s kids → kids !! p = Some ks → ∃ v, dents s !! p = Some v.
Proof. intros [H _ _ _ _] Hp%elem_of_dom_2. rewrite H in Hp. by apply elem_of_dom in Hp as [v ?]; exists v. Qed.
Lemma tree_row s kids p ks f : tree s kids → kids !! p = Some ks → (∀ q v, q ≠ p → d_next (f q v) = d_next v ∧ d_lock (f q v) = d_lock v) → row s f ks.
Proof.
  intros Ht Hp Hf i k Hk. destruct (tr_kid _ _ Ht p ks i k Hp Hk) as (v & Hv & _ & _ & Hn). destruct (tr_nodup _ _ Ht p ks Hp) as [_ Hs].
  destruct (Hf k v) as [H1 H2]; [intros ->; apply Hs; by eapply list_elem_of_lookup_2|]. exists v. split; [done|]. rewrite H1, H2.
  split; [done|]. by eapply tr_free.
Qed.
Lemma tree_length s kids p ks : tree s kids → kids !! p = Some ks → (length ks < S (size (dents s)))%nat.
Proof.
  intros Ht Hp. destruct (tr_nodup _ _ Ht p ks Hp) as [Hn _]. apply Nat.lt_succ_r. apply (row_length s same); [done|].
  by eapply tree_row.
Qed.
Lemma wp_turns s f (Q : nat → vfs → Prop) : Q (S (size (dents s))) (mapd f s) → wp turns Q (mapd f s).
Proof. intros HQ. apply wp_gets. by rewrite mapd_size. Qed.

Lemma same_eq q v : same q v = v.
Proof. done. Qed.
Ltac fset_simp := repeat first [rewrite fset_eq | rewrite fset_ne by congruence]; rewrite ?same_eq; cbn [lk d_name d_ref d_inode d_prev d_next d_parent d_children d_lock].
Ltac dstep :=
  lazymatch goal with
  | |- wp (_ ≫= _) _ _ => apply wp_bind
  | |- wp (mret _) _ _ => apply wp_ret
  | |- wp (rdd (Some _)) _ _ => eapply wp_rdd; [eassumption|]
  | |- wp (updd (Some _) _) _ _ => eapply wp_updd; [eassumption|]
  | |- wp (dlock (Some _)) _ _ => eapply wp_dlock; [eassumption|fset_simp; solve [eauto]|]
  | |- wp (dunlock (Some _)) _ _ => eapply wp_dunlock; [eassumption|fset_simp; solve [eauto]|]
  end.

(** The fields of an entry after a bind. *)
Definition bound (p c : loc) (lst : ptr) (q : loc) (v : dentry) : dentry := {|
  d_name := d_name v;
  d_ref := if decide (q = p ∨ q = c) then i32 (d_ref v + 1) else d_ref v;
  d_inode := d_inode v;
  d_prev := if decide (q = c) then lst else d_prev v;
  d_next := if decide (q = c) then NULL else if decide (lst = Some q) then Some c else d_next v;
  d_parent := if decide (q = c) then Some p else d_parent v;
  d_children := if decide (q = p ∧ lst = NULL) then Some c else d_children v;
  d_lock := d_lock v;
|}.
Lemma dentry_ext v w : d_name v = d_name w → d_ref v = d_ref w → d_inode v = d_inode w → d_prev v = d_prev w → d_next v = d_next w →
  d_parent v = d_parent w → d_children v = d_children w → d_lock v = d_lock w → v = w.
Proof. destruct v, w. simpl. by intros -> -> -> -> -> -> -> ->. Qed.
Ltac dentry_cases :=
  apply dentry_ext; fset_simp; simpl; repeat case_decide; destruct_and?; simplify_eq;
  try solve [done | lia | congruence | naive_solver].
Lemma wp_vfs_dentry_bind s kids p c ks v ip (Q : Z → vfs → Prop) : tree s kids → kids !! p = Some ks →
  dents s !! c = Some v → d_inode v = Some ip → c ≠ p → c ∉ ks → Q 0 (mapd (bound p c (last ks)) s) →
  wp (vfs_dentry_bind (Some p) (Some c)) Q s.
Proof.
  intros Ht Hp Hc Hip Hne Hck HQ. destruct (tree_dent _ _ _ _ Ht Hp) as [vp Hvp].
  pose proof (tr_free _ _ Ht _ _ Hvp) as Hlp. pose proof (tr_free _ _ Ht _ _ Hc) as Hlc.
  rewrite <- (mapd_same s). unfold vfs_dentry_bind. dstep. dstep. unfold same at 1. rewrite Hip. repeat dstep.
  apply wp_turns. apply wp_bind. fset_simp. rewrite (tr_head _ _ Ht _ _ _ Hp Hvp).
  apply wp_last_loop; [eapply tree_row; [done..|]; intros q w Hq; by rewrite fset_ne|by eapply tree_length|].
  destruct (last ks) as [l|] eqn:El.
  - assert (Hl : l ∈ ks) by (by apply last_Some_elem_of). assert (l ≠ c) by congruence.
    assert (l ≠ p) by (intros ->; by destruct (tr_nodup _ _ Ht p ks Hp)).
    apply list_elem_of_lookup in Hl as [i Hl]. destruct (tr_kid _ _ Ht _ _ _ _ Hp Hl) as (vl & Hvl & _).
    pose proof (tr_free _ _ Ht _ _ Hvl) as Hll. unfold dentry_dup. repeat dstep.
    erewrite mapd_ext; [exact HQ|]. intros q w Hq.
    destruct (decide (q = p)) as [->|]; [|destruct (decide (q = c)) as [->|]; [|destruct (decide (q = l)) as [->|]]];
      simplify_eq; dentry_cases.
  - unfold dentry_dup. repeat dstep. erewrite mapd_ext; [exact HQ|]. intros q w Hq.
    destruct (decide (q = p)) as [->|]; [|destruct (decide (q = c)) as [->|]]; simplify_eq; dentry_cases.
Qed.

Lemma mapd_dom f s : dom (dents (mapd f s)) = dom (dents s).
Proof. apply set_eq. intros q. by rewrite !elem_of_dom, mapd_lookup, fmap_is_Some. Qed.
Lemma mapd_inv f s q w : dents (mapd f s) !! q = Some w → ∃ v, dents s !! q = Some v ∧ w = f q v.
Proof. rewrite mapd_lookup. intros (v & ? & ?)%fmap_Some. by exists v. Qed.
Lemma mapd_at f s q v : dents s !! q = Some v → dents (mapd f s) !! q = Some (f q v).
Proof. intros H. by rewrite mapd_lookup, H. Qed.
Lemma prev_of_app ks c i : (i ≤ length ks)%nat → prev_of (ks ++ [c]) i = prev_of ks i.
Proof. destruct i; simpl; [done|]. intros. by apply lookup_app_l. Qed.
(** An entry has one parent, so the lists of children do not overlap. *)
Lemma tree_one_parent s kids p q ks ks' k : tree s kids → kids !! p = Some ks → kids !! q = Some ks' → k ∈ ks → k ∈ ks' → p = q.
Proof.
  intros Ht Hp Hq (i & Hi)%list_elem_of_lookup (j & Hj)%list_elem_of_lookup.
  destruct (tr_kid _ _ Ht _ _ _ _ Hp Hi) as (v & Hv & Hpv & _). destruct (tr_kid _ _ Ht _ _ _ _ Hq Hj) as (v' & Hv' & Hqv & _). congruence.
Qed.
(** [c] is nobody's child. *)
Definition unbound (kids : gmap loc (list loc)) (c : loc) : Prop := ∀ q ks, kids !! q = Some ks → c ∉ ks.

Lemma last_lookup_iff {A} (l : list A) i x : NoDup l → l !! i = Some x → last l = Some x ↔ S i = length l.
Proof.
  intros Hn Hi. rewrite last_lookup. split.
  - intros Hl. pose proof (lookup_lt_Some _ _ _ Hi). assert (i = pred (length l)) by (by eapply NoDup_lookup). lia.
  - intros <-. done.
Qed.
Lemma tree_bound s kids p c ks : tree s kids → kids !! p = Some ks → is_Some (dents s !! c) → c ≠ p → unbound kids c →
  tree (mapd (bound p c (last ks)) s) (<[p := ks ++ [c]]> kids).
Proof.
  intros Ht Hp [vc Hc] Hne Hu. destruct (tr_nodup _ _ Ht _ _ Hp) as [Hnd Hself]. split.
  - rewrite mapd_dom, dom_insert_L, (tr_dom _ _ Ht). apply elem_of_dom_2 in Hp. rewrite (tr_dom _ _ Ht) in Hp. set_solver.
  - intros q w (v & Hv & ->)%mapd_inv. simpl. by eapply tr_free.
  - intros q ks' w Hks (v & Hv & ->)%mapd_inv. simpl. destruct (decide (q = p)) as [->|Hqp].
    + rewrite lookup_insert_eq in Hks. simplify_eq. rewrite (tr_head _ _ Ht _ _ _ Hp Hv).
      destruct ks as [|k ks]; simpl; [by rewrite decide_True by done|].
      rewrite decide_False; [done|]. intros [_ Hl]. by apply last_None in Hl.
    + rewrite lookup_insert_ne in Hks by done. rewrite decide_False by tauto. by eapply tr_head.
  - intros q ks' Hks. destruct (decide (q = p)) as [->|Hqp]; [|rewrite lookup_insert_ne in Hks by done; by eapply tr_nodup].
    rewrite lookup_insert_eq in Hks. simplify_eq. split; [|set_solver]. apply NoDup_app. split; [done|]. split; [|apply NoDup_singleton].
    intros x Hx ->%list_elem_of_singleton. by eapply Hu.
  - intros q ks' i k Hks Hk. destruct (decide (q = p)) as [->|Hqp].
    + rewrite lookup_insert_eq in Hks. simplify_eq. apply lookup_app_Some in Hk as [Hk|[Hlen Hk]].
      * destruct (tr_kid _ _ Ht _ _ _ _ Hp Hk) as (v & Hv & H1 & H2 & H3). pose proof (lookup_lt_Some _ _ _ Hk).
        assert (k ≠ c) by (intros ->; eapply Hu; [exact Hp|by eapply list_elem_of_lookup_2]).
        exists (bound p c (last ks) k v). split; [by apply mapd_at|]. simpl. rewrite !(decide_False (P := k = c)) by done.
        split; [done|]. split; [by rewrite prev_of_app by lia|]. pose proof (last_lookup_iff ks i k Hnd Hk) as Hl.
        destruct (decide (S i = length ks)) as [E|E].
        -- rewrite decide_True by tauto. rewrite lookup_app_r by lia. by rewrite E, Nat.sub_diag.
        -- rewrite decide_False by tauto. rewrite lookup_app_l by lia. done.
      * apply list_lookup_singleton_Some in Hk as [Hk ->]. assert (i = length ks) as -> by lia.
        exists (bound p k (last ks) k vc). split; [by apply mapd_at|]. simpl. rewrite !(decide_True (P := k = k)) by done.
        split; [done|]. split; [|rewrite lookup_ge_None_2; [done|rewrite length_app; simpl; lia]].
        rewrite prev_of_app by lia. rewrite last_lookup. by destruct (length ks) eqn:E; simpl; [destruct ks|].
    + rewrite lookup_insert_ne in Hks by done. destruct (tr_kid _ _ Ht _ _ _ _ Hks Hk) as (v & Hv & H1 & H2 & H3).
      assert (Hkin : k ∈ ks') by (by eapply list_elem_of_lookup_2).
      assert (k ≠ c) by (intros ->; by eapply Hu). exists (bound p c (last ks) k v). split; [by apply mapd_at|]. simpl.
      rewrite !(decide_False (P := k = c)) by done. split; [done|]. split; [done|]. rewrite decide_False; [done|].
      intros Hl%last_Some_elem_of. apply Hqp. by eapply tree_one_parent.
Qed.

(** The fields of an entry after an unbind of [c], which was [vc]. *)
Definition unlinked (p c : loc) (vc : dentry) (q : loc) (v : dentry) : dentry := {|
  d_name := d_name v;
  d_ref := d_ref v;
  d_inode := d_inode v;
  d_prev := if decide (d_next vc = Some q) then d_prev vc else d_prev v;
  d_next := if decide (d_prev vc = Some q) then d_next vc else d_next v;
  d_parent := if decide (q = c) then NULL else d_parent v;
  d_children := if decide (q = p ∧ d_children v = Some c) then d_next vc else d_children v;
  d_lock := d_lock v;
|}.
Lemma wp_contains s kids p ks f vp c (Q : Z → vfs → Prop) : tree s kids → kids !! p = Some ks → dents s !! p = Some vp →
  (∀ q v, d_next (f q v) = d_next v ∧ (q ≠ p → d_lock (f q v) = d_lock v) ∧ d_children (f q v) = d_children v) →
  Q (if decide (c ∈ ks) then 1 else - ENOENT) (mapd f s) → wp (dentry_contains (Some p) (Some c)) Q (mapd f s).
Proof.
  intros Ht Hp Hvp Hf HQ. unfold dentry_contains. dstep. dstep. dstep. apply wp_turns. destruct (Hf p vp) as (_ & _ & ->).
  rewrite (tr_head _ _ Ht _ _ _ Hp Hvp). apply wp_contains_loop; [|by eapply tree_length|done]. eapply tree_row; [done..|].
  intros q v Hq. destruct (Hf q v) as (? & ? & _). auto.
Qed.
(** The neighbours of a child are other children. *)
Lemma tree_neighbours s kids p ks c vc : tree s kids → kids !! p = Some ks → c ∈ ks → dents s !! c = Some vc →
  (∀ q, d_prev vc = Some q ∨ d_next vc = Some q → q ∈ ks ∧ q ≠ c ∧ q ≠ p) ∧ (∀ q, d_prev vc = Some q → d_next vc ≠ Some q) ∧
  d_parent vc = Some p.
Proof.
  intros Ht Hp (i & Hi)%list_elem_of_lookup Hc. destruct (tr_nodup _ _ Ht _ _ Hp) as [Hnd Hself].
  destruct (tr_kid _ _ Ht _ _ _ _ Hp Hi) as (v & Hv & Hpar & Hpr & Hnx). simplify_eq.
  assert (Hj : ∀ q, prev_of ks i = Some q → ∃ j, i = S j ∧ ks !! j = Some q) by (intros q; destruct i as [|j]; [done|]; by exists j).
  rewrite Hpr, Hnx. split; [|split; [|done]].
  - intros q Hq. assert (∃ j, ks !! j = Some q ∧ j ≠ i) as (j & Hqj & Hne).
    { destruct Hq as [(j & -> & ?)%Hj|?]; [exists j|exists (S i)]; (split; [done|lia]). }
    split; [by eapply list_elem_of_lookup_2|]. split; [intros ->; by apply Hne; eapply NoDup_lookup|].
    intros ->. apply Hself. by eapply list_elem_of_lookup_2.
  - intros q (j & -> & Hq)%Hj Hq'. assert (S (S j) = j) by (by eapply NoDup_lookup). lia.
Qed.
(** A change of a neighbour, if there is one, under its lock. *)
Definition fset_opt (o : ptr) (g : dentry → dentry) (f : loc → dentry → dentry) : loc → dentry → dentry :=
  λ q v, if decide (o = Some q) then g (f q v) else f q v.
Lemma wp_touch s f o g (Q : unit → vfs → Prop) : (∀ q, o = Some q → ∃ v, dents s !! q = Some v ∧ d_lock (f q v) = false) →
  (∀ w, d_lock w = false → lk false (g (lk true w)) = g w ∧ d_lock (g (lk true w)) = true) → Q tt (mapd (fset_opt o g f) s) →
  wp (match o with None => mret tt | Some q => dlock (Some q);; updd (Some q) g;; dunlock (Some q) end) Q (mapd f s).
Proof.
  intros Ho Hg HQ. destruct o as [q|]; [|apply wp_ret; done]. destruct (Ho q eq_refl) as (v & Hv & Hl). destruct (Hg _ Hl) as [H1 H2].
  repeat dstep. erewrite mapd_ext; [exact HQ|]. intros r w Hr. unfold fset_opt.
  destruct (decide (r = q)) as [->|]; [|rewrite decide_False by congruence; by fset_simp]. simplify_eq. rewrite decide_True by done.
  rewrite !fset_eq. by rewrite H1.
Qed.
Lemma wp_updd_if s f p v (P : Prop) `{!Decision P} g (Q : unit → vfs → Prop) : dents s !! p = Some v →
  Q tt (mapd (fset p (λ w, if decide P then g w else w) f) s) → wp (if decide P then updd (Some p) g else mret tt) Q (mapd f s).
Proof.
  intros Hp HQ. case_decide; [by eapply wp_updd|]. apply wp_ret. erewrite mapd_ext; [exact HQ|]. intros q w Hq. unfold fset. by case_decide.
Qed.
Lemma wp_vfs_dentry_unbind s kids p ks c vc (Q : Z → vfs → Prop) : tree s kids → kids !! p = Some ks → dents s !! c = Some vc →
  Q (if decide (c ∈ ks) then 0 else - ENOENT) (if decide (c ∈ ks) then mapd (unlinked p c vc) s else s) →
  wp (vfs_dentry_unbind (Some p) (Some c)) Q s.
Proof.
  intros Ht Hp Hc HQ. destruct (tree_dent _ _ _ _ Ht Hp) as [vp Hvp].
  pose proof (tr_free _ _ Ht _ _ Hvp) as Hlp. pose proof (tr_free _ _ Ht _ _ Hc) as Hlc. destruct (tr_nodup _ _ Ht _ _ Hp) as [_ Hself].
  rewrite <- (mapd_same s). unfold vfs_dentry_unbind. do 3 dstep.
  apply (wp_contains s kids p ks _ vp); [done..| |].
  { intros q v. unfold fset. destruct (decide (q = p)); simpl; (split; [done|split; [by intros|done]]). }
  case_decide as Hin.
  2:{ rewrite decide_True by done. repeat dstep. erewrite mapd_ext; [rewrite mapd_same; exact HQ|]. intros q w Hq.
      destruct (decide (q = p)) as [->|]; simplify_eq; dentry_cases. }
  rewrite decide_False by done. destruct (tree_neighbours _ _ _ _ _ _ Ht Hp Hin Hc) as (Hnb & Hpn & Hpar).
  assert (c ≠ p) by congruence.
  assert (Hk : ∀ q, d_prev vc = Some q ∨ d_next vc = Some q → ∃ vq, dents s !! q = Some vq ∧ d_lock vq = false).
  { intros q (Hq & _ & _)%Hnb. apply list_elem_of_lookup in Hq as [j Hj]. destruct (tr_kid _ _ Ht _ _ _ _ Hp Hj) as (vq & Hvq & _).
    exists vq. split; [done|]. by eapply tr_free. }
  do 6 dstep. fset_simp. dstep.
  eapply wp_updd_if; [done|]. cbv beta.
  dstep. apply wp_touch; [|by intros []; simpl; intros ->|].
  { intros q Hq. destruct (Hk q) as (vq & Hvq & Hlq); [by left|]. destruct (Hnb q) as (_ & ? & ?); [by left|]. exists vq. split; [done|]. by fset_simp. }
  dstep. apply wp_touch; [|by intros []; simpl; intros ->|].
  { intros q Hq. destruct (Hk q) as (vq & Hvq & Hlq); [by right|]. destruct (Hnb q) as (_ & ? & ?); [by right|]. exists vq. split; [done|].
    unfold fset_opt. rewrite decide_False by (intros ?; by eapply Hpn). by fset_simp. }
  assert (d_prev vc ≠ Some c ∧ d_next vc ≠ Some c ∧ d_prev vc ≠ Some p ∧ d_next vc ≠ Some p) as (? & ? & ? & ?) by naive_solver.
  assert (Hx : ∀ q g f v, q = c ∨ q = p → fset_opt (d_next vc) g f q v = f q v ∧ fset_opt (d_prev vc) g f q v = f q v).
  { intros q g f v Hq. unfold fset_opt. rewrite !decide_False by naive_solver. done. }
  dstep. eapply wp_updd; [done|]. dstep. eapply wp_dunlock; [done|fset_simp; rewrite !(proj1 (Hx _ _ _ _ (or_introl eq_refl))), !(proj2 (Hx _ _ _ _ (or_introl eq_refl))); by fset_simp|].
  dstep. eapply wp_dunlock; [done|fset_simp; rewrite !(proj1 (Hx _ _ _ _ (or_intror eq_refl))), !(proj2 (Hx _ _ _ _ (or_intror eq_refl))); fset_simp; by case_decide|].
  dstep. erewrite mapd_ext; [exact HQ|]. intros q w Hq. unfold fset_opt.
  destruct (decide (q = p)) as [->|]; [|destruct (decide (q = c)) as [->|]]; simplify_eq; dentry_cases.
Qed.

Lemma filter_all {A} (P : A → Prop) `{!∀ x, Decision (P x)} l : Forall P l → filter P l = l.
Proof. induction 1; [done|]. rewrite filter_cons_True by done. by f_equal. Qed.
Lemma filter_out (l1 l2 : list loc) c : NoDup (l1 ++ c :: l2) → filter (.≠ c) (l1 ++ c :: l2) = l1 ++ l2.
Proof.
  intros Hn. apply NoDup_app in Hn as (Hn1 & Hd & Hn2). apply NoDup_cons in Hn2 as [Hc Hn2]. rewrite filter_app, filter_cons_False by tauto.
  f_equal; apply filter_all; apply Forall_forall; intros x Hx ->; [by apply (Hd c Hx); left|done].
Qed.
Lemma lookup_mid (l1 l2 : list loc) c i : (l1 ++ l2) !! i = (l1 ++ c :: l2) !! (if decide (i < length l1)%nat then i else S i).
Proof.
  case_decide; [by rewrite !lookup_app_l|]. rewrite !lookup_app_r by lia. by replace (S i - length l1)%nat with (S (i - length l1)) by lia.
Qed.
(** The neighbours of the [i]th child after [c] has left. *)
Lemma neighbours_mid (l1 l2 : list loc) c k i : let ks := l1 ++ c :: l2 in let n := length l1 in
  NoDup ks → (l1 ++ l2) !! i = Some k → let j := if decide (i < n)%nat then i else S i in
  (if decide (ks !! S n = Some k) then prev_of ks n else prev_of ks j) = prev_of (l1 ++ l2) i ∧
  (if decide (prev_of ks n = Some k) then ks !! S n else ks !! S j) = (l1 ++ l2) !! S i.
Proof.
  intros ks n Hnd Hk j. pose proof (lookup_mid l1 l2 c) as Hm. fold ks n in Hm. rewrite Hm in Hk. fold j in Hk.
  assert (Hone : ∀ a, ks !! a = Some k → a = j) by (intros a Ha; by eapply NoDup_lookup). unfold j in *. clear j.
  rewrite (Hm (S i)). destruct (decide (i < n)%nat) as [Hi|Hi].
  - rewrite decide_False by (intros ?%Hone; lia). split; [destruct i; simpl; [done|]; rewrite Hm; by rewrite decide_True by lia|].
    destruct (decide (S i = n)) as [E|E].
    + rewrite decide_True by (rewrite <- E; simpl; done). rewrite decide_False by lia. by rewrite E.
    + rewrite decide_False; [by rewrite decide_True by lia|]. destruct n; simpl; [done|]. intros ?%Hone. lia.
  - rewrite (decide_False (P := prev_of ks n = Some k)); [|destruct n; simpl; [done|]; intros ?%Hone; lia].
    split; [|by rewrite decide_False by lia]. destruct (decide (i = n)) as [->|E].
    + rewrite decide_True by done. destruct n as [|n']; simpl; [done|]. rewrite Hm. by rewrite decide_True by lia.
    + rewrite decide_False by (intros ?%Hone; lia). destruct i as [|i]; [lia|]. simpl. rewrite Hm. by rewrite decide_False by lia.
Qed.
Lemma tree_unlinked s kids p ks c vc : tree s kids → kids !! p = Some ks → dents s !! c = Some vc → c ∈ ks →
  tree (mapd (unlinked p c vc) s) (<[p := filter (.≠ c) ks]> kids).
Proof.
  intros Ht Hp Hc Hin. destruct (tr_nodup _ _ Ht _ _ Hp) as [Hnd Hself]. destruct (tree_neighbours _ _ _ _ _ _ Ht Hp Hin Hc) as (Hnb & Hpn & Hpar).
  apply list_elem_of_split in Hin as (l1 & l2 & ->). rewrite (filter_out l1 l2 c) by done. set (ks := l1 ++ c :: l2) in *.
  assert (Hn : ks !! length l1 = Some c) by (unfold ks; by rewrite lookup_app_r, Nat.sub_diag by lia).
  destruct (tr_kid _ _ Ht _ _ _ _ Hp Hn) as (v & Hv & _ & Hpr & Hnx). simplify_eq. split.
  - rewrite mapd_dom, dom_insert_L, (tr_dom _ _ Ht). apply elem_of_dom_2 in Hp. rewrite (tr_dom _ _ Ht) in Hp. set_solver.
  - intros q w (v & ? & ->)%mapd_inv. simpl. by eapply tr_free.
  - intros q ks' w Hks (v & Hv' & ->)%mapd_inv. simpl. destruct (decide (q = p)) as [->|Hqp].
    + rewrite lookup_insert_eq in Hks. simplify_eq. rewrite (tr_head _ _ Ht _ _ _ Hp Hv'), Hnx. unfold ks.
      destruct l1 as [|k l1]; simpl; [by rewrite decide_True by done; destruct l2|]. rewrite decide_False; [done|].
      intros [_ [= ->]]. apply NoDup_cons in Hnd as [Hnd _]. apply Hnd. apply elem_of_app. right. left.
    + rewrite lookup_insert_ne in Hks by done. rewrite decide_False by tauto. by eapply tr_head.
  - intros q ks' Hks. destruct (decide (q = p)) as [->|Hqp]; [|rewrite lookup_insert_ne in Hks by done; by eapply tr_nodup].
    rewrite lookup_insert_eq in Hks. simplify_eq. split; [|unfold ks in Hself; set_solver].
    eapply sublist_NoDup; [exact Hnd|]. unfold ks. apply sublist_app; [done|]. by apply sublist_cons.
  - intros q ks' i k Hks Hk. destruct (decide (q = p)) as [->|Hqp].
    + rewrite lookup_insert_eq in Hks. simplify_eq. rewrite (lookup_mid l1 l2 c) in Hk. fold ks in Hk.
      destruct (tr_kid _ _ Ht _ _ _ _ Hp Hk) as (v & Hv' & H1 & H2 & H3).
      assert (Hkn : k ≠ c). { intros ->. assert ((if decide (i < length l1)%nat then i else S i) = length l1) by (by eapply NoDup_lookup). case_decide; lia. }
      exists (unlinked p c vc k v). split; [by apply mapd_at|]. simpl. rewrite (decide_False (P := k = c)) by done. split; [done|].
      rewrite Hpr, Hnx, H2, H3. apply (neighbours_mid l1 l2 c k i); [done|]. by rewrite (lookup_mid l1 l2 c).
    + rewrite lookup_insert_ne in Hks by done. destruct (tr_kid _ _ Ht _ _ _ _ Hks Hk) as (v & Hv' & H1 & H2 & H3).
      assert (Hkin : k ∈ ks') by (by eapply list_elem_of_lookup_2).
      assert (Hkk : k ∉ ks) by (intros Hx; apply Hqp; by eapply tree_one_parent). exists (unlinked p c vc k v). split; [by apply mapd_at|]. simpl.
      rewrite (decide_False (P := k = c)) by (intros ->; by apply Hkk; eapply list_elem_of_lookup_2).
      rewrite !decide_False by (intros Hx; apply Hkk; by eapply Hnb; eauto). done.
Qed.
