(* ===== verification/VfsSpec.v ===== *)
(** * Looking up files

    The walk along a path, permissions, and [vfs_lookup] of files that are in the tree. *)
From S2P Require Import Prelude FsTypes Strings StringsSpec Path PathSpec Inode Vfs VfsTree.

(** ** Walking along names *)

Definition kids_of (kids : gmap loc (list loc)) (d : loc) : list loc := default [] (kids !! d).
(** The entry that [names] lead to from [dir]. *)
Fixpoint entry_at (s : vfs) (kids : gmap loc (list loc)) (dir : loc) (names : list name) : option loc :=
  match names with
  | [] => Some dir
  | nm :: names => find_kid s (kids_of kids dir) nm ≫= λ k, entry_at s kids k names
  end.
Lemma entry_at_app s kids dir l1 l2 : entry_at s kids dir (l1 ++ l2) = entry_at s kids dir l1 ≫= λ d, entry_at s kids d l2.
Proof. revert dir. induction l1 as [|nm l1 IH]; intros dir; simpl; [done|]. destruct (find_kid _ _ _); simpl; [apply IH|done]. Qed.
Lemma find_kid_in s ks nm k : find_kid s ks nm = Some k → k ∈ ks ∧ ∃ v, dents s !! k = Some v ∧ d_name v = nm.
Proof.
  induction ks as [|k' ks IH]; simpl; [done|]. case_decide as E; [intros [= ->]|intros [? ?]%IH; split; [by right|done]].
  split; [left|]. apply fmap_Some in E as (v & ? & ->). by exists v.
Qed.
Lemma entry_at_known s kids dir names k : tree s kids → is_Some (kids !! dir) → entry_at s kids dir names = Some k → is_Some (kids !! k).
Proof.
  intros Ht. revert dir. induction names as [|nm names IH]; intros dir Hd; simpl; [by intros [= ->]|].
  intros (k' & Hk & Hr)%bind_Some. eapply IH; [|exact Hr]. apply find_kid_in in Hk as (_ & v & Hv & _). by eapply tree_kids.
Qed.

(** What a walk finds: the entry of the whole path and its directory, or the last
    directory on the way, which has no entry of the next name. *)
Definition found (s : vfs) (kids : gmap loc (list loc)) (dir : loc) (names : list name) (k d : loc) (nm : name) : Prop :=
  ∃ pre, names = pre ++ [nm] ∧ entry_at s kids dir pre = Some d ∧ find_kid s (kids_of kids d) nm = Some k.
Definition missing (s : vfs) (kids : gmap loc (list loc)) (dir : loc) (names : list name) (d : loc) (nm : name) (post : list name) : Prop :=
  ∃ pre, names = pre ++ nm :: post ∧ entry_at s kids dir pre = Some d ∧ find_kid s (kids_of kids d) nm = None.

Lemma wp_walk_loop s kids dir names (Q : Z * (ptr * ptr * list name) → vfs → Prop) : tree s kids → is_Some (kids !! dir) → names ≠ [] →
  (∀ k d nm, found s kids dir names k d nm → Q (0, (Some k, Some d, [nm])) s) →
  (∀ d nm post, missing s kids dir names d nm post → Q (- ENOENT, (NULL, Some d, nm :: post)) s) →
  wp (walk_loop names (Some dir)) Q s.
Proof.
  intros Ht. revert dir. induction names as [|nm names IH]; intros dir [ks Hd] Hne HF HM; [done|]. simpl.
  destruct (tree_dent _ _ _ _ Ht Hd) as [v Hv]. rewrite <- (mapd_same s). eapply wp_peek; [done|by eapply tr_free|].
  apply wp_bind, wp_turns. apply wp_bind. rewrite same_eq. cbn [lk d_children]. rewrite (tr_head _ _ Ht _ _ _ Hd Hv).
  assert (Hko : kids_of kids dir = ks) by (unfold kids_of; by rewrite Hd).
  apply wp_find_loop; [done|by eapply tree_row|by eapply tree_length|]. rewrite mapd_same.
  destruct (find_kid s ks nm) as [k|] eqn:Ek.
  - destruct (decide (names = [])) as [->|Hn].
    + apply wp_ret. apply HF. exists []. by rewrite Hko.
    + destruct (find_kid_in _ _ _ _ Ek) as (_ & vk & Hvk & _). apply IH; [by eapply tree_kids|done| |].
      * intros k' d nm' (pre & -> & H1 & H2). apply HF. exists (nm :: pre). split; [done|]. split; [|done]. simpl. by rewrite Hko, Ek.
      * intros d nm' post (pre & -> & H1 & H2). apply HM. exists (nm :: pre). split; [done|]. split; [|done]. simpl. by rewrite Hko, Ek.
  - apply wp_ret. apply HM. exists []. by rewrite Hko.
Qed.

(** ** Permissions *)

(** Who the user is to the file: 6 for its owner, 3 for its group, 0 for others; and the
    bits of the mode a user needs. *)
Definition shift_of (v : inode) (u : uio) : Z :=
  if decide (i_uid v = u_uid u) then 6 else if decide (i_gid v = u_gid u) then 3 else 0.
Definition may (v : inode) (u : uio) (bit : Z) : bool := Z.testbit (i_mask v) (shift_of v u + bit).
Definition allowed (v : inode) (u : uio) (oflags : Z) : Prop :=
  u_uid u = 0 ∨
  (Z.land oflags O_ACCMODE ≠ O_WRONLY → may v u 2 = true) ∧
  (Z.land oflags O_ACCMODE = O_WRONLY ∨ Z.land oflags O_ACCMODE = O_RDWR → may v u 1 = true) ∧
  (Z.testbit oflags 11 = true → may v u 0 = true).
#[global] Instance allowed_dec v u oflags : Decision (allowed v u oflags) := _.

Lemma any_bit a n : 0 ≤ n → any a (2 ^ n) = Z.testbit a n.
Proof.
  intros Hn. unfold any. apply eq_bool_prop_intro. rewrite bool_decide_spec, Is_true_true. split.
  - intros Hz. destruct (Z.testbit a n) eqn:E; [done|]. exfalso. apply Hz. apply Z.bits_inj_0. intros m. rewrite Z.land_spec, Z.pow2_bits_eqb by done.
    destruct (Z.eqb_spec n m) as [<-|]; [by rewrite E|by rewrite andb_false_r].
  - intros E Hz. assert (Z.testbit (Z.land a (2 ^ n)) n = false) as Hb by (rewrite Hz; apply Z.bits_0).
    rewrite Z.land_spec, Z.pow2_bits_true, E in Hb by done. done.
Qed.
Lemma class_bit_may v u b : 0 ≤ b ≤ 2 → class_bit v u (2 ^ (6 + b)) (2 ^ (3 + b)) (2 ^ (0 + b)) = may v u b.
Proof.
  intros. unfold class_bit, may, shift_of. repeat case_bool_decide; repeat case_decide; try congruence; apply any_bit; lia.
Qed.
Lemma wp_iperm s ip v u oflags (Q : Z → vfs → Prop) : inos s !! ip = Some v →
  Q (if decide (allowed v u oflags) then 0 else - EACCES) s → wp (iperm (Some ip) (Some u) oflags) Q s.
Proof.
  intros Hv HQ. unfold iperm. case_bool_decide as Hr; [apply wp_ret; rewrite decide_True in HQ by (by left); done|].
  apply wp_bind. eapply wp_rd; [exact Hv|].
  change (class_bit v u S_IRUSR S_IRGRP S_IROTH) with (class_bit v u (2 ^ (6 + 2)) (2 ^ (3 + 2)) (2 ^ (0 + 2))).
  change (class_bit v u S_IWUSR S_IWGRP S_IWOTH) with (class_bit v u (2 ^ (6 + 1)) (2 ^ (3 + 1)) (2 ^ (0 + 1))).
  change (class_bit v u S_IXUSR S_IXGRP S_IXOTH) with (class_bit v u (2 ^ (6 + 0)) (2 ^ (3 + 0)) (2 ^ (0 + 0))).
  change O_EXCL with (2 ^ 11). rewrite !class_bit_may, any_bit by lia. set (acc := Z.land oflags O_ACCMODE) in *.
  assert (Hn : ∀ P, ¬ P → (allowed v u oflags → P) → Q (- EACCES) s) by (intros P Hp Ha; by rewrite decide_False in HQ by tauto).
  unfold allowed in *. fold acc in HQ, Hn. destruct (bool_decide (acc = O_RDONLY ∨ acc ≠ O_WRONLY) && negb (may v u 2)) eqn:E1.
  { apply wp_ret. apply andb_true_iff in E1 as [E1%bool_decide_eq_true E2%negb_true_iff]. apply (Hn (may v u 2 = true)); [congruence|].
    intros [?|(H & _ & _)]; [done|]. apply H. destruct E1 as [E1|?]; [|done]. intros E3. by assert (O_RDONLY = O_WRONLY) by congruence. }
  destruct (bool_decide (acc = O_WRONLY ∨ acc = O_RDWR) && negb (may v u 1)) eqn:E2.
  { apply wp_ret. apply andb_true_iff in E2 as [E2%bool_decide_eq_true E3%negb_true_iff]. apply (Hn (may v u 1 = true)); [congruence|]. tauto. }
  destruct (Z.testbit oflags 11 && negb (may v u 0)) eqn:E3.
  { apply wp_ret. apply andb_true_iff in E3 as [E3 E4%negb_true_iff]. apply (Hn (may v u 0 = true)); [congruence|]. tauto. }
  apply wp_ret. rewrite decide_True in HQ; [done|]. right. apply andb_false_iff in E1, E2, E3.
  rewrite !bool_decide_eq_false, !negb_false_iff in *. split_and!; intros; destruct E1, E2, E3; try tauto; congruence.
Qed.

(** C29: [iperm] grants access exactly to the superuser and to a user who has, as owner,
    member of the group or other, the read bit unless the file is opened for writing
    only, the write bit if it is opened for writing, and the execute bit if [O_EXCL] is
    given; everyone else gets -EACCES, and nothing changes. *)
Theorem iperm_correct s ip v u oflags : inos s !! ip = Some v →
  iperm (Some ip) (Some u) oflags s = Ok (if decide (allowed v u oflags) then 0 else - EACCES, s).
Proof.
  intros Hv. assert (wp (iperm (Some ip) (Some u) oflags) (λ r s', r = (if decide (allowed v u oflags) then 0 else - EACCES) ∧ s' = s) s)
    as (? & ? & -> & -> & ->)%wp_exec by (by eapply wp_iperm). done.
Qed.

(** ** Paths in the tree *)

(** A kernel with memory for strings, names, entries and inodes. *)
Class Memory `{!Kalloc inode, !Kalloc dentry, !SmallAlloc, !PathAlloc} : Prop := {
  mem_small : ∀ s, small_ok s = true;
  mem_strings : ∀ s, @Plenty (string_alloc s);
  mem_dent : ∀ h : gmap loc dentry, is_Some (kmalloc_at h);
  mem_ino : ∀ h : gmap loc inode, is_Some (kmalloc_at h);
}.

Section lookup.
Context `{!Kalloc inode, !Kalloc dentry, !SmallAlloc, !Filesystems} {PA : PathAlloc} {HM : Memory}.

Lemma wp_get_mountpoint s kids root names (Q : Z * option path → vfs → Prop) : tree s kids → droot s = Some root → is_Some (kids !! root) → names ≠ [] →
  (∀ k d nm, found s kids root names k d nm → Q (0, Some (MkPath (Some k) (Some d) (Some [nm]))) s) →
  (∀ d nm post, missing s kids root names d nm post → Q (- ENOENT, Some (MkPath NULL (Some d) (Some (nm :: post)))) s) →
  wp (vfs_get_mountpoint names) Q s.
Proof using HM.
  intros Ht Hr Hk Hne HF HMi. unfold vfs_get_mountpoint. apply wp_bind, wp_gets. rewrite Hr. apply wp_bind.
  eapply wp_walk_loop; [done..| |].
  - intros k d nm Hf. apply wp_bind, wp_gets. rewrite mem_small. simpl. rewrite decide_False by done. by apply wp_ret, HF.
  - intros d nm post Hm. apply wp_bind, wp_gets. rewrite mem_small. simpl. rewrite decide_False by done. by apply wp_ret, HMi.
Qed.
Lemma found_entry s kids root names k d nm : found s kids root names k d nm → entry_at s kids root names = Some k.
Proof using Type. intros (pre & -> & H1 & H2). rewrite entry_at_app, H1. simpl. by rewrite H2. Qed.
Lemma missing_entry s kids root names d nm post : missing s kids root names d nm post → entry_at s kids root names = None.
Proof using Type. intros (pre & -> & H1 & H2). rewrite entry_at_app, H1. simpl. by rewrite H2. Qed.

(** [vfs_get_mountpoint] walks the tree along the names of a path.  It finds the entry
    the path leads to, with the directory it is in; or, with -ENOENT, the last directory
    on the way that is in the tree and the names from the first missing one on.  The
    tree and all locks are as before. *)
Theorem vfs_get_mountpoint_correct s kids root names : tree s kids → droot s = Some root → is_Some (kids !! root) → names ≠ [] →
  match entry_at s kids root names with
  | Some k => ∃ d nm, found s kids root names k d nm ∧
      vfs_get_mountpoint names s = Ok ((0, Some (MkPath (Some k) (Some d) (Some [nm]))), s)
  | None => ∃ d nm post, missing s kids root names d nm post ∧
      vfs_get_mountpoint names s = Ok ((- ENOENT, Some (MkPath NULL (Some d) (Some (nm :: post)))), s)
  end.
Proof using HM.
  intros Ht Hr Hk Hne.
  assert (wp (vfs_get_mountpoint names) (λ r s', s' = s ∧
    ((∃ k d nm, found s kids root names k d nm ∧ r = (0, Some (MkPath (Some k) (Some d) (Some [nm])))) ∨
     (∃ d nm post, missing s kids root names d nm post ∧ r = (- ENOENT, Some (MkPath NULL (Some d) (Some (nm :: post))))))) s)
    as (r & ? & -> & -> & Hc)%wp_exec.
  { eapply wp_get_mountpoint; [done..| |]; eauto 10. }
  destruct Hc as [(k & d & nm & Hf & ->)|(d & nm & post & Hm & ->)].
  - rewrite (found_entry _ _ _ _ _ _ _ Hf). by exists d, nm.
  - rewrite (missing_entry _ _ _ _ _ _ _ Hm). by exists d, nm, post.
Qed.

(** ** Looking up what is in the tree *)

Definition ref_by (n : Z) (k : loc) : loc → dentry → dentry := fset k (λ v, {| v with d_ref := i32 (d_ref v + n) |}) same.
Definition iref_by (n : Z) (ip : loc) (s : vfs) : vfs := {| s with inos := alter (λ v, {| v with i_refs := i32 (i_refs v + n) |}) ip (inos s) |}.

Lemma wp_dentry_dup s k v (Q : Z → vfs → Prop) : dents s !! k = Some v → d_lock v = false → Q 0 (mapd (ref_by 1 k) s) → wp (dentry_dup (Some k)) Q s.
Proof using Type.
  intros Hv Hl HQ. rewrite <- (mapd_same s). unfold dentry_dup. repeat dstep. erewrite mapd_ext; [exact HQ|]. intros q w Hq. unfold ref_by.
  destruct (decide (q = k)) as [->|]; simplify_eq; dentry_cases.
Qed.
Lemma wp_iincrement s ip v (Q : Z → vfs → Prop) : inos s !! ip = Some v → i_lock v = false → Q 0 (iref_by 1 ip s) → wp (iincrement (Some ip)) Q s.
Proof using Type.
  intros Hv Hl HQ. unfold iincrement, ilock, iunlock, rdi, updi. repeat apply wp_bind. eapply wp_rd; [exact Hv|]. rewrite Hl.
  apply wp_upd; [by exists v|]. apply wp_bind. apply wp_upd; [simpl; by rewrite lookup_alter_is_Some; exists v|]. simpl. apply wp_bind.
  apply wp_bind. eapply wp_rd; [simpl; by rewrite !lookup_alter_eq, Hv|]. simpl. apply wp_upd; [simpl; rewrite !lookup_alter_is_Some; by exists v|].
  apply wp_ret. simpl. unfold iref_by in HQ. replace (alter _ ip (alter _ ip (alter _ ip (inos s)))) with
    (alter (λ v, {| v with i_refs := i32 (i_refs v + 1) |}) ip (inos s)); [done|].
  apply map_eq. intros q. destruct (decide (q = ip)) as [->|]; [rewrite !lookup_alter_eq, Hv|by rewrite !lookup_alter_ne].
  simpl. destruct v. simpl in *. by subst.
Qed.
(** A close that is not the last one. *)
Lemma wp_dentry_close s k v (Q : Z → vfs → Prop) : dents s !! k = Some v → i32 (d_ref v - 1) ≠ 0 → Q 0 (mapd (ref_by (-1) k) s) → wp (dentry_close (Some k)) Q s.
Proof using Type.
  intros Hv Hr HQ. rewrite <- (mapd_same s). unfold dentry_close. do 4 dstep. fset_simp. rewrite bool_decide_false by done. repeat dstep.
  erewrite mapd_ext; [exact HQ|]. intros q w Hq. unfold ref_by. destruct (decide (q = k)) as [->|]; simplify_eq; dentry_cases.
Qed.

(** The string code on a memory with the strings of a call. *)
Lemma c_bytes_id w : Forall (λ c, 0 < c < 256) w → c_bytes w = w.
Proof using Type.
  induction 1 as [|c w Hc Hw IH]; simpl; [done|]. by rewrite Z.mod_small, decide_False, IH by lia.
Qed.
Lemma c_bytes_chars w : Forall (λ c, 0 < c < 256) (c_bytes w).
Proof using Type.
  induction w as [|b w IH]; simpl; [constructor|]. case_decide; [constructor|]. constructor; [|done].
  pose proof (Z.mod_pos_bound b 256). lia.
Qed.
Lemma c_bytes_cut w l : Forall (λ c, 0 < c < 256) w → c_bytes (w ++ 0 :: l) = w.
Proof using Type. induction 1 as [|c w Hc Hw IH]; [done|]. simpl. by rewrite Z.mod_small, decide_False, IH by lia. Qed.
Lemma string_of_at m b w : string_at m b 0 w → string_of m (b, 0) = w.
Proof using Type.
  intros (l & Hb & [Hi He Hc]). unfold string_of. simpl. rewrite Hb, drop_0. rewrite <- (take_drop_middle l (length w) 0 He).
  assert (take (length w) l = w) as ->; [|by apply c_bytes_cut]. apply list_eq. intros j.
  destruct (decide (j < length w)%nat) as [Hj|Hj].
  - rewrite lookup_take_lt by done. destruct (lookup_lt_is_Some_2 w j Hj) as [c Hw]. rewrite Hw. apply (Hi j c Hw).
  - by rewrite lookup_take_ge, (lookup_ge_None_2 w j) by lia.
Qed.
Lemma path_mem_literals fn u : literals 1%positive 2%positive 3%positive 0 0 0 (path_mem fn u).
Proof using Type.
  split; [exists ([47] ++ [0])|exists ([46] ++ [0])|exists ([46; 46] ++ [0])]; (split; [reflexivity|]; apply cstr_here; by repeat constructor).
Qed.
Lemma path_mem_strings fn u : string_at (path_mem fn u) 4%positive 0 (c_bytes fn) ∧ string_at (path_mem fn u) 5%positive 0 (c_bytes u).
Proof using Type.
  split; [exists (c_bytes fn ++ [0])|exists (c_bytes u ++ [0])]; (split; [reflexivity|]; apply cstr_here, c_bytes_chars).
Qed.
(** A valid path is the string it is, and so is the directory it starts from. *)
Lemma valid_c_bytes fn u : valid_path fn ∧ valid_path (base_dir fn u) →
  c_bytes fn = fn ∧ base_dir fn (c_bytes u) = base_dir fn u.
Proof using Type.
  assert (∀ w, valid_path w → c_bytes w = w) as Hid.
  { intros w [_ Hw]. apply c_bytes_id. eapply Forall_impl; [exact Hw|]. by intros c [? _]. }
  intros [Hf Hu]. split; [by apply Hid|]. unfold base_dir in *. case_decide; [done|by apply Hid].
Qed.
Lemma parse_path_ok s fn u abs : parse_result fn u = Ok (inr abs) → parse_path fn u s = Ok (inr abs, s).
Proof using HM.
  unfold parse_result. case_decide as Hv; [|done]. case_decide as Hn; [done|]. case_decide as Hf; [|done]. intros [= <-].
  destruct (valid_c_bytes fn u Hv) as [Ef Eu]. destruct (path_mem_strings fn u) as [H4 H5]. pose proof (mem_strings s) as HP.
  assert (names_from fn (c_bytes u) = names_from fn u) as En by (unfold names_from; by rewrite Eu).
  rewrite Ef in H4. unfold parse_path, run_strings, mbind, M_bind, gets.
  assert (wp (@vfs_parse_path (string_alloc s) (1%positive +> 0) (2%positive +> 0) (3%positive +> 0) (Some (4%positive +> 0)) (Some (5%positive +> 0)))
    (λ a m, ∃ p l, cstr l 0 (path_of (normalize (names_from fn u))) ∧ a = inr (p +> 0) ∧ m = put p l (path_mem fn u)) (path_mem fn u))
    as (a & m & E & p & l & Hl & -> & ->)%wp_exec.
  { eapply (wp_vfs_parse_path (HP := HP)); [apply path_mem_literals|exact H4|by exists 5%positive, 0%nat|by rewrite Eu|by rewrite En|].
    unfold parse_post. rewrite En, decide_True by done. intros p l _ ?. by exists p, l. }
  match type of E with _ = ?r => replace (vfs_parse_path _ _ _ _ _ _) with r by (symmetry; exact E) end. simpl. rewrite (string_of_at _ _ (path_of (normalize (names_from fn u)))); [done|]. exists l. split; [apply lookup_put|done].
Qed.
Lemma path_tokens_ok s v u names : canonical_result v u = Ok (inr names) → path_tokens v u s = Ok (inr names, s).
Proof using HM.
  intros Hc. assert (canonical_result (c_bytes v) (c_bytes u) = Ok (inr names)) as Hc'.
  { revert Hc. unfold canonical_result. case_decide as Hv; [|done]. destruct (valid_c_bytes v u Hv) as [-> Eu].
    unfold names_from. by rewrite Eu, (decide_True _ _ Hv). }
  destruct (path_mem_strings v u) as [H4 H5]. pose proof (mem_strings s) as HP.
  pose proof (@vfs_canonicalize_path_correct _ HP _ _ _ _ _ _ _ _ _ _ _ _ _ (path_mem_literals v u) H4 H5) as Hr. rewrite Hc' in Hr.
  destruct Hr as (toks & m & Ht & _ & Hr). unfold path_tokens, run_strings, mbind, M_bind, gets.
  match type of Hr with _ = ?r => replace (vfs_canonicalize_path _ _ _ _ _ _) with r by (symmetry; exact Hr) end. simpl. do 3 f_equal. clear -Ht.
  induction Ht as [|[b i] w toks ws [Hi Hw] _ IH]; simpl in *; [done|]. subst i. by rewrite (string_of_at _ _ _ Hw), IH.
Qed.

Lemma close_keeps r : i32 r = r → r ≠ 1 → i32 (r - 1) ≠ 0.
Proof using Type.
  intros Hr Hn. assert (- 2 ^ 31 ≤ r < 2 ^ 31) by (rewrite <- Hr; unfold i32; pose proof (Z.mod_pos_bound (r + 2 ^ 31) (2 ^ 32)); lia).
  destruct (decide (r = - 2 ^ 31)) as [->|]; [done|]. rewrite i32_small; lia.
Qed.

(** The file [fn] of a user with credentials [u], found as entry [k] with inode [ip]. *)
Record in_tree (s : vfs) (kids : gmap loc (list loc)) (fn : name) (u : uio) (k ip : loc) (v : dentry) (iv : inode) : Prop := InTree {
  it_tree : tree s kids;
  it_root : ∃ root, droot s = Some root ∧ is_Some (kids !! root) ∧
    entry_at s kids root (normalize (names_from fn (default [47] (u_cwd u)))) = Some k;
  it_path : ∃ abs, parse_result fn (default [47] (u_cwd u)) = Ok (inr abs);
  it_name : normalize (names_from fn (default [47] (u_cwd u))) ≠ [];
  it_dent : dents s !! k = Some v;
  it_int : i32 (d_ref v) = d_ref v;
  it_inode : d_inode v = Some ip;
  it_ino : inos s !! ip = Some iv;
  it_free : i_lock iv = false;
}.
Lemma wp_vfs_lookup_found s kids fn u k ip v iv oflags mode iref dref (Q : Z + (ptr * ptr) → vfs → Prop) :
  in_tree s kids fn u k ip v iv → (iref || dref)%bool = true →
  (allowed iv u oflags → Q (inr (Some ip, Some k))
    (mapd (if dref then ref_by 1 k else same) (if iref then iref_by 1 ip s else s))) →
  (¬ allowed iv u oflags → wp (dentry_close (Some k)) (λ _ s', Q (inl (- EACCES)) s') s) →
  wp (vfs_lookup (Some fn) (Some u) oflags mode iref dref) Q s.
Proof using HM.
  intros [Ht (root & Hroot & Hk & He) (abs & Hp) Hne Hv _ Hip Hiv Hil] Hflags HQ1 HQ2. unfold vfs_lookup.
  assert (negb dref && negb iref = false) as -> by (by destruct iref, dref). simpl. apply wp_bind. eapply wp_eq; [by apply parse_path_ok|].
  apply wp_bind. eapply wp_eq; [by eapply path_tokens_ok, canonical_parse|]. apply wp_bind. eapply wp_get_mountpoint; [done..| |].
  2:{ intros d nm post Hm%missing_entry. congruence. }
  intros k' d nm Hf%found_entry. simplify_eq. simpl. apply wp_bind. apply wp_bind. eapply wp_rd; [exact Hv|]. rewrite Hip. apply wp_bind.
  eapply wp_iperm; [done|]. destruct (decide (allowed iv u oflags)) as [Ha|Ha].
  - rewrite decide_False by tauto. apply wp_ret. specialize (HQ1 Ha). destruct iref.
    + apply wp_bind, wp_bind. eapply wp_iincrement; [done..|]. apply wp_ret, wp_bind.
      destruct dref; [|apply wp_ret, wp_ret; by rewrite mapd_same in HQ1].
      apply wp_bind. eapply wp_dentry_dup; [done|by eapply tr_free|]. by apply wp_ret, wp_ret.
    + apply wp_bind, wp_ret, wp_bind. destruct dref; [|done]. apply wp_bind.
      eapply wp_dentry_dup; [done|by eapply tr_free|]. by apply wp_ret, wp_ret.
  - rewrite decide_True by done. apply wp_ret, wp_bind, wp_bind. eapply wp_mono; [by apply HQ2|]. intros r s' HQ. by apply wp_ret, wp_ret.
Qed.

(** C19: [vfs_lookup] of a file that is in the tree, with a path that is not the root: a
    user who is allowed to open it gets its inode and its entry, with one more reference
    on each (a count is an [int]) and nothing else changed.  A user who is not gets
    -EACCES; the entry then has one reference less than before.  The kernel has memory
    ([Memory]; without it the code for paths returns -ENOMEM or faults), and the entry
    another reference (a denied lookup frees it with its last one). *)
Theorem vfs_lookup_found s kids fn u k ip v iv oflags mode : in_tree s kids fn u k ip v iv → d_ref v ≠ 1 →
  vfs_lookup (Some fn) (Some u) oflags mode true true s =
  if decide (allowed iv u oflags) then Ok (inr (Some ip, Some k), mapd (ref_by 1 k) (iref_by 1 ip s))
  else Ok (inl (- EACCES), mapd (ref_by (-1) k) s).
Proof using HM.
  intros Hi Hr. assert (wp (vfs_lookup (Some fn) (Some u) oflags mode true true) (λ r s', Ok (r, s') =
    if decide (allowed iv u oflags) then Ok (inr (Some ip, Some k), mapd (ref_by 1 k) (iref_by 1 ip s))
    else Ok (inl (- EACCES), mapd (ref_by (-1) k) s)) s) as (r & s' & -> & Hx)%wp_exec; [|done].
  eapply wp_vfs_lookup_found; [done..| |]; intros Ha; [by rewrite decide_True|].
  eapply wp_dentry_close; [by destruct Hi|eapply close_keeps; [by destruct Hi|done]|]. by rewrite decide_False.
Qed.

(** The last close of the first child of a directory. *)
Lemma wp_dentry_close_last s k v (Q : Z → vfs → Prop) : dents s !! k = Some v → d_ref v = 1 → d_prev v = NULL →
  (∀ q w, dents s !! q = Some w → d_lock w = false) → (∀ q, d_next v = Some q → q ≠ k ∧ is_Some (dents s !! q)) →
  (∀ s', inos s' = inos s → wp (iclose (d_inode v)) (λ _ s'', s'' = s') s') →
  (∀ s', dents s' !! k = None → droot s' = droot s →
    (∀ q w, q ≠ k → dents s !! q = Some w → ∃ w', dents s' !! q = Some w' ∧ d_children w' = d_children w ∧ d_lock w' = false) → Q 0 s') →
  wp (dentry_close (Some k)) Q s.
Proof using Type.
  intros Hv Hr Hpr Hl Hn Hc HQ. pose proof (Hl _ _ Hv) as Hlk. rewrite <- (mapd_same s). unfold dentry_close. do 4 dstep. fset_simp.
  rewrite bool_decide_true by (by rewrite Hr). do 2 dstep. eapply wp_mono; [by apply Hc|]. intros _ s' ->.
  dstep. unfold dentry_free. do 4 dstep. fset_simp. rewrite Hpr. do 4 dstep. fset_simp. dstep.
  apply wp_touch; [|by intros []; simpl; intros ->|].
  { intros q Hq. destruct (Hn q Hq) as (? & w & Hw). exists w. split; [done|]. fset_simp. by eapply Hl. }
  dstep. eapply wp_dunlock; [done|unfold fset_opt; rewrite decide_False by (intros ?%Hn; tauto); by fset_simp|].
  set (f := fset k (lk false) _). dstep. apply wp_kfree; [change (is_Some (dents (mapd f s) !! k)); rewrite mapd_lookup, Hv; by eexists|].
  apply wp_ret, wp_ret, wp_ret. apply HQ; [apply lookup_delete_eq|done|]. intros q w Hq Hw. exists (f q w).
  split; [change (delete k (dents (mapd f s)) !! q = Some (f q w)); by rewrite lookup_delete_ne, mapd_lookup, Hw by done|].
  unfold f. fset_simp. unfold fset_opt. case_decide; fset_simp; (split; [done|by eapply Hl]).
Qed.

(** ** Lookups that are denied *)

Fixpoint lookups (n : nat) (fn : name) (u : uio) (oflags mode : Z) : M vfs unit :=
  match n with O => mret tt | S n => vfs_lookup (Some fn) (Some u) oflags mode true true;; lookups n fn u oflags mode end.

(** Changes of reference counts do not move anything. *)
Lemma run_fault {S A B} (m : M S A) (f : A → M S B) s : m s = Fault → (m ≫= f) s = Fault.
Proof using Type. intros E. unfold mbind, M_bind. by rewrite E. Qed.
Lemma find_kid_cons s k ks nm : find_kid s (k :: ks) nm = if decide (d_name <$> dents s !! k = Some nm) then Some k else find_kid s ks nm.
Proof using Type. done. Qed.
Lemma find_kid_mapd s f ks nm : keeps_names f → find_kid (mapd f s) ks nm = find_kid s ks nm.
Proof using Type.
  intros Hf. induction ks as [|k ks IH]; [done|]. rewrite !find_kid_cons, IH.
  assert (d_name <$> dents (mapd f s) !! k = d_name <$> dents s !! k) as E; [|by rewrite E].
  rewrite mapd_lookup. destruct (dents s !! k) as [v|]; simpl; [by rewrite Hf|done].
Qed.
Lemma entry_at_mapd s f kids dir names : keeps_names f → entry_at (mapd f s) kids dir names = entry_at s kids dir names.
Proof using Type.
  intros Hf. revert dir. induction names as [|nm names IH]; intros dir; [done|].
  change (find_kid (mapd f s) (kids_of kids dir) nm ≫= (λ k, entry_at (mapd f s) kids k names) = entry_at s kids dir (nm :: names)).
  rewrite find_kid_mapd by done. simpl. destruct (find_kid s _ nm) as [k|]; [apply (IH k)|done].
Qed.
Lemma ref_by_fields n k q v : let w := ref_by n k q v in d_name w = d_name v ∧ d_inode w = d_inode v ∧ d_prev w = d_prev v ∧
  d_next w = d_next v ∧ d_parent w = d_parent v ∧ d_children w = d_children v ∧ d_lock w = d_lock v.
Proof using Type. unfold ref_by, fset. by case_decide. Qed.
Lemma tree_ref_by n k s kids : tree s kids → tree (mapd (ref_by n k) s) kids.
Proof using Type.
  intros [H1 H2 H3 H4 H5]. split; [by rewrite mapd_dom| | |done|].
  - intros p w (v & Hv & ->)%mapd_inv. destruct (ref_by_fields n k p v) as (_ & _ & _ & _ & _ & _ & ->). by eapply H2.
  - intros p ks w Hp (v & Hv & ->)%mapd_inv. destruct (ref_by_fields n k p v) as (_ & _ & _ & _ & _ & -> & _). by eapply H3.
  - intros p ks i c Hp Hi. destruct (H5 p ks i c Hp Hi) as (v & Hv & ? & ? & ?). exists (ref_by n k c v). split; [by apply mapd_at|].
    by destruct (ref_by_fields n k c v) as (_ & _ & -> & -> & -> & _).
Qed.
Lemma in_tree_ref_by n s kids fn u k ip v iv : in_tree s kids fn u k ip v iv →
  in_tree (mapd (ref_by n k) s) kids fn u k ip {| v with d_ref := i32 (d_ref v + n) |} iv.
Proof using Type.
  intros [H1 (root & H2 & H3 & H4) H5 H6 H7 H7' H8 H9 H10]. split; try done; [by apply tree_ref_by| | |apply i32_idem].
  - exists root. split; [done|]. split; [done|]. rewrite entry_at_mapd; [done|]. intros q w. by destruct (ref_by_fields n k q w) as (-> & _).
  - erewrite mapd_at by done. unfold ref_by. by rewrite fset_eq.
Qed.

(** A directory that points to a freed entry. *)
Lemma lookup_dangling s root w k fn u oflags mode abs nm : droot s = Some root → dents s !! root = Some w → d_lock w = false →
  d_children w = Some k → dents s !! k = None → parse_result fn (default [47] (u_cwd u)) = Ok (inr abs) →
  normalize (names_from fn (default [47] (u_cwd u))) = [nm] → vfs_lookup (Some fn) (Some u) oflags mode true true s = Fault.
Proof using HM.
  intros Hroot Hw Hl Hch Hk Hp Hnm. unfold vfs_lookup. cbn [negb andb]. change (Some u ≫= u_cwd) with (u_cwd u). apply fault_bind. eapply wp_eq; [by apply parse_path_ok|]. apply fault_bind.
  eapply wp_eq; [eapply path_tokens_ok, canonical_parse; [exact Hp|by rewrite Hnm]|]. rewrite Hnm. apply run_fault. unfold vfs_get_mountpoint.
  apply fault_bind, wp_gets. rewrite Hroot. apply run_fault. cbn [walk_loop]. rewrite <- (mapd_same s).
  apply fault_bind. eapply wp_dlock; [done..|]. apply fault_bind. eapply wp_rdd; [done|]. apply fault_bind.
  eapply wp_dunlock; [done|by fset_simp|]. apply fault_bind, wp_turns. apply run_fault. fset_simp. rewrite Hch. cbn [find_loop].
  apply run_fault. unfold dlock. apply run_fault. unfold rdd, rd. cbn [mbind option_bind]. change (heap_of ?s) with (dents s).
  rewrite mapd_lookup, Hk. done.
Qed.
(** Closing the inode changes nothing. *)
Definition closes_quietly (ip : loc) (iv : inode) : Prop := ∀ s, inos s !! ip = Some iv → wp (iclose (Some ip)) (λ _ s', s' = s) s.
(** The lookup that takes the last reference. *)
Lemma lookup_frees s kids root ks fn u k ip v iv oflags mode : in_tree s kids fn u k ip v iv →
  ¬ allowed iv u oflags → d_ref v = 1 → droot s = Some root → kids !! root = Some (k :: ks) →
  closes_quietly ip iv →
  wp (vfs_lookup (Some fn) (Some u) oflags mode true true) (λ _ s', droot s' = Some root ∧ dents s' !! k = None ∧
    ∃ w, dents s' !! root = Some w ∧ d_lock w = false ∧ d_children w = Some k) s.
Proof using HM.
  intros Hi Hna Hr Hroot Hks Hcl. pose proof Hi as [Ht _ _ _ Hv _ Hip Hino _]. destruct (tr_nodup _ _ Ht _ _ Hks) as [Hnd Hself].
  pose proof (tr_kid _ _ Ht root (k :: ks) 0 k Hks eq_refl) as (v' & Hv' & _ & Hpr & Hnx). simplify_eq.
  eapply wp_vfs_lookup_found; [done..|]. intros _.
  eapply wp_dentry_close_last; [done|done|done|by intros; eapply tr_free| |intros s' E; rewrite Hip; apply Hcl; by rewrite E|].
  { intros q Hq. rewrite Hnx in Hq. destruct (tr_kid _ _ Ht root (k :: ks) 1 q Hks Hq) as (w & Hw & _). split; [|by eexists].
    intros ->. apply NoDup_cons in Hnd as [Hnd _]. apply Hnd. simpl in Hq. by eapply list_elem_of_lookup_2. }
  intros s' Hk Hd Hs'. split; [congruence|]. split; [done|]. destruct (tree_dent _ _ _ _ Ht Hks) as [vr Hvr].
  destruct (Hs' root vr) as (w & Hw & Hch & Hlw); [intros ->; apply Hself; left|done|].
  exists w. split; [done|]. split; [done|]. by rewrite Hch, (tr_head _ _ Ht _ _ _ Hks Hvr).
Qed.

(** C36: a user who may not open a file in the root directory can still free its entry:
    every denied lookup takes one reference away, the last one frees the entry while
    the directory still points to it, and the next lookup reads freed memory.  (The file
    is the first entry of the directory; closing its inode does nothing, as in tmpfs.) *)
Theorem vfs_lookup_denied_faults s kids root ks fn u k ip v iv oflags mode n nm : in_tree s kids fn u k ip v iv →
  ¬ allowed iv u oflags → d_ref v = Z.of_nat (S n) → droot s = Some root → kids !! root = Some (k :: ks) →
  normalize (names_from fn (default [47] (u_cwd u))) = [nm] → closes_quietly ip iv →
  (lookups (S n) fn u oflags mode;; vfs_lookup (Some fn) (Some u) oflags mode true true) s = Fault.
Proof using HM.
  intros Hi Hna Hr Hroot Hks Hnm Hcl. revert s v Hi Hr Hroot. induction n as [|n IH]; intros s v Hi Hr Hroot.
  - change (lookups 1 fn u oflags mode) with (vfs_lookup (Some fn) (Some u) oflags mode true true;; mret tt).
    apply fault_bind, wp_bind. eapply wp_mono; [by eapply lookup_frees|]. intros _ s' (H1 & H2 & w & H3 & H4 & H5). apply wp_ret.
    pose proof Hi as [_ _ (abs & Hp) _ _ _ _ _ _]. by eapply lookup_dangling.
  - assert (wp (vfs_lookup (Some fn) (Some u) oflags mode true true) (λ _ s', s' = mapd (ref_by (-1) k) s) s) as (r & s' & E & ->)%wp_exec.
    { eapply wp_vfs_lookup_found; [done..|]. intros _. eapply wp_dentry_close; [by destruct Hi|eapply close_keeps; [by destruct Hi|lia]|done]. }
    specialize (IH (mapd (ref_by (-1) k) s) _ (in_tree_ref_by (-1) _ _ _ _ _ _ _ _ Hi)). simpl in IH.
    change (lookups (S (S n)) fn u oflags mode) with (vfs_lookup (Some fn) (Some u) oflags mode true true;; lookups (S n) fn u oflags mode).
    unfold mbind, M_bind in *. rewrite E. apply IH; [|done].
    pose proof (it_int _ _ _ _ _ _ _ _ Hi) as Hint. rewrite Hr in Hint |- *.
    assert (Z.of_nat (S (S n)) < 2 ^ 31) by (rewrite <- Hint; unfold i32; pose proof (Z.mod_pos_bound (Z.of_nat (S (S n)) + 2 ^ 31) (2 ^ 32)); lia).
    rewrite i32_small; lia.
Qed.
End lookup.

(** ** Binding and unbinding *)

Inductive tree_op : Type := TBind (parent child : loc) | TUnbind (parent child : loc).
Definition run_tree_op (o : tree_op) : M vfs Z :=
  match o with TBind p c => vfs_dentry_bind (Some p) (Some c) | TUnbind p c => vfs_dentry_unbind (Some p) (Some c) end.
Fixpoint run_tree_ops (os : list tree_op) : M vfs (list Z) :=
  match os with [] => mret [] | o :: os => r ← run_tree_op o; rs ← run_tree_ops os; mret (r :: rs) end.
(** The same on lists of children. *)
Definition spec_tree_op (o : tree_op) (kids : gmap loc (list loc)) : Z * gmap loc (list loc) :=
  match o with
  | TBind p c => (0, <[p := kids_of kids p ++ [c]]> kids)
  | TUnbind p c => if decide (c ∈ kids_of kids p) then (0, <[p := filter (.≠ c) (kids_of kids p)]> kids) else (- ENOENT, kids)
  end.
Fixpoint spec_tree_ops (os : list tree_op) (kids : gmap loc (list loc)) : list Z * gmap loc (list loc) :=
  match os with
  | [] => ([], kids)
  | o :: os => let '(r, kids) := spec_tree_op o kids in let '(rs, kids) := spec_tree_ops os kids in (r :: rs, kids)
  end.
(** Only an entry that is nobody's child is bound, and not below itself. *)
Definition tree_op_ok (o : tree_op) (kids : gmap loc (list loc)) : Prop :=
  match o with
  | TBind p c => is_Some (kids !! p) ∧ is_Some (kids !! c) ∧ c ≠ p ∧ map_Forall (λ _ ks, c ∉ ks) kids
  | TUnbind p c => is_Some (kids !! p) ∧ is_Some (kids !! c)
  end.
Fixpoint tree_ops_ok (os : list tree_op) (kids : gmap loc (list loc)) : Prop :=
  match os with [] => True | o :: os => tree_op_ok o kids ∧ tree_ops_ok os (spec_tree_op o kids).2 end.
Definition have_inodes (s : vfs) : Prop := ∀ c v, dents s !! c = Some v → is_Some (d_inode v).

Lemma wp_run_tree_op s kids o : tree s kids → have_inodes s → tree_op_ok o kids →
  wp (run_tree_op o) (λ r s', r = (spec_tree_op o kids).1 ∧ tree s' (spec_tree_op o kids).2 ∧ have_inodes s') s.
Proof.
  intros Ht Hi Hok. assert (Hmap : ∀ f, (∀ q v, d_inode (f q v) = d_inode v) → have_inodes (mapd f s)).
  { intros f Hf c w (v & Hv & ->)%mapd_inv. rewrite Hf. by eapply Hi. }
  destruct o as [p c|p c]; simpl in *.
  - destruct Hok as ([ks Hp] & [kc Hc] & Hne & Hu). assert (Hko : kids_of kids p = ks) by (unfold kids_of; by rewrite Hp). rewrite Hko.
    destruct (tree_dent _ _ _ _ Ht Hc) as [vc Hvc]. destruct (Hi _ _ Hvc) as [ip Hip].
    eapply wp_vfs_dentry_bind; [done..|by eapply Hu|]. split; [done|]. split; [|by apply Hmap].
    apply tree_bound; [done|done|by exists vc|done|]. intros q l Hq. by eapply Hu.
  - destruct Hok as ([ks Hp] & [kc Hc]). assert (Hko : kids_of kids p = ks) by (unfold kids_of; by rewrite Hp). rewrite Hko.
    destruct (tree_dent _ _ _ _ Ht Hc) as [vc Hvc]. eapply wp_vfs_dentry_unbind; [done..|]. case_decide; [|done].
    split; [done|]. split; [by apply tree_unlinked|by apply Hmap].
Qed.
(** C8: any sequence of binds and unbinds of entries keeps the tree in order - every list of
    children linked both ways, with the right parent, no entry in two lists, all locks
    free - and does to it what appending to and filtering of lists of children do.  The
    callers have to see to what [vfs_dentry_bind] does not check: the child is in no list
    yet and is not the parent itself, and both are entries of the tree, which all have
    inodes ([tree_ops_ok], [have_inodes]). *)
Theorem dentry_tree_refines s kids os : tree s kids → have_inodes s → tree_ops_ok os kids →
  ∃ s', run_tree_ops os s = Ok ((spec_tree_ops os kids).1, s') ∧ tree s' (spec_tree_ops os kids).2.
Proof.
  revert s kids. induction os as [|o os IH]; intros s kids Ht Hi Hok; simpl; [by exists s|]. destruct Hok as [Ho Hok].
  destruct (proj1 (wp_exec _ _ _) (wp_run_tree_op s kids o Ht Hi Ho)) as (r & s1 & E & -> & Ht1 & Hi1).
  destruct (spec_tree_op o kids) as [r1 kids1]. simpl in *. destruct (IH s1 kids1 Ht1 Hi1 Hok) as (s' & E' & Ht').
  destruct (spec_tree_ops os kids1) as [rs kids2]. simpl in *. exists s'. split; [|done]. unfold mbind, M_bind. by rewrite E, E'.
Qed.

(** A check of the shape by evaluation. *)
Definition links (v : dentry) : ptr * ptr * ptr := (d_parent v, d_prev v, d_next v).
Definition tree_check (s : vfs) (kids : gmap loc (list loc)) : bool :=
  bool_decide (dom kids = dom (dents s)) &&
  bool_decide (map_Forall (λ _ v, d_lock v = false) (dents s)) &&
  bool_decide (map_Forall (λ p ks, d_children <$> dents s !! p = Some (head ks) ∧ NoDup ks ∧ p ∉ ks ∧
    Forall (λ ik, links <$> dents s !! ik.2 = Some (Some p, prev_of ks ik.1, ks !! S ik.1)) (zip (seq 0 (length ks)) ks)) kids).
Lemma tree_check_ok s kids : tree_check s kids = true → tree s kids.
Proof.
  unfold tree_check. rewrite !andb_true_iff, !bool_decide_eq_true. intros [[H1 H2] H3]. split; [done|done|..].
  - intros p ks v Hp Hv. destruct (H3 p ks Hp) as (Hc & _). rewrite Hv in Hc. by injection Hc.
  - intros p ks Hp. by destruct (H3 p ks Hp) as (_ & ? & ? & _).
  - intros p ks i k Hp Hi. destruct (H3 p ks Hp) as (_ & _ & _ & Hf). assert ((i, k) ∈ zip (seq 0 (length ks)) ks) as Hin.
    { apply list_elem_of_lookup. exists i. apply lookup_zip_Some. split; [|done]. apply lookup_seq. split; [done|by eapply lookup_lt_Some]. }
    eapply Forall_forall in Hin; [|exact Hf]. simpl in Hin. apply fmap_Some in Hin as (v & Hv & E). exists v. split; [done|]. by injection E.
Qed.

(** ** Witnesses *)

(** Root (1) with the directories "a" (2) and "b" (3), "a" with the file "f" (4), and an
    entry "g" (5) that is not bound. *)
Definition demo_ent (nm : name) (r : Z) (ip : loc) (pv nx par ch : ptr) : dentry := Dentry nm r (Some ip) pv nx par ch false.
Definition demo_ino (ty : itype) (mask : Z) (p : priv) (f : option positive) : inode := Inode 0 mask 7 7 2 ty NULL false p f.
Definition demo_vfs : vfs := Vfs
  (list_to_map [(1%positive, demo_ent [47] 3 11%positive NULL NULL NULL (Some 2%positive));
                (2%positive, demo_ent [97] 2 12%positive NULL (Some 3%positive) (Some 1%positive) (Some 4%positive));
                (3%positive, demo_ent [98] 2 13%positive (Some 2%positive) NULL (Some 1%positive) NULL);
                (4%positive, demo_ent [102] 2 14%positive NULL NULL (Some 2%positive) NULL);
                (5%positive, demo_ent [103] 1 15%positive NULL NULL NULL NULL)])
  (list_to_map [(11%positive, demo_ino FS_DIR 493 (PDir [(None, NULL); (Some [103], Some 15%positive)]) (Some 1%positive));
                (12%positive, demo_ino FS_DIR 448 PNull (Some 1%positive)); (13%positive, demo_ino FS_DIR 493 PNull (Some 1%positive));
                (14%positive, demo_ino FS_RGL 420 (PData [1; 2; 3]) (Some 1%positive)); (15%positive, demo_ino FS_RGL 384 PNull (Some 1%positive))])
  (Some 1%positive).
Definition demo_kids : gmap loc (list loc) := list_to_map
  [(1%positive, [2%positive; 3%positive]); (2%positive, [4%positive]); (3%positive, []); (4%positive, []); (5%positive, [])].
Lemma demo_tree : tree demo_vfs demo_kids.
Proof. apply tree_check_ok. vm_compute. reflexivity. Qed.
#[local] Instance demo_kino : Kalloc inode := kalloc_total inode.
#[local] Instance demo_kdent : Kalloc dentry := kalloc_total dentry.
#[local] Instance demo_small : SmallAlloc := {| small_ok _ := true |}.
#[local] Instance demo_strings : PathAlloc := {| string_alloc _ := bytes_total |}.
Lemma demo_memory : Memory.
Proof. split; [done|intros; apply bytes_total_plenty|by intros; eexists..]. Qed.
(** One file system, whose [close] does nothing. *)
#[local] Instance demo_fs : Filesystems := {|
  iops_of _ := Some (Iops None (Some (λ _, mret (- EINVAL))) None None None None None None None);
  kdev_open _ _ := mret 0; kdev_close _ := mret 0; kdev_ioctl _ _ _ := mret 0; kdev_lseek _ _ _ := mret 0;
|}.
Definition demo_user (uid : Z) : uio := Uio None uid 9.

Lemma iperm_correct_witness : iperm (Some 12%positive) (Some (demo_user 5)) O_RDONLY demo_vfs = Ok (- EACCES, demo_vfs).
Proof.
  etransitivity; [apply (iperm_correct demo_vfs 12%positive (demo_ino FS_DIR 448 PNull (Some 1%positive)) (demo_user 5) O_RDONLY)|]; reflexivity.
Defined.
Lemma vfs_get_mountpoint_correct_witness : vfs_get_mountpoint [[97]; [102]] demo_vfs =
    Ok ((0, Some (MkPath (Some 4%positive) (Some 2%positive) (Some [[102]]))), demo_vfs) ∧
  vfs_get_mountpoint [[97]; [120]; [121]] demo_vfs = Ok ((- ENOENT, Some (MkPath NULL (Some 2%positive) (Some [[120]; [121]]))), demo_vfs).
Proof.
  split.
  - destruct (@vfs_get_mountpoint_correct _ _ _ _ demo_memory demo_vfs demo_kids 1%positive [[97]; [102]] demo_tree) as (d & nm & _ & E);
      [reflexivity|by eexists|done|]. vm_compute in E |- *. injection E as <- <-. reflexivity.
  - destruct (@vfs_get_mountpoint_correct _ _ _ _ demo_memory demo_vfs demo_kids 1%positive [[97]; [120]; [121]] demo_tree) as (d & nm & post & _ & E);
      [reflexivity|by eexists|done|]. vm_compute in E |- *. injection E as <- <- <-. reflexivity.
Defined.
Lemma demo_in_tree : in_tree demo_vfs demo_kids [97] (demo_user 5) 2%positive 12%positive (demo_ent [97] 2 12%positive NULL (Some 3%positive) (Some 1%positive) (Some 4%positive))
  (demo_ino FS_DIR 448 PNull (Some 1%positive)).
Proof.
  split; [exact demo_tree| | |done|reflexivity..]; [exists 1%positive; split; [reflexivity|]; split; [by eexists|reflexivity]|eexists; vm_compute; reflexivity].
Qed.
Lemma vfs_lookup_found_witness : ∃ s', vfs_lookup (Some [97]) (Some (demo_user 5)) O_RDONLY 0 true true demo_vfs = Ok (inl (- EACCES), s') ∧
  d_ref <$> dents s' !! 2%positive = Some 1.
Proof.
  rewrite (@vfs_lookup_found _ _ _ _ _ demo_memory _ _ _ _ _ _ _ _ O_RDONLY 0 demo_in_tree) by (simpl; lia).
  rewrite decide_False by (apply (bool_decide_unpack _); vm_compute; exact I). eexists. split; [reflexivity|reflexivity].
Defined.
Lemma vfs_lookup_denied_faults_witness :
  (lookups 2 [97] (demo_user 5) O_RDONLY 0;; vfs_lookup (Some [97]) (Some (demo_user 5)) O_RDONLY 0 true true) demo_vfs = Fault.
Proof.
  apply (@vfs_lookup_denied_faults _ _ _ _ _ demo_memory demo_vfs demo_kids 1%positive [3%positive] [97] (demo_user 5) 2%positive 12%positive _ _ O_RDONLY 0 1 [97] demo_in_tree);
    [apply (bool_decide_unpack _); vm_compute; exact I|reflexivity|reflexivity|reflexivity|reflexivity|].
  intros s E. unfold iclose. apply wp_bind. eapply wp_rd; [exact E|]. by apply wp_ret.
Defined.
(** Without memory for strings a lookup returns -ENOMEM. *)
Program Definition bytes_none : ByteAlloc := {| kmalloc_bytes _ _ := None; krealloc_array _ _ := false |}.
Next Obligation. done. Qed.
Example vfs_lookup_no_memory :
  vfs_lookup (PA := {| string_alloc _ := bytes_none |}) (Some [97]) (Some (demo_user 5)) O_RDONLY 0 true true demo_vfs = Ok (inl (- ENOMEM), demo_vfs).
Proof. reflexivity. Qed.
Lemma dentry_tree_refines_witness : ∃ s', run_tree_ops [TUnbind 1 2; TBind 3 5; TBind 3 2; TUnbind 1 5]%positive demo_vfs = Ok ([0; 0; 0; - ENOENT], s') ∧
  tree s' (<[1%positive := [3%positive]]> (<[3%positive := [5%positive; 2%positive]]> demo_kids)).
Proof.
  destruct (dentry_tree_refines demo_vfs demo_kids [TUnbind 1 2; TBind 3 5; TBind 3 2; TUnbind 1 5]%positive demo_tree) as (s' & E & Ht).
  - intros c v Hv. revert c v Hv. apply (map_Forall_lookup (λ _ v, is_Some (d_inode v))). apply (bool_decide_unpack _). vm_compute. exact I.
  - repeat split; try (by eexists); try done; apply (bool_decide_unpack _); vm_compute; exact I.
  - exists s'. split; [exact E|]. replace (<[_ := _]> _) with (spec_tree_ops [TUnbind 1 2; TBind 3 5; TBind 3 2; TUnbind 1 5]%positive demo_kids).2; [exact Ht|].
    vm_compute. reflexivity.
Defined.
