(* ===== verification/TmpfsSpec.v ===== *)
(** * What tmpfs does *)
From S2P Require Import Prelude FsTypes Strings StringsSpec Path PathSpec Inode Vfs Tmpfs VfsTree VfsSpec.

(** ** Directories *)

(** The inode of a name: the first entry with it. *)
Fixpoint table_find (table : list (option name * ptr)) (nm : name) : option loc :=
  match table with
  | [] => None
  | (n, p) :: table => if decide (n = Some nm) then p else table_find table nm
  end.
(** A directory of tmpfs: names come with inodes, which exist and are not locked. *)
Record dir_ok (s : vfs) (dir : loc) (v : inode) (table : list (option name * ptr)) : Prop := DirOk {
  do_ino : inos s !! dir = Some v;
  do_free : i_lock v = false;
  do_dir : i_type v = FS_DIR;
  do_table : i_priv v = PDir table ∨ (i_priv v = PNull ∧ table = []);
  do_names : ∀ i n p, table !! i = Some (Some n, p) → ∃ c w, p = Some c ∧ c ≠ dir ∧ inos s !! c = Some w ∧ i_lock w = false;
  do_empty : ∀ i p, table !! i = Some (None, p) → p = NULL;
}.

Definition ilk (b : bool) (v : inode) : inode := {| v with i_lock := b |}.
Definition mapi (p : loc) (g : inode → inode) (s : vfs) : vfs := {| s with inos := alter g p (inos s) |}.
Lemma mapi_lookup p g s q : inos (mapi p g s) !! q = if decide (q = p) then g <$> inos s !! q else inos s !! q.
Proof. unfold mapi. simpl. case_decide; [subst; apply lookup_alter_eq|by apply lookup_alter_ne]. Qed.
Lemma mapi_mapi p g g' s : mapi p g (mapi p g' s) = mapi p (λ v, g (g' v)) s.
Proof.
  unfold mapi. simpl. f_equal. apply map_eq. intros q. destruct (decide (q = p)) as [->|].
  - rewrite !lookup_alter_eq. by destruct (inos s !! p).
  - by rewrite !lookup_alter_ne.
Qed.
Lemma mapi_comm p q g g' s : p ≠ q → mapi p g (mapi q g' s) = mapi q g' (mapi p g s).
Proof. intros. unfold mapi. simpl. f_equal. apply map_eq. intros r. rewrite !lookup_alter. repeat case_decide; congruence. Qed.
Lemma mapi_id p g s v : inos s !! p = Some v → g v = v → mapi p g s = s.
Proof.
  intros Hp Hg. destruct s as [d i r]. unfold mapi. simpl in *. f_equal. apply map_eq. intros q. destruct (decide (q = p)) as [->|].
  - rewrite lookup_alter_eq, Hp. simpl. by rewrite Hg.
  - by rewrite lookup_alter_ne.
Qed.
Lemma mapi_ext p g g' s : (∀ v, inos s !! p = Some v → g v = g' v) → mapi p g s = mapi p g' s.
Proof.
  intros Hg. unfold mapi. f_equal. apply map_eq. intros q. rewrite !lookup_alter. case_decide; [|done]. subst.
  destruct (inos s !! q) eqn:E; simpl; [by rewrite Hg|done].
Qed.
#[global] Arguments mapi p g s : simpl never.

Lemma wp_rdi s p v (Q : inode → vfs → Prop) : inos s !! p = Some v → Q v s → wp (rdi (Some p)) Q s.
Proof. intros Hp HQ. by eapply wp_rd. Qed.
Lemma wp_updi s p v g (Q : unit → vfs → Prop) : inos s !! p = Some v → Q tt (mapi p g s) → wp (updi (Some p) g) Q s.
Proof. intros Hp HQ. apply wp_upd; [by exists v|done]. Qed.
Lemma wp_ilock s p v (Q : unit → vfs → Prop) : inos s !! p = Some v → i_lock v = false → Q tt (mapi p (ilk true) s) → wp (ilock (Some p)) Q s.
Proof. intros Hp Hl HQ. unfold ilock. apply wp_bind. eapply wp_rdi; [done|]. rewrite Hl. by eapply wp_updi. Qed.
Lemma wp_iunlock s p v (Q : unit → vfs → Prop) : inos s !! p = Some v → i_lock v = true → Q tt (mapi p (ilk false) s) → wp (iunlock (Some p)) Q s.
Proof. intros Hp Hl HQ. unfold iunlock. apply wp_bind. eapply wp_rdi; [done|]. rewrite Hl. by eapply wp_updi. Qed.
(** Unlocking what was locked. *)
Lemma wp_iunlock_back s p v (Q : unit → vfs → Prop) : inos s !! p = Some v → i_lock v = false → Q tt s → wp (iunlock (Some p)) Q (mapi p (ilk true) s).
Proof.
  intros Hp Hl HQ. eapply wp_iunlock; [rewrite mapi_lookup, decide_True, Hp by done; done|done|]. rewrite mapi_mapi.
  erewrite mapi_id; [done|done|]. destruct v. simpl in *. by subst.
Qed.

Lemma table_find_cons n p table nm : table_find ((n, p) :: table) nm = if decide (n = Some nm) then p else table_find table nm.
Proof. done. Qed.
Lemma wp_find_entry s dir v table nm (Q : Z + loc → vfs → Prop) : inos s !! dir = Some v → i_lock v = false →
  (∀ i n p, table !! i = Some (Some n, p) → ∃ c w, p = Some c ∧ c ≠ dir ∧ inos s !! c = Some w ∧ i_lock w = false) →
  Q (match table_find table nm with Some c => inr c | None => inl (- ENOENT) end) s →
  wp (find_entry table dir nm) Q (mapi dir (ilk true) s).
Proof.
  intros Hv Hl. induction table as [|[n p] table IH]; intros Hn HQ; [apply wp_bind; by eapply wp_iunlock_back; [..|apply wp_ret]|].
  rewrite table_find_cons in HQ.
  assert (Hn' : ∀ i n p, table !! i = Some (Some n, p) → ∃ c w, p = Some c ∧ c ≠ dir ∧ inos s !! c = Some w ∧ i_lock w = false)
    by (intros i; apply (Hn (S i))).
  destruct n as [n|]; [|rewrite decide_False in HQ by done; by apply IH]. destruct (Hn 0%nat n p eq_refl) as (c & w & -> & Hcd & Hw & Hlw).
  assert (Hc : inos (mapi dir (ilk true) s) !! c = Some w) by (by rewrite mapi_lookup, decide_False).
  simpl find_entry. apply wp_bind. eapply wp_ilock; [done..|]. apply wp_bind. eapply wp_iunlock_back; [done..|].
  destruct (decide (n = nm)) as [E|E].
  - rewrite decide_True in HQ by congruence. apply wp_bind. eapply wp_iunlock_back; [done..|]. by apply wp_ret.
  - rewrite decide_False in HQ by congruence. by apply IH.
Qed.
Lemma wp_tmpfs_find s dir v table nm (Q : Z + loc → vfs → Prop) : dir_ok s dir v table →
  Q (match table_find table nm with Some c => inr c | None => inl (- ENOENT) end) s → wp (tmpfs_find dir nm) Q s.
Proof.
  intros [Hv Hl Hd Ht Hn _] HQ. unfold tmpfs_find. apply wp_bind. eapply wp_ilock; [done..|]. apply wp_bind.
  eapply wp_rdi; [by rewrite mapi_lookup, decide_True, Hv|]. unfold is_dir. simpl. rewrite Hd. simpl. destruct Ht as [->|[-> ->]].
  - by eapply wp_find_entry.
  - apply wp_bind. eapply wp_iunlock_back; [done..|]. by apply wp_ret.
Qed.

(** *** Adding an entry *)

Definition fresh_name (table : list (option name * ptr)) (nm : name) : Prop := ∀ i p, table !! i ≠ Some (Some nm, p).
Lemma table_find_fresh table nm : fresh_name table nm → table_find table nm = None.
Proof.
  induction table as [|[n p] table IH]; intros Hf; [done|]. rewrite table_find_cons, decide_False; [apply IH; intros i; apply (Hf (S i))|].
  intros ->. by apply (Hf 0%nat p).
Qed.
Lemma free_entry_spec table : (free_entry table ≤ length table)%nat ∧
  ((free_entry table < length table)%nat → ∃ n, table !! free_entry table = Some (n, NULL)).
Proof.
  induction table as [|[n [p|]] table [IH1 IH2]]; simpl; [lia| |split; [lia|by exists n]]. split; [lia|]. intros. apply IH2. lia.
Qed.
Lemma free_entry_snoc table : free_entry table = length table → free_entry (table ++ [(None, NULL)]) = length table.
Proof. induction table as [|[n [p|]] table IH]; simpl; [done| |done]. intros [= ?]. by rewrite IH. Qed.
(** Filling an empty entry. *)
Lemma table_find_fill table i nm c n : table !! i = Some (None, NULL) → fresh_name table nm →
  table_find (<[i := (Some nm, Some c)]> table) n = if decide (n = nm) then Some c else table_find table n.
Proof.
  revert i. induction table as [|[n' p] table IH]; intros i Hi Hf; [done|]. destruct i as [|i]; simpl in Hi.
  - simplify_eq. simpl insert. rewrite !table_find_cons. rewrite (decide_False (P := None = Some n)) by done.
    destruct (decide (n = nm)) as [->|]; [by rewrite decide_True|by rewrite decide_False by congruence].
  - change (<[S i := (Some nm, Some c)]> ((n', p) :: table)) with ((n', p) :: <[i := (Some nm, Some c)]> table).
    rewrite !table_find_cons. rewrite IH by (done || intros j; apply (Hf (S j))). destruct (decide (n' = Some n)) as [->|]; [|done].
    rewrite decide_False; [done|]. intros ->. by apply (Hf 0%nat p).
Qed.
Lemma table_find_snoc table n : table_find (table ++ [(None, NULL)]) n = table_find table n.
Proof. induction table as [|[n' p] table IH]; [done|]. simpl app. by rewrite !table_find_cons, IH. Qed.

Section mount.
Context `{!Kalloc inode, !Kalloc dentry, !SmallAlloc, !TmpfsAlloc} (tmpfs : positive).
Context (Hsmall : ∀ s, small_ok s = true) (Hcalloc : ∀ s n, kcalloc_ok s n = true).

(** The state after an entry is added. *)
Definition with_entry (dir c : loc) (table : list (option name * ptr)) (s : vfs) : vfs :=
  mapi c (λ v, {| v with ifs := Some (default tmpfs (ifs v)) |}) (mapi dir (λ v, {| v with i_priv := PDir table |}) s).
Lemma wp_bind_entry s dir v p table nm c w (Q : Z → vfs → Prop) : inos s !! dir = Some v → i_lock v = false → inos s !! c = Some w → i_lock w = false → c ≠ dir →
  Q 0 (with_entry dir c (<[free_entry table := (Some nm, Some c)]> table) s) →
  wp (bind_entry tmpfs dir table nm c) Q (mapi dir (λ v, {| v with i_priv := p; i_lock := true |}) s).
Proof using Hsmall.
  intros Hv Hl Hw Hlw Hne HQ. unfold bind_entry, set_table. apply wp_bind, wp_gets. rewrite Hsmall. simpl. apply wp_bind.
  eapply wp_updi; [by rewrite mapi_lookup, decide_True, Hv|]. rewrite mapi_mapi. simpl. apply wp_bind.
  eapply wp_ilock; [by rewrite mapi_lookup, decide_False, Hw by done|done|]. apply wp_bind.
  eapply wp_updi; [rewrite mapi_lookup, decide_True, mapi_lookup, decide_False, Hw by done; done|]. rewrite mapi_mapi. apply wp_bind.
  eapply wp_iunlock; [rewrite mapi_lookup, decide_True, mapi_lookup, decide_False, Hw by done; done|done|]. rewrite mapi_mapi. apply wp_bind.
  eapply wp_iunlock; [rewrite mapi_lookup, decide_False, mapi_lookup, decide_True, Hv by done; done|done|]. apply wp_ret.
  rewrite (mapi_comm dir c) by done. rewrite mapi_mapi. unfold with_entry in HQ.
  rewrite (mapi_ext dir _ (λ v, {| v with i_priv := PDir (<[free_entry table := (Some nm, Some c)]> table) |})).
  2:{ intros v' Hv'. simplify_eq. destruct v. simpl in *. by subst. }
  erewrite (mapi_ext c); [exact HQ|]. intros w' Hw'. rewrite mapi_lookup, decide_False in Hw' by done. simplify_eq. destruct w. simpl in *. by subst.
Qed.
Lemma wp_try_bind s dir v table nm c w (Q : Z → vfs → Prop) : inos s !! dir = Some v → i_lock v = false → inos s !! c = Some w → i_lock w = false → c ≠ dir →
  let table' := if decide (free_entry table < length table)%nat then table else table ++ [(None, NULL)] in
  Q 0 (with_entry dir c (<[free_entry table := (Some nm, Some c)]> table') s) →
  (∀ p, wp (try_bind tmpfs dir table nm c) Q (mapi dir (λ v, {| v with i_priv := p; i_lock := true |}) s)).
Proof using Hsmall Hcalloc.
  intros Hv Hl Hw Hlw Hne table' HQ p. unfold try_bind. case_bool_decide as Hf; unfold table' in HQ.
  - rewrite decide_True in HQ by done. by eapply wp_bind_entry.
  - rewrite decide_False in HQ by done. apply wp_bind, wp_gets. rewrite Hcalloc. simpl. apply wp_bind. unfold set_table.
    eapply wp_updi; [by rewrite mapi_lookup, decide_True, Hv|]. rewrite mapi_mapi. simpl.
    eapply wp_bind_entry; [done..|]. rewrite free_entry_snoc by (pose proof (free_entry_spec table); lia).
    assert (free_entry table = length table) as E by (pose proof (free_entry_spec table); lia). by rewrite E in HQ.
Qed.
Lemma wp_tmpfs_mount s dir v table nm c w (Q : Z → vfs → Prop) : dir_ok s dir v table → inos s !! c = Some w → i_lock w = false → c ≠ dir → fresh_name table nm →
  (∀ table', (∀ n, table_find table' n = if decide (n = nm) then Some c else table_find table n) →
    (∀ i e, table' !! i = Some e → e = (Some nm, Some c) ∨ e = (None, NULL) ∨ ∃ j, table !! j = Some e) →
    Q 0 (with_entry dir c table' s)) →
  wp (tmpfs_mount tmpfs dir nm c) Q s.
Proof using Hsmall Hcalloc.
  intros [Hv Hl Hd Ht Hn He] Hw Hlw Hne Hf HQ. unfold tmpfs_mount. apply wp_bind. eapply wp_ilock; [done..|]. apply wp_bind.
  eapply wp_rdi; [by rewrite mapi_lookup, decide_True, Hv|]. simpl. destruct Ht as [Ht|[Ht ->]]; rewrite Ht.
  - rewrite (mapi_ext dir _ (λ v, {| v with i_priv := PDir table; i_lock := true |})).
    2:{ intros v' Hv'. simplify_eq. destruct v. simpl in *. by subst. }
    eapply wp_try_bind; [done..|]. destruct (free_entry_spec table) as [Hlen Hfree]. case_decide as Hlt.
    + destruct (Hfree Hlt) as [[n|] Hi]; [destruct (Hn _ _ _ Hi) as (? & ? & ? & _); done|]. apply HQ; [by intros; apply table_find_fill|].
      intros i e. destruct (decide (i = free_entry table)) as [->|]; [rewrite list_lookup_insert_eq by done; intros [= <-]; by left|].
      rewrite list_lookup_insert_ne by done. intros ?. right. right. by exists i.
    + assert (free_entry table = length table) as E by lia.
      assert (Hi : (table ++ [(None, NULL)]) !! free_entry table = Some (None, NULL)) by (rewrite E, lookup_app_r, Nat.sub_diag by lia; done).
      apply HQ.
      * intros n. rewrite table_find_fill; [by rewrite table_find_snoc|done|]. intros i p [Hx|[_ Hx]]%lookup_app_Some; [by eapply Hf|].
        by apply list_lookup_singleton_Some in Hx as [_ ?].
      * intros i e. destruct (decide (i = free_entry table)) as [->|]; [rewrite list_lookup_insert_eq by (by eapply lookup_lt_Some); intros [= <-]; by left|].
        rewrite list_lookup_insert_ne by done. intros [Hx|[_ Hx]]%lookup_app_Some; [right; right; by exists i|].
        apply list_lookup_singleton_Some in Hx as [_ <-]. right. by left.
  - apply wp_bind, wp_gets. rewrite Hcalloc. simpl. apply wp_bind. unfold set_table. eapply wp_updi; [by rewrite mapi_lookup, decide_True, Hv|].
    rewrite mapi_mapi. simpl. eapply wp_try_bind; [done..|]. simpl. apply HQ.
    + intros n. rewrite table_find_cons. destruct (decide (n = nm)) as [->|]; [by rewrite decide_True|by rewrite decide_False by congruence].
    + intros [|i] e; simpl; [intros [= <-]; by left|done].
Qed.
End mount.

(** C27: binding a new name in a tmpfs directory: afterwards [tmpfs_find] finds the inode
    under that name and every other name as before, and the directory is still in order.
    The kernel has memory for the name and for the table (the code returns -ENOMEM
    otherwise), the name is in no entry of the table, and the inode is not the directory
    and not locked. *)
Theorem tmpfs_mount_find `{!Kalloc inode, !Kalloc dentry, !SmallAlloc, !TmpfsAlloc} (tmpfs : positive) s dir v table nm c w :
  (∀ s, small_ok s = true) → (∀ s n, kcalloc_ok s n = true) →
  dir_ok s dir v table → inos s !! c = Some w → i_lock w = false → c ≠ dir → fresh_name table nm →
  ∃ s' v' table', tmpfs_mount tmpfs dir nm c s = Ok (0, s') ∧ dir_ok s' dir v' table' ∧
    ∀ n, tmpfs_find dir n s' = Ok (match (if decide (n = nm) then Some c else table_find table n) with Some x => inr x | None => inl (- ENOENT) end, s').
Proof.
  intros Hs Hk Hd Hw Hlw Hne Hf. assert (wp (tmpfs_mount tmpfs dir nm c) (λ r s', r = 0 ∧ ∃ v' table', dir_ok s' dir v' table' ∧
    ∀ n, table_find table' n = if decide (n = nm) then Some c else table_find table n) s) as (? & s' & -> & -> & v' & table' & Hd' & Hfind)%wp_exec.
  { eapply wp_tmpfs_mount; [done..|]. intros table' Hfind Hent. split; [done|]. exists {| v with i_priv := PDir table' |}, table'.
    split; [|done]. destruct Hd as [Hv Hl Ht _ Hn He]. unfold with_entry. split.
    - by rewrite mapi_lookup, decide_False, mapi_lookup, decide_True, Hv by done.
    - done.
    - done.
    - by left.
    - intros i n p Hi. destruct (Hent i _ Hi) as [[= -> ->]|[?|[j Hj]]]; [|done|].
      + exists c, {| w with ifs := Some (default tmpfs (ifs w)) |}. split; [done|]. split; [done|]. split; [|done].
        by rewrite mapi_lookup, decide_True, mapi_lookup, decide_False, Hw by done.
      + destruct (Hn j n p Hj) as (x & wx & -> & Hx & Hwx & Hlx). destruct (decide (x = c)) as [->|Hxc].
        * simplify_eq. exists c, {| w with ifs := Some (default tmpfs (ifs w)) |}. split; [done|]. split; [done|]. split; [|done].
          by rewrite mapi_lookup, decide_True, mapi_lookup, decide_False, Hw by done.
        * exists x, wx. split; [done|]. split; [done|]. split; [|done]. by rewrite mapi_lookup, decide_False, mapi_lookup, decide_False by done.
    - intros i p Hi. destruct (Hent i _ Hi) as [?|[[= ->]|[j Hj]]]; [done|done|]. by eapply He. }
  exists s', v', table'. split; [done|]. split; [done|]. intros n. rewrite <- Hfind.
  assert (wp (tmpfs_find dir n) (λ r s'', r = match table_find table' n with Some x => inr x | None => inl (- ENOENT) end ∧ s'' = s') s')
    as (? & ? & -> & -> & ->)%wp_exec by (by eapply wp_tmpfs_find). done.
Qed.

(** ** Contents *)

(** A file of tmpfs with the bytes [data]. *)
Record file_ok (s : vfs) (ip : loc) (v : inode) (data : list Z) : Prop := FileOk {
  fo_ino : inos s !! ip = Some v;
  fo_type : i_type v ≠ FS_DIR;
  fo_priv : i_priv v = PData data ∨ (i_priv v = PNull ∧ data = []);
  fo_size : i_size v = Z.of_nat (length data);
  fo_max : Z.of_nat (length data) < 2 ^ 32;
}.
Section contents.
Context `{!TmpfsAlloc}.

Lemma wp_tmpfs_read s ip v data off sz (Q : Z + list Z → vfs → Prop) : file_ok s ip v data → 0 ≤ sz →
  (off < length data)%nat → Q (inr (take (Z.to_nat sz) (drop off data))) s → wp (tmpfs_read ip (Z.of_nat off) sz) Q s.
Proof using Type.
  intros [Hv _ Hp Hs Hm] Hsz Ho HQ. unfold tmpfs_read. apply wp_bind. eapply wp_rdi; [done|].
  destruct Hp as [->|[_ ->]]; [|simpl in Ho; lia]. rewrite bool_decide_false by lia.
  unfold room_left. rewrite Hs, u32_small by lia. rewrite bool_decide_true by lia. apply wp_ret. rewrite Nat2Z.id.
  replace (take (Z.to_nat (Z.min _ _)) (drop off data)) with (take (Z.to_nat sz) (drop off data)); [done|].
  destruct (Z.min_spec (Z.of_nat (length data) - Z.of_nat off) sz) as [[? ->]|[? ->]]; [|done].
  rewrite !take_ge by (rewrite length_drop; lia). done.
Qed.
(** A write that makes the file longer: what lies between the old end and [off] is
    whatever the allocator returns. *)
Lemma wp_tmpfs_write s ip v data off buf (Q : Z → vfs → Prop) : file_ok s ip v data → (∀ s n, kcalloc_ok s n = true) → (∀ s n, is_Some (krealloc_tail s n)) →
  (length data ≤ off)%nat → buf ≠ [] → Z.of_nat (off + length buf) < 2 ^ 32 →
  (∀ hole, length hole = (off - length data)%nat →
    let v' := {| v with i_size := Z.of_nat (off + length buf); i_priv := PData (data ++ hole ++ buf) |} in
    Q (Z.of_nat (length buf)) (mapi ip (λ _, v') s)) →
  wp (tmpfs_write ip (Z.of_nat off) buf) Q s.
Proof using Type.
  intros [Hv Ht Hp Hs Hm] Hk Hr Ho Hb Hlt HQ. unfold tmpfs_write. apply wp_bind. eapply wp_rdi; [done|].
  assert (is_dir v = false) as -> by (unfold is_dir; by destruct (i_type v)).
  assert (Hlb : (0 < length buf)%nat) by (destruct buf; simpl; [done|lia]).
  rewrite u32_small by lia. rewrite Hs. rewrite bool_decide_true by lia. apply wp_bind.
  assert (Hgrow : ∀ tail, Z.of_nat (length tail) = Z.of_nat off + Z.of_nat (length buf) - Z.of_nat (length data) →
    wp (match Some (data ++ tail) with
        | None => mret (- EAGAIN)
        | Some data =>
            let size := room_left {| v with i_size := Z.of_nat off + Z.of_nat (length buf) |} (Z.of_nat off) (Z.of_nat (length buf)) in
            if bool_decide (Z.of_nat off + size ≤ Z.of_nat (length data)) then
              updi (Some ip) (λ v, {| v with i_size := Z.of_nat off + Z.of_nat (length buf);
                i_priv := PData (take (Z.to_nat (Z.of_nat off)) data ++ take (Z.to_nat size) buf ++ drop (Z.to_nat (Z.of_nat off + size)) data) |});;
              mret size
            else fault
        end) Q s).
  { intros tail Hl. unfold room_left. simpl.
    replace (u32 (Z.of_nat off + Z.of_nat (length buf) - Z.of_nat off)) with (Z.of_nat (length buf)) by (rewrite u32_small; lia).
    rewrite Z.min_id. rewrite bool_decide_true by (rewrite length_app; lia). apply wp_bind. eapply wp_updi; [done|]. apply wp_ret.
    specialize (HQ (take (off - length data) tail)). rewrite length_take in HQ. rewrite !Nat2Z.id in *.
    erewrite mapi_ext; [apply HQ; lia|]. intros v' Hv'. simplify_eq. simpl. f_equal; [lia|]. f_equal.
    rewrite take_app_ge by lia. rewrite (take_ge buf) by lia. rewrite drop_ge by (rewrite length_app; lia). by rewrite app_nil_r, <- app_assoc. }
  destruct Hp as [->|[-> ->]]; apply wp_gets.
  - destruct (Hr s (Z.of_nat off + Z.of_nat (length buf) - Z.of_nat (length data))) as [tail Htail]. rewrite Htail. simpl fmap.
    apply Hgrow. apply krealloc_length in Htail. lia.
  - rewrite Hk. apply (Hgrow (replicate (Z.to_nat (Z.of_nat off + Z.of_nat (length buf))) 0)). rewrite length_replicate. simpl. lia.
Qed.
End contents.

(** Bytes written at or behind the end of a tmpfs file are read back, the file is as
    long as they reach, and the bytes it had before are still there.  (Bytes between the
    old end and the new ones are whatever the allocator left in memory.) *)
Theorem tmpfs_write_read `{!TmpfsAlloc} s ip v data off buf : (∀ s n, kcalloc_ok s n = true) → (∀ s n, is_Some (krealloc_tail s n)) →
  file_ok s ip v data → (length data ≤ off)%nat → buf ≠ [] → Z.of_nat (off + length buf) < 2 ^ 32 →
  ∃ s' v' data', tmpfs_write ip (Z.of_nat off) buf s = Ok (Z.of_nat (length buf), s') ∧ file_ok s' ip v' data' ∧
    length data' = (off + length buf)%nat ∧
    tmpfs_read ip (Z.of_nat off) (Z.of_nat (length buf)) s' = Ok (inr buf, s') ∧
    (data ≠ [] → tmpfs_read ip 0 (Z.of_nat (length data)) s' = Ok (inr data, s')).
Proof.
  intros Hk Hr Hf Ho Hb Hlt. assert (Hlb : (0 < length buf)%nat) by (destruct buf; simpl; [done|lia]).
  assert (wp (tmpfs_write ip (Z.of_nat off) buf) (λ r s', r = Z.of_nat (length buf) ∧ ∃ v' hole, length hole = (off - length data)%nat ∧
    file_ok s' ip v' (data ++ hole ++ buf)) s) as (? & s' & E & -> & v' & hole & Hh & Hf')%wp_exec.
  { eapply wp_tmpfs_write; [done..|]. intros hole Hh. split; [done|]. eexists _, hole. split; [done|]. destruct Hf as [Hv Ht Hp Hs Hm].
    split; [by rewrite mapi_lookup, decide_True, Hv|done|by left|simpl; rewrite !length_app; lia|rewrite !length_app; lia]. }
  assert (Hread : ∀ o n w, (o < length (data ++ hole ++ buf))%nat → take n (drop o (data ++ hole ++ buf)) = w →
    tmpfs_read ip (Z.of_nat o) (Z.of_nat n) s' = Ok (inr w, s')).
  { intros o n w Hol Hw. assert (wp (tmpfs_read ip (Z.of_nat o) (Z.of_nat n)) (λ r s'', r = inr w ∧ s'' = s') s') as (? & ? & -> & -> & ->)%wp_exec; [|done].
    eapply wp_tmpfs_read; [done|lia|done|]. by rewrite Nat2Z.id, Hw. }
  exists s', v', (data ++ hole ++ buf). split; [done|]. split; [done|]. split; [rewrite !length_app; lia|]. split.
  - apply Hread; [rewrite !length_app; lia|]. rewrite app_assoc, drop_app_length' by (rewrite length_app; lia). by apply take_ge.
  - intros Hd. apply (Hread 0%nat); [rewrite !length_app; destruct data; simpl; [done|lia]|]. by rewrite drop_0, take_app_length.
Qed.

(** A write that stays within a tmpfs file never reaches it: the code copies to the
    address NULL + off. *)
Theorem tmpfs_overwrite_faults `{!TmpfsAlloc} s ip v data off buf : file_ok s ip v data → buf ≠ [] → (off + length buf ≤ length data)%nat →
  tmpfs_write ip (Z.of_nat off) buf s = Fault.
Proof.
  intros [Hv Ht Hp Hs Hm] Hb Ho. assert (Hlb : (0 < length buf)%nat) by (destruct buf; simpl; [done|lia]).
  unfold tmpfs_write. apply fault_bind. eapply wp_rdi; [done|]. assert (is_dir v = false) as -> by (unfold is_dir; by destruct (i_type v)).
  rewrite u32_small by lia. rewrite Hs, bool_decide_false by lia. unfold room_left. rewrite Hs, u32_small by lia.
  by rewrite bool_decide_false by lia.
Qed.

(** ** Looking up a file that is not in the tree yet *)

(** A new entry without children. *)
Lemma tree_alloc s kids d w : tree s kids → dents s !! d = None → d_lock w = false → d_children w = NULL →
  tree {| s with dents := <[d := w]> (dents s) |} (<[d := []]> kids) ∧ unbound (<[d := []]> kids) d.
Proof.
  intros Ht Hd Hl Hc. pose proof Ht as [H1 H2 H3 H4 H5]. assert (Hk : kids !! d = None) by (apply not_elem_of_dom; rewrite H1; by apply not_elem_of_dom).
  split; [split; simpl|].
  - by rewrite !dom_insert_L, H1.
  - intros p v Hp. apply lookup_insert_Some in Hp as [[<- <-]|[? Hp]]; [done|by eapply H2].
  - intros p ks v Hp Hv. apply lookup_insert_Some in Hp as [[<- <-]|[? Hp]]; [rewrite lookup_insert_eq in Hv; by simplify_eq|].
    rewrite lookup_insert_ne in Hv by done. by eapply H3.
  - intros p ks Hp. apply lookup_insert_Some in Hp as [[<- <-]|[? Hp]]; [split; [constructor|set_solver]|by eapply H4].
  - intros p ks i k Hp Hi. apply lookup_insert_Some in Hp as [[<- <-]|[? Hp]]; [done|]. destruct (H5 p ks i k Hp Hi) as (v & Hv & ?).
    exists v. by rewrite lookup_insert_ne by congruence.
  - intros q ks Hq Hin. apply lookup_insert_Some in Hq as [[<- <-]|[? Hq]]; [by apply not_elem_of_nil in Hin|].
    apply list_elem_of_lookup in Hin as [i Hi]. destruct (H5 q ks i d Hq Hi) as (v & Hv & _). congruence.
Qed.

Lemma tree_dents s s' kids : dents s' = dents s → tree s kids → tree s' kids.
Proof. intros E [H1 H2 H3 H4 H5]. split; rewrite ?E; done. Qed.
Lemma dir_ok_inos s s' dir v table : inos s' = inos s → dir_ok s dir v table → dir_ok s' dir v table.
Proof. intros E [H1 H2 H3 H4 H5 H6]. split; rewrite ?E; done. Qed.

Section unchecked.
Context `{!Kalloc inode, !Kalloc dentry, !SmallAlloc, !Filesystems, !TmpfsAlloc} {PA : PathAlloc} {HM : Memory} (tmpfs : positive).
Hypothesis Htmpfs : iops_of tmpfs = Some (tmpfs_iops tmpfs).

(** One name that the file system knows: the new entry is bound, whatever [iperm] says. *)
Lemma wp_lookup_new s kids root ks rv dip dv table u oflags mode nm ip iv (Q : (Z * ptr) + (ptr * ptr) → vfs → Prop) :
  tree s kids → kids !! root = Some ks → dents s !! root = Some rv →
  dir_ok s dip dv table → ifs dv = Some tmpfs → table_find table nm = Some ip → inos s !! ip = Some iv →
  (∀ d s', dents s !! d = None → inos s' = inos s → tree s' (<[root := ks ++ [d]]> (<[d := []]> kids)) → Q (inr (Some ip, Some d)) s') →
  wp (lookup_loop [nm] (Some u) oflags mode (Some root) (Some dip) NULL NULL) Q s.
Proof using HM Htmpfs.
  intros Ht Hks Hrv Hdir Hifs Hfind Hiv HQ. cbn [lookup_loop]. apply wp_bind. unfold dentry_alloc. apply wp_bind, wp_gets.
  rewrite mem_small. simpl negb. cbv iota. apply wp_bind, wp_kmalloc; [intros E; destruct (mem_dent (dents s)) as [? E']; simpl in E; congruence|].
  intros d _ Hd. apply wp_ret. simpl in Hd. apply wp_bind. unfold ifind. apply wp_bind.
  eapply wp_rdi; [apply Hdir|]. unfold ops_of. rewrite Hifs. simpl. rewrite Htmpfs.
  assert (is_dir dv = true) as -> by (unfold is_dir; by rewrite (do_dir _ _ _ _ Hdir)). simpl.
  eapply wp_tmpfs_find; [by eapply dir_ok_inos; [|exact Hdir]|]. rewrite Hfind. apply wp_bind.
  apply wp_upd; [simpl; rewrite lookup_insert_eq; by eexists|]. simpl. rewrite alter_insert_eq.
  set (w := Dentry nm 1 (Some ip) NULL NULL NULL NULL false). set (s2 := Vfs (<[d := w]> (dents s)) (inos s) (droot s)).
  destruct (tree_alloc s kids d w Ht Hd eq_refl eq_refl) as [Ht2 Hu]. change (tree s2 (<[d := []]> kids)) in Ht2. apply wp_bind.
  assert (Hne : d ≠ root) by congruence.
  eapply (wp_vfs_dentry_bind s2 _ root d ks w ip); [done|by rewrite lookup_insert_ne|apply lookup_insert_eq|done|done|by eapply Hu; rewrite lookup_insert_ne|].
  simpl. apply wp_bind. eapply wp_iperm; [exact Hiv|]. apply wp_ret. apply HQ; [done|done|].
  apply tree_bound; [done|by rewrite lookup_insert_ne|simpl; rewrite lookup_insert_eq; by eexists|done|done].
Qed.

(** A file that is not in the tree yet is opened without a permission check: whoever
    asks, with whatever flags, gets the inode of a file that a tmpfs root directory has
    under that name (and its entry, the last of the directory from now on), even if
    [iperm] denies it. *)
Theorem vfs_lookup_unchecked s kids root ks rv dip dv table fn u oflags mode nm ip iv :
  tree s kids → droot s = Some root → kids !! root = Some ks → dents s !! root = Some rv → d_inode rv = Some dip →
  dir_ok s dip dv table → ifs dv = Some tmpfs → table_find table nm = Some ip → inos s !! ip = Some iv → i_lock iv = false →
  parse_result fn (default [47] (u_cwd u)) = Ok (inr (47 :: nm)) → normalize (names_from fn (default [47] (u_cwd u))) = [nm] →
  find_kid s ks nm = None →
  ∃ d s', vfs_lookup (Some fn) (Some u) oflags mode true true s = Ok (inr (Some ip, Some d), s') ∧
    dents s !! d = None ∧ tree s' (<[root := ks ++ [d]]> (<[d := []]> kids)).
Proof using HM Htmpfs.
  intros Ht Hroot Hks Hrv Hdip Hdir Hifs Hfind Hiv Hil Hp Hnm Hnk.
  enough (wp (vfs_lookup (Some fn) (Some u) oflags mode true true) (λ r s', ∃ d, r = inr (Some ip, Some d) ∧
    dents s !! d = None ∧ tree s' (<[root := ks ++ [d]]> (<[d := []]> kids))) s) as (r & s' & -> & d & -> & ? & ?)%wp_exec by (by exists d, s').
  unfold vfs_lookup. cbn [negb andb]. change (Some u ≫= u_cwd) with (u_cwd u). apply wp_bind. eapply wp_eq; [by apply parse_path_ok|]. apply wp_bind.
  eapply wp_eq; [eapply path_tokens_ok, canonical_parse; [done|by rewrite Hnm]|]. rewrite Hnm. apply wp_bind.
  assert (Hko : kids_of kids root = ks) by (unfold kids_of; by rewrite Hks).
  eapply wp_get_mountpoint; [done|done|by exists ks|done| |].
  { intros k d0 n' Hf%found_entry. simpl in Hf. by rewrite Hko, Hnk in Hf. }
  intros d0 n' post (pre & Hpre & Hd0 & _). destruct pre as [|? [|]]; [|done..]. injection Hpre as <- <-. injection Hd0 as <-.
  cbn [p_root p_tokens p_dentry]. rewrite decide_False by done. rewrite decide_True by done. apply wp_bind, wp_bind. eapply wp_rd; [exact Hrv|].
  rewrite Hdip. eapply wp_lookup_new; [done..|]. intros d s' Hd Hs' Htr.
  destruct (tree_dent _ _ d [] Htr) as [w Hw]; [by rewrite lookup_insert_ne, lookup_insert_eq by congruence|].
  apply wp_bind, wp_bind. eapply wp_iincrement; [by rewrite Hs'|done|]. apply wp_ret, wp_bind, wp_bind.
  eapply wp_dentry_dup; [exact Hw|by eapply tr_free|]. apply wp_ret, wp_ret. exists d. split; [done|]. split; [done|].
  apply tree_ref_by. by eapply tree_dents; [|exact Htr].
Qed.
End unchecked.

(** ** Witnesses *)

Program Definition demo_talloc : TmpfsAlloc := {| kcalloc_ok _ _ := true; krealloc_tail _ n := Some (replicate (Z.to_nat n) 7) |}.
Next Obligation. intros s n l [= <-]. rewrite length_replicate. lia. Qed.
#[local] Existing Instance demo_talloc.
#[local] Existing Instance demo_kino.
#[local] Existing Instance demo_kdent.
#[local] Existing Instance demo_small.
#[local] Existing Instance demo_strings.
#[local] Instance demo_tmpfs : Filesystems := {|
  iops_of _ := Some (tmpfs_iops 1%positive);
  kdev_open _ _ := mret 0; kdev_close _ := mret 0; kdev_ioctl _ _ _ := mret 0; kdev_lseek _ _ _ := mret 0;
|}.

Definition demo_names : list (option name * ptr) := [(None, NULL); (Some [103], Some 15%positive)].
Lemma demo_dir : dir_ok demo_vfs 11%positive (demo_ino FS_DIR 493 (PDir demo_names) (Some 1%positive)) demo_names.
Proof.
  split; [done|done|done|by left| |]; intros [|[|i]]; [done| |done|by intros p [= <-]|done|done].
  intros n p [= <- <-]. by eexists _, _.
Qed.
Lemma tmpfs_mount_find_witness : ∃ s', tmpfs_mount 1%positive 11%positive [120] 14%positive demo_vfs = Ok (0, s') ∧
  tmpfs_find 11%positive [120] s' = Ok (inr 14%positive, s') ∧ tmpfs_find 11%positive [103] s' = Ok (inr 15%positive, s') ∧ tmpfs_find 11%positive [121] s' = Ok (inl (- ENOENT), s').
Proof.
  destruct (tmpfs_mount_find 1%positive demo_vfs 11%positive (demo_ino FS_DIR 493 (PDir demo_names) (Some 1%positive)) demo_names [120] 14%positive (demo_ino FS_RGL 420 (PData [1; 2; 3]) (Some 1%positive))) as (s' & v' & t' & E & _ & H);
    [done|done|exact demo_dir|done|done|done|by intros [|[|i]] p|].
  exists s'. split; [exact E|]. split; [exact (H [120])|]. split; [exact (H [103])|exact (H [121])].
Defined.

(** A file with three bytes. *)
Definition demo_file : inode := Inode 3 420 7 7 2 FS_RGL NULL false (PData [1; 2; 3]) (Some 1%positive).
Definition demo_data : vfs := Vfs ∅ {[14%positive := demo_file]} NULL.
Lemma demo_file_ok : file_ok demo_data 14%positive demo_file [1; 2; 3].
Proof. by split; [| |left| |]. Qed.
Lemma tmpfs_write_read_witness : ∃ s', tmpfs_write 14%positive 3 [8; 9] demo_data = Ok (2, s') ∧ tmpfs_read 14%positive 3 2 s' = Ok (inr [8; 9], s').
Proof.
  destruct (tmpfs_write_read demo_data 14%positive demo_file [1; 2; 3] 3 [8; 9]) as (s' & v' & d' & E & _ & _ & H & _);
    [done|by intros; eexists|exact demo_file_ok|done|done|done|]. exists s'. split; [exact E|exact H].
Defined.
Lemma tmpfs_overwrite_faults_witness : tmpfs_write 14%positive 1 [8] demo_data = Fault.
Proof. apply (tmpfs_overwrite_faults demo_data 14%positive demo_file [1; 2; 3] 1 [8]); [exact demo_file_ok|done|simpl; lia]. Defined.
Lemma vfs_lookup_unchecked_witness : iperm (Some 15%positive) (Some (demo_user 5)) O_RDWR demo_vfs = Ok (- EACCES, demo_vfs) ∧
  ∃ d s', vfs_lookup (Some [103]) (Some (demo_user 5)) O_RDWR 0 true true demo_vfs = Ok (inr (Some 15%positive, Some d), s').
Proof.
  split; [reflexivity|].
  destruct (@vfs_lookup_unchecked demo_kino demo_kdent demo_small demo_tmpfs demo_talloc _ demo_memory 1%positive eq_refl demo_vfs demo_kids 1%positive [2%positive; 3%positive] _ 11%positive _ demo_names
    [103] (demo_user 5) O_RDWR 0 [103] 15%positive _ demo_tree eq_refl eq_refl eq_refl eq_refl demo_dir eq_refl eq_refl eq_refl eq_refl)
    as (d & s' & E & _); [reflexivity..|]. exists d, s'. exact E.
Defined.
