(* ===== verification/Pipe.v ===== *)
(** * Pipes ([kernel/fs/pipefs/pipe.c])

    A pipe is a ring of bytes with a read and a write end.  A reader of an empty pipe and
    a writer to a full one leave all locks and wait; [pipe_iread] and [pipe_iwrite] are
    cut there: what a call does up to its first wait, and what it does when [cond_wait]
    has returned.  Condition variables are an interface of the thread code. *)
From S2P Require Import Prelude FsTypes Inode RingBuf.

Definition PIPESZ : Z := 512.

Record pipe : Type := Pipe {
  p_ropen : Z;
  p_wopen : Z;
  p_lock : bool;
  p_ring : ringbuf;
}.
(** What a pipe uses of the inode of one of its ends. *)
Record pend : Type := Pend { e_mask : Z; e_lock : bool }.
(** [None]: the pipe is freed.  [W] is the state of the threads. *)
Record psys (W : Type) : Type := Psys { pp : option pipe; rend : pend; wend : pend; threads_of : W }.
#[global] Arguments Psys {_} _ _ _ _.
#[global] Arguments pp {_} _.
#[global] Arguments rend {_} _.
#[global] Arguments wend {_} _.
#[global] Arguments threads_of {_} _.

(** [cond_signal], and what it keeps. *)
Class Conds (W : Type) : Type := {
  cond_signal : positive → M W unit;
  conds_ok : W → Prop;
  readers : positive;
  writers : positive;
  signal_keeps : ∀ c w, conds_ok w → c = readers ∨ c = writers → wp (cond_signal c) (λ _ w', conds_ok w') w;
}.

Section pipe.
Context {W : Type} `{!Conds W}.
Abbreviation S := (psys W).

Definition signal (c : positive) : M S unit := zoom threads_of (λ w s, {| s with threads_of := w |}) (cond_signal c).
Definition rdp : M S pipe := λ s, match pp s with Some p => Ok (p, s) | None => Fault end.
Definition setp (f : pipe → pipe) : M S unit := λ s, match pp s with Some p => Ok (tt, {| s with pp := Some (f p) |}) | None => Fault end.
(** The end [e] of the pipe: true for the write end. *)
Definition the_end (e : bool) (s : S) : pend := if e then wend s else rend s.
Definition set_end (e : bool) (x : pend) (s : S) : S := if e then {| s with wend := x |} else {| s with rend := x |}.
Definition lock_end (e : bool) : M S unit :=
  x ← gets (the_end e); if e_lock x then panic else modify (set_end e {| x with e_lock := true |}).
Definition unlock_end (e : bool) : M S unit :=
  x ← gets (the_end e); if e_lock x then modify (set_end e {| x with e_lock := false |}) else panic.
Definition lock_pipe : M S unit := p ← rdp; if p_lock p then panic else setp (λ p, {| p with p_lock := true |}).
Definition unlock_pipe : M S unit := p ← rdp; if p_lock p then setp (λ p, {| p with p_lock := false |}) else panic.
Definition on_ring {A} (m : M ringbuf A) : M S A := λ s,
  match pp s with
  | Some p => match m (p_ring p) with
              | Ok (a, r) => Ok (a, {| s with pp := Some {| p with p_ring := r |} |})
              | Panic => Panic | Fault => Fault | NoFuel => NoFuel
              end
  | None => Fault
  end.

(** ** Reading *)

(** [while (read < size)] of a reader that holds the locks of end [e] and of the pipe and
    has the bytes [got]: what it returns and has got, or [None] where it waits. *)
Fixpoint read_turns (fuel : nat) (e : bool) (size : Z) (got : list Z) : M S (option Z * list Z) :=
  match fuel with
  | O => nofuel
  | Datatypes.S fuel' =>
      let read := Z.of_nat (length got) in
      if bool_decide (read < size) then
        on_ring spin_lock;;
        empty ← on_ring ringbuf_isempty;
        p ← rdp;
        if (empty : bool) then
          if bool_decide (p_wopen p = 0) then
            on_ring spin_unlock;;
            unlock_pipe;;
            unlock_end e;;
            mret (Some (if bool_decide (read = 0) then - EPIPE else read), got)
          else
            signal writers;;
            on_ring spin_unlock;;
            unlock_pipe;;
            unlock_end e;;
            mret (None, got)
        else
          l ← on_ring (ringbuf_read (size - read));
          on_ring spin_unlock;;
          read_turns fuel' e size (got ++ l)
      else
        signal writers;;
        unlock_pipe;;
        unlock_end e;;
        mret (Some read, got)
  end.
Definition pipe_iread_enter (e : bool) (size : Z) : M S (option Z * list Z) :=
  lock_end e;;
  lock_pipe;;
  x ← gets (the_end e);
  if negb (any (e_mask x) S_IRUSR) then unlock_pipe;; unlock_end e;; mret (Some (-1), [])
  else read_turns (Datatypes.S (Z.to_nat size)) e size [].
(** After [cond_wait] the ring is read without a new look at whether it is empty. *)
Definition pipe_iread_leave (e : bool) (size : Z) (got : list Z) : M S (option Z * list Z) :=
  lock_end e;;
  lock_pipe;;
  on_ring spin_lock;;
  l ← on_ring (ringbuf_read (size - Z.of_nat (length got)));
  on_ring spin_unlock;;
  read_turns (Datatypes.S (Z.to_nat size)) e size (got ++ l).

(** ** Writing *)

Fixpoint write_turns (fuel : nat) (e : bool) (buf : list Z) (written : Z) : M S (option Z * Z) :=
  match fuel with
  | O => nofuel
  | Datatypes.S fuel' =>
      let size := Z.of_nat (length buf) in
      if bool_decide (written < size) then
        on_ring spin_lock;;
        n ← on_ring ringbuf_available;
        p ← rdp;
        if bool_decide (n = PIPESZ) then
          if bool_decide (p_ropen p = 0) then
            on_ring spin_unlock;;
            unlock_pipe;;
            unlock_end e;;
            mret (Some (if bool_decide (written = 0) then - EPIPE else written), written)
          else
            signal readers;;
            on_ring spin_unlock;;
            unlock_pipe;;
            unlock_end e;;
            mret (None, written)
        else
          n ← on_ring (ringbuf_write (size - written) (drop (Z.to_nat written) buf));
          on_ring spin_unlock;;
          write_turns fuel' e buf (written + n)
      else
        signal readers;;
        unlock_pipe;;
        unlock_end e;;
        mret (Some written, written)
  end.
Definition pipe_iwrite_enter (e : bool) (buf : list Z) : M S (option Z * Z) :=
  lock_end e;;
  lock_pipe;;
  x ← gets (the_end e);
  if negb (any (e_mask x) S_IWUSR) then unlock_pipe;; unlock_end e;; mret (Some (-1), 0)
  else write_turns (Datatypes.S (length buf)) e buf 0.
Definition pipe_iwrite_leave (e : bool) (buf : list Z) (written : Z) : M S (option Z * Z) :=
  lock_end e;;
  lock_pipe;;
  on_ring spin_lock;;
  n ← on_ring (ringbuf_write (Z.of_nat (length buf) - written) (drop (Z.to_nat written) buf));
  on_ring spin_unlock;;
  write_turns (Datatypes.S (length buf)) e buf (written + n).

(** ** Closing *)

Definition pipefs_close (writable : bool) : M S Z :=
  lock_pipe;;
  (if writable then setp (λ p, {| p with p_wopen := 0 |});; signal readers
   else setp (λ p, {| p with p_ropen := 0 |});; signal writers);;
  p ← rdp;
  if bool_decide (p_ropen p = 0 ∧ p_wopen p = 0) then unlock_pipe;; modify (λ s, {| s with pp := None |});; mret 0
  else unlock_pipe;; mret 0.
Definition pipefs_iclose (e : bool) : M S Z :=
  lock_end e;;
  x ← gets (the_end e);
  let writable := any (e_mask x) S_IWUSR || any (e_mask x) S_IWGRP || any (e_mask x) S_IWOTH in
  err ← pipefs_close writable;
  unlock_end e;;
  mret err.

(** [pipefs_mkpipe] and the rest of [pipefs_pipe_raw]: a new pipe with both ends open,
    of mode 0444 and 0222. *)
Definition new_pipe : pipe := Pipe 1 1 false (RINGBUF_NEW PIPESZ).
Definition pipefs_pipe_raw (w : W) : S := Psys (Some new_pipe) (Pend 0x124 false) (Pend 0x92 false) w.

(** [pipefs_can_read], [pipefs_can_write] *)
Definition pipefs_can_read (size : Z) : M S bool :=
  on_ring spin_lock;; n ← on_ring ringbuf_available; on_ring spin_unlock;; mret (bool_decide (size ≤ n)).
Definition pipefs_can_write (size : Z) : M S bool :=
  on_ring spin_lock;;
  n ← on_ring ringbuf_available;
  p ← rdp;
  on_ring spin_unlock;;
  mret (bool_decide (u32 (rb_size (p_ring p) - n) ≤ size)).
End pipe.
