(* ===== verification/PipeSpec.v ===== *)
(** * Pipes: what readers and writers see

    The result of every call on a pipe, up to where it returns or waits; then a pipe that
    tasks use in any order, in which no byte is lost, made up or moved past another.  The
    condition variables are those of the scheduler. *)
From S2P Require Import Prelude FsTypes Inode RingBuf Sched SchedInv SchedSpec SchedSwitch SchedStep Pipe.


Section pipe.
Context {W : Type} `{!Conds W}.

(** ** A pipe at rest *)

(** [p] holds the bytes [l]; [h] bytes were read from it and no position has wrapped around. *)
Record holds (p : pipe) (h : Z) (l : list Z) : Prop := PipeHolds {
  ph_lock : rb_lock (p_ring p) = false;
  ph_ring : ring_rep {| (p_ring p) with rb_lock := true |} l;
  ph_size : rb_size (p_ring p) = PIPESZ;
  ph_head : rb_head (p_ring p) = h;
  ph_pos : h + Z.of_nat (length l) < 2 ^ 32;
}.
(** The state with pipe [p], its lock and the locks of the two ends as given. *)
Record pipe_state (s : psys W) (p : pipe) (locked rlock wlock : bool) : Prop := PipeState {
  ps_pipe : pp s = Some p;
  ps_lock : p_lock p = locked;
  ps_rend : rend s = Pend 0x124 rlock;
  ps_wend : wend s = Pend 0x92 wlock;
  ps_conds : conds_ok (threads_of s);
}.
(** The state of a caller that works on end [e]. *)
Abbreviation working s p e := (pipe_state s p true (negb e) e).
Abbreviation resting s p := (pipe_state s p false false false).

Lemma wp_rdp s p (Q : pipe → psys W → Prop) : pp s = Some p → Q p s → wp rdp Q s.
Proof using Type. intros Hp HQ. eapply wp_eq; [|exact HQ]. unfold rdp. by rewrite Hp. Qed.
Lemma wp_setp s p f (Q : unit → psys W → Prop) : pp s = Some p → Q tt {| s with pp := Some (f p) |} → wp (setp f) Q s.
Proof using Type. intros Hp HQ. eapply wp_eq; [|exact HQ]. unfold setp. by rewrite Hp. Qed.
Lemma wp_on_ring {A} (m : M ringbuf A) s p (Q : A → psys W → Prop) : pp s = Some p →
  wp m (λ a r, Q a {| s with pp := Some {| p with p_ring := r |} |}) (p_ring p) → wp (on_ring m) Q s.
Proof using Type.
  intros Hp (a & r & E & HQ)%wp_exec. eapply wp_eq; [|exact HQ]. unfold on_ring. by rewrite Hp, E.
Qed.
Lemma pipe_state_set s p p' b r w b' : pipe_state s p b r w → p_lock p' = b' → pipe_state {| s with pp := Some p' |} p' b' r w.
Proof using Type. by intros [? ? ? ? ?]. Qed.
Lemma wp_signal c s p b r w (Q : unit → psys W → Prop) : pipe_state s p b r w → c = readers ∨ c = writers →
  (∀ s', pipe_state s' p b r w → Q tt s') → wp (signal c) Q s.
Proof using Type.
  intros [H1 H2 H3 H4 H5] Hc HQ. unfold signal. apply wp_zoom. eapply wp_mono; [by apply signal_keeps|]. intros [] w' Hw. apply HQ. by split.
Qed.
Lemma wp_lock {B} (K : M (psys W) B) s p e (Q : B → psys W → Prop) : resting s p →
  (∀ s', working s' {| p with p_lock := true |} e → wp K Q s') → wp (lock_end e;; lock_pipe;; K) Q s.
Proof using Type.
  intros [H1 H2 H3 H4 H5] HQ. unfold lock_end, lock_pipe. apply wp_bind, wp_bind, wp_gets.
  assert (e_lock (the_end e s) = false) as -> by (destruct e; simpl; by rewrite ?H3, ?H4). apply wp_modify, wp_bind, wp_bind.
  eapply wp_rdp; [by destruct e|]. rewrite H2. eapply wp_setp; [by destruct e|]. apply HQ. by destruct e; split; simpl; rewrite ?H3, ?H4.
Qed.
Lemma wp_unlock {B} (K : M (psys W) B) s p e (Q : B → psys W → Prop) : working s p e →
  (∀ s', resting s' {| p with p_lock := false |} → wp K Q s') → wp (unlock_pipe;; unlock_end e;; K) Q s.
Proof using Type.
  intros [H1 H2 H3 H4 H5] HQ. unfold unlock_end, unlock_pipe. apply wp_bind, wp_bind. eapply wp_rdp; [done|]. rewrite H2.
  eapply wp_setp; [done|]. apply wp_bind, wp_bind, wp_gets.
  assert (e_lock (the_end e {| s with pp := Some {| p with p_lock := false |} |}) = true) as -> by (destruct e; simpl; by rewrite ?H3, ?H4).
  apply wp_modify. apply HQ. by destruct e; split; simpl; rewrite ?H3, ?H4.
Qed.

Definition ringed (p : pipe) (r : ringbuf) : pipe := {| p with p_ring := r |}.
Lemma wp_ring_lock s p b x y (Q : unit → psys W → Prop) : pipe_state s p b x y → rb_lock (p_ring p) = false →
  (∀ s', pipe_state s' (ringed p {| (p_ring p) with rb_lock := true |}) b x y → Q tt s') → wp (on_ring spin_lock) Q s.
Proof using Type.
  intros Hs Hl HQ. eapply wp_on_ring; [by destruct Hs|]. apply wp_spin_lock; [done|]. apply HQ. eapply pipe_state_set; [done|]. by destruct Hs.
Qed.
Lemma wp_ring_unlock s p b x y (Q : unit → psys W → Prop) : pipe_state s p b x y → rb_lock (p_ring p) = true →
  (∀ s', pipe_state s' (ringed p {| (p_ring p) with rb_lock := false |}) b x y → Q tt s') → wp (on_ring spin_unlock) Q s.
Proof using Type.
  intros Hs Hl HQ. eapply wp_on_ring; [by destruct Hs|]. apply wp_spin_unlock; [done|]. apply HQ. eapply pipe_state_set; [done|]. by destruct Hs.
Qed.

(** ** Reading *)

Definition flags (p p' : pipe) : Prop := p_ropen p' = p_ropen p ∧ p_wopen p' = p_wopen p.
(** What a call returns that has moved [total] bytes of [size] and can move no more;
    [None]: it waits.  [peer]: the other end is open. *)
Definition ret_value (size total peer : Z) : option Z :=
  if bool_decide (size ≤ total) then Some total
  else if bool_decide (peer = 0) then Some (if bool_decide (total = 0) then - EPIPE else total) else None.

Lemma holds_locked p h l : holds p h l → ring_rep (p_ring (ringed p {| (p_ring p) with rb_lock := true |})) l.
Proof using Type. by intros []. Qed.
Lemma holds_unlocked p r h l : ring_rep r l → rb_size r = PIPESZ → rb_head r = h → h + Z.of_nat (length l) < 2 ^ 32 →
  holds (ringed p {| r with rb_lock := false |}) h l.
Proof using Type.
  intros Hr Hs Hh Hp. split; simpl; [done| |done|done|done]. replace {| r with rb_lock := true |} with r; [done|]. pose proof (rr_lock _ _ Hr).
  destruct r. simpl in *. by subst.
Qed.
Lemma holds_set_lock p b h l : holds p h l → holds {| p with p_lock := b |} h l.
Proof using Type. by intros []. Qed.
(** Reading under the lock of the ring. *)
Lemma wp_take_bytes {B} (K : list Z → M (psys W) B) n s p h l b x y (Q : B → psys W → Prop) : pipe_state s p b x y →
  ring_rep (p_ring p) l → rb_size (p_ring p) = PIPESZ → rb_head (p_ring p) = h → h + Z.of_nat (length l) < 2 ^ 32 →
  (∀ s' p', pipe_state s' p' b x y → holds p' (h + Z.of_nat (length (take n l))) (drop n l) → flags p p' → wp (K (take n l)) Q s') →
  wp (l ← on_ring (ringbuf_read (Z.of_nat n)); on_ring spin_unlock;; K l) Q s.
Proof using Type.
  intros Hs Hr Hz Hh Hpos HQ. apply wp_bind. eapply wp_on_ring; [by destruct Hs|]. eapply wp_ringbuf_read; [done|]. rewrite Nat2Z.id. intros r' Hr' Hs' Hh'.
  apply wp_bind. eapply (wp_ring_unlock _ (ringed p r')); [eapply pipe_state_set; [done|by destruct Hs]|by apply (rr_lock _ _ Hr')|].
  intros s' Hst. eapply HQ; [exact Hst| |done]. change (holds (ringed p {| r' with rb_lock := false |}) (h + Z.of_nat (length (take n l))) (drop n l)).
  pose proof (length_take l n). pose proof (length_drop l n). pose proof (rr_head _ _ Hr). subst h.
  apply holds_unlocked; [done|congruence|rewrite Hh', u32_small; lia|lia].
Qed.
Lemma take_min {A} n (l : list A) : take (n `min` length l) l = take n l.
Proof using Type. by rewrite <- take_take, (take_ge l (length l)) by lia. Qed.
Lemma drop_min {A} n (l : list A) : drop (n `min` length l) l = drop n l.
Proof using Type. destruct (decide (n ≤ length l)%nat); [by rewrite Nat.min_l by lia|by rewrite Nat.min_r, !drop_ge by lia]. Qed.

(** Leaving with the ring as it was found. *)
Lemma wp_leave_locks {B} (K : M (psys W) B) e s p h l (Q : B → psys W → Prop) : working s (ringed p {| (p_ring p) with rb_lock := true |}) e → holds p h l →
  (∀ s' p', resting s' p' → holds p' h l → flags p p' → wp K Q s') → wp (on_ring spin_unlock;; unlock_pipe;; unlock_end e;; K) Q s.
Proof using Type.
  intros Hs Hh HQ. apply wp_bind. eapply wp_ring_unlock; [done|done|]. intros s3 Hs3. eapply wp_unlock; [done|]. intros s4 Hs4.
  eapply HQ; [exact Hs4| |done]. apply holds_set_lock. destruct Hh as [? ? ? ? ?]. by apply holds_unlocked.
Qed.
(** A look at the ring that changes nothing. *)
Lemma wp_look {A} (m : M ringbuf A) a s p b x y (Q : A → psys W → Prop) : pipe_state s p b x y → m (p_ring p) = Ok (a, p_ring p) →
  (∀ s', pipe_state s' p b x y → Q a s') → wp (on_ring m) Q s.
Proof using Type.
  intros Hs E HQ. eapply wp_on_ring; [by destruct Hs|]. eapply wp_eq; [exact E|]. apply HQ. destruct Hs. split; try done. simpl. by destruct p.
Qed.
Lemma isempty_value r l : ring_rep r l → ringbuf_isempty r = Ok (bool_decide (l = []), r).
Proof using Type.
  intros Hr. assert (H : wp ringbuf_isempty (λ b r', b = bool_decide (l = []) ∧ r' = r) r) by by eapply wp_isempty.
  apply wp_exec in H as (b & r' & E & -> & ->). done.
Qed.

(** What a reader that finds the bytes [l] does until it returns or waits. *)
Lemma wp_read_turns fuel e size got s p h l (Q : option Z * list Z → psys W → Prop) : working s p e → holds p h l →
  (Z.to_nat size - length got < fuel)%nat → let k := ((Z.to_nat size - length got) `min` length l)%nat in
  (∀ s' p', resting s' p' → holds p' (h + Z.of_nat k) (drop k l) → flags p p' →
    Q (ret_value size (Z.of_nat (length got + k)) (p_wopen p), got ++ take k l) s') →
  wp (read_turns fuel e size got) Q s.
Proof using Type.
  revert got s p h l. induction fuel as [|fuel IH]; intros got s p h l Hs Hh Hf k HQ; [lia|]. cbn [read_turns]. cbv zeta.
  case_bool_decide as Hlt.
  - apply wp_bind. eapply wp_ring_lock; [done|by destruct Hh|]. intros s0 Hs0. apply wp_bind.
    eapply wp_look; [done|by eapply isempty_value, holds_locked|]. intros s1 Hs1. apply wp_bind. eapply wp_rdp; [by destruct Hs1|].
    case_bool_decide as Hl.
    + subst l. unfold k, ret_value in HQ. rewrite Nat.min_0_r, Z.add_0_r in HQ. simpl in HQ. rewrite Nat.add_0_r, app_nil_r in HQ.
      rewrite bool_decide_false in HQ by lia. simpl. destruct (decide (p_wopen p = 0)) as [Hw|Hw].
      * rewrite bool_decide_true in HQ by done. rewrite bool_decide_true by done. eapply wp_leave_locks; [done..|]. intros. by eapply wp_ret, HQ.
      * rewrite bool_decide_false in HQ by done. rewrite bool_decide_false by done. apply wp_bind.
        eapply wp_signal; [done|by right|]. intros s2 Hs2. eapply wp_leave_locks; [done..|]. intros. by eapply wp_ret, HQ.
    + destruct Hh as [? Hr ? ? ?]. replace (size - Z.of_nat (length got)) with (Z.of_nat (Z.to_nat size - length got)) by lia.
      set (n := (Z.to_nat size - length got)%nat) in *. eapply wp_take_bytes; [done|done|done|done|done|]. intros s2 p2 Hs2 Hh2 [G1 G2].
      assert (Hl0 : (0 < length l)%nat) by (destruct l; simpl; [done|lia]).
      rewrite length_take in Hh2. rewrite <- (take_min n l), <- (drop_min n l) in *. fold k in Hh2 |- *.
      assert (Hlen : length (take k l) = k) by (rewrite length_take; lia).
      eapply IH; [done|done|rewrite length_app, Hlen; lia|]. rewrite length_app, Hlen, length_drop.
      assert ((Z.to_nat size - (length got + k)) `min` (length l - k) = 0)%nat as -> by lia. simpl. intros s3 p3 Hs3 Hh3 [F1 F2].
      rewrite Z.add_0_r in Hh3. rewrite Nat.add_0_r, app_nil_r, G2. eapply HQ; [exact Hs3|exact Hh3|split; etransitivity; done].
  - apply wp_bind. eapply wp_signal; [done|by right|]. intros s1 Hs1. eapply wp_unlock; [done|]. intros s2 Hs2. apply wp_ret.
    assert (k = 0%nat) as Hk by lia. rewrite Hk in HQ. simpl in HQ. unfold ret_value in HQ. rewrite Nat.add_0_r, app_nil_r, bool_decide_true in HQ by lia.
    rewrite Z.add_0_r in HQ. eapply HQ; [exact Hs2|by apply holds_set_lock|done].
Qed.

(** ** Writing *)

Lemma wp_put {B} (K : Z → M (psys W) B) buf s p h l b x y (Q : B → psys W → Prop) : pipe_state s p b x y →
  ring_rep (p_ring p) l → rb_size (p_ring p) = PIPESZ → rb_head (p_ring p) = h → h + Z.of_nat (length l + length buf) < 2 ^ 32 →
  let k := (length buf `min` (512 - length l))%nat in
  (∀ s' p', pipe_state s' p' b x y → holds p' h (l ++ take k buf) → flags p p' → wp (K (Z.of_nat k)) Q s') →
  wp (n ← on_ring (ringbuf_write (Z.of_nat (length buf)) buf); on_ring spin_unlock;; K n) Q s.
Proof using Type.
  intros Hs Hr Hz Hh Hpos k HQ. apply wp_bind. eapply wp_on_ring; [by destruct Hs|]. eapply wp_ringbuf_write; [done|]. intros r' k' Hk Hs' Hh' Hr'.
  rewrite Hz in Hk. change (k' = k) in Hk. subst k'. apply wp_bind.
  eapply (wp_ring_unlock _ (ringed p r')); [eapply pipe_state_set; [done|by destruct Hs]|by apply (rr_lock _ _ Hr')|].
  intros s' Hst. eapply HQ; [exact Hst| |done]. change (holds (ringed p {| r' with rb_lock := false |}) h (l ++ take k buf)).
  pose proof (length_take buf k). apply holds_unlocked; [done|congruence|congruence|rewrite length_app; lia].
Qed.
(** The ring is full where the code says it is, as long as no position wraps around. *)
Lemma available_value p h l : holds p h l → ringbuf_available (p_ring (ringed p {| (p_ring p) with rb_lock := true |})) =
  Ok (Z.of_nat (length l), p_ring (ringed p {| (p_ring p) with rb_lock := true |})).
Proof using Type.
  intros [H1 H2 H3 H4 H5]. simpl. rewrite (ringbuf_available_value _ l), bool_decide_true; [done|simpl; lia|done].
Qed.
Lemma wp_write_turns fuel e buf w s p h l (Q : option Z * Z → psys W → Prop) : working s p e → holds p h l → (w ≤ length buf)%nat →
  h + Z.of_nat (length l + (length buf - w)) < 2 ^ 32 →
  (length buf - w < fuel)%nat → let k := ((length buf - w) `min` (512 - length l))%nat in
  (∀ s' p', resting s' p' → holds p' h (l ++ take k (drop w buf)) → flags p p' →
    Q (ret_value (Z.of_nat (length buf)) (Z.of_nat (w + k)) (p_ropen p), Z.of_nat (w + k)) s') →
  wp (write_turns fuel e buf (Z.of_nat w)) Q s.
Proof using Type.
  revert w s p h l. induction fuel as [|fuel IH]; intros w s p h l Hs Hh Hw Hpos Hf k HQ; [lia|]. cbn [write_turns]. cbv zeta.
  case_bool_decide as Hlt.
  - apply wp_bind. eapply wp_ring_lock; [done|by destruct Hh|]. intros s0 Hs0. apply wp_bind.
    eapply wp_look; [done|by eapply available_value|]. intros s1 Hs1. apply wp_bind. eapply wp_rdp; [by destruct Hs1|].
    pose proof (rr_fits _ _ (ph_ring _ _ _ Hh)) as Hfit. simpl in Hfit. rewrite (ph_size _ _ _ Hh) in Hfit. unfold PIPESZ in Hfit.
    destruct (decide (length l = 512%nat)) as [Hl|Hl].
    + rewrite (bool_decide_true (_ = PIPESZ)) by (unfold PIPESZ; lia). unfold ret_value in HQ. assert (k = 0%nat) as -> by lia. simpl in HQ.
      rewrite Nat.add_0_r, app_nil_r, bool_decide_false in HQ by lia. simpl. destruct (decide (p_ropen p = 0)) as [Hr|Hr].
      * rewrite bool_decide_true in HQ by done. rewrite bool_decide_true by done. eapply wp_leave_locks; [done..|]. intros. by eapply wp_ret, HQ.
      * rewrite bool_decide_false in HQ by done. rewrite bool_decide_false by done. apply wp_bind.
        eapply wp_signal; [done|by left|]. intros s2 Hs2. eapply wp_leave_locks; [done..|]. intros. by eapply wp_ret, HQ.
    + rewrite (bool_decide_false (_ = PIPESZ)) by (unfold PIPESZ; lia). destruct Hh as [? Hr ? ? ?]. rewrite Nat2Z.id.
      replace (Z.of_nat (length buf) - Z.of_nat w) with (Z.of_nat (length (drop w buf))) by (rewrite length_drop; lia).
      eapply wp_put; [done|done|done|done|rewrite length_drop; lia|]. rewrite length_drop. fold k. intros s2 p2 Hs2 Hh2 [G1 G2].
      assert (Hlen : length (take k (drop w buf)) = k) by (rewrite length_take, length_drop; lia).
      rewrite <- Nat2Z.inj_add. eapply IH; [done|done|lia|rewrite length_app; lia|lia|]. rewrite length_app, Hlen.
      assert ((length buf - (w + k)) `min` (512 - (length l + k)) = 0)%nat as -> by lia. simpl. intros s3 p3 Hs3 Hh3 [F1 F2].
      rewrite app_nil_r in Hh3. rewrite Nat.add_0_r, G1. eapply HQ; [exact Hs3|exact Hh3|split; etransitivity; done].
  - apply wp_bind. eapply wp_signal; [done|by left|]. intros s1 Hs1. eapply wp_unlock; [done|]. intros s2 Hs2. apply wp_ret.
    assert (k = 0%nat) as Hk by lia. rewrite Hk in HQ. simpl in HQ. unfold ret_value in HQ. rewrite Nat.add_0_r, app_nil_r, bool_decide_true in HQ by lia.
    eapply HQ; [exact Hs2|by apply holds_set_lock|done].
Qed.

(** ** Whole calls, up to where they return or wait *)

Lemma wp_read_enter size s p h l (Q : option Z * list Z → psys W → Prop) : resting s p → holds p h l →
  let k := (Z.to_nat size `min` length l)%nat in
  (∀ s' p', resting s' p' → holds p' (h + Z.of_nat k) (drop k l) → flags p p' → Q (ret_value size (Z.of_nat k) (p_wopen p), take k l) s') →
  wp (pipe_iread_enter false size) Q s.
Proof using Type.
  intros Hs Hh k HQ. unfold pipe_iread_enter. eapply wp_lock; [done|]. intros s1 Hs1. apply wp_bind, wp_gets.
  assert (negb (any (e_mask (the_end false s1)) S_IRUSR) = false) as -> by (simpl; by rewrite (ps_rend _ _ _ _ _ Hs1)).
  eapply wp_read_turns; [done|by apply holds_set_lock|simpl; lia|]. simpl. by rewrite Nat.sub_0_r.
Qed.
Lemma wp_read_leave size got s p h l (Q : option Z * list Z → psys W → Prop) : resting s p → holds p h l → Z.of_nat (length got) ≤ size →
  let k := ((Z.to_nat size - length got) `min` length l)%nat in
  (∀ s' p', resting s' p' → holds p' (h + Z.of_nat k) (drop k l) → flags p p' →
    Q (ret_value size (Z.of_nat (length got + k)) (p_wopen p), got ++ take k l) s') →
  wp (pipe_iread_leave false size got) Q s.
Proof using Type.
  intros Hs Hh Hsz k HQ. unfold pipe_iread_leave. eapply wp_lock; [done|]. intros s1 Hs1. apply wp_bind.
  eapply wp_ring_lock; [done|by destruct Hh|]. intros s2 Hs2. destruct Hh as [? Hr ? ? ?].
  replace (size - Z.of_nat (length got)) with (Z.of_nat (Z.to_nat size - length got)) by lia.
  set (n := (Z.to_nat size - length got)%nat) in *. eapply wp_take_bytes; [done|done|done|done|done|]. intros s3 p3 Hs3 Hh3 [G1 G2].
  rewrite length_take in Hh3. rewrite <- (take_min n l), <- (drop_min n l) in *. fold k in Hh3 |- *.
  assert (Hlen : length (take k l) = k) by (rewrite length_take; lia).
  eapply wp_read_turns; [done|done|rewrite length_app, Hlen; lia|]. rewrite length_app, Hlen, length_drop.
  assert ((Z.to_nat size - (length got + k)) `min` (length l - k) = 0)%nat as -> by lia. simpl. intros s4 p4 Hs4 Hh4 [F1 F2].
  rewrite Z.add_0_r in Hh4. rewrite Nat.add_0_r, app_nil_r, G2. eapply HQ; [exact Hs4|exact Hh4|split; etransitivity; done].
Qed.
Lemma wp_write_enter buf s p h l (Q : option Z * Z → psys W → Prop) : resting s p → holds p h l →
  h + Z.of_nat (length l + length buf) < 2 ^ 32 → let k := (length buf `min` (512 - length l))%nat in
  (∀ s' p', resting s' p' → holds p' h (l ++ take k buf) → flags p p' →
    Q (ret_value (Z.of_nat (length buf)) (Z.of_nat k) (p_ropen p), Z.of_nat k) s') →
  wp (pipe_iwrite_enter true buf) Q s.
Proof using Type.
  intros Hs Hh Hpos k HQ. unfold pipe_iwrite_enter. eapply wp_lock; [done|]. intros s1 Hs1. apply wp_bind, wp_gets.
  assert (negb (any (e_mask (the_end true s1)) S_IWUSR) = false) as -> by (simpl; by rewrite (ps_wend _ _ _ _ _ Hs1)).
  eapply (wp_write_turns _ _ _ 0%nat); [done|by apply holds_set_lock|lia|lia|lia|].
  simpl. by rewrite Nat.sub_0_r.
Qed.
Lemma wp_write_leave buf w s p h l (Q : option Z * Z → psys W → Prop) : resting s p → holds p h l → (w ≤ length buf)%nat →
  h + Z.of_nat (length l + (length buf - w)) < 2 ^ 32 → let k := ((length buf - w) `min` (512 - length l))%nat in
  (∀ s' p', resting s' p' → holds p' h (l ++ take k (drop w buf)) → flags p p' →
    Q (ret_value (Z.of_nat (length buf)) (Z.of_nat (w + k)) (p_ropen p), Z.of_nat (w + k)) s') →
  wp (pipe_iwrite_leave true buf (Z.of_nat w)) Q s.
Proof using Type.
  intros Hs Hh Hw Hpos k HQ. unfold pipe_iwrite_leave. eapply wp_lock; [done|]. intros s1 Hs1. apply wp_bind.
  eapply wp_ring_lock; [done|by destruct Hh|]. intros s2 Hs2. destruct Hh as [? Hr ? ? ?]. rewrite Nat2Z.id.
  replace (Z.of_nat (length buf) - Z.of_nat w) with (Z.of_nat (length (drop w buf))) by (rewrite length_drop; lia).
  eapply wp_put; [done|done|done|done|rewrite length_drop; lia|]. rewrite length_drop. fold k. intros s3 p3 Hs3 Hh3 [G1 G2].
  assert (Hlen : length (take k (drop w buf)) = k) by (rewrite length_take, length_drop; lia).
  rewrite <- Nat2Z.inj_add. eapply wp_write_turns; [done|done|lia|rewrite length_app; lia|lia|]. rewrite length_app, Hlen.
  assert ((length buf - (w + k)) `min` (512 - (length l + k)) = 0)%nat as -> by lia. simpl. intros s4 p4 Hs4 Hh4 [F1 F2].
  rewrite app_nil_r in Hh4. rewrite Nat.add_0_r, G1. eapply HQ; [exact Hs4|exact Hh4|split; etransitivity; done].
Qed.

(** Closing an end: the pipe without it, or no pipe when the other is closed too. *)
Definition without (e : bool) (p : pipe) : pipe := if e then {| p with p_wopen := 0 |} else {| p with p_ropen := 0 |}.
Lemma without_holds e p h l : holds p h l → holds (without e p) h l.
Proof using Type. intros []. by destruct e. Qed.
Lemma wp_lock_end e s p (Q : unit → psys W → Prop) : resting s p → (∀ s', pipe_state s' p false (negb e) e → Q tt s') → wp (lock_end e) Q s.
Proof using Type.
  intros [H1 H2 H3 H4 H5] HQ. unfold lock_end. apply wp_bind, wp_gets.
  assert (e_lock (the_end e s) = false) as -> by (destruct e; simpl; by rewrite ?H3, ?H4). apply wp_modify, HQ.
  destruct e; split; simpl; rewrite ?H3, ?H4; done.
Qed.
Lemma wp_unlock_end e s (Q : unit → psys W → Prop) : e_lock (the_end e s) = true →
  Q tt (set_end e {| (the_end e s) with e_lock := false |} s) → wp (unlock_end e) Q s.
Proof using Type. intros Hl HQ. unfold unlock_end. apply wp_bind, wp_gets. rewrite Hl. by apply wp_modify. Qed.
Lemma wp_unlock_pipe s p x y (Q : unit → psys W → Prop) : pipe_state s p true x y →
  (∀ s', pipe_state s' {| p with p_lock := false |} false x y → Q tt s') → wp unlock_pipe Q s.
Proof using Type.
  intros Hs HQ. unfold unlock_pipe. apply wp_bind. eapply wp_rdp; [by destruct Hs|]. rewrite (ps_lock _ _ _ _ _ Hs).
  eapply wp_setp; [by destruct Hs|]. by apply HQ, (pipe_state_set _ p _ true).
Qed.
(** The end is marked closed and a task that waits at the other is woken. *)
Lemma wp_mark e s p x y (Q : unit → psys W → Prop) : pipe_state s p true x y → (∀ s', pipe_state s' (without e p) true x y → Q tt s') →
  wp (if e then setp (λ p, {| p with p_wopen := 0 |});; signal readers else setp (λ p, {| p with p_ropen := 0 |});; signal writers) Q s.
Proof using Type.
  intros Hs HQ. pose proof (ps_lock _ _ _ _ _ Hs).
  destruct e; (apply wp_bind; eapply wp_setp; [by destruct Hs|]; eapply wp_signal; [by eapply pipe_state_set|tauto|done]).
Qed.
Lemma end_mask e s p b x y : pipe_state s p b x y →
  any (e_mask (the_end e s)) S_IWUSR || any (e_mask (the_end e s)) S_IWGRP || any (e_mask (the_end e s)) S_IWOTH = e.
Proof using Type. intros [_ _ A3 A4 _]. destruct e; simpl; by rewrite ?A3, ?A4. Qed.
Lemma end_locked e s p b : pipe_state s p b (negb e) e → e_lock (the_end e s) = true.
Proof using Type. intros [_ _ A3 A4 _]. destruct e; simpl; by rewrite ?A3, ?A4. Qed.
Lemma wp_close e s p (Q : Z → psys W → Prop) : resting s p →
  (∀ s', (if bool_decide (p_ropen (without e p) = 0 ∧ p_wopen (without e p) = 0) then pp s' = None else resting s' (without e p)) → Q 0 s') →
  wp (pipefs_iclose e) Q s.
Proof using Type.
  intros Hs HQ. pose proof (ps_lock _ _ _ _ _ Hs) as Hlk. unfold pipefs_iclose. apply wp_bind. eapply wp_lock_end; [done|]. intros s1 Hs1. apply wp_bind, wp_gets, wp_bind.
  rewrite (end_mask e _ _ _ _ _ Hs1). unfold pipefs_close. apply wp_bind. unfold lock_pipe. apply wp_bind. eapply wp_rdp; [by destruct Hs1|].
  rewrite Hlk. eapply wp_setp; [by destruct Hs1|]. apply wp_bind. eapply wp_mark; [by eapply pipe_state_set|]. intros s2 Hs2.
  apply wp_bind. eapply wp_rdp; [by destruct Hs2|].
  assert (Hp : {| (without e {| p with p_lock := true |}) with p_lock := false |} = without e p) by (destruct p, e; simpl in *; by subst).
  assert (bool_decide (p_ropen (without e {| p with p_lock := true |}) = 0 ∧ p_wopen (without e {| p with p_lock := true |}) = 0) =
    bool_decide (p_ropen (without e p) = 0 ∧ p_wopen (without e p) = 0)) as -> by by destruct e.
  case_bool_decide as Hc; apply wp_bind; (eapply wp_unlock_pipe; [done|]); rewrite Hp; intros s3 Hs3; pose proof (end_locked e _ _ _ Hs3).
  - apply wp_bind, wp_modify, wp_ret, wp_bind, wp_unlock_end; [by destruct e|]. apply wp_ret, HQ. by destruct e.
  - apply wp_ret, wp_bind, wp_unlock_end; [done|]. apply wp_ret, HQ. destruct Hs3 as [A1 A2 A3 A4 A5]. destruct e; split; simpl; rewrite ?A3, ?A4; done.
Qed.

(** ** A pipe in use *)

(** The pipe, the calls that wait (what each was asked for and has moved), and all bytes
    writers have put in and readers have got. *)
Record world : Type := World {
  sys : psys W;
  rwait : gmap positive (Z * list Z);
  wwait : gmap positive (list Z * Z);
  sent : list Z;
  recvd : list Z;
}.
(** A task calls read or write, its [cond_wait] returns, an end is closed. *)
Inductive pevent : Type :=
| PRead (t : positive) (size : Z)
| PReadOn (t : positive)
| PWrite (t : positive) (buf : list Z)
| PWriteOn (t : positive)
| PClose (e : bool).
Definition on_sys {A} : M (psys W) A → M world A := zoom sys (λ s w, {| w with sys := s |}).
Definition note_read (t : positive) (size : Z) (had : nat) (r : option Z * list Z) : M world unit := modify (λ w,
  {| w with recvd := recvd w ++ drop had r.2; rwait := match r.1 with Some _ => delete t (rwait w) | None => <[t := (size, r.2)]> (rwait w) end |}).
Definition note_write (t : positive) (buf : list Z) (had : Z) (r : option Z * Z) : M world unit := modify (λ w,
  {| w with sent := sent w ++ take (Z.to_nat (r.2 - had)) (drop (Z.to_nat had) buf);
            wwait := match r.1 with Some _ => delete t (wwait w) | None => <[t := (buf, r.2)]> (wwait w) end |}).
Definition do_pevent (e : pevent) : M world unit :=
  match e with
  | PRead t size => r ← on_sys (pipe_iread_enter false size); note_read t size 0 r
  | PReadOn t => c ← gets (λ w, rwait w !! t);
      match c with Some (size, got) => r ← on_sys (pipe_iread_leave false size got); note_read t size (length got) r | None => fault end
  | PWrite t buf => r ← on_sys (pipe_iwrite_enter true buf); note_write t buf 0 r
  | PWriteOn t => c ← gets (λ w, wwait w !! t);
      match c with Some (buf, n) => r ← on_sys (pipe_iwrite_leave true buf n); note_write t buf n r | None => fault end
  | PClose e => on_sys (pipefs_iclose e);; mret tt
  end.
(** The events that can happen: an end is used while it is open and closed when no call on
    it waits; and fewer than 4 GiB go through the pipe in all, since past that the code
    takes a wrong number for the bytes in the ring. *)
Definition end_open (e : bool) (w : world) : Prop := ∃ p, pp (sys w) = Some p ∧ (if e then p_wopen p else p_ropen p) ≠ 0.
Definition penabled (e : pevent) (w : world) : Prop :=
  match e with
  | PRead t size => end_open false w ∧ rwait w !! t = None ∧ 0 ≤ size
  | PReadOn t => is_Some (rwait w !! t)
  | PWrite t buf => end_open true w ∧ wwait w !! t = None ∧ Z.of_nat (length (sent w) + length buf) < 2 ^ 32
  | PWriteOn t => ∃ buf n, wwait w !! t = Some (buf, n) ∧ Z.of_nat (length (sent w) + length buf) - n < 2 ^ 32
  | PClose e => end_open e w ∧ (if e then wwait w = ∅ else rwait w = ∅)
  end.
Inductive preachable : world → Prop :=
| preach_new t : conds_ok t → preachable (World (pipefs_pipe_raw t) ∅ ∅ [] [])
| preach_step e w w' : preachable w → penabled e w → do_pevent e w = Ok (tt, w') → preachable w'.

(** The bytes put in are those got and those in the pipe, in this order. *)
Record fifo (w : world) : Prop := Fifo {
  fi_reads : ∀ t size got, rwait w !! t = Some (size, got) → Z.of_nat (length got) ≤ size;
  fi_writes : ∀ t buf n, wwait w !! t = Some (buf, n) → 0 ≤ n ≤ Z.of_nat (length buf);
  fi_pipe : match pp (sys w) with
            | Some p => resting (sys w) p ∧ (∃ l, holds p (Z.of_nat (length (recvd w))) l ∧ sent w = recvd w ++ l) ∧
                (p_ropen p = 0 → rwait w = ∅) ∧ (p_wopen p = 0 → wwait w = ∅)
            | None => rwait w = ∅ ∧ wwait w = ∅ ∧ recvd w `prefix_of` sent w
            end;
}.
Lemma ret_value_cases size total peer : match ret_value size total peer with Some _ => True | None => total < size ∧ peer ≠ 0 end.
Proof using Type. unfold ret_value. repeat case_bool_decide; lia || done. Qed.
Lemma wp_on_sys {A} (m : M (psys W) A) w (Q : A → world → Prop) :
  wp m (λ a s, Q a {| w with sys := s |}) (sys w) → wp (on_sys m) Q w.
Proof using Type. intros H. by apply wp_zoom. Qed.

Lemma fifo_read t size got k s' p' w p l : fifo w → pp (sys w) = Some p → p_ropen p ≠ 0 →
  holds p (Z.of_nat (length (recvd w))) l → sent w = recvd w ++ l → k = ((Z.to_nat size - length got) `min` length l)%nat →
  0 ≤ size → Z.of_nat (length got) ≤ size →
  resting s' p' → holds p' (Z.of_nat (length (recvd w)) + Z.of_nat k) (drop k l) → flags p p' →
  wp (note_read t size (length got) (ret_value size (Z.of_nat (length got + k)) (p_wopen p), got ++ take k l)) (λ (_ : unit) (w' : world), fifo w') {| w with sys := s' |}.
Proof using Type.
  intros [F1 F2 F3] Hp Ho Hh Hse Hk Hsz Hgot Hs' Hh' [G1 G2]. apply wp_modify. rewrite Hp in F3. destruct F3 as (_ & _ & F4 & F5). simpl.
  rewrite drop_app_length. split; simpl.
  - intros t' size' got'. destruct (ret_value _ _ _); [intros [_ H]%lookup_delete_Some; by eapply F1|].
    intros [[_ [= <- <-]]|[_ H]]%lookup_insert_Some; [|by eapply F1]. rewrite length_app, length_take. lia.
  - done.
  - rewrite (ps_pipe _ _ _ _ _ Hs'), G1, G2. split_and!; [by destruct Hs'|exists (drop k l)|done|done].
    rewrite length_app, length_take, <- app_assoc, take_drop. split; [|done]. rewrite Nat2Z.inj_add. rewrite Nat.min_l by lia. done.
Qed.
Lemma fifo_write t buf n k s' p' w p l : fifo w → pp (sys w) = Some p → p_wopen p ≠ 0 →
  sent w = recvd w ++ l → k = ((length buf - n) `min` (512 - length l))%nat → (n ≤ length buf)%nat →
  resting s' p' → holds p' (Z.of_nat (length (recvd w))) (l ++ take k (drop n buf)) → flags p p' →
  wp (note_write t buf (Z.of_nat n) (ret_value (Z.of_nat (length buf)) (Z.of_nat (n + k)) (p_ropen p), Z.of_nat (n + k))) (λ (_ : unit) (w' : world), fifo w') {| w with sys := s' |}.
Proof using Type.
  intros [F1 F2 F3] Hp Ho Hse Hk Hn Hs' Hh' [G1 G2]. apply wp_modify. rewrite Hp in F3. destruct F3 as (_ & _ & F4 & F5). simpl.
  replace (Z.to_nat (Z.of_nat (n + k) - Z.of_nat n)) with k by lia. rewrite Nat2Z.id. split; simpl.
  - done.
  - intros t' buf' n'. destruct (ret_value _ _ _); [intros [_ H]%lookup_delete_Some; by eapply F2|].
    intros [[_ [= <- <-]]|[_ H]]%lookup_insert_Some; [lia|by eapply F2].
  - rewrite (ps_pipe _ _ _ _ _ Hs'), G1, G2. split_and!; [by destruct Hs'|exists (l ++ take k (drop n buf))|done|done].
    by rewrite Hse, <- app_assoc.
Qed.
Lemma fifo_close (e : bool) s' w p : fifo w → pp (sys w) = Some p → (if e then wwait w = ∅ else rwait w = ∅) →
  (if bool_decide (p_ropen (without e p) = 0 ∧ p_wopen (without e p) = 0) then pp s' = None else resting s' (without e p)) →
  fifo {| w with sys := s' |}.
Proof using Type.
  intros [F1 F2 F3] Hp He Hs'. rewrite Hp in F3. destruct F3 as (_ & (l & Hh & Hl) & F4 & F5). split; simpl; [done|done|].
  case_bool_decide as Hc.
  - rewrite Hs'. rewrite Hl. split_and!; [destruct e, Hc; auto..|by exists l].
  - rewrite (ps_pipe _ _ _ _ _ Hs'). split_and!; [done|exists l; split; [by apply without_holds|done]|destruct e; auto..].
Qed.
Lemma do_pevent_ok e w : fifo w → penabled e w → wp (do_pevent e) (λ (_ : unit) (w' : world), fifo w') w.
Proof using Type.
  intros F He. pose proof F as [F1 F2 F3]. destruct e as [t size|t|t buf|t|e]; simpl.
  - destruct He as [(p & Hp & Ho) [Ht Hsz]]. rewrite Hp in F3. destruct F3 as (Hs & (l & Hh & Hl) & F4 & F5).
    apply wp_bind, wp_on_sys. eapply wp_read_enter; [done..|]. intros s' p' Hs' Hh' Hf.
    eapply (fifo_read t size [] _ _ p' w p l); try done. by rewrite Nat.sub_0_r.
  - destruct He as [[size got] Ht]. apply wp_bind, wp_gets. rewrite Ht.
    destruct (pp (sys w)) as [p|] eqn:Hp; [|destruct F3 as (F3 & _); by rewrite F3 in Ht].
    destruct F3 as (Hs & (l & Hh & Hl) & F4 & F5). assert (p_ropen p ≠ 0) by (intros Ho; by rewrite (F4 Ho) in Ht).
    pose proof (F1 _ _ _ Ht). apply wp_bind, wp_on_sys. eapply wp_read_leave; [done..|]. intros s' p' Hs' Hh' Hf.
    eapply (fifo_read t size got _ _ p' w p l); try done. lia.
  - destruct He as [(p & Hp & Ho) [Ht Hb]]. rewrite Hp in F3. destruct F3 as (Hs & (l & Hh & Hl) & F4 & F5). rewrite Hl, length_app in Hb.
    apply wp_bind, wp_on_sys. eapply wp_write_enter; [done..|lia|]. intros s' p' Hs' Hh' Hf.
    eapply (fifo_write t buf 0 _ _ p' w p l); first [done|by rewrite Nat.sub_0_r|lia].
  - destruct He as (buf & n & Ht & Hb). apply wp_bind, wp_gets. rewrite Ht.
    destruct (pp (sys w)) as [p|] eqn:Hp; [|destruct F3 as (_ & F3 & _); by rewrite F3 in Ht].
    destruct F3 as (Hs & (l & Hh & Hl) & F4 & F5). assert (p_wopen p ≠ 0) by (intros Ho; by rewrite (F5 Ho) in Ht).
    pose proof (F2 _ _ _ Ht) as Hn. rewrite Hl, length_app in Hb. replace n with (Z.of_nat (Z.to_nat n)) by lia.
    apply wp_bind, wp_on_sys. eapply wp_write_leave; [done..|lia|lia|]. intros s' p' Hs' Hh' Hf.
    eapply (fifo_write t buf (Z.to_nat n) _ _ p' w p l); try done; lia.
  - destruct He as [(p & Hp & Ho) Hw]. rewrite Hp in F3. destruct F3 as (Hs & _). apply wp_bind, wp_on_sys.
    eapply wp_close; [done|]. intros s' Hs'. by apply wp_ret, (fifo_close e s' w p).
Qed.
Lemma new_pipe_holds : holds new_pipe 0 [].
Proof using Type. split; [done| |done|done|done]. split; simpl; try done. unfold PIPESZ. exists (2 ^ 23). lia. Qed.
Lemma preachable_fifo w : preachable w → fifo w.
Proof using Type.
  induction 1 as [t Ht|e w w' _ IH He E]; [|destruct (proj1 (wp_exec _ _ _) (do_pevent_ok e w IH He)) as ([] & w2 & E' & F); congruence].
  split; simpl; [done|done|]. split_and!; [by split|exists []; split; [apply new_pipe_holds|done]|done|done].
Qed.

(** C7: Tasks read from and write to a pipe and close its ends, in any order, and wait and go
    on as often as the scheduler lets them.  What was received is at all times the start
    of what was sent; what is missing is in the pipe, in order, and is at most 512 bytes.
    No step panics, faults or finds a lock taken, and when no task waits at an end it can
    be closed.  An end is used only while it is open, and fewer than 4 GiB are ever put
    into the pipe ([penabled]): the positions of the ring wrap around there, and
    [ringbuf_available] is wrong while one has and the other has not
    ([RingBuf.ringbuf_available_spec]). *)
Theorem pipe_fifo w : preachable w →
  (recvd w `prefix_of` sent w) ∧
  (∀ p, pp (sys w) = Some p → ∃ l, holds p (Z.of_nat (length (recvd w))) l ∧ sent w = recvd w ++ l ∧ (length l ≤ 512)%nat) ∧
  (∀ e, penabled e w → ∃ w', do_pevent e w = Ok (tt, w') ∧ preachable w').
Proof using Type.
  intros Hr. pose proof (preachable_fifo w Hr) as F. pose proof F as [F1 F2 F3]. split_and!.
  - destruct (pp (sys w)); [destruct F3 as (_ & (l & _ & ->) & _); by exists l|by destruct F3 as (_ & _ & ?)].
  - intros p Hp. rewrite Hp in F3. destruct F3 as (_ & (l & Hh & Hl) & _). exists l. split_and!; [done|done|].
    pose proof (rr_fits _ _ (ph_ring _ _ _ Hh)) as Hf. simpl in Hf. rewrite (ph_size _ _ _ Hh) in Hf. unfold PIPESZ in Hf. lia.
  - intros e He. destruct (proj1 (wp_exec _ _ _) (do_pevent_ok e w F He)) as ([] & w' & E & _). exists w'. split; [done|by eapply preach_step].
Qed.

(** A read of [size] bytes from a pipe that holds the bytes [l] takes the first of them, as
    many as there are up to [size].  It returns their number when that is all it was asked
    for or when no writer is left, -EPIPE when there is neither a byte nor a writer, and
    waits otherwise.  The pipe keeps the other bytes and all locks are free again. *)
Theorem pipe_iread_correct size s p h l : resting s p → holds p h l →
  let k := (Z.to_nat size `min` length l)%nat in
  ∃ s' p', pipe_iread_enter false size s = Ok ((ret_value size (Z.of_nat k) (p_wopen p), take k l), s') ∧
    resting s' p' ∧ holds p' (h + Z.of_nat k) (drop k l) ∧ flags p p'.
Proof using Type.
  intros Hs Hh k. assert (H : wp (pipe_iread_enter false size) (λ r s', ∃ p', r = (ret_value size (Z.of_nat k) (p_wopen p), take k l) ∧
    resting s' p' ∧ holds p' (h + Z.of_nat k) (drop k l) ∧ flags p p') s) by (eapply wp_read_enter; [done..|]; eauto 10).
  apply wp_exec in H as (r & s' & E & p' & -> & H). eauto.
Qed.

(** A write of [buf] to a pipe that holds [l] puts the first bytes of [buf] behind them, as
    many as fit.  It returns their number when that is all, waits when some do not fit and
    the pipe has a reader, and else returns how many it moved or -EPIPE.  This is as long
    as fewer than 4 GiB went through the pipe. *)
Theorem pipe_iwrite_correct buf s p h l : resting s p → holds p h l → h + Z.of_nat (length l + length buf) < 2 ^ 32 →
  let k := (length buf `min` (512 - length l))%nat in
  ∃ s' p', pipe_iwrite_enter true buf s = Ok ((ret_value (Z.of_nat (length buf)) (Z.of_nat k) (p_ropen p), Z.of_nat k), s') ∧
    resting s' p' ∧ holds p' h (l ++ take k buf) ∧ flags p p'.
Proof using Type.
  intros Hs Hh Hpos k. assert (H : wp (pipe_iwrite_enter true buf) (λ r s', ∃ p',
    r = (ret_value (Z.of_nat (length buf)) (Z.of_nat k) (p_ropen p), Z.of_nat k) ∧
    resting s' p' ∧ holds p' h (l ++ take k buf) ∧ flags p p') s) by (eapply wp_write_enter; [done..|]; eauto 10).
  apply wp_exec in H as (r & s' & E & p' & -> & H). eauto.
Qed.
End pipe.
Abbreviation resting s p := (pipe_state s p false false false).

(** ** The condition variables of the thread code *)

(** [cond_signal] of the scheduler keeps what the pipe needs: the scheduler's invariant and the
    two condition variables. *)
Definition has_conds (r w : positive) (s : sched) : Prop := kernel_ok s ∧ is_Some (conds s !! r) ∧ is_Some (conds s !! w).
Program Definition sched_conds (node_ok : sched → bool) (Hnode : ∀ s, node_ok s = true) (cpu : Z) (r w : positive) : Conds sched := {|
  cond_signal := Sched.cond_signal node_ok cpu;
  conds_ok := has_conds r w;
  readers := r;
  writers := w;
|}.
Next Obligation.
  intros node_ok Hnode cpu r w c s (K & Hr & Hw) Hc.
  eapply wp_mono; [apply (signal_ok_keeps node_ok Hnode cpu c s K); by destruct Hc as [-> | ->]|].
  intros [] s' [K' [_ Hk]]. split_and!; auto.
Qed.

(** ** An example *)

#[local] Instance demo_conds : Conds sched := sched_conds plenty (λ _, eq_refl) 0 1 2.
Definition demo_sched : sched := {| empty_sched with conds := <[1%positive := 0]> (<[2%positive := 0]> ∅) |}.
Lemma demo_conds_ok : conds_ok demo_sched.
Proof.
  split; [|by split]. eapply kernel_ok_intro; [apply empty_kernel_ok|eapply sched_ok_ext; [apply empty_kernel_ok|done..]|done|].
  split; [intros t th Ht; by exists th|by intros c [? ?]].
Qed.
Definition demo_pipe : world := World (pipefs_pipe_raw demo_sched) ∅ ∅ [] [].
Definition then_event (e : pevent) (w : world) : world := match do_pevent e w with Ok (_, w') => w' | _ => w end.
Definition demo_used : world := then_event (PRead 6 5) (then_event (PWrite 5 [10; 20; 30]) demo_pipe).
Lemma reach_event e w : preachable w → penabled e w → preachable (then_event e w).
Proof.
  intros Hr He. destruct (proj1 (wp_exec _ _ _) (do_pevent_ok e w (preachable_fifo w Hr) He)) as ([] & w' & E & _).
  unfold then_event. rewrite E. by eapply preach_step.
Qed.
Lemma demo_used_reachable : preachable demo_used.
Proof.
  apply reach_event; [apply reach_event; [apply preach_new, demo_conds_ok|]|].
  - split_and!; [by eexists|done|simpl; lia].
  - split_and!; [eexists; split; [vm_compute; reflexivity|done]|vm_compute; reflexivity|lia].
Qed.
Lemma pipe_fifo_witness : preachable demo_used ∧ rwait demo_used !! 6%positive = Some (5, [10; 20; 30]) ∧ (recvd demo_used `prefix_of` sent demo_used) ∧
  ∃ w', do_pevent (PWrite 5 [40; 50]) demo_used = Ok (tt, w') ∧ preachable w'.
Proof.
  split_and!; [apply demo_used_reachable|vm_compute; reflexivity|apply (pipe_fifo demo_used demo_used_reachable)|].
  apply (pipe_fifo demo_used demo_used_reachable). split_and!; [eexists; split; [vm_compute; reflexivity|done]|vm_compute; reflexivity|vm_compute; reflexivity].
Defined.
Lemma demo_resting : resting (sys demo_pipe) new_pipe.
Proof. split; try done. apply demo_conds_ok. Qed.
Lemma pipe_iread_correct_witness : ∃ s' p', pipe_iread_enter false 4 (sys demo_pipe) = Ok ((None, []), s') ∧ resting s' p' ∧ holds p' 0 [] ∧ flags new_pipe p'.
Proof. exact (pipe_iread_correct 4 (sys demo_pipe) new_pipe 0 [] demo_resting new_pipe_holds). Defined.
Lemma pipe_iwrite_correct_witness : ∃ s' p', pipe_iwrite_enter true [7; 8] (sys demo_pipe) = Ok ((Some 2, 2), s') ∧ resting s' p' ∧ holds p' 0 [7; 8] ∧ flags new_pipe p'.
Proof. exact (pipe_iwrite_correct [7; 8] (sys demo_pipe) new_pipe 0 [] demo_resting new_pipe_holds ltac:(simpl; lia)). Defined.
