(* ===== verification/PageCache.v ===== *)
(** * The page cache ([kernel/mm/mapping.c], [iread] and [iwrite] of
    [kernel/fs/inode_helpers.c])

    Regular files are read and written in pages: an inode has a mapping, a search tree
    from page numbers to page descriptors, and a page is filled from the file system when
    it is first used.  The model is the mapping of one inode over the state of the file
    systems; the tree is that of [Btree].  A page is its descriptor together with the
    memory at [page->virtual]. *)
From S2P Require Import Prelude FsTypes Inode Btree.

(** Of the flags of a page only [valid] is ever read. *)
Record cpage : Type := CPage {
  cg_data : list Z;
  cg_valid : bool;
  cg_refs : Z;
}.
Record cache : Type := Cache {
  pages_tree : btree;
  cpages : gmap loc cpage;
  nrpages : Z;
  map_lock : bool;
  files : vfs;
}.
#[global] Program Instance cpages_heap : Heap cache cpage := {| heap_of := cpages; put_heap h s := {| s with cpages := h |} |}.
Next Obligation. done. Qed.
Next Obligation. by intros []. Qed.
#[global] Instance map_has_lock : Lock cache := {| held := map_lock; set_held b s := {| s with map_lock := b |} |}.

(** The operations of a file system on contents, and those of devices. *)
Class Contents : Type := {
  op_read : positive → option (loc → Z → Z → M vfs (Z + list Z));
  op_write : positive → option (loc → Z → list Z → M vfs Z);
  kdev_read : loc → Z → Z → M vfs (Z * list Z);
  kdev_write : loc → Z → list Z → M vfs Z;
}.
(** Whether [paging_mount] finds room in the kernel's address space. *)
Class Mounts : Type := { mount_ok : cache → bool }.

Section cache.
Context `{!Kalloc cpage, !Kalloc bnode, !Filesystems, !Contents, !Mounts} (ip : loc).

Definition on_tree {A} : M btree A → M cache A := zoom pages_tree (λ t s, {| s with pages_tree := t |}).
Definition on_fs {A} : M vfs A → M cache A := zoom files (λ v s, {| s with files := v |}).
Definition rdpage (p : ptr) : M cache cpage := rd p.
Definition updpage (p : ptr) (f : cpage → cpage) : M cache unit := upd p f.
Definition NPAGE (len : Z) : Z := len / PAGESZ + (if bool_decide (len `mod` PAGESZ = 0) then 0 else 1).

(** A page after [memset]. *)
Definition zero_page : list Z := replicate (Z.to_nat PAGESZ) 0.

(** [alloc_page] gives a page with one reference, [page_put] drops one and frees the page
    with the last. *)
Definition alloc_cpage : M cache ptr := kmalloc (CPage [] false 1).
Definition page_put (p : ptr) : M cache unit :=
  c ← rdpage p;
  if bool_decide (cg_refs c = 1) then kfree (V := cpage) p else updpage p (λ c, {| c with cg_refs := cg_refs c - 1 |}).

(** From [done:] on.  [err] is 0 when the read of the page fails, so 0 is returned without
    a page then. *)
Definition fill_page (pgno : Z) (p : ptr) : M cache (Z * ptr) :=
  c ← rdpage p;
  if cg_valid c then mret (0, p) else
  v ← on_fs (rdi (Some ip));
  let offset := u32 (pgno * PAGESZ) in
  let read_size := Z.min PAGESZ (u32 (i_size v - offset)) in
  if bool_decide (read_size = 0) then updpage p (λ c, {| c with cg_valid := true |});; mret (0, p) else
  match ifs v ≫= op_read with
  | None => fault
  | Some g =>
      r ← on_fs (g ip offset read_size);
      match r with
      | inr l =>
          if bool_decide (Z.of_nat (length l) = read_size) then
            updpage p (λ c, {| c with cg_data := l ++ drop (length l) (cg_data c); cg_valid := true |});;
            mret (0, p)
          else page_put p;; mret (0, NULL)
      | inl _ => page_put p;; mret (0, NULL)
      end
  end.
(** The error and what is stored in [*ppage], [None] when nothing is. *)
Definition mapping_get_page (pgno : Z) : M cache (Z * ptr) :=
  if bool_decide (pgno < 0) then mret (- EINVAL, NULL) else
  spin_assert_lock;;
  v ← on_fs (rdi (Some ip));
  if bool_decide (i_size v = 0) then mret (0, NULL) else
  on_tree spin_lock;;
  '(err, d) ← on_tree (btree_search pgno);
  match d with
  | Some d => on_tree spin_unlock;; fill_page pgno (Some (Z.to_pos d))
  | None =>
      p ← alloc_cpage;
      match p with
      | None => on_tree spin_unlock;; mret (- ENOMEM, NULL)
      | Some l =>
          ok ← gets mount_ok;
          if negb ok then page_put p;; mret (- ENOMEM, NULL) else
          updpage p (λ c, {| c with cg_data := zero_page |});;
          err ← on_tree (btree_insert pgno (Zpos l));
          on_tree spin_unlock;;
          if decide (err ≠ 0) then page_put p;; mret (err, NULL) else
          modify (λ s, {| s with nrpages := u32 (nrpages s + 1) |});;
          fill_page pgno p
      end
  end.
Definition mapping_free_page (pgno : Z) : M cache Z :=
  if bool_decide (pgno < 0) then mret (- EINVAL) else
  spin_assert_lock;;
  on_tree spin_lock;;
  '(err, d) ← on_tree (btree_search pgno);
  on_tree (btree_delete pgno);;
  on_tree spin_unlock;;
  match d with
  | None => mret tt
  | Some d => modify (λ s, {| s with nrpages := u32 (nrpages s - 1) |});; page_put (Some (Z.to_pos d))
  end;;
  mret err.
Definition inode_getpage (pgno : Z) : M cache (Z * ptr) := spin_lock;; r ← mapping_get_page pgno; spin_unlock;; mret r.

(** ** Reading and writing *)

(** [MIN] of a page, what is left to copy, what is left of the file and what is left of
    the page. *)
Definition chunk (v : inode) (pos left : Z) : Z :=
  Z.min (PAGESZ - pos `mod` PAGESZ) (Z.min (Z.min PAGESZ left) (u32 (i_size v - pos))).
(** [page] keeps its value when [mapping_get_page] stores none. *)
Definition stored (page page' : ptr) : ptr := match page' with None => page | Some _ => page' end.

(** The value returned and the bytes copied to the buffer. *)
Fixpoint read_pages (n : nat) (pgno pos : Z) (page : ptr) (sz : Z) (got : list Z) : M cache (Z * list Z) :=
  match n with
  | O => mret (Z.of_nat (length got), got)
  | S n =>
      v ← on_fs (rdi (Some ip));
      if bool_decide (i_size v ≤ pos) then mret (-1, got) else
      '(err, page') ← mapping_get_page pgno;
      if decide (err ≠ 0) then mret (Z.of_nat (length got), got) else
      let page := stored page page' in
      c ← rdpage page;
      let size := chunk v pos (sz - Z.of_nat (length got)) in
      let bytes := take (Z.to_nat size) (drop (Z.to_nat (pos `mod` PAGESZ)) (cg_data c)) in
      read_pages n (pgno + 1) (pos + size) page sz (got ++ bytes)
  end.
(** [mapping_lock] unless the caller holds it, and the way back. *)
Definition with_mapping {A} (m : M cache A) : M cache A :=
  holding ← gets map_lock;
  if (holding : bool) then m else spin_lock;; r ← m; spin_unlock;; mret r.
Definition iread (pos sz : Z) : M cache (Z * list Z) :=
  v ← on_fs (rdi (Some ip));
  if is_dev v then on_fs (kdev_read ip pos sz) else
  if is_dir v then mret (- EISDIR, []) else
  match ops_of v, ifs v ≫= op_read with
  | Some _, Some _ => with_mapping (read_pages (Z.to_nat (NPAGE sz)) (pos / PAGESZ) pos NULL sz [])
  | _, _ => mret (- ENOSYS, [])
  end.

(** [done] bytes of [buf] are written.  Without a page the rest of the call is the write
    of the file system, of the whole buffer. *)
Fixpoint write_pages (n : nat) (pgno pos : Z) (page : ptr) (buf : list Z) (done : Z) : M cache Z :=
  match n with
  | O => mret done
  | S n =>
      '(err, page') ← mapping_get_page pgno;
      if decide (err ≠ 0) then mret done else
      match stored page page' with
      | None =>
          v ← on_fs (rdi (Some ip));
          match ifs v ≫= op_write with None => fault | Some g => on_fs (g ip pos buf) end
      | Some l =>
          v ← on_fs (rdi (Some ip));
          let size := chunk v pos (Z.of_nat (length buf) - done) in
          let off := Z.to_nat (pos `mod` PAGESZ) in
          let bytes := take (Z.to_nat size) (drop (Z.to_nat done) buf) in
          updpage (Some l) (λ c, {| c with cg_data := take off (cg_data c) ++ bytes ++ drop (off + length bytes) (cg_data c) |});;
          write_pages n (pgno + 1) (pos + size) (Some l) buf (done + size)
      end
  end.
Definition iwrite (pos : Z) (buf : list Z) : M cache Z :=
  v ← on_fs (rdi (Some ip));
  if is_dev v then on_fs (kdev_write ip pos buf) else
  if is_dir v then mret (- EISDIR) else
  match ops_of v, ifs v ≫= op_write with
  | Some _, Some _ => with_mapping (write_pages (Z.to_nat (NPAGE (Z.of_nat (length buf)))) (pos / PAGESZ) pos NULL buf 0)
  | _, _ => mret (- ENOSYS)
  end.
End cache.
#[global] Arguments zero_page : simpl never.
