(* ===== verification/PageCacheSpec.v ===== *)
(** * The page cache: files as arrays of bytes

    Reads and writes through the page cache implement those of an array of bytes; together
    with tmpfs, what is written to a new file is read back.  The last part shows what a
    failed read of the file system leaves behind. *)
From S2P Require Import Prelude FsTypes StringsSpec Inode Btree BtreeSpec Vfs VfsTree Tmpfs TmpfsSpec PageCache.

(** ** Pieces of a file *)

(** The bytes [b] written over those of [F] from [pos] on. *)
Definition put (pos : nat) (b F : list Z) : list Z := take pos F ++ b ++ drop (pos + length b) F.
Lemma put_length pos b F : (pos + length b ≤ length F)%nat → length (put pos b F) = length F.
Proof. intros. unfold put. rewrite !length_app, length_take, length_drop. lia. Qed.
Lemma put_lookup pos b F i : (pos + length b ≤ length F)%nat →
  put pos b F !! i = if decide (pos ≤ i < pos + length b)%nat then b !! (i - pos)%nat else F !! i.
Proof.
  intros H. unfold put. case_decide as Hi.
  - rewrite lookup_app_r, length_take by (rewrite length_take; lia). rewrite lookup_app_l by lia. f_equal. lia.
  - destruct (decide (i < pos)%nat); [by rewrite lookup_app_l, lookup_take_lt by (rewrite ?length_take; lia)|].
    rewrite lookup_app_r, lookup_app_r, lookup_drop, length_take by (rewrite ?length_take; lia). f_equal. lia.
Qed.
Lemma put_append pos b b' F : (pos + length b + length b' ≤ length F)%nat → put (pos + length b) b' (put pos b F) = put pos (b ++ b') F.
Proof.
  intros H. apply list_eq. intros i. rewrite !put_lookup by (rewrite ?put_length, ?length_app by lia; lia). rewrite length_app.
  repeat case_decide; try lia; try done.
  - rewrite lookup_app_r by lia. f_equal. lia.
  - by rewrite lookup_app_l by lia.
Qed.
Lemma put_nil pos F : put pos [] F = F.
Proof. unfold put. simpl. by rewrite Nat.add_0_r, take_drop. Qed.
(** The bytes of [F] from [pos] to [stop]. *)
Definition piece (F : list Z) (pos stop : nat) : list Z := take (stop - pos) (drop pos F).
Lemma piece_length F pos stop : (stop ≤ length F)%nat → length (piece F pos stop) = (stop - pos)%nat.
Proof. intros. unfold piece. rewrite length_take, length_drop. lia. Qed.
Lemma piece_nil F pos stop : (stop ≤ pos)%nat → piece F pos stop = [].
Proof. intros. unfold piece. by replace (stop - pos)%nat with 0%nat by lia. Qed.
Lemma piece_app F a b c : (a ≤ b)%nat → (b ≤ c)%nat → piece F a b ++ piece F b c = piece F a c.
Proof.
  intros. unfold piece. replace (drop b F) with (drop (b - a) (drop a F)) by (rewrite drop_drop; f_equal; lia).
  generalize (drop a F). intros X. rewrite (take_drop_commute X (c - b) (b - a)). replace (b - a + (c - b))%nat with (c - a)%nat by lia.
  etrans; [|apply (take_drop (b - a))]. by rewrite take_take, Nat.min_l by lia.
Qed.
Lemma piece_lookup F pos stop i : (i < stop - pos)%nat → piece F pos stop !! i = F !! (pos + i)%nat.
Proof. intros. unfold piece. by rewrite lookup_take_lt, lookup_drop by lia. Qed.

(** Page [k] of [F], as far as it goes. *)
Definition PG : nat := Z.to_nat PAGESZ.
Lemma PAGESZ_PG : PAGESZ = Z.of_nat PG.
Proof. done. Qed.
Lemma PG_pos : (0 < PG)%nat.
Proof. unfold PG, PAGESZ. lia. Qed.
#[global] Opaque PG.
Record page_is (F : list Z) (k : nat) (c : cpage) : Prop := PageIs {
  pi_valid : cg_valid c = true;
  pi_length : length (cg_data c) = PG;
  pi_bytes : ∀ i, (i < PG)%nat → (k * PG + i < length F)%nat → cg_data c !! i = F !! (k * PG + i)%nat;
}.
Lemma page_piece F k c off n : page_is F k c → (off + n ≤ PG)%nat → (k * PG + off + n ≤ length F)%nat →
  take n (drop off (cg_data c)) = piece F (k * PG + off) (k * PG + off + n).
Proof.
  intros [Hv Hl Hb] Ho Hn. apply list_eq. intros i. destruct (decide (i < n)%nat).
  - rewrite lookup_take_lt, lookup_drop, piece_lookup by lia. rewrite Hb by lia. f_equal. lia.
  - rewrite !lookup_ge_None_2; [done|rewrite piece_length; lia|rewrite length_take; lia].
Qed.

(** ** The cache of a file *)

Section cache.
Context `{!Kalloc cpage, !Kalloc bnode, !Filesystems, !Contents, !Mounts} (ip : loc).
(** The file in its file system: [D] are its bytes there, and [g] reads them. *)
Context (w : vfs) (v : inode) (D : list Z) (f : positive) (g : loc → Z → Z → M vfs (Z + list Z)).
Record backed : Prop := Backed {
  bk_inode : inos w !! ip = Some v;
  bk_type : is_dir v = false ∧ is_dev v = false;
  bk_ops : ifs v = Some f ∧ op_read f = Some g ∧ is_Some (iops_of f) ∧ is_Some (op_write f);
  bk_size : i_size v = Z.of_nat (length D);
  bk_range : 0 < Z.of_nat (length D) < 2 ^ 32;
  bk_reads : ∀ off n, (0 < n)%nat → (off + n ≤ length D)%nat → g ip (Z.of_nat off) (Z.of_nat n) w = Ok (inr (piece D off (off + n)), w);
}.
Record memory : Prop := Mem {
  mem_pages : ∀ h : gmap loc cpage, is_Some (kmalloc_at h);
  mem_nodes : ∀ h : gmap loc bnode, is_Some (kmalloc_at h);
  mem_mount : ∀ s, mount_ok s = true;
}.
Context (Hb : backed) (Hm : memory).

(** The cache holds the pages [m] of the file and, with them, the file reads as [F]. *)
Record cached (lk : bool) (s : cache) (m : gmap Z Z) (F : list Z) : Prop := Cached {
  ca_lock : map_lock s = lk;
  ca_fs : files s = w;
  ca_free : bt_lock (pages_tree s) = false;
  ca_tree : btree_rep {| (pages_tree s) with bt_lock := true |} m;
  ca_page : ∀ n d, m !! n = Some d → ∃ k c, n = Z.of_nat k ∧ 0 < d ∧ cpages s !! Z.to_pos d = Some c ∧ page_is F k c;
  ca_inj : ∀ n n' d, m !! n = Some d → m !! n' = Some d → n = n';
  ca_length : length F = length D;
  ca_disk : ∀ k i, m !! Z.of_nat k = None → (i < PG)%nat → (k * PG + i < length F)%nat → D !! (k * PG + i)%nat = F !! (k * PG + i)%nat;
}.
Lemma wp_on_tree {A} (m : M btree A) s (Q : A → cache → Prop) : wp m (λ a t, Q a {| s with pages_tree := t |}) (pages_tree s) → wp (on_tree m) Q s.
Proof using Type. intros Hq. by apply wp_zoom. Qed.
Lemma wp_on_fs {A} (m : M vfs A) s (Q : A → cache → Prop) : wp m (λ a t, Q a {| s with files := t |}) (files s) → wp (on_fs m) Q s.
Proof using Type. intros Hq. by apply wp_zoom. Qed.
Lemma wp_on_inode x s (Q : inode → cache → Prop) : inos (files s) !! ip = Some x → Q x s → wp (on_fs (rdi (Some ip))) Q s.
Proof using Type. intros E HQ. apply wp_on_fs. eapply wp_rd; [exact E|]. by destruct s. Qed.
Lemma wp_the_inode s (Q : inode → cache → Prop) : files s = w → Q v s → wp (on_fs (rdi (Some ip))) Q s.
Proof using Hb. intros E. apply wp_on_inode. rewrite E. apply Hb. Qed.
Lemma wp_page l c s (Q : cpage → cache → Prop) : cpages s !! l = Some c → Q c s → wp (rdpage (Some l)) Q s.
Proof using Type. intros Hp HQ. eapply wp_rd; [done|done]. Qed.
Lemma wp_updpage l c fn s (Q : unit → cache → Prop) : cpages s !! l = Some c → Q tt {| s with cpages := <[l := fn c]> (cpages s) |} → wp (updpage (Some l) fn) Q s.
Proof using Type.
  intros Hp HQ. eapply wp_upd; [by exists c|]. simpl. replace (alter fn l (cpages s)) with (<[l := fn c]> (cpages s)); [done|].
  apply map_eq. intros l'. destruct (decide (l = l')) as [<-|]; [by rewrite lookup_insert_eq, lookup_alter_eq, Hp|by rewrite lookup_insert_ne, lookup_alter_ne].
Qed.

(** *** Getting a page *)

Lemma wp_fill_valid pgno l c s (Q : Z * ptr → cache → Prop) : cpages s !! l = Some c → cg_valid c = true → Q (0, Some l) s → wp (fill_page ip pgno (Some l)) Q s.
Proof using Type. intros Hp Hv HQ. apply wp_bind. eapply wp_page; [done|]. rewrite Hv. by apply wp_ret. Qed.
Lemma zero_page_length : length zero_page = PG.
Proof using Type. unfold zero_page. by rewrite length_replicate. Qed.
Lemma zero_page_is k : (k * PG < length D)%nat → let n := (PG `min` (length D - k * PG))%nat in
  page_is D k (CPage (piece D (k * PG) (k * PG + n) ++ drop (length (piece D (k * PG) (k * PG + n))) (zero_page)) true 1).
Proof using Type.
  intros Hk n. assert (Hl : length (piece D (k * PG) (k * PG + n)) = n) by (rewrite piece_length; lia).
  split; [done|cbn [cg_data]; rewrite length_app, length_drop, zero_page_length, Hl; lia|]. cbn [cg_data].
  intros i Hi Hlt. rewrite lookup_app_l, piece_lookup by lia. done.
Qed.
Lemma wp_fill_new k l s (Q : Z * ptr → cache → Prop) : files s = w → cpages s !! l = Some (CPage zero_page false 1) → (k * PG < length D)%nat →
  (∀ c, page_is D k c → Q (0, Some l) {| s with cpages := <[l := c]> (cpages s) |}) → wp (fill_page ip (Z.of_nat k) (Some l)) Q s.
Proof using Hb.
  intros Hw Hp Hk HQ. destruct Hb as [B1 B2 (B3 & B4 & B5 & B6) B7 B8 B9]. apply wp_bind. eapply wp_page; [done|]. cbn [cg_valid].
  apply wp_bind, wp_the_inode; [done|]. rewrite B7. set (n := (PG `min` (length D - k * PG))%nat). pose proof PG_pos as HPG.
  rewrite PAGESZ_PG, <- Nat2Z.inj_mul. rewrite (u32_small (Z.of_nat (k * PG))) by lia.
  assert (Z.min (Z.of_nat PG) (u32 (Z.of_nat (length D) - Z.of_nat (k * PG))) = Z.of_nat n) as -> by (rewrite u32_small by lia; lia).
  cbv zeta. rewrite bool_decide_false by lia. rewrite B3. simpl. rewrite B4. apply wp_bind, wp_on_fs.
  eapply wp_eq; [rewrite Hw; apply B9; lia|]. cbv beta iota. rewrite bool_decide_true by (rewrite piece_length; lia).
  apply wp_bind. eapply wp_updpage; [done|]. apply wp_ret. cbn [cg_data cg_refs cpages files]. specialize (HQ _ (zero_page_is k Hk)). fold n in HQ. rewrite <- Hw. destruct s. exact HQ.
Qed.
Lemma page_is_disk F k c : length F = length D → (∀ i, (i < PG)%nat → (k * PG + i < length F)%nat → D !! (k * PG + i)%nat = F !! (k * PG + i)%nat) →
  page_is D k c → page_is F k c.
Proof using Type. intros Hl Hd [P1 P2 P3]. split; [done|done|]. intros i Hi Hlt. rewrite P3 by lia. by apply Hd. Qed.
Lemma cached_new s m F k l c t : cached true s m F → m !! Z.of_nat k = None → cpages s !! l = None → page_is D k c →
  bt_lock t = false → btree_rep {| t with bt_lock := true |} (<[Z.of_nat k := Zpos l]> m) →
  ∀ nr, cached true (Cache t (<[l := c]> (cpages s)) nr true w) (<[Z.of_nat k := Zpos l]> m) F.
Proof using Type.
  intros [C1 C2 C3 C4 C5 C6 C7 C8] Hk Hl Hc Ht Hr nr. split; simpl; try done.
  - intros n d [[<- <-]|[Hn Hd]]%lookup_insert_Some.
    + exists k, c. split_and!; [done|lia|by rewrite lookup_insert_eq|]. eapply page_is_disk; [done| |done]. intros. by apply C8.
    + destruct (C5 n d Hd) as (k' & c' & -> & Hpos & Hc' & Hi). exists k', c'. split_and!; [done|done| |done].
      rewrite lookup_insert_ne; [done|]. congruence.
  - intros n n' d [[<- <-]|[Hn Hd]]%lookup_insert_Some [[<- E]|[Hn' Hd']]%lookup_insert_Some; [done| | |by eapply C6].
    + destruct (C5 n' _ Hd') as (k' & c' & _ & _ & Hc' & _). simpl in Hc'. congruence.
    + subst d. destruct (C5 n _ Hd) as (k' & c' & _ & _ & Hc' & _). simpl in Hc'. congruence.
  - intros k' i [Hk' _]%lookup_insert_None. by apply C8.
Qed.
(** A page that is not in the tree: it is entered and then filled. *)
Lemma wp_miss k x s m (Q : Z * ptr → cache → Prop) : map_lock s = true → inos (files s) !! ip = Some x → i_size x ≠ 0 → bt_lock (pages_tree s) = false →
  btree_rep {| (pages_tree s) with bt_lock := true |} m → m !! Z.of_nat k = None →
  (∀ l t nr, cpages s !! l = None → bt_lock t = false → btree_rep {| t with bt_lock := true |} (<[Z.of_nat k := Zpos l]> m) →
    wp (fill_page ip (Z.of_nat k) (Some l)) Q (Cache t (<[l := CPage zero_page false 1]> (cpages s)) nr true (files s))) →
  wp (mapping_get_page ip (Z.of_nat k)) Q s.
Proof using Hm.
  intros C1 Hx Hsz C3 C4 Hd HQ. unfold mapping_get_page. rewrite bool_decide_false by lia.
  apply wp_bind, wp_spin_assert_lock; [done|]. apply wp_bind. eapply wp_on_inode; [done|]. rewrite bool_decide_false by done.
  apply wp_bind, wp_on_tree, wp_spin_lock; [done|]. apply wp_bind, wp_on_tree. eapply wp_eq; [by apply btree_search_correct|]. simpl. rewrite Hd.
  apply wp_bind. apply wp_kmalloc; [intros E; destruct (mem_pages Hm (cpages s)) as [? E']; simpl in E; congruence|].
  intros l _ Hl. apply wp_bind, wp_gets. rewrite (mem_mount Hm). apply wp_bind. simpl in Hl.
  eapply wp_updpage; [apply lookup_insert_eq|]. apply wp_bind, wp_on_tree. cbn [cpages pages_tree put_heap cpages_heap heap_of].
  destruct (btree_insert_correct {| (pages_tree s) with bt_lock := true |} m (Z.of_nat k) (Zpos l) C4) as (r & t & Ei & Hr).
  eapply wp_eq; [exact Ei|]. destruct Hr as [(_ & E & _)|[(_ & [? E] & _)|(-> & _ & Hr)]]; [|congruence|].
  { destruct (mem_nodes Hm (bnodes (pages_tree s))) as [? E']. simpl in E. congruence. }
  assert (Hlk : bt_lock t = true) by (destruct Hr as (? & Hr & _); by apply (tr_lock _ _ Hr)).
  apply wp_bind, wp_on_tree, wp_spin_unlock; [done|]. rewrite decide_False by tauto. apply wp_bind, wp_modify.
  cbn [cpages pages_tree nrpages map_lock files]. rewrite !insert_insert_eq, C1. apply HQ; [done|done|]. by destruct t; simpl in *; subst.
Qed.
Lemma wp_get_page k s m F (Q : Z * ptr → cache → Prop) : cached true s m F → (k * PG < length F)%nat →
  (∀ s' m' l c, cached true s' m' F → m' !! Z.of_nat k = Some (Zpos l) → cpages s' !! l = Some c → page_is F k c → Q (0, Some l) s') →
  wp (mapping_get_page ip (Z.of_nat k)) Q s.
Proof using Hb Hm.
  intros C Hk HQ. pose proof C as [C1 C2 C3 C4 C5 C6 C7 C8]. assert (Hsz : i_size v ≠ 0) by (destruct Hb as [_ _ _ B7 B8 _]; lia).
  destruct (m !! Z.of_nat k) as [d|] eqn:Hd.
  - unfold mapping_get_page. rewrite bool_decide_false by lia. apply wp_bind, wp_spin_assert_lock; [done|]. apply wp_bind, wp_the_inode; [done|].
    rewrite bool_decide_false by done. apply wp_bind, wp_on_tree, wp_spin_lock; [done|].
    apply wp_bind, wp_on_tree. eapply wp_eq; [by apply btree_search_correct|]. simpl. rewrite Hd.
    destruct (C5 _ _ Hd) as (k' & c & E & Hpos & Hc & Hi). apply Nat2Z.inj in E as <-. apply wp_bind, wp_on_tree, wp_spin_unlock; [done|]. simpl.
    eapply wp_fill_valid; [done|apply Hi|]. eapply (HQ _ m (Z.to_pos d) c); [|by rewrite Z2Pos.id by lia|done|done].
    destruct s as [[] ? ? ? ?]. simpl in *. subst. done.
  - eapply wp_miss; [done|rewrite C2; apply Hb|done..|]. intros l t nr Hl Ht Hr. rewrite C2. eapply wp_fill_new; [done|apply lookup_insert_eq|lia|].
    intros c Hc. cbn [cpages pages_tree nrpages map_lock files]. rewrite insert_insert_eq.
    eapply (HQ _ _ l c); [by eapply (cached_new s m F k l c)|apply lookup_insert_eq|apply lookup_insert_eq|].
    eapply page_is_disk; [done|intros; by apply C8|done].
Qed.

(** *** Reading *)

(** What [n] pages from that of [pos] on have of the [left] bytes from [pos] on. *)
Definition stop_at (F : list Z) (pos left n : nat) : nat := ((pos + left) `min` (length F `min` ((pos `div` PG + n) * PG)))%nat.
(** The call that ends in a page behind the end of the file returns -1. *)
Definition read_value (F : list Z) (pos n total : nat) : Z :=
  if decide (n ≠ 0%nat ∧ length F ≤ (pos `max` ((pos `div` PG + n - 1) * PG)))%nat then -1 else Z.of_nat total.

Lemma chunk_eq (F : list Z) pos left : length F = length D → (pos < length F)%nat →
  chunk v (Z.of_nat pos) (Z.of_nat left) = Z.of_nat ((PG - pos `mod` PG) `min` (left `min` (length F - pos))).
Proof using Hb.
  intros Hl Hp. unfold chunk. destruct Hb as [_ _ _ B7 B8 _]. pose proof PG_pos. pose proof (Nat.mod_upper_bound pos PG).
  rewrite B7, PAGESZ_PG, <- Nat2Z.inj_mod, u32_small by lia. lia.
Qed.
(** One turn: how far it gets. *)
Lemma turn_cases (F : list Z) pos left n (size := ((PG - pos `mod` PG) `min` (left `min` (length F - pos)))%nat) : (pos < length F)%nat → (n * PG < left)%nat →
  stop_at F pos left (S n) = (stop_at F (pos + size) (left - size) n `max` (pos + size))%nat ∧ (pos + size ≤ length F)%nat ∧
  (n ≠ 0%nat → (pos + size < length F)%nat → (pos + size) `div` PG = S (pos `div` PG))%nat ∧
  (n = 0 ∨ (n - 1) * PG < left - size)%nat ∧
  (∀ t, read_value F (pos + size) n t = read_value F pos (S n) t).
Proof using Type.
  intros Hp Hn. pose proof PG_pos as HPG. pose proof (Nat.div_mod pos PG ltac:(lia)) as Hdm. pose proof (Nat.mod_upper_bound pos PG ltac:(lia)) as Hmod.
  unfold stop_at, read_value.
  assert (Hdiv : n ≠ 0%nat → (pos + size < length F)%nat → (pos + size = S (pos `div` PG) * PG)%nat).
  { intros Hn0 Hlt. assert (PG < left)%nat by (destruct n; lia). lia. }
  assert (Hdiv' : n ≠ 0%nat → (pos + size < length F)%nat → ((pos + size) `div` PG = S (pos `div` PG))%nat) by (intros; rewrite Hdiv by done; by apply Nat.div_mul; lia).
  destruct n as [|n].
  { pose proof (Nat.Div0.mul_div_le (pos + size) PG). split_and!; [lia|lia|done|by left|]. intros t. rewrite decide_False, decide_False; [done|lia|lia]. }
  destruct (decide (pos + size < length F)%nat) as [Hlt|Hge].
  - specialize (Hdiv ltac:(done) Hlt). rewrite (Hdiv' ltac:(done) Hlt). split_and!; [lia|lia|done|right; lia|]. intros t. apply decide_ext. lia.
  - split_and!; [lia|lia|done|right; lia|]. intros t. rewrite !decide_True; [done|lia|lia].
Qed.
Lemma wp_read_pages n pgno pos page sz (got : list Z) s m F (left := (Z.to_nat sz - length got)%nat) (Q : Z * list Z → cache → Prop) : cached true s m F →
  (n = 0 ∨ (n - 1) * PG < left)%nat → (n ≠ 0%nat → (pos < length F)%nat → (pos `div` PG = pgno)%nat) →
  (∀ s' m', cached true s' m' F → let bytes := piece F pos (stop_at F pos left n) in
    Q (read_value F pos n (length (got ++ bytes)), got ++ bytes) s') →
  wp (read_pages ip n (Z.of_nat pgno) (Z.of_nat pos) page sz got) Q s.
Proof using Hb Hm.
  revert pgno pos page got left s m. induction n as [|n IH]; intros pgno pos page got left s m C Hl Hpg HQ; cbn [read_pages].
  - apply wp_ret. specialize (HQ s m C). cbv zeta in HQ. rewrite piece_nil in HQ; [by rewrite app_nil_r in HQ|].
    unfold stop_at. pose proof PG_pos. pose proof (Nat.Div0.mul_div_le pos PG). lia.
  - apply wp_bind, wp_the_inode; [by destruct C|]. pose proof (ca_length _ _ _ _ C) as Hlen. rewrite (bk_size Hb), <- Hlen.
    destruct (decide (pos < length F)%nat) as [Hlt|Hge].
    + rewrite bool_decide_false by lia. rewrite <- Hpg by done. pose proof PG_pos as HPG. apply wp_bind. eapply wp_get_page; [done|pose proof (Nat.Div0.mul_div_le pos PG); lia|].
      intros s1 m1 l c C1 Hm1 Hc Hi. rewrite decide_False by tauto. apply wp_bind. eapply wp_page; [done|].
      replace (sz - Z.of_nat (length got)) with (Z.of_nat left) by lia. rewrite (chunk_eq F) by done. rewrite Nat2Z.id.
      destruct (turn_cases F pos left n Hlt) as (T1 & T2 & T3 & T4 & T5); [destruct Hl; [done|lia]|]. set (size := ((PG - pos `mod` PG) `min` (left `min` (length F - pos)))%nat) in *.
      pose proof (Nat.div_mod pos PG ltac:(lia)) as Hdm. pose proof (Nat.mod_upper_bound pos PG ltac:(lia)) as Hmod.
      rewrite PAGESZ_PG, <- Nat2Z.inj_mod, Nat2Z.id. rewrite (page_piece F (pos `div` PG) c) by (done || lia).
      replace (pos `div` PG * PG + pos `mod` PG)%nat with pos by lia. set (b := piece F pos (pos + size)).
      assert (Hlb : length b = size) by (unfold b; rewrite piece_length; lia). rewrite <- Nat2Z.inj_add. replace (Z.of_nat (pos `div` PG) + 1) with (Z.of_nat (S (pos `div` PG))) by lia.
      assert (El : (Z.to_nat sz - length (got ++ b) = left - size)%nat) by (rewrite length_app; lia).
      eapply IH; [done|by rewrite El|intros; by rewrite T3|]. rewrite El. intros s2 m2 C2. cbv zeta. rewrite <- app_assoc. rewrite T5.
      specialize (HQ s2 m2 C2). cbv zeta in HQ. rewrite T1 in HQ. unfold b.
      destruct (decide (pos + size ≤ stop_at F (pos + size) (left - size) n)%nat).
      * rewrite piece_app by lia. rewrite Nat.max_l in HQ by done. done.
      * rewrite (piece_nil F (pos + size)) by lia. rewrite Nat.max_r in HQ by lia. by rewrite app_nil_r.
    + rewrite bool_decide_true by lia. apply wp_ret. specialize (HQ s m C). cbv zeta in HQ. rewrite piece_nil in HQ by (unfold stop_at; lia).
      rewrite app_nil_r in HQ. unfold read_value in HQ. rewrite decide_True in HQ by lia. done.
Qed.
(** The pages of a transfer of [sz] bytes. *)
Definition pages_of (sz : nat) : nat := Z.to_nat (NPAGE (Z.of_nat sz)).
Lemma pages_of_spec sz : (sz ≤ pages_of sz * PG ∧ (pages_of sz = 0 ∨ (pages_of sz - 1) * PG < sz))%nat.
Proof using Type.
  unfold pages_of, NPAGE. pose proof PG_pos. rewrite PAGESZ_PG, <- Nat2Z.inj_mod, <- Nat2Z.inj_div. pose proof (Nat.div_mod sz PG ltac:(lia)).
  pose proof (Nat.mod_upper_bound sz PG ltac:(lia)). case_bool_decide; lia.
Qed.
Definition read_result (F : list Z) (pos sz : nat) : Z * list Z :=
  let bytes := piece F pos (stop_at F pos sz (pages_of sz)) in (read_value F pos (pages_of sz) (length bytes), bytes).
Lemma cached_set_lock lk lk' s m F : cached lk s m F → cached lk' {| s with map_lock := lk' |} m F.
Proof using Type. by intros []. Qed.
Lemma wp_with_lock {A} (x : M cache A) s (Q : A → cache → Prop) : map_lock s = false →
  wp x (λ a s2, map_lock s2 = true ∧ Q a {| s2 with map_lock := false |}) {| s with map_lock := true |} → wp (with_mapping x) Q s.
Proof using Type.
  intros Hl Hx. unfold with_mapping. apply wp_bind, wp_gets. rewrite Hl. apply wp_bind, wp_spin_lock; [done|].
  apply wp_bind. eapply wp_mono; [exact Hx|]. intros a s2 [Hl2 HQ]. apply wp_bind, wp_spin_unlock; [done|]. by apply wp_ret.
Qed.
Lemma wp_with_mapping {A} (x : M cache A) s m F (Q : A → cache → Prop) : cached false s m F →
  (∀ s', cached true s' m F → wp x (λ a s2, ∃ m2 F2, cached true s2 m2 F2 ∧ ∀ s3, cached false s3 m2 F2 → Q a s3) s') → wp (with_mapping x) Q s.
Proof using Type.
  intros C Hx. apply wp_with_lock; [by destruct C|]. eapply wp_mono; [apply Hx; by eapply cached_set_lock|].
  intros a s2 (m2 & F2 & C2 & HQ). split; [by destruct C2|]. apply HQ. by eapply cached_set_lock.
Qed.
Lemma wp_iread pos sz s m F (Q : Z * list Z → cache → Prop) : cached false s m F →
  (∀ s' m', cached false s' m' F → Q (read_result F pos sz) s') → wp (iread ip (Z.of_nat pos) (Z.of_nat sz)) Q s.
Proof using Hb Hm.
  intros C HQ. unfold iread. apply wp_bind, wp_the_inode; [by destruct C|]. destruct (bk_type Hb) as [-> ->].
  destruct (bk_ops Hb) as (Hf & Hg & [o Ho] & _). unfold ops_of. rewrite Hf. simpl. rewrite Hg, Ho. eapply wp_with_mapping; [done|].
  intros s1 C1. rewrite PAGESZ_PG, <- Nat2Z.inj_div. eapply wp_read_pages; [done| |done|].
  - simpl length. rewrite Nat.sub_0_r, Nat2Z.id. apply pages_of_spec.
  - simpl length. rewrite Nat.sub_0_r, Nat2Z.id. intros s2 m2 C2. exists m2, F. split; [done|]. intros s3 C3. exact (HQ s3 m2 C3).
Qed.

(** *** Writing inside the file *)

Lemma cached_write s m F k l c off b : cached true s m F → m !! Z.of_nat k = Some (Zpos l) → cpages s !! l = Some c → page_is F k c →
  (off + length b ≤ PG)%nat → (k * PG + off + length b ≤ length F)%nat →
  cached true {| s with cpages := <[l := {| c with cg_data := put off b (cg_data c) |}]> (cpages s) |} m (put (k * PG + off) b F).
Proof using Type.
  intros [C1 C2 C3 C4 C5 C6 C7 C8] Hk Hl [P1 P2 P3] Ho Hf. pose proof PG_pos as HPG. split; simpl; try done.
  - intros n d Hd. destruct (C5 n d Hd) as (k' & c' & -> & Hpos & Hc' & [P1' P2' P3']). destruct (decide (k' = k)) as [->|Hne].
    + rewrite Hk in Hd. simplify_eq. simpl. exists k. eexists. rewrite lookup_insert_eq. split_and!; [done|lia|done|]. split; cbn [cg_data cg_valid]; [done|rewrite put_length; lia|].
      intros i Hi. rewrite put_length by lia. intros Hlt. rewrite !put_lookup by lia. repeat case_decide; try lia; [f_equal; lia|by apply P3].
    + exists k', c'. split_and!; [done|done| |].
      * rewrite lookup_insert_ne; [done|]. intros ->. rewrite Z2Pos.id in Hk by lia. pose proof (C6 _ _ _ Hd Hk). lia.
      * split; [done|done|]. intros i Hi. rewrite put_length by lia. intros Hlt. rewrite put_lookup by lia. rewrite P3' by lia.
        rewrite decide_False; [done|]. intros ?. apply Hne. nia.
  - by rewrite put_length.
  - intros k' i Hk' Hi. rewrite put_length by lia. intros Hlt. rewrite put_lookup by lia. rewrite decide_False; [by apply C8|].
    intros ?. assert (k' = k) as -> by nia. congruence.
Qed.
Lemma stop_at_length F F' pos left n : length F = length F' → stop_at F pos left n = stop_at F' pos left n.
Proof using Type. unfold stop_at. by intros ->. Qed.
Lemma max_sub a b c : (a `max` (b + c) - b = c + (a - (b + c)))%nat.
Proof using Type. lia. Qed.
Lemma wp_write_pages n pgno pos page buf dn s m F (left := (length buf - dn)%nat) (Q : Z → cache → Prop) : cached true s m F →
  (n = 0 ∨ (n - 1) * PG < left)%nat → (n ≠ 0 → pos `div` PG = pgno)%nat → (pos + left ≤ length F)%nat →
  (∀ s' m', let k := (stop_at F pos left n - pos)%nat in cached true s' m' (put pos (piece buf dn (dn + k)) F) → Q (Z.of_nat (dn + k)) s') →
  wp (write_pages ip n (Z.of_nat pgno) (Z.of_nat pos) page buf (Z.of_nat dn)) Q s.
Proof using Hb Hm.
  revert pgno pos page dn left s m F. induction n as [|n IH]; intros pgno pos page dn left s m F C Hl Hpg Hin HQ; cbn [write_pages].
  - apply wp_ret. specialize (HQ s m). cbv zeta in HQ. assert (stop_at F pos left 0 - pos = 0)%nat as E.
    { unfold stop_at. pose proof PG_pos. pose proof (Nat.Div0.mul_div_le pos PG). lia. }
    rewrite E, Nat.add_0_r, piece_nil, put_nil in HQ by lia. by apply HQ.
  - pose proof PG_pos as HPG. destruct Hl as [|Hl]; [done|]. replace (S n - 1)%nat with n in Hl by lia. assert (Hlt : (pos < length F)%nat) by lia. rewrite <- Hpg by done.
    pose proof (Nat.div_mod pos PG ltac:(lia)) as Hdm. pose proof (Nat.mod_upper_bound pos PG ltac:(lia)) as Hmod.
    apply wp_bind. eapply wp_get_page; [done|lia|]. intros s1 m1 l c C1 Hm1 Hc Hi. rewrite decide_False by tauto. cbn [stored].
    apply wp_bind, wp_the_inode; [by destruct C1|]. pose proof (ca_length _ _ _ _ C) as Hlen.
    replace (Z.of_nat (length buf) - Z.of_nat dn) with (Z.of_nat left) by lia. rewrite (chunk_eq F) by done. rewrite !Nat2Z.id.
    destruct (turn_cases F pos left n Hlt) as (T1 & T2 & T3 & T4 & _); [lia|]. set (size := ((PG - pos `mod` PG) `min` (left `min` (length F - pos)))%nat) in *.
    rewrite PAGESZ_PG, <- Nat2Z.inj_mod, Nat2Z.id, <- !Nat2Z.inj_add. replace (Z.of_nat (pos `div` PG) + 1) with (Z.of_nat (S (pos `div` PG))) by lia.
    set (b := take size (drop dn buf)). assert (Hb1 : b = piece buf dn (dn + size)) by (unfold b, piece; f_equal; lia).
    assert (Hlb : length b = size) by (rewrite Hb1, piece_length; lia). apply wp_bind. eapply wp_updpage; [done|].
    pose proof (cached_write s1 m1 F (pos `div` PG) l c (pos `mod` PG) b C1 Hm1 Hc Hi ltac:(lia) ltac:(lia)) as C2.
    replace (pos `div` PG * PG + pos `mod` PG)%nat with pos in C2 by lia.
    assert (Hlp : length (put pos b F) = length F) by (rewrite put_length; lia). assert (El : (length buf - (dn + size) = left - size)%nat) by lia.
    eapply (IH _ _ _ (dn + size)%nat _ m1 (put pos b F)); [exact C2|by rewrite El| |lia|].
    { intros Hn0. destruct (decide (pos + size < length F)%nat); [by rewrite T3|]. exfalso. assert (PG < left)%nat by (destruct n; lia). unfold size in *. lia. }
    rewrite El. rewrite (stop_at_length _ F) by done. intros s2 m2. cbv zeta. specialize (HQ s2 m2). cbv zeta in HQ. rewrite T1 in HQ.
    set (e := stop_at F (pos + size) (left - size) n) in *.
    assert (He : (e ≤ pos + size + (left - size))%nat) by apply Nat.le_min_l. assert (Hsl : (size ≤ left ∧ dn + size ≤ length buf)%nat) by lia. clearbody e size b left.
    rewrite max_sub in HQ. rewrite <- Hlb at 1.
    rewrite put_append by (rewrite piece_length; lia). rewrite Hb1 at 1. rewrite piece_app by lia. rewrite <- !Nat.add_assoc. exact HQ.
Qed.
Lemma wp_iwrite pos buf s m F (Q : Z → cache → Prop) : cached false s m F → (pos + length buf ≤ length F)%nat →
  (∀ s' m', let k := (stop_at F pos (length buf) (pages_of (length buf)) - pos)%nat in
    cached false s' m' (put pos (take k buf) F) → Q (Z.of_nat k) s') → wp (iwrite ip (Z.of_nat pos) buf) Q s.
Proof using Hb Hm.
  intros C Hin HQ. unfold iwrite. apply wp_bind, wp_the_inode; [by destruct C|]. destruct (bk_type Hb) as [-> ->].
  destruct (bk_ops Hb) as (Hf & Hg & [o Ho] & [x Hx]). unfold ops_of. rewrite Hf. simpl. rewrite Hx, Ho. eapply wp_with_mapping; [done|].
  intros s1 C1. rewrite PAGESZ_PG, <- Nat2Z.inj_div. eapply (wp_write_pages _ _ _ _ _ 0); [done|rewrite Nat.sub_0_r; apply pages_of_spec|done|lia|].
  rewrite Nat.sub_0_r. intros s2 m2 k C2. exists m2, (put pos (take k buf) F). unfold piece in C2. rewrite Nat.sub_0_r in C2. split; [done|].
  intros s3 C3. exact (HQ s3 m2 C3).
Qed.

(** ** The contract *)

Inductive fop : Type :=
| FRead (pos sz : nat)
| FWrite (pos : nat) (buf : list Z).
Definition run_fop (o : fop) : M cache (Z * list Z) :=
  match o with
  | FRead pos sz => iread ip (Z.of_nat pos) (Z.of_nat sz)
  | FWrite pos buf => n ← iwrite ip (Z.of_nat pos) buf; mret (n, [])
  end.
Fixpoint run_fops (ops : list fop) : M cache (list (Z * list Z)) :=
  match ops with [] => mret [] | o :: ops => r ← run_fop o; rs ← run_fops ops; mret (r :: rs) end.
(** The same on the bytes of the file. *)
Definition moved (F : list Z) (pos sz : nat) : nat := (stop_at F pos sz (pages_of sz) - pos)%nat.
Fixpoint file_results (ops : list fop) (F : list Z) : list (Z * list Z) :=
  match ops with
  | [] => []
  | FRead pos sz :: ops => read_result F pos sz :: file_results ops F
  | FWrite pos buf :: ops =>
      let k := moved F pos (length buf) in (Z.of_nat k, []) :: file_results ops (put pos (take k buf) F)
  end.
(** Writes stay inside the file. *)
Definition inside (o : fop) : Prop := match o with FRead _ _ => True | FWrite pos buf => (pos + length buf ≤ length D)%nat end.
Definition fresh_cache : cache := Cache (Btree NULL 0 false ∅) ∅ 0 false w.

Lemma fresh_cached s : map_lock s = false → files s = w → pages_tree s = Btree NULL 0 false ∅ → cached false s ∅ D.
Proof using Type.
  intros E1 E2 E3. split; rewrite ?E3; try done. exists Leaf. split; [|done]. split; try done; [apply NoDup_nil_2|intros x; simpl; rewrite lookup_empty; split; [by intros []|by intros ?%elem_of_nil]|constructor].
Qed.
Lemma wp_run_fops ops : Forall inside ops → ∀ s m F (Q : list (Z * list Z) → cache → Prop), cached false s m F →
  (∀ s', Q (file_results ops F) s') → wp (run_fops ops) Q s.
Proof using Hb Hm.
  induction 1 as [|o ops Ho _ IH]; intros s m F Q C HQ; [by apply wp_ret|]. simpl. pose proof (ca_length _ _ _ _ C) as Hl. apply wp_bind. destruct o as [pos sz|pos buf].
  - eapply wp_iread; [done|]. intros s1 m1 C1. apply wp_bind. eapply IH; [done|]. intros s2. by apply wp_ret.
  - simpl in Ho. apply wp_bind. eapply wp_iwrite; [done|lia|]. intros s1 m1 k C1. apply wp_ret, wp_bind. eapply IH; [done|]. intros s2. by apply wp_ret.
Qed.
End cache.

(** C9: Reads and writes of a file through the page cache, in any order, do what they would
    do on the bytes of the file: pages that are cached and pages that are not give the
    same, and a read sees the writes before it.  A call moves at most what lies in the
    [NPAGE] pages from the one of its offset on, and a read whose last page is behind the
    end of the file returns -1.  The file is a regular one that is not empty, whose file
    system reads its bytes; the kernel has memory for the pages and the nodes of the tree
    ([memory]), and every write stays inside the file ([inside]): what [iwrite] does with
    a write that reaches past the end (it cuts it off there) is not covered. *)
Theorem page_cache_refines `{!Kalloc cpage, !Kalloc bnode, !Filesystems, !Contents, !Mounts} ip w v D f g ops :
  backed ip w v D f g → memory → Forall (inside D) ops →
  ∃ s', run_fops ip ops (fresh_cache w) = Ok (file_results ops D, s').
Proof.
  intros Hb Hm Ho. assert (Hrun : wp (run_fops ip ops) (λ r _, r = file_results ops D) (fresh_cache w)).
  { eapply wp_run_fops; [done..|by apply fresh_cached|done]. }
  apply wp_exec in Hrun as (r & s' & E & ->). by exists s'.
Qed.

(** ** Files of tmpfs *)

Section tmpfs.
Context `{!Kalloc cpage, !Kalloc bnode, !Filesystems, !Contents, !Mounts, !TmpfsAlloc}.

Lemma tmpfs_backed w ip v D f : file_ok w ip v D → is_dev v = false → ifs v = Some f → op_read f = Some tmpfs_read → is_Some (iops_of f) → is_Some (op_write f) →
  D ≠ [] → backed ip w v D f tmpfs_read.
Proof using Type.
  intros Hf Hd Hi Hr Ho Hw Hne. pose proof Hf as [F1 F2 F3 F4 F5]. split; try done.
  - split; [|done]. unfold is_dir. by destruct (i_type v).
  - destruct D; simpl in *; [done|lia].
  - intros off n Hn Hlt. assert (Hrun : wp (tmpfs_read ip (Z.of_nat off) (Z.of_nat n)) (λ r s, r = inr (piece D off (off + n)) ∧ s = w) w).
    { eapply wp_tmpfs_read; [done|lia|lia|]. split; [|done]. unfold piece. rewrite Nat2Z.id. do 2 f_equal. lia. }
    apply wp_exec in Hrun as (r & s & E & -> & ->). done.
Qed.
(** The first write to an empty file goes to the file system. *)
Lemma wp_write_through w ip v f buf s (Q : Z → cache → Prop) : file_ok w ip v [] → is_dev v = false → ifs v = Some f → op_write f = Some tmpfs_write →
  is_Some (iops_of f) → (∀ s n, kcalloc_ok s n = true) → (∀ s n, is_Some (krealloc_tail s n)) → buf ≠ [] → Z.of_nat (length buf) < 2 ^ 32 →
  files s = w → map_lock s = false →
  (let v' := {| v with i_size := Z.of_nat (length buf); i_priv := PData buf |} in
   Q (Z.of_nat (length buf)) (Cache (pages_tree s) (cpages s) (nrpages s) false (mapi ip (λ _, v') w))) →
  wp (iwrite ip 0 buf) Q s.
Proof using Type.
  intros Hf Hd Hi Hw [o Ho] Hk Hr Hne Hlt Hs Hl HQ. pose proof Hf as [F1 F2 F3 F4 F5]. unfold iwrite.
  assert (Hin : ∀ s' (Q' : inode → cache → Prop), files s' = w → Q' v s' → wp (on_fs (rdi (Some ip))) Q' s').
  { intros s' Q' E HQ'. apply wp_on_fs. eapply wp_rd; [by rewrite E|]. by destruct s'. }
  assert (Hlb : (0 < length buf)%nat) by (destruct buf; simpl; [done|lia]).
  apply wp_bind, Hin; [done|]. rewrite Hd. assert (is_dir v = false) as -> by (unfold is_dir; by destruct (i_type v)).
  unfold ops_of. rewrite Hi. simpl. rewrite Ho, Hw. apply wp_with_lock; [done|]. fold (pages_of (length buf)).
  destruct (pages_of (length buf)) as [|n] eqn:En; [destruct (pages_of_spec (length buf)); lia|]. cbn [write_pages].
  apply wp_bind. unfold mapping_get_page. rewrite bool_decide_false by (vm_compute; congruence). apply wp_bind, wp_spin_assert_lock; [done|].
  apply wp_bind, Hin; [done|]. rewrite F4. rewrite bool_decide_true by done. apply wp_ret. rewrite decide_False by tauto. cbn [stored].
  apply wp_bind, Hin; [done|]. rewrite Hi. simpl. rewrite Hw. apply wp_on_fs. rewrite Hs.
  eapply (wp_tmpfs_write w ip v [] 0 buf); [done..|simpl; lia|done|lia|]. intros hole Hh. destruct hole; [|done]. split; [done|exact HQ].
Qed.
End tmpfs.

(** C28: What is written to a new file of tmpfs is read back through the page cache: a write of
    [buf] to the empty file and a read of as many bytes return the length of [buf] and
    the bytes of [buf].  The kernel has memory for the contents, the pages and the nodes
    of the tree (no [kcalloc], [krealloc] or page allocation fails), and [buf] is not
    empty. *)
Theorem tmpfs_iwrite_iread `{!Kalloc cpage, !Kalloc bnode, !Filesystems, !Contents, !Mounts, !TmpfsAlloc} w ip v f buf :
  memory → (∀ s n, kcalloc_ok s n = true) → (∀ s n, is_Some (krealloc_tail s n)) →
  file_ok w ip v [] → is_dev v = false → ifs v = Some f → is_Some (iops_of f) → op_read f = Some tmpfs_read → op_write f = Some tmpfs_write →
  buf ≠ [] → Z.of_nat (length buf) < 2 ^ 32 →
  ∃ s1 s2, iwrite ip 0 buf (fresh_cache w) = Ok (Z.of_nat (length buf), s1) ∧
    iread ip 0 (Z.of_nat (length buf)) s1 = Ok ((Z.of_nat (length buf), buf), s2).
Proof.
  intros Hm Hk Hr Hf Hd Hi Ho Hrd Hwr Hne Hlt. pose proof Hf as [F1 F2 F3 F4 F5].
  assert (Hlb : (0 < length buf)%nat) by (destruct buf; simpl; [done|lia]).
  set (v' := {| v with i_size := Z.of_nat (length buf); i_priv := PData buf |}). set (w' := mapi ip (λ _, v') w).
  assert (Hrun1 : wp (iwrite ip 0 buf) (λ r s, r = Z.of_nat (length buf) ∧ cached w' buf false s ∅ buf) (fresh_cache w)).
  { eapply wp_write_through; [done..|]. split; [done|]. by apply fresh_cached. }
  apply wp_exec in Hrun1 as (r & s1 & E1 & -> & C).
  assert (Hb : backed ip w' v' buf f tmpfs_read).
  { eapply tmpfs_backed; [|done..]. split; [unfold w'; by rewrite mapi_lookup, decide_True, F1|done|by left|done|done]. }
  assert (Hrun2 : wp (iread ip 0 (Z.of_nat (length buf))) (λ r _, r = (Z.of_nat (length buf), buf)) s1).
  { eapply (wp_iread _ _ _ _ _ _ Hb Hm 0); [done|]. intros _ _ _. unfold read_result, read_value, stop_at.
    destruct (pages_of_spec (length buf)) as [P1 P2]. pose proof PG_pos. rewrite Nat.Div0.div_0_l. simpl.
    assert ((length buf `min` (length buf `min` (pages_of (length buf) * PG)))%nat = length buf) as -> by lia.
    unfold piece. rewrite drop_0, Nat.sub_0_r, firstn_all. rewrite decide_False; [done|]. lia. }
  apply wp_exec in Hrun2 as (r & s2 & E2 & ->). by exists s1, s2.
Qed.

(** ** What goes wrong *)

(** When the file system cannot read a page, [mapping_get_page] returns 0, stores no page
    and frees the one it has entered in the tree: the next use of that page of the file
    finds a page that is free. *)
Theorem failed_read_dangles `{!Kalloc cpage, !Kalloc bnode, !Filesystems, !Contents, !Mounts} ip w v f g k e (s := {| (fresh_cache w) with map_lock := true |}) :
  memory → inos w !! ip = Some v → ifs v = Some f → op_read f = Some g → Z.of_nat k * PAGESZ < i_size v < 2 ^ 32 →
  g ip (Z.of_nat k * PAGESZ) (Z.min PAGESZ (i_size v - Z.of_nat k * PAGESZ)) w = Ok (inl e, w) →
  ∃ s', mapping_get_page ip (Z.of_nat k) s = Ok ((0, NULL), s') ∧ mapping_get_page ip (Z.of_nat k) s' = Fault.
Proof.
  intros Hm Hv Hf Hg Hk He. assert (Hk0 : 0 ≤ Z.of_nat k * PAGESZ) by (unfold PAGESZ; lia). assert (HPG : 0 < PAGESZ) by done. destruct (fresh_cached w [] (fresh_cache w)) as [_ _ _ T _ _ _ _]; [done..|].
  assert (Hrun : wp (mapping_get_page ip (Z.of_nat k)) (λ r s', r = (0, NULL) ∧ mapping_get_page ip (Z.of_nat k) s' = Fault) s).
  { eapply (wp_miss ip Hm k v s ∅); [done|done|lia|done|exact T|done|]. intros l t nr Hl Ht Hr. apply wp_bind. eapply wp_page; [apply lookup_insert_eq|].
    cbn [cg_valid]. apply wp_bind. eapply wp_on_inode; [done|]. rewrite (u32_small (Z.of_nat k * PAGESZ)), u32_small by lia. cbv zeta. rewrite bool_decide_false by lia. rewrite Hf. simpl. rewrite Hg.
    apply wp_bind, wp_on_fs. eapply wp_eq; [exact He|]. apply wp_bind, wp_bind. eapply wp_page; [apply lookup_insert_eq|]. cbn [cg_refs].
    rewrite bool_decide_true by done. apply wp_kfree; [eexists; apply lookup_insert_eq|]. apply wp_ret. split; [done|].
    unfold mapping_get_page. rewrite bool_decide_false by lia. apply fault_bind, wp_spin_assert_lock; [done|]. apply fault_bind. eapply wp_on_inode; [exact Hv|].
    rewrite bool_decide_false by lia. apply fault_bind, wp_on_tree, wp_spin_lock; [done|]. apply fault_bind, wp_on_tree. eapply wp_eq; [by apply btree_search_correct|].
    cbv beta iota. rewrite lookup_insert_eq. apply fault_bind, wp_on_tree, wp_spin_unlock; [done|]. unfold fill_page, mbind, M_bind, rdpage, rd. simpl.
    by rewrite lookup_delete_eq. }
  apply wp_exec in Hrun as (r & s' & E & -> & E'). by exists s'.
Qed.
(** A pipe has size 0: [iread] returns -1 for it and never gets to the operation of the
    file system. *)
Lemma iread_empty `{!Kalloc cpage, !Kalloc bnode, !Filesystems, !Contents, !Mounts} ip s v f pos sz : map_lock s = false →
  inos (files s) !! ip = Some v → i_size v = 0 → is_dev v = false → is_dir v = false → ifs v = Some f → is_Some (iops_of f) → is_Some (op_read f) →
  0 ≤ pos → (0 < sz)%nat → iread ip pos (Z.of_nat sz) s = Ok ((-1, []), s).
Proof.
  intros Hl Hv Hz Hd Hd' Hf [o Ho] [g Hg] Hp Hsz. assert (Hrun : wp (iread ip pos (Z.of_nat sz)) (λ r s', r = (-1, []) ∧ s' = s) s).
  { unfold iread. apply wp_bind. eapply wp_on_inode; [done|]. rewrite Hd, Hd'. unfold ops_of. rewrite Hf. simpl. rewrite Ho, Hg. apply wp_with_lock; [done|].
    fold (pages_of sz). destruct (pages_of sz) as [|n] eqn:En; [destruct (pages_of_spec sz); lia|]. cbn [read_pages].
    apply wp_bind. eapply wp_on_inode; [done|]. rewrite bool_decide_true by lia. apply wp_ret. split_and!; [done|done|]. destruct s. simpl in *. by subst. }
  apply wp_exec in Hrun as (r & s' & E & -> & ->). done.
Qed.

(** ** Examples *)

#[local] Instance demo_kpage : Kalloc cpage := kalloc_total cpage.
#[local] Instance demo_kbnode : Kalloc bnode := kalloc_total bnode.
#[local] Instance demo_mounts : Mounts := {| mount_ok _ := true |}.
#[local] Existing Instance demo_talloc.
#[local] Existing Instance demo_tmpfs.
#[local] Instance demo_contents : Contents := {|
  op_read f := if decide (f = 1%positive) then Some tmpfs_read else Some (λ _ _ _, mret (inl (- 5)));
  op_write f := Some tmpfs_write;
  kdev_read _ _ _ := mret (- ENXIO, []);
  kdev_write _ _ _ := mret (- ENXIO);
|}.
Lemma demo_cache_memory : memory.
Proof. split; [intros h; by eexists|intros h; by eexists|done]. Qed.
Lemma demo_backed : backed 14%positive demo_data demo_file [1; 2; 3] 1%positive tmpfs_read.
Proof. apply tmpfs_backed; [apply demo_file_ok|done|done|done|by eexists|by eexists|done]. Qed.
Lemma page_cache_refines_witness : ∃ s', run_fops 14%positive [FRead 0 3; FWrite 1 [9; 8]; FRead 1 10] (fresh_cache demo_data) =
  Ok ([(3, [1; 2; 3]); (2, []); (2, [9; 8])], s').
Proof.
  destruct (page_cache_refines 14%positive demo_data demo_file [1; 2; 3] 1%positive tmpfs_read [FRead 0 3; FWrite 1 [9; 8]; FRead 1 10] demo_backed demo_cache_memory) as [s' E].
  - repeat constructor; simpl; lia.
  - exists s'. rewrite E. vm_compute. reflexivity.
Defined.
Definition demo_empty : inode := Inode 0 420 7 7 2 FS_RGL NULL false PNull (Some 1%positive).
Lemma tmpfs_iwrite_iread_witness : ∃ s1 s2, iwrite 14%positive 0 [5; 6; 7] (fresh_cache (Vfs ∅ {[14%positive := demo_empty]} NULL)) = Ok (3, s1) ∧
  iread 14%positive 0 3 s1 = Ok ((3, [5; 6; 7]), s2).
Proof.
  apply (tmpfs_iwrite_iread (Vfs ∅ {[14%positive := demo_empty]} NULL) 14%positive demo_empty 1%positive [5; 6; 7] demo_cache_memory);
    [done|by intros; eexists|split; [done|done|by right|done|done]|done|done|by eexists|done|done|done|done].
Defined.
Definition demo_broken : inode := Inode 10 420 7 7 2 FS_RGL NULL false PNull (Some 2%positive).
Lemma failed_read_dangles_witness : ∃ s', mapping_get_page 14%positive 0 {| (fresh_cache (Vfs ∅ {[14%positive := demo_broken]} NULL)) with map_lock := true |} = Ok ((0, NULL), s') ∧
  mapping_get_page 14%positive 0 s' = Fault.
Proof.
  apply (failed_read_dangles 14%positive (Vfs ∅ {[14%positive := demo_broken]} NULL) demo_broken 2%positive (λ _ _ _, mret (inl (- 5))) 0 (- 5) demo_cache_memory);
    [done|done|done|done|done].
Defined.
