(* ===== verification/Liballoc.v ===== *)
(** * The kernel heap: [mm/liballoc]

    [liballoc.c] takes whole pages from [paging_alloc] as "major" blocks and carves
    "minor" pieces out of them.  A block starts with a [struct liballoc_major], a piece
    with a [struct liballoc_minor], both of 24 bytes on this 32-bit machine; the blocks,
    and the pieces of each block, are on doubly linked lists.

    Memory is modelled by the objects in it: the headers of the two kinds by their
    address, and single bytes.  The fields of a header that is in place are updated in
    place.  Writing a new header or a byte destroys every object it overlaps
    ([clobber]); reading an object that is not there is a [Fault].

    The pages come from an interface, [Pages]: what [liballoc_hooks.c] calls. *)
From S2P Require Import Prelude Dll.

Definition u64 (z : Z) : Z := z mod 2 ^ 64.

Definition ALIGNMENT : Z := 16.
Definition ALIGN_INFO : Z := 16.
Definition LIBALLOC_MAGIC : Z := 0xc001c0de.
Definition LIBALLOC_DEAD : Z := 0xdeaddead.
Definition sizeof_major : Z := 24.
Definition sizeof_minor : Z := 24.
Definition l_pageSize : Z := 4096.
Definition l_pageCount : Z := 16.

(** The headers; their links [prev] and [next] are those of [node]. *)
Record liballoc_major : Type := Major { mj_pages : Z; mj_size : Z; mj_usage : Z; mj_first : ptr }.
Record liballoc_minor : Type := Minor { mn_block : ptr; mn_magic : Z; mn_size : Z; mn_req_size : Z }.

(** What the heap may rely on: [page_alloc z] reserves [z] bytes, [page_free b z] gives
    back the [z] bytes at [b].  [owned w A] says that [A] is what is reserved. *)
Class Pages (W : Type) : Type := {
  page_alloc : Z → M W Z;
  page_free : Z → Z → M W unit;
  owned : W → gmap Z Z → Prop;
  page_alloc_owned : ∀ w A z, owned w A → 0 < z < 2 ^ 32 → (PAGESZ | z) →
    wp (page_alloc z) (λ b w', (b = 0 ∧ owned w' A) ∨
      (0 < b ∧ b + z < 2 ^ 32 ∧ (PAGESZ | b) ∧ owned w' (<[b := z]> A) ∧
       ∀ b' z', A !! b' = Some z' → b + z ≤ b' ∨ b' + z' ≤ b)) w;
  page_free_owned : ∀ w A b z, owned w A → A !! b = Some z →
    wp (page_free b z) (λ _ w', owned w' (delete b A)) w;
}.

(** The module's variables, the memory it manages and the state of the page supply. *)
Record kheap (W : Type) : Type := Kheap {
  l_spinlock : bool;
  l_memRoot : ptr;
  l_bestBet : ptr;
  l_allocated : Z;
  l_inuse : Z;
  l_warningCount : Z;
  l_errorCount : Z;
  l_possibleOverruns : Z;
  majors : gmap loc (node liballoc_major);
  minors : gmap loc (node liballoc_minor);
  bytes : gmap loc Z;
  supply : W;
}.
Arguments Kheap {W}.
Arguments l_spinlock {W} _.
Arguments l_memRoot {W} _.
Arguments l_bestBet {W} _.
Arguments l_allocated {W} _.
Arguments l_inuse {W} _.
Arguments l_warningCount {W} _.
Arguments l_errorCount {W} _.
Arguments l_possibleOverruns {W} _.
Arguments majors {W} _.
Arguments minors {W} _.
Arguments bytes {W} _.
Arguments supply {W} _.

(** An address as a pointer: arithmetic is on 32 bits and 0 is NULL. *)
Definition addr (z : Z) : ptr := match u32 z with Zpos p => Some p | _ => NULL end.

(** The [k] bytes at [b] are not among the [n] bytes at [a]. *)
Definition outside (a n b k : Z) : Prop := b + k ≤ a ∨ a + n ≤ b.
#[global] Instance outside_dec a n b k : Decision (outside a n b k).
Proof. unfold outside. apply _. Defined.

Section heap_code.
Context {W : Type} `{!Pages W}.
Implicit Types s : kheap W.

#[global] Program Instance kheap_majors : Heap (kheap W) (node liballoc_major) :=
  {| heap_of := majors; put_heap h s := {| s with majors := h |} |}.
Solve Obligations with by intros; try destruct s.
#[global] Program Instance kheap_minors : Heap (kheap W) (node liballoc_minor) :=
  {| heap_of := minors; put_heap h s := {| s with minors := h |} |}.
Solve Obligations with by intros; try destruct s.
#[global] Instance kheap_lock : Lock (kheap W) :=
  {| held := l_spinlock; set_held b s := {| s with l_spinlock := b |} |}.

Definition liballoc_lock : M (kheap W) unit := spin_lock.
Definition liballoc_unlock : M (kheap W) unit := spin_unlock.

(** The memory after the [n] bytes at [a] are overwritten. *)
Definition clobber (a n : Z) s : kheap W :=
  {| s with majors := filter (λ x, outside a n (Zpos x.1) sizeof_major) (majors s);
            minors := filter (λ x, outside a n (Zpos x.1) sizeof_minor) (minors s);
            bytes := filter (λ x, outside a n (Zpos x.1) 1) (bytes s) |}.

(** Writing all the fields of a header where there was none. *)
Definition put_major (p : ptr) (v : node liballoc_major) : M (kheap W) unit :=
  match p with
  | None => fault
  | Some a => modify (λ s, let s := clobber (Zpos a) sizeof_major s in {| s with majors := <[a := v]> (majors s) |})
  end.
Definition put_minor (p : ptr) (v : node liballoc_minor) : M (kheap W) unit :=
  match p with
  | None => fault
  | Some a => modify (λ s, let s := clobber (Zpos a) sizeof_minor s in {| s with minors := <[a := v]> (minors s) |})
  end.

(** [*p = v] and [*p] for a [char] pointer. *)
Definition put_byte (p : ptr) (v : Z) : M (kheap W) unit :=
  match p with
  | None => fault
  | Some a => modify (λ s, let s := clobber (Zpos a) 1 s in {| s with bytes := <[a := v]> (bytes s) |})
  end.
Definition get_byte (p : ptr) : M (kheap W) Z := λ s,
  match p ≫= λ a, bytes s !! a with Some v => Ok (v, s) | None => Fault end.

(** ** [liballoc_hooks.c] *)

Definition on_supply {A} (m : M W A) : M (kheap W) A :=
  zoom supply (λ w s, {| s with supply := w |}) m.
Definition liballoc_alloc (pages : Z) : M (kheap W) ptr :=
  b ← on_supply (page_alloc (u32 (pages * PAGESZ))); mret (addr b).
(** The memory that is given back is no longer mapped. *)
Definition liballoc_free (p : loc) (pages : Z) : M (kheap W) unit :=
  on_supply (page_free (Zpos p) (u32 (pages * PAGESZ)));;
  modify (clobber (Zpos p) (u32 (pages * PAGESZ))).

(** ** Alignment of the pointers handed out *)

Definition ALIGN (p : Z) : M (kheap W) Z :=
  let p := u32 (p + ALIGN_INFO) in
  let diff := Z.land p (ALIGNMENT - 1) in
  let '(p, diff) := if bool_decide (diff ≠ 0) then (u32 (p + (ALIGNMENT - diff)), ALIGNMENT - diff) else (p, diff) in
  put_byte (addr (p - ALIGN_INFO)) (diff + ALIGN_INFO);;
  mret p.

(** The byte is a [char], sign extended. *)
Definition UNALIGN (p : Z) : M (kheap W) Z :=
  b ← get_byte (addr (p - ALIGN_INFO));
  let diff := u32 (if bool_decide (b < 128) then b else b - 256) in
  if bool_decide (diff < ALIGNMENT + ALIGN_INFO) then mret (u32 (p - diff)) else mret p.

(** ** Allocation *)

Definition allocate_new_page (size : Z) : M (kheap W) ptr :=
  let st := u32 (u32 (size + sizeof_major) + sizeof_minor) in
  let st := if bool_decide (st mod l_pageSize = 0) then st / l_pageSize else st / l_pageSize + 1 in
  let st := if bool_decide (st < l_pageCount) then l_pageCount else st in
  maj ← liballoc_alloc st;
  match maj with
  | None => modify (λ s, {| s with l_warningCount := l_warningCount s + 1 |});; mret NULL
  | Some _ =>
      put_major maj (Node (Major st (u32 (st * l_pageSize)) sizeof_major NULL) NULL NULL);;
      modify (λ s, {| s with l_allocated := u64 (l_allocated s + u32 (st * l_pageSize)) |});;
      mret maj
  end.

Definition set_first (p : ptr) : node liballoc_major → node liballoc_major :=
  set_data (λ d, {| d with mj_first := p |}).
Definition add_usage (z : Z) : node liballoc_major → node liballoc_major :=
  set_data (λ d, {| d with mj_usage := u32 (mj_usage d + z) |}).

(** What every case does once the header of the new piece is in place:
    [maj->usage += ...], [l_inuse += size] and the aligned pointer. *)
Definition hand_out (maj : loc) (min : Z) (size : Z) : M (kheap W) ptr :=
  upd (Some maj) (add_usage (u32 (size + sizeof_minor)));;
  modify (λ s, {| s with l_inuse := u64 (l_inuse s + size) |});;
  p ← ALIGN (u32 (min + sizeof_minor));
  mret (addr p).

(** CASE 2: a block without pieces. *)
Definition case2 (maj : loc) (size req_size : Z) : M (kheap W) ptr :=
  let first := addr (Zpos maj + sizeof_major) in
  upd (Some maj) (set_first first);;
  put_minor first (Node (Minor (Some maj) LIBALLOC_MAGIC size req_size) NULL NULL);;
  hand_out maj (Zpos maj + sizeof_major) size.

(** CASE 3: space before the first piece [first]. *)
Definition case3 (maj first : loc) (size req_size : Z) : M (kheap W) ptr :=
  let new := addr (Zpos maj + sizeof_major) in
  upd (Some first) (set_prev (D := liballoc_minor) new);;
  upd (Some maj) (set_first new);;
  put_minor new (Node (Minor (Some maj) LIBALLOC_MAGIC size req_size) NULL (Some first));;
  hand_out maj (Zpos maj + sizeof_major) size.

(** A piece after the piece [m], which has [msize] bytes and is followed by [next]. *)
Definition put_after (maj m : loc) (next : ptr) (msize size req_size : Z) : M (kheap W) ptr :=
  let new := u32 (Zpos m + sizeof_minor + msize) in
  put_minor (addr new) (Node (Minor (Some maj) LIBALLOC_MAGIC size req_size) (Some m) next);;
  match next with Some q => upd (Some q) (set_prev (D := liballoc_minor) (addr new)) | None => mret tt end;;
  upd (Some m) (set_next (D := liballoc_minor) (addr new));;
  hand_out maj new size.

(** CASE 4: the pieces from [min] on, until one is followed by enough space.  The
    result is [None] when the end of the list is reached. *)
Fixpoint case4 (fuel : nat) (maj : loc) (min : ptr) (size req_size : Z) : M (kheap W) (option ptr) :=
  match fuel with
  | O => nofuel
  | S fuel' =>
      match min with
      | None => mret None
      | Some m =>
          v ← rd (Some m);
          b ← rd (Some maj);
          let minor : liballoc_minor := n_data v in
          let major : liballoc_major := n_data b in
          let limit := match n_next v with None => u32 (Zpos maj + mj_size major) | Some q => Zpos q end in
          let diff := u32 (u32 (u32 (limit - Zpos m) - sizeof_minor) - mn_size minor) in
          if bool_decide (u32 (size + sizeof_minor) ≤ diff) then
            p ← put_after maj m (n_next v) (mn_size minor) size req_size; mret (Some p)
          else case4 fuel' maj (n_next v) size req_size
      end
  end.

(** CASE 1 and CASE 5: no room in the block [maj].  The search goes on with the block
    after it; at the end of the list it starts over, if it started at the best bet, or
    goes on with a new block as [fresh] says.  [k startedBet maj] is the next turn of the loop. *)
Definition next_block (k : bool → ptr → M (kheap W) ptr) (fresh : loc → M (kheap W) ptr) (startedBet : bool) (maj : loc)
    (next : ptr) (size : Z) : M (kheap W) ptr :=
  match next with
  | Some q => k startedBet (Some q)
  | None =>
      if startedBet then root ← gets l_memRoot; k false root else
      q ← allocate_new_page size;
      upd (Some maj) (set_next (D := liballoc_major) q);;
      match q with
      | None => mret NULL
      | Some b => upd (Some b) (set_prev (D := liballoc_major) (Some maj));; fresh b
      end
  end.

(** CASE 2 to CASE 5 for the block [maj]; CASE 5 goes on with the new block in the next turn. *)
Definition cases (k : bool → ptr → M (kheap W) ptr) (startedBet : bool) (maj : loc) (size req_size : Z) : M (kheap W) ptr :=
  v ← rd (Some maj);
  let major : liballoc_major := n_data v in
  match mj_first major with
  | None => case2 maj size req_size
  | Some first =>
      let diff := u32 (u32 (Zpos first - Zpos maj) - sizeof_major) in
      if bool_decide (u32 (size + sizeof_minor) ≤ diff) then case3 maj first size req_size else
      n ← gets (λ s, Datatypes.S (base.size (minors s)));
      r ← case4 n maj (Some first) size req_size;
      match r with
      | Some p => mret p
      | None => next_block k (λ b, k startedBet (Some b)) startedBet maj (n_next v) size
      end
  end.

(** The loop over the blocks. *)
Fixpoint malloc_loop (fuel : nat) (startedBet : bool) (bestSize : Z) (maj : ptr) (size req_size : Z) : M (kheap W) ptr :=
  match fuel with
  | O => nofuel
  | S fuel' =>
      match maj with
      | None => mret NULL
      | Some a =>
          v ← rd (Some a);
          let major : liballoc_major := n_data v in
          let diff := u32 (mj_size major - mj_usage major) in
          let better := bool_decide (bestSize < diff) in
          (if better then modify (λ s, {| s with l_bestBet := Some a |}) else mret tt);;
          let bestSize := if better then diff else bestSize in
          let k := λ started m, malloc_loop fuel' started bestSize m size req_size in
          if bool_decide (diff < u32 (size + sizeof_minor)) then
            (* CASE 1 *)
            next_block k (λ b, cases k startedBet b size req_size) startedBet a (n_next v) size
          else cases k startedBet a size req_size
      end
  end.

(** The turns the loop can take: the blocks from the best bet on, all of them again,
    and a new one. *)
Definition malloc_fuel (s : kheap W) : nat := 2 * base.size (majors s) + 3.

(** The code of [malloc] that runs with the lock held, which it releases. *)
Definition malloc_locked (size req_size : Z) : M (kheap W) ptr :=
  root ← gets l_memRoot;
  root ← match root with
         | Some _ => mret root
         | None => p ← allocate_new_page size; modify (λ s, {| s with l_memRoot := p |});; mret p
         end;
  match root with
  | None => liballoc_unlock;; mret NULL
  | Some _ =>
      bet ← gets l_bestBet;
      bestSize ← match bet with
                 | Some _ => v ← rd bet; let d : liballoc_major := n_data v in mret (u32 (mj_size d - mj_usage d))
                 | None => mret 0
                 end;
      let startedBet := bool_decide (bet ≠ NULL ∧ u32 (size + sizeof_minor) < bestSize) in
      n ← gets malloc_fuel;
      p ← malloc_loop n startedBet bestSize (if startedBet then bet else root) size req_size;
      liballoc_unlock;;
      mret p
  end.

Definition malloc (req_size : Z) : M (kheap W) ptr :=
  let size := u32 (req_size + (ALIGNMENT + ALIGN_INFO)) in
  liballoc_lock;;
  if bool_decide (size = 0) then
    modify (λ s, {| s with l_warningCount := l_warningCount s + 1 |});;
    liballoc_unlock;;
    liballoc_lock;;
    malloc_locked (u32 (1 + (ALIGNMENT + ALIGN_INFO))) 1
  else malloc_locked size req_size.

(** ** Release *)

(** The counters of a header without the magic number. *)
Definition bad_magic (magic : Z) : M (kheap W) unit :=
  modify (λ s, {| s with l_errorCount := l_errorCount s + 1 |});;
  if bool_decide (Z.land magic 0xFFFFFF = Z.land LIBALLOC_MAGIC 0xFFFFFF ∨
                  Z.land magic 0xFFFF = Z.land LIBALLOC_MAGIC 0xFFFF ∨
                  Z.land magic 0xFF = Z.land LIBALLOC_MAGIC 0xFF)
  then modify (λ s, {| s with l_possibleOverruns := l_possibleOverruns s + 1 |}) else mret tt.

(** The header [v] at [min] leaves the list of the block [maj]. *)
Definition unlink_minor (maj : loc) (min : ptr) (v : node liballoc_minor) : M (kheap W) unit :=
  modify (λ s, {| s with l_inuse := u64 (l_inuse s - mn_size (n_data v)) |});;
  upd (Some maj) (add_usage (- u32 (mn_size (n_data v) + sizeof_minor)));;
  upd min (set_data (λ d : liballoc_minor, {| d with mn_magic := LIBALLOC_DEAD |}));;
  match n_next v with Some q => upd (Some q) (set_prev (D := liballoc_minor) (n_prev v)) | None => mret tt end;;
  match n_prev v with
  | Some q => upd (Some q) (set_next (D := liballoc_minor) (n_next v))
  | None => upd (Some maj) (set_first (n_next v))
  end.

(** A block whose last piece was released goes back; otherwise it may be the best bet. *)
Definition release_major (maj : loc) : M (kheap W) unit :=
  v ← rd (Some maj);
  let d : liballoc_major := n_data v in
  match mj_first d with
  | None =>
      modify (λ s, {| s with l_memRoot := if bool_decide (l_memRoot s = Some maj) then n_next v else l_memRoot s;
                             l_bestBet := if bool_decide (l_bestBet s = Some maj) then NULL else l_bestBet s |});;
      match n_prev v with Some q => upd (Some q) (set_next (D := liballoc_major) (n_next v)) | None => mret tt end;;
      match n_next v with Some q => upd (Some q) (set_prev (D := liballoc_major) (n_prev v)) | None => mret tt end;;
      modify (λ s, {| s with l_allocated := u64 (l_allocated s - mj_size d) |});;
      liballoc_free maj (mj_pages d)
  | Some _ =>
      bet ← gets l_bestBet;
      match bet with
      | None => mret tt
      | Some _ =>
          b ← rd bet;
          let best : liballoc_major := n_data b in
          if bool_decide (i32 (mj_size best - mj_usage best) < i32 (mj_size d - mj_usage d))
          then modify (λ s, {| s with l_bestBet := Some maj |}) else mret tt
      end
  end.

Definition free (p : ptr) : M (kheap W) unit :=
  match p with
  | None => modify (λ s, {| s with l_warningCount := l_warningCount s + 1 |})
  | Some a =>
      q ← UNALIGN (Zpos a);
      liballoc_lock;;
      let min := addr (q - sizeof_minor) in
      v ← rd min;
      let m : liballoc_minor := n_data v in
      if bool_decide (mn_magic m ≠ LIBALLOC_MAGIC) then bad_magic (mn_magic m);; liballoc_unlock else
      match mn_block m with
      | None => fault
      | Some maj =>
          unlink_minor maj min v;;
          release_major maj;;
          liballoc_unlock
      end
  end.

(** ** [calloc] and [realloc] *)

(** [memset(p, c, n)] and [memcpy(p, q, n)], byte by byte; a byte that was never
    written is copied as such. *)
Fixpoint liballoc_memset (p : Z) (c : Z) (n : nat) : M (kheap W) unit :=
  match n with
  | O => mret tt
  | S n' => put_byte (addr p) c;; liballoc_memset (p + 1) c n'
  end.
Definition copy_byte (p q : ptr) : M (kheap W) unit :=
  match p, q with
  | Some a, Some b =>
      modify (λ s, let t := clobber (Zpos a) 1 s in {| t with bytes := partial_alter (λ _, bytes s !! b) a (bytes t) |})
  | _, _ => fault
  end.
Fixpoint liballoc_memcpy (p q : Z) (n : nat) : M (kheap W) unit :=
  match n with
  | O => mret tt
  | S n' => copy_byte (addr p) (addr q);; liballoc_memcpy (p + 1) (q + 1) n'
  end.
Definition ptr_addr (p : ptr) : Z := match p with Some a => Zpos a | None => 0 end.

Definition calloc (nobj size : Z) : M (kheap W) ptr :=
  let real_size := u32 (nobj * size) in
  p ← malloc real_size;
  liballoc_memset (ptr_addr p) 0 (Z.to_nat real_size);;
  mret p.

Definition realloc (p : ptr) (size : Z) : M (kheap W) ptr :=
  if bool_decide (size = 0) then free p;; mret NULL else
  match p with
  | None => malloc size
  | Some a =>
      q ← UNALIGN (Zpos a);
      liballoc_lock;;
      let min := addr (q - sizeof_minor) in
      v ← rd min;
      let m : liballoc_minor := n_data v in
      if bool_decide (mn_magic m ≠ LIBALLOC_MAGIC) then bad_magic (mn_magic m);; liballoc_unlock;; mret NULL else
      let real_size := mn_req_size m in
      if bool_decide (size ≤ real_size) then
        upd min (set_data (λ d : liballoc_minor, {| d with mn_req_size := size |}));;
        liballoc_unlock;;
        mret p
      else
        liballoc_unlock;;
        ptr ← malloc size;
        liballoc_memcpy (ptr_addr ptr) (Zpos a) (Z.to_nat real_size);;
        free p;;
        mret ptr
  end.
End heap_code.
