(* ===== verification/LiballocInv.v ===== *)
(** * The kernel heap: blocks, pieces and the invariant

    What the headers of [mm/liballoc] describe: a list of blocks that do not overlap,
    each with a list of pieces in the order of their addresses ([heap_inv]).  The lemmas
    say how the invariant survives what the code does to memory: overwriting free bytes,
    adding a piece to a gap, taking one out, adding and giving back a block. *)
From S2P Require Import Prelude Dll Liballoc.

Definition sum_by {A} (f : A → Z) (l : list A) : Z := foldr (λ x n, f x + n) 0 l.
Lemma sum_by_cons {A} (f : A → Z) x l : sum_by f (x :: l) = f x + sum_by f l.
Proof. done. Qed.
Lemma sum_by_app {A} (f : A → Z) l1 l2 : sum_by f (l1 ++ l2) = sum_by f l1 + sum_by f l2.
Proof. induction l1 as [|x l1 IH]; [done|]. simpl app. rewrite !sum_by_cons, IH. lia. Qed.
Lemma sum_by_mid {A} (f : A → Z) l1 x l2 : sum_by f (l1 ++ x :: l2) = f x + sum_by f (l1 ++ l2).
Proof. rewrite !sum_by_app, sum_by_cons. lia. Qed.

Abbreviation piece := (loc * liballoc_minor)%type.
Implicit Types (x y : piece) (l : list piece).

(** ** Geometry *)

(** The byte after a piece. *)
Definition pend (x : piece) : Z := Zpos x.1 + sizeof_minor + mn_size x.2.

(** The pieces [l] lie one after the other between [lo] and [hi]. *)
Fixpoint fits (lo : Z) (l : list piece) (hi : Z) : Prop :=
  match l with [] => lo ≤ hi | x :: l' => lo ≤ Zpos x.1 ∧ fits (pend x) l' hi end.
(** Where the free bytes after [l] start, and where those before [l] end. *)
Definition end_of (lo : Z) (l : list piece) : Z := default lo (pend <$> last l).
Definition start_of (l : list piece) (hi : Z) : Z := match l with [] => hi | x :: _ => Zpos x.1 end.

Lemma end_of_cons lo x l : end_of lo (x :: l) = end_of (pend x) l.
Proof. unfold end_of. destruct l as [|y l]; [done|]. by rewrite last_cons_cons; destruct (last _) eqn:E; [|apply last_None in E]. Qed.
Lemma fits_app lo l1 l2 hi : fits lo (l1 ++ l2) hi ↔ fits lo l1 (end_of lo l1) ∧ fits (end_of lo l1) l2 hi.
Proof.
  revert lo. induction l1 as [|x l1 IH]; intros lo; simpl.
  - unfold end_of. simpl. split; [|tauto]. intros ?. split; [lia|done].
  - rewrite IH, end_of_cons. tauto.
Qed.
Lemma fits_insert lo l1 x l2 hi :
  fits lo (l1 ++ l2) hi → end_of lo l1 ≤ Zpos x.1 → pend x ≤ start_of l2 hi → fits lo (l1 ++ x :: l2) hi.
Proof.
  rewrite !fits_app. intros [H1 H2] ??. simpl. split_and!; [done..|]. destruct l2; simpl in *; [done|]. tauto.
Qed.

Section sized.
Context (l : list piece) (Hl : ∀ y, y ∈ l → 0 ≤ mn_size y.2).

Lemma fits_bounds lo hi : fits lo l hi → lo ≤ hi ∧ ∀ y, y ∈ l → lo ≤ Zpos y.1 ∧ pend y ≤ hi.
Proof using Hl.
  revert lo Hl. induction l as [|x l' IH]; intros lo Hl; simpl; [set_solver|]. intros [? Hf].
  destruct (IH _ ltac:(set_solver) Hf) as [Hle Hin]. pose proof (Hl x ltac:(left)). unfold pend, sizeof_minor in *.
  split; [lia|]. intros y [->|Hy]%elem_of_cons; [lia|]. apply Hin in Hy. lia.
Qed.
End sized.

Lemma fits_remove lo l1 x l2 hi : (∀ y, y ∈ l1 ++ x :: l2 → 0 ≤ mn_size y.2) →
  fits lo (l1 ++ x :: l2) hi → fits lo (l1 ++ l2) hi.
Proof.
  intros Hl. rewrite !fits_app. intros (? & Hx & Hf). split; [done|].
  pose proof (Hl x ltac:(set_solver)). destruct l2 as [|y l2]; simpl in *; unfold pend, sizeof_minor in *; [lia|].
  split; [lia|tauto].
Qed.
(** Two pieces of one block do not overlap, and none overlaps a gap. *)
Lemma fits_gap lo l1 l2 hi y : (∀ y, y ∈ l1 ++ l2 → 0 ≤ mn_size y.2) →
  fits lo (l1 ++ l2) hi → y ∈ l1 ++ l2 → pend y ≤ end_of lo l1 ∨ start_of l2 hi ≤ Zpos y.1.
Proof.
  intros Hl [H1 H2]%fits_app [Hy|Hy]%elem_of_app.
  - left. eapply (fits_bounds l1); [set_solver|done..].
  - right. destruct l2 as [|x l2]; [set_solver|]. destruct H2 as [? H2]. simpl.
    apply elem_of_cons in Hy as [->|Hy]; [lia|].
    pose proof (Hl x ltac:(set_solver)). unfold pend, sizeof_minor in *.
    apply (fits_bounds l2 (λ z Hz, Hl z ltac:(set_solver))) in H2 as [_ H2]. apply H2 in Hy. lia.
Qed.
Lemma fits_pair lo l1 x l2 hi y : (∀ y, y ∈ l1 ++ x :: l2 → 0 ≤ mn_size y.2) →
  fits lo (l1 ++ x :: l2) hi → y ∈ l1 ++ l2 → pend y ≤ Zpos x.1 ∨ pend x ≤ Zpos y.1.
Proof.
  intros Hl Hf [Hy|Hy]%elem_of_app.
  - apply fits_app in Hf as (Hf & ? & _). left.
    apply (fits_bounds l1 (λ z Hz, Hl z ltac:(set_solver))) in Hf as [_ Hf]. apply Hf in Hy. lia.
  - apply fits_app in Hf as (_ & _ & Hf). right.
    apply (fits_bounds l2 (λ z Hz, Hl z ltac:(set_solver))) in Hf as [_ Hf]. apply Hf in Hy. lia.
Qed.

(** ** The pointer a caller gets for a piece *)

(** The first multiple of 16 that leaves 16 bytes after the header at [m]. *)
Definition user (m : Z) : Z := (m + sizeof_minor + ALIGN_INFO + 15) / 16 * 16.
Lemma user_bounds m : m + 40 ≤ user m ≤ m + 55.
Proof. unfold user, sizeof_minor, ALIGN_INFO. pose proof (Z.div_mod (m + 24 + 16 + 15) 16). pose proof (Z.mod_pos_bound (m + 24 + 16 + 15) 16). lia. Qed.
Lemma user_aligned m : (16 | user m).
Proof. unfold user. eexists. done. Qed.

(** The byte that records the alignment is in the piece. *)
Lemma align_inside x : 32 ≤ mn_size x.2 →
  Zpos x.1 + sizeof_minor ≤ Zpos (Z.to_pos (user (Zpos x.1) - ALIGN_INFO)) < pend x.
Proof.
  intros ?. pose proof (user_bounds (Zpos x.1)). unfold pend, ALIGN_INFO, sizeof_minor. rewrite Z2Pos.id by lia. lia.
Qed.

(** ** The invariant *)

Record block : Type := Block { b_at : loc; b_pages : Z; b_pieces : list piece }.
Implicit Types b : block.
Definition b_size b : Z := b_pages b * PAGESZ.
Definition b_end b : Z := Zpos (b_at b) + b_size b.
Definition used (l : list piece) : Z := sum_by (λ x, sizeof_minor + mn_size x.2) l.
Definition major_of b : loc * liballoc_major :=
  (b_at b, Major (b_pages b) (b_size b) (sizeof_major + used (b_pieces b)) (hd_or NULL (b_pieces b))).

Record piece_ok (bs : gmap loc Z) (a : loc) (x : piece) : Prop := PieceOk {
  po_block : mn_block x.2 = Some a;
  po_magic : mn_magic x.2 = LIBALLOC_MAGIC;
  po_req : 0 ≤ mn_req_size x.2 ≤ mn_size x.2 - 32;
  po_align : bs !! Z.to_pos (user (Zpos x.1) - ALIGN_INFO) = Some (user (Zpos x.1) - (Zpos x.1 + sizeof_minor));
}.

Section inv.
Context {W : Type} `{!Pages W}.
Implicit Types (s t : kheap W) (bl : list block).

Record block_ok s b : Prop := BlockOk {
  bo_pages : 0 < b_pages b;
  bo_end : b_end b < 2 ^ 32;
  bo_linked : linked (minors s) NULL (b_pieces b) NULL;
  bo_fits : fits (Zpos (b_at b) + sizeof_major) (b_pieces b) (b_end b);
  bo_ok : ∀ x, x ∈ b_pieces b → piece_ok (bytes s) (b_at b) x;
}.
Record heap_inv (lk : bool) s bl : Prop := HeapInv {
  hi_lock : l_spinlock s = lk;
  hi_root : l_memRoot s = hd_or NULL (major_of <$> bl);
  hi_bet : ∀ a, l_bestBet s = Some a → a ∈ b_at <$> bl;
  hi_linked : linked (majors s) NULL (major_of <$> bl) NULL;
  hi_ok : ∀ b, b ∈ bl → block_ok s b;
  hi_apart : ∀ b b', b ∈ bl → b' ∈ bl → b_at b ≠ b_at b' → b_end b ≤ Zpos (b_at b') ∨ b_end b' ≤ Zpos (b_at b);
  hi_inuse : l_inuse s = u64 (sum_by (λ b, sum_by (λ x, mn_size x.2) (b_pieces b)) bl);
  hi_allocated : l_allocated s = u64 (sum_by b_size bl);
  hi_owned : ∃ A, owned (supply s) A ∧ ∀ b, b ∈ bl → A !! Zpos (b_at b) = Some (b_size b);
}.

(** The allocations a caller holds: pointer and size. *)
Definition live_of b : list (loc * Z) := (λ x, (Z.to_pos (user (Zpos x.1)), mn_req_size x.2)) <$> b_pieces b.
Definition live bl : list (loc * Z) := bl ≫= live_of.
(** ** Facts of the invariant *)

Lemma inv_sized s b : block_ok s b → ∀ y, y ∈ b_pieces b → 0 ≤ mn_size y.2.
Proof. intros Hb y Hy. pose proof (po_req _ _ _ (bo_ok _ _ Hb _ Hy)). lia. Qed.
Lemma inv_piece s b x : block_ok s b → x ∈ b_pieces b →
  Zpos (b_at b) + 24 ≤ Zpos x.1 ∧ pend x ≤ b_end b ∧ Zpos x.1 + 56 ≤ pend x.
Proof.
  intros Hb Hx. pose proof (po_req _ _ _ (bo_ok _ _ Hb _ Hx)).
  destruct (fits_bounds _ (inv_sized _ _ Hb) _ _ (bo_fits _ _ Hb)) as [_ Hf]. apply Hf in Hx.
  unfold pend, sizeof_major, sizeof_minor in *. lia.
Qed.
Lemma block_header s b : block_ok s b → Zpos (b_at b) + PAGESZ ≤ b_end b.
Proof. intros [? _ _ _ _]. unfold b_end, b_size, PAGESZ in *. lia. Qed.

Section facts.
Context (lk : bool) (s : kheap W) (bl : list block) (Hi : heap_inv lk s bl).

Lemma inv_NoDup : NoDup (b_at <$> bl).
Proof using Hi.
  pose proof (linked_NoDup _ _ _ (hi_linked _ _ _ Hi)) as Hnd. by rewrite <- list_fmap_compose in Hnd.
Qed.
Lemma inv_same b b' : b ∈ bl → b' ∈ bl → b_at b = b_at b' → b = b'.
Proof using Hi.
  intros Hb Hb' He. pose proof inv_NoDup as Hnd.
  apply list_elem_of_lookup in Hb as [i Hb], Hb' as [j Hb'].
  assert (i = j) as ->; [|congruence]. eapply NoDup_lookup; [done|..]; rewrite list_lookup_fmap; [by rewrite Hb|by rewrite Hb', He].
Qed.
Lemma inv_other b b' : b ∈ bl → b' ∈ bl → b ≠ b' → b_end b ≤ Zpos (b_at b') ∨ b_end b' ≤ Zpos (b_at b).
Proof using Hi. intros ? ? Hne. apply (hi_apart _ _ _ Hi); [done..|]. intros ?. by apply Hne, inv_same. Qed.
Lemma inv_major b : b ∈ bl → ∃ pv nx, majors s !! b_at b = Some (Node (major_of b).2 pv nx).
Proof using Hi.
  intros Hb. eapply linked_elem; [apply Hi|]. change (b_at b, (major_of b).2) with (major_of b). by apply list_elem_of_fmap_2.
Qed.
(** Pieces of different blocks are at different addresses. *)
Lemma inv_pieces_ne b b' y z : b ∈ bl → b' ∈ bl → b_at b' ≠ b_at b → y ∈ b_pieces b → z ∈ b_pieces b' → y.1 ≠ z.1.
Proof using Hi.
  intros Hb Hb' Hne Hy Hz. pose proof (inv_piece _ _ _ (hi_ok _ _ _ Hi b Hb) Hy).
  pose proof (inv_piece _ _ _ (hi_ok _ _ _ Hi b' Hb') Hz). pose proof (hi_apart _ _ _ Hi _ _ Hb' Hb Hne).
  intros Heq. rewrite Heq in *. lia.
Qed.
End facts.

(** ** Overwriting free bytes *)

(** Nothing that [bl] describes is among the [n] bytes at [a]. *)
Definition vacant bl (a n : Z) : Prop :=
  ∀ b, b ∈ bl → outside a n (Zpos (b_at b)) sizeof_major ∧ ∀ x, x ∈ b_pieces b → pend x ≤ a ∨ a + n ≤ Zpos x.1.

(** Everything that [bl] describes, the contents of the pieces included, is the same in [s] and [t]. *)
Record kept bl s t : Prop := Kept {
  k_major : ∀ b, b ∈ bl → majors t !! b_at b = majors s !! b_at b;
  k_minor : ∀ b x, b ∈ bl → x ∈ b_pieces b → minors t !! x.1 = minors s !! x.1;
  k_byte : ∀ b x q, b ∈ bl → x ∈ b_pieces b → Zpos x.1 + sizeof_minor ≤ Zpos q < pend x → bytes t !! q = bytes s !! q;
}.

Lemma filter_outside {V} (h : gmap loc V) a n k q : outside a n (Zpos q) k →
  filter (λ x : loc * V, outside a n (Zpos x.1) k) h !! q = h !! q.
Proof.
  intros Hq. destruct (h !! q) as [v|] eqn:E; [by apply map_lookup_filter_Some|].
  apply map_lookup_filter_None. by left.
Qed.
Lemma kept_clobber bl s a n : vacant bl a n → (∀ b x, b ∈ bl → x ∈ b_pieces b → 0 ≤ mn_size x.2) →
  kept bl s (clobber a n s).
Proof.
  intros Hv Hz. split; unfold clobber; simpl.
  - intros b Hb. apply filter_outside. by apply Hv.
  - intros b x Hb Hx. apply filter_outside. pose proof (Hz _ _ Hb Hx). apply Hv in Hb as [_ Hb]. apply Hb in Hx.
    unfold outside, pend in *. lia.
  - intros b x q Hb Hx Hq. apply filter_outside. pose proof (Hz _ _ Hb Hx). apply Hv in Hb as [_ Hb]. apply Hb in Hx.
    unfold outside, pend, sizeof_minor in *. lia.
Qed.
Lemma kept_trans bl s t u : kept bl s t → kept bl t u → kept bl s u.
Proof.
  intros [H1 H2 H3] [H4 H5 H6]. split; intros.
  - rewrite H4 by done. auto.
  - rewrite (H5 b x) by done. eauto.
  - rewrite (H6 b x q) by done. eauto.
Qed.
Lemma block_ok_ext s t b : (∀ x, x ∈ b_pieces b → minors t !! x.1 = minors s !! x.1) →
  (∀ x q, x ∈ b_pieces b → Zpos x.1 + sizeof_minor ≤ Zpos q < pend x → bytes t !! q = bytes s !! q) →
  block_ok s b → block_ok t b.
Proof.
  intros Hm Hby [? ? Hl ? Hx]. split; [done..| |done|].
  - eapply linked_ext; [|done]. intros q (x & -> & Hq)%list_elem_of_fmap. by apply Hm.
  - intros x Hin. destruct (Hx x Hin) as [? ? ? Ha]. split; [done..|]. rewrite <- Ha. eapply Hby; [done|]. apply align_inside. lia.
Qed.
Lemma kept_block_ok bl s t b : kept bl s t → b ∈ bl → block_ok s b → block_ok t b.
Proof. intros [_ Hm Hby] Hb. apply block_ok_ext; eauto. Qed.

(** ** One block changes *)

Section change.
Context (lk : bool) (s : kheap W) (B1 B2 : list block) (a : loc) (n : Z) (l : list piece).
Let bl := B1 ++ Block a n l :: B2.
Context (Hi : heap_inv lk s bl).

Lemma change_others b : b ∈ B1 ++ B2 → b ∈ bl ∧ b_at b ≠ a.
Proof using Hi.
  pose proof (inv_NoDup _ _ _ Hi) as Hnd. unfold bl in *. rewrite fmap_app in Hnd. csimpl in Hnd.
  apply NoDup_app in Hnd as (_ & Hn1 & [Hn2 _]%NoDup_cons). intros [Hb|Hb]%elem_of_app; (split; [set_solver|]); intros Heq.
  - apply (Hn1 (b_at b)); [by apply list_elem_of_fmap_2|]. rewrite Heq. left.
  - apply Hn2. rewrite <- Heq. by apply list_elem_of_fmap_2.
Qed.

Lemma change_linked t f l' : f (major_of (Block a n l)).2 = (major_of (Block a n l')).2 →
  (∀ b, b ∈ bl → majors t !! b_at b = alter (set_data f) a (majors s) !! b_at b) →
  linked (majors t) NULL (major_of <$> B1 ++ Block a n l' :: B2) NULL.
Proof using Hi.
  intros Hf Hmj. pose proof (hi_linked _ _ _ Hi) as Hli. unfold bl in *. rewrite fmap_app in Hli |- *.
  rewrite fmap_cons in Hli |- *.
  pose proof (linked_set_data _ _ (major_of <$> B1) a (major_of (Block a n l)).2 (major_of <$> B2) _ f (linked_NoDup _ _ _ Hli) Hli) as Hl2.
  rewrite Hf in Hl2. eapply linked_ext, Hl2. intros q (y & -> & Hy)%list_elem_of_fmap.
  apply elem_of_app in Hy as [(b & -> & Hb)%list_elem_of_fmap|[->|(b & -> & Hb)%list_elem_of_fmap]%elem_of_cons].
  - apply Hmj. set_solver.
  - apply (Hmj (Block a n l)). set_solver.
  - apply Hmj. set_solver.
Qed.

Lemma inv_change t f l' : block_ok t (Block a n l') → (∀ b, b ∈ bl → b_at b ≠ a → block_ok t b) →
  f (major_of (Block a n l)).2 = (major_of (Block a n l')).2 →
  (∀ b, b ∈ bl → majors t !! b_at b = alter (set_data f) a (majors s) !! b_at b) →
  l_spinlock t = lk → l_memRoot t = l_memRoot s → l_bestBet t = l_bestBet s → l_allocated t = l_allocated s →
  l_inuse t = u64 (l_inuse s + (sum_by (λ x, mn_size x.2) l' - sum_by (λ x, mn_size x.2) l)) → supply t = supply s →
  heap_inv lk t (B1 ++ Block a n l' :: B2).
Proof using Hi.
  intros Hn Ho Hf Hmj Hk Hr Hbt Hal Hin Hsu. pose proof Hi as [_ Hro Hbe _ _ Hap Hiu Hall (A & HA & HAb)].
  assert (∀ b, b ∈ B1 ++ Block a n l' :: B2 → ∃ b0, b0 ∈ bl ∧ b_at b0 = b_at b ∧ b_pages b0 = b_pages b) as Hsub.
  { intros b Hb. assert (b = Block a n l' ∨ b ∈ B1 ++ B2) as [->|[? _]%change_others] by set_solver; [|by exists b].
    exists (Block a n l). split; [|done]. unfold bl. set_solver. }
  split; [done|..].
  - rewrite Hr, Hro. unfold bl. by rewrite !fmap_app, !hd_or_app.
  - intros c Hc. rewrite Hbt in Hc. apply Hbe in Hc. revert Hc. unfold bl. by rewrite !fmap_app.
  - by eapply change_linked.
  - intros b Hb. assert (b = Block a n l' ∨ b ∈ B1 ++ B2) as [->|[? ?]%change_others] by set_solver; auto.
  - intros b b' (c & Hc & Hc1 & Hc2)%Hsub (c' & Hc' & Hc1' & Hc2')%Hsub Hne. unfold b_end, b_size in *.
    pose proof (Hap c c' Hc Hc') as Hap'. rewrite Hc1, Hc2, Hc1', Hc2' in Hap'. by apply Hap'.
  - rewrite Hin, Hiu. unfold u64. rewrite Zplus_mod_idemp_l. f_equal. unfold bl. rewrite !sum_by_mid. simpl. lia.
  - rewrite Hal, Hall. f_equal. unfold bl. by rewrite !sum_by_mid.
  - exists A. rewrite Hsu. split; [done|]. intros b (c & Hc & Hc1 & Hc2)%Hsub. unfold b_size. rewrite <- Hc1, <- Hc2. by apply HAb.
Qed.
End change.

(** ** Adding a piece *)

Section insert.
Context (lk : bool) (s : kheap W) (B1 B2 : list block) (a : loc) (n : Z) (l1 l2 : list piece).
Let bl := B1 ++ Block a n (l1 ++ l2) :: B2.
Context (Hi : heap_inv lk s bl) (m : loc) (sz rq : Z).
Let x : piece := (m, Minor (Some a) LIBALLOC_MAGIC sz rq).
Context (Hlo : end_of (Zpos a + sizeof_major) l1 ≤ Zpos m) (Hhi : pend x ≤ start_of l2 (Zpos a + n * PAGESZ)).
Context (Hrq : 0 ≤ rq ≤ sz - 32).
Let bl' := B1 ++ Block a n (l1 ++ x :: l2) :: B2.

Lemma ins_elem : Block a n (l1 ++ l2) ∈ bl.
Proof using Type. apply elem_of_app. right. left. Qed.
Lemma ins_ok : block_ok s (Block a n (l1 ++ l2)).
Proof using Hi. apply (hi_ok _ _ _ Hi), ins_elem. Qed.

Lemma ins_range : Zpos a + 24 ≤ Zpos m ∧ pend x ≤ Zpos a + n * PAGESZ ∧ Zpos a + n * PAGESZ < 2 ^ 32 ∧ pend x = Zpos m + 24 + sz.
Proof using Hi Hlo Hhi Hrq.
  pose proof ins_ok as Hb. pose proof (bo_fits _ _ Hb) as Hf. pose proof (bo_end _ _ Hb) as He. simpl in Hf.
  assert (∀ y, y ∈ l1 ++ l2 → 0 ≤ mn_size y.2) as Hz by apply (inv_sized _ _ Hb).
  apply fits_app in Hf as [Hf1 Hf2].
  destruct (fits_bounds l1 (λ z Hz', Hz z ltac:(set_solver)) _ _ Hf1) as [? _].
  destruct (fits_bounds l2 (λ z Hz', Hz z ltac:(set_solver)) _ _ Hf2) as [_ Hin].
  assert (start_of l2 (Zpos a + n * PAGESZ) ≤ Zpos a + n * PAGESZ).
  { destruct l2 as [|y l2']; simpl; [lia|]. pose proof (Hin y ltac:(set_solver)) as Hy.
    pose proof (Hz y ltac:(set_solver)). unfold b_end, b_size, pend, sizeof_minor in *. simpl in *. lia. }
  unfold b_end, b_size, sizeof_major in *. simpl in *. unfold x, pend, sizeof_minor in *. simpl in *. lia.
Qed.

Lemma ins_vacant k j : Zpos m ≤ k → 0 ≤ j → k + j ≤ pend x → vacant bl k j.
Proof using Hi Hlo Hhi Hrq.
  intros Hk Hj He b Hb. pose proof ins_range as Hr. pose proof (hi_ok _ _ _ Hi b Hb) as Hob.
  pose proof (block_header _ _ Hob). unfold outside, sizeof_major, PAGESZ in *.
  destruct (decide (b_at b = a)) as [Ha|Ha].
  - assert (b = Block a n (l1 ++ l2)) as -> by (eapply inv_same; [done..|apply ins_elem|done]). simpl in *.
    split; [lia|]. intros y Hy. pose proof ins_ok as Hb'.
    pose proof (fits_gap _ _ _ _ y (inv_sized _ _ Hb') (bo_fits _ _ Hb') Hy). unfold b_end, b_size, sizeof_major, PAGESZ in *. simpl in *. lia.
  - pose proof (hi_apart _ _ _ Hi _ _ Hb ins_elem Ha) as Hap. unfold b_end, b_size, PAGESZ in *. simpl in *.
    split; [lia|]. intros y Hy. pose proof (inv_piece _ _ _ Hob Hy). unfold b_end, b_size, PAGESZ in *. lia.
Qed.
Lemma ins_sized b y : b ∈ bl → y ∈ b_pieces b → 0 ≤ mn_size y.2.
Proof using Hi. intros Hb. apply (inv_sized s). by apply (hi_ok _ _ _ Hi). Qed.
Lemma ins_kept k j t : Zpos m ≤ k → 0 ≤ j → k + j ≤ pend x → kept bl t (clobber k j t).
Proof using Hi Hlo Hhi Hrq. intros. apply kept_clobber; [by apply ins_vacant|apply ins_sized]. Qed.
Lemma ins_fresh b y : b ∈ bl → y ∈ b_pieces b → y.1 ≠ m.
Proof using Hi Hlo Hhi Hrq.
  intros Hb Hy. pose proof (ins_vacant (Zpos m) 1 ltac:(lia) ltac:(lia)) as Hv.
  pose proof ins_range. destruct (Hv ltac:(lia) b Hb) as [_ Hv']. apply Hv' in Hy as Hy'.
  pose proof (ins_sized _ _ Hb Hy). unfold pend, sizeof_minor in *. intros Heq. rewrite Heq in Hy'. lia.
Qed.
(** The piece [x] of the other blocks is neither before nor after the gap. *)
Lemma ins_other b y q : b ∈ bl → b_at b ≠ a → y ∈ b_pieces b → hd_or NULL l2 = Some q ∨ lst_or NULL l1 = Some q → q ≠ y.1.
Proof using Hi Hlo Hhi Hrq.
  intros Hb Ha Hy Hq. assert (q ∈ (l1 ++ l2).*1) as (z & -> & Hz)%list_elem_of_fmap.
  { rewrite fmap_app, elem_of_app. destruct Hq as [[[??]|?]%hd_or_elem|[[??]|?]%lst_or_elem]; (done || tauto). }
  eapply inv_pieces_ne; [apply Hi|apply ins_elem|apply Hb|done..].
Qed.

Definition linked_in t : Prop :=
  minors t !! m = Some (Node x.2 (lst_or NULL l1) (hd_or NULL l2)) ∧
  ∀ b y, b ∈ bl → y ∈ b_pieces b → minors t !! y.1 =
    alter_opt (set_prev (Some m)) (hd_or NULL l2) (alter_opt (set_next (Some m)) (lst_or NULL l1) (minors s)) !! y.1.
Definition bytes_in t : Prop :=
  bytes t !! Z.to_pos (user (Zpos m) - ALIGN_INFO) = Some (user (Zpos m) - (Zpos m + sizeof_minor)) ∧
  ∀ b y q, b ∈ bl → y ∈ b_pieces b → Zpos y.1 + sizeof_minor ≤ Zpos q < pend y → bytes t !! q = bytes s !! q.

Lemma ins_block_other t b : linked_in t → bytes_in t → b ∈ bl → b_at b ≠ a → block_ok t b.
Proof using Hi Hlo Hhi Hrq.
  intros [_ Hm] [_ Hby] Hb Ha. eapply (block_ok_ext s); [| |by apply (hi_ok _ _ _ Hi)]; [|by intros; eapply Hby].
  intros y Hy. rewrite (Hm b) by done. rewrite !lookup_alter_opt_ne; [done|intros Hq; eapply ins_other; eauto..].
Qed.
Lemma ins_block t : linked_in t → bytes_in t → block_ok t (Block a n (l1 ++ x :: l2)).
Proof using Hi Hlo Hhi Hrq.
  intros [Hm Hms] [Hal Hby]. pose proof ins_ok as [Hp He Hl Hf Hx]. simpl in *. split; simpl; [done|done| |by apply fits_insert|].
  - eapply linked_insert_mid; [by eapply linked_NoDup|done..|].
    intros q (y & -> & Hy)%list_elem_of_fmap. by eapply Hms; [apply ins_elem|].
  - intros y Hy. assert (y = x ∨ y ∈ l1 ++ l2) as [->|Hy'] by set_solver; [by split|].
    destruct (Hx y Hy') as [? ? ? Hal']. split; [done..|]. rewrite <- Hal'. eapply (Hby _ y); [apply ins_elem|done|]. apply align_inside. lia.
Qed.
Lemma used_insert : used (l1 ++ x :: l2) = used (l1 ++ l2) + (sz + sizeof_minor).
Proof using Type. unfold used. rewrite sum_by_mid. simpl. lia. Qed.

(** The block's header after the new piece is counted. *)
Definition count_in (d : liballoc_major) : liballoc_major :=
  Major (mj_pages d) (mj_size d) (mj_usage d + (sz + sizeof_minor)) (hd_or NULL (l1 ++ x :: l2)).
Definition header_in t : Prop :=
  ∀ b, b ∈ bl → majors t !! b_at b =
    alter (set_data count_in) a (majors s) !! b_at b.

Lemma inv_insert t : linked_in t → bytes_in t → header_in t →
  l_spinlock t = lk → l_memRoot t = l_memRoot s → l_bestBet t = l_bestBet s → l_allocated t = l_allocated s →
  l_inuse t = u64 (l_inuse s + sz) → supply t = supply s →
  heap_inv lk t bl'.
Proof using Hi Hlo Hhi Hrq.
  intros Hm Hby Hmj Hk Hr Hbt Hal Hin Hsu.
  eapply (inv_change lk s B1 B2 a n (l1 ++ l2) Hi t count_in); try done.
  - by apply ins_block.
  - intros b Hb Ha. by apply ins_block_other.
  - unfold major_of, count_in. simpl. rewrite used_insert. f_equal. lia.
  - rewrite Hin, sum_by_mid. simpl. f_equal. lia.
Qed.
End insert.
(** ** Taking a piece out *)

Section remove.
Context (lk : bool) (s : kheap W) (B1 B2 : list block) (a : loc) (n : Z) (l1 l2 : list piece) (x : piece).
Let bl := B1 ++ Block a n (l1 ++ x :: l2) :: B2.
Context (Hi : heap_inv lk s bl).

Definition unlinked_in t : Prop :=
  ∀ b y, b ∈ bl → y ∈ b_pieces b → y.1 ≠ x.1 → minors t !! y.1 =
    alter_opt (set_prev (lst_or NULL l1)) (hd_or NULL l2) (alter_opt (set_next (hd_or NULL l2)) (lst_or NULL l1) (minors s)) !! y.1.
Definition count_out (d : liballoc_major) : liballoc_major :=
  Major (mj_pages d) (mj_size d) (mj_usage d - (mn_size x.2 + sizeof_minor)) (hd_or NULL (l1 ++ l2)).

Lemma rem_elem : Block a n (l1 ++ x :: l2) ∈ bl.
Proof using Type. apply elem_of_app. right. left. Qed.
Lemma rem_ok : block_ok s (Block a n (l1 ++ x :: l2)).
Proof using Hi. apply (hi_ok _ _ _ Hi), rem_elem. Qed.
Lemma rem_neighbour q : hd_or NULL l2 = Some q ∨ lst_or NULL l1 = Some q → q ∈ (l1 ++ x :: l2).*1.
Proof using Type.
  clear. rewrite fmap_app, elem_of_app. csimpl. intros [[[??]|?]%hd_or_elem|[[??]|?]%lst_or_elem]; try done; [|by left].
  right. by right.
Qed.
Lemma rem_block t : unlinked_in t → bytes t = bytes s → block_ok t (Block a n (l1 ++ l2)).
Proof using Hi.
  intros Hm Hby. pose proof rem_ok as Hb. pose proof Hb as [Hp He Hl Hf Hx]. simpl in *. split; simpl; [done|done|..].
  - pose proof (linked_NoDup _ _ _ Hl) as Hnd. pose proof (linked_unlink (minors s) NULL l1 x.1 x.2 l2 NULL) as Hu.
    rewrite <- surjective_pairing in Hu. eapply linked_ext; [|by apply Hu].
    intros q (y & -> & Hy)%list_elem_of_fmap. apply (Hm _ y rem_elem); [simpl; set_solver|].
    rewrite (surjective_pairing x) in Hnd. apply NoDup_mid in Hnd as (_ & _ & _ & H1 & H2 & _). intros Heq.
    apply elem_of_app in Hy as [Hy|Hy]; [apply H1|apply H2]; rewrite <- Heq; by apply list_elem_of_fmap_2.
  - eapply fits_remove; [apply (inv_sized _ _ Hb)|done].
  - intros y Hy. rewrite Hby. apply Hx. set_solver.
Qed.
Lemma rem_block_other t b : unlinked_in t → bytes t = bytes s → b ∈ bl → b_at b ≠ a → block_ok t b.
Proof using Hi.
  intros Hm Hby Hb Ha. pose proof (hi_ok _ _ _ Hi b Hb) as [? ? Hl ? Hx]. split; [done..| |done|].
  - eapply linked_ext; [|done]. intros q (y & -> & Hy)%list_elem_of_fmap.
    assert (∀ r, r ∈ (l1 ++ x :: l2).*1 → r ≠ y.1) as Hne.
    { intros r (z & -> & Hz)%list_elem_of_fmap. eapply inv_pieces_ne; [apply Hi|apply rem_elem|apply Hb|done..]. }
    rewrite (Hm b); [|done..|]; [rewrite !lookup_alter_opt_ne; [done|intros Hq; eapply Hne, eq_refl; apply rem_neighbour; auto..]|].
    intros Heq. eapply Hne; [|symmetry; exact Heq]. apply list_elem_of_fmap_2. set_solver.
  - intros y Hy. rewrite Hby. by apply Hx.
Qed.
Lemma inv_remove t : unlinked_in t → bytes t = bytes s →
  (∀ b, b ∈ bl → majors t !! b_at b = alter (set_data count_out) a (majors s) !! b_at b) →
  l_spinlock t = lk → l_memRoot t = l_memRoot s → l_bestBet t = l_bestBet s → l_allocated t = l_allocated s →
  l_inuse t = u64 (l_inuse s - mn_size x.2) → supply t = supply s →
  heap_inv lk t (B1 ++ Block a n (l1 ++ l2) :: B2).
Proof using Hi.
  intros Hm Hby Hmj Hk Hr Hbt Hal Hin Hsu.
  eapply (inv_change lk s B1 B2 a n (l1 ++ x :: l2) Hi t count_out); try done.
  - by apply rem_block.
  - intros b Hb Ha. by apply rem_block_other.
  - unfold major_of, count_out, used. simpl. rewrite sum_by_mid. f_equal. lia.
  - rewrite Hin, sum_by_mid. simpl. f_equal. lia.
Qed.
End remove.
End inv.
