(* ===== verification/LiballocBlocks.v ===== *)
(** * The kernel heap: whole blocks, and the allocations a caller sees

    The invariant of [LiballocInv] when a block is added or given back, and what it
    says of the live allocations: their bytes are disjoint and belong to the heap. *)
From S2P Require Import Prelude Dll Liballoc LiballocInv.

Section blocks.
Context {W : Type} `{!Pages W}.
Implicit Types (s t : kheap W) (bl : list block) (b : block) (x y z : piece).

Lemma kept_subset bl bl' s t : (∀ b, b ∈ bl' → b ∈ bl) → kept bl s t → kept bl' s t.
Proof. intros Hs [H1 H2 H3]. split; eauto. Qed.

(** What a new block must have: whole pages below 4 GiB that no other block has. *)
Record room bl (a : loc) (n : Z) : Prop := Room {
  rm_pages : 0 < n;
  rm_end : Zpos a + n * PAGESZ < 2 ^ 32;
  rm_apart : ∀ b, b ∈ bl → Zpos a + n * PAGESZ ≤ Zpos (b_at b) ∨ b_end b ≤ Zpos a;
}.
Lemma room_vacant lk s bl a n k j : heap_inv lk s bl → room bl a n →
  Zpos a ≤ k → 0 ≤ j → k + j ≤ Zpos a + n * PAGESZ → vacant bl k j.
Proof.
  intros Hi [? ? Hap] ??? b Hb. pose proof (hi_ok _ _ _ Hi b Hb) as Ho. pose proof (block_header _ _ Ho).
  apply Hap in Hb as Hb'. unfold outside, sizeof_major. split; [unfold PAGESZ in *; lia|].
  intros x Hx. pose proof (inv_piece _ _ _ Ho Hx). lia.
Qed.
Lemma room_fresh lk s bl a n : heap_inv lk s bl → room bl a n → a ∉ b_at <$> bl.
Proof.
  intros Hi [? ? Hap] (b & -> & Hb)%list_elem_of_fmap. apply Hap in Hb as Hb'.
  pose proof (block_header _ _ (hi_ok _ _ _ Hi b Hb)). unfold PAGESZ in *. lia.
Qed.

(** *** Only the variables change *)

Lemma inv_vars lk lk' s t bl : heap_inv lk s bl →
  majors t = majors s → minors t = minors s → bytes t = bytes s → l_spinlock t = lk' → l_memRoot t = l_memRoot s →
  (∀ c, l_bestBet t = Some c → c ∈ b_at <$> bl) → l_inuse t = l_inuse s → l_allocated t = l_allocated s →
  (∃ A, owned (supply t) A ∧ ∀ b, b ∈ bl → A !! Zpos (b_at b) = Some (b_size b)) → heap_inv lk' t bl.
Proof.
  intros [? Hr Hb Hl Hok Hap Hin Hal _] Hmj Hmn Hby ? Hrt ? Hin' Hal' Hsu.
  split; [done|congruence|done|by rewrite Hmj| |done|congruence|congruence|done].
  intros b Hbl. eapply kept_block_ok; [|done|by apply Hok]. split; intros; by rewrite ?Hmj, ?Hmn, ?Hby.
Qed.

(** *** Adding a block *)

Lemma inv_append lk s t bl a n : heap_inv lk s bl → room bl a n →
  majors t !! a = Some (Node (major_of (Block a n [])).2 (lst_or NULL (major_of <$> bl)) NULL) →
  (∀ b, b ∈ bl → majors t !! b_at b = alter_opt (set_next (Some a)) (lst_or NULL (major_of <$> bl)) (majors s) !! b_at b) →
  (∀ b x, b ∈ bl → x ∈ b_pieces b → minors t !! x.1 = minors s !! x.1) →
  (∀ b x q, b ∈ bl → x ∈ b_pieces b → Zpos x.1 + sizeof_minor ≤ Zpos q < pend x → bytes t !! q = bytes s !! q) →
  l_spinlock t = lk → l_memRoot t = hd_or NULL (major_of <$> bl ++ [Block a n []]) → l_bestBet t = l_bestBet s →
  l_inuse t = l_inuse s → l_allocated t = u64 (l_allocated s + n * PAGESZ) →
  (∃ A, owned (supply t) A ∧ ∀ b, b ∈ bl ++ [Block a n []] → A !! Zpos (b_at b) = Some (b_size b)) →
  heap_inv lk t (bl ++ [Block a n []]).
Proof.
  intros Hi Hr Ha Hmj Hmn Hby Hlk Hro Hbe Hin Hal Hown. pose proof Hi as [_ _ Hbe' Hli Hok Hap Hin' Hal' _].
  pose proof (room_fresh _ _ _ _ _ Hi Hr) as Hfr. destruct Hr as [? ? Hra].
  split; [done|done|..|done].
  - intros c Hc. rewrite Hbe in Hc. apply Hbe' in Hc. rewrite fmap_app. set_solver.
  - rewrite fmap_app. eapply (linked_snoc (majors s)); [by eapply linked_NoDup|done..|].
    intros q Hq. rewrite <- list_fmap_compose in Hq. apply list_elem_of_fmap in Hq as (b & -> & Hb). by apply Hmj.
  - intros b [Hb|Hb%list_elem_of_singleton]%elem_of_app; [|subst b].
    + eapply block_ok_ext; [..|by apply Hok]; eauto.
    + split; simpl; [done|done|done| |set_solver]. unfold b_end, b_size, sizeof_major, PAGESZ in *. simpl. lia.
  - intros b b' [Hb|Hb%list_elem_of_singleton]%elem_of_app [Hb'|Hb'%list_elem_of_singleton]%elem_of_app ?; subst; [by apply Hap|..|done].
    + apply Hra in Hb. unfold b_end, b_size in *. simpl. lia.
    + apply Hra in Hb'. unfold b_end, b_size in *. simpl. lia.
  - rewrite Hin, Hin', sum_by_app. simpl. f_equal. lia.
  - rewrite Hal, Hal', sum_by_app. unfold u64, b_size. simpl. rewrite Zplus_mod_idemp_l. f_equal. lia.
Qed.

(** *** Giving back a block without pieces *)

Lemma inv_drop lk s t B1 a n B2 : heap_inv lk s (B1 ++ Block a n [] :: B2) →
  (∀ b, b ∈ B1 ++ B2 → majors t !! b_at b =
     alter_opt (set_prev (lst_or NULL (major_of <$> B1))) (hd_or NULL (major_of <$> B2))
       (alter_opt (set_next (hd_or NULL (major_of <$> B2))) (lst_or NULL (major_of <$> B1)) (majors s)) !! b_at b) →
  (∀ b, b ∈ B1 ++ B2 → block_ok t b) →
  l_spinlock t = lk → l_memRoot t = hd_or NULL (major_of <$> B1 ++ B2) →
  (∀ c, l_bestBet t = Some c → c ∈ b_at <$> B1 ++ B2) →
  l_inuse t = l_inuse s → l_allocated t = u64 (l_allocated s - n * PAGESZ) →
  (∃ A, owned (supply t) A ∧ ∀ b, b ∈ B1 ++ B2 → A !! Zpos (b_at b) = Some (b_size b)) →
  heap_inv lk t (B1 ++ B2).
Proof.
  intros Hi Hmj Hok Hlk Hro Hbe Hin Hal Hown. pose proof Hi as [_ _ _ Hli _ Hap Hin' Hal' _].
  split; [done|done|done| |done|..|done].
  - rewrite fmap_app, fmap_cons in Hli.
    pose proof (linked_unlink _ _ (major_of <$> B1) a (major_of (Block a n [])).2 (major_of <$> B2) _ (linked_NoDup _ _ _ Hli) Hli) as Hu.
    rewrite fmap_app. eapply linked_ext, Hu. intros q Hq. rewrite <- fmap_app, <- list_fmap_compose in Hq.
    apply list_elem_of_fmap in Hq as (b & -> & Hb). by apply Hmj.
  - intros b b' Hb Hb'. apply Hap; set_solver.
  - rewrite Hin, Hin', sum_by_mid. done.
  - rewrite Hal, Hal', sum_by_mid. unfold u64, b_size. simpl. rewrite Zminus_mod_idemp_l. f_equal. lia.
Qed.

(** ** The live allocations *)

Lemma live_app bl1 bl2 : live (bl1 ++ bl2) = live bl1 ++ live bl2.
Proof. apply bind_app. Qed.
Lemma live_insert B1 a n l1 x l2 B2 :
  live (B1 ++ Block a n (l1 ++ x :: l2) :: B2) ≡ₚ
  (Z.to_pos (user (Zpos x.1)), mn_req_size x.2) :: live (B1 ++ Block a n (l1 ++ l2) :: B2).
Proof.
  assert (live_of (Block a n (l1 ++ x :: l2)) ≡ₚ (Z.to_pos (user (Zpos x.1)), mn_req_size x.2) :: live_of (Block a n (l1 ++ l2))) as Hp.
  { unfold live_of. simpl. rewrite !fmap_app, fmap_cons. symmetry. apply Permutation_middle. }
  rewrite !live_app. unfold live. rewrite !bind_cons, Hp. simpl. symmetry. apply Permutation_middle.
Qed.
Lemma live_drop B1 a n B2 : live (B1 ++ Block a n [] :: B2) = live (B1 ++ B2).
Proof. by rewrite !live_app. Qed.
Lemma live_elem bl p k : (p, k) ∈ live bl ↔ ∃ b x, b ∈ bl ∧ x ∈ b_pieces b ∧ p = Z.to_pos (user (Zpos x.1)) ∧ k = mn_req_size x.2.
Proof.
  unfold live, live_of. rewrite list_elem_of_bind. setoid_rewrite list_elem_of_fmap. naive_solver.
Qed.

(** The allocation of a piece is inside the piece. *)
Lemma user_inside s b x : block_ok s b → x ∈ b_pieces b →
  0 < user (Zpos x.1) ∧ Zpos x.1 + 40 ≤ user (Zpos x.1) ∧ user (Zpos x.1) + mn_req_size x.2 < pend x.
Proof.
  intros Hb Hx. pose proof (po_req _ _ _ (bo_ok _ _ Hb _ Hx)). pose proof (user_bounds (Zpos x.1)).
  unfold pend, sizeof_minor. lia.
Qed.

(** Two pieces of the heap are the same or do not overlap. *)
Lemma inv_pieces_apart lk s bl b b' y z : heap_inv lk s bl → b ∈ bl → b' ∈ bl → y ∈ b_pieces b → z ∈ b_pieces b' →
  (b = b' ∧ y = z) ∨ pend y ≤ Zpos z.1 ∨ pend z ≤ Zpos y.1.
Proof.
  intros Hi Hb Hb' Hy Hz. pose proof (hi_ok _ _ _ Hi b Hb) as Hob. pose proof (hi_ok _ _ _ Hi b' Hb') as Hob'.
  destruct (decide (b_at b = b_at b')) as [Heq|Hne].
  - assert (b = b') as <- by (by eapply inv_same). destruct b as [a n l]. simpl in *.
    apply list_elem_of_split in Hy as (l1 & l2 & ->).
    assert (z = y ∨ z ∈ l1 ++ l2) as [->|Hz'] by set_solver; [by left|]. right.
    pose proof (fits_pair _ _ _ _ _ _ (inv_sized _ _ Hob) (bo_fits _ _ Hob) Hz'). lia.
  - right. pose proof (inv_piece _ _ _ Hob Hy). pose proof (inv_piece _ _ _ Hob' Hz).
    pose proof (hi_apart _ _ _ Hi _ _ Hb Hb' Hne). lia.
Qed.
Lemma inv_users_inj lk s bl b b' y z : heap_inv lk s bl → b ∈ bl → b' ∈ bl → y ∈ b_pieces b → z ∈ b_pieces b' →
  Z.to_pos (user (Zpos y.1)) = Z.to_pos (user (Zpos z.1)) → b = b' ∧ y = z.
Proof.
  intros Hi Hb Hb' Hy Hz Heq. pose proof (hi_ok _ _ _ Hi b Hb) as Hob. pose proof (hi_ok _ _ _ Hi b' Hb') as Hob'.
  pose proof (user_inside _ _ _ Hob Hy). pose proof (user_inside _ _ _ Hob' Hz).
  pose proof (po_req _ _ _ (bo_ok _ _ Hob _ Hy)). pose proof (po_req _ _ _ (bo_ok _ _ Hob' _ Hz)).
  apply Z2Pos.inj in Heq; [|lia..].
  destruct (inv_pieces_apart _ _ _ _ _ _ _ Hi Hb Hb' Hy Hz) as [?|?]; [done|lia].
Qed.
Lemma live_NoDup lk s bl : heap_inv lk s bl → NoDup (live bl).*1.
Proof.
  intros Hi. assert ((live bl).*1 = bl ≫= λ b, (λ x : piece, Z.to_pos (user (Zpos x.1))) <$> b_pieces b) as ->.
  { clear. induction bl as [|b bl IH]; [done|]. unfold live in *. rewrite !bind_cons, fmap_app, IH. f_equal.
    unfold live_of. by rewrite <- list_fmap_compose. }
  apply NoDup_bind.
  - intros b b' y Hb Hb' (x & -> & Hx)%list_elem_of_fmap (x' & Heq & Hx')%list_elem_of_fmap.
    by destruct (inv_users_inj _ _ _ _ _ _ _ Hi Hb Hb' Hx Hx' Heq).
  - intros b Hb. apply NoDup_fmap_2_strong.
    + intros x y Hx Hy Heq. by destruct (inv_users_inj _ _ _ _ _ _ _ Hi Hb Hb Hx Hy Heq).
    + eapply NoDup_fmap_1, linked_NoDup, bo_linked, Hi, Hb.
  - eapply NoDup_fmap_1, inv_NoDup, Hi.
Qed.
Lemma live_apart lk s bl p k q j : heap_inv lk s bl → (p, k) ∈ live bl → (q, j) ∈ live bl → p ≠ q →
  Zpos p + k ≤ Zpos q ∨ Zpos q + j ≤ Zpos p.
Proof.
  intros Hi (b & x & Hb & Hx & -> & ->)%live_elem (b' & y & Hb' & Hy & -> & ->)%live_elem Hne.
  pose proof (user_inside _ _ _ (hi_ok _ _ _ Hi b Hb) Hx). pose proof (user_inside _ _ _ (hi_ok _ _ _ Hi b' Hb') Hy).
  destruct (inv_pieces_apart _ _ _ _ _ _ _ Hi Hb Hb' Hx Hy) as [[-> ->]|?]; [done|].
  rewrite !Z2Pos.id by lia. lia.
Qed.
End blocks.
