(* ===== verification/LiballocPlace.v ===== *)
(** * The kernel heap: placing a piece

    The three places where [malloc] puts a new piece, an empty block, the space before
    the first piece and the space after a piece, keep the invariant. *)
From S2P Require Import Prelude Dll Liballoc LiballocInv LiballocBlocks.

Lemma addr_pos z : 0 < z < 2 ^ 32 → addr z = Some (Z.to_pos z).
Proof. intros ?. unfold addr. rewrite u32_small by lia. destruct z; [lia|done|lia]. Qed.
Lemma addr_Zpos p : Zpos p < 2 ^ 32 → addr (Zpos p) = Some p.
Proof. intros ?. by rewrite addr_pos. Qed.

(** A pointer rounded up to a multiple of 16. *)
Lemma round16 p : Z.land p 15 = p mod 16.
Proof. change 15 with (Z.ones 4). by rewrite Z.land_ones. Qed.
Lemma user_round m : let p := m + sizeof_minor + ALIGN_INFO in
  (p mod 16 = 0 → user m = p) ∧ (p mod 16 ≠ 0 → user m = p + (16 - p mod 16)).
Proof.
  unfold user. set (p := m + sizeof_minor + ALIGN_INFO). cbv zeta.
  split; intros Hm; Z.to_euclidean_division_equations; lia.
Qed.

(** The pieces of a block need no more than the block has. *)
Lemma fits_used lo (l : list piece) hi : fits lo l hi → lo + used l ≤ hi.
Proof.
  revert lo. induction l as [|y l IH]; intros lo; cbn [fits]; [unfold used; simpl; lia|].
  intros [? ?%IH]. unfold used in *. rewrite sum_by_cons. unfold pend in *. lia.
Qed.
Lemma used_nonneg (l : list piece) : (∀ y, y ∈ l → 0 ≤ mn_size y.2) → 0 ≤ used l.
Proof.
  unfold used. induction l as [|y l IH]; intros Hl; [done|]. rewrite sum_by_cons.
  pose proof (Hl y ltac:(left)). unfold sizeof_minor. assert (0 ≤ sum_by (λ x : piece, 24 + mn_size x.2) l); [|lia].
  apply IH. set_solver.
Qed.

Section place.
Context {W : Type} `{!Pages W}.
Implicit Types (s t : kheap W) (bl : list block) (b : block) (x y z : piece).

(** The memory after [ALIGN] wrote its byte for the piece at [m]. *)
Definition aligned (m : Z) s : kheap W :=
  let t := clobber (user m - ALIGN_INFO) 1 s in
  {| t with bytes := <[Z.to_pos (user m - ALIGN_INFO) := user m - (m + sizeof_minor)]> (bytes t) |}.

Lemma wp_ALIGN m (Q : Z → kheap W → Prop) s : 0 < m → m + 55 < 2 ^ 32 →
  Q (user m) (aligned m s) → wp (ALIGN (u32 (m + sizeof_minor))) Q s.
Proof.
  intros Hm Hm' HQ. unfold ALIGN. pose proof (user_bounds m) as Hu. pose proof (user_round m) as [H0 H1]. cbv zeta in *.
  unfold sizeof_minor, ALIGN_INFO, ALIGNMENT in *. rewrite (u32_small (m + 24)), (u32_small (m + 24 + 16)) by lia.
  change (16 - 1) with 15. rewrite round16. pose proof (Z.mod_pos_bound (m + 24 + 16) 16).
  assert (∀ d, d = user m - (m + 24 + 16) → wp (put_byte (addr (user m - 16)) (d + 16);; mret (user m)) Q s) as Hgo.
  { intros d Hd. rewrite addr_pos by lia. unfold put_byte. apply wp_bind, wp_modify, wp_ret.
    unfold aligned, ALIGN_INFO, sizeof_minor in HQ. cbv zeta in *. rewrite Z2Pos.id by lia. rewrite Hd.
    by replace (user m - (m + 24 + 16) + 16) with (user m - (m + 24)) by lia. }
  case_bool_decide as Hd.
  - rewrite u32_small by lia. rewrite <- H1 by done. apply Hgo. rewrite H1 by done. lia.
  - rewrite Hd, <- (H0 Hd). apply Hgo. rewrite (H0 Hd). lia.
Qed.

Definition contents bl s t : Prop :=
  ∀ b x q, b ∈ bl → x ∈ b_pieces b → Zpos x.1 + sizeof_minor ≤ Zpos q < pend x → bytes t !! q = bytes s !! q.
(** The variables that placing a piece leaves alone. *)
Record same_vars s t : Prop := SameVars {
  sv_lock : l_spinlock t = l_spinlock s;
  sv_root : l_memRoot t = l_memRoot s;
  sv_bet : l_bestBet t = l_bestBet s;
  sv_allocated : l_allocated t = l_allocated s;
  sv_inuse : l_inuse t = l_inuse s;
  sv_supply : supply t = supply s;
}.

Section hand_out.
Context (lk : bool) (s : kheap W) (B1 B2 : list block) (a : loc) (n : Z) (l1 l2 : list piece).
Let bl := B1 ++ Block a n (l1 ++ l2) :: B2.
Context (Hi : heap_inv lk s bl) (m : loc) (sz rq : Z).
Let x : piece := (m, Minor (Some a) LIBALLOC_MAGIC sz rq).
Context (Hlo : end_of (Zpos a + sizeof_major) l1 ≤ Zpos m) (Hhi : pend x ≤ start_of l2 (Zpos a + n * PAGESZ)).
Context (Hrq : 0 ≤ rq ≤ sz - 32).
Let bl' := B1 ++ Block a n (l1 ++ x :: l2) :: B2.

(** The new header is linked in, the block points to its first piece, nothing else changed. *)
Definition header_ready t : Prop :=
  linked_in s B1 B2 a n l1 l2 m sz rq t ∧ contents bl s t ∧ same_vars s t ∧
  ∀ b, b ∈ bl → majors t !! b_at b = alter (set_first (hd_or NULL (l1 ++ x :: l2))) a (majors s) !! b_at b.

(** The header is written into bytes that nothing else uses. *)
Definition with_header (d : node liballoc_minor) t : kheap W :=
  let u := clobber (Zpos m) sizeof_minor t in {| u with minors := <[m := d]> (minors u) |}.
Lemma header_kept d t : kept bl t (with_header d t).
Proof using Hi Hlo Hhi Hrq.
  pose proof (ins_range _ _ _ _ _ _ _ _ Hi _ _ _ Hlo Hhi Hrq) as Hr. fold x in Hr.
  assert (kept bl t (clobber (Zpos m) sizeof_minor t)) as [Hk1 Hk2 Hk3].
  { eapply (ins_kept _ _ _ _ _ _ _ _ Hi _ _ _ Hlo Hhi Hrq); unfold sizeof_minor; fold x; lia. }
  split; [exact Hk1| |exact Hk3]. intros b y Hb Hy. unfold with_header. simpl. rewrite lookup_insert_ne; [by eapply Hk2|].
  intros Heq. by eapply (ins_fresh _ _ _ _ _ _ _ _ Hi _ _ _ Hlo Hhi Hrq b y).
Qed.
Lemma wp_put_minor d (Q : unit → kheap W → Prop) t : Zpos m < 2 ^ 32 → Q tt (with_header d t) → wp (put_minor (addr (Zpos m)) d) Q t.
Proof using Type. intros ? HQ. rewrite addr_Zpos by done. by apply wp_modify. Qed.

Lemma aligned_kept t : kept bl t (aligned (Zpos m) t) ∧ minors (aligned (Zpos m) t) !! m = minors t !! m.
Proof using Hi Hlo Hhi Hrq.
  pose proof (user_bounds (Zpos m)) as Hu. pose proof (ins_range _ _ _ _ _ _ _ _ Hi _ _ _ Hlo Hhi Hrq) as Hr. fold x in Hr.
  assert (kept bl t (clobber (user (Zpos m) - ALIGN_INFO) 1 t)) as [Hk1 Hk2 Hk3].
  { eapply (ins_kept _ _ _ _ _ _ _ _ Hi _ _ _ Hlo Hhi Hrq); unfold ALIGN_INFO in *; fold x; lia. }
  split; [split|]; unfold aligned; simpl.
  - exact Hk1.
  - exact Hk2.
  - intros b y q Hb Hy Hq. rewrite lookup_insert_ne; [by eapply Hk3|]. intros Heq.
    pose proof (ins_vacant _ _ _ _ _ _ _ _ Hi _ _ _ Hlo Hhi Hrq (user (Zpos m) - 16) 1) as Hv. fold x in Hv.
    destruct (Hv ltac:(lia) ltac:(lia) ltac:(lia) b Hb) as [_ Hv']. apply Hv' in Hy.
    apply (f_equal Zpos) in Heq. unfold ALIGN_INFO, sizeof_minor in *. rewrite Z2Pos.id in Heq by lia. lia.
  - apply filter_outside. unfold outside, sizeof_minor, ALIGN_INFO. lia.
Qed.

Lemma used_bound : 0 ≤ used (l1 ++ l2) ∧ sizeof_major + used (l1 ++ x :: l2) ≤ n * PAGESZ ∧ n * PAGESZ < 2 ^ 32.
Proof using Hi Hlo Hhi Hrq.
  pose proof (ins_ok _ _ _ _ _ _ _ _ Hi) as Hb. pose proof (inv_sized _ _ Hb) as Hz. destruct Hb as [_ He _ Hf _].
  unfold b_end, b_size in *. simpl in *.
  assert (fits (Zpos a + sizeof_major) (l1 ++ x :: l2) (Zpos a + n * PAGESZ)) as Hf' by by apply fits_insert.
  apply fits_used in Hf'. split; [|lia]. by apply used_nonneg.
Qed.
Lemma wp_hand_out (Q : ptr → kheap W → Prop) t : header_ready t →
  (∀ u, heap_inv lk u bl' → contents bl s u → supply u = supply s → Q (Some (Z.to_pos (user (Zpos m)))) u) →
  wp (hand_out a (Zpos m) sz) Q t.
Proof using Hi Hlo Hhi Hrq.
  intros ([Hm Hms] & Hc & [Hlk Hro Hbe Hal Hin Hsu] & Hmj) HQ.
  pose proof (user_bounds (Zpos m)) as Hu. pose proof (ins_range _ _ _ _ _ _ _ _ Hi _ _ _ Hlo Hhi Hrq) as Hr. fold x in Hr.
  pose proof (ins_elem B1 B2 a n l1 l2) as Hel.
  destruct (inv_major _ _ _ Hi _ Hel) as (pv & nx & Hma). simpl in Hma.
  assert (is_Some (majors t !! a)) as Hat.
  { pose proof (Hmj _ Hel) as Hmja. simpl in Hmja. rewrite Hmja, lookup_alter_eq, Hma. eauto. }
  unfold hand_out. apply wp_bind, wp_upd; [exact Hat|]. cbn. apply wp_bind, wp_modify. apply wp_bind, wp_ALIGN; [lia..|].
  apply wp_ret. rewrite addr_pos by lia.
  match goal with |- Q _ (aligned _ ?v) => destruct (aligned_kept v) as [[Hk1 Hk2 Hk3] Hkm]; set (t2 := v) in * end.
  assert (contents bl s (aligned (Zpos m) t2)) as Hcc.
  { intros b y q Hb Hy Hq. rewrite (Hk3 b y q) by done. by apply (Hc b y). }
  apply HQ; [|done|exact Hsu].
  eapply inv_insert; [exact Hi|exact Hlo|exact Hhi|done|..]; [| | |unfold aligned; simpl..].
  - split; [by rewrite Hkm|]. intros b y Hb Hy. rewrite (Hk2 b y) by done. by apply (Hms b y).
  - split; [|exact Hcc]. unfold aligned. simpl. by rewrite lookup_insert_eq.
  - intros b Hb. rewrite Hk1 by done. unfold t2. simpl. pose proof (Hmj b Hb) as Hb'.
    destruct (decide (b_at b = a)) as [Ha|Ha]; [|rewrite !lookup_alter_ne in * by congruence; done].
    rewrite Ha in *. rewrite !lookup_alter_eq, Hb', !lookup_alter_eq, Hma. simpl. unfold add_usage, set_first, set_data, count_in.
    simpl. pose proof used_bound. pose proof (used_insert a l1 l2 m sz rq) as Hui. fold x in Hui.
    unfold sizeof_major, sizeof_minor in *. rewrite (u32_small (sz + 24)), u32_small by lia. done.
  - etrans; [exact Hlk|apply Hi].
  - exact Hro.
  - exact Hbe.
  - exact Hal.
  - by rewrite Hin.
  - exact Hsu.
Qed.
End hand_out.

Lemma alter_opt_comm {V} (f g : V → V) p q (h : gmap loc V) : (∀ v, f (g v) = g (f v)) →
  alter_opt f p (alter_opt g q h) = alter_opt g q (alter_opt f p h).
Proof.
  intros Hfg. destruct p as [p|], q as [q|]; simpl; [|done..].
  apply map_eq. intros r. destruct (decide (p = r)) as [->|?], (decide (q = r)) as [->|?];
    repeat first [rewrite lookup_alter_eq | rewrite lookup_alter_ne by congruence]; [|done..].
  destruct (h !! r); simpl; [by rewrite Hfg|done].
Qed.

(** ** The three cases *)

Section cases.
Context (s : kheap W) (B1 B2 : list block) (a : loc) (n : Z) (sz rq : Z) (Hrq : 0 ≤ rq ≤ sz - 32).
Let X m : piece := (m, Minor (Some a) LIBALLOC_MAGIC sz rq).

(** The new piece is in place between [l1] and [l2]. *)
Definition placed l1 l2 (Q : ptr → kheap W → Prop) : Prop :=
  ∀ m u, heap_inv true u (B1 ++ Block a n (l1 ++ X m :: l2) :: B2) → contents (B1 ++ Block a n (l1 ++ l2) :: B2) s u →
    supply u = supply s → Q (Some (Z.to_pos (user (Zpos m)))) u.

Lemma major_at l : heap_inv true s (B1 ++ Block a n l :: B2) → ∃ pv nx, majors s !! a = Some (Node (major_of (Block a n l)).2 pv nx).
Proof using Type. intros Hi. apply (inv_major _ _ _ Hi (Block a n l)). apply elem_of_app. right. left. Qed.

Lemma wp_case2 (Q : ptr → kheap W → Prop) : heap_inv true s (B1 ++ Block a n [] :: B2) → 48 + sz ≤ n * PAGESZ →
  placed [] [] Q → wp (case2 a sz rq) Q s.
Proof using Hrq.
  intros Hi Hroom HQ. destruct (major_at _ Hi) as (pv & nx & Hma).
  set (m := (a + 24)%positive). assert (Zpos a + sizeof_major = Zpos m) as Hm by (unfold sizeof_major; lia).
  assert (end_of (Zpos a + sizeof_major) [] ≤ Zpos m) as Hlo by (unfold end_of; simpl; lia).
  assert (pend (X m) ≤ start_of [] (Zpos a + n * PAGESZ)) as Hhi by (unfold pend, sizeof_minor, X; simpl; lia).
  pose proof (ins_range true s B1 B2 a n [] [] Hi m sz rq Hlo Hhi Hrq) as Hr.
  unfold case2. rewrite Hm. apply wp_bind, wp_upd; [cbn; rewrite Hma; eauto|]. apply wp_bind, wp_put_minor; [unfold pend in Hr; simpl in Hr; lia|].
  eapply (wp_hand_out true s B1 B2 a n [] [] Hi m sz rq Hlo Hhi Hrq); [|exact (HQ m)].
  rewrite addr_Zpos by (unfold pend in Hr; simpl in Hr; lia).
  match goal with |- context [with_header m ?d ?v] => destruct (header_kept true s B1 B2 a n [] [] Hi m sz rq Hlo Hhi Hrq d v) as [Hk1 Hk2 Hk3] end.
  split_and!.
  - split; [by simpl; rewrite lookup_insert_eq|exact Hk2].
  - exact Hk3.
  - done.
  - exact Hk1.
Qed.

Lemma wp_case3 y l (Q : ptr → kheap W → Prop) : heap_inv true s (B1 ++ Block a n (y :: l) :: B2) →
  sz + sizeof_minor ≤ Zpos y.1 - Zpos a - sizeof_major →
  placed [] (y :: l) Q → wp (case3 a y.1 sz rq) Q s.
Proof using Hrq.
  intros Hi Hroom HQ. destruct (major_at _ Hi) as (pv & nx & Hma).
  set (m := (a + 24)%positive). assert (Zpos a + sizeof_major = Zpos m) as Hm by (unfold sizeof_major; lia).
  assert (end_of (Zpos a + sizeof_major) [] ≤ Zpos m) as Hlo by (unfold end_of; simpl; lia).
  assert (pend (X m) ≤ start_of (y :: l) (Zpos a + n * PAGESZ)) as Hhi by (unfold pend, X; simpl; lia).
  pose proof (ins_range true s B1 B2 a n [] (y :: l) Hi m sz rq Hlo Hhi Hrq) as Hr.
  assert (is_Some (minors s !! y.1)) as Hy.
  { eapply linked_is_Some; [apply (bo_linked s (Block a n (y :: l)))|set_solver]. apply (hi_ok _ _ _ Hi). apply elem_of_app. right. left. }
  unfold case3. rewrite Hm. apply wp_bind, wp_upd; [exact Hy|]. apply wp_bind, wp_upd; [cbn; rewrite Hma; eauto|].
  apply wp_bind, wp_put_minor; [unfold pend in Hr; simpl in Hr; lia|].
  eapply (wp_hand_out true s B1 B2 a n [] (y :: l) Hi m sz rq Hlo Hhi Hrq); [|exact (HQ m)].
  rewrite addr_Zpos by (unfold pend in Hr; simpl in Hr; lia).
  match goal with |- context [with_header m ?d ?v] =>
    destruct (header_kept true s B1 B2 a n [] (y :: l) Hi m sz rq Hlo Hhi Hrq d v) as [Hk1 Hk2 Hk3] end.
  split_and!.
  - split; [by simpl; rewrite lookup_insert_eq; destruct y|]. intros b z Hb Hz. rewrite (Hk2 b z Hb Hz). by destruct y.
  - exact Hk3.
  - done.
  - exact Hk1.
Qed.

(** The space after the piece [y] goes to the next piece or to the end of the block. *)
Definition limit (l2 : list piece) : Z := start_of l2 (Zpos a + n * PAGESZ).
Lemma wp_put_after l1 y l2 (Q : ptr → kheap W → Prop) : heap_inv true s (B1 ++ Block a n ((l1 ++ [y]) ++ l2) :: B2) →
  pend y + sizeof_minor + sz ≤ limit l2 →
  placed (l1 ++ [y]) l2 Q → wp (put_after a y.1 (hd_or NULL l2) (mn_size y.2) sz rq) Q s.
Proof using Hrq.
  intros Hi Hroom HQ. destruct (major_at _ Hi) as (pv & nx & Hma).
  assert (block_ok s (Block a n ((l1 ++ [y]) ++ l2))) as Hb by (apply (hi_ok _ _ _ Hi), elem_of_app; right; left).
  assert (y ∈ (l1 ++ [y]) ++ l2) as Hyin by set_solver.
  pose proof (inv_piece _ _ _ Hb Hyin) as Hyp. pose proof (po_req _ _ _ (bo_ok _ _ Hb _ Hyin)) as Hyr.
  set (m := Z.to_pos (pend y)). assert (pend y = Zpos m) as Hm by (unfold m; rewrite Z2Pos.id; lia).
  assert (end_of (Zpos a + sizeof_major) (l1 ++ [y]) ≤ Zpos m) as Hlo by (unfold end_of; rewrite last_snoc; simpl; lia).
  assert (pend (X m) ≤ start_of l2 (Zpos a + n * PAGESZ)) as Hhi by (unfold limit, pend, X in *; simpl in *; lia).
  pose proof (ins_range true s B1 B2 a n (l1 ++ [y]) l2 Hi m sz rq Hlo Hhi Hrq) as Hr.
  assert (Zpos m < 2 ^ 32) by lia.
  pose proof (bo_linked _ _ Hb) as Hl. simpl in Hl.
  unfold put_after. change (Zpos y.1 + sizeof_minor + mn_size y.2) with (pend y). cbv zeta. rewrite u32_small, Hm by lia.
  apply wp_bind, wp_put_minor; [done|]. rewrite addr_Zpos by done.
  match goal with |- context [with_header m ?d s] =>
    set (d0 := d); destruct (header_kept true s B1 B2 a n (l1 ++ [y]) l2 Hi m sz rq Hlo Hhi Hrq d0 s) as [Hk1 Hk2 Hk3] end.
  assert (∀ z, z ∈ (l1 ++ [y]) ++ l2 → is_Some (minors (with_header m d0 s) !! z.1)) as Hsome.
  { intros z Hz. rewrite (Hk2 (Block a n ((l1 ++ [y]) ++ l2)) z); [|apply elem_of_app; right; left|done].
    eapply linked_is_Some; [exact Hl|]. by apply list_elem_of_fmap_2. }
  assert (∀ z, z ∈ (l1 ++ [y]) ++ l2 → z.1 ≠ m) as Hne.
  { intros z Hz. eapply (ins_fresh true s B1 B2 a n (l1 ++ [y]) l2 Hi m sz rq Hlo Hhi Hrq (Block a n ((l1 ++ [y]) ++ l2))); [|exact Hz].
    apply elem_of_app. right. left. }
  apply wp_bind, wp_upd_opt. { intros q Hq. apply hd_or_elem in Hq as [[??]|(z & -> & Hz)%list_elem_of_fmap]; [done|]. apply Hsome. set_solver. }
  apply wp_bind, wp_upd. { cbn. rewrite lookup_alter_opt_is_Some. by apply Hsome. }
  eapply (wp_hand_out true s B1 B2 a n (l1 ++ [y]) l2 Hi m sz rq Hlo Hhi Hrq); [|exact (HQ m)].
  split_and!.
  - split; simpl.
    + rewrite lookup_alter_ne by (by apply Hne). rewrite lookup_alter_opt_ne, lookup_insert_eq; [by rewrite lst_or_app; destruct y|].
      intros Hq. apply hd_or_elem in Hq as [[??]|(z & -> & Hz)%list_elem_of_fmap]; [done|]. apply (Hne z); set_solver.
    + intros b z Hbb Hz. change (alter ?f y.1 ?h) with (alter_opt f (Some y.1) h). rewrite alter_opt_comm by done.
      apply lookup_alter_opt_congr. rewrite lst_or_app. destruct y as [y1 d1]. simpl. apply (lookup_alter_opt_congr _ (Some y1)).
      exact (Hk2 b z Hbb Hz).
  - exact Hk3.
  - done.
  - intros b Hbb. etrans; [exact (Hk1 b Hbb)|]. destruct (decide (b_at b = a)) as [->|?]; [|by rewrite lookup_alter_ne by congruence].
    rewrite lookup_alter_eq, Hma. simpl. unfold set_first, set_data. simpl. by destruct l1.
Qed.
End cases.
End place.
