(* ===== verification/LiballocMalloc.v ===== *)
(** * The kernel heap: [malloc]

    The search over the blocks and their pieces ends, within the fuel that
    [malloc_locked] gives it, and places the new piece in free bytes; it returns NULL
    only when the page supply refuses a new block. *)
From S2P Require Import Prelude Dll Liballoc LiballocInv LiballocBlocks LiballocPlace.

(** The pages [allocate_new_page] asks for: room for the two headers, rounded up. *)
Lemma pages_calc sz : 0 ≤ sz →
  (let st := sz + 24 + 24 in
   let st := if bool_decide (st mod l_pageSize = 0) then st / l_pageSize else st / l_pageSize + 1 in
   if bool_decide (st < l_pageCount) then l_pageCount else st) = Z.max l_pageCount ((sz + 48 + 4095) / 4096).
Proof.
  intros ?. cbv zeta. unfold l_pageSize, l_pageCount. replace (sz + 24 + 24) with (sz + 48) by lia.
  assert ((if bool_decide ((sz + 48) mod 4096 = 0) then (sz + 48) / 4096 else (sz + 48) / 4096 + 1) = (sz + 48 + 4095) / 4096) as ->
    by (case_bool_decide; Z.to_euclidean_division_equations; lia).
  case_bool_decide; lia.
Qed.

Lemma app_cons_cons {A} (l1 : list A) x l2 : ∃ y l, l1 ++ x :: l2 = y :: l.
Proof. destruct l1; simpl; eauto. Qed.

Section malloc.
Context {W : Type} `{!Pages W}.
Implicit Types (s t u : kheap W) (bl : list block) (b : block) (x y z : piece).

(** Every block has a piece: the others were given back. *)
Definition busy bl : Prop := ∀ b, b ∈ bl → b_pieces b ≠ [].

Section sized.
Context (sz rq : Z) (Hrq : 0 ≤ rq ≤ sz - 32) (Hsz : sz < 2 ^ 31).

Lemma u32_sz : u32 (sz + sizeof_minor) = sz + sizeof_minor.
Proof using Hrq Hsz. apply u32_small. unfold sizeof_minor. lia. Qed.

(** ** The pieces of one block *)

Lemma wp_case4 fuel s B1 B2 a n l1 y l2 (Q : option ptr → kheap W → Prop) :
  heap_inv true s (B1 ++ Block a n (l1 ++ y :: l2) :: B2) → (length l2 + 1 < fuel)%nat →
  Q None s → (∀ k1 k2, k1 ++ k2 = l1 ++ y :: l2 → placed s B1 B2 a n sz rq k1 k2 (λ r, Q (Some r))) →
  wp (case4 fuel a (Some y.1) sz rq) Q s.
Proof using Hrq Hsz.
  revert l1 y l2. induction fuel as [|fuel IH]; intros l1 y l2 Hi Hf HN HQ; [lia|].
  assert (block_ok s (Block a n (l1 ++ y :: l2))) as Hb by (apply (hi_ok _ _ _ Hi), elem_of_app; right; left).
  destruct (major_at s B1 B2 a n _ Hi) as (pv & nx & Hma).
  pose proof (bo_linked _ _ Hb) as Hl. simpl in Hl. apply linked_app in Hl as [_ Hl]. destruct y as [y d]. destruct Hl as [Hy _].
  assert ((y, d) ∈ l1 ++ (y, d) :: l2) as Hyin by set_solver.
  pose proof (inv_piece _ _ _ Hb Hyin) as Hyp. pose proof (po_req _ _ _ (bo_ok _ _ Hb _ Hyin)) as Hyr. simpl in Hyp, Hyr.
  pose proof (bo_end _ _ Hb) as He. pose proof (inv_sized _ _ Hb) as Hz. pose proof (bo_fits _ _ Hb) as Hfit. simpl in Hfit, Hz.
  apply fits_app in Hfit as (_ & _ & Hfit).
  assert (pend (y, d) ≤ limit a n l2 < 2 ^ 32) as Hlim.
  { unfold limit, b_end, b_size in *. simpl in *. destruct l2 as [|w l2]; simpl; [lia|]. destruct Hfit as [? Hfit]. split; [done|].
    pose proof (inv_piece _ _ w Hb ltac:(set_solver)) as Hw. unfold b_end, b_size in Hw. simpl in Hw. lia. }
  cbn [case4 fst]. apply wp_bind. eapply wp_rd; [exact Hy|]. apply wp_bind. eapply wp_rd; [exact Hma|]. cbn [n_data n_next mj_size mn_size major_of snd].
  cbv zeta.
  replace (match hd_or NULL l2 with Some q => Z.pos q | None => u32 (Z.pos a + b_size (Block a n (l1 ++ (y, d) :: l2))) end)
    with (limit a n l2).
  2:{ unfold limit, b_end, b_size in *. destruct l2 as [|[]]; simpl in *; [|done]. rewrite u32_small; lia. }
  assert (pend (y, d) = Zpos y + 24 + mn_size d) as Hpe by done.
  rewrite u32_sz, (u32_small (limit a n l2 - Z.pos y)), (u32_small (limit a n l2 - Z.pos y - sizeof_minor)),
    (u32_small (limit a n l2 - Z.pos y - sizeof_minor - mn_size d)) by (unfold sizeof_minor; lia).
  case_bool_decide as Hd.
  - apply wp_bind. replace (l1 ++ (y, d) :: l2) with ((l1 ++ [(y, d)]) ++ l2) in * by (by rewrite <- app_assoc).
    eapply (wp_put_after s B1 B2 a n sz rq Hrq l1 (y, d) l2); [exact Hi|unfold sizeof_minor in *; lia|].
    intros m u Hu Hc Hsu. apply wp_ret. by eapply (HQ (l1 ++ [(y, d)]) l2).
  - destruct l2 as [|w l2]; simpl.
    + destruct fuel; [simpl in Hf; lia|]. by apply wp_ret.
    + replace (l1 ++ (y, d) :: w :: l2) with ((l1 ++ [(y, d)]) ++ w :: l2) in * by (by rewrite <- app_assoc).
      destruct w as [w1 w2]. apply (IH (l1 ++ [(y, d)]) (w1, w2) l2); [done|simpl in Hf; lia|done..].
Qed.

(** ** A new block *)

(** The pages of a new block: room for the two headers, and at least [l_pageCount]. *)
Definition pages_for : Z := Z.max l_pageCount ((sz + 48 + 4095) / 4096).
Lemma pages_for_bounds : 16 ≤ pages_for ∧ sz + 48 ≤ pages_for * PAGESZ < 2 ^ 32 - PAGESZ.
Proof using Hrq Hsz. unfold pages_for, l_pageCount, PAGESZ. Z.to_euclidean_division_equations. lia. Qed.

(** A block fresh from the page supply, not yet on the list. *)
Record fresh_block s u bl (a : loc) : Prop := FreshBlock {
  fb_room : room bl a pages_for;
  fb_major : majors u !! a = Some (Node (major_of (Block a pages_for [])).2 NULL NULL);
  fb_kept : kept bl s u;
  fb_lock : l_spinlock u = l_spinlock s;
  fb_root : l_memRoot u = l_memRoot s;
  fb_bet : l_bestBet u = l_bestBet s;
  fb_inuse : l_inuse u = l_inuse s;
  fb_allocated : l_allocated u = u64 (l_allocated s + pages_for * PAGESZ);
  fb_owned : ∃ A, owned (supply u) A ∧ ∀ b, b ∈ bl ++ [Block a pages_for []] → A !! Zpos (b_at b) = Some (b_size b);
}.
(** The page supply has no room for a block of that size. *)
Definition refused s u : Prop := page_alloc (pages_for * PAGESZ) (supply s) = Ok (0, supply u).

Lemma kept_major lk s bl a n d : heap_inv lk s bl → room bl a n → sizeof_major ≤ n * PAGESZ →
  kept bl s (let t := clobber (Zpos a) sizeof_major s in {| t with majors := <[a := d]> (majors t) |}).
Proof using Type.
  intros Hi Hr ?. pose proof (room_vacant _ _ _ _ _ (Zpos a) sizeof_major Hi Hr) as Hv.
  destruct (kept_clobber bl s (Zpos a) sizeof_major) as [Hk1 Hk2 Hk3].
  { apply Hv; unfold sizeof_major in *; lia. }
  { intros b x Hb. apply (inv_sized s). by apply (hi_ok _ _ _ Hi). }
  split; [|exact Hk2|exact Hk3]. intros b Hb. simpl. rewrite lookup_insert_ne; [by apply Hk1|].
  intros ->. apply (room_fresh _ _ _ _ _ Hi Hr). by apply list_elem_of_fmap_2.
Qed.
Lemma wp_allocate_new_page s bl (Q : ptr → kheap W → Prop) : heap_inv true s bl →
  (∀ u, refused s u → heap_inv true u bl → bytes u = bytes s → Q NULL u) →
  (∀ a u, fresh_block s u bl a → Q (Some a) u) →
  wp (allocate_new_page sz) Q s.
Proof using Hrq Hsz.
  intros Hi HN HQ. pose proof pages_for_bounds as Hp. assert (0 < PAGESZ) by done. unfold allocate_new_page, sizeof_major, sizeof_minor.
  rewrite (u32_small (sz + 24)), (u32_small (sz + 24 + 24)) by lia. cbv zeta.
  assert (∀ st, st = pages_for → wp (maj ← liballoc_alloc st;
      match maj with
      | Some _ => put_major maj (Node (Major st (u32 (st * l_pageSize)) 24 NULL) NULL NULL);;
          modify (λ s, {| s with l_allocated := u64 (l_allocated s + u32 (st * l_pageSize)) |});; mret maj
      | None => modify (λ s, {| s with l_warningCount := l_warningCount s + 1 |});; mret NULL
      end) Q s) as Hgo.
  2:{ apply Hgo, pages_calc. lia. }
  intros st ->. unfold l_pageSize. change (pages_for * 4096) with (pages_for * PAGESZ).
  rewrite (u32_small (pages_for * PAGESZ)) by lia.
  destruct (hi_owned _ _ _ Hi) as (A & HA & HAb). unfold liballoc_alloc, on_supply. rewrite u32_small by lia.
  apply wp_bind, wp_bind, wp_zoom. apply wp_exec.
  assert (wp (page_alloc (pages_for * PAGESZ)) (λ c w', (c = 0 ∧ owned w' A) ∨
      (0 < c ∧ c + pages_for * PAGESZ < 2 ^ 32 ∧ (PAGESZ | c) ∧ owned w' (<[c := pages_for * PAGESZ]> A) ∧
       ∀ c' k', A !! c' = Some k' → c + pages_for * PAGESZ ≤ c' ∨ c' + k' ≤ c)) (supply s)) as (r & w & Hrun & Hr)%wp_exec.
  { apply page_alloc_owned; [done|unfold PAGESZ in *; lia|apply Z.divide_factor_r]. }
  exists r, w. split; [done|]. apply wp_ret. destruct Hr as [[-> HA']|(Hr0 & Hre & _ & HA' & Hap)].
  - simpl. apply wp_bind, wp_modify, wp_ret. apply HN; [done| |done].
    eapply inv_vars; [exact Hi|done|done|done|apply Hi|done|apply Hi|done|done|by exists A].
  - rewrite addr_pos by (unfold PAGESZ in *; lia). apply wp_bind, wp_modify, wp_bind, wp_modify, wp_ret.
    assert (Zpos (Z.to_pos r) = r) as Hpr by (apply Z2Pos.id; lia).
    assert (room bl (Z.to_pos r) pages_for) as Hroom.
    { split; [lia|lia|]. intros b Hb. apply HAb in Hb. apply Hap in Hb. unfold b_end. lia. }
    apply HQ. split; simpl; [done|by rewrite lookup_insert_eq|..|done|done|done|done|done|].
    + destruct (kept_major true s bl (Z.to_pos r) pages_for (Node (major_of (Block (Z.to_pos r) pages_for [])).2 NULL NULL) Hi Hroom)
        as [Hk1 Hk2 Hk3]; [unfold sizeof_major, PAGESZ in *; lia|]. by split.
    + exists (<[r := pages_for * PAGESZ]> A). split; [done|].
      intros b [Hb|Hb%list_elem_of_singleton]%elem_of_app; [|subst b; simpl; by rewrite Hpr, lookup_insert_eq].
      rewrite lookup_insert_ne; [by apply HAb|]. intros Heq. apply (room_fresh _ _ _ _ _ Hi Hroom).
      rewrite Heq, Pos2Z.id. by apply list_elem_of_fmap_2.
Qed.

Lemma last_major B1 b : lst_or NULL (major_of <$> B1 ++ [b]) = Some (b_at b).
Proof using Type. rewrite fmap_app. apply (lst_or_snoc NULL (major_of <$> B1) (b_at b) (major_of b).2). Qed.

(** [maj->next = new; new->prev = maj] puts the fresh block at the end of the list. *)
Lemma wp_append s u B1 b a (Q : kheap W → Prop) : heap_inv true s (B1 ++ [b]) → fresh_block s u (B1 ++ [b]) a →
  (∀ v, heap_inv true v ((B1 ++ [b]) ++ [Block a pages_for []]) → contents (B1 ++ [b]) s v → Q v) →
  wp (upd (Some (b_at b)) (set_next (D := liballoc_major) (Some a)))
     (λ _, wp (upd (Some a) (set_prev (D := liballoc_major) (Some (b_at b)))) (λ _, Q)) u.
Proof using Hrq Hsz.
  intros Hi [Hr Hma [Hk1 Hk2 Hk3] ? Hro Hbe Hin Hal Hown] HQ.
  pose proof (room_fresh _ _ _ _ _ Hi Hr) as Hfr. assert (b ∈ B1 ++ [b]) as Hb by set_solver.
  assert (b_at b ≠ a) as Hne by (intros <-; by apply Hfr, list_elem_of_fmap_2).
  destruct (inv_major _ _ _ Hi b Hb) as (pv & nx & Hmb).
  apply wp_upd; [cbn; rewrite (Hk1 b Hb), Hmb; eauto|]. apply wp_upd; [cbn; rewrite lookup_alter_ne, Hma by done; eauto|].
  cbn. apply HQ; [|exact Hk3]. eapply inv_append; [exact Hi|exact Hr|..]; simpl; try done.
  - rewrite lookup_alter_eq, lookup_alter_ne, Hma by done. by rewrite last_major.
  - intros c Hc. rewrite lookup_alter_ne by (intros ->; by apply Hfr, list_elem_of_fmap_2).
    rewrite last_major. apply (lookup_alter_opt_congr _ (Some (b_at b))). by apply Hk1.
  - etrans; [done|apply Hi].
  - rewrite Hro, (hi_root _ _ _ Hi), !fmap_app, !hd_or_app. done.
Qed.

(** ** The search *)

(** A new allocation, or none because there are no more pages. *)
Definition got s bl (r : ptr) u : Prop :=
  contents bl s u ∧ ∃ p bl', r = Some p ∧ heap_inv true u bl' ∧ busy bl' ∧ live bl' ≡ₚ (p, rq) :: live bl.
Definition malloc_ok s bl (r : ptr) u : Prop :=
  got s bl r u ∨ (r = NULL ∧ contents bl s u ∧ heap_inv true u bl ∧ refused s u).

Lemma busy_insert B1 a n l' B2 : (∀ b, b ∈ B1 ++ B2 → b_pieces b ≠ []) → l' ≠ [] → busy (B1 ++ Block a n l' :: B2).
Proof using Type. clear. intros Hb Hl b Hin. assert (b = Block a n l' ∨ b ∈ B1 ++ B2) as [->|?] by set_solver; auto. Qed.
Lemma placed_ok s B1 B2 a n k1 k2 : (∀ b, b ∈ B1 ++ B2 → b_pieces b ≠ []) →
  placed s B1 B2 a n sz rq k1 k2 (got s (B1 ++ Block a n (k1 ++ k2) :: B2)).
Proof using Type.
  intros Hb m u Hu Hc Hsu. split; [done|]. eexists _, _. split_and!; [done|exact Hu| |by rewrite live_insert].
  apply busy_insert; [done..|]. by destruct k1.
Qed.

Lemma wp_next_block k fresh st B1 b B2 s (Q : ptr → kheap W → Prop) : heap_inv true s (B1 ++ b :: B2) →
  (∀ b' B2', B2 = b' :: B2' → wp (k st (Some (b_at b'))) Q s) →
  (B2 = [] → st = true → wp (k false (l_memRoot s)) Q s) →
  (B2 = [] → st = false → ∀ u, refused s u → heap_inv true u (B1 ++ [b]) → bytes u = bytes s → Q NULL u) →
  (B2 = [] → st = false → ∀ a v, heap_inv true v ((B1 ++ [b]) ++ [Block a pages_for []]) → contents (B1 ++ [b]) s v →
     wp (fresh a) Q v) →
  wp (next_block k fresh st (b_at b) (hd_or NULL (major_of <$> B2)) sz) Q s.
Proof using Hrq Hsz.
  intros Hi Hnext Hroot Hno Hnew. unfold next_block. destruct B2 as [|b' B2]; [|exact (Hnext b' B2 eq_refl)]. csimpl.
  destruct st; [apply wp_bind, wp_gets; by apply Hroot|]. apply wp_bind.
  eapply wp_allocate_new_page; [exact Hi|..].
  - intros u Hu Hiu Hby. assert (majors u !! b_at b = Some (Node (major_of b).2 (lst_or NULL (major_of <$> B1)) NULL)) as Hmb.
    { pose proof (hi_linked _ _ _ Hiu) as Hl. rewrite fmap_app in Hl. apply linked_app in Hl as [_ [Hl _]]. exact Hl. }
    apply wp_bind, wp_upd; [cbn; rewrite Hmb; eauto|]. apply wp_ret. apply Hno; [done|done|exact Hu| |exact Hby].
    eapply inv_vars; [exact Hiu|cbn|done|done|apply Hiu|done|apply Hiu|done|done|apply Hiu].
    apply map_eq. intros q. destruct (decide (q = b_at b)) as [->|?]; [by rewrite lookup_alter_eq, Hmb|by rewrite lookup_alter_ne].
  - intros a u Hfb. apply wp_bind. eapply wp_mono; [apply (wp_append s u B1 b a (wp (fresh a) Q) Hi Hfb); by apply Hnew|]. intros [] v Hv. apply wp_bind.
    eapply wp_mono; [exact Hv|]. intros [] w Hw. exact Hw.
Qed.

(** *** A turn of the loop *)

(** In an empty block that is large enough the piece is placed at once. *)
Lemma wp_cases_fresh k st s B1 a n : heap_inv true s (B1 ++ [Block a n []]) → busy B1 → 48 + sz ≤ n * PAGESZ →
  wp (cases k st a sz rq) (got s (B1 ++ [Block a n []])) s.
Proof using Hrq Hsz.
  intros Hi Hb Hn. destruct (major_at s B1 [] a n _ Hi) as (pv & nx & Hma). unfold cases. apply wp_bind. eapply wp_rd; [exact Hma|].
  simpl. eapply (wp_case2 s B1 [] a n sz rq Hrq); [exact Hi|lia|]. apply (placed_ok s B1 [] a n [] []). by rewrite app_nil_r.
Qed.
Lemma wp_cases k st s B1 a n l B2 (Q : ptr → kheap W → Prop) :
  heap_inv true s (B1 ++ Block a n l :: B2) → busy (B1 ++ Block a n l :: B2) →
  wp (next_block k (λ c, k st (Some c)) st a (hd_or NULL (major_of <$> B2)) sz) Q s →
  (∀ r u, got s (B1 ++ Block a n l :: B2) r u → Q r u) →
  wp (cases k st a sz rq) Q s.
Proof using Hrq Hsz.
  intros Hi Hb Hnext HQ. destruct l as [|y l]; [by exfalso; apply (Hb (Block a n [])); [set_solver|]|].
  assert (∀ b, b ∈ B1 ++ B2 → b_pieces b ≠ []) as Hb' by (intros b Hbb; apply Hb; set_solver).
  assert (majors s !! a = Some (Node (major_of (Block a n (y :: l))).2 (lst_or NULL (major_of <$> B1)) (hd_or NULL (major_of <$> B2)))) as Hma.
  { pose proof (hi_linked _ _ _ Hi) as Hl. rewrite fmap_app in Hl. apply linked_app in Hl as [_ [Hl _]]. exact Hl. }
  assert (block_ok s (Block a n (y :: l))) as Hbo by (apply (hi_ok _ _ _ Hi); set_solver).
  pose proof (inv_piece _ _ y Hbo ltac:(left)) as Hyp. pose proof (bo_end _ _ Hbo) as He. pose proof (po_req _ _ _ (bo_ok _ _ Hbo y ltac:(left))) as Hyr.
  unfold cases. apply wp_bind. eapply wp_rd; [exact Hma|]. destruct y as [y d]. cbn [n_data mj_first major_of snd hd_or b_pieces n_next fst] in *.
  cbv zeta. unfold b_end, b_size in *. cbn [b_at b_pages] in *.
  rewrite u32_sz, (u32_small (Zpos y - Zpos a)), (u32_small (Zpos y - Zpos a - sizeof_major)) by (unfold sizeof_major in *; lia).
  case_bool_decide as Hd.
  - eapply (wp_case3 s B1 B2 a n sz rq Hrq (y, d) l); [exact Hi|done|]. intros m u ???. apply HQ. by apply (placed_ok s B1 B2 a n [] ((y, d) :: l)).
  - apply wp_bind, wp_gets, wp_bind. eapply (wp_case4 _ s B1 B2 a n [] (y, d) l); [exact Hi| |exact Hnext|].
    + pose proof (linked_length _ _ _ _ (linked_NoDup _ _ _ (bo_linked _ _ Hbo)) (bo_linked _ _ Hbo)) as Hlen. simpl in Hlen. lia.
    + intros k1 k2 Hk m u ???. apply wp_ret, HQ. simpl in Hk. rewrite <- Hk. by apply (placed_ok s B1 B2 a n k1 k2).
Qed.

Lemma got_after s v bl b r u : b_pieces b = [] → contents bl s v → got v (bl ++ [b]) r u → got s bl r u.
Proof using Type.
  intros Hb Hc [Hc' (p & bl' & -> & Hu & Hbu & Hl)]. split.
  - intros c x q Hin Hx Hq. rewrite (Hc' c x q) by (try apply elem_of_app; auto). by apply (Hc c x).
  - exists p, bl'. split_and!; [done..|]. rewrite Hl. destruct b. simpl in Hb. subst. by rewrite live_drop, app_nil_r.
Qed.

(** The best bet may become the block the loop looks at. *)
Lemma inv_best s bl b (better : bool) (Q : unit → kheap W → Prop) : heap_inv true s bl → b ∈ bl →
  (∀ u, heap_inv true u bl → bytes u = bytes s → supply u = supply s → majors u = majors s → Q tt u) →
  wp (if better then modify (λ s, {| s with l_bestBet := Some (b_at b) |}) else mret tt) Q s.
Proof using Type.
  intros Hi Hb HQ. destruct better; [apply wp_modify|apply wp_ret; by apply HQ]. apply HQ; [|done..].
  eapply inv_vars; [exact Hi|done|done|done|apply Hi|done| |done|done|apply Hi]. simpl. intros c [= <-]. by apply list_elem_of_fmap_2.
Qed.

Lemma block_free s b : block_ok s b → u32 (b_size b - (sizeof_major + used (b_pieces b))) = b_size b - (sizeof_major + used (b_pieces b)).
Proof using Type.
  intros Hb. apply u32_small. pose proof (fits_used _ _ _ (bo_fits _ _ Hb)). pose proof (used_nonneg _ (inv_sized _ _ Hb)).
  pose proof (bo_end _ _ Hb). unfold b_end, sizeof_major in *. lia.
Qed.

Lemma wp_loop_fresh fuel st best s B1 a n : heap_inv true s (B1 ++ [Block a n []]) → busy B1 → 48 + sz ≤ n * PAGESZ →
  wp (malloc_loop (S fuel) st best (Some a) sz rq) (got s (B1 ++ [Block a n []])) s.
Proof using Hrq Hsz.
  intros Hi Hb Hn. destruct (major_at s B1 [] a n _ Hi) as (pv & nx & Hma).
  cbn [malloc_loop]. apply wp_bind. eapply wp_rd; [exact Hma|]. cbn [n_data mj_size mj_usage major_of snd].
  cbv zeta. rewrite (block_free s) by (apply (hi_ok _ _ _ Hi); set_solver).
  apply wp_bind. eapply (inv_best s _ (Block a n [])); [exact Hi|set_solver|]. intros u Hu Hby Hsu Hmj.
  rewrite u32_sz. rewrite bool_decide_false by (unfold b_size, used, sizeof_minor, sizeof_major; simpl; lia).
  eapply wp_mono; [by apply wp_cases_fresh|]. intros r v [Hc Hg]. split; [|done]. intros b x q ???. rewrite <- Hby. by apply (Hc b x).
Qed.

Lemma malloc_ok_ext s u bl r v : bytes u = bytes s → supply u = supply s → malloc_ok u bl r v → malloc_ok s bl r v.
Proof using Type. unfold malloc_ok, got, contents, refused. by intros -> ->. Qed.

Section turn.
Context (k : bool → ptr → M (kheap W) ptr) (fresh : loc → M (kheap W) ptr) (st : bool) (s : kheap W) (B1 : list block) (b : block) (B2 : list block).
Let bl := B1 ++ b :: B2.

Lemma wp_turn : heap_inv true s bl → busy bl →
  (∀ b' B2', B2 = b' :: B2' → wp (k st (Some (b_at b'))) (malloc_ok s ((B1 ++ [b]) ++ b' :: B2')) s) →
  (∀ b0 bl', bl = b0 :: bl' → st = true → wp (k false (Some (b_at b0))) (malloc_ok s (b0 :: bl')) s) →
  (∀ a v, B2 = [] → heap_inv true v (bl ++ [Block a pages_for []]) → wp (fresh a) (got v (bl ++ [Block a pages_for []])) v) →
  wp (next_block k fresh st (b_at b) (hd_or NULL (major_of <$> B2)) sz) (malloc_ok s bl) s.
Proof using Hrq Hsz.
  intros Hi Hb Hnext Hroot Hfresh. eapply wp_next_block; [exact Hi|..].
  - intros b' B2' HB2. apply Hnext in HB2 as Hw. unfold bl. rewrite HB2. by rewrite <- app_assoc in Hw.
  - intros _ Hst. rewrite (hi_root _ _ _ Hi). destruct (app_cons_cons B1 b B2) as (b0 & bl' & Hbl). fold bl in Hbl.
    rewrite Hbl. by apply Hroot.
  - intros HB2 _ u Hr Hu Hby. right. split_and!; [done| |by unfold bl; rewrite HB2|done]. intros c x q ???. by rewrite Hby.
  - intros HB2 _ a v Hv Hc. eapply wp_mono; [apply Hfresh; [done|by unfold bl; rewrite HB2]|]. intros r u Hg. left.
    eapply got_after; [| |exact Hg]; [done|]. unfold bl. by rewrite HB2.
Qed.
End turn.

Lemma wp_malloc_loop fuel (st : bool) best s B1 b B2 : heap_inv true s (B1 ++ b :: B2) → busy (B1 ++ b :: B2) →
  (S (length B2) + (if st then length (B1 ++ b :: B2) else 0) < fuel)%nat →
  wp (malloc_loop fuel st best (Some (b_at b)) sz rq) (malloc_ok s (B1 ++ b :: B2)) s.
Proof using Hrq Hsz.
  revert st best s B1 b B2. induction fuel as [|fuel IH]; intros st best s B1 b B2 Hi Hb Hf; [lia|].
  assert (majors s !! b_at b = Some (Node (major_of b).2 (lst_or NULL (major_of <$> B1)) (hd_or NULL (major_of <$> B2)))) as Hma.
  { pose proof (hi_linked _ _ _ Hi) as Hl. rewrite fmap_app in Hl. apply linked_app in Hl as [_ [Hl _]]. exact Hl. }
  assert (b ∈ B1 ++ b :: B2) as Hin by set_solver. destruct b as [a n l].
  cbn [malloc_loop b_at]. apply wp_bind. eapply wp_rd; [exact Hma|]. cbn [n_data mj_size mj_usage major_of snd n_next].
  cbv zeta. rewrite (block_free s) by (by apply (hi_ok _ _ _ Hi)).
  apply wp_bind. eapply (inv_best s _ (Block a n l)); [exact Hi|done|]. intros u Hu Hby Hsu _. clear Hma.
  eapply wp_mono; [|intros r v Hok; eapply (malloc_ok_ext s u); [exact Hby|exact Hsu|exact Hok]]. rewrite u32_sz.
  set (best' := if bool_decide (best < _) then _ else best). set (k := λ (started : bool) (m : ptr), malloc_loop fuel started best' m sz rq).
  assert (∀ fresh, (∀ a' v, B2 = [] → heap_inv true v ((B1 ++ Block a n l :: B2) ++ [Block a' pages_for []]) →
       wp (fresh a') (got v ((B1 ++ Block a n l :: B2) ++ [Block a' pages_for []])) v) →
     wp (next_block k fresh st a (hd_or NULL (major_of <$> B2)) sz) (malloc_ok u (B1 ++ Block a n l :: B2)) u) as Hturn.
  { intros fresh Hfresh. eapply (wp_turn k fresh st u B1 (Block a n l) B2); [exact Hu|exact Hb| | |exact Hfresh].
    - intros b' B2' HB2. subst B2. apply IH; rewrite <- ?app_assoc; [exact Hu|exact Hb|].
      revert Hf. destruct st; rewrite ?length_app; simpl; lia.
    - intros b0 bl' Hbl Hst. apply (IH false best' u []); simpl; rewrite <- ?Hbl; [exact Hu|exact Hb|].
      apply (f_equal length) in Hbl. simpl in Hbl. subst st. lia. }
  pose proof pages_for_bounds as Hp. case_bool_decide.
  - apply Hturn. intros a' v _ Hv. apply wp_cases_fresh; [exact Hv|exact Hb|lia].
  - eapply wp_cases; [exact Hu|exact Hb| |by left]. apply Hturn. intros a' v HB2 Hv. unfold k.
    destruct fuel as [|fuel]; [simpl in Hf; lia|]. apply wp_loop_fresh; [exact Hv|exact Hb|lia].
Qed.

(** *** The whole of [malloc] *)

Definition unlocked u : kheap W := {| u with l_spinlock := false |}.
Lemma wp_heap_unlock {A} (a : A) (Q : A → kheap W → Prop) u : l_spinlock u = true → Q a (unlocked u) → wp (liballoc_unlock;; mret a) Q u.
Proof using Type. intros ??. apply wp_bind. unfold liballoc_unlock. apply wp_spin_unlock; [done|]. by apply wp_ret. Qed.
Lemma malloc_ok_locked s bl r u : malloc_ok s bl r u → l_spinlock u = true.
Proof using Type. intros [[_ (p & bl' & _ & Hu & _)]|(_ & _ & Hu & _)]; apply Hu. Qed.

Lemma contents_nil s u : contents [] s u.
Proof using Type. intros ??? Hb. by apply elem_of_nil in Hb. Qed.
Lemma wp_first_block s u a : heap_inv true s [] → fresh_block s u [] a → heap_inv true {| u with l_memRoot := Some a |} [Block a pages_for []].
Proof using Type.
  intros Hi [Hr Hma [Hk1 Hk2 Hk3] Hlk Hro Hbe Hin Hal Hown].
  apply (inv_append true s _ [] a pages_for Hi Hr); simpl; try done; [set_solver..|]. etrans; [exact Hlk|apply Hi].
Qed.

Lemma wp_malloc_locked s bl : heap_inv true s bl → busy bl →
  wp (malloc_locked sz rq) (λ r u, ∃ v, malloc_ok s bl r v ∧ u = unlocked v) s.
Proof using Hrq Hsz.
  intros Hi Hb. unfold malloc_locked. apply wp_bind, wp_gets. rewrite (hi_root _ _ _ Hi). destruct bl as [|b bl]; csimpl.
  - apply wp_bind, wp_bind. eapply wp_allocate_new_page; [exact Hi|..].
    + intros u Hu Hiu Hby. apply wp_bind, wp_modify, wp_ret. apply wp_heap_unlock; [apply Hiu|].
      eexists. split; [|done]. right. split_and!; [done|apply contents_nil| |done].
      eapply inv_vars; [exact Hiu|done|done|done|apply Hiu|symmetry; apply (hi_root _ _ _ Hiu)|apply Hiu|done|done|apply Hiu].
    + intros a u Hfb. pose proof (wp_first_block _ _ _ Hi Hfb) as Hiu. apply wp_bind, wp_modify, wp_ret. apply wp_bind, wp_gets.
      assert (l_bestBet u = NULL) as Hbu.
      { rewrite (fb_bet _ _ _ _ Hfb). destruct (l_bestBet s) as [c|] eqn:Hbet; [|done]. apply (hi_bet _ _ _ Hi), elem_of_nil in Hbet as []. }
      cbn [l_bestBet]. rewrite Hbu in Hiu |- *.
      apply wp_bind, wp_ret, wp_bind, wp_gets, wp_bind. rewrite bool_decide_false by naive_solver.
      unfold malloc_fuel. rewrite Nat.add_comm. eapply wp_mono; [apply (wp_loop_fresh _ _ _ _ []); [exact Hiu|set_solver|]|].
      { pose proof pages_for_bounds. lia. }
      intros r v Hg. assert (malloc_ok s [] r v) as Hok by (left; eapply (got_after _ _ [] (Block a pages_for [])); [done| |exact Hg]; apply contents_nil).
      apply wp_heap_unlock; [by eapply malloc_ok_locked|]. eauto.
  - apply wp_bind, wp_ret, wp_bind, wp_gets.
    assert (∀ best st c, st = false ∧ c = b ∨ c ∈ b :: bl → wp (n ← gets malloc_fuel;
      p ← malloc_loop n st best (Some (b_at c)) sz rq; liballoc_unlock;; mret p) (λ r u, ∃ v, malloc_ok s (b :: bl) r v ∧ u = unlocked v) s) as Hgo.
    { intros best st c Hc. assert (c ∈ b :: bl) as (B1 & B2 & HB)%list_elem_of_split by set_solver.
      apply wp_bind, wp_gets, wp_bind. rewrite HB in *. eapply wp_mono; [apply wp_malloc_loop; [exact Hi|exact Hb|]|].
      - pose proof (linked_length _ _ _ _ (linked_NoDup _ _ _ (hi_linked _ _ _ Hi)) (hi_linked _ _ _ Hi)) as Hlen.
        unfold malloc_fuel. rewrite length_fmap in Hlen. rewrite length_app in *. simpl in Hlen |- *. destruct st; lia.
      - intros r v Hok. apply wp_heap_unlock; [by eapply malloc_ok_locked|]. eauto. }
    destruct (l_bestBet s) as [a|] eqn:Hbet.
    + apply (hi_bet _ _ _ Hi) in Hbet as (c & -> & Hc)%list_elem_of_fmap. destruct (inv_major _ _ _ Hi c Hc) as (pv & nx & Hmc).
      apply wp_bind, wp_bind. eapply wp_rd; [exact Hmc|]. apply wp_ret. case_bool_decide; [by apply Hgo; right|by apply Hgo; left].
    + apply wp_bind, wp_ret. rewrite bool_decide_false by naive_solver. apply Hgo. by left.
Qed.
End sized.
End malloc.
