(* ===== verification/LiballocFree.v ===== *)
(** * The kernel heap: [free]

    [free] of a live allocation takes its piece out of the block, and gives the block
    back to the page supply when the piece was its last one. *)
From S2P Require Import Prelude Dll Liballoc LiballocInv LiballocBlocks LiballocPlace LiballocMalloc.

Section free.
Context {W : Type} `{!Pages W}.
Implicit Types (s t u : kheap W) (bl : list block) (b : block) (x y z : piece).

(** The header of an allocation is found from its pointer. *)
Lemma wp_UNALIGN s b x (Q : Z → kheap W → Prop) : block_ok s b → x ∈ b_pieces b →
  Q (Zpos x.1 + sizeof_minor) s → wp (UNALIGN (Zpos (Z.to_pos (user (Zpos x.1))))) Q s.
Proof.
  intros Hb Hx HQ. pose proof (inv_piece _ _ _ Hb Hx). pose proof (bo_end _ _ Hb). pose proof (po_align _ _ _ (bo_ok _ _ Hb _ Hx)) as Ha.
  pose proof (user_inside _ _ _ Hb Hx) as Hu. pose proof (user_bounds (Zpos x.1)). pose proof (po_req _ _ _ (bo_ok _ _ Hb _ Hx)).
  unfold UNALIGN. rewrite Z2Pos.id, addr_pos by (unfold ALIGN_INFO; lia). apply wp_bind. unfold get_byte. apply wp_exec.
  exists (user (Zpos x.1) - (Zpos x.1 + sizeof_minor)), s.
  split; [exact (f_equal (λ o : option Z, match o with Some v => Ok (v, s) | None => Fault end) Ha)|]. unfold sizeof_minor in *. cbv zeta. rewrite (bool_decide_true (user (Zpos x.1) - (Zpos x.1 + 24) < 128)) by lia. rewrite (u32_small (user (Zpos x.1) - (Zpos x.1 + 24))) by lia.
  rewrite bool_decide_true by (unfold ALIGNMENT, ALIGN_INFO; lia). apply wp_ret. rewrite u32_small by lia.
  by replace (user (Zpos x.1) - (user (Zpos x.1) - (Zpos x.1 + 24))) with (Zpos x.1 + 24) by lia.
Qed.

(** ** The block of the piece *)

Section release.
Context (s : kheap W) (B1 : list block) (a : loc) (n : Z) (l : list piece) (B2 : list block).
Let bl := B1 ++ Block a n l :: B2.
Context (Hi : heap_inv true s bl) (Hb : ∀ b, b ∈ B1 ++ B2 → b_pieces b ≠ []).

(** What is left is the same allocations in blocks with pieces. *)
Definition released (_ : unit) u : Prop :=
  ∃ bl', heap_inv true u bl' ∧ busy bl' ∧ live bl' = live bl ∧ contents bl s u.

Lemma release_at : majors s !! a = Some (Node (major_of (Block a n l)).2 (lst_or NULL (major_of <$> B1)) (hd_or NULL (major_of <$> B2))).
Proof using Hi. pose proof (hi_linked _ _ _ Hi) as Hl. unfold bl in Hl. rewrite fmap_app in Hl. apply linked_app in Hl as [_ [Hl _]]. exact Hl. Qed.

Lemma wp_release_keep : l ≠ [] → wp (release_major a) released s.
Proof using Hi Hb.
  intros Hl. unfold release_major. apply wp_bind. eapply wp_rd; [exact release_at|]. cbn [n_data major_of snd mj_first b_pieces].
  assert (busy bl) as Hbu by (by apply busy_insert). assert (∀ u, heap_inv true u bl → bytes u = bytes s → released tt u) as Hgo.
  { intros u Hu Hby. exists bl. split_and!; [done..|]. intros b x q ???. by rewrite Hby. }
  destruct (hd_or NULL l) as [q|] eqn:Hq; [|by apply hd_or_NULL in Hq]. cbv zeta. apply wp_bind, wp_gets.
  destruct (l_bestBet s) as [c|] eqn:Hbet; [|apply wp_ret; by apply Hgo].
  apply (hi_bet _ _ _ Hi) in Hbet as Hc. apply list_elem_of_fmap in Hc as (b & -> & Hbb).
  destruct (inv_major _ _ _ Hi b Hbb) as (pv & nx & Hmb). apply wp_bind. eapply wp_rd; [exact Hmb|].
  eapply (inv_best s bl (Block a n l)); [exact Hi|apply elem_of_app; right; left|]. intros u Hu Hby _ _. by apply Hgo.
Qed.

(** The memory of an empty block is not used by the others. *)
Lemma drop_vacant : l = [] → vacant (B1 ++ B2) (Zpos a) (n * PAGESZ).
Proof using Hi.
  intros Hl b (Hin & Ha)%(change_others true s B1 B2 a n l Hi). pose proof (hi_ok _ _ _ Hi b Hin) as Hob. pose proof (block_header _ _ Hob).
  assert (Block a n l ∈ bl) as Hel by (apply elem_of_app; right; left).
  pose proof (hi_apart _ _ _ Hi b _ Hin Hel Ha) as Hap. unfold b_end at 2, b_size in Hap. cbn [b_at b_pages] in Hap.
  unfold outside, sizeof_major, PAGESZ in *. split; [lia|]. intros x Hx. pose proof (inv_piece _ _ _ Hob Hx). lia.
Qed.
Lemma drop_kept t : l = [] → kept (B1 ++ B2) t (clobber (Zpos a) (n * PAGESZ) t).
Proof using Hi.
  intros Hl. apply kept_clobber; [by apply drop_vacant|]. intros b x (Hin & _)%(change_others true s B1 B2 a n l Hi).
  apply (inv_sized s). by apply (hi_ok _ _ _ Hi).
Qed.

(** The state in which the memory of the block is given back. *)
Definition before_drop (t : kheap W) : Prop :=
  (∀ b, b ∈ B1 ++ B2 → majors t !! b_at b =
     alter_opt (set_prev (lst_or NULL (major_of <$> B1))) (hd_or NULL (major_of <$> B2))
       (alter_opt (set_next (hd_or NULL (major_of <$> B2))) (lst_or NULL (major_of <$> B1)) (majors s)) !! b_at b) ∧
  minors t = minors s ∧ bytes t = bytes s ∧ l_spinlock t = true ∧ l_memRoot t = hd_or NULL (major_of <$> B1 ++ B2) ∧
  (∀ c, l_bestBet t = Some c → c ∈ b_at <$> B1 ++ B2) ∧
  l_inuse t = l_inuse s ∧ l_allocated t = u64 (l_allocated s - n * PAGESZ) ∧ supply t = supply s.

Lemma wp_drop t : l = [] → before_drop t → wp (liballoc_free a n) released t.
Proof using Hi Hb.
  intros Hl (Hmj & Hmn & Hby & Hlk & Hro & Hbe & Hin & Hal & Hsu).
  assert (Block a n l ∈ bl) as Hel by (apply elem_of_app; right; left). pose proof (hi_ok _ _ _ Hi _ Hel) as Hob.
  pose proof (bo_end _ _ Hob) as He. pose proof (bo_pages _ _ Hob) as Hp. unfold b_end, b_size in *. cbn [b_at b_pages] in *.
  destruct (hi_owned _ _ _ Hi) as (A & HA & HAb). pose proof (HAb _ Hel) as HAa. unfold b_size in HAa. cbn [b_at b_pages] in HAa.
  unfold liballoc_free, on_supply. rewrite u32_small by (unfold PAGESZ in *; lia). apply wp_bind, wp_zoom. rewrite Hsu.
  eapply wp_mono; [by eapply page_free_owned|]. intros [] w HA'. apply wp_modify.
  set (u := {| t with supply := w |}). destruct (drop_kept u Hl) as [Hk1 Hk2 Hk3].
  assert (contents (B1 ++ B2) s (clobber (Zpos a) (n * PAGESZ) u)) as Hc.
  { intros b x q Hbb Hx Hq. rewrite (Hk3 b x q) by done. unfold u. simpl. by rewrite Hby. }
  exists (B1 ++ B2). split_and!; [|done| |].
  - subst l. eapply inv_drop; [exact Hi|..]; simpl; try done.
    + intros b Hbb. etrans; [by apply Hk1|]. by apply Hmj.
    + intros b Hbb. destruct (change_others true s B1 B2 a n [] Hi b Hbb) as [Hbl _].
      eapply (block_ok_ext s); [| |by apply (hi_ok _ _ _ Hi)]; [|by intros; apply (Hc b x)].
      intros x Hx. etrans; [by apply (Hk2 b)|]. unfold u. simpl. by rewrite Hmn.
    + exists (delete (Zpos a) A). split; [done|]. intros b Hbb. destruct (change_others true s B1 B2 a n [] Hi b Hbb) as [Hbl Hne].
      rewrite lookup_delete_ne by congruence. by apply HAb.
  - subst l. unfold bl. by rewrite live_drop.
  - intros b x q Hbb Hx Hq. apply elem_of_app in Hbb as [Hbb|[->|Hbb]%elem_of_cons].
    + apply (Hc b x); [|done..]. set_solver.
    + subst l. simpl in Hx. by apply elem_of_nil in Hx.
    + apply (Hc b x); [|done..]. set_solver.
Qed.

Lemma major_some q : q ∈ (major_of <$> bl).*1 → is_Some (majors s !! q).
Proof using Hi. apply linked_is_Some with (pv := NULL) (nx := NULL). apply Hi. Qed.
Lemma prev_in q : lst_or NULL (major_of <$> B1) = Some q → q ∈ (major_of <$> bl).*1.
Proof using Type. intros [[_ [=]]|Hq]%lst_or_elem. unfold bl. rewrite !fmap_app. apply elem_of_app. by left. Qed.
Lemma next_in q : hd_or NULL (major_of <$> B2) = Some q → q ∈ (major_of <$> bl).*1.
Proof using Type. intros [[_ [=]]|Hq]%hd_or_elem. unfold bl. rewrite !fmap_app. apply elem_of_app. right. by right. Qed.

Lemma wp_release_drop : l = [] → wp (release_major a) released s.
Proof using Hi Hb.
  intros Hl. unfold release_major. apply wp_bind. eapply wp_rd; [exact release_at|]. cbn [n_data n_prev n_next major_of snd mj_first b_pieces mj_size mj_pages].
  rewrite Hl at 1. cbn [hd_or]. cbv zeta. apply wp_bind, wp_modify.
  apply wp_bind, wp_upd_opt; [intros q Hq; by apply major_some, prev_in|].
  apply wp_bind, wp_upd_opt; [intros q Hq; cbn; rewrite lookup_alter_opt_is_Some; by apply major_some, next_in|].
  apply wp_bind, wp_modify. apply wp_drop; [done|]. pose proof (hi_linked _ _ _ Hi) as Hli. pose proof (linked_NoDup _ _ _ Hli) as Hnd.
  unfold bl in Hnd. rewrite fmap_app, fmap_cons in Hnd. split_and!; cbn; try done; [apply Hi| |].
  - rewrite (hi_root _ _ _ Hi). unfold bl. rewrite !fmap_app, fmap_cons.
    rewrite <- (hd_or_detach (major_of <$> B1) a (major_of (Block a n l)).2 (major_of <$> B2)) by done. by rewrite bool_decide_decide; destruct (decide _).
  - intros c. case_bool_decide as Hc; [done|]. intros Hbe. apply (hi_bet _ _ _ Hi) in Hbe as Hin. unfold bl in Hin. rewrite fmap_app in Hin |- *.
    csimpl in Hin. set_solver.
Qed.
Lemma wp_release_major : wp (release_major a) released s.
Proof using Hi Hb. destruct (decide (l = [])); [by apply wp_release_drop|by apply wp_release_keep]. Qed.
End release.

(** ** Taking the piece out *)

(** The bytes of the allocations [L] are the same. *)
Definition data_kept (L : list (loc * Z)) s u : Prop :=
  ∀ p k q, (p, k) ∈ L → Zpos p ≤ Zpos q < Zpos p + k → bytes u !! q = bytes s !! q.
Lemma contents_data lk s bl t u : heap_inv lk s bl → contents bl t u → data_kept (live bl) t u.
Proof.
  intros Hi Hc p k q (b & x & Hb & Hx & -> & ->)%live_elem Hq. apply (Hc b x q Hb Hx).
  pose proof (user_inside _ _ _ (hi_ok _ _ _ Hi b Hb) Hx). rewrite Z2Pos.id in Hq by lia. unfold sizeof_minor. lia.
Qed.

Section unlink.
Context (s : kheap W) (B1 : list block) (a : loc) (n : Z) (l1 : list piece) (x : piece) (l2 : list piece) (B2 : list block).
Let bl := B1 ++ Block a n (l1 ++ x :: l2) :: B2.
Context (Hi : heap_inv true s bl).

Lemma unlink_at : minors s !! x.1 = Some (Node x.2 (lst_or NULL l1) (hd_or NULL l2)).
Proof using Hi.
  pose proof (bo_linked _ _ (rem_ok _ _ _ _ _ _ _ _ _ Hi)) as Hl. simpl in Hl. apply linked_app in Hl as [_ Hl].
  rewrite (surjective_pairing x) in Hl. by destruct Hl as [Hl _].
Qed.
Lemma unlink_some q : q ∈ (l1 ++ x :: l2).*1 → is_Some (minors s !! q).
Proof using Hi. apply linked_is_Some with (pv := NULL) (nx := NULL). apply (bo_linked _ _ (rem_ok _ _ _ _ _ _ _ _ _ Hi)). Qed.
Lemma unlink_usage : u32 (sizeof_major + used (l1 ++ x :: l2) + - u32 (mn_size x.2 + sizeof_minor)) =
  sizeof_major + used (l1 ++ x :: l2) - (mn_size x.2 + sizeof_minor).
Proof using Hi.
  pose proof (rem_ok _ _ _ _ _ _ _ _ _ Hi) as Hob. pose proof (bo_end _ _ Hob) as He. pose proof (inv_sized _ _ Hob) as Hz. simpl in Hz.
  pose proof (fits_used _ _ _ (bo_fits _ _ Hob)) as Hf. cbn [b_pieces b_at] in Hf.
  assert (0 ≤ used (l1 ++ l2)) by (apply used_nonneg; intros y Hy; apply Hz; set_solver).
  assert (used (l1 ++ x :: l2) = sizeof_minor + mn_size x.2 + used (l1 ++ l2)) as Hu by (unfold used; by rewrite sum_by_mid).
  pose proof (Hz x ltac:(set_solver)). unfold sizeof_major, sizeof_minor in *. rewrite (u32_small (mn_size x.2 + 24)), u32_small; lia.
Qed.

Lemma off_header pv nx first : first = hd_or NULL (l1 ++ l2) →
  set_data (count_out l1 l2 x) (Node (major_of (Block a n (l1 ++ x :: l2))).2 pv nx) =
  Node (Major n (n * PAGESZ) (u32 (sizeof_major + used (l1 ++ x :: l2) + - u32 (mn_size x.2 + sizeof_minor))) first) pv nx.
Proof using Hi.
  intros ->. unfold set_data, count_out, major_of. cbn [n_data n_prev n_next snd mj_pages mj_size mj_usage b_pages b_pieces].
  by rewrite unlink_usage.
Qed.

(** The state after the header is off the list. *)
Definition off_list t : Prop :=
  minors t = alter_opt (set_next (hd_or NULL l2)) (lst_or NULL l1) (alter_opt (set_prev (lst_or NULL l1)) (hd_or NULL l2)
     (alter (set_data (λ d : liballoc_minor, {| d with mn_magic := LIBALLOC_DEAD |})) x.1 (minors s))) ∧
  majors t !! a = set_data (count_out l1 l2 x) <$> majors s !! a ∧ (∀ q, q ≠ a → majors t !! q = majors s !! q).
Lemma inv_off_list t : off_list t → bytes t = bytes s → l_spinlock t = true → l_memRoot t = l_memRoot s → l_bestBet t = l_bestBet s →
  l_allocated t = l_allocated s → l_inuse t = u64 (l_inuse s - mn_size x.2) → supply t = supply s →
  heap_inv true t (B1 ++ Block a n (l1 ++ l2) :: B2).
Proof using Hi.
  intros (Hm & Ha & Hmj) ???????. eapply (inv_remove true s); [exact Hi|..]; try done.
  - intros b y Hbb Hy Hne. rewrite Hm, alter_opt_comm by done. do 2 apply lookup_alter_opt_congr. by rewrite lookup_alter_ne by congruence.
  - intros b Hbb. destruct (decide (b_at b = a)) as [->|?]; [by rewrite lookup_alter_eq|rewrite lookup_alter_ne by congruence; auto].
Qed.

Lemma wp_unlink (Q : unit → kheap W → Prop) :
  (∀ u, heap_inv true u (B1 ++ Block a n (l1 ++ l2) :: B2) → bytes u = bytes s → Q tt u) →
  wp (unlink_minor a (Some x.1) (Node x.2 (lst_or NULL l1) (hd_or NULL l2))) Q s.
Proof using Hi.
  intros HQ. pose proof (rem_elem B1 B2 a n l1 l2 x) as Hel. destruct (inv_major _ _ _ Hi _ Hel) as (pv & nx & Hma). cbn [b_at] in Hma.
  assert (∀ q, hd_or NULL l2 = Some q ∨ lst_or NULL l1 = Some q → is_Some (minors s !! q)) as Hsome.
  { intros q Hq. apply unlink_some. by apply (rem_neighbour l1 l2 x). }
  unfold unlink_minor. cbn [n_data n_prev n_next].
  apply wp_bind, wp_modify. apply wp_bind, wp_upd; [cbn; rewrite Hma; eauto|]. apply wp_bind, wp_upd; [cbn; rewrite unlink_at; eauto|].
  apply wp_bind, wp_upd_opt; [intros q Hq; cbn; rewrite lookup_alter_is_Some; auto|]. cbn [put_heap heap_of kheap_minors kheap_majors].
  destruct (lst_or NULL l1) as [q|] eqn:Hq.
  - apply wp_upd; [cbn; rewrite lookup_alter_opt_is_Some, lookup_alter_is_Some; auto|]. apply HQ; [|done].
    apply inv_off_list; cbn; try done; [|apply Hi]. split_and!; cbn; [by rewrite Hq| |by intros; rewrite lookup_alter_ne].
    rewrite lookup_alter_eq, Hma. refine (eq_sym (f_equal Some (off_header pv nx _ _))). by destruct l1.
  - apply wp_upd; [cbn; rewrite lookup_alter_is_Some, Hma; eauto|]. apply HQ; [|done].
    apply inv_off_list; cbn; try done; [|apply Hi]. split_and!; cbn; [by rewrite Hq| |by intros; rewrite !lookup_alter_ne].
    rewrite !lookup_alter_eq, Hma. refine (eq_sym (f_equal Some (off_header pv nx _ _))). apply lst_or_NULL in Hq. by rewrite Hq.
Qed.
End unlink.

(** ** The whole of [free] *)

Lemma inv_lock lk lk' s bl : heap_inv lk s bl → heap_inv lk' {| s with l_spinlock := lk' |} bl.
Proof. intros Hi. eapply inv_vars; [exact Hi|done|done|done|done|done|apply Hi|done|done|apply Hi]. Qed.

Lemma piece_ptr s b x : block_ok s b → x ∈ b_pieces b → addr (Zpos x.1 + sizeof_minor - sizeof_minor) = Some x.1.
Proof.
  intros Hb Hx. replace (Zpos x.1 + sizeof_minor - sizeof_minor) with (Zpos x.1) by lia. apply addr_Zpos.
  pose proof (inv_piece _ _ _ Hb Hx). pose proof (bo_end _ _ Hb). lia.
Qed.

Lemma live_split bl p k : (p, k) ∈ live bl → ∃ B1 a n l1 x l2 B2,
  bl = B1 ++ Block a n (l1 ++ x :: l2) :: B2 ∧ p = Z.to_pos (user (Zpos x.1)) ∧ k = mn_req_size x.2.
Proof.
  intros (b & x & (B1 & B2 & ->)%list_elem_of_split & (l1 & l2 & Hl)%list_elem_of_split & -> & ->)%live_elem.
  destruct b as [a n l]. simpl in Hl. subst l. by exists B1, a, n, l1, x, l2, B2.
Qed.

Lemma wp_free s bl (p : loc) k : heap_inv false s bl → busy bl → (p, k) ∈ live bl →
  wp (free (Some p)) (λ _ u, ∃ bl', heap_inv false u bl' ∧ busy bl' ∧ live bl ≡ₚ (p, k) :: live bl' ∧ data_kept (live bl') s u) s.
Proof.
  intros Hi Hb (B1 & a & n & l1 & x & l2 & B2 & -> & -> & ->)%live_split.
  assert (Block a n (l1 ++ x :: l2) ∈ B1 ++ Block a n (l1 ++ x :: l2) :: B2) as Hel by (apply elem_of_app; right; left).
  pose proof (hi_ok _ _ _ Hi _ Hel) as Hob. assert (x ∈ b_pieces (Block a n (l1 ++ x :: l2))) as Hx by (simpl; set_solver).
  unfold free. apply wp_bind. eapply (wp_UNALIGN s _ x); [exact Hob|done|]. apply wp_bind. unfold liballoc_lock. apply wp_spin_lock; [apply Hi|].
  pose proof (inv_lock _ true _ _ Hi) as Hi1. cbn [set_held kheap_lock]. set (s1 := {| s with l_spinlock := true |}) in *. cbv zeta.
  rewrite (piece_ptr _ _ _ Hob Hx). apply wp_bind. eapply wp_rd; [exact (unlink_at _ _ _ _ _ _ _ _ Hi1)|]. cbn [n_data].
  destruct (bo_ok _ _ Hob x Hx) as [Hpb Hpm _ _]. cbn [b_at] in Hpb. rewrite Hpb, bool_decide_false by tauto.
  apply wp_bind. apply (wp_unlink _ _ _ _ _ _ _ _ Hi1). intros u Hu Hby. apply wp_bind. eapply wp_mono.
  { apply (wp_release_major u B1 a n (l1 ++ l2) B2 Hu). intros b Hbb. apply Hb. set_solver. }
  intros [] v (bl' & Hv & Hbu & Hl & Hc). unfold liballoc_unlock. apply wp_spin_unlock; [apply Hv|].
  exists bl'. split_and!; [by eapply inv_lock|done| |].
  - rewrite Hl. apply live_insert.
  - rewrite Hl. pose proof (contents_data _ _ _ u v Hu Hc) as Hd. intros p k q Hp Hq. simpl. by rewrite (Hd p k q Hp Hq), Hby.
Qed.
End free.
