(* ===== verification/LiballocRep.v ===== *)
(** * The kernel heap: each call against its contract

    A caller sees the heap as a finite map from the pointers it holds to their sizes
    ([heap_rep]).  [malloc] adds a pointer whose bytes nobody else holds, [free] takes
    one out, [realloc] and [calloc] also say what is in the bytes, and none of them
    changes the bytes of the other allocations. *)
From S2P Require Import Prelude Dll Liballoc LiballocInv LiballocBlocks LiballocPlace LiballocMalloc LiballocFree.

Section spec.
Context {W : Type} `{!Pages W}.
Implicit Types (s t u : kheap W) (bl : list block) (b : block) (x y : piece) (H : gmap loc Z).

Definition heap_rep s H : Prop := ∃ bl, heap_inv false s bl ∧ busy bl ∧ H = list_to_map (live bl).

(** The bytes of the allocations [H] are the same in [s] and [t]. *)
Definition same_data H s t : Prop :=
  ∀ (p : loc) k (q : loc), H !! p = Some k → Zpos p ≤ Zpos q < Zpos p + k → bytes t !! q = bytes s !! q.

(** ** Writing into an allocation *)

Definition write_byte (q : loc) (o : option Z) s : kheap W :=
  let t := clobber (Zpos q) 1 s in {| t with bytes := partial_alter (λ _, o) q (bytes t) |}.

Lemma write_same q o s : bytes (write_byte q o s) !! q = o.
Proof. unfold write_byte. simpl. by rewrite lookup_partial_alter_eq. Qed.
Lemma write_other q o s r : r ≠ q → bytes (write_byte q o s) !! r = bytes s !! r.
Proof.
  intros Hr. unfold write_byte. simpl. rewrite lookup_partial_alter_ne by done. apply filter_outside. unfold outside. lia.
Qed.

(** An allocation is not where a header or an alignment byte is. *)
Lemma inv_write lk s bl p k q o : heap_inv lk s bl → (p, k) ∈ live bl → Zpos p ≤ Zpos q < Zpos p + k →
  heap_inv lk (write_byte q o s) bl.
Proof.
  intros Hi (b & x & Hb & Hx & -> & ->)%live_elem Hq. pose proof (hi_ok _ _ _ Hi b Hb) as Hob.
  pose proof (user_inside _ _ _ Hob Hx) as Hu. rewrite Z2Pos.id in Hq by lia.
  assert (∀ b' y, b' ∈ bl → y ∈ b_pieces b' → outside (Zpos q) 1 (Zpos y.1) sizeof_minor ∧
    Z.to_pos (user (Zpos y.1) - ALIGN_INFO) ≠ q) as Hout.
  { intros b' y Hb' Hy. pose proof (user_bounds (Zpos y.1)) as Huy. pose proof (inv_piece _ _ _ (hi_ok _ _ _ Hi b' Hb') Hy).
    assert (Z.to_pos (user (Zpos y.1) - ALIGN_INFO) = q → user (Zpos y.1) - ALIGN_INFO = Zpos q) as Heq.
    { intros <-. rewrite Z2Pos.id; [done|]. unfold ALIGN_INFO. lia. }
    unfold outside, sizeof_minor, ALIGN_INFO in *.
    destruct (inv_pieces_apart _ _ _ _ _ _ _ Hi Hb Hb' Hx Hy) as [[-> ->]|Hap]; (split; [|intros ?%Heq]); lia. }
  assert (∀ b', b' ∈ bl → majors (write_byte q o s) !! b_at b' = majors s !! b_at b') as Hmj.
  { intros b' Hb'. simpl. apply filter_outside. pose proof (hi_ok _ _ _ Hi b' Hb') as Hob'. pose proof (block_header _ _ Hob').
    pose proof (inv_piece _ _ _ Hob Hx). unfold outside, sizeof_major, PAGESZ in *.
    destruct (decide (b_at b = b_at b')) as [Heq|Hne]; [rewrite Heq in *; lia|]. pose proof (hi_apart _ _ _ Hi _ _ Hb Hb' Hne). lia. }
  pose proof Hi as [? ? ? Hl Hok ? ? ? ?]. split; try done.
  - eapply linked_ext, Hl. intros r Hr. rewrite <- list_fmap_compose in Hr. apply list_elem_of_fmap in Hr as (b' & -> & Hb'). by apply Hmj.
  - intros b' Hb'. destruct (Hok b' Hb') as [? ? Hl' ? Hpo]. split; [done..| |done|].
    + eapply linked_ext, Hl'. intros r (y & -> & Hy)%list_elem_of_fmap. simpl. apply filter_outside. by apply (Hout b' y).
    + intros y Hy. destruct (Hpo y Hy) as [? ? ? Ha]. split; [done..|]. rewrite <- Ha. apply write_other. by apply (Hout b' y).
Qed.

(** The addresses of an allocation are those of 32-bit memory. *)
Lemma live_range lk s bl p k : heap_inv lk s bl → (p, k) ∈ live bl → 0 ≤ k ∧ Zpos p + k < 2 ^ 32 ∧ (16 | Zpos p).
Proof.
  intros Hi (b & x & Hb & Hx & -> & ->)%live_elem. pose proof (hi_ok _ _ _ Hi b Hb) as Hob.
  pose proof (user_inside _ _ _ Hob Hx). pose proof (inv_piece _ _ _ Hob Hx). pose proof (bo_end _ _ Hob).
  pose proof (po_req _ _ _ (bo_ok _ _ Hob _ Hx)). rewrite Z2Pos.id by lia. split_and!; [lia..|]. apply user_aligned.
Qed.

Lemma wp_memset lk bl p k c n q s (Q : unit → kheap W → Prop) : heap_inv lk s bl → (p, k) ∈ live bl → Zpos p ≤ q → q + Z.of_nat n ≤ Zpos p + k →
  (∀ t, heap_inv lk t bl → supply t = supply s → (∀ r, q ≤ Zpos r < q + Z.of_nat n → bytes t !! r = Some c) →
     (∀ r, ¬ q ≤ Zpos r < q + Z.of_nat n → bytes t !! r = bytes s !! r) → Q tt t) →
  wp (liballoc_memset q c n) Q s.
Proof.
  intros Hi Hp. pose proof (live_range _ _ _ _ _ Hi Hp) as Hr. revert q s Hi Q.
  induction n as [|n IH]; intros q s Hi Q Hlo Hhi HQ; simpl; [apply wp_ret, HQ; [done|done|lia|done]|].
  apply wp_bind. rewrite addr_pos by lia. apply wp_modify.
  change (wp (liballoc_memset (q + 1) c n) Q (write_byte (Z.to_pos q) (Some c) s)).
  assert (Zpos (Z.to_pos q) = q) as Hq by (apply Z2Pos.id; lia).
  apply IH; [eapply inv_write; [exact Hi|exact Hp|lia]|lia|lia|]. intros t Ht Hsu Hin Hout. apply HQ; [done|done|..].
  - intros r Hrq. destruct (decide (Zpos r = q)) as [He|He]; [|apply Hin; lia].
    rewrite Hout by lia. assert (r = Z.to_pos q) as -> by (by rewrite <- He). apply write_same.
  - intros r Hrq. rewrite Hout by lia. apply write_other. intros ->. lia.
Qed.

(** The source [q] is outside the destination. *)
Lemma wp_memcpy lk bl p k n d q s (Q : unit → kheap W → Prop) : heap_inv lk s bl → (p, k) ∈ live bl → Zpos p ≤ d → d + Z.of_nat n ≤ Zpos p + k →
  0 < q → q + Z.of_nat n < 2 ^ 32 → q + Z.of_nat n ≤ Zpos p ∨ Zpos p + k ≤ q →
  (∀ t, heap_inv lk t bl → supply t = supply s → (∀ i, 0 ≤ i < Z.of_nat n → bytes t !! Z.to_pos (d + i) = bytes s !! Z.to_pos (q + i)) →
     (∀ r, ¬ d ≤ Zpos r < d + Z.of_nat n → bytes t !! r = bytes s !! r) → Q tt t) →
  wp (liballoc_memcpy d q n) Q s.
Proof.
  intros Hi Hp. pose proof (live_range _ _ _ _ _ Hi Hp) as Hr. revert d q s Hi Q.
  induction n as [|n IH]; intros d q s Hi Q Hlo Hhi Hq0 Hq1 Hap HQ; simpl; [apply wp_ret, HQ; [done|done|lia|done]|].
  apply wp_bind. rewrite !addr_pos by lia. apply wp_modify.
  change (wp (liballoc_memcpy (d + 1) (q + 1) n) Q (write_byte (Z.to_pos d) (bytes s !! Z.to_pos q) s)).
  assert (Zpos (Z.to_pos d) = d) as Hd by (apply Z2Pos.id; lia).
  apply IH; [eapply inv_write; [exact Hi|exact Hp|lia]|lia|lia|lia|lia|lia|]. intros t Ht Hsu Hin Hout. apply HQ; [done|done|..].
  - intros i Hi'. destruct (decide (i = 0)) as [->|Hne].
    + rewrite !Z.add_0_r, Hout by lia. apply write_same.
    + specialize (Hin (i - 1) ltac:(lia)). rewrite <- !Z.add_assoc in Hin. replace (1 + (i - 1)) with i in Hin by lia.
      rewrite Hin. apply write_other. intros Heq. apply (f_equal Zpos) in Heq. rewrite !Z2Pos.id in Heq by lia. lia.
  - intros r Hrq. rewrite Hout by lia. apply write_other. intros ->. lia.
Qed.

(** ** [malloc] on the invariant *)

Lemma wp_malloc s bl req : heap_inv false s bl → busy bl → 0 ≤ req < 2 ^ 31 - 32 →
  wp (malloc req) (λ r u, ∃ v, malloc_ok (req + 32) req s bl r v ∧ u = unlocked v) s.
Proof.
  intros Hi Hb Hreq. unfold malloc, ALIGNMENT, ALIGN_INFO. cbv zeta. rewrite u32_small by lia.
  apply wp_bind. unfold liballoc_lock. apply wp_spin_lock; [apply Hi|]. rewrite bool_decide_false by lia.
  eapply wp_mono; [apply wp_malloc_locked; [lia|lia|by eapply inv_lock|done]|]. intros r u (v & Hv & ->). by exists v.
Qed.

(** ** The contract *)

(** [p] is aligned, in memory, and its [n] bytes are in no allocation of [H]. *)
Record fresh_at H (p : loc) (n : Z) : Prop := FreshAt {
  fr_aligned : (16 | Zpos p);
  fr_end : Zpos p + n < 2 ^ 32;
  fr_new : H !! p = None;
  fr_apart : ∀ (q : loc) k, H !! q = Some k → Zpos p + n ≤ Zpos q ∨ Zpos q + k ≤ Zpos p;
}.

Lemma live_lookup lk s bl p k : heap_inv lk s bl → (list_to_map (live bl) : gmap loc Z) !! p = Some k ↔ (p, k) ∈ live bl.
Proof. intros Hi. symmetry. apply elem_of_list_to_map. by eapply live_NoDup. Qed.

Lemma got_rep req s bl r v : heap_inv false s bl → got req s bl r v →
  ∃ p, r = Some p ∧ fresh_at (list_to_map (live bl)) p req ∧ heap_rep (unlocked v) (<[p := req]> (list_to_map (live bl))) ∧
    same_data (list_to_map (live bl)) s v.
Proof.
  intros Hi [Hc (p & bl' & -> & Hv & Hb & Hl)]. exists p. pose proof (live_NoDup _ _ _ Hv) as Hnd.
  assert ((p, req) ∈ live bl') as Hin by (rewrite Hl; left). pose proof (live_range _ _ _ _ _ Hv Hin) as (_ & Hend & Hal).
  rewrite Hl in Hnd. csimpl in Hnd. apply NoDup_cons in Hnd as [Hp _]. split_and!; [done| | |].
  - split; [done|done|by apply not_elem_of_list_to_map_1|]. intros q k Hq%(live_lookup _ _ _ _ _ Hi).
    eapply (live_apart _ _ _ _ _ _ _ Hv); [done|rewrite Hl; by right|]. intros <-. apply Hp. by apply (list_elem_of_fmap_2 fst) in Hq.
  - exists bl'. split_and!; [by eapply inv_lock|done|]. symmetry.
    rewrite (list_to_map_proper (live bl') ((p, req) :: live bl)); [done|by eapply live_NoDup|done].
  - intros q k r Hq%(live_lookup _ _ _ _ _ Hi). by apply (contents_data _ _ _ s v Hi Hc).
Qed.

(** The size of the block [malloc n] asks for when no block has room: the piece and the two
    headers in whole pages, and at least 16 pages. *)
Definition block_bytes (n : Z) : Z := Z.max 16 ((n + 80 + (PAGESZ - 1)) / PAGESZ) * PAGESZ.
(** The page supply of [s] has no room for it. *)
Definition refuses s (n : Z) : Prop := ∃ w, page_alloc (block_bytes n) (supply s) = Ok (0, w).
Lemma pages_for_bytes n : pages_for (n + 32) * PAGESZ = block_bytes n.
Proof. unfold pages_for, block_bytes, l_pageCount, PAGESZ. replace (n + 32 + 48 + 4095) with (n + 80 + (4096 - 1)) by lia. done. Qed.

Definition malloc_spec H s (n : Z) (r : ptr) t : Prop :=
  same_data H s t ∧
  match r with
  | Some p => fresh_at H p n ∧ heap_rep t (<[p := n]> H)
  | None => heap_rep t H ∧ page_alloc (block_bytes n) (supply s) = Ok (0, supply t)
  end.

Lemma heap_rep_malloc s H n : heap_rep s H → 0 ≤ n < 2 ^ 31 - 32 → wp (malloc n) (malloc_spec H s n) s.
Proof.
  intros (bl & Hi & Hb & ->) Hn. eapply wp_mono; [by apply wp_malloc|]. intros r u (v & [Hg|(-> & Hc & Hv & Hr)] & ->).
  - destruct (got_rep _ _ _ _ _ Hi Hg) as (p & -> & Hf & Hrep & Hd). split; done.
  - split; [|split].
    + intros q k r Hq%(live_lookup _ _ _ _ _ Hi). by apply (contents_data _ _ _ s v Hi Hc).
    + exists bl. split_and!; [by eapply inv_lock|done..].
    + unfold refused in Hr. by rewrite pages_for_bytes in Hr.
Qed.
Lemma heap_rep_free s H (p : loc) k : heap_rep s H → H !! p = Some k →
  wp (free (Some p)) (λ _ t, heap_rep t (delete p H) ∧ same_data (delete p H) s t) s.
Proof.
  intros (bl & Hi & Hb & ->) Hp%(live_lookup _ _ _ _ _ Hi). eapply wp_mono; [by eapply wp_free|].
  intros [] u (bl' & Hu & Hbu & Hl & Hd). pose proof (live_NoDup _ _ _ Hi) as Hnd.
  assert (delete p (list_to_map (live bl)) = (list_to_map (live bl') : gmap loc Z)) as ->.
  { rewrite (list_to_map_proper (live bl) ((p, k) :: live bl')) by done. simpl. rewrite delete_insert_id; [done|].
    rewrite Hl in Hnd. csimpl in Hnd. apply NoDup_cons in Hnd as [Hni _]. by apply not_elem_of_list_to_map_1. }
  split; [by exists bl'|]. intros q j r Hq%(live_lookup _ _ _ _ _ Hu). by apply Hd.
Qed.

(** ** [realloc] *)

Definition resize (r : Z) (d : liballoc_minor) : liballoc_minor := {| d with mn_req_size := r |}.

Lemma inv_resize lk s B1 a n l1 x l2 B2 r : heap_inv lk s (B1 ++ Block a n (l1 ++ x :: l2) :: B2) → 0 ≤ r ≤ mn_size x.2 - 32 →
  heap_inv lk {| s with minors := alter (set_data (resize r)) x.1 (minors s) |} (B1 ++ Block a n (l1 ++ (x.1, resize r x.2) :: l2) :: B2).
Proof.
  intros Hi Hr. pose proof (rem_ok _ _ _ _ _ _ _ _ _ Hi) as Hob. pose proof Hob as [? ? Hl Hf Hpo]. cbn [b_pieces b_at b_pages] in *.
  eapply (inv_change lk s B1 B2 a n (l1 ++ x :: l2) Hi _ id); try done; [| | | |apply Hi|].
  - split; cbn; [done|done|..].
    + rewrite (surjective_pairing x) in Hl. apply linked_set_data; [by eapply linked_NoDup|done].
    + apply fits_app in Hf as [Hf1 Hf2]. by apply fits_app.
    + intros y [Hy|[->|Hy]%elem_of_cons]%elem_of_app.
      * apply Hpo. set_solver.
      * destruct (Hpo x ltac:(set_solver)) as [? ? ? ?]. by split.
      * apply Hpo. set_solver.
  - intros b Hb Ha. eapply (block_ok_ext s); [|done|by apply (hi_ok _ _ _ Hi)]. intros y Hy. cbn. apply lookup_alter_ne.
    eapply (inv_pieces_ne _ _ _ Hi); [apply rem_elem|exact Hb|done|cbn; set_solver|done].
  - unfold major_of, id, used. cbn [snd b_pages b_pieces]. rewrite !sum_by_mid. by destruct l1, x.
  - intros b Hb. destruct (decide (b_at b = a)) as [->|?]; [|by rewrite lookup_alter_ne by congruence].
    rewrite lookup_alter_eq. cbn. by destruct (majors s !! a) as [[]|].
  - rewrite !sum_by_mid. cbn [snd mn_size resize l_inuse]. rewrite (hi_inuse _ _ _ Hi). unfold u64. rewrite Zplus_mod_idemp_l. f_equal. lia.
Qed.

(** What [realloc] does once it found the header of [p]. *)
Lemma realloc_eq s B1 a n l1 x l2 B2 r : heap_inv false s (B1 ++ Block a n (l1 ++ x :: l2) :: B2) → r ≠ 0 →
  let p := Z.to_pos (user (Zpos x.1)) in
  realloc (Some p) r s =
    if bool_decide (r ≤ mn_req_size x.2)
    then Ok (Some p, unlocked {| s with l_spinlock := true; minors := alter (set_data (resize r)) x.1 (minors s) |})
    else (q ← malloc r; liballoc_memcpy (ptr_addr q) (Zpos p) (Z.to_nat (mn_req_size x.2));; free (Some p);; mret q)
           (unlocked {| s with l_spinlock := true |}).
Proof.
  intros Hi Hr p. pose proof (rem_ok _ _ _ _ _ _ _ _ _ Hi) as Hob. assert (x ∈ b_pieces (Block a n (l1 ++ x :: l2))) as Hx by (cbn; set_solver).
  assert (UNALIGN (Zpos p) s = Ok (Zpos x.1 + sizeof_minor, s)) as Hun.
  { assert (wp (UNALIGN (Zpos p)) (λ z t, z = Zpos x.1 + sizeof_minor ∧ t = s) s) as (z & t & Hrun & -> & ->)%wp_exec; [|done].
    by apply (wp_UNALIGN s _ x _ Hob Hx). }
  pose proof (unlink_at {| s with l_spinlock := true |} B1 a n l1 x l2 B2 (inv_lock _ true _ _ Hi)) as Hat. cbn in Hat.
  unfold realloc. rewrite bool_decide_false by done. unfold mbind at 1, M_bind at 1. rewrite Hun.
  unfold mbind at 1, M_bind at 1, liballoc_lock, spin_lock, mbind at 1, M_bind at 1, gets, modify. cbn [held kheap_lock set_held]. rewrite (hi_lock _ _ _ Hi).
  cbv zeta. rewrite (piece_ptr _ _ _ Hob Hx). unfold mbind at 1, M_bind at 1, rd. cbn. rewrite Hat. cbn [n_data].
  destruct (bo_ok _ _ Hob x Hx) as [_ Hpm _ _]. rewrite (bool_decide_false (mn_magic x.2 ≠ _)) by tauto.
  case_bool_decide; [|done]. unfold mbind, M_bind, upd. cbn. rewrite Hat. done.
Qed.

Lemma live_resize B1 a n l1 x l2 B2 r lk s : heap_inv lk s (B1 ++ Block a n (l1 ++ x :: l2) :: B2) →
  let p := Z.to_pos (user (Zpos x.1)) in
  list_to_map (live (B1 ++ Block a n (l1 ++ (x.1, resize r x.2) :: l2) :: B2)) =
  (<[p := r]> (list_to_map (live (B1 ++ Block a n (l1 ++ x :: l2) :: B2))) : gmap loc Z).
Proof.
  intros Hi p. pose proof (live_NoDup _ _ _ Hi) as Hnd.
  pose proof (live_insert B1 a n l1 x l2 B2) as H1. pose proof (live_insert B1 a n l1 (x.1, resize r x.2) l2 B2) as H2. cbn in H2.
  assert (NoDup (live (B1 ++ Block a n (l1 ++ (x.1, resize r x.2) :: l2) :: B2)).*1) as Hnd2.
  { rewrite H2. csimpl. rewrite H1 in Hnd. by csimpl in Hnd. }
  rewrite (list_to_map_proper _ _ Hnd2 H2), (list_to_map_proper _ _ Hnd H1). cbn. by rewrite insert_insert_eq.
Qed.

(** The three things that can happen to a live allocation [p] of [k] bytes; [w] is what is left of the page supply. *)
Definition realloc_spec H s (p : loc) (k n : Z) (o : outcome (ptr * kheap W)) : Prop :=
  match o with
  | Ok (Some q, t) =>
      (n ≤ k ∧ q = p ∧ heap_rep t (<[p := n]> H) ∧ bytes t = bytes s) ∨
      (k < n ∧ fresh_at H q n ∧ heap_rep t (<[q := n]> (delete p H)) ∧ same_data (delete p H) s t ∧
       ∀ i, 0 ≤ i < k → bytes t !! Z.to_pos (Zpos q + i) = bytes s !! Z.to_pos (Zpos p + i))
  | Ok (None, t) => k = 0 ∧ refuses s n ∧ heap_rep t (delete p H)
  | Fault => 0 < k < n ∧ refuses s n
  | _ => False
  end.

(** The bytes move to the new allocation and the old one is released. *)
Lemma wp_move u s H (p : loc) k (q : loc) n : heap_rep u (<[q := n]> H) → fresh_at H q n → H !! p = Some k → 0 ≤ k < n → same_data H s u →
  wp (liballoc_memcpy (Zpos q) (Zpos p) (Z.to_nat k);; free (Some p);; mret (Some q)) (λ r t, r = Some q ∧
    heap_rep t (<[q := n]> (delete p H)) ∧ same_data (delete p H) s t ∧
    ∀ i, 0 ≤ i < k → bytes t !! Z.to_pos (Zpos q + i) = bytes s !! Z.to_pos (Zpos p + i)) u.
Proof.
  intros (bl & Hi & Hb & HH) [_ Hend Hnew Hap] Hp Hk Hd. assert (p ≠ q) as Hpq by congruence.
  assert ((q, n) ∈ live bl ∧ (p, k) ∈ live bl) as [Hq Hpl].
  { rewrite <- !(live_lookup _ _ _ _ _ Hi), <- HH. lookup_norm. done. }
  pose proof (live_range _ _ _ _ _ Hi Hpl). pose proof (Hap p k Hp).
  apply wp_bind. eapply (wp_memcpy false bl q n); [exact Hi|exact Hq|lia..|]. intros t1 Hi1 _ Hcp Hout. rewrite Z2Nat.id in * by lia.
  assert (heap_rep t1 (<[q := n]> H)) as Hrep1 by (by exists bl). apply wp_bind.
  eapply wp_mono; [apply (heap_rep_free t1 (<[q := n]> H) p k Hrep1); by lookup_norm|]. intros [] t [Ht Hdt]. apply wp_ret.
  rewrite delete_insert_ne in Ht, Hdt by done. split_and!; [done|done|..].
  - intros p' k' r Hp' Hr. apply lookup_delete_Some in Hp' as [Hne Hp']. assert (p' ≠ q) by congruence.
    rewrite (Hdt p' k' r) by (lookup_norm; done). rewrite Hout by (pose proof (Hap p' k' Hp'); lia). by apply (Hd p' k').
  - intros i Hii. assert (Zpos (Z.to_pos (Zpos q + i)) = Zpos q + i) as Hz1 by (apply Z2Pos.id; lia).
    assert (Zpos (Z.to_pos (Zpos p + i)) = Zpos p + i) as Hz2 by (apply Z2Pos.id; lia).
    rewrite (Hdt q n) by (lookup_norm; done || lia). rewrite Hcp by lia. apply (Hd p k); [done|lia].
Qed.

Lemma heap_rep_realloc s H (p : loc) k n : heap_rep s H → H !! p = Some k → 0 < n < 2 ^ 31 - 32 → realloc_spec H s p k n (realloc (Some p) n s).
Proof.
  intros Hrep Hp Hn. pose proof Hrep as (bl & Hi & Hb & HH).
  pose proof Hp as Hin. rewrite HH in Hin. apply (live_lookup _ _ _ _ _ Hi) in Hin. pose proof (live_range _ _ _ _ _ Hi Hin) as Hran.
  pose proof Hin as (B1 & a & m & l1 & x & l2 & B2 & Hbl & Hpx & Hk)%live_split. rewrite Hbl in *.
  pose proof (po_req _ _ _ (bo_ok _ _ (rem_ok _ _ _ _ _ _ _ _ _ Hi) x ltac:(cbn; set_solver))) as Hreq.
  pose proof (realloc_eq s B1 a m l1 x l2 B2 n Hi ltac:(lia)) as Heq. cbv zeta in Heq. rewrite <- Hpx, <- Hk in Heq.
  refine (eq_ind_r (realloc_spec H s p k n) _ Heq). clear Heq.
  case_bool_decide as Hle.
  - left. split_and!; [done|done| |done].
    exists (B1 ++ Block a m (l1 ++ (x.1, resize n x.2) :: l2) :: B2). split_and!.
    + eapply inv_lock. apply (inv_resize true {| s with l_spinlock := true |}); [by eapply inv_lock|lia].
    + intros b [Hbb|[->|Hbb]%elem_of_cons]%elem_of_app; [apply Hb; set_solver|by destruct l1|apply Hb; set_solver].
    + rewrite HH, Hpx. symmetry. by eapply live_resize.
  - set (s1 := unlocked _). assert (heap_rep s1 H) as Hrep1 by (exists bl; rewrite Hbl; split_and!; [by eapply inv_lock, inv_lock|done|done]).
    pose proof (heap_rep_malloc s1 H n Hrep1 ltac:(lia)) as ([q|] & u & Hrun & Hd & Hu)%wp_exec; unfold mbind at 1, M_bind at 1; rewrite Hrun.
    + destruct Hu as [Hf Hu]. pose proof (wp_move u s1 H p k q n Hu Hf Hp ltac:(lia) Hd) as (r & t & Hmv & -> & Ht)%wp_exec.
      change (realloc_spec H s p k n ((liballoc_memcpy (Zpos q) (Zpos p) (Z.to_nat k);; free (Some p);; mret (Some q)) u)). rewrite Hmv. right. split_and!; [lia|done|apply Ht..].
    + destruct Hu as (Hu & Hpa). assert (refuses s n) as Href by (by exists (supply u)). destruct (decide (k = 0)) as [->|Hne].
      * pose proof (heap_rep_free u H p 0 Hu Hp) as ([] & t & Hfr & Ht & _)%wp_exec. 
        change (realloc_spec H s p 0 n ((free (Some p);; mret NULL) u)). unfold mbind, M_bind. rewrite Hfr. done.
      * replace (Z.to_nat k) with (S (Z.to_nat (k - 1))) by lia. split; [lia|done].
Qed.

(** ** [calloc] *)

Definition calloc_spec H s (n : Z) (o : outcome (ptr * kheap W)) : Prop :=
  match o with
  | Ok (Some p, t) => fresh_at H p n ∧ heap_rep t (<[p := n]> H) ∧ same_data H s t ∧
      ∀ q : loc, Zpos p ≤ Zpos q < Zpos p + n → bytes t !! q = Some 0
  | Ok (None, t) => n = 0 ∧ refuses s n ∧ heap_rep t H
  | Fault => 0 < n ∧ refuses s n
  | _ => False
  end.
Lemma wp_clear u s H (p : loc) n : heap_rep u (<[p := n]> H) → fresh_at H p n → 0 ≤ n → same_data H s u →
  wp (liballoc_memset (Zpos p) 0 (Z.to_nat n);; mret (Some p)) (λ r t, r = Some p ∧ heap_rep t (<[p := n]> H) ∧ same_data H s t ∧
    ∀ q : loc, Zpos p ≤ Zpos q < Zpos p + n → bytes t !! q = Some 0) u.
Proof.
  intros (bl & Hi & Hb & HH) [_ Hend Hnew Hap] Hn Hd.
  assert ((p, n) ∈ live bl) as Hp by (rewrite <- (live_lookup _ _ _ _ _ Hi), <- HH; by lookup_norm).
  apply wp_bind. eapply (wp_memset false bl p n); [exact Hi|exact Hp|lia..|]. intros t Ht _ Hin Hout. rewrite Z2Nat.id in * by lia.
  apply wp_ret. split_and!; [done|by exists bl| |exact Hin].
  intros q k r Hq Hr. rewrite Hout by (pose proof (Hap q k Hq); lia). by apply (Hd q k).
Qed.
Lemma heap_rep_calloc s H nobj size : heap_rep s H → 0 ≤ nobj * size < 2 ^ 31 - 32 → calloc_spec H s (nobj * size) (calloc nobj size s).
Proof.
  intros Hrep Hn. unfold calloc. rewrite u32_small by lia. cbv zeta.
  pose proof (heap_rep_malloc s H (nobj * size) Hrep Hn) as ([p|] & u & Hrun & Hd & Hu)%wp_exec; unfold mbind at 1, M_bind at 1; rewrite Hrun.
  - destruct Hu as [Hf Hu]. pose proof (wp_clear u s H p (nobj * size) Hu Hf ltac:(lia) Hd) as (r & t & Hms & -> & Ht)%wp_exec.
    change (calloc_spec H s (nobj * size) ((liballoc_memset (Zpos p) 0 (Z.to_nat (nobj * size));; mret (Some p)) u)). rewrite Hms.
    split; [done|exact Ht].
  - destruct Hu as (Hu & Hpa). assert (refuses s (nobj * size)) as Href by (by exists (supply u)).
    destruct (decide (nobj * size = 0)) as [E|Hne]; [rewrite E in *; by split|].
    replace (Z.to_nat (nobj * size)) with (S (Z.to_nat (nobj * size - 1))) by lia. split; [lia|done].
Qed.
End spec.
