(* ===== verification/LiballocSpec.v ===== *)
(** * The kernel heap against its contract

    The page supply of the heap is the kernel's address allocator [mm/vmm]; a sequence
    of calls refines an abstract heap; the search of [malloc] terminates; and what
    happens at the limits of the machine's integers. *)
From S2P Require Import Prelude Dll Vmm VmmRegions VmmInv VmmSpec Liballoc LiballocInv LiballocBlocks LiballocPlace LiballocMalloc LiballocFree LiballocRep.

(** ** [mm/vmm] as the page supply

    [paging_alloc] and [paging_free] take the addresses from [vmm_alloc] and give them
    back to [vmm_free]; the mapping of the pages is the business of [Paging]. *)
#[global] Program Instance vmm_pages : Pages vmm :=
  {| page_alloc := vmm_alloc; page_free b _ := vmm_free b; owned := vmm_rep |}.
Next Obligation.
  intros w A z Hr Hz Ha. eapply wp_mono; [apply rep_alloc; [done|lia|done]|]. intros b w' [([Hf _] & Hb & Hr')|(-> & _ & ?)]; [right|by left].
  destruct Hf as [? ? Hap]. unfold KHEAPBASE, KHEAPEND, KHEAPSZ in *. split_and!; [lia|lia|done|done|].
  intros b' z' Hb'. apply Hap in Hb'. unfold apart, rend in Hb'. simpl in Hb'. lia.
Qed.
Next Obligation. intros w A b z Hr Hb. by eapply rep_free. Qed.

(** The heap before the first call. *)
Definition heap_boot {W} (w : W) : kheap W := Kheap false NULL NULL 0 0 0 0 0 ∅ ∅ ∅ w.
Lemma heap_boot_rep {W} `{!Pages W} (w : W) A : owned w A → heap_rep (heap_boot w) ∅.
Proof.
  intros HA. exists []. split_and!; [|by intros ? ?%elem_of_nil|done].
  split; try done; [intros b Hb|intros b b' Hb|]; [by apply elem_of_nil in Hb..|]. exists A. split; [done|]. by intros ? ?%elem_of_nil.
Qed.

(** A page supply for concrete runs: the next free address. *)
Definition bump_alloc (z : Z) : M Z Z := λ w, if bool_decide (w + z < 2 ^ 32) then Ok (w, w + z) else Ok (0, w).
Definition bump_owned (w : Z) (A : gmap Z Z) : Prop :=
  0 < w ∧ (PAGESZ | w) ∧ ∀ b z, A !! b = Some z → b + z ≤ w.
#[global] Program Instance bump_pages : Pages Z :=
  {| page_alloc := bump_alloc; page_free _ _ := mret tt; owned := bump_owned |}.
Next Obligation.
  intros w A z (Hw & Ha & HA) Hz Hd. unfold bump_alloc. apply wp_exec. case_bool_decide; [|exists 0, w; split; [done|by left]].
  exists w, (w + z). split; [done|]. right. split_and!; [done..| |].
  - split; [lia|]. split; [by apply Z.divide_add_r|]. intros b' z' [[<- <-]|[_ Hb]]%lookup_insert_Some; [lia|]. apply HA in Hb. lia.
  - intros b' z' Hb. apply HA in Hb. lia.
Qed.
Next Obligation.
  intros w A b z (Hw & Ha & HA) Hb. apply wp_ret. split_and!; [done..|]. intros b' z' [_ Hb']%lookup_delete_Some. by apply HA.
Qed.

Section refinement.
Context {W : Type} `{!Pages W}.
Implicit Types (s t : kheap W) (H : gmap loc Z).

(** ** The abstract heap *)

Inductive heap_op : Type := Malloc (n : Z) | Calloc (n m : Z) | Realloc (p : ptr) (n : Z) | Free (p : ptr).

(** A call on the live allocations [H], when the page supply has no room for the new block of
    the requests in [none]: NULL is the answer only to those, and to a release. *)
Inductive heap_step (none : Z → Prop) H : heap_op → ptr → gmap loc Z → Prop :=
| hs_malloc n p : fresh_at H p n → heap_step none H (Malloc n) (Some p) (<[p := n]> H)
| hs_malloc_none n : none n → heap_step none H (Malloc n) NULL H
| hs_calloc n m p : fresh_at H p (n * m) → heap_step none H (Calloc n m) (Some p) (<[p := n * m]> H)
| hs_calloc_none n m : n * m = 0 → none 0 → heap_step none H (Calloc n m) NULL H
| hs_resize p k n : H !! p = Some k → 0 < n ≤ k → heap_step none H (Realloc (Some p) n) (Some p) (<[p := n]> H)
| hs_move p k n q : H !! p = Some k → k < n → fresh_at H q n →
    heap_step none H (Realloc (Some p) n) (Some q) (<[q := n]> (delete p H))
| hs_lose p n : H !! p = Some 0 → none n → heap_step none H (Realloc (Some p) n) NULL (delete p H)
| hs_realloc_new n p : 0 < n → fresh_at H p n → heap_step none H (Realloc NULL n) (Some p) (<[p := n]> H)
| hs_realloc_none n : 0 < n → none n → heap_step none H (Realloc NULL n) NULL H
| hs_realloc_free p k : H !! p = Some k → heap_step none H (Realloc (Some p) 0) NULL (delete p H)
| hs_realloc_nothing : heap_step none H (Realloc NULL 0) NULL H
| hs_free p k : H !! p = Some k → heap_step none H (Free (Some p)) NULL (delete p H)
| hs_free_nothing : heap_step none H (Free NULL) NULL H.

(** The calls, and what a caller may ask for: pointers it holds, sizes below 2 GiB. *)
Definition heap_do (o : heap_op) : M (kheap W) ptr :=
  match o with
  | Malloc n => malloc n
  | Calloc n m => calloc n m
  | Realloc p n => realloc p n
  | Free p => free p;; mret NULL
  end.
Definition op_sized (o : heap_op) : Prop :=
  match o with
  | Malloc n | Realloc _ n => 0 ≤ n < 2 ^ 31 - 32
  | Calloc n m => 0 ≤ n * m < 2 ^ 31 - 32
  | Free _ => True
  end.
Definition op_held H (o : heap_op) : Prop :=
  match o with Realloc (Some p) _ | Free (Some p) => is_Some (H !! p) | _ => True end.
#[local] Instance op_held_dec H o : Decision (op_held H o).
Proof. destruct o as [| |[]|[]]; apply _. Defined.

(** A run of calls that return; in each state the supply decides which requests get NULL. *)
Inductive heap_run : kheap W → gmap loc Z → list heap_op → list ptr → kheap W → gmap loc Z → Prop :=
| hr_nil s H : heap_run s H [] [] s H
| hr_cons s H o r t H1 os rs u H2 : heap_do o s = Ok (r, t) → heap_step (refuses s) H o r H1 →
    heap_run t H1 os rs u H2 → heap_run s H (o :: os) (r :: rs) u H2.

(** [calloc] and [realloc] write through the NULL that [malloc] returns when the page supply
    has no room for the block they need. *)
Definition op_starves H (o : heap_op) s : Prop :=
  heap_do o s = Fault ∧
  match o with
  | Calloc n m => 0 < n * m ∧ refuses s (n * m)
  | Realloc (Some p) n => ∃ k, H !! p = Some k ∧ 0 < k < n ∧ refuses s n
  | _ => False
  end.

Lemma heap_do_malloc s H n : heap_rep s H → 0 ≤ n < 2 ^ 31 - 32 → ∃ r t, malloc n s = Ok (r, t) ∧
  match r with Some p => fresh_at H p n ∧ heap_rep t (<[p := n]> H) | None => refuses s n ∧ heap_rep t H end.
Proof.
  intros Hr Hn. pose proof (heap_rep_malloc s H n Hr Hn) as ([p|] & t & Hrun & _ & Ht)%wp_exec; eexists _, _; (split; [exact Hrun|]).
  - done.
  - destruct Ht. split; [by exists (supply t)|done].
Qed.
Lemma heap_do_free s H p : heap_rep s H → op_held H (Free p) →
  ∃ t, free p s = Ok (tt, t) ∧ heap_rep t match p with Some p => delete p H | None => H end.
Proof.
  intros Hr Hh. destruct p as [p|].
  - destruct Hh as [k Hp]. pose proof (heap_rep_free s H p k Hr Hp) as ([] & t & Hrun & Ht & _)%wp_exec. eauto.
  - eexists. split; [done|]. destruct Hr as (bl & Hi & Hb & HH). exists bl. split_and!; [|done..].
    eapply inv_vars; [exact Hi|done|done|done|apply Hi|done|apply Hi|done|done|apply Hi].
Qed.

Lemma heap_do_realloc s H p n : heap_rep s H → 0 ≤ n < 2 ^ 31 - 32 → op_held H (Realloc p n) →
  (∃ r t H', heap_do (Realloc p n) s = Ok (r, t) ∧ heap_step (refuses s) H (Realloc p n) r H' ∧ heap_rep t H') ∨ op_starves H (Realloc p n) s.
Proof.
  intros Hr Hn Hh. destruct (decide (n = 0)) as [->|Hne].
  { left. destruct (heap_do_free s H p Hr) as (t & Hrun & Ht); [by destruct p|].
    eexists NULL, t, _. cbn [heap_do]. unfold realloc. rewrite bool_decide_true by done. unfold mbind, M_bind. rewrite Hrun.
    split_and!; [done| |exact Ht]. destruct p as [p|]; [|by constructor]. destruct Hh as [k ?]. by econstructor. }
  destruct p as [p|]; cbn [op_held heap_do] in *.
  - destruct Hh as [k Hp]. pose proof (heap_rep_realloc s H p k n Hr Hp ltac:(lia)) as Hc. unfold realloc_spec in Hc.
    unfold op_starves. cbn [heap_do]. destruct (realloc (Some p) n s) as [[[q|] t]| | |]; try done.
    + left. destruct Hc as [(? & -> & ? & _)|(? & ? & ? & _)]; eexists _, _, _; (split_and!; [done| |done]).
      * eapply hs_resize; [done|lia].
      * by eapply hs_move.
    + left. destruct Hc as (-> & ? & ?). eexists _, _, _. split_and!; [done|by econstructor|done].
    + right. destruct Hc. split; [done|]. eauto.
  - left. unfold realloc. rewrite bool_decide_false by done.
    destruct (heap_do_malloc s H n Hr Hn) as ([q|] & t & Hrun & ? & ?); eexists _, t, _; (split_and!; [exact Hrun| |done]).
    + apply hs_realloc_new; [lia|done].
    + apply hs_realloc_none; [lia|done].
Qed.

Lemma heap_do_spec s H o : heap_rep s H → op_sized o → op_held H o →
  (∃ r t H', heap_do o s = Ok (r, t) ∧ heap_step (refuses s) H o r H' ∧ heap_rep t H') ∨ op_starves H o s.
Proof.
  intros Hr Ho Hh. destruct o as [n|n m|p n|p]; cbn [op_sized] in *.
  - left. destruct (heap_do_malloc s H n Hr Ho) as ([q|] & t & Hrun & ? & ?); eexists _, t, _; (split_and!; [exact Hrun|by constructor|done]).
  - pose proof (heap_rep_calloc s H n m Hr Ho) as Hc. unfold calloc_spec in Hc. unfold op_starves. cbn [heap_do].
    destruct (calloc n m s) as [[[p|] t]| | |]; try done.
    + left. destruct Hc as (? & ? & _). eexists _, _, _. split_and!; [done|by constructor|done].
    + left. destruct Hc as (E & ? & ?). eexists _, _, _. split_and!; [done| |done]. constructor; [done|]. by rewrite <- E.
    + by right.
  - by apply heap_do_realloc.
  - left. destruct (heap_do_free s H p Hr Hh) as (t & Hrun & Ht). eexists NULL, t, _. cbn [heap_do]. unfold mbind, M_bind. rewrite Hrun.
    split_and!; [done| |exact Ht]. destruct p as [p|]; [|by constructor]. destruct Hh as [k ?]. by econstructor.
Qed.

Lemma heap_run_spec os s H : heap_rep s H → Forall op_sized os → ∃ os1 os2 rs t H',
  os = os1 ++ os2 ∧ heap_run s H os1 rs t H' ∧ heap_rep t H' ∧
  match os2 with [] => True | o :: _ => ¬ op_held H' o ∨ op_starves H' o t end.
Proof.
  revert s H. induction os as [|o os IH]; intros s H Hr Hs.
  { exists [], [], [], s, H. split_and!; [done|constructor|done..]. }
  apply Forall_cons in Hs as [Ho Hs].
  destruct (decide (op_held H o)) as [Hh|Hh]; [destruct (heap_do_spec s H o Hr Ho Hh) as [(r & t & H1 & Hrun & Hst & Ht)|Hst]|].
  - destruct (IH t H1 Ht Hs) as (os1 & os2 & rs & u & H2 & -> & ? & ? & ?). exists (o :: os1), os2, (r :: rs), u, H2.
    split_and!; [done|by econstructor|done..].
  - exists [], (o :: os), [], s, H. split_and!; [done|constructor|done|by right].
  - exists [], (o :: os), [], s, H. split_and!; [done|constructor|done|by left].
Qed.
End refinement.

Section theorems.
Context {W : Type} `{!Pages W}.
Implicit Types (s t : kheap W) (H : gmap loc Z).

(** C3: the kernel heap refines the abstract heap.  From the state before the first call, any
    sequence of [malloc], [calloc], [realloc] and [free] with sizes below 2 ^ 31 - 32 bytes, NULL
    pointers and sizes of 0 included, returns with the results of the abstract heap: each new pointer
    is 16-byte aligned and its bytes belong to no live allocation, [free] ends exactly one,
    and NULL is the answer to a request only when the page supply refuses the block the
    request needs.  The run can stop only at a call with a pointer the caller does not hold,
    or at a [calloc] or a growing [realloc] whose block the page supply refuses, which faults.
    The page supply ([Pages]) gives ranges of pages that it has not given out, or 0. *)
Theorem heap_refines (w : W) A os : owned w A → Forall op_sized os → ∃ os1 os2 rs t H,
  os = os1 ++ os2 ∧ heap_run (heap_boot w) ∅ os1 rs t H ∧ heap_rep t H ∧
  match os2 with [] => True | o :: _ => ¬ op_held H o ∨ op_starves H o t end.
Proof. intros Hw Hs. apply heap_run_spec; [by eapply heap_boot_rep|done]. Qed.

(** C32: [malloc] of less than 2 ^ 31 - 32 bytes always returns.  The result is a 16-byte aligned
    pointer to bytes that are in no live allocation, which from then on it is; or NULL,
    and then the page supply refused the block the request needs and the live allocations
    are as before.  The bytes of the other allocations do not change. *)
Theorem malloc_correct s H n : heap_rep s H → 0 ≤ n < 2 ^ 31 - 32 →
  ∃ r t, malloc n s = Ok (r, t) ∧ same_data H s t ∧
    match r with
    | Some p => fresh_at H p n ∧ heap_rep t (<[p := n]> H)
    | None => heap_rep t H ∧ page_alloc (block_bytes n) (supply s) = Ok (0, supply t)
    end.
Proof. intros. by apply wp_exec, heap_rep_malloc. Qed.

(** [free] of a pointer the caller holds returns, ends exactly that allocation and
    does not change the bytes of the others. *)
Theorem free_correct s H (p : loc) k : heap_rep s H → H !! p = Some k →
  ∃ t, free (Some p) s = Ok (tt, t) ∧ heap_rep t (delete p H) ∧ same_data (delete p H) s t.
Proof. intros Hr Hp. pose proof (heap_rep_free s H p k Hr Hp) as ([] & t & ? & ?)%wp_exec. eauto. Qed.

(** C17: [realloc] of a pointer with [k] bytes to [n > 0] bytes ([n] below
    2 ^ 31 - 32).  It shrinks in place; or it
    moves the allocation to a new place and copies the [k] bytes; or, when the page supply
    refuses the block the new piece needs, it copies them through NULL and faults ([k > 0])
    or returns NULL and has released the old piece ([k = 0]). *)
Theorem realloc_correct s H (p : loc) k n : heap_rep s H → H !! p = Some k → 0 < n < 2 ^ 31 - 32 →
  match realloc (Some p) n s with
  | Ok (Some q, t) =>
      (n ≤ k ∧ q = p ∧ heap_rep t (<[p := n]> H) ∧ bytes t = bytes s) ∨
      (k < n ∧ fresh_at H q n ∧ heap_rep t (<[q := n]> (delete p H)) ∧ same_data (delete p H) s t ∧
       ∀ i, 0 ≤ i < k → bytes t !! Z.to_pos (Zpos q + i) = bytes s !! Z.to_pos (Zpos p + i))
  | Ok (None, t) => k = 0 ∧ refuses s n ∧ heap_rep t (delete p H)
  | Fault => 0 < k < n ∧ refuses s n
  | _ => False
  end.
Proof. apply heap_rep_realloc. Qed.

(** [calloc] returns zeroed bytes that are in no other live allocation; when the page
    supply has nothing left it clears through NULL and faults. *)
Theorem calloc_correct s H nobj size : heap_rep s H → 0 ≤ nobj * size < 2 ^ 31 - 32 →
  match calloc nobj size s with
  | Ok (Some p, t) => fresh_at H p (nobj * size) ∧ heap_rep t (<[p := nobj * size]> H) ∧ same_data H s t ∧
      ∀ q : loc, Zpos p ≤ Zpos q < Zpos p + nobj * size → bytes t !! q = Some 0
  | Ok (None, t) => nobj * size = 0 ∧ refuses s (nobj * size) ∧ heap_rep t H
  | Fault => 0 < nobj * size ∧ refuses s (nobj * size)
  | _ => False
  end.
Proof. apply heap_rep_calloc. Qed.

(** C18: the search of [malloc] terminates.  From any block, with or without having started
    at the best bet, the loop over the blocks returns within twice the number of blocks
    plus two turns, whatever the heap looks like. *)
Theorem malloc_loop_terminates s bl b st best n fuel : heap_inv true s bl → busy bl → b ∈ bl →
  0 ≤ n < 2 ^ 31 - 32 → (2 * length bl < fuel)%nat →
  ∃ r t, malloc_loop fuel st best (Some (b_at b)) (n + 32) n s = Ok (r, t).
Proof.
  intros Hi Hb (B1 & B2 & ->)%list_elem_of_split Hn Hf. rewrite length_app in Hf. simpl in Hf.
  assert (wp (malloc_loop fuel st best (Some (b_at b)) (n + 32) n) (malloc_ok (n + 32) n s (B1 ++ b :: B2)) s) as (r & t & ? & _)%wp_exec; [|eauto].
  apply wp_malloc_loop; [lia|lia|done|done|]. rewrite length_app. simpl. destruct st; lia.
Qed.

(** A caller that writes only into its own allocations cannot corrupt the heap: a store
    to a byte of a live allocation keeps the heap's structures, and so all of the above. *)
Theorem user_write_safe s H (p q : loc) k v : heap_rep s H → H !! p = Some k → Zpos p ≤ Zpos q < Zpos p + k →
  ∃ t, put_byte (Some q) v s = Ok (tt, t) ∧ heap_rep t H ∧ bytes t !! q = Some v ∧ ∀ r : loc, r ≠ q → bytes t !! r = bytes s !! r.
Proof.
  intros (bl & Hi & Hb & ->) Hp%(live_lookup _ _ _ _ _ Hi) Hq. exists (write_byte q (Some v) s). split; [done|].
  split_and!; [|apply write_same|intros; by apply write_other]. exists bl. split_and!; [|done|done]. by eapply inv_write.
Qed.
End theorems.

(** ** A request close to 4 GiB *)

Section wrap.
Context {W : Type} `{!Pages W} (w w' : W) (a : loc) (n : Z).
Context (Hpa : page_alloc (16 * PAGESZ) w = Ok (Zpos a, w')) (Hal : (16 | Zpos a)) (Hend : Zpos a + 16 * PAGESZ < 2 ^ 32).
Context (Hn : 2 ^ 32 - 32 < n < 2 ^ 32).
Implicit Types (s t : kheap W).

(** The heap after the request: one block with one piece of less than 32 bytes. *)
Definition wrapped_size : Z := n + 32 - 2 ^ 32.
Record wrapped t : Prop := Wrapped {
  wr_lock : l_spinlock t = false;
  wr_root : l_memRoot t = Some a;
  wr_bet : l_bestBet t = Some a;
  wr_major : majors t = {[a := Node (Major 16 (16 * PAGESZ) (48 + wrapped_size) (Some (a + 24)%positive)) NULL NULL]};
  wr_minor : minors t = {[(a + 24)%positive := Node (Minor (Some a) LIBALLOC_MAGIC wrapped_size n) NULL NULL]};
}.

(** The first turn of the loop of [malloc]. *)
Ltac one_turn :=
  unfold malloc_fuel; rewrite Nat.add_comm;
  match goal with |- context [malloc_loop (3 + ?x)] => change (3 + x)%nat with (S (2 + x)); generalize (2 + x)%nat; intros fuel end;
  cbn [malloc_loop].

(** A write elsewhere leaves the headers alone. *)
Lemma clobber_major s k j v : majors s = {[a := v]} → outside k j (Zpos a) 24 → majors (clobber k j s) = {[a := v]}.
Proof using Type. intros Hm Ho. cbn. rewrite Hm. by apply map_filter_singleton_True. Qed.
Lemma clobber_minor s k j (m : loc) v : minors s = {[m := v]} → outside k j (Zpos m) 24 → minors (clobber k j s) = {[m := v]}.
Proof using Type. intros Hm Ho. cbn. rewrite Hm. by apply map_filter_singleton_True. Qed.

Lemma wp_new_block s size (Q : ptr → kheap W → Prop) : 0 < size < 32 → supply s = w → majors s = ∅ → minors s = ∅ →
  (∀ t, majors t = {[a := Node (Major 16 (16 * PAGESZ) 24 NULL) NULL NULL]} → minors t = ∅ → l_spinlock t = l_spinlock s →
     l_bestBet t = l_bestBet s → Q (Some a) t) →
  wp (allocate_new_page size) Q s.
Proof using Hpa Hend.
  intros Hs Hw Hm1 Hm2 HQ. unfold allocate_new_page, sizeof_major, sizeof_minor, l_pageSize, l_pageCount. cbv zeta.
  rewrite (u32_small (size + 24)), (u32_small (size + 24 + 24)) by lia.
  rewrite (bool_decide_false ((size + 24 + 24) mod 4096 = 0)) by (rewrite Z.mod_small; lia).
  rewrite (Z.div_small (size + 24 + 24)) by lia. rewrite bool_decide_true by lia. unfold liballoc_alloc, on_supply.
  apply wp_bind, wp_bind, wp_zoom. rewrite u32_small by (unfold PAGESZ; lia). apply wp_exec. exists (Zpos a), w'. rewrite Hw.
  split; [exact Hpa|]. apply wp_ret. rewrite addr_Zpos by (unfold PAGESZ in *; lia). apply wp_bind, wp_modify, wp_bind, wp_modify, wp_ret.
  apply HQ; cbn; rewrite ?Hm1, ?Hm2, ?map_filter_empty; done.
Qed.

(** The last steps of a placement: usage, counters and the byte of [ALIGN]. *)
Lemma wp_finish (m : loc) size s v (Q : ptr → kheap W → Prop) : majors s = {[a := v]} →
  Zpos a + 24 ≤ Zpos m → Zpos m + 55 < 2 ^ 32 →
  (∀ t, majors t = {[a := add_usage (u32 (size + 24)) v]} → minors t = filter (λ x, outside (user (Zpos m) - 16) 1 (Zpos x.1) 24) (minors s) →
     l_spinlock t = l_spinlock s → l_bestBet t = l_bestBet s → l_memRoot t = l_memRoot s → Q (Some (Z.to_pos (user (Zpos m)))) t) →
  wp (hand_out a (Zpos m) size) Q s.
Proof using Type.
  intros Hm Hlo Hhi HQ. pose proof (user_bounds (Zpos m)) as Hu. unfold sizeof_minor in *. unfold hand_out. apply wp_bind, wp_upd; [cbn; rewrite Hm; by rewrite lookup_singleton_eq; eauto|].
  cbn. apply wp_bind, wp_modify, wp_bind, wp_ALIGN; [lia..|]. apply wp_ret. rewrite addr_pos by lia.
  apply HQ; [|done..]. cbn. rewrite Hm, alter_singleton_eq. apply map_filter_singleton_True. unfold outside, ALIGN_INFO, sizeof_major. simpl fst. lia.
Qed.

Lemma wrapped_size_range : 0 < wrapped_size < 32.
Proof using Hn. clear -Hn. unfold wrapped_size. lia. Qed.

Lemma malloc_first : wp (malloc n) (λ r t, r = Some (a + 64)%positive ∧ wrapped t) (heap_boot w).
Proof using All.
  pose proof wrapped_size_range as Hs. unfold malloc, ALIGNMENT, ALIGN_INFO. cbv zeta.
  assert (u32 (n + (16 + 16)) = wrapped_size) as -> by (unfold u32; symmetry; apply (Z.mod_unique _ _ 1); unfold wrapped_size; lia).
  unfold liballoc_lock. apply wp_bind, wp_spin_lock; [done|]. rewrite bool_decide_false by lia.
  unfold malloc_locked. apply wp_bind, wp_gets, wp_bind, wp_bind, wp_new_block; [done..|]. intros t Hmj Hmn Hlk Hbb. cbn in Hlk, Hbb.
  apply wp_bind, wp_modify, wp_ret, wp_bind, wp_gets. cbn [l_bestBet]. rewrite Hbb. apply wp_bind, wp_ret, wp_bind, wp_gets.
  rewrite bool_decide_false by (by intros [? _]). apply wp_bind. one_turn.
  apply wp_bind. eapply wp_rd; [cbn; rewrite Hmj; apply lookup_singleton_eq|]. cbv zeta. cbn [n_data mj_size mj_usage].
  rewrite (u32_small (16 * PAGESZ - 24)) by (unfold PAGESZ; lia). rewrite (bool_decide_true (0 < 16 * PAGESZ - 24)) by (unfold PAGESZ; lia). apply wp_bind, wp_modify.
  rewrite (bool_decide_false (16 * PAGESZ - 24 < _)) by (rewrite u32_small; unfold sizeof_minor, PAGESZ; lia). unfold cases. apply wp_bind.
  eapply wp_rd; [cbn; rewrite Hmj; apply lookup_singleton_eq|]. cbn [n_data mj_first]. unfold case2, sizeof_major. cbv zeta.
  replace (Zpos a + 24) with (Zpos (a + 24)%positive) by lia. rewrite addr_Zpos by (unfold PAGESZ in *; lia).
  apply wp_bind, wp_upd; [cbn; rewrite Hmj, lookup_singleton_eq; eauto|]. apply wp_bind, wp_modify.
  eapply wp_finish; [apply clobber_major; [cbn; by rewrite Hmj, alter_singleton_eq|unfold outside, sizeof_minor; lia]|lia|unfold PAGESZ in *; lia|].
  intros u Hu1 Hu2 Hu3 Hu4 Hu5. assert (user (Zpos (a + 24)) = Zpos (a + 64)) as Hus.
  { unfold user, sizeof_minor, ALIGN_INFO. destruct Hal as [z Hz]. Z.to_euclidean_division_equations. lia. }
  unfold liballoc_unlock. apply wp_bind, wp_spin_unlock; [change (l_spinlock u = true); rewrite Hu3; exact Hlk|]. apply wp_ret. rewrite Hus. split; [done|].
  split; cbn; [done|by rewrite Hu5|by rewrite Hu4| |].
  - rewrite Hu1. unfold add_usage, set_first, set_data. cbn. do 4 f_equal. rewrite (u32_small (wrapped_size + 24)), u32_small; lia.
  - rewrite Hu2, Hus. cbn. rewrite Hmn, map_filter_empty, insert_empty. apply map_filter_singleton_True. unfold outside. simpl fst. lia.
Qed.

Lemma malloc_second m t : wrapped t → 0 ≤ m ≤ 2 ^ 15 → wp (malloc m) (λ r _, r = Some (Z.to_pos (user (Zpos a + 48 + wrapped_size)))) t.
Proof using All.
  intros [Hlk Hro Hbb Hmj Hmn] Hm. pose proof wrapped_size_range as Hs. unfold malloc, ALIGNMENT, ALIGN_INFO. cbv zeta.
  rewrite (u32_small (m + (16 + 16))) by lia. unfold liballoc_lock. apply wp_bind, wp_spin_lock; [done|]. rewrite bool_decide_false by lia.
  unfold malloc_locked. apply wp_bind, wp_gets. cbn [l_memRoot set_held kheap_lock]. rewrite Hro. apply wp_bind, wp_ret, wp_bind, wp_gets.
  cbn [l_bestBet set_held kheap_lock]. rewrite Hbb.
  apply wp_bind, wp_bind. eapply wp_rd; [cbn; rewrite Hmj; apply lookup_singleton_eq|]. apply wp_ret. cbn [n_data mj_size mj_usage].
  rewrite (u32_small (16 * PAGESZ - (48 + wrapped_size))) by (unfold PAGESZ; lia). unfold sizeof_minor. rewrite (u32_small (m + (16 + 16) + 24)) by lia.
  rewrite bool_decide_true by (split; [done|unfold PAGESZ; lia]). apply wp_bind, wp_gets, wp_bind. one_turn.
  apply wp_bind. eapply wp_rd; [cbn; rewrite Hmj; apply lookup_singleton_eq|]. cbv zeta. cbn [n_data mj_size mj_usage].
  rewrite (u32_small (16 * PAGESZ - (48 + wrapped_size))) by (unfold PAGESZ; lia).
  rewrite (bool_decide_false (16 * PAGESZ - (48 + wrapped_size) < 16 * PAGESZ - (48 + wrapped_size))) by lia. apply wp_bind, wp_ret.
  unfold sizeof_minor. rewrite (u32_small (m + (16 + 16) + 24)) by lia. rewrite (bool_decide_false (16 * PAGESZ - (48 + wrapped_size) < _)) by (unfold PAGESZ; lia). unfold cases. apply wp_bind.
  eapply wp_rd; [cbn; rewrite Hmj; apply lookup_singleton_eq|]. cbn [n_data mj_first]. unfold sizeof_major, sizeof_minor.
  rewrite (u32_small (Zpos (a + 24) - Zpos a)), (u32_small (Zpos (a + 24) - Zpos a - 24)), (u32_small (m + (16 + 16) + 24)) by lia.
  rewrite bool_decide_false by lia. apply wp_bind, wp_gets, wp_bind. cbn [case4]. apply wp_bind. eapply wp_rd; [cbn; rewrite Hmn; apply lookup_singleton_eq|].
  apply wp_bind. eapply wp_rd; [cbn; rewrite Hmj; apply lookup_singleton_eq|]. cbn [n_data n_next mj_size mn_size]. unfold sizeof_minor.
  rewrite (u32_small (Zpos a + 16 * PAGESZ)) by (unfold PAGESZ in *; lia).
  rewrite (u32_small (Zpos a + 16 * PAGESZ - Zpos (a + 24))), (u32_small (Zpos a + 16 * PAGESZ - Zpos (a + 24) - 24)),
    (u32_small (Zpos a + 16 * PAGESZ - Zpos (a + 24) - 24 - wrapped_size)), (u32_small (m + (16 + 16) + 24)) by (unfold PAGESZ; lia).
  rewrite bool_decide_true by (unfold PAGESZ; lia). apply wp_bind. unfold put_after, sizeof_minor. cbv zeta.
  rewrite (u32_small (Zpos (a + 24) + 24 + wrapped_size)) by (unfold PAGESZ in *; lia).
  set (k := Z.to_pos (Zpos (a + 24) + 24 + wrapped_size)). assert (Zpos (a + 24) + 24 + wrapped_size = Zpos k) as Hk by (unfold k; rewrite Z2Pos.id; lia).
  rewrite Hk, addr_Zpos by (unfold PAGESZ in *; lia). apply wp_bind, wp_modify, wp_bind, wp_ret, wp_bind, wp_upd.
  { cbn. rewrite lookup_insert_ne by (intros E; apply (f_equal Zpos) in E; lia). rewrite Hmn, map_filter_singleton_True, lookup_singleton_eq; [by eexists|].
    unfold outside, sizeof_minor. simpl fst. lia. }
  eapply wp_finish; [apply clobber_major; [cbn; exact Hmj|unfold outside, sizeof_minor; lia]|lia|unfold PAGESZ in *; lia|].
  intros u _ _ Hu _ _. apply wp_ret, wp_ret. unfold liballoc_unlock. apply wp_bind, wp_spin_unlock; [change (l_spinlock u = true); by rewrite Hu|]. apply wp_ret.
  do 2 f_equal. rewrite <- Hk. f_equal. lia.
Qed.
End wrap.

(** C37: a request close to 4 GiB wraps.  [size = req_size + 32] overflows: on a heap without blocks,
    whatever the page supply that has 16 pages for its first block, [malloc n] with [n] above [2 ^ 32 - 32] hands out a piece of
    less than 32 bytes, and the next request, of up to 32 KiB, gets bytes that lie inside
    the [n] bytes the first caller was promised. *)
Theorem malloc_wraps {W} `{!Pages W} (w w' : W) (a : loc) n m :
  page_alloc (16 * PAGESZ) w = Ok (Zpos a, w') → (16 | Zpos a) → Zpos a + 16 * PAGESZ < 2 ^ 32 →
  2 ^ 32 - 32 < n < 2 ^ 32 → 0 ≤ m ≤ 2 ^ 15 →
  ∃ p q s, (p ← malloc n; q ← malloc m; mret (p, q)) (heap_boot w) = Ok ((Some p, Some q), s) ∧
    Zpos p < Zpos q ∧ Zpos q + m < Zpos p + n.
Proof.
  intros Hpa Hal Hend Hn Hm. pose proof (malloc_first w w' a n Hpa Hal Hend Hn) as (r & t & Hr & -> & Ht)%wp_exec.
  pose proof (malloc_second w w' a n Hpa Hal Hend Hn m t Ht Hm) as (r & u & Hr2 & ->)%wp_exec. eexists _, _, u.
  unfold mbind, M_bind. rewrite Hr, Hr2. split; [done|]. pose proof (user_bounds (Zpos a + 48 + wrapped_size n)). unfold wrapped_size in *.
  rewrite Z2Pos.id by lia. lia.
Qed.

(** ** Concrete heaps *)

Lemma bump_boot : owned (0x10000 : Z) ∅.
Proof. split_and!; [lia|by exists 0x10|]. intros b z Hb. by rewrite lookup_empty in Hb. Qed.
Definition boot : kheap Z := heap_boot 0x10000.
Lemma boot_rep : heap_rep boot ∅.
Proof. exact (heap_boot_rep _ _ bump_boot). Qed.

Definition result {S A} (o : outcome (A * S)) : option A := match o with Ok (a, _) => Some a | _ => None end.
Lemma malloc_gives {W} `{!Pages W} (s : kheap W) H n p : heap_rep s H → 0 ≤ n < 2 ^ 31 - 32 → result (malloc n s) = Some (Some p) →
  ∃ t, malloc n s = Ok (Some p, t) ∧ heap_rep t (<[p := n]> H).
Proof.
  intros Hs Hn Hr. pose proof (heap_rep_malloc s H n Hs Hn) as (r & t & Hrun & _ & Ht)%wp_exec.
  rewrite Hrun in Hr |- *. injection Hr as ->. exists t. split; [done|apply Ht].
Qed.
Lemma one_alloc : ∃ s, malloc 100 boot = Ok (Some 0x10040%positive, s) ∧ heap_rep s (<[0x10040%positive := 100]> ∅).
Proof. apply malloc_gives; [exact boot_rep|lia|vm_compute; reflexivity]. Qed.
Definition sample : list heap_op := [Malloc 100; Calloc 4 25; Realloc (Some 0x10040%positive) 300; Realloc NULL 8; Free NULL].
Lemma heap_refines_witness : ∃ os1 os2 rs t H, sample = os1 ++ os2 ∧ heap_run boot ∅ os1 rs t H ∧ heap_rep t H ∧
  match os2 with [] => True | o :: _ => ¬ op_held H o ∨ op_starves H o t end.
Proof. apply (heap_refines 0x10000 ∅ sample bump_boot). repeat constructor; simpl; lia. Defined.
Lemma malloc_correct_witness : ∃ r t, malloc 100 boot = Ok (r, t) ∧ same_data ∅ boot t ∧
    match r with
    | Some p => fresh_at ∅ p 100 ∧ heap_rep t (<[p := 100]> ∅)
    | None => heap_rep t ∅ ∧ page_alloc (block_bytes 100) (supply boot) = Ok (0, supply t)
    end.
Proof. apply (malloc_correct boot ∅ 100 boot_rep). lia. Defined.
Lemma free_correct_witness : ∃ (s t : kheap Z), free (Some 0x10040%positive) s = Ok (tt, t) ∧ heap_rep t (delete 0x10040%positive (<[0x10040%positive := 100]> ∅)).
Proof.
  destruct one_alloc as (s & _ & Hs). destruct (free_correct s _ 0x10040%positive 100 Hs eq_refl) as (t & Ht & Hr & _). by exists s, t.
Defined.
Lemma realloc_correct_witness : ∃ s : kheap Z,
  realloc_spec (<[0x10040%positive := 100]> ∅) s 0x10040%positive 100 40 (realloc (Some 0x10040%positive) 40 s).
Proof.
  destruct one_alloc as (s & _ & Hs). exists s. exact (realloc_correct s _ 0x10040%positive 100 40 Hs eq_refl ltac:(lia)).
Defined.
Lemma calloc_correct_witness : calloc_spec ∅ boot 100 (calloc 4 25 boot).
Proof. exact (calloc_correct boot ∅ 4 25 boot_rep ltac:(lia)). Defined.
Lemma malloc_loop_terminates_witness : ∃ (s : kheap Z) b fuel r t, malloc_loop fuel true 0 (Some (b_at b)) (100 + 32) 100 s = Ok (r, t).
Proof.
  destruct one_alloc as (s & _ & [|b bl] & Hi & Hb & Hl); [by apply (f_equal (lookup 0x10040%positive)) in Hl|].
  eexists _, b, _. apply (malloc_loop_terminates _ (b :: bl) b true 0 100 (S (2 * length (b :: bl))) (inv_lock _ true _ _ Hi) Hb); [left|lia|lia].
Defined.
Lemma user_write_safe_witness : ∃ (s t : kheap Z), put_byte (Some 0x10050%positive) 7 s = Ok (tt, t) ∧ heap_rep t (<[0x10040%positive := 100]> ∅).
Proof.
  destruct one_alloc as (s & _ & Hs). destruct (user_write_safe s _ 0x10040%positive 0x10050%positive 100 7 Hs eq_refl ltac:(lia)) as (t & Ht & Hr & _). by exists s, t.
Defined.
Lemma malloc_wraps_witness : ∃ p q s, (p ← malloc (2 ^ 32 - 1); q ← malloc 100; mret (p, q)) boot = Ok ((Some p, Some q), s) ∧
    Zpos p < Zpos q ∧ Zpos q + 100 < Zpos p + (2 ^ 32 - 1).
Proof. apply (malloc_wraps 0x10000 0x20000 0x10000%positive); [reflexivity|by exists 0x1000|done|done|done]. Defined.
