(* ===== verification/Snprintf.v ===== *)
(** * Formatted output into a buffer: [lib/snprintf.c]

    The state is the memory the caller's buffer [s] starts: [mem !! i] is the byte that
    was stored at [s + i], whether that is inside the buffer or not.  The format and the
    [char *] arguments are C strings, given as their bytes without the terminator; the
    variable arguments are a list, and reading one of the wrong kind is a [Fault].
    Sizes are [size_t], so [n - ret] wraps. *)
From S2P Require Import Prelude.

Abbreviation mem := (gmap Z Z).

(** The bytes the code compares with. *)
Definition c_percent : Z := 37.
Definition c_0 : Z := 48.
Definition c_b : Z := 98.
Definition c_c : Z := 99.
Definition c_d : Z := 100.
Definition c_l : Z := 108.
Definition c_s : Z := 115.
Definition c_x : Z := 120.

(** What [va_arg] finds. *)
Inductive va : Type := VaInt (z : Z) | VaLong (z : Z) | VaStr (l : list Z).

Definition snputc (s n c : Z) : M mem Z :=
  if bool_decide (n ≠ 0) then modify (λ m, <[s := c]> m);; mret 1 else mret 0.

Fixpoint snputs (s n : Z) (str : list Z) : M mem Z :=
  match str with
  | [] => mret 0
  | c :: str' =>
      if bool_decide (0 < n) then modify (λ m, <[s := c]> m);; i ← snputs (s + 1) (n - 1) str'; mret (i + 1)
      else mret 0
  end.

(** [enc[val & 0xF]] *)
Definition hex_digit (d : Z) : Z := if bool_decide (d < 10) then 48 + d else 65 + (d - 10).

(** The loop [while(i)] of [snputx], [snputlx] and [snputb]: [i] digits of [bits] bits, filled from the right. *)
Fixpoint fill_digits (i : nat) (bits : Z) (enc : Z → Z) (val : Z) (buf : list Z) : list Z :=
  match i with
  | O => buf
  | S i' => fill_digits i' bits enc (Z.shiftr val bits) (enc (Z.land val (2 ^ bits - 1)) :: buf)
  end.

Definition snputx (s n val : Z) : M mem Z :=
  if bool_decide (n < 8) then mret n else snputs s 8 (fill_digits 8 4 hex_digit val []).
Definition snputlx (s n val : Z) : M mem Z :=
  if bool_decide (n < 16) then mret n else snputs s 16 (fill_digits 16 4 hex_digit val []).
Definition snputb (s n val : Z) : M mem Z :=
  if bool_decide (n < 8) then mret n else snputs s 8 (fill_digits 8 1 (λ b, 48 + b) val []).

(** The loop [while(val)] of [snputud] and [snputul]; [i] is the room left in the local buffer. *)
Fixpoint dec_digits (i : nat) (val : Z) (buf : list Z) : M mem (list Z) :=
  if bool_decide (val = 0) then mret buf else
  match i with
  | O => fault
  | S i' => dec_digits i' ((val - val mod 10) / 10) ((val mod 10 + 48) :: buf)
  end.

Definition snputud (s n val : Z) : M mem Z :=
  if bool_decide (val = 0) then snputc s 1 48 else
  buf ← dec_digits 10 val [];
  let len := Z.of_nat (length buf) in
  if bool_decide (n < len) then mret n else snputs s len buf.
Definition snputul (s n val : Z) : M mem Z :=
  buf ← dec_digits 20 val [];
  let len := Z.of_nat (length buf) in
  if bool_decide (n < len) then mret n else snputs s len buf.

(** [va_arg] of the three kinds. *)
Definition va_int {A} (args : list va) (k : Z → list va → M mem A) : M mem A :=
  match args with VaInt z :: args' => k z args' | _ => fault end.
Definition va_long {A} (args : list va) (k : Z → list va → M mem A) : M mem A :=
  match args with VaLong z :: args' => k z args' | _ => fault end.
Definition va_str {A} (args : list va) (k : list Z → list va → M mem A) : M mem A :=
  match args with VaStr l :: args' => k l args' | _ => fault end.

(** The loop over the format; [put] adds to [ret] what an output function returns. *)
Fixpoint vsnprintf_loop (n ret : Z) (fmt : list Z) (args : list va) : M mem Z :=
  let room := u32 (n - ret) in
  match fmt with
  | [] => mret ret
  | c :: fmt1 =>
      if bool_decide (c ≠ c_percent) then k ← snputc ret room c; vsnprintf_loop n (ret + k) fmt1 args else
      match fmt1 with
      | [] => k ← snputc ret room c; vsnprintf_loop n (ret + k) fmt1 args
      | d :: fmt2 =>
          if bool_decide (d = c_c) then
            va_int args (λ z args', k ← snputc ret room (z mod 2 ^ 8); vsnprintf_loop n (ret + k) fmt2 args')
          else if bool_decide (d = c_s) then
            va_str args (λ l args', k ← snputs ret room l; vsnprintf_loop n (ret + k) fmt2 args')
          else if bool_decide (d = c_d) then
            va_int args (λ z args', k ← snputud ret room (u32 z); vsnprintf_loop n (ret + k) fmt2 args')
          else if bool_decide (d = c_l) then
            match fmt2 with
            | [] => k ← snputc ret room c_l; vsnprintf_loop n (ret + k) fmt2 args
            | e :: fmt3 =>
                if bool_decide (e = c_x) then
                  va_long args (λ z args', k ← snputlx ret room (z mod 2 ^ 64); vsnprintf_loop n (ret + k) fmt3 args')
                else if bool_decide (e = c_d) then
                  va_long args (λ z args', k ← snputul ret room (z mod 2 ^ 64); vsnprintf_loop n (ret + k) fmt3 args')
                else k ← snputc ret room c_l; vsnprintf_loop n (ret + k) fmt2 args
            end
          else if bool_decide (d = c_b) then
            va_int args (λ z args', k ← snputb ret room (z mod 2 ^ 8); vsnprintf_loop n (ret + k) fmt2 args')
          else if bool_decide (d = c_x) then
            va_int args (λ z args', k ← snputx ret room (u32 z); vsnprintf_loop n (ret + k) fmt2 args')
          else k ← snputc ret room c; vsnprintf_loop n (ret + k) fmt1 args
      end
  end.

Definition vsnprintf (n : Z) (fmt : list Z) (args : list va) : M mem Z :=
  ret ← vsnprintf_loop n 0 fmt args;
  k ← snputc ret (u32 (n - ret)) 0;
  mret (ret + k).
Definition snprintf (n : Z) (fmt : list Z) (args : list va) : M mem Z := vsnprintf n fmt args.
