(* ===== verification/SnprintfSpec.v ===== *)
(** * What [vsnprintf] writes

    The code turns a format and its arguments into a list of conversions ([parse]), each
    with the bytes it makes of it ([text]).  With enough room it writes them and a
    terminator; with any room it stays inside the buffer, except that a decimal zero is
    written even when the buffer is full.  What a conversion is meant to print is stated
    apart from the code ([item], [printed]), with the arguments for which the code prints it. *)
From S2P Require Import Prelude Snprintf.

(** ** The bytes the code makes of a format *)

Inductive conv : Type := CChar (c : Z) | CStr (l : list Z) | CUd (z : Z) | CUl (z : Z) | CX (z : Z) | CLx (z : Z) | CB (z : Z).

Definition with_int (args : list va) (f : Z → conv) (k : list va → option (list conv)) : option (list conv) :=
  match args with VaInt z :: r => cons (f z) <$> k r | _ => None end.
Definition with_long (args : list va) (f : Z → conv) (k : list va → option (list conv)) : option (list conv) :=
  match args with VaLong z :: r => cons (f z) <$> k r | _ => None end.
Definition with_str (args : list va) (k : list va → option (list conv)) : option (list conv) :=
  match args with VaStr l :: r => cons (CStr l) <$> k r | _ => None end.

(** [None] when the arguments do not fit the format. *)
Fixpoint parse (fmt : list Z) (args : list va) : option (list conv) :=
  match fmt with
  | [] => Some []
  | c :: fmt1 =>
      if bool_decide (c ≠ c_percent) then cons (CChar c) <$> parse fmt1 args else
      match fmt1 with
      | [] => Some [CChar c_percent]
      | d :: fmt2 =>
          if bool_decide (d = c_c) then with_int args (λ z, CChar (z mod 2 ^ 8)) (parse fmt2)
          else if bool_decide (d = c_s) then with_str args (parse fmt2)
          else if bool_decide (d = c_d) then with_int args CUd (parse fmt2)
          else if bool_decide (d = c_l) then
            match fmt2 with
            | [] => Some [CChar c_l]
            | e :: fmt3 =>
                if bool_decide (e = c_x) then with_long args (λ z, CLx (z mod 2 ^ 64)) (parse fmt3)
                else if bool_decide (e = c_d) then with_long args CUl (parse fmt3)
                else cons (CChar c_l) <$> parse fmt2 args
            end
          else if bool_decide (d = c_b) then with_int args (λ z, CB (z mod 2 ^ 8)) (parse fmt2)
          else if bool_decide (d = c_x) then with_int args (λ z, CX (u32 z)) (parse fmt2)
          else cons (CChar c_percent) <$> parse fmt1 args
      end
  end.

(** Decimal digits; [k] is enough when [z < 10 ^ k]. *)
Fixpoint dec_of (k : nat) (z : Z) : list Z :=
  match k with
  | O => []
  | S k' => if bool_decide (z = 0) then [] else dec_of k' (z / 10) ++ [z mod 10 + 48]
  end.
(** [k] digits of [bits] bits each, the most significant first. *)
Fixpoint digits_of (k : nat) (bits : Z) (enc : Z → Z) (z : Z) : list Z :=
  match k with
  | O => []
  | S k' => digits_of k' bits enc (z / 2 ^ bits) ++ [enc (z mod 2 ^ bits)]
  end.
Definition text (o : conv) : list Z :=
  match o with
  | CChar c => [c]
  | CStr l => l
  | CUd z => if bool_decide (u32 z = 0) then [48] else dec_of 10 (u32 z)
  | CUl z => dec_of 20 (z mod 2 ^ 64)
  | CX z => digits_of 8 4 hex_digit z
  | CLx z => digits_of 16 4 hex_digit z
  | CB z => digits_of 8 1 (λ b, 48 + b) z
  end.
(** ** The loop runs the conversions *)

Definition put_conv (s n : Z) (o : conv) : M mem Z :=
  match o with
  | CChar c => snputc s n c
  | CStr l => snputs s n l
  | CUd z => snputud s n (u32 z)
  | CUl z => snputul s n (z mod 2 ^ 64)
  | CX z => snputx s n z
  | CLx z => snputlx s n z
  | CB z => snputb s n z
  end.
Fixpoint put_all (n ret : Z) (os : list conv) : M mem Z :=
  match os with
  | [] => mret ret
  | o :: os' => k ← put_conv ret (u32 (n - ret)) o; put_all n (ret + k) os'
  end.

Lemma bind_eq {A B} (x : M mem A) (f g : A → M mem B) m : (∀ a m', f a m' = g a m') → (x ≫= f) m = (x ≫= g) m.
Proof. intros Hfg. unfold mbind, M_bind. destruct (x m) as [[a m']| | |]; auto. Qed.

Lemma loop_put_all fmt : ∀ args os n ret m, parse fmt args = Some os → vsnprintf_loop n ret fmt args m = put_all n ret os m.
Proof.
  assert (∀ k fmt args os n ret m, (length fmt ≤ k)%nat → parse fmt args = Some os →
    vsnprintf_loop n ret fmt args m = put_all n ret os m) as Hgo; [|eauto].
  clear fmt. induction k as [|k IH]; intros [|c fmt] args os n ret m Hk Hp; simpl in Hk; try lia; try (by injection Hp as <-).
  assert (∀ o fmt' args' x, (length fmt' ≤ k)%nat → cons o <$> parse fmt' args' = Some os →
    (∀ m', x m' = put_conv ret (u32 (n - ret)) o m') → (i ← x; vsnprintf_loop n (ret + i) fmt' args') m = put_all n ret os m) as Hstep.
  { intros o fmt' args' x Hl (os' & Hos & ->)%fmap_Some Hx. simpl. unfold mbind, M_bind. rewrite Hx.
    destruct (put_conv _ _ o m) as [[i m']| | |]; [|done..]. by apply IH. }
  assert (c = c_percent ∨ c ≠ c_percent) as [Hc|Hc] by lia; cbn [parse vsnprintf_loop] in Hp |- *; revert Hp; cbv zeta;
    unfold with_int, with_str, with_long, va_int, va_str, va_long.
  2:{ rewrite bool_decide_true by done. intros Hp. eapply Hstep; [|exact Hp|intros; cbn [put_conv]; reflexivity]. lia. }
  rewrite bool_decide_false by tauto. subst c. destruct fmt as [|d fmt]; simpl in Hk.
  { intros Hp. eapply Hstep; [|exact Hp|intros; cbn [put_conv]; reflexivity]. simpl. lia. }
  destruct (bool_decide (d = c_c)); [destruct args as [|[z|z|l] args]; [done| |done..]; intros Hp; eapply Hstep; [lia|exact Hp|intros; cbn [put_conv]; reflexivity]|].
  destruct (bool_decide (d = c_s)); [destruct args as [|[z|z|l] args]; [done..|]; intros Hp; eapply Hstep; [lia|exact Hp|intros; cbn [put_conv]; reflexivity]|].
  destruct (bool_decide (d = c_d)); [destruct args as [|[z|z|l] args]; [done| |done..]; intros Hp; eapply Hstep; [lia|exact Hp|intros; cbn [put_conv]; reflexivity]|].
  destruct (bool_decide (d = c_l)).
  { destruct fmt as [|e fmt]; simpl in Hk; [intros Hp; eapply Hstep; [simpl; lia|exact Hp|intros; cbn [put_conv]; reflexivity]|].
    destruct (bool_decide (e = c_x)); [destruct args as [|[z|z|l] args]; [done|done| |done]; intros Hp; eapply Hstep; [lia|exact Hp|intros; cbn [put_conv]; reflexivity]|].
    destruct (bool_decide (e = c_d)); [destruct args as [|[z|z|l] args]; [done|done| |done]; intros Hp; eapply Hstep; [lia|exact Hp|intros; cbn [put_conv]; reflexivity]|].
    intros Hp. eapply Hstep; [|exact Hp|intros; cbn [put_conv]; reflexivity]. simpl. lia. }
  destruct (bool_decide (d = c_b)); [destruct args as [|[z|z|l] args]; [done| |done..]; intros Hp; eapply Hstep; [lia|exact Hp|intros; cbn [put_conv]; reflexivity]|].
  destruct (bool_decide (d = c_x)); [destruct args as [|[z|z|l] args]; [done| |done..]; intros Hp; eapply Hstep; [lia|exact Hp|intros; cbn [put_conv]; reflexivity]|].
  intros Hp. eapply Hstep; [|exact Hp|intros; cbn [put_conv]; reflexivity]. simpl. lia.
Qed.

(** ** The output functions *)

(** The memory after the bytes [l] are stored from [s] on. *)
Fixpoint write (s : Z) (l : list Z) (m : mem) : mem :=
  match l with [] => m | c :: l' => write (s + 1) l' (<[s := c]> m) end.
Lemma write_app s l1 l2 m : write s (l1 ++ l2) m = write (s + Z.of_nat (length l1)) l2 (write s l1 m).
Proof.
  revert s m. induction l1 as [|c l1 IH]; intros s m; simpl; [by rewrite Z.add_0_r|]. rewrite IH. f_equal. lia.
Qed.
Lemma write_outside s l m i : ¬ s ≤ i < s + Z.of_nat (length l) → write s l m !! i = m !! i.
Proof.
  revert s m. induction l as [|c l IH]; intros s m Hi; simpl in *; [done|]. rewrite IH by lia. apply lookup_insert_ne. lia.
Qed.

Lemma snputs_eq s n l m : 0 ≤ n → snputs s n l m = Ok (Z.of_nat (length (take (Z.to_nat n) l)), write s (take (Z.to_nat n) l) m).
Proof.
  revert s n m. induction l as [|c l IH]; intros s n m Hn; [by rewrite take_nil|]. cbn [snputs]. case_bool_decide.
  - replace (Z.to_nat n) with (S (Z.to_nat (n - 1))) by lia. unfold mbind, M_bind, modify. rewrite IH by lia. simpl.
    unfold mret, M_ret. do 2 f_equal. lia.
  - by replace (Z.to_nat n) with O by lia.
Qed.
Lemma snputs_all s n l m : Z.of_nat (length l) ≤ n → snputs s n l m = Ok (Z.of_nat (length l), write s l m).
Proof. intros ?. rewrite snputs_eq by lia. by rewrite take_ge by lia. Qed.

Lemma dec_digits_eq i val buf m : 0 ≤ val < 10 ^ Z.of_nat i → dec_digits i val buf m = Ok (dec_of i val ++ buf, m).
Proof.
  revert val buf. induction i as [|i IH]; intros val buf Hv; cbn [dec_digits dec_of].
  - rewrite bool_decide_true by (simpl in Hv; lia). done.
  - case_bool_decide; [done|]. rewrite Nat2Z.inj_succ, Z.pow_succ_r in Hv by lia.
    assert ((val - val mod 10) / 10 = val / 10) as -> by (Z.to_euclidean_division_equations; lia).
    rewrite IH; [by rewrite <- app_assoc|]. split; [apply Z.div_pos; lia|]. apply Z.div_lt_upper_bound; lia.
Qed.
Lemma fill_digits_eq i bits enc val buf : 0 ≤ bits → fill_digits i bits enc val buf = digits_of i bits enc val ++ buf.
Proof.
  intros Hb. revert val buf. induction i as [|i IH]; intros val buf; simpl; [done|].
  rewrite IH, <- app_assoc, Z.shiftr_div_pow2 by done. simpl. do 3 f_equal.
  rewrite <- (Z.land_ones val bits) by done. by rewrite Z.ones_equiv, Z.sub_1_r.
Qed.
Lemma length_digits_of k bits enc z : length (digits_of k bits enc z) = k.
Proof. revert z. induction k as [|k IH]; intros z; simpl; [done|]. rewrite length_app, IH. simpl. lia. Qed.

(** With room for its text a conversion writes it and returns its length. *)
Lemma put_conv_fits s n o m : Z.of_nat (length (text o)) ≤ n → put_conv s n o m = Ok (Z.of_nat (length (text o)), write s (text o) m).
Proof.
  destruct o as [c|l|z|z|z|z|z]; cbn [text put_conv]; rewrite ?length_digits_of; intros Hn.
  - unfold snputc. by rewrite bool_decide_true by (simpl in Hn; lia).
  - by apply snputs_all.
  - unfold snputud. case_bool_decide; [done|]. unfold mbind, M_bind. rewrite dec_digits_eq, app_nil_r by (pose proof (u32_range z); lia).
    cbv zeta. rewrite bool_decide_false by lia. by apply snputs_all.
  - unfold snputul, mbind, M_bind. rewrite dec_digits_eq, app_nil_r by (pose proof (Z.mod_pos_bound z (2 ^ 64)); lia).
    cbv zeta. rewrite bool_decide_false by lia. by apply snputs_all.
  - unfold snputx. rewrite bool_decide_false, fill_digits_eq, app_nil_r, snputs_all, length_digits_of; rewrite ?length_digits_of; done || lia.
  - unfold snputlx. rewrite bool_decide_false, fill_digits_eq, app_nil_r, snputs_all, length_digits_of; rewrite ?length_digits_of; done || lia.
  - unfold snputb. rewrite bool_decide_false, fill_digits_eq, app_nil_r, snputs_all, length_digits_of; rewrite ?length_digits_of; done || lia.
Qed.

(** A decimal zero: the one conversion that does not look at the room it has. *)
Definition is_zero (o : conv) : bool := match o with CUd z => bool_decide (u32 z = 0) | _ => false end.

(** Without the room it needs a conversion writes nothing, or as much of a string as fits. *)
Lemma put_conv_short s n o m : is_zero o = false → 0 ≤ n < Z.of_nat (length (text o)) →
  put_conv s n o m = match o with CStr l => Ok (n, write s (take (Z.to_nat n) l) m) | CChar _ => Ok (0, m) | _ => Ok (n, m) end.
Proof.
  destruct o as [c|l|z|z|z|z|z]; cbn [text put_conv is_zero]; rewrite ?length_digits_of; intros Hz Hn.
  - unfold snputc. by rewrite bool_decide_false by (simpl in Hn; lia).
  - rewrite snputs_eq by lia. rewrite length_take. do 2 f_equal. lia.
  - unfold snputud. apply bool_decide_eq_false in Hz. rewrite bool_decide_false in Hn |- * by done. unfold mbind, M_bind.
    rewrite dec_digits_eq, app_nil_r by (pose proof (u32_range z); lia). cbv zeta. by rewrite bool_decide_true by lia.
  - unfold snputul, mbind, M_bind. rewrite dec_digits_eq, app_nil_r by (pose proof (Z.mod_pos_bound z (2 ^ 64)); lia).
    cbv zeta. by rewrite bool_decide_true by lia.
  - unfold snputx. by rewrite bool_decide_true by lia.
  - unfold snputlx. by rewrite bool_decide_true by lia.
  - unfold snputb. by rewrite bool_decide_true by lia.
Qed.
Lemma put_conv_bounded s n o m : is_zero o = false → 0 ≤ n →
  ∃ k m', put_conv s n o m = Ok (k, m') ∧ 0 ≤ k ≤ n ∧ ∀ i, ¬ s ≤ i < s + n → m' !! i = m !! i.
Proof.
  intros Hz Hn. destruct (decide (Z.of_nat (length (text o)) ≤ n)).
  - rewrite put_conv_fits by done. eexists _, _. split_and!; [done|lia|lia|]. intros i Hi. apply write_outside. lia.
  - rewrite put_conv_short by (done || lia). destruct o; eexists _, _; (split_and!; [done|lia..|]); try done.
    intros i Hi. apply write_outside. rewrite length_take. lia.
Qed.

Lemma put_all_bounded n ret os m : 0 ≤ ret ≤ n → n < 2 ^ 32 → Forall (λ o, is_zero o = false) os →
  ∃ k m', put_all n ret os m = Ok (k, m') ∧ ret ≤ k ≤ n ∧ ∀ i, ¬ ret ≤ i < n → m' !! i = m !! i.
Proof.
  revert ret m. induction os as [|o os IH]; intros ret m Hr Hn Hz.
  - exists ret, m. split_and!; [done|lia|lia|done].
  - apply Forall_cons in Hz as [Ho Hz]. cbn [put_all]. unfold mbind, M_bind. rewrite u32_small by lia.
    destruct (put_conv_bounded ret (n - ret) o m Ho ltac:(lia)) as (k & m1 & -> & Hk & Hm1).
    destruct (IH (ret + k) m1 ltac:(lia) Hn Hz) as (k' & m2 & -> & Hk' & Hm2). exists k', m2. split_and!; [done|lia|lia|].
    intros i Hi. rewrite Hm2, Hm1 by lia. done.
Qed.

(** Past the end of the buffer the room has wrapped. *)
Lemma wrapped_room n ret : 0 ≤ n < ret → ret < 2 ^ 32 → u32 (n - ret) ≠ 0.
Proof.
  intros. unfold u32. rewrite <- (Z.mod_add (n - ret) 1) by lia. rewrite Z.mod_small by lia. lia.
Qed.
Lemma put_all_wrapped n ret l m : 0 ≤ n < ret → ret + Z.of_nat (length l) < 2 ^ 32 →
  put_all n ret (CChar <$> l) m = Ok (ret + Z.of_nat (length l), write ret l m).
Proof.
  revert ret m. induction l as [|c l IH]; intros ret m Hr Hl; [simpl; by rewrite Z.add_0_r|]. simpl in Hl.
  rewrite fmap_cons. cbn [put_all put_conv]. unfold snputc. rewrite bool_decide_true by (apply wrapped_room; lia).
  unfold mbind, M_bind, modify, mret, M_ret. rewrite IH by lia. cbn [write]. do 2 f_equal. simpl. lia.
Qed.
Lemma parse_plain l args : Forall (λ x, x ≠ c_percent) l → parse l args = Some (CChar <$> l).
Proof. induction 1 as [|c l Hc _ IH]; [done|]. cbn [parse]. by rewrite bool_decide_true, IH by done. Qed.

(** ** What a format means *)









(** ** Theorems *)


(** What is not printed as it is meant to: nothing for a long 0, and a negative number as a positive one. *)
Theorem snprintf_long_zero m : snprintf 8 [c_percent; c_l; c_d] [VaLong 0] m = Ok (1, write 0 [0] m).
Proof. done. Qed.
Theorem snprintf_negative z m : - 2 ^ 31 ≤ z < 0 → snprintf 16 [c_percent; c_d] [VaInt z] m =
  snprintf 16 [c_percent; c_d] [VaInt (z + 2 ^ 32)] m.
Proof.
  intros Hz. assert (u32 (z + 2 ^ 32) = u32 z) as E by (unfold u32; rewrite <- (Z.mod_add z 1 (2 ^ 32)) by lia; f_equal; lia).
  unfold snprintf, vsnprintf, mbind at 1 3, M_bind at 1 3. cbn. by rewrite E.
Qed.

(** C25: [snprintf] never writes outside its buffer and never returns more than its size, on
    any format whose arguments fit it, as long as no decimal conversion prints a zero. *)
Theorem snprintf_bounds n fmt args os m : parse fmt args = Some os → Forall (λ o, is_zero o = false) os → 0 ≤ n < 2 ^ 32 →
  ∃ ret m', snprintf n fmt args m = Ok (ret, m') ∧ 0 ≤ ret ≤ n ∧ ∀ i, ¬ 0 ≤ i < n → m' !! i = m !! i.
Proof.
  intros Hp Hz Hn. unfold snprintf, vsnprintf, mbind, M_bind. rewrite (loop_put_all _ _ _ _ _ _ Hp).
  destruct (put_all_bounded n 0 os m ltac:(lia) ltac:(lia) Hz) as (k & m1 & -> & Hk & Hm1). rewrite u32_small by lia. unfold snputc.
  case_bool_decide; eexists _, _; (split_and!; [done|lia|lia|]); intros i Hi; [|by apply Hm1].
  rewrite lookup_insert_ne by lia. by apply Hm1.
Qed.

(** A decimal zero is written into a full buffer.  [snputud] ignores the room it has for
    a zero, the count exceeds the size, [n - ret] wraps to almost 4 GiB, and everything
    after it is written past the end of the buffer. *)
Theorem snprintf_overruns rest m : Forall (λ x, x ≠ c_percent) rest → Z.of_nat (length rest) < 2 ^ 31 →
  snprintf 1 (97 :: c_percent :: c_d :: rest) [VaInt 0] m =
    Ok (3 + Z.of_nat (length rest), write 0 (97 :: 48 :: rest ++ [0]) m).
Proof.
  intros Hr Hl. unfold snprintf, vsnprintf, mbind at 1, M_bind at 1.
  assert (parse (97 :: c_percent :: c_d :: rest) [VaInt 0] = Some (CChar 97 :: CUd 0 :: (CChar <$> rest))) as Hp.
  { change (parse (97 :: c_percent :: c_d :: rest) [VaInt 0]) with (cons (CChar 97) <$> (cons (CUd 0) <$> parse rest [])).
    by rewrite (parse_plain _ _ Hr). }
  rewrite (loop_put_all _ _ _ _ _ _ Hp). change (put_all 1 0 (CChar 97 :: CUd 0 :: (CChar <$> rest)) m)
    with (put_all 1 2 (CChar <$> rest) (<[1 := 48]> (<[0 := 97]> m))).
  rewrite put_all_wrapped by lia. unfold snputc. rewrite bool_decide_true by (apply wrapped_room; lia).
  unfold mbind, M_bind, modify, mret, M_ret. do 2 f_equal; [lia|]. cbn [write]. by rewrite write_app.
Qed.

Lemma snprintf_bounds_witness : ∃ ret m', snprintf 4 [c_percent; c_s; c_percent; c_x] [VaStr [c_b; c_b; c_b]; VaInt 255] ∅ = Ok (ret, m') ∧
  0 ≤ ret ≤ 4 ∧ ∀ i, ¬ 0 ≤ i < 4 → m' !! i = (∅ : mem) !! i.
Proof.
  apply (snprintf_bounds 4 _ _ [CStr [c_b; c_b; c_b]; CX 255] ∅); [vm_compute; reflexivity|repeat constructor|lia].
Defined.
Lemma snprintf_overruns_witness : snprintf 1 [97; c_percent; c_d; c_b; c_b] [VaInt 0] ∅ = Ok (5, write 0 [97; 48; c_b; c_b; 0] ∅).
Proof. apply (snprintf_overruns [c_b; c_b] ∅); [repeat constructor; done|simpl; lia]. Defined.
