(* ===== verification/Jobs.v ===== *)
(** * Processes, process groups and sessions ([kernel/sys/session.c], [kernel/sys/proc.c], [kernel/sys/sysproc.c])

    The table of processes, the process groups and the sessions, and the system calls
    that move a process between them.  A queue is the list of its items, as [Queue]
    implements it.  The spinlocks this CPU holds are a set; the lock of an object that
    is freed goes with the object.  Each call that allocates a name, a lock, a queue or
    the node of a queue takes one answer of [room], the others succeed.  Groups and
    sessions themselves come from [kmalloc].  [proc] of the code is [cur]. *)
From S2P Require Import Prelude.

(** ** Data *)

Inductive pstate : Type := EMBRYO | SLEEPING | RUNNING | ZOMBIE | STOPPED | TERMINATED | CONTINUED.
#[global] Instance pstate_eq_dec : EqDecision pstate.
Proof. solve_decision. Defined.

Record proc_t : Type := {
  p_pid : Z;
  p_parent : ptr;
  p_pgroup : ptr;
  p_session : ptr;
  p_flags : Z;
  p_state : pstate;
  p_exit : Z;
  p_exit_status : Z;
  p_children : list loc;
  p_uid : Z;
  p_gid : Z;
  p_actions : list Z; (* sig_action[].sa_handler *)
  p_sigs : list Z; (* sig_queue *)
}.

Record pgroup_t : Type := {
  pg_id : Z;
  pg_leader : loc;
  pg_procs : list loc;
  pg_refs : Z;
  pg_sessoin : ptr;
}.

Record session_t : Type := {
  ss_sid : Z;
  ss_leader : loc;
  ss_pgroups : list loc;
  ss_refs : Z;
}.

(** The locks: of a process, its queue of children, its file table, its signals and
    their queue; of a group and its queue; of a session and its queue; of the two
    global queues and of the counter of process ids. *)
Inductive lk : Type :=
| LProc (p : loc) | LChildren (p : loc) | LTable (p : loc) | LSig (p : loc) | LSigq (p : loc)
| LGroup (g : loc) | LProcs (g : loc)
| LSession (x : loc) | LGroups (x : loc)
| LSessions | LProcesses | LPids.
#[global] Instance lk_eq_dec : EqDecision lk.
Proof. solve_decision. Defined.
#[global] Instance lk_countable : Countable lk.
Proof.
  apply (inj_countable'
    (λ l, match l with
          | LProc p => (0, p) | LChildren p => (1, p) | LTable p => (2, p) | LSig p => (3, p) | LSigq p => (4, p)
          | LGroup p => (5, p) | LProcs p => (6, p) | LSession p => (7, p) | LGroups p => (8, p)
          | LSessions => (9, 1%positive) | LProcesses => (10, 1%positive) | LPids => (11, 1%positive)
          end)
    (λ x, match x.1 with
          | 0 => LProc x.2 | 1 => LChildren x.2 | 2 => LTable x.2 | 3 => LSig x.2 | 4 => LSigq x.2
          | 5 => LGroup x.2 | 6 => LProcs x.2 | 7 => LSession x.2 | 8 => LGroups x.2
          | 9 => LSessions | 10 => LProcesses | _ => LPids
          end)); by intros [].
Defined.

Record jobs : Type := {
  procs : gmap loc proc_t;
  pgroups : gmap loc pgroup_t;
  sess : gmap loc session_t;
  sessions : list loc;
  processes : list loc;
  initproc : ptr;
  pids : Z;
  cur : loc;
  locks : gset lk;
  room : list bool;
}.

#[global] Program Instance procs_heap : Heap jobs proc_t :=
  {| heap_of := procs; put_heap h s := {| (s) with procs := h |} |}.
Solve Obligations with by intros; try match goal with s : jobs |- _ => destruct s end.
#[global] Program Instance pgroups_heap : Heap jobs pgroup_t :=
  {| heap_of := pgroups; put_heap h s := {| (s) with pgroups := h |} |}.
Solve Obligations with by intros; try match goal with s : jobs |- _ => destruct s end.
#[global] Program Instance sess_heap : Heap jobs session_t :=
  {| heap_of := sess; put_heap h s := {| (s) with sess := h |} |}.
Solve Obligations with by intros; try match goal with s : jobs |- _ => destruct s end.

Definition EPERM : Z := 1.
Definition ECHILD : Z := 10.
Definition PROC_KILLED : Z := 0x01.
Definition PROC_EXECED : Z := 0x02.
Definition PROC_ORPHANED : Z := 0x04.

(** ** Locks, allocations, queues *)

Definition spin_holding (l : lk) : M jobs bool := gets (λ s, bool_decide (l ∈ locks s)).
Definition acquire (l : lk) : M jobs unit :=
  h ← spin_holding l;
  if (h : bool) then panic else modify (λ s, {| (s) with locks := {[l]} ∪ locks s |}).
Definition release (l : lk) : M jobs unit :=
  h ← spin_holding l;
  if (h : bool) then modify (λ s, {| (s) with locks := locks s ∖ {[l]} |}) else panic.
Definition assert_held (l : lk) : M jobs unit :=
  h ← spin_holding l; if (h : bool) then mret tt else panic.

(** [assert(p); spin_lock(p->lock)] and the like, for the lock [k] of an object. *)
Definition obj_lock (V : Type) `{!Heap jobs V} (k : loc → lk) (p : ptr) : M jobs unit :=
  match p with Some l => _ ← rd (V := V) p; acquire (k l) | None => panic end.
Definition obj_unlock (V : Type) `{!Heap jobs V} (k : loc → lk) (p : ptr) : M jobs unit :=
  match p with Some l => _ ← rd (V := V) p; release (k l) | None => panic end.
Definition obj_assert_lock (V : Type) `{!Heap jobs V} (k : loc → lk) (p : ptr) : M jobs unit :=
  match p with Some l => _ ← rd (V := V) p; assert_held (k l) | None => panic end.

Definition proc_lock : ptr → M jobs unit := obj_lock proc_t LProc.
Definition proc_unlock : ptr → M jobs unit := obj_unlock proc_t LProc.
Definition proc_assert_lock : ptr → M jobs unit := obj_assert_lock proc_t LProc.
Definition pgroup_lock : ptr → M jobs unit := obj_lock pgroup_t LGroup.
Definition pgroup_unlock : ptr → M jobs unit := obj_unlock pgroup_t LGroup.
Definition pgroup_assert_lock : ptr → M jobs unit := obj_assert_lock pgroup_t LGroup.
Definition session_lock : ptr → M jobs unit := obj_lock session_t LSession.
Definition session_unlock : ptr → M jobs unit := obj_unlock session_t LSession.
Definition session_assert_lock : ptr → M jobs unit := obj_assert_lock session_t LSession.

(** [queue_lock] and [queue_unlock] of [pg_procs] and [ss_pgroups]. *)
Definition lock_procs : ptr → M jobs unit := obj_lock pgroup_t LProcs.
Definition unlock_procs : ptr → M jobs unit := obj_unlock pgroup_t LProcs.
Definition lock_groups : ptr → M jobs unit := obj_lock session_t LGroups.
Definition unlock_groups : ptr → M jobs unit := obj_unlock session_t LGroups.

(** An allocation: of a name, a lock, a queue, a node. *)
Definition has_room : M jobs bool := λ s,
  match room s with
  | [] => Ok (true, s)
  | b :: r => Ok (b, {| (s) with room := r |})
  end.

(** The locks that go with an object that is freed. *)
Definition drop_locks (ls : list lk) : M jobs unit :=
  modify (λ s, {| (s) with locks := locks s ∖ list_to_set ls |}).

(** The list of a queue after [queue_remove]. *)
Fixpoint remove1 (x : loc) (l : list loc) : list loc :=
  match l with
  | [] => []
  | y :: l => if bool_decide (x = y) then l else y :: remove1 x l
  end.

Definition not_zero (z : Z) : bool := negb (z =? 0).

Section jobs.
Context `{!Kalloc pgroup_t, !Kalloc session_t}.

Definition me : M jobs ptr := gets (λ s, Some (cur s)).

(** ** Process groups *)

Definition pgroup_free (pgroup : ptr) : M jobs Z :=
  lock_procs pgroup;;
  G ← rd pgroup;
  kassert (0 <=? pg_refs G);;
  kfree (V := pgroup_t) pgroup;;
  match pgroup with Some g => drop_locks [LGroup g; LProcs g] | None => mret tt end;;
  mret 0.

Definition pgroup_contains (pgroup p : ptr) : M jobs bool :=
  match p with
  | None => panic
  | Some l =>
      pgroup_assert_lock pgroup;;
      lock_procs pgroup;;
      G ← rd pgroup;
      unlock_procs pgroup;;
      mret (bool_decide (l ∈ pg_procs G))
  end.

Definition pgroup_add (pgroup p : ptr) : M jobs Z :=
  proc_assert_lock p;;
  pgroup_assert_lock pgroup;;
  c ← pgroup_contains pgroup p;
  if (c : bool) then mret (- EEXIST) else
  lock_procs pgroup;;
  ok ← has_room;
  if negb ok then unlock_procs pgroup;; mret (- ENOMEM) else
  match p with
  | Some l => upd pgroup (λ G, {| (G) with pg_procs := pg_procs G ++ [l] |})
  | None => panic
  end;;
  unlock_procs pgroup;;
  upd p (λ P, {| (P) with p_pgroup := pgroup |});;
  mret 0.

Definition pgroup_create (leader : ptr) : M jobs (Z * ptr) :=
  proc_assert_lock leader;;
  P ← rd leader;
  n ← has_room;
  if negb n then mret (- ENOMEM, NULL) else
  l ← has_room;
  if negb l then mret (- ENOMEM, NULL) else
  q ← has_room;
  if negb q then mret (- ENOMEM, NULL) else
  pgroup ← kmalloc {| pg_id := p_pid P; pg_leader := default 1%positive leader; pg_procs := [];
                      pg_refs := 1; pg_sessoin := NULL |};
  match pgroup with
  | None => mret (- ENOMEM, NULL)
  | Some _ =>
      pgroup_lock pgroup;;
      err ← pgroup_add pgroup leader;
      pgroup_unlock pgroup;;
      if not_zero err then kfree (V := pgroup_t) pgroup;; mret (err, NULL)
      else mret (0, pgroup)
  end.

Fixpoint pgroup_lookup_loop (pid : Z) (l : list loc) : M jobs ptr :=
  match l with
  | [] => mret NULL
  | p :: l =>
      proc_lock (Some p);;
      P ← rd (Some p);
      proc_unlock (Some p);;
      if p_pid P =? pid then mret (Some p) else pgroup_lookup_loop pid l
  end.

Definition pgroup_lookup (pgroup : ptr) (pid : Z) : M jobs (Z * ptr) :=
  pgroup_assert_lock pgroup;;
  lock_procs pgroup;;
  G ← rd pgroup;
  p ← pgroup_lookup_loop pid (pg_procs G);
  unlock_procs pgroup;;
  mret (match p with Some _ => (0, p) | None => (- ENOENT, NULL) end).

Definition pgroup_remove (pgroup p : ptr) : M jobs Z :=
  proc_assert_lock p;;
  pgroup_assert_lock pgroup;;
  c ← pgroup_contains pgroup p;
  if negb c then mret (- ENOENT) else
  lock_procs pgroup;;
  match p with
  | Some l => upd pgroup (λ G, {| (G) with pg_procs := remove1 l (pg_procs G) |})
  | None => panic
  end;;
  unlock_procs pgroup;;
  upd p (λ P, {| (P) with p_pgroup := NULL |});;
  mret 0.

Definition pgroup_leave (pgroup : ptr) : M jobs Z :=
  pgroup_lock pgroup;;
  p ← me;
  err ← pgroup_remove pgroup p;
  pgroup_unlock pgroup;;
  mret err.

Definition ispgroup_leader (pgroup : ptr) (p : loc) : M jobs bool :=
  pgroup_assert_lock pgroup;;
  G ← rd pgroup;
  mret (bool_decide (pg_leader G = p)).

(** ** Sessions *)

Definition session_free (session : ptr) : M jobs Z :=
  match session with
  | None => panic
  | Some x =>
      acquire LSessions;;
      modify (λ s, {| (s) with sessions := remove1 x (sessions s) |});;
      release LSessions;;
      lock_groups session;;
      X ← rd session;
      kassert (0 <=? ss_refs X);;
      kfree (V := session_t) session;;
      drop_locks [LSession x; LGroups x];;
      mret 0
  end.

Definition session_contains (session pgroup : ptr) : M jobs bool :=
  session_assert_lock session;;
  match pgroup with
  | None => panic
  | Some g =>
      lock_groups session;;
      X ← rd session;
      unlock_groups session;;
      mret (bool_decide (g ∈ ss_pgroups X))
  end.

Definition session_add (session pgroup : ptr) : M jobs Z :=
  session_assert_lock session;;
  pgroup_assert_lock pgroup;;
  c ← session_contains session pgroup;
  if (c : bool) then mret (- EEXIST) else
  lock_groups session;;
  ok ← has_room;
  if negb ok then unlock_groups session;; mret (- ENOMEM) else
  match pgroup with
  | Some g => upd session (λ X, {| (X) with ss_pgroups := ss_pgroups X ++ [g] |})
  | None => panic
  end;;
  unlock_groups session;;
  upd pgroup (λ G, {| (G) with pg_sessoin := session |});;
  upd pgroup (λ G, {| (G) with pg_refs := pg_refs G + 1 |});;
  mret 0.

Definition session_create_pgroup (session leader : ptr) : M jobs (Z * ptr) :=
  session_assert_lock session;;
  proc_assert_lock leader;;
  '(err, pgroup) ← pgroup_create leader;
  if not_zero err then mret (err, NULL) else
  pgroup_lock pgroup;;
  err ← session_add session pgroup;
  pgroup_unlock pgroup;;
  if not_zero err then pgroup_free pgroup;; mret (err, NULL) else
  upd leader (λ P, {| (P) with p_session := session |});;
  mret (0, pgroup).

(** The reference is stored before the session is put on the list of sessions: [ref]
    says whether it is the field [session] of the leader ([setsid]). *)
Definition session_create (leader : ptr) (ref : bool) : M jobs (Z * ptr) :=
  proc_assert_lock leader;;
  P ← rd leader;
  n ← has_room;
  if negb n then mret (- ENOMEM, NULL) else
  l ← has_room;
  if negb l then mret (- ENOMEM, NULL) else
  q ← has_room;
  if negb q then mret (- ENOMEM, NULL) else
  session ← kmalloc {| ss_sid := p_pid P; ss_leader := default 1%positive leader; ss_pgroups := []; ss_refs := 1 |};
  match session with
  | None => mret (- ENOMEM, NULL)
  | Some x =>
      session_lock session;;
      '(err, pgroup) ← session_create_pgroup session leader;
      session_unlock session;;
      if not_zero err then kfree (V := session_t) session;; mret (err, NULL) else
      (if ref then upd leader (λ P, {| (P) with p_session := session |}) else mret tt);;
      acquire LSessions;;
      ok ← has_room;
      if negb ok then
        release LSessions;;
        kfree (V := session_t) session;;
        match pgroup with Some _ => pgroup_free pgroup;; mret tt | None => mret tt end;;
        mret (- ENOMEM, session)
      else
        modify (λ s, {| (s) with sessions := sessions s ++ [x] |});;
        release LSessions;;
        mret (0, session)
  end.

(** A group that is found is returned locked. *)
Fixpoint session_lookup_loop (pgid : Z) (l : list loc) : M jobs ptr :=
  match l with
  | [] => mret NULL
  | g :: l =>
      pgroup_lock (Some g);;
      G ← rd (Some g);
      if pg_id G =? pgid then mret (Some g) else
      pgroup_unlock (Some g);;
      session_lookup_loop pgid l
  end.

Definition session_lookup (session : ptr) (pgid : Z) : M jobs (Z * ptr) :=
  session_assert_lock session;;
  lock_groups session;;
  X ← rd session;
  g ← session_lookup_loop pgid (ss_pgroups X);
  unlock_groups session;;
  mret (match g with Some _ => (0, g) | None => (- ENOENT, NULL) end).

Definition session_remove (session pgroup : ptr) : M jobs Z :=
  session_assert_lock session;;
  pgroup_assert_lock pgroup;;
  c ← session_contains session pgroup;
  if negb c then mret (- ENOENT) else
  lock_groups session;;
  match pgroup with
  | Some g => upd session (λ X, {| (X) with ss_pgroups := remove1 g (ss_pgroups X) |})
  | None => panic
  end;;
  unlock_groups session;;
  upd pgroup (λ G, {| (G) with pg_sessoin := NULL |});;
  mret 0.

Definition session_leave (session p : ptr) : M jobs Z :=
  proc_assert_lock p;;
  session_assert_lock session;;
  P ← rd p;
  let pgroup := p_pgroup P in
  c ← session_contains session pgroup;
  if negb c then mret (- ENOENT) else
  pgroup_lock pgroup;;
  err ← pgroup_remove pgroup p;
  if not_zero err then pgroup_unlock pgroup;; mret err else
  upd p (λ P, {| (P) with p_session := NULL |});;
  lock_procs pgroup;;
  G ← rd pgroup;
  match pg_procs G with
  | [] =>
      err ← session_remove session pgroup;
      if not_zero err then pgroup_unlock pgroup;; mret err else
      unlock_procs pgroup;;
      pgroup_unlock pgroup;;
      pgroup_free pgroup;;
      mret 0
  | _ =>
      unlock_procs pgroup;;
      pgroup_unlock pgroup;;
      mret 0
  end.

Definition session_pgroup_count (session : ptr) : M jobs Z :=
  session_assert_lock session;;
  lock_groups session;;
  X ← rd session;
  unlock_groups session;;
  mret (Z.of_nat (length (ss_pgroups X))).

(** [if (spin_holding(session->ss_lock) && locked) session_unlock(session);] *)
Definition session_put (session : ptr) (locked : bool) : M jobs unit :=
  match session with
  | None => fault
  | Some x =>
      _ ← rd (V := session_t) session;
      h ← spin_holding (LSession x);
      if h && locked then session_unlock session else mret tt
  end.

Definition session_exit (session process : ptr) (free_session : bool) : M jobs Z :=
  proc_assert_lock process;;
  match session with
  | None => fault
  | Some x =>
      _ ← rd (V := session_t) session;
      h ← spin_holding (LSession x);
      (if (h : bool) then mret tt else session_lock session);;
      let locked := negb h in
      P ← rd process;
      if negb (bool_decide (session = p_session P)) then session_put session locked;; mret (- EINVAL) else
      err ← session_leave session process;
      if not_zero err then session_put session locked;; mret err else
      count ← session_pgroup_count session;
      if (count <=? 0) && free_session then session_free session;; mret 0 else
      session_put session locked;;
      mret 0
  end.

Definition session_pgroup_join (session : ptr) (pgid : Z) (process : ptr) : M jobs Z :=
  if pgid <? 0 then mret (- EINVAL) else
  proc ← me;
  proc_assert_lock proc;;
  proc_assert_lock process;;
  session_assert_lock session;;
  '(err, pgroup) ← session_lookup session pgid;
  if not_zero err then mret err else
  P ← rd process;
  if bool_decide (p_pgroup P = pgroup) then
    pgroup_unlock pgroup;;
    upd process (λ P, {| (P) with p_session := session |});;
    mret 0
  else
  err ← session_exit session process false;
  if not_zero err then pgroup_unlock pgroup;; mret err else
  err ← pgroup_add pgroup process;
  if not_zero err then pgroup_unlock pgroup;; mret err else
  pgroup_unlock pgroup;;
  upd process (λ P, {| (P) with p_session := session |});;
  mret 0.

(** A session that is found is returned locked when the caller asks for it ([ref]). *)
Fixpoint sessions_get_loop (sid : Z) (ref : bool) (l : list loc) : M jobs (option ptr) :=
  match l with
  | [] => mret None
  | x :: l =>
      session_lock (Some x);;
      X ← rd (Some x);
      if ss_sid X =? sid then
        if ref then mret (Some (Some x)) else session_unlock (Some x);; mret (Some NULL)
      else
      session_unlock (Some x);;
      sessions_get_loop sid ref l
  end.

Definition sessions_get (sid : Z) (ref : bool) : M jobs (Z * ptr) :=
  acquire LSessions;;
  l ← gets sessions;
  r ← sessions_get_loop sid ref l;
  release LSessions;;
  mret (match r with Some p => (0, p) | None => (- ESRCH, NULL) end).

Fixpoint sessions_find_loop (pgid : Z) (ref : bool) (l : list loc) : M jobs (option ptr) :=
  match l with
  | [] => mret None
  | x :: l =>
      session_lock (Some x);;
      '(err, pgroup) ← session_lookup (Some x) pgid;
      if err =? 0 then
        (if ref then mret tt else pgroup_unlock pgroup);;
        session_unlock (Some x);;
        mret (Some (if ref then pgroup else NULL))
      else
      session_unlock (Some x);;
      sessions_find_loop pgid ref l
  end.

Definition sessions_find_pgroup (pgid : Z) (ref : bool) : M jobs (Z * ptr) :=
  acquire LSessions;;
  l ← gets sessions;
  r ← sessions_find_loop pgid ref l;
  release LSessions;;
  mret (match r with Some p => (0, p) | None => (- ESRCH, NULL) end).

End jobs.
