(* ===== verification/JobsRun.v ===== *)
(** * Runs of the operations on groups and sessions

    Each operation of [Jobs], under the locks its callers hold and with memory for what
    it allocates, returns in a state that is written out; the locks are as before. *)
From S2P Require Import Prelude Jobs.

(** ** Locks *)

Definition with_locks (L : gset lk) (s : jobs) : jobs := {| (s) with locks := L |}.

Lemma with_locks_id s : with_locks (locks s) s = s.
Proof. by destruct s. Qed.
Lemma locks_add_remove (l : lk) (L : gset lk) : l ∉ L → ({[l]} ∪ L) ∖ {[l]} = L.
Proof. set_solver. Qed.

Section locks.
Context {V : Type} `{!Heap jobs V}.

Lemma wp_acquire_lk l (Q : unit → jobs → Prop) s :
  l ∉ locks s → Q tt (with_locks ({[l]} ∪ locks s) s) → wp (acquire l) Q s.
Proof. intros Hl HQ. unfold acquire, spin_holding. wp_go. by rewrite bool_decide_eq_false_2. Qed.
Lemma wp_release_lk l (Q : unit → jobs → Prop) s :
  l ∈ locks s → Q tt (with_locks (locks s ∖ {[l]}) s) → wp (release l) Q s.
Proof. intros Hl HQ. unfold release, spin_holding. wp_go. by rewrite bool_decide_eq_true_2. Qed.
Lemma wp_assert_held_lk l (Q : unit → jobs → Prop) s : l ∈ locks s → Q tt s → wp (assert_held l) Q s.
Proof. intros Hl HQ. unfold assert_held, spin_holding. wp_go. by rewrite bool_decide_eq_true_2. Qed.

Lemma wp_obj_lock k p (Q : unit → jobs → Prop) s :
  is_Some (heap_of (V := V) s !! p) → k p ∉ locks s → Q tt (with_locks ({[k p]} ∪ locks s) s) →
  wp (obj_lock V k (Some p)) Q s.
Proof. intros [v Hv] ??. unfold obj_lock. apply wp_bind. eapply wp_rd; [done|]. by apply wp_acquire_lk. Qed.
Lemma wp_obj_unlock k p (Q : unit → jobs → Prop) s :
  is_Some (heap_of (V := V) s !! p) → k p ∈ locks s → Q tt (with_locks (locks s ∖ {[k p]}) s) →
  wp (obj_unlock V k (Some p)) Q s.
Proof. intros [v Hv] ??. unfold obj_unlock. apply wp_bind. eapply wp_rd; [done|]. by apply wp_release_lk. Qed.
Lemma wp_obj_assert_lock k p (Q : unit → jobs → Prop) s :
  is_Some (heap_of (V := V) s !! p) → k p ∈ locks s → Q tt s → wp (obj_assert_lock V k (Some p)) Q s.
Proof. intros [v Hv] ??. unfold obj_assert_lock. apply wp_bind. eapply wp_rd; [done|]. by apply wp_assert_held_lk. Qed.
End locks.

Lemma wp_has_room (Q : bool → jobs → Prop) s : room s = [] → Q true s → wp has_room Q s.
Proof. intros Hr HQ. apply wp_exec. exists true, s. unfold has_room. by rewrite Hr. Qed.
Lemma wp_drop_locks ls (Q : unit → jobs → Prop) s :
  Q tt (with_locks (locks s ∖ list_to_set ls) s) → wp (drop_locks ls) Q s.
Proof. intros HQ. unfold drop_locks. by apply wp_modify. Qed.

Lemma not_zero_true z : z ≠ 0 → not_zero z = true.
Proof. unfold not_zero. intros. by destruct (Z.eqb_spec z 0). Qed.

(** The membership of a lock in the set of locks that are held. *)
Ltac lk_solve :=
  cbn;
  lazymatch goal with
  | |- _ ∈ _ ∪ _ => apply elem_of_union; first [left; lk_solve | right; lk_solve]
  | |- _ ∈ {[_]} => apply elem_of_singleton; congruence
  | |- _ ∈ _ ∖ _ => apply elem_of_difference; split; lk_solve
  | |- _ ∉ _ ∪ _ => apply not_elem_of_union; split; lk_solve
  | |- _ ∉ {[_]} => apply not_elem_of_singleton; congruence
  | |- _ ∉ _ ∖ _ => apply not_elem_of_difference; first [left; lk_solve | right; lk_solve]
  | |- _ ∉ ∅ => apply not_elem_of_empty
  | |- _ => first [assumption | match goal with H : ∀ l, l ∉ ?L |- _ ∉ ?L => apply H end]
  end.
(** The locks are as before. *)
Ltac lk_same := unfold with_locks; cbn; rewrite ?locks_add_remove by lk_solve.

Ltac job_prim :=
  lazymatch goal with
  | |- wp (acquire _) _ _ => apply wp_acquire_lk; [lk_solve|]
  | |- wp (release _) _ _ => apply wp_release_lk; [lk_solve|]
  | |- wp (assert_held _) _ _ => apply wp_assert_held_lk; [lk_solve|]
  | |- wp (obj_lock _ _ (Some _)) _ _ => apply wp_obj_lock; [lookup_solve|lk_solve|]
  | |- wp (obj_unlock _ _ (Some _)) _ _ => apply wp_obj_unlock; [lookup_solve|lk_solve|]
  | |- wp (obj_assert_lock _ _ (Some _)) _ _ => apply wp_obj_assert_lock; [lookup_solve|lk_solve|]
  | |- wp has_room _ _ => apply wp_has_room; [by cbn|]
  | |- wp (drop_locks _) _ _ => apply wp_drop_locks
  | |- wp me _ _ => unfold me
  | |- wp (spin_holding _) _ _ => unfold spin_holding
  | |- wp (proc_lock _) _ _ => unfold proc_lock
  | |- wp (proc_unlock _) _ _ => unfold proc_unlock
  | |- wp (proc_assert_lock _) _ _ => unfold proc_assert_lock
  | |- wp (pgroup_lock _) _ _ => unfold pgroup_lock
  | |- wp (pgroup_unlock _) _ _ => unfold pgroup_unlock
  | |- wp (pgroup_assert_lock _) _ _ => unfold pgroup_assert_lock
  | |- wp (session_lock _) _ _ => unfold session_lock
  | |- wp (session_unlock _) _ _ => unfold session_unlock
  | |- wp (session_assert_lock _) _ _ => unfold session_assert_lock
  | |- wp (lock_procs _) _ _ => unfold lock_procs
  | |- wp (unlock_procs _) _ _ => unfold unlock_procs
  | |- wp (lock_groups _) _ _ => unfold lock_groups
  | |- wp (unlock_groups _) _ _ => unfold unlock_groups
  | |- _ => wp_prim
  end; cbn beta iota.
Ltac job_simp :=
  cbn [negb not_zero andb orb Z.eqb Z.opp with_locks put_heap heap_of procs_heap pgroups_heap sess_heap
       procs pgroups sess sessions processes initproc pids cur locks room];
  rewrite ?locks_add_remove by lk_solve.
(** The state is [s] again. *)
Ltac back_to s :=
  lazymatch goal with
  | |- wp _ _ ?t => replace t with s by (by destruct s)
  | |- _ ?t => replace t with s by (by destruct s)
  end.
Ltac job_go := job_simp; repeat (job_prim; job_simp).

(** ** Groups *)

Lemma wp_pgroup_contains g p G (Q : bool → jobs → Prop) s :
  pgroups s !! g = Some G → LGroup g ∈ locks s → LProcs g ∉ locks s →
  Q (bool_decide (p ∈ pg_procs G)) s → wp (pgroup_contains (Some g) (Some p)) Q s.
Proof.
  intros HG Hg Hq HQ. unfold pgroup_contains. job_go. by back_to s.
Qed.

(** The states the operations lead to. *)
Definition set_group_of (g : ptr) (P : proc_t) : proc_t := {| (P) with p_pgroup := g |}.
Definition set_session_of (x : ptr) (P : proc_t) : proc_t := {| (P) with p_session := x |}.
Definition add_proc (p : loc) (G : pgroup_t) : pgroup_t := {| (G) with pg_procs := pg_procs G ++ [p] |}.
Definition del_proc (p : loc) (G : pgroup_t) : pgroup_t := {| (G) with pg_procs := remove1 p (pg_procs G) |}.
Definition add_group (g : loc) (X : session_t) : session_t := {| (X) with ss_pgroups := ss_pgroups X ++ [g] |}.
Definition del_group (g : loc) (X : session_t) : session_t := {| (X) with ss_pgroups := remove1 g (ss_pgroups X) |}.

Definition add_member (g p : loc) (s : jobs) : jobs :=
  {| (s) with pgroups := alter (add_proc p) g (pgroups s); procs := alter (set_group_of (Some g)) p (procs s) |}.
Definition del_member (g p : loc) (s : jobs) : jobs :=
  {| (s) with pgroups := alter (del_proc p) g (pgroups s); procs := alter (set_group_of NULL) p (procs s) |}.

Lemma wp_pgroup_add g p G (Q : Z → jobs → Prop) s :
  pgroups s !! g = Some G → is_Some (procs s !! p) → p ∉ pg_procs G →
  LProc p ∈ locks s → LGroup g ∈ locks s → LProcs g ∉ locks s → room s = [] →
  Q 0 (add_member g p s) → wp (pgroup_add (Some g) (Some p)) Q s.
Proof.
  intros HG [P HP] Hp Hlp Hlg Hlq Hr HQ. unfold pgroup_add. job_go.
  eapply wp_pgroup_contains; [done..|]. rewrite bool_decide_eq_false_2 by done. job_go. lk_same. exact HQ.
Qed.

Lemma wp_pgroup_remove g p G (Q : Z → jobs → Prop) s :
  pgroups s !! g = Some G → is_Some (procs s !! p) → p ∈ pg_procs G →
  LProc p ∈ locks s → LGroup g ∈ locks s → LProcs g ∉ locks s →
  Q 0 (del_member g p s) → wp (pgroup_remove (Some g) (Some p)) Q s.
Proof.
  intros HG [P HP] Hp Hlp Hlg Hlq HQ. unfold pgroup_remove. job_go.
  eapply wp_pgroup_contains; [done..|]. rewrite bool_decide_eq_true_2 by done. job_go. lk_same. exact HQ.
Qed.

Definition del_pgroup (g : loc) (s : jobs) : jobs :=
  {| (s) with pgroups := delete g (pgroups s); locks := locks s ∖ {[LGroup g; LProcs g]} |}.

Lemma wp_pgroup_free g G (Q : Z → jobs → Prop) s :
  pgroups s !! g = Some G → 0 ≤ pg_refs G → LProcs g ∉ locks s →
  Q 0 (del_pgroup g s) → wp (pgroup_free (Some g)) Q s.
Proof.
  intros HG Hrefs Hq HQ. unfold pgroup_free. job_go; [by apply Z.leb_le|].
  job_go. unfold del_pgroup in HQ. unfold with_locks. cbn.
  replace (_ ∖ _) with (locks s ∖ {[LGroup g; LProcs g]}) by set_solver. exact HQ.
Qed.

Lemma alter_insert_same {V} (f : V → V) (k : loc) v (m : gmap loc V) : alter f k (<[k := v]> m) = <[k := f v]> m.
Proof.
  apply map_eq. intros j. destruct (decide (j = k)) as [->|?].
  - by rewrite lookup_alter_eq, !lookup_insert_eq.
  - by rewrite lookup_alter_ne, !lookup_insert_ne.
Qed.

Lemma alter_twice {V} (f g : V → V) (k : loc) (m : gmap loc V) : alter f k (alter g k m) = alter (f ∘ g) k m.
Proof.
  apply map_eq. intros j. destruct (decide (j = k)) as [->|?].
  - rewrite !lookup_alter_eq. by destruct (m !! k).
  - by rewrite !lookup_alter_ne.
Qed.

Section run.
Context `{!Kalloc pgroup_t, !Kalloc session_t}.

Definition fresh_group (pid : Z) (p : loc) (x : ptr) (refs : Z) : pgroup_t :=
  {| pg_id := pid; pg_leader := p; pg_procs := [p]; pg_refs := refs; pg_sessoin := x |}.
Definition new_pgroup (g p : loc) (v : pgroup_t) (s : jobs) : jobs :=
  {| (s) with pgroups := <[g := v]> (pgroups s); procs := alter (set_group_of (Some g)) p (procs s) |}.

Lemma wp_pgroup_create g p P (Q : Z * ptr → jobs → Prop) s :
  procs s !! p = Some P → kmalloc_at (pgroups s) = Some g →
  LProc p ∈ locks s → LGroup g ∉ locks s → LProcs g ∉ locks s → room s = [] →
  Q (0, Some g) (new_pgroup g p (fresh_group (p_pid P) p NULL 1) s) → wp (pgroup_create (Some p)) Q s.
Proof.
  intros HP Hg Hlp Hlg Hlq Hr HQ. unfold pgroup_create. job_go.
  apply wp_kmalloc; [cbn; congruence|]. intros g' Hg' _. cbn in Hg'. simplify_eq. job_go.
  eapply wp_pgroup_add; cbn; [by rewrite lookup_insert_eq|by eexists|apply not_elem_of_nil|lk_solve..|done|].
  job_go. lk_same. rewrite alter_insert_same. exact HQ.
Qed.

(** ** Sessions *)

Lemma wp_session_contains x g X (Q : bool → jobs → Prop) s :
  sess s !! x = Some X → LSession x ∈ locks s → LGroups x ∉ locks s →
  Q (bool_decide (g ∈ ss_pgroups X)) s → wp (session_contains (Some x) (Some g)) Q s.
Proof. intros HX Hg Hq HQ. unfold session_contains. job_go. by back_to s. Qed.

Definition join_session (x g : loc) (s : jobs) : jobs :=
  {| (s) with sess := alter (add_group g) x (sess s);
              pgroups := alter (λ G, {| (G) with pg_sessoin := Some x; pg_refs := pg_refs G + 1 |}) g (pgroups s) |}.

Lemma wp_session_add x g X (Q : Z → jobs → Prop) s :
  sess s !! x = Some X → is_Some (pgroups s !! g) → g ∉ ss_pgroups X →
  LSession x ∈ locks s → LGroup g ∈ locks s → LGroups x ∉ locks s → room s = [] →
  Q 0 (join_session x g s) → wp (session_add (Some x) (Some g)) Q s.
Proof.
  intros HX [G HG] Hin Hls Hlg Hlq Hr HQ. unfold session_add. job_go.
  eapply wp_session_contains; [done..|]. rewrite bool_decide_eq_false_2 by done. job_go. lk_same.
  rewrite alter_twice. exact HQ.
Qed.

(** A group of its own for a process that is in none. *)
Definition group_in (x g p : loc) (pid : Z) (s : jobs) : jobs :=
  {| (s) with pgroups := <[g := fresh_group pid p (Some x) 2]> (pgroups s);
              sess := alter (add_group g) x (sess s);
              procs := alter (set_session_of (Some x)) p (alter (set_group_of (Some g)) p (procs s)) |}.

Lemma wp_session_create_pgroup x g p P X (Q : Z * ptr → jobs → Prop) s :
  procs s !! p = Some P → sess s !! x = Some X → g ∉ ss_pgroups X → kmalloc_at (pgroups s) = Some g →
  LProc p ∈ locks s → LSession x ∈ locks s → LGroup g ∉ locks s → LProcs g ∉ locks s → LGroups x ∉ locks s →
  room s = [] → Q (0, Some g) (group_in x g p (p_pid P) s) → wp (session_create_pgroup (Some x) (Some p)) Q s.
Proof.
  intros HP HX Hin Hg Hlp Hls Hlg Hlq Hlx Hr HQ. unfold session_create_pgroup. job_go.
  eapply wp_pgroup_create; [done..|]. job_go.
  eapply wp_session_add; cbn; [done|by rewrite lookup_insert_eq; eexists|done|lk_solve..|done|].
  job_go. lk_same.
  rewrite alter_insert_same. exact HQ.
Qed.

Definition new_session (x g p : loc) (pid : Z) (s : jobs) : jobs :=
  {| (s) with pgroups := <[g := fresh_group pid p (Some x) 2]> (pgroups s);
              sess := <[x := {| ss_sid := pid; ss_leader := p; ss_pgroups := [g]; ss_refs := 1 |}]> (sess s);
              sessions := sessions s ++ [x];
              procs := alter (set_session_of (Some x)) p (alter (set_group_of (Some g)) p (procs s)) |}.

Lemma wp_session_create x g p P ref (Q : Z * ptr → jobs → Prop) s :
  procs s !! p = Some P → kmalloc_at (sess s) = Some x → kmalloc_at (pgroups s) = Some g →
  LProc p ∈ locks s → LSession x ∉ locks s → LGroup g ∉ locks s → LProcs g ∉ locks s → LGroups x ∉ locks s →
  LSessions ∉ locks s → room s = [] →
  Q (0, Some x) (new_session x g p (p_pid P) s) → wp (session_create (Some p) ref) Q s.
Proof.
  intros HP Hx Hg Hlp Hls Hlg Hlq Hlx Hla Hr HQ. unfold session_create. job_go.
  apply wp_kmalloc; [cbn; congruence|]. intros x' Hx' _. cbn in Hx'. simplify_eq. job_go.
  eapply (wp_session_create_pgroup _ g); cbn; [done|by rewrite lookup_insert_eq|apply not_elem_of_nil|done|lk_solve..|done|].
  job_go.
  destruct ref; job_go; lk_same; rewrite !alter_insert_same.
  - rewrite (alter_twice _ (set_session_of (Some x))). exact HQ.
  - exact HQ.
Qed.

(** Looking for a group: the one found is locked. *)
Lemma wp_session_lookup_loop pgid (Q : ptr → jobs → Prop) s (l : list loc) :
  (∀ g, g ∈ l → is_Some (pgroups s !! g) ∧ LGroup g ∉ locks s) →
  (∀ g G, g ∈ l → pgroups s !! g = Some G → pg_id G = pgid → Q (Some g) (with_locks ({[LGroup g]} ∪ locks s) s)) →
  ((∀ g G, g ∈ l → pgroups s !! g = Some G → pg_id G ≠ pgid) → Q NULL s) →
  wp (session_lookup_loop pgid l) Q s.
Proof.
  induction l as [|g l IH]; intros Hl Hf Hn; simpl; [apply wp_ret, Hn; set_solver|].
  destruct (Hl g) as [[G HG] Hg]; [set_solver|]. job_go.
  destruct (Z.eqb_spec (pg_id G) pgid) as [He|He].
  - job_go. apply (Hf g G); [set_solver|done..].
  - job_go. back_to s. apply IH; [set_solver|set_solver|].
    intros Hall. apply Hn. intros g' G' [->|?]%elem_of_cons ?; [congruence|eauto].
Qed.

Lemma wp_session_lookup x X pgid (Q : Z * ptr → jobs → Prop) s :
  sess s !! x = Some X → LSession x ∈ locks s → LGroups x ∉ locks s →
  (∀ g, g ∈ ss_pgroups X → is_Some (pgroups s !! g) ∧ LGroup g ∉ locks s) →
  (∀ g G, g ∈ ss_pgroups X → pgroups s !! g = Some G → pg_id G = pgid →
     Q (0, Some g) (with_locks ({[LGroup g]} ∪ locks s) s)) →
  ((∀ g G, g ∈ ss_pgroups X → pgroups s !! g = Some G → pg_id G ≠ pgid) → Q (- ENOENT, NULL) s) →
  wp (session_lookup (Some x) pgid) Q s.
Proof.
  intros HX Hls Hlx Hl Hf Hn. unfold session_lookup. job_go. apply wp_session_lookup_loop; cbn.
  - intros g Hg. destruct (Hl g Hg) as [? ?]. split; [done|lk_solve].
  - intros g G Hg HG He. destruct (Hl g Hg) as [_ ?]. job_go.
    replace (({[LGroup g]} ∪ ({[LGroups x]} ∪ locks s)) ∖ {[LGroups x]}) with ({[LGroup g]} ∪ locks s) by set_solver.
    by apply (Hf g G).
  - intros Hall. job_go. back_to s. by apply Hn.
Qed.

Lemma wp_session_remove x g X (Q : Z → jobs → Prop) s :
  sess s !! x = Some X → is_Some (pgroups s !! g) → g ∈ ss_pgroups X →
  LSession x ∈ locks s → LGroup g ∈ locks s → LGroups x ∉ locks s →
  Q 0 {| (s) with sess := alter (del_group g) x (sess s);
                  pgroups := alter (λ G, {| (G) with pg_sessoin := NULL |}) g (pgroups s) |} →
  wp (session_remove (Some x) (Some g)) Q s.
Proof.
  intros HX [G HG] Hin Hls Hlg Hlq HQ. unfold session_remove. job_go.
  eapply wp_session_contains; [done..|]. rewrite bool_decide_eq_true_2 by done. job_go. exact HQ.
Qed.

(** A process leaves its session; a group that has no process left goes. *)
Definition clear_job (P : proc_t) : proc_t := {| (P) with p_pgroup := NULL; p_session := NULL |}.
Definition leave_state (x g p : loc) (G : pgroup_t) (s : jobs) : jobs :=
  match remove1 p (pg_procs G) with
  | [] => {| (s) with pgroups := delete g (pgroups s); sess := alter (del_group g) x (sess s);
                      procs := alter clear_job p (procs s) |}
  | _ => {| (s) with pgroups := alter (del_proc p) g (pgroups s); procs := alter clear_job p (procs s) |}
  end.

Lemma delete_alter_one {V} (f : V → V) (k : loc) (m : gmap loc V) : delete k (alter f k m) = delete k m.
Proof.
  apply map_eq. intros j. destruct (decide (j = k)) as [->|?].
  - by rewrite !lookup_delete_eq.
  - by rewrite !lookup_delete_ne, lookup_alter_ne.
Qed.

Lemma wp_session_leave x g p X G P (Q : Z → jobs → Prop) s :
  procs s !! p = Some P → p_pgroup P = Some g → sess s !! x = Some X → pgroups s !! g = Some G →
  g ∈ ss_pgroups X → p ∈ pg_procs G → 0 ≤ pg_refs G →
  LProc p ∈ locks s → LSession x ∈ locks s → LGroup g ∉ locks s → LProcs g ∉ locks s → LGroups x ∉ locks s →
  Q 0 (leave_state x g p G s) → wp (session_leave (Some x) (Some p)) Q s.
Proof.
  intros HP Hpg HX HG Hgx Hpin Hrefs Hlp Hls Hlg Hlq Hlx HQ. unfold session_leave, leave_state in *. job_go.
  rewrite Hpg. job_go. eapply wp_session_contains; [done..|]. rewrite bool_decide_eq_true_2 by done. job_go.
  eapply wp_pgroup_remove; [done|by eexists|done|lk_solve..|]. unfold del_member. job_go.
  cbn [pg_procs del_proc]. destruct (remove1 p (pg_procs G)) as [|q l]; job_go.
  - eapply wp_session_remove;
      [done|cbn; by rewrite lookup_alter_eq, HG; eexists|done|lk_solve..|]. job_go.
    eapply wp_pgroup_free; [cbn; by rewrite !lookup_alter_eq, HG|done|lk_solve|].
    unfold del_pgroup. cbn. rewrite !delete_alter_one, alter_twice. lk_same.
    replace (locks s ∖ _) with (locks s) by set_solver. exact HQ.
  - lk_same. rewrite alter_twice. exact HQ.
Qed.

Lemma wp_session_pgroup_count x X (Q : Z → jobs → Prop) s :
  sess s !! x = Some X → LSession x ∈ locks s → LGroups x ∉ locks s →
  Q (Z.of_nat (length (ss_pgroups X))) s → wp (session_pgroup_count (Some x)) Q s.
Proof. intros HX Hls Hlx HQ. unfold session_pgroup_count. job_go. by back_to s. Qed.

Lemma wp_session_free x X (Q : Z → jobs → Prop) s :
  sess s !! x = Some X → 0 ≤ ss_refs X → LSessions ∉ locks s → LGroups x ∉ locks s →
  Q 0 {| (s) with sess := delete x (sess s); sessions := remove1 x (sessions s); locks := locks s ∖ {[LSession x]} |} →
  wp (session_free (Some x)) Q s.
Proof.
  intros HX Hrefs Hla Hlx HQ. unfold session_free. job_go; [by apply Z.leb_le|]. job_go. cbn.
  replace (_ ∖ _) with (locks s ∖ {[LSession x]}) by set_solver. exact HQ.
Qed.

(** The state after [session_leave], for the code that goes on. *)
Definition groups_left (g p : loc) (G : pgroup_t) (X : session_t) : session_t :=
  match remove1 p (pg_procs G) with [] => del_group g X | _ => X end.
Lemma leave_state_locks x g p G s : locks (leave_state x g p G s) = locks s.
Proof. unfold leave_state. by destruct (remove1 p (pg_procs G)). Qed.
Lemma leave_state_room x g p G s : room (leave_state x g p G s) = room s.
Proof. unfold leave_state. by destruct (remove1 p (pg_procs G)). Qed.
Lemma leave_state_procs x g p G s : procs (leave_state x g p G s) = alter clear_job p (procs s).
Proof. unfold leave_state. by destruct (remove1 p (pg_procs G)). Qed.
Lemma leave_state_sess x g p G X s :
  sess s !! x = Some X → sess (leave_state x g p G s) !! x = Some (groups_left g p G X).
Proof.
  intros HX. unfold leave_state, groups_left. destruct (remove1 p (pg_procs G)); cbn; [|done].
  by rewrite lookup_alter_eq, HX.
Qed.
Lemma leave_state_group x g p g' G s :
  g' ≠ g → pgroups (leave_state x g p G s) !! g' = pgroups s !! g'.
Proof.
  intros Hne. unfold leave_state. destruct (remove1 p (pg_procs G)); cbn.
  - by rewrite lookup_delete_ne.
  - by rewrite lookup_alter_ne.
Qed.

Lemma leave_state_with_locks x g p G L s :
  leave_state x g p G (with_locks L s) = with_locks L (leave_state x g p G s).
Proof. unfold leave_state. by destruct (remove1 p (pg_procs G)). Qed.

(** What [session_exit] needs: a process that is in its group, and its group in its session. *)
Record in_job (s : jobs) (x g p : loc) (X : session_t) (G : pgroup_t) (P : proc_t) : Prop := {
  ij_proc : procs s !! p = Some P;
  ij_pgroup : p_pgroup P = Some g;
  ij_session : p_session P = Some x;
  ij_sess : sess s !! x = Some X;
  ij_group : pgroups s !! g = Some G;
  ij_group_in : g ∈ ss_pgroups X;
  ij_in : p ∈ pg_procs G;
  ij_refs : 0 ≤ pg_refs G;
  ij_refs' : 0 ≤ ss_refs X;
}.

(** [setpgid]: the session is locked and stays. *)
Lemma wp_session_exit_stay x g p X G P (Q : Z → jobs → Prop) s :
  in_job s x g p X G P →
  LProc p ∈ locks s → LSession x ∈ locks s → LGroup g ∉ locks s → LProcs g ∉ locks s → LGroups x ∉ locks s →
  Q 0 (leave_state x g p G s) → wp (session_exit (Some x) (Some p) false) Q s.
Proof.
  intros [HP Hpg Hps HX HG Hgx Hin Hr Hr'] Hlp Hls Hlg Hlq Hlx HQ. unfold session_exit. job_go.
  rewrite bool_decide_eq_true_2 by done. job_go. rewrite Hps, bool_decide_eq_true_2 by done. job_go.
  eapply wp_session_leave; [done..|]. job_go.
  eapply wp_session_pgroup_count; [by apply leave_state_sess|by rewrite leave_state_locks..|].
  rewrite andb_false_r. unfold session_put. job_go.
  eapply wp_rd; [by apply leave_state_sess|]. job_go. rewrite andb_false_r. by apply wp_ret.
Qed.

(** [setsid] and [exit]: the session is not locked, and goes when it has no group left. *)
Definition exit_state (x g p : loc) (X : session_t) (G : pgroup_t) (s : jobs) : jobs :=
  let s' := leave_state x g p G s in
  match ss_pgroups (groups_left g p G X) with
  | [] => {| (s') with sess := delete x (sess s'); sessions := remove1 x (sessions s') |}
  | _ => s'
  end.

Lemma wp_session_exit_free x g p X G P (Q : Z → jobs → Prop) s :
  in_job s x g p X G P →
  LProc p ∈ locks s → LSession x ∉ locks s → LGroup g ∉ locks s → LProcs g ∉ locks s → LGroups x ∉ locks s →
  LSessions ∉ locks s → Q 0 (exit_state x g p X G s) → wp (session_exit (Some x) (Some p) true) Q s.
Proof.
  intros [HP Hpg Hps HX HG Hgx Hin Hr Hr'] Hlp Hls Hlg Hlq Hlx Hla HQ. unfold session_exit. job_go.
  rewrite bool_decide_eq_false_2 by done. job_go. rewrite Hps, bool_decide_eq_true_2 by done. job_go.
  eapply wp_session_leave; [done..|lk_solve|lk_solve|lk_solve|lk_solve|lk_solve|].
  rewrite leave_state_with_locks.
  pose proof (leave_state_sess x g p G X s HX) as HX'. pose proof (leave_state_locks x g p G s) as Hl.
  unfold exit_state in HQ. set (s' := leave_state x g p G s) in *.
  rewrite <- Hl in Hls, Hlx, Hla, Hlg, Hlq.
  job_go. eapply wp_session_pgroup_count; [done|rewrite <- Hl; lk_solve..|]. rewrite <- Hl.
  rewrite andb_true_r. destruct (ss_pgroups (groups_left g p G X)) as [|g' l] eqn:E; cbn [length].
  - change (Z.of_nat 0 <=? 0) with true. job_go. eapply wp_session_free; [done|by unfold groups_left; destruct (remove1 p (pg_procs G))|lk_solve..|].
    job_go. lk_same. exact HQ.
  - change (Z.of_nat (S (length l)) <=? 0) with false. unfold session_put. job_go. rewrite bool_decide_eq_true_2 by lk_solve. job_go. by back_to s'.
Qed.

Lemma alter_same {V} (f : V → V) (k : loc) v (m : gmap loc V) : m !! k = Some v → f v = v → alter f k m = m.
Proof.
  intros Hk Hf. apply map_eq. intros j. destruct (decide (j = k)) as [->|?].
  - rewrite lookup_alter_eq, Hk. simpl. by rewrite Hf.
  - by rewrite lookup_alter_ne.
Qed.

(** A process moves to another group of its session. *)
Definition move_state (x g g' p : loc) (G : pgroup_t) (s : jobs) : jobs :=
  let s' := add_member g' p (leave_state x g p G s) in
  {| (s') with procs := alter (set_session_of (Some x)) p (procs s') |}.

Definition groups_free (s : jobs) (X : session_t) : Prop :=
  ∀ g, g ∈ ss_pgroups X → is_Some (pgroups s !! g) ∧ (LGroup g ∉ locks s) ∧ (LProcs g ∉ locks s).

Lemma wp_session_pgroup_join x g p X G P pgid (Q : Z → jobs → Prop) s :
  in_job s x g p X G P → 0 ≤ pgid → is_Some (procs s !! cur s) →
  LProc (cur s) ∈ locks s → LProc p ∈ locks s → LSession x ∈ locks s → LGroups x ∉ locks s →
  groups_free s X → room s = [] →
  (∀ g' G', g' ∈ ss_pgroups X → g' ≠ g → pgroups s !! g' = Some G' → p ∉ pg_procs G') →
  ((∀ g' G', g' ∈ ss_pgroups X → pgroups s !! g' = Some G' → pg_id G' ≠ pgid) → Q (- ENOENT) s) →
  (pg_id G = pgid → Q 0 s) →
  (∀ g' G', g' ∈ ss_pgroups X → g' ≠ g → pgroups s !! g' = Some G' → pg_id G' = pgid →
     Q 0 (move_state x g g' p G s)) →
  wp (session_pgroup_join (Some x) pgid (Some p)) Q s.
Proof.
  intros Hij Hpg [C HC] Hlc Hlp Hls Hlx Hfree Hr Hother Hn Hsame Hmove.
  pose proof Hij as [HP Hpgr Hps HX HG Hgx Hin Hrefs _].
  unfold session_pgroup_join. rewrite (proj2 (Z.ltb_ge pgid 0)) by done. job_go.
  eapply wp_session_lookup; [done..| | |].
  { intros g' Hg'. destruct (Hfree g' Hg') as (? & ? & ?). done. }
  2: { intros Hall. rewrite not_zero_true by done. apply wp_ret. by apply Hn. }
  intros g' G' Hg' HG' He. destruct (Hfree g' Hg') as (_ & Hl1 & Hl2). job_go. rewrite Hpgr.
  destruct (decide (g' = g)) as [->|Hne].
  - rewrite bool_decide_eq_true_2 by done. job_go. lk_same.
    rewrite (alter_same _ _ P) by (done || by destruct P; cbn in *; subst). back_to s. apply Hsame. congruence.
  - rewrite bool_decide_eq_false_2 by congruence. destruct (Hfree g Hgx) as (_ & Hl3 & Hl4).
    job_go. eapply wp_session_exit_stay; [by destruct Hij|lk_solve..|].
    rewrite leave_state_with_locks. pose proof (leave_state_locks x g p G s) as Hl.
    pose proof (leave_state_group x g p g' G s Hne) as Hgr. 
    assert (Hpr : procs (leave_state x g p G s) !! p = Some (clear_job P))
      by (by rewrite leave_state_procs, lookup_alter_eq, HP).
    unfold move_state in Hmove. specialize (Hmove g' G' Hg' Hne HG' He).
    assert (Hr' : room (leave_state x g p G s) = []) by by rewrite leave_state_room.
    set (s' := leave_state x g p G s) in *. rewrite HG' in Hgr. rewrite <- Hl in *.
    job_go. eapply wp_pgroup_add; [done|by eexists|by eapply Hother|lk_solve..|done|].
    unfold add_member in *. job_go. exact Hmove.
Qed.

(** Looking for a group in every session. *)
Lemma wp_sessions_find_loop pgid (ref : bool) (Q : option ptr → jobs → Prop) s (l : list loc) :
  (∀ x, x ∈ l → ∃ X, sess s !! x = Some X ∧ (LSession x ∉ locks s) ∧ (LGroups x ∉ locks s) ∧ groups_free s X) →
  (∀ x X g G, x ∈ l → sess s !! x = Some X → g ∈ ss_pgroups X → pgroups s !! g = Some G → pg_id G = pgid →
     Q (Some (if ref then Some g else NULL)) (if ref then with_locks ({[LGroup g]} ∪ locks s) s else s)) →
  ((∀ x X g G, x ∈ l → sess s !! x = Some X → g ∈ ss_pgroups X → pgroups s !! g = Some G → pg_id G ≠ pgid) →
     Q None s) →
  wp (sessions_find_loop pgid ref l) Q s.
Proof.
  induction l as [|x l IH]; intros Hl Hf Hn; simpl; [apply wp_ret, Hn; set_solver|].
  destruct (Hl x) as (X & HX & Hls & Hlx & Hfree); [set_solver|]. job_go.
  eapply wp_session_lookup; [done|lk_solve|lk_solve|..].
  - intros g Hg. destruct (Hfree g Hg) as (? & ? & ?). split; [done|lk_solve].
  - intros g G Hg HG He. destruct (Hfree g Hg) as (_ & Hlg & _). destruct ref; job_go.
    + replace (({[LGroup g]} ∪ ({[LSession x]} ∪ locks s)) ∖ {[LSession x]}) with ({[LGroup g]} ∪ locks s) by set_solver.
      apply (Hf x X g G); set_solver.
    + back_to s. apply (Hf x X g G); set_solver.
  - intros Hall. change (- ENOENT =? 0) with false. job_go. back_to s.
    apply IH; [set_solver| |].
    + intros x' X' g G ? ????. apply (Hf x' X' g G); set_solver.
    + intros Hrest. apply Hn. intros x' X' g G [->|?]%elem_of_cons ???; [|by eapply Hrest].
      simplify_eq. by eapply Hall.
Qed.

Lemma wp_sessions_find_pgroup pgid (ref : bool) (Q : Z * ptr → jobs → Prop) s :
  LSessions ∉ locks s →
  (∀ x, x ∈ sessions s → ∃ X, sess s !! x = Some X ∧ (LSession x ∉ locks s) ∧ (LGroups x ∉ locks s) ∧ groups_free s X) →
  (∀ x X g G, x ∈ sessions s → sess s !! x = Some X → g ∈ ss_pgroups X → pgroups s !! g = Some G → pg_id G = pgid →
     Q (0, if ref then Some g else NULL) (if ref then with_locks ({[LGroup g]} ∪ locks s) s else s)) →
  ((∀ x X g G, x ∈ sessions s → sess s !! x = Some X → g ∈ ss_pgroups X → pgroups s !! g = Some G →
     pg_id G ≠ pgid) → Q (- ESRCH, NULL) s) →
  wp (sessions_find_pgroup pgid ref) Q s.
Proof.
  intros Hla Hl Hf Hn. unfold sessions_find_pgroup. job_go. apply wp_sessions_find_loop; cbn.
  - intros x Hx. destruct (Hl x Hx) as (X & HX & ? & ? & Hfree). exists X. split; [done|].
    split; [lk_solve|]. split; [lk_solve|]. intros g Hg. destruct (Hfree g Hg) as (? & ? & ?). split; [done|split; lk_solve].
  - intros x X g G Hx HX Hg HG He. destruct (Hl x Hx) as (X' & HX' & _ & _ & Hfree). simplify_eq.
    destruct (Hfree g Hg) as (_ & Hlg & _). specialize (Hf x X g G Hx HX Hg HG eq_refl).
    destruct ref; job_go; [|by back_to s].
    replace (({[LGroup g]} ∪ ({[LSessions]} ∪ locks s)) ∖ {[LSessions]}) with ({[LGroup g]} ∪ locks s) by set_solver.
    done.
  - intros Hall. job_go. back_to s. by apply Hn.
Qed.

End run.
