(* ===== verification/JobsInv.v ===== *)
(** * The invariant of groups and sessions

    Groups and sessions hang together: the queue of a group has the processes that
    point to it, the queue of a session the groups that point to it, the list of
    sessions every session; no group and no session is empty or unreachable, no two
    groups have the same id, and the group that has the id of a process is in the
    session of that process.  The states that [JobsRun] writes out keep it. *)
From S2P Require Import Prelude Jobs JobsRun.

Lemma elem_of_remove_one (x y : loc) (l : list loc) : NoDup l → y ∈ remove1 x l ↔ y ∈ l ∧ y ≠ x.
Proof.
  induction 1 as [|z l Hz Hl IH]; simpl; [set_solver|].
  case_bool_decide as E; [subst; set_solver|]. rewrite !elem_of_cons, IH. naive_solver.
Qed.
Lemma NoDup_remove1 (x : loc) (l : list loc) : NoDup l → NoDup (remove1 x l).
Proof.
  induction 1 as [|z l Hz Hl IH]; simpl; [constructor|].
  case_bool_decide; [done|]. constructor; [|done]. rewrite elem_of_remove_one by done. tauto.
Qed.

(** [E]: the session that may be without a group, in the middle of [setpgid]. *)
Record groups_ok (E : ptr) (s : jobs) : Prop := {
  go_members : ∀ g G, pgroups s !! g = Some G →
    NoDup (pg_procs G) ∧ 0 ≤ pg_refs G ∧
    (∀ p, p ∈ pg_procs G ↔ ∃ P, procs s !! p = Some P ∧ p_pgroup P = Some g);
  go_groups : ∀ x X, sess s !! x = Some X →
    NoDup (ss_pgroups X) ∧ (ss_pgroups X = [] → E = Some x) ∧ 0 ≤ ss_refs X ∧
    (∀ g, g ∈ ss_pgroups X ↔ ∃ G, pgroups s !! g = Some G ∧ pg_sessoin G = Some x);
  go_nodup : NoDup (sessions s);
  go_sessions : ∀ x, x ∈ sessions s ↔ is_Some (sess s !! x);
  go_home : ∀ g G, pgroups s !! g = Some G → ∃ x X, pg_sessoin G = Some x ∧ sess s !! x = Some X;
  go_job : ∀ p P, procs s !! p = Some P →
    match p_pgroup P with
    | None => p_session P = NULL
    | Some g => p ∈ processes s ∧ ∃ G, pgroups s !! g = Some G ∧ pg_sessoin G = p_session P
    end;
  go_ids : ∀ g h G H, pgroups s !! g = Some G → pgroups s !! h = Some H → pg_id G = pg_id H → g = h;
  go_own : ∀ p P g G, p ∈ processes s → procs s !! p = Some P → pgroups s !! g = Some G →
    pg_id G = p_pid P → pg_sessoin G = p_session P ∨ (p_session P = NULL ∧ E ≠ NULL ∧ pg_sessoin G = E);
}.

(** No group is empty. *)
Definition groups_full (s : jobs) : Prop := ∀ g G, pgroups s !! g = Some G → pg_procs G ≠ [].

(** The process is in a group, and its group in a session. *)
Lemma groups_ok_job E s p P g :
  groups_ok E s → procs s !! p = Some P → p_pgroup P = Some g →
  ∃ x X G, in_job s x g p X G P ∧ pg_sessoin G = Some x ∧ p ∈ processes s.
Proof.
  intros Hok HP Hg. pose proof (go_job _ _ Hok p P HP) as Hj. rewrite Hg in Hj. destruct Hj as (Hin & G & HG & Hs).
  destruct (go_home _ _ Hok g G HG) as (x & X & Hx & HX).
  destruct (go_members _ _ Hok g G HG) as (_ & Hr & Hm). destruct (go_groups _ _ Hok x X HX) as (_ & _ & Hr' & Hgs).
  exists x, X, G. split; [|done]. split; try done; [congruence|apply Hgs; eauto|apply Hm; eauto].
Qed.
Lemma groups_ok_session E s p P x :
  groups_ok E s → procs s !! p = Some P → p_session P = Some x →
  ∃ g X G, in_job s x g p X G P ∧ pg_sessoin G = Some x ∧ p ∈ processes s.
Proof.
  intros Hok HP Hx. pose proof (go_job _ _ Hok p P HP) as Hj. destruct (p_pgroup P) as [g|] eqn:Hg; [|congruence].
  destruct (groups_ok_job E s p P g Hok HP Hg) as (x' & X & G & Hij & Hs & Hin).
  assert (x' = x) as -> by (destruct Hij; congruence). by exists g, X, G.
Qed.

(** ** Leaving *)

Lemma lookup_alter_cases {V} (f : V → V) (i j : loc) (m : gmap loc V) v :
  alter f i m !! j = Some v → (i = j ∧ ∃ w, m !! i = Some w ∧ v = f w) ∨ (i ≠ j ∧ m !! j = Some v).
Proof. intros H. apply lookup_alter_Some in H. naive_solver. Qed.

(** The process [p] is about to leave. *)
Definition leaving (s : jobs) (x g p : loc) (X : session_t) (G : pgroup_t) (P : proc_t) : Prop :=
  groups_ok NULL s ∧ in_job s x g p X G P ∧ pg_sessoin G = Some x.

Section leave.
Implicit Types (s : jobs) (x g p : loc) (X : session_t) (G : pgroup_t) (P : proc_t).
Local Abbreviation after s x g p G := (leave_state x g p G s).

Lemma leave_procs s x g p X G P q Q : leaving s x g p X G P → procs (after s x g p G) !! q = Some Q →
  (q = p ∧ Q = clear_job P) ∨ (q ≠ p ∧ procs s !! q = Some Q).
Proof.
  intros (_ & Hij & _). rewrite leave_state_procs. intros [(<- & w & Hw & ->)|[? ?]]%lookup_alter_cases; [|naive_solver].
  destruct Hij. left. split; congruence.
Qed.

(** The groups that are left: the others, and [g] without [p] if it has other members. *)
Lemma leave_groups s x g p X G P h H : leaving s x g p X G P → pgroups (after s x g p G) !! h = Some H ↔
  (h ≠ g ∧ pgroups s !! h = Some H) ∨ (h = g ∧ remove1 p (pg_procs G) ≠ [] ∧ H = del_proc p G).
Proof.
  intros (_ & [HP Hpg Hps HX HG _ _ _ _] & _). unfold leave_state.
  destruct (remove1 p (pg_procs G)) as [|q l] eqn:E; cbn.
  - rewrite lookup_delete_Some. naive_solver.
  - rewrite lookup_alter_Some. naive_solver.
Qed.

(** The sessions: [x] without [g] if [g] goes. *)
Lemma leave_sess s x g p X G P y Y : leaving s x g p X G P → sess (after s x g p G) !! y = Some Y ↔
  (y ≠ x ∧ sess s !! y = Some Y) ∨ (y = x ∧ Y = groups_left g p G X).
Proof.
  intros (_ & [HP Hpg Hps HX HG _ _ _ _] & _). unfold leave_state, groups_left.
  destruct (remove1 p (pg_procs G)) as [|q l] eqn:E; cbn.
  - rewrite lookup_alter_Some. naive_solver.
  - destruct (decide (y = x)) as [->|?]; naive_solver.
Qed.

Lemma leave_members s x g p X G P h H : leaving s x g p X G P → pgroups (after s x g p G) !! h = Some H →
  NoDup (pg_procs H) ∧ 0 ≤ pg_refs H ∧
  (∀ q, q ∈ pg_procs H ↔ ∃ Q, procs (after s x g p G) !! q = Some Q ∧ p_pgroup Q = Some h).
Proof.
  intros Hlv. pose proof Hlv as (Hok & [HP Hpg Hps HX HG Hgx Hin Hr Hr'] & Hx).
  assert (Hpr : ∀ q, q ≠ p → procs (after s x g p G) !! q = procs s !! q).
  { intros q ?. rewrite leave_state_procs. by rewrite lookup_alter_ne. }
  rewrite (leave_groups _ _ _ _ _ _ _ _ _ Hlv). intros [[Hne HH]|(-> & Hne & ->)].
  - destruct (go_members _ _ Hok h H HH) as (Hnd & Hrf & Hm). do 2 (split; [done|]). intros q. rewrite Hm. split.
    + intros (Q & HQ & ?). assert (q ≠ p) by congruence. exists Q. by rewrite Hpr.
    + intros (Q & [[-> ->]|[? ?]]%(leave_procs _ _ _ _ _ _ _ _ _ Hlv) & ?); [done|eauto].
  - destruct (go_members _ _ Hok g G HG) as (Hnd & ? & Hm). cbn.
    split; [by apply NoDup_remove1|]. split; [done|].
    intros q. rewrite elem_of_remove_one, Hm by done. split.
    + intros [(Q & HQ & ?) ?]. exists Q. by rewrite Hpr.
    + intros (Q & [[-> ->]|[? ?]]%(leave_procs _ _ _ _ _ _ _ _ _ Hlv) & ?); [done|eauto].
Qed.

Lemma leave_groups_of s x g p X G P y Y : leaving s x g p X G P → sess (after s x g p G) !! y = Some Y →
  NoDup (ss_pgroups Y) ∧ (ss_pgroups Y = [] → y = x) ∧ 0 ≤ ss_refs Y ∧
  (∀ h, h ∈ ss_pgroups Y ↔ ∃ H, pgroups (after s x g p G) !! h = Some H ∧ pg_sessoin H = Some y).
Proof.
  intros Hlv. pose proof Hlv as (Hok & [HP Hpg Hps HX HG Hgx Hin Hr Hr'] & Hx).
  rewrite (leave_sess _ _ _ _ _ _ _ _ _ Hlv). intros [[Hne HY]|[-> ->]].
  - destruct (go_groups _ _ Hok y Y HY) as (Hnd & He & Hrf & Hm). split; [done|]. split; [intros E; by specialize (He E)|].
    split; [done|]. intros h. rewrite Hm. setoid_rewrite (λ h H, leave_groups _ _ _ _ _ _ _ h H Hlv). split.
    + intros (H & HH & ?). exists H. split; [|done]. left. split; [congruence|done].
    + intros (H & [[? ?]|(-> & _ & ->)] & Hs); [by exists H|]. cbn in Hs. congruence.
  - destruct (go_groups _ _ Hok x X HX) as (Hnd & He & Hrf & Hm). unfold groups_left.
    setoid_rewrite (λ h H, leave_groups _ _ _ _ _ _ _ h H Hlv). destruct (remove1 p (pg_procs G)) as [|q l] eqn:E; cbn.
    + split; [by apply NoDup_remove1|]. split; [done|]. split; [done|].
      intros h. rewrite elem_of_remove_one, Hm by done. naive_solver.
    + split; [done|]. split; [done|]. split; [done|].
      intros h. rewrite Hm. split.
      * intros (H & HH & ?). destruct (decide (h = g)) as [->|?]; [|by eauto 6].
        exists (del_proc p H). simplify_eq. by eauto 6.
      * naive_solver.
Qed.

Lemma groups_ok_leave s x g p X G P : leaving s x g p X G P → groups_ok (Some x) (after s x g p G).
Proof.
  intros Hlv. pose proof Hlv as (Hok & [HP Hpg Hps HX HG Hgx Hin Hr Hr'] & Hx).
  assert (Hl : sessions (after s x g p G) = sessions s ∧ processes (after s x g p G) = processes s)
    by (unfold leave_state; by destruct (remove1 p (pg_procs G))).
  assert (Hback : ∀ h H, pgroups (after s x g p G) !! h = Some H → ∃ H0, pgroups s !! h = Some H0 ∧
     pg_sessoin H0 = pg_sessoin H ∧ pg_id H0 = pg_id H) by (intros h H; rewrite (leave_groups _ _ _ _ _ _ _ _ _ Hlv); naive_solver).
  destruct Hl as [Hl1 Hl2]. split; rewrite ?Hl1, ?Hl2.
  - intros h H. by apply leave_members with (1 := Hlv).
  - intros y Y HY. destruct (leave_groups_of _ _ _ _ _ _ _ y Y Hlv HY) as (? & He & ? & ?). split; [done|].
    split; [intros E; by rewrite (He E)|done].
  - apply (go_nodup _ _ Hok).
  - intros y. rewrite (go_sessions _ _ Hok). unfold is_Some. setoid_rewrite (λ y Y, leave_sess _ _ _ _ _ _ _ y Y Hlv).
    destruct (decide (y = x)) as [->|?]; naive_solver.
  - intros h H (H0 & HH0 & He & _)%Hback. destruct (go_home _ _ Hok h H0 HH0) as (y & Y & Hy & HY).
    exists y. rewrite <- He, Hy. setoid_rewrite (λ y Y, leave_sess _ _ _ _ _ _ _ y Y Hlv). destruct (decide (y = x)) as [->|?]; naive_solver.
  - intros q Q [[-> ->]|[Hne HQ]]%(leave_procs _ _ _ _ _ _ _ _ _ Hlv); [done|].
    pose proof (go_job _ _ Hok q Q HQ) as Hj. destruct (p_pgroup Q) as [h|] eqn:Hh; [|done].
    destruct Hj as (? & H & HH & Hs). split; [done|]. setoid_rewrite (λ h H, leave_groups _ _ _ _ _ _ _ h H Hlv).
    destruct (decide (h = g)) as [->|?]; [|by eauto 6]. simplify_eq.
    exists (del_proc p G). split; [|done]. right. split; [done|]. split; [|done].
    destruct (go_members _ _ Hok g G HG) as (Hnd & _ & Hm).
    assert (q ∈ remove1 p (pg_procs G)) by (apply elem_of_remove_one; [done|]; split; [apply Hm; eauto|done]).
    intros E0. apply (not_elem_of_nil q). by rewrite <- E0.
  - intros h1 h2 H1 H2 (K1 & ? & _ & E1)%Hback (K2 & ? & _ & E2)%Hback E.
    apply (go_ids _ _ Hok h1 h2 K1 K2); congruence.
  - intros q Q h H Hq HQ (H0 & HH0 & Hs & Hi)%Hback Hpid. rewrite <- Hs.
    apply (leave_procs _ _ _ _ _ _ _ _ _ Hlv) in HQ as [[-> ->]|[Hne HQ]].
    + right. split; [done|]. split; [done|].
      destruct (go_own _ _ Hok p P h H0) as [?|(_ & ? & _)]; [done..|cbn in Hpid; congruence|congruence|done].
    + destruct (go_own _ _ Hok q Q h H0) as [?|(_ & ? & _)]; [done..|congruence|by left|done].
Qed.
End leave.

(** ** Closing the gap *)

(** Every group that has the id of a process other than [p] is in its session. *)
Definition own_strict (p : ptr) (s : jobs) : Prop :=
  ∀ q Q g G, Some q ≠ p → q ∈ processes s → procs s !! q = Some Q → pgroups s !! g = Some G →
    pg_id G = p_pid Q → pg_sessoin G = p_session Q.

Lemma groups_ok_own s p : groups_ok NULL s → own_strict p s.
Proof. intros Hok q Q g G _ Hq HQ HG He. destruct (go_own _ _ Hok q Q g G) as [?|(_ & ? & _)]; done. Qed.

Lemma groups_ok_strict x s :
  groups_ok (Some x) s → (∀ X, sess s !! x = Some X → ss_pgroups X ≠ []) → own_strict NULL s → groups_ok NULL s.
Proof.
  intros Hok Hx Hown. split; try apply Hok.
  - intros y Y HY. destruct (go_groups _ _ Hok y Y HY) as (? & He & ? & ?). split; [done|]. split; [|done].
    intros E. specialize (He E). simplify_eq. by destruct (Hx Y HY).
  - intros q Q g G Hq HQ HG He. left. by apply (Hown q Q g G).
Qed.

(** A session without a group is taken off. *)
Definition drop_session (x : loc) (s : jobs) : jobs :=
  {| (s) with sess := delete x (sess s); sessions := remove1 x (sessions s) |}.

Lemma groups_ok_drop x X s :
  groups_ok (Some x) s → sess s !! x = Some X → ss_pgroups X = [] → groups_ok (Some x) (drop_session x s).
Proof.
  intros Hok HX He. split; cbn; try apply Hok.
  - intros y Y [Hne HY]%lookup_delete_Some. by apply (go_groups _ _ Hok).
  - apply NoDup_remove1, Hok.
  - intros y. rewrite elem_of_remove_one, (go_sessions _ _ Hok) by apply Hok. unfold is_Some.
    setoid_rewrite lookup_delete_Some. naive_solver.
  - intros g G HG. destruct (go_home _ _ Hok g G HG) as (y & Y & Hy & HY). exists y, Y. split; [done|].
    rewrite lookup_delete_ne; [done|]. intros <-. simplify_eq.
    destruct (go_groups _ _ Hok x X HX) as (_ & _ & _ & Hm). apply (not_elem_of_nil g). rewrite <- He.
    apply Hm. eauto.
Qed.

Lemma groups_ok_processes ps E s :
  groups_ok E s → (∀ q, q ∈ ps → q ∈ processes s) →
  (∀ q Q, q ∈ processes s → procs s !! q = Some Q → p_pgroup Q ≠ NULL → q ∈ ps) →
  groups_ok E {| (s) with processes := ps |}.
Proof.
  intros Hok Hsub Hin. split; cbn; try apply Hok.
  - intros q Q HQ. pose proof (go_job _ _ Hok q Q HQ) as Hj. destruct (p_pgroup Q) eqn:E'; [|done].
    destruct Hj as [Hq ?]. split; [|done]. by apply (Hin q Q); rewrite ?E'.
  - intros q Q g G Hq. apply (go_own _ _ Hok), Hsub, Hq.
Qed.

(** After [session_exit] of [setsid] and of [exit], which takes the process off the list. *)
Lemma groups_ok_exit ps s x g p X G P :
  leaving s x g p X G P → (∀ q, q ∈ ps → q ∈ processes s) → (∀ q, q ∈ processes s → q ≠ p → q ∈ ps) →
  (p ∈ ps → ∀ h H, pgroups s !! h = Some H → pg_id H ≠ p_pid P) →
  groups_ok NULL {| (exit_state x g p X G s) with processes := ps |}.
Proof.
  intros Hlv Hsub Hkeep Hno. pose proof Hlv as (Hok & [HP Hpg Hps HX HG Hgx Hin Hr Hr'] & Hx).
  pose proof (groups_ok_leave _ _ _ _ _ _ _ Hlv) as Hok'.
  pose proof (leave_state_sess x g p G X s HX) as HX'.
  assert (Hps' : processes (leave_state x g p G s) = processes s)
    by (unfold leave_state; by destruct (remove1 p (pg_procs G))).
  assert (Hown : own_strict NULL {| (leave_state x g p G s) with processes := ps |}).
  { intros q Q h H _ Hq HQ HH He. cbn in *. rewrite (leave_groups _ _ _ _ _ _ _ _ _ Hlv) in HH.
    apply (leave_procs _ _ _ _ _ _ _ _ _ Hlv) in HQ as [[-> ->]|[Hne HQ]].
    - exfalso. destruct HH as [[_ HH]|(-> & _ & ->)]; [by apply (Hno Hq h H)|by apply (Hno Hq g G)].
    - destruct HH as [[_ HH]|(-> & _ & ->)];
        [apply (groups_ok_own _ NULL Hok q Q h H)|apply (groups_ok_own _ NULL Hok q Q g G)]; auto. }
  assert (Hok2 : groups_ok (Some x) {| (leave_state x g p G s) with processes := ps |}).
  { apply groups_ok_processes; [done|by rewrite Hps'|]. rewrite Hps'. intros q Q Hq HQ Hn. apply Hkeep; [done|].
    intros ->. apply (leave_procs _ _ _ _ _ _ _ _ _ Hlv) in HQ as [[_ ->]|[? _]]; done. }
  unfold exit_state. destruct (ss_pgroups (groups_left g p G X)) as [|h l] eqn:E.
  - apply (groups_ok_strict x); [|by cbn; rewrite lookup_delete_eq|exact Hown].
    exact (groups_ok_drop x _ _ Hok2 HX' E).
  - apply (groups_ok_strict x); [done| |done]. cbn. rewrite HX'. intros ? [= <-]. by rewrite E.
Qed.

(** ** Joining *)

Definition join_state (x g p : loc) (s : jobs) : jobs :=
  {| (add_member g p s) with procs := alter (set_session_of (Some x)) p (alter (set_group_of (Some g)) p (procs s)) |}.

Lemma groups_ok_join x g p P G s :
  groups_ok (Some x) s → procs s !! p = Some P → p_pgroup P = NULL → p ∈ processes s →
  pgroups s !! g = Some G → pg_sessoin G = Some x → own_strict (Some p) s → groups_ok NULL (join_state x g p s).
Proof.
  intros Hok HP Hn Hp HG Hx Hown.
  assert (Hs : p_session P = NULL) by (pose proof (go_job _ _ Hok p P HP) as Hj; by rewrite Hn in Hj).
  set (P' := set_session_of (Some x) (set_group_of (Some g) P)).
  assert (Hpr : ∀ q Q, procs (join_state x g p s) !! q = Some Q ↔ (q = p ∧ Q = P') ∨ (q ≠ p ∧ procs s !! q = Some Q)).
  { intros q Q. cbn. rewrite alter_twice, lookup_alter_Some. naive_solver. }
  assert (Hgr : ∀ h H, pgroups (join_state x g p s) !! h = Some H ↔
     (h = g ∧ H = add_proc p G) ∨ (h ≠ g ∧ pgroups s !! h = Some H)).
  { intros h H. cbn. rewrite lookup_alter_Some. naive_solver. }
  assert (Hback : ∀ h H, pgroups (join_state x g p s) !! h = Some H → ∃ H0, pgroups s !! h = Some H0 ∧
     pg_sessoin H0 = pg_sessoin H ∧ pg_id H0 = pg_id H) by (intros h H; rewrite Hgr; naive_solver).
  split.
  - intros h H [[-> ->]|[Hne HH]]%Hgr.
    + destruct (go_members _ _ Hok g G HG) as (Hnd & Hrf & Hm). cbn [pg_procs add_proc pg_refs].
      assert (p ∉ pg_procs G) by (rewrite Hm; naive_solver).
      split; [apply NoDup_app; split; [done|]; split; [set_solver|apply NoDup_singleton]|].
      split; [done|]. intros q. rewrite elem_of_app, Hm, list_elem_of_singleton.
      setoid_rewrite Hpr. destruct (decide (q = p)) as [->|?]; [|naive_solver].
      split; [|naive_solver]. intros _. exists P'. split; [by left|done].
    + destruct (go_members _ _ Hok h H HH) as (Hnd & Hrf & Hm). do 2 (split; [done|]).
      intros q. rewrite Hm. setoid_rewrite Hpr. split.
      * intros (Q & HQ & ?). exists Q. split; [|done]. right. split; [congruence|done].
      * intros (Q & [[-> ->]|[? ?]] & Hq); [cbn in Hq; congruence|eauto].
  - intros y Y HY. cbn in HY. destruct (go_groups _ _ Hok y Y HY) as (Hnd & He & Hrf & Hm).
    assert (Hm' : ∀ h, h ∈ ss_pgroups Y ↔ ∃ H, pgroups (join_state x g p s) !! h = Some H ∧ pg_sessoin H = Some y).
    { intros h. rewrite Hm. setoid_rewrite Hgr. split; [|naive_solver].
      intros (H & HH & ?). destruct (decide (h = g)) as [->|?]; [|by eauto 6].
      exists (add_proc p G). simplify_eq. by eauto. }
    split; [done|]. split; [|done]. intros E. specialize (He E). simplify_eq. exfalso.
    apply (not_elem_of_nil g). rewrite <- E. apply Hm. eauto.
  - apply (go_nodup _ _ Hok).
  - apply (go_sessions _ _ Hok).
  - intros h H (H0 & HH0 & <- & _)%Hback. apply (go_home _ _ Hok h H0 HH0).
  - intros q Q [[-> ->]|[Hne HQ]]%Hpr; cbn.
    + split; [done|]. exists (add_proc p G). split; [|done]. apply Hgr. by left.
    + pose proof (go_job _ _ Hok q Q HQ) as Hj. destruct (p_pgroup Q) as [h|]; [|done].
      destruct Hj as (? & H & HH & ?). split; [done|]. setoid_rewrite Hgr.
      destruct (decide (h = g)) as [->|?]; [exists (add_proc p G); simplify_eq|]; by eauto.
  - intros h1 h2 H1 H2 (K1 & ? & _ & E1)%Hback (K2 & ? & _ & E2)%Hback E.
    apply (go_ids _ _ Hok h1 h2 K1 K2); congruence.
  - intros q Q h H Hq HQ (H0 & HH0 & <- & <-)%Hback He. left. apply Hpr in HQ as [[-> ->]|[Hne HQ]].
    + destruct (go_own _ _ Hok p P h H0) as [Hh|(_ & _ & Hh)]; [done..| |done].
      destruct (go_home _ _ Hok h H0 HH0) as (? & ? & ? & _). congruence.
    + apply (Hown q Q h H0); [congruence|done..].
Qed.

Lemma groups_full_leave s x g p X G P : leaving s x g p X G P → groups_full s → groups_full (leave_state x g p G s).
Proof. intros Hlv Hf h H. rewrite (leave_groups _ _ _ _ _ _ _ _ _ Hlv). intros [[_ HH]|(_ & Hne & ->)]; [by apply (Hf h)|done]. Qed.

(** Every group but [g] has a process. *)
Lemma groups_full_join x g p s :
  (∀ h H, h ≠ g → pgroups s !! h = Some H → pg_procs H ≠ []) → groups_full (join_state x g p s).
Proof.
  intros Hf h H HH. cbn in HH. apply lookup_alter_Some in HH as [(<- & G & HG & ->)|[? HH]]; [|by apply (Hf h)].
  cbn. by destruct (pg_procs G).
Qed.

(** ** New groups and sessions *)

Definition empty_group (pid : Z) (p x : loc) : pgroup_t :=
  {| pg_id := pid; pg_leader := p; pg_procs := []; pg_refs := 2; pg_sessoin := Some x |}.
Definition add_empty_group (x g p : loc) (pid : Z) (s : jobs) : jobs :=
  {| (s) with pgroups := <[g := empty_group pid p x]> (pgroups s); sess := alter (add_group g) x (sess s) |}.
Definition add_empty_session (x p : loc) (pid : Z) (s : jobs) : jobs :=
  {| (s) with sess := <[x := {| ss_sid := pid; ss_leader := p; ss_pgroups := []; ss_refs := 1 |}]> (sess s);
              sessions := sessions s ++ [x] |}.

Lemma group_in_join x g p pid s : group_in x g p pid s = join_state x g p (add_empty_group x g p pid s).
Proof. unfold group_in, join_state, add_empty_group, add_member. cbn. by rewrite alter_insert_same. Qed.
Lemma new_session_join x g p pid s :
  new_session x g p pid s = join_state x g p (add_empty_group x g p pid (add_empty_session x p pid s)).
Proof. unfold new_session, join_state, add_empty_group, add_empty_session, add_member. cbn. by rewrite !alter_insert_same. Qed.

(** A process that is in no session, whose id no other process and no group has. *)
Record lone (s : jobs) (p : loc) (P : proc_t) : Prop := {
  ln_proc : procs s !! p = Some P;
  ln_pgroup : p_pgroup P = NULL;
  ln_in : p ∈ processes s;
  ln_pid : ∀ q Q, procs s !! q = Some Q → p_pid Q = p_pid P → q = p;
  ln_pgid : ∀ g G, pgroups s !! g = Some G → pg_id G ≠ p_pid P;
}.

Lemma groups_ok_add_group x g p P X s :
  groups_ok (Some x) s → sess s !! x = Some X → pgroups s !! g = None → lone s p P →
  groups_ok (Some x) (add_empty_group x g p (p_pid P) s).
Proof.
  intros Hok HX Hg [HP Hn Hp Hpid Hpgid]. set (G := empty_group (p_pid P) p x).
  assert (Hgr : ∀ h H, pgroups (add_empty_group x g p (p_pid P) s) !! h = Some H ↔
     (h = g ∧ H = G) ∨ (h ≠ g ∧ pgroups s !! h = Some H)).
  { intros h H. cbn. rewrite lookup_insert_Some. naive_solver. }
  split.
  - intros h H [[-> ->]|[Hne HH]]%Hgr; [|by apply (go_members _ _ Hok h H HH)]. cbn.
    split; [constructor|]. split; [done|]. intros q. split; [by intros ?%elem_of_nil|]. intros (Q & HQ & Hh).
    pose proof (go_job _ _ Hok q Q HQ) as Hj. rewrite Hh in Hj. naive_solver.
  - intros y Y HY. cbn in HY. setoid_rewrite Hgr. apply lookup_alter_Some in HY as [(<- & X' & HX' & ->)|[Hne HY]].
    + simplify_eq. destruct (go_groups _ _ Hok x X HX) as (Hnd & _ & Hrf & Hm). cbn.
      split; [|split; [done|]; split; [done|]].
      * apply NoDup_app. split; [done|]. split; [|apply NoDup_singleton].
        intros h Hh%Hm ->%list_elem_of_singleton. naive_solver.
      * intros h. rewrite elem_of_app, Hm, list_elem_of_singleton. destruct (decide (h = g)) as [->|?]; naive_solver.
    + destruct (go_groups _ _ Hok y Y HY) as (Hnd & He & Hrf & Hm). do 3 (split; [done|]).
      intros h. rewrite Hm. split; [|naive_solver]. intros (H & HH & ?). exists H. split; [|done]. right. split; [congruence|done].
  - apply (go_nodup _ _ Hok).
  - intros y. rewrite (go_sessions _ _ Hok). cbn. by rewrite lookup_alter_is_Some.
  - intros h H [[-> ->]|[Hne HH]]%Hgr; cbn.
    + exists x. setoid_rewrite lookup_alter_eq. rewrite HX. eauto.
    + destruct (go_home _ _ Hok h H HH) as (y & Y & Hy & HY). exists y. setoid_rewrite lookup_alter_Some.
      destruct (decide (x = y)) as [<-|?]; naive_solver.
  - intros q Q HQ. pose proof (go_job _ _ Hok q Q HQ) as Hj. cbn in *. destruct (p_pgroup Q) as [h|]; [|done].
    destruct Hj as (? & H & HH & ?). split; [done|]. exists H. split; [|done]. by rewrite lookup_insert_ne by congruence.
  - intros h1 h2 H1 H2 [[-> ->]|[? HH1]]%Hgr [[-> ->]|[? HH2]]%Hgr E; cbn in E; [done|..].
    + by destruct (Hpgid h2 H2).
    + by destruct (Hpgid h1 H1).
    + by apply (go_ids _ _ Hok h1 h2 H1 H2).
  - intros q Q h H Hq HQ [[-> ->]|[? HH]]%Hgr E; cbn in *; [|by apply (go_own _ _ Hok q Q h H)].
    assert (q = p) as -> by (by apply (Hpid q Q)). right. simplify_eq.
    pose proof (go_job _ _ Hok p P HP) as Hj. by rewrite Hn in Hj.
Qed.

Lemma groups_ok_add_session x p pid s :
  groups_ok NULL s → sess s !! x = None → groups_ok (Some x) (add_empty_session x p pid s).
Proof.
  intros Hok Hx. split; cbn; try apply Hok.
  - intros y Y [[<- <-]|[Hne HY]]%lookup_insert_Some; cbn.
    + split; [constructor|]. split; [done|]. split; [done|]. intros g. split; [by intros ?%elem_of_nil|].
      intros (G & HG & Hs). destruct (go_home _ _ Hok g G HG) as (? & ? & ? & ?). congruence.
    + destruct (go_groups _ _ Hok y Y HY) as (? & He & ? & ?). split; [done|]. split; [intros E; by specialize (He E)|done].
  - apply NoDup_app. split; [apply Hok|]. split; [|apply NoDup_singleton].
    intros y Hy ->%list_elem_of_singleton. apply (go_sessions _ _ Hok) in Hy as [? ?]. congruence.
  - intros y. rewrite elem_of_app, (go_sessions _ _ Hok), list_elem_of_singleton, lookup_insert_is_Some.
    destruct (decide (x = y)) as [<-|?]; naive_solver.
  - intros g G HG. destruct (go_home _ _ Hok g G HG) as (y & Y & Hy & HY). exists y, Y. split; [done|].
    by rewrite lookup_insert_ne by congruence.
  - intros q Q g G Hq HQ HG He. left. by apply (groups_ok_own _ NULL Hok q Q g G).
Qed.

Lemma groups_ok_group_in x g p P X s :
  groups_ok (Some x) s → groups_full s → own_strict (Some p) s →
  sess s !! x = Some X → pgroups s !! g = None → lone s p P →
  groups_ok NULL (group_in x g p (p_pid P) s) ∧ groups_full (group_in x g p (p_pid P) s).
Proof.
  intros Hok Hf Hown HX Hg Hln. rewrite group_in_join. pose proof Hln as [HP Hn Hp Hpid Hpgid]. split.
  - eapply groups_ok_join; [by eapply groups_ok_add_group|done..|cbn; by rewrite lookup_insert_eq|done|].
    intros q Q h H Hne Hq HQ HH E. cbn in *. apply lookup_insert_Some in HH as [[<- <-]|[? HH]]; cbn in *.
    + assert (q = p) by (by apply (Hpid q Q)). congruence.
    + by apply (Hown q Q h H).
  - apply groups_full_join. intros h H ? HH. cbn in HH. rewrite lookup_insert_ne in HH by congruence. by apply (Hf h).
Qed.

Lemma groups_ok_new_session x g p P s :
  groups_ok NULL s → groups_full s → sess s !! x = None → pgroups s !! g = None → lone s p P →
  groups_ok NULL (new_session x g p (p_pid P) s) ∧ groups_full (new_session x g p (p_pid P) s).
Proof.
  intros Hok Hf Hx Hg Hln. rewrite new_session_join, <- group_in_join. eapply groups_ok_group_in.
  - by apply groups_ok_add_session.
  - done.
  - exact (groups_ok_own s (Some p) Hok).
  - cbn. by rewrite lookup_insert_eq.
  - done.
  - destruct Hln. by split.
Qed.

(** ** The table of processes *)

Definition live (P : proc_t) : Prop := p_state P ≠ ZOMBIE ∧ p_state P ≠ TERMINATED.

(** Every process that is not dead is on the list and only these; ids are given once;
    the queue of children of a process has the processes that point to it, a dead
    process has no children; every process but [initproc] has a parent, which is older. *)
Record table_ok (s : jobs) : Prop := {
  to_nodup : NoDup (processes s);
  to_list : ∀ p, p ∈ processes s ↔ ∃ P, procs s !! p = Some P ∧ live P;
  to_pid : ∀ p q P Q, procs s !! p = Some P → procs s !! q = Some Q → p_pid P = p_pid Q → p = q;
  to_range : ∀ p P, procs s !! p = Some P → 0 < p_pid P ≤ pids s;
  to_pgid : ∀ g G, pgroups s !! g = Some G → pg_id G ≤ pids s;
  to_children : ∀ q Q, procs s !! q = Some Q →
    NoDup (p_children Q) ∧ (∀ p, p ∈ p_children Q ↔ ∃ P, procs s !! p = Some P ∧ p_parent P = Some q);
  to_dead : ∀ p P, procs s !! p = Some P → ¬ live P → p_children P = [];
  to_parent : ∀ p P, procs s !! p = Some P →
    match p_parent P with
    | Some q => ∃ Q, procs s !! q = Some Q ∧ p_pid Q < p_pid P
    | None => initproc s = Some p
    end;
  to_init : ∃ i I, initproc s = Some i ∧ procs s !! i = Some I ∧ live I ∧ p_parent I = NULL ∧
    (∀ p P, procs s !! p = Some P → p ≠ i → p_pid I < p_pid P);
}.

(** The state of a system between two calls. *)
Record jobs_ok (s : jobs) : Prop := {
  jo_groups : groups_ok NULL s;
  jo_full : groups_full s;
  jo_table : table_ok s;
  jo_locks : locks s = ∅;
}.

(** Group and session do not matter for the table. *)
Definition row_of (P : proc_t) : Z * ptr * pstate * list loc := (p_pid P, p_parent P, p_state P, p_children P).
Definition rows (s : jobs) : gmap loc (Z * ptr * pstate * list loc) := row_of <$> procs s.

Lemma rows_lookup s s' p P : rows s = rows s' → procs s !! p = Some P →
  ∃ P', procs s' !! p = Some P' ∧ p_pid P = p_pid P' ∧ p_parent P = p_parent P' ∧ p_state P = p_state P' ∧
    p_children P = p_children P'.
Proof.
  intros Hr HP. assert (rows s' !! p = Some (row_of P)) as Hp by (rewrite <- Hr; unfold rows; by rewrite lookup_fmap, HP).
  unfold rows in Hp. rewrite lookup_fmap in Hp. destruct (procs s' !! p) as [P'|]; [|done].
  exists P'. cbn in Hp. unfold row_of in Hp. by simplify_eq.
Qed.
Lemma rows_alter (f : proc_t → proc_t) (p : loc) (m : gmap loc proc_t) : (∀ P, row_of (f P) = row_of P) → row_of <$> alter f p m = row_of <$> m.
Proof.
  intros Hf. apply map_eq. intros q. rewrite !lookup_fmap. destruct (decide (q = p)) as [->|?].
  - rewrite lookup_alter_eq. destruct (m !! p); cbn; [by rewrite Hf|done].
  - by rewrite lookup_alter_ne.
Qed.

Lemma table_ok_rows s s' :
  table_ok s → rows s = rows s' → processes s' = processes s → pids s' = pids s → initproc s' = initproc s →
  (∀ g G, pgroups s' !! g = Some G → pg_id G ≤ pids s) → table_ok s'.
Proof.
  intros Hok Hr Hps Hpids Hin Hids.
  assert (Hb : ∀ p P, procs s' !! p = Some P → ∃ P', procs s !! p = Some P' ∧ p_pid P = p_pid P' ∧
    p_parent P = p_parent P' ∧ p_state P = p_state P' ∧ p_children P = p_children P') by (by intros; eapply rows_lookup).
  pose proof (λ p P, rows_lookup s s' p P Hr) as Hf.
  split; rewrite ?Hps, ?Hpids, ?Hin.
  - apply Hok.
  - intros p. rewrite (to_list _ Hok). unfold live. split; intros (P & HP & Hl).
    + destruct (Hf p P HP) as (P' & ? & _ & _ & E & _). exists P'. by rewrite <- E.
    + destruct (Hb p P HP) as (P' & ? & _ & _ & E & _). exists P'. by rewrite <- E.
  - intros p q P Q (P' & ? & ? & _)%Hb (Q' & ? & ? & _)%Hb E. apply (to_pid _ Hok p q P' Q'); congruence.
  - intros p P (P' & ? & -> & _)%Hb. by apply (to_range _ Hok p).
  - done.
  - intros q Q (Q' & HQ & _ & _ & _ & ->)%Hb. destruct (to_children _ Hok q Q' HQ) as [? Hc]. split; [done|].
    intros p. rewrite Hc. split; intros (P & HP & Hl).
    + destruct (Hf p P HP) as (P' & ? & _ & E & _). exists P'. by rewrite <- E.
    + destruct (Hb p P HP) as (P' & ? & _ & E & _). exists P'. by rewrite <- E.
  - intros p P (P' & HP & _ & _ & E & ->)%Hb Hd. apply (to_dead _ Hok p P' HP). unfold live in *. by rewrite <- E.
  - intros p P (P' & HP & Ep & E & _)%Hb. pose proof (to_parent _ Hok p P' HP) as Hq. rewrite <- E in Hq.
    destruct (p_parent P) as [q|]; [|done]. destruct Hq as (Q & HQ & Hlt). destruct (Hf q Q HQ) as (Q' & ? & ? & _).
    exists Q'. split; [done|congruence].
  - destruct (to_init _ Hok) as (i & I & ? & HI & Hl & Hn & Hlt). destruct (Hf i I HI) as (I' & ? & Ei & E & E' & _).
    exists i, I'. unfold live in *. rewrite <- E, <- E', <- Ei. do 4 (split; [done|]).
    intros p P (P' & HP & -> & _)%Hb. by apply Hlt.
Qed.

(** Only the id, the group and the session of a process matter for the groups. *)
Definition col_of (P : proc_t) : Z * ptr * ptr := (p_pid P, p_pgroup P, p_session P).
Definition cols (s : jobs) : gmap loc (Z * ptr * ptr) := col_of <$> procs s.

Lemma cols_lookup s s' p P : cols s = cols s' → procs s !! p = Some P →
  ∃ P', procs s' !! p = Some P' ∧ p_pid P = p_pid P' ∧ p_pgroup P = p_pgroup P' ∧ p_session P = p_session P'.
Proof.
  intros Hr HP. assert (cols s' !! p = Some (col_of P)) as Hp by (rewrite <- Hr; unfold cols; by rewrite lookup_fmap, HP).
  unfold cols in Hp. rewrite lookup_fmap in Hp. destruct (procs s' !! p) as [P'|]; [|done].
  exists P'. cbn in Hp. unfold col_of in Hp. by simplify_eq.
Qed.
Lemma cols_alter (f : proc_t → proc_t) (p : loc) (m : gmap loc proc_t) :
  (∀ P, col_of (f P) = col_of P) → col_of <$> alter f p m = col_of <$> m.
Proof.
  intros Hf. apply map_eq. intros q. rewrite !lookup_fmap. destruct (decide (q = p)) as [->|?].
  - rewrite lookup_alter_eq. destruct (m !! p); cbn; [by rewrite Hf|done].
  - by rewrite lookup_alter_ne.
Qed.

Lemma groups_ok_cols E s s' :
  groups_ok E s → cols s = cols s' → pgroups s' = pgroups s → sess s' = sess s → sessions s' = sessions s →
  processes s' = processes s → groups_ok E s'.
Proof.
  intros Hok Hc E1 E2 E3 E4. pose proof (λ p P, cols_lookup s s' p P Hc) as Hf.
  pose proof (λ p P, cols_lookup s' s p P (eq_sym Hc)) as Hb.
  split; rewrite ?E1, ?E2, ?E3, ?E4; try apply Hok.
  - intros g G HG. destruct (go_members _ _ Hok g G HG) as (? & ? & Hm). do 2 (split; [done|]).
    intros p. rewrite Hm. split; intros (P & HP & Hg).
    + destruct (Hf p P HP) as (P' & ? & _ & E' & _). exists P'. by rewrite <- E'.
    + destruct (Hb p P HP) as (P' & ? & _ & E' & _). exists P'. by rewrite <- E'.
  - intros p P (P' & HP' & _ & -> & ->)%Hb. apply (go_job _ _ Hok p P' HP').
  - intros p P g G Hp (P' & HP' & -> & _ & ->)%Hb HG He. by apply (go_own _ _ Hok p P' g G).
Qed.

(** A process that is new. *)
Definition with_proc (c : loc) (N : proc_t) (s : jobs) : jobs :=
  {| (s) with procs := <[c := N]> (procs s); processes := processes s ++ [c]; pids := p_pid N |}.

Lemma groups_ok_with_proc s c N :
  groups_ok NULL s → procs s !! c = None → p_pgroup N = NULL → p_session N = NULL →
  (∀ g G, pgroups s !! g = Some G → pg_id G ≠ p_pid N) → groups_ok NULL (with_proc c N s).
Proof.
  intros Hok Hc Hg Hs Hid. split; cbn; try apply Hok.
  - intros g G HG. destruct (go_members _ _ Hok g G HG) as (? & ? & Hm). do 2 (split; [done|]).
    intros p. rewrite Hm. setoid_rewrite lookup_insert_Some. split; [|naive_solver].
    intros (P & HP & ?). exists P. split; [|done]. right. split; [congruence|done].
  - intros p P [[<- <-]|[? HP]]%lookup_insert_Some; [by rewrite Hg|].
    pose proof (go_job _ _ Hok p P HP) as Hj. destruct (p_pgroup P); [|done].
    destruct Hj. split; [|done]. apply elem_of_app. by left.
  - intros p P g G Hp HP HG He. apply lookup_insert_Some in HP as [[<- <-]|[Hne HP]]; [by destruct (Hid g G HG)|].
    apply elem_of_app in Hp as [Hp|Hp%list_elem_of_singleton]; [by apply (go_own _ _ Hok p P g G)|congruence].
Qed.
