(* ===== verification/JobCalls.v ===== *)
(** * System calls on processes ([kernel/sys/proc.c], [kernel/sys/sysproc.c], [kernel/sys/syscall])

    The calls that read and change the tables of [Jobs]: process ids, groups and
    sessions, and of [fork], [exit] and [waitpid] what they do to these tables.  The
    parts of a process that belong to other components (address space, threads, open
    files, program) are left out; a call of these components that may fail takes an
    answer of [room] and reports [-ENOMEM]. *)
From S2P Require Import Prelude Jobs.

Definition NSIG : Z := 32.
Definition WNOHANG : Z := 1.
Definition WAIT_ANY : Z := -1.
Definition WAIT_MYPGRP : Z := 0.

(** [queue_lock(p->children)] *)
Definition lock_children (p : ptr) : M jobs unit :=
  match p with Some l => _ ← rd (V := proc_t) p; acquire (LChildren l) | None => fault end.
Definition unlock_children (p : ptr) : M jobs unit :=
  match p with Some l => _ ← rd (V := proc_t) p; release (LChildren l) | None => fault end.
Definition file_table_lock : ptr → M jobs unit := obj_lock proc_t LTable.
Definition file_table_unlock : ptr → M jobs unit := obj_unlock proc_t LTable.
Definition signals_lock : ptr → M jobs unit := obj_lock proc_t LSig.
Definition signals_unlock : ptr → M jobs unit := obj_unlock proc_t LSig.
Definition signals_assert_lock : ptr → M jobs unit := obj_assert_lock proc_t LSig.
Definition signals_lock_queue (p : ptr) : M jobs unit := signals_assert_lock p;; obj_lock proc_t LSigq p.
Definition signals_unlock_queue (p : ptr) : M jobs unit := signals_assert_lock p;; obj_unlock proc_t LSigq p.

(** ** Finding a process *)

(** The process is returned locked. *)
Fixpoint proc_get_loop (pid : Z) (l : list loc) : M jobs ptr :=
  match l with
  | [] => mret NULL
  | p :: l =>
      proc_lock (Some p);;
      P ← rd (Some p);
      if p_pid P =? pid then mret (Some p) else
      proc_unlock (Some p);;
      proc_get_loop pid l
  end.

Definition proc_get (pid : Z) : M jobs (Z * ptr) :=
  if pid <=? 0 then mret (- EINVAL, NULL) else
  acquire LProcesses;;
  l ← gets processes;
  p ← proc_get_loop pid l;
  release LProcesses;;
  mret (match p with Some _ => (0, p) | None => (- ESRCH, NULL) end).

Definition proc_getchild (pid : Z) : M jobs (Z * ptr) :=
  '(err, child) ← proc_get pid;
  if not_zero err then mret (err, NULL) else
  proc ← me;
  P ← rd child;
  if bool_decide (p_parent P = proc) then proc_unlock child;; mret (- ECHILD, NULL)
  else mret (0, child).

Definition proc_has_execed (p : ptr) : M jobs bool :=
  proc_assert_lock p;; P ← rd p; mret (not_zero (Z.land (p_flags P) PROC_EXECED)).
Definition proc_iskilled (p : ptr) : M jobs bool :=
  proc_assert_lock p;; P ← rd p; mret (not_zero (Z.land (p_flags P) PROC_KILLED)).
Definition proc_isorphan (p : ptr) : M jobs bool :=
  proc_assert_lock p;; P ← rd p; mret (not_zero (Z.land (p_flags P) PROC_ORPHANED)).

Definition getpid : M jobs Z :=
  proc ← me;
  proc_lock proc;;
  P ← rd proc;
  proc_unlock proc;;
  mret (p_pid P).

Definition getppid : M jobs Z :=
  proc ← me;
  proc_lock proc;;
  P ← rd proc;
  proc_unlock proc;;
  match p_parent P with
  | None => mret (- 1)
  | Some _ =>
      proc_lock (p_parent P);;
      Q ← rd (p_parent P);
      proc_unlock (p_parent P);;
      mret (p_pid Q)
  end.

(** ** Groups and sessions *)

Definition getpgid (pid : Z) : M jobs Z :=
  if pid <? 0 then mret (- EINVAL) else
  proc ← me;
  proc_lock proc;;
  C ← rd proc;
  if (pid =? 0) || (pid =? p_pid C) then
    match p_pgroup C with
    | None => proc_unlock proc;; mret (- EINVAL)
    | Some _ =>
        pgroup_lock (p_pgroup C);;
        G ← rd (p_pgroup C);
        pgroup_unlock (p_pgroup C);;
        proc_unlock proc;;
        mret (pg_id G)
    end
  else
  proc_unlock proc;;
  '(err, p) ← proc_get pid;
  if not_zero err then mret err else
  proc_lock proc;;
  C ← rd proc;
  P ← rd p;
  if bool_decide (p_pgroup C = NULL) || bool_decide (p_session C = NULL) ||
     bool_decide (p_session P = NULL) || bool_decide (p_pgroup P = NULL) ||
     negb (bool_decide (p_session P = p_session C)) then
    proc_unlock proc;; proc_unlock p;; mret (- EPERM)
  else
  pgroup_lock (p_pgroup P);;
  G ← rd (p_pgroup P);
  pgroup_unlock (p_pgroup P);;
  proc_unlock proc;;
  proc_unlock p;;
  mret (pg_id G).

Definition getpgrp : M jobs Z := getpgid 0.

Definition getsid (pid : Z) : M jobs Z :=
  proc ← me;
  C ← rd proc;
  match p_session C with
  | None => mret (- EPERM)
  | Some _ =>
      '(err, process) ← (if pid =? 0 then proc_lock proc;; mret (0, proc) else proc_get pid);
      if not_zero err then mret err else
      let other := negb (bool_decide (proc = process)) in
      (if other then proc_lock proc else mret tt);;
      C ← rd proc;
      P ← rd process;
      if bool_decide (p_session P = NULL) || negb (bool_decide (p_session C = p_session P)) then
        proc_unlock process;;
        (if other then proc_unlock proc else mret tt);;
        mret (- EPERM)
      else
      session_lock (p_session P);;
      X ← rd (p_session P);
      session_unlock (p_session P);;
      proc_unlock process;;
      (if other then proc_unlock proc else mret tt);;
      mret (ss_sid X)
  end.

Section calls.
Context `{!Kalloc pgroup_t, !Kalloc session_t, !Kalloc proc_t}.

(** The group [pgid] of the session, made when [pid] asks for a group of its own and
    there is none: the body of both branches of [setpgid]. *)
Definition set_group (session process : ptr) (pid pgid : Z) : M jobs Z :=
  err ← session_pgroup_join session pgid process;
  if pid =? pgid then
    if err =? - ENOENT then
      err ← session_exit session process false;
      if not_zero err then mret err else
      '(err, _) ← session_create_pgroup session process;
      mret err
    else mret err
  else if err =? - ENOENT then mret (- EPERM) else mret err.

(** [session_unlock(proc->session); proc_unlock(proc); proc_unlock(process); ...] *)
Definition setpgid_leave (proc process : ptr) (err : Z) : M jobs Z :=
  C ← rd proc;
  session_unlock (p_session C);;
  proc_unlock proc;;
  proc_unlock process;;
  mret err.

Definition setpgid (pid pgid : Z) : M jobs Z :=
  if (pid <? 0) || (pgid <? 0) then mret (- EINVAL) else
  proc ← me;
  '(err, process) ← (if pid =? 0 then proc_lock proc;; mret (0, proc) else proc_get pid);
  if not_zero err then mret err else
  P ← rd process;
  let pid := if pid =? 0 then p_pid P else pid in
  let pgid := if pgid =? 0 then p_pid P else pgid in
  if bool_decide (p_parent P = proc) then
    proc_lock proc;;
    C ← rd proc;
    session_lock (p_session C);;
    P ← rd process;
    if bool_decide (p_session P = NULL) || bool_decide (p_session C = NULL) ||
       negb (bool_decide (p_session P = p_session C)) then setpgid_leave proc process (- EPERM) else
    execed ← proc_has_execed process;
    if (execed : bool) then setpgid_leave proc process (- EACCES) else
    session_assert_lock (p_session C);;
    X ← rd (p_session C);
    if bool_decide (Some (ss_leader X) = process) then setpgid_leave proc process (- EPERM) else
    err ← set_group (p_session C) process pid pgid;
    setpgid_leave proc process err
  else if bool_decide (process = proc) then
    match p_session P with
    | Some x =>
        session_lock (Some x);;
        err ← set_group (Some x) proc pid pgid;
        session_unlock (Some x);;
        proc_unlock proc;;
        mret err
    | None =>
        if pid =? pgid then
          '(err, _) ← session_create proc false;
          proc_unlock proc;;
          mret err
        else proc_unlock proc;; mret (- EPERM)
    end
  else
  proc_unlock process;;
  mret (- EPERM).

Definition setpgrp : M jobs Z :=
  err ← setpgid 0 0;
  if not_zero err then mret err else getpid.

Definition setsid : M jobs Z :=
  proc ← me;
  proc_lock proc;;
  C ← rd proc;
  '(found, _) ← sessions_find_pgroup (p_pid C) false;
  if found =? 0 then proc_unlock proc;; mret (- EPERM) else
  err ← match p_session C with
        | None => mret 0
        | Some _ => session_exit (p_session C) proc true
        end;
  if not_zero err then proc_unlock proc;; mret err else
  '(err, _) ← session_create proc true;
  proc_unlock proc;;
  mret (if not_zero err then err else p_pid C).

(** ** fork *)

Definition proc_locks (l : loc) : list lk := [LProc l; LChildren l; LTable l; LSig l; LSigq l].

(** The process does not leave the list of processes. *)
Definition proc_free (p : ptr) : M jobs unit :=
  lock_children p;;
  kfree (V := proc_t) p;;
  match p with Some l => drop_locks (proc_locks l) | None => mret tt end.

(** [proc_alloc] once the parts of the process are there: its id and its place in the list. *)
Definition proc_new : M jobs (Z * ptr) :=
  proc ← kmalloc {| p_pid := 0; p_parent := NULL; p_pgroup := NULL; p_session := NULL; p_flags := 0;
                    p_state := EMBRYO; p_exit := 0; p_exit_status := 0; p_children := [];
                    p_uid := 0; p_gid := 0; p_actions := replicate (Z.to_nat NSIG) 0; p_sigs := [] |};
  match proc with
  | None => mret (- ENOMEM, NULL)
  | Some l =>
      acquire LPids;;
      modify (λ s, {| (s) with pids := i32 (pids s + 1) |});;
      pid ← gets pids;
      release LPids;;
      upd proc (λ P, {| (P) with p_pid := pid |});;
      acquire LProcesses;;
      ok ← has_room;
      if negb ok then release LProcesses;; kfree (V := proc_t) proc;; mret (- ENOMEM, NULL) else
      modify (λ s, {| (s) with processes := processes s ++ [l] |});;
      release LProcesses;;
      mret (0, proc)
  end.

(** The address space and the table of files come before; then the signals and the group. *)
Definition proc_copy (dst src : ptr) : M jobs Z :=
  proc_assert_lock src;;
  proc_assert_lock dst;;
  ok ← has_room;
  if negb ok then mret (- ENOMEM) else
  S ← rd src;
  upd dst (λ P, {| (P) with p_state := p_state S |});;
  file_table_lock src;;
  file_table_lock dst;;
  ok ← has_room;
  if negb ok then file_table_unlock dst;; file_table_unlock src;; mret (- ENOMEM) else
  upd dst (λ P, {| (P) with p_gid := p_gid S; p_uid := p_uid S |});;
  file_table_unlock dst;;
  file_table_unlock src;;
  signals_lock src;;
  signals_lock dst;;
  upd dst (λ P, {| (P) with p_actions := p_actions S |});;
  signals_unlock dst;;
  signals_unlock src;;
  match p_pgroup S with
  | None => mret 0
  | Some _ =>
      pgroup_lock (p_pgroup S);;
      err ← pgroup_add (p_pgroup S) dst;
      if not_zero err then pgroup_unlock (p_pgroup S);; mret err else
      upd dst (λ P, {| (P) with p_session := p_session S |});;
      pgroup_unlock (p_pgroup S);;
      mret 0
  end.

Definition fork : M jobs Z :=
  proc ← me;
  proc_lock proc;;
  '(err, child) ← proc_new;
  if not_zero err then proc_unlock proc;; mret err else
  proc_lock child;;
  err ← proc_copy child proc;
  if not_zero err then proc_unlock child;; proc_unlock proc;; proc_free child;; mret err else
  upd child (λ P, {| (P) with p_parent := proc |});;
  C ← rd child;
  ok ← has_room;
  if negb ok then proc_unlock child;; proc_unlock proc;; proc_free child;; mret (- ENOMEM) else
  proc_unlock child;;
  proc_unlock proc;;
  lock_children proc;;
  ok ← has_room;
  if negb ok then unlock_children proc;; proc_free child;; mret (- ENOMEM) else
  match child with
  | Some c => upd proc (λ P, {| (P) with p_children := p_children P ++ [c] |})
  | None => fault
  end;;
  unlock_children proc;;
  ok ← has_room;
  if negb ok then proc_free child;; mret (- ENOMEM) else
  mret (p_pid C).

(** ** exit *)

Definition signals_cancel (process : ptr) : M jobs Z :=
  proc_assert_lock process;;
  signals_lock process;;
  signals_lock_queue process;;
  upd process (λ P, {| (P) with p_sigs := [] |});;
  signals_unlock_queue process;;
  upd process (λ P, {| (P) with p_actions := replicate (Z.to_nat NSIG) 0 |});;
  signals_unlock process;;
  mret 0.

(** The children go to [initproc]. *)
Fixpoint orphan_children (proc init : ptr) (l : list loc) : M jobs unit :=
  match l with
  | [] => mret tt
  | c :: l =>
      proc_lock (Some c);;
      upd (Some c) (λ P, {| (P) with p_parent := init |});;
      upd proc (λ P, {| (P) with p_children := remove1 c (p_children P) |});;
      upd (Some c) (λ P, {| (P) with p_flags := Z.lor (p_flags P) PROC_ORPHANED |});;
      ok ← has_room;
      (if (ok : bool) then upd init (λ P, {| (P) with p_children := p_children P ++ [c] |}) else mret tt);;
      proc_unlock (Some c);;
      orphan_children proc init l
  end.

(** After [thread_kill_all], without the files and the address space. *)
Definition exit (status : Z) : M jobs unit :=
  proc ← me;
  init ← gets initproc;
  if bool_decide (proc = init) then panic else
  proc_lock proc;;
  C ← rd proc;
  let parent := p_parent C in
  let session := p_session C in
  signals_cancel proc;;
  proc_lock parent;;
  acquire LProcesses;;
  modify (λ s, {| (s) with processes := remove1 (cur s) (processes s) |});;
  release LProcesses;;
  match session with Some _ => session_exit session proc true;; mret tt | None => mret tt end;;
  lock_children init;;
  lock_children proc;;
  C ← rd proc;
  orphan_children proc init (p_children C);;
  unlock_children proc;;
  unlock_children init;;
  upd proc (λ P, {| (P) with p_state := ZOMBIE; p_exit := u32 status |});;
  proc_unlock proc;;
  proc_unlock parent.

(** ** waitpid *)

(** One turn of a loop of [waitpid]: it goes to sleep on [wait_child], or it returns a
    value and, if it goes through [done], a status. *)
Inductive waited : Type := Sleeps | Returns (r : Z) (status : option Z).

Definition dead (P : proc_t) : bool := bool_decide (p_state P = ZOMBIE) || bool_decide (p_state P = TERMINATED).

(** A dead child is taken off the queue [children] of [proc] and freed. *)
Definition reap (proc process : ptr) : M jobs unit :=
  match process with
  | Some c => upd proc (λ P, {| (P) with p_children := remove1 c (p_children P) |})
  | None => fault
  end;;
  upd process (λ P, {| (P) with p_parent := NULL |});;
  proc_unlock process;;
  proc_free process.

Fixpoint wait_any_loop (proc : ptr) (l : list loc) : M jobs (option (Z * Z)) :=
  match l with
  | [] => mret None
  | c :: l =>
      proc_lock (Some c);;
      P ← rd (Some c);
      if dead P then reap proc (Some c);; mret (Some (p_pid P, p_exit_status P)) else
      proc_unlock (Some c);;
      wait_any_loop proc l
  end.

Definition wait_any (no_hang : bool) : M jobs waited :=
  proc ← me;
  C ← rd proc;
  if not_zero (Z.land (p_flags C) PROC_KILLED) then mret (Returns (- EINTR) None) else
  proc_lock proc;;
  proc_unlock proc;;
  lock_children proc;;
  C ← rd proc;
  r ← wait_any_loop proc (p_children C);
  unlock_children proc;;
  match r with
  | Some (pid, status) => mret (Returns pid (Some status))
  | None =>
      let has_children := match p_children C with [] => false | _ => true end in
      if no_hang then mret (Returns (if has_children then 0 else - ECHILD) (Some 0)) else
      if has_children then mret Sleeps else mret (Returns (- ECHILD) None)
  end.

Definition wait_child (process : ptr) (no_hang : bool) : M jobs waited :=
  proc ← me;
  C ← rd proc;
  if not_zero (Z.land (p_flags C) PROC_KILLED) then mret (Returns (- EINTR) None) else
  lock_children proc;;
  proc_lock process;;
  P ← rd process;
  if dead P then
    reap proc process;;
    unlock_children proc;;
    mret (Returns (p_pid P) (Some (p_exit_status P)))
  else
  proc_unlock process;;
  unlock_children proc;;
  if no_hang then mret (Returns 0 (Some 0)) else mret Sleeps.

Fixpoint wait_pgroup_loop (l : list loc) : M jobs (option (Z * Z)) :=
  match l with
  | [] => mret None
  | c :: l =>
      proc_lock (Some c);;
      P ← rd (Some c);
      if dead P then
        proc_lock (p_parent P);;
        lock_children (p_parent P);;
        upd (p_parent P) (λ Q, {| (Q) with p_children := remove1 c (p_children Q) |});;
        upd (Some c) (λ Q, {| (Q) with p_parent := NULL |});;
        Q ← rd (Some c);
        unlock_children (p_parent Q);;
        proc_unlock (p_parent Q);;
        proc_unlock (Some c);;
        proc_free (Some c);;
        mret (Some (p_pid P, p_exit_status P))
      else
      proc_unlock (Some c);;
      wait_pgroup_loop l
  end.

(** This loop does not sleep: [fuel] is the number of its turns. *)
Fixpoint wait_pgroup (fuel : nat) (pgroup : ptr) : M jobs waited :=
  match fuel with
  | O => nofuel
  | S fuel =>
      proc ← me;
      C ← rd proc;
      if not_zero (Z.land (p_flags C) PROC_KILLED) then mret (Returns (- EINTR) None) else
      pgroup_lock pgroup;;
      lock_procs pgroup;;
      G ← rd pgroup;
      r ← wait_pgroup_loop (pg_procs G);
      unlock_procs pgroup;;
      match r with
      | Some (pid, status) => mret (Returns pid (Some status))
      | None => wait_pgroup fuel pgroup
      end
  end.

(** [waitpid] up to the first time it sleeps or returns; two turns of the loop over a
    group are all it can do. *)
Definition waitpid (pid opt : Z) : M jobs waited :=
  let no_hang := not_zero (Z.land opt WNOHANG) in
  proc ← me;
  if pid =? WAIT_MYPGRP then
    proc_lock proc;;
    C ← rd proc;
    proc_unlock proc;;
    match p_pgroup C with
    | None => mret (Returns (- ECHILD) None)
    | Some _ => wait_pgroup 2 (p_pgroup C)
    end
  else if 0 <? pid then
    '(err, process) ← proc_getchild pid;
    if not_zero err then mret (Returns (if err =? - ESRCH then - ECHILD else err) None) else
    proc_lock proc;;
    proc_unlock proc;;
    wait_child process no_hang
  else if pid =? WAIT_ANY then wait_any no_hang
  else
    '(err, pgroup) ← sessions_find_pgroup (- pid) true;
    if not_zero err then mret (Returns err None) else wait_pgroup 2 pgroup.

End calls.
