(* ===== verification/JobCallsRun.v ===== *)
(** * Runs of the system calls on groups and sessions

    [setsid], [setpgid] and the calls that read the tables, from a state that satisfies
    the invariant of [JobsInv] and with memory for what they allocate. *)
From S2P Require Import Prelude Jobs JobsRun JobsInv JobCalls.

(** ** Where a process is *)

(** The session, its id and the id of the group of a process. *)
Definition job (s : jobs) (p : loc) : option (loc * Z * Z) :=
  P ← procs s !! p;
  x ← p_session P;
  g ← p_pgroup P;
  X ← sess s !! x;
  G ← pgroups s !! g;
  Some (x, ss_sid X, pg_id G).

(** The groups and sessions that stay have the same ids. *)
Definition ids_kept (s s' : jobs) : Prop :=
  (∀ g G G', pgroups s !! g = Some G → pgroups s' !! g = Some G' → pg_id G' = pg_id G) ∧
  (∀ x X X', sess s !! x = Some X → sess s' !! x = Some X' → ss_sid X' = ss_sid X).

Lemma job_some E s p P g x X G : in_job s x g p X G P → groups_ok E s → job s p = Some (x, ss_sid X, pg_id G).
Proof. intros [HP Hg Hx HX HG _ _ _ _] _. unfold job. rewrite HP. cbn. rewrite Hx. cbn. rewrite Hg. cbn. by rewrite HX, HG. Qed.
Lemma job_none E s p P : groups_ok E s → procs s !! p = Some P → p_pgroup P = NULL → job s p = None.
Proof.
  intros Hok HP Hg. pose proof (go_job _ _ Hok p P HP) as Hj. rewrite Hg in Hj.
  unfold job. rewrite HP. cbn. by rewrite Hj.
Qed.

Lemma job_kept E E' s s' q Q Q' :
  groups_ok E s → groups_ok E' s' → ids_kept s s' → procs s !! q = Some Q → procs s' !! q = Some Q' →
  p_session Q' = p_session Q → p_pgroup Q' = p_pgroup Q → job s' q = job s q.
Proof.
  intros Hok Hok' [Hg Hx] HQ HQ' Es Eg. destruct (p_pgroup Q) as [h|] eqn:Hh.
  2: { rewrite (job_none E s q Q), (job_none E' s' q Q'); congruence || done. }
  destruct (groups_ok_job E s q Q h Hok HQ Hh) as (x & X & G & Hij & _).
  destruct (groups_ok_job E' s' q Q' h Hok' HQ') as (x' & X' & G' & Hij' & _); [congruence|].
  rewrite (job_some _ _ _ _ _ _ _ _ Hij Hok), (job_some _ _ _ _ _ _ _ _ Hij' Hok').
  destruct Hij as [_ _ Ex HX HG _ _ _ _], Hij' as [_ _ Ex' HX' HG' _ _ _ _].
  assert (x' = x) as -> by congruence. by rewrite (Hg h G G'), (Hx x X X').
Qed.

Lemma ids_kept_leave s x g p X G P : leaving s x g p X G P → ids_kept s (leave_state x g p G s).
Proof.
  intros Hlv. split.
  - intros h H H' HH. rewrite (leave_groups _ _ _ _ _ _ _ _ _ Hlv). destruct Hlv as (_ & [_ _ _ _ HG _ _ _ _] & _).
    intros [[_ ?]|(-> & _ & ->)]; cbn; congruence.
  - intros y Y Y' HY. rewrite (leave_sess _ _ _ _ _ _ _ _ _ Hlv). destruct Hlv as (_ & [_ _ _ HX _ _ _ _ _] & _).
    intros [[_ ?]|(-> & ->)]; [congruence|]. unfold groups_left. destruct (remove1 p (pg_procs G)); cbn; congruence.
Qed.
Lemma ids_kept_join x g p s : ids_kept s (join_state x g p s).
Proof.
  split; [|cbn; congruence]. intros h H H' HH HH'. cbn in HH'.
  apply lookup_alter_Some in HH' as [(_ & G & ? & ->)|[_ ?]]; cbn; congruence.
Qed.
Lemma ids_kept_group_in x g p pid s : pgroups s !! g = None → ids_kept s (group_in x g p pid s).
Proof.
  intros Hg. split; cbn.
  - intros h H H' HH HH'. apply lookup_insert_Some in HH' as [[<- <-]|[_ ?]]; congruence.
  - intros y Y Y' HY HY'. apply lookup_alter_Some in HY' as [(_ & X & ? & ->)|[_ ?]]; cbn; congruence.
Qed.
Lemma ids_kept_new_session x g p pid s :
  pgroups s !! g = None → sess s !! x = None → ids_kept s (new_session x g p pid s).
Proof.
  intros Hg Hx. split; cbn.
  - intros h H H' HH HH'. apply lookup_insert_Some in HH' as [[<- <-]|[_ ?]]; congruence.
  - intros y Y Y' HY HY'. apply lookup_insert_Some in HY' as [[<- <-]|[_ ?]]; congruence.
Qed.

(** ** Finding a process *)

Lemma wp_proc_get_loop pid (Q : ptr → jobs → Prop) s (l : list loc) :
  (∀ p, p ∈ l → is_Some (procs s !! p) ∧ LProc p ∉ locks s) →
  (∀ p P, p ∈ l → procs s !! p = Some P → p_pid P = pid → Q (Some p) (with_locks ({[LProc p]} ∪ locks s) s)) →
  ((∀ p P, p ∈ l → procs s !! p = Some P → p_pid P ≠ pid) → Q NULL s) →
  wp (proc_get_loop pid l) Q s.
Proof.
  induction l as [|p l IH]; intros Hl Hf Hn; simpl; [apply wp_ret, Hn; set_solver|].
  destruct (Hl p) as [[P HP] Hp]; [set_solver|]. job_go.
  destruct (Z.eqb_spec (p_pid P) pid) as [He|He].
  - job_go. apply (Hf p P); [set_solver|done..].
  - job_go. back_to s. apply IH; [set_solver|set_solver|].
    intros Hall. apply Hn. intros p' P' [->|?]%elem_of_cons ?; [congruence|eauto].
Qed.

Lemma wp_proc_get pid (Q : Z * ptr → jobs → Prop) s :
  0 < pid → LProcesses ∉ locks s → (∀ p, p ∈ processes s → is_Some (procs s !! p) ∧ LProc p ∉ locks s) →
  (∀ p P, p ∈ processes s → procs s !! p = Some P → p_pid P = pid →
     Q (0, Some p) (with_locks ({[LProc p]} ∪ locks s) s)) →
  ((∀ p P, p ∈ processes s → procs s !! p = Some P → p_pid P ≠ pid) → Q (- ESRCH, NULL) s) →
  wp (proc_get pid) Q s.
Proof.
  intros Hpid Hlp Hl Hf Hn. unfold proc_get. rewrite (proj2 (Z.leb_gt pid 0)) by done. job_go.
  apply wp_proc_get_loop; cbn.
  - intros p Hp. destruct (Hl p Hp). split; [done|lk_solve].
  - intros p P Hp HP He. destruct (Hl p Hp) as [_ ?]. job_go.
    replace (({[LProc p]} ∪ ({[LProcesses]} ∪ locks s)) ∖ {[LProcesses]}) with ({[LProc p]} ∪ locks s) by set_solver.
    by apply (Hf p P).
  - intros Hall. job_go. back_to s. by apply Hn.
Qed.

Lemma with_locks_back L L' s : locks s = L → with_locks L (with_locks L' s) = s.
Proof. intros <-. by destruct s. Qed.

(** Locks of processes only. *)
Definition only_procs (L : gset lk) : Prop := ∀ l, l ∈ L → ∃ p, l = LProc p.

Lemma only_procs_empty : only_procs ∅.
Proof. by intros l ?%elem_of_empty. Qed.
Lemma only_procs_add p L : only_procs L → only_procs ({[LProc p]} ∪ L).
Proof. intros HL l [->%elem_of_singleton|?]%elem_of_union; [by eexists|by apply HL]. Qed.

Lemma groups_free_ok E s x X : groups_ok E s → only_procs (locks s) → sess s !! x = Some X → groups_free s X.
Proof.
  intros Hok Hl HX g Hg. destruct (go_groups _ _ Hok x X HX) as (_ & _ & _ & Hm).
  apply Hm in Hg as (G & HG & _). split; [by eexists|]. split; intros [p ?]%Hl; done.
Qed.
Lemma sessions_free E s : groups_ok E s → only_procs (locks s) → ∀ x, x ∈ sessions s →
  ∃ X, sess s !! x = Some X ∧ (LSession x ∉ locks s) ∧ (LGroups x ∉ locks s) ∧ groups_free s X.
Proof.
  intros Hok Hl x [X HX]%(go_sessions _ _ Hok). exists X. split; [done|].
  split; [by intros [p ?]%Hl|]. split; [by intros [p ?]%Hl|]. by eapply groups_free_ok.
Qed.

(** The groups of the sessions on the list are all the groups. *)
Lemma no_group_iff E s pid : groups_ok E s →
  (∀ x X g G, x ∈ sessions s → sess s !! x = Some X → g ∈ ss_pgroups X → pgroups s !! g = Some G → pg_id G ≠ pid) →
  ∀ g G, pgroups s !! g = Some G → pg_id G ≠ pid.
Proof.
  intros Hok Hn g G HG. destruct (go_home _ _ Hok g G HG) as (x & X & Hs & HX).
  apply (Hn x X g G); [apply (go_sessions _ _ Hok); by eexists|done| |done].
  destruct (go_groups _ _ Hok x X HX) as (_ & _ & _ & Hm). apply Hm. eauto.
Qed.

Lemma groups_ok_locks E L s : groups_ok E s → groups_ok E (with_locks L s).
Proof. intros Hok. split; apply Hok. Qed.

Section run.
Context `{!Kalloc pgroup_t, !Kalloc session_t}.

Definition new_session_at (c : loc) (C : proc_t) (s : jobs) : jobs :=
  match kmalloc_at (sess s), kmalloc_at (pgroups s) with
  | Some x, Some g => new_session x g c (p_pid C) s
  | _, _ => s
  end.

Lemma new_session_at_locks c C L s : new_session_at c C (with_locks L s) = with_locks L (new_session_at c C s).
Proof. unfold new_session_at. cbn. by destruct (kmalloc_at (sess s)), (kmalloc_at (pgroups s)). Qed.
Lemma new_session_at_old_locks c C s : locks (new_session_at c C s) = locks s.
Proof. unfold new_session_at. by destruct (kmalloc_at (sess s)), (kmalloc_at (pgroups s)). Qed.
Lemma new_session_at_live c C s q : is_Some (procs s !! q) → is_Some (procs (new_session_at c C s) !! q).
Proof.
  intros Hq. unfold new_session_at. destruct (kmalloc_at (sess s)), (kmalloc_at (pgroups s)); cbn; [|done..].
  by rewrite !lookup_alter_is_Some.
Qed.

(** The state before the session is made: the process has left its own. *)
Definition left_session (c : loc) (C : proc_t) (s : jobs) : jobs :=
  match p_session C, p_pgroup C with
  | Some x, Some g =>
      match sess s !! x, pgroups s !! g with
      | Some X, Some G => exit_state x g c X G s
      | _, _ => s
      end
  | _, _ => s
  end.

Context (memg : ∀ h : gmap loc pgroup_t, is_Some (kmalloc_at h)).
Context (mems : ∀ h : gmap loc session_t, is_Some (kmalloc_at h)).

Lemma exit_state_with_locks x g p X G L s : exit_state x g p X G (with_locks L s) = with_locks L (exit_state x g p X G s).
Proof. unfold exit_state. rewrite leave_state_with_locks. by destruct (ss_pgroups (groups_left g p G X)). Qed.
Lemma exit_state_procs x g p X G s : procs (exit_state x g p X G s) = alter clear_job p (procs s).
Proof. unfold exit_state. destruct (ss_pgroups (groups_left g p G X)); apply leave_state_procs. Qed.
Lemma exit_state_locks x g p X G s : locks (exit_state x g p X G s) = locks s.
Proof. unfold exit_state. destruct (ss_pgroups (groups_left g p G X)); apply leave_state_locks. Qed.
Lemma exit_state_room x g p X G s : room (exit_state x g p X G s) = room s.
Proof. unfold exit_state. destruct (ss_pgroups (groups_left g p G X)); apply leave_state_room. Qed.

Lemma wp_new_session c C ref (Q : Z * ptr → jobs → Prop) s :
  procs s !! c = Some C → LProc c ∈ locks s → only_procs (locks s) → room s = [] →
  (∀ x, Q (0, Some x) (new_session_at c C s)) → wp (session_create (Some c) ref) Q s.
Proof using memg mems.
  intros HC Hlc Hl Hr HQ. destruct (mems (sess s)) as [x Hx], (memg (pgroups s)) as [g Hg].
  eapply wp_session_create; [done..|by intros [? ?]%Hl|by intros [? ?]%Hl|by intros [? ?]%Hl|by intros [? ?]%Hl|
    by intros [? ?]%Hl|done|]. specialize (HQ x). unfold new_session_at in HQ. by rewrite Hx, Hg in HQ.
Qed.

Lemma wp_setsid C (Q : Z → jobs → Prop) s :
  groups_ok NULL s → locks s = ∅ → room s = [] → procs s !! cur s = Some C →
  ((∃ g G, pgroups s !! g = Some G ∧ pg_id G = p_pid C) → Q (- EPERM) s) →
  ((∀ g G, pgroups s !! g = Some G → pg_id G ≠ p_pid C) → Q (p_pid C) (new_session_at (cur s) C (left_session (cur s) C s))) →
  wp setsid Q s.
Proof using memg mems.
  intros Hok Hl Hr HC Hyes Hno. unfold setsid. assert (Hc : LProc (cur s) ∉ locks s) by (by rewrite Hl).
  job_go. set (s1 := with_locks ({[LProc (cur s)]} ∪ locks s) s).
  assert (Hok1 : groups_ok NULL s1) by by apply groups_ok_locks.
  assert (Hop : only_procs (locks s1)) by (cbn; rewrite Hl; apply only_procs_add, only_procs_empty).
  eapply wp_sessions_find_pgroup; [by intros [? ?]%Hop|by eapply sessions_free| |].
  { intros x X g G _ _ _ HG He. cbn. unfold s1. job_go. back_to s. apply Hyes. eauto. }
  intros Hall. pose proof (no_group_iff _ _ _ Hok1 Hall) as Hnone. specialize (Hno Hnone).
  change (- ESRCH =? 0) with false. job_go.
  unfold left_session in Hno. destruct (p_session C) as [x|] eqn:Hx.
  - destruct (groups_ok_session NULL s (cur s) C x Hok HC Hx) as (g & X & G & Hij & Hs & Hin).
    rewrite (ij_pgroup _ _ _ _ _ _ _ Hij), (ij_sess _ _ _ _ _ _ _ Hij), (ij_group _ _ _ _ _ _ _ Hij) in Hno.
    eapply (wp_session_exit_free x g (cur s) X G C); [by destruct Hij|cbn; set_solver|by intros [? ?]%Hop..|].
    unfold s1. rewrite exit_state_with_locks. set (s2 := exit_state x g (cur s) X G s) in *.
    assert (Hl2 : locks s2 = locks s) by apply exit_state_locks.
    assert (HC2 : procs s2 !! cur s = Some (clear_job C)).
    { unfold s2. by rewrite exit_state_procs, lookup_alter_eq, HC. }
    job_go. eapply wp_new_session; [done|cbn; set_solver|done|cbn; by unfold s2; rewrite exit_state_room|].
    intros x'. rewrite new_session_at_locks. job_go.
    apply wp_obj_unlock; [cbn; by apply new_session_at_live|cbn; set_solver|]. job_go.
    rewrite with_locks_back; [done|]. by rewrite new_session_at_old_locks.
  - job_go. unfold s1. eapply wp_new_session; [done|cbn; set_solver|done|done|]. intros x'. rewrite new_session_at_locks.
    job_go. apply wp_obj_unlock; [cbn; by apply new_session_at_live|cbn; set_solver|]. job_go.
    rewrite with_locks_back; [done|]. by apply new_session_at_old_locks.
Qed.

(** ** setpgid *)

(** Locks of processes and the lock of the session [x]. *)
Definition procs_and (x : loc) (L : gset lk) : Prop := ∀ l, l ∈ L → l ≠ LSession x → ∃ p, l = LProc p.

(** The state when a process is put in the group [pgid] of its session [x]. *)
Definition regroup (x g p : loc) (P : proc_t) (G : pgroup_t) (g' : loc) (s : jobs) : jobs :=
  if bool_decide (g' = g) then s else join_state x g' p (leave_state x g p G s).
Definition own_group (x g p : loc) (P : proc_t) (G : pgroup_t) (s : jobs) : jobs :=
  let s' := leave_state x g p G s in
  match kmalloc_at (pgroups s') with Some h => group_in x h p (p_pid P) s' | None => s' end.

Lemma wp_set_group x g p X G P pgid (Q : Z → jobs → Prop) s :
  leaving s x g p X G P → 0 ≤ pgid → is_Some (procs s !! cur s) →
  LProc (cur s) ∈ locks s → LProc p ∈ locks s → LSession x ∈ locks s → procs_and x (locks s) → room s = [] →
  (∀ g' G', pgroups s !! g' = Some G' → pg_sessoin G' = Some x → pg_id G' = pgid → Q 0 (regroup x g p P G g' s)) →
  ((∀ g' G', pgroups s !! g' = Some G' → pg_sessoin G' = Some x → pg_id G' ≠ pgid) →
     if p_pid P =? pgid then Q 0 (own_group x g p P G s) else Q (- EPERM) s) →
  wp (set_group (Some x) (Some p) (p_pid P) pgid) Q s.
Proof using memg.
  intros Hlv Hpg Hc Hlc Hlp Hls Hop Hr Hyes Hno. pose proof Hlv as (Hok & Hij & Hs).
  pose proof Hij as [HP Hpgr Hps HX HG Hgx Hin Hrefs _]. destruct (go_groups _ _ Hok x X HX) as (_ & _ & _ & Hm).
  assert (Hfree : groups_free s X).
  { intros h Hh%Hm. destruct Hh as (H & HH & _). split; [by eexists|].
    split; intros Hl; by destruct (Hop _ Hl) as [? ?]. }
  assert (Hlx : LGroups x ∉ locks s) by (intros Hl; by destruct (Hop _ Hl) as [? ?]).
  unfold set_group. apply wp_bind. eapply wp_session_pgroup_join; [done..| | | |].
  - intros g' G' _ Hne HG' Hin'. apply (go_members _ _ Hok g' G' HG') in Hin' as (P' & ? & ?). congruence.
  - intros Hall. change (- ENOENT =? - ENOENT) with true.
    assert (Hnone : ∀ g' G', pgroups s !! g' = Some G' → pg_sessoin G' = Some x → pg_id G' ≠ pgid).
    { intros g' G' HG' Hx'. apply (Hall g' G'); [|done]. apply Hm. eauto. }
    specialize (Hno Hnone). destruct (p_pid P =? pgid); [|by apply wp_ret]. cbn beta iota.
    destruct (Hfree g Hgx) as (_ & Hl1 & Hl2). apply wp_bind.
    eapply wp_session_exit_stay; [done..|]. cbn [not_zero negb Z.eqb]. apply wp_bind.
    destruct (memg (pgroups (leave_state x g p G s))) as [h Hh].
    unfold own_group in Hno. rewrite Hh in Hno.
    pose proof (kmalloc_fresh _ _ Hh) as Hfr.
    eapply (wp_session_create_pgroup x h p (clear_job P)).
    + by rewrite leave_state_procs, lookup_alter_eq, HP.
    + by apply leave_state_sess.
    + pose proof (groups_ok_leave _ _ _ _ _ _ _ Hlv) as Hok'.
      destruct (go_groups _ _ Hok' x _ (leave_state_sess x g p G X s HX)) as (_ & _ & _ & Hm').
      rewrite Hm'. naive_solver.
    + done.
    + by rewrite leave_state_locks.
    + by rewrite leave_state_locks.
    + rewrite leave_state_locks. intros Hl. by destruct (Hop _ Hl) as [? ?].
    + rewrite leave_state_locks. intros Hl. by destruct (Hop _ Hl) as [? ?].
    + by rewrite leave_state_locks.
    + by rewrite leave_state_room.
    + by apply wp_ret.
  - intros He. specialize (Hyes g G HG Hs He). unfold regroup in Hyes. rewrite bool_decide_eq_true_2 in Hyes by done.
    change (0 =? - ENOENT) with false. destruct (p_pid P =? pgid); by apply wp_ret.
  - intros g' G' Hg' Hne HG' He. change (0 =? - ENOENT) with false.
    assert (Hx' : pg_sessoin G' = Some x) by (apply Hm in Hg' as (? & ? & ?); congruence).
    specialize (Hyes g' G' HG' Hx' He). unfold regroup in Hyes. rewrite bool_decide_eq_false_2 in Hyes by done.
    destruct (p_pid P =? pgid); by apply wp_ret.
Qed.

(** What the rest of [setpgid] needs of the state: it does not depend on the locks and
    has them as before, the other processes are as before, the objects are there. *)
Record tidy (x p : loc) (T : jobs → jobs) (s : jobs) : Prop := {
  td_with : ∀ L, T (with_locks L s) = with_locks L (T s);
  td_locks : locks (T s) = locks s;
  td_other : ∀ q, q ≠ p → procs (T s) !! q = procs s !! q;
  td_proc : is_Some (procs (T s) !! p);
  td_sess : is_Some (sess (T s) !! x);
}.

Lemma tidy_id x p s : is_Some (procs s !! p) → is_Some (sess s !! x) → tidy x p id s.
Proof. by split. Qed.
Lemma tidy_regroup x g p X G P g' s : in_job s x g p X G P → tidy x p (regroup x g p P G g') s.
Proof.
  intros [HP _ _ HX _ _ _ _ _]. unfold regroup. case_bool_decide; split; try (done || by eexists).
  - intros L. by rewrite leave_state_with_locks.
  - cbn. apply leave_state_locks.
  - intros q Hq. cbn. rewrite !lookup_alter_ne, leave_state_procs by done. by rewrite lookup_alter_ne.
  - cbn. rewrite !lookup_alter_is_Some, leave_state_procs, lookup_alter_is_Some. by eexists.
  - cbn. rewrite (leave_state_sess x g p G X) by done. by eexists.
Qed.
Lemma tidy_own_group x g p X G P s : in_job s x g p X G P → tidy x p (own_group x g p P G) s.
Proof.
  intros [HP _ _ HX _ _ _ _ _]. pose proof (leave_state_sess x g p G X s HX) as Hs.
  assert (Hp : is_Some (procs (leave_state x g p G s) !! p)).
  { rewrite leave_state_procs, lookup_alter_is_Some. by eexists. }
  unfold own_group. split.
  - intros L. rewrite leave_state_with_locks. cbn [pgroups with_locks].
    by destruct (kmalloc_at (pgroups (leave_state x g p G s))).
  - destruct (kmalloc_at (pgroups (leave_state x g p G s))); cbn; apply leave_state_locks.
  - intros q Hq. destruct (kmalloc_at (pgroups (leave_state x g p G s))); cbn;
      rewrite ?lookup_alter_ne by done; rewrite leave_state_procs; by rewrite lookup_alter_ne.
  - destruct (kmalloc_at (pgroups (leave_state x g p G s))); cbn; by rewrite ?lookup_alter_is_Some.
  - destruct (kmalloc_at (pgroups (leave_state x g p G s))); cbn; rewrite ?lookup_alter_is_Some; by eexists.
Qed.

(** The end of both branches: the session, the caller and the process are unlocked. *)
Lemma wp_setpgid_leave x p C err (Q : Z → jobs → Prop) T s :
  tidy x p T s → p ≠ cur s → cur (T s) = cur s → procs s !! cur s = Some C → p_session C = Some x →
  LProc p ∉ locks s → LProc (cur s) ∉ locks s → LSession x ∉ locks s → Q err (T s) →
  wp (setpgid_leave (Some (cur s)) (Some p) err) Q
     (T (with_locks ({[LSession x]} ∪ ({[LProc (cur s)]} ∪ ({[LProc p]} ∪ locks s))) s)).
Proof.
  intros [Hw Hl Ho [P' HP'] [X' HX']] Hne Hcur HC Hx Hl1 Hl2 Hl3 HQ. rewrite Hw.
  assert (HC' : procs (T s) !! cur s = Some C) by (by rewrite Ho).
  unfold setpgid_leave. rewrite <- Hl in *. job_go. rewrite Hx. job_go. by back_to (T s).
Qed.

(** Why [setpgid] does not move the process [p], 0 if it may: the process is a child of
    the caller in the same session, has not called [exec] and does not lead the
    session, or it is the caller. *)
Definition refused (s : jobs) (C : proc_t) (p : loc) (P : proc_t) : Z :=
  if bool_decide (p_parent P = Some (cur s)) then
    if negb (bool_decide (p_session P = p_session C)) then - EPERM else
    if not_zero (Z.land (p_flags P) PROC_EXECED) then - EACCES else
    if bool_decide (Some p = ss_leader <$> (p_session C ≫= λ x, sess s !! x)) then - EPERM else 0
  else if bool_decide (p = cur s) then 0 else - EPERM.

(** The process the first argument names: 0 is the caller. *)
Definition names (s : jobs) (pid : Z) (p : loc) (P : proc_t) : Prop :=
  procs s !! p = Some P ∧ p ∈ processes s ∧ if pid =? 0 then p = cur s else p_pid P = pid.
Definition new_pgid (P : proc_t) (pgid : Z) : Z := if pgid =? 0 then p_pid P else pgid.

(** What may come out for a process that may be moved. *)
Definition moves (s : jobs) (p : loc) (P : proc_t) (id : Z) (Q : Z → jobs → Prop) : Prop :=
  match p_session P with
  | Some x =>
      ∀ g X G, leaving s x g p X G P →
        (∀ g' G', pgroups s !! g' = Some G' → pg_sessoin G' = Some x → pg_id G' = id → Q 0 (regroup x g p P G g' s)) ∧
        ((∀ g' G', pgroups s !! g' = Some G' → pg_sessoin G' = Some x → pg_id G' ≠ id) →
           if p_pid P =? id then Q 0 (own_group x g p P G s) else Q (- EPERM) s)
  | None => if p_pid P =? id then Q 0 (new_session_at p P s) else Q (- EPERM) s
  end.

Section setpgid.
Context (s : jobs) (C P : proc_t) (p : loc) (pid pgid : Z).
Context (Hok : groups_ok NULL s) (Htab : table_ok s) (Hl : locks s = ∅) (Hr : room s = []).
Context (HC : procs s !! cur s = Some C) (Hcur : cur s ∈ processes s).
Context (Hpid : 0 ≤ pid) (Hpgid : 0 ≤ pgid) (HP : names s pid p P).
Implicit Type Q : Z → jobs → Prop.

Lemma names_pid : p_pid P = if pid =? 0 then p_pid P else pid.
Proof using HP. destruct HP as (_ & _ & H). by destruct (pid =? 0). Qed.
Lemma new_pgid_pos : 0 ≤ new_pgid P pgid.
Proof using HP Htab Hpgid.
  destruct HP as (HP' & _). pose proof (to_range _ Htab p P HP'). unfold new_pgid. destruct (Z.eqb_spec pgid 0); lia.
Qed.

(** The process is found and locked. *)
Lemma wp_setpgid_find (Q : Z * ptr → jobs → Prop) :
  Q (0, Some p) (with_locks ({[LProc p]} ∪ locks s) s) →
  wp (if pid =? 0 then proc_lock (Some (cur s));; mret (0, Some (cur s)) else proc_get pid) Q s.
Proof using HP Htab Hl Hpid HC.
  intros HQ. destruct HP as (HP' & Hin & Hn). destruct (Z.eqb_spec pid 0) as [->|Hne].
  - rewrite Hn in HQ. assert (LProc (cur s) ∉ locks s) by (rewrite Hl; apply not_elem_of_empty). by job_go.
  - apply wp_proc_get; [lia|rewrite Hl; apply not_elem_of_empty| | |].
    + intros q (Q' & ? & _)%(to_list _ Htab). split; [by eexists|]. rewrite Hl. apply not_elem_of_empty.
    + intros q Q' _ HQ' He. assert (q = p) as -> by (apply (to_pid _ Htab q p Q' P); congruence). done.
    + intros Hall. by destruct (Hall p P).
Qed.

Lemma no_locks l : l ∉ locks s.
Proof using Hl. rewrite Hl. apply not_elem_of_empty. Qed.

(** The move itself, under the locks of the branch of a child. *)
Lemma wp_child_move x (Q : Z → jobs → Prop) :
  p ≠ cur s → p_session C = Some x → p_session P = Some x → moves s p P (new_pgid P pgid) Q →
  wp (err ← set_group (Some x) (Some p) (p_pid P) (new_pgid P pgid); setpgid_leave (Some (cur s)) (Some p) err) Q
     (with_locks ({[LSession x]} ∪ ({[LProc (cur s)]} ∪ ({[LProc p]} ∪ locks s))) s).
Proof using All.
  intros Hne HCx HPx Hmv. unfold moves in Hmv. rewrite HPx in Hmv. pose proof new_pgid_pos as Hnn.
  pose proof HP as (HP' & _). destruct (groups_ok_session NULL s p P x Hok HP' HPx) as (g & X & G & Hij & Hs & _).
  assert (Hlv : leaving s x g p X G P) by done. destruct (Hmv g X G Hlv) as [Hj Hn].
  assert (Hend : ∀ T r, tidy x p T s → cur (T s) = cur s → Q r (T s) → wp (setpgid_leave (Some (cur s)) (Some p) r) Q
    (T (with_locks ({[LSession x]} ∪ ({[LProc (cur s)]} ∪ ({[LProc p]} ∪ locks s))) s))).
  { intros T r HT Hcr Hq. eapply wp_setpgid_leave; (done || apply no_locks). }
  apply wp_bind. eapply (wp_set_group x g p X G P).
  - split; [by apply groups_ok_locks|]. split; [by destruct Hij|done].
  - done.
  - by eexists.
  - lk_solve.
  - lk_solve.
  - lk_solve.
  - intros l Hin Hnx. cbn in Hin. rewrite Hl in Hin. set_solver.
  - done.
  - intros g' G' HG' Hx' He. apply Hend; [by eapply tidy_regroup| |by apply (Hj g' G')].
    unfold regroup. case_bool_decide; [done|]. cbn. unfold leave_state. by destruct (remove1 p (pg_procs G)).
  - intros Hnone. specialize (Hn Hnone). destruct (p_pid P =? new_pgid P pgid).
    + apply Hend; [by eapply tidy_own_group| |done]. unfold own_group, leave_state.
      by destruct (remove1 p (pg_procs G)); cbn; destruct (kmalloc_at _).
    + apply (Hend id); [apply tidy_id; [by eexists|by destruct Hij; eexists]|done|done].
Qed.

Lemma wp_setpgid_child x (Q : Z → jobs → Prop) :
  p_parent P = Some (cur s) → p_session C = Some x →
  (refused s C p P ≠ 0 → Q (refused s C p P) s) →
  (refused s C p P = 0 → moves s p P (new_pgid P pgid) Q) →
  wp (setpgid pid pgid) Q s.
Proof using All.
  intros Hpar HCx Hno Hyes. pose proof names_pid as Hid. pose proof new_pgid_pos as Hnn.
  pose proof HP as (HP' & Hin & _).
  assert (Hne : p ≠ cur s).
  { pose proof (to_parent _ Htab p P HP') as Hq. rewrite Hpar in Hq. destruct Hq as (Q' & ? & ?). intros ->. simplify_eq. lia. }
  destruct (groups_ok_session NULL s (cur s) C x Hok HC HCx) as (gc & X & GC & HijC & _).
  pose proof (ij_sess _ _ _ _ _ _ _ HijC) as HX.
  assert (Hlk : ∀ l, l ∉ locks s) by (intros l; rewrite Hl; apply not_elem_of_empty).
  unfold setpgid. rewrite (proj2 (Z.ltb_ge pid 0)), (proj2 (Z.ltb_ge pgid 0)) by done. cbn [orb].
  unfold me. apply wp_bind, wp_gets, wp_bind, wp_setpgid_find. cbn beta iota.
  pose proof (Hlk (LProc p)) as Hl1. pose proof (Hlk (LProc (cur s))) as Hl2. pose proof (Hlk (LSession x)) as Hl3.
  job_go. rewrite <- Hid, bool_decide_eq_true_2 by done. unfold refused in Hno, Hyes.
  rewrite bool_decide_eq_true_2 in Hno, Hyes by done.
  job_go. rewrite HCx in *. job_go. rewrite (bool_decide_eq_false_2 (Some x = NULL)) by done.
  replace (bool_decide (p_session P = NULL) || false || negb (bool_decide (p_session P = Some x)))
    with (negb (bool_decide (p_session P = Some x)))
    by (destruct (p_session P); [|done]; by rewrite (bool_decide_eq_false_2 (Some _ = NULL))).
  assert (Hend : ∀ r, Q r s → wp (setpgid_leave (Some (cur s)) (Some p) r) Q
    (id (with_locks ({[LSession x]} ∪ ({[LProc (cur s)]} ∪ ({[LProc p]} ∪ locks s))) s))).
  { intros r Hq. eapply wp_setpgid_leave; done. }
  destruct (bool_decide_reflect (p_session P = Some x)) as [HPx|HPx]; cbn [negb] in *; [|by apply Hend, Hno].
  unfold proc_has_execed. job_go. destruct (not_zero (Z.land (p_flags P) PROC_EXECED)); [by apply Hend, Hno|].
  job_go. cbn in Hno, Hyes. rewrite HX in Hno, Hyes. cbn in Hno, Hyes.
  replace (bool_decide (Some (ss_leader X) = Some p)) with (bool_decide (Some p = Some (ss_leader X)))
    by (apply bool_decide_ext; naive_solver).
  case_bool_decide; [by apply Hend, Hno|]. by apply (wp_child_move x), Hyes.
Qed.

(** The branch of the caller itself, in a session. *)
Lemma wp_self_move x (Q : Z → jobs → Prop) :
  p = cur s → p_session P = Some x → moves s p P (new_pgid P pgid) Q →
  wp (session_lock (Some x);; err ← set_group (Some x) (Some (cur s)) (p_pid P) (new_pgid P pgid);
      session_unlock (Some x);; proc_unlock (Some (cur s));; mret err) Q (with_locks ({[LProc p]} ∪ locks s) s).
Proof using All.
  intros Hp HPx Hmv. unfold moves in Hmv. rewrite HPx in Hmv. pose proof new_pgid_pos as Hnn.
  pose proof HP as (HP' & _). destruct (groups_ok_session NULL s p P x Hok HP' HPx) as (g & X & G & Hij & Hs & _).
  assert (Hlv : leaving s x g p X G P) by done. destruct (Hmv g X G Hlv) as [Hj Hn]. rewrite <- Hp.
  pose proof (no_locks (LSession x)) as Hlx. pose proof (no_locks (LProc p)) as Hlp.
  assert (Hend : ∀ T r, tidy x p T s → Q r (T s) → wp (session_unlock (Some x);; proc_unlock (Some p);; mret r) Q
    (T (with_locks ({[LSession x]} ∪ ({[LProc p]} ∪ locks s)) s))).
  { intros T r [Hw HlT _ [P' HP''] [X' HX']] Hq. rewrite Hw. rewrite <- HlT in *. job_go. by back_to (T s). }
  pose proof (ij_sess _ _ _ _ _ _ _ Hij) as HX. job_go. eapply (wp_set_group x g p X G P).
  - split; [by apply groups_ok_locks, groups_ok_locks|]. split; [by destruct Hij|done].
  - done.
  - cbn. rewrite <- Hp. by eexists.
  - cbn. rewrite <- Hp. lk_solve.
  - lk_solve.
  - lk_solve.
  - intros l Hin Hnx. cbn in Hin. rewrite Hl in Hin. set_solver.
  - done.
  - intros g' G' HG' Hx' He. apply (Hend (regroup x g p P G g')); [by eapply tidy_regroup|by apply (Hj g' G')].
  - intros Hnone. specialize (Hn Hnone). destruct (p_pid P =? new_pgid P pgid).
    + apply (Hend (own_group x g p P G)); [by eapply tidy_own_group|done].
    + apply (Hend id); [apply tidy_id; [by eexists|by destruct Hij; eexists]|done].
Qed.

(** Every branch of [setpgid]. *)
Lemma wp_setpgid (Q : Z → jobs → Prop) :
  (p_parent P = Some (cur s) → p_session C ≠ NULL) →
  (refused s C p P ≠ 0 → Q (refused s C p P) s) →
  (refused s C p P = 0 → moves s p P (new_pgid P pgid) Q) →
  wp (setpgid pid pgid) Q s.
Proof using All.
  intros Hses Hno Hyes. destruct (decide (p_parent P = Some (cur s))) as [Hpar|Hpar].
  { specialize (Hses Hpar). destruct (p_session C) as [x|] eqn:HCx; [|done]. by apply (wp_setpgid_child x). }
  pose proof names_pid as Hid. pose proof HP as (HP' & Hin & _). pose proof (no_locks (LProc p)) as Hlp.
  unfold refused in Hno, Hyes. rewrite bool_decide_eq_false_2 in Hno, Hyes by done.
  unfold setpgid. rewrite (proj2 (Z.ltb_ge pid 0)), (proj2 (Z.ltb_ge pgid 0)) by done. cbn [orb].
  unfold me. apply wp_bind, wp_gets, wp_bind, wp_setpgid_find. cbn beta iota.
  job_go. rewrite <- Hid, bool_decide_eq_false_2 by done.
  destruct (decide (p = cur s)) as [Hp|Hp].
  - rewrite bool_decide_eq_true_2 in Hyes by done. specialize (Hyes eq_refl). rewrite (bool_decide_eq_true_2 (Some p = _)) by congruence.
    destruct (p_session P) as [x|] eqn:HPx; [by apply (wp_self_move x)|].
    unfold moves in Hyes. rewrite HPx in Hyes. fold (new_pgid P pgid). rewrite <- Hp.
    destruct (p_pid P =? new_pgid P pgid); job_go; [|by back_to s].
    eapply wp_new_session; [done|lk_solve|cbn; rewrite Hl; apply only_procs_add, only_procs_empty|done|].
    intros x. rewrite new_session_at_locks. job_go.
    apply wp_obj_unlock; [cbn; apply new_session_at_live; by eexists|lk_solve|]. job_go.
    rewrite with_locks_back; [done|]. apply new_session_at_old_locks.
  - rewrite bool_decide_eq_false_2 in Hno by done. rewrite (bool_decide_eq_false_2 (Some p = _)) by congruence.
    job_go. back_to s. by apply Hno.
Qed.
End setpgid.
End run.

(** ** The system calls on groups and sessions keep the invariant

    The states that [setsid] and [setpgid] lead to satisfy [jobs_ok]; the process that
    is moved is where it was asked to be, and every other process is where it was. *)
Section moves.
Context `{!Kalloc pgroup_t, !Kalloc session_t}.
Context (memg : ∀ h : gmap loc pgroup_t, is_Some (kmalloc_at h)).
Context (mems : ∀ h : gmap loc session_t, is_Some (kmalloc_at h)).
Implicit Types (s : jobs) (x g p q : loc) (X : session_t) (G : pgroup_t) (P : proc_t).

(** The process [p] is now in the group [id] of the session [x], whose id is [sid]; the
    others are where they were. *)
Definition moved s p s' x (sid id : Z) : Prop :=
  jobs_ok s' ∧ job s' p = Some (x, sid, id) ∧ (∀ q, q ≠ p → job s' q = job s q).

Lemma leave_state_rest x g p G s :
  processes (leave_state x g p G s) = processes s ∧ pids (leave_state x g p G s) = pids s ∧
  initproc (leave_state x g p G s) = initproc s ∧ rows (leave_state x g p G s) = rows s.
Proof.
  split_and!; unfold leave_state, rows; destruct (remove1 p (pg_procs G)); try done; cbn; by apply rows_alter.
Qed.

Lemma own_strict_leave s x g p X G P : leaving s x g p X G P → own_strict (Some p) (leave_state x g p G s).
Proof.
  intros Hlv q Q h H Hne Hq HQ HH He. pose proof Hlv as (Hok & [_ _ _ _ HG _ _ _ _] & _).
  rewrite (proj1 (leave_state_rest x g p G s)) in Hq.
  apply (leave_procs _ _ _ _ _ _ _ _ _ Hlv) in HQ as [[-> _]|[_ HQ]]; [done|].
  apply (leave_groups _ _ _ _ _ _ _ _ _ Hlv) in HH as [[_ HH]|(-> & _ & ->)].
  - by apply (groups_ok_own s NULL Hok q Q h H).
  - by apply (groups_ok_own s NULL Hok q Q g G).
Qed.

(** The ids of the groups after a process has left are ids of groups before. *)
Lemma leave_group_id s x g p X G P h H : leaving s x g p X G P →
  pgroups (leave_state x g p G s) !! h = Some H → ∃ H', pgroups s !! h = Some H' ∧ pg_id H = pg_id H' ∧ pg_sessoin H = pg_sessoin H'.
Proof.
  intros Hlv HH. pose proof Hlv as (_ & [_ _ _ _ HG _ _ _ _] & _).
  apply (leave_groups _ _ _ _ _ _ _ _ _ Hlv) in HH as [[_ HH]|(-> & _ & ->)]; eauto.
Qed.

Lemma job_leave s x g p X G P q : leaving s x g p X G P → q ≠ p → job (leave_state x g p G s) q = job s q.
Proof.
  intros Hlv Hne. pose proof Hlv as (Hok & _). pose proof (groups_ok_leave _ _ _ _ _ _ _ Hlv) as Hok'.
  assert (Hpr : procs (leave_state x g p G s) !! q = procs s !! q) by (rewrite leave_state_procs; by rewrite lookup_alter_ne).
  destruct (procs s !! q) as [Q|] eqn:HQ; [|unfold job; by rewrite Hpr, HQ].
  apply (job_kept NULL (Some x) s _ q Q Q); [done|done|by eapply ids_kept_leave|done..].
Qed.

Lemma regroup_moved s x g p X G P h H :
  jobs_ok s → leaving s x g p X G P → p ∈ processes s → pgroups s !! h = Some H → pg_sessoin H = Some x →
  moved s p (regroup x g p P G h s) x (ss_sid X) (pg_id H).
Proof.
  intros [Hok Hf Htab Hl] Hlv Hp HH Hs. pose proof Hlv as (_ & Hij & _). unfold regroup.
  case_bool_decide as Hg.
  { subst h. split; [done|]. split; [|done]. rewrite (job_some _ _ _ _ _ _ _ _ Hij Hok). destruct Hij; congruence. }
  pose proof Hij as [HP Hpg Hps HX HG _ _ _ _]. destruct (leave_state_rest x g p G s) as (E1 & E2 & E3 & E4).
  pose proof (groups_ok_leave _ _ _ _ _ _ _ Hlv) as Hok'. set (s1 := leave_state x g p G s) in *.
  assert (HP1 : procs s1 !! p = Some (clear_job P)) by (unfold s1; by rewrite leave_state_procs, lookup_alter_eq, HP).
  assert (HH1 : pgroups s1 !! h = Some H) by (apply (leave_groups _ _ _ _ _ _ _ _ _ Hlv); left; done).
  assert (Hok2 : groups_ok NULL (join_state x h p s1)).
  { eapply groups_ok_join; [done..|by rewrite E1|done|done|by eapply own_strict_leave]. }
  split; [|split].
  - split; [done| | |].
    + apply groups_full_join. intros h' H' _ HH'. by apply (groups_full_leave _ _ _ _ _ _ _ Hlv Hf h').
    + eapply (table_ok_rows s); [done| |done..|].
      * rewrite <- E4. unfold rows. cbn. by rewrite !rows_alter.
      * intros h' H' HH'. cbn in HH'. apply lookup_alter_Some in HH' as [(<- & H0 & HH0 & ->)|[_ HH0]]; cbn;
          destruct (leave_group_id _ _ _ _ _ _ _ _ _ Hlv HH0) as (K & HK & -> & _); by eapply to_pgid.
    + cbn. unfold s1. by rewrite leave_state_locks.
  - unfold job. cbn. rewrite !lookup_alter_eq, HP1. cbn. rewrite lookup_alter_eq, HH1. cbn.
    unfold s1. rewrite (leave_state_sess x g p G X s HX). cbn. unfold groups_left. by destruct (remove1 p (pg_procs G)).
  - intros q Hq. rewrite <- (job_leave s x g p X G P q) by done. fold s1.
    assert (Hpr : procs (join_state x h p s1) !! q = procs s1 !! q) by (cbn; by rewrite !lookup_alter_ne).
    destruct (procs s1 !! q) as [Q|] eqn:HQ; [|unfold job; by rewrite Hpr, HQ].
    apply (job_kept (Some x) NULL s1 _ q Q Q); [done|done|by apply ids_kept_join|done..].
Qed.

Lemma own_group_moved s x g p X G P :
  jobs_ok s → leaving s x g p X G P → p ∈ processes s →
  (∀ h H, pgroups s !! h = Some H → pg_sessoin H = Some x → pg_id H ≠ p_pid P) →
  moved s p (own_group x g p P G s) x (ss_sid X) (p_pid P).
Proof using memg.
  intros [Hok Hf Htab Hl] Hlv Hp Hnone. pose proof Hlv as (_ & Hij & _).
  pose proof Hij as [HP Hpg Hps HX HG _ _ _ _]. destruct (leave_state_rest x g p G s) as (E1 & E2 & E3 & E4).
  pose proof (groups_ok_leave _ _ _ _ _ _ _ Hlv) as Hok'. pose proof (leave_state_sess x g p G X s HX) as HX1.
  unfold own_group. destruct (memg (pgroups (leave_state x g p G s))) as [h Hh]. rewrite Hh.
  pose proof (kmalloc_fresh _ _ Hh) as Hfr. set (s1 := leave_state x g p G s) in *.
  assert (HP1 : procs s1 !! p = Some (clear_job P)) by (unfold s1; by rewrite leave_state_procs, lookup_alter_eq, HP).
  assert (Hln : lone s1 p (clear_job P)).
  { split; [done|done|by rewrite E1| |].
    - intros q Q HQ He. apply (leave_procs _ _ _ _ _ _ _ _ _ Hlv) in HQ as [[-> _]|[_ HQ]]; [done|].
      by apply (to_pid _ Htab q p Q P).
    - intros k K HK E. destruct (leave_group_id _ _ _ _ _ _ _ _ _ Hlv HK) as (K' & HK' & EK & _). cbn in E.
      apply (Hnone k K' HK'); [|congruence]. rewrite <- Hps. apply (groups_ok_own s NULL Hok p P k K'); congruence || done. }
  destruct (groups_ok_group_in x h p (clear_job P) (groups_left g p G X) s1 Hok') as [Hok2 Hf2];
    [by eapply groups_full_leave|by eapply own_strict_leave|done..|].
  split; [|split].
  - split; [done..| |cbn; unfold s1; by rewrite leave_state_locks].
    eapply (table_ok_rows s); [done| |done..|].
    + rewrite <- E4. unfold rows. cbn. by rewrite !rows_alter.
    + intros k K HK. cbn in HK. apply lookup_insert_Some in HK as [[<- <-]|[_ HK]]; cbn.
      * by eapply to_range.
      * destruct (leave_group_id _ _ _ _ _ _ _ _ _ Hlv HK) as (K' & HK' & -> & _). by eapply to_pgid.
  - unfold job. cbn. rewrite !lookup_alter_eq, HP1. cbn. rewrite lookup_alter_eq, lookup_insert_eq, HX1. cbn.
    unfold groups_left. by destruct (remove1 p (pg_procs G)).
  - intros q Hq. rewrite <- (job_leave s x g p X G P q) by done. fold s1.
    assert (Hpr : procs (group_in x h p (p_pid P) s1) !! q = procs s1 !! q) by (cbn; by rewrite !lookup_alter_ne).
    destruct (procs s1 !! q) as [Q|] eqn:HQ; [|unfold job; by rewrite Hpr, HQ].
    apply (job_kept (Some x) NULL s1 _ q Q Q); [done|done|by apply ids_kept_group_in|done..].
Qed.

(** A session of its own for a process that is in none. *)
Lemma new_session_moved s p P :
  jobs_ok s → lone s p P →
  ∃ x, moved s p (new_session_at p P s) x (p_pid P) (p_pid P) ∧ sess s !! x = None.
Proof using memg mems.
  intros [Hok Hf Htab Hl] Hln. pose proof Hln as [HP Hn Hp Hpid Hpgid].
  unfold new_session_at. destruct (mems (sess s)) as [x Hx], (memg (pgroups s)) as [h Hh]. rewrite Hx, Hh.
  pose proof (kmalloc_fresh _ _ Hx) as Hfx. pose proof (kmalloc_fresh _ _ Hh) as Hfh.
  destruct (groups_ok_new_session x h p P s Hok Hf Hfx Hfh Hln) as [Hok2 Hf2].
  exists x. split; [|done]. split; [|split].
  - split; [done..| |done]. eapply (table_ok_rows s); [done| |done..|].
    + unfold rows. cbn. by rewrite !rows_alter.
    + intros k K HK. cbn in HK. apply lookup_insert_Some in HK as [[<- <-]|[_ HK]]; cbn; [|by eapply to_pgid].
      by eapply to_range.
  - unfold job. cbn. rewrite !lookup_alter_eq, HP. cbn. by rewrite !lookup_insert_eq.
  - intros q Hq.
    assert (Hpr : procs (new_session x h p (p_pid P) s) !! q = procs s !! q) by (cbn; by rewrite !lookup_alter_ne).
    destruct (procs s !! q) as [Q|] eqn:HQ; [|unfold job; by rewrite Hpr, HQ].
    apply (job_kept NULL NULL s _ q Q Q); [done|done|by apply ids_kept_new_session|done..].
Qed.

(** ** Leaving for good *)

Lemma exit_state_cases x g p X G s :
  (exit_state x g p X G s = leave_state x g p G s) ∨ (exit_state x g p X G s = drop_session x (leave_state x g p G s)).
Proof. unfold exit_state. destruct (ss_pgroups (groups_left g p G X)); auto. Qed.

Lemma exit_state_rest x g p X G s :
  processes (exit_state x g p X G s) = processes s ∧ pids (exit_state x g p X G s) = pids s ∧
  initproc (exit_state x g p X G s) = initproc s ∧ rows (exit_state x g p X G s) = rows s ∧
  pgroups (exit_state x g p X G s) = pgroups (leave_state x g p G s) ∧ cur (exit_state x g p X G s) = cur s.
Proof.
  destruct (leave_state_rest x g p G s) as (E1 & E2 & E3 & E4).
  assert (E5 : cur (leave_state x g p G s) = cur s) by (unfold leave_state; by destruct (remove1 p (pg_procs G))).
  destruct (exit_state_cases x g p X G s) as [-> | ->]; done.
Qed.

Lemma ids_kept_exit s x g p X G P : leaving s x g p X G P → ids_kept s (exit_state x g p X G s).
Proof.
  intros Hlv. pose proof (ids_kept_leave _ _ _ _ _ _ _ Hlv) as [Hg Hx].
  destruct (exit_state_cases x g p X G s) as [-> | ->]; [done|]. split; [done|].
  intros y Y Y' HY HY'. cbn in HY'. apply lookup_delete_Some in HY' as [_ HY']. by apply (Hx y Y Y').
Qed.

(** The other processes are where they were; [ps] is the list of processes from now on. *)
Lemma exit_state_ok s x g p X G P ps :
  leaving s x g p X G P → groups_full s → (∀ q, q ∈ ps → q ∈ processes s) → (∀ q, q ∈ processes s → q ≠ p → q ∈ ps) →
  (p ∈ ps → ∀ h H, pgroups s !! h = Some H → pg_id H ≠ p_pid P) →
  let s' := {| (exit_state x g p X G s) with processes := ps |} in
  groups_ok NULL s' ∧ groups_full s' ∧ (∀ q, q ≠ p → job s' q = job s q).
Proof.
  intros Hlv Hf Hsub Hkeep Hno s'. pose proof (groups_ok_exit ps _ _ _ _ _ _ _ Hlv Hsub Hkeep Hno) as Hok'. fold s' in Hok'.
  pose proof Hlv as (Hok & _). destruct (exit_state_rest x g p X G s) as (_ & _ & _ & _ & Eg & _).
  split; [done|]. split.
  - intros h H HH. unfold s' in HH. cbn in HH. rewrite Eg in HH. by apply (groups_full_leave _ _ _ _ _ _ _ Hlv Hf h).
  - intros q Hq.
    assert (Hpr : procs s' !! q = procs s !! q).
    { unfold s'. cbn. rewrite exit_state_procs. by rewrite lookup_alter_ne. }
    destruct (procs s !! q) as [Q|] eqn:HQ; [|unfold job; by rewrite Hpr, HQ].
    apply (job_kept NULL NULL s _ q Q Q); [done|done| |done..]. by apply (ids_kept_exit _ _ _ _ _ _ _ Hlv).
Qed.

Lemma left_session_ok s c C :
  jobs_ok s → procs s !! c = Some C → c ∈ processes s → (∀ h H, pgroups s !! h = Some H → pg_id H ≠ p_pid C) →
  ∃ C', jobs_ok (left_session c C s) ∧ lone (left_session c C s) c C' ∧ p_pid C' = p_pid C ∧
    (∀ q, q ≠ c → job (left_session c C s) q = job s q).
Proof.
  intros Hjo HC Hc Hno. pose proof Hjo as [Hok Hf Htab Hl]. unfold left_session.
  assert (Hu : ∀ q Q, procs s !! q = Some Q → p_pid Q = p_pid C → q = c) by (intros; by eapply (to_pid _ Htab)).
  destruct (p_session C) as [x|] eqn:Hx.
  2: { exists C. split; [done|]. split; [|done]. split; [done| |done..].
       pose proof (go_job _ _ Hok c C HC) as Hj. destruct (p_pgroup C) as [g|]; [|done].
       destruct Hj as (_ & G & HG & Hs). destruct (go_home _ _ Hok g G HG) as (? & ? & ? & _). congruence. }
  destruct (groups_ok_session NULL s c C x Hok HC Hx) as (g & X & G & Hij & Hs & _).
  assert (Hlv : leaving s x g c X G C) by done. pose proof Hij as [_ Hg _ HX HG _ _ _ _]. rewrite Hg, HX, HG.
  destruct (exit_state_ok s x g c X G C (processes s) Hlv) as (Hok' & Hf' & Hj); [done..|].
  destruct (exit_state_rest x g c X G s) as (E1 & E2 & E3 & E4 & E5 & _).
  rewrite <- E1 in Hok', Hf', Hj. set (s' := exit_state x g c X G s) in *.
  replace {| (s') with processes := processes s' |} with s' in * by (by destruct s').
  exists (clear_job C). split; [split; [done..| |]|split; [|done]].
  - apply (table_ok_rows s); [done..|]. intros h H HH. rewrite E5 in HH.
    destruct (leave_group_id _ _ _ _ _ _ _ _ _ Hlv HH) as (H' & HH' & -> & _). by eapply to_pgid.
  - unfold s'. by rewrite exit_state_locks.
  - split; [unfold s'; by rewrite exit_state_procs, lookup_alter_eq, HC|done|by rewrite E1| |].
    + intros q Q HQ. unfold s' in HQ. rewrite exit_state_procs in HQ.
      apply lookup_alter_Some in HQ as [(<- & _)|[_ HQ]]; [done|by apply (Hu q Q)].
    + intros h H HH. rewrite E5 in HH. destruct (leave_group_id _ _ _ _ _ _ _ _ _ Hlv HH) as (H' & HH' & -> & _).
      by apply (Hno h H').
Qed.
End moves.
