(* ===== verification/JobTree.v ===== *)
(** * fork, exit and wait on the tables

    A fork puts a child beside its parent, an exit takes the process out of its group
    and session and gives its children to [initproc], a wait takes one dead child away;
    each keeps the invariant of the tables. *)
From S2P Require Import Prelude Jobs JobsRun JobsInv JobCalls JobCallsRun.

Ltac call_prim :=
  lazymatch goal with
  | |- wp (file_table_lock _) _ _ => unfold file_table_lock
  | |- wp (file_table_unlock _) _ _ => unfold file_table_unlock
  | |- wp (signals_lock _) _ _ => unfold signals_lock
  | |- wp (signals_unlock _) _ _ => unfold signals_unlock
  | |- wp (signals_assert_lock _) _ _ => unfold signals_assert_lock
  | |- wp (signals_lock_queue _) _ _ => unfold signals_lock_queue
  | |- wp (signals_unlock_queue _) _ _ => unfold signals_unlock_queue
  | |- wp (lock_children (Some _)) _ _ => unfold lock_children
  | |- wp (unlock_children (Some _)) _ _ => unfold unlock_children
  | |- _ => job_prim
  end.
Ltac call_go := job_simp; repeat (call_prim; job_simp).

(** ** fork *)

Definition child_of (c : loc) (C : proc_t) (pid : Z) (q : loc) : proc_t :=
  {| p_pid := pid; p_parent := Some q; p_pgroup := p_pgroup C; p_session := p_session C; p_flags := 0;
     p_state := p_state C; p_exit := 0; p_exit_status := 0; p_children := []; p_uid := p_uid C; p_gid := p_gid C;
     p_actions := p_actions C; p_sigs := [] |}.
Definition add_child (c : loc) (P : proc_t) : proc_t := {| (P) with p_children := p_children P ++ [c] |}.
Definition forked (c : loc) (C : proc_t) (s : jobs) : jobs :=
  {| (s) with procs := alter (add_child c) (cur s) (<[c := child_of c C (pids s + 1) (cur s)]> (procs s));
              pgroups := match p_pgroup C with Some g => alter (add_proc c) g (pgroups s) | None => pgroups s end;
              processes := processes s ++ [c];
              pids := pids s + 1 |}.

Section fork.
Context `{!Kalloc proc_t}.

Definition first_row : proc_t :=
  {| p_pid := 0; p_parent := NULL; p_pgroup := NULL; p_session := NULL; p_flags := 0; p_state := EMBRYO; p_exit := 0;
     p_exit_status := 0; p_children := []; p_uid := 0; p_gid := 0; p_actions := replicate (Z.to_nat NSIG) 0; p_sigs := [] |}.

Lemma wp_proc_new c (Q : Z * ptr → jobs → Prop) s :
  kmalloc_at (procs s) = Some c → 0 ≤ pids s < 2 ^ 31 - 1 → LPids ∉ locks s → LProcesses ∉ locks s → room s = [] →
  Q (0, Some c) {| (s) with procs := <[c := {| (first_row) with p_pid := pids s + 1 |}]> (procs s);
                            processes := processes s ++ [c]; pids := pids s + 1 |} → wp proc_new Q s.
Proof.
  intros Hc Hpids Hl1 Hl2 Hr HQ. unfold proc_new. apply wp_bind. apply wp_kmalloc; [cbn; congruence|].
  intros c' Hc' Hfr. cbn in Hc', Hfr. simplify_eq. call_go. rewrite alter_insert_same.
  rewrite i32_small by lia. exact HQ.
Qed.

(** What [proc_copy] takes from the parent. *)
Definition copy_row (C P : proc_t) : proc_t :=
  {| (P) with p_state := p_state C; p_uid := p_uid C; p_gid := p_gid C; p_actions := p_actions C;
              p_pgroup := p_pgroup C; p_session := match p_pgroup C with Some _ => p_session C | None => p_session P end |}.

Lemma wp_proc_copy c q C P (Q : Z → jobs → Prop) s :
  procs s !! q = Some C → procs s !! c = Some P → c ≠ q → p_pgroup P = NULL →
  LProc q ∈ locks s → LProc c ∈ locks s → (∀ l, l ≠ LProc q → l ≠ LProc c → l ∉ locks s) → room s = [] →
  match p_pgroup C with Some g => ∃ G, pgroups s !! g = Some G ∧ (c ∉ pg_procs G) | None => True end →
  Q 0 {| (s) with procs := alter (copy_row C) c (procs s);
                  pgroups := match p_pgroup C with Some g => alter (add_proc c) g (pgroups s) | None => pgroups s end |} →
  wp (proc_copy (Some c) (Some q)) Q s.
Proof.
  intros HC HP Hne Hn Hlq Hlc Hnl Hr HG HQ.
  assert (LTable c ∉ locks s) by (by apply Hnl). assert (LTable q ∉ locks s) by (by apply Hnl).
  assert (LSig c ∉ locks s) by (by apply Hnl). assert (LSig q ∉ locks s) by (by apply Hnl).
  unfold proc_copy. call_go.
  assert (Hcopy : ∀ f : proc_t → proc_t, f P = copy_row C P → alter f c (procs s) = alter (copy_row C) c (procs s)).
  { intros f Hf. apply map_eq. intros j. destruct (decide (j = c)) as [->|?].
    - rewrite !lookup_alter_eq, HP. cbn. by rewrite Hf.
    - by rewrite !lookup_alter_ne. }
  destruct (p_pgroup C) as [g|] eqn:Hg.
  - destruct HG as (G & HG & Hin). assert (LGroup g ∉ locks s) by (by apply Hnl). assert (LProcs g ∉ locks s) by (by apply Hnl).
    call_go. eapply wp_pgroup_add; [done|cbn; by rewrite !lookup_alter_is_Some; eexists|done|lk_solve..|done|].
    unfold add_member. call_go. lk_same. rewrite !alter_twice, Hcopy; [exact HQ|]. unfold copy_row. by rewrite Hg.
  - call_go. lk_same. rewrite !alter_twice, Hcopy; [exact HQ|]. unfold copy_row. rewrite Hg, <- Hn. done.
Qed.

Lemma wp_fork c C (Q : Z → jobs → Prop) s :
  jobs_ok s → procs s !! cur s = Some C → cur s ∈ processes s → kmalloc_at (procs s) = Some c →
  0 ≤ pids s < 2 ^ 31 - 1 → room s = [] → Q (pids s + 1) (forked c C s) → wp fork Q s.
Proof.
  intros [Hok _ Htab Hl] HC Hin Hc Hpids Hr HQ. pose proof (kmalloc_fresh _ _ Hc) as Hfr.
  assert (Hnl : ∀ l, l ∉ locks s) by (intros l; rewrite Hl; apply not_elem_of_empty).
  assert (Hne : c ≠ cur s) by congruence.
  unfold fork. call_go. eapply (wp_proc_new c); [done..|lk_solve|lk_solve|done|]. call_go.
  eapply (wp_proc_copy c (cur s) C).
  - cbn. by rewrite lookup_insert_ne.
  - cbn. by rewrite lookup_insert_eq.
  - done.
  - done.
  - lk_solve.
  - lk_solve.
  - intros l ??. lk_solve.
  - done.
  - destruct (p_pgroup C) as [g|] eqn:Hg; [|done].
    destruct (groups_ok_job NULL s (cur s) C g Hok HC Hg) as (x & X & G & [_ _ _ _ HG _ _ _ _] & _).
    exists G. split; [done|]. rewrite (proj2 (proj2 (go_members _ _ Hok g G HG))). naive_solver.
  - assert (Es : (match p_pgroup C with Some _ => p_session C | None => NULL end) = p_session C).
    { pose proof (go_job _ _ Hok (cur s) C HC) as Hj. by destruct (p_pgroup C). }
    call_go. lk_same. rewrite !alter_insert_same. unfold copy_row. cbn. rewrite Es. exact HQ.
Qed.
End fork.

Section forked.
Implicit Types (s : jobs) (c q : loc) (C : proc_t).

Lemma groups_ok_weaken s x : groups_ok NULL s → groups_ok (Some x) s.
Proof.
  intros Hok. split; try apply Hok.
  - intros y Y HY. destruct (go_groups _ _ Hok y Y HY) as (? & He & ? & ?). split; [done|]. split; [intros E; by specialize (He E)|done].
  - intros p P g G Hp HP HG He. left. by apply (groups_ok_own _ NULL Hok p P g G).
Qed.

Lemma forked_procs s c C q Q : procs s !! cur s = Some C → procs s !! c = None →
  procs (forked c C s) !! q = Some Q ↔
  (q = c ∧ Q = child_of c C (pids s + 1) (cur s)) ∨ (q = cur s ∧ Q = add_child c C) ∨
  (q ≠ c ∧ q ≠ cur s ∧ procs s !! q = Some Q).
Proof.
  intros HC Hc. cbn. rewrite lookup_alter_Some. setoid_rewrite lookup_insert_Some.
  destruct (decide (q = cur s)) as [->|?]; [|naive_solver]. assert (c ≠ cur s) by congruence. naive_solver.
Qed.

Lemma forked_groups s c C :
  jobs_ok s → procs s !! cur s = Some C → cur s ∈ processes s → procs s !! c = None →
  groups_ok NULL (forked c C s) ∧ groups_full (forked c C s).
Proof.
  intros [Hok Hf Htab Hl] HC Hin Hc.
  set (N := {| (child_of c C (pids s + 1) (cur s)) with p_pgroup := NULL; p_session := NULL |}).
  assert (Hne : c ≠ cur s) by congruence.
  assert (Hid : ∀ g G, pgroups s !! g = Some G → pg_id G ≠ p_pid N).
  { intros g G HG. pose proof (to_pgid _ Htab g G HG). cbn. lia. }
  pose proof (groups_ok_with_proc s c N Hok Hc eq_refl eq_refl Hid) as Hok1.
  assert (Hcin : c ∈ processes (with_proc c N s)) by (cbn; apply elem_of_app; right; by apply list_elem_of_singleton).
  destruct (p_pgroup C) as [g|] eqn:Hg.
  - destruct (groups_ok_job NULL s (cur s) C g Hok HC Hg) as (x & X & G & [_ _ Hx HX HG _ _ _ _] & Hs & _).
    assert (Hok2 : groups_ok NULL (join_state x g c (with_proc c N s))).
    { eapply groups_ok_join; [by apply groups_ok_weaken|cbn; by rewrite lookup_insert_eq|done|done|done|done|].
      by apply groups_ok_own. }
    split.
    + eapply groups_ok_cols; [exact Hok2| |cbn; by rewrite Hg|done..].
      unfold cols. cbn. rewrite (cols_alter (add_child c)) by done. rewrite !alter_insert_same.
      rewrite !fmap_insert. f_equal. unfold col_of. cbn. by rewrite Hg, Hx.
    + intros h H HH. cbn in HH. rewrite Hg in HH.
      apply lookup_alter_Some in HH as [(<- & G' & ? & ->)|[_ HH]]; [|by apply (Hf h)]. cbn. by destruct (pg_procs G').
  - assert (Hx : p_session C = NULL) by (pose proof (go_job _ _ Hok (cur s) C HC) as Hj; by rewrite Hg in Hj).
    split; [|intros h H HH; cbn in HH; rewrite Hg in HH; by apply (Hf h)].
    eapply groups_ok_cols; [exact Hok1| |cbn; by rewrite Hg|done..].
    unfold cols. cbn. rewrite (cols_alter (add_child c)) by done. rewrite !fmap_insert. f_equal. unfold col_of. cbn. by rewrite Hg, Hx.
Qed.

Lemma forked_children s c C :
  table_ok s → procs s !! cur s = Some C → procs s !! c = None → live C →
  ∀ q Q, procs (forked c C s) !! q = Some Q → NoDup (p_children Q) ∧
    (∀ p, p ∈ p_children Q ↔ ∃ P, procs (forked c C s) !! p = Some P ∧ p_parent P = Some q).
Proof.
  intros Htab HC Hc Hlive q Q HQ. pose proof (λ q Q, forked_procs s c C q Q HC Hc) as Hpr. setoid_rewrite Hpr.
  assert (Hnot : ∀ r R, procs s !! r = Some R → c ∉ p_children R).
  { intros r R HR. destruct (to_children _ Htab r R HR) as [_ Hm]. rewrite Hm. naive_solver. }
  apply Hpr in HQ as [[-> ->]|[[-> ->]|(? & ? & HQ)]].
  - cbn. split; [constructor|]. intros p. split; [by intros ?%elem_of_nil|].
    assert (Hnone : ∀ r R, procs s !! r = Some R → p_parent R ≠ Some c).
    { intros r R HR E. pose proof (to_parent _ Htab r R HR) as Hp. rewrite E in Hp. naive_solver. }
    intros (P & [[-> ->]|[[-> ->]|(? & ? & HP)]] & Hpar); cbn in Hpar; [congruence|by destruct (Hnone _ _ HC)|by destruct (Hnone _ _ HP)].
  - destruct (to_children _ Htab (cur s) C HC) as [Hnd Hm]. cbn. split.
    + apply NoDup_app. split; [done|]. split; [|apply NoDup_singleton].
      intros k Hk ->%list_elem_of_singleton. by apply (Hnot (cur s) C HC).
    + intros p. rewrite elem_of_app, Hm, list_elem_of_singleton. split.
      * intros [(P & HP & Hpar)| ->]; [|by exists (child_of c C (pids s + 1) (cur s)); auto].
        destruct (decide (p = cur s)) as [->|?].
        -- exists (add_child c C). split; [auto|]. cbn. congruence.
        -- exists P. split; [|done]. right; right. split; [congruence|done].
      * intros (P & [[-> _]|[[-> ->]|(? & ? & ?)]] & Hpar); [by right|left; cbn in Hpar; eauto|left; eauto].
  - destruct (to_children _ Htab q Q HQ) as [Hnd Hm]. split; [done|]. intros p. rewrite Hm. split.
    + intros (P & HP & Hpar). destruct (decide (p = cur s)) as [->|?].
      * exists (add_child c C). split; [auto|]. cbn. congruence.
      * exists P. split; [|done]. right; right. split; [congruence|done].
    + intros (P & [[-> ->]|[[-> ->]|(? & ? & ?)]] & Hpar); [cbn in Hpar; congruence|cbn in Hpar; eauto|eauto].
Qed.

Lemma forked_table s c C :
  jobs_ok s → procs s !! cur s = Some C → cur s ∈ processes s → procs s !! c = None →
  table_ok (forked c C s).
Proof.
  intros [Hok Hf Htab Hl] HC Hin Hc. pose proof (λ q Q, forked_procs s c C q Q HC Hc) as Hpr.
  assert (Hlive : live C) by (apply (to_list _ Htab) in Hin as (C' & ? & ?); congruence).
  assert (Hne : c ≠ cur s) by congruence.
  assert (Hold : ∀ q Q, procs (forked c C s) !! q = Some Q → q ≠ c →
    ∃ Q0, procs s !! q = Some Q0 ∧ p_pid Q0 = p_pid Q ∧ p_parent Q0 = p_parent Q ∧ p_state Q0 = p_state Q ∧
      (∀ k, k ∈ p_children Q ↔ k ∈ p_children Q0 ∨ (q = cur s ∧ k = c))).
  { intros q Q [[-> _]|[[-> ->]|(? & ? & HQ)]]%Hpr Hq; [done| |].
    - exists C. split; [done|]. do 3 (split; [done|]). intros k. cbn. rewrite elem_of_app, list_elem_of_singleton. naive_solver.
    - exists Q. split; [done|]. do 3 (split; [done|]). intros k. naive_solver. }
  split.
  - cbn. apply NoDup_app. split; [apply Htab|]. split; [|apply NoDup_singleton].
    intros q Hq ->%list_elem_of_singleton. apply (to_list _ Htab) in Hq as (? & ? & _). congruence.
  - intros q. cbn [processes forked]. rewrite elem_of_app, list_elem_of_singleton, (to_list _ Htab). setoid_rewrite Hpr.
    destruct (decide (q = c)) as [->|?]; [|destruct (decide (q = cur s)) as [->|?]].
    + split; [|naive_solver]. intros _. eexists. split; [by left|]. done.
    + split; [|intros (Q & _); left; eauto]. intros _. eexists. split; [right; by left|]. done.
    + naive_solver.
  - intros p q P Q HP HQ E. destruct (decide (p = c)) as [->|Hp], (decide (q = c)) as [->|Hq]; [done|..].
    + exfalso. destruct (Hold q Q HQ Hq) as (Q0 & HQ0 & E0 & _). pose proof (to_range _ Htab q Q0 HQ0).
      apply Hpr in HP as [[_ ->]|[[? _]|(? & _)]]; [cbn in E; lia|done..].
    + exfalso. destruct (Hold p P HP Hp) as (P0 & HP0 & E0 & _). pose proof (to_range _ Htab p P0 HP0).
      apply Hpr in HQ as [[_ ->]|[[? _]|(? & _)]]; [cbn in E; lia|done..].
    + destruct (Hold p P HP Hp) as (P0 & HP0 & E0 & _), (Hold q Q HQ Hq) as (Q0 & HQ0 & E1 & _).
      apply (to_pid _ Htab p q P0 Q0); congruence.
  - intros p P HP. destruct (decide (p = c)) as [->|Hp].
    + apply Hpr in HP as [[_ ->]|[[? _]|(? & _)]]; [|done..]. pose proof (to_range _ Htab (cur s) C HC). cbn. lia.
    + destruct (Hold p P HP Hp) as (P0 & HP0 & <- & _). pose proof (to_range _ Htab p P0 HP0). cbn. lia.
  - intros g G HG. cbn in *. destruct (p_pgroup C) as [h|].
    + apply lookup_alter_Some in HG as [(<- & G' & HG' & ->)|[_ HG']]; pose proof (to_pgid _ Htab _ _ HG'); cbn; lia.
    + pose proof (to_pgid _ Htab _ _ HG). lia.
  - apply (forked_children s c C); done.
  - intros p P HP Hd. destruct (decide (p = c)) as [->|Hp].
    + by apply Hpr in HP as [[_ ->]|[[? _]|(? & _)]].
    + apply Hpr in HP as [[? _]|[[-> ->]|(_ & _ & HP)]]; [done|done|by apply (to_dead _ Htab p P)].
  - intros p P HP. destruct (decide (p = c)) as [->|Hp].
    + apply Hpr in HP as [[_ ->]|[[? _]|(? & _)]]; [|done..]. cbn [p_parent child_of]. exists (add_child c C).
      split; [apply Hpr; auto|]. pose proof (to_range _ Htab (cur s) C HC). cbn. lia.
    + destruct (Hold p P HP Hp) as (P0 & HP0 & E0 & E1 & _). pose proof (to_parent _ Htab p P0 HP0) as Hq.
      rewrite <- E1. destruct (p_parent P0) as [q|]; [|done]. destruct Hq as (Q & HQ & Hlt).
      destruct (decide (q = cur s)) as [->|?].
      * exists (add_child c C). split; [apply Hpr; auto|]. simplify_eq. cbn. lia.
      * exists Q. split; [apply Hpr; right; right; split; [congruence|done]|lia].
  - destruct (to_init _ Htab) as (i & I & Hi & HI & Hli & Hni & Hlt).
    exists i, (if decide (i = cur s) then add_child c C else I). split; [done|]. split; [|split; [|split]].
    + apply Hpr. destruct (decide (i = cur s)) as [->|?]; [auto|]. right; right. split; [congruence|done].
    + destruct (decide (i = cur s)); [done|done].
    + destruct (decide (i = cur s)) as [->|?]; [|done]. cbn. congruence.
    + intros p P HP Hpi.
      assert (Epid : p_pid (if decide (i = cur s) then add_child c C else I) = p_pid I).
      { destruct (decide (i = cur s)) as [->|?]; [|done]. cbn. congruence. }
      rewrite Epid. destruct (decide (p = c)) as [->|Hp].
      * apply Hpr in HP as [[_ ->]|[[? _]|(? & _)]]; [|done..]. pose proof (to_range _ Htab i I HI). cbn. lia.
      * destruct (Hold p P HP Hp) as (P0 & HP0 & <- & _). by apply (Hlt p P0).
Qed.

Lemma forked_ok s c C :
  jobs_ok s → procs s !! cur s = Some C → cur s ∈ processes s → procs s !! c = None →
  jobs_ok (forked c C s) ∧ job (forked c C s) c = job s (cur s) ∧ (∀ q, q ≠ c → job (forked c C s) q = job s q).
Proof.
  intros Hjo HC Hin Hc. pose proof Hjo as [Hok _ _ Hl]. destruct (forked_groups s c C Hjo HC Hin Hc) as [Hok' Hf'].
  assert (Hids : ids_kept s (forked c C s)).
  { split; [|cbn; congruence]. intros g G G' HG HG'. cbn in HG'. destruct (p_pgroup C) as [h|]; [|congruence].
    apply lookup_alter_Some in HG' as [(<- & G0 & ? & ->)|[_ ?]]; cbn; congruence. }
  assert (Hj : ∀ q, q ≠ c → job (forked c C s) q = job s q).
  { intros q Hq. destruct (procs s !! q) as [Q|] eqn:HQ.
    - destruct (decide (q = cur s)) as [->|?].
      + apply (job_kept NULL NULL s _ (cur s) C (add_child c C)); [done..|apply forked_procs; auto|done|done].
      + apply (job_kept NULL NULL s _ q Q Q); [done..|apply forked_procs; auto|done|done].
    - destruct (procs (forked c C s) !! q) as [Q'|] eqn:HQ'; [|unfold job; by rewrite HQ, HQ'].
      apply forked_procs in HQ' as [[? _]|[[-> _]|(_ & _ & ?)]]; congruence. }
  split; [split; [done|done|by apply forked_table|done]|]. split; [|done].
  rewrite <- (Hj (cur s)) by congruence. unfold job.
  assert (procs (forked c C s) !! c = Some (child_of c C (pids s + 1) (cur s))) as -> by (apply forked_procs; auto).
  assert (procs (forked c C s) !! cur s = Some (add_child c C)) as -> by (apply forked_procs; auto). done.
Qed.
End forked.
