(* ===== verification/JobExit.v ===== *)
(** * exit and wait on the tables *)
From S2P Require Import Prelude Jobs JobsRun JobsInv JobCalls JobCallsRun JobTree.

(** ** exit *)

Definition no_signals (P : proc_t) : proc_t := {| (P) with p_sigs := []; p_actions := replicate (Z.to_nat NSIG) 0 |}.
Definition orphaned (i : loc) (P : proc_t) : proc_t :=
  {| (P) with p_parent := Some i; p_flags := Z.lor (p_flags P) PROC_ORPHANED |}.
Definition lose_child (c : loc) (P : proc_t) : proc_t := {| (P) with p_children := remove1 c (p_children P) |}.
Definition zombie (status : Z) (P : proc_t) : proc_t := {| (P) with p_state := ZOMBIE; p_exit := u32 status |}.

(** The process [i] takes the children [l] of [p]. *)
Fixpoint adopt_all (p i : loc) (l : list loc) (h : gmap loc proc_t) : gmap loc proc_t :=
  match l with
  | [] => h
  | c :: l => adopt_all p i l (alter (add_child c) i (alter (orphaned i) c (alter (lose_child c) p h)))
  end.

(** The state before the children are given away, and after. *)
Definition off_list (s : jobs) : jobs :=
  {| (s) with procs := alter no_signals (cur s) (procs s); processes := remove1 (cur s) (processes s) |}.
Definition exited (i : loc) (C : proc_t) (status : Z) (s : jobs) : jobs :=
  let s1 := left_session (cur s) C (off_list s) in
  {| (s1) with procs := alter (zombie status) (cur s) (adopt_all (cur s) i (p_children C) (procs s1)) |}.

Lemma alter_orphan (p c i : loc) (h : gmap loc proc_t) : c ≠ p →
  alter (λ P, {| (P) with p_flags := Z.lor (p_flags P) PROC_ORPHANED |}) c
    (alter (lose_child c) p (alter (λ P, {| (P) with p_parent := Some i |}) c h)) =
  alter (orphaned i) c (alter (lose_child c) p h).
Proof.
  intros Hne. apply map_eq. intros q. destruct (decide (q = c)) as [->|?].
  - rewrite !lookup_alter_eq. rewrite !(lookup_alter_ne _ _ p) by congruence. rewrite lookup_alter_eq. by destruct (h !! c).
  - rewrite !(lookup_alter_ne _ _ c) by congruence. destruct (decide (q = p)) as [->|?].
    + rewrite !lookup_alter_eq. by rewrite lookup_alter_ne by congruence.
    + by rewrite !lookup_alter_ne by congruence.
Qed.

Lemma wp_orphan_children p i (l : list loc) (Q : unit → jobs → Prop) s :
  is_Some (procs s !! p) → is_Some (procs s !! i) → (∀ c, c ∈ l → is_Some (procs s !! c) ∧ c ≠ p ∧ (LProc c ∉ locks s)) →
  room s = [] → Q tt {| (s) with procs := adopt_all p i l (procs s) |} → wp (orphan_children (Some p) (Some i) l) Q s.
Proof.
  revert s. induction l as [|c l IH]; intros s Hp Hi Hl Hr HQ; cbn [orphan_children].
  { apply wp_ret. by destruct s. }
  destruct (Hl c) as ([K HK] & Hne & Hlc); [set_solver|]. destruct Hp as [P HP], Hi as [I HI]. call_go.
  apply IH; cbn.
  - rewrite !lookup_alter_is_Some. by eexists.
  - rewrite !lookup_alter_is_Some. by eexists.
  - intros k Hk. rewrite !lookup_alter_is_Some. apply Hl. by right.
  - done.
  - lk_same. rewrite alter_orphan by done. exact HQ.
Qed.

(** The children of a process are neither the process nor its parent. *)
Lemma child_is_younger s p P c : table_ok s → procs s !! p = Some P → c ∈ p_children P →
  ∃ K, procs s !! c = Some K ∧ p_parent K = Some p ∧ p_pid P < p_pid K.
Proof.
  intros Htab HP Hc. apply (proj2 (to_children _ Htab p P HP)) in Hc as (K & HK & Hpar).
  exists K. split; [done|]. split; [done|]. pose proof (to_parent _ Htab c K HK) as Hq. rewrite Hpar in Hq. naive_solver.
Qed.

Section exit.
Context `{!Kalloc pgroup_t, !Kalloc session_t}.

Lemma left_session_with_locks c C L s : left_session c C (with_locks L s) = with_locks L (left_session c C s).
Proof.
  unfold left_session. cbn. destruct (p_session C) as [x|], (p_pgroup C) as [g|]; try done.
  destruct (sess s !! x), (pgroups s !! g); try done. apply exit_state_with_locks.
Qed.
Lemma left_session_procs c C s : ∃ f, (∀ P, row_of (f P) = row_of P) ∧ procs (left_session c C s) = alter f c (procs s) ∧
  locks (left_session c C s) = locks s ∧ room (left_session c C s) = room s ∧ cur (left_session c C s) = cur s.
Proof.
  assert (Hid : procs s = alter id c (procs s)).
  { apply map_eq. intros q. destruct (decide (q = c)) as [->|?].
    - rewrite lookup_alter_eq. by destruct (procs s !! c).
    - by rewrite lookup_alter_ne. }
  unfold left_session. destruct (p_session C) as [x|]; [|by exists id]. destruct (p_pgroup C) as [g|]; [|by exists id].
  destruct (sess s !! x) as [X|]; [|by exists id]. destruct (pgroups s !! g) as [G|]; [|by exists id].
  exists clear_job. split; [done|]. rewrite exit_state_procs, exit_state_locks, exit_state_room. by destruct (exit_state_rest x g c X G s) as (_ & _ & _ & _ & _ & ->).
Qed.

Lemma row_children P P' : row_of P = row_of P' → p_children P = p_children P'.
Proof. unfold row_of. intros E. by simplify_eq. Qed.

(** What [exit] does after [session_exit]. *)
Definition exit_tail (c i q : loc) (status : Z) : M jobs unit :=
  lock_children (Some i);;
  lock_children (Some c);;
  C ← rd (Some c);
  orphan_children (Some c) (Some i) (p_children C);;
  unlock_children (Some c);;
  unlock_children (Some i);;
  upd (Some c) (λ P, {| (P) with p_state := ZOMBIE; p_exit := u32 status |});;
  proc_unlock (Some c);;
  proc_unlock (Some q).

Lemma adopt_all_is_Some p i l k h : is_Some (adopt_all p i l h !! k) ↔ is_Some (h !! k).
Proof. revert h. induction l as [|c l IH]; intros h; simpl; [done|]. by rewrite IH, !lookup_alter_is_Some. Qed.

Lemma wp_exit_tail C c i q status (Q : unit → jobs → Prop) L s :
  procs s !! c = Some C → is_Some (procs s !! i) → is_Some (procs s !! q) → i ≠ c → q ≠ c →
  (∀ k, k ∈ p_children C → is_Some (procs s !! k) ∧ k ≠ c ∧ k ≠ q) → room s = [] → locks s = L → (∀ l, l ∉ L) →
  Q tt {| (s) with procs := alter (zombie status) c (adopt_all c i (p_children C) (procs s)) |} →
  wp (exit_tail c i q status) Q (with_locks ({[LProc q]} ∪ ({[LProc c]} ∪ L)) s).
Proof.
  intros HC [I HI] [P HP] Hic Hqc Hch Hr <- Hnl HQ. unfold exit_tail. call_go.
  apply wp_orphan_children; cbn.
  - by eexists.
  - by eexists.
  - intros k Hk. destruct (Hch k Hk) as (? & ? & ?). split; [done|]. split; [done|]. lk_solve.
  - done.
  - assert (Hsome : ∀ k, is_Some (procs s !! k) → is_Some (adopt_all c i (p_children C) (procs s) !! k))
      by (intros k; by rewrite adopt_all_is_Some).
    destruct (Hsome c) as [C2 HC2]; [by eexists|]. destruct (Hsome i) as [I2 HI2]; [by eexists|].
    destruct (Hsome q) as [P2 HP2]; [by eexists|]. clear Hsome.
    set (h2 := adopt_all c i (p_children C) (procs s)) in *. call_go. lk_same.
    replace (({[LProc q]} ∪ ({[LProc c]} ∪ locks s)) ∖ {[LProc c]} ∖ {[LProc q]}) with (locks s)
      by (pose proof (Hnl (LProc q)); pose proof (Hnl (LProc c)); set_solver). exact HQ.
Qed.

(** [session_exit] of the process that ends, if it is in a session. *)
Lemma wp_exit_session s C (Q : unit → jobs → Prop) :
  groups_ok NULL s → procs s !! cur s = Some C → ∀ s1,
  procs s1 = alter no_signals (cur s) (procs s) → pgroups s1 = pgroups s → sess s1 = sess s →
  LProc (cur s) ∈ locks s1 → only_procs (locks s1) →
  Q tt (left_session (cur s) C s1) →
  wp (match p_session C with Some _ => session_exit (p_session C) (Some (cur s)) true;; mret tt | None => mret tt end) Q s1.
Proof.
  intros Hok HC s1 E1 E2 E3 Hlc Hop HQ. unfold left_session in HQ. destruct (p_session C) as [x|] eqn:Hx; [|by apply wp_ret].
  destruct (groups_ok_session NULL s (cur s) C x Hok HC Hx) as (g & X & G & [_ Hg _ HX HG Hgx Hin Hr Hr'] & _).
  rewrite Hg, E2, E3, HX, HG in HQ. apply wp_bind.
  eapply (wp_session_exit_free x g (cur s) X G (no_signals C)); [|done|by intros [? ?]%Hop..|by apply wp_ret].
  split; rewrite ?E1, ?E2, ?E3; try done. by rewrite lookup_alter_eq, HC.
Qed.

Lemma wp_exit i C q status (Q : unit → jobs → Prop) s :
  jobs_ok s → procs s !! cur s = Some C → initproc s = Some i → i ≠ cur s → p_parent C = Some q → room s = [] →
  Q tt (exited i C status s) → wp (exit status) Q s.
Proof.
  intros [Hok _ Htab Hl] HC Hi Hne Hq Hr HQ.
  assert (Hnl : ∀ l, l ∉ locks s) by (intros l; rewrite Hl; apply not_elem_of_empty).
  pose proof (to_parent _ Htab (cur s) C HC) as Hpar. rewrite Hq in Hpar. destruct Hpar as (P & HP & Hlt).
  assert (Hqc : q ≠ cur s) by (intros ->; simplify_eq; lia).
  destruct (to_init _ Htab) as (i' & I & Hi' & HI & _). assert (i' = i) as -> by congruence.
  unfold exit. call_go. rewrite Hi, bool_decide_eq_false_2 by congruence. unfold signals_cancel. call_go.
  rewrite Hq. call_go. rewrite alter_twice.
  change (wp (match p_session C with
              | Some _ => session_exit (p_session C) (Some (cur s)) true ≫= λ _ : Z, mret ()
              | None => mret ()
              end) (λ _ s', wp (exit_tail (cur s) i q status) Q s')
    (with_locks ({[LProc q]} ∪ ({[LProc (cur s)]} ∪ locks s)) (off_list s))).
  eapply (wp_exit_session s); [done|done|done|done|done|lk_solve| |].
  { cbn. rewrite Hl. apply only_procs_add, only_procs_add, only_procs_empty. }
  rewrite left_session_with_locks. destruct (left_session_procs (cur s) C (off_list s)) as (f & Hf & Epr & Elk & Erm & _).
  unfold exited in HQ. set (s1 := left_session (cur s) C (off_list s)) in *.
  apply (wp_exit_tail (f (no_signals C))); cbn; try exact Elk; try done.
  - rewrite Epr. cbn. by rewrite !lookup_alter_eq, HC.
  - rewrite Epr. cbn. rewrite !lookup_alter_ne by congruence. by eexists.
  - rewrite Epr. cbn. rewrite !lookup_alter_ne by congruence. by eexists.
  - rewrite (row_children _ _ (Hf _)). cbn. intros c Hc.
    destruct (child_is_younger s (cur s) C c Htab HC Hc) as (K & HK & _ & Hk).
    assert (c ≠ cur s) by (intros ->; simplify_eq; lia). rewrite Epr. cbn. rewrite !lookup_alter_ne by congruence.
    split; [by eexists|]. split; [done|]. intros ->. simplify_eq. lia.
  - by rewrite Erm.
  - rewrite (row_children _ _ (Hf _)). exact HQ.
Qed.
End exit.

(** The rows of the table after the children have been given away. *)
Definition lose_all (l : list loc) (P : proc_t) : proc_t := {| (P) with p_children := foldl (λ k c, remove1 c k) (p_children P) l |}.
Definition take_all (l : list loc) (P : proc_t) : proc_t := {| (P) with p_children := p_children P ++ l |}.

Lemma adopt_all_lookup p i l h k : NoDup l → p ∉ l → i ∉ l → i ≠ p →
  adopt_all p i l h !! k =
    if decide (k ∈ l) then orphaned i <$> h !! k
    else if decide (k = p) then lose_all l <$> h !! k
    else if decide (k = i) then take_all l <$> h !! k else h !! k.
Proof.
  intros Hnd. revert h. induction Hnd as [|c l Hc Hnd IH]; intros h Hp Hi Hne; cbn [adopt_all].
  - rewrite decide_False by apply not_elem_of_nil.
    assert (E1 : lose_all [] <$> h !! k = h !! k) by (destruct (h !! k) as [[]|]; done).
    assert (E2 : take_all [] <$> h !! k = h !! k).
    { destruct (h !! k) as [P|]; [|done]. cbn. unfold take_all. rewrite app_nil_r. by destruct P. }
    rewrite E1, E2. by repeat case_decide.
  - apply not_elem_of_cons in Hp as [Hpc Hp], Hi as [Hic Hi]. rewrite IH by done.
    destruct (decide (k ∈ l)) as [Hk|Hk].
    + rewrite (decide_True (P := k ∈ c :: l)) by (by right). f_equal.
      rewrite !lookup_alter_ne; [done|..]; intros ->; done.
    + destruct (decide (k = c)) as [->|Hkc].
      * rewrite (decide_True (P := c ∈ c :: l)) by (by left). rewrite decide_False, decide_False by done.
        rewrite lookup_alter_ne, lookup_alter_eq by done. by rewrite lookup_alter_ne.
      * rewrite (decide_False (P := k ∈ c :: l)) by (by apply not_elem_of_cons).
        destruct (decide (k = p)) as [->|?]; [|destruct (decide (k = i)) as [->|?]].
        -- rewrite (lookup_alter_ne _ _ i), (lookup_alter_ne _ _ c), lookup_alter_eq by congruence. by destruct (h !! p).
        -- rewrite lookup_alter_eq, (lookup_alter_ne _ _ c), (lookup_alter_ne _ _ p) by congruence.
           destruct (h !! i) as [I|]; [|done]. cbn. unfold take_all, add_child. cbn. by rewrite <- app_assoc.
        -- by rewrite !lookup_alter_ne by congruence.
Qed.

Lemma lose_all_own (l : list loc) : foldl (λ k c, remove1 c k) l l = [].
Proof. induction l as [|c l IH]; simpl; [done|]. by rewrite bool_decide_eq_true_2. Qed.

Section exited.
Context (s : jobs) (C : proc_t) (i q0 : loc) (status : Z).
Context (Hjo : jobs_ok s) (HC : procs s !! cur s = Some C) (Hcur : cur s ∈ processes s).
Context (Hi : initproc s = Some i) (Hne : i ≠ cur s).
Local Abbreviation s' := (exited i C status s).

Definition exit_row (k : loc) (r : Z * ptr * pstate * list loc) : Z * ptr * pstate * list loc :=
  let '(pid, par, st, ch) := r in
  (pid, if decide (k ∈ p_children C) then Some i else par, if decide (k = cur s) then ZOMBIE else st,
   if decide (k = cur s) then [] else if decide (k = i) then ch ++ p_children C else ch).

Lemma exit_children_ok : NoDup (p_children C) ∧ (cur s ∉ p_children C) ∧ (i ∉ p_children C).
Proof using Hjo HC Hi Hne.
  destruct Hjo as [_ _ Htab _]. split; [by apply (to_children _ Htab (cur s) C HC)|]. split.
  - intros Hin. destruct (child_is_younger s (cur s) C (cur s) Htab HC Hin) as (K & ? & _ & ?). simplify_eq. lia.
  - intros Hin. destruct (child_is_younger s (cur s) C i Htab HC Hin) as (K & ? & Hpar & _).
    destruct (to_init _ Htab) as (i' & I & ? & ? & _ & ? & _). by simplify_eq.
Qed.

Lemma exited_rows k : rows s' !! k = exit_row k <$> rows s !! k.
Proof using Hjo HC Hi Hne.
  destruct exit_children_ok as (Hnd & Hc & Hic).
  destruct (left_session_procs (cur s) C (off_list s)) as (f & Hf & Epr & _).
  assert (Erow : ∀ k, row_of <$> procs (left_session (cur s) C (off_list s)) !! k = row_of <$> procs s !! k).
  { intros j. rewrite <- !lookup_fmap, Epr. cbn. by rewrite rows_alter, rows_alter. }
  unfold rows. rewrite !lookup_fmap. unfold exited. cbn [procs].
  specialize (Erow k). set (h1 := procs (left_session (cur s) C (off_list s))) in *.
  assert (Hch : k = cur s → ∀ P, h1 !! k = Some P → p_children P = p_children C).
  { intros -> P HP. rewrite HP, HC in Erow. cbn in Erow. unfold row_of in Erow. by simplify_eq. }
  destruct (decide (k = cur s)) as [->|Hk].
  - rewrite lookup_alter_eq, adopt_all_lookup by done.
    rewrite (decide_False (P := cur s ∈ p_children C)), decide_True by done.
    rewrite <- Erow. destruct (h1 !! cur s) as [P|] eqn:HP; [|done]. cbn. unfold row_of, exit_row. cbn.
    rewrite (decide_False (P := cur s ∈ p_children C)), !decide_True by done. by rewrite (Hch eq_refl P eq_refl), lose_all_own.
  - rewrite lookup_alter_ne, adopt_all_lookup by done. rewrite <- Erow.
    destruct (h1 !! k) as [P|]; [|by repeat case_decide]. cbn. unfold row_of, exit_row.
    rewrite !(decide_False (P := k = cur s)) by done.
    destruct (decide (k ∈ p_children C)); cbn.
    + rewrite decide_False; [done|]. by intros ->.
    + by destruct (decide (k = i)).
Qed.

Lemma exited_back k Q : procs s' !! k = Some Q → ∃ P, procs s !! k = Some P ∧ row_of Q = exit_row k (row_of P).
Proof using Hjo HC Hi Hne.
  intros HQ. pose proof (exited_rows k) as E. unfold rows in E. rewrite !lookup_fmap, HQ in E.
  destruct (procs s !! k) as [P|]; [|done]. exists P. split; [done|]. by apply (inj Some).
Qed.
Lemma exited_forth k P : procs s !! k = Some P → ∃ Q, procs s' !! k = Some Q ∧ row_of Q = exit_row k (row_of P).
Proof using Hjo HC Hi Hne.
  intros HP. pose proof (exited_rows k) as E. unfold rows in E. rewrite !lookup_fmap, HP in E.
  destruct (procs s' !! k) as [Q|]; [|done]. exists Q. split; [done|]. by apply (inj Some).
Qed.

(** The rows, field by field. *)
Lemma exit_row_fields k P Q : row_of Q = exit_row k (row_of P) →
  p_pid Q = p_pid P ∧ p_parent Q = (if decide (k ∈ p_children C) then Some i else p_parent P) ∧
  p_state Q = (if decide (k = cur s) then ZOMBIE else p_state P) ∧
  p_children Q = (if decide (k = cur s) then [] else if decide (k = i) then p_children P ++ p_children C else p_children P).
Proof. unfold row_of, exit_row. intros E. by simplify_eq. Qed.

Lemma exited_rest : processes s' = remove1 (cur s) (processes s) ∧ pids s' = pids s ∧ initproc s' = initproc s ∧ locks s' = locks s.
Proof.
  unfold exited. cbn. unfold left_session. destruct (p_session C) as [x|]; [|done]. destruct (p_pgroup C) as [g|]; [|done].
  destruct (sess (off_list s) !! x) as [X|]; [|done]. destruct (pgroups (off_list s) !! g) as [G|]; [|done].
  destruct (exit_state_rest x g (cur s) X G (off_list s)) as (-> & -> & -> & _). by rewrite exit_state_locks.
Qed.

Lemma exited_children k Q : procs s' !! k = Some Q →
  NoDup (p_children Q) ∧ (∀ p, p ∈ p_children Q ↔ ∃ P, procs s' !! p = Some P ∧ p_parent P = Some k).
Proof using Hjo HC Hi Hne.
  intros HQ. pose proof Hjo as [_ _ Htab _]. destruct exit_children_ok as (Hnd & Hc & Hic).
  destruct (to_children _ Htab (cur s) C HC) as [_ HmC].
  destruct (exited_back k Q HQ) as (K & HK & (_ & _ & _ & ->)%exit_row_fields).
  destruct (to_children _ Htab k K HK) as [Hndk Hm].
  assert (Hpar : ∀ p, (∃ P, procs s' !! p = Some P ∧ p_parent P = Some k) ↔
    (p ∈ p_children C ∧ k = i) ∨ ((p ∉ p_children C) ∧ p ∈ p_children K)).
  { intros p. rewrite Hm. split.
    - intros (P' & HP' & E). destruct (exited_back p P' HP') as (P & HP & (_ & E' & _)%exit_row_fields).
      rewrite E' in E. destruct (decide (p ∈ p_children C)); [left; split; congruence|right; eauto].
    - intros [[Hp ->]|[Hp (P & HP & E)]].
      + pose proof Hp as (P & HP & _)%HmC. destruct (exited_forth p P HP) as (P' & HP' & (_ & E' & _)%exit_row_fields).
        exists P'. split; [done|]. by rewrite E', decide_True.
      + destruct (exited_forth p P HP) as (P' & HP' & (_ & E' & _)%exit_row_fields).
        exists P'. split; [done|]. by rewrite E', decide_False. }
  destruct (decide (k = cur s)) as [->|Hk]; [|destruct (decide (k = i)) as [->|Hki]].
  - split; [constructor|]. intros p. rewrite Hpar. split; [by intros ?%elem_of_nil|].
    assert (K = C) as -> by congruence. intros [[_ ?]|[? ?]]; congruence || done.
  - assert (Hdisj : ∀ p, p ∈ p_children K → p ∉ p_children C).
    { intros p (P & HP & E)%Hm (P' & HP' & E')%HmC. congruence. }
    split; [apply NoDup_app; auto|]. intros p. rewrite Hpar, elem_of_app.
    split; [intros [Hp|Hp]; [right; auto|left; auto]|intros [[Hp _]|[_ Hp]]; auto].
  - split; [done|]. intros p. rewrite Hpar. split; [|intros [[_ ?]|[_ ?]]; done].
    intros Hp. right. split; [|done]. intros (P' & HP' & E')%HmC. apply Hm in Hp as (P & HP & E). congruence.
Qed.

Lemma exited_table : (∀ g G, pgroups s' !! g = Some G → pg_id G ≤ pids s) → table_ok s'.
Proof using Hjo HC Hi Hne Hcur.
  intros Hids. pose proof Hjo as [_ _ Htab _]. destruct exited_rest as (E1 & E2 & E3 & _).
  destruct exit_children_ok as (Hnd & Hc & Hic). pose proof (to_nodup _ Htab) as Hndp.
  split; rewrite ?E1, ?E2, ?E3.
  - by apply NoDup_remove1.
  - intros k. rewrite elem_of_remove_one, (to_list _ Htab) by done. unfold live. split.
    + intros [(P & HP & Hl) Hk]. destruct (exited_forth k P HP) as (Q & HQ & (_ & _ & Es & _)%exit_row_fields).
      exists Q. split; [done|]. by rewrite Es, decide_False.
    + intros (Q & HQ & Hl). destruct (exited_back k Q HQ) as (P & HP & (_ & _ & Es & _)%exit_row_fields).
      rewrite Es in Hl. case_decide; [naive_solver|eauto].
  - intros k j P Q (P0 & HP0 & (-> & _)%exit_row_fields)%exited_back (Q0 & HQ0 & (-> & _)%exit_row_fields)%exited_back E.
    by apply (to_pid _ Htab k j P0 Q0).
  - intros k P (P0 & HP0 & (-> & _)%exit_row_fields)%exited_back. by apply (to_range _ Htab k).
  - done.
  - exact exited_children.
  - intros k Q HQ Hl. destruct (exited_back k Q HQ) as (P & HP & (_ & _ & Es & Ech)%exit_row_fields). rewrite Ech.
    destruct (decide (k = cur s)) as [|Hk]; [done|]. unfold live in Hl. rewrite Es in Hl.
    destruct (decide (k = i)) as [->|?].
    + destruct (to_init _ Htab) as (i' & I & ? & ? & Hli & _). by simplify_eq.
    + by apply (to_dead _ Htab k P).
  - intros k Q HQ. destruct (exited_back k Q HQ) as (P & HP & (Epid & Epar & _)%exit_row_fields). rewrite Epar.
    destruct (to_init _ Htab) as (i' & I & ? & HI & _ & _ & Hlt). simplify_eq.
    destruct (decide (k ∈ p_children C)) as [Hk|Hk].
    + destruct (exited_forth i I HI) as (I' & HI' & (EI & _)%exit_row_fields). exists I'. split; [done|].
      rewrite EI, Epid. apply (Hlt k P HP). congruence.
    + pose proof (to_parent _ Htab k P HP) as Hq. destruct (p_parent P) as [j|]; [|done].
      destruct Hq as (J & HJ & Hj). destruct (exited_forth j J HJ) as (J' & HJ' & (EJ & _)%exit_row_fields).
      exists J'. split; [done|]. by rewrite EJ, Epid.
  - destruct (to_init _ Htab) as (i' & I & ? & HI & Hli & Hni & Hlt). simplify_eq.
    destruct (exited_forth i I HI) as (I' & HI' & (EI & EPI & ESI & _)%exit_row_fields). exists i, I'.
    rewrite (decide_False (P := i ∈ _)) in EPI by done. rewrite (decide_False (P := i = _)) in ESI by done.
    unfold live in *. rewrite EPI, ESI, EI. do 4 (split; [done|]).
    intros k Q (P & HP & (-> & _)%exit_row_fields)%exited_back. by apply Hlt.
Qed.

Lemma adopt_all_cols p j l h : col_of <$> adopt_all p j l h = col_of <$> h.
Proof. revert h. induction l as [|c l IH]; intros h; simpl; [done|]. by rewrite IH, !cols_alter. Qed.

(** The groups and sessions without the process. *)
Lemma exited_mid :
  let s1 := left_session (cur s) C (off_list s) in
  groups_ok NULL s1 ∧ groups_full s1 ∧ (∀ g G, pgroups s1 !! g = Some G → pg_id G ≤ pids s) ∧
  (∀ q, q ≠ cur s → job s1 q = job s q) ∧ job s1 (cur s) = None.
Proof using Hjo HC Hcur.
  intros s1. pose proof Hjo as [Hok Hf Htab Hl].
  set (sa := {| (s) with procs := alter no_signals (cur s) (procs s) |}).
  assert (Hoka : groups_ok NULL sa).
  { eapply groups_ok_cols; [exact Hok| |done..]. unfold cols. cbn. by rewrite cols_alter. }
  assert (HCa : procs sa !! cur s = Some (no_signals C)) by (cbn; by rewrite lookup_alter_eq, HC).
  assert (Hps : ∀ q, q ∈ remove1 (cur s) (processes s) ↔ q ∈ processes s ∧ q ≠ cur s)
    by (intros q; apply elem_of_remove_one, Htab).
  assert (Hja : ∀ q, job sa q = job s q).
  { intros q. unfold job. cbn. destruct (decide (q = cur s)) as [->|?]; [rewrite lookup_alter_eq, HC|rewrite lookup_alter_ne]; done. }
  destruct (p_session C) as [x|] eqn:Hx.
  - destruct (groups_ok_session NULL sa (cur s) (no_signals C) x Hoka HCa Hx) as (g & X & G & Hij & Hs & _).
    assert (Hlv : leaving sa x g (cur s) X G (no_signals C)) by done. pose proof Hij as [_ Hg _ HX HG _ _ _ _].
    destruct (exit_state_ok sa x g (cur s) X G (no_signals C) (remove1 (cur s) (processes s)) Hlv) as (Hok1 & Hf1 & Hj1);
      [done|by intros q [? _]%Hps|intros q ??; by apply Hps|by intros [_ ?]%Hps|].
    assert (E : s1 = {| (exit_state x g (cur s) X G sa) with processes := remove1 (cur s) (processes s) |}).
    { unfold s1, left_session, off_list. rewrite Hx. cbn in Hg, HX, HG. rewrite Hg. cbn. rewrite HX, HG.
      unfold exit_state, leave_state. by destruct (remove1 (cur s) (pg_procs G)), (ss_pgroups (groups_left g (cur s) G X)). }
    rewrite E. split; [done|]. split; [done|]. split; [|split].
    + intros h H HH. cbn in HH. destruct (exit_state_rest x g (cur s) X G sa) as (_ & _ & _ & _ & E' & _). rewrite E' in HH.
      destruct (leave_group_id _ _ _ _ _ _ _ _ _ Hlv HH) as (H' & HH' & -> & _). by apply (to_pgid _ Htab h).
    + intros q Hq. by rewrite Hj1, Hja.
    + eapply (job_none NULL); [exact Hok1|cbn; by rewrite exit_state_procs, lookup_alter_eq, HCa|done].
  - assert (Hg : p_pgroup C = NULL).
    { pose proof (go_job _ _ Hok (cur s) C HC) as Hj. destruct (p_pgroup C) as [g|]; [|done].
      destruct Hj as (_ & G & HG & Hs). destruct (go_home _ _ Hok g G HG) as (? & ? & ? & _). congruence. }
    assert (E : s1 = {| (sa) with processes := remove1 (cur s) (processes s) |}) by (unfold s1, left_session; by rewrite Hx).
    rewrite E. split; [|split; [done|split; [apply (to_pgid _ Htab)|split]]].
    + apply groups_ok_processes; [done|by intros q [? _]%Hps|]. intros q Q Hq HQ Hn. apply Hps. split; [done|].
      intros ->. rewrite HCa in HQ. by simplify_eq.
    + intros q _. apply Hja.
    + change (job sa (cur s) = None). rewrite Hja. by eapply (job_none NULL).
Qed.

Lemma exited_ok : jobs_ok s' ∧ (∀ q, q ≠ cur s → job s' q = job s q) ∧ job s' (cur s) = None.
Proof using Hjo HC Hcur Hi Hne.
  destruct exited_mid as (Hok1 & Hf1 & Hid1 & Hj1 & Hc1). destruct exited_rest as (_ & _ & _ & El).
  set (s1 := left_session (cur s) C (off_list s)) in *.
  assert (Hcols : cols s1 = cols s').
  { unfold cols, exited. cbn. by rewrite cols_alter, adopt_all_cols. }
  assert (Hok' : groups_ok NULL s') by (by eapply groups_ok_cols).
  assert (Hj : ∀ q, job s' q = job s1 q).
  { intros q. destruct (procs s1 !! q) as [Q|] eqn:HQ.
    - destruct (cols_lookup s1 s' q Q Hcols HQ) as (Q' & HQ' & _ & Eg & Es).
      apply (job_kept NULL NULL s1 s' q Q Q'); [done..| |done|done|done|done]. split; unfold exited; cbn; intros; unfold s1 in *; congruence.
    - assert (procs s' !! q = None) as HQ'.
      { destruct (procs s' !! q) as [Q'|] eqn:E; [|done].
        destruct (cols_lookup s' s1 q Q' (eq_sym Hcols) E) as (? & ? & _). congruence. }
      unfold job. by rewrite HQ, HQ'. }
  split; [|split].
  - split; [done|exact Hf1|by apply exited_table|]. rewrite El. apply Hjo.
  - intros q Hq. rewrite Hj. by apply Hj1.
  - by rewrite Hj.
Qed.
End exited.

(** ** wait on the tables *)
Lemma dead_live P : dead P = true ↔ ¬ live P.
Proof. unfold dead, live. rewrite orb_true_iff, !bool_decide_eq_true. destruct (p_state P); naive_solver. Qed.

Lemma locks_drop (a : lk) (ls : list lk) (L : gset lk) :
  (∀ l, l ∈ ls → l ∉ L) → a ∈ ls → ({[a]} ∪ L) ∖ list_to_set ls = L.
Proof.
  intros Hls Ha. apply set_eq. intros k. rewrite elem_of_difference, elem_of_union, elem_of_singleton, elem_of_list_to_set.
  split; [intros [[->|?] ?]; done|]. intros Hk. split; [by right|]. intros ?. by apply (Hls k).
Qed.

(** The child [c] of [p] is taken away. *)
Definition reaped (p c : loc) (s : jobs) : jobs := {| (s) with procs := delete c (alter (lose_child c) p (procs s)) |}.

Lemma wp_reap p c (Q : unit → jobs → Prop) L s :
  is_Some (procs s !! p) → is_Some (procs s !! c) → c ≠ p → locks s = L → (∀ l, l ∈ proc_locks c → l ∉ L) →
  Q tt (reaped p c s) → wp (reap (Some p) (Some c)) Q (with_locks ({[LProc c]} ∪ L) s).
Proof.
  intros [P HP] [K HK] Hne <- Hnl HQ.
  assert (Hl1 : LProc c ∉ locks s) by (apply Hnl; unfold proc_locks; rewrite !elem_of_cons; auto). assert (Hl2 : LChildren c ∉ locks s) by (apply Hnl; unfold proc_locks; rewrite !elem_of_cons; auto).
  unfold reap, proc_free. call_go. rewrite locks_drop, delete_alter_one; [exact HQ|done|].
  unfold proc_locks. rewrite !elem_of_cons. auto.
Qed.

(** The first dead child, if there is one. *)
Lemma wp_wait_any_loop p (l : list loc) (Q : option (Z * Z) → jobs → Prop) s :
  is_Some (procs s !! p) →
  (∀ c, c ∈ l → is_Some (procs s !! c) ∧ c ≠ p ∧ (∀ k, k ∈ proc_locks c → k ∉ locks s)) →
  (∀ c K, c ∈ l → procs s !! c = Some K → dead K = true → Q (Some (p_pid K, p_exit_status K)) (reaped p c s)) →
  ((∀ c K, c ∈ l → procs s !! c = Some K → dead K = false) → Q None s) →
  wp (wait_any_loop (Some p) l) Q s.
Proof.
  intros Hp. induction l as [|c l IH]; intros Hl Hy Hn; cbn [wait_any_loop]; [apply wp_ret, Hn; by intros ?? ?%elem_of_nil|].
  destruct (Hl c) as ([K HK] & Hne & Hnl); [by left|].
  assert (Hlc : LProc c ∉ locks s) by (apply Hnl; unfold proc_locks; rewrite !elem_of_cons; auto). call_go.
  destruct (dead K) eqn:Hd.
  - call_go. apply wp_reap; [done|by eexists|done|done|done|]. call_go. apply (Hy c K); [by left|done..].
  - call_go. back_to s. apply IH; [intros c' ?; apply Hl; by right|intros c' K' ?; apply Hy; by right|].
    intros Hall. apply Hn. intros c' K' [->|Hc]%elem_of_cons HK'; [congruence|by eapply Hall].
Qed.

Definition no_dead_child (s : jobs) (C : proc_t) : Prop :=
  ∀ c K, c ∈ p_children C → procs s !! c = Some K → dead K = false.

Lemma wp_wait_any C (no_hang : bool) (Q : waited → jobs → Prop) s :
  jobs_ok s → procs s !! cur s = Some C → Z.land (p_flags C) PROC_KILLED = 0 →
  (∀ c K, c ∈ p_children C → procs s !! c = Some K → dead K = true →
     Q (Returns (p_pid K) (Some (p_exit_status K))) (reaped (cur s) c s)) →
  (no_dead_child s C →
     Q (if no_hang then Returns (match p_children C with [] => - ECHILD | _ => 0 end) (Some 0)
        else match p_children C with [] => Returns (- ECHILD) None | _ => Sleeps end) s) →
  wp (wait_any no_hang) Q s.
Proof.
  intros [_ _ Htab Hl] HC Hk Hy Hn.
  assert (Hnl : ∀ l, l ∉ locks s) by (intros l; rewrite Hl; apply not_elem_of_empty).
  unfold wait_any. call_go. rewrite Hk. call_go. apply wp_wait_any_loop; cbn.
  - by eexists.
  - intros c Hc. destruct (child_is_younger s (cur s) C c Htab HC Hc) as (K & HK & _ & Hlt).
    split; [by eexists|]. split; [intros ->; simplify_eq; lia|].
    intros k Hin. apply not_elem_of_union. split; [|apply Hnl]. apply not_elem_of_singleton. intros ->.
    unfold proc_locks in Hin. rewrite !elem_of_cons in Hin.
    destruct Hin as [?|[[= E]|[?|[?|[?|?%elem_of_nil]]]]]; try done. subst c. simplify_eq. lia.
  - intros c K Hc HK Hd. destruct (child_is_younger s (cur s) C c Htab HC Hc) as (K' & HK' & _ & Hlt).
    assert (c ≠ cur s) by (intros ->; simplify_eq; lia). unfold reaped. call_go.
    by apply (Hy c K).
  - intros Hall. call_go. back_to s. specialize (Hn Hall). destruct (p_children C), no_hang; by apply wp_ret.
Qed.

(** ** The tables without the child *)

Section reaped.
Context (s : jobs) (C K : proc_t) (c : loc).
Context (Hjo : jobs_ok s) (HC : procs s !! cur s = Some C) (Hc : c ∈ p_children C).
Context (HK : procs s !! c = Some K) (Hdead : dead K = true).
Local Abbreviation s' := (reaped (cur s) c s).

Lemma reaped_ne : c ≠ cur s.
Proof using Hjo HC Hc.
  destruct Hjo as [_ _ Htab _]. destruct (child_is_younger s (cur s) C c Htab HC Hc) as (K' & ? & _ & ?).
  intros E. assert (K' = C) as -> by congruence. lia.
Qed.
Lemma reaped_procs q Q : procs s' !! q = Some Q ↔
  q ≠ c ∧ ((q = cur s ∧ Q = lose_child c C) ∨ (q ≠ cur s ∧ procs s !! q = Some Q)).
Proof using HC. cbn. rewrite lookup_delete_Some, lookup_alter_Some. naive_solver. Qed.

(** A dead process is in no group. *)
Lemma reaped_no_group : p_pgroup K = NULL.
Proof using Hjo HK Hdead.
  destruct Hjo as [Hok _ Htab _]. pose proof (go_job _ _ Hok c K HK) as Hj. destruct (p_pgroup K); [|done].
  destruct Hj as [Hin _]. apply (to_list _ Htab) in Hin as (K' & ? & ?). apply dead_live in Hdead. congruence.
Qed.

Lemma reaped_groups : groups_ok NULL s' ∧ (∀ q, q ≠ c → job s' q = job s q).
Proof using Hjo HC Hc HK Hdead.
  pose proof Hjo as [Hok _ Htab _]. pose proof reaped_ne as Hne. pose proof reaped_no_group as Hng.
  assert (Hcol : ∀ q Q, procs s' !! q = Some Q → q ≠ c ∧ ∃ Q0, procs s !! q = Some Q0 ∧ col_of Q = col_of Q0).
  { intros q Q [? [[-> ->]|[? ?]]]%reaped_procs; eauto. }
  assert (Hcol' : ∀ q Q, procs s !! q = Some Q → q ≠ c → ∃ Q1, procs s' !! q = Some Q1 ∧ col_of Q1 = col_of Q).
  { intros q Q HQ Hq. destruct (decide (q = cur s)) as [->|?].
    - exists (lose_child c C). split; [apply reaped_procs; auto|]. unfold col_of. cbn. congruence.
    - exists Q. split; [apply reaped_procs; auto|done]. }
  assert (Hok' : groups_ok NULL s').
  { split; try apply Hok.
    - intros g G HG. destruct (go_members _ _ Hok g G HG) as (? & ? & Hm). do 2 (split; [done|]). intros q. rewrite Hm. split.
      + intros (Q & HQ & Hg). destruct (Hcol' q Q HQ) as (Q1 & HQ1 & E); [congruence|]. unfold col_of in E. exists Q1. split; [done|congruence].
      + intros (Q & HQ & Hg). destruct (Hcol q Q HQ) as (_ & Q0 & HQ0 & E). unfold col_of in E. exists Q0. split; [done|congruence].
    - intros q Q HQ. destruct (Hcol q Q HQ) as (_ & Q0 & HQ0 & E). unfold col_of in E.
      pose proof (go_job _ _ Hok q Q0 HQ0) as Hj. by replace (p_pgroup Q) with (p_pgroup Q0) by congruence;
        replace (p_session Q) with (p_session Q0) by congruence.
    - intros q Q g G Hq HQ HG He. destruct (Hcol q Q HQ) as (_ & Q0 & HQ0 & E). unfold col_of in E.
      replace (p_session Q) with (p_session Q0) by congruence. apply (go_own _ _ Hok q Q0 g G); [done..|congruence]. }
  split; [done|]. intros q Hq. destruct (procs s !! q) as [Q|] eqn:HQ.
  - destruct (Hcol' q Q HQ Hq) as (Q1 & HQ1 & E). unfold col_of in E.
    apply (job_kept NULL NULL s s' q Q Q1); [done|done| |done|done|congruence|congruence]. split; cbn; congruence.
  - destruct (procs s' !! q) as [Q1|] eqn:HQ1; [destruct (Hcol q Q1 HQ1) as (_ & ? & ? & _); congruence|].
    unfold job. by rewrite HQ, HQ1.
Qed.

Lemma reaped_table : table_ok s'.
Proof using Hjo HC Hc HK Hdead.
  pose proof Hjo as [Hok _ Htab _]. pose proof reaped_ne as Hne. pose proof Hdead as Hnl%dead_live.
  destruct (child_is_younger s (cur s) C c Htab HC Hc) as (K' & HK' & Hpar & _). assert (K' = K) as -> by congruence.
  assert (Hold : ∀ q Q, procs s' !! q = Some Q → q ≠ c ∧ ∃ Q0, procs s !! q = Some Q0 ∧ p_pid Q = p_pid Q0 ∧
    p_parent Q = p_parent Q0 ∧ p_state Q = p_state Q0 ∧ p_children Q = (if decide (q = cur s) then remove1 c (p_children Q0) else p_children Q0)).
  { intros q Q [? [[-> ->]|[? ?]]]%reaped_procs; (split; [done|]).
    - exists C. by rewrite decide_True.
    - exists Q. by rewrite decide_False. }
  assert (Hnew : ∀ q Q, procs s !! q = Some Q → q ≠ c → ∃ Q1, procs s' !! q = Some Q1 ∧ p_pid Q1 = p_pid Q ∧
    p_parent Q1 = p_parent Q ∧ p_state Q1 = p_state Q).
  { intros q Q HQ Hq. destruct (decide (q = cur s)) as [->|?].
    - exists (lose_child c C). split; [apply reaped_procs; auto|]. by simplify_eq.
    - exists Q. split; [apply reaped_procs; auto|done]. }
  split; cbn [processes pids pgroups initproc reaped]; try apply Htab.
  - intros q. rewrite (to_list _ Htab). split.
    + intros (Q & HQ & Hl). destruct (Hnew q Q HQ) as (Q1 & HQ1 & _ & _ & E); [congruence|].
      exists Q1. split; [done|]. unfold live in *. by rewrite E.
    + intros (Q & HQ & Hl). destruct (Hold q Q HQ) as (_ & Q0 & HQ0 & _ & _ & E & _). exists Q0. unfold live in *. by rewrite <- E.
  - intros p q P Q HP HQ E. destruct (Hold p P HP) as (_ & P0 & HP0 & E0 & _), (Hold q Q HQ) as (_ & Q0 & HQ0 & E1 & _).
    apply (to_pid _ Htab p q P0 Q0); congruence.
  - intros p P HP. destruct (Hold p P HP) as (_ & P0 & HP0 & -> & _). by apply (to_range _ Htab p).
  - intros q Q HQ. destruct (Hold q Q HQ) as (Hq & Q0 & HQ0 & _ & _ & _ & ->). destruct (to_children _ Htab q Q0 HQ0) as [Hnd Hm].
    assert (Hm' : ∀ p, (∃ P, procs s' !! p = Some P ∧ p_parent P = Some q) ↔ p ∈ p_children Q0 ∧ p ≠ c).
    { intros p. rewrite Hm. split.
      - intros (P & HP & E). destruct (Hold p P HP) as (? & P0 & HP0 & _ & E0 & _). split; [|done]. exists P0. split; congruence.
      - intros [(P & HP & E) Hp]. destruct (Hnew p P HP Hp) as (P1 & HP1 & _ & E1 & _). exists P1. split; congruence. }
    setoid_rewrite Hm'. case_decide as Hqc.
    + split; [by apply NoDup_remove1|]. intros p. by rewrite elem_of_remove_one.
    + split; [done|]. intros p. split; [|tauto]. intros Hp. split; [done|]. intros ->.
      apply Hm in Hp as (P & HP & E). congruence.
  - intros q Q HQ Hl. destruct (Hold q Q HQ) as (_ & Q0 & HQ0 & _ & _ & E & ->). unfold live in Hl. rewrite E in Hl.
    rewrite (to_dead _ Htab q Q0 HQ0 Hl). by case_decide.
  - intros p P HP. destruct (Hold p P HP) as (_ & P0 & HP0 & -> & -> & _). pose proof (to_parent _ Htab p P0 HP0) as Hq.
    destruct (p_parent P0) as [q|] eqn:Ep; [|done]. destruct Hq as (Q & HQ & Hlt). destruct (decide (q = c)) as [->|Hqc].
    + exfalso. assert (Q = K) as -> by congruence. assert (p ∈ p_children K) as Hin.
      { apply (proj2 (to_children _ Htab c K HK)). eauto. }
      rewrite (to_dead _ Htab c K HK Hnl) in Hin. by apply elem_of_nil in Hin.
    + destruct (Hnew q Q HQ Hqc) as (Q1 & HQ1 & E & _). exists Q1. split; [done|lia].
  - destruct (to_init _ Htab) as (i & I & Hi & HI & Hl & Hn & Hlt). assert (i ≠ c) by congruence.
    destruct (Hnew i I HI) as (I1 & HI1 & E1 & E2 & E3); [done|]. exists i, I1. unfold live in *. rewrite E1, E2, E3.
    do 4 (split; [done|]). intros p P HP Hp. destruct (Hold p P HP) as (_ & P0 & HP0 & -> & _). by apply (Hlt p P0).
Qed.

Lemma reaped_ok : jobs_ok s' ∧ (∀ q, q ≠ c → job s' q = job s q).
Proof using Hjo HC Hc HK Hdead.
  destruct reaped_groups as [Hok Hj]. split; [|done]. split; [done|apply Hjo|exact reaped_table|apply Hjo].
Qed.
End reaped.
