(* ===== verification/Signals.v ===== *)
(** * Signals ([kernel/sys/signal.c], [kernel/arch/sys/signal.c])

    Sending signals to a process, a group or everyone, the dispositions, and the choice
    of what a pending signal does to the running process.  The threads that sleep on
    [sig_wait] belong to [Cond]. *)
From S2P Require Import Prelude Jobs JobCalls.

Definition SIG_DFL : Z := 0.
Definition SIG_IGN : Z := 1.
Definition SIG_ERR : Z := 2 ^ 32 - 1.

Definition SIGACT_ABORT : Z := 1.
Definition SIGACT_TERMINATE : Z := 2.
Definition SIGACT_IGNORE : Z := 3.
Definition SIGACT_STOP : Z := 4.
Definition SIGACT_CONTINUE : Z := 5.

(** The entries of [sig_default_action], which the compiler sizes by the last one it
    names ([SIGUSR2]); the entries it does not name are 0. *)
Definition sig_default_action : list Z :=
  [ SIGACT_TERMINATE (* SIGHUP *); SIGACT_TERMINATE (* SIGINT *); SIGACT_ABORT (* SIGQUIT *);
    SIGACT_ABORT (* SIGILL *); SIGACT_ABORT (* SIGTRAP *); SIGACT_ABORT (* SIGABRT *); 0 (* SIGEMT *);
    SIGACT_ABORT (* SIGFPE *); SIGACT_TERMINATE (* SIGKILL *); SIGACT_ABORT (* SIGBUS *);
    SIGACT_ABORT (* SIGSEGV *); SIGACT_ABORT (* SIGSYS *); SIGACT_TERMINATE (* SIGPIPE *);
    SIGACT_TERMINATE (* SIGALRM *); SIGACT_TERMINATE (* SIGTERM *); SIGACT_IGNORE (* SIGURG *);
    SIGACT_STOP (* SIGSTOP *); SIGACT_STOP (* SIGTSTP *); SIGACT_CONTINUE (* SIGCONT *);
    SIGACT_IGNORE (* SIGCHLD *); SIGACT_STOP (* SIGTTIN *); SIGACT_STOP (* SIGTTOU *);
    SIGACT_TERMINATE (* SIGPOLL *); 0 (* SIGWINCH *); SIGACT_TERMINATE (* SIGUSR1 *);
    SIGACT_TERMINATE (* SIGUSR2 *) ].

Definition signal_isvalid (sig : Z) : bool := negb ((sig <? 1) || (NSIG <=? sig)).

(** [sig_action[sig - 1].sa_handler] *)
Definition handler_of (P : proc_t) (sig : Z) : Z := p_actions P !!! Z.to_nat (sig - 1).
Definition set_handler (sig h : Z) (P : proc_t) : proc_t :=
  {| (P) with p_actions := <[Z.to_nat (sig - 1) := h]> (p_actions P) |}.

(** ** The queue of signals *)

Definition signals_pending (p : ptr) : M jobs Z :=
  proc_assert_lock p;;
  signals_assert_lock p;;
  signals_lock_queue p;;
  P ← rd p;
  signals_unlock_queue p;;
  mret (Z.of_nat (length (p_sigs P))).

(** [queue_get]: NULL, which is no signal, from an empty queue. *)
Definition signals_next (p : ptr) : M jobs Z :=
  proc_assert_lock p;;
  signals_assert_lock p;;
  obj_lock proc_t LSigq p;;
  P ← rd p;
  match p_sigs P with
  | [] => obj_unlock proc_t LSigq p;; mret 0
  | sig :: l =>
      upd p (λ P, {| (P) with p_sigs := l |});;
      obj_unlock proc_t LSigq p;;
      mret sig
  end.

(** ** Sending *)

(** May the process [C] send a signal to the process [P]?  The tests of the code that
    follow the special cases of root and init. *)
Definition may_signal (same : bool) (C P : proc_t) : bool :=
  negb (negb same && not_zero (p_uid C) && (negb (p_uid C =? p_uid P) && negb (p_gid C =? p_gid P))).

Definition signal_proc_send (process : ptr) (sig : Z) : M jobs Z :=
  proc ← me;
  proc_assert_lock proc;;
  proc_assert_lock process;;
  if (sig <? 1) || (NSIG <=? sig) then mret (- EINVAL) else
  file_table_lock proc;;
  init ← gets initproc;
  C ← rd proc;
  P ← rd process;
  let guarded := bool_decide (proc = init) || not_zero (p_uid C) in
  let h := handler_of P sig in
  if guarded && bool_decide (process = init) && ((h =? SIG_DFL) || (h =? SIG_IGN) || (h =? SIG_ERR)) then
    file_table_unlock proc;; mret (- EPERM)
  else
  let same := bool_decide (proc = process) in
  (if same then mret tt else file_table_lock process);;
  if negb (may_signal same C P) then
    file_table_unlock process;; file_table_unlock proc;; mret (- EPERM)
  else
  (if same then mret tt else file_table_unlock process);;
  file_table_unlock proc;;
  signals_lock process;;
  signals_lock_queue process;;
  ok ← has_room;
  if negb ok then signals_unlock_queue process;; signals_unlock process;; mret (- ENOMEM) else
  upd process (λ P, {| (P) with p_sigs := p_sigs P ++ [sig] |});;
  signals_unlock_queue process;;
  signals_unlock process;;
  mret 0.

(** The number of processes the signal was sent to, and the error that stopped it. *)
Fixpoint pgrp_send_loop (proc : ptr) (sig : Z) (l : list loc) (count : Z) : M jobs (Z * Z) :=
  match l with
  | [] => mret (0, count)
  | p :: l =>
      let other := negb (bool_decide (proc = Some p)) in
      (if other then proc_lock (Some p) else mret tt);;
      err ← signal_proc_send (Some p) sig;
      (if other then proc_unlock (Some p) else mret tt);;
      if not_zero err then mret (err, count) else pgrp_send_loop proc sig l (count + 1)
  end.

Definition signal_pgrp_send (pgroup : ptr) (sig : Z) : M jobs (Z * Z) :=
  proc ← me;
  proc_assert_lock proc;;
  pgroup_assert_lock pgroup;;
  lock_procs pgroup;;
  G ← rd pgroup;
  r ← pgrp_send_loop proc sig (pg_procs G) 0;
  unlock_procs pgroup;;
  mret r.

(** [kill(pid, 0)]: only the right to send is tested. *)
Definition kill_probe (pid : Z) : M jobs Z :=
  proc ← me;
  proc_lock proc;;
  file_table_lock proc;;
  init ← gets initproc;
  C ← rd proc;
  if bool_decide (proc = init) || (p_uid C =? 0) then
    file_table_unlock proc;; proc_unlock proc;; mret 0
  else
  file_table_unlock proc;;
  if pid =? -1 then proc_unlock proc;; mret 0 else
  if pid =? 0 then
    proc_unlock proc;; mret (if bool_decide (p_pgroup C = NULL) then - EPERM else 0)
  else if 0 <? pid then
    '(err, process) ← (if pid =? p_pid C then mret (0, proc) else proc_get pid);
    if not_zero err then proc_unlock proc;; mret err else
    file_table_lock proc;;
    C ← rd proc;
    if bool_decide (proc = init) || (p_uid C =? 0) then
      file_table_unlock proc;; proc_unlock proc;; mret 0
    else
    let same := bool_decide (process = proc) in
    if bool_decide (process = init) then
      file_table_unlock proc;;
      (if same then mret tt else proc_unlock process);;
      proc_unlock proc;; mret (- EPERM)
    else
    (if same then mret tt else file_table_lock process);;
    P ← rd process;
    if negb (may_signal same C P) then
      file_table_unlock process;; file_table_unlock proc;;
      (if same then mret tt else proc_unlock process);;
      proc_unlock proc;; mret (- EPERM)
    else
    (if same then mret tt else proc_unlock process);;
    proc_unlock proc;;
    mret 0
  else
    proc_lock proc;;
    '(err, pgroup) ← sessions_find_pgroup (- pid) true;
    if not_zero err then proc_unlock proc;; mret err else
    C ← rd proc;
    G ← rd pgroup;
    pgroup_unlock pgroup;;
    proc_unlock proc;;
    mret (if bool_decide (p_session C = pg_sessoin G) then 0 else - EPERM).

(** [kill(-1, sig)]; the end of each turn and of the loop take the locks once more. *)
Fixpoint kill_all_loop (sig : Z) (l : list loc) (count : Z) : M jobs (Z * Z) :=
  match l with
  | [] => mret (0, count)
  | p :: l =>
      proc_lock (Some p);;
      err ← signal_proc_send (Some p) sig;
      proc_lock (Some p);;
      if not_zero err then mret (err, count) else kill_all_loop sig l (count + 1)
  end.

Definition kill (pid sig : Z) : M jobs Z :=
  if (sig <? 0) || (NSIG <=? sig) then mret (- EINVAL) else
  if sig =? 0 then kill_probe pid else
  proc ← me;
  if pid =? -1 then
    acquire LProcesses;;
    l ← gets processes;
    '(err, count) ← kill_all_loop sig l 0;
    acquire LProcesses;;
    mret (if not_zero count then 0 else err)
  else if pid =? 0 then
    proc_lock proc;;
    C ← rd proc;
    match p_pgroup C with
    | None => proc_unlock proc;; mret (- EINVAL)
    | Some _ =>
        pgroup_lock (p_pgroup C);;
        '(err, count) ← signal_pgrp_send (p_pgroup C) sig;
        pgroup_unlock (p_pgroup C);;
        proc_unlock proc;;
        mret (if not_zero count then 0 else err)
    end
  else if 0 <? pid then
    self ← getpid;
    '(err, process) ← (if pid =? self then proc_lock proc;; mret (0, proc) else proc_get pid);
    if not_zero err then mret err else
    let other := negb (bool_decide (proc = process)) in
    (if other then proc_lock proc else mret tt);;
    err ← signal_proc_send process sig;
    (if other then proc_unlock proc else mret tt);;
    proc_unlock process;;
    mret err
  else
    proc_lock proc;;
    '(err, pgroup) ← sessions_find_pgroup (- pid) true;
    if not_zero err then proc_unlock proc;; mret err else
    C ← rd proc;
    G ← rd pgroup;
    if negb (bool_decide (p_session C = pg_sessoin G)) then
      pgroup_unlock pgroup;; proc_unlock proc;; mret (- EPERM)
    else
    '(err, count) ← signal_pgrp_send pgroup sig;
    pgroup_unlock pgroup;;
    proc_unlock proc;;
    mret (if not_zero count then 0 else err).

(** ** Dispositions *)

Definition USTACK_LIMIT : Z := 0xC0000000 - 0x8000 * 0x2000.

Definition signal (sig handler : Z) : M jobs Z :=
  if (sig <? 1) || (NSIG <=? sig) then mret (- EINVAL) else
  if (handler =? SIG_ERR) || (USTACK_LIMIT <=? handler) then mret (- EINVAL) else
  proc ← me;
  proc_lock proc;;
  signals_lock proc;;
  P ← rd proc;
  upd proc (set_handler sig handler);;
  signals_unlock proc;;
  proc_unlock proc;;
  mret (handler_of P sig).

Definition signal_cancel_desp (p : ptr) (sig : Z) : M jobs Z :=
  signals_assert_lock p;;
  if negb (signal_isvalid sig) then mret (- EINVAL) else
  upd p (set_handler sig SIG_DFL);;
  mret 0.

(** The handler goes back to the default of the running process. *)
Definition signals_get_handler (p : ptr) (sig : Z) : M jobs Z :=
  signals_assert_lock p;;
  if negb (signal_isvalid sig) then mret SIG_ERR else
  P ← rd p;
  proc ← me;
  err ← signal_cancel_desp proc sig;
  mret (if not_zero err then SIG_ERR else handler_of P sig).

(** What [arch_handle_signal] does: nothing, [exit], or a call of the handler in user mode. *)
Inductive delivery : Type := Nothing | Exits (status : Z) | Calls (handler sig : Z).

Definition arch_handle_signal (sig : Z) : M jobs delivery :=
  proc ← me;
  h ← signals_get_handler proc sig;
  handler ← (if h =? SIG_DFL
             then match sig_default_action !! Z.to_nat (sig - 1) with Some a => mret a | None => fault end
             else mret h);
  if (handler =? SIGACT_STOP) || (handler =? SIGACT_CONTINUE) then panic else
  if handler =? SIGACT_IGNORE then mret Nothing else
  if (handler =? SIGACT_ABORT) || (handler =? SIGACT_TERMINATE) then
    signals_unlock proc;;
    proc_unlock proc;;
    mret (Exits sig)
  else mret (Calls handler sig).

(** Up to the call of [exit], if that is what the signal does; [handling] is the flag
    of the running thread. *)
Definition handle_signals (handling : bool) : M jobs delivery :=
  proc ← me;
  proc_lock proc;;
  signals_lock proc;;
  n ← signals_pending proc;
  d ← (if not_zero n && negb handling then sig ← signals_next proc; arch_handle_signal sig else mret Nothing);
  match d with
  | Exits _ => mret d
  | _ => signals_unlock proc;; proc_unlock proc;; mret d
  end.
