(* ===== verification/SignalsRun.v ===== *)
(** * Signals: what sending one does

    The processes a call of [kill] reaches, and that the tables stay as they are. *)
From S2P Require Import Prelude Jobs JobsRun JobsInv JobCalls JobCallsRun JobTree Signals.

(** ** Sending *)

(** May the caller [C] send the signal to the process [p]?  Init is only signalled with
    a handler in place, unless root (that is not init) does; otherwise the caller must
    be the process, be root, or have its user or its group. *)
Definition allowed (s : jobs) (C : proc_t) (p : loc) (P : proc_t) (sig : Z) : bool :=
  let h := handler_of P sig in
  negb ((bool_decide (Some (cur s) = initproc s) || not_zero (p_uid C)) && bool_decide (Some p = initproc s) &&
        ((h =? SIG_DFL) || (h =? SIG_IGN) || (h =? SIG_ERR))) &&
  (bool_decide (p = cur s) || (p_uid C =? 0) || (p_uid C =? p_uid P) || (p_gid C =? p_gid P)).

(** The test of the code is the rule. *)
Lemma may_signal_rule same C P :
  may_signal same C P = same || (p_uid C =? 0) || (p_uid C =? p_uid P) || (p_gid C =? p_gid P).
Proof. unfold may_signal, not_zero. destruct same, (p_uid C =? 0), (p_uid C =? p_uid P), (p_gid C =? p_gid P); done. Qed.

Definition push_sig (sig : Z) (P : proc_t) : proc_t := {| (P) with p_sigs := p_sigs P ++ [sig] |}.
Definition sent (sig : Z) (ps : list loc) (s : jobs) : jobs :=
  {| (s) with procs := foldl (λ h p, alter (push_sig sig) p h) (procs s) ps |}.

Lemma wp_signal_proc_send C p P sig (Q : Z → jobs → Prop) s :
  procs s !! cur s = Some C → procs s !! p = Some P → signal_isvalid sig = true →
  LProc (cur s) ∈ locks s → LProc p ∈ locks s →
  (∀ q, (LTable q ∉ locks s) ∧ (LSig q ∉ locks s) ∧ (LSigq q ∉ locks s)) → room s = [] →
  (if allowed s C p P sig then Q 0 (sent sig [p] s) else Q (- EPERM) s) →
  wp (signal_proc_send (Some p) sig) Q s.
Proof.
  intros HC HP Hv Hlc Hlp Hnl Hr HQ. unfold allowed in HQ. rewrite <- may_signal_rule in HQ. destruct (Hnl p) as (Hl1 & Hl2 & Hl3), (Hnl (cur s)) as (Hl4 & _ & _).
  unfold signal_isvalid in Hv. apply negb_true_iff in Hv. unfold signal_proc_send. call_go. rewrite Hv. call_go.
  rewrite <- andb_assoc in HQ |- *.
  destruct ((bool_decide (Some (cur s) = initproc s) || not_zero (p_uid C)) && (bool_decide (Some p = initproc s) &&
    ((handler_of P sig =? SIG_DFL) || (handler_of P sig =? SIG_IGN) || (handler_of P sig =? SIG_ERR)))); cbn [negb andb] in *.
  { call_go. by back_to s. }
  replace (bool_decide (Some (cur s) = Some p)) with (bool_decide (p = cur s)) by (apply bool_decide_ext; naive_solver).
  destruct (decide (p = cur s)) as [->|Hne].
  - rewrite bool_decide_eq_true_2 in * by done. assert (C = P) as -> by congruence. unfold may_signal in *. call_go.
    exact HQ.
  - rewrite bool_decide_eq_false_2 in * by done. call_go. destruct (may_signal false C P); call_go.
    + exact HQ.
    + by back_to s.
Qed.

(** The same for a process by its place. *)
Definition allowed_at (sig : Z) (s : jobs) (p : loc) : bool :=
  match procs s !! cur s, procs s !! p with Some C, Some P => allowed s C p P sig | _, _ => false end.

(** The processes of a group that come before the first one that may not be signalled. *)
Fixpoint before_refusal (f : loc → bool) (l : list loc) : list loc :=
  match l with
  | [] => []
  | p :: l => if f p then p :: before_refusal f l else []
  end.

Lemma allowed_at_sent sig q s p : allowed_at sig (sent sig [q] s) p = allowed_at sig s p.
Proof.
  unfold allowed_at. cbn [procs sent cur foldl].
  assert (Hl : ∀ k, (∃ P, alter (push_sig sig) q (procs s) !! k = Some P ∧ procs s !! k = Some P) ∨
    (∃ P, alter (push_sig sig) q (procs s) !! k = Some (push_sig sig P) ∧ procs s !! k = Some P) ∨
    (alter (push_sig sig) q (procs s) !! k = None ∧ procs s !! k = None)).
  { intros k. destruct (decide (k = q)) as [->|?].
    - rewrite lookup_alter_eq. destruct (procs s !! q); cbn; eauto.
    - rewrite lookup_alter_ne by congruence. destruct (procs s !! k); eauto. }
  destruct (Hl (cur s)) as [(C & -> & ->)|[(C & -> & ->)|[-> ->]]]; [| |done];
    destruct (Hl p) as [(P & -> & ->)|[(P & -> & ->)|[-> ->]]]; done.
Qed.
Lemma sent_cons sig p ps s : sent sig (p :: ps) s = sent sig ps (sent sig [p] s).
Proof. done. Qed.
Lemma before_refusal_ext f g l : (∀ p, f p = g p) → before_refusal f l = before_refusal g l.
Proof. intros Hfg. induction l as [|p l IH]; simpl; [done|]. by rewrite Hfg, IH. Qed.

Lemma sent_procs sig ps s p : is_Some (procs s !! p) → is_Some (procs (sent sig ps s) !! p).
Proof.
  cbn. generalize (procs s). induction ps as [|q ps IH]; intros h Hp; simpl; [done|].
  apply IH. by rewrite lookup_alter_is_Some.
Qed.

(** No lock of tables and signals, and of processes only the lock of the caller. *)
Definition caller_only (s : jobs) : Prop :=
  LProc (cur s) ∈ locks s ∧ (∀ q, q ≠ cur s → LProc q ∉ locks s) ∧
  (∀ q, (LTable q ∉ locks s) ∧ (LSig q ∉ locks s) ∧ (LSigq q ∉ locks s)).

Lemma wp_pgrp_send_loop sig (l : list loc) count (Q : Z * Z → jobs → Prop) s :
  signal_isvalid sig = true → caller_only s → room s = [] → is_Some (procs s !! cur s) →
  (∀ p, p ∈ l → is_Some (procs s !! p)) →
  (let ps := before_refusal (allowed_at sig s) l in
   Q (if bool_decide (length ps = length l) then 0 else - EPERM, count + Z.of_nat (length ps)) (sent sig ps s)) →
  wp (pgrp_send_loop (Some (cur s)) sig l count) Q s.
Proof.
  intros Hv. revert count s. induction l as [|p l IH]; intros count s Hco Hr HC Hl HQ; cbn [pgrp_send_loop].
  { apply wp_ret. cbn in HQ. rewrite Z.add_0_r in HQ. unfold sent in HQ. cbn in HQ. by destruct s. }
  pose proof Hco as (Hlc & Hlp & Hlt). destruct HC as [C HC]. destruct (Hl p) as [P HP]; [by left|].
  assert (Hat : allowed_at sig s p = allowed s C p P sig) by (unfold allowed_at; by rewrite HC, HP).
  assert (Hsent : allowed s C p P sig = true → wp (pgrp_send_loop (Some (cur s)) sig l (count + 1)) Q (sent sig [p] s)).
  { intros Ha. apply (IH (count + 1) (sent sig [p] s)); [done|done|..].
    - cbn. rewrite lookup_alter_is_Some. by eexists.
    - intros q Hq. cbn. rewrite lookup_alter_is_Some. apply Hl. by right.
    - cbn zeta. rewrite (before_refusal_ext _ (allowed_at sig s)) by apply allowed_at_sent. cbn zeta in HQ.
      cbn [before_refusal] in HQ. rewrite Hat, Ha in HQ. rewrite sent_cons in HQ. cbn [length] in HQ.
      replace (count + 1 + Z.of_nat (length (before_refusal (allowed_at sig s) l)))
        with (count + Z.of_nat (S (length (before_refusal (allowed_at sig s) l)))) by lia.
      replace (bool_decide (length (before_refusal (allowed_at sig s) l) = length l))
        with (bool_decide (S (length (before_refusal (allowed_at sig s) l)) = S (length l)))
        by (apply bool_decide_ext; lia). done. }
  assert (Hstop : allowed s C p P sig = false → Q (- EPERM, count) s).
  { intros Ha. cbn zeta in HQ. cbn [before_refusal] in HQ. rewrite Hat, Ha in HQ. cbn in HQ. rewrite Z.add_0_r in HQ.
    unfold sent in HQ. cbn in HQ. by destruct s. }
  destruct (decide (p = cur s)) as [->|Hne].
  - rewrite bool_decide_eq_true_2 by done. cbn [negb]. apply wp_bind, wp_ret, wp_bind.
    eapply (wp_signal_proc_send C (cur s) P); [done..|]. destruct (allowed s C (cur s) P sig) eqn:Ha; call_go.
    + by apply Hsent.
    + rewrite not_zero_true by done. apply wp_ret. by apply Hstop.
  - rewrite bool_decide_eq_false_2 by congruence. cbn [negb]. pose proof (Hlp p Hne) as Hp. call_go.
    eapply (wp_signal_proc_send C p P); [done..|lk_solve|lk_solve| |done|].
    { intros q. destruct (Hlt q) as (? & ? & ?). repeat split; lk_solve. }
    change (allowed (with_locks ({[LProc p]} ∪ locks s) s) C p P sig) with (allowed s C p P sig).
    destruct (allowed s C p P sig) eqn:Ha.
    + unfold sent. call_go. specialize (Hsent eq_refl). unfold sent in Hsent. cbn in Hsent. exact Hsent.
    + call_go. rewrite not_zero_true by done. apply wp_ret. back_to s. by apply Hstop.
Qed.

(** The outcome of a signal for the processes of a group. *)
Definition group_error (sig : Z) (s : jobs) (l : list loc) : Z :=
  if bool_decide (before_refusal (allowed_at sig s) l = []) && negb (bool_decide (l = [])) then - EPERM else 0.

Lemma wp_signal_pgrp_send sig g G (Q : Z * Z → jobs → Prop) s :
  signal_isvalid sig = true → caller_only s → room s = [] → is_Some (procs s !! cur s) →
  pgroups s !! g = Some G → LGroup g ∈ locks s → LProcs g ∉ locks s →
  (∀ p, p ∈ pg_procs G → is_Some (procs s !! p)) →
  (∀ err count, (if not_zero count then 0 else err) = group_error sig s (pg_procs G) →
     Q (err, count) (sent sig (before_refusal (allowed_at sig s) (pg_procs G)) s)) →
  wp (signal_pgrp_send (Some g) sig) Q s.
Proof.
  intros Hv (Hlc & Hlp & Hlt) Hr [C HC] HG Hlg Hlq Hl HQ. unfold signal_pgrp_send. call_go.
  apply (wp_pgrp_send_loop sig _ _ _ (with_locks ({[LProcs g]} ∪ locks s) s)); [done| |done|by eexists|done|].
  { split; [lk_solve|]. split; [intros q Hq; specialize (Hlp q Hq); lk_solve|].
    intros q. destruct (Hlt q) as (? & ? & ?). repeat split; lk_solve. }
  cbn zeta. change (allowed_at sig (with_locks ({[LProcs g]} ∪ locks s) s)) with (allowed_at sig s).
  set (ps := before_refusal (allowed_at sig s) (pg_procs G)) in *. unfold sent. call_go.
  specialize (HQ (if bool_decide (length ps = length (pg_procs G)) then 0 else - EPERM) (0 + Z.of_nat (length ps))).
  apply HQ. unfold group_error. fold ps. clear HQ. destruct ps as [|p ps]; cbn [length].
  - destruct (pg_procs G); [done|]. by rewrite bool_decide_eq_false_2, bool_decide_eq_true_2.
  - rewrite not_zero_true by lia. done.
Qed.

(** The tables do not change. *)
Lemma sent_ok sig ps s : jobs_ok s → jobs_ok (sent sig ps s).
Proof.
  intros [Hok Hf Htab Hl].
  assert (Hr : rows s = rows (sent sig ps s) ∧ cols s = cols (sent sig ps s)).
  { unfold rows, cols. cbn. generalize (procs s). induction ps as [|p ps IH]; intros h; simpl; [done|].
    destruct (IH (alter (push_sig sig) p h)) as [<- <-]. by rewrite rows_alter, cols_alter. }
  destruct Hr as [Hr Hc]. split; [by eapply groups_ok_cols|exact Hf| |exact Hl].
  eapply table_ok_rows; [exact Htab|done..|]. exact (to_pgid _ Htab).
Qed.

(** What [kill] does: the signal goes to the process with the id; or to the processes of the group of the caller
    (0) or of the group with the id in its session (negative), in their order, up to the first that the caller may
    not signal. *)
Inductive kill_does (s : jobs) (C : proc_t) (sig : Z) : Z → Z → jobs → Prop :=
  | kill_one pid p P : p ∈ processes s → procs s !! p = Some P → p_pid P = pid → 0 < pid →
      kill_does s C sig pid (if allowed s C p P sig then 0 else - EPERM)
        (if allowed s C p P sig then sent sig [p] s else s)
  | kill_none pid : 0 < pid → (∀ p P, p ∈ processes s → procs s !! p = Some P → p_pid P ≠ pid) →
      kill_does s C sig pid (- ESRCH) s
  | kill_no_job : p_pgroup C = NULL → kill_does s C sig 0 (- EINVAL) s
  | kill_group pid g G : pgroups s !! g = Some G →
      (if pid =? 0 then p_pgroup C = Some g else pid < -1 ∧ pg_id G = - pid ∧ pg_sessoin G = p_session C) →
      kill_does s C sig pid (group_error sig s (pg_procs G)) (sent sig (before_refusal (allowed_at sig s) (pg_procs G)) s)
  | kill_foreign pid g G : pid < -1 → pgroups s !! g = Some G → pg_id G = - pid → pg_sessoin G ≠ p_session C →
      kill_does s C sig pid (- EPERM) s
  | kill_no_group pid : pid < -1 → (∀ g G, pgroups s !! g = Some G → pg_id G ≠ - pid) → kill_does s C sig pid (- ESRCH) s.

Section kill.
Context (s : jobs) (C : proc_t) (sig : Z).
Context (Hjo : jobs_ok s) (Hr : room s = []) (HC : procs s !! cur s = Some C) (Hin : cur s ∈ processes s).
Context (Hv : signal_isvalid sig = true).

Local Lemma unlocked l : l ∉ locks s.
Proof using Hjo. destruct Hjo as [_ _ _ ->]. apply not_elem_of_empty. Qed.

Lemma wp_kill_group g G (Q : Z → jobs → Prop) :
  pgroups s !! g = Some G →
  Q (group_error sig s (pg_procs G)) (sent sig (before_refusal (allowed_at sig s) (pg_procs G)) s) →
  wp ('(err, count) ← signal_pgrp_send (Some g) sig;
      pgroup_unlock (Some g);; proc_unlock (Some (cur s));; mret (if not_zero count then 0 else err)) Q
    (with_locks ({[LGroup g]} ∪ ({[LProc (cur s)]} ∪ locks s)) s).
Proof using All.
  intros HG HQ. pose proof Hjo as [Hok _ _ _]. pose proof unlocked as Hnl. destruct (go_members _ _ Hok g G HG) as (_ & _ & Hm).
  eapply wp_bind, (wp_signal_pgrp_send sig g G); [exact Hv| |done|by eexists|done|lk_solve| | |].
  - split; [lk_solve|]. split.
    + intros q Hq. pose proof (Hnl (LProc q)). cbn in *. rewrite !elem_of_union, !elem_of_singleton. naive_solver.
    + intros q. pose proof (Hnl (LTable q)). pose proof (Hnl (LSig q)). pose proof (Hnl (LSigq q)). repeat split; lk_solve.
  - pose proof (Hnl (LProcs g)). lk_solve.
  - intros p (P & HP & _)%Hm. by eexists.
  - intros err count Hec. pose proof (Hnl (LProc (cur s))). pose proof (Hnl (LGroup g)).
    change (allowed_at sig (with_locks _ s)) with (allowed_at sig s) in *. change (group_error sig (with_locks _ s)) with (group_error sig s) in *.
    destruct (sent_procs sig (before_refusal (allowed_at sig s) (pg_procs G)) s (cur s)) as [C' HC']; [by eexists|].
    revert HQ HC'. unfold sent. cbn. generalize (foldl (λ h p, alter (push_sig sig) p h) (procs s) (before_refusal (allowed_at sig s) (pg_procs G))).
    intros h HQ HC'. call_go. rewrite Hec. exact HQ.
Qed.

Lemma wp_kill_pid pid (Q : Z → jobs → Prop) :
  0 < pid → (∀ r s', kill_does s C sig pid r s' → Q r s') → wp (kill pid sig) Q s.
Proof using All.
  intros Hp HQ. pose proof unlocked as Hnl. pose proof Hjo as [_ _ Htab _]. pose proof Hv as Hv'.
  unfold signal_isvalid, NSIG in Hv'. unfold kill. rewrite (proj2 (Z.ltb_ge sig 0)), (proj2 (Z.leb_gt NSIG sig)) by (unfold NSIG; lia).
  cbn [orb]. rewrite !(proj2 (Z.eqb_neq _ _)) by lia. rewrite (proj2 (Z.ltb_lt 0 pid)) by done.
  apply wp_bind, wp_gets, wp_bind. unfold getpid. call_go. back_to s.
  destruct (Z.eqb_spec pid (p_pid C)) as [->|Hne].
  - call_go. rewrite bool_decide_eq_true_2 by done. call_go.
    eapply (wp_signal_proc_send C (cur s) C); [done..|lk_solve|lk_solve|intros q; repeat split; lk_solve|done|].
    change (allowed (with_locks _ s)) with (allowed s). pose proof (kill_one s C sig (p_pid C) (cur s) C Hin HC eq_refl Hp) as Hd.
    destruct (allowed s C (cur s) C sig); [unfold sent in *|]; call_go; [|back_to s]; by apply HQ.
  - apply wp_proc_get; [done|apply Hnl| | |].
    + intros p (P & HP & _)%(to_list _ Htab). split; [by eexists|apply Hnl].
    + intros p P Hpin HP He. assert (p ≠ cur s) by congruence. pose proof (kill_one s C sig pid p P Hpin HP He Hp) as Hd.
      rewrite bool_decide_eq_false_2 by congruence. call_go.
      eapply (wp_signal_proc_send C p P); [done..|lk_solve|lk_solve|intros q; repeat split; lk_solve|done|].
      change (allowed (with_locks _ _)) with (allowed s).
      destruct (allowed s C p P sig); [unfold sent in *|]; call_go; [|back_to s]; by apply HQ.
    + intros Hall. rewrite not_zero_true by done. apply wp_ret, HQ. by apply kill_none.
Qed.

Lemma wp_kill_job (Q : Z → jobs → Prop) :
  (∀ r s', kill_does s C sig 0 r s' → Q r s') → wp (kill 0 sig) Q s.
Proof using All.
  intros HQ. pose proof unlocked as Hnl. pose proof Hjo as [Hok _ _ _]. pose proof Hv as Hv'.
  unfold signal_isvalid, NSIG in Hv'. unfold kill. rewrite (proj2 (Z.ltb_ge sig 0)), (proj2 (Z.leb_gt NSIG sig)) by (unfold NSIG; lia).
  cbn [orb Z.eqb]. rewrite (proj2 (Z.eqb_neq _ _)) by lia. call_go. destruct (p_pgroup C) as [g|] eqn:Hg.
  - destruct (groups_ok_job NULL s (cur s) C g Hok HC Hg) as (x & X & G & [] & _ & _).
    apply wp_bind, wp_obj_lock; [by eexists|lk_solve|].
    eapply (wp_kill_group g G); [done|]. apply HQ. by eapply kill_group.
  - call_go. back_to s. apply HQ. by apply kill_no_job.
Qed.

Lemma wp_kill_pgid pid (Q : Z → jobs → Prop) :
  pid < -1 → (∀ r s', kill_does s C sig pid r s' → Q r s') → wp (kill pid sig) Q s.
Proof using All.
  intros Hp HQ. pose proof unlocked as Hnl. pose proof Hjo as [Hok _ _ Hl]. pose proof Hv as Hv'.
  unfold signal_isvalid, NSIG in Hv'. unfold kill. rewrite (proj2 (Z.ltb_ge sig 0)), (proj2 (Z.leb_gt NSIG sig)) by (unfold NSIG; lia).
  cbn [orb]. rewrite !(proj2 (Z.eqb_neq _ _)) by lia. rewrite (proj2 (Z.ltb_ge 0 pid)) by lia. call_go.
  set (s1 := with_locks ({[LProc (cur s)]} ∪ locks s) s).
  assert (Hop : only_procs (locks s1)) by (cbn; rewrite Hl; apply only_procs_add, only_procs_empty).
  assert (Hok1 : groups_ok NULL s1) by (split; apply Hok).
  eapply wp_sessions_find_pgroup; [by intros [? ?]%Hop|by eapply sessions_free| |].
  - intros x X g G _ _ _ HG He. apply wp_bind. eapply wp_rd; [done|]. apply wp_bind. eapply wp_rd; [done|].
    case_bool_decide as Hs; cbn [negb].
    + eapply (wp_kill_group g G); [done|]. apply HQ. apply (kill_group _ _ _ pid g G); [done|]. rewrite (proj2 (Z.eqb_neq _ _)) by lia. done.
    + unfold s1. call_go. back_to s. apply HQ. by apply (kill_foreign _ _ _ _ g G).
  - intros Hall. pose proof (no_group_iff _ _ _ Hok1 Hall) as Hnone. rewrite not_zero_true by done. unfold s1. call_go.
    back_to s. apply HQ. by apply kill_no_group.
Qed.

Lemma wp_kill pid (Q : Z → jobs → Prop) :
  pid ≠ -1 → (∀ r s', kill_does s C sig pid r s' → jobs_ok s' → Q r s') → wp (kill pid sig) Q s.
Proof using All.
  intros Hp HQ. assert (Hd : ∀ r s', kill_does s C sig pid r s' → Q r s').
  { intros r s' Hd. apply HQ; [done|]. destruct Hd; try done; [case_match|]; try done; by apply sent_ok. }
  destruct (Z.lt_trichotomy pid 0) as [?|[->|?]]; [apply wp_kill_pgid|apply wp_kill_job|apply wp_kill_pid]; try done; lia.
Qed.
End kill.

(** ** Dispositions *)

Definition disposed (sig handler : Z) (s : jobs) : jobs :=
  {| (s) with procs := alter (set_handler sig handler) (cur s) (procs s) |}.

Lemma disposed_ok sig handler s : jobs_ok s → jobs_ok (disposed sig handler s).
Proof.
  intros [Hok Hf Htab Hl].
  assert (Hr : rows s = rows (disposed sig handler s)) by (symmetry; by apply rows_alter).
  assert (Hc : cols s = cols (disposed sig handler s)) by (symmetry; by apply cols_alter).
  split; [by eapply groups_ok_cols|exact Hf| |exact Hl].
  eapply table_ok_rows; [exact Htab|done..|]. exact (to_pgid _ Htab).
Qed.

Definition disposition_ok (sig handler : Z) : bool :=
  signal_isvalid sig && negb ((handler =? SIG_ERR) || (USTACK_LIMIT <=? handler)).

Lemma wp_signal_call C sig handler (Q : Z → jobs → Prop) s :
  jobs_ok s → procs s !! cur s = Some C →
  (if disposition_ok sig handler then Q (handler_of C sig) (disposed sig handler s) else Q (- EINVAL) s) →
  wp (signal sig handler) Q s.
Proof.
  intros Hjo HC HQ. assert (Hnl : ∀ l, l ∉ locks s) by (intros l; rewrite (jo_locks _ Hjo); apply not_elem_of_empty).
  clear Hjo. unfold signal, disposition_ok, signal_isvalid in *. destruct ((sig <? 1) || (NSIG <=? sig)); [by apply wp_ret|].
  destruct ((handler =? SIG_ERR) || (USTACK_LIMIT <=? handler)); [by apply wp_ret|]. call_go. exact HQ.
Qed.
