(* ===== verification/SigFrame.v ===== *)
(** * The call of a signal handler in user mode ([kernel/arch/sys/signal.c])

    The end of [arch_handle_signal], which makes the thread run its handler, and
    [arch_return_signal], which the page fault at the return address of the handler
    leads to.  The state is the running thread with the frame of its trap and the words
    of its user stack; a word that is not there faults. *)
From S2P Require Import Prelude.

Record trapframe_t : Type := {
  edi : Z; esi : Z; ebp : Z; temp_esp : Z; ebx : Z; edx : Z; ecx : Z; eax : Z;
  gs : Z; fs : Z; es : Z; ds : Z;
  ino : Z; eno : Z;
  eip : Z; cs : Z; eflags : Z; esp : Z; ss : Z;
}.

Record uthread : Type := {
  t_held : bool;            (* the lock of the thread *)
  t_flags : Z;
  savedtf : trapframe_t;    (* t_tarch->savedtf *)
  tf : trapframe_t;
  words : gmap Z Z;
}.
#[export] Instance uthread_lock : Lock uthread := {|
  held := t_held; set_held b t := {| (t) with t_held := b |} |}.

Definition SEG_UCODE : Z := 3.
Definition SEG_UDATA : Z := 4.
Definition DPL_USER : Z := 3.
Definition FL_IF : Z := 0x200.
Definition THREAD_HANDLING_SIGNAL : Z := 2.
Definition RETURN_ADDRESS : Z := 0xDEADDEAD.

Definition trapframe_isuser (f : trapframe_t) : bool := negb (Z.land (cs f) DPL_USER =? 0).

Definition __thread_setflags (flags : Z) : M uthread unit :=
  spin_assert_lock;; modify (λ t : uthread, {| (t) with t_flags := Z.lor (t_flags t) flags |}).
Definition __thread_maskflags (flags : Z) : M uthread unit :=
  spin_assert_lock;; modify (λ t : uthread, {| (t) with t_flags := Z.land (t_flags t) (Z.lnot flags) |}).

(** The lock is taken unless it is held. *)
Definition __thread_ishandling_signal : M uthread bool :=
  h ← gets t_held;
  (if (h : bool) then mret tt else spin_lock);;
  spin_assert_lock;;
  f ← gets t_flags;
  (if (h : bool) then mret tt else spin_unlock);;
  mret (negb (Z.land f THREAD_HANDLING_SIGNAL =? 0)).

Definition push_word (a v : Z) : M uthread unit :=
  m ← gets words;
  match m !! a with
  | Some _ => modify (λ t : uthread, {| (t) with words := <[a := v]> m |})
  | None => fault
  end.

(** From the end of the [switch] on. *)
Definition call_handler (handler sig : Z) : M uthread unit :=
  spin_lock;;
  f ← gets tf;
  modify (λ t : uthread, {| (t) with savedtf := f |});;
  __thread_setflags THREAD_HANDLING_SIGNAL;;
  let ustack := u32 (esp f - 4) in
  push_word ustack sig;;
  let ustack := u32 (ustack - 4) in
  push_word ustack RETURN_ADDRESS;;
  saved ← gets savedtf;
  modify (λ t : uthread, {| (t) with tf :=
    {| edi := edi saved; esi := esi saved; ebp := ustack; temp_esp := temp_esp saved;
       ebx := 0; edx := 0; ecx := 0; eax := 0;
       gs := Z.lor (Z.shiftl SEG_UDATA 3) DPL_USER; fs := Z.lor (Z.shiftl SEG_UDATA 3) DPL_USER;
       es := Z.lor (Z.shiftl SEG_UDATA 3) DPL_USER; ds := Z.lor (Z.shiftl SEG_UDATA 3) DPL_USER;
       ino := 0; eno := 0;
       eip := handler; cs := Z.lor (Z.shiftl SEG_UCODE 3) DPL_USER; eflags := Z.lor FL_IF 2; esp := ustack;
       ss := Z.lor (Z.shiftl SEG_UDATA 3) DPL_USER |} |});;
  spin_unlock.

Definition arch_return_signal : M uthread unit :=
  spin_lock;;
  f ← gets tf;
  if negb (trapframe_isuser f) then panic else
  h ← __thread_ishandling_signal;
  if negb h then panic else
  __thread_maskflags THREAD_HANDLING_SIGNAL;;
  saved ← gets savedtf;
  modify (λ t : uthread, {| (t) with tf := saved |});;
  spin_unlock.

(** The first test of [do_page_fault]: a return from a handler, or from the function a
    thread was started with, which ends the process ([is_main]) or the thread. *)
Inductive landing : Type := Resumes | Exits_process (status : Z) | Exits_thread (status : Z) | Other_fault.

Definition fault_at_return (is_main : bool) : M uthread landing :=
  f ← gets tf;
  if (eip f =? RETURN_ADDRESS) && trapframe_isuser f then
    h ← __thread_ishandling_signal;
    if (h : bool) then arch_return_signal;; mret Resumes
    else mret (if is_main then Exits_process (eax f) else Exits_thread (eax f))
  else mret Other_fault.

(** ** Correctness *)

Lemma wp_push_word a v (Q : unit → uthread → Prop) t :
  is_Some (words t !! a) → Q tt {| (t) with words := <[a := v]> (words t) |} → wp (push_word a v) Q t.
Proof. intros [w Hw] HQ. unfold push_word. apply wp_bind, wp_gets. rewrite Hw. by apply wp_modify. Qed.

Lemma wp_ishandling (Q : bool → uthread → Prop) t :
  Q (negb (Z.land (t_flags t) THREAD_HANDLING_SIGNAL =? 0)) t → wp __thread_ishandling_signal Q t.
Proof.
  intros HQ. unfold __thread_ishandling_signal. apply wp_bind, wp_gets. destruct t as [[] fl sv f w]; wp_go; done.
Qed.

(** The flag is set in flags that have it, and only it is cleared. *)
Lemma handling_set f : Z.land (Z.lor f THREAD_HANDLING_SIGNAL) THREAD_HANDLING_SIGNAL ≠ 0.
Proof. intros H. apply (f_equal (λ z, Z.testbit z 1)) in H. by rewrite Z.land_spec, Z.lor_spec, orb_true_r, Z.bits_0 in H. Qed.
Lemma handling_clear f : Z.land f THREAD_HANDLING_SIGNAL = 0 →
  Z.land (Z.lor f THREAD_HANDLING_SIGNAL) (Z.lnot THREAD_HANDLING_SIGNAL) = f.
Proof.
  intros H. rewrite Z.land_lor_distr_l, Z.land_lnot_diag, Z.lor_0_r. apply Z.bits_inj'. intros n Hn.
  apply (f_equal (λ z, Z.testbit z n)) in H. rewrite Z.land_spec, Z.bits_0 in H. rewrite Z.land_spec, Z.lnot_spec by done.
  destruct (Z.testbit f n), (Z.testbit THREAD_HANDLING_SIGNAL n); done.
Qed.

Definition handler_frame (handler : Z) (f : trapframe_t) : trapframe_t :=
  {| edi := edi f; esi := esi f; ebp := esp f - 8; temp_esp := temp_esp f; ebx := 0; edx := 0; ecx := 0; eax := 0;
     gs := 35; fs := 35; es := 35; ds := 35; ino := 0; eno := 0; eip := handler; cs := 27; eflags := 514; esp := esp f - 8; ss := 35 |}.
Definition in_handler (handler sig : Z) (t : uthread) : uthread :=
  {| t_held := false; t_flags := Z.lor (t_flags t) THREAD_HANDLING_SIGNAL; savedtf := tf t; tf := handler_frame handler (tf t);
     words := <[esp (tf t) - 8 := RETURN_ADDRESS]> (<[esp (tf t) - 4 := sig]> (words t)) |}.

Lemma wp_call_handler handler sig (Q : unit → uthread → Prop) t :
  t_held t = false → 8 ≤ esp (tf t) < 2 ^ 32 → is_Some (words t !! (esp (tf t) - 4)) → is_Some (words t !! (esp (tf t) - 8)) →
  Q tt (in_handler handler sig t) →
  wp (call_handler handler sig) Q t.
Proof.
  intros Hl He H4 H8 HQ. unfold call_handler, __thread_setflags. destruct t as [h fl sv f w]. cbn in *. subst h.
  wp_go. rewrite (u32_small (esp f - 4)) by lia. apply wp_push_word; [done|]. cbn.
  wp_go. replace (esp f - 4 - 4) with (esp f - 8) by lia. rewrite (u32_small (esp f - 8)) by lia.
  apply wp_push_word; [cbn; by rewrite lookup_insert_is_Some'; right|]. cbn. wp_go. exact HQ.
Qed.

(** A thread in user mode that is given a signal runs the handler with the number of the signal as argument
    (at [esp + 4], above the return address, two words below its stack) in user segments with interrupts on;
    its registers are saved and it is marked as handling a signal; no other word of the stack is written and the
    lock is free again. *)
Theorem call_handler_correct t handler sig :
  t_held t = false → 8 ≤ esp (tf t) < 2 ^ 32 → is_Some (words t !! (esp (tf t) - 4)) → is_Some (words t !! (esp (tf t) - 8)) →
  ∃ t', call_handler handler sig t = Ok (tt, t') ∧ t_held t' = false ∧ savedtf t' = tf t ∧
    t_flags t' = Z.lor (t_flags t) THREAD_HANDLING_SIGNAL ∧
    eip (tf t') = handler ∧ esp (tf t') = esp (tf t) - 8 ∧ trapframe_isuser (tf t') = true ∧ Z.testbit (eflags (tf t')) 9 = true ∧
    words t' !! esp (tf t') = Some RETURN_ADDRESS ∧ words t' !! (esp (tf t') + 4) = Some sig ∧
    (∀ a, a ≠ esp (tf t) - 8 → a ≠ esp (tf t) - 4 → words t' !! a = words t !! a).
Proof.
  intros Hl He H4 H8. assert (wp (call_handler handler sig) (λ _ t', t' = in_handler handler sig t) t) as Hw by (by apply wp_call_handler).
  apply wp_exec in Hw as ([] & t' & Hrun & ->). eexists. split; [exact Hrun|]. cbn.
  do 6 (split; [done|]). split; [done|]. split; [by rewrite lookup_insert_eq|].
  split; [rewrite lookup_insert_ne by lia; replace (esp (tf t) - 8 + 4) with (esp (tf t) - 4) by lia; by rewrite lookup_insert_eq|].
  intros a ??. by rewrite !lookup_insert_ne by congruence.
Qed.

(** C26: When the handler returns, whatever it did with its registers and with the stack, the thread goes on from
    where the signal interrupted it, with all its registers and its flags as they were. *)
Theorem handler_return_correct t handler sig f w is_main :
  t_held t = false → 8 ≤ esp (tf t) < 2 ^ 32 → is_Some (words t !! (esp (tf t) - 4)) → is_Some (words t !! (esp (tf t) - 8)) →
  Z.land (t_flags t) THREAD_HANDLING_SIGNAL = 0 → eip f = RETURN_ADDRESS → trapframe_isuser f = true →
  (call_handler handler sig;; modify (λ t : uthread, {| (t) with tf := f; words := w |});; fault_at_return is_main) t =
  Ok (Resumes, {| (t) with savedtf := tf t; words := w |}).
Proof.
  intros Hl He H4 H8 Hf Hip Hu.
  eassert (wp _ (λ r t', r = Resumes ∧ t' = {| (t) with savedtf := tf t; words := w |}) t) as Hw; [|by apply wp_exec in Hw as (? & ? & ? & -> & ->)].
  apply wp_bind, wp_call_handler; [done..|]. apply wp_bind, wp_modify. unfold fault_at_return. apply wp_bind, wp_gets. cbn [tf].
  rewrite Hip, Hu. cbn [Z.eqb andb RETURN_ADDRESS Pos.eqb]. apply wp_bind, wp_ishandling. cbn [t_flags].
  rewrite (proj2 (Z.eqb_neq _ _)) by apply handling_set. cbn [negb]. apply wp_bind. unfold arch_return_signal, __thread_maskflags. wp_go.
  rewrite Hu. cbn [negb]. apply wp_bind, wp_ishandling. cbn [t_flags set_held uthread_lock].
  rewrite (proj2 (Z.eqb_neq _ _)) by apply handling_set. cbn [negb]. wp_go. rewrite handling_clear by done. split; [done|].
  destruct t. cbn in *. by subst.
Qed.

Definition user_thread : uthread :=
  {| t_held := false; t_flags := 1; savedtf := {|
       edi := 0; esi := 0; ebp := 0; temp_esp := 0; ebx := 0; edx := 0; ecx := 0; eax := 0; gs := 0; fs := 0; es := 0; ds := 0;
       ino := 0; eno := 0; eip := 0; cs := 0; eflags := 0; esp := 0; ss := 0 |};
     tf := handler_frame 0x1000 {|
       edi := 1; esi := 2; ebp := 3; temp_esp := 4; ebx := 5; edx := 6; ecx := 7; eax := 8; gs := 35; fs := 35; es := 35; ds := 35;
       ino := 64; eno := 0; eip := 0x2000; cs := 27; eflags := 514; esp := 0x4010; ss := 35 |};
     words := {[0x4000 := 0; 0x4004 := 0]} |}.

Lemma call_handler_correct_witness :
  ∃ t', call_handler 0x3000 15 user_thread = Ok (tt, t') ∧ words t' !! 0x4000 = Some RETURN_ADDRESS ∧ words t' !! 0x4004 = Some 15.
Proof.
  destruct (call_handler_correct user_thread 0x3000 15) as (t' & ? & _ & _ & _ & _ & He & _ & _ & Hr & Hs & _);
    [done|split; vm_compute; [discriminate|reflexivity]|by eexists|by eexists|].
  rewrite He in Hr, Hs. by exists t'.
Defined.

Lemma handler_return_correct_witness :
  ∃ t', (call_handler 0x3000 15;; modify (λ t : uthread, {| (t) with tf := handler_frame RETURN_ADDRESS (tf user_thread); words := ∅ |});;
         fault_at_return true) user_thread = Ok (Resumes, t') ∧ tf t' = tf user_thread.
Proof.
  eexists. split; [apply (handler_return_correct user_thread 0x3000 15);
    [done|split; vm_compute; [discriminate|reflexivity]|by eexists|by eexists|done..]|done].
Defined.
