(* ===== verification/JobsSpec.v ===== *)
(** * Groups and sessions: correctness

    [setsid] and [setpgid] do what they are specified to do when there is memory:
    which process ends up in which group of which session, for every outcome, and the
    invariant of the tables; and what they do where the code goes wrong. *)
From S2P Require Import Prelude Jobs JobsRun JobsInv JobCalls JobCallsRun JobTree JobExit Signals SignalsRun.

(** A bind whose first part returns. *)
Lemma bind_run {A B} (m : M jobs A) (f : A → M jobs B) s o : wp m (λ a s', f a s' = o) s → (m ≫= f) s = o.
Proof. intros (a & s' & E & Ha)%wp_exec. unfold mbind, M_bind. by rewrite E. Qed.

Lemma job_session s q x i j : job s q = Some (x, i, j) → is_Some (sess s !! x).
Proof.
  unfold job. destruct (procs s !! q) as [Q|]; [|done]. cbn. destruct (p_session Q) as [y|]; [|done]. cbn.
  destruct (p_pgroup Q) as [g|]; [|done]. cbn. destruct (sess s !! y) as [X|] eqn:E; [|done]. cbn.
  destruct (pgroups s !! g); [|done]. cbn. intros [= <- _ _]. by rewrite E.
Qed.

(** The id of a process that is in no session is the id of no group. *)
Lemma lone_none s p P : jobs_ok s → procs s !! p = Some P → p ∈ processes s → p_session P = NULL → lone s p P.
Proof.
  intros [Hok _ Htab _] HP Hin Hn. split; [done| |done| |].
  - pose proof (go_job _ _ Hok p P HP) as Hj. destruct (p_pgroup P) as [g|]; [|done].
    destruct Hj as (_ & G & HG & Hs). destruct (go_home _ _ Hok g G HG) as (? & ? & ? & _). congruence.
  - intros q Q HQ He. by eapply (to_pid _ Htab).
  - intros g G HG He. destruct (go_home _ _ Hok g G HG) as (? & ? & ? & _).
    assert (pg_sessoin G = p_session P) by (by apply (groups_ok_own s NULL Hok p P g G)). congruence.
Qed.

Section spec.
Context `{!Kalloc pgroup_t, !Kalloc session_t}.

(** There is memory for a group and for a session. *)
Definition memory : Prop :=
  (∀ h : gmap loc pgroup_t, is_Some (kmalloc_at h)) ∧ (∀ h : gmap loc session_t, is_Some (kmalloc_at h)).

(** What [setsid] is specified to do for the caller [C]: it refuses a process whose id is the id of a group and
    changes nothing then; any other process it makes the only member of a new group of a new session. *)
Definition setsid_spec (s : jobs) (C : proc_t) (r : Z) (s' : jobs) : Prop :=
  ((∃ g G, pgroups s !! g = Some G ∧ pg_id G = p_pid C) → r = - EPERM ∧ s' = s) ∧
  ((∀ g G, pgroups s !! g = Some G → pg_id G ≠ p_pid C) →
    r = p_pid C ∧ ∃ x, job s' (cur s) = Some (x, p_pid C, p_pid C) ∧
      ∀ q, q ≠ cur s → job s' q = job s q ∧ ∀ i j, job s' q ≠ Some (x, i, j)).

Lemma setsid_meets s C :
  memory → jobs_ok s → room s = [] → procs s !! cur s = Some C → cur s ∈ processes s →
  wp setsid (λ r s', jobs_ok s' ∧ setsid_spec s C r s') s.
Proof.
  intros [memg mems] Hjo Hr HC Hin. pose proof Hjo as [Hok _ Htab Hl].
  eapply wp_setsid; [done..| |].
  - intros (g & G & HG & He). split; [done|]. split; [done|]. intros Hno. by destruct (Hno g G).
  - intros Hno. destruct (left_session_ok s (cur s) C Hjo HC Hin Hno) as (C' & Hjo' & Hln & Hpid & Hj).
    destruct (new_session_moved memg mems _ _ _ Hjo' Hln) as (x & (Hjo2 & Hx & Hj2) & Hfr).
    replace (new_session_at (cur s) C (left_session (cur s) C s)) with (new_session_at (cur s) C' (left_session (cur s) C s))
      by (unfold new_session_at; by rewrite Hpid).
    rewrite Hpid in Hx. split; [done|]. split; [intros (g & G & HG & He); by destruct (Hno g G)|].
    intros _. split; [done|]. exists x. split; [done|]. intros q Hq. rewrite Hj2, Hj by done. split; [done|].
    intros i j E. rewrite <- (Hj q Hq) in E. apply job_session in E as [? ?]. congruence.
Qed.

(** C15: [setsid] with memory returns and meets [setsid_spec]: it refuses a process whose id is the id of a group and
    changes nothing then; any other process it makes the only member of a new group of a new session, both with
    the id of the process, and no other process is moved; it returns the id.  The invariant of the tables is
    kept, with no lock held. *)
Theorem setsid_correct s C :
  memory → jobs_ok s → room s = [] → procs s !! cur s = Some C → cur s ∈ processes s →
  ∃ r s', setsid s = Ok (r, s') ∧ jobs_ok s' ∧ setsid_spec s C r s'.
Proof. intros. by apply wp_exec, setsid_meets. Qed.

(** What [setpgid] is specified to do for the caller [C], the process [p] and the group [id]. *)
Definition setpgid_spec (s : jobs) (C : proc_t) (p : loc) (P : proc_t) (id r : Z) (s' : jobs) : Prop :=
  (refused s C p P ≠ 0 → r = refused s C p P ∧ s' = s) ∧
  (refused s C p P = 0 →
    match p_session P with
    | Some x =>
        ((∃ g G, pgroups s !! g = Some G ∧ pg_sessoin G = Some x ∧ pg_id G = id) ∨ id = p_pid P →
           r = 0 ∧ ∃ sid, job s' p = Some (x, sid, id) ∧ ∀ q, q ≠ p → job s' q = job s q) ∧
        ((∀ g G, pgroups s !! g = Some G → pg_sessoin G = Some x → pg_id G ≠ id) → id ≠ p_pid P → r = - EPERM ∧ s' = s)
    | None =>
        (id = p_pid P → r = 0 ∧ ∃ x, job s' p = Some (x, id, id) ∧ ∀ q, q ≠ p → job s' q = job s q) ∧
        (id ≠ p_pid P → r = - EPERM ∧ s' = s)
    end).

Lemma setpgid_meets s C p P pid pgid :
  memory → jobs_ok s → room s = [] → procs s !! cur s = Some C → cur s ∈ processes s →
  0 ≤ pid → 0 ≤ pgid → names s pid p P → (p_parent P = Some (cur s) → p_session C ≠ NULL) →
  wp (setpgid pid pgid) (λ r s', jobs_ok s' ∧ setpgid_spec s C p P (new_pgid P pgid) r s') s.
Proof.
  intros [memg mems] Hjo Hr HC Hcur Hpid Hpgid Hnm Hpar. set (id := new_pgid P pgid). pose proof Hjo as [Hok _ Htab Hl].
  pose proof Hnm as (HP & Hin & _). eapply wp_setpgid; [done..| |].
  { intros Hrf. split; [done|]. split; [done|]. by intros ?. }
  intros Hrf. fold id. unfold moves, setpgid_spec. destruct (p_session P) as [x|] eqn:HPx.
  - intros g X G Hlv. split.
    + intros h H HH Hs He. pose proof (regroup_moved s x g p X G P h H Hjo Hlv Hin HH Hs) as (Hjo' & Hj & Hq).
      split; [done|]. split; [done|]. intros _. rewrite He in Hj. split.
      * intros _. split; [done|]. by exists (ss_sid X).
      * intros Hno. by destruct (Hno h H).
    + intros Hno. destruct (Z.eqb_spec (p_pid P) id) as [He|He].
      * rewrite <- He in *. pose proof (own_group_moved memg s x g p X G P Hjo Hlv Hin Hno) as (Hjo' & Hj & Hq).
        split; [done|]. split; [done|]. intros _. split; [|done]. intros _. split; [done|]. by exists (ss_sid X).
      * split; [done|]. split; [done|]. intros _. split; [|done]. intros [(h & H & ? & ? & ?)|?]; [by destruct (Hno h H)|done].
  - destruct (Z.eqb_spec (p_pid P) id) as [He|He].
    + assert (Hln : lone s p P) by (by apply lone_none).
      destruct (new_session_moved memg mems s p P Hjo Hln) as (x & (Hjo' & Hj & Hq) & _). rewrite He in Hj.
      split; [done|]. split; [done|]. intros _. split; [|done]. intros _. split; [done|]. by exists x.
    + split; [done|]. split; [done|]. done.
Qed.

(** A caller without a session locks the session it does not have. *)
Lemma setpgid_panics s C p P pid pgid :
  jobs_ok s → procs s !! cur s = Some C → 0 ≤ pid → 0 ≤ pgid → names s pid p P →
  p_parent P = Some (cur s) → p_session C = NULL → setpgid pid pgid s = Panic.
Proof using Type.
  intros Hjo HC Hpid Hpgid Hnm Hpar Hx. pose proof Hjo as [_ _ Htab Hl]. pose proof Hnm as (HP & _).
  assert (Hnl : ∀ l, l ∉ locks s) by (intros l; rewrite Hl; apply not_elem_of_empty).
  assert (Hne : p ≠ cur s).
  { pose proof (to_parent _ Htab p P HP) as Hq. rewrite Hpar in Hq. destruct Hq as (Q' & ? & ?). intros ->. simplify_eq. lia. }
  unfold setpgid. rewrite (proj2 (Z.ltb_ge pid 0)), (proj2 (Z.ltb_ge pgid 0)) by lia. cbn [orb].
  apply bind_run, wp_gets. apply bind_run. apply (wp_setpgid_find s C P p pid); [done..|]. cbn beta iota.
  pose proof (Hnl (LProc p)). pose proof (Hnl (LProc (cur s))).
  apply bind_run. job_go. rewrite bool_decide_true by done. apply bind_run. job_go. apply bind_run. job_go. by rewrite Hx.
Qed.

(** C10: [setpgid] on a process of the system and a group id, neither negative, for a process that runs in a state of the tables and with
    memory for groups, sessions and the nodes of queues: it refuses, changing nothing, as [refused] says (not
    the caller nor a child of it, a child in another session, one that has called [exec], one that leads the
    session) and when the session has no group of that id, unless the id is the id of the process; in every
    other case it returns 0, the process is in the group of that id of its session (of a new session if it had
    none) and no other process is moved.  The invariant of the tables is kept, with no lock held.  The exception:
    called for a child by a process that is in no session, it locks the session the caller does not have, which is
    a panic. *)
Theorem setpgid_correct s C p P pid pgid :
  memory → jobs_ok s → room s = [] → procs s !! cur s = Some C → cur s ∈ processes s →
  0 ≤ pid → 0 ≤ pgid → names s pid p P →
  if decide (p_parent P = Some (cur s) ∧ p_session C = NULL) then setpgid pid pgid s = Panic
  else ∃ r s', setpgid pid pgid s = Ok (r, s') ∧ jobs_ok s' ∧ setpgid_spec s C p P (new_pgid P pgid) r s'.
Proof.
  intros. case_decide as Hd; [destruct Hd; by eapply setpgid_panics|]. apply wp_exec, setpgid_meets; try done. tauto.
Qed.

(** C13: [fork] with memory returns the next process id; the child is a new process on the list whose parent is
    the caller, with the caller's user, dispositions, group and session; no other process is moved and the
    invariant of the tables is kept, with no lock held. *)
Theorem fork_correct `{!Kalloc proc_t} s C c :
  jobs_ok s → room s = [] → procs s !! cur s = Some C → cur s ∈ processes s → pids s < 2 ^ 31 - 1 →
  kmalloc_at (procs s) = Some c →
  ∃ s' K, fork s = Ok (pids s + 1, s') ∧ jobs_ok s' ∧ procs s !! c = None ∧ procs s' !! c = Some K ∧
    c ∈ processes s' ∧ p_pid K = pids s + 1 ∧ p_parent K = Some (cur s) ∧ p_uid K = p_uid C ∧ p_gid K = p_gid C ∧
    p_actions K = p_actions C ∧ job s' c = job s (cur s) ∧ (∀ q, q ≠ c → job s' q = job s q).
Proof.
  intros Hjo Hr HC Hin Hpids Hc. pose proof Hjo as [Hok _ Htab Hl]. pose proof (kmalloc_fresh _ _ Hc) as Hfr.
  pose proof (to_range _ Htab (cur s) C HC).
  assert (He : wp fork (λ r s', r = pids s + 1 ∧ s' = forked c C s) s) by (eapply wp_fork; done || lia).
  apply wp_exec in He as (r & s' & He & -> & ->). destruct (forked_ok s c C Hjo HC Hin Hfr) as (Hjo' & Hjc & Hj).
  exists (forked c C s), (child_of c C (pids s + 1) (cur s)). split; [done|]. split; [done|]. split; [done|].
  split; [apply forked_procs; auto|]. split; [cbn; apply elem_of_app; right; by apply list_elem_of_singleton|].
  by split_and!.
Qed.

(** C12: [exit] of a process other than init with memory: the process is dead, off the list, in no group and no
    session and without children; its children are children of init; every other process is in the group and
    session it was in, and the invariant of the tables is kept, with no lock held. *)
Theorem exit_correct s C i status :
  jobs_ok s → room s = [] → procs s !! cur s = Some C → cur s ∈ processes s → initproc s = Some i → i ≠ cur s →
  ∃ s' K, exit status s = Ok (tt, s') ∧ jobs_ok s' ∧ procs s' !! cur s = Some K ∧ p_state K = ZOMBIE ∧
    p_children K = [] ∧ (cur s ∉ processes s') ∧ job s' (cur s) = None ∧ (∀ q, q ≠ cur s → job s' q = job s q) ∧
    (∀ c Q, c ∈ p_children C → procs s' !! c = Some Q → p_parent Q = Some i).
Proof.
  intros Hjo Hr HC Hin Hi Hne. pose proof Hjo as [Hok _ Htab Hl].
  pose proof (to_parent _ Htab (cur s) C HC) as Hq. destruct (p_parent C) as [q|] eqn:Epar; [|congruence].
  assert (He : wp (exit status) (λ _ s', s' = exited i C status s) s) by (by eapply wp_exit).
  apply wp_exec in He as ([] & s' & He & ->).
  destruct (exited_ok s C i status Hjo HC Hin Hi Hne) as (Hjo' & Hj & Hjc).
  destruct (exited_forth s C i status Hjo HC Hi Hne (cur s) C HC) as (K & HK & (_ & _ & Es & Ech)%exit_row_fields).
  rewrite decide_True in Es by done. rewrite decide_True in Ech by done. exists (exited i C status s), K.
  split; [done|]. split; [done|]. split; [done|]. split; [done|]. split; [done|].
  split; [rewrite (proj1 (exited_rest s C i status)), elem_of_remove_one by apply Htab; naive_solver|].
  split; [done|]. split; [done|]. intros c Q Hc HQ.
  destruct (exited_back s C i status Hjo HC Hi Hne c Q HQ) as (P & _ & (_ & Ep & _)%exit_row_fields).
  by rewrite decide_True in Ep.
Qed.

(** C14: [waitpid(-1)] of a process that is not killed: if it has a dead child, one such child is taken out of the
    tables and its id is returned, and every other process stays where it was; otherwise nothing changes and
    the call sleeps, or returns 0 with [WNOHANG], or [-ECHILD] if there is no child at all.  The invariant of
    the tables is kept, with no lock held. *)
Theorem wait_any_correct s C opt :
  jobs_ok s → procs s !! cur s = Some C → Z.land (p_flags C) PROC_KILLED = 0 →
  ∃ w s', waitpid WAIT_ANY opt s = Ok (w, s') ∧ jobs_ok s' ∧
    ((∃ c K, c ∈ p_children C ∧ procs s !! c = Some K ∧ dead K = true ∧
       w = Returns (p_pid K) (Some (p_exit_status K)) ∧ procs s' !! c = None ∧ (∀ q, q ≠ c → job s' q = job s q)) ∨
     (no_dead_child s C ∧ s' = s ∧
       w = if not_zero (Z.land opt WNOHANG) then Returns (match p_children C with [] => - ECHILD | _ => 0 end) (Some 0)
           else match p_children C with [] => Returns (- ECHILD) None | _ => Sleeps end)).
Proof.
  intros Hjo HC Hk. apply wp_exec. unfold waitpid, me. apply wp_bind, wp_gets. cbn [Z.eqb Z.ltb Z.compare WAIT_ANY WAIT_MYPGRP].
  eapply wp_wait_any; [done..| |].
  - intros c K Hc HK Hd. destruct (reaped_ok s C K c Hjo HC Hc HK Hd) as [Hjo' Hj]. split; [done|]. left.
    exists c, K. do 4 (split; [done|]). split; [|done]. cbn. by rewrite lookup_delete_eq.
  - intros Hn. split; [done|]. right. done.
Qed.

(** ** Every sequence of calls *)

(** The scheduler runs the process [p], which calls; there is memory for what the call allocates. *)
Definition run_by (p : loc) (s : jobs) : jobs := {| (s) with cur := p; room := [] |}.

Inductive call : Type :=
| Fork
| Setsid
| Setpgid (pid pgid : Z)
| Exit (status : Z)
| Wait (opt : Z)
| Kill (pid sig : Z)
| Signal (sig handler : Z).

Definition run_call `{!Kalloc proc_t} (k : call) : M jobs unit :=
  match k with
  | Fork => _ ← fork; mret tt
  | Setsid => _ ← setsid; mret tt
  | Setpgid pid pgid => _ ← setpgid pid pgid; mret tt
  | Exit status => exit status
  | Wait opt => _ ← waitpid WAIT_ANY opt; mret tt
  | Kill pid sig => _ ← kill pid sig; mret tt
  | Signal sig handler => _ ← signal sig handler; mret tt
  end.

(** The calls a process may make: there is an id for a child, [setpgid] is for a process that exists and, if
    that is a child, the caller is in a session; init does not exit; a process that waits is not killed; a signal is sent
    (not only tried), and not to every process. *)
Definition may_call (p : loc) (k : call) (s : jobs) : Prop :=
  ∃ C, p ∈ processes s ∧ procs s !! p = Some C ∧
  match k with
  | Fork => pids s < 2 ^ 31 - 1
  | Setsid => True
  | Setpgid pid pgid => 0 ≤ pid ∧ 0 ≤ pgid ∧
      ∃ q P, names (run_by p s) pid q P ∧ (p_parent P = Some p → p_session C ≠ NULL)
  | Exit _ => initproc s ≠ Some p
  | Wait _ => Z.land (p_flags C) PROC_KILLED = 0
  | Kill pid sig => pid ≠ -1 ∧ signal_isvalid sig = true
  | Signal _ _ => True
  end.

Inductive reaches `{!Kalloc proc_t} (s0 : jobs) : jobs → Prop :=
| reaches_start : reaches s0 s0
| reaches_call s p k s' : reaches s0 s → may_call p k s → run_call k (run_by p s) = Ok (tt, s') → reaches s0 s'.

Lemma run_by_ok p s : jobs_ok s → jobs_ok (run_by p s).
Proof. intros [Hok Hf Htab Hl]. split; [split; apply Hok|exact Hf|split; apply Htab|exact Hl]. Qed.

Lemma run_call_ok `{!Kalloc proc_t} s p k :
  memory → (∀ h : gmap loc proc_t, is_Some (kmalloc_at h)) → jobs_ok s → may_call p k s →
  wp (run_call k) (λ _ s', jobs_ok s') (run_by p s).
Proof.
  intros Hmem Hmp Hjo (C & Hin & HC & Hk). pose proof (run_by_ok p s Hjo) as Hjo'. pose proof (jo_table _ Hjo) as Htab.
  destruct k as [| |pid pgid|status|opt|pid sig|sig handler]; cbn [run_call].
  - destruct (Hmp (procs s)) as [c Hc]. pose proof (kmalloc_fresh _ _ Hc). pose proof (to_range _ Htab p C HC).
    apply wp_bind. eapply (wp_fork c C); try done; [cbn; lia|]. apply wp_ret. by apply forked_ok.
  - apply wp_bind. eapply wp_mono; [by apply (setsid_meets _ C)|]. intros r s' [? _]. by apply wp_ret.
  - destruct Hk as (Hpid & Hpgid & q & P & Hn & Hs).
    apply wp_bind. eapply wp_mono; [by apply (setpgid_meets _ C q P)|]. intros r s' [? _]. by apply wp_ret.
  - destruct (to_init _ Htab) as (i & I & Hi & _). pose proof (to_parent _ Htab p C HC) as Hq.
    destruct (p_parent C) as [q|] eqn:Ep; [|done]. assert (i ≠ p) by congruence.
    eapply (wp_exit i C q); try done. by apply exited_ok.
  - apply wp_bind. unfold waitpid, me. apply wp_bind, wp_gets. cbn [Z.eqb Z.ltb Z.compare WAIT_ANY WAIT_MYPGRP].
    eapply wp_wait_any; [done..| |]; intros; apply wp_ret; [|done]. by eapply reaped_ok.
  - destruct Hk. apply wp_bind. eapply (wp_kill (run_by p s) C); [done..|]. intros. by apply wp_ret.
  - apply wp_bind. eapply (wp_signal_call C); [done..|]. destruct (disposition_ok sig handler); apply wp_ret; [|done].
    by apply disposed_ok.
Qed.

(** C6: With memory (for processes, groups, sessions and the nodes of queues), in every state that forks, [setsid],
    [setpgid], exits, waits for any child, and signals of any processes in any order lead to from a state that satisfies the
    invariant of the tables: the invariant holds (queues and pointers agree, no group or session is empty or lost,
    no two processes and no two groups have the same id - two sessions may -, no lock is held), and every one of the
    calls of [may_call] returns, without a panic and without touching a freed object.  [may_call] leaves out the
    calls that panic (a signal to every process, [setpgid] of a child by a process in no session, [exit] of init) or
    may leave locks held (signal 0), invalid signals, [setpgid] with a negative argument or for a process that is not
    there, a wait of a process that has been killed, and a fork when the process ids are used up. *)
Theorem jobs_invariant `{!Kalloc proc_t} s0 s :
  memory → (∀ h : gmap loc proc_t, is_Some (kmalloc_at h)) → jobs_ok s0 → reaches s0 s →
  jobs_ok s ∧ ∀ p k, may_call p k s → ∃ s', run_call k (run_by p s) = Ok (tt, s') ∧ jobs_ok s'.
Proof.
  intros Hmem Hmp H0 Hr. assert (Hjo : jobs_ok s).
  { induction Hr as [|s p k s' _ IH Hm He]; [done|]. pose proof (run_call_ok s p k Hmem Hmp IH Hm) as Hw.
    apply wp_exec in Hw as ([] & s1 & He1 & ?). congruence. }
  split; [done|]. intros p k Hm. pose proof (run_call_ok s p k Hmem Hmp Hjo Hm) as Hw.
  apply wp_exec in Hw as ([] & s1 & He1 & ?). eauto.
Qed.
End spec.

(** ** The system after the boot *)

Definition init_row : proc_t := {| (first_row) with p_pid := 1; p_state := RUNNING |}.
Definition boot : jobs :=
  {| procs := {[1%positive := init_row]}; pgroups := ∅; sess := ∅; sessions := []; processes := [1%positive];
     initproc := Some 1%positive; pids := 1; cur := 1%positive; locks := ∅; room := [] |}.

Lemma boot_ok : jobs_ok boot.
Proof.
  assert (H1 : ∀ p P, procs boot !! p = Some P → p = 1%positive ∧ P = init_row).
  { intros p P HP. cbn in HP. apply lookup_singleton_Some in HP as [<- <-]. done. }
  assert (Hg : ∀ g, pgroups boot !! g = None) by (intros; apply lookup_empty).
  assert (Hx : ∀ x, sess boot !! x = None) by (intros; apply lookup_empty).
  split; [split|..].
  - intros g G HG. by rewrite Hg in HG.
  - intros x X HX. by rewrite Hx in HX.
  - constructor.
  - intros x. rewrite Hx. split; [by intros ?%elem_of_nil|by intros [? ?]].
  - intros g G HG. by rewrite Hg in HG.
  - by intros p P [-> ->]%H1.
  - intros g h G H HG. by rewrite Hg in HG.
  - intros p P g G _ _ HG. by rewrite Hg in HG.
  - intros g G HG. by rewrite Hg in HG.
  - split.
    + apply NoDup_singleton.
    + intros p. cbn [processes boot]. rewrite list_elem_of_singleton. split; [|by intros (P & [-> _]%H1 & _)].
      intros ->. exists init_row. split; [apply lookup_singleton_eq|done].
    + by intros p q P Q [-> ->]%H1 [-> ->]%H1.
    + by intros p P [-> ->]%H1.
    + intros g G HG. by rewrite Hg in HG.
    + intros q Q [-> ->]%H1. split; [constructor|]. intros p. split; [by intros ?%elem_of_nil|by intros (P & [-> ->]%H1 & ?)].
    + by intros p P [-> ->]%H1.
    + by intros p P [-> ->]%H1.
    + exists 1%positive, init_row. do 4 (split; [done|]). by intros p P [-> ->]%H1.
  - done.
Qed.

#[local] Instance pgroup_total : Kalloc pgroup_t := kalloc_total pgroup_t.
#[local] Instance session_total : Kalloc session_t := kalloc_total session_t.
#[local] Instance proc_total : Kalloc proc_t := kalloc_total proc_t.

Lemma memory_total : memory.
Proof. split; intros h; by eexists. Qed.

Lemma setsid_correct_witness :
  ∃ r s', setsid boot = Ok (r, s') ∧ jobs_ok s' ∧ setsid_spec boot init_row r s'.
Proof. apply (setsid_correct boot init_row memory_total boot_ok); [done|done|by left]. Defined.

Lemma setpgid_correct_witness :
  ∃ r s', setpgid 0 0 boot = Ok (r, s') ∧ jobs_ok s' ∧ setpgid_spec boot init_row 1%positive init_row 1 r s'.
Proof.
  apply (setpgid_correct boot init_row 1%positive init_row 0 0 memory_total boot_ok); [done|done|by left|done|done|].
  split; [done|]. split; [by left|done].
Defined.

Lemma fork_correct_witness : ∃ s' K, fork boot = Ok (2, s') ∧ jobs_ok s' ∧ procs s' !! 2%positive = Some K ∧ p_pid K = 2.
Proof.
  destruct (fork_correct boot init_row 2%positive boot_ok) as (s' & K & ? & ? & _ & ? & _ & ? & _); [done|done|by left|done|done|].
  by exists s', K.
Defined.

(** Init and one child, which runs. *)
Definition child_row : proc_t := child_of 2%positive init_row 2 1%positive.
Definition two : jobs := run_by 2%positive (forked 2%positive init_row boot).
Lemma two_ok : jobs_ok two.
Proof. apply run_by_ok, forked_ok; [apply boot_ok|done|by left|done]. Qed.

Lemma exit_correct_witness : ∃ s' K, exit 7 two = Ok (tt, s') ∧ procs s' !! 2%positive = Some K ∧ p_state K = ZOMBIE.
Proof.
  destruct (exit_correct two child_row 1%positive 7 two_ok) as (s' & K & ? & _ & ? & ? & _); [done|done|by right; left|done|done|].
  by exists s', K.
Defined.

Lemma wait_any_correct_witness : ∃ w s', waitpid WAIT_ANY 0 boot = Ok (w, s') ∧ jobs_ok s'.
Proof.
  destruct (wait_any_correct boot init_row 0 boot_ok) as (w & s' & ? & ? & _); [done|done|]. by exists w, s'.
Defined.

Lemma jobs_invariant_witness : jobs_ok boot ∧ ∃ s', run_call Fork (run_by 1%positive boot) = Ok (tt, s') ∧ jobs_ok s'.
Proof.
  destruct (jobs_invariant boot boot memory_total) as [? Hc]; [intros h; by eexists|apply boot_ok|constructor|].
  split; [done|]. apply (Hc 1%positive Fork). exists init_row. split; [by left|]. by split.
Defined.
