(* ===== verification/JobsFaults.v ===== *)
(** * Groups, sessions and processes: where the code goes wrong

    Calls that do not do what they are meant to do, as theorems about the code. *)
From S2P Require Import Prelude Jobs JobsRun JobsInv JobCalls JobCallsRun JobTree JobExit JobsSpec.

(** Going on from a call that returns. *)
Lemma bind_exec {A B} (m : M jobs A) (f : A → M jobs B) (Q : A → jobs → Prop) s o :
  wp m Q s → (∀ a s', Q a s' → f a s' = o) → (m ≫= f) s = o.
Proof. intros Hw Hf. apply wp_exec in Hw as (a & s' & He & HQ). unfold mbind, M_bind. rewrite He. by apply Hf. Qed.

Section wait.
Context (s : jobs) (C : proc_t).
Context (Hjo : jobs_ok s) (HC : procs s !! cur s = Some C).

(** ** waitpid with the id of a process *)

Lemma wp_proc_getchild pid (Q : Z * ptr → jobs → Prop) :
  0 < pid →
  (∀ p P, p ∈ processes s → procs s !! p = Some P → p_pid P = pid → p_parent P = Some (cur s) → Q (- ECHILD, NULL) s) →
  (∀ p P, p ∈ processes s → procs s !! p = Some P → p_pid P = pid → p_parent P ≠ Some (cur s) →
     Q (0, Some p) (with_locks ({[LProc p]} ∪ locks s) s)) →
  ((∀ p P, p ∈ processes s → procs s !! p = Some P → p_pid P ≠ pid) → Q (- ESRCH, NULL) s) →
  wp (proc_getchild pid) Q s.
Proof using Hjo HC.
  intros Hpid Hch Hot Hno. pose proof Hjo as [_ _ Htab Hl].
  assert (Hnl : ∀ l, l ∉ locks s) by (intros l; rewrite Hl; apply not_elem_of_empty).
  unfold proc_getchild. apply wp_bind, wp_proc_get; [done|apply Hnl| | |].
  - intros p (P & HP & _)%(to_list _ Htab). split; [by eexists|apply Hnl].
  - intros p P Hin HP He. call_go. case_bool_decide as Hp.
    + call_go. back_to s. by apply (Hch p P).
    + call_go. by apply (Hot p P).
  - intros Hall. rewrite not_zero_true by done. apply wp_ret. by apply Hno.
Qed.
End wait.

(** C39: [waitpid] with the id of a child of the caller does not wait for it, dead or alive: it returns [-ECHILD]
    at once and leaves the child where it is ([proc_getchild] has its test the wrong way round). *)
Theorem waitpid_child_refused s C c K opt :
  jobs_ok s → procs s !! cur s = Some C → c ∈ p_children C → procs s !! c = Some K →
  waitpid (p_pid K) opt s = Ok (Returns (- ECHILD) None, s).
Proof.
  intros Hjo HC Hc HK. pose proof Hjo as [_ _ Htab _]. pose proof (to_range _ Htab c K HK) as Hr.
  destruct (child_is_younger s (cur s) C c Htab HC Hc) as (K' & HK' & Hpar & _). assert (K' = K) as -> by congruence.
  assert (Hw : wp (waitpid (p_pid K) opt) (λ r s', r = Returns (- ECHILD) None ∧ s' = s) s).
  { unfold waitpid, me. apply wp_bind, wp_gets. change (p_pid K =? WAIT_MYPGRP) with (p_pid K =? 0).
    rewrite (proj2 (Z.eqb_neq (p_pid K) 0)), (proj2 (Z.ltb_lt 0 (p_pid K))) by lia.
    apply wp_bind, (wp_proc_getchild s C Hjo HC); [lia| | |].
    - intros p P _ _ _ _. by apply wp_ret.
    - intros p P _ HP He Hne. assert (p = c) as -> by (by apply (to_pid _ Htab p c P K)). congruence.
    - intros _. by apply wp_ret. }
  apply wp_exec in Hw as (r & s' & He & -> & ->). done.
Qed.

(** [waitpid] with the id of a process that is not a child of the caller panics (unless the caller is killed):
    the process is returned locked and locked again. *)
Theorem waitpid_other_panics s C p P opt :
  jobs_ok s → procs s !! cur s = Some C → p ∈ processes s → procs s !! p = Some P → p_parent P ≠ Some (cur s) →
  Z.land (p_flags C) PROC_KILLED = 0 → waitpid (p_pid P) opt s = Panic.
Proof.
  intros Hjo HC Hin HP Hpar Hk. pose proof Hjo as [_ _ Htab Hl]. pose proof (to_range _ Htab p P HP) as Hr.
  assert (Hnl : ∀ l, l ∉ locks s) by (intros l; rewrite Hl; apply not_elem_of_empty).
  unfold waitpid, me. change (p_pid P =? WAIT_MYPGRP) with (p_pid P =? 0).
  rewrite (proj2 (Z.eqb_neq (p_pid P) 0)), (proj2 (Z.ltb_lt 0 (p_pid P))) by lia.
  eapply bind_exec; [by apply wp_gets with (Q := λ a s', a = Some (cur s) ∧ s' = s)|]. intros _ _ [-> ->].
  eapply (bind_exec _ _ (λ r s', r = (0, Some p) ∧ s' = with_locks ({[LProc p]} ∪ locks s) s)).
  { apply (wp_proc_getchild s C Hjo HC); [lia| | |].
    - intros q Q _ HQ He Hq. assert (q = p) as -> by (by apply (to_pid _ Htab q p Q P)). congruence.
    - intros q Q _ HQ He _. assert (q = p) as -> by (by apply (to_pid _ Htab q p Q P)). done.
    - intros Hall. by destruct (Hall p P). }
  intros _ _ [-> ->]. cbn [not_zero negb Z.eqb].
  assert (Hpanic : ∀ B (f : unit → M jobs B) L, LProc p ∈ L → (proc_lock (Some p) ≫= f) (with_locks L s) = Panic).
  { intros B f L HL. unfold proc_lock, obj_lock, mbind, M_bind, rd. cbn. rewrite HP. unfold acquire, spin_holding, gets, mbind, M_bind.
    cbn. by rewrite bool_decide_eq_true_2. }
  destruct (decide (p = cur s)) as [->|Hne]; [apply Hpanic; set_solver|].
  eapply (bind_exec _ _ (λ _ s', s' = with_locks ({[LProc (cur s)]} ∪ ({[LProc p]} ∪ locks s)) s)); [by call_go|].
  intros _ _ ->. eapply (bind_exec _ _ (λ _ s', s' = with_locks ({[LProc p]} ∪ locks s) s)); [by call_go|].
  intros _ _ ->. unfold wait_child, me.
  eapply bind_exec; [by apply wp_gets with (Q := λ a s', a = Some (cur s) ∧ s' = with_locks ({[LProc p]} ∪ locks s) s)|].
  intros _ _ [-> ->].
  eapply (bind_exec _ _ (λ a s', a = C ∧ s' = with_locks ({[LProc p]} ∪ locks s) s)); [by eapply wp_rd|]. intros _ _ [-> ->].
  rewrite Hk. cbn [not_zero negb Z.eqb].
  eapply (bind_exec _ _ (λ _ s', s' = with_locks ({[LChildren (cur s)]} ∪ ({[LProc p]} ∪ locks s)) s)); [by call_go|].
  intros _ _ ->. apply Hpanic. set_solver.
Qed.

(** ** The status of a process that has ended *)

Lemma status_alter (f : proc_t → proc_t) (p k : loc) (h : gmap loc proc_t) : (∀ P, p_exit_status (f P) = p_exit_status P) →
  p_exit_status <$> alter f p h !! k = p_exit_status <$> h !! k.
Proof.
  intros Hf. destruct (decide (k = p)) as [->|?]; [|by rewrite lookup_alter_ne].
  rewrite lookup_alter_eq. destruct (h !! p); cbn; [by rewrite Hf|done].
Qed.
Lemma status_adopt p i l k h : p_exit_status <$> adopt_all p i l h !! k = p_exit_status <$> h !! k.
Proof. revert h. induction l as [|c l IH]; intros h; simpl; [done|]. by rewrite IH, !status_alter. Qed.
Lemma status_left c C k s : p_exit_status <$> procs (left_session c C s) !! k = p_exit_status <$> procs s !! k.
Proof.
  unfold left_session. destruct (p_session C) as [x|]; [|done]. destruct (p_pgroup C) as [g|]; [|done].
  destruct (sess s !! x) as [X|]; [|done]. destruct (pgroups s !! g) as [G|]; [|done].
  rewrite exit_state_procs. by apply status_alter.
Qed.
Lemma status_exited i C status k s : p_exit_status <$> procs (exited i C status s) !! k = p_exit_status <$> procs s !! k.
Proof. unfold exited. cbn. rewrite status_alter by done. rewrite status_adopt, status_left. cbn. by rewrite status_alter. Qed.

(** The parent of a process that ends, if that is not init, is as before. *)
Lemma parent_exited s C i q P status :
  jobs_ok s → procs s !! cur s = Some C → initproc s = Some i → i ≠ cur s → p_parent C = Some q → q ≠ i →
  procs s !! q = Some P → procs (exited i C status s) !! q = Some P.
Proof.
  intros Hjo HC Hi Hne Hpar Hqi HP. pose proof Hjo as [_ _ Htab _].
  pose proof (to_parent _ Htab (cur s) C HC) as Hq. rewrite Hpar in Hq. destruct Hq as (P' & ? & Hlt).
  assert (P' = P) as -> by congruence. assert (Hqc : q ≠ cur s) by (intros ->; assert (P = C) by congruence; subst; lia).
  assert (Hqch : q ∉ p_children C).
  { intros Hin. destruct (child_is_younger s (cur s) C q Htab HC Hin) as (K & ? & _ & ?). assert (K = P) by congruence. subst. lia. }
  destruct (exit_children_ok s C i Hjo HC Hi Hne) as (Hnd & Hc & Hic).
  destruct (left_session_procs (cur s) C (off_list s)) as (f & _ & Epr & _).
  unfold exited. cbn. rewrite lookup_alter_ne by congruence. rewrite adopt_all_lookup by done.
  rewrite !decide_False by done. rewrite Epr. cbn. by rewrite !lookup_alter_ne by congruence.
Qed.

(** Init, its child and a child of that, which runs. *)
Definition grandchild_row : proc_t := child_of 3%positive child_row 3 2%positive.
Definition parent_row : proc_t := add_child 3%positive child_row.
Definition three : jobs := run_by 3%positive (forked 3%positive child_row two).
Lemma three_ok : jobs_ok three.
Proof. apply run_by_ok, forked_ok; [apply two_ok|done|by right; left|done]. Qed.

(** C38: The status a process gives to [exit] does not reach its parent: whatever it is, the [waitpid] of the parent
    that takes the process away reports the [exit_status] the process had before, 0 since its creation
    ([exit] writes the field [exit], [waitpid] reads the field [exit_status]). *)
Theorem exit_status_lost s C i q P status :
  jobs_ok s → room s = [] → procs s !! cur s = Some C → cur s ∈ processes s → initproc s = Some i → i ≠ cur s →
  p_parent C = Some q → q ≠ i → procs s !! q = Some P → Z.land (p_flags P) PROC_KILLED = 0 → no_dead_child s P →
  ∃ s1 s2, exit status s = Ok (tt, s1) ∧
    waitpid WAIT_ANY 0 (run_by q s1) = Ok (Returns (p_pid C) (Some (p_exit_status C)), s2).
Proof.
  intros Hjo Hr HC Hin Hi Hne Hpar Hqi HP Hk Hnd. pose proof Hjo as [Hok _ Htab Hl].
  assert (He : wp (exit status) (λ _ s', s' = exited i C status s) s) by (by eapply wp_exit).
  apply wp_exec in He as ([] & s1 & He & ->). set (s1 := exited i C status s) in *.
  destruct (exited_ok s C i status Hjo HC Hin Hi Hne) as (Hjo1 & _).
  assert (HP1 : procs s1 !! q = Some P) by (by apply parent_exited).
  assert (Hc : cur s ∈ p_children P) by (apply (proj2 (to_children _ Htab q P HP)); eauto).
  assert (Hw : wp (waitpid WAIT_ANY 0) (λ r _, r = Returns (p_pid C) (Some (p_exit_status C))) (run_by q s1)).
  2: { apply wp_exec in Hw as (r & s2 & Hw & ->). eauto. }
  unfold waitpid, me. apply wp_bind, wp_gets. cbn [Z.eqb Z.ltb Z.compare WAIT_ANY WAIT_MYPGRP].
  eapply (wp_wait_any P); [by apply run_by_ok|done|done| |].
  - intros c K Hcin HK Hd. change (procs s1 !! c = Some K) in HK. destruct (exited_back s C i status Hjo HC Hi Hne c K HK) as (K0 & HK0 & Hrow).
    apply exit_row_fields in Hrow as (Epid & _ & Est & _). destruct (decide (c = cur s)) as [->|Hcc].
    + assert (K0 = C) as -> by congruence. pose proof (status_exited i C status (cur s) s) as E. fold s1 in E.
      rewrite HK, HC in E. cbn in E. congruence.
    + exfalso. specialize (Hnd c K0 Hcin HK0). unfold dead in *. rewrite Est in Hd. congruence.
  - intros Hall. exfalso. destruct (exited_forth s C i status Hjo HC Hi Hne (cur s) C HC) as (K & HK & Hrow).
    apply exit_row_fields in Hrow as (_ & _ & Est & _). rewrite decide_True in Est by done.
    specialize (Hall (cur s) K Hc HK). unfold dead in Hall. by rewrite Est in Hall.
Qed.

Lemma exit_status_lost_witness : ∃ s1 s2, exit 7 three = Ok (tt, s1) ∧
  waitpid WAIT_ANY 0 (run_by 2%positive s1) = Ok (Returns 3 (Some 0), s2).
Proof.
  apply (exit_status_lost three grandchild_row 1%positive 2%positive parent_row 7 three_ok); try done.
  - right; right. by left.
  - intros c K Hc. cbn in Hc. apply list_elem_of_singleton in Hc as ->. intros [= <-]. done.
Defined.

Lemma waitpid_child_refused_witness : waitpid 2 0 (run_by 1%positive two) = Ok (Returns (- ECHILD) None, run_by 1%positive two).
Proof.
  apply (waitpid_child_refused (run_by 1%positive two) (add_child 2%positive init_row) 2%positive child_row 0);
    [apply run_by_ok, two_ok|done|by left|done].
Defined.
Lemma waitpid_other_panics_witness : waitpid 1 0 two = Panic.
Proof.
  apply (waitpid_other_panics two child_row 1%positive (add_child 2%positive init_row) 0); [apply two_ok|done|by left|done|done|done].
Defined.

(** ** The ids of sessions *)

#[local] Instance pgroup_total' : Kalloc pgroup_t := kalloc_total pgroup_t.
#[local] Instance session_total' : Kalloc session_t := kalloc_total session_t.
#[local] Instance proc_total' : Kalloc proc_t := kalloc_total proc_t.

(** [m] is run by the process [p]. *)
Definition by_proc {A} (p : loc) (m : M jobs A) : M jobs A := λ s, m (run_by p s).

(** Init makes a session and a child; the child makes a group of its own; init, though it leads the session, moves
    to that group; init makes a session again. *)
Definition two_sessions : M jobs Z :=
  by_proc 1%positive setsid;;
  by_proc 1%positive fork;;
  by_proc 2%positive (setpgid 0 0);;
  by_proc 1%positive (setpgid 0 2);;
  by_proc 1%positive setsid.

(** [setpgid] lets the leader of a session move to another group, and after that [setsid] gives the id of its
    session to a second one: there are two sessions with the same id, each with a process in it. *)
Theorem sessions_share_id :
  ∃ s x y i j, two_sessions boot = Ok (1, s) ∧ x ≠ y ∧ job s 1%positive = Some (x, 1, i) ∧ job s 2%positive = Some (y, 1, j).
Proof.
  destruct (two_sessions boot) as [[r s]| | |] eqn:E; [|exfalso; vm_compute in E; discriminate E..].
  exists s, 2%positive, 1%positive, 1, 2.
  assert (Hs : match two_sessions boot with
    | Ok (r, s) => bool_decide (r = 1 ∧ job s 1%positive = Some (2%positive, 1, 1) ∧ job s 2%positive = Some (1%positive, 1, 2))
    | _ => false end = true) by (vm_compute; reflexivity).
  rewrite E in Hs. apply bool_decide_eq_true in Hs as (-> & H1 & H2).
  split; [reflexivity|]. split; [discriminate|]. split; [exact H1|exact H2].
Qed.

(** ** A fork that fails *)

(** When [fork] runs out of memory after the child is on the list of processes, it frees the child and leaves it
    on the list: from then on every search for a process that comes after it in the list reads freed memory. *)
Theorem fork_failure_dangles :
  ∃ s, fork {| (boot) with room := [true; false] |} = Ok (- ENOMEM, s) ∧
    2%positive ∈ processes s ∧ procs s !! 2%positive = None ∧ ∀ pid, 1 < pid → proc_get pid s = Fault.
Proof.
  set (s1 := {| procs := {[1%positive := init_row]}; pgroups := ∅; sess := ∅; sessions := []; processes := [1%positive; 2%positive];
     initproc := Some 1%positive; pids := 2; cur := 1%positive; locks := ∅; room := [] |}).
  exists s1. split; [vm_compute; reflexivity|]. split; [right; by left|]. split; [reflexivity|].
  intros pid Hpid. unfold proc_get. rewrite (proj2 (Z.leb_gt pid 0)) by lia.
  eapply (bind_exec _ _ (λ _ s', s' = with_locks {[LProcesses]} s1)).
  { apply wp_acquire_lk; [apply not_elem_of_empty|]. change (locks s1) with (∅ : gset lk). by rewrite union_empty_r_L. }
  intros _ _ ->. change ((proc_get_loop pid [1%positive; 2%positive] ≫= λ p, release LProcesses ≫= λ _,
    mret (match p with Some _ => (0, p) | None => (- ESRCH, NULL) end)) (with_locks {[LProcesses]} s1) = Fault).
  unfold mbind at 1, M_bind at 1.
  assert (Hl : proc_get_loop pid [1%positive; 2%positive] (with_locks {[LProcesses]} s1) = Fault); [|by rewrite Hl].
  cbn [proc_get_loop].
  eapply (bind_exec _ _ (λ _ s', s' = with_locks ({[LProc 1%positive]} ∪ {[LProcesses]}) s1)).
  { unfold proc_lock. apply wp_obj_lock; [by eexists|lk_solve|done]. }
  intros _ _ ->. eapply (bind_exec _ _ (λ P s', P = init_row ∧ s' = with_locks ({[LProc 1%positive]} ∪ {[LProcesses]}) s1)).
  { by eapply wp_rd. }
  intros _ _ [-> ->]. rewrite (proj2 (Z.eqb_neq (p_pid init_row) pid)) by (cbn; lia).
  eapply (bind_exec _ _ (λ _ s', procs s' = procs s1)).
  { unfold proc_unlock. apply wp_obj_unlock; [by eexists|cbn; set_solver|done]. }
  intros _ s' E. unfold proc_lock, obj_lock, mbind, M_bind, rd. cbn. by rewrite E.
Qed.
