(* ===== verification/SignalsSpec.v ===== *)
(** * Signals: correctness

    Who gets a signal that is sent, what the signal then does to the process, and where
    the code goes wrong. *)
From S2P Require Import Prelude Jobs JobsRun JobsInv JobCalls JobCallsRun JobTree JobExit Signals SignalsRun JobsSpec JobsFaults.

(** C11: [kill] with a valid signal (not 0) for anything but every process (-1), with memory for the nodes of the queues of
    signals (without it the call is -ENOMEM): it always returns; the signal is put at
    the end of the queues of exactly the processes it is for, which are the process with the id, or the processes
    of the group in their order up to the first that the caller may not signal; the result is 0, or the error
    that says why no process got it; and nothing else changes, the invariant of the tables in particular. *)
Theorem kill_correct s C pid sig :
  jobs_ok s → room s = [] → procs s !! cur s = Some C → cur s ∈ processes s → signal_isvalid sig = true → pid ≠ -1 →
  ∃ r s', kill pid sig s = Ok (r, s') ∧ kill_does s C sig pid r s' ∧ jobs_ok s'.
Proof. intros. apply wp_exec. eapply wp_kill; eauto. Qed.

Lemma kill_correct_witness : ∃ r s', kill 1 15 two = Ok (r, s') ∧ kill_does two child_row 15 1 r s' ∧ jobs_ok s'.
Proof. apply (kill_correct two child_row); [apply two_ok|done|done|by right; left|done|done]. Defined.

(** A lock that is held is not taken. *)
Lemma relock_panics l s : l ∈ locks s → acquire l s = Panic.
Proof. intros Hl. unfold acquire, spin_holding, gets, mbind, M_bind. by rewrite bool_decide_eq_true_2. Qed.
Lemma relock_proc_panics {B} (f : unit → M jobs B) p s :
  is_Some (procs s !! p) → LProc p ∈ locks s → (proc_lock (Some p) ≫= f) s = Panic.
Proof.
  intros [P HP] Hl. unfold proc_lock, obj_lock, mbind, M_bind, rd. cbn. rewrite HP. by rewrite relock_panics.
Qed.
Lemma bind_panic {A B} (m : M jobs A) (f : A → M jobs B) s : m s = Panic → (m ≫= f) s = Panic.
Proof. intros E. unfold mbind, M_bind. by rewrite E. Qed.

(** One turn of the loop of [kill(-1)]. *)
Lemma kill_all_turn_panics C sig p l count s :
  procs s !! cur s = Some C → is_Some (procs s !! p) → signal_isvalid sig = true → room s = [] →
  locks s = {[LProcesses]} → kill_all_loop sig (p :: l) count s = Panic.
Proof.
  intros HC [P HP] Hv Hr Hl. cbn [kill_all_loop]. set (s1 := with_locks ({[LProc p]} ∪ locks s) s).
  eapply (bind_exec _ _ (λ _ s', s' = s1)).
  { unfold proc_lock. apply wp_obj_lock; [by eexists|rewrite Hl; set_solver|done]. }
  intros _ _ ->. destruct (decide (p = cur s)) as [->|Hne].
  - eapply (bind_exec _ _ (λ _ s', locks s' = locks s1 ∧ is_Some (procs s' !! cur s))).
    { eapply (wp_signal_proc_send C (cur s) C); [done..| | | |done|].
      - cbn. set_solver.
      - cbn. set_solver.
      - intros q. cbn. rewrite Hl. set_solver.
      - destruct (allowed s1 C (cur s) C sig); [|by split; [|eexists]]. split; [done|]. cbn. rewrite lookup_alter_is_Some. by eexists. }
    intros err s' [El HP']. apply relock_proc_panics; [done|]. rewrite El. cbn. set_solver.
  - apply bind_panic. unfold signal_proc_send. eapply (bind_exec _ _ (λ a s', a = Some (cur s) ∧ s' = s1)); [by apply wp_gets|].
    intros _ _ [-> ->]. apply bind_panic. unfold proc_assert_lock, obj_assert_lock.
    eapply (bind_exec _ _ (λ _ s', s' = s1)); [by eapply wp_rd|]. intros P' _ ->.
    unfold assert_held, spin_holding, gets, mbind, M_bind. rewrite bool_decide_eq_false_2; [done|]. cbn. rewrite Hl. set_solver.
Qed.

(** [kill(-1)] never returns: the kernel panics, since the caller is not locked when the first process of the list is
    signalled, or since the lock of that process is taken a second time where it should be released. *)
Theorem kill_all_panics s C sig :
  jobs_ok s → room s = [] → procs s !! cur s = Some C → signal_isvalid sig = true → kill (-1) sig s = Panic.
Proof.
  intros Hjo Hr HC Hv. pose proof Hjo as [_ _ Htab Hl]. pose proof Hv as Hv'. unfold signal_isvalid, NSIG in Hv'.
  unfold kill. rewrite (proj2 (Z.ltb_ge sig 0)), (proj2 (Z.leb_gt NSIG sig)) by (unfold NSIG; lia).
  cbn [orb Z.eqb Pos.eqb]. rewrite (proj2 (Z.eqb_neq _ _)) by lia.
  eapply (bind_exec _ _ (λ a s', a = Some (cur s) ∧ s' = s)); [by apply wp_gets|]. intros _ _ [-> ->].
  eapply (bind_exec _ _ (λ _ s', s' = with_locks ({[LProcesses]} ∪ locks s) s)); [apply wp_acquire_lk; [rewrite Hl; set_solver|done]|].
  intros _ _ ->. eapply (bind_exec _ _ (λ l s', l = processes s ∧ s' = with_locks ({[LProcesses]} ∪ locks s) s)); [by apply wp_gets|].
  intros _ _ [-> ->]. apply bind_panic. destruct (to_init _ Htab) as (i & I & _ & HI & Hlive & _).
  assert (Hi : i ∈ processes s) by (apply (to_list _ Htab); eauto).
  destruct (processes s) as [|p l] eqn:E; [by apply elem_of_nil in Hi|].
  apply (kill_all_turn_panics C); [done| |done|done|cbn; rewrite Hl; set_solver].
  destruct (proj1 (to_list _ Htab p)) as (P & HP & _); [rewrite E; by left|by eexists].
Qed.

Lemma kill_all_panics_witness : kill (-1) 15 two = Panic.
Proof. apply (kill_all_panics two child_row); [apply two_ok|done..]. Defined.

(** ** Delivery *)

(** The handler of the signal, or its default action. *)
Definition action_of (P : proc_t) (sig : Z) : option Z :=
  if handler_of P sig =? SIG_DFL then sig_default_action !! Z.to_nat (sig - 1) else Some (handler_of P sig).

Definition delivers (a sig : Z) : delivery :=
  if a =? SIGACT_IGNORE then Nothing
  else if (a =? SIGACT_ABORT) || (a =? SIGACT_TERMINATE) then Exits sig
  else Calls a sig.

(** The signal is taken from the queue and its handler is back to the default. *)
Definition take_sig (sig : Z) (P : proc_t) : proc_t := set_handler sig SIG_DFL {| (P) with p_sigs := tail (p_sigs P) |}.
Definition taken (sig : Z) (s : jobs) : jobs := {| (s) with procs := alter (take_sig sig) (cur s) (procs s) |}.

Lemma wp_arch_handle_signal C sig a (Q : delivery → jobs → Prop) s :
  procs s !! cur s = Some C → locks s = {[LSig (cur s); LProc (cur s)]} → signal_isvalid sig = true →
  action_of C sig = Some a → (a =? SIGACT_STOP) || (a =? SIGACT_CONTINUE) = false →
  (let s' := {| (s) with procs := alter (set_handler sig SIG_DFL) (cur s) (procs s) |} in
   match delivers a sig with Exits st => Q (Exits st) (with_locks ∅ s') | d => Q d s' end) →
  wp (arch_handle_signal sig) Q s.
Proof.
  intros HC Hl Hv Ha Hsc HQ. assert (Hls : LSig (cur s) ∈ locks s) by (rewrite Hl; set_solver).
  assert (Hlp : LProc (cur s) ∈ locks s) by (rewrite Hl; set_solver).
  unfold arch_handle_signal, signals_get_handler, signal_cancel_desp. call_go. rewrite Hv. cbn [negb]. call_go.
  set (s' := {| (s) with procs := alter (set_handler sig SIG_DFL) (cur s) (procs s) |}) in *. unfold action_of in Ha. cbn zeta in HQ.
  eapply (wp_mono _ (λ h t, h = a ∧ t = s')).
  { destruct (handler_of C sig =? SIG_DFL); [rewrite Ha|injection Ha as <-]; by apply wp_ret. }
  intros _ _ [-> ->]. rewrite Hsc. unfold delivers in HQ. destruct (a =? SIGACT_IGNORE); [by apply wp_ret|].
  destruct ((a =? SIGACT_ABORT) || (a =? SIGACT_TERMINATE)); [|by apply wp_ret].
  assert (Hp : is_Some (procs s' !! cur s)) by (cbn; rewrite lookup_alter_is_Some; by eexists). unfold signals_unlock, proc_unlock.
  apply wp_bind, wp_obj_unlock; [done|done|]. apply wp_bind, wp_obj_unlock; [done|cbn; lk_solve|]. apply wp_ret.
  cbn in *. rewrite Hl. replace ((_ ∖ _) ∖ _) with (∅ : gset lk) by set_solver. exact HQ.
Qed.

Lemma taken_jobs_ok sig s : jobs_ok s → jobs_ok (taken sig s).
Proof.
  intros [Hok Hf Htab Hl]. assert (Hr : rows s = rows (taken sig s)) by (symmetry; by apply rows_alter).
  assert (Hc : cols s = cols (taken sig s)) by (symmetry; by apply cols_alter).
  split; [by eapply groups_ok_cols|exact Hf| |exact Hl]. eapply table_ok_rows; [exact Htab|done..|]. exact (to_pgid _ Htab).
Qed.

Section handle.
Context (s : jobs) (C : proc_t).
Context (Hjo : jobs_ok s) (HC : procs s !! cur s = Some C).

Lemma wp_handle_nothing handling (Q : delivery → jobs → Prop) :
  p_sigs C = [] ∨ handling = true → Q Nothing s → wp (handle_signals handling) Q s.
Proof using All.
  intros Hn HQ. assert (Hnl : ∀ l, l ∉ locks s) by (intros l; rewrite (jo_locks _ Hjo); apply not_elem_of_empty).
  assert (Hz : not_zero (Z.of_nat (length (p_sigs C))) && negb handling = false)
    by (destruct Hn as [->| ->]; [done|apply andb_false_r]).
  unfold handle_signals, signals_pending. call_go. rewrite Hz. call_go. by back_to s.
Qed.

Lemma wp_handle_first sig l a (Q : delivery → jobs → Prop) :
  p_sigs C = sig :: l → signal_isvalid sig = true → action_of C sig = Some a →
  (a =? SIGACT_STOP) || (a =? SIGACT_CONTINUE) = false → Q (delivers a sig) (taken sig s) → wp (handle_signals false) Q s.
Proof using All.
  intros Hs Hv Ha Hsc HQ. assert (Hnl : ∀ l, l ∉ locks s) by (intros l'; rewrite (jo_locks _ Hjo); apply not_elem_of_empty).
  unfold handle_signals, signals_pending, signals_next. call_go. rewrite Hs. cbn [length not_zero negb andb]. rewrite not_zero_true by lia. call_go.
  rewrite Hs. call_go.
  assert (Hpr : alter (set_handler sig SIG_DFL) (cur s) (alter (λ P, {| (P) with p_sigs := l |}) (cur s) (procs s)) =
    alter (take_sig sig) (cur s) (procs s)).
  { apply map_eq. intros q. destruct (decide (q = cur s)) as [->|?]; [|by rewrite !lookup_alter_ne by congruence].
    rewrite !lookup_alter_eq, HC. cbn. unfold take_sig. by rewrite Hs. }
  eapply (wp_arch_handle_signal {| (C) with p_sigs := l |} sig a); [cbn; by rewrite lookup_alter_eq, HC| |done|done|done|].
  { cbn. rewrite (jo_locks _ Hjo). set_solver. }
  cbn [procs cur with_locks]. rewrite Hpr. cbn zeta.
  assert (Hp : is_Some (alter (take_sig sig) (cur s) (procs s) !! cur s)) by (rewrite lookup_alter_is_Some; by eexists).
  assert (Hfree : ∀ d, d = delivers a sig → wp (signals_unlock (Some (cur s)) ≫= λ _, proc_unlock (Some (cur s)) ≫= λ _, mret d) Q
    {| (with_locks ({[LSig (cur s)]} ∪ ({[LProc (cur s)]} ∪ locks s)) s) with procs := alter (take_sig sig) (cur s) (procs s) |}).
  { intros d ->. unfold signals_unlock, proc_unlock. apply wp_bind, wp_obj_unlock; [done|cbn; lk_solve|]. job_simp.
    apply wp_bind, wp_obj_unlock; [done|cbn; lk_solve|]. job_simp. by apply wp_ret. }
  destruct (delivers a sig) eqn:Hd; [by apply Hfree| |by apply Hfree]. apply wp_ret. unfold taken in HQ. 
  cbn. rewrite (jo_locks _ Hjo) in HQ. exact HQ.
Qed.
(** An action that cannot be carried out: a signal behind the end of [sig_default_action]
    is read from outside the array, and stopping and continuing end in a panic. *)
Definition fails_with {A} (o : option Z) : outcome A := match o with None => Fault | Some _ => Panic end.
Definition carried_out (o : option Z) : bool :=
  match o with None => false | Some a => negb ((a =? SIGACT_STOP) || (a =? SIGACT_CONTINUE)) end.

Lemma arch_handle_fails D sig t : procs t !! cur t = Some D → LSig (cur t) ∈ locks t → signal_isvalid sig = true →
  carried_out (action_of D sig) = false → arch_handle_signal sig t = fails_with (action_of D sig).
Proof using Type.
  intros HD Hl Hv Hc. unfold arch_handle_signal, signals_get_handler, signal_cancel_desp.
  apply bind_run. call_go. apply bind_run. call_go. rewrite Hv. cbn [negb]. call_go. unfold action_of in *.
  destruct (handler_of D sig =? SIG_DFL); [destruct (sig_default_action !! _) as [a|]; [|done]|].
  all: apply bind_run, wp_ret; cbn in *; apply negb_false_iff in Hc; by rewrite Hc.
Qed.
Lemma bind_fails {A B} (m : M jobs A) (f : A → M jobs B) t o : m t = fails_with o → (m ≫= f) t = fails_with o.
Proof using Type. intros E. unfold mbind, M_bind. rewrite E. by destruct o. Qed.
Lemma handle_first_fails sig l : p_sigs C = sig :: l → signal_isvalid sig = true → carried_out (action_of C sig) = false →
  handle_signals false s = fails_with (action_of C sig).
Proof using All.
  intros Hs Hv Hc. assert (Hnl : ∀ l, l ∉ locks s) by (intros l'; rewrite (jo_locks _ Hjo); apply not_elem_of_empty).
  unfold handle_signals, signals_pending, signals_next. apply bind_run. call_go. apply bind_run. call_go. apply bind_run. call_go.
  apply bind_run. call_go. rewrite Hs. cbn [length negb]. rewrite not_zero_true by lia. cbn [andb].
  apply bind_fails, bind_run. call_go. rewrite Hs. call_go.
  change (action_of C sig) with (action_of {| (C) with p_sigs := l |} sig). apply arch_handle_fails; [| |done|done].
  - cbn. by rewrite lookup_alter_eq, HC.
  - cbn. set_solver.
Qed.
End handle.

(** C16: When a process returns to user mode with a signal pending and no handler running, the first signal of its queue
    is taken and its handler set back to the default, and what its disposition (or, for [SIG_DFL], the table of default
    actions) says is done: the action 3 ignores the signal, 1 and 2 make the process exit with it, and any other number is
    the address of a handler that runs.  [SIG_IGN] is the number 1, so that a process that ignores a signal exits.
    Stopping and continuing (4 and 5) are a panic, and a signal that the table does not reach (27 and above, by default)
    reads outside it.  With an empty queue or a handler running nothing happens.  The tables are kept and no lock
    stays held. *)
Theorem handle_signals_correct s C handling :
  jobs_ok s → procs s !! cur s = Some C →
  match p_sigs C with
  | sig :: _ =>
      if (handling : bool) then handle_signals handling s = Ok (Nothing, s)
      else signal_isvalid sig = true →
        match action_of C sig with
        | None => handle_signals handling s = Fault
        | Some a =>
            if (a =? SIGACT_STOP) || (a =? SIGACT_CONTINUE) then handle_signals handling s = Panic
            else handle_signals handling s = Ok (delivers a sig, taken sig s) ∧ jobs_ok (taken sig s)
        end
  | [] => handle_signals handling s = Ok (Nothing, s)
  end.
Proof.
  intros Hjo HC. destruct (p_sigs C) as [|sig l] eqn:Hs; [|destruct handling; [|intros Hv]].
  - assert (Hw : wp (handle_signals handling) (λ d s', d = Nothing ∧ s' = s) s) by (eapply wp_handle_nothing; eauto).
    by apply wp_exec in Hw as (? & ? & ? & -> & ->).
  - assert (Hw : wp (handle_signals true) (λ d s', d = Nothing ∧ s' = s) s) by (eapply wp_handle_nothing; eauto).
    by apply wp_exec in Hw as (? & ? & ? & -> & ->).
  - destruct (action_of C sig) as [a|] eqn:Ha; [destruct ((a =? SIGACT_STOP) || (a =? SIGACT_CONTINUE)) eqn:Hsc|].
    + rewrite (handle_first_fails s C Hjo HC sig l Hs Hv), Ha; [done|]. rewrite Ha. cbn. by rewrite Hsc.
    + split; [|by apply taken_jobs_ok].
      assert (Hw : wp (handle_signals false) (λ d s', d = delivers a sig ∧ s' = taken sig s) s) by (by eapply wp_handle_first).
      by apply wp_exec in Hw as (? & ? & ? & -> & ->).
    + rewrite (handle_first_fails s C Hjo HC sig l Hs Hv), Ha; [done|by rewrite Ha].
Qed.

(** Init with two signals, for the second of which it has a handler. *)
Definition signalled : jobs := disposed 15 0x8000 (sent 15 [1%positive] (sent 20 [1%positive] boot)).
Lemma signalled_ok : jobs_ok signalled.
Proof. by apply disposed_ok, sent_ok, sent_ok, boot_ok. Qed.

Lemma handle_signals_correct_witness : handle_signals false signalled = Ok (Nothing, taken 20 signalled).
Proof.
  by apply (handle_signals_correct signalled (set_handler 15 0x8000 (push_sig 15 (push_sig 20 init_row))) false signalled_ok eq_refl).
Defined.

(** C40: A process that ignores a signal is ended by it: the disposition [SIG_IGN] has the number of the default action
    [SIGACT_ABORT], so that a pending signal that is to be ignored makes the process exit. *)
Theorem ignored_signal_kills s C sig l :
  jobs_ok s → procs s !! cur s = Some C → p_sigs C = sig :: l → signal_isvalid sig = true → handler_of C sig = SIG_IGN →
  handle_signals false s = Ok (Exits sig, taken sig s).
Proof.
  intros Hjo HC Hs Hv Hh.
  assert (Hw : wp (handle_signals false) (λ d s', d = Exits sig ∧ s' = taken sig s) s).
  { eapply (wp_handle_first s C Hjo HC sig l SIG_IGN); try done. unfold action_of. by rewrite Hh. }
  by apply wp_exec in Hw as (? & ? & ? & -> & ->).
Qed.

Lemma ignored_signal_kills_witness :
  handle_signals false (disposed 15 SIG_IGN (sent 15 [1%positive] boot)) =
  Ok (Exits 15, taken 15 (disposed 15 SIG_IGN (sent 15 [1%positive] boot))).
Proof.
  apply (ignored_signal_kills _ (set_handler 15 SIG_IGN (push_sig 15 init_row)) 15 []); [by apply disposed_ok, sent_ok, boot_ok|done..].
Defined.
